(* ===== verification/_CoqProject ===== *)
-Q . S2P
Prelude.v
Thread.v
HartIRQ.v
RiscvMMU.v
RiscvCSR.v
SifivePLIC.v
SifiveCLINT.v
SifiveUART.v
Platform.v
BlockIR.v
IRSorter.v
IRSorterCorrect.v
BlockFlow.v
ReorderBlocks.v
ThreadJumps.v
MergeBlocks.v
BlockCompiler.v
ValueFlow.v
ValueRenumbering.v
ConstantProp.v
DeadStore.v
RegStore.v
MovElimination.v
RegAlloc.v
RegAllocCorrect.v
PostAlloc.v
IRTypes.v
RegisterFile.v
IRConstants.v
ConstantFold.v
SSAForm.v
SSAMachine.v
SSAReach.v
SSADominance.v
SSAInterp.v
SSAInterpFacts.v
SSAPasses.v
SSAPassesCorrect.v
SSASimplifyCorrect.v
SSAConstPasses.v
BitStrings.v
DecodeTree.v
DecodeTreeCorrect.v
DecodeOptimize.v
TraceRecords.v
TraceSource.v
TraceStream.v
JITCache.v
JITCacheSafe.v
JITFeatures.v
MemAllocator.v
MemAllocatorSafe.v
JITAllocator.v
X86Encoder.v
X86Decode.v
X86Shapes.v
X86Methods.v
X86Conditions.v
X86Correct.v
X86Machine.v
X86Lower.v
X86LowerFlow.v
X86Steps.v
X86LowerArith.v
X86LowerMul.v
ProcessorHelpers.v
X86LowerGuest.v
X86LowerCorrect.v
X86Relocs.v
X86Blocks.v
X86Program.v
X86Frame.v
MemoryRegions.v
MemorySpace.v
SparseMemory.v
SparseMemoryCorrect.v
ArmCoprocessor.v
ArmControl.v
ArmMMU.v
ArmInterrupts.v
