(* ===== verification/Prelude.v ===== *)
(** * Verification of the GenSim / ArchSim toolset

    GenSim (gensim/) turns a processor description into the parts of a
    simulator: it lays out the register file, and compiles the behaviour of
    instructions, written in GenC, into an SSA form that it optimises and from
    which it generates code.  ArchSim (archsim/) is the simulator those parts
    run in.  ArchSim keeps the
    state of simulated threads, their system devices and memory, and executes
    guest code through several engines.  BlockJIT, the engine modelled here,
    translates a guest basic block into an intermediate representation (IR),
    transforms it, and lowers it to x86-64.

    This library models, from the C++ sources, these paths through them:

    - the interrupt and translation path of the RISC-V machine: from a device
      line through the platform-level interrupt controller (PLIC) and the
      core-local interruptor (CLINT) to the control and status registers of a
      hart (CSRs), and from there to the interrupt lines and the message queue
      of the simulated thread; and address translation by the hart's MMU;
    - the path of a translated block through the BlockJIT block compiler: the
      IR buffer, its constructors, and every transform of
      BlockCompiler::compile up to the allocation of registers;
    - the middle of the GenC compiler: types and constants, the register file
      layout, the SSA form with its control-flow analyses, the interpreter that
      gives it a meaning, and the passes that optimise it;
    - the decoder generator: from the formats and decode constraints of the
      instructions of an ISA through bit strings and the decode tree to the
      switch statements of the generated decoder;
    - the code caches of the JIT engines, by virtual and by physical address;
    - guest memory: the areas that are mapped, their protection, and the pages
      of the sparse memory model;
    - the control coprocessors and MMUs of the ARM processors;
    - the trace library: from the calls of a simulated thread through records
      and packets to a file, and back.

    ** Files

    - Prelude: errors as values ([result]), machine integers as [Z] with their
      wrap-around, the bit macros of archsim/inc/define.h, vectors with
      throwing ([at_]) and undefined ([vec_get], [vec_set]) indexing, the
      tactics [bind_inv], [zconsts], [case_goal] and the hint databases [bits]
      and [words].
    - Thread: CPUIRQLine (IRQController.h/.cpp) and the message queue and
      interrupt handling of ThreadInstance.  A line is a field of its thread.
    - HartIRQ: the class of what the interrupt controllers rely on from a hart.
    - RiscvMMU: RiscVMMU.cpp with PageInfo and Address arithmetic: satp, the
      Sv39 walk, permission checks, faults.
    - RiscvCSR: RiscVSystemCoprocessor.cpp: every register, mstatus, mip/mie,
      the synchronisation of interrupt lines, interrupt selection; provides
      the instance of HartIRQ.
    - SifivePLIC, SifiveCLINT, SifiveUART: the devices of
      archsim/src/abi/devices/riscv, the first two over any HartIRQ.
    - Platform: controllers and harts together; steps of the whole machine.
    - BlockIR: IROperand, IRInstruction with its 103 types, descriptors and
      constructors, and TranslationContext.
    - IRSorter, IRSorterCorrect: ir-sorter.cpp and SortIRTransform.cpp, and
      their correctness.
    - BlockFlow: what IR code means ([evals]), renaming of blocks, and
      DeadBlockEliminationTransform.cpp.
    - ReorderBlocks, ThreadJumps, MergeBlocks: the transforms of these names.
    - BlockCompiler: the control-flow half of BlockCompiler::compile.
    - ValueFlow: the virtual registers an instruction reads and writes by its
      descriptor, the class of machines that agree with the descriptors, and
      code under a renaming of its registers.
    - DeadStore, RegStore, MovElimination:
      DeadStoreEliminationTransform.cpp, PeepholeTransform.cpp,
      RegStoreEliminationTransform.cpp and MovEliminationTransform.cpp;
      RegStore also composes the transforms of BlockCompiler::compile up to
      its own.
    - ValueRenumbering, ConstantProp: ValueRenumberingTransform.cpp and
      ConstantPropTransform.cpp.
    - RegAlloc, RegAllocCorrect: GlobalRegisterAllocationTransform.cpp.
    - PostAlloc: the peephole transforms after register allocation, and the
      whole of BlockCompiler::compile.
    - IRTypes, IRConstants (gensim/src/genC/ir): IRType and IRStructType with
      their sizes, promotion and operators; IRConstant with its arithmetic and
      IRType::Cast.  Floats are the IEEE numbers of the standard library.
    - RegisterFile (gensim/src/arch): RegisterFile.cpp and the part of
      ArchDescriptionParser.cpp that fills it.
    - ConstantFold: the arithmetic of ConstantFoldingPass.cpp, of the
      interpreter and of the C++ code that InterpreterNodeWalker.cpp emits.
    - SSAForm: statements, blocks and actions (gensim/src/genC/ssa) with their
      operands, targets, successors and predecessors.  A pointer to an object
      is its address, and an operand may be dangling.
    - SSAReach, SSADominance: ReachabilityAnalysis.cpp, LoopAnalysis.cpp,
      SSADominance.cpp and DominanceFrontierAnalysis.cpp.
    - SSAMachine, SSAInterp, SSAInterpFacts: MachineState.cpp,
      SSAInterpreter.cpp, SSAInterpreterStatementVisitor.cpp, and what every
      statement leaves unchanged.
    - SSAPasses, SSAPassesCorrect, SSASimplifyCorrect:
      ControlFlowSimplificationPass.cpp, JumpThreadingPass.cpp and the pass
      manager of SSAPass.cpp, and their correctness.
    - SSAConstPasses: ConstantFoldingPass.cpp, ConstantPropagationPass.cpp and
      DeadCodeEliminationPass.cpp.
    - BitStrings (gensim/src/isa): instruction formats, decode constraints and
      InstructionDescription::GetBitString.
    - DecodeTree: DecodeTree.cpp, DecodeGenerator::BuildDecodeTree and the
      decoder that FunctionalDecodeGenerator::GenerateDecodeTree emits.
      DecodeTreeCorrect relates building and decoding to the instructions a
      word leads to; DecodeOptimize does so for the optimiser and composes the
      generator.
    - TraceRecords, TraceSource, TraceStream (support/libtrace): record types
      and packets; TraceSource and BinaryFileTraceSink; RecordFile, the record
      and packet streams, and the loops of two tools.
    - JITCache: ProcessorFeatures.h, BlockCache, BlockProfile, and the
      operations of BasicJITExecutionEngine and BlockJITExecutionEngine on
      them.  JITCacheSafe has their invariant, JITFeatures the masks.
    - MemAllocator: SimpleZoneMemAllocator (util/MemAllocator) with its headers
      in memory; MemAllocatorSafe relates it to a heap.  JITAllocator has the
      class of what the code caches rely on, its instance by the zone
      allocator, and the engine on such an allocator.

    - X86Encoder (lowering/x86/X86Encoder.cpp, X86Encoder.h): the methods of
      the encoder and its buffer.  X86Decode is a decoder after the
      architecture manual, X86Shapes how the parts of an instruction and whole
      instructions are read back and the instruction each method is for, X86Methods the proof for each method, X86Correct the
      encoder as a whole, and X86Conditions its conditional methods by name.
    - X86Lower, X86LowerFlow (lowering/x86, LoweringContext.cpp): the lowerers
      as lists of encoder calls, the frame, the driver and the relocations.
      X86Machine executes instructions; X86Steps has what operands are on it,
      runs of instructions and what a lowerer has to compute; X86LowerArith,
      X86LowerMul and X86LowerGuest the proof for each lowerer,
      X86LowerCorrect for runs of instructions, X86Relocs, X86Blocks and
      X86Program for whole functions, X86Frame for the calling convention.
    - ProcessorHelpers (gensim_processor_api_generic.cpp): the flags of
      additions and subtractions with carry.
    - MemoryRegions (abi/memory/MemoryModel.cpp): the areas of guest memory and
      the allocated regions of RegionBasedMemoryModel, over a class of what a
      memory model does for an area.  MemorySpace relates them to an address
      space.
    - SparseMemory (SparseMemoryModel.cpp, util/Cache.h): pages made when they
      are touched, behind a cache, and the accesses by width, string and
      length; SparseMemoryCorrect relates it to a byte memory.
    - ArmCoprocessor (abi/devices/arm/core: ArmCoprocessors.cpp, PMU.cpp): the
      selectors and dispatch of coprocessor accesses over the class of units
      that answer them, and the performance counters.
    - ArmControl (ArmControlCoprocessor.cpp, ArmControlCoprocessorv6.cpp): the
      system control coprocessors of both generations.
    - ArmMMU (ARM926EJS-MMU.cpp, ARMv6-MMU.cpp): descriptors, permissions,
      translation and page information of both MMUs, and the tables they walk.
    - ArmInterrupts (modules/arm-system-devices: GenericInterruptController.cpp):
      the generic interrupt controller over the class of lines it drives.

    ** Modelling

    A C++ object is a record; a method that changes it is a function to the
    new record.  Code that may throw, fail an assertion or be undefined
    returns [result].  Unsigned integers of w bits are integers in [0, 2^w)
    and every operation that may leave the range is wrapped.  A std::map is a
    list by ascending key, where its order matters, or a finite map.  Shared objects
    (harts, lines) are passed as one state to every user.  The areas of a guest
    are pointers that only their map holds, so they are values of it.  Locks and logging
    are left out.  Physical memory (MMU), the pages the host gives, the effect of straight-line IR
    instructions and the condition of a branch (transforms) are parameters,
    and so is the order std::sort gives equal elements ([std_sort_ok]).
    Events of the devices and of the platform are step relations, and the
    invariants hold in every reachable state.

    ** What the theorems show

    - BlockCompiler, ReorderBlocks, ThreadJumps, MergeBlocks, BlockFlow: each
      transform, and the four in sequence, succeeds on a finished translation
      and preserves its meaning: the same exits with the same state, for any
      effect of the straight-line instructions.  Reordering makes control flow
      go forward, which merging needs; merging leaves no jump that is the only
      way to its target.  Code that nothing goes to makes the sequence
      undefined.
    - DeadStore: removing dead stores cannot be seen outside the code on any
      machine that agrees with the descriptors; store-after-store elimination
      drops loads.
    - RegStore: the peephole's replacement of additions by subtractions keeps
      the value and is undefined exactly for the smallest 32- and 64-bit
      constants; register store elimination exchanges offset and size, and on
      the buffer left by block merging it removes writes that are needed.
    - MovElimination: the target of an eliminated move is written too early.
    - ValueRenumbering, ConstantProp, RegAllocCorrect: renumbering, constant
      propagation and linear-scan register allocation preserve the meaning of
      the code; registers that share a place are never live together, unless a
      register is mentioned twice in its last instruction (PostAlloc).
    - RegisterFile: in a file that resolves, spaces are aligned and disjoint,
      and every register lies within the file.
    - ConstantFold: folding agrees with the emitted code and with the
      interpreter except on signed operands; casts are characterised exactly.
    - SSAReach, SSADominance: the analyses terminate; reachability and loops
      are exact; the dominance analysis computes ancestors instead.
    - SSAPassesCorrect, SSASimplifyCorrect: jump threading and control-flow
      simplification preserve every result of the interpreter; the loop of the
      pass manager ends unless a block is a jump to itself.
    - SSAConstPasses: dead code elimination ends and is complete; constant
      propagation miscompiles, because of the dominance analysis.
    - SSAMachine, SSAInterp: memory round trip, flags of additions.
    - BitStrings, DecodeOptimize: the bit strings of an instruction are its
      constraints, unless a set has two of them on a field or an inequality;
      the tree of an ISA without overlaps is built, optimised without change,
      and decodes every word to the instruction whose constraints it satisfies.
      Conflicts are not always reported, and an instruction that ends within
      longer ones is lost.
    - TraceStream: what a source is told ([told], whole values) is read back
      from its file, where it fits the functions ([fits]): memory writes lose
      what is beyond 32 bits, and registers given as odd numbers of bytes their
      last ones; two other streams end early or read too much.
    - JITCacheSafe: the code the engine calls has not been freed, in every
      state reached without translating on a dirty page (which frees code that
      can still be called).  JITFeatures: a flush by features keeps exactly the
      translations that are valid, but a change of features flushes too early.
    - MemAllocatorSafe: the zone allocator refines a heap of buffers that do
      not overlap, for sizes that fit a chunk.  JITAllocator: the functions of
      the engine are the buffers that are allocated.
    - X86Correct: any sequence of calls leaves the bytes of exactly the
      instructions asked for, within the buffer, for the arguments that
      [asks] admits; outside of them some are encoded as something else.
      X86Conditions: condition codes agree with the mnemonics.
    - X86Program: for functions of supported blocks (integer arithmetic,
      comparisons, moves, the register file, flags, jumps and returns; where a
      lowerer is wrong its operands are not supported) Lower succeeds and the
      machine code runs as the instructions say.  X86Relocs: every relocation
      is a jump that goes to its block.  X86Frame: the frame and the code
      around calls keep the calling convention.
    - ProcessorHelpers: the flags of additions are right; those of
      subtractions are characterised, and wrong when they overflow.
    - MemorySpace: mapping of free addresses, anonymous mapping, protection and
      unmapping of whole areas act on the protection of every address as on an
      address space; what else can be asked for throws, or never ends, as the
      lemmas at its end say.
    - SparseMemoryCorrect: reads, fetches and writes are those of a byte memory
      under these protections, and words are read back as they were written,
      except on the page with the index 1, which the cache takes for present
      from the start; what locked regions give is what the memory holds.
    - ArmControl: the ARMv6 coprocessor is a file of registers whose control
      bits keep the MMU in step.  ArmMMU: translation refines a walk of the
      tables by arithmetic and agrees with the information about pages, where
      the code follows the architecture; what changes a translation flushes,
      and faults are what the guest reads (on ARMv5 it cannot).
    - ArmInterrupts: the controller handles interrupts like a stack, unless the
      guest changes the priority of one that is being handled.
    - IRSorterCorrect: the rotation-based merge sort is a stable sort, the NOP
      filter moves NOPs to the end, and the sort transform changes the code of
      no block.
    - BlockIR: the buffer grows as needed, trimming breaks its recorded
      capacity, and the constructors agree with the descriptors or deviate in
      one of four ways ([deviates]).
    - RiscvMMU: translation refines an abstract page-table walk, whatever the
      permissions it leaves uninitialised, but for the fetches that read them;
      satp round trip; GetInfo always throws.
    - RiscvCSR: interrupt selection, interrupt lines in step with mip and mie
      in every reachable state, mstatus and sstatus bit by bit.
    - SifivePLIC, SifiveCLINT, SifiveUART: claims are exclusive and select as
      described, line operations never throw, timers drive MTIP, registers
      round-trip, the UART line follows its interrupt condition.
    - Platform: an external interrupt reaches exactly the lines it should.
    - Thread: a raised or acknowledged line is asserted; a line asserted again
      after being rescinded is lost.

    ** Fuel

    Loops that are not structural take fuel.  The sorters supply their own
    (the length of the array, which bounds every loop).  The transforms take
    it as an argument and fail with [OutOfFuel] without it; the theorems ask
    for 2n²+1 steps for the depth work list over n blocks (each push makes a
    depth grow and depths stay below n), n for following jumps, and twice the
    number of instructions for merging (each merge removes a jump).  The
    analyses of the SSA form need one step per source and edge (reachability),
    a recursion depth of one more than the blocks (loops) and n²+1 rounds
    (dominance: each round but the last removes a member of a set).  Dead code
    elimination needs one round per statement, the loop on jump threading one
    more than the sum of the ranks of all targets.  Adding a bit string takes
    one step per character, and optimising a decode tree of W bits two levels
    per bit (a level ends further down, or has just been made for a prefix), so
    that 66 are enough for words of 32 bits.  The search for free addresses
    takes one step per page up to the last allocated region, and completing
    an interrupt one per interrupt that is handled, 96 at most.  Reading packets takes one step
    per packet, copying records one per record of the buffer.  The interpreter takes the
    number of blocks to execute and the depth of calls: [same_meaning] and
    [refines] relate the results of all executions that end.

    ** Not modelled

    The lowerers of floating point, vectors and guest memory, which are a
    parameter of the driver; what runs behind a call or a trap; the lowering to
    LLVM, the front ends, the GenC parser and the construction of the SSA form,
    its other passes and analyses (phi nodes, inlining, block merging,
    fixedness), the other generators of GenSim (text of C++ sources), the debug
    and floating-point coprocessors of ARM and its other system devices, VirtIO, graphics and network devices, the
    contiguous and the system memory models and events of memory, user-mode system calls and the simulator's infrastructure. *)

From stdpp Require Import base list numbers.
From Stdlib Require Import ZArith Lia Bool Btauto.

#[global] Open Scope Z_scope.

(** ** Failing code

    [UNIMPLEMENTED], [UNEXPECTED], [ASSERT], [GASSERT] and the out of range
    [std::vector::at] all throw; nothing in the modelled code catches, so a
    throw is an [Err] carrying its reason and no state. *)

Inductive exn :=
| NotImplemented
| NotExpected
| AssertFailed
| OutOfRange
| LogicError
| UndefinedBehaviour
| BadAlloc
| OutOfFuel.            (* not a throw: a loop of the model needed more steps *)

Inductive result (A : Type) :=
| Ok (a : A)
| Err (e : exn).
Arguments Ok {A} a.
Arguments Err {A} e.

Definition rbind {A B} (m : result A) (k : A -> result B) : result B :=
  match m with Ok a => k a | Err e => Err e end.

Definition rmap {A B} (f : A -> B) (m : result A) : result B :=
  rbind m (fun a => Ok (f a)).

Definition of_option {A} (e : exn) (o : option A) : result A :=
  match o with Some a => Ok a | None => Err e end.

Definition is_ok {A} (m : result A) : bool :=
  match m with Ok _ => true | Err _ => false end.

Declare Scope gensim_scope.
Delimit Scope gensim_scope with gensim.
Notation "'let*' x ':=' m 'in' k" := (rbind m (fun x => k))
  (at level 10, x pattern, m at level 100, k at level 200)
  : gensim_scope.
Notation "'check*' b 'or' e 'in' k" := (if b then k else Err e)
  (at level 10, b at level 100, e at level 100, k at level 200)
  : gensim_scope.
Notation "a .| b" := (Z.lor a b) (at level 50, left associativity) : gensim_scope.
#[global] Open Scope gensim_scope.

Lemma Ok_inj {A} (a b : A) : Ok a = Ok b -> a = b.
Proof. intros H. congruence. Qed.

Lemma rbind_Ok {A B} (m : result A) (k : A -> result B) b :
  rbind m k = Ok b -> exists a, m = Ok a /\ k a = Ok b.
Proof. destruct m; simpl; intros; [eauto | discriminate]. Qed.

Lemma is_ok_true {A} (m : result A) : is_ok m = true <-> exists a, m = Ok a.
Proof.
  destruct m; simpl; split; intros H; eauto; [discriminate |].
  destruct H; discriminate.
Qed.

(** [bind_inv H] splits a chain of binds that returned into its successful
    parts. *)
Ltac bind_inv H :=
  repeat match type of H with
  | rbind _ _ = Ok _ =>
      let a := fresh "v" in let E := fresh "E" in
      apply rbind_Ok in H; destruct H as (a & E & H)
  | (if ?b then _ else Err _) = Ok _ =>
      let E := fresh "G" in destruct b eqn:E; [| discriminate H]
  end.

(** ** Machine integers

    A [w]-bit unsigned integer is a [Z] in [[0, 2^w)].  [wrap w] is the
    conversion to an unsigned type and [sext w] the value of the same bits
    read as two's complement. *)

Definition wrap (w z : Z) : Z := z mod 2 ^ w.
Definition u8 (z : Z) : Z := wrap 8 z.
Definition u16 (z : Z) : Z := wrap 16 z.
Definition u32 (z : Z) : Z := wrap 32 z.
Definition u64 (z : Z) : Z := wrap 64 z.

Definition sext (w z : Z) : Z :=
  let m := wrap w z in if m <? 2 ^ (w - 1) then m else m - 2 ^ w.

Definition in_range (w z : Z) : Prop := 0 <= z < 2 ^ w.

(** C's implicit conversion of an integer to [bool], and of a [bool] to an
    integer ([Z.b2z]). *)
Definition to_bool (z : Z) : bool := negb (z =? 0).

(** The bit macros of archsim/inc/define.h. *)
Definition BITSEL (v b : Z) : Z := Z.land (Z.shiftr v b) 1.
Definition UNSIGNED_BITS (v u l : Z) : Z :=
  Z.shiftr (u32 (Z.shiftl (u32 v) (31 - u))) (31 - u + l).
Definition UNSIGNED_BITS_64 (v u l : Z) : Z :=
  Z.shiftr (u64 (Z.shiftl (u64 v) (63 - u))) (63 - u + l).

Create HintDb bits.
Create HintDb words.

Lemma wrap_range w z : 0 <= w -> in_range w (wrap w z).
Proof. intros. apply Z.mod_pos_bound. lia. Qed.

Lemma wrap_small w z : in_range w z -> wrap w z = z.
Proof. apply Z.mod_small. Qed.

Lemma wrap_wrap w z : 0 <= w -> wrap w (wrap w z) = wrap w z.
Proof. intros. apply wrap_small, wrap_range; lia. Qed.

#[export] Hint Resolve wrap_range : words.

Lemma testbit_wrap w z i :
  0 <= w -> Z.testbit (wrap w z) i = (i <? w) && Z.testbit z i.
Proof.
  intros Hw. unfold wrap. destruct (Z.ltb_spec i w).
  - rewrite Z.mod_pow2_bits_low by lia. reflexivity.
  - rewrite Z.mod_pow2_bits_high by lia. reflexivity.
Qed.

Lemma testbit_high w z i : 0 <= w -> in_range w z -> w <= i -> Z.testbit z i = false.
Proof.
  intros Hw Hz Hi. rewrite <- (wrap_small w z) by assumption.
  rewrite testbit_wrap by lia. destruct (Z.ltb_spec i w); [lia | reflexivity].
Qed.

Lemma testbit_b2z b i : Z.testbit (Z.b2z b) i = (i =? 0) && b.
Proof.
  destruct (Z.eqb_spec i 0) as [-> |].
  - rewrite Z.b2z_bit0. reflexivity.
  - destruct b; simpl; [| apply Z.testbit_0_l].
    destruct (Z.lt_ge_cases i 0); [apply Z.testbit_neg_r; lia |].
    apply Z.bits_above_log2; simpl; lia.
Qed.

Lemma testbit_b2z_shiftl b n i :
  0 <= n -> Z.testbit (Z.shiftl (Z.b2z b) n) i = (i =? n) && b.
Proof.
  intros. destruct (Z.lt_ge_cases i 0).
  - rewrite Z.testbit_neg_r by lia. destruct (Z.eqb_spec i n); [lia | reflexivity].
  - rewrite Z.shiftl_spec, testbit_b2z by lia. f_equal.
    destruct (Z.eqb_spec i n), (Z.eqb_spec (i - n) 0); lia || reflexivity.
Qed.

Lemma testbit_shiftl_u a n i :
  0 <= n -> Z.testbit (Z.shiftl a n) i = (0 <=? i) && Z.testbit a (i - n).
Proof.
  intros. destruct (Z.leb_spec 0 i).
  - rewrite Z.shiftl_spec by lia. reflexivity.
  - rewrite Z.testbit_neg_r by lia. reflexivity.
Qed.

Lemma testbit_shiftr_u a n i :
  Z.testbit (Z.shiftr a n) i = (0 <=? i) && Z.testbit a (i + n).
Proof.
  destruct (Z.leb_spec 0 i).
  - rewrite Z.shiftr_spec by lia. reflexivity.
  - rewrite Z.testbit_neg_r by lia. reflexivity.
Qed.

Lemma testbit_one i : Z.testbit 1 i = (i =? 0).
Proof. change 1 with (Z.b2z true). rewrite testbit_b2z. apply andb_true_r. Qed.

Lemma BITSEL_b2z v b : BITSEL v b = Z.b2z (Z.testbit v b).
Proof.
  unfold BITSEL. apply Z.bits_inj'. intros i Hi.
  rewrite Z.land_spec, testbit_one, testbit_b2z, Z.shiftr_spec by lia.
  destruct (Z.eqb_spec i 0); subst; simpl;
    [rewrite andb_true_r | rewrite andb_false_r]; reflexivity.
Qed.

Lemma to_bool_b2z b : to_bool (Z.b2z b) = b.
Proof. destruct b; reflexivity. Qed.

Lemma to_bool_BITSEL v b : to_bool (BITSEL v b) = Z.testbit v b.
Proof. rewrite BITSEL_b2z. apply to_bool_b2z. Qed.

Lemma testbit_UNSIGNED_BITS_64 v u l i :
  0 <= l <= u -> u <= 63 ->
  Z.testbit (UNSIGNED_BITS_64 v u l) i = (0 <=? i) && (i <=? u - l) && Z.testbit v (i + l).
Proof.
  intros. unfold UNSIGNED_BITS_64, u64.
  rewrite testbit_shiftr_u. destruct (Z.leb_spec 0 i); [| reflexivity]. cbn [andb].
  rewrite testbit_wrap, testbit_shiftl_u, testbit_wrap by lia.
  replace (i + (63 - u + l) - (63 - u)) with (i + l) by lia.
  destruct (Z.leb_spec i (u - l)), (Z.ltb_spec (i + (63 - u + l)) 64),
    (Z.leb_spec 0 (i + (63 - u + l))), (Z.ltb_spec (i + l) 64); try lia; reflexivity.
Qed.

Lemma UNSIGNED_BITS_64_range v u l :
  0 <= l <= u -> u <= 63 -> in_range (u - l + 1) (UNSIGNED_BITS_64 v u l).
Proof.
  intros. unfold in_range. replace (UNSIGNED_BITS_64 v u l) with
    (wrap (u - l + 1) (UNSIGNED_BITS_64 v u l)).
  - apply wrap_range; lia.
  - apply Z.bits_inj'. intros i Hi.
    rewrite testbit_wrap, testbit_UNSIGNED_BITS_64 by lia.
    destruct (Z.ltb_spec i (u - l + 1)), (Z.leb_spec i (u - l));
      try lia; rewrite ?andb_false_r; reflexivity.
Qed.

(** Bits of a [w]-bit value decide it. *)
Lemma bits_eq_upto w a b :
  0 <= w -> in_range w a -> in_range w b ->
  (forall i, 0 <= i < w -> Z.testbit a i = Z.testbit b i) -> a = b.
Proof.
  intros Hw Ha Hb H. apply Z.bits_inj'. intros i Hi.
  destruct (Z.lt_ge_cases i w); [auto |].
  rewrite !(testbit_high w) by (assumption || lia). reflexivity.
Qed.

(** A value whose bits from [w] on are clear fits in [w] bits. *)
Lemma in_range_bits w a :
  0 <= w -> 0 <= a -> (forall i, w <= i -> Z.testbit a i = false) -> in_range w a.
Proof.
  intros Hw Ha H. split; [assumption |].
  destruct (Z.eq_dec a 0) as [-> |]; [lia |].
  apply Z.log2_lt_pow2; [lia |].
  destruct (Z.lt_ge_cases (Z.log2 a) w); [assumption |].
  specialize (H (Z.log2 a) ltac:(lia)). rewrite Z.bit_log2 in H by lia. discriminate.
Qed.

(** Joining low bits to high ones is an addition. *)
Lemma lor_low a b n : 0 <= n -> 0 <= b < 2 ^ n -> Z.lor (a * 2 ^ n) b = a * 2 ^ n + b.
Proof.
  intros Hn Hb. assert (E : Z.land (a * 2 ^ n) b = 0).
  { apply Z.bits_inj'. intros i Hi. rewrite Z.land_spec, Z.bits_0, Z.mul_pow2_bits by lia.
    destruct (Z.lt_ge_cases i n); [rewrite Z.testbit_neg_r by lia; reflexivity |].
    rewrite (testbit_high n b i) by (unfold in_range; lia). apply andb_false_r. }
  rewrite Z.add_nocarry_lxor by exact E. symmetry. apply Z.lxor_lor. exact E.
Qed.

Lemma in_range_lor w a b : 0 <= w -> in_range w a -> in_range w b -> in_range w (Z.lor a b).
Proof.
  intros Hw Ha Hb. apply in_range_bits; [lia | |].
  - apply Z.lor_nonneg; unfold in_range in *; lia.
  - intros i Hi. rewrite Z.lor_spec, !(testbit_high w) by (assumption || lia). reflexivity.
Qed.

Lemma in_range_land_l w a b : 0 <= w -> in_range w a -> in_range w (Z.land a b).
Proof.
  intros Hw Ha. apply in_range_bits; [lia | |].
  - apply Z.land_nonneg; unfold in_range in *; lia.
  - intros i Hi. rewrite Z.land_spec, (testbit_high w) by (assumption || lia). reflexivity.
Qed.

Lemma in_range_b2z_shiftl w b n : 0 <= n < w -> in_range w (Z.shiftl (Z.b2z b) n).
Proof.
  intros. apply in_range_bits; [lia | apply Z.shiftl_nonneg; destruct b; simpl; lia |].
  intros i Hi. rewrite testbit_b2z_shiftl by lia.
  destruct (Z.eqb_spec i n); [lia | reflexivity].
Qed.

Lemma in_range_mono w w' a : 0 <= w <= w' -> in_range w a -> in_range w' a.
Proof.
  unfold in_range. intros. assert (2 ^ w <= 2 ^ w') by (apply Z.pow_le_mono_r; lia). lia.
Qed.

#[export] Hint Resolve in_range_lor in_range_land_l in_range_b2z_shiftl : words.
#[export] Hint Rewrite testbit_b2z testbit_shiftr_u testbit_shiftl_u to_bool_BITSEL
  to_bool_b2z testbit_one Z.lor_spec Z.land_spec Z.lxor_spec Z.ldiff_spec
  Z.testbit_0_l : bits.
#[export] Hint Rewrite testbit_b2z_shiftl testbit_wrap testbit_UNSIGNED_BITS_64
  using lia : bits.

(** [split_range i n H]: case analysis on the values of [0 <= i < n]. *)
Ltac split_range i H :=
  let rec go k :=
    let E := fresh "E" in
    destruct (Z.eq_dec i k) as [E | E];
    [ subst i | first [ exfalso; lia | let k' := eval vm_compute in (k + 1) in go k' ] ] in
  go 0.

(** [zconsts] evaluates arithmetic, comparisons and bit tests between integer
    literals in the goal, leaving everything else alone. *)
Ltac is_zlit a := match a with Z0 => idtac | Zpos _ => idtac | Zneg _ => idtac end.
Ltac zconst_op op a b :=
  is_zlit a; is_zlit b;
  let r := eval vm_compute in (op a b) in change (op a b) with r.
Ltac zconsts :=
  repeat match goal with
  | |- context [Z.add ?a ?b] => zconst_op Z.add a b
  | |- context [Z.sub ?a ?b] => zconst_op Z.sub a b
  | |- context [Z.eqb ?a ?b] => zconst_op Z.eqb a b
  | |- context [Z.leb ?a ?b] => zconst_op Z.leb a b
  | |- context [Z.ltb ?a ?b] => zconst_op Z.ltb a b
  | |- context [Z.testbit ?a ?b] => zconst_op Z.testbit a b
  end; cbn [andb orb negb].

(** Destructs the first [match] scrutinee of the goal, keeping the equation. *)
Ltac case_goal :=
  match goal with
  | |- context [match ?x with _ => _ end] =>
      let E := fresh "E" in destruct x eqn:E
  end.

Lemma to_bool_bits z : 0 <= z -> to_bool z = true <-> exists i, 0 <= i /\ Z.testbit z i = true.
Proof.
  intros Hz. unfold to_bool. destruct (Z.eqb_spec z 0) as [-> |]; simpl; split; intros H.
  - discriminate.
  - destruct H as (i & _ & H). rewrite Z.testbit_0_l in H. discriminate.
  - exists (Z.log2 z). split; [apply Z.log2_nonneg | apply Z.bit_log2; lia].
  - reflexivity.
Qed.

Lemma to_bool_false_bits z i : to_bool z = false -> Z.testbit z i = false.
Proof.
  unfold to_bool. destruct (Z.eqb_spec z 0) as [-> |]; [intros _; apply Z.testbit_0_l | discriminate].
Qed.

(** Unsigned 64-bit complement. *)
Definition not64 (z : Z) : Z := u64 (Z.lnot z).
Definition not32 (z : Z) : Z := u32 (Z.lnot z).

Lemma testbit_not64 z i :
  0 <= i < 64 -> Z.testbit (not64 z) i = negb (Z.testbit z i).
Proof.
  intros. unfold not64, u64. rewrite testbit_wrap, Z.lnot_spec by lia.
  destruct (Z.ltb_spec i 64); [reflexivity | lia].
Qed.

Lemma testbit_not32 z i :
  0 <= i < 32 -> Z.testbit (not32 z) i = negb (Z.testbit z i).
Proof.
  intros. unfold not32, u32. rewrite testbit_wrap, Z.lnot_spec by lia.
  destruct (Z.ltb_spec i 32); [reflexivity | lia].
Qed.

#[export] Hint Rewrite testbit_not64 testbit_not32 using lia : bits.

(** C's [1 << i] for an [int]: bit 31 makes the value negative, and the
    conversion to a wider unsigned type then sets every higher bit. *)
Definition int_bit (i : Z) : Z := sext 32 (Z.shiftl 1 i).

Lemma int_bit_low i : 0 <= i < 31 -> int_bit i = 2 ^ i.
Proof.
  intros. unfold int_bit, sext. rewrite Z.shiftl_1_l.
  assert (0 < 2 ^ i < 2 ^ 31) by (split; [lia | apply Z.pow_lt_mono_r; lia]).
  rewrite wrap_small by (unfold in_range; lia).
  destruct (Z.ltb_spec (2 ^ i) (2 ^ (32 - 1))); [reflexivity | lia].
Qed.

Lemma testbit_int_bit i j : 0 <= i < 32 -> 0 <= j < 32 -> Z.testbit (int_bit i) j = (i =? j).
Proof.
  intros. destruct (Z.eq_dec i 31) as [-> |].
  - replace (int_bit 31) with (Z.lnot (Z.ones 31)) by reflexivity.
    rewrite Z.lnot_spec, Z.testbit_ones_nonneg by lia.
    destruct (Z.ltb_spec j 31), (Z.eqb_spec 31 j); simpl; lia || reflexivity.
  - rewrite int_bit_low, Z.pow2_bits_eqb by lia. reflexivity.
Qed.

(** ** Lists as vectors

    [v.at(i)] throws when [i] is out of range. *)
Definition at_ {A} (l : list A) (i : Z) : result A :=
  if i <? 0 then Err OutOfRange else of_option OutOfRange (l !! Z.to_nat i).

Definition set_at {A} (l : list A) (i : Z) (x : A) : list A := <[Z.to_nat i := x]> l.

Lemma at_Ok {A} (l : list A) i x : at_ l i = Ok x <-> 0 <= i /\ l !! Z.to_nat i = Some x.
Proof.
  unfold at_. destruct (Z.ltb_spec i 0).
  - split; [discriminate | lia].
  - destruct (l !! Z.to_nat i); simpl; split; intros; try congruence; intuition congruence.
Qed.

Lemma at_in_range {A} (l : list A) i :
  0 <= i < Z.of_nat (length l) -> exists x, at_ l i = Ok x.
Proof.
  intros. destruct (lookup_lt_is_Some_2 l (Z.to_nat i)) as [x Hx]; [lia |].
  exists x. apply at_Ok. auto with lia.
Qed.

Lemma at_set_at {A} (l : list A) i j x :
  0 <= i < Z.of_nat (length l) -> 0 <= j ->
  at_ (set_at l i x) j = if i =? j then Ok x else at_ l j.
Proof.
  intros. unfold at_, set_at. destruct (Z.ltb_spec j 0); [lia |].
  destruct (Z.eqb_spec i j) as [-> |].
  - rewrite list_lookup_insert_eq by lia. reflexivity.
  - rewrite list_lookup_insert_ne by lia. reflexivity.
Qed.

Lemma length_set_at {A} (l : list A) i x : length (set_at l i x) = length l.
Proof. apply length_insert. Qed.

(** [v[i]] on a vector is undefined out of range, for reading and writing. *)
Definition vec_get {A} (l : list A) (i : Z) : result A :=
  if i <? 0 then Err UndefinedBehaviour else of_option UndefinedBehaviour (l !! Z.to_nat i).
Definition vec_set {A} (l : list A) (i : Z) (x : A) : result (list A) :=
  if (0 <=? i) && (i <? Z.of_nat (length l)) then Ok (set_at l i x) else Err UndefinedBehaviour.

Lemma vec_get_Ok {A} (l : list A) i x : vec_get l i = Ok x <-> 0 <= i /\ l !! Z.to_nat i = Some x.
Proof.
  unfold vec_get. destruct (Z.ltb_spec i 0).
  - split; [discriminate | lia].
  - destruct (l !! Z.to_nat i); simpl; split; intros; try congruence; intuition congruence.
Qed.

Lemma vec_get_in_range {A} (l : list A) i :
  0 <= i < Z.of_nat (length l) -> exists x, vec_get l i = Ok x.
Proof.
  intros. destruct (lookup_lt_is_Some_2 l (Z.to_nat i)) as [x Hx]; [lia |].
  exists x. apply vec_get_Ok. auto with lia.
Qed.

Lemma vec_set_Ok {A} (l l' : list A) i x :
  vec_set l i x = Ok l' <-> 0 <= i < Z.of_nat (length l) /\ l' = set_at l i x.
Proof.
  unfold vec_set. destruct (Z.leb_spec 0 i), (Z.ltb_spec i (Z.of_nat (length l))); simpl;
    (split; [intros E; try discriminate E; injection E as <-; auto with lia | intros [? ->]; reflexivity || lia]).
Qed.

Lemma lookup_set_at {A} (l : list A) i j x :
  0 <= i < Z.of_nat (length l) ->
  set_at l i x !! j = if decide (j = Z.to_nat i) then Some x else l !! j.
Proof.
  intros. unfold set_at. case_decide; subst.
  - apply list_lookup_insert_eq. lia.
  - apply list_lookup_insert_ne. congruence.
Qed.
