(* ===== verification/Thread.v ===== *)
(** * CPU interrupt lines and the message queue of a simulated thread

    [CPUIRQLine] is the line object of archsim/inc/abi/devices/IRQController.h
    and archsim/src/abi/devices/IRQController.cpp, [ThreadInstance] the part of
    archsim/src/core/thread/ThreadInstance.cpp that owns the lines: the
    message queue, [TakeIRQ], [RescindIRQ], [PendIRQ], [HandleIRQ] and
    [HandleMessage].  A line is stored in its thread, as in the code, so
    asserting a line is an operation on the thread. *)

From stdpp Require Import base list numbers relations.
From Stdlib Require Import ZArith Lia Bool.
From S2P Require Import Prelude.

(** ** One line *)

Inductive LineState := Idle | Raised | Acknowledged | Rescinded.

#[export] Instance LineState_eq_dec : EqDecision LineState.
Proof. solve_decision. Defined.

Record CPUIRQLine := mkLine {
  line_ : Z;
  asserted_ : bool;
  state_ : LineState
}.

Definition new_CPUIRQLine (n : Z) : CPUIRQLine :=
  {| line_ := n; asserted_ := false; state_ := Idle |}.

Definition IsAcknowledged (l : CPUIRQLine) : bool :=
  match state_ l with Acknowledged => true | _ => false end.

(** The line after [Assert], and whether [CPU->TakeIRQ()] was called. *)
Definition line_Assert (l : CPUIRQLine) : CPUIRQLine * bool :=
  match state_ l with
  | Idle | Acknowledged => (mkLine (line_ l) true Raised, true)
  | s => (mkLine (line_ l) true s, false)
  end.

(** The line after [Rescind], and whether [CPU->RescindIRQ()] was called. *)
Definition line_Rescind (l : CPUIRQLine) : CPUIRQLine * bool :=
  match state_ l with
  | Raised => (mkLine (line_ l) false Rescinded, true)
  | Acknowledged => (mkLine (line_ l) false Idle, false)
  | s => (mkLine (line_ l) false s, false)
  end.

Definition line_Acknowledge (l : CPUIRQLine) : CPUIRQLine :=
  match state_ l with
  | Raised => mkLine (line_ l) (asserted_ l) Acknowledged
  | Rescinded => mkLine (line_ l) (asserted_ l) Idle
  | _ => l
  end.

Definition line_Raise (l : CPUIRQLine) : CPUIRQLine :=
  match state_ l with
  | Acknowledged => mkLine (line_ l) (asserted_ l) Raised
  | _ => l
  end.

(** ** The thread *)

Inductive ThreadMessage := Nop | Halt | Interrupt.

Inductive ExecutionResult := Continue | HaltResult | Exception.

Record ThreadInstance := mkThread {
  irq_lines_ : list (option CPUIRQLine);
  pending_irqs_ : Z;
  message_queue_ : list ThreadMessage;
  message_waiting : bool;
  RingID : Z;
  thread_id_ : Z
}.

Definition new_thread (id : Z) : ThreadInstance :=
  {| irq_lines_ := []; pending_irqs_ := 0; message_queue_ := [];
     message_waiting := false; RingID := 0; thread_id_ := id |}.

Definition set_lines (t : ThreadInstance) (ls : list (option CPUIRQLine)) : ThreadInstance :=
  mkThread ls (pending_irqs_ t) (message_queue_ t) (message_waiting t) (RingID t) (thread_id_ t).

Definition SendMessage (m : ThreadMessage) (t : ThreadInstance) : ThreadInstance :=
  mkThread (irq_lines_ t) (pending_irqs_ t) (message_queue_ t ++ [m]) true (RingID t) (thread_id_ t).

Definition HasMessage (t : ThreadInstance) : bool := message_waiting t.

(** [front] of an empty [std::queue] is undefined. *)
Definition GetNextMessage (t : ThreadInstance) : result (ThreadMessage * ThreadInstance) :=
  match message_queue_ t with
  | [] => Err UndefinedBehaviour
  | m :: q =>
      Ok (m, mkThread (irq_lines_ t) (pending_irqs_ t) q
               (match q with [] => false | _ => true end) (RingID t) (thread_id_ t))
  end.

Definition TakeIRQ (t : ThreadInstance) : ThreadInstance :=
  SendMessage Interrupt
    (mkThread (irq_lines_ t) (u32 (pending_irqs_ t + 1)) (message_queue_ t)
       (message_waiting t) (RingID t) (thread_id_ t)).

Definition RescindIRQ (t : ThreadInstance) : ThreadInstance :=
  mkThread (irq_lines_ t) (u32 (pending_irqs_ t - 1)) (message_queue_ t)
    (message_waiting t) (RingID t) (thread_id_ t).

Definition lookup_line (t : ThreadInstance) (n : nat) : option CPUIRQLine :=
  mjoin (irq_lines_ t !! n).

(** [GetIRQLine] grows the vector with null entries and creates the line on
    first use. *)
Definition GetIRQLine (n : nat) (t : ThreadInstance) : CPUIRQLine * ThreadInstance :=
  let ls := irq_lines_ t ++ replicate (S n - length (irq_lines_ t)) None in
  match mjoin (ls !! n) with
  | Some l => (l, set_lines t ls)
  | None =>
      let l := new_CPUIRQLine (Z.of_nat n) in
      (l, set_lines t (<[n := Some l]> ls))
  end.

(** [GetIRQLine(n)->Assert()] and [GetIRQLine(n)->Rescind()]. *)
Definition AssertIRQ (n : nat) (t : ThreadInstance) : ThreadInstance :=
  let '(l, t1) := GetIRQLine n t in
  let '(l', take) := line_Assert l in
  let t2 := set_lines t1 (<[n := Some l']> (irq_lines_ t1)) in
  if take then TakeIRQ t2 else t2.

Definition RescindIRQLine (n : nat) (t : ThreadInstance) : ThreadInstance :=
  let '(l, t1) := GetIRQLine n t in
  let '(l', res) := line_Rescind l in
  let t2 := set_lines t1 (<[n := Some l']> (irq_lines_ t1)) in
  if res then RescindIRQ t2 else t2.

Definition line_asserted (o : option CPUIRQLine) : bool :=
  match o with Some l => asserted_ l | None => false end.

Definition PendIRQ (t : ThreadInstance) : ThreadInstance :=
  if existsb line_asserted (irq_lines_ t) then
    let t1 := SendMessage Interrupt t in
    set_lines t1 (map (option_map line_Raise) (irq_lines_ t1))
  else t.

Section Handling.
(** [EmulationModel::HandleInterrupt] is virtual: it is a parameter. *)
Context (HandleInterrupt : ThreadInstance -> CPUIRQLine -> ThreadInstance).

Definition HandleIRQ_line (t : ThreadInstance) (n : nat) : ThreadInstance :=
  match lookup_line t n with
  | Some l =>
      if asserted_ l && negb (IsAcknowledged l) then
        let t1 := HandleInterrupt t l in
        match lookup_line t1 n with
        | Some l1 => set_lines t1 (<[n := Some (line_Acknowledge l1)]> (irq_lines_ t1))
        | None => t1
        end
      else t
  | None => t
  end.

Definition HandleIRQ (t : ThreadInstance) : ThreadInstance :=
  fold_left HandleIRQ_line (seq 0 (length (irq_lines_ t))) t.

Definition HandleMessage (t : ThreadInstance) : result (ExecutionResult * ThreadInstance) :=
  let* (m, t1) := GetNextMessage t in
  match m with
  | Nop => Ok (Continue, t1)
  | Halt => Ok (HaltResult, t1)
  | Interrupt => Ok (Exception, HandleIRQ t1)
  end.
End Handling.

(** ** Line invariant

    The states of a line and its [asserted_] flag are not independent: every
    sequence of operations keeps a raised or acknowledged line asserted. *)

Inductive line_op := OpAssert | OpRescind | OpAcknowledge | OpRaise.

Definition line_do (o : line_op) (l : CPUIRQLine) : CPUIRQLine :=
  match o with
  | OpAssert => fst (line_Assert l)
  | OpRescind => fst (line_Rescind l)
  | OpAcknowledge => line_Acknowledge l
  | OpRaise => line_Raise l
  end.

Inductive line_step : CPUIRQLine -> CPUIRQLine -> Prop :=
| line_step_do o l : line_step l (line_do o l).

Definition line_inv (l : CPUIRQLine) : Prop :=
  match state_ l with
  | Raised | Acknowledged => asserted_ l = true
  | Idle | Rescinded => True
  end.

Lemma line_step_inv l l' : line_step l l' -> line_inv l -> line_inv l'.
Proof. intros [o [n [] []]]; destruct o; unfold line_inv; simpl; auto. Qed.

(** Whatever sequence of [Assert], [Rescind], [Acknowledge] and
    [Raise] a new line goes through, a line in state Raised or Acknowledged is
    asserted, and its number never changes. *)
Theorem line_reachable_inv n l :
  rtc line_step (new_CPUIRQLine n) l -> line_inv l /\ line_ l = n.
Proof.
  revert l. apply rtc_ind_r; [split; [exact I | reflexivity] |].
  intros l1 l2 _ Hs [Hi Hn]. split; [eapply line_step_inv; eauto |].
  rewrite <- Hn. destruct Hs as [o [m [] []]]; destruct o; reflexivity.
Qed.

Lemma line_reachable_inv_witness :
  line_inv (line_Acknowledge (fst (line_Assert (new_CPUIRQLine 5)))) /\
  line_ (line_Acknowledge (fst (line_Assert (new_CPUIRQLine 5)))) = 5.
Proof.
  apply (line_reachable_inv 5). eapply rtc_l; [apply (line_step_do OpAssert) |].
  apply rtc_once. apply (line_step_do OpAcknowledge).
Defined.

(** ** Lines seen from the thread *)

Definition asserted (t : ThreadInstance) (n : nat) : bool := line_asserted (lookup_line t n).

Lemma lookup_grown (ls : list (option CPUIRQLine)) n m :
  mjoin ((ls ++ replicate (S n - length ls) None) !! m) = mjoin (ls !! m).
Proof.
  destruct (decide (m < length ls)%nat).
  - rewrite lookup_app_l by lia. reflexivity.
  - rewrite lookup_app_r, (lookup_ge_None_2 ls) by lia.
    destruct (replicate (S n - length ls) None !! (m - length ls)%nat) eqn:E; [| reflexivity].
    apply lookup_replicate in E as [-> _]. reflexivity.
Qed.

Lemma length_grown (ls : list (option CPUIRQLine)) n :
  (n < length (ls ++ replicate (S n - length ls) None))%nat.
Proof. rewrite length_app, length_replicate. lia. Qed.

Lemma lookup_line_insert t n m l :
  (n < length (irq_lines_ t))%nat ->
  lookup_line (set_lines t (<[n := Some l]> (irq_lines_ t))) m
  = if decide (n = m) then Some l else lookup_line t m.
Proof.
  intros. unfold lookup_line. simpl. case_decide; subst.
  - rewrite list_lookup_insert_eq by assumption. reflexivity.
  - rewrite list_lookup_insert_ne by assumption. reflexivity.
Qed.

Lemma GetIRQLine_spec n t :
  let '(l, t1) := GetIRQLine n t in
  l = default (new_CPUIRQLine (Z.of_nat n)) (lookup_line t n) /\
  (n < length (irq_lines_ t1))%nat /\
  (forall m, lookup_line t1 m = if decide (n = m) then Some l else lookup_line t m).
Proof.
  unfold GetIRQLine. pose proof (length_grown (irq_lines_ t) n) as Hl.
  rewrite lookup_grown. unfold lookup_line at 1.
  destruct (mjoin (irq_lines_ t !! n)) as [l |] eqn:E; simpl; split; auto; split; auto.
  - intros m. unfold lookup_line at 1. simpl. rewrite lookup_grown.
    case_decide; subst; auto.
  - rewrite length_insert. assumption.
  - intros m. unfold lookup_line. simpl. case_decide; subst.
    + rewrite list_lookup_insert_eq by assumption. reflexivity.
    + rewrite list_lookup_insert_ne, lookup_grown by assumption. reflexivity.
Qed.

(** What [Assert] and [Rescind] on line [n] do to every line. *)
Lemma AssertIRQ_line n t m :
  lookup_line (AssertIRQ n t) m =
  if decide (n = m)
  then Some (fst (line_Assert (default (new_CPUIRQLine (Z.of_nat n)) (lookup_line t n))))
  else lookup_line t m.
Proof.
  unfold AssertIRQ. pose proof (GetIRQLine_spec n t) as H.
  destruct (GetIRQLine n t) as [l t1]. destruct H as (-> & Hn & Hm).
  destruct (line_Assert _) as [l' take] eqn:El. simpl.
  transitivity (lookup_line (set_lines t1 (<[n := Some l']> (irq_lines_ t1))) m).
  { destruct take; reflexivity. }
  rewrite lookup_line_insert, Hm by assumption. repeat case_decide; congruence.
Qed.

Lemma RescindIRQLine_line n t m :
  lookup_line (RescindIRQLine n t) m =
  if decide (n = m)
  then Some (fst (line_Rescind (default (new_CPUIRQLine (Z.of_nat n)) (lookup_line t n))))
  else lookup_line t m.
Proof.
  unfold RescindIRQLine. pose proof (GetIRQLine_spec n t) as H.
  destruct (GetIRQLine n t) as [l t1]. destruct H as (-> & Hn & Hm).
  destruct (line_Rescind _) as [l' res] eqn:El. simpl.
  transitivity (lookup_line (set_lines t1 (<[n := Some l']> (irq_lines_ t1))) m).
  { destruct res; reflexivity. }
  rewrite lookup_line_insert, Hm by assumption. repeat case_decide; congruence.
Qed.

Lemma asserted_AssertIRQ n t m :
  asserted (AssertIRQ n t) m = if decide (n = m) then true else asserted t m.
Proof.
  unfold asserted. rewrite AssertIRQ_line. case_decide; [| reflexivity].
  destruct (default _ _) as [? ? []]; reflexivity.
Qed.

Lemma asserted_RescindIRQLine n t m :
  asserted (RescindIRQLine n t) m = if decide (n = m) then false else asserted t m.
Proof.
  unfold asserted. rewrite RescindIRQLine_line. case_decide; [| reflexivity].
  destruct (default _ _) as [? ? []]; reflexivity.
Qed.

Lemma asserted_PendIRQ t m : asserted (PendIRQ t) m = asserted t m.
Proof.
  unfold PendIRQ. destruct (existsb _ _); [| reflexivity].
  unfold asserted, lookup_line. simpl. rewrite list_lookup_fmap.
  destruct (irq_lines_ t !! m) as [[[? ? []] |] |]; reflexivity.
Qed.

Lemma existsb_asserted t n : asserted t n = true -> existsb line_asserted (irq_lines_ t) = true.
Proof.
  intros H. apply existsb_exists. unfold asserted, lookup_line in H.
  destruct (irq_lines_ t !! n) as [o |] eqn:E; [| discriminate].
  exists o. split; [| exact H]. apply list_elem_of_In, list_elem_of_lookup. eauto.
Qed.

Lemma PendIRQ_notifies t n : asserted t n = true -> HasMessage (PendIRQ t) = true.
Proof. intros H. unfold PendIRQ. rewrite (existsb_asserted t n H). reflexivity. Qed.

Lemma RingID_PendIRQ t : RingID (PendIRQ t) = RingID t.
Proof. unfold PendIRQ. destruct (existsb _ _); reflexivity. Qed.

Lemma RingID_AssertIRQ n t : RingID (AssertIRQ n t) = RingID t.
Proof.
  unfold AssertIRQ, GetIRQLine. destruct (mjoin _) as [[? ? []] |]; reflexivity.
Qed.

Lemma RingID_RescindIRQLine n t : RingID (RescindIRQLine n t) = RingID t.
Proof.
  unfold RescindIRQLine, GetIRQLine. destruct (mjoin _) as [[? ? []] |]; reflexivity.
Qed.

(** ** Delivery *)

(** The queue flag read by generated code agrees with the queue. *)
Definition queue_inv (t : ThreadInstance) : Prop :=
  message_waiting t = match message_queue_ t with [] => false | _ => true end.

Lemma queue_inv_SendMessage m t : queue_inv (SendMessage m t).
Proof. unfold queue_inv. simpl. destruct (message_queue_ t); reflexivity. Qed.

Lemma queue_inv_GetNextMessage t m t1 : GetNextMessage t = Ok (m, t1) -> queue_inv t1.
Proof.
  unfold GetNextMessage. destruct (message_queue_ t); intros H; inversion H; subst.
  reflexivity.
Qed.

(** Asserting an idle or acknowledged line queues an interrupt message. *)
Lemma AssertIRQ_notifies n t :
  match lookup_line t n with
  | Some l => state_ l = Idle \/ state_ l = Acknowledged
  | None => True
  end ->
  message_queue_ (AssertIRQ n t) = message_queue_ t ++ [Interrupt] /\
  HasMessage (AssertIRQ n t) = true.
Proof.
  intros H. unfold AssertIRQ. pose proof (GetIRQLine_spec n t) as Hg.
  destruct (GetIRQLine n t) as [l t1] eqn:Eg. destruct Hg as (-> & _ & _).
  assert (Hq : message_queue_ t1 = message_queue_ t).
  { unfold GetIRQLine in Eg. destruct (mjoin _); inversion Eg; reflexivity. }
  destruct (lookup_line t n) as [[? ? s] |]; simpl in *;
    [destruct H; subst s |]; simpl; rewrite Hq; auto.
Qed.

Lemma GetIRQLine_queue n t l t1 :
  GetIRQLine n t = (l, t1) ->
  message_queue_ t1 = message_queue_ t /\ HasMessage t1 = HasMessage t.
Proof. unfold GetIRQLine. destruct (mjoin _); intros H; inversion H; split; reflexivity. Qed.

Lemma RescindIRQLine_queue n t : message_queue_ (RescindIRQLine n t) = message_queue_ t.
Proof.
  unfold RescindIRQLine. destruct (GetIRQLine n t) as [l t1] eqn:Eg.
  apply GetIRQLine_queue in Eg as [<- _].
  destruct (line_Rescind l) as [l' []]; reflexivity.
Qed.

(** [Assert] on a rescinded line is silent. *)
Lemma AssertIRQ_silent n t l :
  lookup_line t n = Some l -> state_ l = Rescinded ->
  message_queue_ (AssertIRQ n t) = message_queue_ t /\ HasMessage (AssertIRQ n t) = HasMessage t.
Proof.
  intros Hl Hs. unfold AssertIRQ. pose proof (GetIRQLine_spec n t) as Hg.
  destruct (GetIRQLine n t) as [l1 t1] eqn:Eg. destruct Hg as (-> & _ & _).
  apply GetIRQLine_queue in Eg. rewrite Hl. simpl. unfold line_Assert. rewrite Hs. exact Eg.
Qed.

Section Delivery.
Context (HandleInterrupt : ThreadInstance -> CPUIRQLine -> ThreadInstance).

(** With no line asserted, [HandleIRQ] does nothing. *)
Lemma HandleIRQ_idle t : (forall n, asserted t n = false) -> HandleIRQ HandleInterrupt t = t.
Proof.
  intros H. unfold HandleIRQ. generalize (seq 0 (length (irq_lines_ t))) as ns.
  induction ns as [| n ns IH]; [reflexivity |]. simpl.
  replace (HandleIRQ_line HandleInterrupt t n) with t; [exact IH |].
  unfold HandleIRQ_line. specialize (H n). unfold asserted in H.
  destruct (lookup_line t n) as [l |]; [| reflexivity]. simpl in H. rewrite H. reflexivity.
Qed.

(** An interrupt line that is asserted, rescinded before its message
    is handled, and asserted again after that message was handled, stays
    asserted and unacknowledged with an empty message queue: [Assert] in state
    Rescinded neither changes the state nor calls [TakeIRQ], so the thread is
    not told about the second assertion. *)
Theorem rescinded_line_loses_interrupt n id :
  exists t,
    HandleMessage HandleInterrupt (RescindIRQLine n (AssertIRQ n (new_thread id)))
      = Ok (Exception, t) /\
    (exists l, lookup_line (AssertIRQ n t) n = Some l /\
       asserted_ l = true /\ IsAcknowledged l = false) /\
    message_queue_ (AssertIRQ n t) = [] /\
    HasMessage (AssertIRQ n t) = false.
Proof.
  set (t0 := RescindIRQLine n (AssertIRQ n (new_thread id))).
  assert (Hline : lookup_line t0 n = Some (mkLine (Z.of_nat n) false Rescinded)).
  { unfold t0. rewrite RescindIRQLine_line, AssertIRQ_line, !decide_True by reflexivity.
    reflexivity. }
  assert (Hq : message_queue_ t0 = [Interrupt]).
  { unfold t0. rewrite RescindIRQLine_queue. apply (AssertIRQ_notifies n). exact I. }
  assert (Hoff : forall m, asserted t0 m = false).
  { intros m. unfold t0. rewrite asserted_RescindIRQLine, asserted_AssertIRQ.
    case_decide; reflexivity. }
  unfold HandleMessage, GetNextMessage. rewrite Hq. cbn [rbind].
  set (t1 := mkThread _ _ _ _ _ _). exists t1.
  assert (H1 : lookup_line t1 n = lookup_line t0 n) by reflexivity.
  rewrite HandleIRQ_idle by exact Hoff. split; [reflexivity |].
  rewrite AssertIRQ_line, decide_True, H1, Hline by reflexivity. split; [eauto |].
  destruct (AssertIRQ_silent n t1 _ (eq_trans H1 Hline) eq_refl) as [-> Hw].
  split; [reflexivity |]. exact Hw.
Qed.
End Delivery.
