(* ===== verification/HartIRQ.v ===== *)
(** * What the interrupt controllers need of a hart

    SifivePLIC.cpp and SifiveCLINT.cpp reach a hart through its
    [RiscVSystemCoprocessor] only: they read MIP and MTIE and call
    [MachinePendInterrupt] and [MachineUnpendInterrupt].  The class states what
    they rely on; [RiscvCSR] provides the instance. *)

From stdpp Require Import base list numbers.
From Stdlib Require Import ZArith Lia Bool.
From S2P Require Import Prelude.

Class HartIRQ (H : Type) := {
  hart_mip : H -> Z;
  hart_mtie : H -> bool;
  hart_pend : Z -> H -> H;
  hart_unpend : Z -> H -> H;
  hart_implements : Z -> bool;

  (* the software, timer and external interrupts exist *)
  implements_standard : forall i, i ∈ [3; 7; 8; 9; 11] -> hart_implements i = true;
  hart_mip_bit : forall h i, hart_implements i = false -> Z.testbit (hart_mip h) i = false;
  hart_mip_pend : forall m h i,
    Z.testbit (hart_mip (hart_pend m h)) i
    = Z.testbit (hart_mip h) i || (hart_implements i && Z.testbit m i);
  hart_mip_unpend : forall m h i,
    Z.testbit (hart_mip (hart_unpend m h)) i
    = Z.testbit (hart_mip h) i && negb (Z.testbit m i);
  hart_mtie_pend : forall m h, hart_mtie (hart_pend m h) = hart_mtie h;
  hart_mtie_unpend : forall m h, hart_mtie (hart_unpend m h) = hart_mtie h
}.

#[export] Hint Rewrite @hart_mip_pend @hart_mip_unpend @hart_mtie_pend @hart_mtie_unpend : bits.

Section Driving.
Context {H : Type} `{HartIRQ H}.

Lemma mip_unpend_if m h i :
  Z.testbit (hart_mip (if to_bool m then hart_unpend m h else h)) i
  = Z.testbit (hart_mip h) i && negb (Z.testbit m i).
Proof.
  destruct (to_bool m) eqn:E; [apply hart_mip_unpend |].
  rewrite (to_bool_false_bits m i E). rewrite andb_true_r. reflexivity.
Qed.

Lemma mip_pend_if m h i :
  Z.testbit (hart_mip (if to_bool m then hart_pend m h else h)) i
  = Z.testbit (hart_mip h) i || (hart_implements i && Z.testbit m i).
Proof.
  destruct (to_bool m) eqn:E; [apply hart_mip_pend |].
  rewrite (to_bool_false_bits m i E), andb_false_r, orb_false_r. reflexivity.
Qed.

Lemma mtie_unpend_if m h : hart_mtie (if to_bool m then hart_unpend m h else h) = hart_mtie h.
Proof. destruct (to_bool m); [apply hart_mtie_unpend | reflexivity]. Qed.

Lemma mtie_pend_if m h : hart_mtie (if to_bool m then hart_pend m h else h) = hart_mtie h.
Proof. destruct (to_bool m); [apply hart_mtie_pend | reflexivity]. Qed.
End Driving.
