(* ===== verification/RiscvMMU.v ===== *)
(** * The RISC-V MMU

    archsim/src/arch/risc-v/RiscVMMU.cpp and its header, with the page
    information record of archsim/inc/abi/devices/MMU.h and the page
    arithmetic of archsim/inc/abi/Address.h.  Physical memory is the
    [MemoryModel] object the MMU is given, the CSR file the device it reads
    [mstatus] from: the first is a section parameter, the second the
    interface class [SystemDevice]. *)

From stdpp Require Import base list numbers.
From Stdlib Require Import ZArith Lia Bool Btauto.
From S2P Require Import Prelude.

(** ** Addresses *)

Definition PageSize : Z := 4096.
Definition PageMask : Z := PageSize - 1.
Definition GetPageBase (a : Z) : Z := Z.land a (not64 PageMask).
Definition GetPageOffset (a : Z) : Z := Z.land a (PageSize - 1).
Definition GetPageIndex (a : Z) : Z := a / PageSize.

(** ** Accesses and page information *)

Record AccessInfo := mkAccess {
  Ring : Z; Write : bool; Fetch : bool; SideEffects : bool
}.

Record PageInfo := mkPageInfo {
  pi_phys_addr : Z;
  pi_mask : Z;
  Present : bool;
  UserCanRead : bool; UserCanWrite : bool; UserCanExecute : bool;
  KernelCanRead : bool; KernelCanWrite : bool; KernelCanExecute : bool
}.

(** The constructor's initialiser list leaves out [UserCanExecute] and
    [KernelCanExecute]: their values are whatever the storage held. *)
Definition new_PageInfo (ux kx : bool) : PageInfo :=
  mkPageInfo 0 0 false false false ux false false kx.

Inductive TranslateResult := TXLN_OK | TXLN_FAULT_PAGE.

(** What a call of [Translate] does: its result, the value stored in the
    output parameter (if it is stored), and the exception raised through
    [HandleException] (if one is). *)
Record TranslateOutcome := mkOutcome {
  out_result : TranslateResult;
  out_phys : option Z;
  out_exception : option (Z * Z)
}.

(** ** Page table entries *)

Inductive Mode := NoTxln | Sv32 | Sv39 | Sv48.

#[export] Instance Mode_eq_dec : EqDecision Mode.
Proof. solve_decision. Defined.

Definition GetDataBit (data i : Z) : bool := to_bool (Z.land (Z.shiftr data i) 1).
Definition GetD (pte : Z) : bool := GetDataBit pte 7.
Definition GetA (pte : Z) : bool := GetDataBit pte 6.
Definition GetG (pte : Z) : bool := GetDataBit pte 5.
Definition GetU (pte : Z) : bool := GetDataBit pte 4.
Definition GetX (pte : Z) : bool := GetDataBit pte 3.
Definition GetW (pte : Z) : bool := GetDataBit pte 2.
Definition GetR (pte : Z) : bool := GetDataBit pte 1.
Definition GetV (pte : Z) : bool := GetDataBit pte 0.

Definition GetPPN (data : Z) : Z := Z.shiftr data 10.

Definition GetPPN_level (data : Z) (mode : Mode) (level : Z) : result Z :=
  match mode, level with
  | Sv32, 0 => Ok (Z.land (Z.shiftr data 10) 0x3ff)
  | Sv32, 1 => Ok (Z.land (Z.shiftr data 20) 0xfff)
  | Sv39, 0 => Ok (Z.land (Z.shiftr data 10) 0x1ff)
  | Sv39, 1 => Ok (Z.land (Z.shiftr data 19) 0x1ff)
  | Sv39, 2 => Ok (Z.land (Z.shiftr data 28) 0x3ffffff)
  | Sv48, 0 => Ok (Z.land (Z.shiftr data 10) 0x1ff)
  | Sv48, 1 => Ok (Z.land (Z.shiftr data 19) 0x1ff)
  | Sv48, 2 => Ok (Z.land (Z.shiftr data 28) 0x1ff)
  | Sv48, 3 => Ok (Z.land (Z.shiftr data 37) 0x1ffff)
  | _, _ => Err NotExpected
  end.

Definition GetVPN (mode : Mode) (addr vpn : Z) : result Z :=
  match mode, vpn with
  | Sv32, 0 => Ok (Z.land (Z.shiftr addr 12) 0x3ff)
  | Sv32, 1 => Ok (Z.land (Z.shiftr addr 22) 0x3ff)
  | Sv39, 0 => Ok (Z.land (Z.shiftr addr 12) 0x1ff)
  | Sv39, 1 => Ok (Z.land (Z.shiftr addr 21) 0x1ff)
  | Sv39, 2 => Ok (Z.land (Z.shiftr addr 30) 0x1ff)
  | Sv48, 0 => Ok (Z.land (Z.shiftr addr 12) 0x1ff)
  | Sv48, 1 => Ok (Z.land (Z.shiftr addr 21) 0x1ff)
  | Sv48, 2 => Ok (Z.land (Z.shiftr addr 30) 0x1ff)
  | Sv48, 3 => Ok (Z.land (Z.shiftr addr 39) 0x1ff)
  | NoTxln, _ => Err NotImplemented
  | _, _ => Err NotExpected
  end.

Definition GetPTESize (mode : Mode) : result Z :=
  match mode with
  | Sv32 => Ok 4
  | Sv39 | Sv48 => Ok 8
  | NoTxln => Err NotExpected
  end.

Definition GetPTLevels (mode : Mode) : result nat :=
  match mode with
  | Sv32 => Ok 2%nat
  | Sv39 => Ok 3%nat
  | Sv48 => Ok 4%nat
  | NoTxln => Err NotExpected
  end.

(** ** The register *)

Record RiscVMMU := mkMMU {
  mode_ : Mode;
  page_table_ppn_ : Z;
  asid_ : Z
}.

Definition GetSATP (m : RiscVMMU) : Z :=
  let mode_bits := match mode_ m with NoTxln => 0 | Sv32 => 1 | Sv39 => 8 | Sv48 => 9 end in
  Z.lor (Z.lor (page_table_ppn_ m) (u64 (Z.shiftl (asid_ m) 22))) (u64 (Z.shiftl mode_bits 60)).

(** The mode is decoded after the page table base and the ASID were stored;
    an unknown mode throws. *)
Definition SetSATP (new_satp : Z) (m : RiscVMMU) : result RiscVMMU :=
  let new_pt_ppn := Z.land new_satp 0xfffffffffff in
  let new_mode := Z.shiftr new_satp 60 in
  match new_mode with
  | 0 => Ok (mkMMU NoTxln new_pt_ppn 0)
  | 1 => Ok (mkMMU Sv32 new_pt_ppn 0)
  | 8 => Ok (mkMMU Sv39 new_pt_ppn 0)
  | 9 => Ok (mkMMU Sv48 new_pt_ppn 0)
  | _ => Err NotExpected
  end.

(** ** The walk *)

(** What the MMU needs of the CSR device: a 64-bit read. *)
Class SystemDevice (S : Type) := {
  csr_read64 : S -> Z -> result Z
}.

Section Walk.
Context (Read32 Read64 : Z -> Z).
Context (ux kx : bool).

Definition LoadPTE (mode : Mode) (address : Z) : result Z :=
  match mode with
  | Sv32 => Ok (u32 (Read32 address))
  | Sv39 | Sv48 => Ok (u64 (Read64 address))
  | NoTxln => Err NotExpected
  end.

(** The leaf's page information; the address mask is only written for Sv39. *)
Definition LeafInfo (mode : Mode) (pte : Z) (level : nat) : result PageInfo :=
  let base := u64 (Z.shiftl (GetPPN pte) 12) in
  let with_mask mask :=
    if GetU pte then
      Ok (mkPageInfo base mask true (GetR pte) (GetW pte) (GetX pte) false false kx)
    else
      Ok (mkPageInfo base mask true false false ux (GetR pte) (GetW pte) (GetX pte)) in
  match mode with
  | Sv39 =>
      match level with
      | 0%nat => with_mask (not64 0xfff)
      | 1%nat => with_mask (not64 0x1fffff)
      | 2%nat => with_mask (not64 0x3fffffff)
      | _ => Err NotExpected
      end
  | _ => Err NotImplemented
  end.

(** The recursion of [GetInfoLevel] goes down one level per call; below level
    zero it throws, so the level itself bounds it. *)
Fixpoint GetInfoLevel (mode : Mode) (virt_addr table : Z) (level : nat)
  : result (Z * PageInfo) :=
  let* vpn := GetVPN mode virt_addr (Z.of_nat level) in
  let* size := GetPTESize mode in
  let pte_address := u64 (table + u64 (vpn * size)) in
  let* pte := LoadPTE mode pte_address in
  if negb (GetV pte) || (negb (GetR pte) && GetW pte) then
    Ok (pte_address, new_PageInfo ux kx)
  else if GetR pte || GetX pte then
    let* pi := LeafInfo mode pte level in
    Ok (pte_address, pi)
  else
    match level with
    | O => Err NotImplemented
    | S level' => GetInfoLevel mode virt_addr (u64 (GetPPN pte * PageSize)) level'
    end.

Definition GetInfo (m : RiscVMMU) (virt_addr : Z) : result PageInfo :=
  let* levels := GetPTLevels (mode_ m) in
  let* (_, pi) := GetInfoLevel (mode_ m) virt_addr (u64 (GetSATP m * PageSize)) levels in
  Ok pi.

(** The permission part of [Translate]: whether a present page faults. *)
Definition PageFaults (sum : bool) (info : AccessInfo) (pte : Z) (pi : PageInfo) : bool :=
  let A := Z.land (Z.shiftr pte 6) 1 in
  let D := Z.land (Z.shiftr pte 7) 1 in
  (if negb (to_bool A) then true else Write info && negb (to_bool D)) ||
  (if Ring info =? 0 then
     (Fetch info && negb (UserCanExecute pi)) ||
     (negb (Write info) && negb (UserCanRead pi)) ||
     (Write info && negb (UserCanWrite pi))
   else if Ring info =? 1 then
     (Fetch info && negb (KernelCanExecute pi || (sum && UserCanExecute pi))) ||
     (negb (Write info) && negb (KernelCanRead pi || (sum && UserCanRead pi))) ||
     (Write info && negb (KernelCanWrite pi || (sum && UserCanWrite pi)))
   else false).

Definition fault_cause (info : AccessInfo) : Z :=
  if Fetch info then 12 else if Write info then 15 else 13.

Definition fault_outcome (info : AccessInfo) (virt_addr : Z) (phys : option Z) : TranslateOutcome :=
  mkOutcome TXLN_FAULT_PAGE phys
    (if SideEffects info then Some (fault_cause info, virt_addr) else None).

Context {S : Type} `{!SystemDevice S}.

Definition effective_info (mstatus : Z) (info : AccessInfo) : AccessInfo :=
  if (Ring info =? 3) && negb (Fetch info) && to_bool (Z.land (Z.shiftr mstatus 17) 1) then
    mkAccess (Z.land (Z.shiftr mstatus 11) 3) (Write info) (Fetch info) (SideEffects info)
  else info.

Definition Translate (csrs : S) (m : RiscVMMU) (virt_addr : Z) (info0 : AccessInfo)
  : result TranslateOutcome :=
  let satp := GetSATP m in
  let* mstatus := csr_read64 csrs 0x300 in
  let SUM := to_bool (Z.land (Z.shiftr mstatus 18) 1) in
  let info := effective_info mstatus info0 in
  if bool_decide (mode_ m = NoTxln) || (Ring info =? 3) then
    Ok (mkOutcome TXLN_OK (Some virt_addr) None)
  else
    let pt_base := u64 (Z.land satp 0xfffffffffff * PageSize) in
    let* levels := GetPTLevels (mode_ m) in
    let* (pte_address, pageinfo) := GetInfoLevel (mode_ m) virt_addr pt_base (levels - 1) in
    if Present pageinfo then
      let pte := u64 (Read64 pte_address) in
      let phys_addr :=
        Z.lor (GetPageBase (pi_phys_addr pageinfo))
              (Z.land virt_addr (not64 (pi_mask pageinfo))) in
      if PageFaults SUM info pte pageinfo
      then Ok (fault_outcome info virt_addr (Some phys_addr))
      else Ok (mkOutcome TXLN_OK (Some phys_addr) None)
    else Ok (fault_outcome info virt_addr None).
End Walk.

(** ** Sv39 translation, declaratively

    The specification of the walk as a relation over physical memory: field
    [l] of the virtual address selects an entry of the table, a pointer entry
    leads to the next level, and the walk ends in a leaf, in an entry that is
    not usable, or in a pointer at level 0. *)

Inductive walk_end :=
| WLeaf (pte_address : Z) (level : nat)
| WInvalid (pte_address : Z)
| WDangling.

Definition vpn_field (va : Z) (level : nat) : Z := (va / 2 ^ (12 + 9 * Z.of_nat level)) mod 512.

Definition pte_valid (pte : Z) : bool := Z.testbit pte 0 && (Z.testbit pte 1 || negb (Z.testbit pte 2)).
Definition pte_leaf (pte : Z) : bool := Z.testbit pte 1 || Z.testbit pte 3.
Definition pte_frame (pte : Z) : Z := pte / 2 ^ 10.

Section Spec.
Context (Read64 : Z -> Z).

Definition entry_address (table va : Z) (level : nat) : Z :=
  (table + 8 * vpn_field va level) mod 2 ^ 64.
Definition entry (a : Z) : Z := (Read64 a) mod 2 ^ 64.

Inductive walk (va : Z) : Z -> nat -> walk_end -> Prop :=
| walk_invalid table l :
    pte_valid (entry (entry_address table va l)) = false ->
    walk va table l (WInvalid (entry_address table va l))
| walk_leaf table l :
    pte_valid (entry (entry_address table va l)) = true ->
    pte_leaf (entry (entry_address table va l)) = true ->
    walk va table l (WLeaf (entry_address table va l) l)
| walk_dangling table :
    pte_valid (entry (entry_address table va 0)) = true ->
    pte_leaf (entry (entry_address table va 0)) = false ->
    walk va table 0 WDangling
| walk_next table l w :
    pte_valid (entry (entry_address table va (S l))) = true ->
    pte_leaf (entry (entry_address table va (S l))) = false ->
    walk va ((pte_frame (entry (entry_address table va (S l))) * 4096) mod 2 ^ 64) l w ->
    walk va table (S l) w.

(** Access control as the privileged architecture's bits express it, for a
    page whose entry is [pte]. *)
Definition permitted (sum : bool) (ring : Z) (write fetch : bool) (pte : Z) : bool :=
  let U := Z.testbit pte 4 in
  let allowed (rights : bool) :=
    implb fetch (rights && Z.testbit pte 3) &&
    implb (negb write) (rights && Z.testbit pte 1) &&
    implb write (rights && Z.testbit pte 2) in
  Z.testbit pte 6 && implb write (Z.testbit pte 7) &&
  (if ring =? 0 then allowed U
   else if ring =? 1 then allowed (negb U || sum)
   else true).

(** The translated address of a leaf at level [l]: the frame, with the low
    [12 + 9 l] bits replaced by those of the virtual address. *)
Definition leaf_phys (va pte : Z) (level : nat) : Z :=
  Z.lor ((pte_frame pte * 4096) mod 2 ^ 64) (va mod 2 ^ (12 + 9 * Z.of_nat level)).
End Spec.

(** ** Agreement of the bit-level code with the specification *)

Lemma GetDataBit_testbit data i : GetDataBit data i = Z.testbit data i.
Proof. apply to_bool_BITSEL. Qed.

Lemma land_ones_mod a n m : 0 <= n -> m = Z.ones n -> Z.land a m = a mod 2 ^ n.
Proof. intros ? ->. apply Z.land_ones. assumption. Qed.

Lemma GetVPN_Sv39 va l :
  (l <= 2)%nat -> GetVPN Sv39 va (Z.of_nat l) = Ok (vpn_field va l).
Proof.
  intros. unfold vpn_field. change 512 with (2 ^ 9).
  destruct l as [| [| [|]]]; [| | | lia];
    [change (Z.of_nat 0) with 0 | change (Z.of_nat 1) with 1 | change (Z.of_nat 2) with 2];
    unfold GetVPN; rewrite Z.shiftr_div_pow2, (land_ones_mod _ 9) by (lia || reflexivity);
    reflexivity.
Qed.

Lemma entry_address_code table va l :
  u64 (table + u64 (vpn_field va l * 8)) = entry_address table va l.
Proof.
  unfold u64, wrap, entry_address. rewrite Zplus_mod_idemp_r. f_equal. lia.
Qed.

Lemma pte_valid_code pte :
  negb (GetV pte) || (negb (GetR pte) && GetW pte) = negb (pte_valid pte).
Proof.
  unfold GetV, GetR, GetW, pte_valid. rewrite !GetDataBit_testbit. btauto.
Qed.

Lemma GetPPN_frame pte : GetPPN pte = pte_frame pte.
Proof. unfold GetPPN, pte_frame. rewrite Z.shiftr_div_pow2 by lia. reflexivity. Qed.

Lemma GetPageBase_frame a : GetPageBase ((a * 4096) mod 2 ^ 64) = (a * 4096) mod 2 ^ 64.
Proof.
  unfold GetPageBase. change 4096 with (2 ^ 12).
  apply Z.bits_inj'. intros i Hi.
  rewrite Z.land_spec. fold (wrap 64 (a * 2 ^ 12)).
  rewrite testbit_wrap by lia. destruct (Z.ltb_spec i 64); [| reflexivity].
  rewrite testbit_not64 by lia. change PageMask with (Z.ones 12).
  rewrite Z.testbit_ones_nonneg by lia.
  destruct (Z.ltb_spec i 12); cbn [negb andb]; [| rewrite andb_true_r; reflexivity].
  rewrite andb_false_r. symmetry. apply Z.mul_pow2_bits_low. lia.
Qed.

Lemma offset_code va n :
  in_range 64 va -> 0 <= n <= 64 ->
  Z.land va (not64 (not64 (Z.ones n))) = va mod 2 ^ n.
Proof.
  intros Hva Hn. rewrite <- Z.land_ones by lia. apply Z.bits_inj'. intros i Hi.
  rewrite !Z.land_spec. destruct (Z.lt_ge_cases i 64).
  - rewrite !testbit_not64, negb_involutive by lia. reflexivity.
  - rewrite (testbit_high 64 va) by (assumption || lia). reflexivity.
Qed.

Section Agreement.
Context (Read32 Read64 : Z -> Z) (ux kx : bool).

(** [GetInfoLevel] computes the walk. *)
Definition info_of_end (w : walk_end) : result (Z * PageInfo) :=
  match w with
  | WInvalid a => Ok (a, new_PageInfo ux kx)
  | WDangling => Err NotImplemented
  | WLeaf a l =>
      let* pi := LeafInfo ux kx Sv39 (entry Read64 a) l in Ok (a, pi)
  end.

Lemma GetInfoLevel_step va table l :
  (l <= 2)%nat ->
  GetInfoLevel Read32 Read64 ux kx Sv39 va table l =
  let a := entry_address table va l in
  if negb (pte_valid (entry Read64 a)) then Ok (a, new_PageInfo ux kx)
  else if pte_leaf (entry Read64 a) then info_of_end (WLeaf a l)
  else match l with
       | O => Err NotImplemented
       | S l' => GetInfoLevel Read32 Read64 ux kx Sv39 va
                   ((pte_frame (entry Read64 a) * 4096) mod 2 ^ 64) l'
       end.
Proof.
  intros Hl. destruct l as [| l]; cbn [GetInfoLevel]; rewrite GetVPN_Sv39 by lia;
    cbn [rbind GetPTESize LoadPTE]; rewrite entry_address_code, pte_valid_code, ?GetPPN_frame;
    unfold GetR, GetX; rewrite !GetDataBit_testbit; reflexivity.
Qed.

Lemma GetInfoLevel_walk va table l w :
  (l <= 2)%nat -> walk Read64 va table l w ->
  GetInfoLevel Read32 Read64 ux kx Sv39 va table l = info_of_end w.
Proof.
  intros Hl H. revert Hl. induction H; intros Hl; rewrite GetInfoLevel_step by lia;
    cbv zeta; rewrite ?H, ?H0; simpl; auto with lia.
Qed.

Lemma walk_total va table l : exists w, walk Read64 va table l w.
Proof.
  revert table. induction l as [| l IH]; intros table;
    match goal with |- exists w, walk _ _ _ ?l w => set (a := entry_address table va l) end;
    destruct (pte_valid (entry Read64 a)) eqn:Ev; try (eexists; apply walk_invalid; exact Ev);
    destruct (pte_leaf (entry Read64 a)) eqn:El; try (eexists; apply walk_leaf; assumption).
  - eexists. apply walk_dangling; assumption.
  - destruct (IH ((pte_frame (entry Read64 a) * 4096) mod 2 ^ 64)) as [w Hw].
    exists w. apply walk_next; assumption.
Qed.

Lemma walk_leaf_level va table l a l' : walk Read64 va table l (WLeaf a l') -> (l' <= l)%nat.
Proof.
  remember (WLeaf a l') as w eqn:E. intros H. revert E.
  induction H; intros E; inversion E; subst; auto.
Qed.
End Agreement.

(** ** Theorems *)

Definition satp_asid_mask : Z := Z.shiftl 0xffff 44.

Lemma SetSATP_Ok satp m m' :
  SetSATP satp m = Ok m' ->
  exists mode, m' = mkMMU mode (Z.land satp 0xfffffffffff) 0 /\
    Z.shiftr satp 60 = match mode with NoTxln => 0 | Sv32 => 1 | Sv39 => 8 | Sv48 => 9 end.
Proof.
  unfold SetSATP. intros H.
  repeat match type of H with
  | match ?x with _ => _ end = _ => destruct x eqn:?; try discriminate H
  end; inversion H; subst; eexists; split; reflexivity || assumption.
Qed.

(** Writing [satp] and reading it back gives the written value
    with the address space identifier cleared, for every 64-bit value whose
    mode field the MMU knows. *)
Theorem satp_write_read satp m m' :
  in_range 64 satp -> SetSATP satp m = Ok m' -> GetSATP m' = Z.ldiff satp satp_asid_mask.
Proof.
  intros Hr H. destruct (SetSATP_Ok _ _ _ H) as (mode & -> & Hmode).
  unfold GetSATP. cbn [mode_ page_table_ppn_ asid_]. rewrite <- Hmode.
  rewrite Z.shiftl_0_l. change (u64 0) with 0. rewrite Z.lor_0_r.
  change 0xfffffffffff with (Z.ones 44). unfold satp_asid_mask. change 0xffff with (Z.ones 16).
  apply Z.bits_inj'. intros i Hi.
  rewrite Z.lor_spec, Z.land_spec, Z.ldiff_spec. unfold u64.
  rewrite testbit_wrap, !testbit_shiftl_u, testbit_shiftr_u, !Z.testbit_ones by lia.
  replace (i - 60 + 60) with i by lia.
  destruct (Z.lt_ge_cases i 64).
  - destruct (Z.ltb_spec i 64), (Z.leb_spec 0 i), (Z.leb_spec 0 (i - 60)), (Z.ltb_spec i 44),
      (Z.leb_spec 0 (i - 44)), (Z.ltb_spec (i - 44) 16); try lia; simpl; btauto.
  - rewrite (testbit_high 64 satp) by (assumption || lia). btauto.
Qed.

Lemma satp_write_read_witness :
  GetSATP (mkMMU Sv39 0x80002 0) = Z.ldiff 0x8abcd00000080002 satp_asid_mask.
Proof.
  apply (satp_write_read 0x8abcd00000080002 (mkMMU NoTxln 0 0) (mkMMU Sv39 0x80002 0));
    [split; reflexivity || discriminate | reflexivity].
Defined.

(** [GetInfo] never returns page information: it starts the
    walk at level [GetPTLevels] instead of [GetPTLevels - 1], and the VPN
    lookup of that level throws in every mode. *)
Theorem GetInfo_never_returns Read32 Read64 ux kx m va :
  exists e, GetInfo Read32 Read64 ux kx m va = Err e.
Proof.
  unfold GetInfo. destruct (mode_ m); cbn; eauto.
Qed.

Section Refinement.
Context (Read32 Read64 : Z -> Z) (ux kx : bool) {S : Type} `{!SystemDevice S}.

Lemma LeafInfo_Sv39 pte l :
  (l <= 2)%nat ->
  LeafInfo ux kx Sv39 pte l =
  let U := Z.testbit pte 4 in
  let R := Z.testbit pte 1 in let W := Z.testbit pte 2 in let X := Z.testbit pte 3 in
  Ok (mkPageInfo ((pte_frame pte * 4096) mod 2 ^ 64)
        (not64 (Z.ones (12 + 9 * Z.of_nat l))) true
        (U && R) (U && W) (if U then X else ux) (negb U && R) (negb U && W) (if U then kx else X)).
Proof.
  intros Hl. unfold LeafInfo, GetU, GetR, GetW, GetX.
  rewrite !GetDataBit_testbit, GetPPN_frame, Z.shiftl_mul_pow2 by lia.
  destruct l as [| [| [|]]]; [| | | lia]; destruct (Z.testbit pte 4); reflexivity.
Qed.

(** The accesses whose outcome is that of storage the code never initialised:
    supervisor fetches, with SUM set, from a page that may be read but not
    executed ([Translate_reads_uninitialised]). *)
Definition reads_uninitialised (sum : bool) (info : AccessInfo) (pte : Z) : bool :=
  (Ring info =? 1) && Fetch info && sum && Z.testbit pte (if RiscvMMU.Write info then 2 else 1) && negb (Z.testbit pte 3).
Definition uninitialised_clear (sum : bool) (info : AccessInfo) (pte : Z) : Prop :=
  reads_uninitialised sum info pte = true -> ux = false /\ kx = false.

Lemma PageFaults_permitted sum info pte l pi :
  (l <= 2)%nat -> LeafInfo ux kx Sv39 pte l = Ok pi -> uninitialised_clear sum info pte ->
  PageFaults sum info pte pi =
  negb (permitted sum (Ring info) (RiscvMMU.Write info) (Fetch info) pte).
Proof.
  intros Hl H Hu. rewrite LeafInfo_Sv39 in H by assumption. cbv zeta in H. apply Ok_inj in H as <-.
  unfold uninitialised_clear, reads_uninitialised in Hu. unfold PageFaults, permitted. cbv zeta. cbn [UserCanRead UserCanWrite UserCanExecute
    KernelCanRead KernelCanWrite KernelCanExecute].
  fold (BITSEL pte 6) (BITSEL pte 7). rewrite !to_bool_BITSEL.
  assert (R01 : (Ring info =? 0) && (Ring info =? 1) = false) by lia.
  destruct (Ring info =? 0), (Ring info =? 1), (Z.testbit pte 6), (RiscvMMU.Write info), (Fetch info),
    (Z.testbit pte 4), sum; cbn [andb orb negb implb] in *; try discriminate R01; try btauto;
    (destruct (Z.testbit pte 1), (Z.testbit pte 2), (Z.testbit pte 3); cbn [andb orb negb] in *; try btauto; destruct (Hu eq_refl) as [-> ->]; btauto).
Qed.

(** C30. For an Sv39 address space as a write of satp leaves it (a frame of 44
    bits, no address space identifier), a 64-bit address, and an access that is
    not made in machine mode once MPRV is taken into account, [Translate]
    refines the declarative walk: on a leaf it returns the leaf's frame joined
    with the page offset exactly when the entry's A, D, U, R, W and X bits and
    SUM permit the access (as coded a fetch needs R as well as X, and SUM lets a
    supervisor fetch from user pages), and a page fault otherwise; on an
    unusable entry it returns a page fault; a pointer at level 0 throws. A fault
    raises the cause of the access kind with the faulting address when the
    access has side effects, and nothing else. The two execute bits that the
    constructor of the page information leaves uninitialised are arbitrary,
    except for a supervisor fetch, with SUM set, from a page that may be read
    but not executed: its outcome is theirs, and they are taken to be clear. *)
Theorem Translate_refines_walk csrs m va info0 mstatus w :
  csr_read64 csrs 0x300 = Ok mstatus ->
  mode_ m = Sv39 -> in_range 44 (page_table_ppn_ m) -> asid_ m = 0 -> in_range 64 va ->
  let info := effective_info mstatus info0 in
  Ring info <> 3 ->
  walk Read64 va (page_table_ppn_ m * 4096) 2 w ->
  (forall a l, w = WLeaf a l -> uninitialised_clear (Z.testbit mstatus 18) info (entry Read64 a)) ->
  Translate Read32 Read64 ux kx csrs m va info0 =
  match w with
  | WDangling => Err NotImplemented
  | WInvalid _ => Ok (fault_outcome info va None)
  | WLeaf a l =>
      let pa := leaf_phys va (entry Read64 a) l in
      if permitted (Z.testbit mstatus 18) (Ring info) (RiscvMMU.Write info) (Fetch info)
           (entry Read64 a)
      then Ok (mkOutcome TXLN_OK (Some pa) None)
      else Ok (fault_outcome info va (Some pa))
  end.
Proof.
  intros Hcsr Hmode Hppn Hasid Hva info Hring Hw Hu. unfold Translate. rewrite Hcsr. cbn [rbind].
  fold info. rewrite Hmode. rewrite bool_decide_eq_false_2 by discriminate.
  destruct (Z.eqb_spec (Ring info) 3); [contradiction |]. cbn [orb GetPTLevels rbind Nat.sub].
  replace (u64 _) with (page_table_ppn_ m * 4096).
  2: { unfold GetSATP. rewrite Hmode, Hasid, Z.shiftl_0_l. change (u64 0) with 0.
       rewrite Z.lor_0_r. change 0xfffffffffff with (Z.ones 44).
       change (u64 (Z.shiftl 8 60)) with (2 ^ 63).
       rewrite Z.land_ones by lia. rewrite <- Z.land_ones by lia.
       rewrite Z.land_lor_distr_l. change (Z.land (2 ^ 63) (Z.ones 44)) with 0.
       rewrite Z.lor_0_r, Z.land_ones, Z.mod_small by (lia || assumption).
       unfold u64. rewrite wrap_small; [reflexivity |].
       unfold in_range, PageSize in *. lia. }
  rewrite (GetInfoLevel_walk _ _ ux kx va _ 2 w) by (lia || assumption).
  destruct w as [a l | a |]; cbn [info_of_end rbind]; try reflexivity.
  pose proof (walk_leaf_level _ _ _ _ _ _ Hw) as Hl.
  destruct (LeafInfo ux kx Sv39 (entry Read64 a) l) as [pi |] eqn:Epi;
    [| rewrite LeafInfo_Sv39 in Epi by assumption; discriminate].
  cbn [rbind]. fold (BITSEL mstatus 18). rewrite to_bool_BITSEL.
  change (u64 (Read64 a)) with (entry Read64 a).
  rewrite (PageFaults_permitted _ info _ l pi) by (assumption || exact (Hu a l eq_refl)).
  rewrite LeafInfo_Sv39 in Epi by assumption. cbv zeta in Epi. apply Ok_inj in Epi as <-.
  cbn [Present pi_phys_addr pi_mask]. rewrite GetPageBase_frame, offset_code by (lia || assumption).
  destruct (permitted _ _ _ _ _); reflexivity.
Qed.
End Refinement.

(** A small address space: root table in frame 1, then tables in frames 2 and
    3, and a user page in frame 0x55; [mstatus] is the device state itself. *)
Definition demo_memory (a : Z) : Z :=
  if a =? 0x1008 then 0x801 else if a =? 0x2008 then 0xc01 else if a =? 0x3008 then 0x154df
  else 0.

#[local] Instance demo_device : SystemDevice Z := {| csr_read64 s _ := Ok s |}.

Lemma demo_walk : walk demo_memory 0x40201abc 0x1000 2 (WLeaf 0x3008 0).
Proof.
  apply walk_next; [reflexivity | reflexivity |]. apply walk_next; [reflexivity | reflexivity |].
  change 0x3008 with (entry_address 0x3000 0x40201abc 0).
  apply (walk_leaf demo_memory 0x40201abc 0x3000 0); reflexivity.
Qed.

Lemma Translate_refines_walk_witness :
  Translate demo_memory demo_memory true true 0 (mkMMU Sv39 1 0) 0x40201abc
    (mkAccess 0 true false true)
  = Ok (mkOutcome TXLN_OK (Some 0x55abc) None).
Proof.
  rewrite (Translate_refines_walk demo_memory demo_memory true true 0 (mkMMU Sv39 1 0) 0x40201abc
             (mkAccess 0 true false true) 0 (WLeaf 0x3008 0));
    try reflexivity; try exact demo_walk; try discriminate;
    try (intros a l _ H; vm_compute in H; discriminate H);
    split; reflexivity || discriminate.
Defined.

(** A frame aligned to its level adds up with the offset. *)
Lemma leaf_phys_aligned va pte l k :
  in_range 64 pte -> pte_frame pte = k * 2 ^ (9 * Z.of_nat l) -> in_range 44 (pte_frame pte) ->
  leaf_phys va pte l = pte_frame pte * 4096 + va mod 2 ^ (12 + 9 * Z.of_nat l).
Proof.
  intros Hp Hk Hf. unfold leaf_phys. rewrite Z.mod_small by (unfold in_range in *; lia).
  replace (pte_frame pte * 4096) with (Z.shiftl k (12 + 9 * Z.of_nat l)).
  2: { rewrite Z.shiftl_mul_pow2, Z.pow_add_r, Hk by lia. lia. }
  symmetry. rewrite Z.add_nocarry_lxor; [apply Z.lxor_lor |]; apply Z.bits_inj'; intros i Hi;
    rewrite Z.land_spec, testbit_shiftl_u, Z.testbit_0_l by lia;
    fold (wrap (12 + 9 * Z.of_nat l) va); rewrite testbit_wrap by lia;
    (destruct (Z.ltb_spec i (12 + 9 * Z.of_nat l)) as [Hlt |]; [| btauto]);
    rewrite (Z.testbit_neg_r k) by lia; btauto.
Qed.

(** The outcome of a translation can depend on storage the code
    never initialised: a supervisor fetch from a readable, non-executable
    supervisor page with SUM set faults or succeeds with the value
    [UserCanExecute] happened to hold. *)
Theorem Translate_reads_uninitialised :
  let mem a := if a =? 0x1008 then 0x4f000043 else 0 in
  let m := mkMMU Sv39 1 0 in
  let fetch := mkAccess 1 false true true in
  Translate mem mem false false (2 ^ 18) m 0x40201abc fetch
    = Ok (mkOutcome TXLN_FAULT_PAGE (Some (leaf_phys 0x40201abc 0x4f000043 2))
            (Some (12, 0x40201abc))) /\
  Translate mem mem true false (2 ^ 18) m 0x40201abc fetch
    = Ok (mkOutcome TXLN_OK (Some (leaf_phys 0x40201abc 0x4f000043 2)) None).
Proof. split; vm_compute; reflexivity. Qed.
