(* ===== verification/RiscvCSR.v ===== *)
(** * The RISC-V system coprocessor

    archsim/src/arch/risc-v/RiscVSystemCoprocessor.cpp and its header: the
    control and status registers of one hart, and the path from a pending
    interrupt bit to the hart's interrupt lines.  The scalar registers are one
    store indexed by their names; [STATUS_t], [IP_t] and [IE_t] keep their
    fields.  The hart is the thread of [Thread], the MMU that of [RiscvMMU].
    Locks are left out: every entry point holds the (recursive) lock for its
    whole body. *)

From stdpp Require Import base list numbers relations.
From Stdlib Require Import ZArith Lia Bool Btauto.
From S2P Require Import Prelude.
From S2P Require Import Thread.
From S2P Require Import HartIRQ.
From S2P Require Import RiscvMMU.

(** ** Registers *)

Inductive csr :=
| MTVEC | MSCRATCH | MEPC | MCAUSE | MTVAL | MIDELEG | MEDELEG
| SIDELEG | SEDELEG | STVEC | SSCRATCH | SEPC | SCAUSE | STVAL
| MCOUNTEREN | SCOUNTEREN.

#[export] Instance csr_eq_dec : EqDecision csr.
Proof. solve_decision. Defined.

Record STATUS_t := mkSTATUS {
  SD : bool; SXL : Z; UXL : Z; TSR : bool; TW : bool; TVM : bool; MXR : bool;
  SUM : bool; MPRV : bool; XS : Z; FS : Z; MPP : Z; SPP : bool;
  MPIE : bool; SPIE : bool; UPIE : bool; MIE : bool; SIE : bool; UIE : bool
}.

Record IP_t := mkIP {
  MEIP : bool; SEIP : bool; UEIP : bool;
  MTIP : bool; STIP : bool; UTIP : bool;
  MSIP : bool; SSIP : bool; USIP : bool
}.

Record IE_t := mkIE {
  MEIE : bool; SEIE : bool; UEIE : bool;
  MTIE : bool; STIE : bool; UTIE : bool;
  MSIE : bool; SSIE : bool; USIE : bool
}.

Definition new_STATUS : STATUS_t :=
  mkSTATUS false 0 0 false false false false false false 0 0 0
    false false false false false false false.
Definition IP_Reset : IP_t := mkIP false false false false false false false false false.
Definition IE_Reset : IE_t := mkIE false false false false false false false false false.

(** A flag or field in its place of the register image. *)
Definition flag (b : bool) (n : Z) : Z := Z.shiftl (Z.b2z b) n.
Definition field (v n : Z) : Z := Z.shiftl v n.

Definition STATUS_ReadMSTATUS (s : STATUS_t) : Z :=
  0 .| flag (SD s) 63 .| field (SXL s) 34 .| field (UXL s) 32 .| flag (TSR s) 22
    .| flag (TW s) 21 .| flag (TVM s) 20 .| flag (MXR s) 19 .| flag (SUM s) 18
    .| flag (MPRV s) 17 .| field (XS s) 15 .| field (FS s) 13 .| field (MPP s) 11
    .| flag (SPP s) 8 .| flag (MPIE s) 7 .| flag (SPIE s) 5 .| flag (UPIE s) 4
    .| flag (MIE s) 3 .| flag (SIE s) 1 .| flag (UIE s) 0.

(** The new status and whether the TLBs must be flushed. *)
Definition STATUS_WriteMSTATUS (data : Z) (s : STATUS_t) : STATUS_t * bool :=
  let new_SUM := to_bool (BITSEL data 18) in
  let new_MPRV := to_bool (BITSEL data 17) in
  let should_flush_tlb := xorb (SUM s) new_SUM || xorb new_MPRV (MPRV s) in
  (mkSTATUS
     (to_bool (UNSIGNED_BITS_64 data 63 62))
     (u8 (UNSIGNED_BITS_64 data 34 33)) (u8 (UNSIGNED_BITS_64 data 32 31))
     (to_bool (BITSEL data 22)) (to_bool (BITSEL data 21)) (to_bool (BITSEL data 20))
     (to_bool (BITSEL data 19)) new_SUM new_MPRV
     (u8 (UNSIGNED_BITS_64 data 16 15)) (u8 (UNSIGNED_BITS_64 data 14 13))
     (u8 (UNSIGNED_BITS_64 data 12 11))
     (to_bool (BITSEL data 8)) (to_bool (BITSEL data 7)) (to_bool (BITSEL data 5))
     (to_bool (BITSEL data 4)) (to_bool (BITSEL data 3)) (to_bool (BITSEL data 1))
     (to_bool (BITSEL data 0)),
   should_flush_tlb).

Definition STATUS_ReadSSTATUS (s : STATUS_t) : Z :=
  0 .| flag (SD s) 63 .| field (UXL s) 32 .| flag (MXR s) 19 .| flag (SUM s) 18
    .| field (XS s) 15 .| field (FS s) 13 .| flag (SPP s) 8 .| flag (SPIE s) 5
    .| flag (UPIE s) 4 .| flag (SIE s) 1 .| flag (UIE s) 0.

Definition STATUS_WriteSSTATUS (data : Z) (s : STATUS_t) : STATUS_t * bool :=
  let new_SUM := to_bool (BITSEL data 18) in
  let should_flush_tlb := xorb new_SUM (SUM s) in
  (mkSTATUS
     (to_bool (UNSIGNED_BITS_64 data 63 62))
     (SXL s) (u8 (UNSIGNED_BITS_64 data 32 31))
     (TSR s) (TW s) (TVM s)
     (to_bool (BITSEL data 19)) new_SUM (MPRV s)
     (u8 (UNSIGNED_BITS_64 data 16 15)) (u8 (UNSIGNED_BITS_64 data 14 13))
     (MPP s)
     (to_bool (BITSEL data 8)) (MPIE s) (to_bool (BITSEL data 5))
     (to_bool (BITSEL data 4)) (MIE s) (to_bool (BITSEL data 1))
     (to_bool (BITSEL data 0)),
   should_flush_tlb).

Definition IP_ReadMIP (p : IP_t) : Z :=
  0 .| flag (MEIP p) 11 .| flag (SEIP p) 9 .| flag (UEIP p) 8
    .| flag (MTIP p) 7 .| flag (STIP p) 5 .| flag (UTIP p) 4
    .| flag (MSIP p) 3 .| flag (SSIP p) 1 .| flag (USIP p) 0.

Definition IP_WriteMIP (data : Z) (p : IP_t) : IP_t :=
  mkIP (MEIP p) (to_bool (BITSEL data 9)) (to_bool (BITSEL data 8))
       (MTIP p) (to_bool (BITSEL data 5)) (to_bool (BITSEL data 4))
       (MSIP p) (to_bool (BITSEL data 1)) (to_bool (BITSEL data 0)).

Definition IP_ReadSIP (p : IP_t) : Z :=
  0 .| flag (SEIP p) 9 .| flag (UEIP p) 8 .| flag (STIP p) 5 .| flag (UTIP p) 4
    .| flag (SSIP p) 1 .| flag (USIP p) 0.

Definition IP_WriteSIP (data : Z) (p : IP_t) : IP_t :=
  mkIP (MEIP p) (SEIP p) (to_bool (BITSEL data 8)) (MTIP p) (STIP p) (UTIP p)
       (MSIP p) (to_bool (BITSEL data 1)) (to_bool (BITSEL data 0)).

Definition IP_PendMask (data : Z) (p : IP_t) : IP_t :=
  let set b n := b || to_bool (BITSEL data n) in
  mkIP (set (MEIP p) 11) (set (SEIP p) 9) (set (UEIP p) 8)
       (set (MTIP p) 7) (set (STIP p) 5) (set (UTIP p) 4)
       (set (MSIP p) 3) (set (SSIP p) 1) (set (USIP p) 0).

Definition IP_ClearMask (mask : Z) (p : IP_t) : IP_t :=
  let data := not64 mask in
  let keep b n := b && to_bool (BITSEL data n) in
  mkIP (keep (MEIP p) 11) (keep (SEIP p) 9) (keep (UEIP p) 8)
       (keep (MTIP p) 7) (keep (STIP p) 5) (keep (UTIP p) 4)
       (keep (MSIP p) 3) (keep (SSIP p) 1) (keep (USIP p) 0).

Definition IE_ReadMIE (e : IE_t) : Z :=
  0 .| flag (MEIE e) 11 .| flag (SEIE e) 9 .| flag (UEIE e) 8
    .| flag (MTIE e) 7 .| flag (STIE e) 5 .| flag (UTIE e) 4
    .| flag (MSIE e) 3 .| flag (SSIE e) 1 .| flag (USIE e) 0.

Definition IE_ReadSIE (e : IE_t) : Z :=
  0 .| flag (SEIE e) 9 .| flag (UEIE e) 8 .| flag (STIE e) 5 .| flag (UTIE e) 4
    .| flag (SSIE e) 1 .| flag (USIE e) 0.

Definition IE_WriteMIE (data : Z) (e : IE_t) : IE_t :=
  mkIE (to_bool (BITSEL data 11)) (to_bool (BITSEL data 9)) (to_bool (BITSEL data 8))
       (to_bool (BITSEL data 7)) (to_bool (BITSEL data 5)) (to_bool (BITSEL data 4))
       (to_bool (BITSEL data 3)) (to_bool (BITSEL data 1)) (to_bool (BITSEL data 0)).

Definition IE_WriteSIE (data : Z) (e : IE_t) : IE_t :=
  mkIE (MEIE e) (to_bool (BITSEL data 9)) (to_bool (BITSEL data 8))
       (MTIE e) (to_bool (BITSEL data 5)) (to_bool (BITSEL data 4))
       (MSIE e) (to_bool (BITSEL data 1)) (to_bool (BITSEL data 0)).

(** ** The coprocessor *)

Inductive PubSubType := ITlbFullFlush | DTlbFullFlush.

Record RiscVSystemCoprocessor := mkCoproc {
  csrs : csr -> Z;
  STATUS : STATUS_t;
  IP : IP_t;
  IE : IE_t;
  true_pending_interrupts_ : Z;
  hart_ : ThreadInstance;
  mmu_ : RiscVMMU;
  published : list PubSubType;   (* events published, oldest first *)
  tick_counter : Z               (* GetTickSource()->GetCounter() *)
}.

Definition upd_csrs (f : (csr -> Z) -> csr -> Z) (c : RiscVSystemCoprocessor) :=
  mkCoproc (f (csrs c)) (STATUS c) (IP c) (IE c) (true_pending_interrupts_ c) (hart_ c)
    (mmu_ c) (published c) (tick_counter c).
Definition with_STATUS (s : STATUS_t) (c : RiscVSystemCoprocessor) :=
  mkCoproc (csrs c) s (IP c) (IE c) (true_pending_interrupts_ c) (hart_ c)
    (mmu_ c) (published c) (tick_counter c).
Definition with_IP (p : IP_t) (c : RiscVSystemCoprocessor) :=
  mkCoproc (csrs c) (STATUS c) p (IE c) (true_pending_interrupts_ c) (hart_ c)
    (mmu_ c) (published c) (tick_counter c).
Definition with_IE (e : IE_t) (c : RiscVSystemCoprocessor) :=
  mkCoproc (csrs c) (STATUS c) (IP c) e (true_pending_interrupts_ c) (hart_ c)
    (mmu_ c) (published c) (tick_counter c).
Definition with_hart (pending : Z) (t : ThreadInstance) (c : RiscVSystemCoprocessor) :=
  mkCoproc (csrs c) (STATUS c) (IP c) (IE c) pending t (mmu_ c) (published c) (tick_counter c).
Definition with_mmu (m : RiscVMMU) (c : RiscVSystemCoprocessor) :=
  mkCoproc (csrs c) (STATUS c) (IP c) (IE c) (true_pending_interrupts_ c) (hart_ c)
    m (published c) (tick_counter c).
Definition publish (es : list PubSubType) (c : RiscVSystemCoprocessor) :=
  mkCoproc (csrs c) (STATUS c) (IP c) (IE c) (true_pending_interrupts_ c) (hart_ c)
    (mmu_ c) (published c ++ es) (tick_counter c).

Definition set_csr (r : csr) (v : Z) : RiscVSystemCoprocessor -> RiscVSystemCoprocessor :=
  upd_csrs (fun f r' => if decide (r = r') then v else f r').

(** One turn of the loop of [CheckForInterrupts]. *)
Definition sync_line (cur tp : Z) (t : ThreadInstance) (i : nat) : ThreadInstance :=
  let current_pending := to_bool (Z.land (Z.shiftr cur (Z.of_nat i)) 1) in
  let true_pending := to_bool (Z.land (Z.shiftr tp (Z.of_nat i)) 1) in
  let t1 := if current_pending && negb true_pending then AssertIRQ i t else t in
  if negb current_pending && true_pending then RescindIRQLine i t1 else t1.

Definition CheckForInterrupts (c : RiscVSystemCoprocessor) : RiscVSystemCoprocessor :=
  let current_pending_interrupts := Z.land (IP_ReadMIP (IP c)) (IE_ReadMIE (IE c)) in
  let tp := true_pending_interrupts_ c in
  let '(tp1, t1) :=
    if current_pending_interrupts =? tp then (tp, hart_ c)
    else (u32 current_pending_interrupts,
          fold_left (sync_line current_pending_interrupts tp) (seq 0 32) (hart_ c)) in
  with_hart tp1 (PendIRQ t1) c.

Definition flush_if (b : bool) (c : RiscVSystemCoprocessor) : RiscVSystemCoprocessor :=
  if b then publish [ITlbFullFlush; DTlbFullFlush] c else c.

Definition ReadMSTATUS (c : RiscVSystemCoprocessor) : Z := STATUS_ReadMSTATUS (STATUS c).
Definition WriteMSTATUS (data : Z) (c : RiscVSystemCoprocessor) : RiscVSystemCoprocessor :=
  let '(s, flush) := STATUS_WriteMSTATUS data (STATUS c) in
  CheckForInterrupts (flush_if flush (with_STATUS s c)).
Definition WriteSSTATUS (data : Z) (c : RiscVSystemCoprocessor) : RiscVSystemCoprocessor :=
  let '(s, flush) := STATUS_WriteSSTATUS data (STATUS c) in
  CheckForInterrupts (flush_if flush (with_STATUS s c)).
Definition ReadMIP (c : RiscVSystemCoprocessor) : Z := IP_ReadMIP (IP c).
Definition WriteMIP (newmip : Z) (c : RiscVSystemCoprocessor) : RiscVSystemCoprocessor :=
  CheckForInterrupts (with_IP (IP_WriteMIP newmip (IP c)) c).
Definition ReadSIP (c : RiscVSystemCoprocessor) : Z := IP_ReadSIP (IP c).
Definition WriteSIP (newsip : Z) (c : RiscVSystemCoprocessor) : RiscVSystemCoprocessor :=
  CheckForInterrupts (with_IP (IP_WriteSIP newsip (IP c)) c).
Definition GetMTIE (c : RiscVSystemCoprocessor) : bool := MTIE (IE c).

Definition MachinePendInterrupt (mask : Z) (c : RiscVSystemCoprocessor) : RiscVSystemCoprocessor :=
  CheckForInterrupts (with_IP (IP_PendMask mask (IP c)) c).
Definition MachineUnpendInterrupt (mask : Z) (c : RiscVSystemCoprocessor) : RiscVSystemCoprocessor :=
  CheckForInterrupts (with_IP (IP_ClearMask mask (IP c)) c).

Definition new_RiscVSystemCoprocessor (hart : ThreadInstance) (mmu : RiscVMMU) (counter : Z)
  : RiscVSystemCoprocessor :=
  WriteMSTATUS 0 (mkCoproc (fun _ => 0) new_STATUS IP_Reset IE_Reset 0 hart mmu [] counter).

(** Registers of the physical memory protection unit: 0x3a0-0x3a3, 0x3b0-0x3bf. *)
Definition is_pmp (address : Z) : bool :=
  ((0x3a0 <=? address) && (address <=? 0x3a3)) || ((0x3b0 <=? address) && (address <=? 0x3bf)).

Definition MISA : Z :=
  0 .| u64 (Z.shiftl 2 62) .| 1 .| Z.shiftl 1 3 .| Z.shiftl 1 5 .| Z.shiftl 1 8
    .| Z.shiftl 1 12 .| Z.shiftl 1 18 .| Z.shiftl 1 20.

Definition Read64 (address : Z) (c : RiscVSystemCoprocessor) : result Z :=
  if address =? 0x100 then Ok (STATUS_ReadSSTATUS (STATUS c)) else
  if address =? 0x104 then Ok (IE_ReadSIE (IE c)) else
  if address =? 0x105 then Ok (csrs c STVEC) else
  if address =? 0x106 then Ok (csrs c SCOUNTEREN) else
  if address =? 0x140 then Ok (csrs c SSCRATCH) else
  if address =? 0x141 then Ok (csrs c SEPC) else
  if address =? 0x142 then Ok (csrs c SCAUSE) else
  if address =? 0x143 then Ok (csrs c STVAL) else
  if address =? 0x144 then Ok (ReadSIP c) else
  if address =? 0x180 then Ok (GetSATP (mmu_ c)) else
  if address =? 0x300 then Ok (ReadMSTATUS c) else
  if address =? 0x301 then Ok MISA else
  if address =? 0x302 then Ok (csrs c MEDELEG) else
  if address =? 0x303 then Ok (csrs c MIDELEG) else
  if address =? 0x304 then Ok (IE_ReadMIE (IE c)) else
  if address =? 0x305 then Ok (csrs c MTVEC) else
  if address =? 0x306 then Ok (csrs c MCOUNTEREN) else
  if address =? 0x340 then Ok (csrs c MSCRATCH) else
  if address =? 0x341 then Ok (csrs c MEPC) else
  if address =? 0x342 then Ok (csrs c MCAUSE) else
  if address =? 0x343 then Ok (csrs c MTVAL) else
  if address =? 0x344 then Ok (ReadMIP c) else
  if address =? 0xc01 then Ok (u64 (tick_counter c * 1000)) else
  if address =? 0xf14 then Ok (u64 (thread_id_ (hart_ c))) else
  if is_pmp address then Ok 0 else Err NotImplemented.

Definition Write64 (address data : Z) (c : RiscVSystemCoprocessor) : result RiscVSystemCoprocessor :=
  if address =? 0x100 then Ok (WriteSSTATUS data c) else
  if address =? 0x104 then Ok (CheckForInterrupts (with_IE (IE_WriteSIE data (IE c)) c)) else
  if address =? 0x105 then Ok (set_csr STVEC data c) else
  if address =? 0x106 then Ok (set_csr SCOUNTEREN data c) else
  if address =? 0x140 then Ok (set_csr SSCRATCH data c) else
  if address =? 0x141 then Ok (set_csr SEPC data c) else
  if address =? 0x142 then Ok (set_csr SCAUSE data c) else
  if address =? 0x143 then Ok (set_csr STVAL data c) else
  if address =? 0x144 then Ok (WriteSIP data c) else
  if address =? 0x180 then let* m := SetSATP data (mmu_ c) in
      Ok (publish [DTlbFullFlush; ITlbFullFlush; DTlbFullFlush] (with_mmu m c)) else
  if address =? 0x300 then Ok (CheckForInterrupts (WriteMSTATUS data c)) else
  if address =? 0x301 then Ok c else
  if address =? 0x302 then Ok (set_csr MEDELEG data c) else
  if address =? 0x303 then Ok (set_csr MIDELEG data c) else
  if address =? 0x304 then Ok (CheckForInterrupts (with_IE (IE_WriteMIE data (IE c)) c)) else
  if address =? 0x305 then Ok (set_csr MTVEC data c) else
  if address =? 0x306 then Ok (set_csr MCOUNTEREN data c) else
  if address =? 0x340 then Ok (set_csr MSCRATCH data c) else
  if address =? 0x341 then Ok (set_csr MEPC data c) else
  if address =? 0x342 then Ok (set_csr MCAUSE data c) else
  if address =? 0x343 then Ok (set_csr MTVAL data c) else
  if address =? 0x344 then Ok (WriteMIP data c) else
  if address =? 0xc01 then Ok c else
  if address =? 0xf14 then Ok c else
  if is_pmp address then Ok c else Err NotImplemented.

(** ** Choosing an interrupt *)

Fixpoint first_bit (bits : Z) (idxs : list nat) : Z :=
  match idxs with
  | [] => -1
  | i :: rest =>
      if to_bool (Z.land bits (int_bit (Z.of_nat i))) then Z.of_nat i else first_bit bits rest
  end.

Definition get_pending_interrupt (bits : Z) : Z := first_bit bits (seq 0 32).

Record PendingInterrupt := mkPending { ID : Z; Priv : Z }.

Definition GetPendingInterrupt (c : RiscVSystemCoprocessor) : result PendingInterrupt :=
  let priv_mode := u8 (RingID (hart_ c)) in
  let mach := Z.land (Z.land (ReadMIP c) (IE_ReadMIE (IE c))) (not64 (csrs c MIDELEG)) in
  let sup := Z.land (Z.land (Z.land (ReadSIP c) (IE_ReadSIE (IE c))) (csrs c MIDELEG))
                    (not64 (csrs c SIDELEG)) in
  let usr := Z.land (Z.land (Z.land (IE_ReadMIE (IE c)) (ReadMIP c)) (csrs c MIDELEG))
                    (csrs c SIDELEG) in
  if ((priv_mode <? 3) || ((priv_mode =? 3) && MIE (STATUS c))) && to_bool mach then
    Ok (mkPending (get_pending_interrupt mach) 3)
  else if ((priv_mode <? 1) || ((priv_mode =? 1) && SIE (STATUS c))) && to_bool sup then
    Ok (mkPending (get_pending_interrupt sup) 1)
  else if ((priv_mode =? 0) && UIE (STATUS c)) && to_bool usr then
    Err NotImplemented
  else Ok (mkPending (-1) (-1)).

Definition CanTakeInterrupt (ring irq : Z) (c : RiscVSystemCoprocessor) : bool :=
  (((ring <? 3) || ((ring =? 3) && MIE (STATUS c))) &&
     to_bool (Z.land (not64 (csrs c MIDELEG)) (int_bit irq))) ||
  (((ring <? 1) || ((ring =? 1) && SIE (STATUS c))) &&
     to_bool (Z.land (csrs c MIDELEG) (int_bit irq))).

(** The MMU reads [mstatus] through this device. *)
#[export] Instance coproc_device : SystemDevice RiscVSystemCoprocessor :=
  {| csr_read64 c a := Read64 a c |}.

(** ** Bits of the register images *)

Lemma testbit_flag b n i : 0 <= n -> Z.testbit (flag b n) i = (i =? n) && b.
Proof. apply testbit_b2z_shiftl. Qed.

Lemma testbit_field v w n i :
  0 <= w -> 0 <= n -> in_range w v ->
  Z.testbit (field v n) i = (n <=? i) && (i <? n + w) && Z.testbit v (i - n).
Proof.
  intros. unfold field. rewrite testbit_shiftl_u by lia.
  destruct (Z.leb_spec n i), (Z.ltb_spec i (n + w)), (Z.leb_spec 0 i); try lia; simpl; auto.
  - apply (testbit_high w); lia || assumption.
  - apply Z.testbit_neg_r. lia.
Qed.

#[export] Hint Rewrite testbit_flag using lia : bits.

Ltac read_bits := repeat rewrite Z.lor_spec; rewrite ?Z.testbit_0_l; repeat rewrite testbit_flag by lia.

(** The interrupt numbers that exist, and the flag behind each. *)
Definition irq_flag {A} (m_e s_e u_e m_t s_t u_t m_s s_s u_s : A) (none : A) (i : Z) : A :=
  if i =? 11 then m_e else if i =? 9 then s_e else if i =? 8 then u_e else
  if i =? 7 then m_t else if i =? 5 then s_t else if i =? 4 then u_t else
  if i =? 3 then m_s else if i =? 1 then s_s else if i =? 0 then u_s else none.

Definition ip_flag (p : IP_t) : Z -> bool :=
  irq_flag (MEIP p) (SEIP p) (UEIP p) (MTIP p) (STIP p) (UTIP p) (MSIP p) (SSIP p) (USIP p) false.
Definition ie_flag (e : IE_t) : Z -> bool :=
  irq_flag (MEIE e) (SEIE e) (UEIE e) (MTIE e) (STIE e) (UTIE e) (MSIE e) (SSIE e) (USIE e) false.

(** Interrupts a supervisor sees. *)
Definition sup_irq (i : Z) : bool :=
  irq_flag false true true false true true false true true false i.
(** Interrupts that exist. *)
Definition any_irq (i : Z) : bool :=
  irq_flag true true true true true true true true true false i.

(** [irq_cases i]: the nine interrupt numbers, and the others. *)
Ltac irq_cases i :=
  unfold any_irq, sup_irq, ip_flag, ie_flag, irq_flag;
  destruct (Z.eqb_spec i 11); [subst i; simpl | destruct (Z.eqb_spec i 9);
    [subst i; simpl | destruct (Z.eqb_spec i 8); [subst i; simpl | destruct (Z.eqb_spec i 7);
    [subst i; simpl | destruct (Z.eqb_spec i 5); [subst i; simpl | destruct (Z.eqb_spec i 4);
    [subst i; simpl | destruct (Z.eqb_spec i 3); [subst i; simpl | destruct (Z.eqb_spec i 1);
    [subst i; simpl | destruct (Z.eqb_spec i 0); [subst i; simpl | simpl]]]]]]]]].

Lemma testbit_ReadMIP p i : Z.testbit (IP_ReadMIP p) i = ip_flag p i.
Proof. unfold IP_ReadMIP. read_bits. irq_cases i; btauto. Qed.
Lemma testbit_ReadMIE e i : Z.testbit (IE_ReadMIE e) i = ie_flag e i.
Proof. unfold IE_ReadMIE. read_bits. irq_cases i; btauto. Qed.
Lemma testbit_ReadSIP p i : Z.testbit (IP_ReadSIP p) i = sup_irq i && ip_flag p i.
Proof. unfold IP_ReadSIP. read_bits. irq_cases i; btauto. Qed.
Lemma testbit_ReadSIE e i : Z.testbit (IE_ReadSIE e) i = sup_irq i && ie_flag e i.
Proof. unfold IE_ReadSIE. read_bits. irq_cases i; btauto. Qed.

Lemma ip_flag_any p i : ip_flag p i = true -> any_irq i = true.
Proof. irq_cases i; auto. Qed.

Lemma ip_flag_PendMask m p i : ip_flag (IP_PendMask m p) i = ip_flag p i || (any_irq i && Z.testbit m i).
Proof. unfold IP_PendMask. rewrite !to_bool_BITSEL. irq_cases i; reflexivity. Qed.

Lemma ip_flag_ClearMask m p i : ip_flag (IP_ClearMask m p) i = ip_flag p i && negb (Z.testbit m i).
Proof.
  unfold IP_ClearMask. rewrite !to_bool_BITSEL, !testbit_not64 by lia.
  irq_cases i; reflexivity.
Qed.

Lemma ReadMIP_range p : in_range 12 (IP_ReadMIP p).
Proof.
  unfold IP_ReadMIP, flag.
  repeat (apply in_range_lor; [lia | | apply in_range_b2z_shiftl; lia]).
  split; reflexivity || discriminate.
Qed.

Lemma pending_range p e : in_range 12 (Z.land (IP_ReadMIP p) (IE_ReadMIE e)).
Proof. apply in_range_land_l; [lia | apply ReadMIP_range]. Qed.

(** ** From pending bits to lines *)

Lemma sync_line_asserted cur tp t i n :
  (asserted t i = Z.testbit tp (Z.of_nat i)) ->
  asserted (sync_line cur tp t i) n =
  if decide (i = n) then Z.testbit cur (Z.of_nat i) else asserted t n.
Proof.
  intros H. unfold sync_line. fold (BITSEL cur (Z.of_nat i)) (BITSEL tp (Z.of_nat i)).
  rewrite !to_bool_BITSEL.
  destruct (Z.testbit cur (Z.of_nat i)) eqn:Ec, (Z.testbit tp (Z.of_nat i)) eqn:Et; cbn [andb negb];
    rewrite ?asserted_AssertIRQ, ?asserted_RescindIRQLine;
    case_decide; subst; auto.
Qed.

Lemma sync_lines_asserted cur tp l t :
  NoDup l -> (forall n, asserted t n = Z.testbit tp (Z.of_nat n)) ->
  forall n, asserted (fold_left (sync_line cur tp) l t) n =
    Z.testbit (if decide (n ∈ l) then cur else tp) (Z.of_nat n).
Proof.
  intros Hnd H n.
  assert (G : forall t, (forall m, m ∈ l -> asserted t m = Z.testbit tp (Z.of_nat m)) ->
    asserted (fold_left (sync_line cur tp) l t) n =
    if decide (n ∈ l) then Z.testbit cur (Z.of_nat n) else asserted t n).
  { clear t H. induction l as [| i l IH]; intros t H; cbn [fold_left].
    - rewrite decide_False by apply not_elem_of_nil. reflexivity.
    - apply NoDup_cons in Hnd as [Hi Hnd]. rewrite IH; [| assumption |].
      + rewrite sync_line_asserted by (apply H; left).
        repeat case_decide; subst; try reflexivity; set_solver.
      + intros m Hm. rewrite sync_line_asserted by (apply H; left).
        rewrite decide_False by (intros ->; contradiction). apply H. right. assumption. }
  rewrite G by (intros; apply H). case_decide; auto.
Qed.

(** What every operation keeps: a line is asserted exactly when its bit of
    [true_pending_interrupts_] is set, that word is [MIP & MIE], and no
    interrupt was delegated to user mode. *)
Record coproc_inv (c : RiscVSystemCoprocessor) : Prop := {
  inv_lines : forall n, asserted (hart_ c) n = Z.testbit (true_pending_interrupts_ c) (Z.of_nat n);
  inv_pending : true_pending_interrupts_ c = Z.land (IP_ReadMIP (IP c)) (IE_ReadMIE (IE c));
  inv_sideleg : csrs c SIDELEG = 0
}.

(** The part of the invariant that holds while registers are being changed,
    before [CheckForInterrupts]. *)
Record coproc_pre (c : RiscVSystemCoprocessor) : Prop := {
  pre_lines : forall n, asserted (hart_ c) n = Z.testbit (true_pending_interrupts_ c) (Z.of_nat n);
  pre_range : in_range 32 (true_pending_interrupts_ c);
  pre_sideleg : csrs c SIDELEG = 0
}.

Lemma coproc_inv_pre c : coproc_inv c -> coproc_pre c.
Proof.
  intros [H1 H2 H3]. split; auto. rewrite H2.
  apply (in_range_mono 12); [lia | apply pending_range].
Qed.

Lemma CheckForInterrupts_inv c : coproc_pre c -> coproc_inv (CheckForInterrupts c).
Proof.
  intros [Hl Hr Hs]. unfold CheckForInterrupts.
  set (cur := Z.land (IP_ReadMIP (IP c)) (IE_ReadMIE (IE c))).
  pose proof (pending_range (IP c) (IE c)) as Hcur. fold cur in Hcur.
  destruct (Z.eqb_spec cur (true_pending_interrupts_ c)) as [Heq | Hne].
  - split; simpl; auto. intros n. rewrite asserted_PendIRQ. apply Hl.
  - assert (Hu : u32 cur = cur)
      by (apply wrap_small, (in_range_mono 12); [lia | assumption]).
    split; cbn [hart_ true_pending_interrupts_ with_hart IP IE csrs]; auto. intros k.
    rewrite asserted_PendIRQ, Hu, (sync_lines_asserted _ _ (seq 0 32)) by (apply NoDup_seq || auto).
    case_decide as Hin; [reflexivity |].
    rewrite elem_of_seq in Hin.
    rewrite (testbit_high 32 (true_pending_interrupts_ c)), (testbit_high 12 cur)
      by (assumption || lia). reflexivity.
Qed.

(** [CheckForInterrupts] touches nothing but the hart and the pending word. *)
Lemma CheckForInterrupts_regs c :
  csrs (CheckForInterrupts c) = csrs c /\ STATUS (CheckForInterrupts c) = STATUS c /\
  IP (CheckForInterrupts c) = IP c /\ IE (CheckForInterrupts c) = IE c /\
  mmu_ (CheckForInterrupts c) = mmu_ c.
Proof. unfold CheckForInterrupts. destruct (_ =? _); repeat split. Qed.

Lemma sync_line_Ring cur tp t i : RingID (sync_line cur tp t i) = RingID t.
Proof.
  unfold sync_line. repeat case_goal; rewrite ?RingID_RescindIRQLine, ?RingID_AssertIRQ; reflexivity.
Qed.

Lemma CheckForInterrupts_Ring c : RingID (hart_ (CheckForInterrupts c)) = RingID (hart_ c).
Proof.
  unfold CheckForInterrupts. destruct (_ =? _); cbn [hart_ with_hart]; rewrite RingID_PendIRQ;
    [reflexivity |].
  generalize (seq 0 32) as l. generalize (hart_ c) as t.
  induction l as [| i l IH] using rev_ind; [reflexivity |].
  rewrite fold_left_app. simpl. rewrite sync_line_Ring. exact IH.
Qed.

Lemma CheckForInterrupts_hart c : exists t, hart_ (CheckForInterrupts c) = PendIRQ t.
Proof. unfold CheckForInterrupts. destruct (_ =? _); eexists; reflexivity. Qed.

Lemma CheckForInterrupts_notifies c n :
  asserted (hart_ (CheckForInterrupts c)) n = true -> HasMessage (hart_ (CheckForInterrupts c)) = true.
Proof.
  destruct (CheckForInterrupts_hart c) as [t ->]. rewrite asserted_PendIRQ. apply PendIRQ_notifies.
Qed.

Lemma coproc_pre_ext c c' :
  hart_ c' = hart_ c -> true_pending_interrupts_ c' = true_pending_interrupts_ c ->
  csrs c' SIDELEG = csrs c SIDELEG -> coproc_pre c -> coproc_pre c'.
Proof. intros E1 E2 E3 [H1 H2 H3]. split; rewrite ?E1, ?E2, ?E3; auto. Qed.

Lemma coproc_inv_ext c c' :
  hart_ c' = hart_ c -> true_pending_interrupts_ c' = true_pending_interrupts_ c ->
  IP c' = IP c -> IE c' = IE c -> csrs c' SIDELEG = csrs c SIDELEG -> coproc_inv c -> coproc_inv c'.
Proof. intros E1 E2 E3 E4 E5 [H1 H2 H3]. split; rewrite ?E1, ?E2, ?E3, ?E4, ?E5; auto. Qed.

Lemma WriteMSTATUS_inv data c : coproc_pre c -> coproc_inv (WriteMSTATUS data c).
Proof.
  intros H. unfold WriteMSTATUS. destruct (STATUS_WriteMSTATUS data (STATUS c)) as [s b].
  apply CheckForInterrupts_inv. destruct b; apply (coproc_pre_ext c); auto.
Qed.

Lemma WriteSSTATUS_inv data c : coproc_pre c -> coproc_inv (WriteSSTATUS data c).
Proof.
  intros H. unfold WriteSSTATUS. destruct (STATUS_WriteSSTATUS data (STATUS c)) as [s b].
  apply CheckForInterrupts_inv. destruct b; apply (coproc_pre_ext c); auto.
Qed.

Lemma set_csr_inv r v c : r <> SIDELEG -> coproc_inv c -> coproc_inv (set_csr r v c).
Proof.
  intros Hr. apply coproc_inv_ext; try reflexivity. simpl. apply decide_False. assumption.
Qed.

Lemma check_IE_inv e c : coproc_inv c -> coproc_inv (CheckForInterrupts (with_IE e c)).
Proof.
  intros. apply CheckForInterrupts_inv, (coproc_pre_ext c); auto using coproc_inv_pre.
Qed.

Lemma check_IP_inv p c : coproc_inv c -> coproc_inv (CheckForInterrupts (with_IP p c)).
Proof.
  intros. apply CheckForInterrupts_inv, (coproc_pre_ext c); auto using coproc_inv_pre.
Qed.

Lemma publish_mmu_inv es m c : coproc_inv c -> coproc_inv (publish es (with_mmu m c)).
Proof. apply coproc_inv_ext; reflexivity. Qed.

#[local] Hint Resolve coproc_inv_pre CheckForInterrupts_inv WriteMSTATUS_inv WriteSSTATUS_inv
  check_IE_inv check_IP_inv : core.

Lemma Write64_inv address data c c' :
  coproc_inv c -> Write64 address data c = Ok c' -> coproc_inv c'.
Proof.
  intros Hi H. unfold Write64 in H.
  repeat match type of H with
  | (if ?b then _ else _) = Ok _ => destruct b
  | rbind _ _ = Ok _ => bind_inv H
  | Err _ = Ok _ => discriminate H
  | Ok ?x = Ok _ => apply Ok_inj in H; subst c'
  end;
  match goal with
  | |- coproc_inv c => exact Hi
  | |- coproc_inv (set_csr _ _ _) => apply set_csr_inv; [discriminate | exact Hi]
  | |- coproc_inv (publish _ _) => apply publish_mmu_inv; exact Hi
  | |- coproc_inv (WriteSIP _ _) => apply check_IP_inv; exact Hi
  | |- coproc_inv (WriteMIP _ _) => apply check_IP_inv; exact Hi
  | |- _ => auto
  end.
Qed.

Lemma MachinePendInterrupt_inv m c : coproc_inv c -> coproc_inv (MachinePendInterrupt m c).
Proof. apply check_IP_inv. Qed.

Lemma MachineUnpendInterrupt_inv m c : coproc_inv c -> coproc_inv (MachineUnpendInterrupt m c).
Proof. apply check_IP_inv. Qed.

(** Everything that happens to a hart's coprocessor: register writes by the
    guest, interrupt bits raised and cleared by devices, and the thread
    acknowledging a line. *)
Definition acknowledge (n : nat) (c : RiscVSystemCoprocessor) : RiscVSystemCoprocessor :=
  let t := hart_ c in
  match lookup_line t n with
  | Some l => with_hart (true_pending_interrupts_ c)
                (set_lines t (<[n := Some (line_Acknowledge l)]> (irq_lines_ t))) c
  | None => c
  end.

Inductive coproc_step : RiscVSystemCoprocessor -> RiscVSystemCoprocessor -> Prop :=
| step_write address data c c' : Write64 address data c = Ok c' -> coproc_step c c'
| step_pend mask c : coproc_step c (MachinePendInterrupt mask c)
| step_unpend mask c : coproc_step c (MachineUnpendInterrupt mask c)
| step_acknowledge n c : coproc_step c (acknowledge n c).

Lemma acknowledge_inv n c : coproc_inv c -> coproc_inv (acknowledge n c).
Proof.
  intros [H1 H2 H3]. unfold acknowledge.
  destruct (lookup_line (hart_ c) n) as [l |] eqn:El; [| split; auto].
  split; auto. intros m. cbn [hart_ with_hart true_pending_interrupts_].
  rewrite <- H1. unfold asserted. rewrite lookup_line_insert.
  - case_decide; [subst m; rewrite El; destruct l as [? ? []] |]; reflexivity.
  - unfold lookup_line in El. destruct (irq_lines_ (hart_ c) !! n) eqn:E; [| discriminate].
    eapply lookup_lt_Some; eauto.
Qed.

Lemma coproc_step_inv c c' : coproc_step c c' -> coproc_inv c -> coproc_inv c'.
Proof.
  intros [a d c1 c2 H | | |]; eauto using Write64_inv, MachinePendInterrupt_inv,
    MachineUnpendInterrupt_inv, acknowledge_inv.
Qed.

Lemma new_coproc_inv id mmu counter :
  coproc_inv (new_RiscVSystemCoprocessor (new_thread id) mmu counter).
Proof.
  apply WriteMSTATUS_inv. split; cbn; auto.
  - intros n. symmetry. apply Z.testbit_0_l.
  - split; reflexivity || discriminate.
Qed.

(** C38. In every state a coprocessor can reach from its
    construction, interrupt line [n] of the hart is asserted exactly when
    interrupt [n] is both pending and enabled, and whenever some enabled
    interrupt was brought up by the last pending or register operation the
    hart has a message waiting. *)
Theorem reachable_lines_match_pending id mmu counter c :
  rtc coproc_step (new_RiscVSystemCoprocessor (new_thread id) mmu counter) c ->
  (forall n, asserted (hart_ c) n = ip_flag (IP c) (Z.of_nat n) && ie_flag (IE c) (Z.of_nat n)) /\
  (forall mask n, asserted (hart_ (MachinePendInterrupt mask c)) n = true ->
     HasMessage (hart_ (MachinePendInterrupt mask c)) = true).
Proof.
  intros H. assert (Hi : coproc_inv c).
  { revert c H. apply rtc_ind_r; [apply new_coproc_inv |]. intros; eapply coproc_step_inv; eauto. }
  split.
  - intros n. rewrite (inv_lines c Hi), (inv_pending c Hi), Z.land_spec,
      testbit_ReadMIP, testbit_ReadMIE. reflexivity.
  - intros mask n. apply CheckForInterrupts_notifies.
Qed.

(** ** Status register images *)

(** Two-bit fields hold two bits: kept by both write operations. *)
Definition STATUS_wf (s : STATUS_t) : Prop :=
  in_range 2 (SXL s) /\ in_range 2 (UXL s) /\ in_range 2 (XS s) /\
  in_range 2 (FS s) /\ in_range 2 (MPP s).

Lemma u8_field_range data u l :
  0 <= l -> u = l + 1 -> u <= 63 -> in_range 2 (u8 (UNSIGNED_BITS_64 data u l)).
Proof.
  intros. unfold u8. pose proof (UNSIGNED_BITS_64_range data u l ltac:(lia) ltac:(lia)) as Hr.
  replace (u - l + 1) with 2 in Hr by lia.
  rewrite wrap_small; [assumption |]. apply (in_range_mono 2); [lia | assumption].
Qed.

Lemma STATUS_WriteMSTATUS_wf data s : STATUS_wf (fst (STATUS_WriteMSTATUS data s)).
Proof.
  unfold STATUS_wf, STATUS_WriteMSTATUS; cbn [fst SXL UXL XS FS MPP].
  do 4 (split; [apply u8_field_range; lia |]). apply u8_field_range; lia.
Qed.

Lemma STATUS_WriteSSTATUS_wf data s : STATUS_wf s -> STATUS_wf (fst (STATUS_WriteSSTATUS data s)).
Proof.
  intros (H1 & H2 & H3 & H4 & H5).
  unfold STATUS_wf, STATUS_WriteSSTATUS; cbn [fst SXL UXL XS FS MPP].
  do 4 (split; [assumption || (apply u8_field_range; lia) |]). assumption.
Qed.

Lemma to_bool_top2 data :
  to_bool (UNSIGNED_BITS_64 data 63 62) = Z.testbit data 62 || Z.testbit data 63.
Proof.
  pose proof (testbit_UNSIGNED_BITS_64 data 63 62 0 ltac:(lia) ltac:(lia)) as H0.
  pose proof (testbit_UNSIGNED_BITS_64 data 63 62 1 ltac:(lia) ltac:(lia)) as H1.
  pose proof (UNSIGNED_BITS_64_range data 63 62 ltac:(lia) ltac:(lia)) as Hr.
  change ((0 <=? 0) && (0 <=? 63 - 62) && Z.testbit data (0 + 62)) with (Z.testbit data 62) in H0.
  change ((0 <=? 1) && (1 <=? 63 - 62) && Z.testbit data (1 + 62)) with (Z.testbit data 63) in H1.
  rewrite <- H0, <- H1.
  change (63 - 62 + 1) with 2 in Hr. unfold in_range in Hr.
  assert (UNSIGNED_BITS_64 data 63 62 = 0 \/ UNSIGNED_BITS_64 data 63 62 = 1 \/
          UNSIGNED_BITS_64 data 63 62 = 2 \/ UNSIGNED_BITS_64 data 63 62 = 3) as [-> | [-> | [-> | ->]]]
    by lia; reflexivity.
Qed.

(** Where each readable bit of [mstatus] comes from after a write of [data]. *)
Definition mstatus_source (data i : Z) : bool :=
  if i =? 63 then Z.testbit data 62 || Z.testbit data 63
  else if (32 <=? i) && (i <=? 35) then Z.testbit data (i - 1)
  else Z.testbit 0x7ff9bb i && Z.testbit data i.

(** Splits [0 <= i < n] and computes the constant comparisons. *)
Ltac bit_cases i :=
  match goal with H : 0 <= i < _ |- _ => split_range i H end; zconsts.

Lemma testbit_ReadMSTATUS s i :
  STATUS_wf s -> 0 <= i ->
  Z.testbit (STATUS_ReadMSTATUS s) i =
  ((i =? 63) && SD s) || ((34 <=? i) && (i <? 36) && Z.testbit (SXL s) (i - 34)) ||
  ((32 <=? i) && (i <? 34) && Z.testbit (UXL s) (i - 32)) || ((i =? 22) && TSR s) ||
  ((i =? 21) && TW s) || ((i =? 20) && TVM s) || ((i =? 19) && MXR s) || ((i =? 18) && SUM s) ||
  ((i =? 17) && MPRV s) || ((15 <=? i) && (i <? 17) && Z.testbit (XS s) (i - 15)) ||
  ((13 <=? i) && (i <? 15) && Z.testbit (FS s) (i - 13)) ||
  ((11 <=? i) && (i <? 13) && Z.testbit (MPP s) (i - 11)) ||
  ((i =? 8) && SPP s) || ((i =? 7) && MPIE s) || ((i =? 5) && SPIE s) || ((i =? 4) && UPIE s) ||
  ((i =? 3) && MIE s) || ((i =? 1) && SIE s) || ((i =? 0) && UIE s).
Proof.
  intros (H1 & H2 & H3 & H4 & H5) Hi. unfold STATUS_ReadMSTATUS.
  repeat rewrite Z.lor_spec. rewrite Z.testbit_0_l. repeat rewrite testbit_flag by lia.
  repeat rewrite (testbit_field _ 2) by (lia || assumption). reflexivity.
Qed.

(** Reading [mstatus] after writing [data] yields, bit by bit:
    SD is set when bit 62 or bit 63 was written, bits 32-35 (UXL and SXL) are
    bits 31-34 of [data], and every other implemented bit is the written one;
    the unimplemented bits read as zero. *)
Theorem mstatus_write_read data c i :
  0 <= i < 64 ->
  Z.testbit (ReadMSTATUS (WriteMSTATUS data c)) i = mstatus_source data i.
Proof.
  intros Hi. unfold ReadMSTATUS, WriteMSTATUS.
  pose proof (STATUS_WriteMSTATUS_wf data (STATUS c)) as Hwf.
  destruct (STATUS_WriteMSTATUS data (STATUS c)) as [s b] eqn:E.
  destruct (CheckForInterrupts_regs (flush_if b (with_STATUS s c))) as (_ & -> & _).
  replace (STATUS (flush_if b (with_STATUS s c))) with s by (destruct b; reflexivity).
  cbn [fst] in Hwf. rewrite testbit_ReadMSTATUS by (assumption || lia). clear Hwf.
  unfold STATUS_WriteMSTATUS in E. apply (f_equal fst) in E. cbn [fst] in E. subst s.
  cbn [SD SXL UXL TSR TW TVM MXR SUM MPRV XS FS MPP SPP MPIE SPIE UPIE MIE SIE UIE].
  rewrite !to_bool_BITSEL, to_bool_top2. unfold u8, mstatus_source.
  rewrite !testbit_wrap, !testbit_UNSIGNED_BITS_64 by lia.
  bit_cases i; btauto.
Qed.

Lemma mstatus_write_read_witness :
  Z.testbit (ReadMSTATUS (WriteMSTATUS 0xa00001800
    (new_RiscVSystemCoprocessor (new_thread 0) (mkMMU NoTxln 0 0) 0))) 34 = true /\
  mstatus_source 0xa00001800 35 = false.
Proof.
  split; [| reflexivity].
  rewrite (mstatus_write_read 0xa00001800 _ 34); [reflexivity | lia].
Defined.

Definition sstatus_mask : Z := 0x80000003000de133.

Lemma testbit_ReadSSTATUS s i :
  STATUS_wf s -> 0 <= i ->
  Z.testbit (STATUS_ReadSSTATUS s) i =
  ((i =? 63) && SD s) || ((32 <=? i) && (i <? 34) && Z.testbit (UXL s) (i - 32)) ||
  ((i =? 19) && MXR s) || ((i =? 18) && SUM s) ||
  ((15 <=? i) && (i <? 17) && Z.testbit (XS s) (i - 15)) ||
  ((13 <=? i) && (i <? 15) && Z.testbit (FS s) (i - 13)) ||
  ((i =? 8) && SPP s) || ((i =? 5) && SPIE s) || ((i =? 4) && UPIE s) ||
  ((i =? 1) && SIE s) || ((i =? 0) && UIE s).
Proof.
  intros (H1 & H2 & H3 & H4 & H5) Hi. unfold STATUS_ReadSSTATUS.
  repeat rewrite Z.lor_spec. rewrite Z.testbit_0_l. repeat rewrite testbit_flag by lia.
  repeat rewrite (testbit_field _ 2) by (lia || assumption). reflexivity.
Qed.

(** [sstatus] is a window onto [mstatus]: reading it gives the
    supervisor bits of [mstatus], and writing it changes none of the other
    bits, so a supervisor cannot touch MIE, MPIE, MPP, MPRV, TVM, TW, TSR or
    SXL. *)
Theorem sstatus_window data s :
  STATUS_wf s ->
  let s' := fst (STATUS_WriteSSTATUS data s) in
  forall i, 0 <= i < 64 ->
  Z.testbit (STATUS_ReadSSTATUS s) i
    = Z.testbit sstatus_mask i && Z.testbit (STATUS_ReadMSTATUS s) i /\
  (Z.testbit sstatus_mask i = false ->
   Z.testbit (STATUS_ReadMSTATUS s') i = Z.testbit (STATUS_ReadMSTATUS s) i).
Proof.
  intros Hwf s' i Hi. pose proof (STATUS_WriteSSTATUS_wf data s Hwf) as Hwf'. fold s' in Hwf'.
  rewrite testbit_ReadSSTATUS, !testbit_ReadMSTATUS by (assumption || lia).
  unfold sstatus_mask, s', STATUS_WriteSSTATUS.
  cbn [fst SD SXL UXL TSR TW TVM MXR SUM MPRV XS FS MPP SPP MPIE SPIE UPIE MIE SIE UIE].
  clear s' Hwf'. bit_cases i; (split; [btauto | intros H; try discriminate H; btauto]).
Qed.

Lemma sstatus_window_witness :
  Z.testbit (STATUS_ReadMSTATUS (fst (STATUS_WriteSSTATUS 0 
    (fst (STATUS_WriteMSTATUS 0x1888 new_STATUS))))) 3 = true.
Proof.
  destruct (sstatus_window 0 (fst (STATUS_WriteMSTATUS 0x1888 new_STATUS))
              (STATUS_WriteMSTATUS_wf _ _) 3 ltac:(lia)) as [_ H].
  rewrite H by reflexivity. reflexivity.
Defined.

(** ** Which interrupt is taken *)

Lemma land_int_bit z i : 0 <= i < 32 -> in_range 32 z -> to_bool (Z.land z (int_bit i)) = Z.testbit z i.
Proof.
  intros Hi Hz. apply eq_true_iff_eq. rewrite to_bool_bits.
  - split.
    + intros (j & Hj & H). rewrite Z.land_spec in H. apply andb_true_iff in H as [H1 H2].
      destruct (Z.lt_ge_cases j 32).
      * rewrite testbit_int_bit in H2 by lia. apply Z.eqb_eq in H2 as ->. assumption.
      * rewrite (testbit_high 32 z) in H1 by (assumption || lia). discriminate.
    + intros H. exists i. rewrite Z.land_spec, testbit_int_bit, Z.eqb_refl, H by lia. auto with lia.
  - apply Z.land_nonneg. left. apply Hz.
Qed.

(** [get_pending_interrupt] is the lowest set bit. *)
Lemma first_bit_lowest bits n k :
  in_range 32 bits -> (n + k <= 32)%nat ->
  let r := first_bit bits (seq n k) in
  (r = -1 /\ forall j, Z.of_nat n <= j < Z.of_nat (n + k) -> Z.testbit bits j = false) \/
  (Z.of_nat n <= r < Z.of_nat (n + k) /\ Z.testbit bits r = true /\
   forall j, Z.of_nat n <= j < r -> Z.testbit bits j = false).
Proof.
  intros Hb. revert n. induction k as [| k IH]; intros n Hk; cbn [seq first_bit].
  - left. split; [reflexivity |]. intros; lia.
  - rewrite land_int_bit by (lia || assumption).
    destruct (Z.testbit bits (Z.of_nat n)) eqn:E.
    + right. split; [lia |]. split; [assumption |]. intros; lia.
    + destruct (IH (S n) ltac:(lia)) as [[-> H] | (H1 & H2 & H3)]; [left | right].
      * split; [reflexivity |]. intros j Hj.
        destruct (Z.eq_dec j (Z.of_nat n)) as [-> |]; [assumption | apply H; lia].
      * split; [lia |]. split; [assumption |]. intros j Hj.
        destruct (Z.eq_dec j (Z.of_nat n)) as [-> |]; [assumption | apply H3; lia].
Qed.

Lemma get_pending_lowest bits :
  in_range 32 bits -> to_bool bits = true ->
  let r := get_pending_interrupt bits in
  0 <= r < 32 /\ Z.testbit bits r = true /\ forall j, 0 <= j < r -> Z.testbit bits j = false.
Proof.
  intros Hb Ht r. destruct (first_bit_lowest bits 0 32 Hb ltac:(lia)) as [[Hr H] | H].
  - apply to_bool_bits in Ht as (i & Hi & Ht); [| apply Hb].
    destruct (Z.lt_ge_cases i 32); [rewrite H in Ht by lia | rewrite (testbit_high 32) in Ht by (assumption || lia)];
      discriminate.
  - exact H.
Qed.

(** Interrupt [i] is deliverable to privilege level [p]. *)
Definition deliverable (c : RiscVSystemCoprocessor) (p i : Z) : Prop :=
  let ring := u8 (RingID (hart_ c)) in
  ip_flag (IP c) i = true /\ ie_flag (IE c) i = true /\
  ((p = 3 /\ Z.testbit (csrs c MIDELEG) i = false /\
      (ring < 3 \/ (ring = 3 /\ MIE (STATUS c) = true))) \/
   (p = 1 /\ Z.testbit (csrs c MIDELEG) i = true /\ sup_irq i = true /\
      (ring < 1 \/ (ring = 1 /\ SIE (STATUS c) = true)))).

Definition mach_pending (c : RiscVSystemCoprocessor) : Z :=
  Z.land (Z.land (ReadMIP c) (IE_ReadMIE (IE c))) (not64 (csrs c MIDELEG)).
Definition sup_pending (c : RiscVSystemCoprocessor) : Z :=
  Z.land (Z.land (Z.land (ReadSIP c) (IE_ReadSIE (IE c))) (csrs c MIDELEG))
         (not64 (csrs c SIDELEG)).

Lemma any_irq_range i : any_irq i = true -> 0 <= i < 12.
Proof. irq_cases i; lia || discriminate. Qed.

Lemma testbit_mach_pending c i :
  Z.testbit (mach_pending c) i =
  ip_flag (IP c) i && ie_flag (IE c) i && negb (Z.testbit (csrs c MIDELEG) i).
Proof.
  unfold mach_pending, ReadMIP. rewrite !Z.land_spec, testbit_ReadMIP, testbit_ReadMIE.
  destruct (ip_flag (IP c) i) eqn:E; [| reflexivity].
  apply ip_flag_any, any_irq_range in E. rewrite testbit_not64 by lia. reflexivity.
Qed.

Lemma testbit_sup_pending c i :
  csrs c SIDELEG = 0 ->
  Z.testbit (sup_pending c) i =
  sup_irq i && ip_flag (IP c) i && ie_flag (IE c) i && Z.testbit (csrs c MIDELEG) i.
Proof.
  intros Hs. unfold sup_pending, ReadSIP. rewrite !Z.land_spec, testbit_ReadSIP, testbit_ReadSIE, Hs.
  destruct (ip_flag (IP c) i) eqn:E; [| btauto].
  apply ip_flag_any, any_irq_range in E. rewrite testbit_not64, Z.testbit_0_l by lia. btauto.
Qed.

Lemma ReadSIP_range p : in_range 12 (IP_ReadSIP p).
Proof.
  unfold IP_ReadSIP, flag.
  repeat (apply in_range_lor; [lia | | apply in_range_b2z_shiftl; lia]).
  split; reflexivity || discriminate.
Qed.

Lemma mach_pending_range c : in_range 32 (mach_pending c).
Proof.
  apply (in_range_mono 12); [lia |]. unfold mach_pending.
  repeat (apply in_range_land_l; [lia |]). apply ReadMIP_range.
Qed.

Lemma sup_pending_range c : in_range 32 (sup_pending c).
Proof.
  apply (in_range_mono 12); [lia |]. unfold sup_pending.
  repeat (apply in_range_land_l; [lia |]). apply ReadSIP_range.
Qed.

Lemma deliverable_mach c i :
  ((u8 (RingID (hart_ c)) <? 3) || ((u8 (RingID (hart_ c)) =? 3) && MIE (STATUS c))) = true ->
  deliverable c 3 i <-> Z.testbit (mach_pending c) i = true.
Proof.
  intros Hr. rewrite testbit_mach_pending, !andb_true_iff, negb_true_iff. unfold deliverable.
  rewrite orb_true_iff, andb_true_iff, Z.ltb_lt, Z.eqb_eq in Hr. intuition lia.
Qed.

Lemma deliverable_sup c i :
  csrs c SIDELEG = 0 ->
  ((u8 (RingID (hart_ c)) <? 1) || ((u8 (RingID (hart_ c)) =? 1) && SIE (STATUS c))) = true ->
  deliverable c 1 i <-> Z.testbit (sup_pending c) i = true.
Proof.
  intros Hs Hr. rewrite testbit_sup_pending, !andb_true_iff by assumption. unfold deliverable.
  rewrite orb_true_iff, andb_true_iff, Z.ltb_lt, Z.eqb_eq in Hr. intuition lia.
Qed.

Lemma not_deliverable_mach c i :
  ((u8 (RingID (hart_ c)) <? 3) || ((u8 (RingID (hart_ c)) =? 3) && MIE (STATUS c)))
    && to_bool (mach_pending c) = false -> ~ deliverable c 3 i.
Proof.
  intros H Hd. apply andb_false_iff in H as [H | H].
  - rewrite orb_false_iff, andb_false_iff, Z.ltb_ge, Z.eqb_neq in H.
    unfold deliverable in Hd. intuition (lia || congruence).
  - assert (Hb : Z.testbit (mach_pending c) i = true).
    { rewrite testbit_mach_pending, !andb_true_iff, negb_true_iff.
      unfold deliverable in Hd. intuition lia. }
    apply not_true_iff_false in H. apply H, to_bool_bits; [apply (mach_pending_range c) |].
    exists i. split; [| assumption].
    destruct Hd as (Hip & _). apply ip_flag_any, any_irq_range in Hip. lia.
Qed.

Lemma not_deliverable_sup c i :
  csrs c SIDELEG = 0 ->
  ((u8 (RingID (hart_ c)) <? 1) || ((u8 (RingID (hart_ c)) =? 1) && SIE (STATUS c)))
    && to_bool (sup_pending c) = false -> ~ deliverable c 1 i.
Proof.
  intros Hs H Hd. apply andb_false_iff in H as [H | H].
  - rewrite orb_false_iff, andb_false_iff, Z.ltb_ge, Z.eqb_neq in H.
    unfold deliverable in Hd. intuition (lia || congruence).
  - assert (Hb : Z.testbit (sup_pending c) i = true).
    { rewrite testbit_sup_pending, !andb_true_iff by assumption.
      unfold deliverable in Hd. intuition lia. }
    apply not_true_iff_false in H. apply H, to_bool_bits; [apply (sup_pending_range c) |].
    exists i. split; [| assumption].
    destruct Hd as (Hip & _). apply ip_flag_any, any_irq_range in Hip. lia.
Qed.

Lemma deliverable_CanTake c p i :
  deliverable c p i -> in_range 32 (csrs c MIDELEG) ->
  CanTakeInterrupt (u8 (RingID (hart_ c))) i c = true.
Proof.
  intros (Hip & Hie & Hd) Hr. apply ip_flag_any, any_irq_range in Hip.
  unfold CanTakeInterrupt. rewrite orb_true_iff, !andb_true_iff, !orb_true_iff, !andb_true_iff,
    !Z.ltb_lt, !Z.eqb_eq.
  destruct Hd as [(-> & Hm & Hring) | (-> & Hm & _ & Hring)]; [left | right]; (split; [tauto |]);
    apply to_bool_bits; try (apply Z.land_nonneg; rewrite ?int_bit_low by lia; lia);
    exists i; rewrite Z.land_spec, testbit_int_bit, Z.eqb_refl, ?testbit_not64, Hm by lia; auto with lia.
Qed.

(** [GetPendingInterrupt] never throws, and decides delivery
    correctly: it reports an interrupt exactly when one is pending, enabled
    and deliverable at the hart's privilege, the reported one is the lowest
    numbered of its privilege level, a supervisor interrupt is reported only
    when no machine interrupt is deliverable, and [CanTakeInterrupt] agrees
    that it can be taken. *)
Theorem GetPendingInterrupt_correct c :
  csrs c SIDELEG = 0 -> in_range 32 (csrs c MIDELEG) ->
  exists pi, GetPendingInterrupt c = Ok pi /\
  ((ID pi = -1 /\ forall p i, ~ deliverable c p i) \/
   (deliverable c (Priv pi) (ID pi) /\
    (forall i, deliverable c (Priv pi) i -> ID pi <= i) /\
    (Priv pi = 1 -> forall i, ~ deliverable c 3 i) /\
    CanTakeInterrupt (u8 (RingID (hart_ c))) (ID pi) c = true)).
Proof.
  intros Hs Hm. unfold GetPendingInterrupt. fold (mach_pending c) (sup_pending c).
  destruct (_ && to_bool (mach_pending c)) eqn:E1.
  { apply andb_true_iff in E1 as [Hr Hb].
    destruct (get_pending_lowest _ (mach_pending_range c) Hb) as (H1 & H2 & H3).
    eexists. split; [reflexivity |]. right. cbn [ID Priv].
    assert (Hd : deliverable c 3 (get_pending_interrupt (mach_pending c)))
      by (apply deliverable_mach; assumption).
    split; [exact Hd |]. split; [| split; [discriminate | eapply deliverable_CanTake; eauto]].
    intros i Hi. apply deliverable_mach in Hi as Hi'; [| assumption].
    destruct Hi as (Hip & _). apply ip_flag_any, any_irq_range in Hip.
    destruct (Z.lt_ge_cases i (get_pending_interrupt (mach_pending c))); [| lia].
    rewrite H3 in Hi' by lia. discriminate. }
  destruct (_ && to_bool (sup_pending c)) eqn:E2.
  { apply andb_true_iff in E2 as [Hr Hb].
    destruct (get_pending_lowest _ (sup_pending_range c) Hb) as (H1 & H2 & H3).
    eexists. split; [reflexivity |]. right. cbn [ID Priv].
    assert (Hd : deliverable c 1 (get_pending_interrupt (sup_pending c)))
      by (apply deliverable_sup; assumption).
    split; [exact Hd |]. split; [| split; [| eapply deliverable_CanTake; eauto]].
    - intros i Hi. apply deliverable_sup in Hi as Hi'; [| assumption | assumption].
      destruct Hi as (Hip & _). apply ip_flag_any, any_irq_range in Hip.
      destruct (Z.lt_ge_cases i (get_pending_interrupt (sup_pending c))); [| lia].
      rewrite H3 in Hi' by lia. discriminate.
    - intros _ i. apply not_deliverable_mach. assumption. }
  rewrite Hs, Z.land_0_r, andb_false_r. eexists. split; [reflexivity |]. left.
  split; [reflexivity |]. intros p i Hd.
  assert (p = 3 \/ p = 1) as [-> | ->] by (unfold deliverable in Hd; intuition).
  - revert Hd. apply not_deliverable_mach. assumption.
  - revert Hd. apply not_deliverable_sup; assumption.
Qed.

Definition witness_hart : RiscVSystemCoprocessor :=
  with_IE (IE_WriteMIE 0x888 IE_Reset)
    (new_RiscVSystemCoprocessor (new_thread 0) (mkMMU NoTxln 0 0) 0).

Lemma GetPendingInterrupt_correct_witness :
  exists pi, GetPendingInterrupt (MachinePendInterrupt 0x88 witness_hart) = Ok pi /\ ID pi = 3 /\
    forall i, deliverable (MachinePendInterrupt 0x88 witness_hart) 3 i -> 3 <= i.
Proof.
  destruct (GetPendingInterrupt_correct (MachinePendInterrupt 0x88 witness_hart)) as (pi & Hpi & Hr);
    [vm_compute; reflexivity | split; vm_compute; [discriminate | reflexivity] |].
  exists pi. split; [exact Hpi |].
  assert (E : pi = mkPending 3 3) by (apply Ok_inj; rewrite <- Hpi; vm_compute; reflexivity).
  subst pi. split; [reflexivity |]. destruct Hr as [[Hr _] | (_ & Hr & _)]; [discriminate Hr | exact Hr].
Defined.

(** A new hart whose [mie] was written with MEIE, MTIE and MSIE. *)
Definition witness_hart_enabled : RiscVSystemCoprocessor :=
  let c := new_RiscVSystemCoprocessor (new_thread 0) (mkMMU NoTxln 0 0) 0 in
  CheckForInterrupts (with_IE (IE_WriteMIE 0x888 (IE c)) c).

(** ** The coprocessor as the controllers' hart *)

Lemma ip_flag_out p i : any_irq i = false -> ip_flag p i = false.
Proof. irq_cases i; auto; discriminate. Qed.

Lemma IP_CheckForInterrupts c : IP (CheckForInterrupts c) = IP c.
Proof. apply CheckForInterrupts_regs. Qed.

Lemma IE_CheckForInterrupts c : IE (CheckForInterrupts c) = IE c.
Proof. apply CheckForInterrupts_regs. Qed.

#[export] Program Instance coproc_hart : HartIRQ RiscVSystemCoprocessor :=
  {| hart_mip := ReadMIP; hart_mtie := GetMTIE; hart_pend := MachinePendInterrupt;
     hart_unpend := MachineUnpendInterrupt; hart_implements := any_irq |}.
Next Obligation. intros i Hi. repeat (apply elem_of_cons in Hi as [-> | Hi]; [reflexivity |]). inversion Hi. Qed.
Next Obligation. intros h i Hi. unfold ReadMIP. rewrite testbit_ReadMIP. apply ip_flag_out, Hi. Qed.
Next Obligation.
  intros m h i. unfold ReadMIP, MachinePendInterrupt.
  rewrite IP_CheckForInterrupts, !testbit_ReadMIP. apply ip_flag_PendMask.
Qed.
Next Obligation.
  intros m h i. unfold ReadMIP, MachineUnpendInterrupt.
  rewrite IP_CheckForInterrupts, !testbit_ReadMIP. apply ip_flag_ClearMask.
Qed.
Next Obligation. intros m h. unfold GetMTIE, MachinePendInterrupt. rewrite IE_CheckForInterrupts. reflexivity. Qed.
Next Obligation. intros m h. unfold GetMTIE, MachineUnpendInterrupt. rewrite IE_CheckForInterrupts. reflexivity. Qed.

Lemma reachable_lines_match_pending_witness :
  asserted (hart_ (MachinePendInterrupt 0x80 witness_hart_enabled)) 7 = true.
Proof.
  destruct (reachable_lines_match_pending 0 (mkMMU NoTxln 0 0) 0
              (MachinePendInterrupt 0x80 witness_hart_enabled)) as [H _].
  - eapply rtc_l; [apply (step_write 0x304 0x888); reflexivity |].
    apply rtc_once. apply step_pend.
  - rewrite H. vm_compute. reflexivity.
Defined.
