(* ===== verification/SifivePLIC.v ===== *)
(** * The platform-level interrupt controller

    archsim/src/abi/devices/riscv/SifivePLIC.cpp.  The harts are shared with
    the other devices of the machine, so every operation takes and returns the
    list of harts beside the controller's own state.  A hart is anything that
    satisfies [HartIRQ]. *)

From stdpp Require Import base list numbers relations.
From Stdlib Require Import ZArith Lia Bool Ascii.
From S2P Require Import Prelude.
From S2P Require Import HartIRQ.

Record hart_context := mkCtx {
  hart : Z;
  context : ascii;
  threshold : Z;
  enable : list Z;
  busy : bool
}.

Definition new_hart_context (h : Z) (c : ascii) : hart_context := mkCtx h c 0 [0; 0] false.

Record SifivePLIC := mkPLIC {
  HartConfig : list ascii;
  interrupt_priorities_ : list Z;
  interrupt_pending_ : list Z;
  interrupt_claimed_ : list Z;
  hart_config_ : list hart_context
}.

Definition NumLines : Z := 54.

Definition new_SifivePLIC (config : list ascii) : SifivePLIC :=
  mkPLIC config (replicate (Z.to_nat NumLines) 0) (replicate (Z.to_nat ((NumLines + 31) / 32)) 0)
    (replicate (Z.to_nat ((NumLines + 31) / 32)) 0) [].

Definition with_priorities l p :=
  mkPLIC (HartConfig p) l (interrupt_pending_ p) (interrupt_claimed_ p) (hart_config_ p).
Definition with_pending l p :=
  mkPLIC (HartConfig p) (interrupt_priorities_ p) l (interrupt_claimed_ p) (hart_config_ p).
Definition with_claimed l p :=
  mkPLIC (HartConfig p) (interrupt_priorities_ p) (interrupt_pending_ p) l (hart_config_ p).
Definition with_hart_config l p :=
  mkPLIC (HartConfig p) (interrupt_priorities_ p) (interrupt_pending_ p) (interrupt_claimed_ p) l.

(** [SetupContexts]: one context per mode letter, a comma starts the next hart. *)
Fixpoint setup_loop (id : Z) (config : list ascii) : list hart_context :=
  match config with
  | [] => []
  | c :: rest =>
      if (Ascii.eqb c "M" || Ascii.eqb c "S" || Ascii.eqb c "U")%char
      then new_hart_context id c :: setup_loop id rest
      else if (Ascii.eqb c ",")%char then setup_loop (u32 (id + 1)) rest
      else setup_loop id rest
  end.

Definition SetupContexts (config : list ascii) (p : SifivePLIC) : SifivePLIC :=
  with_hart_config (setup_loop 0 config) p.

Definition Initialise (p : SifivePLIC) : SifivePLIC := SetupContexts (HartConfig p) p.

(** [GetModeInfo] scans the first [index + 1] letters; the caller uses the
    index, but a letter other than M, S and the comma throws. *)
Record mode_info := mkModeInfo { mi_index : Z; mi_hart : Z; mi_mode : ascii }.

Fixpoint mode_loop (n : nat) (str : list ascii) (i : Z) (m : mode_info) : result mode_info :=
  match n with
  | O => Ok m
  | S n' =>
      let* c := at_ str i in
      if Ascii.eqb c "," then mode_loop n' str (i + 1) (mkModeInfo (mi_index m) (u32 (mi_hart m + 1)) (mi_mode m))
      else if (Ascii.eqb c "M" || Ascii.eqb c "S")%char
      then mode_loop n' str (i + 1) (mkModeInfo (mi_index m) (mi_hart m) c)
      else Err NotImplemented
  end.

Definition GetModeInfo (str : list ascii) (index : Z) : result mode_info :=
  mode_loop (Z.to_nat (index + 1)) str 0 (mkModeInfo index 0 Ascii.zero).

Definition GetContext (p : SifivePLIC) (index : Z) : result (Z * hart_context) :=
  let* mi := GetModeInfo (HartConfig p) index in
  let* ctx := at_ (hart_config_ p) (mi_index mi) in
  Ok (mi_index mi, ctx).

Definition set_context (i : Z) (ctx : hart_context) (p : SifivePLIC) : SifivePLIC :=
  with_hart_config (set_at (hart_config_ p) i ctx) p.

(** The interrupts of word [w] that are pending, unclaimed and enabled. *)
Definition hart_pending (p : SifivePLIC) (ctx : hart_context) (w : nat) : result Z :=
  let* pending := at_ (interrupt_pending_ p) (Z.of_nat w) in
  let* claimed := at_ (interrupt_claimed_ p) (Z.of_nat w) in
  let* en := at_ (enable ctx) (Z.of_nat w) in
  Ok (Z.land (Z.land pending (not32 claimed)) en).

Definition words (p : SifivePLIC) : list nat := seq 0 (length (interrupt_pending_ p)).

(** [vec.at(block) |= 1 << index] and [vec.at(block) &= ~(1 << index)] on
    32-bit words. *)
Definition set_line (ws : list Z) (line : Z) : result (list Z) :=
  let* w := at_ ws (line / 32) in
  Ok (set_at ws (line / 32) (Z.lor w (u32 (int_bit (line mod 32))))).
Definition clear_line (ws : list Z) (line : Z) : result (list Z) :=
  let* w := at_ ws (line / 32) in
  Ok (set_at ws (line / 32) (Z.land w (not32 (int_bit (line mod 32))))).

Fixpoint bit_set_forward_loop (data : Z) (idxs : list nat) : result Z :=
  match idxs with
  | [] => Err NotExpected
  | i :: rest =>
      if to_bool (Z.land data (u32 (int_bit (Z.of_nat i)))) then Ok (Z.of_nat i)
      else bit_set_forward_loop data rest
  end.
Definition bit_set_forward (data : Z) : result Z := bit_set_forward_loop data (seq 0 32).

Fixpoint claim_loop (p : SifivePLIC) (ctx : hart_context) (ws : list nat) (pending_interrupt : Z)
  : result Z :=
  match ws with
  | [] => Ok pending_interrupt
  | w :: rest =>
      let* hp := hart_pending p ctx w in
      if to_bool hp then
        let* b := bit_set_forward hp in
        claim_loop p ctx rest (u32 (Z.of_nat w * 32 + b))
      else claim_loop p ctx rest pending_interrupt
  end.

Definition ClaimInterrupt (ctx : hart_context) (p : SifivePLIC) : result (Z * SifivePLIC) :=
  let* pending_interrupt := claim_loop p ctx (words p) 0 in
  if to_bool pending_interrupt then
    let* claimed := set_line (interrupt_claimed_ p) pending_interrupt in
    Ok (pending_interrupt, with_claimed claimed p)
  else Ok (pending_interrupt, p).

Definition CompleteInterrupt (irq : Z) (p : SifivePLIC) : result SifivePLIC :=
  let* claimed := clear_line (interrupt_claimed_ p) irq in
  Ok (with_claimed claimed p).

(** The external-interrupt bit of a context's mode. *)
Definition eip_bit (c : ascii) : Z :=
  if Ascii.eqb c "U" then Z.shiftl 1 8
  else if Ascii.eqb c "S" then Z.shiftl 1 9
  else if Ascii.eqb c "M" then Z.shiftl 1 11 else 0.

Fixpoint eip_loop (p : SifivePLIC) (ctx : hart_context) (ws : list nat) (eip : Z) : result Z :=
  match ws with
  | [] => Ok eip
  | w :: rest =>
      let* hp := hart_pending p ctx w in
      eip_loop p ctx rest (if to_bool hp then Z.lor eip (eip_bit (context ctx)) else eip)
  end.

Fixpoint hart_eips_loop (p : SifivePLIC) (ctxs : list hart_context) (hart_eips : list Z)
  : result (list Z) :=
  match ctxs with
  | [] => Ok hart_eips
  | ctx :: rest =>
      let* eip := eip_loop p ctx (words p) 0 in
      let* cur := at_ hart_eips (hart ctx) in
      hart_eips_loop p rest (set_at hart_eips (hart ctx) (Z.lor cur eip))
  end.

Section Controller.
Context {H : Type} `{HartIRQ H}.

(** One turn of the second loop of [UpdateIRQ]: drive the external bits of a
    hart to [pending_eip]. *)
Definition UpdateHart (h : H) (pending_eip : Z) : H :=
  let hart_eip := Z.land (hart_mip h) 0xf00 in
  let unpend_irqs := Z.land hart_eip (not32 pending_eip) in
  let h1 := if to_bool unpend_irqs then hart_unpend unpend_irqs h else h in
  let pend_irqs := Z.land (not32 hart_eip) pending_eip in
  if to_bool pend_irqs then hart_pend pend_irqs h1 else h1.

Definition UpdateIRQ (p : SifivePLIC) (harts : list H) : result (list H) :=
  let* hart_eips := hart_eips_loop p (hart_config_ p) (replicate (length harts) 0) in
  Ok (zip_with UpdateHart harts hart_eips).

Definition ReadPriority (offset : Z) (p : SifivePLIC) : result Z :=
  at_ (interrupt_priorities_ p) (Z.shiftr (Z.land offset 0xfff) 2).

Definition ReadPending (offset : Z) (p : SifivePLIC) : result Z := Err NotImplemented.

Definition ReadEnable (offset : Z) (p : SifivePLIC) : result Z :=
  let offset := u32 (offset - 0x2000) in
  let* (_, config) := GetContext p (offset / 0x80) in
  at_ (enable config) (Z.land offset 7 / 4).

Definition ReadThreshold (offset : Z) (p : SifivePLIC) : result (Z * SifivePLIC) :=
  let offset := u32 (offset - 0x200000) in
  let* (_, config) := GetContext p (offset / 0x1000) in
  if Z.land offset 7 =? 4 then ClaimInterrupt config p
  else Ok (threshold config, p).

Definition Read (offset size : Z) (st : SifivePLIC * list H)
  : result (Z * (SifivePLIC * list H)) :=
  let '(p, harts) := st in
  let* (data, p1) :=
    if (0 <=? offset) && (offset <? 0x1000) then
      check* size =? 4 or AssertFailed in
      let* d := ReadPriority offset p in Ok (d, p)
    else if (0x1000 <=? offset) && (offset <? 0x2000) then
      let* d := ReadPending offset p in Ok (d, p)
    else if (0x2000 <=? offset) && (offset <? 0x200000) then
      let* d := ReadEnable offset p in Ok (d, p)
    else if 0x200000 <=? offset then ReadThreshold offset p
    else Err NotImplemented in
  let* harts1 := UpdateIRQ p1 harts in
  Ok (data, (p1, harts1)).

Definition WritePriority (offset data : Z) (p : SifivePLIC) : result SifivePLIC :=
  let interrupt_id := Z.shiftr (Z.land offset 0xfff) 2 in
  let* _ := at_ (interrupt_priorities_ p) interrupt_id in
  Ok (with_priorities (set_at (interrupt_priorities_ p) interrupt_id (u32 data)) p).

Definition WritePending (offset data : Z) (p : SifivePLIC) : result SifivePLIC :=
  Err NotImplemented.

Definition WriteEnable (offset data : Z) (p : SifivePLIC) : result SifivePLIC :=
  let offset := u32 (offset - 0x2000) in
  let* (i, config) := GetContext p (offset / 0x80) in
  let index := Z.land offset 7 / 4 in
  let* _ := at_ (enable config) index in
  Ok (set_context i (mkCtx (hart config) (context config) (threshold config)
                       (set_at (enable config) index (u32 data)) (busy config)) p).

Definition WriteThreshold (offset data : Z) (p : SifivePLIC) : result SifivePLIC :=
  let offset := u32 (offset - 0x200000) in
  let* (i, config) := GetContext p (offset / 0x1000) in
  if Z.land offset 7 =? 0 then
    Ok (set_context i (mkCtx (hart config) (context config) (u32 data) (enable config) (busy config)) p)
  else if Z.land offset 7 =? 4 then
    CompleteInterrupt (u32 data)
      (set_context i (mkCtx (hart config) (context config) (threshold config) (enable config) false) p)
  else Ok p.

Definition Write (offset size data : Z) (st : SifivePLIC * list H)
  : result (SifivePLIC * list H) :=
  let '(p, harts) := st in
  let* p1 :=
    if (0 <=? offset) && (offset <? 0x1000) then
      check* size =? 4 or AssertFailed in WritePriority offset data p
    else if (0x1000 <=? offset) && (offset <? 0x2000) then WritePending offset data p
    else if (0x2000 <=? offset) && (offset <? 0x200000) then WriteEnable offset data p
    else if 0x200000 <=? offset then WriteThreshold offset data p
    else Err NotImplemented in
  let* harts1 := UpdateIRQ p1 harts in
  Ok (p1, harts1).

Definition AssertLine (line : Z) (st : SifivePLIC * list H) : result (SifivePLIC * list H) :=
  let '(p, harts) := st in
  let* ws := set_line (interrupt_pending_ p) line in
  let* harts1 := UpdateIRQ (with_pending ws p) harts in
  Ok (with_pending ws p, harts1).

Definition RescindLine (line : Z) (st : SifivePLIC * list H) : result (SifivePLIC * list H) :=
  let '(p, harts) := st in
  let* ws := clear_line (interrupt_pending_ p) line in
  let* harts1 := UpdateIRQ (with_pending ws p) harts in
  Ok (with_pending ws p, harts1).
End Controller.

(** ** Lines as bits of words *)

Definition line_bit (ws : list Z) (n : Z) : bool :=
  Z.testbit (default 0 (ws !! Z.to_nat (n / 32))) (n mod 32).

Definition words_wf (ws : list Z) : Prop := length ws = 2%nat /\ Forall (in_range 32) ws.

Lemma div32 n : 0 <= n < 64 -> 0 <= n / 32 < 2 /\ 0 <= n mod 32 < 32 /\ n = n / 32 * 32 + n mod 32.
Proof. intros. pose proof (Z.div_mod n 32 ltac:(lia)). pose proof (Z.mod_pos_bound n 32 ltac:(lia)). lia. Qed.

Lemma words_at ws w :
  words_wf ws -> 0 <= w < 2 ->
  exists x, at_ ws w = Ok x /\ in_range 32 x /\ ws !! Z.to_nat w = Some x.
Proof.
  intros [Hl Hf] Hw. destruct (at_in_range ws w ltac:(lia)) as [x Hx].
  exists x. apply at_Ok in Hx as Hx'. destruct Hx' as [_ Hx'].
  split; [assumption |]. split; [eapply Forall_lookup_1; eauto | assumption].
Qed.

Lemma words_set ws w x : words_wf ws -> in_range 32 x -> words_wf (set_at ws w x).
Proof.
  intros [Hl Hf] Hx. split; [rewrite length_set_at; assumption |]. apply Forall_insert; assumption.
Qed.

Lemma line_bit_set_at ws w x n :
  words_wf ws -> 0 <= w < 2 -> 0 <= n < 64 ->
  line_bit (set_at ws w x) n = if w =? n / 32 then Z.testbit x (n mod 32) else line_bit ws n.
Proof.
  intros [Hl _] Hw Hn. unfold line_bit, set_at. destruct (Z.eqb_spec w (n / 32)) as [-> |].
  - rewrite list_lookup_insert_eq by lia. reflexivity.
  - pose proof (div32 n Hn). rewrite list_lookup_insert_ne by lia. reflexivity.
Qed.

Lemma not32_range z : in_range 32 (not32 z).
Proof. apply wrap_range; lia. Qed.
#[local] Hint Resolve not32_range words_set : words.

(** Both updates touch exactly the named line. *)
Lemma update_line_bit ws line n f x :
  words_wf ws -> 0 <= line < 64 -> 0 <= n < 64 -> ws !! Z.to_nat (line / 32) = Some x ->
  (forall i, 0 <= i < 32 ->
     Z.testbit (f x) i = if line mod 32 =? i then Z.testbit (f x) i else Z.testbit x i) ->
  line_bit (set_at ws (line / 32) (f x)) n
  = if line =? n then Z.testbit (f x) (line mod 32) else line_bit ws n.
Proof.
  intros Hws Hl Hn Hx Hf. destruct (div32 line Hl) as (? & ? & El), (div32 n Hn) as (? & ? & En).
  rewrite line_bit_set_at by assumption.
  destruct (Z.eqb_spec (line / 32) (n / 32)) as [Ed | Ed], (Z.eqb_spec line n) as [-> | Ene]; try congruence.
  - rewrite Hf by lia. destruct (Z.eqb_spec (line mod 32) (n mod 32)); [lia |].
    unfold line_bit. rewrite <- Ed, Hx. reflexivity.
Qed.

Lemma set_line_spec ws line :
  words_wf ws -> 0 <= line < 64 ->
  exists ws', set_line ws line = Ok ws' /\ words_wf ws' /\
    forall n, 0 <= n < 64 -> line_bit ws' n = (line =? n) || line_bit ws n.
Proof.
  intros Hws Hl. destruct (div32 line Hl) as (Hd & Hm & _). unfold set_line.
  destruct (words_at ws (line / 32) Hws Hd) as (x & -> & Hx & Elx). simpl.
  eexists. split; [reflexivity |]. split.
  - apply words_set; [assumption |]. apply in_range_lor; [lia | assumption | apply wrap_range; lia].
  - intros n Hn.
    assert (Hb : forall i, 0 <= i < 32 ->
      Z.testbit (Z.lor x (u32 (int_bit (line mod 32)))) i = Z.testbit x i || (line mod 32 =? i)).
    { intros i Hi. unfold u32. rewrite Z.lor_spec, testbit_wrap, testbit_int_bit by lia.
      destruct (Z.ltb_spec i 32); [reflexivity | lia]. }
    rewrite (update_line_bit ws line n (fun x => Z.lor x (u32 (int_bit (line mod 32))))) by
      (assumption || (intros i Hi; rewrite Hb by lia; destruct (_ =? _); [reflexivity | apply orb_false_r])).
    destruct (line =? n); [| reflexivity]. rewrite Hb, Z.eqb_refl, orb_true_r by lia. reflexivity.
Qed.

Lemma clear_line_spec ws line :
  words_wf ws -> 0 <= line < 64 ->
  exists ws', clear_line ws line = Ok ws' /\ words_wf ws' /\
    forall n, 0 <= n < 64 -> line_bit ws' n = negb (line =? n) && line_bit ws n.
Proof.
  intros Hws Hl. destruct (div32 line Hl) as (Hd & Hm & _). unfold clear_line.
  destruct (words_at ws (line / 32) Hws Hd) as (x & -> & Hx & Elx). simpl.
  eexists. split; [reflexivity |]. split.
  - apply words_set; [assumption |]. apply in_range_land_l; [lia | assumption].
  - intros n Hn.
    assert (Hb : forall i, 0 <= i < 32 ->
      Z.testbit (Z.land x (not32 (int_bit (line mod 32)))) i = Z.testbit x i && negb (line mod 32 =? i)).
    { intros i Hi. rewrite Z.land_spec, testbit_not32, testbit_int_bit by lia. reflexivity. }
    rewrite (update_line_bit ws line n (fun x => Z.land x (not32 (int_bit (line mod 32))))) by
      (assumption || (intros i Hi; rewrite Hb by lia; destruct (_ =? _); [reflexivity | apply andb_true_r])).
    destruct (line =? n); [| reflexivity]. rewrite Hb, Z.eqb_refl, andb_false_r by lia. reflexivity.
Qed.

Lemma line_ops_bound ws line ws' :
  words_wf ws -> 0 <= line -> set_line ws line = Ok ws' \/ clear_line ws line = Ok ws' -> line < 64.
Proof.
  intros [Hl _] Hp H.
  assert (Hat : exists x, at_ ws (line / 32) = Ok x)
    by (destruct H as [E | E]; apply rbind_Ok in E as (x & E & _); eauto).
  destruct Hat as (x & Hat). apply at_Ok in Hat as [Hge E]. apply lookup_lt_Some in E.
  pose proof (Z.div_mod line 32 ltac:(lia)). pose proof (Z.mod_pos_bound line 32 ltac:(lia)). lia.
Qed.

(** ** Well-formed controllers *)

Record ctx_wf (nharts : nat) (ctx : hart_context) : Prop := {
  ctx_hart : 0 <= hart ctx < Z.of_nat nharts;
  ctx_mode : context ctx = "M"%char \/ context ctx = "S"%char \/ context ctx = "U"%char;
  ctx_enable : words_wf (enable ctx)
}.

Record plic_wf (nharts : nat) (p : SifivePLIC) : Prop := {
  wf_priorities : length (interrupt_priorities_ p) = Z.to_nat NumLines;
  wf_pending : words_wf (interrupt_pending_ p);
  wf_claimed : words_wf (interrupt_claimed_ p);
  wf_contexts : Forall (ctx_wf nharts) (hart_config_ p)
}.

Lemma zero_words_wf : words_wf [0; 0].
Proof. split; [reflexivity |]. repeat constructor; vm_compute; congruence. Qed.

(** Line [n] is pending, unclaimed and enabled for the context. *)
Definition pending_for (p : SifivePLIC) (ctx : hart_context) (n : Z) : bool :=
  line_bit (interrupt_pending_ p) n && negb (line_bit (interrupt_claimed_ p) n)
    && line_bit (enable ctx) n.

Lemma line_bit_word ws w x b :
  ws !! w = Some x -> 0 <= b < 32 -> line_bit ws (Z.of_nat w * 32 + b) = Z.testbit x b.
Proof.
  intros Hx Hb. unfold line_bit.
  rewrite Z.div_add_l, Z.div_small, Z.add_0_r by lia.
  rewrite Z.add_comm, Z.mod_add, Z.mod_small by lia.
  rewrite Nat2Z.id, Hx. reflexivity.
Qed.

Lemma hart_pending_spec k p ctx w :
  plic_wf k p -> ctx_wf k ctx -> (w < 2)%nat ->
  exists hp, hart_pending p ctx w = Ok hp /\ in_range 32 hp /\
    forall b, 0 <= b < 32 -> Z.testbit hp b = pending_for p ctx (Z.of_nat w * 32 + b).
Proof.
  intros [_ Hp Hc _] [_ _ He] Hw. unfold hart_pending.
  destruct (words_at _ (Z.of_nat w) Hp ltac:(lia)) as (x & -> & Rx & Lx).
  destruct (words_at _ (Z.of_nat w) Hc ltac:(lia)) as (y & -> & Ry & Ly).
  destruct (words_at _ (Z.of_nat w) He ltac:(lia)) as (z & -> & Rz & Lz). simpl.
  rewrite Nat2Z.id in Lx, Ly, Lz.
  eexists. split; [reflexivity |]. split; [repeat (apply in_range_land_l; [lia |]); assumption |].
  intros b Hb. rewrite !Z.land_spec, testbit_not32 by lia. unfold pending_for.
  rewrite (line_bit_word _ _ _ _ Lx), (line_bit_word _ _ _ _ Ly), (line_bit_word _ _ _ _ Lz) by lia.
  reflexivity.
Qed.

(** ** What [UpdateIRQ] establishes *)

Definition some_pending (p : SifivePLIC) (ctx : hart_context) : bool :=
  existsb (fun n => pending_for p ctx (Z.of_nat n)) (seq 0 64).

(** External interrupt [b] should be pending on hart [i]. *)
Definition external_pending (p : SifivePLIC) (ctxs : list hart_context) (i b : Z) : bool :=
  existsb (fun ctx => (hart ctx =? i) && some_pending p ctx && Z.testbit (eip_bit (context ctx)) b) ctxs.

Lemma some_pending_true p ctx :
  some_pending p ctx = true <-> exists n, 0 <= n < 64 /\ pending_for p ctx n = true.
Proof.
  unfold some_pending. rewrite existsb_exists. split.
  - intros (n & Hn & E). apply in_seq in Hn. exists (Z.of_nat n). auto with lia.
  - intros (n & Hn & E). exists (Z.to_nat n). rewrite Z2Nat.id by lia.
    split; [apply in_seq; lia | assumption].
Qed.

(** A word is non-zero exactly when one of its lines is pending. *)
Lemma hart_pending_some k p ctx w hp :
  plic_wf k p -> ctx_wf k ctx -> (w < 2)%nat -> hart_pending p ctx w = Ok hp ->
  to_bool hp = true <-> exists b, 0 <= b < 32 /\ pending_for p ctx (Z.of_nat w * 32 + b) = true.
Proof.
  intros Hp Hc Hw E. destruct (hart_pending_spec k p ctx w Hp Hc Hw) as (hp' & E' & Hr & Hb).
  assert (hp' = hp) by congruence. subst hp'. rewrite to_bool_bits by apply Hr. split.
  - intros (i & Hi & Ht). destruct (Z.lt_ge_cases i 32).
    + exists i. rewrite <- Hb by lia. auto.
    + rewrite (testbit_high 32) in Ht by (assumption || lia). discriminate.
  - intros (b & Hb' & Ht). exists b. rewrite Hb by lia. auto with lia.
Qed.

Lemma words_two k p : plic_wf k p -> words p = [0; 1]%nat.
Proof. intros [_ [Hl _] _ _]. unfold words. rewrite Hl. reflexivity. Qed.

Lemma some_pending_words k p ctx hp0 hp1 :
  plic_wf k p -> ctx_wf k ctx -> hart_pending p ctx 0 = Ok hp0 -> hart_pending p ctx 1 = Ok hp1 ->
  some_pending p ctx = to_bool hp0 || to_bool hp1.
Proof.
  intros Hp Hc E0 E1. apply eq_true_iff_eq.
  rewrite some_pending_true, orb_true_iff, (hart_pending_some k p ctx 0 hp0), (hart_pending_some k p ctx 1 hp1)
    by (assumption || lia).
  split.
  - intros (n & Hn & E). destruct (Z.lt_ge_cases n 32); [left; exists n | right; exists (n - 32)];
      (split; [lia |]); rewrite <- E; f_equal; lia.
  - intros [(b & Hb & E) | (b & Hb & E)]; eexists; (split; [| exact E]); lia.
Qed.

Lemma eip_spec k p ctx :
  plic_wf k p -> ctx_wf k ctx ->
  eip_loop p ctx (words p) 0 = Ok (if some_pending p ctx then eip_bit (context ctx) else 0).
Proof.
  intros Hp Hc. rewrite (words_two k p Hp). cbn [eip_loop].
  destruct (hart_pending_spec k p ctx 0 Hp Hc ltac:(lia)) as (hp0 & E0 & _).
  destruct (hart_pending_spec k p ctx 1 Hp Hc ltac:(lia)) as (hp1 & E1 & _).
  rewrite (some_pending_words k p ctx hp0 hp1) by assumption. rewrite E0, E1. cbn [rbind].
  destruct (to_bool hp0), (to_bool hp1); cbn [orb]; rewrite ?Z.lor_0_l, ?Z.lor_diag; reflexivity.
Qed.

Lemma hart_eips_spec k p ctxs eips :
  plic_wf k p -> Forall (ctx_wf k) ctxs -> length eips = k ->
  exists eips', hart_eips_loop p ctxs eips = Ok eips' /\ length eips' = k /\
    forall i x x', eips !! i = Some x -> eips' !! i = Some x' -> forall b,
      Z.testbit x' b = Z.testbit x b || external_pending p ctxs (Z.of_nat i) b.
Proof.
  intros Hp Hf. revert eips. induction Hf as [| ctx ctxs Hc Hf IH]; intros eips Hl.
  - exists eips. simpl. split; [reflexivity |]. split; [assumption |].
    intros i x x' E E' b. rewrite orb_false_r. congruence.
  - cbn [hart_eips_loop]. rewrite (eip_spec k) by assumption. cbn [rbind].
    pose proof (ctx_hart k ctx Hc) as Hh.
    destruct (at_in_range eips (hart ctx) ltac:(lia)) as (cur & Ecur). rewrite Ecur. cbn [rbind].
    apply at_Ok in Ecur as [_ Ecur].
    match goal with |- context [hart_eips_loop p ctxs ?e] =>
      destruct (IH e) as (eips' & -> & Hl' & Hb); [rewrite length_set_at; exact Hl |] end.
    exists eips'. split; [reflexivity |]. split; [assumption |].
    intros i x x' Ex Ex' b. cbn [external_pending existsb]. unfold set_at in Hb.
    destruct (decide (i = Z.to_nat (hart ctx))) as [-> | Hne].
    + rewrite (Hb _ _ _ (list_lookup_insert_eq eips (Z.to_nat (hart ctx)) _ ltac:(lia)) Ex').
      rewrite Z2Nat.id, Z.eqb_refl by lia. assert (cur = x) by congruence. subst cur.
      rewrite Z.lor_spec. fold (external_pending p ctxs (hart ctx) b).
      destruct (some_pending p ctx); cbn [andb];
        [rewrite <- orb_assoc | rewrite Z.testbit_0_l, orb_false_r]; reflexivity.
    + rewrite (Hb i x x') by (rewrite ?list_lookup_insert_ne by congruence; assumption).
      replace (hart ctx =? Z.of_nat i) with false by (symmetry; apply Z.eqb_neq; lia). reflexivity.
Qed.

Lemma eip_bit_external c b :
  Z.testbit (eip_bit c) b = true -> b ∈ [8; 9; 11].
Proof.
  assert (E : eip_bit c = Z.shiftl (Z.b2z true) 8 \/ eip_bit c = Z.shiftl (Z.b2z true) 9 \/
              eip_bit c = Z.shiftl (Z.b2z true) 11 \/ eip_bit c = 0).
  { unfold eip_bit. repeat case_goal; auto. }
  destruct E as [-> | [-> | [-> | ->]]]; rewrite ?testbit_b2z_shiftl, ?Z.testbit_0_l by lia; try discriminate;
    rewrite andb_true_r, Z.eqb_eq; intros ->; set_solver.
Qed.

Lemma external_pending_bit p ctxs i b : external_pending p ctxs i b = true -> b ∈ [8; 9; 11].
Proof.
  unfold external_pending. rewrite existsb_exists. intros (ctx & _ & E).
  apply andb_true_iff in E as [_ E]. apply eip_bit_external in E. exact E.
Qed.

Section Update.
Context {H : Type} `{HartIRQ H}.

Lemma UpdateHart_bit (h : H) eip b :
  0 <= b < 32 -> (Z.testbit eip b = true -> b ∈ [8; 9; 11]) ->
  Z.testbit (hart_mip (UpdateHart h eip)) b
  = if Z.testbit 0xf00 b then Z.testbit eip b else Z.testbit (hart_mip h) b.
Proof.
  intros Hb Hext. unfold UpdateHart.
  rewrite mip_pend_if, mip_unpend_if, !Z.land_spec, !testbit_not32, !Z.land_spec by lia.
  destruct (Z.testbit eip b) eqn:E.
  - specialize (Hext eq_refl). rewrite implements_standard by (revert Hext; rewrite !elem_of_cons; tauto).
    assert (Hf : Z.testbit 0xf00 b = true).
    { repeat (apply elem_of_cons in Hext as [-> | Hext]; [reflexivity |]). inversion Hext. }
    rewrite Hf. destruct (Z.testbit (hart_mip h) b); reflexivity.
  - destruct (Z.testbit 0xf00 b), (Z.testbit (hart_mip h) b); cbn [andb orb negb];
      rewrite ?andb_false_r; reflexivity.
Qed.

(** The external interrupt bits of every hart say what is pending for it, and
    the other bits are untouched. *)
Definition harts_updated (p : SifivePLIC) (hs hs' : list H) : Prop :=
  length hs' = length hs /\
  forall i h h', hs !! i = Some h -> hs' !! i = Some h' -> forall b, 0 <= b < 32 ->
    Z.testbit (hart_mip h') b
    = if Z.testbit 0xf00 b then external_pending p (hart_config_ p) (Z.of_nat i) b
      else Z.testbit (hart_mip h) b.

Lemma UpdateIRQ_spec p (hs : list H) :
  plic_wf (length hs) p -> exists hs', UpdateIRQ p hs = Ok hs' /\ harts_updated p hs hs'.
Proof.
  intros Hp. unfold UpdateIRQ.
  destruct (hart_eips_spec (length hs) p (hart_config_ p) (replicate (length hs) 0)) as (eips & -> & Hl & Hb);
    [assumption | apply wf_contexts; assumption | apply length_replicate |].
  cbn [rbind]. eexists. split; [reflexivity |]. split.
  - rewrite length_zip_with. lia.
  - intros i h h' Eh Eh' b Hb'. apply lookup_zip_with_Some in Eh' as (h0 & x & -> & Eh0 & Ex).
    assert (h0 = h) by congruence. subst h0.
    assert (Hi : (i < length hs)%nat) by (eapply lookup_lt_Some; eauto).
    specialize (Hb i 0 x (proj2 (lookup_replicate _ _ _ _) (conj eq_refl Hi)) Ex).
    setoid_rewrite Z.testbit_0_l in Hb. cbn [orb] in Hb.
    rewrite UpdateHart_bit, Hb by (lia || (rewrite Hb; apply external_pending_bit)). reflexivity.
Qed.
End Update.

(** ** Claiming *)

Lemma land_u32_int_bit z i :
  0 <= i < 32 -> in_range 32 z -> to_bool (Z.land z (u32 (int_bit i))) = Z.testbit z i.
Proof.
  intros Hi Hz. apply eq_true_iff_eq. rewrite to_bool_bits by (apply Z.land_nonneg; left; apply Hz).
  unfold u32. split.
  - intros (j & Hj & E). rewrite Z.land_spec, testbit_wrap in E by lia.
    destruct (Z.ltb_spec j 32); [| rewrite andb_false_r in E; discriminate].
    rewrite testbit_int_bit in E by lia. apply andb_true_iff in E as [E1 E2].
    apply Z.eqb_eq in E2 as ->. assumption.
  - intros E. exists i. rewrite Z.land_spec, testbit_wrap, testbit_int_bit, Z.eqb_refl, E by lia.
    split; [lia |]. destruct (Z.ltb_spec i 32); [reflexivity | lia].
Qed.

Lemma bit_set_forward_lowest data n k :
  in_range 32 data -> (n + k = 32)%nat ->
  (exists j, Z.of_nat n <= j < 32 /\ Z.testbit data j = true) ->
  exists r, bit_set_forward_loop data (seq n k) = Ok r /\ Z.of_nat n <= r < 32 /\
    Z.testbit data r = true /\ forall j, Z.of_nat n <= j < r -> Z.testbit data j = false.
Proof.
  intros Hd. revert n. induction k as [| k IH]; intros n Hk (j & Hj & Ej); [lia |].
  cbn [seq bit_set_forward_loop]. rewrite land_u32_int_bit by (lia || assumption).
  destruct (Z.testbit data (Z.of_nat n)) eqn:E.
  - eexists. split; [reflexivity |]. split; [lia |]. split; [assumption |]. intros; lia.
  - destruct (IH (S n) ltac:(lia)) as (r & -> & Hr & Er & Hlow).
    { exists j. split; [| assumption]. destruct (Z.eq_dec j (Z.of_nat n)); [congruence | lia]. }
    eexists. split; [reflexivity |]. split; [lia |]. split; [assumption |].
    intros i Hi. destruct (Z.eq_dec i (Z.of_nat n)); [congruence | apply Hlow; lia].
Qed.

(** The line a claim picks in word [w]. *)
Definition first_in_word (p : SifivePLIC) (ctx : hart_context) (w : nat) (n : Z) : Prop :=
  Z.of_nat w * 32 <= n < Z.of_nat w * 32 + 32 /\ pending_for p ctx n = true /\
  forall m, Z.of_nat w * 32 <= m < n -> pending_for p ctx m = false.

Lemma claim_step k p ctx w rest acc :
  plic_wf k p -> ctx_wf k ctx -> (w < 2)%nat ->
  (exists n, first_in_word p ctx w n /\ claim_loop p ctx (w :: rest) acc = claim_loop p ctx rest n) \/
  ((forall m, Z.of_nat w * 32 <= m < Z.of_nat w * 32 + 32 -> pending_for p ctx m = false) /\
   claim_loop p ctx (w :: rest) acc = claim_loop p ctx rest acc).
Proof.
  intros Hp Hc Hw. destruct (hart_pending_spec k p ctx w Hp Hc Hw) as (hp & E & Hr & Hb).
  pose proof (hart_pending_some k p ctx w hp Hp Hc Hw E) as Hs. cbn [claim_loop]. rewrite E. cbn [rbind].
  destruct (to_bool hp) eqn:Et.
  - left. destruct (proj1 Hs eq_refl) as (b & Hb1 & Hb2). rewrite <- Hb in Hb2 by lia.
    destruct (bit_set_forward_lowest hp 0 32 Hr eq_refl) as (r & Er & Hr1 & Hr2 & Hr3); [eauto |].
    unfold bit_set_forward. rewrite Er. cbn [rbind].
    exists (Z.of_nat w * 32 + r). unfold u32. rewrite wrap_small by (unfold in_range; lia).
    split; [| reflexivity]. split; [lia |]. rewrite <- Hb by lia. split; [assumption |].
    intros m Hm. replace m with (Z.of_nat w * 32 + (m - Z.of_nat w * 32)) by lia.
    rewrite <- Hb by lia. apply Hr3. lia.
  - right. split; [| reflexivity]. intros m Hm. apply not_true_iff_false. intros Ep.
    assert (false = true) by (apply Hs; exists (m - Z.of_nat w * 32); split; [lia |]; rewrite <- Ep; f_equal; lia).
    discriminate.
Qed.

(** What a claim returns and records. *)
Definition claims (p : SifivePLIC) (ctx : hart_context) (n : Z) (p' : SifivePLIC) : Prop :=
  (n = 0 /\ p' = p /\ (pending_for p ctx 0 = true \/ some_pending p ctx = false)) \/
  (0 < n < 64 /\ pending_for p ctx n = true /\
   (forall m, 0 <= m < 64 -> pending_for p ctx m = true -> m / 32 < n / 32 \/ (m / 32 = n / 32 /\ n <= m)) /\
   exists claimed, p' = with_claimed claimed p /\ words_wf claimed /\
     forall m, 0 <= m < 64 -> line_bit claimed m = (n =? m) || line_bit (interrupt_claimed_ p) m).

Lemma claim_picked k p ctx n :
  plic_wf k p -> 0 <= n < 64 -> pending_for p ctx n = true ->
  (forall m, 0 <= m < 64 -> pending_for p ctx m = true -> m / 32 < n / 32 \/ (m / 32 = n / 32 /\ n <= m)) ->
  exists p', (if to_bool n then let* claimed := set_line (interrupt_claimed_ p) n in Ok (n, with_claimed claimed p)
              else Ok (n, p)) = Ok (n, p') /\ claims p ctx n p'.
Proof.
  intros Hp Hn Hpend Hsel. unfold to_bool. destruct (Z.eqb_spec n 0) as [-> | Hne]; simpl.
  - exists p. split; [reflexivity |]. left. auto.
  - destruct (set_line_spec (interrupt_claimed_ p) n (wf_claimed k p Hp) Hn) as (c & -> & Hc & Hb). simpl.
    eexists. split; [reflexivity |]. right. split; [lia |]. split; [assumption |]. split; [assumption |].
    exists c. auto.
Qed.

Lemma div32_word w n : 0 <= w -> w * 32 <= n < w * 32 + 32 -> n / 32 = w.
Proof. intros. symmetry. apply (Z.div_unique n 32 w (n - w * 32)); lia. Qed.

Lemma ClaimInterrupt_spec k p ctx :
  plic_wf k p -> ctx_wf k ctx -> exists n p', ClaimInterrupt ctx p = Ok (n, p') /\ claims p ctx n p'.
Proof.
  intros Hp Hc. unfold ClaimInterrupt. rewrite (words_two k p Hp).
  assert (Hword : forall m, 0 <= m < 64 -> Z.of_nat 0 * 32 <= m < Z.of_nat 0 * 32 + 32 /\ m / 32 = 0 \/
                             Z.of_nat 1 * 32 <= m < Z.of_nat 1 * 32 + 32 /\ m / 32 = 1).
  { intros m Hm. destruct (Z.lt_ge_cases m 32); [left | right]; split; try lia; apply div32_word; lia. }
  destruct (claim_step k p ctx 0 [1%nat] 0 Hp Hc ltac:(lia)) as [(n0 & H0 & ->) | [H0 ->]];
  destruct (claim_step k p ctx 1 [] 0 Hp Hc ltac:(lia)) as [(n1 & H1 & E1) | [H1 E1]].
  - destruct (claim_step k p ctx 1 [] n0 Hp Hc ltac:(lia)) as [(n & Hn & ->) | [Hn _]].
    + destruct Hn as (Hr & Hpn & Hlow). cbn [claim_loop rbind].
      assert (En : n / 32 = 1) by (apply div32_word; lia).
      exists n. apply (claim_picked k); [assumption | lia | assumption |].
      intros m Hm Em. rewrite En. destruct (Hword m Hm) as [[Hm1 ->] | [Hm1 ->]]; [left; lia | right].
      split; [reflexivity |]. destruct (Z.lt_ge_cases m n); [rewrite Hlow in Em by lia; discriminate | lia].
    + exfalso. destruct H1 as (Hr & Hp1 & _). rewrite Hn in Hp1 by lia. discriminate.
  - destruct (claim_step k p ctx 1 [] n0 Hp Hc ltac:(lia)) as [(n & Hn & _) | [_ ->]].
    { exfalso. destruct Hn as (Hr & Hp1 & _). rewrite H1 in Hp1 by lia. discriminate. }
    destruct H0 as (Hr & Hpn & Hlow). cbn [claim_loop rbind].
    assert (En : n0 / 32 = 0) by (apply div32_word; lia).
    exists n0. apply (claim_picked k); [assumption | lia | assumption |].
    intros m Hm Em. rewrite En. destruct (Hword m Hm) as [[Hm1 ->] | [Hm1 ->]]; [right | rewrite H1 in Em by lia; discriminate].
    split; [reflexivity |]. destruct (Z.lt_ge_cases m n0); [rewrite Hlow in Em by lia; discriminate | lia].
  - rewrite E1. destruct H1 as (Hr & Hpn & Hlow). cbn [claim_loop rbind].
    assert (En : n1 / 32 = 1) by (apply div32_word; lia).
    exists n1. apply (claim_picked k); [assumption | lia | assumption |].
    intros m Hm Em. rewrite En. destruct (Hword m Hm) as [[Hm1 ->] | [Hm1 ->]]; [rewrite H0 in Em by lia; discriminate | right].
    split; [reflexivity |]. destruct (Z.lt_ge_cases m n1); [rewrite Hlow in Em by lia; discriminate | lia].
  - rewrite E1. cbn [claim_loop rbind]. exists 0, p. split; [reflexivity |]. left.
    split; [reflexivity |]. split; [reflexivity |]. right. apply not_true_iff_false. rewrite some_pending_true.
    intros (m & Hm & Em). destruct (Hword m Hm) as [[Hm1 _] | [Hm1 _]]; [rewrite H0 in Em by lia | rewrite H1 in Em by lia];
      discriminate.
Qed.

(** ** The controller as a labelled transition system *)

Lemma GetContext_wf k p idx i ctx :
  plic_wf k p -> GetContext p idx = Ok (i, ctx) -> ctx_wf k ctx.
Proof.
  intros Hp E. unfold GetContext in E. bind_inv E. apply Ok_inj in E.
  injection E as <- <-. apply at_Ok in E1 as [_ E1].
  eapply Forall_lookup_1; [apply wf_contexts; eassumption | eassumption].
Qed.

Lemma set_context_wf k p i ctx : plic_wf k p -> ctx_wf k ctx -> plic_wf k (set_context i ctx p).
Proof.
  intros [H1 H2 H3 H4] Hc. constructor; simpl; auto. apply Forall_insert; assumption.
Qed.

Lemma setup_loop_wf k id config :
  0 <= id -> Forall (fun ctx => hart ctx < Z.of_nat k) (setup_loop id config) ->
  Forall (ctx_wf k) (setup_loop id config).
Proof.
  revert id. induction config as [| c config IH]; intros id Hid; [constructor |]. cbn [setup_loop].
  destruct (_ || _) eqn:E.
  - intros Hf. inversion Hf as [| ? ? Hh Hf']; subst. constructor; [| apply IH; assumption].
    constructor; [simpl in *; lia | | apply zero_words_wf]. simpl.
    rewrite !orb_true_iff, !Ascii.eqb_eq in E. tauto.
  - destruct (Ascii.eqb c ","); apply IH; [apply wrap_range |]; lia.
Qed.

Lemma Initialise_wf k config :
  Forall (fun ctx => hart ctx < Z.of_nat k) (setup_loop 0 config) ->
  plic_wf k (Initialise (new_SifivePLIC config)).
Proof.
  intros Hf. constructor; try reflexivity; try apply zero_words_wf.
  apply setup_loop_wf; [lia | assumption].
Qed.

Inductive plic_event := Silent | Claimed (n : Z) | Completed (n : Z).

#[export] Instance plic_event_eq_dec : EqDecision plic_event.
Proof. solve_decision. Defined.

(** Reads and writes of a claim/complete register. *)
Definition is_claim_register (offset : Z) : bool :=
  (0x200000 <=? offset) && (Z.land (u32 (offset - 0x200000)) 7 =? 4).
Definition read_event (offset data : Z) : plic_event :=
  if is_claim_register offset && to_bool data then Claimed data else Silent.
Definition write_event (offset data : Z) : plic_event :=
  if is_claim_register offset then Completed (u32 data) else Silent.

(** The claimed bit of line [n] after the event. *)
Definition event_claims (e : plic_event) (n : Z) (b : bool) : bool :=
  match e with
  | Silent => b
  | Claimed m => (m =? n) || b
  | Completed m => negb (m =? n) && b
  end.

Lemma WriteEnable_facts k p offset data p' :
  plic_wf k p -> WriteEnable offset data p = Ok p' ->
  plic_wf k p' /\ interrupt_claimed_ p' = interrupt_claimed_ p.
Proof.
  intros Hp E. unfold WriteEnable in E. bind_inv E. destruct v as [i ctx]. bind_inv E.
  apply Ok_inj in E as <-. apply (GetContext_wf k) in E0 as [Hh Hm He]; [| assumption].
  split; [| reflexivity]. apply set_context_wf; [assumption |].
  constructor; auto. apply words_set; [assumption | apply wrap_range; lia].
Qed.

Lemma CompleteInterrupt_facts k p irq p' :
  plic_wf k p -> 0 <= irq -> CompleteInterrupt irq p = Ok p' ->
  plic_wf k p' /\ forall n, 0 <= n < 64 ->
    line_bit (interrupt_claimed_ p') n = negb (irq =? n) && line_bit (interrupt_claimed_ p) n.
Proof.
  intros Hp Hirq E. pose proof (wf_claimed k p Hp) as Hc. unfold CompleteInterrupt in E. bind_inv E.
  apply Ok_inj in E as <-. assert (irq < 64) by (eapply line_ops_bound; eauto).
  destruct (clear_line_spec _ irq Hc ltac:(lia)) as (ws & E' & Hws & Hb).
  assert (ws = v) by congruence. subst ws. split; [| exact Hb]. destruct Hp. constructor; auto.
Qed.

Lemma WriteThreshold_facts k p offset data p' :
  plic_wf k p -> WriteThreshold offset data p = Ok p' ->
  plic_wf k p' /\ forall n, 0 <= n < 64 ->
    line_bit (interrupt_claimed_ p') n
    = if Z.land (u32 (offset - 0x200000)) 7 =? 4
      then negb (u32 data =? n) && line_bit (interrupt_claimed_ p) n
      else line_bit (interrupt_claimed_ p) n.
Proof.
  intros Hp E. unfold WriteThreshold in E. bind_inv E. destruct v as [i ctx].
  apply (GetContext_wf k) in E0 as [Hh Hm He]; [| assumption].
  destruct (Z.eqb_spec (Z.land (u32 (offset - 0x200000)) 7) 0) as [E0 |].
  - apply Ok_inj in E as <-. rewrite E0. split; [| reflexivity].
    apply set_context_wf; [assumption |]. constructor; auto.
  - destruct (Z.eqb_spec (Z.land (u32 (offset - 0x200000)) 7) 4).
    + apply (CompleteInterrupt_facts k) in E; [exact E | | apply wrap_range; lia].
      apply set_context_wf; [assumption |]. constructor; auto.
    + apply Ok_inj in E as <-. auto.
Qed.

Lemma ReadThreshold_facts k p offset data p' :
  plic_wf k p -> ReadThreshold offset p = Ok (data, p') ->
  if Z.land (u32 (offset - 0x200000)) 7 =? 4
  then exists ctx, ctx_wf k ctx /\ claims p ctx data p'
  else p' = p.
Proof.
  intros Hp E. unfold ReadThreshold in E. bind_inv E. destruct v as [i ctx].
  apply (GetContext_wf k) in E0; [| assumption].
  destruct (_ =? 4); [| apply Ok_inj in E; injection E; auto].
  destruct (ClaimInterrupt_spec k p ctx Hp E0) as (n & p1 & E1 & Hc). rewrite E in E1.
  apply Ok_inj in E1. injection E1 as -> ->. eauto.
Qed.

Lemma claims_wf k p ctx n p' : plic_wf k p -> claims p ctx n p' -> plic_wf k p'.
Proof.
  intros Hp [(_ & -> & _) | (_ & _ & _ & c & -> & Hc & _)]; [assumption |].
  destruct Hp. constructor; auto.
Qed.

Section Steps.
Context {H : Type} `{HartIRQ H}.
Local Abbreviation state := (SifivePLIC * list H)%type.

Inductive plic_step : state -> plic_event -> state -> Prop :=
| step_read offset size st data st' :
    in_range 32 offset -> Read offset size st = Ok (data, st') ->
    plic_step st (read_event offset data) st'
| step_write offset size data st st' :
    in_range 32 offset -> Write offset size data st = Ok st' ->
    plic_step st (write_event offset data) st'
| step_assert line st st' : 0 <= line -> AssertLine line st = Ok st' -> plic_step st Silent st'
| step_rescind line st st' : 0 <= line -> RescindLine line st = Ok st' -> plic_step st Silent st'.

Inductive plic_trace : state -> list plic_event -> state -> Prop :=
| trace_nil st : plic_trace st [] st
| trace_snoc st1 evs st2 e st3 :
    plic_trace st1 evs st2 -> plic_step st2 e st3 -> plic_trace st1 (evs ++ [e]) st3.

(** What every step preserves and records. *)
Definition step_facts (k : nat) (p : SifivePLIC) (e : plic_event) (p' : SifivePLIC) : Prop :=
  plic_wf k p' /\
  (forall n, 0 <= n < 64 ->
     line_bit (interrupt_claimed_ p') n = event_claims e n (line_bit (interrupt_claimed_ p) n)) /\
  (forall n, e = Claimed n -> 0 < n < 64 /\ line_bit (interrupt_pending_ p) n = true /\
     line_bit (interrupt_claimed_ p) n = false).

Lemma step_facts_same k p p' :
  plic_wf k p' -> interrupt_claimed_ p' = interrupt_claimed_ p -> step_facts k p Silent p'.
Proof. intros Hp E. split; [assumption |]. rewrite E. split; [reflexivity | discriminate]. Qed.

Lemma claims_facts k p ctx data p' :
  plic_wf k p -> claims p ctx data p' ->
  step_facts k p (if to_bool data then Claimed data else Silent) p'.
Proof.
  intros Hp Hc. pose proof (claims_wf k p ctx data p' Hp Hc) as Hp'.
  destruct Hc as [(-> & -> & _) | (Hn & Hpend & _ & c & -> & _ & Hb)].
  - apply step_facts_same; [assumption | reflexivity].
  - unfold to_bool. destruct (Z.eqb_spec data 0) as [| Hne]; [lia |]. simpl. split; [assumption |].
    split; [exact Hb |]. intros n En. injection En as <-. unfold pending_for in Hpend.
    rewrite !andb_true_iff, negb_true_iff in Hpend. tauto.
Qed.

Lemma Read_facts offset size p hs data p' hs' :
  plic_wf (length hs) p -> Read offset size (p, hs) = Ok (data, (p', hs')) ->
  step_facts (length hs) p (read_event offset data) p' /\ UpdateIRQ p' hs = Ok hs'.
Proof.
  intros Hp E. unfold Read in E. bind_inv E. destruct v as [d p1]. bind_inv E.
  apply Ok_inj in E. injection E as -> -> ->. split; [| assumption]. clear E1.
  unfold read_event, is_claim_register.
  destruct (Z.leb_spec 0x200000 offset) as [Hge | Hlt]; cbn [andb].
  - replace (_ && (offset <? 0x1000)) with false in E0 by (symmetry; apply andb_false_iff; right; apply Z.ltb_ge; lia).
    replace (_ && (offset <? 0x2000)) with false in E0 by (symmetry; apply andb_false_iff; right; apply Z.ltb_ge; lia).
    replace (_ && (offset <? 0x200000)) with false in E0 by (symmetry; apply andb_false_iff; right; apply Z.ltb_ge; lia).
    apply (ReadThreshold_facts (length hs)) in E0; [| assumption].
    destruct (_ =? 4); cbn [andb].
    + destruct E0 as (ctx & _ & Hc). eapply claims_facts; eassumption.
    + subst p'. apply step_facts_same; [assumption | reflexivity].
  - repeat match type of E0 with (if ?b then _ else _) = _ => destruct b end; try discriminate E0;
      bind_inv E0; apply Ok_inj in E0; injection E0 as _ <-;
      (apply step_facts_same; [assumption | reflexivity]).
Qed.

Lemma Write_facts offset size data p hs p' hs' :
  plic_wf (length hs) p -> Write offset size data (p, hs) = Ok (p', hs') ->
  step_facts (length hs) p (write_event offset data) p' /\ UpdateIRQ p' hs = Ok hs'.
Proof.
  intros Hp E. unfold Write in E. bind_inv E.
  apply Ok_inj in E. injection E as -> ->. split; [| assumption]. clear E1.
  unfold write_event, is_claim_register.
  destruct (Z.leb_spec 0x200000 offset) as [Hge | Hlt]; cbn [andb].
  - replace (_ && (offset <? 0x1000)) with false in E0 by (symmetry; apply andb_false_iff; right; apply Z.ltb_ge; lia).
    replace (_ && (offset <? 0x2000)) with false in E0 by (symmetry; apply andb_false_iff; right; apply Z.ltb_ge; lia).
    replace (_ && (offset <? 0x200000)) with false in E0 by (symmetry; apply andb_false_iff; right; apply Z.ltb_ge; lia).
    apply (WriteThreshold_facts (length hs)) in E0 as [Hw Hb]; [| assumption].
    destruct (_ =? 4); (split; [assumption |]; split; [exact Hb | discriminate]).
  - destruct (_ && (offset <? 0x1000)).
    { destruct (size =? 4); [| discriminate E0]. unfold WritePriority in E0. bind_inv E0.
      apply Ok_inj in E0 as <-. apply step_facts_same; [| reflexivity].
      destruct Hp. constructor; auto. simpl. rewrite length_set_at. assumption. }
    destruct (_ && (offset <? 0x2000)); [discriminate E0 |].
    destruct (_ && (offset <? 0x200000)); [| discriminate E0].
    apply (WriteEnable_facts (length hs)) in E0 as [Hw Hb]; [| assumption].
    apply step_facts_same; assumption.
Qed.

Lemma line_op_facts p hs ws hs' line :
  plic_wf (length hs) p -> 0 <= line ->
  set_line (interrupt_pending_ p) line = Ok ws \/ clear_line (interrupt_pending_ p) line = Ok ws ->
  UpdateIRQ (with_pending ws p) hs = Ok hs' ->
  step_facts (length hs) p Silent (with_pending ws p).
Proof.
  intros Hp Hl E _. apply step_facts_same; [| reflexivity].
  pose proof (wf_pending _ p Hp) as Hw. assert (line < 64) by (eapply line_ops_bound; eauto).
  assert (words_wf ws).
  { destruct E as [E | E];
      [destruct (set_line_spec _ line Hw ltac:(lia)) as (ws' & E' & ? & _)
      |destruct (clear_line_spec _ line Hw ltac:(lia)) as (ws' & E' & ? & _)]; congruence. }
  destruct Hp. constructor; auto.
Qed.

Lemma plic_step_facts p hs e p' hs' :
  plic_step (p, hs) e (p', hs') -> plic_wf (length hs) p ->
  step_facts (length hs) p e p' /\ harts_updated p' hs hs'.
Proof.
  intros Hs Hp.
  assert (Hgoal : step_facts (length hs) p e p' /\ UpdateIRQ p' hs = Ok hs').
  { inversion Hs as [offset size st data st' _ E | offset size data st st' _ E
                    | line st st' Hl E | line st st' Hl E]; subst.
    - eapply Read_facts; eauto.
    - eapply Write_facts; eauto.
    - unfold AssertLine in E. bind_inv E. apply Ok_inj in E. injection E as <- <-.
      split; [eapply line_op_facts; eauto | assumption].
    - unfold RescindLine in E. bind_inv E. apply Ok_inj in E. injection E as <- <-.
      split; [eapply line_op_facts; eauto | assumption]. }
  destruct Hgoal as [Hf Hu]. split; [assumption |].
  destruct (UpdateIRQ_spec p' hs (proj1 Hf)) as (hs1 & E1 & Hu1). congruence.
Qed.
End Steps.

(** ** Theorems *)

Section Theorems.
Context {H : Type} `{HartIRQ H}.

(** Every context of the configuration names a hart of the machine. *)
Definition config_fits (config : list ascii) (harts : list H) : Prop :=
  Forall (fun ctx => hart ctx < Z.of_nat (length harts)) (setup_loop 0 config).

Definition boot (config : list ascii) (harts : list H) : SifivePLIC * list H :=
  (Initialise (new_SifivePLIC config), harts).

(** Whether the last event about [n] claimed it. *)
Definition outstanding (evs : list plic_event) (n : Z) : bool :=
  fold_left (fun b e => event_claims e n b) evs false.

Lemma trace_invariant config harts evs p hs :
  config_fits config harts -> plic_trace (boot config harts) evs (p, hs) ->
  plic_wf (length hs) p /\
  forall n, 0 <= n < 64 -> line_bit (interrupt_claimed_ p) n = outstanding evs n.
Proof.
  intros Hfit Ht. remember (boot config harts) as st0 eqn:E0. remember (p, hs) as st eqn:E.
  revert p hs E. induction Ht as [st | st1 evs st2 e st3 Ht IH Hs]; intros p hs E; subst.
  - injection E as <- <-. split; [apply Initialise_wf; assumption |].
    intros n Hn. unfold line_bit. simpl. destruct (Z.to_nat (n / 32)) as [| [| m]]; apply Z.testbit_0_l.
  - destruct st2 as [p2 hs2]. destruct (IH eq_refl p2 hs2 eq_refl) as [Hp2 Hc2].
    destruct (plic_step_facts p2 hs2 e p hs Hs Hp2) as [(Hw & Hb & _) [Hl _]]. split; [rewrite Hl; assumption |].
    intros n Hn. unfold outstanding. rewrite fold_left_app. simpl. rewrite Hb, Hc2 by lia. reflexivity.
Qed.

Lemma outstanding_app evs evs' n :
  outstanding evs n = true -> ~ Completed n ∈ evs' -> outstanding (evs ++ evs') n = true.
Proof.
  intros Ho. unfold outstanding in *. rewrite fold_left_app, Ho. clear Ho evs.
  induction evs' as [| e evs' IH]; intros Hn; [reflexivity |]. simpl.
  replace (event_claims e n true) with true; [apply IH; set_solver |].
  destruct e as [| m | m]; simpl; rewrite ?orb_true_r, ?andb_true_r; try reflexivity.
  destruct (Z.eqb_spec m n); [| reflexivity]. subst. exfalso. apply Hn. set_solver.
Qed.

(** C37. An interrupt is delivered to one claimer at a time: in
    any run of the controller, between two claims that return the same
    interrupt there is a completion of it; and a claim returns only
    interrupts that exist, are pending and are not claimed. *)
Theorem claims_are_exclusive config harts evs1 n evs2 st st' :
  config_fits config harts ->
  plic_trace (boot config harts) (evs1 ++ [Claimed n] ++ evs2) st ->
  plic_step st (Claimed n) st' ->
  Completed n ∈ evs2 /\ 0 < n < 64 /\ line_bit (interrupt_pending_ (fst st)) n = true.
Proof.
  intros Hfit Ht Hs. destruct st as [p hs], st' as [p' hs'].
  destruct (trace_invariant config harts _ p hs Hfit Ht) as [Hp Hc].
  destruct (plic_step_facts p hs _ p' hs' Hs Hp) as [(_ & _ & Hcl) _].
  destruct (Hcl n eq_refl) as (Hn & Hpend & Hfree). split; [| auto].
  destruct (decide (Completed n ∈ evs2)) as [| Hno]; [assumption | exfalso].
  rewrite Hc, app_assoc, outstanding_app in Hfree by
    (lia || assumption ||
     (unfold outstanding; rewrite fold_left_app; simpl; rewrite Z.eqb_refl; reflexivity)).
  discriminate.
Qed.

(** Hart [i] has something to take at interrupt [b]. *)
Definition claimable (p : SifivePLIC) (i b : Z) : Prop :=
  exists ctx n, ctx ∈ hart_config_ p /\ hart ctx = i /\ eip_bit (context ctx) = 2 ^ b /\
    0 <= n < 64 /\ line_bit (interrupt_pending_ p) n = true /\
    line_bit (interrupt_claimed_ p) n = false /\ line_bit (enable ctx) n = true.

Lemma external_pending_claimable p i b :
  b ∈ [8; 9; 11] -> external_pending p (hart_config_ p) i b = true <-> claimable p i b.
Proof.
  intros Hb. unfold external_pending, claimable. rewrite existsb_exists. split.
  - intros (ctx & Hin & E). rewrite !andb_true_iff, Z.eqb_eq, some_pending_true in E.
    destruct E as [[Ei (n & Hn & En)] Ebit]. exists ctx, n. unfold pending_for in En.
    rewrite !andb_true_iff, negb_true_iff in En.
    apply list_elem_of_In in Hin. split; [assumption |]. split; [assumption |]. split; [| tauto].
    revert Ebit. repeat (apply elem_of_cons in Hb as [-> | Hb];
      [unfold eip_bit; repeat case_goal; solve [reflexivity | discriminate] |]). inversion Hb.
  - intros (ctx & n & Hin & Ei & Ebit & Hn & E1 & E2 & E3). exists ctx. split; [apply list_elem_of_In; assumption |].
    rewrite !andb_true_iff, Z.eqb_eq, some_pending_true, Ebit. split; [split; [assumption |] |].
    + exists n. split; [assumption |]. unfold pending_for. rewrite E1, E2, E3. reflexivity.
    + apply Z.pow2_bits_true. repeat (apply elem_of_cons in Hb as [-> | Hb]; [lia |]). inversion Hb.
Qed.

Lemma external_bits_after p2 hs2 e p (hs : list H) i h b :
  plic_wf (length hs2) p2 -> plic_step (p2, hs2) e (p, hs) ->
  hs !! i = Some h -> b ∈ [8; 9; 11] ->
  Z.testbit (hart_mip h) b = true <-> claimable p (Z.of_nat i) b.
Proof.
  intros Hp2 Hs Hh Hb. rewrite <- external_pending_claimable by assumption.
  destruct (plic_step_facts p2 hs2 e p hs Hs Hp2) as [(Hw & _) [Hl Hu]].
  destruct (lookup_lt_is_Some_2 hs2 i) as [h2 Hh2]; [rewrite <- Hl; eapply lookup_lt_Some; eauto |].
  assert (Hbr : 0 <= b < 32 /\ Z.testbit 0xf00 b = true).
  { repeat (apply elem_of_cons in Hb as [-> | Hb]; [split; [lia | reflexivity] |]). inversion Hb. }
  rewrite (Hu i h2 h Hh2 Hh b (proj1 Hbr)), (proj2 Hbr). reflexivity.
Qed.

(** What a claim returns: it never throws; a non-zero answer is
    the lowest-numbered claimable line of the highest word that has one, so
    neither the priorities nor the threshold take part; zero means that
    nothing is claimable, unless line 0 itself is. *)
Theorem claim_selects config harts evs p hs ctx :
  config_fits config harts -> plic_trace (boot config harts) evs (p, hs) -> ctx ∈ hart_config_ p ->
  exists n p', ClaimInterrupt ctx p = Ok (n, p') /\
    (n = 0 -> pending_for p ctx 0 = true \/ forall m, 0 <= m < 64 -> pending_for p ctx m = false) /\
    (n <> 0 -> pending_for p ctx n = true /\ line_bit (interrupt_claimed_ p') n = true /\
       forall m, 0 <= m < 64 -> pending_for p ctx m = true ->
         m / 32 < n / 32 \/ (m / 32 = n / 32 /\ n <= m)).
Proof.
  intros Hfit Ht Hin. destruct (trace_invariant config harts evs p hs Hfit Ht) as [Hp _].
  assert (Hc : ctx_wf (length hs) ctx).
  { apply (Forall_forall _ (hart_config_ p)); [apply wf_contexts; assumption | assumption]. }
  destruct (ClaimInterrupt_spec _ p ctx Hp Hc) as (n & p' & E & Hcl).
  exists n, p'. split; [assumption |]. destruct Hcl as [(-> & -> & Hz) | (Hn & Hpend & Hsel & c & -> & _ & Hb)].
  - split; [| congruence]. intros _. destruct Hz as [Hz | Hz]; [auto | right].
    intros m Hm. apply not_true_iff_false. intros Em. apply not_true_iff_false in Hz. apply Hz.
    apply some_pending_true. eauto.
  - split; [lia |]. intros _. split; [assumption |]. split; [| assumption].
    simpl. rewrite Hb, Z.eqb_refl by lia. reflexivity.
Qed.

(** Raising or lowering one of the controller's lines
    never throws, whatever happened before. *)
Theorem line_ops_total config harts evs st line :
  config_fits config harts -> plic_trace (boot config harts) evs st -> 0 <= line < NumLines ->
  is_ok (AssertLine line st) = true /\ is_ok (RescindLine line st) = true.
Proof.
  intros Hfit Ht Hl. destruct st as [p hs]. unfold NumLines in Hl.
  destruct (trace_invariant config harts evs p hs Hfit Ht) as [Hp _].
  unfold AssertLine, RescindLine. pose proof (wf_pending _ p Hp) as Hw.
  destruct (set_line_spec _ line Hw ltac:(lia)) as (ws & -> & Hws & _).
  destruct (clear_line_spec _ line Hw ltac:(lia)) as (ws' & -> & Hws' & _). cbn [rbind].
  assert (Hp1 : plic_wf (length hs) (with_pending ws p)) by (destruct Hp; constructor; auto).
  assert (Hp2 : plic_wf (length hs) (with_pending ws' p)) by (destruct Hp; constructor; auto).
  destruct (UpdateIRQ_spec _ hs Hp1) as (? & -> & _), (UpdateIRQ_spec _ hs Hp2) as (? & -> & _).
  split; reflexivity.
Qed.
End Theorems.
