(* ===== verification/SifiveCLINT.v ===== *)
(** * The core-local interruptor

    archsim/src/abi/devices/riscv/SifiveCLINT.cpp: software interrupts and one
    timer per hart.  A timer keeps a pointer to its hart (an index into the
    shared list of harts) but finds the coprocessor through the hart's thread
    id.  The tick source is the counter of the system. *)

From stdpp Require Import base list numbers.
From Stdlib Require Import ZArith Lia Bool.
From S2P Require Import Prelude.
From S2P Require Import HartIRQ.

Record CLINTTimer := mkTimer {
  cmp_ : Z;
  timer_hart_ : Z     (* the hart pointer, as an index into Harts *)
}.

Record SifiveCLINT := mkCLINT {
  tick_counter_ : Z;  (* tick_source_->GetCounter() *)
  timers_ : list CLINTTimer
}.

Definition new_CLINTTimer (h : Z) : CLINTTimer := mkTimer (u64 (-1)) h.
Definition with_cmp (c : Z) (t : CLINTTimer) : CLINTTimer := mkTimer c (timer_hart_ t).
Definition with_timers (ts : list CLINTTimer) (c : SifiveCLINT) : SifiveCLINT :=
  mkCLINT (tick_counter_ c) ts.

Definition GetTimer (c : SifiveCLINT) : Z := u64 (tick_counter_ c * 1000).
Definition GetHartTimer (i : Z) (c : SifiveCLINT) : result CLINTTimer := at_ (timers_ c) i.

Section Clint.
Context {H : Type} `{HartIRQ H}.
Context (GetThreadID : H -> Z).

Definition CLINT_Initialise (harts : list H) (c : SifiveCLINT) : SifiveCLINT :=
  with_timers (timers_ c ++ map (fun i => new_CLINTTimer (Z.of_nat i)) (seq 0 (length harts))) c.

(** Applies an operation to the coprocessor of hart [i]. *)
Definition on_hart (i : Z) (f : H -> H) (harts : list H) : result (list H) :=
  let* h := at_ harts i in Ok (set_at harts i (f h)).

Definition CheckTick (t : CLINTTimer) (c : SifiveCLINT) (harts : list H) : result (list H) :=
  let* self := at_ harts (timer_hart_ t) in
  if cmp_ t <? GetTimer c then
    let* h := at_ harts (GetThreadID self) in
    if hart_mtie h then on_hart (GetThreadID self) (hart_pend (Z.shiftl 1 7)) harts else Ok harts
  else on_hart (GetThreadID self) (hart_unpend (Z.shiftl 1 7)) harts.

Definition Tick (tick_periods : Z) (t : CLINTTimer) (c : SifiveCLINT) (harts : list H)
  : result (list H) := CheckTick t c harts.

Definition SetCmp (i : Z) (cmp : Z) (st : SifiveCLINT * list H) : result (SifiveCLINT * list H) :=
  let '(c, harts) := st in
  let* t := GetHartTimer i c in
  let c1 := with_timers (set_at (timers_ c) i (with_cmp cmp t)) c in
  let* harts1 := CheckTick (with_cmp cmp t) c1 harts in
  Ok (c1, harts1).

Definition SetMSIP (i : Z) (P : bool) (harts : list H) : result (list H) :=
  on_hart i (if P then hart_pend (Z.shiftl 1 3) else hart_unpend (Z.shiftl 1 3)) harts.

Definition CLINT_Read (offset : Z) (c : SifiveCLINT) : result Z :=
  if (offset =? 0x0) || (offset =? 0x4) || (offset =? 0x8) || (offset =? 0xC) || (offset =? 0x10)
  then Ok 0
  else if offset =? 0x4000 then rmap cmp_ (GetHartTimer 0 c)
  else if offset =? 0x4008 then rmap cmp_ (GetHartTimer 1 c)
  else if offset =? 0xbff8 then Ok (GetTimer c)
  else Err NotImplemented.

Definition CLINT_Write (offset data : Z) (st : SifiveCLINT * list H)
  : result (SifiveCLINT * list H) :=
  let '(c, harts) := st in
  if offset =? 0x0 then
    let* hs := SetMSIP 0 (to_bool (Z.land data 1)) harts in Ok (c, hs)
  else if offset =? 0x4 then
    let* hs := SetMSIP 1 (to_bool (Z.land data 1)) harts in Ok (c, hs)
  else if (offset =? 0x8) || (offset =? 0xC) || (offset =? 0x10) then Ok (c, harts)
  else if offset =? 0x4000 then SetCmp 0 data (c, harts)
  else if offset =? 0x4008 then SetCmp 1 data (c, harts)
  else Err NotImplemented.

(** ** Facts *)

Lemma on_hart_Ok i f harts hs :
  on_hart i f harts = Ok hs ->
  exists h, harts !! Z.to_nat i = Some h /\ 0 <= i /\ length hs = length harts /\
    forall j, hs !! j = if decide (j = Z.to_nat i) then Some (f h) else harts !! j.
Proof.
  intros E. unfold on_hart in E. bind_inv E. apply Ok_inj in E as <-. apply at_Ok in E0 as [Hi Hh].
  exists v. split; [assumption |]. split; [assumption |]. split; [apply length_insert |].
  intros j. unfold set_at. case_decide; subst.
  - apply list_lookup_insert_eq. eapply lookup_lt_Some; eauto.
  - apply list_lookup_insert_ne; congruence.
Qed.

Lemma shiftl1_bit n i : 0 <= n -> Z.testbit (Z.shiftl 1 n) i = (i =? n).
Proof.
  intros. change 1 with (Z.b2z true). rewrite testbit_b2z_shiftl by lia. apply andb_true_r.
Qed.

(** Interrupt [k] of hart [i] becomes [v]; nothing else changes. *)
Definition sets_bit (i k : Z) (v : bool) (harts hs : list H) : Prop :=
  length hs = length harts /\
  forall j h h', harts !! j = Some h -> hs !! j = Some h' -> forall b,
    Z.testbit (hart_mip h') b
    = if (Z.of_nat j =? i) && (b =? k) then v else Z.testbit (hart_mip h) b.

Lemma on_hart_pend i k harts hs :
  0 <= k -> hart_implements (H := H) k = true ->
  on_hart i (hart_pend (Z.shiftl 1 k)) harts = Ok hs -> sets_bit i k true harts hs.
Proof.
  intros Hk Himp E. apply on_hart_Ok in E as (h0 & Hh0 & Hi & Hl & Hj). split; [assumption |].
  intros j h h' Eh Eh' b. rewrite Hj in Eh'. case_decide; subst.
  - assert (h0 = h) by congruence. subst h0. injection Eh' as <-.
    rewrite hart_mip_pend, shiftl1_bit, Z2Nat.id, Z.eqb_refl by lia. cbn [andb].
    destruct (Z.eqb_spec b k) as [-> |]; [rewrite Himp, orb_true_r | rewrite andb_false_r, orb_false_r]; reflexivity.
  - assert (h' = h) by congruence. subst h'.
    replace (Z.of_nat j =? i) with false by (symmetry; apply Z.eqb_neq; lia). reflexivity.
Qed.

Lemma on_hart_unpend i k harts hs :
  0 <= k -> on_hart i (hart_unpend (Z.shiftl 1 k)) harts = Ok hs -> sets_bit i k false harts hs.
Proof.
  intros Hk E. apply on_hart_Ok in E as (h0 & Hh0 & Hi & Hl & Hj). split; [assumption |].
  intros j h h' Eh Eh' b. rewrite Hj in Eh'. case_decide; subst.
  - assert (h0 = h) by congruence. subst h0. injection Eh' as <-.
    rewrite hart_mip_unpend, shiftl1_bit, Z2Nat.id, Z.eqb_refl by lia. cbn [andb].
    destruct (b =? k); [apply andb_false_r | apply andb_true_r].
  - assert (h' = h) by congruence. subst h'.
    replace (Z.of_nat j =? i) with false by (symmetry; apply Z.eqb_neq; lia). reflexivity.
Qed.

(** ** Theorems *)

(** A timer check sets bit 7 of its hart's MIP to "the time has
    passed the comparand, and the bit was set already or the timer interrupt
    is enabled", and changes no other bit of any hart. *)
Theorem CheckTick_drives_mtip t c harts hs self h :
  at_ harts (timer_hart_ t) = Ok self -> at_ harts (GetThreadID self) = Ok h ->
  CheckTick t c harts = Ok hs ->
  sets_bit (GetThreadID self) 7
    ((cmp_ t <? GetTimer c) && (Z.testbit (hart_mip h) 7 || hart_mtie h)) harts hs.
Proof.
  intros Eself Eh E. unfold CheckTick in E. rewrite Eself in E. cbn [rbind] in E.
  destruct (cmp_ t <? GetTimer c); cbn [andb].
  - rewrite Eh in E. cbn [rbind] in E. destruct (hart_mtie h).
    + rewrite orb_true_r. apply on_hart_pend; [lia | apply implements_standard; rewrite !elem_of_cons; tauto | assumption].
    + rewrite orb_false_r. apply Ok_inj in E as <-. split; [reflexivity |].
      intros j h1 h' E1 E2 b. assert (h' = h1) by congruence. subst h'.
      destruct (Z.eqb_spec (Z.of_nat j) (GetThreadID self)) as [Ej |]; [| reflexivity].
      destruct (Z.eqb_spec b 7) as [-> |]; [| reflexivity]. cbn [andb].
      apply at_Ok in Eh as [_ Eh]. rewrite <- Ej, Nat2Z.id in Eh. congruence.
  - apply on_hart_unpend; [lia | assumption].
Qed.

(** A successful write to mtimecmp of hart 0 or 1
    reads back, leaves the other timers alone, and a successful write to MSIP
    of hart 0 or 1 sets that hart's software interrupt to bit 0 of the data
    and nothing else. *)
Theorem clint_write_read offset data c harts c' hs :
  CLINT_Write offset data (c, harts) = Ok (c', hs) ->
  (forall i, (i = 0 /\ offset = 0x4000) \/ (i = 1 /\ offset = 0x4008) ->
     CLINT_Read offset c' = Ok data /\
     forall j, j <> Z.to_nat i -> timers_ c' !! j = timers_ c !! j) /\
  (forall i, (i = 0 /\ offset = 0x0) \/ (i = 1 /\ offset = 0x4) ->
     c' = c /\ sets_bit i 3 (Z.testbit data 0) harts hs).
Proof.
  intros E.
  assert (Hcmp : forall i, 0 <= i -> SetCmp i data (c, harts) = Ok (c', hs) ->
    rmap cmp_ (GetHartTimer i c') = Ok data /\
    forall j, j <> Z.to_nat i -> timers_ c' !! j = timers_ c !! j).
  { intros i Hi Ei. unfold SetCmp in Ei. bind_inv Ei. apply Ok_inj in Ei. injection Ei as <- <-.
    apply at_Ok in E0 as [_ E0]. split.
    - unfold GetHartTimer. cbn [timers_ with_timers].
      rewrite at_set_at by (apply lookup_lt_Some in E0; lia). rewrite Z.eqb_refl. reflexivity.
    - intros j Hj. apply list_lookup_insert_ne. congruence. }
  assert (Hsip : forall i, (let* hs := SetMSIP i (to_bool (Z.land data 1)) harts in Ok (c, hs)) = Ok (c', hs) ->
    c' = c /\ sets_bit i 3 (Z.testbit data 0) harts hs).
  { intros i Ei. bind_inv Ei. apply Ok_inj in Ei. injection Ei as <- <-. split; [reflexivity |].
    replace (Z.testbit data 0) with (to_bool (Z.land data 1))
      by (rewrite <- to_bool_BITSEL; unfold BITSEL; rewrite Z.shiftr_0_r; reflexivity).
    unfold SetMSIP in E0. destruct (to_bool _).
    - apply on_hart_pend; [lia | apply implements_standard; rewrite !elem_of_cons; tauto | assumption].
    - apply on_hart_unpend; [lia | assumption]. }
  split; intros i [[-> ->] | [-> ->]].
  - exact (Hcmp 0 ltac:(lia) E).
  - exact (Hcmp 1 ltac:(lia) E).
  - exact (Hsip 0 E).
  - exact (Hsip 1 E).
Qed.
End Clint.
