(* ===== verification/SifiveUART.v ===== *)
(** * The UART

    archsim/src/abi/devices/riscv/SifiveUART.cpp.  The interrupt line is the
    one of the controller the device is wired to; the model keeps its level and
    the [Assert]/[Rescind] calls made on it, oldest first.  Characters are
    bytes; [char] is signed on the hosts ArchSim runs on (x86-64). *)

From stdpp Require Import base list numbers relations.
From Stdlib Require Import ZArith Lia Bool.
From S2P Require Import Prelude.

Inductive line_call := CallAssert | CallRescind.

Record SifiveUART := mkUART {
  txctrl_ : Z; rxctrl_ : Z; ie_ : Z; div_ : Z; ip_ : Z;
  rx_fifo_ : list Z;
  has_serial_ : bool;              (* GetSerialPort() != nullptr *)
  serial_out_ : list Z;            (* characters written to the port *)
  IRQLine_asserted : bool;
  IRQLine_calls : list line_call
}.

Definition with_ctrl (tx rx ie div : Z) (u : SifiveUART) : SifiveUART :=
  mkUART tx rx ie div (ip_ u) (rx_fifo_ u) (has_serial_ u) (serial_out_ u)
    (IRQLine_asserted u) (IRQLine_calls u).
Definition with_fifo (q : list Z) (u : SifiveUART) : SifiveUART :=
  mkUART (txctrl_ u) (rxctrl_ u) (ie_ u) (div_ u) (ip_ u) q (has_serial_ u) (serial_out_ u)
    (IRQLine_asserted u) (IRQLine_calls u).
Definition with_out (o : list Z) (u : SifiveUART) : SifiveUART :=
  mkUART (txctrl_ u) (rxctrl_ u) (ie_ u) (div_ u) (ip_ u) (rx_fifo_ u) (has_serial_ u) o
    (IRQLine_asserted u) (IRQLine_calls u).
Definition with_irq (ip : Z) (a : bool) (calls : list line_call) (u : SifiveUART) : SifiveUART :=
  mkUART (txctrl_ u) (rxctrl_ u) (ie_ u) (div_ u) ip (rx_fifo_ u) (has_serial_ u) (serial_out_ u)
    a calls.

Definition UART_Initialise (u : SifiveUART) : SifiveUART :=
  mkUART 0 0 0 0 0 (rx_fifo_ u) (has_serial_ u) (serial_out_ u) (IRQLine_asserted u) (IRQLine_calls u).

Definition new_UART (serial : bool) : SifiveUART :=
  UART_Initialise (mkUART 0 0 0 0 0 [] serial [] false []).

Definition UART_ip (u : SifiveUART) : Z :=
  let txcnt := Z.land (Z.shiftr (txctrl_ u) 16) 3 in
  let ip := if 0 <? txcnt then Z.lor 0 (Z.shiftl 1 0) else 0 in
  let rxcnt := Z.land (Z.shiftr (rxctrl_ u) 16) 3 in
  if rxcnt <? Z.of_nat (length (rx_fifo_ u)) then Z.lor ip (Z.shiftl 1 1) else ip.

Definition UART_UpdateIRQ (u : SifiveUART) : SifiveUART :=
  let ip := UART_ip u in
  if to_bool (Z.land ip (ie_ u)) then
    if negb (IRQLine_asserted u)
    then with_irq ip true (IRQLine_calls u ++ [CallAssert]) u
    else with_irq ip (IRQLine_asserted u) (IRQLine_calls u) u
  else
    if IRQLine_asserted u
    then with_irq ip false (IRQLine_calls u ++ [CallRescind]) u
    else with_irq ip (IRQLine_asserted u) (IRQLine_calls u) u.

Definition EnqueueChar (c : Z) (u : SifiveUART) : SifiveUART :=
  UART_UpdateIRQ (with_fifo (rx_fifo_ u ++ [c]) u).

Definition ReadRXFifo (u : SifiveUART) : Z * SifiveUART :=
  match rx_fifo_ u with
  | c :: q => (u32 (sext 8 c), UART_UpdateIRQ (with_fifo q u))
  | [] => (0x80000000, UART_UpdateIRQ u)
  end.

Definition UART_Read (offset : Z) (u : SifiveUART) : result (Z * SifiveUART) :=
  let offset := Z.land offset 0xff in
  if offset =? 0x00 then Ok (0, u)
  else if offset =? 0x04 then let '(d, u1) := ReadRXFifo u in Ok (d, UART_UpdateIRQ u1)
  else if offset =? 0x08 then Ok (txctrl_ u, u)
  else if offset =? 0x0c then Ok (rxctrl_ u, u)
  else if offset =? 0x10 then Ok (ie_ u, u)
  else if offset =? 0x14 then Ok (ip_ u, u)
  else if offset =? 0x18 then Ok (div_ u, u)
  else Err NotExpected.

Definition UART_Write (offset data : Z) (u : SifiveUART) : result SifiveUART :=
  let offset := Z.land offset 0xff in
  let* u1 :=
    if offset =? 0x00 then
      check* has_serial_ u or UndefinedBehaviour in Ok (with_out (serial_out_ u ++ [u8 data]) u)
    else if offset =? 0x04 then Ok u
    else if offset =? 0x08 then Ok (with_ctrl (u32 data) (rxctrl_ u) (ie_ u) (div_ u) u)
    else if offset =? 0x0c then Ok (with_ctrl (txctrl_ u) (u32 data) (ie_ u) (div_ u) u)
    else if offset =? 0x10 then Ok (with_ctrl (txctrl_ u) (rxctrl_ u) (u32 data) (div_ u) u)
    else if offset =? 0x14 then Err NotImplemented
    else if offset =? 0x18 then Ok (with_ctrl (txctrl_ u) (rxctrl_ u) (ie_ u) (u32 data) u)
    else Err NotExpected in
  Ok (UART_UpdateIRQ u1).

(** ** The interrupt line follows the registers *)

Inductive uart_step : SifiveUART -> SifiveUART -> Prop :=
| uart_rx c u : uart_step u (EnqueueChar c u)
| uart_read offset u d u' : UART_Read offset u = Ok (d, u') -> uart_step u u'
| uart_write offset data u u' : UART_Write offset data u = Ok u' -> uart_step u u'.

(** The calls alternate, starting with [Assert]; [b] is the level they leave. *)
Fixpoint alternating (b : bool) (calls : list line_call) : bool :=
  match calls with
  | [] => true
  | CallAssert :: r => negb b && alternating true r
  | CallRescind :: r => b && alternating false r
  end.

Definition last_level (calls : list line_call) : bool :=
  fold_left (fun _ c => match c with CallAssert => true | CallRescind => false end) calls false.

Record uart_inv (u : SifiveUART) : Prop := {
  uart_level : IRQLine_asserted u = to_bool (Z.land (ip_ u) (ie_ u));
  uart_alternating : alternating false (IRQLine_calls u) = true;
  uart_last : last_level (IRQLine_calls u) = IRQLine_asserted u
}.

Lemma alternating_app b calls c :
  alternating b (calls ++ [c]) =
  alternating b calls &&
  match c with
  | CallAssert => negb (fold_left (fun _ c => match c with CallAssert => true | CallRescind => false end) calls b)
  | CallRescind => fold_left (fun _ c => match c with CallAssert => true | CallRescind => false end) calls b
  end.
Proof.
  revert b. induction calls as [| x calls IH]; intros b; [destruct c, b; reflexivity |].
  destruct x; simpl; rewrite IH, andb_assoc; reflexivity.
Qed.

(** [UpdateIRQ] makes the level right, whatever the registers hold. *)
Lemma UpdateIRQ_inv u :
  alternating false (IRQLine_calls u) = true -> last_level (IRQLine_calls u) = IRQLine_asserted u ->
  uart_inv (UART_UpdateIRQ u).
Proof.
  intros Ha Hl. unfold UART_UpdateIRQ.
  destruct (to_bool (Z.land (UART_ip u) (ie_ u))) eqn:E; destruct (IRQLine_asserted u) eqn:El; cbn [negb];
    split; cbn; auto;
    try (rewrite alternating_app, Ha; unfold last_level in Hl; rewrite Hl; reflexivity);
    try (unfold last_level; rewrite fold_left_app; reflexivity).
Qed.

Lemma uart_step_inv u u' : uart_step u u' -> uart_inv u -> uart_inv u'.
Proof.
  intros Hs [Hi Ha Hl]. destruct Hs as [c u | offset u d u' E | offset data u u' E].
  - apply UpdateIRQ_inv; assumption.
  - unfold UART_Read in E.
    destruct (ReadRXFifo u) as [d1 u1] eqn:Er.
    assert (Hr : uart_inv u1).
    { unfold ReadRXFifo in Er. destruct (rx_fifo_ u); injection Er as <- <-; apply UpdateIRQ_inv; assumption. }
    repeat match type of E with (if ?b then _ else _) = _ => destruct b end;
      try discriminate E; apply Ok_inj in E; injection E as _ <-; try (split; assumption).
    apply UpdateIRQ_inv; apply Hr.
  - unfold UART_Write in E. bind_inv E. apply Ok_inj in E as <-.
    repeat match type of E0 with (if ?b then _ else _) = _ => destruct b end;
      try discriminate E0; apply Ok_inj in E0 as <-; apply UpdateIRQ_inv; assumption.
Qed.

(** In every reachable state of the UART its interrupt
    line is asserted exactly when an enabled interrupt is pending in [ip_],
    and the line only ever sees alternating [Assert] and [Rescind] calls. *)
Theorem uart_line_follows serial u :
  rtc uart_step (new_UART serial) u ->
  IRQLine_asserted u = to_bool (Z.land (ip_ u) (ie_ u)) /\
  alternating false (IRQLine_calls u) = true /\
  last_level (IRQLine_calls u) = IRQLine_asserted u.
Proof.
  intros H. assert (Hi : uart_inv u).
  { revert u H. apply rtc_ind_r; [split; auto |]. intros; eapply uart_step_inv; eauto. }
  destruct Hi. auto.
Qed.

Lemma uart_line_follows_witness :
  exists u, IRQLine_asserted u = true /\ IRQLine_calls u = [CallAssert] /\
    to_bool (Z.land (ip_ u) (ie_ u)) = true.
Proof.
  set (u1 := UART_UpdateIRQ (with_ctrl 0 0 2 0 (new_UART true))).
  destruct (uart_line_follows true (EnqueueChar 65 u1)) as (H1 & H2 & H3).
  { eapply rtc_l; [apply (uart_write 0x10 2); reflexivity | apply rtc_once, uart_rx]. }
  exists (EnqueueChar 65 u1). split; [reflexivity |]. split; [reflexivity |]. rewrite <- H1. reflexivity.
Defined.

(** A received byte reads back from the FIFO in order, with
    bit 31 of the register clear, exactly when it is below 0x80: a byte with
    its top bit set is sign-extended, so the register also reports "empty". *)
Theorem uart_rx_reads_back c q u :
  in_range 8 c -> rx_fifo_ u = c :: q ->
  exists d u', UART_Read 4 u = Ok (d, u') /\ rx_fifo_ u' = q /\ Z.land d 0xff = c /\
    (Z.testbit d 31 = true <-> 0x80 <= c) /\ (c < 0x80 -> d = c).
Proof.
  intros Hc Hq. unfold UART_Read, ReadRXFifo. rewrite Hq. cbn [Z.land Z.eqb Pos.land Pos.eqb].
  eexists _, _. split; [reflexivity |].
  assert (Hfifo : forall v, rx_fifo_ (UART_UpdateIRQ v) = rx_fifo_ v).
  { intros v. unfold UART_UpdateIRQ. repeat case_goal; reflexivity. }
  rewrite !Hfifo. split; [reflexivity |].
  assert (Hv : u32 (sext 8 c) = if c <? 128 then c else c + (2 ^ 32 - 2 ^ 8)).
  { unfold sext. rewrite (wrap_small 8) by assumption. change (2 ^ (8 - 1)) with 128.
    unfold in_range in Hc. destruct (Z.ltb_spec c 128).
    - apply wrap_small. unfold in_range. lia.
    - unfold u32, wrap. symmetry. apply (Z.mod_unique (c - 2 ^ 8) (2 ^ 32) (-1)); lia. }
  rewrite Hv. change 0xff with (Z.ones 8). rewrite Z.land_ones, Z.testbit_odd, Z.shiftr_div_pow2 by lia.
  unfold in_range in Hc. destruct (Z.ltb_spec c 128).
  - rewrite Z.mod_small, (Z.div_small c (2 ^ 31)) by lia. repeat split; auto; try discriminate; lia.
  - replace (c + (2 ^ 32 - 2 ^ 8)) with (c + 16777215 * 2 ^ 8) at 1 by lia.
    rewrite Z.mod_add, Z.mod_small by lia.
    replace ((c + (2 ^ 32 - 2 ^ 8)) / 2 ^ 31) with 1
      by (apply (Z.div_unique _ _ 1 (c + (2 ^ 32 - 2 ^ 8) - 2 ^ 31)); lia).
    repeat split; auto; lia.
Qed.

Lemma uart_rx_reads_back_witness :
  exists d u', UART_Read 4 (EnqueueChar 0xe9 (new_UART true)) = Ok (d, u') /\ Z.testbit d 31 = true.
Proof.
  destruct (uart_rx_reads_back 0xe9 [] (EnqueueChar 0xe9 (new_UART true))) as (d & u' & H1 & _ & _ & H2 & _);
    [split; [discriminate | reflexivity] | reflexivity |].
  exists d, u'. split; [exact H1 |]. apply H2. lia.
Defined.
