(* ===== verification/Platform.v ===== *)
(** * The RISC-V interrupt path, end to end

    The controllers of [SifivePLIC] and [SifiveCLINT] instantiated with the
    coprocessors of [RiscvCSR] as harts: from a device line to the interrupt
    lines of the simulated threads.  A platform step is an operation of the
    PLIC or something that happens to one hart (register writes by the guest,
    bits raised by the CLINT, acknowledged lines). *)

From stdpp Require Import base list numbers relations.
From Stdlib Require Import ZArith Lia Bool Ascii.
From S2P Require Import Prelude.
From S2P Require Import Thread.
From S2P Require Import HartIRQ.
From S2P Require Import RiscvMMU.
From S2P Require Import RiscvCSR.
From S2P Require Import SifivePLIC.
From S2P Require Import SifiveCLINT.

Definition platform : Type := SifivePLIC * list RiscVSystemCoprocessor.

Inductive platform_step : platform -> platform -> Prop :=
| pf_plic st e st' : plic_step st e st' -> platform_step st st'
| pf_hart p hs i c c' :
    hs !! i = Some c -> coproc_step c c' -> platform_step (p, hs) (p, <[i := c']> hs).

Definition fresh_hart (c : RiscVSystemCoprocessor) : Prop :=
  exists id mmu counter, c = new_RiscVSystemCoprocessor (new_thread id) mmu counter.

Definition platform_inv (st : platform) : Prop :=
  plic_wf (length (snd st)) (fst st) /\ Forall coproc_inv (snd st).

Lemma UpdateHart_inv c eip : coproc_inv c -> coproc_inv (UpdateHart c eip).
Proof.
  intros Hc. unfold UpdateHart. cbn [hart_mip hart_pend hart_unpend coproc_hart].
  repeat case_goal; auto using MachinePendInterrupt_inv, MachineUnpendInterrupt_inv.
Qed.

Lemma zip_UpdateHart_inv hs eips :
  Forall coproc_inv hs -> Forall coproc_inv (zip_with UpdateHart hs eips).
Proof.
  intros Hf. revert eips. induction Hf as [| c hs Hc Hf IH]; intros [| e eips]; constructor;
    auto using UpdateHart_inv.
Qed.

Lemma UpdateIRQ_harts p hs hs' :
  UpdateIRQ p hs = Ok hs' -> Forall coproc_inv hs -> Forall coproc_inv hs'.
Proof.
  intros E. unfold UpdateIRQ in E. bind_inv E. apply Ok_inj in E as <-. apply zip_UpdateHart_inv.
Qed.

Lemma plic_step_harts p hs e p' hs' :
  plic_step (p, hs) e (p', hs') -> Forall coproc_inv hs -> Forall coproc_inv hs'.
Proof.
  intros Hs Hf. inversion Hs as [o s st d st' _ E | o s d st st' _ E | l st st' _ E | l st st' _ E]; subst;
    [unfold Read in E | unfold Write in E | unfold AssertLine in E | unfold RescindLine in E];
    bind_inv E; try (destruct v as [? ?]; bind_inv E); apply Ok_inj in E; injection E; intros; subst;
    eapply UpdateIRQ_harts; eassumption.
Qed.

Lemma platform_step_inv st st' : platform_step st st' -> platform_inv st -> platform_inv st'.
Proof.
  intros [[p hs] e [p' hs'] Hs | p hs i c c' Hi Hs] [Hw Hf]; unfold platform_inv; cbn [fst snd] in *.
  - destruct (plic_step_facts p hs e p' hs' Hs Hw) as [(Hw' & _) [Hl _]].
    rewrite Hl. split; [assumption | eapply plic_step_harts; eauto].
  - rewrite length_insert. split; [assumption |]. apply Forall_insert; [assumption |].
    eapply coproc_step_inv; [eassumption |]. eapply Forall_lookup_1; eauto.
Qed.

Lemma platform_reachable_inv config harts st :
  config_fits config harts -> Forall fresh_hart harts ->
  rtc platform_step (boot config harts) st -> platform_inv st.
Proof.
  intros Hfit Hfresh H. revert st H. apply rtc_ind_r.
  - split; [apply Initialise_wf; assumption |]. eapply Forall_impl; [exact Hfresh |].
    intros c (id & mmu & counter & ->). apply new_coproc_inv.
  - intros; eapply platform_step_inv; eauto.
Qed.

(** C4. From a device line to the CPU: after any operation of
    the PLIC, in any reachable state of the platform, interrupt line [b] (8, 9
    or 11) of the thread behind hart [i] is asserted if and only if the hart
    enables interrupt [b] in [mie] and some context of that hart and mode has
    a line that is pending, unclaimed and enabled in the PLIC. *)
Theorem external_interrupt_reaches_cpu config harts st e p hs i c b :
  config_fits config harts -> Forall fresh_hart harts ->
  rtc platform_step (boot config harts) st -> plic_step st e (p, hs) ->
  hs !! i = Some c -> b ∈ [8; 9; 11] ->
  asserted (hart_ c) (Z.to_nat b) = true <->
  ie_flag (IE c) b = true /\ claimable p (Z.of_nat i) b.
Proof.
  intros Hfit Hfresh Hr Hs Hc Hb. destruct st as [p2 hs2].
  destruct (platform_reachable_inv _ _ _ Hfit Hfresh Hr) as [Hw Hf]. cbn [fst snd] in *.
  pose proof (plic_step_harts _ _ _ _ _ Hs Hf) as Hf'.
  pose proof (Forall_lookup_1 _ _ _ _ Hf' Hc) as Hi.
  rewrite <- (external_bits_after p2 hs2 e p hs i c b Hw Hs Hc Hb).
  change (hart_mip c) with (IP_ReadMIP (IP c)).
  assert (Hb0 : 0 <= b) by (repeat (apply elem_of_cons in Hb as [-> | Hb]; [lia |]); inversion Hb).
  rewrite (inv_lines c Hi), (inv_pending c Hi), Z2Nat.id, Z.land_spec, testbit_ReadMIE by lia.
  rewrite andb_true_iff. tauto.
Qed.

(** ** A machine with one hart *)

Definition hart0 : RiscVSystemCoprocessor :=
  new_RiscVSystemCoprocessor (new_thread 0) (mkMMU NoTxln 0 0) 0.
Definition hart0_enabled : RiscVSystemCoprocessor :=
  CheckForInterrupts (with_IE (IE_WriteMIE 0x888 (IE hart0)) hart0).
Definition config0 : list ascii := ["M"%char; "S"%char].

Definition run_result {A} (d : A) (m : result A) : A := match m with Ok a => a | Err _ => d end.

(** The PLIC after enabling line 3 for the machine context and raising it. *)
Definition st1 : platform := run_result (boot config0 [hart0]) (Write 0x2000 4 8 (boot config0 [hart0_enabled])).
Definition st2 : platform := run_result st1 (AssertLine 3 st1).

Lemma config0_fits : config_fits config0 [hart0].
Proof. repeat constructor. Qed.

Lemma external_interrupt_reaches_cpu_witness :
  exists c, snd st2 !! 0%nat = Some c /\ asserted (hart_ c) 11 = true.
Proof.
  destruct (lookup_lt_is_Some_2 (snd st2) 0) as [c Hc]; [vm_compute; lia |].
  exists c. split; [exact Hc |].
  apply (external_interrupt_reaches_cpu config0 [hart0] st1 Silent (fst st2) (snd st2) 0 c 11).
  - apply config0_fits.
  - repeat constructor. exists 0, (mkMMU NoTxln 0 0), 0. reflexivity.
  - eapply rtc_l.
    { apply (pf_hart _ _ 0 hart0 hart0_enabled); [reflexivity | apply (RiscvCSR.step_write 0x304 0x888); reflexivity]. }
    apply rtc_once. eapply (pf_plic _ (write_event 0x2000 8)).
    apply (SifivePLIC.step_write 0x2000 4 8); [split; vm_compute; [discriminate | reflexivity] | vm_compute; reflexivity].
  - apply (step_assert 3); [lia | vm_compute; reflexivity].
  - exact Hc.
  - rewrite !elem_of_cons. tauto.
  - split; [vm_compute in Hc |- *; injection Hc as <-; reflexivity |].
    exists (mkCtx 0 "M"%char 0 [8; 0] false), 3.
    split; [apply list_elem_of_In; vm_compute; auto |]. repeat split; vm_compute; congruence.
Defined.

(** ** Witnesses for the controllers' theorems *)

Lemma trace_st2 : plic_trace (boot config0 [hart0_enabled]) ([Silent] ++ [Silent]) st2.
Proof.
  apply (trace_snoc _ [Silent] st1); [apply (trace_snoc _ [] (boot config0 [hart0_enabled])) |].
  - apply trace_nil.
  - apply (SifivePLIC.step_write 0x2000 4 8);
      [split; vm_compute; [discriminate | reflexivity] | vm_compute; reflexivity].
  - apply (step_assert 3); [lia | vm_compute; reflexivity].
Qed.

(** The machine context claims line 3, completes it and claims it again. *)
Definition st3 : platform := run_result st2 (rmap snd (Read 0x200004 4 st2)).
Definition st4 : platform := run_result st3 (Write 0x200004 4 3 st3).
Definition st5 : platform := run_result st4 (rmap snd (Read 0x200004 4 st4)).

Lemma claims_are_exclusive_witness :
  Completed 3 ∈ [Completed 3] /\ line_bit (interrupt_pending_ (fst st4)) 3 = true.
Proof.
  destruct (claims_are_exclusive config0 [hart0_enabled] ([Silent] ++ [Silent]) 3 [Completed 3] st4 st5)
    as (H1 & _ & H3).
  - repeat constructor.
  - rewrite app_assoc. eapply trace_snoc; [eapply trace_snoc; [exact trace_st2 |] |].
    + apply (step_read 0x200004 4 st2 3 st3);
        [split; vm_compute; [discriminate | reflexivity] | vm_compute; reflexivity].
    + apply (SifivePLIC.step_write 0x200004 4 3);
        [split; vm_compute; [discriminate | reflexivity] | vm_compute; reflexivity].
  - apply (step_read 0x200004 4 st4 3 st5);
      [split; vm_compute; [discriminate | reflexivity] | vm_compute; reflexivity].
  - split; assumption.
Defined.

Lemma claim_selects_witness :
  exists n p', ClaimInterrupt (mkCtx 0 "M"%char 0 [8; 0] false) (fst st2) = Ok (n, p') /\ n = 3.
Proof.
  destruct (claim_selects config0 [hart0_enabled] ([Silent] ++ [Silent]) (fst st2) (snd st2)
              (mkCtx 0 "M"%char 0 [8; 0] false)) as (n & p' & H & _ & _).
  - repeat constructor.
  - exact trace_st2.
  - apply list_elem_of_In; vm_compute; auto.
  - exists n, p'. split; [exact H |]. vm_compute in H. congruence.
Defined.

Lemma line_ops_total_witness : is_ok (AssertLine 53 st2) = true.
Proof.
  apply (line_ops_total config0 [hart0_enabled] ([Silent] ++ [Silent]) st2 53);
    [repeat constructor | exact trace_st2 | vm_compute; split; congruence].
Defined.

(** The CLINT of a one-hart machine whose time has reached 5000. *)
Definition clint0 : SifiveCLINT := CLINT_Initialise [hart0_enabled] (mkCLINT 5 []).
Definition thread_id (c : RiscVSystemCoprocessor) : Z := thread_id_ (hart_ c).

Lemma CheckTick_drives_mtip_witness :
  exists hs : list RiscVSystemCoprocessor, CheckTick thread_id (mkTimer 4999 0) clint0 [hart0_enabled] = Ok hs /\
    forall h, hs !! 0%nat = Some h -> Z.testbit (ReadMIP h) 7 = true.
Proof.
  destruct (CheckTick thread_id (mkTimer 4999 0) clint0 [hart0_enabled]) as [hs | e] eqn:E;
    [| vm_compute in E; discriminate E].
  exists hs. split; [reflexivity |]. intros h Hh.
  destruct (CheckTick_drives_mtip thread_id (mkTimer 4999 0) clint0 [hart0_enabled] hs
              hart0_enabled hart0_enabled eq_refl eq_refl E) as [_ H].
  change (ReadMIP h) with (hart_mip h). rewrite (H 0%nat _ h eq_refl Hh 7). vm_compute. reflexivity.
Defined.

Lemma clint_write_read_witness :
  exists c hs, CLINT_Write thread_id 0x4000 77 (clint0, [hart0_enabled]) = Ok (c, hs) /\
    CLINT_Read 0x4000 c = Ok 77.
Proof.
  destruct (CLINT_Write thread_id 0x4000 77 (clint0, [hart0_enabled])) as [[c hs] | e] eqn:E;
    [| vm_compute in E; discriminate E].
  exists c, hs. split; [reflexivity |].
  destruct (clint_write_read thread_id 0x4000 77 clint0 [hart0_enabled] c hs E) as [H _].
  apply (H 0). auto.
Defined.
