(* ===== verification/BlockIR.v ===== *)
(** * The BlockJIT intermediate representation

    archsim/inc/blockjit/IROperand.h, IRInstruction.h, ir.h,
    translation-context.h and archsim/src/blockjit/translation-context.cpp:
    operands, instruction types and their descriptors, the instruction
    constructors with their assertions ([Build]), and the buffer of
    instructions a block is translated into ([TranslationContext]). *)

From stdpp Require Import base list numbers.
From Stdlib Require Import ZArith Lia Bool Ascii String.
From S2P Require Import Prelude.
#[local] Open Scope Z_scope.
#[local] Open Scope list_scope.

(** ** Operands *)

Inductive IROperandType := NONE | CONSTANT | VREG | BLOCK | FUNC | PC.
Inductive IRAllocationMode := NOT_ALLOCATED | ALLOCATED_REG | ALLOCATED_STACK.

#[export] Instance IROperandType_eq_dec : EqDecision IROperandType.
Proof. solve_decision. Defined.
#[export] Instance IRAllocationMode_eq_dec : EqDecision IRAllocationMode.
Proof. solve_decision. Defined.

Record IROperand := mkOperand {
  value : Z;                       (* uint64_t *)
  alloc_data : Z;                  (* 14 bits *)
  alloc_mode : IRAllocationMode;
  op_type : IROperandType;
  size : Z                         (* bytes, uint8_t *)
}.

#[export] Instance IROperand_eq_dec : EqDecision IROperand.
Proof. solve_decision. Defined.

Definition new_operand (ty : IROperandType) (v sz : Z) : IROperand := mkOperand v 0 NOT_ALLOCATED ty sz.

Definition is_allocated (o : IROperand) : bool := bool_decide (alloc_mode o <> NOT_ALLOCATED).
Definition is_alloc_reg (o : IROperand) : bool := bool_decide (alloc_mode o = ALLOCATED_REG).
Definition is_alloc_stack (o : IROperand) : bool := bool_decide (alloc_mode o = ALLOCATED_STACK).
Definition allocate (mode : IRAllocationMode) (data : Z) (o : IROperand) : IROperand :=
  mkOperand (value o) (wrap 14 data) mode (op_type o) (size o).
Definition is_valid (o : IROperand) : bool := bool_decide (op_type o <> NONE).
Definition is_constant (o : IROperand) : bool := bool_decide (op_type o = CONSTANT).
Definition is_vreg (o : IROperand) : bool := bool_decide (op_type o = VREG).
Definition is_block (o : IROperand) : bool := bool_decide (op_type o = BLOCK).
Definition is_func (o : IROperand) : bool := bool_decide (op_type o = FUNC).
Definition is_pc (o : IROperand) : bool := bool_decide (op_type o = PC).

Definition constant (v sz : Z) : IROperand := new_operand CONSTANT v sz.
Definition const8 (v : Z) : IROperand := new_operand CONSTANT (u8 v) 1.
Definition const16 (v : Z) : IROperand := new_operand CONSTANT (u16 v) 2.
Definition const32 (v : Z) : IROperand := new_operand CONSTANT (u32 v) 4.
Definition const64 (v : Z) : IROperand := new_operand CONSTANT (u64 v) 8.
Definition vreg (id sz : Z) : IROperand := new_operand VREG id sz.
Definition block_op (id : Z) : IROperand := new_operand BLOCK id 0.
Definition func (addr : Z) : IROperand := new_operand FUNC addr 0.

Definition with_value (v : Z) (o : IROperand) : IROperand :=
  mkOperand v (alloc_data o) (alloc_mode o) (op_type o) (size o).
Definition with_size (sz : Z) (o : IROperand) : IROperand :=
  mkOperand (value o) (alloc_data o) (alloc_mode o) (op_type o) sz.

(** ** Instruction types *)

Definition NOP_BLOCK : Z := 0x7fffffff.
Definition INVALID_BLOCK_ID : Z := 0xffffffff.

Inductive IRInstructionType :=
  | INVALID | VERIFY | COUNT | INTCHECK | NOP | TRAP | MOV | CMOV | LDPC | INCPC | ADD | SUB
  | IMUL | MUL | UDIV | SDIV | MOD | SHL | SHR | SAR | ROR | ROL | CLZ | POPCNT | BSWAP
  | AND | OR | XOR | CMPEQ | CMPNE | CMPGT | CMPGTE | CMPLT | CMPLTE | SX | ZX | TRUNC
  | READ_REG | WRITE_REG | READ_MEM | WRITE_MEM | CALL | JMP | BRANCH | RET | DISPATCH
  | SET_CPU_MODE | SET_CPU_FEATURE | WRITE_DEVICE | READ_DEVICE | PROBE_DEVICE | FLUSH
  | FLUSH_ITLB | FLUSH_DTLB | FLUSH_ITLB_ENTRY | FLUSH_DTLB_ENTRY | ADC_WITH_FLAGS
  | SBC_WITH_FLAGS | SET_ZN_FLAGS | BARRIER | TAKE_EXCEPTION | PROFILE | CMPSGT | CMPSGTE
  | CMPSLT | CMPSLTE | FMUL | FDIV | FADD | FSUB | FSQRT | FABS | FCMP_LT | FCMP_LTE
  | FCMP_GT | FCMP_GTE | FCMP_EQ | FCMP_NE | FCVT_UI_TO_F | FCVT_F_TO_UI | FCVTT_F_TO_UI
  | FCVT_SI_TO_F | FCVT_F_TO_SI | FCVTT_F_TO_SI | FCVT_S_TO_D | FCVT_D_TO_S
  | FCTRL_SET_ROUND | FCTRL_GET_ROUND | FCTRL_SET_FLUSH_DENORMAL | FCTRL_GET_FLUSH_DENORMAL
  | VADDI | VADDF | VSUBI | VSUBF | VMULI | VMULF | VORI | VANDI | VXORI | VCMPEQI | VCMPGTI
  | VCMPGTEI | VCMPLTF.

Record insn_descriptor := mkDesc {
  mnemonic : string;
  format : string;
  has_side_effects : bool
}.

#[local] Open Scope string_scope.
Definition insn_descriptors : list insn_descriptor := [
  mkDesc "invalid" "XXXXXX" false;
  mkDesc "verify" "NXXXXX" true;
  mkDesc "count" "NNXXXX" true;
  mkDesc "int_check" "XXXXXX" true;
  mkDesc "nop" "XXXXXX" false;
  mkDesc "trap" "XXXXXX" true;
  mkDesc "mov" "IOXXXX" false;
  mkDesc "cmov" "IIBXXX" false;
  mkDesc "ldpc" "OXXXXX" false;
  mkDesc "inc-pc" "IXXXXX" true;
  mkDesc "add" "IBXXXX" false;
  mkDesc "sub" "IBXXXX" false;
  mkDesc "imul" "IBXXXX" false;
  mkDesc "umul" "IBXXXX" false;
  mkDesc "udiv" "IBXXXX" false;
  mkDesc "sdiv" "IBXXXX" false;
  mkDesc "mod" "IBXXXX" false;
  mkDesc "shl" "IBXXXX" false;
  mkDesc "shr" "IBXXXX" false;
  mkDesc "sar" "IBXXXX" false;
  mkDesc "ror" "IBXXXX" false;
  mkDesc "rol" "IBXXXX" false;
  mkDesc "clz" "IOXXXX" false;
  mkDesc "popcnt" "IOXXXX" false;
  mkDesc "bswap" "IOXXXX" false;
  mkDesc "and" "IBXXXX" false;
  mkDesc "or" "IBXXXX" false;
  mkDesc "xor" "IBXXXX" false;
  mkDesc "cmp eq" "IIOXXX" false;
  mkDesc "cmp ne" "IIOXXX" false;
  mkDesc "cmp gt" "IIOXXX" false;
  mkDesc "cmp gte" "IIOXXX" false;
  mkDesc "cmp lt" "IIOXXX" false;
  mkDesc "cmp lte" "IIOXXX" false;
  mkDesc "mov sx" "IOXXXX" false;
  mkDesc "mov zx" "IOXXXX" false;
  mkDesc "mov trunc" "IOXXXX" false;
  mkDesc "ldreg" "IOXXXX" false;
  mkDesc "streg" "IIXXXX" true;
  mkDesc "ldmem" "NIIOXX" true;
  mkDesc "stmem" "NIIIXX" true;
  mkDesc "call" "NIIIII" true;
  mkDesc "jmp" "NXXXXX" true;
  mkDesc "branch" "INNXXX" true;
  mkDesc "ret" "XXXXXX" true;
  mkDesc "dispatch" "NNNNXX" true;
  mkDesc "scm" "IXXXXX" true;
  mkDesc "set_feature" "NNXXXX" true;
  mkDesc "stdev" "IIIXXX" true;
  mkDesc "lddev" "IIOXXX" false;
  mkDesc "probedev" "IOXXXX" false;
  mkDesc "flush" "XXXXXX" true;
  mkDesc "flush itlb" "XXXXXX" true;
  mkDesc "flush dtlb" "XXXXXX" true;
  mkDesc "flush itlb" "IXXXXX" true;
  mkDesc "flush dtlb" "IXXXXX" true;
  mkDesc "adc flags" "IIIXXX" true;
  mkDesc "sbc flags" "IIIXXX" true;
  mkDesc "zn flags" "IXXXXX" true;
  mkDesc "barrier" "NXXXXX" true;
  mkDesc "exception" "IIXXXX" true;
  mkDesc "profile" "NXXXXX" true;
  mkDesc "cmps gt" "IIOXXX" false;
  mkDesc "cmps gte" "IIOXXX" false;
  mkDesc "cmps lt" "IIOXXX" false;
  mkDesc "cmps lte" "IIOXXX" false;
  mkDesc "fmul" "IIOXXX" false;
  mkDesc "fdiv" "IIOXXX" false;
  mkDesc "fadd" "IIOXXX" false;
  mkDesc "fsub" "IIOXXX" false;
  mkDesc "fsqrt" "IOXXXX" false;
  mkDesc "fabs" "IOXXXX" false;
  mkDesc "fcmp_lt" "IIOXXX" false;
  mkDesc "fcmp_lte" "IIOXXX" false;
  mkDesc "fcmp_gt" "IIOXXX" false;
  mkDesc "fcmp_gte" "IIOXXX" false;
  mkDesc "fcmp_eq" "IIOXXX" false;
  mkDesc "fcmp_ne" "IIOXXX" false;
  mkDesc "fcvt_ui_to_f" "IOXXXX" false;
  mkDesc "fcvt_f_to_ui" "IOXXXX" false;
  mkDesc "fcvtt_f_to_ui" "IOXXXX" false;
  mkDesc "fcvt_si_to_f" "IOXXXX" false;
  mkDesc "fcvt_f_to_si" "IOXXXX" false;
  mkDesc "fcvtt_f_to_si" "IOXXXX" false;
  mkDesc "fcvt_s_to_d" "IOXXXX" false;
  mkDesc "fcvt_d_to_s" "IOXXXX" false;
  mkDesc "fctrl_setrnd" "IXXXXX" true;
  mkDesc "fctrl_getrnd" "OXXXXX" false;
  mkDesc "fctrl_setflush" "IXXXXX" true;
  mkDesc "fctrl_getflush" "OXXXXX" false;
  mkDesc "vaddi" "NIIOXX" false;
  mkDesc "vaddf" "NIIOXX" false;
  mkDesc "vsubi" "NIIOXX" false;
  mkDesc "vsubf" "NIIOXX" false;
  mkDesc "vmuli" "NIIOXX" false;
  mkDesc "vmulf" "NIIOXX" false;
  mkDesc "vori" "NIIOXX" false;
  mkDesc "vandi" "NIIOXX" false;
  mkDesc "vxori" "NIIOXX" false;
  mkDesc "vcmpeqi" "NIIOXX" false;
  mkDesc "vcmpgti" "NIIOXX" false;
  mkDesc "vcmpgtei" "NIIOXX" false;
  mkDesc "vcmpltf" "NIIOXX" false
].
#[local] Close Scope string_scope.

(** The value of the enumerator, which indexes the table. *)
Definition type_index (t : IRInstructionType) : nat :=
  match t with
  | INVALID => 0 | VERIFY => 1 | COUNT => 2 | INTCHECK => 3 | NOP => 4 | TRAP => 5
  | MOV => 6 | CMOV => 7 | LDPC => 8 | INCPC => 9 | ADD => 10 | SUB => 11 | IMUL => 12
  | MUL => 13 | UDIV => 14 | SDIV => 15 | MOD => 16 | SHL => 17 | SHR => 18 | SAR => 19
  | ROR => 20 | ROL => 21 | CLZ => 22 | POPCNT => 23 | BSWAP => 24 | AND => 25 | OR => 26
  | XOR => 27 | CMPEQ => 28 | CMPNE => 29 | CMPGT => 30 | CMPGTE => 31 | CMPLT => 32
  | CMPLTE => 33 | SX => 34 | ZX => 35 | TRUNC => 36 | READ_REG => 37 | WRITE_REG => 38
  | READ_MEM => 39 | WRITE_MEM => 40 | CALL => 41 | JMP => 42 | BRANCH => 43 | RET => 44
  | DISPATCH => 45 | SET_CPU_MODE => 46 | SET_CPU_FEATURE => 47 | WRITE_DEVICE => 48
  | READ_DEVICE => 49 | PROBE_DEVICE => 50 | FLUSH => 51 | FLUSH_ITLB => 52
  | FLUSH_DTLB => 53 | FLUSH_ITLB_ENTRY => 54 | FLUSH_DTLB_ENTRY => 55
  | ADC_WITH_FLAGS => 56 | SBC_WITH_FLAGS => 57 | SET_ZN_FLAGS => 58 | BARRIER => 59
  | TAKE_EXCEPTION => 60 | PROFILE => 61 | CMPSGT => 62 | CMPSGTE => 63 | CMPSLT => 64
  | CMPSLTE => 65 | FMUL => 66 | FDIV => 67 | FADD => 68 | FSUB => 69 | FSQRT => 70
  | FABS => 71 | FCMP_LT => 72 | FCMP_LTE => 73 | FCMP_GT => 74 | FCMP_GTE => 75
  | FCMP_EQ => 76 | FCMP_NE => 77 | FCVT_UI_TO_F => 78 | FCVT_F_TO_UI => 79
  | FCVTT_F_TO_UI => 80 | FCVT_SI_TO_F => 81 | FCVT_F_TO_SI => 82 | FCVTT_F_TO_SI => 83
  | FCVT_S_TO_D => 84 | FCVT_D_TO_S => 85 | FCTRL_SET_ROUND => 86 | FCTRL_GET_ROUND => 87
  | FCTRL_SET_FLUSH_DENORMAL => 88 | FCTRL_GET_FLUSH_DENORMAL => 89 | VADDI => 90
  | VADDF => 91 | VSUBI => 92 | VSUBF => 93 | VMULI => 94 | VMULF => 95 | VORI => 96
  | VANDI => 97 | VXORI => 98 | VCMPEQI => 99 | VCMPGTI => 100 | VCMPGTEI => 101
  | VCMPLTF => 102
  end.

Definition all_types : list IRInstructionType := [
  INVALID; VERIFY; COUNT; INTCHECK; NOP; TRAP; MOV; CMOV; LDPC; INCPC; ADD; SUB; IMUL; MUL;
  UDIV; SDIV; MOD; SHL; SHR; SAR; ROR; ROL; CLZ; POPCNT; BSWAP; AND; OR; XOR; CMPEQ; CMPNE;
  CMPGT; CMPGTE; CMPLT; CMPLTE; SX; ZX; TRUNC; READ_REG; WRITE_REG; READ_MEM; WRITE_MEM;
  CALL; JMP; BRANCH; RET; DISPATCH; SET_CPU_MODE; SET_CPU_FEATURE; WRITE_DEVICE;
  READ_DEVICE; PROBE_DEVICE; FLUSH; FLUSH_ITLB; FLUSH_DTLB; FLUSH_ITLB_ENTRY;
  FLUSH_DTLB_ENTRY; ADC_WITH_FLAGS; SBC_WITH_FLAGS; SET_ZN_FLAGS; BARRIER; TAKE_EXCEPTION;
  PROFILE; CMPSGT; CMPSGTE; CMPSLT; CMPSLTE; FMUL; FDIV; FADD; FSUB; FSQRT; FABS; FCMP_LT;
  FCMP_LTE; FCMP_GT; FCMP_GTE; FCMP_EQ; FCMP_NE; FCVT_UI_TO_F; FCVT_F_TO_UI; FCVTT_F_TO_UI;
  FCVT_SI_TO_F; FCVT_F_TO_SI; FCVTT_F_TO_SI; FCVT_S_TO_D; FCVT_D_TO_S; FCTRL_SET_ROUND;
  FCTRL_GET_ROUND; FCTRL_SET_FLUSH_DENORMAL; FCTRL_GET_FLUSH_DENORMAL; VADDI; VADDF; VSUBI;
  VSUBF; VMULI; VMULF; VORI; VANDI; VXORI; VCMPEQI; VCMPGTI; VCMPGTEI; VCMPLTF ].

Lemma all_types_index t : all_types !! type_index t = Some t.
Proof. destruct t; reflexivity. Qed.

Lemma type_index_inj t1 t2 : type_index t1 = type_index t2 -> t1 = t2.
Proof. intros H. pose proof (all_types_index t1). rewrite H, all_types_index in *. congruence. Qed.

#[export] Instance IRInstructionType_eq_dec : EqDecision IRInstructionType.
Proof.
  intros t1 t2. destruct (Nat.eq_dec (type_index t1) (type_index t2)) as [H | H].
  - left. apply type_index_inj, H.
  - right. congruence.
Defined.

Definition no_descriptor : insn_descriptor := mkDesc "" "" false.
Definition descriptor (t : IRInstructionType) : insn_descriptor :=
  nth (type_index t) insn_descriptors no_descriptor.

(** [descr.format[i]]; the terminating zero beyond the six letters. *)
Definition format_at (t : IRInstructionType) (i : nat) : ascii :=
  default Ascii.zero (String.get i (format (descriptor t))).

(** ** Instructions *)

Record IRInstruction := mkInsn {
  operands : list IROperand;
  ir_block : Z;
  type : IRInstructionType
}.

#[export] Instance IRInstruction_eq_dec : EqDecision IRInstruction.
Proof. solve_decision. Defined.

Definition make_nop (i : IRInstruction) : IRInstruction := mkInsn [] NOP_BLOCK NOP.

(** [insn->operands[n]]. *)
Definition op (i : IRInstruction) (n : nat) : IROperand :=
  nth n (operands i) (new_operand NONE 0 0).
Definition set_op (n : nat) (o : IROperand) (i : IRInstruction) : IRInstruction :=
  mkInsn (<[n := o]> (operands i)) (ir_block i) (type i).
Definition set_block (b : Z) (i : IRInstruction) : IRInstruction := mkInsn (operands i) b (type i).
Definition set_type (t : IRInstructionType) (i : IRInstruction) : IRInstruction :=
  mkInsn (operands i) (ir_block i) t.

(** The constructors leave the block to whoever adds the instruction. *)
Definition IRBody : Type := IRInstructionType * list IROperand.

Module Build.
Definition nop : result IRBody :=
  Ok (NOP, []).

Definition ret : result IRBody :=
  Ok (RET, []).

Definition dispatch (target fallthrough target_block fallthrough_block : IROperand) : result IRBody :=
  check* is_constant target && is_constant fallthrough or AssertFailed in
  Ok (DISPATCH, [target; fallthrough; target_block; fallthrough_block]).

Definition trap : result IRBody :=
  Ok (TRAP, []).

Definition verify (pc : IROperand) : result IRBody :=
  Ok (VERIFY, [pc]).

Definition int_check : result IRBody :=
  Ok (INTCHECK, []).

Definition count (pointer count : IROperand) : result IRBody :=
  Ok (COUNT, [pointer; count]).

Definition profile (pointer block_offset : IROperand) : result IRBody :=
  Ok (PROFILE, [pointer; block_offset]).

Definition ldpc (dst : IROperand) : result IRBody :=
  check* is_vreg dst && (size dst =? 4) or AssertFailed in
  Ok (LDPC, [dst]).

Definition incpc (amt : IROperand) : result IRBody :=
  check* is_constant amt or AssertFailed in
  Ok (INCPC, [amt]).

Definition flush : result IRBody :=
  Ok (FLUSH, []).

Definition flush_itlb : result IRBody :=
  Ok (FLUSH_ITLB, []).

Definition flush_dtlb : result IRBody :=
  Ok (FLUSH_DTLB, []).

Definition flush_itlb_entry (addr : IROperand) : result IRBody :=
  Ok (FLUSH_ITLB_ENTRY, [addr]).

Definition flush_dtlb_entry (addr : IROperand) : result IRBody :=
  Ok (FLUSH_DTLB_ENTRY, [addr]).

Definition adc_with_flags (lhs_in rhs_in carry_in : IROperand) : result IRBody :=
  Ok (ADC_WITH_FLAGS, [lhs_in; rhs_in; carry_in]).

Definition updatezn (val : IROperand) : result IRBody :=
  Ok (SET_ZN_FLAGS, [val]).

Definition barrier : result IRBody :=
  Ok (BARRIER, []).

Definition take_exception (ty data : IROperand) : result IRBody :=
  Ok (TAKE_EXCEPTION, [ty; data]).

Definition mov (src dst : IROperand) : result IRBody :=
  check* (size src =? size dst) or AssertFailed in
  check* is_constant src || is_vreg src or AssertFailed in
  check* is_vreg dst or AssertFailed in
  Ok (MOV, [src; dst]).

Definition cmov (cond src dst : IROperand) : result IRBody :=
  check* (size src =? size dst) or AssertFailed in
  check* is_constant src || is_vreg src or AssertFailed in
  check* is_vreg dst or AssertFailed in
  Ok (CMOV, [cond; src; dst]).

Definition sx (src dst : IROperand) : result IRBody :=
  check* (size src <? size dst) or AssertFailed in
  check* is_constant src || is_vreg src or AssertFailed in
  check* is_vreg dst or AssertFailed in
  Ok (SX, [src; dst]).

Definition zx (src dst : IROperand) : result IRBody :=
  check* (size src <? size dst) or AssertFailed in
  check* is_constant src || is_vreg src or AssertFailed in
  check* is_vreg dst or AssertFailed in
  Ok (ZX, [src; dst]).

Definition trunc (src dst : IROperand) : result IRBody :=
  check* (size dst <? size src) or AssertFailed in
  check* is_constant src || is_vreg src or AssertFailed in
  check* is_vreg dst or AssertFailed in
  Ok (TRUNC, [src; dst]).

Definition fdiv (op1 op2 dest : IROperand) : result IRBody :=
  check* (size op1 =? size op2) && (size op2 =? size dest) or AssertFailed in
  check* (size op1 =? 4) || (size op1 =? 8) or AssertFailed in
  check* is_vreg dest or AssertFailed in
  Ok (FDIV, [op1; op2; dest]).

Definition fmul (op1 op2 dest : IROperand) : result IRBody :=
  check* (size op1 =? size op2) && (size op2 =? size dest) or AssertFailed in
  check* (size op1 =? 4) || (size op1 =? 8) or AssertFailed in
  check* is_vreg dest or AssertFailed in
  Ok (FMUL, [op1; op2; dest]).

Definition fadd (op1 op2 dest : IROperand) : result IRBody :=
  check* (size op1 =? size op2) && (size op2 =? size dest) or AssertFailed in
  check* (size op1 =? 4) || (size op1 =? 8) or AssertFailed in
  check* is_vreg dest or AssertFailed in
  Ok (FADD, [op1; op2; dest]).

Definition fsub (op1 op2 dest : IROperand) : result IRBody :=
  check* (size op1 =? size op2) && (size op2 =? size dest) or AssertFailed in
  check* (size op1 =? 4) || (size op1 =? 8) or AssertFailed in
  check* is_vreg dest or AssertFailed in
  Ok (FSUB, [op1; op2; dest]).

Definition fsqrt (op1 dest : IROperand) : result IRBody :=
  check* (size op1 =? size dest) or AssertFailed in
  check* (size op1 =? 4) || (size op1 =? 8) or AssertFailed in
  check* is_vreg dest or AssertFailed in
  Ok (FSQRT, [op1; dest]).

Definition fcmp_lt (op1 op2 dest : IROperand) : result IRBody :=
  check* (size op1 =? size op2) or AssertFailed in
  check* (size op1 =? 4) || (size op1 =? 8) or AssertFailed in
  check* is_vreg dest or AssertFailed in
  Ok (FCMP_LT, [op1; op2; dest]).

Definition fcmp_lte (op1 op2 dest : IROperand) : result IRBody :=
  check* (size op1 =? size op2) or AssertFailed in
  check* (size op1 =? 4) || (size op1 =? 8) or AssertFailed in
  check* is_vreg dest or AssertFailed in
  Ok (FCMP_LTE, [op1; op2; dest]).

Definition fcmp_gt (op1 op2 dest : IROperand) : result IRBody :=
  check* (size op1 =? size op2) or AssertFailed in
  check* (size op1 =? 4) || (size op1 =? 8) or AssertFailed in
  check* is_vreg dest or AssertFailed in
  Ok (FCMP_GT, [op1; op2; dest]).

Definition fcmp_gte (op1 op2 dest : IROperand) : result IRBody :=
  check* (size op1 =? size op2) or AssertFailed in
  check* (size op1 =? 4) || (size op1 =? 8) or AssertFailed in
  check* is_vreg dest or AssertFailed in
  Ok (FCMP_GTE, [op1; op2; dest]).

Definition fcmp_eq (op1 op2 dest : IROperand) : result IRBody :=
  check* (size op1 =? size op2) or AssertFailed in
  check* (size op1 =? 4) || (size op1 =? 8) or AssertFailed in
  check* is_vreg dest or AssertFailed in
  Ok (FCMP_EQ, [op1; op2; dest]).

Definition fcmp_ne (op1 op2 dest : IROperand) : result IRBody :=
  check* (size op1 =? size op2) or AssertFailed in
  check* (size op1 =? 4) || (size op1 =? 8) or AssertFailed in
  check* is_vreg dest or AssertFailed in
  Ok (FCMP_NE, [op1; op2; dest]).

Definition fcvt_si_to_float (op1 dest : IROperand) : result IRBody :=
  check* is_vreg dest or AssertFailed in
  Ok (FCVT_SI_TO_F, [op1; dest]).

Definition fcvt_float_to_si (op1 dest : IROperand) : result IRBody :=
  check* is_vreg dest or AssertFailed in
  Ok (FCVT_F_TO_SI, [op1; dest]).

Definition fcvtt_float_to_si (op1 dest : IROperand) : result IRBody :=
  check* is_vreg dest or AssertFailed in
  Ok (FCVTT_F_TO_SI, [op1; dest]).

Definition fcvt_ui_to_float (op1 dest : IROperand) : result IRBody :=
  check* is_vreg dest or AssertFailed in
  Ok (FCVT_UI_TO_F, [op1; dest]).

Definition fcvt_float_to_ui (op1 dest : IROperand) : result IRBody :=
  check* is_vreg dest or AssertFailed in
  Ok (FCVT_F_TO_UI, [op1; dest]).

Definition fcvtt_float_to_ui (op1 dest : IROperand) : result IRBody :=
  check* is_vreg dest or AssertFailed in
  Ok (FCVTT_F_TO_UI, [op1; dest]).

Definition fcvt_double_to_single (op1 dest : IROperand) : result IRBody :=
  check* is_vreg dest or AssertFailed in
  check* (size op1 =? 8) or AssertFailed in
  check* (size dest =? 4) or AssertFailed in
  Ok (FCVT_D_TO_S, [op1; dest]).

Definition fcvt_single_to_double (op1 dest : IROperand) : result IRBody :=
  check* is_vreg dest or AssertFailed in
  check* (size op1 =? 4) or AssertFailed in
  check* (size dest =? 8) or AssertFailed in
  Ok (FCVT_S_TO_D, [op1; dest]).

Definition fctrl_set_round (op1 : IROperand) : result IRBody :=
  check* (size op1 =? 4) or AssertFailed in
  Ok (FCTRL_SET_ROUND, [op1]).

Definition fctrl_get_round (dest : IROperand) : result IRBody :=
  check* is_vreg dest or AssertFailed in
  Ok (FCTRL_GET_ROUND, [dest]).

Definition fctrl_set_flush (op1 : IROperand) : result IRBody :=
  check* (size op1 =? 4) or AssertFailed in
  Ok (FCTRL_SET_FLUSH_DENORMAL, [op1]).

Definition fctrl_get_flush (dest : IROperand) : result IRBody :=
  check* is_vreg dest or AssertFailed in
  Ok (FCTRL_GET_FLUSH_DENORMAL, [dest]).

Definition vaddf (width op1 op2 dest : IROperand) : result IRBody :=
  check* is_constant width or AssertFailed in
  Ok (VADDF, [width; op1; op2; dest]).

Definition vaddi (width op1 op2 dest : IROperand) : result IRBody :=
  check* is_constant width or AssertFailed in
  Ok (VADDI, [width; op1; op2; dest]).

Definition vsubf (width op1 op2 dest : IROperand) : result IRBody :=
  check* is_constant width or AssertFailed in
  Ok (VSUBF, [width; op1; op2; dest]).

Definition vsubi (width op1 op2 dest : IROperand) : result IRBody :=
  check* is_constant width or AssertFailed in
  Ok (VSUBI, [width; op1; op2; dest]).

Definition vmulf (width op1 op2 dest : IROperand) : result IRBody :=
  check* is_constant width or AssertFailed in
  Ok (VMULF, [width; op1; op2; dest]).

Definition vmuli (width op1 op2 dest : IROperand) : result IRBody :=
  check* is_constant width or AssertFailed in
  Ok (VMULI, [width; op1; op2; dest]).

Definition add (src dst : IROperand) : result IRBody :=
  check* (size src =? size dst) or AssertFailed in
  check* is_constant src || is_vreg src || is_pc src or AssertFailed in
  check* is_vreg dst or AssertFailed in
  Ok (ADD, [src; dst]).

Definition sub (src dst : IROperand) : result IRBody :=
  check* (size src =? size dst) or AssertFailed in
  check* is_constant src || is_vreg src or AssertFailed in
  check* is_vreg dst or AssertFailed in
  Ok (SUB, [src; dst]).

Definition mul (src dst : IROperand) : result IRBody :=
  check* (size src =? size dst) or AssertFailed in
  check* is_constant src || is_vreg src or AssertFailed in
  check* is_vreg dst or AssertFailed in
  Ok (MUL, [src; dst]).

Definition imul (src dst : IROperand) : result IRBody :=
  check* (size src =? size dst) or AssertFailed in
  check* is_constant src || is_vreg src or AssertFailed in
  check* is_vreg dst or AssertFailed in
  Ok (IMUL, [src; dst]).

Definition sdiv (src dst : IROperand) : result IRBody :=
  check* (size src =? size dst) or AssertFailed in
  check* is_constant src || is_vreg src or AssertFailed in
  check* is_vreg dst or AssertFailed in
  Ok (SDIV, [src; dst]).

Definition udiv (src dst : IROperand) : result IRBody :=
  check* (size src =? size dst) or AssertFailed in
  check* is_constant src || is_vreg src or AssertFailed in
  check* is_vreg dst or AssertFailed in
  Ok (UDIV, [src; dst]).

Definition mod_ (src dst : IROperand) : result IRBody :=
  check* (size src =? size dst) or AssertFailed in
  check* is_constant src || is_vreg src or AssertFailed in
  check* is_vreg dst or AssertFailed in
  Ok (MOD, [src; dst]).

Definition shl (amt dst : IROperand) : result IRBody :=
  check* is_constant amt || is_vreg amt or AssertFailed in
  check* is_vreg dst or AssertFailed in
  Ok (SHL, [amt; dst]).

Definition shr (amt dst : IROperand) : result IRBody :=
  check* is_constant amt || is_vreg amt or AssertFailed in
  check* is_vreg dst or AssertFailed in
  Ok (SHR, [amt; dst]).

Definition sar (amt dst : IROperand) : result IRBody :=
  check* is_constant amt || is_vreg amt or AssertFailed in
  check* is_vreg dst or AssertFailed in
  Ok (SAR, [amt; dst]).

Definition ror (amt dst : IROperand) : result IRBody :=
  check* is_constant amt || is_vreg amt or AssertFailed in
  check* is_vreg dst or AssertFailed in
  Ok (ROR, [amt; dst]).

Definition clz (src dst : IROperand) : result IRBody :=
  check* is_constant src || is_vreg src or AssertFailed in
  check* is_vreg dst or AssertFailed in
  Ok (CLZ, [src; dst]).

Definition bitwise_and (src dst : IROperand) : result IRBody :=
  check* (size src =? size dst) or AssertFailed in
  check* is_constant src || is_vreg src or AssertFailed in
  check* is_vreg dst or AssertFailed in
  Ok (AND, [src; dst]).

Definition bitwise_or (src dst : IROperand) : result IRBody :=
  check* (size src =? size dst) or AssertFailed in
  check* is_constant src || is_vreg src or AssertFailed in
  check* is_vreg dst or AssertFailed in
  Ok (OR, [src; dst]).

Definition bitwise_xor (src dst : IROperand) : result IRBody :=
  check* (size src =? size dst) or AssertFailed in
  check* is_constant src || is_vreg src or AssertFailed in
  check* is_vreg dst or AssertFailed in
  Ok (XOR, [src; dst]).

Definition cmpeq (lh rh dst : IROperand) : result IRBody :=
  check* (size lh =? size rh) or AssertFailed in
  check* is_vreg lh || is_constant lh or AssertFailed in
  check* is_vreg rh || is_constant rh or AssertFailed in
  check* negb (is_constant lh && is_constant rh) or AssertFailed in
  check* is_vreg dst or AssertFailed in
  Ok (CMPEQ, [lh; rh; dst]).

Definition cmpne (lh rh dst : IROperand) : result IRBody :=
  check* (size lh =? size rh) or AssertFailed in
  check* is_vreg lh || is_constant lh or AssertFailed in
  check* is_vreg rh || is_constant rh or AssertFailed in
  check* negb (is_constant lh && is_constant rh) or AssertFailed in
  check* is_vreg dst or AssertFailed in
  Ok (CMPNE, [lh; rh; dst]).

Definition cmplt (lh rh dst : IROperand) : result IRBody :=
  check* (size lh =? size rh) or AssertFailed in
  check* is_vreg lh || is_constant lh or AssertFailed in
  check* is_vreg rh || is_constant rh or AssertFailed in
  check* negb (is_constant lh && is_constant rh) or AssertFailed in
  check* is_vreg dst or AssertFailed in
  Ok (CMPLT, [lh; rh; dst]).

Definition cmplte (lh rh dst : IROperand) : result IRBody :=
  check* (size lh =? size rh) or AssertFailed in
  check* is_vreg lh || is_constant lh or AssertFailed in
  check* is_vreg rh || is_constant rh or AssertFailed in
  check* negb (is_constant lh && is_constant rh) or AssertFailed in
  check* is_vreg dst or AssertFailed in
  Ok (CMPLTE, [lh; rh; dst]).

Definition cmpgt (lh rh dst : IROperand) : result IRBody :=
  check* (size lh =? size rh) or AssertFailed in
  check* is_vreg lh || is_constant lh or AssertFailed in
  check* is_vreg rh || is_constant rh or AssertFailed in
  check* negb (is_constant lh && is_constant rh) or AssertFailed in
  check* is_vreg dst or AssertFailed in
  Ok (CMPGT, [lh; rh; dst]).

Definition cmpgte (lh rh dst : IROperand) : result IRBody :=
  check* (size lh =? size rh) or AssertFailed in
  check* is_vreg lh || is_constant lh or AssertFailed in
  check* is_vreg rh || is_constant rh or AssertFailed in
  check* negb (is_constant lh && is_constant rh) or AssertFailed in
  check* is_vreg dst or AssertFailed in
  Ok (CMPGTE, [lh; rh; dst]).

Definition cmpslt (lh rh dst : IROperand) : result IRBody :=
  check* (size lh =? size rh) or AssertFailed in
  check* is_vreg lh || is_constant lh or AssertFailed in
  check* is_vreg rh || is_constant rh or AssertFailed in
  check* negb (is_constant lh && is_constant rh) or AssertFailed in
  check* is_vreg dst or AssertFailed in
  Ok (CMPSLT, [lh; rh; dst]).

Definition cmpslte (lh rh dst : IROperand) : result IRBody :=
  check* (size lh =? size rh) or AssertFailed in
  check* is_vreg lh || is_constant lh or AssertFailed in
  check* is_vreg rh || is_constant rh or AssertFailed in
  check* negb (is_constant lh && is_constant rh) or AssertFailed in
  check* is_vreg dst or AssertFailed in
  Ok (CMPSLTE, [lh; rh; dst]).

Definition cmpsgt (lh rh dst : IROperand) : result IRBody :=
  check* (size lh =? size rh) or AssertFailed in
  check* is_vreg lh || is_constant lh or AssertFailed in
  check* is_vreg rh || is_constant rh or AssertFailed in
  check* negb (is_constant lh && is_constant rh) or AssertFailed in
  check* is_vreg dst or AssertFailed in
  Ok (CMPSGT, [lh; rh; dst]).

Definition cmpsgte (lh rh dst : IROperand) : result IRBody :=
  check* (size lh =? size rh) or AssertFailed in
  check* is_vreg lh || is_constant lh or AssertFailed in
  check* is_vreg rh || is_constant rh or AssertFailed in
  check* negb (is_constant lh && is_constant rh) or AssertFailed in
  check* is_vreg dst or AssertFailed in
  Ok (CMPSGTE, [lh; rh; dst]).

Definition ldreg (offset dst : IROperand) : result IRBody :=
  check* is_constant offset || is_vreg offset or AssertFailed in
  check* is_vreg dst or AssertFailed in
  Ok (READ_REG, [offset; dst]).

Definition streg (src offset : IROperand) : result IRBody :=
  check* is_constant offset || is_vreg offset or AssertFailed in
  check* is_constant src || is_vreg src or AssertFailed in
  Ok (WRITE_REG, [src; offset]).

Definition ldmem (interface offset dst : IROperand) : result IRBody :=
  check* is_constant interface or AssertFailed in
  check* is_constant offset || is_vreg offset or AssertFailed in
  check* is_vreg dst or AssertFailed in
  Ok (READ_MEM, [interface; offset; (const32 0); dst]).

Definition stmem (interface src offset : IROperand) : result IRBody :=
  check* is_constant interface or AssertFailed in
  check* is_constant offset || is_vreg offset or AssertFailed in
  check* is_constant src || is_vreg src or AssertFailed in
  Ok (WRITE_MEM, [interface; src; (const32 0); offset]).

Definition write_device (dev reg val : IROperand) : result IRBody :=
  check* is_constant dev || is_vreg dev or AssertFailed in
  check* is_constant reg || is_vreg reg or AssertFailed in
  check* is_constant val || is_vreg val or AssertFailed in
  Ok (WRITE_DEVICE, [dev; reg; val]).

Definition read_device (dev reg dst : IROperand) : result IRBody :=
  check* is_constant dev || is_vreg dev or AssertFailed in
  check* is_constant reg || is_vreg reg or AssertFailed in
  check* is_vreg dst or AssertFailed in
  Ok (READ_DEVICE, [dev; reg; dst]).

Definition probe_device (dev dst : IROperand) : result IRBody :=
  check* is_constant dev || is_vreg dev or AssertFailed in
  check* is_vreg dst or AssertFailed in
  Ok (PROBE_DEVICE, [dev; dst]).

Definition set_cpu_mode (mode : IROperand) : result IRBody :=
  check* is_constant mode || is_vreg mode or AssertFailed in
  Ok (SET_CPU_MODE, [mode]).

Definition set_cpu_feature (feature level : IROperand) : result IRBody :=
  check* is_constant feature && is_constant level or AssertFailed in
  Ok (SET_CPU_FEATURE, [feature; level]).

Definition jump (target : IROperand) : result IRBody :=
  check* is_block target or AssertFailed in
  Ok (JMP, [target]).

Definition branch (cond tt ft : IROperand) : result IRBody :=
  check* is_constant cond || is_vreg cond or AssertFailed in
  check* is_block tt or AssertFailed in
  check* is_block ft or AssertFailed in
  Ok (BRANCH, [cond; tt; ft]).

Definition call0 (fn : IROperand) : result IRBody :=
  check* is_func fn or AssertFailed in
  Ok (CALL, [fn]).

Definition call1 (fn arg0 : IROperand) : result IRBody :=
  check* is_func fn or AssertFailed in
  check* is_constant arg0 || is_vreg arg0 or AssertFailed in
  Ok (CALL, [fn; arg0]).

Definition call2 (fn arg0 arg1 : IROperand) : result IRBody :=
  check* is_func fn or AssertFailed in
  check* is_constant arg0 || is_vreg arg0 or AssertFailed in
  check* is_constant arg1 || is_vreg arg1 or AssertFailed in
  Ok (CALL, [fn; arg0; arg1]).

Definition call3 (fn arg0 arg1 arg2 : IROperand) : result IRBody :=
  check* is_func fn or AssertFailed in
  check* is_constant arg0 || is_vreg arg0 or AssertFailed in
  check* is_constant arg1 || is_vreg arg1 or AssertFailed in
  check* is_constant arg2 || is_vreg arg2 or AssertFailed in
  Ok (CALL, [fn; arg0; arg1; arg2]).

Definition call4 (fn arg0 arg1 arg2 arg3 : IROperand) : result IRBody :=
  check* is_func fn or AssertFailed in
  check* is_constant arg0 || is_vreg arg0 or AssertFailed in
  check* is_constant arg1 || is_vreg arg1 or AssertFailed in
  check* is_constant arg2 || is_vreg arg2 or AssertFailed in
  check* is_constant arg3 || is_vreg arg3 or AssertFailed in
  Ok (CALL, [fn; arg0; arg1; arg2; arg3]).

Definition call5 (fn arg0 arg1 arg2 arg3 arg4 : IROperand) : result IRBody :=
  check* is_func fn or AssertFailed in
  check* is_constant arg0 || is_vreg arg0 or AssertFailed in
  check* is_constant arg1 || is_vreg arg1 or AssertFailed in
  check* is_constant arg2 || is_vreg arg2 or AssertFailed in
  check* is_constant arg3 || is_vreg arg3 or AssertFailed in
  check* is_constant arg4 || is_vreg arg4 or AssertFailed in
  Ok (CALL, [fn; arg0; arg1; arg2; arg3; arg4]).
End Build.

(** Every constructor, by the number of its operands. *)
Inductive builder :=
| B0 (f : result IRBody)
| B1 (f : IROperand -> result IRBody)
| B2 (f : IROperand -> IROperand -> result IRBody)
| B3 (f : IROperand -> IROperand -> IROperand -> result IRBody)
| B4 (f : IROperand -> IROperand -> IROperand -> IROperand -> result IRBody)
| B5 (f : IROperand -> IROperand -> IROperand -> IROperand -> IROperand -> result IRBody)
| B6 (f : IROperand -> IROperand -> IROperand -> IROperand -> IROperand -> IROperand -> result IRBody).

Definition run_builder (b : builder) (ops : list IROperand) : result IRBody :=
  match b, ops with
  | B0 f, [] => f
  | B1 f, [a] => f a
  | B2 f, [a; b] => f a b
  | B3 f, [a; b; c] => f a b c
  | B4 f, [a; b; c; d] => f a b c d
  | B5 f, [a; b; c; d; e] => f a b c d e
  | B6 f, [a; b; c; d; e; g] => f a b c d e g
  | _, _ => Err LogicError
  end.

Definition builders : list builder := [
  B0 Build.nop; B0 Build.ret; B4 Build.dispatch; B0 Build.trap; B1 Build.verify;
  B0 Build.int_check; B2 Build.count; B2 Build.profile; B1 Build.ldpc; B1 Build.incpc;
  B0 Build.flush; B0 Build.flush_itlb; B0 Build.flush_dtlb; B1 Build.flush_itlb_entry;
  B1 Build.flush_dtlb_entry; B3 Build.adc_with_flags; B1 Build.updatezn; B0 Build.barrier;
  B2 Build.take_exception; B2 Build.mov; B3 Build.cmov; B2 Build.sx; B2 Build.zx;
  B2 Build.trunc; B3 Build.fdiv; B3 Build.fmul; B3 Build.fadd; B3 Build.fsub;
  B2 Build.fsqrt; B3 Build.fcmp_lt; B3 Build.fcmp_lte; B3 Build.fcmp_gt; B3 Build.fcmp_gte;
  B3 Build.fcmp_eq; B3 Build.fcmp_ne; B2 Build.fcvt_si_to_float; B2 Build.fcvt_float_to_si;
  B2 Build.fcvtt_float_to_si; B2 Build.fcvt_ui_to_float; B2 Build.fcvt_float_to_ui;
  B2 Build.fcvtt_float_to_ui; B2 Build.fcvt_double_to_single;
  B2 Build.fcvt_single_to_double; B1 Build.fctrl_set_round; B1 Build.fctrl_get_round;
  B1 Build.fctrl_set_flush; B1 Build.fctrl_get_flush; B4 Build.vaddf; B4 Build.vaddi;
  B4 Build.vsubf; B4 Build.vsubi; B4 Build.vmulf; B4 Build.vmuli; B2 Build.add;
  B2 Build.sub; B2 Build.mul; B2 Build.imul; B2 Build.sdiv; B2 Build.udiv; B2 Build.mod_;
  B2 Build.shl; B2 Build.shr; B2 Build.sar; B2 Build.ror; B2 Build.clz;
  B2 Build.bitwise_and; B2 Build.bitwise_or; B2 Build.bitwise_xor; B3 Build.cmpeq;
  B3 Build.cmpne; B3 Build.cmplt; B3 Build.cmplte; B3 Build.cmpgt; B3 Build.cmpgte;
  B3 Build.cmpslt; B3 Build.cmpslte; B3 Build.cmpsgt; B3 Build.cmpsgte; B2 Build.ldreg;
  B2 Build.streg; B3 Build.ldmem; B3 Build.stmem; B3 Build.write_device;
  B3 Build.read_device; B2 Build.probe_device; B1 Build.set_cpu_mode;
  B2 Build.set_cpu_feature; B1 Build.jump; B3 Build.branch; B1 Build.call0; B2 Build.call1;
  B3 Build.call2; B4 Build.call3; B5 Build.call4; B6 Build.call5 ].

(** ** The instruction buffer *)

Record TranslationContext := mkContext {
  _ir_block_count : Z;
  _ir_reg_count : Z;
  _ir_insns : list IRInstruction;
  _ir_insn_buffer_size : Z          (* bytes *)
}.

Definition new_TranslationContext : TranslationContext := mkContext 0 0 [] 0.

Definition with_insns (l : list IRInstruction) (c : TranslationContext) : TranslationContext :=
  mkContext (_ir_block_count c) (_ir_reg_count c) l (_ir_insn_buffer_size c).
Definition ctx_count (c : TranslationContext) : Z := Z.of_nat (List.length (_ir_insns c)).

Section Buffer.
Context (sizeof_insn : Z).

Definition ensure_buffer (elem_capacity : Z) (c : TranslationContext) : result TranslationContext :=
  let required_size := u32 (sizeof_insn * elem_capacity) in
  if _ir_insn_buffer_size c <? required_size then
    let sz := u32 (_ir_insn_buffer_size c + sizeof_insn * 256) in
    check* required_size <=? sz or AssertFailed in
    Ok (mkContext (_ir_block_count c) (_ir_reg_count c) (_ir_insns c) sz)
  else Ok c.

Definition add_instruction (block_id : Z) (body : IRBody) (c : TranslationContext)
  : result TranslationContext :=
  let* c1 := ensure_buffer (ctx_count c + 1) c in
  Ok (with_insns (_ir_insns c1 ++ [mkInsn (snd body) block_id (fst body)]) c1).

Definition alloc_block (c : TranslationContext) : Z * TranslationContext :=
  (_ir_block_count c,
   mkContext (u32 (_ir_block_count c + 1)) (_ir_reg_count c) (_ir_insns c) (_ir_insn_buffer_size c)).
Definition alloc_reg (c : TranslationContext) : Z * TranslationContext :=
  (_ir_reg_count c,
   mkContext (_ir_block_count c) (u32 (_ir_reg_count c + 1)) (_ir_insns c) (_ir_insn_buffer_size c)).
Definition recount_blocks (n : Z) (c : TranslationContext) : TranslationContext :=
  mkContext n (_ir_reg_count c) (_ir_insns c) (_ir_insn_buffer_size c).
Definition recount_regs (n : Z) (c : TranslationContext) : TranslationContext :=
  mkContext (_ir_block_count c) n (_ir_insns c) (_ir_insn_buffer_size c).
Definition clear (c : TranslationContext) : TranslationContext := mkContext 0 0 [] 0.

(** The index of the first instruction of the NOP block. *)
Fixpoint nop_block_start (l : list IRInstruction) : option nat :=
  match l with
  | [] => None
  | i :: r => if ir_block i =? NOP_BLOCK then Some 0%nat else option_map S (nop_block_start r)
  end.

(** The buffer size becomes the number of instructions, not of bytes. *)
Definition trim (c : TranslationContext) : TranslationContext :=
  match nop_block_start (_ir_insns c) with
  | None => c
  | Some n => mkContext (_ir_block_count c) (_ir_reg_count c) (take n (_ir_insns c)) (Z.of_nat n)
  end.

(** The recorded capacity covers the instructions. *)
Definition buffer_inv (c : TranslationContext) : Prop :=
  sizeof_insn * ctx_count c <= _ir_insn_buffer_size c.

Lemma ensure_buffer_spec n c c' :
  0 <= sizeof_insn * n < 2 ^ 32 -> ensure_buffer n c = Ok c' ->
  sizeof_insn * n <= _ir_insn_buffer_size c' /\ _ir_insns c' = _ir_insns c /\
  _ir_block_count c' = _ir_block_count c /\ _ir_reg_count c' = _ir_reg_count c.
Proof.
  intros Hn E. unfold ensure_buffer in E.
  replace (u32 (sizeof_insn * n)) with (sizeof_insn * n) in E
    by (symmetry; apply wrap_small; unfold in_range; lia).
  destruct (Z.ltb_spec (_ir_insn_buffer_size c) (sizeof_insn * n)).
  - destruct (Z.leb_spec (sizeof_insn * n) (u32 (_ir_insn_buffer_size c + sizeof_insn * 256)));
      [| discriminate E].
    apply Ok_inj in E as <-. auto.
  - apply Ok_inj in E as <-. auto.
Qed.
End Buffer.

(** Adding instructions to a fresh buffer, without [trim] in between. *)
Fixpoint add_all (sizeof_insn : Z) (l : list (Z * IRBody)) (c : TranslationContext) : result TranslationContext :=
  match l with
  | [] => Ok c
  | (b, body) :: r => let* c1 := add_instruction sizeof_insn b body c in add_all sizeof_insn r c1
  end.

Definition insn_of (p : Z * IRBody) : IRInstruction := mkInsn (snd (snd p)) (fst p) (fst (snd p)).

Lemma ensure_buffer_total sz n c :
  0 < sz -> 0 <= n -> 0 <= _ir_insn_buffer_size c -> sz * (n - 1) <= _ir_insn_buffer_size c ->
  sz * (n + 256) < 2 ^ 32 -> _ir_insn_buffer_size c <= sz * (n + 256) ->
  exists c', ensure_buffer sz n c = Ok c' /\ sz * n <= _ir_insn_buffer_size c' <= sz * (n + 256) /\
    _ir_insns c' = _ir_insns c.
Proof.
  intros Hsz Hn Hb Hlow Hof Hup. unfold ensure_buffer.
  replace (u32 (sz * n)) with (sz * n) by (symmetry; apply wrap_small; unfold in_range; nia).
  destruct (Z.ltb_spec (_ir_insn_buffer_size c) (sz * n)).
  - replace (u32 (_ir_insn_buffer_size c + sz * 256)) with (_ir_insn_buffer_size c + sz * 256)
      by (symmetry; apply wrap_small; unfold in_range; nia).
    replace (sz * n <=? _ir_insn_buffer_size c + sz * 256) with true by (symmetry; apply Z.leb_le; nia).
    eexists. split; [reflexivity |]. cbn. split; [nia | reflexivity].
  - eexists. split; [reflexivity |]. split; [nia | reflexivity].
Qed.

(** As long as the byte size of the buffer fits in 32 bits,
    adding any sequence of instructions to a new context succeeds, stores
    exactly those instructions in order, and the recorded capacity covers
    them. *)
Theorem add_instructions_ok sz l :
  0 < sz -> sz * (Z.of_nat (List.length l) + 512) < 2 ^ 32 ->
  exists c, add_all sz l new_TranslationContext = Ok c /\ _ir_insns c = map insn_of l /\ buffer_inv sz c.
Proof.
  intros Hsz Hl.
  assert (Hgen : forall l c, sz * (ctx_count c + Z.of_nat (List.length l) + 512) < 2 ^ 32 ->
    sz * ctx_count c <= _ir_insn_buffer_size c <= sz * (ctx_count c + 256) ->
    exists c', add_all sz l c = Ok c' /\ _ir_insns c' = _ir_insns c ++ map insn_of l /\ buffer_inv sz c').
  { clear l Hl. induction l as [| [b body] l IH]; intros c Hof Hb; cbn [add_all map].
    - exists c. rewrite app_nil_r. split; [reflexivity |]. split; [reflexivity | apply Hb].
    - cbn [List.length] in Hof. unfold add_instruction.
      destruct (ensure_buffer_total sz (ctx_count c + 1) c) as (c1 & -> & Hb1 & Hi);
        try (unfold ctx_count in *; nia).
      cbn [rbind]. set (c2 := with_insns _ c1).
      assert (Hc2 : ctx_count c2 = ctx_count c + 1).
      { unfold c2, ctx_count. cbn. rewrite Hi, length_app. cbn. lia. }
      destruct (IH c2) as (c3 & -> & Hi3 & Hinv3).
      + rewrite Hc2. lia.
      + rewrite Hc2. cbn. nia.
      + exists c3. split; [reflexivity |]. split; [| assumption].
        rewrite Hi3. cbn. rewrite Hi, <- app_assoc. reflexivity. }
  destruct (Hgen l new_TranslationContext) as (c & H1 & H2 & H3);
    change (ctx_count new_TranslationContext) with 0;
    change (_ir_insn_buffer_size new_TranslationContext) with 0; [lia | lia |]. eauto.
Qed.

Lemma add_instructions_ok_witness :
  exists c, add_all 56 [(0, (NOP, [])); (0, (RET, []))] new_TranslationContext = Ok c /\
    List.length (_ir_insns c) = 2%nat.
Proof.
  destruct (add_instructions_ok 56 [(0, (NOP, [])); (0, (RET, []))]) as (c & H1 & H2 & _);
    [lia | vm_compute; reflexivity |].
  exists c. split; [exact H1 |]. rewrite H2. reflexivity.
Defined.

(** [trim] records the new capacity in instructions although the
    buffer size is in bytes: with instructions of 56 bytes, a trimmed buffer
    of 300 instructions can no longer grow, and adding an instruction fails
    its assertion. *)
Theorem trim_breaks_capacity :
  exists c c', add_all 56 (replicate 300 (0, (RET, [])) ++ [(NOP_BLOCK, (NOP, []))])
                 new_TranslationContext = Ok c /\ c' = trim c /\
    ~ buffer_inv 56 c' /\ add_instruction 56 0 (RET, []) c' = Err AssertFailed.
Proof.
  eexists _, _. split; [vm_compute; reflexivity |]. split; [reflexivity |].
  split; [unfold buffer_inv; vm_compute; congruence |]. vm_compute. reflexivity.
Qed.

(** ** Constructors and descriptors agree *)

Fixpoint count_letters (s : string) : nat :=
  match s with
  | EmptyString => 0
  | String c r => if Ascii.eqb c "X" then count_letters r else S (count_letters r)
  end.
Definition arity (t : IRInstructionType) : nat := count_letters (format (descriptor t)).

(** Operand [i] is written by the instruction. *)
Definition is_output (t : IRInstructionType) (i : nat) : bool :=
  Ascii.eqb (format_at t i) "O" || Ascii.eqb (format_at t i) "B".

Definition is_vector (t : IRInstructionType) : bool :=
  match t with
  | VADDI | VADDF | VSUBI | VSUBF | VMULI | VMULF | VORI | VANDI | VXORI
  | VCMPEQI | VCMPGTI | VCMPGTEI | VCMPLTF => true
  | _ => false
  end.

Definition outputs_are_vregs (body : IRBody) : bool :=
  forallb (fun p => implb (is_output (fst body) (fst p)) (is_vreg (snd p)))
    (combine (seq 0 (List.length (snd body))) (snd body)).

(** An instruction agrees with the descriptor of its type: it has one operand
    per letter of the format, and every operand the format marks as written is
    a virtual register. *)
Definition conforms (body : IRBody) : bool :=
  Nat.eqb (List.length (snd body)) (arity (fst body)) && outputs_are_vregs body.

(** The constructors that disagree with the table, each with how it does. *)
Inductive deviates : IRBody -> Prop :=
| barrier_without_operand : deviates (BARRIER, [])
| profile_with_two a b : deviates (PROFILE, [a; b])
| call_with_fewer ops : (1 <= List.length ops < 6)%nat -> deviates (CALL, ops)
| vector_unchecked t ops : is_vector t = true -> List.length ops = arity t -> outputs_are_vregs (t, ops) = false -> deviates (t, ops).

Lemma vector_case t ops : is_vector t = true -> List.length ops = arity t -> conforms (t, ops) = true \/ deviates (t, ops).
Proof.
  intros Hv Hl. unfold conforms. cbn [fst snd]. rewrite Hl, Nat.eqb_refl. cbn [andb].
  destruct (outputs_are_vregs (t, ops)) eqn:E; [left; reflexivity | right; now apply vector_unchecked].
Qed.

(** One constructor: the entry of its type is computed, and what the
    constructor has checked of its operands is what the entry asks for. *)
Ltac builder_case :=
  let ops := fresh "ops" in let body := fresh "body" in let E := fresh "E" in
  intros ops body E;
  do 7 (try (destruct ops as [| ? ops]; try discriminate E)); cbn [run_builder] in E;
  match type of E with ?f = Ok _ => let h := head_of f in unfold h in E end;
  bind_inv E; apply Ok_inj in E; subst body;
  repeat match goal with H : (_ && _)%bool = true |- _ => apply andb_true_iff in H as [? ?] end;
  first
  [ left; vm_compute; repeat match goal with H : is_vreg _ = true |- _ => vm_compute in H; try rewrite H; clear H end; reflexivity
  | right; apply barrier_without_operand
  | right; apply profile_with_two
  | right; apply call_with_fewer; cbn; lia
  | apply vector_case; reflexivity ]
with head_of f := lazymatch f with ?g _ => head_of g | ?g => g end.

Lemma builders_conform_all :
  Forall (fun b => forall ops body, run_builder b ops = Ok body -> conforms body = true \/ deviates body) builders.
Proof. unfold builders. repeat (apply Forall_cons; [builder_case |]). apply Forall_nil. Qed.

(** C39. Whatever an instruction constructor of [IRInstruction] returns either
    agrees with the descriptor of its type, with one operand per letter of the
    format and a virtual register wherever the format says that the operand is
    written, or is one of the four deviations: a barrier has no operand where
    its format has one; a profile has two where its format has one; a call has
    fewer than its format's six; and a vector instruction may have any operand
    in the place it writes, since its constructor does not check it. *)
Theorem builders_conform b ops body :
  b ∈ builders -> run_builder b ops = Ok body -> conforms body = true \/ deviates body.
Proof.
  intros Hb. pose proof builders_conform_all as H. rewrite Forall_forall in H. apply (H b), list_elem_of_In, Hb.
Qed.

Lemma builders_conform_witness :
  conforms (ADD, [constant 5 4; vreg 7 4]) = true \/ deviates (ADD, [constant 5 4; vreg 7 4]).
Proof.
  apply (builders_conform (B2 Build.add) [constant 5 4; vreg 7 4]); [| reflexivity].
  unfold builders. rewrite !elem_of_cons. repeat (first [left; reflexivity | right]).
Defined.
