(* ===== verification/IRSorter.v ===== *)
(** * Sorting the instruction buffer by block

    archsim/inc/blockjit/ir-sorter.h, archsim/src/blockjit/ir-sorter.cpp and
    SortIRTransform.cpp.  A sorter permutes [insn_idxs], an array of indices
    into the buffer, by the block of the instruction each index names;
    [perform_sort] then copies the instructions in that order, one run of
    consecutive indices at a time.  Array positions that the code holds in
    [int] are integers here.  Loops and recursions that are not structural take
    fuel; the entry points supply enough of it, as their theorems show. *)

From stdpp Require Import base list numbers sorting.
From Stdlib Require Import ZArith Lia Bool.
From S2P Require Import Prelude.
From S2P Require Import BlockIR.

Section Sorter.
(** The block of the instruction at an index of the buffer. *)
Context (block_of : nat -> Z).

Definition key (a : list nat) (i : Z) : Z := block_of (nth (Z.to_nat i) a 0%nat).
Definition exchange (i j : Z) (a : list nat) : list nat :=
  let x := nth (Z.to_nat i) a 0%nat in
  let y := nth (Z.to_nat j) a 0%nat in
  <[Z.to_nat j := x]> (<[Z.to_nat i := y]> a).
Definition compare (a : list nat) (i j : Z) : Z := sext 32 (u32 (key a i - key a j)).

(** ** Merge sort *)

Fixpoint reverse_loop (fuel : nat) (from to : Z) (a : list nat) : list nat :=
  match fuel with
  | O => a
  | S n => if from <? to then reverse_loop n (from + 1) (to - 1) (exchange from to a) else a
  end.
Definition reverse (from to : Z) (a : list nat) : list nat :=
  reverse_loop (Z.to_nat (to - from)) from to a.

Definition rotate (from mid to : Z) (a : list nat) : list nat :=
  reverse from (to - 1) (reverse mid (to - 1) (reverse from (mid - 1) a)).

Fixpoint upper_loop (fuel : nat) (a : list nat) (from len val : Z) : Z :=
  match fuel with
  | O => from
  | S n =>
      if 0 <? len then
        let half := Z.quot len 2 in
        let mid := from + half in
        if compare a val mid <? 0 then upper_loop n a from half val
        else upper_loop n a (mid + 1) (len - half - 1) val
      else from
  end.
Definition upper (a : list nat) (from to val : Z) : Z :=
  upper_loop (Z.to_nat (to - from)) a from (to - from) val.

Fixpoint lower_loop (fuel : nat) (a : list nat) (from len val : Z) : Z :=
  match fuel with
  | O => from
  | S n =>
      if 0 <? len then
        let half := Z.quot len 2 in
        let mid := from + half in
        if compare a mid val <? 0 then lower_loop n a (mid + 1) (len - half - 1) val
        else lower_loop n a from half val
      else from
  end.
Definition lower (a : list nat) (from to val : Z) : Z :=
  lower_loop (Z.to_nat (to - from)) a from (to - from) val.

Fixpoint merge (fuel : nat) (from pivot to len1 len2 : Z) (a : list nat) : list nat :=
  match fuel with
  | O => a
  | S n =>
      if (len1 =? 0) || (len2 =? 0) then a
      else if len1 + len2 =? 2 then
        if compare a pivot from <? 0 then exchange pivot from a else a
      else
        let '(first_cut, second_cut, len11, len22) :=
          if len2 <? len1 then
            let len11 := Z.quot len1 2 in
            let first_cut := from + len11 in
            let second_cut := lower a pivot to first_cut in
            (first_cut, second_cut, len11, second_cut - pivot)
          else
            let len22 := Z.quot len2 2 in
            let second_cut := pivot + len22 in
            let first_cut := upper a from pivot second_cut in
            (first_cut, second_cut, first_cut - from, len22) in
        let a1 := rotate first_cut pivot second_cut a in
        let new_mid := first_cut + len22 in
        let a2 := merge n from first_cut new_mid len11 len22 a1 in
        merge n new_mid second_cut to (len1 - len11) (len2 - len22) a2
  end.

(** The inner loop of [insert_sort], from [j] down to [from]. *)
Fixpoint sink (fuel : nat) (from j : Z) (a : list nat) : list nat :=
  match fuel with
  | O => a
  | S n =>
      if from <? j then
        if compare a j (j - 1) <? 0 then sink n from (j - 1) (exchange j (j - 1) a) else a
      else a
  end.
Fixpoint insert_loop (fuel : nat) (from i to : Z) (a : list nat) : list nat :=
  match fuel with
  | O => a
  | S n =>
      if i <? to then insert_loop n from (i + 1) to (sink (Z.to_nat (i - from)) from i a) else a
  end.
Definition insert_sort (from to : Z) (a : list nat) : list nat :=
  if from + 1 <? to then insert_loop (Z.to_nat (to - from)) from (from + 1) to a else a.

Fixpoint sort (fuel : nat) (from to : Z) (a : list nat) : list nat :=
  match fuel with
  | O => a
  | S n =>
      if to - from <? 200 then insert_sort from to a
      else
        let middle := Z.quot (from + to) 2 in
        let a1 := sort n from middle a in
        let a2 := sort n middle to a1 in
        merge (Z.to_nat (to - from)) from middle to (middle - from) (to - middle) a2
  end.

Definition MergeSort_do_sort (a : list nat) : list nat :=
  sort (S (length a)) 0 (Z.of_nat (length a)) a.

(** ** The NOP filter *)

(** [fast_ptr] advanced to the next index that is not a NOP. *)
Fixpoint next_real (fuel : nat) (a : list nat) (fast : Z) : Z :=
  match fuel with
  | O => fast
  | S n =>
      if fast <? Z.of_nat (length a) then
        if negb (key a fast =? NOP_BLOCK) then fast else next_real n a (fast + 1)
      else fast
  end.

Fixpoint filter_loop (fuel : nat) (slow fast : Z) (a : list nat) : list nat :=
  match fuel with
  | O => a
  | S n =>
      if slow <? Z.of_nat (length a) then
        if key a slow =? NOP_BLOCK then
          let fast1 := if fast <=? slow then slow + 1 else fast in
          let fast2 := next_real (length a) a fast1 in
          if Z.of_nat (length a) <=? fast2 then a
          else filter_loop n (slow + 1) fast2 (exchange slow fast2 a)
        else filter_loop n (slow + 1) fast a
      else a
  end.
Definition NopFilter_do_sort (a : list nat) : list nat := filter_loop (S (length a)) 0 1 a.

End Sorter.

(** ** Copying *)

Fixpoint run_loop (fuel : nat) (idxs : list nat) (first_idx size : nat) : nat :=
  match fuel with
  | O => size
  | S n =>
      match idxs !! size with
      | Some x => if Nat.eqb x (first_idx + size) then run_loop n idxs first_idx (S size) else size
      | None => size
      end
  end.
(** The length of the run of consecutive indices at the head of [idxs]. *)
Definition find_run_size (idxs : list nat) : nat :=
  match idxs with
  | [] => 0
  | first_idx :: _ => run_loop (S (length idxs)) idxs first_idx 0
  end.

Fixpoint copy_runs (fuel : nat) (idxs : list nat) (buf : list IRInstruction) : list IRInstruction :=
  match fuel, idxs with
  | S n, i :: _ =>
      let run_size := find_run_size idxs in
      take run_size (drop i buf) ++ copy_runs n (drop run_size idxs) buf
  | _, _ => []
  end.

Definition insn_block (buf : list IRInstruction) (i : nat) : Z :=
  match buf !! i with Some insn => ir_block insn | None => 0 end.

Definition perform_sort (do_sort : (nat -> Z) -> list nat -> list nat) (buf : list IRInstruction)
  : list IRInstruction :=
  let insn_idxs := do_sort (insn_block buf) (seq 0 (length buf)) in
  copy_runs (length insn_idxs) insn_idxs buf.

(** ** The transform *)

(** The flags after scanning: is the IR sorted, are the NOPs at the end. *)
Record scan := mkScan { ir_sorted : bool; nops_sorted : bool; found_nops : bool; prev_block : Z }.

Definition scan_insn (s : scan) (i : IRInstruction) : scan :=
  let block := ir_block i in
  if block =? NOP_BLOCK then mkScan (ir_sorted s) (nops_sorted s) true (prev_block s)
  else mkScan (if block <? prev_block s then false else ir_sorted s)
              (if found_nops s then false else nops_sorted s) (found_nops s) block.

Definition SortIR_scan (l : list IRInstruction) (first : Z) : scan :=
  fold_left scan_insn l (mkScan true true false first).

Definition SortIRTransform_Apply (c : TranslationContext) : result TranslationContext :=
  let* first := of_option UndefinedBehaviour (head (_ir_insns c)) in
  let s := SortIR_scan (_ir_insns c) (ir_block first) in
  if negb (ir_sorted s) then Ok (with_insns (perform_sort MergeSort_do_sort (_ir_insns c)) c)
  else if negb (nops_sorted s) then Ok (with_insns (perform_sort NopFilter_do_sort (_ir_insns c)) c)
  else Ok c.
