(* ===== verification/IRSorterCorrect.v ===== *)
(** * Correctness of the instruction sorters

    The in-place merge sort is a stable sort: its result is the unique
    permutation of the indices that is increasing in (block, index).  The NOP
    filter moves the NOPs to the end and keeps the order of the rest.
    [perform_sort] copies exactly the permuted instructions, so that the
    transform leaves the code of every block as it was. *)

From Stdlib Require Import ZArith Lia Bool Sorted.
From stdpp Require Import base list numbers sets sorting.
From S2P Require Import Prelude.
From S2P Require Import BlockIR.
From S2P Require Import IRSorter.

Abbreviation pos l := (Z.of_nat (length l)).

(** ** Arrays split into segments *)

Lemma nth_at {A} (l : list A) x r d n : n = pos l -> nth (Z.to_nat n) (l ++ x :: r) d = x.
Proof. intros ->. rewrite Nat2Z.id. apply nth_middle. Qed.

Lemma insert_at {A} (l : list A) x y r n :
  n = pos l -> <[Z.to_nat n := y]> (l ++ x :: r) = l ++ y :: r.
Proof. intros ->. rewrite Nat2Z.id. rewrite <- (Nat.add_0_r (length l)), insert_app_r. reflexivity. Qed.

Lemma exchange_segments l x m y r i j :
  i = pos l -> j = pos l + 1 + pos m ->
  exchange i j (l ++ x :: m ++ y :: r) = l ++ y :: m ++ x :: r /\
  exchange j i (l ++ x :: m ++ y :: r) = l ++ y :: m ++ x :: r.
Proof.
  intros Hi Hj. unfold exchange.
  assert (E : forall u v, l ++ u :: m ++ v :: r = (l ++ u :: m) ++ v :: r)
    by (intros; rewrite <- app_assoc; reflexivity).
  assert (Hj' : forall u, j = pos (l ++ u :: m)) by (intros; rewrite length_app; simpl; lia).
  rewrite (nth_at l x) by assumption. rewrite E, (nth_at _ y) by apply Hj'. rewrite <- E. split.
  - rewrite (insert_at l x) by assumption. rewrite E, insert_at by apply Hj'. rewrite <- E. reflexivity.
  - rewrite E, insert_at by apply Hj'. rewrite <- E. rewrite insert_at by assumption. reflexivity.
Qed.

Lemma reverse_loop_segments fuel l m r from to :
  (length m <= S fuel)%nat -> from = pos l -> to = pos l + pos m - 1 ->
  reverse_loop fuel from to (l ++ m ++ r) = l ++ rev m ++ r.
Proof.
  revert l m r from to. induction fuel as [| fuel IH]; intros l m r from to Hm Hf Ht; cbn [reverse_loop].
  - destruct m as [| x [| y m]]; cbn in *; [reflexivity | reflexivity | lia].
  - destruct (Z.ltb_spec from to).
    + destruct m as [| x m]; [simpl in *; lia |].
      destruct m as [| y m] using rev_ind; [simpl in *; lia |]. clear IHm.
      rewrite <- app_comm_cons, <- (app_assoc m [y] r). cbn [app].
      simpl in Hm, Ht. rewrite length_app in Hm, Ht. simpl in Hm, Ht.
      destruct (exchange_segments l x m y r from to Hf ltac:(lia)) as [-> _].
      replace (l ++ y :: m ++ x :: r) with ((l ++ [y]) ++ m ++ x :: r) by (rewrite <- app_assoc; reflexivity).
      rewrite IH by (rewrite ?length_app; simpl; lia).
      cbn [rev]. rewrite rev_app_distr. simpl. rewrite <- !app_assoc. reflexivity.
    + destruct m as [| x [| y m]]; [reflexivity | reflexivity | simpl in *; lia].
Qed.

Lemma reverse_segments l m r from to :
  from = pos l -> to = pos l + pos m - 1 -> reverse from to (l ++ m ++ r) = l ++ rev m ++ r.
Proof. intros Hf Ht. apply reverse_loop_segments; lia. Qed.

Lemma rotate_segments l A B r from mid to :
  from = pos l -> mid = pos l + pos A -> to = pos l + pos A + pos B ->
  rotate from mid to (l ++ A ++ B ++ r) = l ++ B ++ A ++ r.
Proof.
  intros Hf Hm Ht. unfold rotate. rewrite reverse_segments by lia.
  rewrite (app_assoc l). rewrite reverse_segments by (rewrite length_app, length_rev; lia).
  rewrite <- (app_assoc l), (app_assoc (rev A)), reverse_segments by (rewrite ?length_app, ?length_rev; lia).
  rewrite rev_app_distr, !rev_involutive, <- app_assoc. reflexivity.
Qed.

Section Correct.
Context (block_of : nat -> Z).
Hypothesis block_range : forall i, 0 <= block_of i < 2 ^ 31.

(** Sorted by block, and within a block by position in the buffer. *)
Definition precedes (i j : nat) : Prop :=
  block_of i < block_of j \/ (block_of i = block_of j /\ (i < j)%nat).

Lemma precedes_block i j : precedes i j -> block_of i <= block_of j.
Proof. intros [H | [H _]]; lia. Qed.
Lemma precedes_irrefl i : ~ precedes i i.
Proof. intros [H | [_ H]]; lia. Qed.
Lemma precedes_trans i j k : precedes i j -> precedes j k -> precedes i k.
Proof. unfold precedes. lia. Qed.
Lemma precedes_lt i j : (i < j)%nat -> block_of i <= block_of j -> precedes i j.
Proof. unfold precedes. lia. Qed.

(** Every element of [l1] before every element of [l2]. *)
Definition all_before (l1 l2 : list nat) : Prop :=
  forall x y, x ∈ l1 -> y ∈ l2 -> precedes x y.

Lemma sorted_app l1 l2 :
  StronglySorted precedes (l1 ++ l2) <->
  StronglySorted precedes l1 /\ StronglySorted precedes l2 /\ all_before l1 l2.
Proof.
  induction l1 as [| x l1 IH]; simpl.
  - split; [intros H | intros (_ & H & _); exact H]. split; [constructor |]. split; [assumption |].
    intros a b Ha. inversion Ha.
  - split.
    + intros H. inversion H as [| ? ? Hs Hf]; subst. apply IH in Hs as (H1 & H2 & H3).
      apply Forall_app in Hf as [Hf1 Hf2]. split; [constructor; assumption |]. split; [assumption |].
      intros a b Ha Hb. apply elem_of_cons in Ha as [-> | Ha]; [| apply H3; assumption].
      rewrite Forall_forall in Hf2. auto.
    + intros (H1 & H2 & H3). inversion H1 as [| ? ? Hs Hf]; subst. constructor.
      * apply IH. split; [assumption |]. split; [assumption |]. intros a b Ha Hb. apply H3; set_solver.
      * apply Forall_app. split; [assumption |]. apply Forall_forall.
        intros b Hb. apply H3; set_solver.
Qed.

Lemma sorted_pair x y : precedes x y -> StronglySorted precedes [x; y].
Proof. intros H. apply (sorted_app [x] [y]). split; [repeat constructor |]. split; [repeat constructor |].
  intros a b ->%list_elem_of_singleton ->%list_elem_of_singleton. exact H.
Qed.

Lemma compare_neg a i j : (compare block_of a i j <? 0) = (key block_of a i <? key block_of a j).
Proof.
  unfold compare, key. set (x := block_of _). set (y := block_of _).
  pose proof (block_range (nth (Z.to_nat i) a 0%nat)). pose proof (block_range (nth (Z.to_nat j) a 0%nat)).
  fold x in H. fold y in H0. unfold sext. unfold u32. rewrite wrap_wrap by lia.
  change (2 ^ (32 - 1)) with (2 ^ 31). unfold wrap.
  destruct (Z.ltb_spec x y).
  - rewrite <- (Z.mod_unique (x - y) (2 ^ 32) (-1) (x - y + 2 ^ 32)) by lia.
    destruct (Z.ltb_spec (x - y + 2 ^ 32) (2 ^ 31)); [lia |]. apply Z.ltb_lt. lia.
  - rewrite Z.mod_small by lia. destruct (Z.ltb_spec (x - y) (2 ^ 31)); [| lia]. apply Z.ltb_ge. lia.
Qed.

Lemma key_at l x r i : i = pos l -> key block_of (l ++ x :: r) i = block_of x.
Proof. intros. unfold key. rewrite nth_at by assumption. reflexivity. Qed.

Lemma key_in l m r i :
  pos l <= i < pos l + pos m -> exists x, x ∈ m /\ key block_of (l ++ m ++ r) i = block_of x.
Proof.
  intros Hi. destruct (lookup_lt_is_Some_2 m (Z.to_nat (i - pos l))) as [x Hx]; [lia |].
  exists x. split; [eapply list_elem_of_lookup_2; eauto |].
  apply take_drop_middle in Hx as Hm. rewrite <- Hm, <- app_assoc, app_assoc, <- app_comm_cons.
  apply key_at. rewrite length_app, length_take. apply lookup_lt_Some in Hx. lia.
Qed.

(** ** Binary searches *)

Lemma lower_loop_spec fuel a from len val c :
  (Z.to_nat len <= fuel)%nat -> from <= c <= from + len ->
  (forall m, from <= m < c -> key block_of a m < key block_of a val) ->
  (forall m, c <= m < from + len -> key block_of a val <= key block_of a m) ->
  lower_loop block_of fuel a from len val = c.
Proof.
  revert from len. induction fuel as [| fuel IH]; intros from len Hf Hc Hlo Hhi; cbn [lower_loop]; [lia |].
  destruct (Z.ltb_spec 0 len); [| lia]. rewrite compare_neg, Z.quot_div_nonneg by lia.
  pose proof (Z.div_mod len 2 ltac:(lia)). pose proof (Z.mod_pos_bound len 2 ltac:(lia)).
  set (half := len / 2) in *.
  destruct (Z.ltb_spec (key block_of a (from + half)) (key block_of a val)) as [Hk | Hk].
  - destruct (Z.lt_ge_cases (from + half) c); [| specialize (Hhi (from + half) ltac:(lia)); lia].
    apply IH; try lia; intros m Hm; [apply Hlo | apply Hhi]; lia.
  - destruct (Z.lt_ge_cases (from + half) c); [specialize (Hlo (from + half) ltac:(lia)); lia |].
    apply IH; try lia; intros m Hm; [apply Hlo | apply Hhi]; lia.
Qed.

Lemma upper_loop_spec fuel a from len val c :
  (Z.to_nat len <= fuel)%nat -> from <= c <= from + len ->
  (forall m, from <= m < c -> key block_of a m <= key block_of a val) ->
  (forall m, c <= m < from + len -> key block_of a val < key block_of a m) ->
  upper_loop block_of fuel a from len val = c.
Proof.
  revert from len. induction fuel as [| fuel IH]; intros from len Hf Hc Hlo Hhi; cbn [upper_loop]; [lia |].
  destruct (Z.ltb_spec 0 len); [| lia]. rewrite compare_neg, Z.quot_div_nonneg by lia.
  pose proof (Z.div_mod len 2 ltac:(lia)). pose proof (Z.mod_pos_bound len 2 ltac:(lia)).
  set (half := len / 2) in *.
  destruct (Z.ltb_spec (key block_of a val) (key block_of a (from + half))) as [Hk | Hk].
  - destruct (Z.lt_ge_cases (from + half) c); [specialize (Hlo (from + half) ltac:(lia)); lia |].
    apply IH; try lia; intros m Hm; [apply Hlo | apply Hhi]; lia.
  - destruct (Z.lt_ge_cases (from + half) c); [| specialize (Hhi (from + half) ltac:(lia)); lia].
    apply IH; try lia; intros m Hm; [apply Hlo | apply Hhi]; lia.
Qed.

(** A sorted list splits at a block. *)
Lemma split_below p l :
  StronglySorted precedes l -> exists l1 l2, l = l1 ++ l2 /\
    (forall x, x ∈ l1 -> block_of x < p) /\ (forall x, x ∈ l2 -> p <= block_of x).
Proof.
  induction 1 as [| x l Hs IH Hf]; [exists [], []; set_solver |].
  destruct (Z.lt_ge_cases (block_of x) p).
  - destruct IH as (l1 & l2 & -> & H1 & H2). exists (x :: l1), l2. split; [reflexivity |]. split; [| assumption].
    intros y Hy. apply elem_of_cons in Hy as [-> | Hy]; auto.
  - exists [], (x :: l). split; [reflexivity |]. split; [set_solver |].
    intros y Hy. apply elem_of_cons in Hy as [-> | Hy]; [lia |].
    rewrite Forall_forall in Hf. specialize (Hf y Hy). apply precedes_block in Hf. lia.
Qed.

Lemma lower_segments l B r val x :
  StronglySorted precedes B -> key block_of (l ++ B ++ r) val = block_of x ->
  exists B1 B2, B = B1 ++ B2 /\
    lower block_of (l ++ B ++ r) (pos l) (pos l + pos B) val = pos l + pos B1 /\
    (forall y, y ∈ B1 -> block_of y < block_of x) /\ (forall y, y ∈ B2 -> block_of x <= block_of y).
Proof.
  intros Hs Hv. destruct (split_below (block_of x) B Hs) as (B1 & B2 & -> & H1 & H2).
  exists B1, B2. split; [reflexivity |]. split; [| auto]. rewrite length_app. unfold lower.
  apply lower_loop_spec; try lia; intros m Hm; rewrite Hv.
  - rewrite <- app_assoc. destruct (key_in l B1 (B2 ++ r) m ltac:(lia)) as (y & Hy & ->). auto.
  - rewrite <- app_assoc, app_assoc.
    destruct (key_in (l ++ B1) B2 r m) as (y & Hy & ->); [rewrite length_app; lia |]. auto.
Qed.

Lemma upper_segments l A r val x :
  StronglySorted precedes A -> key block_of (l ++ A ++ r) val = block_of x ->
  exists A1 A2, A = A1 ++ A2 /\
    upper block_of (l ++ A ++ r) (pos l) (pos l + pos A) val = pos l + pos A1 /\
    (forall y, y ∈ A1 -> block_of y <= block_of x) /\ (forall y, y ∈ A2 -> block_of x < block_of y).
Proof.
  intros Hs Hv. destruct (split_below (block_of x + 1) A Hs) as (A1 & A2 & -> & H1 & H2).
  exists A1, A2. split; [reflexivity |]. rewrite length_app. unfold upper. split.
  - apply upper_loop_spec; try lia; intros m Hm; rewrite Hv.
    + rewrite <- app_assoc. destruct (key_in l A1 (A2 ++ r) m ltac:(lia)) as (y & Hy & ->).
      specialize (H1 y Hy). lia.
    + rewrite <- app_assoc, app_assoc.
      destruct (key_in (l ++ A1) A2 r m) as (y & Hy & ->); [rewrite length_app; lia |].
      specialize (H2 y Hy). lia.
  - split; intros y Hy; [specialize (H1 y Hy) | specialize (H2 y Hy)]; lia.
Qed.

(** ** Merging *)

(** The two cuts of [merge] leave both halves smaller and the elements of the
    first before those of the second. *)
Record cut (A B A1 A2 B1 B2 : list nat) : Prop := {
  cut_A : A = A1 ++ A2;
  cut_B : B = B1 ++ B2;
  cut_first : (length A1 + length B1 < length A + length B)%nat;
  cut_second : (length A2 + length B2 < length A + length B)%nat;
  cut_order : all_before (A1 ++ B1) (A2 ++ B2)
}.

(** All indices of [A] are below those of [B]: [A] was first in the buffer. *)
Definition idx_below (A B : list nat) : Prop := forall x y, x ∈ A -> y ∈ B -> (x < y)%nat.

Lemma cut_before A1 A2 B1 B2 p :
  StronglySorted precedes (A1 ++ A2) -> StronglySorted precedes (B1 ++ B2) ->
  idx_below (A1 ++ A2) (B1 ++ B2) ->
  (forall x, x ∈ A1 -> block_of x <= p) -> (forall y, y ∈ B2 -> p <= block_of y) ->
  (forall y z, y ∈ B1 -> z ∈ A2 -> block_of y < block_of z) ->
  all_before (A1 ++ B1) (A2 ++ B2).
Proof.
  intros HA HB Hidx H1 H2 H3 x y Hx Hy.
  apply sorted_app in HA as (_ & _ & HA). apply sorted_app in HB as (_ & _ & HB).
  apply elem_of_app in Hx as [Hx | Hx]; apply elem_of_app in Hy as [Hy | Hy]; auto.
  - apply precedes_lt; [apply Hidx; set_solver |]. specialize (H1 x Hx). specialize (H2 y Hy). lia.
  - left. auto.
Qed.

Lemma split_half (l : list nat) :
  (2 <= length l)%nat -> exists l1 p l2, l = l1 ++ p :: l2 /\ (1 <= length l1)%nat /\
    pos l1 = Z.quot (pos l) 2.
Proof.
  intros Hl. pose proof (Nat.div_mod (length l) 2 ltac:(lia)) as Hd.
  pose proof (Nat.mod_upper_bound (length l) 2 ltac:(lia)) as Hm.
  destruct (lookup_lt_is_Some_2 l (length l / 2)) as [p Hp]; [lia |].
  exists (take (length l / 2) l), p, (drop (S (length l / 2)) l).
  split; [symmetry; apply take_drop_middle; assumption |].
  rewrite length_take, Nat.min_l, Z.quot_div_nonneg, Nat2Z.inj_div by lia. split; [lia | reflexivity].
Qed.

(** The head of a sorted segment is below the rest, and above what comes before. *)
Lemma sorted_pivot l1 p l2 :
  StronglySorted precedes (l1 ++ p :: l2) ->
  (forall x, x ∈ l1 -> block_of x <= block_of p) /\ (forall z, z ∈ p :: l2 -> block_of p <= block_of z).
Proof.
  intros H. apply sorted_app in H as (_ & H2 & H3). split.
  - intros x Hx. apply precedes_block, H3; [assumption | left].
  - inversion H2 as [| ? ? _ Hf]; subst. rewrite Forall_forall in Hf.
    intros z Hz. apply elem_of_cons in Hz as [-> | Hz]; [lia | apply precedes_block; auto].
Qed.

Lemma cut_low l A B r :
  (length B < length A)%nat -> (0 < length B)%nat ->
  StronglySorted precedes A -> StronglySorted precedes B -> idx_below A B ->
  let a := l ++ A ++ B ++ r in
  exists A1 A2 B1 B2, cut A B A1 A2 B1 B2 /\ pos A1 = Z.quot (pos A) 2 /\
    lower block_of a (pos l + pos A) (pos l + pos A + pos B) (pos l + pos A1)
      = pos l + pos A + pos B1.
Proof.
  intros Hlt Hpos HA HB Hidx a.
  destruct (split_half A ltac:(lia)) as (A1 & p & A2 & EA & L1 & Lq).
  assert (Ea : a = (l ++ A) ++ B ++ r) by (unfold a; rewrite <- app_assoc; reflexivity).
  destruct (lower_segments (l ++ A) B r (pos l + pos A1) p HB) as (B1 & B2 & EB & Hl & H1 & H2).
  { rewrite EA, <- !app_assoc, app_assoc, <- app_comm_cons. apply key_at. rewrite length_app. lia. }
  destruct (sorted_pivot A1 p A2) as [HpA HpA2]; [rewrite <- EA; assumption |].
  exists A1, (p :: A2), B1, B2. split; [| split; [assumption |]].
  - apply (f_equal length) in EA as LA. rewrite length_app in LA. simpl in LA.
    apply (f_equal length) in EB as LB. rewrite length_app in LB. split; auto; [lia | simpl; lia |].
    apply (cut_before A1 (p :: A2) B1 B2 (block_of p)); rewrite <- ?EA, <- ?EB; auto.
    intros y z Hy Hz. specialize (H1 y Hy). specialize (HpA2 z Hz). lia.
  - rewrite Ea. rewrite length_app, Nat2Z.inj_add in Hl. exact Hl.
Qed.

Lemma cut_high l A B r :
  (length A <= length B)%nat -> (0 < length A)%nat -> (2 < length A + length B)%nat ->
  StronglySorted precedes A -> StronglySorted precedes B -> idx_below A B ->
  let a := l ++ A ++ B ++ r in
  exists A1 A2 B1 B2, cut A B A1 A2 B1 B2 /\ pos B1 = Z.quot (pos B) 2 /\
    upper block_of a (pos l) (pos l + pos A) (pos l + pos A + pos B1) = pos l + pos A1.
Proof.
  intros Hle Hpos H3 HA HB Hidx a.
  destruct (split_half B ltac:(lia)) as (B1 & q & B2 & EB & L1 & Lq).
  destruct (upper_segments l A (B ++ r) (pos l + pos A + pos B1) q HA) as (A1 & A2 & EA & Hl & H1 & H2).
  { rewrite EB, <- app_assoc, <- app_comm_cons, !app_assoc. apply key_at. rewrite !length_app. lia. }
  destruct (sorted_pivot B1 q B2) as [HqB HqB2]; [rewrite <- EB; assumption |].
  exists A1, A2, B1, (q :: B2). split; [| split; assumption].
  apply (f_equal length) in EA as LA. rewrite length_app in LA.
  apply (f_equal length) in EB as LB. rewrite length_app in LB. simpl in LB. split; auto; [lia | simpl; lia |].
  apply (cut_before A1 A2 B1 (q :: B2) (block_of q)); rewrite <- ?EA, <- ?EB; auto.
  intros y z Hy Hz. specialize (HqB y Hy). specialize (H2 z Hz). lia.
Qed.

Lemma idx_below_sub A B A' B' :
  idx_below A B -> (forall x, x ∈ A' -> x ∈ A) -> (forall y, y ∈ B' -> y ∈ B) -> idx_below A' B'.
Proof. intros H HA HB x y Hx Hy. apply H; auto. Qed.

(** Two runs of one element. *)
Lemma merge_two l x y r :
  (x < y)%nat ->
  let a := l ++ [x] ++ [y] ++ r in
  exists M, (if compare block_of a (pos l + 1) (pos l) <? 0 then exchange (pos l + 1) (pos l) a else a) = l ++ M ++ r /\
    M ≡ₚ [x] ++ [y] /\ StronglySorted precedes M.
Proof.
  intros Hxy a. unfold a. rewrite compare_neg. change (l ++ [x] ++ [y] ++ r) with (l ++ x :: [] ++ y :: r).
  assert (Ky : key block_of (l ++ x :: [] ++ y :: r) (pos l + 1) = block_of y).
  { change (l ++ x :: [] ++ y :: r) with (l ++ [x] ++ y :: r). rewrite app_assoc.
    apply key_at. rewrite length_app. simpl. lia. }
  rewrite Ky, (key_at l x ([] ++ y :: r) (pos l) eq_refl).
  destruct (Z.ltb_spec (block_of y) (block_of x)).
  - destruct (exchange_segments l x [] y r (pos l) (pos l + 1)) as [_ ->]; [reflexivity | simpl; lia |].
    exists [y; x]. split; [reflexivity |]. split; [apply Permutation_swap |].
    apply sorted_pair. left. assumption.
  - exists [x; y]. split; [reflexivity |]. split; [reflexivity |].
    apply sorted_pair, precedes_lt; assumption.
Qed.

(** Where the longer run is cut in half and the shorter one to match. *)
Lemma merge_cut l A B r :
  StronglySorted precedes A -> StronglySorted precedes B -> idx_below A B ->
  pos A <> 0 -> pos B <> 0 -> pos A + pos B <> 2 ->
  exists A1 A2 B1 B2, cut A B A1 A2 B1 B2 /\
    (if pos B <? pos A then
       (pos l + Z.quot (pos A) 2, lower block_of (l ++ A ++ B ++ r) (pos l + pos A) (pos l + pos A + pos B)
          (pos l + Z.quot (pos A) 2), Z.quot (pos A) 2,
        lower block_of (l ++ A ++ B ++ r) (pos l + pos A) (pos l + pos A + pos B)
          (pos l + Z.quot (pos A) 2) - (pos l + pos A))
     else
       (upper block_of (l ++ A ++ B ++ r) (pos l) (pos l + pos A) (pos l + pos A + Z.quot (pos B) 2),
        pos l + pos A + Z.quot (pos B) 2,
        upper block_of (l ++ A ++ B ++ r) (pos l) (pos l + pos A) (pos l + pos A + Z.quot (pos B) 2) - pos l,
        Z.quot (pos B) 2))
    = (pos l + pos A1, pos l + pos A + pos B1, pos A1, pos B1).
Proof.
  intros HA HB Hidx H1 H2 H3. destruct (Z.ltb_spec (pos B) (pos A)).
  - destruct (cut_low l A B r) as (A1 & A2 & B1 & B2 & Hc & Hq & Hl); try lia; auto.
    exists A1, A2, B1, B2. split; [assumption |]. rewrite <- Hq, Hl. repeat f_equal; lia.
  - destruct (cut_high l A B r) as (A1 & A2 & B1 & B2 & Hc & Hq & Hl); try lia; auto.
    exists A1, A2, B1, B2. split; [assumption |]. rewrite <- Hq, Hl. repeat f_equal; lia.
Qed.

Lemma merge_correct fuel l A B r :
  (length A + length B <= fuel)%nat ->
  StronglySorted precedes A -> StronglySorted precedes B -> idx_below A B ->
  exists M, merge block_of fuel (pos l) (pos l + pos A) (pos l + pos A + pos B) (pos A) (pos B)
              (l ++ A ++ B ++ r) = l ++ M ++ r /\
    M ≡ₚ A ++ B /\ StronglySorted precedes M.
Proof.
  revert l A B r. induction fuel as [| fuel IH]; intros l A B r Hf HA HB Hidx.
  { destruct A, B; simpl in Hf; try lia. exists []. auto. }
  cbn [merge]. destruct (Z.eqb_spec (pos A) 0) as [EA0 |].
  { destruct A; [| simpl in EA0; lia]. exists B. auto. }
  destruct (Z.eqb_spec (pos B) 0) as [EB0 |].
  { destruct B; [| simpl in EB0; lia]. exists A. rewrite app_nil_r. auto. }
  cbn [orb]. destruct (Z.eqb_spec (pos A + pos B) 2) as [E2 |].
  { destruct A as [| x [| ? A]], B as [| y [| ? B]]; cbn [length] in *; try lia.
    apply merge_two, Hidx; left. }
  destruct (merge_cut l A B r) as (A1 & A2 & B1 & B2 & [EA EB Hlt1 Hlt2 Hord] & Ecut); try assumption.
  rewrite Ecut. clear Ecut.
  subst A B. rewrite <- !app_assoc, (app_assoc l A1).
  rewrite (rotate_segments (l ++ A1) A2 B1) by (rewrite !length_app; lia).
  rewrite <- !app_assoc. apply sorted_app in HA as (HA1 & HA2 & _). apply sorted_app in HB as (HB1 & HB2 & _).
  destruct (IH l A1 B1 (A2 ++ B2 ++ r)) as (M1 & E1 & P1 & S1); [lia | assumption | assumption |
    eapply idx_below_sub; [exact Hidx | set_solver | set_solver] |].
  rewrite E1. rewrite (app_assoc l M1).
  assert (LM : pos M1 = pos A1 + pos B1) by (rewrite (Permutation_length P1), length_app; lia).
  destruct (IH (l ++ M1) A2 B2 r) as (M2 & E3 & P2 & S2); [lia | assumption | assumption |
    eapply idx_below_sub; [exact Hidx | set_solver | set_solver] |].
  exists (M1 ++ M2). split; [| split].
  - rewrite <- app_assoc in E3 |- *. rewrite <- (app_assoc l M1 (M2 ++ r)) in E3. rewrite <- (app_assoc M1).
    rewrite <- E3. rewrite !length_app. f_equal; lia.
  - rewrite P1, P2. solve_Permutation.
  - apply sorted_app. split; [assumption |]. split; [assumption |].
    intros x y Hx Hy. apply Hord; [rewrite <- P1 | rewrite <- P2]; assumption.
Qed.

(** ** Insertion sort *)

Lemma key_next l x y r i :
  i = pos l + 1 -> key block_of (l ++ x :: y :: r) i = block_of y.
Proof.
  intros ->. change (x :: y :: r) with ([x] ++ y :: r). rewrite app_assoc. apply key_at.
  rewrite length_app. simpl. lia.
Qed.

Lemma sink_correct fuel l T x r :
  (length T <= fuel)%nat -> StronglySorted precedes T -> (forall y, y ∈ T -> (y < x)%nat) ->
  exists M, sink block_of fuel (pos l) (pos l + pos T) (l ++ T ++ x :: r) = l ++ M ++ r /\
    M ≡ₚ T ++ [x] /\ StronglySorted precedes M.
Proof.
  revert T r. induction fuel as [| fuel IH]; intros T r Hf HT Hidx.
  { destruct T; [| simpl in Hf; lia]. exists [x]. repeat constructor. }
  cbn [sink]. destruct T as [| y T _] using rev_ind.
  { simpl. rewrite Z.add_0_r, Z.ltb_irrefl. exists [x]. repeat constructor. }
  rewrite length_app in *. simpl in Hf. cbn [length].
  replace (pos l <? _) with true by (symmetry; apply Z.ltb_lt; lia).
  rewrite <- app_assoc, (app_assoc l T). cbn [app]. rewrite compare_neg.
  rewrite (key_next (l ++ T) y x) by (rewrite length_app; lia).
  rewrite (key_at (l ++ T) y) by (rewrite length_app; lia).
  apply sorted_app in HT as HT'. destruct HT' as (HT0 & _ & Hy).
  destruct (Z.ltb_spec (block_of x) (block_of y)).
  - destruct (exchange_segments (l ++ T) y [] x r (pos l + Z.of_nat (length T + 1) - 1)
                (pos l + Z.of_nat (length T + 1))) as [_ E]; [rewrite length_app; lia | rewrite length_app; simpl; lia |].
    cbn [app] in E. rewrite E, <- app_assoc.
    replace (pos l + Z.of_nat (length T + 1) - 1) with (pos l + pos T) by lia.
    destruct (IH T (y :: r)) as (M & -> & HP & HM); [lia | assumption | intros z Hz; apply Hidx; set_solver |].
    exists (M ++ [y]). rewrite <- app_assoc. split; [reflexivity |]. split; [rewrite HP; solve_Permutation |].
    apply sorted_app. split; [assumption |]. split; [repeat constructor |].
    intros a b Ha ->%list_elem_of_singleton. rewrite HP, elem_of_app in Ha.
    destruct Ha as [Ha | ->%list_elem_of_singleton]; [apply Hy; [assumption | left] | left; assumption].
  - exists (T ++ [y; x]). rewrite <- !app_assoc. split; [reflexivity |]. split; [reflexivity |].
    change [y; x] with ([y] ++ [x]). rewrite app_assoc. apply sorted_app.
    split; [assumption |]. split; [repeat constructor |]. intros a b Ha ->%list_elem_of_singleton.
    apply precedes_lt; [apply Hidx; assumption |].
    rewrite elem_of_app in Ha. destruct Ha as [Ha | ->%list_elem_of_singleton]; [| assumption].
    assert (precedes a y) as Hay by (apply Hy; [assumption | left]). apply precedes_block in Hay. lia.
Qed.

(** The indices of a segment are in buffer order. *)
Definition in_order (l : list nat) : Prop := StronglySorted lt l.

Lemma in_order_app l1 l2 : in_order (l1 ++ l2) -> in_order l1 /\ in_order l2 /\ idx_below l1 l2.
Proof.
  induction l1 as [| x l1 IH]; simpl; intros H.
  - split; [constructor |]. split; [assumption |]. intros a b Ha. inversion Ha.
  - inversion H as [| ? ? Hs Hf]; subst. apply IH in Hs as (H1 & H2 & H3).
    apply Forall_app in Hf as [Hf1 Hf2]. split; [constructor; assumption |]. split; [assumption |].
    intros a b Ha Hb. rewrite Forall_forall in Hf2.
    apply elem_of_cons in Ha as [-> | Ha]; [auto | apply H3; assumption].
Qed.

Lemma insert_loop_correct fuel l T S r :
  (length S <= fuel)%nat -> StronglySorted precedes T -> in_order S -> idx_below T S ->
  exists M, insert_loop block_of fuel (pos l) (pos l + pos T) (pos l + pos T + pos S) (l ++ T ++ S ++ r)
            = l ++ M ++ r /\ M ≡ₚ T ++ S /\ StronglySorted precedes M.
Proof.
  revert T S. induction fuel as [| fuel IH]; intros T S Hf HT HS Hidx.
  { destruct S; [| simpl in Hf; lia]. exists T. rewrite app_nil_r. auto. }
  cbn [insert_loop]. destruct S as [| x S].
  { simpl. rewrite Z.add_0_r, Z.ltb_irrefl. exists T. rewrite app_nil_r. auto. }
  replace (_ <? _) with true by (symmetry; apply Z.ltb_lt; simpl; lia).
  replace (Z.to_nat (pos l + pos T - pos l)) with (length T) by lia. rewrite <- app_comm_cons.
  destruct (sink_correct (length T) l T x (S ++ r)) as (M1 & -> & P1 & S1);
    [lia | assumption | intros y Hy; apply Hidx; [assumption | left] |].
  apply (in_order_app [x]) in HS as (_ & HS & Hx).
  assert (LM : length M1 = (length T + 1)%nat) by (rewrite (Permutation_length P1), length_app; reflexivity).
  destruct (IH M1 S) as (M & E & P & HM); [simpl in Hf; lia | assumption | assumption | |].
  { intros a b Ha Hb. rewrite P1, elem_of_app in Ha.
    destruct Ha as [Ha | Ha]; [apply Hidx; [assumption | right; assumption] | apply Hx; assumption]. }
  exists M. split; [| split; [| assumption]].
  - rewrite <- E. rewrite LM. f_equal; simpl; lia.
  - rewrite P, P1. solve_Permutation.
Qed.

Lemma insert_sort_correct l S r :
  in_order S -> exists M, insert_sort block_of (pos l) (pos l + pos S) (l ++ S ++ r) = l ++ M ++ r /\
    M ≡ₚ S /\ StronglySorted precedes M.
Proof.
  intros HS. unfold insert_sort. destruct S as [| x S].
  { exists []. simpl. replace (_ <? _) with false by (symmetry; apply Z.ltb_ge; lia). auto using SSorted_nil. }
  destruct (Z.ltb_spec (pos l + 1) (pos l + pos (x :: S))).
  - apply (in_order_app [x]) in HS as (_ & HS & Hx).
    destruct (insert_loop_correct (Z.to_nat (pos l + pos (x :: S) - pos l)) l [x] S r) as (M & E & HP & HM);
      [simpl; lia | repeat constructor | assumption | assumption |].
    exists M. split; [| auto]. rewrite <- E. f_equal; simpl; lia.
  - destruct S; [| simpl in *; lia]. exists [x]. repeat constructor.
Qed.

(** ** The whole sort *)

Lemma sort_correct fuel l S r :
  (length S < fuel)%nat -> in_order S ->
  exists M, sort block_of fuel (pos l) (pos l + pos S) (l ++ S ++ r) = l ++ M ++ r /\
    M ≡ₚ S /\ StronglySorted precedes M.
Proof.
  revert l S r. induction fuel as [| fuel IH]; intros l S r Hf HS; [lia |]. cbn [sort].
  destruct (Z.ltb_spec (pos l + pos S - pos l) 200) as [| H200]; [apply insert_sort_correct; assumption |].
  set (h := (Z.to_nat (Z.quot (pos l + (pos l + pos S)) 2) - length l)%nat).
  assert (Hq : Z.quot (pos l + (pos l + pos S)) 2 = pos l + Z.of_nat h /\ (0 < h < length S)%nat).
  { unfold h. rewrite Z.quot_div_nonneg by lia.
    pose proof (Z.div_mod (pos l + (pos l + pos S)) 2 ltac:(lia)).
    pose proof (Z.mod_pos_bound (pos l + (pos l + pos S)) 2 ltac:(lia)). lia. }
  destruct Hq as [-> Hh]. rewrite <- (take_drop h S) in HS. apply in_order_app in HS as (H1 & H2 & H3).
  assert (L1 : length (take h S) = h) by (rewrite length_take; lia).
  assert (L2 : length (drop h S) = (length S - h)%nat) by apply length_drop.
  replace (l ++ S ++ r) with (l ++ take h S ++ drop h S ++ r)
    by (rewrite (app_assoc (take h S)), take_drop; reflexivity).
  set (S1 := take h S) in *. set (S2 := drop h S) in *.
  destruct (IH l S1 (S2 ++ r)) as (M1 & E1 & P1 & O1); [lia | assumption |]. rewrite L1 in E1. rewrite E1.
  assert (LM1 : length M1 = h) by (rewrite (Permutation_length P1); assumption).
  destruct (IH (l ++ M1) S2 r) as (M2 & E2 & P2 & O2); [lia | assumption |].
  assert (LM2 : length M2 = length S2) by (rewrite (Permutation_length P2); reflexivity).
  rewrite length_app, LM1, <- app_assoc, <- app_assoc in E2.
  replace (pos l + pos S) with (Z.of_nat (length l + h) + pos S2) by lia.
  replace (pos l + Z.of_nat h) with (Z.of_nat (length l + h)) by lia. rewrite E2.
  destruct (merge_correct (Z.to_nat (pos S)) l M1 M2 r) as (M & E & P & HM);
    [lia | assumption | assumption |
     eapply idx_below_sub; [exact H3 | intros; rewrite <- P1; assumption | intros; rewrite <- P2; assumption] |].
  exists M. split; [| split; [| assumption]].
  - rewrite <- E, LM1, LM2. f_equal; lia.
  - rewrite P, P1, P2. unfold S1, S2. rewrite take_drop. reflexivity.
Qed.

Lemma seq_in_order n k : in_order (seq n k).
Proof.
  revert n. induction k as [| k IH]; intros n; simpl; constructor; [apply IH |].
  apply Forall_forall. intros x Hx. apply elem_of_seq in Hx. lia.
Qed.

Lemma MergeSort_sorts n :
  MergeSort_do_sort block_of (seq 0 n) ≡ₚ seq 0 n /\
  StronglySorted precedes (MergeSort_do_sort block_of (seq 0 n)).
Proof.
  unfold MergeSort_do_sort.
  destruct (sort_correct (S (length (seq 0 n))) [] (seq 0 n) []) as (M & E & P & HM);
    [lia | apply seq_in_order |].
  change ([] ++ seq 0 n ++ []) with (seq 0 n ++ []) in E. change ([] ++ M ++ []) with (M ++ []) in E.
  rewrite !app_nil_r in E. change (pos []) with 0 in E. rewrite Z.add_0_l in E. rewrite E. auto.
Qed.

(** ** The NOP filter *)

Definition real (i : nat) : Prop := block_of i <> NOP_BLOCK.
#[export] Instance real_dec i : Decision (real i).
Proof. unfold real. apply _. Defined.

Lemma key_nop l m r i :
  pos l <= i < pos l + pos m -> Forall (fun x => ~ real x) m -> key block_of (l ++ m ++ r) i = NOP_BLOCK.
Proof.
  intros Hi Hm. destruct (key_in l m r i Hi) as (x & Hx & ->). rewrite Forall_forall in Hm.
  destruct (Z.eq_dec (block_of x) NOP_BLOCK); [assumption | exfalso; apply (Hm x Hx); assumption].
Qed.

Lemma next_real_spec fuel P N T :
  (length N < fuel)%nat -> Forall (fun x => ~ real x) N ->
  (T = [] \/ exists x T', T = x :: T' /\ real x) ->
  next_real block_of fuel (P ++ N ++ T) (pos P) = pos P + pos N.
Proof.
  revert P N. induction fuel as [| fuel IH]; intros P N Hf HN HT; [lia |]. cbn [next_real].
  destruct N as [| n N].
  - destruct HT as [-> | (x & T' & -> & Hx)]; simpl.
    + rewrite app_nil_r, Z.ltb_irrefl. lia.
    + rewrite length_app. replace (_ <? _) with true by (symmetry; apply Z.ltb_lt; simpl; lia).
      rewrite key_at by reflexivity. replace (block_of x =? NOP_BLOCK) with false
        by (symmetry; apply Z.eqb_neq; exact Hx). simpl. lia.
  - rewrite !length_app. replace (_ <? _) with true by (symmetry; apply Z.ltb_lt; simpl; lia).
    rewrite (key_nop P (n :: N) T) by (simpl; lia || assumption). rewrite Z.eqb_refl. cbn [negb].
    replace (P ++ (n :: N) ++ T) with ((P ++ [n]) ++ N ++ T) by (rewrite <- app_assoc; reflexivity).
    replace (pos P + 1) with (pos (P ++ [n])) by (rewrite length_app; simpl; lia).
    rewrite IH; [rewrite length_app; simpl; lia | simpl in Hf; lia | inversion HN; assumption | assumption].
Qed.

Lemma split_real T :
  exists Tn Tr, T = Tn ++ Tr /\ Forall (fun x => ~ real x) Tn /\
    (Tr = [] \/ exists x T', Tr = x :: T' /\ real x).
Proof.
  induction T as [| t T IH]; [exists [], []; auto |].
  destruct (decide (real t)) as [Hr | Hn].
  - exists [], (t :: T). split; [reflexivity |]. split; [constructor |]. eauto.
  - destruct IH as (Tn & Tr & -> & H1 & H2). exists (t :: Tn), Tr. auto.
Qed.

Lemma filter_nops N : Forall (fun x => ~ real x) N -> filter real N = [].
Proof.
  induction 1 as [| x N Hx HN IH]; [reflexivity |]. rewrite filter_cons_False by assumption. exact IH.
Qed.

(** One step of the filter at a NOP: [n0 :: N] are the NOPs between the slow
    and the fast pointer and beyond. *)
Lemma filter_loop_step fuel R n0 N T fast :
  Forall (fun x => ~ real x) (n0 :: N) -> fast <= pos R + 1 + pos N ->
  (exists Tn, T = Tn /\ Forall (fun x => ~ real x) Tn /\
     filter_loop block_of (S fuel) (pos R) fast (R ++ n0 :: N ++ T) = R ++ n0 :: N ++ T) \/
  (exists Tn x T' fast', T = Tn ++ x :: T' /\ real x /\ Forall (fun x => ~ real x) Tn /\
     fast' = pos R + 1 + pos (N ++ Tn) /\
     filter_loop block_of (S fuel) (pos R) fast (R ++ n0 :: N ++ T)
     = filter_loop block_of fuel (pos R + 1) fast' (R ++ x :: (N ++ Tn) ++ n0 :: T')).
Proof.
  intros HN Hfast. cbn [filter_loop].
  rewrite length_app. replace (pos R <? _) with true by (symmetry; apply Z.ltb_lt; simpl; lia).
  inversion HN as [| ? ? Hn0 HN']; subst.
  rewrite key_at by reflexivity.
  replace (block_of n0 =? NOP_BLOCK) with true
    by (symmetry; apply Z.eqb_eq; destruct (Z.eq_dec (block_of n0) NOP_BLOCK); [assumption | contradiction]).
  set (fast1 := if fast <=? pos R then pos R + 1 else fast).
  assert (Hf1 : pos R + 1 <= fast1 <= pos R + 1 + pos N) by (unfold fast1; destruct (Z.leb_spec fast (pos R)); lia).
  destruct (split_real T) as (Tn & Tr & -> & HTn & HTr).
  set (k := Z.to_nat (fast1 - (pos R + 1))).
  assert (Ea : R ++ n0 :: N ++ Tn ++ Tr = (R ++ n0 :: take k N) ++ (drop k N ++ Tn) ++ Tr).
  { rewrite <- !app_assoc. cbn [app]. rewrite (app_assoc (take k N)), take_drop. reflexivity. }
  assert (Hnext : next_real block_of (length R + length (n0 :: N ++ Tn ++ Tr)) (R ++ n0 :: N ++ Tn ++ Tr) fast1
                  = pos R + 1 + pos (N ++ Tn)).
  { rewrite Ea. replace fast1 with (pos (R ++ n0 :: take k N))
      by (rewrite length_app; cbn [length]; rewrite length_take; unfold k; lia).
    rewrite next_real_spec.
    - rewrite !length_app. cbn [length]. rewrite length_take, length_drop. unfold k. lia.
    - cbn [length]. rewrite !length_app, length_drop. lia.
    - apply Forall_app. split; [apply Forall_drop; assumption | assumption].
    - assumption. }
  rewrite Hnext. destruct HTr as [-> | (x & T' & -> & Hx)].
  - left. exists (Tn ++ []). rewrite app_nil_r. split; [reflexivity |]. split; [assumption |].
    rewrite app_nil_r in *. replace (_ <=? _) with true; [reflexivity |].
    symmetry. apply Z.leb_le. cbn [length]. lia.
  - right. exists Tn, x, T', (pos R + 1 + pos (N ++ Tn)). split; [reflexivity |]. split; [assumption |].
    split; [assumption |]. split; [reflexivity |].
    replace (_ <=? _) with false by (symmetry; apply Z.leb_gt; cbn [length]; rewrite !length_app; simpl; lia).
    f_equal. rewrite (app_assoc N Tn).
    destruct (exchange_segments R n0 (N ++ Tn) x T' (pos R) (pos R + 1 + pos (N ++ Tn))) as [-> _]; reflexivity.
Qed.

Lemma filter_loop_correct fuel R N T fast :
  (length N + length T < fuel)%nat -> Forall (fun x => ~ real x) N ->
  fast <= pos R + Z.max 1 (pos N) ->
  exists N', filter_loop block_of fuel (pos R) fast (R ++ N ++ T) = R ++ filter real T ++ N' /\
    Forall (fun x => ~ real x) N'.
Proof.
  revert R N T fast. induction fuel as [| fuel IH]; intros R N T fast Hf HN Hfast; [lia |].
  assert (Hstep : forall n0 N1 T1, N ++ T = n0 :: N1 ++ T1 -> Forall (fun x => ~ real x) (n0 :: N1) ->
    filter real T = filter real T1 -> fast <= pos R + 1 + pos N1 ->
    exists N', filter_loop block_of (S fuel) (pos R) fast (R ++ N ++ T) = R ++ filter real T ++ N' /\
      Forall (fun x => ~ real x) N').
  { intros n0 N1 T1 E HN1 EF Hfast1. rewrite E, EF.
    apply (f_equal length) in E. rewrite length_app in E. cbn [length] in E. rewrite length_app in E.
    destruct (filter_loop_step fuel R n0 N1 T1 fast HN1 Hfast1)
      as [(Tn & -> & HTn & ->) | (Tn & x & T' & fast' & -> & Hx & HTn & -> & ->)].
    - exists (n0 :: N1 ++ Tn). rewrite filter_nops by assumption. split; [reflexivity |].
      inversion HN1; subst. constructor; [assumption |]. apply Forall_app; auto.
    - destruct (IH (R ++ [x]) ((N1 ++ Tn) ++ [n0]) T' (pos R + 1 + pos (N1 ++ Tn))) as (N' & E' & HN').
      + rewrite !length_app in *. simpl in *. lia.
      + inversion HN1; subst. repeat apply Forall_app_2; auto.
      + rewrite !length_app. simpl. lia.
      + exists N'. split; [| assumption]. rewrite filter_app, (filter_nops Tn), filter_cons_True by assumption.
        cbn [app]. rewrite length_app in E'. cbn [length] in E'.
        replace (Z.of_nat (length R + 1)) with (pos R + 1) in E' by lia.
        rewrite <- !app_assoc in E'. cbn [app] in E'. rewrite <- !app_assoc. cbn [app]. exact E'. }
  destruct N as [| n0 N]; [| apply (Hstep n0 N T); [reflexivity | assumption | reflexivity | simpl in Hfast; lia]].
  destruct T as [| t T].
  { cbn [filter_loop]. rewrite !app_nil_r, Z.ltb_irrefl. exists []. rewrite app_nil_r. split; [reflexivity | constructor]. }
  destruct (decide (real t)) as [Hr | Hn].
  - cbn [filter_loop]. rewrite length_app. replace (pos R <? _) with true by (symmetry; apply Z.ltb_lt; simpl; lia).
    cbn [app]. rewrite key_at by reflexivity.
    replace (block_of t =? NOP_BLOCK) with false by (symmetry; apply Z.eqb_neq; exact Hr).
    destruct (IH (R ++ [t]) [] T fast) as (N' & E' & HN'); [simpl in *; lia | constructor |
      rewrite length_app; simpl in *; lia |].
    exists N'. split; [| assumption]. rewrite filter_cons_True by assumption.
    rewrite length_app in E'. cbn [length] in E'. replace (Z.of_nat (length R + 1)) with (pos R + 1) in E' by lia.
    rewrite <- !app_assoc in E'. exact E'.
  - apply (Hstep t [] T); [reflexivity | constructor; [assumption | constructor] |
      rewrite filter_cons_False by assumption; reflexivity | simpl in *; lia].
Qed.

Lemma NopFilter_filters n :
  exists N, NopFilter_do_sort block_of (seq 0 n) = filter real (seq 0 n) ++ N /\ Forall (fun x => ~ real x) N.
Proof.
  unfold NopFilter_do_sort.
  destruct (filter_loop_correct (S (length (seq 0 n))) [] [] (seq 0 n) 1) as (N & E & HN);
    [simpl; lia | constructor | simpl; lia |]. eauto.
Qed.

(** Exchanges permute, so every sorter does. *)
Lemma exchange_perm a i j : (Z.to_nat i < length a)%nat -> (Z.to_nat j < length a)%nat -> exchange i j a ≡ₚ a.
Proof.
  intros Hi Hj. unfold exchange.
  destruct (lookup_lt_is_Some_2 a (Z.to_nat i) Hi) as [x Hx], (lookup_lt_is_Some_2 a (Z.to_nat j) Hj) as [y Hy].
  rewrite (nth_lookup_Some _ _ _ x Hx), (nth_lookup_Some _ _ _ y Hy).
  apply Permutation_insert_swap; assumption.
Qed.

Lemma filter_loop_perm fuel slow fast a : 0 <= slow -> filter_loop block_of fuel slow fast a ≡ₚ a.
Proof.
  revert slow fast a. induction fuel as [| fuel IH]; intros slow fast a Hslow; cbn [filter_loop]; [reflexivity |].
  destruct (Z.ltb_spec slow (pos a)); [| reflexivity].
  destruct (key block_of a slow =? NOP_BLOCK); [| apply IH; lia].
  set (fast2 := next_real block_of _ a _). destruct (Z.leb_spec (pos a) fast2); [reflexivity |].
  rewrite IH by lia. apply exchange_perm; lia.
Qed.

Lemma NopFilter_perm n : NopFilter_do_sort block_of (seq 0 n) ≡ₚ seq 0 n.
Proof. apply filter_loop_perm. lia. Qed.
End Correct.

(** ** Copying the instructions *)

Definition permuted (buf : list IRInstruction) (idxs : list nat) : list IRInstruction :=
  omap (fun i => buf !! i) idxs.

Lemma run_loop_spec fuel idxs first size :
  (length idxs < fuel + size)%nat -> (size <= length idxs)%nat ->
  (forall j, (j < size)%nat -> idxs !! j = Some (first + j)%nat) ->
  let k := run_loop fuel idxs first size in
  (size <= k <= length idxs)%nat /\ (forall j, (j < k)%nat -> idxs !! j = Some (first + j)%nat).
Proof.
  revert size. induction fuel as [| fuel IH]; intros size Hf Hs H; cbn [run_loop]; [lia |].
  destruct (idxs !! size) as [x |] eqn:E; [| auto].
  destruct (Nat.eqb_spec x (first + size)) as [-> |]; [| auto].
  apply lookup_lt_Some in E as Hlt.
  destruct (IH (S size)) as [H1 H2]; [lia | lia | | split; [lia | assumption]].
  intros j Hj. destruct (decide (j = size)) as [-> |]; [assumption | apply H; lia].
Qed.

Lemma find_run_size_spec i idxs :
  let k := find_run_size (i :: idxs) in
  (1 <= k <= S (length idxs))%nat /\ take k (i :: idxs) = seq i k.
Proof.
  intros k. unfold k, find_run_size. cbn [run_loop].
  change ((i :: idxs) !! 0%nat) with (Some i). cbn iota. rewrite Nat.add_0_r, Nat.eqb_refl.
  destruct (run_loop_spec (length (i :: idxs)) (i :: idxs) i 1) as [H1 H2];
    [simpl; lia | simpl; lia | intros j Hj; replace j with 0%nat by lia; rewrite Nat.add_0_r; reflexivity |].
  set (m := run_loop _ _ _ _) in *. split; [simpl in H1; lia |].
  apply list_eq. intros j. destruct (decide (j < m)%nat).
  - rewrite lookup_take_lt, H2, lookup_seq_lt by lia. reflexivity.
  - rewrite lookup_take_ge, lookup_seq_ge by lia. reflexivity.
Qed.

Lemma take_drop_run (buf : list IRInstruction) i k :
  (i + k <= length buf)%nat -> take k (drop i buf) = permuted buf (seq i k).
Proof.
  revert i. induction k as [| k IH]; intros i Hk; [reflexivity |]. cbn [seq].
  destruct (lookup_lt_is_Some_2 buf i) as [x Hx]; [lia |].
  unfold permuted. cbn. rewrite Hx. rewrite (drop_S buf x i Hx). cbn [take]. f_equal. apply IH. lia.
Qed.

Lemma copy_runs_spec fuel idxs buf :
  (length idxs <= fuel)%nat -> Forall (fun i => (i < length buf)%nat) idxs ->
  copy_runs fuel idxs buf = permuted buf idxs.
Proof.
  revert idxs. induction fuel as [| fuel IH]; intros idxs Hf Hr.
  { destruct idxs; [reflexivity | simpl in Hf; lia]. }
  destruct idxs as [| i idxs]; [reflexivity |]. cbn [copy_runs].
  destruct (find_run_size_spec i idxs) as [Hk Hrun]. set (k := find_run_size (i :: idxs)) in *.
  rewrite IH by (rewrite ?length_drop; simpl in *; lia || (apply Forall_drop; assumption)).
  rewrite take_drop_run.
  - unfold permuted. rewrite <- Hrun, <- omap_app, take_drop. reflexivity.
  - assert (E : (i :: idxs) !! (k - 1)%nat = Some (i + (k - 1))%nat).
    { assert (E : take k (i :: idxs) !! (k - 1)%nat = Some (i + (k - 1))%nat)
        by (rewrite Hrun; apply lookup_seq_lt; lia).
      rewrite lookup_take_lt in E by lia. exact E. }
    pose proof (Forall_lookup_1 _ _ _ _ Hr E). simpl in *. lia.
Qed.

Lemma permuted_seq buf : permuted buf (seq 0 (length buf)) = buf.
Proof. rewrite <- take_drop_run by lia. apply take_ge. reflexivity. Qed.

Lemma permuted_perm buf idxs idxs' : idxs ≡ₚ idxs' -> permuted buf idxs ≡ₚ permuted buf idxs'.
Proof. intros H. apply omap_Permutation. exact H. Qed.

Lemma perform_sort_spec do_sort buf :
  do_sort (insn_block buf) (seq 0 (length buf)) ≡ₚ seq 0 (length buf) ->
  perform_sort do_sort buf = permuted buf (do_sort (insn_block buf) (seq 0 (length buf))).
Proof.
  intros HP. unfold perform_sort. apply copy_runs_spec; [reflexivity |].
  rewrite HP. apply Forall_forall. intros i Hi. apply elem_of_seq in Hi. lia.
Qed.

(** ** The transform *)

Definition insn_real (i : IRInstruction) : Prop := ir_block i <> NOP_BLOCK.
#[export] Instance insn_real_dec i : Decision (insn_real i).
Proof. unfold insn_real. apply _. Defined.

(** The instructions of block [b], in buffer order: the code of the block. *)
Definition code (b : Z) (l : list IRInstruction) : list IRInstruction :=
  filter (fun i => ir_block i = b) l.

Definition by_block : list IRInstruction -> Prop :=
  StronglySorted (fun i j => ir_block i <= ir_block j).

Lemma by_block_app l1 l2 :
  by_block l1 -> by_block l2 -> (forall i j, i ∈ l1 -> j ∈ l2 -> ir_block i <= ir_block j) ->
  by_block (l1 ++ l2).
Proof.
  intros H1 H2 H. induction H1 as [| x l1 Hs IH Hf]; [assumption |]. simpl. constructor.
  - apply IH. intros; apply H; [right |]; assumption.
  - apply Forall_app. split; [assumption |]. apply Forall_forall. intros j Hj. apply H; [left | assumption].
Qed.

Lemma by_block_nops l : Forall (fun i => ir_block i = NOP_BLOCK) l -> by_block l.
Proof.
  induction 1 as [| x l Hx Hl IH]; constructor; [assumption |].
  eapply Forall_impl; [exact Hl |]. simpl. intros. lia.
Qed.

Lemma scan_sorted l s :
  ir_sorted (fold_left scan_insn l s) = true ->
  ir_sorted s = true /\ by_block (filter insn_real l) /\
  Forall (fun i => prev_block s <= ir_block i) (filter insn_real l).
Proof.
  revert s. induction l as [| i l IH]; intros s H.
  { split; [assumption |]. split; constructor. }
  cbn [fold_left] in H. apply IH in H as (H1 & H2 & H3). unfold scan_insn in H1, H3.
  destruct (Z.eqb_spec (ir_block i) NOP_BLOCK).
  - rewrite filter_cons_False by (unfold insn_real; tauto). auto.
  - rewrite filter_cons_True by assumption. cbn in H1, H3.
    destruct (Z.ltb_spec (ir_block i) (prev_block s)); [discriminate |].
    split; [assumption |]. split; [constructor; assumption |]. constructor; [assumption |].
    eapply Forall_impl; [exact H3 |]. simpl. intros. lia.
Qed.

Lemma scan_nops l s :
  nops_sorted (fold_left scan_insn l s) = true ->
  nops_sorted s = true /\ (found_nops s = true -> Forall (fun i => ir_block i = NOP_BLOCK) l) /\
  exists l1 l2, l = l1 ++ l2 /\ Forall insn_real l1 /\ Forall (fun i => ir_block i = NOP_BLOCK) l2.
Proof.
  revert s. induction l as [| i l IH]; intros s H.
  { split; [assumption |]. split; [constructor |]. exists [], []. auto. }
  cbn [fold_left] in H. apply IH in H as (H1 & H2 & l1 & l2 & -> & H3 & H4). unfold scan_insn in H1, H2.
  destruct (Z.eqb_spec (ir_block i) NOP_BLOCK) as [E | E]; cbn in H1, H2.
  - specialize (H2 eq_refl). split; [assumption |]. split; [intros _; constructor; assumption |].
    exists [], (i :: l1 ++ l2). split; [reflexivity |]. split; [constructor | constructor; assumption].
  - destruct (found_nops s) eqn:Ef; [discriminate |]. split; [assumption |]. split; [discriminate |].
    exists (i :: l1), l2. split; [reflexivity |]. split; [constructor; assumption | assumption].
Qed.

Lemma filter_real_app l1 l2 :
  Forall insn_real l1 -> Forall (fun i => ir_block i = NOP_BLOCK) l2 -> filter insn_real (l1 ++ l2) = l1.
Proof.
  intros H1 H2. rewrite filter_app. replace (filter insn_real l2) with (@nil IRInstruction).
  - rewrite app_nil_r. induction H1; [reflexivity |]. rewrite filter_cons_True by assumption. f_equal. assumption.
  - induction H2 as [| x l Hx Hl IH]; [reflexivity |].
    rewrite filter_cons_False by (unfold insn_real; congruence). assumption.
Qed.

Definition blocks_in_range (l : list IRInstruction) : Prop :=
  Forall (fun i => 0 <= ir_block i < 2 ^ 31) l.

Lemma sorted_with_nops l1 l2 :
  by_block l1 -> blocks_in_range l1 -> Forall (fun i => ir_block i = NOP_BLOCK) l2 -> by_block (l1 ++ l2).
Proof.
  intros H1 Hr H2. apply by_block_app; [assumption | apply by_block_nops; assumption |].
  intros i j Hi Hj. unfold blocks_in_range in Hr. rewrite Forall_forall in Hr, H2.
  specialize (Hr i Hi). rewrite (H2 j Hj). unfold NOP_BLOCK. lia.
Qed.

Lemma insn_block_range buf i : blocks_in_range buf -> 0 <= insn_block buf i < 2 ^ 31.
Proof.
  intros Hr. unfold insn_block. destruct (buf !! i) as [x |] eqn:E; [| lia].
  exact (Forall_lookup_1 _ _ _ _ Hr E).
Qed.

Lemma permuted_app buf l1 l2 : permuted buf (l1 ++ l2) = permuted buf l1 ++ permuted buf l2.
Proof. apply omap_app. Qed.

Lemma permuted_cons buf i idxs x : buf !! i = Some x -> permuted buf (i :: idxs) = x :: permuted buf idxs.
Proof. intros H. unfold permuted. cbn. rewrite H. reflexivity. Qed.

Lemma filter_permuted buf (P : IRInstruction -> Prop) (Q : nat -> Prop) `{!forall x, Decision (P x)}
  `{!forall i, Decision (Q i)} idxs :
  (forall i x, buf !! i = Some x -> P x <-> Q i) -> Forall (fun i => (i < length buf)%nat) idxs ->
  filter P (permuted buf idxs) = permuted buf (filter Q idxs).
Proof.
  intros HPQ. induction 1 as [| i idxs Hi Hr IH]; [reflexivity |].
  destruct (lookup_lt_is_Some_2 buf i Hi) as [x Hx]. rewrite (permuted_cons buf i idxs x Hx).
  destruct (decide (P x)) as [Hp | Hp].
  - rewrite filter_cons_True, (filter_cons_True Q) by (assumption || (apply (HPQ i x Hx); assumption)).
    rewrite (permuted_cons _ _ _ x Hx), IH. reflexivity.
  - rewrite filter_cons_False, (filter_cons_False Q) by (assumption || (rewrite <- (HPQ i x Hx); assumption)).
    exact IH.
Qed.

(** Sorting by (block, index) keeps the order inside a block. *)
Lemma sorted_in_order block_of idxs b :
  StronglySorted (precedes block_of) idxs -> StronglySorted lt (filter (fun i => block_of i = b) idxs).
Proof.
  induction 1 as [| i idxs Hs IH Hf]; [constructor |].
  destruct (decide (block_of i = b)) as [E | E].
  - rewrite filter_cons_True by assumption. constructor; [assumption |].
    apply Forall_forall. intros j Hj. apply list_elem_of_filter in Hj as [Ej Hj].
    rewrite Forall_forall in Hf. destruct (Hf j Hj) as [H | [_ H]]; [lia | assumption].
  - rewrite filter_cons_False by assumption. assumption.
Qed.

Lemma filter_in_order (P : nat -> Prop) `{!forall i, Decision (P i)} l : in_order l -> in_order (filter P l).
Proof.
  unfold in_order. induction 1 as [| i l Hs IH Hf]; [constructor |].
  destruct (decide (P i)); [rewrite filter_cons_True by assumption | rewrite filter_cons_False by assumption; exact IH].
  constructor; [exact IH |]. apply Forall_forall. intros j Hj. apply list_elem_of_filter in Hj as [_ Hj].
  rewrite Forall_forall in Hf. auto.
Qed.

Lemma lt_sorted_unique l1 l2 : StronglySorted lt l1 -> StronglySorted lt l2 -> l1 ≡ₚ l2 -> l1 = l2.
Proof.
  intros H1 H2 HP. apply (StronglySorted_unique_strong lt); [| assumption | assumption | assumption].
  intros x y Hx Hy Hxy Hyx. lia.
Qed.

Lemma by_block_permuted buf idxs :
  StronglySorted (precedes (insn_block buf)) idxs -> Forall (fun i => (i < length buf)%nat) idxs ->
  by_block (permuted buf idxs).
Proof.
  intros Hs Hr. induction Hs as [| i idxs Hs IH Hf]; [constructor |]. inversion Hr; subst.
  destruct (lookup_lt_is_Some_2 buf i) as [x Hx]; [assumption |]. rewrite (permuted_cons _ _ _ x Hx).
  constructor; [apply IH; assumption |]. apply Forall_forall. intros y Hy.
  unfold permuted in Hy. apply list_elem_of_omap in Hy as (j & Hj & Ey).
  rewrite Forall_forall in Hf. specialize (Hf j Hj). apply precedes_block in Hf.
  unfold insn_block in Hf. rewrite Hx, Ey in Hf. exact Hf.
Qed.

(** What a sort of the buffer must do. *)
Definition sorts (l l' : list IRInstruction) : Prop :=
  l' ≡ₚ l /\ by_block l' /\ forall b, b <> NOP_BLOCK -> code b l' = code b l.

Lemma idxs_in_range (idxs : list nat) n : idxs ≡ₚ seq 0 n -> Forall (fun i => (i < n)%nat) idxs.
Proof. intros ->. apply Forall_forall. intros i Hi. apply elem_of_seq in Hi. lia. Qed.

Lemma merge_sorts l : blocks_in_range l -> sorts l (perform_sort MergeSort_do_sort l).
Proof.
  intros Hr.
  destruct (MergeSort_sorts (insn_block l) (fun i => insn_block_range l i Hr) (length l)) as [HP HS].
  rewrite perform_sort_spec by assumption. set (idxs := MergeSort_do_sort _ _) in *.
  pose proof (idxs_in_range idxs _ HP) as Hidx. split; [| split].
  - rewrite (permuted_perm _ _ _ HP), permuted_seq. reflexivity.
  - apply by_block_permuted; assumption.
  - intros b _. unfold code. rewrite <- (permuted_seq l) at 2.
    assert (Hin : forall i x, l !! i = Some x -> ir_block x = b <-> insn_block l i = b)
      by (intros i x Hx; unfold insn_block; rewrite Hx; reflexivity).
    rewrite !(filter_permuted l _ (fun i => insn_block l i = b)) by (assumption || (apply idxs_in_range; reflexivity)).
    f_equal. apply lt_sorted_unique.
    + apply sorted_in_order. assumption.
    + apply filter_in_order, seq_in_order.
    + rewrite HP. reflexivity.
Qed.

Lemma code_real b l : b <> NOP_BLOCK -> code b (filter insn_real l) = code b l.
Proof.
  intros Hb. unfold code. induction l as [| x l IH]; [reflexivity |].
  destruct (decide (insn_real x)) as [Hx | Hx].
  - rewrite (filter_cons_True insn_real) by assumption.
    destruct (decide (ir_block x = b)).
    + rewrite !(filter_cons_True (fun i => ir_block i = b)) by assumption. rewrite IH. reflexivity.
    + rewrite !(filter_cons_False (fun i => ir_block i = b)) by assumption. exact IH.
  - rewrite (filter_cons_False insn_real), (filter_cons_False (fun i => ir_block i = b)) by
      (assumption || (unfold insn_real in Hx; intros Eb; apply Hx; congruence)). exact IH.
Qed.

Lemma nop_filter_sorts l :
  blocks_in_range l -> by_block (filter insn_real l) -> sorts l (perform_sort NopFilter_do_sort l).
Proof.
  intros Hr Hs. pose proof (NopFilter_perm (insn_block l) (length l)) as HP.
  destruct (NopFilter_filters (insn_block l) (length l)) as (N & E & HN).
  rewrite perform_sort_spec by assumption. set (idxs := NopFilter_do_sort _ _) in *.
  pose proof (idxs_in_range idxs _ HP) as Hidx.
  assert (Hin : forall i x, l !! i = Some x -> insn_real x <-> real (insn_block l) i)
    by (intros i x Hx; unfold insn_real, real, insn_block; rewrite Hx; reflexivity).
  assert (EM : permuted l idxs = filter insn_real l ++ permuted l N).
  { rewrite E, permuted_app. f_equal.
    transitivity (filter insn_real (permuted l (seq 0 (length l)))); [| rewrite permuted_seq; reflexivity].
    symmetry. apply filter_permuted; [assumption | apply idxs_in_range; reflexivity]. }
  assert (HNop : Forall (fun i => ir_block i = NOP_BLOCK) (permuted l N)).
  { apply Forall_forall. intros x Hx. apply list_elem_of_omap in Hx as (i & Hi & Ex).
    rewrite Forall_forall in HN. specialize (HN i Hi). rewrite <- (Hin i x Ex) in HN.
    destruct (Z.eq_dec (ir_block x) NOP_BLOCK); [assumption | contradiction]. }
  split; [rewrite (permuted_perm _ _ _ HP), permuted_seq; reflexivity |]. rewrite EM. split.
  - apply sorted_with_nops; [assumption | | assumption].
    apply Forall_forall. intros x Hx. apply list_elem_of_filter in Hx as [_ Hx].
    unfold blocks_in_range in Hr. rewrite Forall_forall in Hr. auto.
  - intros b Hb. unfold code. rewrite filter_app. replace (filter _ (permuted l N)) with (@nil IRInstruction).
    + rewrite app_nil_r. apply code_real; assumption.
    + clear -HNop Hb. induction HNop as [| x m Hx Hm IH]; [reflexivity |].
      rewrite filter_cons_False by congruence. assumption.
Qed.

Lemma SortIR_sorts c :
  _ir_insns c <> [] -> blocks_in_range (_ir_insns c) ->
  exists l', SortIRTransform_Apply c = Ok (with_insns l' c) /\ sorts (_ir_insns c) l'.
Proof.
  intros Hne Hr. unfold SortIRTransform_Apply. set (l := _ir_insns c) in *.
  destruct l as [| i l0] eqn:El; [congruence |]. cbn [head of_option rbind].
  rewrite <- El in *. set (s := SortIR_scan l (ir_block i)).
  destruct (ir_sorted s) eqn:Es; cbn [negb]; [| eexists; split; [reflexivity | apply merge_sorts; assumption]].
  apply scan_sorted in Es as (_ & Hs & _).
  destruct (nops_sorted s) eqn:En; cbn [negb]; [| eexists; split; [reflexivity | apply nop_filter_sorts; assumption]].
  apply scan_nops in En as (_ & _ & l1 & l2 & E12 & H1 & H2).
  exists l. split; [unfold with_insns; subst l; destruct c; reflexivity |].
  split; [reflexivity |]. split; [| reflexivity]. rewrite E12 in Hs, Hr |- *.
  rewrite filter_real_app in Hs by assumption. unfold blocks_in_range in Hr. apply Forall_app in Hr as [Hr _].
  apply sorted_with_nops; assumption.
Qed.

(** C3. Applying [SortIRTransform] to a non-empty buffer succeeds;
    the result is a permutation of the buffer in which blocks come in
    increasing order with the NOPs last, and the code of every block is
    unchanged, whichever of the merge sort, the NOP filter or nothing at all
    the scan decides on. *)
Theorem SortIRTransform_correct c :
  _ir_insns c <> [] -> blocks_in_range (_ir_insns c) ->
  exists c', SortIRTransform_Apply c = Ok c' /\
    _ir_insns c' ≡ₚ _ir_insns c /\ by_block (_ir_insns c') /\
    (forall b, b <> NOP_BLOCK -> code b (_ir_insns c') = code b (_ir_insns c)).
Proof.
  intros Hne Hr. destruct (SortIR_sorts c Hne Hr) as (l' & E & H). exists (with_insns l' c). auto.
Qed.

Definition sort_example : TranslationContext :=
  mkContext 3 0 [mkInsn [] 2 RET; mkInsn [] NOP_BLOCK NOP; mkInsn [] 0 TRAP; mkInsn [block_op 2] 0 JMP] 0.

Lemma SortIRTransform_correct_witness :
  exists c', SortIRTransform_Apply sort_example = Ok c' /\
    code 0 (_ir_insns c') = [mkInsn [] 0 TRAP; mkInsn [block_op 2] 0 JMP].
Proof.
  destruct (SortIRTransform_correct sort_example) as (c' & H1 & _ & _ & H2);
    [discriminate | repeat constructor; vm_compute; congruence |].
  exists c'. split; [exact H1 |]. rewrite H2 by (vm_compute; congruence). vm_compute. reflexivity.
Defined.

(** The in-place merge sort (insertion sort below 200
    elements, rotation-based merging above) turns the identity permutation of
    [n] indices into the permutation that is increasing in (block, index): it
    sorts, it is stable, and it always finishes with the right answer. *)
Theorem merge_sort_is_stable block_of n :
  (forall i, 0 <= block_of i < 2 ^ 31) ->
  MergeSort_do_sort block_of (seq 0 n) ≡ₚ seq 0 n /\
  StronglySorted (precedes block_of) (MergeSort_do_sort block_of (seq 0 n)).
Proof. intros H. apply MergeSort_sorts. exact H. Qed.

Lemma merge_sort_is_stable_witness :
  MergeSort_do_sort (fun i => Z.of_nat (i mod 3)) (seq 0 5) ≡ₚ seq 0 5 /\
  MergeSort_do_sort (fun i => Z.of_nat (i mod 3)) (seq 0 5) = [0; 3; 1; 4; 2]%nat.
Proof.
  split; [| vm_compute; reflexivity].
  apply (merge_sort_is_stable (fun i => Z.of_nat (i mod 3)) 5).
  intros i. pose proof (Nat.mod_upper_bound i 3 ltac:(lia)). lia.
Defined.
