(* ===== verification/BlockFlow.v ===== *)
(** * What BlockJIT code means, and dead block elimination

    The code of a block is the list of its instructions in buffer order; it
    runs until a jump, a branch, a return or a dispatch.  What a straight-line
    instruction does to the machine, and when a branch is taken, are
    parameters: the transforms modelled here move and delete code but never
    look inside it.

    DeadBlockEliminationTransform.cpp is modelled and shown to preserve this
    meaning. *)

From Stdlib Require Import ZArith Lia Bool Sorted.
From stdpp Require Import base list numbers sets.
From S2P Require Import Prelude.
From S2P Require Import BlockIR.
From S2P Require Import IRSorterCorrect.

Definition is_control (t : IRInstructionType) : bool :=
  match t with JMP | BRANCH | RET | DISPATCH => true | _ => false end.

(** The blocks an instruction may go to. *)
Definition targets (i : IRInstruction) : list Z :=
  match type i with
  | JMP => [value (op i 0)]
  | BRANCH => [value (op i 1); value (op i 2)]
  | _ => []
  end.

(** Jumps and branches have their operands. *)
Definition has_operands (i : IRInstruction) : Prop :=
  match type i with
  | JMP => 1 <= length (operands i)
  | BRANCH => 3 <= length (operands i)
  | _ => True
  end%nat.

(** A block ends with its only jump, branch, return or dispatch. *)
Fixpoint ends_in_control (l : list IRInstruction) : bool :=
  match l with
  | [] => false
  | [i] => is_control (type i)
  | i :: r => negb (is_control (type i)) && ends_in_control r
  end.

Definition terminated (l : list IRInstruction) : Prop :=
  forall b, code b l = [] \/ ends_in_control (code b l) = true.

Lemma ends_in_control_spec l :
  ends_in_control l = true <->
  exists body t, l = body ++ [t] /\ is_control (type t) = true /\
    Forall (fun i => is_control (type i) = false) body.
Proof.
  split.
  - induction l as [| i l IH]; [discriminate |]. intros H. destruct l as [| j l].
    + exists [], i. auto.
    + cbn [ends_in_control] in H. apply andb_true_iff in H as [H1 H2]. apply negb_true_iff in H1.
      destruct (IH H2) as (body & t & E & Ht & Hb). exists (i :: body), t. rewrite E. auto.
  - intros (body & t & -> & Ht & Hb). induction Hb as [| i body Hi Hb IH]; [exact Ht |].
    cbn [app ends_in_control]. rewrite Hi, IH. destruct body; reflexivity.
Qed.

Lemma terminator_unique l i j :
  ends_in_control l = true -> i ∈ l -> j ∈ l ->
  is_control (type i) = true -> is_control (type j) = true -> i = j.
Proof.
  intros H Hi Hj Ci Cj. apply ends_in_control_spec in H as (body & t & -> & _ & Hb).
  rewrite Forall_forall in Hb. assert (forall k, k ∈ body ++ [t] -> is_control (type k) = true -> k = t) as K.
  { intros k [Hk | Hk]%elem_of_app Ck; [specialize (Hb k Hk); simpl in Hb; congruence |].
    apply list_elem_of_singleton in Hk. assumption. }
  rewrite (K i), (K j) by assumption. reflexivity.
Qed.

Lemma targets_control i t : t ∈ targets i -> is_control (type i) = true.
Proof. unfold targets. destruct (type i); try reflexivity; intros H; inversion H. Qed.

Definition block_terminated (c : list IRInstruction) : bool :=
  match c with [] => true | _ => ends_in_control c end.

Lemma terminated_check n l :
  Forall (fun i => 0 <= ir_block i < n) l ->
  forallb (fun b => block_terminated (code b l)) (seqZ 0 n) = true -> terminated l.
Proof.
  intros Hr H b. destruct (code b l) as [| i c] eqn:E; [auto |]. right. rewrite <- E.
  assert (Hi : i ∈ code b l) by (rewrite E; left). unfold code in Hi.
  apply list_elem_of_filter in Hi as [<- Hi]. rewrite Forall_forall in Hr. specialize (Hr i Hi). simpl in Hr.
  rewrite forallb_forall in H. specialize (H (ir_block i)). rewrite E in H. rewrite E. apply H.
  apply list_elem_of_In, elem_of_seqZ. lia.
Qed.

(** Blocks that control can get to. *)
Inductive reachable (l : list IRInstruction) : Z -> Prop :=
| reachable_entry : reachable l 0
| reachable_step i t : reachable l (ir_block i) -> i ∈ l -> t ∈ targets i -> reachable l t.

(** The control flow has no cycle: [rank] grows along every edge. *)
Definition ranked (rank : Z -> Z) (l : list IRInstruction) : Prop :=
  forall i t, i ∈ l -> t ∈ targets i -> rank (ir_block i) < rank t.

Section Semantics.
Context {St : Type} (exec : IRInstructionType -> list IROperand -> St -> St)
        (taken : IROperand -> St -> bool).

Inductive outcome :=
| Goto (b : Z) (s : St)
| Leave (t : IRInstructionType) (ops : list IROperand) (s : St)
| FallOff (s : St).

Fixpoint run_code (l : list IRInstruction) (s : St) : outcome :=
  match l with
  | [] => FallOff s
  | i :: r =>
      match type i with
      | JMP => Goto (value (op i 0)) s
      | BRANCH => Goto (value (op i (if taken (op i 0) s then 1 else 2)%nat)) s
      | RET | DISPATCH => Leave (type i) (operands i) s
      | _ => run_code r (exec (type i) (operands i) s)
      end
  end.

(** How the translated code leaves. *)
Definition exit : Type := IRInstructionType * list IROperand * St.

Inductive evals (l : list IRInstruction) : Z -> St -> exit -> Prop :=
| evals_leave b s t ops s' :
    run_code (code b l) s = Leave t ops s' -> evals l b s (t, ops, s')
| evals_goto b s b' s' r :
    run_code (code b l) s = Goto b' s' -> evals l b' s' r -> evals l b s r.

(** The same as a function; [None] when it falls off a block or needs more
    steps. *)
Fixpoint run (fuel : nat) (l : list IRInstruction) (b : Z) (s : St) : option exit :=
  match fuel with
  | O => None
  | S n =>
      match run_code (code b l) s with
      | Goto b' s' => run n l b' s'
      | Leave t ops s' => Some (t, ops, s')
      | FallOff _ => None
      end
  end.

Lemma run_evals fuel l b s r : run fuel l b s = Some r -> evals l b s r.
Proof.
  revert b s. induction fuel as [| n IH]; intros b s E; [discriminate |]. cbn [run] in E.
  destruct (run_code (code b l) s) eqn:Ec; [| | discriminate].
  - eapply evals_goto; eauto.
  - injection E as <-. apply evals_leave. assumption.
Qed.

Lemma evals_run l b s r : evals l b s r -> exists fuel, run fuel l b s = Some r.
Proof.
  induction 1 as [b s t ops s' E | b s b' s' r E _ [n IH]].
  - exists 1%nat. cbn [run]. rewrite E. reflexivity.
  - exists (S n). cbn [run]. rewrite E. assumption.
Qed.

(** Straight-line code runs to its end. *)
Lemma run_code_app l1 l2 s :
  Forall (fun i => is_control (type i) = false) l1 ->
  run_code (l1 ++ l2) s = run_code l2 (fold_left (fun s i => exec (type i) (operands i) s) l1 s).
Proof.
  intros H. revert s. induction H as [| i l1 Hi H IH]; intros s; [reflexivity |].
  cbn [app run_code fold_left]. destruct (type i) eqn:E; try discriminate Hi; rewrite <- E; apply IH.
Qed.

Lemma run_code_goto l s b s' : run_code l s = Goto b s' -> exists i, i ∈ l /\ b ∈ targets i.
Proof.
  revert s. induction l as [| i l IH]; intros s E; [discriminate |]. cbn [run_code] in E. unfold targets.
  destruct (type i) eqn:Et; try (destruct (IH _ E) as (j & Hj & Hb); exists j; split; [right; assumption | exact Hb]);
    try discriminate E.
  - injection E as <- _. exists i. rewrite Et. split; [left | left].
  - injection E as <- _. exists i. rewrite Et. split; [left |]. destruct (taken _ _); set_solver.
Qed.

Lemma code_elem b l i : i ∈ code b l -> i ∈ l /\ ir_block i = b.
Proof. unfold code. rewrite list_elem_of_filter. tauto. Qed.

Lemma code_app b l1 l2 : code b (l1 ++ l2) = code b l1 ++ code b l2.
Proof. apply filter_app. Qed.

Lemma code_cons b i l : code b (i :: l) = if decide (ir_block i = b) then i :: code b l else code b l.
Proof. unfold code. case_decide; [rewrite filter_cons_True | rewrite filter_cons_False]; auto. Qed.

Lemma code_nil_iff b l : code b l = [] <-> forall i, i ∈ l -> ir_block i <> b.
Proof.
  split.
  - intros H i Hi E. assert (Hc : i ∈ code b l) by (apply list_elem_of_filter; auto). rewrite H in Hc. inversion Hc.
  - intros H. apply elem_of_nil_inv. intros i Hi. apply code_elem in Hi as [Hi E]. exact (H i Hi E).
Qed.

(** Two buffers with the same code in a closed set of blocks mean the same
    there. *)
Lemma evals_same_code (live : Z -> Prop) l l' b s r :
  (forall b, live b -> code b l' = code b l) ->
  (forall b i t, live b -> i ∈ code b l -> t ∈ targets i -> live t) ->
  live b -> evals l b s r <-> evals l' b s r.
Proof.
  intros Hcode Hclosed Hb. split; intros H.
  - revert Hb. induction H as [b s t ops s' E | b s b' s' r E H IH]; intros Hb.
    + apply evals_leave. rewrite Hcode; assumption.
    + apply evals_goto with b' s'; [rewrite Hcode; assumption |]. apply IH.
      apply run_code_goto in E as (i & Hi & Ht). eauto.
  - revert Hb. induction H as [b s t ops s' E | b s b' s' r E H IH]; intros Hb;
      rewrite Hcode in E by assumption.
    + apply evals_leave. assumption.
    + apply evals_goto with b' s'; [assumption |]. apply IH.
      apply run_code_goto in E as (i & Hi & Ht). eauto.
Qed.
End Semantics.

(** ** Renaming blocks *)

Definition set_target (rho : Z -> Z) (n : nat) (i : IRInstruction) : IRInstruction :=
  set_op n (with_value (rho (value (op i n))) (op i n)) i.

Definition renamed (rho : Z -> Z) (i : IRInstruction) : IRInstruction :=
  let i1 := mkInsn (operands i) (rho (ir_block i)) (type i) in
  match type i with
  | JMP => set_target rho 0 i1
  | BRANCH => set_target rho 2 (set_target rho 1 i1)
  | _ => i1
  end.

Lemma op_set_op n m o i :
  op (set_op n o i) m = if decide (n = m /\ (n < length (operands i))%nat) then o else op i m.
Proof.
  unfold op, set_op. cbn [operands]. rewrite !nth_lookup. destruct (decide (n = m)) as [-> | Hne].
  - destruct (decide (m < length (operands i))%nat).
    + rewrite list_lookup_insert_eq by assumption. rewrite decide_True by auto. reflexivity.
    + rewrite list_insert_ge by lia. rewrite decide_False by tauto. reflexivity.
  - rewrite list_lookup_insert_ne by assumption. rewrite decide_False by tauto. reflexivity.
Qed.

Lemma renamed_type rho i : type (renamed rho i) = type i.
Proof. unfold renamed. destruct (type i) eqn:E; reflexivity. Qed.

Lemma renamed_block rho i : ir_block (renamed rho i) = rho (ir_block i).
Proof. unfold renamed. destruct (type i) eqn:E; reflexivity. Qed.

Lemma renamed_operands_length rho i : length (operands (renamed rho i)) = length (operands i).
Proof.
  unfold renamed, set_target, set_op. destruct (type i) eqn:E; try reflexivity; cbn [operands];
    rewrite ?length_insert; reflexivity.
Qed.

Lemma renamed_op rho i n :
  has_operands i ->
  op (renamed rho i) n =
  if decide ((type i = JMP /\ n = 0%nat) \/ (type i = BRANCH /\ (n = 1%nat \/ n = 2%nat)))
  then with_value (rho (value (op i n))) (op i n) else op i n.
Proof.
  unfold has_operands, renamed. intros H. destruct (type i) eqn:E;
    try (rewrite decide_False by (intros [[? _] | [? _]]; congruence); reflexivity).
  - unfold set_target. rewrite op_set_op. cbn [operands]. case_decide as D1; case_decide as D2;
      try reflexivity; intuition (subst; try lia; try congruence; reflexivity).
  - unfold set_target. rewrite !op_set_op. unfold set_op. cbn [operands]. rewrite ?length_insert.
    destruct n as [| [| [| n]]]; repeat case_decide;
      try reflexivity; intuition (subst; try lia; try congruence; reflexivity).
Qed.

Lemma renamed_targets rho i : has_operands i -> targets (renamed rho i) = map rho (targets i).
Proof.
  intros H. unfold targets. rewrite renamed_type. destruct (type i) eqn:E; try reflexivity;
    rewrite !renamed_op by assumption; rewrite !decide_True by (rewrite E; auto); reflexivity.
Qed.

Lemma renamed_straight rho i :
  type i <> JMP -> type i <> BRANCH -> operands (renamed rho i) = operands i.
Proof. unfold renamed. destruct (type i) eqn:E; try reflexivity; congruence. Qed.

Lemma renamed_has_operands rho i : has_operands i -> has_operands (renamed rho i).
Proof. unfold has_operands. rewrite renamed_type, renamed_operands_length. auto. Qed.

Lemma ends_in_control_renamed rho l : ends_in_control (map (renamed rho) l) = ends_in_control l.
Proof.
  induction l as [| i l IH]; [reflexivity |]. cbn [map ends_in_control]. rewrite IH, renamed_type.
  destruct l; reflexivity.
Qed.

(** A renaming that keeps the blocks of a buffer apart. *)
Section Renaming.
Context (rho : Z -> Z) (l : list IRInstruction) (live : Z -> Prop).
Hypothesis rho_inj : forall a b, live a -> live b -> rho a = rho b -> a = b.
Hypothesis live_block : forall i, i ∈ l -> live (ir_block i).
Hypothesis live_target : forall i t, i ∈ l -> t ∈ targets i -> live t.
Hypothesis l_operands : Forall has_operands l.

Lemma code_renamed b : live b -> code (rho b) (map (renamed rho) l) = map (renamed rho) (code b l).
Proof.
  intros Hb. unfold code. clear live_target l_operands. induction l as [| i r IH]; [reflexivity |].
  cbn [map]. specialize (IH ltac:(intros; apply live_block; right; assumption)).
  destruct (decide (ir_block i = b)) as [<- | Hne].
  - rewrite !filter_cons_True by (rewrite ?renamed_block; reflexivity). cbn [map]. f_equal. exact IH.
  - rewrite !filter_cons_False; [exact IH | assumption |]. rewrite renamed_block. intros E.
    apply Hne, rho_inj; [apply live_block; left | assumption | assumption].
Qed.

Definition rename_outcome {St} (o : outcome (St := St)) : outcome :=
  match o with Goto b s => Goto (rho b) s | o => o end.

Lemma run_code_renamed {St} (exec : IRInstructionType -> list IROperand -> St -> St)
    (taken : IROperand -> St -> bool) c s :
  Forall has_operands c ->
  run_code exec taken (map (renamed rho) c) s = rename_outcome (run_code exec taken c s).
Proof.
  intros H. revert s. induction H as [| i c Hi H IH]; intros s; [reflexivity |].
  cbn [map run_code]. rewrite renamed_type. destruct (type i) eqn:E;
    try (rewrite renamed_straight by congruence; (apply IH || reflexivity)).
  - rewrite renamed_op by assumption. rewrite decide_True by auto. reflexivity.
  - rewrite (renamed_op rho i 0) by assumption. rewrite decide_False by (rewrite E; intuition congruence).
    cbn [rename_outcome]. rewrite renamed_op by assumption.
    rewrite decide_True by (destruct (taken _ _); auto). reflexivity.
Qed.

Lemma run_renamed {St} (exec : IRInstructionType -> list IROperand -> St -> St)
    (taken : IROperand -> St -> bool) fuel b s :
  live b -> run exec taken fuel (map (renamed rho) l) (rho b) s = run exec taken fuel l b s.
Proof.
  revert b s. induction fuel as [| n IH]; intros b s Hb; [reflexivity |]. cbn [run].
  rewrite code_renamed, run_code_renamed;
    [| eapply Forall_forall; intros i Hi; apply code_elem in Hi as [Hi _];
       rewrite Forall_forall in l_operands; auto | assumption].
  destruct (run_code exec taken (code b l) s) eqn:E; cbn [rename_outcome]; try reflexivity.
  apply IH. apply run_code_goto in E as (i & Hi & Ht). apply code_elem in Hi as [Hi _]. eauto.
Qed.

Lemma evals_renamed {St} (exec : IRInstructionType -> list IROperand -> St -> St)
    (taken : IROperand -> St -> bool) b s r :
  live b -> evals exec taken l b s r <-> evals exec taken (map (renamed rho) l) (rho b) s r.
Proof.
  intros Hb. split; intros H; apply evals_run in H as (n & H); apply (run_evals _ _ n);
    rewrite run_renamed in * by assumption; assumption.
Qed.

Lemma reachable_renamed b :
  live 0 -> rho 0 = 0 -> reachable l b -> reachable (map (renamed rho) l) (rho b).
Proof.
  intros H0 E0. induction 1 as [| i t Hi IH Hil Ht]; [rewrite E0; constructor |].
  apply reachable_step with (renamed rho i).
  - rewrite renamed_block. assumption.
  - apply list_elem_of_fmap. eauto.
  - rewrite renamed_targets by (rewrite Forall_forall in l_operands; auto). apply list_elem_of_fmap. eauto.
Qed.

Lemma terminated_renamed : terminated l -> terminated (map (renamed rho) l).
Proof.
  intros H b. destruct (code b (map (renamed rho) l)) as [| i c] eqn:E; [auto |]. right. rewrite <- E.
  assert (Hi : i ∈ code b (map (renamed rho) l)) by (rewrite E; left).
  apply code_elem in Hi as [Hi <-]. apply list_elem_of_fmap in Hi as (j & -> & Hj).
  rewrite renamed_block, code_renamed, ends_in_control_renamed by auto.
  destruct (H (ir_block j)) as [Hc |]; [| assumption].
  assert (Hj' : j ∈ code (ir_block j) l) by (apply list_elem_of_filter; auto).
  rewrite Hc in Hj'. inversion Hj'.
Qed.
End Renaming.

(** ** Dead block elimination *)

Fixpoint mark_all (live_blocks : list bool) (bs : list Z) : result (list bool) :=
  match bs with
  | [] => Ok live_blocks
  | b :: r => let* live1 := vec_set live_blocks b true in mark_all live1 r
  end.

Fixpoint dbe_mark (l : list IRInstruction) (live_blocks : list bool) : result (list bool) :=
  match l with
  | [] => Ok live_blocks
  | i :: r => let* live1 := mark_all live_blocks (targets i) in dbe_mark r live1
  end.

Fixpoint dbe_kill (live_blocks : list bool) (l : list IRInstruction) : result (list IRInstruction) :=
  match l with
  | [] => Ok []
  | i :: r =>
      let* b := vec_get live_blocks (ir_block i) in
      let* r1 := dbe_kill live_blocks r in
      Ok ((if b then i else make_nop i) :: r1)
  end.

Definition DeadBlockElimination_Apply (c : TranslationContext) : result TranslationContext :=
  let* live0 := vec_set (replicate (Z.to_nat (_ir_block_count c)) false) 0 true in
  let* live_blocks := dbe_mark (_ir_insns c) live0 in
  let* l := dbe_kill live_blocks (_ir_insns c) in
  Ok (with_insns l c).

(** Every block named by an instruction exists. *)
Record ctx_wf (c : TranslationContext) : Prop := {
  wf_operands : Forall has_operands (_ir_insns c);
  wf_count : 0 < _ir_block_count c <= NOP_BLOCK;
  wf_block : Forall (fun i => 0 <= ir_block i < _ir_block_count c) (_ir_insns c);
  wf_targets : Forall (fun i => Forall (fun t => 0 <= t < _ir_block_count c) (targets i)) (_ir_insns c)
}.

Definition marked (live : list bool) (b : Z) : Prop := 0 <= b /\ live !! Z.to_nat b = Some true.

Lemma vec_set_marked live b live' :
  vec_set live b true = Ok live' ->
  length live' = length live /\ marked live' b /\ forall b', marked live b' -> marked live' b'.
Proof.
  intros E. apply vec_set_Ok in E as [Hb ->]. split; [apply length_set_at |]. split.
  - split; [lia |]. rewrite lookup_set_at, decide_True by (lia || reflexivity). reflexivity.
  - intros b' [H1 H2]. split; [assumption |]. rewrite lookup_set_at by lia. case_decide; [reflexivity | assumption].
Qed.

Lemma mark_all_facts live bs live' :
  mark_all live bs = Ok live' ->
  length live' = length live /\ (forall b, b ∈ bs -> marked live' b) /\
  (forall b, marked live b -> marked live' b).
Proof.
  revert live. induction bs as [| b bs IH]; intros live E; cbn [mark_all] in E.
  - apply Ok_inj in E as <-. split; [reflexivity |]. split; [set_solver | auto].
  - bind_inv E. apply vec_set_marked in E0 as (L1 & M1 & K1). apply IH in E as (L2 & M2 & K2).
    split; [congruence |]. split; [| auto]. intros b' Hb. apply elem_of_cons in Hb as [-> | Hb]; auto.
Qed.

Lemma dbe_mark_facts l live live' :
  dbe_mark l live = Ok live' ->
  length live' = length live /\ (forall i t, i ∈ l -> t ∈ targets i -> marked live' t) /\
  (forall b, marked live b -> marked live' b).
Proof.
  revert live. induction l as [| i l IH]; intros live E; cbn [dbe_mark] in E.
  - apply Ok_inj in E as <-. split; [reflexivity |]. split; [set_solver | auto].
  - bind_inv E. apply mark_all_facts in E0 as (L1 & M1 & K1). apply IH in E as (L2 & M2 & K2).
    split; [congruence |]. split; [| auto]. intros j t Hj Ht. apply elem_of_cons in Hj as [-> | Hj]; eauto.
Qed.

Lemma dbe_kill_code live l l' b :
  dbe_kill live l = Ok l' -> b <> NOP_BLOCK ->
  code b l' = if bool_decide (live !! Z.to_nat b = Some true) then code b l else [].
Proof.
  intros E Hb. revert l' E. induction l as [| i l IH]; intros l' E; cbn [dbe_kill] in E.
  - apply Ok_inj in E as <-. case_bool_decide; reflexivity.
  - bind_inv E. apply Ok_inj in E as <-. apply vec_get_Ok in E0 as [Hi Hl]. specialize (IH _ E1).
    unfold code in *. destruct (decide (ir_block i = b)) as [<- | Hne].
    + destruct v.
      * rewrite filter_cons_True by reflexivity. rewrite bool_decide_true in IH |- * by assumption.
        rewrite filter_cons_True by reflexivity. f_equal. exact IH.
      * rewrite bool_decide_false in IH |- * by congruence.
        rewrite filter_cons_False by (simpl; congruence). exact IH.
    + rewrite (filter_cons_False _ i l) by assumption. rewrite filter_cons_False; [exact IH |].
      destruct v; simpl; congruence.
Qed.

(** Nothing else is marked. *)
Lemma mark_all_only bs live live' b :
  mark_all live bs = Ok live' -> 0 <= b -> ~ b ∈ bs ->
  live' !! Z.to_nat b = Some true -> live !! Z.to_nat b = Some true.
Proof.
  intros E Hb. revert live E. induction bs as [| t bs IH]; intros live E Hn Hl; cbn [mark_all] in E.
  - apply Ok_inj in E as <-. assumption.
  - bind_inv E. apply vec_set_Ok in E0 as [Ht ->]. apply IH in E; [| set_solver | assumption].
    rewrite lookup_set_at in E by lia. case_decide; [| assumption].
    exfalso. apply Hn. replace b with t by lia. left.
Qed.

Lemma dbe_mark_only l live live' b :
  dbe_mark l live = Ok live' -> 0 <= b -> (forall i, i ∈ l -> ~ b ∈ targets i) ->
  live' !! Z.to_nat b = Some true -> live !! Z.to_nat b = Some true.
Proof.
  intros E Hb. revert live E. induction l as [| i l IH]; intros live E Hn Hl; cbn [dbe_mark] in E.
  - apply Ok_inj in E as <-. assumption.
  - bind_inv E. eapply mark_all_only; [exact E0 | assumption | apply Hn; left |].
    eapply IH; [exact E | intros; apply Hn; right; assumption | assumption].
Qed.

Lemma mark_all_total n live bs :
  length live = n -> Forall (fun t => 0 <= t < Z.of_nat n) bs -> exists live', mark_all live bs = Ok live'.
Proof.
  intros Hl H. revert live Hl. induction H as [| b bs Hb H IH]; intros live Hl; cbn [mark_all]; [eauto |].
  assert (E : vec_set live b true = Ok (set_at live b true)) by (apply vec_set_Ok; split; [lia | reflexivity]).
  rewrite E. cbn [rbind]. apply IH. rewrite length_set_at. assumption.
Qed.

Lemma dbe_mark_total n l live :
  length live = n -> Forall (fun i => Forall (fun t => 0 <= t < Z.of_nat n) (targets i)) l ->
  exists live', dbe_mark l live = Ok live'.
Proof.
  intros Hl H. revert live Hl. induction H as [| i l Hi H IH]; intros live Hl; cbn [dbe_mark]; [eauto |].
  destruct (mark_all_total n live (targets i) Hl Hi) as (live1 & E). rewrite E. cbn [rbind].
  apply IH. apply mark_all_facts in E as (-> & _). assumption.
Qed.

Lemma dbe_kill_total n live l :
  length live = n -> Forall (fun i => 0 <= ir_block i < Z.of_nat n) l -> exists l', dbe_kill live l = Ok l'.
Proof.
  intros Hl. induction 1 as [| i l Hi H IH]; cbn [dbe_kill]; [eauto |].
  destruct (vec_get_in_range live (ir_block i)) as (b & ->); [lia |]. destruct IH as (l' & ->).
  cbn [rbind]. eauto.
Qed.

Lemma dbe_kill_elem live l l' i : dbe_kill live l = Ok l' -> i ∈ l' -> i ∈ l \/ i = mkInsn [] NOP_BLOCK NOP.
Proof.
  revert l'. induction l as [| x l IH]; intros l' E Hi; cbn [dbe_kill] in E.
  - apply Ok_inj in E as <-. inversion Hi.
  - bind_inv E. apply Ok_inj in E as <-. apply elem_of_cons in Hi as [-> | Hi].
    + destruct v; [left; left | right; reflexivity].
    + destruct (IH _ E1 Hi); [left; right; assumption | auto].
Qed.

Lemma dbe_kill_length live l l' : dbe_kill live l = Ok l' -> length l' = length l.
Proof.
  revert l'. induction l as [| x l IH]; intros l' E; cbn [dbe_kill] in E.
  - apply Ok_inj in E as <-. reflexivity.
  - bind_inv E. apply Ok_inj in E as <-. cbn [length]. f_equal. auto.
Qed.

(** What dead block elimination does: code stays in the marked blocks, which
    are the entry and the targets, and goes from the others. *)
Record eliminates (l : list IRInstruction) (live : list bool) (l' : list IRInstruction) : Prop := {
  el_entry : marked live 0;
  el_target : forall i t, i ∈ l -> t ∈ targets i -> marked live t;
  el_only : forall b, 0 < b -> marked live b -> exists i, i ∈ l /\ b ∈ targets i;
  el_code : forall b, b <> NOP_BLOCK -> code b l' = if bool_decide (live !! Z.to_nat b = Some true) then code b l else [];
  el_elem : forall i, i ∈ l' -> i ∈ l \/ i = mkInsn [] NOP_BLOCK NOP;
  el_length : length l' = length l
}.

Lemma dead_block_elimination_ok c :
  ctx_wf c ->
  exists live l', DeadBlockElimination_Apply c = Ok (with_insns l' c) /\ eliminates (_ir_insns c) live l' /\
    Z.of_nat (length live) <= NOP_BLOCK.
Proof.
  intros [_ Hc Hb Ht]. unfold DeadBlockElimination_Apply.
  set (n := Z.to_nat (_ir_block_count c)). set (live0 := set_at (replicate n false) 0 true).
  assert (Hn : Z.of_nat n = _ir_block_count c) by lia.
  assert (E0 : vec_set (replicate n false) 0 true = Ok live0)
    by (apply vec_set_Ok; rewrite length_replicate; split; [lia | reflexivity]).
  assert (L0 : length live0 = n) by (unfold live0; rewrite length_set_at; apply length_replicate).
  rewrite E0. cbn [rbind]. apply vec_set_marked in E0 as (_ & M0 & _).
  rewrite <- Hn in Hb, Ht. destruct (dbe_mark_total n _ _ L0 Ht) as (live & E1). rewrite E1. cbn [rbind].
  pose proof (dbe_mark_facts _ _ _ E1) as (L1 & M1 & K1).
  destruct (dbe_kill_total n live _ ltac:(congruence) Hb) as (l' & E2). rewrite E2. cbn [rbind].
  exists live, l'. split; [reflexivity |]. split; [| lia]. split.
  - auto.
  - exact M1.
  - intros b Hb0 [_ Hlive].
    destruct (decide (Exists (fun i => b ∈ targets i) (_ir_insns c))) as [Hex | Hno].
    + apply Exists_exists in Hex. assumption.
    + exfalso. apply (dbe_mark_only _ _ _ b E1) in Hlive;
        [| lia | intros i Hi Hbi; apply Hno, Exists_exists; eauto].
      unfold live0 in Hlive. rewrite lookup_set_at, decide_False in Hlive by (rewrite ?length_replicate; lia).
      apply lookup_replicate in Hlive as [Hlive _]. discriminate.
  - intros b Hbn. apply dbe_kill_code; assumption.
  - intros i. apply dbe_kill_elem with live. assumption.
  - eapply dbe_kill_length. eassumption.
Qed.

Lemma eliminates_evals {St} (exec : IRInstructionType -> list IROperand -> St -> St) taken l live l' s r :
  eliminates l live l' -> Z.of_nat (length live) <= NOP_BLOCK ->
  evals exec taken l 0 s r <-> evals exec taken l' 0 s r.
Proof.
  intros H Hn. apply (evals_same_code exec taken (marked live)); [| | apply H].
  - intros b [Hb0 Hlb]. rewrite (el_code _ _ _ H) by (apply lookup_lt_Some in Hlb; lia).
    rewrite bool_decide_true by assumption. reflexivity.
  - intros b i t _ Hi Hit. apply code_elem in Hi as [Hi _]. eapply (el_target _ _ _ H); eassumption.
Qed.

(** On a context whose instructions name existing blocks, dead
    block elimination succeeds and preserves the meaning of the translated
    code, whatever the straight-line instructions do: it reaches the same
    exits from the entry block with the same state; and every block that is
    neither the entry nor the target of an instruction is empty afterwards. *)
Theorem dead_block_elimination_correct {St} (exec : IRInstructionType -> list IROperand -> St -> St)
    (taken : IROperand -> St -> bool) c :
  ctx_wf c ->
  exists c', DeadBlockElimination_Apply c = Ok c' /\
    (forall s r, evals exec taken (_ir_insns c) 0 s r <-> evals exec taken (_ir_insns c') 0 s r) /\
    (forall b, 0 < b -> b <> NOP_BLOCK ->
       (forall i, i ∈ _ir_insns c -> ~ b ∈ targets i) -> code b (_ir_insns c') = []).
Proof.
  intros Hwf. destruct (dead_block_elimination_ok c Hwf) as (live & l' & E & H & Hn).
  exists (with_insns l' c). split; [assumption |]. split; [intros; eapply eliminates_evals; eassumption |].
  intros b Hb Hbn Hno. cbn [_ir_insns with_insns]. rewrite (el_code _ _ _ H) by assumption.
  rewrite bool_decide_false; [reflexivity |]. intros Hl. destruct (el_only _ _ _ H b Hb (conj (Z.lt_le_incl _ _ Hb) Hl)) as (i & Hi & Ht). exact (Hno i Hi Ht).
Qed.

(** Block 0 jumps to block 2, block 1 is dead, block 2 returns. *)
Definition dbe_example : TranslationContext :=
  mkContext 3 0
    [mkInsn [] 0 TRAP; mkInsn [block_op 2] 0 JMP; mkInsn [] 1 TRAP; mkInsn [] 1 RET; mkInsn [] 2 RET] 0.

Lemma dbe_example_wf : ctx_wf dbe_example.
Proof.
  split; [| vm_compute; split; congruence | |]; repeat constructor; vm_compute; congruence.
Qed.

Lemma dead_block_elimination_correct_witness :
  exists c', DeadBlockElimination_Apply dbe_example = Ok c' /\
    code 1 (_ir_insns c') = [] /\
    evals (fun _ _ n => S n) (fun _ _ => true) (_ir_insns c') 0 5%nat (RET, [], 6%nat).
Proof.
  destruct (dead_block_elimination_correct (fun _ _ n => S n) (fun _ _ => true) dbe_example dbe_example_wf)
    as (c' & E & Hev & Hdead).
  exists c'. split; [exact E |]. split.
  - apply Hdead; [lia | discriminate |]. intros i Hi.
    repeat (apply elem_of_cons in Hi as [-> | Hi]; [vm_compute; intros H; set_solver |]). set_solver.
  - apply Hev. apply (run_evals _ _ 2). reflexivity.
Defined.
