(* ===== verification/ReorderBlocks.v ===== *)
(** * Reordering the blocks of a translation

    ReorderBlocksTransform.cpp: a control-flow graph, the depth of every block
    by a work list, and a renumbering of the blocks by depth.

    [std::sort] may leave blocks of equal depth in any order, so the transform
    is a function of the sort, and its theorems hold for every sort that meets
    [std_sort_ok]. *)

From Stdlib Require Import ZArith Lia Bool Sorted.
From stdpp Require Import base list numbers sets.
From S2P Require Import Prelude.
From S2P Require Import BlockIR.
From S2P Require Import IRSorterCorrect.
From S2P Require Import BlockFlow.

(** ** The transform *)

(** [std::set<IRBlockId>::insert]; the set is its elements in order. *)
Fixpoint set_insert (b : Z) (bs : list Z) : list Z :=
  match bs with
  | [] => [b]
  | c :: r => if b <? c then b :: bs else if b =? c then bs else c :: set_insert b r
  end.

Fixpoint build_cfg (l : list IRInstruction) (block_targets : list (Z * Z)) (blocks : list Z)
  : result (list (Z * Z) * list Z) :=
  match l with
  | [] => Ok (block_targets, blocks)
  | insn :: r =>
      match type insn with
      | JMP =>
          let t := u32 (value (op insn 0)) in
          let* bt := vec_set block_targets (ir_block insn) (t, NOP_BLOCK) in
          build_cfg r bt (set_insert t blocks)
      | BRANCH =>
          let t := u32 (value (op insn 1)) in
          let f := u32 (value (op insn 2)) in
          let* bt := vec_set block_targets (ir_block insn) (t, f) in
          build_cfg r bt (set_insert f (set_insert t blocks))
      | RET | DISPATCH =>
          let* bt := vec_set block_targets (ir_block insn) (NOP_BLOCK, NOP_BLOCK) in
          build_cfg r bt blocks
      | _ => build_cfg r block_targets blocks
      end
  end.

(** One target of the block taken from the work list. *)
Definition deepen (my_max_depth target : Z) (st : list Z * list Z) : result (list Z * list Z) :=
  let '(max_depth, work_list) := st in
  if target =? NOP_BLOCK then Ok st
  else
    let* prev_max_depth := vec_get max_depth target in
    if prev_max_depth <? u32 (my_max_depth + 1) then
      let* max_depth1 := vec_set max_depth target (u32 (my_max_depth + 1)) in
      Ok (max_depth1, target :: work_list)
    else Ok st.

(** The back of the vector [work_list] is the head of the list. *)
Fixpoint depth_loop (fuel : nat) (block_targets : list (Z * Z)) (max_depth work_list : list Z)
  : result (list Z) :=
  match fuel, work_list with
  | _, [] => Ok max_depth
  | O, _ => Err OutOfFuel
  | S n, block :: work_list =>
      if block =? NOP_BLOCK then depth_loop n block_targets max_depth work_list
      else
        let* my_max_depth := vec_get max_depth block in
        let* (first_target, second_target) := vec_get block_targets block in
        let* st1 := deepen my_max_depth first_target (max_depth, work_list) in
        let* (max_depth2, work_list2) := deepen my_max_depth second_target st1 in
        depth_loop n block_targets max_depth2 work_list2
  end.

Fixpoint assign_order (queue : list Z) (i : Z) (reordering : list Z) : result (list Z) :=
  match queue with
  | [] => Ok reordering
  | b :: r => let* reordering1 := vec_set reordering b i in assign_order r (i + 1) reordering1
  end.

Definition rename_op (reordering : list Z) (n : nat) (insn : IRInstruction) : result IRInstruction :=
  let* b := vec_get reordering (value (op insn n)) in
  Ok (set_op n (with_value b (op insn n)) insn).

Definition rename_insn (reordering : list Z) (insn : IRInstruction) : result IRInstruction :=
  if ir_block insn =? NOP_BLOCK then Ok insn
  else
    let* b := vec_get reordering (ir_block insn) in
    let insn1 := mkInsn (operands insn) b (type insn) in
    match type insn1 with
    | JMP => rename_op reordering 0 insn1
    | BRANCH => let* insn2 := rename_op reordering 1 insn1 in rename_op reordering 2 insn2
    | _ => Ok insn1
    end.

Fixpoint rename_all (reordering : list Z) (l : list IRInstruction) : result (list IRInstruction) :=
  match l with
  | [] => Ok []
  | insn :: r =>
      let* insn1 := rename_insn reordering insn in
      let* r1 := rename_all reordering r in
      Ok (insn1 :: r1)
  end.

Definition depth_less (max_depth : list Z) (a b : Z) : bool :=
  nth (Z.to_nat a) max_depth 0 <? nth (Z.to_nat b) max_depth 0.

Definition ReorderBlocks_Apply (std_sort : (Z -> Z -> bool) -> list Z -> list Z) (fuel : nat)
    (c : TranslationContext) : result TranslationContext :=
  let n := Z.to_nat (_ir_block_count c) in
  let* (block_targets, blocks) :=
    build_cfg (_ir_insns c) (replicate n (NOP_BLOCK, NOP_BLOCK)) (set_insert 0 []) in
  let* max_depth := depth_loop fuel block_targets (replicate n 0) [0] in
  let queue := std_sort (depth_less max_depth) blocks in
  let* reordering := assign_order queue 0 (replicate n NOP_BLOCK) in
  let* l := rename_all reordering (_ir_insns c) in
  Ok (recount_blocks (Z.of_nat (length queue)) (with_insns l c)).

(** What [std::sort] promises of a comparison by a key. *)
Definition std_sort_ok (std_sort : (Z -> Z -> bool) -> list Z -> list Z) : Prop :=
  forall (key : Z -> Z) l,
    let less := fun a b => key a <? key b in
    std_sort less l ≡ₚ l /\ StronglySorted (fun a b => key a <= key b) (std_sort less l).

(** ** The control-flow graph *)

Lemma set_insert_elem b bs x : x ∈ set_insert b bs <-> x = b \/ x ∈ bs.
Proof.
  induction bs as [| c bs IH]; cbn [set_insert]; [set_solver |].
  destruct (Z.ltb_spec b c); [set_solver |]. destruct (Z.eqb_spec b c) as [-> |]; [set_solver |].
  rewrite !elem_of_cons, IH. tauto.
Qed.

Lemma set_insert_sorted b bs : StronglySorted Z.lt bs -> StronglySorted Z.lt (set_insert b bs).
Proof.
  induction 1 as [| c bs Hs IH Hf]; cbn [set_insert]; [repeat constructor |].
  destruct (Z.ltb_spec b c).
  - constructor; [constructor; assumption |]. constructor; [assumption |].
    eapply Forall_impl; [exact Hf |]. simpl. lia.
  - destruct (Z.eqb_spec b c) as [-> |]; constructor; try assumption.
    apply Forall_forall. intros x Hx. apply set_insert_elem in Hx as [-> | Hx]; [lia |].
    rewrite Forall_forall in Hf. auto.
Qed.

Lemma sorted_lt_NoDup bs : StronglySorted Z.lt bs -> NoDup bs.
Proof.
  induction 1 as [| c bs Hs IH Hf]; constructor; [| assumption].
  rewrite Forall_forall in Hf. intros Hc. specialize (Hf c Hc). lia.
Qed.

Definition target_pair (i : IRInstruction) : Z * Z :=
  match type i with
  | JMP => (u32 (value (op i 0)), NOP_BLOCK)
  | BRANCH => (u32 (value (op i 1)), u32 (value (op i 2)))
  | _ => (NOP_BLOCK, NOP_BLOCK)
  end.

(** The last jump, branch, return or dispatch of a block. *)
Definition last_control (b : Z) (l : list IRInstruction) : option IRInstruction :=
  last (filter (fun i => is_control (type i) = true) (code b l)).

Lemma last_control_cons b i l :
  last_control b (i :: l) =
  match last_control b l with
  | Some j => Some j
  | None => if bool_decide (ir_block i = b) && is_control (type i) then Some i else None
  end.
Proof.
  unfold last_control, code. case_bool_decide.
  - rewrite filter_cons_True by assumption. destruct (is_control (type i)) eqn:E.
    + rewrite filter_cons_True by assumption. rewrite last_cons. reflexivity.
    + rewrite filter_cons_False by congruence. simpl. destruct (last _); reflexivity.
  - rewrite filter_cons_False by assumption. simpl. destruct (last _); reflexivity.
Qed.

Lemma build_cfg_step insn r bt bs :
  build_cfg (insn :: r) bt bs =
  let* bt1 := (if is_control (type insn) then vec_set bt (ir_block insn) (target_pair insn) else Ok bt) in
  build_cfg r bt1 (fold_left (fun bs t => set_insert (u32 t) bs) (targets insn) bs).
Proof. cbn [build_cfg]. unfold target_pair, targets. destruct (type insn); reflexivity. Qed.

Lemma build_cfg_facts l bt bs bt' bs' :
  build_cfg l bt bs = Ok (bt', bs') ->
  length bt' = length bt /\
  (forall b, 0 <= b -> bt' !! Z.to_nat b =
     match last_control b l with Some i => Some (target_pair i) | None => bt !! Z.to_nat b end) /\
  (forall x, x ∈ bs' <-> x ∈ bs \/ exists i t, i ∈ l /\ t ∈ targets i /\ x = u32 t) /\
  (StronglySorted Z.lt bs -> StronglySorted Z.lt bs').
Proof.
  revert bt bs. induction l as [| i l IH]; intros bt bs E.
  - apply Ok_inj in E as [= <- <-]. split; [reflexivity |]. split; [reflexivity |].
    split; [| auto]. intros x. split; [auto |]. intros [H | (i & t & H & _)]; [assumption | inversion H].
  - rewrite build_cfg_step in E. apply rbind_Ok in E as (bt1 & E1 & E). apply IH in E as (L & Hbt & Hbs & Hs).
    assert (Hfold : forall ts bs, (forall x, x ∈ fold_left (fun bs t => set_insert (u32 t) bs) ts bs <->
              x ∈ bs \/ exists t, t ∈ ts /\ x = u32 t) /\
              (StronglySorted Z.lt bs -> StronglySorted Z.lt (fold_left (fun bs t => set_insert (u32 t) bs) ts bs))).
    { clear. induction ts as [| t ts IH]; intros bs; cbn [fold_left]; [set_solver |].
      destruct (IH (set_insert (u32 t) bs)) as [H1 H2]. split; [| auto using set_insert_sorted].
      intros x. rewrite H1, set_insert_elem. set_solver. }
    destruct (Hfold (targets i) bs) as [F1 F2]. repeat split.
    + rewrite L. destruct (is_control (type i)); [apply vec_set_Ok in E1 as [_ ->]; apply length_set_at |].
      apply Ok_inj in E1 as ->. reflexivity.
    + intros b Hb. rewrite Hbt, last_control_cons by assumption. destruct (last_control b l); [reflexivity |].
      destruct (is_control (type i)).
      * apply vec_set_Ok in E1 as [Hr ->]. rewrite lookup_set_at by assumption. rewrite andb_true_r.
        case_bool_decide; case_decide; subst; try reflexivity; lia.
      * apply Ok_inj in E1 as ->. rewrite andb_false_r. reflexivity.
    + rewrite Hbs, F1. intros [[H | (t & H & ->)] | (j & t & H & H')]; [auto | |]; right.
      * exists i, t. set_solver.
      * exists j, t. set_solver.
    + rewrite Hbs, F1. intros [H | (j & t & H & Ht & ->)]; [auto |].
      apply elem_of_cons in H as [-> | H]; eauto 6.
    + auto.
Qed.

Lemma build_cfg_total l n bt bs :
  length bt = n -> Forall (fun i => 0 <= ir_block i < Z.of_nat n) l -> exists r, build_cfg l bt bs = Ok r.
Proof.
  intros Hl H. revert bt bs Hl. induction H as [| i l Hi H IH]; intros bt bs Hl; [cbn; eauto |].
  rewrite build_cfg_step. destruct (is_control (type i)); cbn [rbind]; [| auto].
  assert (E : vec_set bt (ir_block i) (target_pair i) = Ok (set_at bt (ir_block i) (target_pair i)))
    by (apply vec_set_Ok; split; [lia | reflexivity]).
  rewrite E. cbn [rbind]. apply IH. rewrite length_set_at. assumption.
Qed.

(** ** The depth of every block *)

Definition depth_of (max_depth : list Z) (b : Z) : Z := nth (Z.to_nat b) max_depth 0.

Lemma vec_get_depth d b : 0 <= b < Z.of_nat (length d) -> vec_get d b = Ok (depth_of d b).
Proof.
  intros H. destruct (vec_get_in_range d b H) as (x & E). rewrite E. apply vec_get_Ok in E as [_ E].
  unfold depth_of. rewrite (nth_lookup_Some _ _ _ _ E). reflexivity.
Qed.

Lemma depth_of_set d t v b :
  0 <= t < Z.of_nat (length d) -> 0 <= b -> depth_of (set_at d t v) b = if t =? b then v else depth_of d b.
Proof.
  intros Ht Hb. unfold depth_of. rewrite !nth_lookup, lookup_set_at by assumption.
  destruct (Z.eqb_spec t b) as [-> |]; case_decide; subst; reflexivity || lia.
Qed.

(** How much the depths may still grow, when [m] bounds them. *)
Definition room (m : Z) (d : list Z) : Z := fold_right (fun x acc => m - x + acc) 0 d.

Lemma room_set m d t v :
  0 <= t < Z.of_nat (length d) -> room m (set_at d t v) = room m d - (v - depth_of d t).
Proof.
  unfold set_at, depth_of. intros Ht. assert (H : (Z.to_nat t < length d)%nat) by lia. clear Ht.
  revert H. generalize (Z.to_nat t) as k. induction d as [| x d IH]; intros k H; [simpl in H; lia |].
  destruct k as [| k]; [cbn; lia |]. change (<[S k := v]> (x :: d)) with (x :: <[k := v]> d).
  cbn [length] in H. specialize (IH k ltac:(lia)). unfold room in *. cbn [fold_right nth]. rewrite IH. lia.
Qed.

Lemma room_nonneg m d : Forall (fun x => x <= m) d -> 0 <= room m d.
Proof. induction 1; cbn [room fold_right]; [lia |]. unfold room in *. lia. Qed.

Section Depth.
Context (n : nat) (bt : list (Z * Z)) (rank : Z -> Z).

Definition edge (b t : Z) : Prop :=
  exists p, bt !! Z.to_nat b = Some p /\ (t = p.1 \/ t = p.2) /\ t <> NOP_BLOCK.

Hypothesis bt_length : length bt = n.
Hypothesis n_small : Z.of_nat n <= NOP_BLOCK.
Hypothesis rank_range : forall b, 0 <= b < Z.of_nat n -> 0 <= rank b < Z.of_nat n.
Hypothesis rank_edge : forall b t, 0 <= b < Z.of_nat n -> edge b t -> rank b < rank t.
Hypothesis edge_range : forall b t, 0 <= b < Z.of_nat n -> edge b t -> 0 <= t < Z.of_nat n.

Definition bounded (d : list Z) : Prop :=
  length d = n /\ forall b, 0 <= b < Z.of_nat n -> 0 <= depth_of d b <= rank b.

(** [d'] is [d] with the target [t] brought to depth [k + 1]. *)
Record deepened (k t : Z) (d w d' w' : list Z) : Prop := {
  de_bounded : bounded d';
  de_target : t <> NOP_BLOCK -> k + 1 <= depth_of d' t;
  de_mono : forall b, 0 <= b -> depth_of d b <= depth_of d' b;
  de_change : forall b, 0 <= b -> depth_of d' b = depth_of d b \/ b ∈ w';
  de_keep : forall b, b ∈ w -> b ∈ w';
  de_new : forall b, b ∈ w' -> b ∈ w \/ 0 <= b < Z.of_nat n;
  de_measure : 2 * room (Z.of_nat n) d' + Z.of_nat (length w') <= 2 * room (Z.of_nat n) d + Z.of_nat (length w)
}.

Lemma deepen_spec b t d w :
  bounded d -> 0 <= b < Z.of_nat n -> 0 <= depth_of d b -> t = NOP_BLOCK \/ edge b t ->
  forall k, 0 <= k <= rank b ->
  exists d' w', deepen k t (d, w) = Ok (d', w') /\ deepened k t d w d' w'.
Proof.
  intros [Hl Hd] Hb _ Ht k Hk. unfold deepen. destruct (Z.eqb_spec t NOP_BLOCK) as [-> | Hn].
  { exists d, w. split; [reflexivity |]. split; try tauto; try (split; assumption); auto; intros; lia. }
  destruct Ht as [Ht | Ht]; [contradiction |].
  pose proof (edge_range b t Hb Ht) as Hr. pose proof (rank_edge b t Hb Ht) as Hlt.
  pose proof (rank_range t Hr) as Hrt. assert (NOP_BLOCK < 2 ^ 32) by reflexivity.
  rewrite vec_get_depth by lia. cbn [rbind].
  replace (u32 (k + 1)) with (k + 1) by (unfold u32; rewrite wrap_small; unfold in_range; lia).
  destruct (Z.ltb_spec (depth_of d t) (k + 1)) as [Hlo | Hhi].
  - assert (E : vec_set d t (k + 1) = Ok (set_at d t (k + 1))) by (apply vec_set_Ok; split; [lia | reflexivity]).
    rewrite E. cbn [rbind]. exists (set_at d t (k + 1)), (t :: w). split; [reflexivity |].
    assert (Hset : forall x, 0 <= x -> depth_of (set_at d t (k + 1)) x = if t =? x then k + 1 else depth_of d x)
      by (intros; apply depth_of_set; lia).
    split.
    + split; [rewrite length_set_at; assumption |]. intros x Hx. rewrite Hset by lia.
      destruct (Z.eqb_spec t x) as [<- |]; [lia | auto].
    + intros _. rewrite Hset, Z.eqb_refl by lia. lia.
    + intros x Hx. rewrite Hset by lia. destruct (Z.eqb_spec t x) as [<- |]; lia.
    + intros x Hx. rewrite Hset by lia. destruct (Z.eqb_spec t x) as [<- |]; [right; left | auto].
    + intros x Hx. right. assumption.
    + intros x Hx. apply elem_of_cons in Hx as [-> |]; auto.
    + rewrite room_set by lia. cbn [length]. lia.
  - exists d, w. split; [reflexivity |]. split; auto; try (split; assumption); intros; lia.
Qed.

(** Whatever has a depth and is not waiting has deeper successors. *)
Record depth_inv (d w : list Z) : Prop := {
  di_bounded : bounded d;
  di_work : forall b, b ∈ w -> 0 <= b < Z.of_nat n;
  di_done : forall b, 0 <= b < Z.of_nat n -> b = 0 \/ 0 < depth_of d b ->
            b ∈ w \/ forall t, edge b t -> depth_of d b + 1 <= depth_of d t
}.

Lemma depth_step b d w :
  depth_inv d (b :: w) ->
  exists p d1 w1 d' w',
    vec_get bt b = Ok p /\ deepen (depth_of d b) p.1 (d, w) = Ok (d1, w1) /\
    deepen (depth_of d b) p.2 (d1, w1) = Ok (d', w') /\ depth_inv d' w' /\
    2 * room (Z.of_nat n) d' + Z.of_nat (length w') <= 2 * room (Z.of_nat n) d + Z.of_nat (length w).
Proof.
  intros [Hbd Hw Hdone]. assert (Hb : 0 <= b < Z.of_nat n) by (apply Hw; left).
  destruct (vec_get_in_range bt b ltac:(lia)) as (p & Ep). pose proof Ep as Hp. apply vec_get_Ok in Hp as [_ Hp].
  destruct Hbd as [Hl Hd]. pose proof (Hd b Hb) as Hk.
  assert (He : forall t, t = p.1 \/ t = p.2 -> t = NOP_BLOCK \/ edge b t).
  { intros t Ht. destruct (Z.eq_dec t NOP_BLOCK); [auto |]. right. exists p. auto. }
  destruct (deepen_spec b p.1 d w (conj Hl Hd) Hb ltac:(lia) (He _ (or_introl eq_refl)) (depth_of d b) Hk)
    as (d1 & w1 & E1 & D1).
  destruct (deepen_spec b p.2 d1 w1 (de_bounded _ _ _ _ _ _ D1) Hb) with (k := depth_of d b)
    as (d2 & w2 & E2 & D2); [apply (de_bounded _ _ _ _ _ _ D1); assumption | auto | assumption |].
  exists p, d1, w1, d2, w2. repeat (split; [assumption |]). split.
  2: { pose proof (de_measure _ _ _ _ _ _ D1). pose proof (de_measure _ _ _ _ _ _ D2). lia. }
  split.
  - apply (de_bounded _ _ _ _ _ _ D2).
  - intros x Hx. apply (de_new _ _ _ _ _ _ D2) in Hx as [Hx |]; [| assumption].
    apply (de_new _ _ _ _ _ _ D1) in Hx as [Hx |]; [apply Hw; right |]; assumption.
  - intros x Hx Hpos. destruct (de_change _ _ _ _ _ _ D2 x ltac:(lia)) as [C2 |]; [| auto].
    destruct (de_change _ _ _ _ _ _ D1 x ltac:(lia)) as [C1 | C1];
      [| left; apply (de_keep _ _ _ _ _ _ D2); assumption].
    rewrite C2, C1 in *. destruct (Z.eq_dec x b) as [-> | Hne].
    + right. intros t (q & Hq & Ht & Hnop). rewrite Hp in Hq. injection Hq as <-.
      destruct Ht as [-> | ->].
      * pose proof (de_target _ _ _ _ _ _ D1 Hnop). etransitivity; [eassumption |].
        apply (de_mono _ _ _ _ _ _ D2). destruct (He p.1 ltac:(auto)) as [? | Ht]; [contradiction |].
        apply edge_range in Ht; lia.
      * apply (de_target _ _ _ _ _ _ D2 Hnop).
    + destruct (Hdone x Hx Hpos) as [Hin | Hall].
      * apply elem_of_cons in Hin as [? | Hin]; [contradiction |]. left.
        apply (de_keep _ _ _ _ _ _ D2), (de_keep _ _ _ _ _ _ D1). assumption.
      * right. intros t Ht. specialize (Hall t Ht). pose proof (edge_range x t Hx Ht).
        pose proof (de_mono _ _ _ _ _ _ D1 t ltac:(lia)). pose proof (de_mono _ _ _ _ _ _ D2 t ltac:(lia)). lia.
Qed.

Lemma bounded_room d : bounded d -> 0 <= room (Z.of_nat n) d.
Proof.
  intros [Hl Hd]. apply room_nonneg, Forall_forall. intros x Hx.
  apply list_elem_of_lookup in Hx as (k & Hk). pose proof (lookup_lt_Some _ _ _ Hk).
  specialize (Hd (Z.of_nat k) ltac:(lia)). pose proof (rank_range (Z.of_nat k) ltac:(lia)).
  unfold depth_of in Hd. rewrite Nat2Z.id in Hd. rewrite (nth_lookup_Some _ _ _ _ Hk) in Hd. lia.
Qed.

Lemma depth_loop_total fuel d w :
  depth_inv d w -> 2 * room (Z.of_nat n) d + Z.of_nat (length w) <= Z.of_nat fuel ->
  exists d', depth_loop fuel bt d w = Ok d' /\ depth_inv d' [].
Proof.
  revert d w. induction fuel as [| fuel IH]; intros d w I Hm.
  - pose proof (bounded_room d (di_bounded _ _ I)). destruct w; [cbn; eauto | cbn [length] in Hm; lia].
  - destruct w as [| b w]; [cbn; eauto |].
    destruct (depth_step b d w I) as (p & d1 & w1 & d2 & w2 & Ep & E1 & E2 & I2 & Hm2).
    assert (Hb : 0 <= b < Z.of_nat n) by (apply (di_work _ _ I); left).
    destruct (di_bounded _ _ I) as [Hl _]. cbn [depth_loop].
    destruct (Z.eqb_spec b NOP_BLOCK); [lia |].
    rewrite vec_get_depth by lia. cbn [rbind]. rewrite Ep. cbn [rbind]. destruct p as [p1 p2].
    cbn [fst snd] in *. rewrite E1. cbn [rbind]. rewrite E2. cbn [rbind].
    apply IH; [assumption |]. cbn [length] in Hm. lia.
Qed.
End Depth.

(** ** The renumbering *)

Lemma assign_order_spec queue i ro :
  NoDup queue -> Forall (fun b => 0 <= b < Z.of_nat (length ro)) queue ->
  exists ro', assign_order queue i ro = Ok ro' /\ length ro' = length ro /\
    (forall k b, queue !! k = Some b -> ro' !! Z.to_nat b = Some (i + Z.of_nat k)) /\
    (forall b, 0 <= b -> ~ b ∈ queue -> ro' !! Z.to_nat b = ro !! Z.to_nat b).
Proof.
  revert i ro. induction queue as [| b q IH]; intros i ro Hnd Hr; cbn [assign_order].
  - exists ro. repeat split; auto. intros k x H. discriminate.
  - apply NoDup_cons in Hnd as [Hnb Hnd]. apply Forall_cons in Hr as [Hb Hr].
    assert (E : vec_set ro b i = Ok (set_at ro b i)) by (apply vec_set_Ok; auto). rewrite E. cbn [rbind].
    destruct (IH (i + 1) (set_at ro b i) Hnd ltac:(rewrite length_set_at; assumption))
      as (ro' & E' & L & Hin & Hout).
    exists ro'. split; [assumption |]. rewrite length_set_at in L. split; [assumption |]. split.
    + intros [| k] x H; [| cbn in H; rewrite (Hin k x H); f_equal; lia].
      injection H as <-. rewrite Hout, lookup_set_at, decide_True by (assumption || lia || reflexivity).
      f_equal. lia.
    + intros x Hx Hn. rewrite not_elem_of_cons in Hn. destruct Hn as [Hne Hn].
      rewrite Hout, lookup_set_at, decide_False by (assumption || lia). reflexivity.
Qed.

Definition order_of (reordering : list Z) (b : Z) : Z := nth (Z.to_nat b) reordering NOP_BLOCK.

Lemma vec_get_order ro b : 0 <= b < Z.of_nat (length ro) -> vec_get ro b = Ok (order_of ro b).
Proof.
  intros H. destruct (vec_get_in_range ro b H) as (x & E). rewrite E. apply vec_get_Ok in E as [_ E].
  unfold order_of. rewrite (nth_lookup_Some _ _ _ _ E). reflexivity.
Qed.

Lemma rename_op_ok ro n i :
  0 <= value (op i n) < Z.of_nat (length ro) -> rename_op ro n i = Ok (set_target (order_of ro) n i).
Proof. intros H. unfold rename_op. rewrite vec_get_order by assumption. reflexivity. Qed.

Lemma rename_insn_ok ro i :
  0 <= ir_block i < Z.of_nat (length ro) -> Z.of_nat (length ro) <= NOP_BLOCK ->
  Forall (fun t => 0 <= t < Z.of_nat (length ro)) (targets i) ->
  rename_insn ro i = Ok (renamed (order_of ro) i).
Proof.
  intros Hb Hn Ht. unfold rename_insn. destruct (Z.eqb_spec (ir_block i) NOP_BLOCK); [lia |].
  rewrite vec_get_order by assumption. cbn [rbind type]. unfold targets in Ht. unfold renamed.
  destruct (type i) eqn:E; try reflexivity.
  - apply Forall_cons in Ht as [Ht _]. apply rename_op_ok. assumption.
  - apply Forall_cons in Ht as [Ht1 Ht2]. apply Forall_cons in Ht2 as [Ht2 _].
    rewrite rename_op_ok by assumption. cbn [rbind]. apply rename_op_ok.
    unfold set_target. rewrite op_set_op, decide_False by lia. assumption.
Qed.

Lemma rename_all_ok ro l :
  Z.of_nat (length ro) <= NOP_BLOCK ->
  Forall (fun i => 0 <= ir_block i < Z.of_nat (length ro)) l ->
  Forall (fun i => Forall (fun t => 0 <= t < Z.of_nat (length ro)) (targets i)) l ->
  rename_all ro l = Ok (map (renamed (order_of ro)) l).
Proof.
  intros Hn. induction l as [| i l IH]; intros Hb Ht; [reflexivity |].
  apply Forall_cons in Hb as [Hb1 Hb2]. apply Forall_cons in Ht as [Ht1 Ht2]. cbn [rename_all map].
  rewrite rename_insn_ok, IH by assumption. reflexivity.
Qed.

(** ** Correctness *)

(** The code of a translation: every block ends in one jump, branch, return
    or dispatch, all code can be reached from block 0, and [rank] shows that
    control never comes back to a block. *)
Record flow_ok (rank : Z -> Z) (c : TranslationContext) : Prop := {
  fo_wf : ctx_wf c;
  fo_terminated : terminated (_ir_insns c);
  fo_reachable : forall i, i ∈ _ir_insns c -> reachable (_ir_insns c) (ir_block i);
  fo_ranked : ranked rank (_ir_insns c);
  fo_entry : rank 0 = 0;
  fo_range : forall b, 0 <= b < _ir_block_count c -> 0 <= rank b < _ir_block_count c
}.

(** [flow_ok] by computation. *)
Definition between (a b x : Z) : bool := (a <=? x) && (x <? b).

Definition flow_check_insn (rank : Z -> Z) (n : Z) (l : list IRInstruction) (i : IRInstruction) : bool :=
  match type i with
  | JMP => Nat.leb 1 (length (operands i))
  | BRANCH => Nat.leb 3 (length (operands i))
  | _ => true
  end &&
  between 0 n (ir_block i) &&
  ((ir_block i =? 0) || existsb (fun j => existsb (Z.eqb (ir_block i)) (targets j)) l) &&
  forallb (fun t => between 0 n t && (rank (ir_block i) <? rank t)) (targets i).

Definition flow_check (rank : Z -> Z) (c : TranslationContext) : bool :=
  let n := _ir_block_count c in
  between 1 (NOP_BLOCK + 1) n && (rank 0 =? 0) &&
  forallb (fun b => between 0 n (rank b) && block_terminated (code b (_ir_insns c))) (seqZ 0 n) &&
  forallb (flow_check_insn rank n (_ir_insns c)) (_ir_insns c).

Lemma forallb_elem {A} (f : A -> bool) l : forallb f l = true <-> forall x, x ∈ l -> f x = true.
Proof. rewrite forallb_forall. setoid_rewrite list_elem_of_In. reflexivity. Qed.

Lemma existsb_elem {A} (f : A -> bool) l : existsb f l = true <-> exists x, x ∈ l /\ f x = true.
Proof. rewrite existsb_exists. setoid_rewrite list_elem_of_In. reflexivity. Qed.

Lemma between_spec a b x : between a b x = true <-> a <= x < b.
Proof. unfold between. rewrite andb_true_iff, Z.leb_le, Z.ltb_lt. reflexivity. Qed.

(** Without cycles, code is reachable when every block but the entry is a target. *)
Lemma reachable_by_targets rank l :
  ranked rank l -> (forall i, i ∈ l -> 0 <= rank (ir_block i)) ->
  (forall i, i ∈ l -> ir_block i = 0 \/ exists j, j ∈ l /\ ir_block i ∈ targets j) ->
  forall i, i ∈ l -> reachable l (ir_block i).
Proof.
  intros Hr H0 Ht i. remember (Z.to_nat (rank (ir_block i))) as m eqn:Em. revert i Em.
  induction m as [m IH] using lt_wf_ind. intros i -> Hi. destruct (Ht i Hi) as [-> | (j & Hj & Hij)]; [constructor |].
  pose proof (Hr j _ Hj Hij). pose proof (H0 j Hj). apply reachable_step with j; [| assumption | assumption].
  apply (IH (Z.to_nat (rank (ir_block j)))); [lia | reflexivity | assumption].
Qed.

Lemma flow_check_ok rank c : flow_check rank c = true -> flow_ok rank c.
Proof.
  unfold flow_check, flow_check_insn. rewrite !andb_true_iff, !forallb_elem, between_spec, Z.eqb_eq.
  intros (((Hc & H0) & Hb) & Hi).
  assert (Hb' : forall b, 0 <= b < _ir_block_count c ->
            0 <= rank b < _ir_block_count c /\ block_terminated (code b (_ir_insns c)) = true).
  { intros b Hr. specialize (Hb b ltac:(apply elem_of_seqZ; lia)). rewrite andb_true_iff, between_spec in Hb. assumption. }
  setoid_rewrite andb_true_iff in Hi. setoid_rewrite andb_true_iff in Hi. setoid_rewrite andb_true_iff in Hi.
  setoid_rewrite orb_true_iff in Hi. setoid_rewrite existsb_elem in Hi. setoid_rewrite between_spec in Hi.
  setoid_rewrite forallb_elem in Hi. setoid_rewrite andb_true_iff in Hi. setoid_rewrite between_spec in Hi.
  setoid_rewrite existsb_elem in Hi. setoid_rewrite Z.eqb_eq in Hi. setoid_rewrite Z.ltb_lt in Hi.
  assert (Hra : ranked rank (_ir_insns c)) by (intros i t Hil Ht; apply (proj2 (Hi i Hil)); assumption).
  assert (W : ctx_wf c).
  { split; [| lia | |]; apply Forall_forall; intros i Hil; destruct (Hi i Hil) as [[[H1 H2] H3] H4].
    - unfold has_operands. destruct (type i); try exact I; apply Nat.leb_le; assumption.
    - assumption.
    - apply Forall_forall. intros t Ht. apply (H4 t Ht). }
  split; try assumption.
  - apply (terminated_check (_ir_block_count c)); [apply W |]. apply forallb_elem. intros b Hbb.
    apply elem_of_seqZ in Hbb. apply Hb'. lia.
  - apply (reachable_by_targets rank); [assumption | |].
    + intros i Hil. destruct (Hi i Hil) as [[[_ H2] _] _]. apply Hb'. assumption.
    + intros i Hil. destruct (Hi i Hil) as [[_ [H3 | (j & Hj & t & Ht & ->)]] _]; eauto.
  - intros b Hr. apply Hb'. assumption.
Qed.

Lemma sorted_positions (key : Z -> Z) q j k a b :
  StronglySorted (fun a b => key a <= key b) q ->
  q !! j = Some a -> q !! k = Some b -> key a < key b -> (j < k)%nat.
Proof.
  intros H. revert j k. induction H as [| x q Hs IH Hf]; intros j k Hj Hk Hlt; [discriminate |].
  rewrite Forall_forall in Hf. destruct j as [| j], k as [| k]; cbn in Hj, Hk.
  - injection Hj as ->. injection Hk as ->. lia.
  - lia.
  - injection Hk as ->. specialize (Hf a (list_elem_of_lookup_2 _ _ _ Hj)). simpl in Hf. lia.
  - specialize (IH j k Hj Hk Hlt). lia.
Qed.

Section Reorder.
Context (rank : Z -> Z) (c : TranslationContext) (ok : flow_ok rank c).

Abbreviation l := (_ir_insns c).
Abbreviation n := (Z.to_nat (_ir_block_count c)).

Lemma wf_target i t : i ∈ l -> t ∈ targets i -> 0 <= t < _ir_block_count c.
Proof.
  intros Hi Ht. destruct ok as [[_ _ _ H] _ _ _ _ _]. rewrite Forall_forall in H.
  specialize (H i Hi). rewrite Forall_forall in H. apply (H t Ht).
Qed.

Lemma wf_target_u32 i t : i ∈ l -> t ∈ targets i -> u32 t = t.
Proof.
  intros Hi Ht. pose proof (wf_target i t Hi Ht). destruct ok as [[_ Hc _ _] _ _ _ _ _].
  assert (NOP_BLOCK < 2 ^ 32) by reflexivity. apply wrap_small. unfold in_range. lia.
Qed.

(** The edges of the control-flow graph are the targets of the code. *)
Lemma cfg_edges bt bs :
  build_cfg l (replicate n (NOP_BLOCK, NOP_BLOCK)) (set_insert 0 []) = Ok (bt, bs) ->
  forall b t, 0 <= b < _ir_block_count c -> edge bt b t <-> exists i, i ∈ code b l /\ t ∈ targets i.
Proof.
  intros E b t Hb. apply build_cfg_facts in E as (_ & Hbt & _ & _). unfold edge. rewrite Hbt by lia.
  assert (Hpair : forall i, i ∈ code b l -> t <> NOP_BLOCK ->
            (t = (target_pair i).1 \/ t = (target_pair i).2) <-> t ∈ targets i).
  { intros i Hi Hn. apply code_elem in Hi as [Hi _]. pose proof (wf_target_u32 i) as Hu.
    unfold target_pair, targets in *. destruct (type i) eqn:Et; cbn [fst snd];
      rewrite ?Hu by (assumption || set_solver); set_solver. }
  unfold last_control. split.
  - intros (p & Hp & Ht & Hn). destruct (last _) as [i |] eqn:El.
    + injection Hp as <-. apply last_Some_elem_of, list_elem_of_filter in El as [_ El].
      exists i. split; [assumption |]. apply Hpair; assumption.
    + apply lookup_replicate in Hp as [-> _]. cbn in Ht. tauto.
  - intros (i & Hi & Ht). assert (Hn : t <> NOP_BLOCK).
    { apply code_elem in Hi as [Hi _]. pose proof (wf_target i t Hi Ht). destruct ok as [[_ Hc _ _] _ _ _ _ _]. lia. }
    destruct (fo_terminated _ _ ok b) as [H | H]; [rewrite H in Hi; inversion Hi |].
    destruct (last _) as [j |] eqn:El.
    + assert (j = i) as ->.
      { apply last_Some_elem_of, list_elem_of_filter in El as [Cj Hj].
        eapply terminator_unique; eauto using targets_control. }
      exists (target_pair i). split; [reflexivity |]. split; [apply Hpair; assumption | assumption].
    + apply last_None in El. assert (Hf : i ∈ filter (fun i => is_control (type i) = true) (code b l)).
      { apply list_elem_of_filter. eauto using targets_control. }
      rewrite El in Hf. inversion Hf.
Qed.

(** The depths found by the work list. *)
Lemma depths_found fuel bt bs :
  build_cfg l (replicate n (NOP_BLOCK, NOP_BLOCK)) (set_insert 0 []) = Ok (bt, bs) ->
  2 * _ir_block_count c * _ir_block_count c + 1 <= Z.of_nat fuel ->
  exists d, depth_loop fuel bt (replicate n 0) [0] = Ok d /\ depth_of d 0 = 0 /\
    (forall b, reachable l b -> b = 0 \/ 0 < depth_of d b) /\
    (forall i t, i ∈ l -> t ∈ targets i -> depth_of d (ir_block i) < depth_of d t).
Proof.
  intros E Hf. pose proof (cfg_edges bt bs E) as Hedge. destruct ok as [[_ Hc Hb _] _ Hreach Hrank Hrank0 Hrange].
  assert (Hn : Z.of_nat n = _ir_block_count c) by lia.
  assert (Lbt : length bt = n) by (apply build_cfg_facts in E as (-> & _); apply length_replicate).
  assert (Hre : forall b t, 0 <= b < Z.of_nat n -> edge bt b t -> rank b < rank t).
  { intros b t Hbr He. apply Hedge in He as (i & Hi & Ht); [| lia]. apply code_elem in Hi as [Hi <-]. eauto. }
  assert (Her : forall b t, 0 <= b < Z.of_nat n -> edge bt b t -> 0 <= t < Z.of_nat n).
  { intros b t Hbr He. apply Hedge in He as (i & Hi & Ht); [| lia]. apply code_elem in Hi as [Hi _].
    pose proof (wf_target i t Hi Ht). lia. }
  assert (Hz : forall b, depth_of (replicate n 0) b = 0)
    by (intros; unfold depth_of; rewrite nth_lookup; destruct (_ !! _) eqn:El; [|reflexivity];
        apply lookup_replicate in El as [-> _]; reflexivity).
  destruct (depth_loop_total n bt rank Lbt ltac:(lia) ltac:(rewrite Hn; exact Hrange) Hre Her fuel
              (replicate n 0) [0]) as (d & Ed & [[Ld Hd] _ Hdone]).
  { split; [split; [apply length_replicate |] | |].
    - intros b Hbr. rewrite Hz. pose proof (Hrange b). lia.
    - intros b Hbw. apply list_elem_of_singleton in Hbw. lia.
    - intros b _ [-> | H]; [left; left | rewrite Hz in H; lia]. }
  { assert (R : forall k, room (Z.of_nat n) (replicate k 0) = Z.of_nat n * Z.of_nat k).
    { unfold room. induction k as [| k IH]; cbn [replicate fold_right]; [| rewrite IH]; lia. }
    rewrite R. cbn [length]. lia. }
  assert (Hfwd : forall i t, i ∈ l -> t ∈ targets i -> ir_block i = 0 \/ 0 < depth_of d (ir_block i) ->
            depth_of d (ir_block i) + 1 <= depth_of d t).
  { rewrite Forall_forall in Hb. intros i t Hi Ht Hp. destruct (Hdone (ir_block i) ltac:(specialize (Hb i Hi); simpl in Hb; lia) Hp)
      as [Hin | Hall]; [inversion Hin |]. apply Hall, Hedge; [apply (Hb i Hi) |].
    exists i. split; [apply list_elem_of_filter; auto | assumption]. }
  assert (Hpos : forall b, reachable l b -> b = 0 \/ 0 < depth_of d b).
  { induction 1 as [| i t Hi IH Hil Ht]; [auto |]. right. specialize (Hfwd i t Hil Ht IH).
    rewrite Forall_forall in Hb. specialize (Hb i Hil). simpl in Hb. pose proof (Hd (ir_block i) ltac:(lia)). lia. }
  exists d. split; [assumption |]. split; [pose proof (Hd 0 ltac:(lia)); lia |]. split; [assumption |].
  intros i t Hi Ht. specialize (Hfwd i t Hi Ht (Hpos _ (Hreach i Hi))). lia.
Qed.

Lemma cfg_blocks bt bs :
  build_cfg l (replicate n (NOP_BLOCK, NOP_BLOCK)) (set_insert 0 []) = Ok (bt, bs) ->
  NoDup bs /\ forall b, b ∈ bs <-> reachable l b.
Proof.
  intros E. apply build_cfg_facts in E as (_ & _ & Hbs & Hs). split; [apply sorted_lt_NoDup, Hs; repeat constructor |].
  intros b. rewrite Hbs. cbn [set_insert]. split.
  - intros [H | (i & t & Hi & Ht & ->)].
    + apply list_elem_of_singleton in H as ->. constructor.
    + rewrite (wf_target_u32 i t Hi Ht). apply reachable_step with i; [apply ok | |]; assumption.
  - intros [| i t Hi Hil Ht]; [left; left |]. right. exists i, t. rewrite (wf_target_u32 i t Hil Ht). auto.
Qed.

Lemma reachable_range b : reachable l b -> 0 <= b < _ir_block_count c.
Proof.
  intros [| i t _ Hi Ht]; [| apply (wf_target i t Hi Ht)].
  pose proof (wf_count _ (fo_wf _ _ ok)). lia.
Qed.

(** What the transform does, as a renaming. *)
Record reorders (rho : Z -> Z) (c' : TranslationContext) : Prop := {
  ro_insns : _ir_insns c' = map (renamed rho) l;
  ro_entry : rho 0 = 0;
  ro_inj : forall a b, reachable l a -> reachable l b -> rho a = rho b -> a = b;
  ro_count : 0 < _ir_block_count c' <= _ir_block_count c;
  ro_range : forall b, reachable l b -> 0 <= rho b < _ir_block_count c';
  ro_forward : forall i t, i ∈ l -> t ∈ targets i -> rho (ir_block i) < rho t
}.

Lemma reorder_renames std_sort fuel :
  std_sort_ok std_sort -> 2 * _ir_block_count c * _ir_block_count c + 1 <= Z.of_nat fuel ->
  exists rho c', ReorderBlocks_Apply std_sort fuel c = Ok c' /\ reorders rho c'.
Proof.
  intros Hsort Hf. unfold ReorderBlocks_Apply. pose proof (fo_wf _ _ ok) as [_ Hc Hb Ht].
  assert (Hn : Z.of_nat n = _ir_block_count c) by lia.
  destruct (build_cfg_total l n (replicate n (NOP_BLOCK, NOP_BLOCK)) (set_insert 0 []))
    as ((bt & bs) & E); [apply length_replicate | rewrite Hn; assumption |].
  destruct (cfg_blocks bt bs E) as [Hnd Hbs].
  destruct (depths_found fuel bt bs E Hf) as (d & Ed & Hd0 & Hpos & Hfwd).
  rewrite E. cbn [rbind]. rewrite Ed. cbn [rbind].
  destruct (Hsort (depth_of d) bs) as [Hp Hs]. change (fun a b => depth_of d a <? depth_of d b) with (depth_less d) in *.
  set (queue := std_sort (depth_less d) bs) in *.
  assert (Hq : forall b, b ∈ queue <-> reachable l b) by (intros b; rewrite Hp; apply Hbs).
  destruct (assign_order_spec queue 0 (replicate n NOP_BLOCK)) as (ro & Ea & Lr & Hin & _);
    [rewrite Hp; assumption |
     apply Forall_forall; intros b H; apply Hq, reachable_range in H; rewrite length_replicate; lia |].
  rewrite Ea. cbn [rbind]. rewrite length_replicate in Lr.
  rewrite rename_all_ok by (rewrite Lr, Hn; assumption || lia). cbn [rbind].
  assert (Hpos_of : forall b, reachable l b -> exists k, queue !! k = Some b /\ order_of ro b = Z.of_nat k).
  { intros b Hr. apply Hq, list_elem_of_lookup in Hr as (k & Hk). exists k. split; [assumption |].
    unfold order_of. rewrite (nth_lookup_Some _ _ _ _ (Hin k b Hk)). lia. }
  assert (Hlt : forall a b, reachable l a -> reachable l b -> depth_of d a < depth_of d b -> order_of ro a < order_of ro b).
  { intros a b Ha Hb' Hab. destruct (Hpos_of a Ha) as (j & Hj & ->). destruct (Hpos_of b Hb') as (k & Hk & ->).
    pose proof (sorted_positions (depth_of d) queue j k a b Hs Hj Hk Hab). lia. }
  eexists (order_of ro), _. split; [reflexivity |]. split; cbn [_ir_insns _ir_block_count recount_blocks with_insns].
  - reflexivity.
  - destruct (Hpos_of 0 (reachable_entry l)) as (k & Hk & ->). destruct k as [| k]; [reflexivity | exfalso].
    destruct (lookup_lt_is_Some_2 queue 0) as (b & Hb0); [apply lookup_lt_Some in Hk; lia |].
    assert (Hrb : reachable l b) by (apply Hq, list_elem_of_lookup; eauto).
    destruct (Hpos b Hrb) as [-> | Hdb].
    + assert (NoDup queue) as Hndq by (rewrite Hp; assumption).
      pose proof (NoDup_lookup _ _ _ _ Hndq Hk Hb0). lia.
    + pose proof (sorted_positions (depth_of d) queue _ _ _ _ Hs Hk Hb0 ltac:(lia)). lia.
  - intros a b Ha Hb' Eab. destruct (Hpos_of a Ha) as (j & Hj & Ej). destruct (Hpos_of b Hb') as (k & Hk & Ek).
    assert (j = k) as -> by lia. congruence.
  - rewrite Hp. assert (H0 : 0 ∈ bs) by (apply Hbs; constructor). split; [destruct bs; [inversion H0 | cbn; lia] |].
    assert (length bs <= length (seqZ 0 (_ir_block_count c)))%nat as Hlen.
    { apply submseteq_length, NoDup_submseteq; [assumption |]. intros b H. apply elem_of_seqZ.
      apply Hbs, reachable_range in H. lia. }
    rewrite length_seqZ in Hlen. lia.
  - intros b Hr. destruct (Hpos_of b Hr) as (k & Hk & ->). apply lookup_lt_Some in Hk. lia.
  - intros i t Hi Hit. apply Hlt; [apply ok; assumption | | eauto].
    apply reachable_step with i; [apply ok | |]; assumption.
Qed.

Lemma target_reachable i t : i ∈ l -> t ∈ targets i -> reachable l t.
Proof. intros Hi Ht. apply reachable_step with i; [apply ok | |]; assumption. Qed.

Lemma reorders_flow_ok rho c' : reorders rho c' -> flow_ok (fun b => b) c'.
Proof.
  intros R. pose proof (fo_wf _ _ ok) as [Ho Hc Hb Ht]. destruct R as [El E0 Hinj Hcnt Hrng Hfwd].
  assert (Hpre : forall i, i ∈ _ir_insns c' -> exists j, i = renamed rho j /\ j ∈ l /\ has_operands j).
  { rewrite El. intros i Hi. apply list_elem_of_fmap in Hi as (j & -> & Hj). exists j.
    rewrite Forall_forall in Ho. auto. }
  assert (Htgt : forall j t, j ∈ l -> has_operands j -> t ∈ targets (renamed rho j) ->
            exists t0, t = rho t0 /\ t0 ∈ targets j).
  { intros j t Hj Hoj. rewrite renamed_targets by assumption. intros H. apply list_elem_of_fmap in H. assumption. }
  split; [split | | | | reflexivity | auto].
  - apply Forall_forall. intros i Hi. destruct (Hpre i Hi) as (j & -> & _ & Hj). apply renamed_has_operands. assumption.
  - lia.
  - apply Forall_forall. intros i Hi. destruct (Hpre i Hi) as (j & -> & Hj & _). rewrite renamed_block.
    apply Hrng, ok. assumption.
  - apply Forall_forall. intros i Hi. destruct (Hpre i Hi) as (j & -> & Hj & Hoj). apply Forall_forall.
    intros t H. destruct (Htgt j t Hj Hoj H) as (t0 & -> & H0). apply Hrng. eapply target_reachable; eassumption.
  - rewrite El. apply terminated_renamed with (live := reachable l); [assumption | apply ok | apply ok].
  - intros i Hi. destruct (Hpre i Hi) as (j & -> & Hj & _). rewrite El, renamed_block.
    apply (reachable_renamed rho l (reachable l)); [assumption | constructor | assumption | apply ok; assumption].
  - intros i t Hi H. destruct (Hpre i Hi) as (j & -> & Hj & Hoj).
    destruct (Htgt j t Hj Hoj H) as (t0 & -> & H0). rewrite renamed_block. auto.
Qed.

Lemma reorders_evals {St} (exec : IRInstructionType -> list IROperand -> St -> St) taken rho c' s r :
  reorders rho c' -> evals exec taken l 0 s r <-> evals exec taken (_ir_insns c') 0 s r.
Proof.
  intros R. rewrite (ro_insns _ _ R). rewrite <- (ro_entry _ _ R) at 2.
  apply (evals_renamed rho l (reachable l)); [apply R | apply ok | | apply (wf_operands _ (fo_wf _ _ ok)) | constructor].
  intros i t. apply target_reachable.
Qed.
End Reorder.

(** For code whose blocks end in one jump, branch, return or
    dispatch, that is all reachable and whose control flow has no cycle, block
    reordering terminates within 2n²+1 steps of its work list, whatever order
    std::sort gives blocks of equal depth; the code it leaves means the same
    from the entry block, and every jump and branch now goes to a block with a
    larger number. *)
Theorem reorder_blocks_correct {St} (exec : IRInstructionType -> list IROperand -> St -> St)
    (taken : IROperand -> St -> bool) std_sort rank c fuel :
  std_sort_ok std_sort -> flow_ok rank c ->
  2 * _ir_block_count c * _ir_block_count c + 1 <= Z.of_nat fuel ->
  exists c', ReorderBlocks_Apply std_sort fuel c = Ok c' /\
    (forall s r, evals exec taken (_ir_insns c) 0 s r <-> evals exec taken (_ir_insns c') 0 s r) /\
    flow_ok (fun b => b) c'.
Proof.
  intros Hs ok Hf. destruct (reorder_renames rank c ok std_sort fuel Hs Hf) as (rho & c' & E & R).
  exists c'. split; [assumption |]. split; [intros; eapply reorders_evals; eassumption |].
  eapply reorders_flow_ok; eassumption.
Qed.

(** Insertion sort is one of the sorts [std::sort] may be. *)
Fixpoint insert_by (less : Z -> Z -> bool) (a : Z) (l : list Z) : list Z :=
  match l with [] => [a] | b :: r => if less b a then b :: insert_by less a r else a :: l end.
Definition insertion_sort (less : Z -> Z -> bool) (l : list Z) : list Z := fold_right (insert_by less) [] l.

Lemma insertion_sort_ok : std_sort_ok insertion_sort.
Proof.
  intros key l less.
  assert (Hp : forall a l, insert_by less a l ≡ₚ a :: l).
  { intros a. induction l0 as [| b l0 IH]; cbn [insert_by]; [reflexivity |].
    destruct (less b a); [| reflexivity]. rewrite IH. constructor. }
  assert (Hs : forall a l, StronglySorted (fun a b => key a <= key b) l ->
            StronglySorted (fun a b => key a <= key b) (insert_by less a l)).
  { intros a. induction 1 as [| b l0 H IH Hf]; cbn [insert_by]; [repeat constructor |].
    unfold less in *. destruct (Z.ltb_spec (key b) (key a)).
    - constructor; [assumption |]. rewrite Hp. constructor; [lia | assumption].
    - constructor; [constructor; assumption |]. constructor; [assumption |].
      eapply Forall_impl; [exact Hf |]. simpl. lia. }
  unfold insertion_sort. induction l as [| a l [IH1 IH2]]; [split; constructor |].
  cbn [fold_right]. split; [rewrite Hp, IH1; reflexivity | auto].
Qed.

(** Block 0 branches to blocks 1 and 2, block 2 jumps to block 1. *)
Definition reorder_example : TranslationContext :=
  mkContext 3 0
    [mkInsn [new_operand CONSTANT 1 1; block_op 1; block_op 2] 0 BRANCH;
     mkInsn [] 1 RET; mkInsn [] 2 TRAP; mkInsn [block_op 1] 2 JMP] 0.
Definition reorder_example_rank (b : Z) : Z := nth (Z.to_nat b) [0; 2; 1] 0.

Lemma reorder_example_ok : flow_ok reorder_example_rank reorder_example.
Proof. apply flow_check_ok. vm_compute. reflexivity. Qed.

Lemma reorder_blocks_correct_witness :
  exists c', ReorderBlocks_Apply insertion_sort 19 reorder_example = Ok c' /\
    map ir_block (_ir_insns c') = [0; 2; 1; 1] /\
    evals (fun _ _ n => S n) (fun _ _ => false) (_ir_insns c') 0 5%nat (RET, [], 6%nat).
Proof.
  destruct (reorder_blocks_correct (fun _ _ n => S n) (fun _ _ => false) insertion_sort
              reorder_example_rank reorder_example 19 insertion_sort_ok reorder_example_ok)
    as (c' & E & Hev & _); [vm_compute; congruence |].
  exists c'. split; [exact E |]. split; [vm_compute in E; injection E as <-; reflexivity |].
  apply Hev, (run_evals _ _ 3). reflexivity.
Defined.
