(* ===== verification/ThreadJumps.v ===== *)
(** * Jump threading

    ThreadJumpsTransform.cpp: a jump to a block that starts with a jump goes
    straight to where that one goes, and a jump to a block that is only a
    branch becomes the branch.  The vectors of instruction pointers are
    vectors of positions in the buffer, so that an instruction changed through
    one pointer is seen through the others. *)

From Stdlib Require Import ZArith Lia Bool.
From stdpp Require Import base list numbers sets relations.
From S2P Require Import Prelude.
From S2P Require Import BlockIR.
From S2P Require Import IRSorterCorrect.
From S2P Require Import BlockFlow.

(** ** The transform *)

Abbreviation pointers := (list (option nat)).

(** The first instructions of the blocks, and the last ones of all blocks
    but the one the buffer ends in. *)
Fixpoint find_instructions (ir_idx : nat) (l : list IRInstruction) (current_block_id : Z)
    (first_instructions last_instructions : pointers) : result (pointers * pointers) :=
  match l with
  | [] => Ok (first_instructions, last_instructions)
  | insn :: r =>
      if ir_block insn =? current_block_id then
        find_instructions (S ir_idx) r current_block_id first_instructions last_instructions
      else
        let* last1 :=
          match ir_idx with
          | O => Ok last_instructions
          | S prev => vec_set last_instructions current_block_id (Some prev)
          end in
        let* first1 := vec_set first_instructions (ir_block insn) (Some ir_idx) in
        find_instructions (S ir_idx) r (ir_block insn) first1 last1
  end.

(** [*first_instructions[b]]; following a null pointer is undefined. *)
Definition first_of (first_instructions : pointers) (l : list IRInstruction) (b : Z) : result IRInstruction :=
  let* p := vec_get first_instructions b in
  of_option UndefinedBehaviour (k ← p; l !! k).

(** [while (target->type == JMP) target = first_instructions[target->operands[0].value]]. *)
Fixpoint follow_jumps (fuel : nat) (first_instructions : pointers) (l : list IRInstruction)
    (target : IRInstruction) : result IRInstruction :=
  match type target with
  | JMP =>
      match fuel with
      | O => Err OutOfFuel
      | S n =>
          let* next := first_of first_instructions l (value (op target 0)) in
          follow_jumps n first_instructions l next
      end
  | _ => Ok target
  end.

(** The label [do_branch_thread]. *)
Definition thread_branch (fuel : nat) (first_instructions : pointers) (l : list IRInstruction)
    (source : nat) (insn : IRInstruction) : result (list IRInstruction) :=
  let* t := first_of first_instructions l (value (op insn 1)) in
  let* f := first_of first_instructions l (value (op insn 2)) in
  let* true_target := follow_jumps fuel first_instructions l t in
  let* false_target := follow_jumps fuel first_instructions l f in
  let insn1 := set_op 1 (with_value (ir_block true_target) (op insn 1)) insn in
  let insn2 := set_op 2 (with_value (ir_block false_target) (op insn1 2)) insn1 in
  Ok (<[source := insn2]> l).

Definition thread_block (fuel : nat) (first_instructions : pointers) (l : list IRInstruction)
    (block_id : Z) (source_instruction : option nat) : result (list IRInstruction) :=
  match source_instruction with
  | None => Ok l
  | Some source =>
      let* insn := of_option UndefinedBehaviour (l !! source) in
      match type insn with
      | JMP =>
          let* t := first_of first_instructions l (value (op insn 0)) in
          let* target := follow_jumps fuel first_instructions l t in
          match type target with
          | RET => Ok l
          | BRANCH =>
              let copy := mkInsn (operands target) block_id (type target) in
              thread_branch fuel first_instructions (<[source := copy]> l) source copy
          | _ => Ok (<[source := set_op 0 (with_value (ir_block target) (op insn 0)) insn]> l)
          end
      | BRANCH => thread_branch fuel first_instructions l source insn
      | DISPATCH | RET => Ok l
      | _ => Err AssertFailed
      end
  end.

Fixpoint thread_blocks (fuel : nat) (first_instructions : pointers) (last_instructions : pointers)
    (block_id : Z) (l : list IRInstruction) : result (list IRInstruction) :=
  match last_instructions with
  | [] => Ok l
  | p :: r =>
      let* l1 := thread_block fuel first_instructions l block_id p in
      thread_blocks fuel first_instructions r (block_id + 1) l1
  end.

Definition ThreadJumps_Apply (fuel : nat) (c : TranslationContext) : result TranslationContext :=
  let n := Z.to_nat (_ir_block_count c) in
  let* (first_instructions, last_instructions) :=
    find_instructions 0 (_ir_insns c) INVALID_BLOCK_ID (replicate n None) (replicate n None) in
  let* l := thread_blocks fuel first_instructions last_instructions 0 (_ir_insns c) in
  Ok (with_insns l c).

(** ** The first and the last instruction of a block *)

Section Find.
Context (L : list IRInstruction).

(** The instructions of a block stand together. *)
Definition contiguous : Prop :=
  forall i j k x y z, (i < j < k)%nat -> L !! i = Some x -> L !! j = Some y -> L !! k = Some z ->
  ir_block x = ir_block z -> ir_block y = ir_block x.

Definition first_at (b : Z) (k : nat) : Prop :=
  (exists i, L !! k = Some i /\ ir_block i = b) /\
  forall j i, (j < k)%nat -> L !! j = Some i -> ir_block i <> b.
Definition last_at (b : Z) (k : nat) : Prop :=
  (exists i, L !! k = Some i /\ ir_block i = b) /\
  forall j i, (k < j)%nat -> L !! j = Some i -> ir_block i <> b.

Definition firsts_ok (idx : nat) (first : pointers) : Prop :=
  (forall b k, 0 <= b -> first !! Z.to_nat b = Some (Some k) -> first_at b k) /\
  (forall j i, (j < idx)%nat -> L !! j = Some i -> exists k, first !! Z.to_nat (ir_block i) = Some (Some k)).
Definition lasts_ok (last : pointers) : Prop :=
  forall b k, 0 <= b -> last !! Z.to_nat b = Some (Some k) -> last_at b k.

Lemma find_instructions_spec n l idx cur first last :
  contiguous -> Forall (fun i => 0 <= ir_block i < Z.of_nat n) L -> Z.of_nat n < INVALID_BLOCK_ID ->
  drop idx L = l -> length first = n -> length last = n ->
  firsts_ok idx first -> lasts_ok last ->
  match idx with
  | O => cur = INVALID_BLOCK_ID
  | S p => exists i, L !! p = Some i /\ ir_block i = cur
  end ->
  exists first' last', find_instructions idx l cur first last = Ok (first', last') /\
    length first' = n /\ length last' = n /\ firsts_ok (length L) first' /\ lasts_ok last'.
Proof.
  intros Hcont Hr Hn. rewrite Forall_forall in Hr.
  revert idx cur first last. induction l as [| insn l IH]; intros idx cur first last Hd Lf Ll Hf Hl Hcur.
  { exists first, last. split; [reflexivity |]. split; [assumption |]. split; [assumption |].
    split; [split; [apply Hf |] | assumption]. intros j i Hj Hji.
    apply (proj2 Hf j i); [| assumption].
    assert (length (drop idx L) = 0%nat) as E by (rewrite Hd; reflexivity). rewrite length_drop in E. lia. }
  assert (Hi : L !! idx = Some insn) by (rewrite <- (Nat.add_0_r idx), <- lookup_drop, Hd; reflexivity).
  assert (Hd' : drop (S idx) L = l) by (rewrite <- Nat.add_1_r, <- drop_drop, Hd; reflexivity).
  pose proof (Hr insn (list_elem_of_lookup_2 _ _ _ Hi)) as Hb. simpl in Hb.
  cbn [find_instructions]. destruct (Z.eqb_spec (ir_block insn) cur) as [Ec | Hne].
  - apply IH; try assumption; [| eauto]. split; [apply Hf |]. intros j i Hj Hji.
    destruct (decide (j = idx)) as [-> |]; [| apply (proj2 Hf j i); [lia | assumption]].
    destruct idx as [| p]; [lia |]. destruct Hcur as (x & Hx & Hxc).
    rewrite Hi in Hji. injection Hji as <-. destruct (proj2 Hf p x ltac:(lia) Hx) as (k & Hk).
    exists k. rewrite Ec, <- Hxc. assumption.
  - assert (Hlast : exists last1, match idx with O => Ok last | S prev => vec_set last cur (Some prev) end = Ok last1 /\
              length last1 = n /\ lasts_ok last1).
    { destruct idx as [| p]; [eauto |]. destruct Hcur as (x & Hx & <-).
      pose proof (Hr x (list_elem_of_lookup_2 _ _ _ Hx)) as Hbx. simpl in Hbx.
      exists (set_at last (ir_block x) (Some p)). split; [apply vec_set_Ok; split; [lia | reflexivity] |].
      split; [rewrite length_set_at; assumption |]. intros b k Hb0. rewrite lookup_set_at by lia.
      case_decide as E; [| apply Hl; assumption]. intros [= <-]. assert (b = ir_block x) as -> by lia.
      split; [eauto |]. intros j i Hj Hji Eb. apply Hne.
      destruct (decide (j = S p)) as [-> |]; [congruence |].
      apply (Hcont p (S p) j x insn i); try assumption; [lia | congruence]. }
    destruct Hlast as (last1 & -> & Ll1 & Hl1). cbn [rbind].
    assert (E : vec_set first (ir_block insn) (Some idx) = Ok (set_at first (ir_block insn) (Some idx)))
      by (apply vec_set_Ok; split; [lia | reflexivity]).
    rewrite E. cbn [rbind]. apply IH; try assumption; [rewrite length_set_at; assumption | | eauto].
    split.
    + intros b k Hb0. rewrite lookup_set_at by lia. case_decide as Eb; [| apply Hf; assumption].
      intros [= <-]. assert (b = ir_block insn) as -> by lia. split; [eauto |].
      intros j i Hj Hji Ej. destruct idx as [| p]; [lia |]. destruct Hcur as (x & Hx & Hxc). apply Hne.
      destruct (decide (j = p)) as [-> |]; [congruence |].
      rewrite <- Hxc, <- Ej. symmetry. apply (Hcont j p (S p) i x insn); try assumption. lia.
    + intros j i Hj Hji. rewrite lookup_set_at by lia. case_decide; [eauto |].
      destruct (decide (j = idx)) as [-> |]; [congruence |]. apply (proj2 Hf j i); [lia | assumption].
Qed.
End Find.

(** ** Changing the last instruction of a block *)

Lemma code_first l b k i : first_at l b k -> l !! k = Some i -> exists r, code b l = i :: r.
Proof.
  intros [(j & Hj & Hb) Hno] Hi. rewrite Hi in Hj. injection Hj as <-.
  rewrite <- (take_drop_middle l k i Hi), code_app. rewrite (proj2 (code_nil_iff b (take k l))).
  - exists (code b (drop (S k) l)). rewrite code_cons, decide_True by assumption. reflexivity.
  - intros x Hx. apply list_elem_of_lookup in Hx as (j & Hj).
    rewrite lookup_take_Some in Hj. destruct Hj as [Hj Hlt]. eauto.
Qed.

Lemma code_last l b k i :
  last_at l b k -> l !! k = Some i ->
  exists body, code b l = body ++ [i] /\
    forall i', ir_block i' = b ->
      code b (<[k := i']> l) = body ++ [i'] /\ forall z, z <> b -> code z (<[k := i']> l) = code z l.
Proof.
  intros [(j & Hj & Hb) Hno] Hi. rewrite Hi in Hj. injection Hj as <-.
  assert (Htail : code b (drop (S k) l) = []).
  { apply code_nil_iff. intros x Hx. apply list_elem_of_lookup in Hx as (j & Hj).
    rewrite lookup_drop in Hj. apply (Hno (S k + j)%nat); [lia | assumption]. }
  pose proof (lookup_lt_Some _ _ _ Hi) as Hk. pose proof (take_drop_middle l k i Hi) as E.
  exists (code b (take k l)). split.
  - rewrite <- E at 1. rewrite code_app, code_cons, decide_True, Htail by assumption. reflexivity.
  - intros i' Hb'. rewrite insert_take_drop by assumption. split.
    + rewrite code_app, code_cons, decide_True, Htail by assumption. reflexivity.
    + intros z Hz. rewrite <- E at 3. rewrite !code_app, !code_cons, !decide_False by congruence. reflexivity.
Qed.

Section Redirect.
Context {St : Type} (exec : IRInstructionType -> list IROperand -> St -> St) (taken : IROperand -> St -> bool).
Implicit Types (l : list IRInstruction) (s : St) (r : exit (St := St)).
Abbreviation evals := (evals exec taken).
Abbreviation run_code := (run_code exec taken).

(** One step of control, not from block [b]. *)
Definition goes l (b : Z) (p q : Z * St) : Prop :=
  p.1 <> b /\ run_code (code p.1 l) p.2 = Goto q.1 q.2.

Lemma goes_evals l b p q r : rtc (goes l b) p q -> evals l p.1 p.2 r <-> evals l q.1 q.2 r.
Proof.
  induction 1 as [p | p q u [_ H] _ IH]; [reflexivity |]. rewrite <- IH. split.
  - intros He. destruct He as [b0 s t ops s' E | b0 s b' s' r E He]; rewrite H in E; [discriminate |].
    injection E as -> ->. assumption.
  - intros He. eapply evals_goto; eassumption.
Qed.

(** Replacing the last instruction of block [b] by one that skips steps that
    do not go through [b]. *)
Lemma evals_redirect l l' b body t t' :
  (forall z, z <> b -> code z l' = code z l) ->
  code b l = body ++ [t] -> code b l' = body ++ [t'] ->
  Forall (fun i => is_control (type i) = false) body ->
  (forall s, exists x s1 y s2, run_code [t] s = Goto x s1 /\ run_code [t'] s = Goto y s2 /\
     rtc (goes l b) (x, s1) (y, s2)) ->
  forall z s r, evals l z s r <-> evals l' z s r.
Proof.
  intros Hother Hc Hc' Hbody Hskip z s r.
  assert (Hgoes : forall p q, rtc (goes l b) p q -> rtc (goes l' b) p q).
  { intros p q H. eapply rtc_subrel; [| exact H]. intros x y [H1 H2]. split; [assumption |].
    rewrite Hother; assumption. }
  split; intros H.
  - induction H as [z s u ops s' E | z s z' s' r E H IH]; destruct (decide (z = b)) as [-> | Hz].
    + rewrite Hc, run_code_app in E by assumption. edestruct Hskip as (x & s1 & y & s2 & E1 & _ & _).
      rewrite E1 in E. discriminate.
    + apply evals_leave. rewrite Hother; assumption.
    + rewrite Hc, run_code_app in E by assumption. edestruct Hskip as (x & s1 & y & s2 & E1 & E2 & Hxy).
      rewrite E1 in E. injection E as -> ->. apply evals_goto with y s2.
      * rewrite Hc', run_code_app by assumption. exact E2.
      * apply Hgoes in Hxy. apply (goes_evals _ _ _ _ _ Hxy). assumption.
    + apply evals_goto with z' s'; [rewrite Hother |]; assumption.
  - induction H as [z s u ops s' E | z s z' s' r E H IH]; destruct (decide (z = b)) as [-> | Hz].
    + rewrite Hc', run_code_app in E by assumption. edestruct Hskip as (x & s1 & y & s2 & _ & E2 & _).
      rewrite E2 in E. discriminate.
    + apply evals_leave. rewrite <- Hother; assumption.
    + rewrite Hc', run_code_app in E by assumption. edestruct Hskip as (x & s1 & y & s2 & E1 & E2 & Hxy).
      rewrite E2 in E. injection E as -> ->. apply evals_goto with x s1.
      * rewrite Hc, run_code_app by assumption. exact E1.
      * apply (goes_evals _ _ _ _ _ Hxy). assumption.
    + apply evals_goto with z' s'; [rewrite <- Hother |]; assumption.
Qed.
End Redirect.

(** ** Threading *)

(** What threading needs of the code, and keeps. *)
Record flows (n : Z) (rank : Z -> Z) (l : list IRInstruction) : Prop := {
  fl_operands : Forall has_operands l;
  fl_block : Forall (fun i => 0 <= ir_block i < n) l;
  fl_target : forall i t, i ∈ l -> t ∈ targets i -> 0 <= t < n /\ code t l <> [];
  fl_terminated : terminated l;
  fl_ranked : ranked rank l
}.

Definition same_blocks (L l : list IRInstruction) : Prop := map ir_block l = map ir_block L.

Lemma same_blocks_lookup L l k i :
  same_blocks L l -> L !! k = Some i -> exists j, l !! k = Some j /\ ir_block j = ir_block i.
Proof.
  intros H E. assert (E' : map ir_block l !! k = Some (ir_block i))
    by (rewrite H; exact (list_lookup_fmap_Some_2 ir_block L k i E)).
  apply list_lookup_fmap_Some in E' as (j & Ej & Eb). eauto.
Qed.

Lemma first_at_blocks L l b k : same_blocks L l -> first_at L b k -> first_at l b k.
Proof.
  intros H [(i & Hi & Hb) Hno]. split.
  - destruct (same_blocks_lookup L l k i H Hi) as (j & Hj & E). exists j. split; congruence.
  - intros j x Hj Hx. destruct (same_blocks_lookup l L j x (eq_sym H) Hx) as (y & Hy & <-). eauto.
Qed.

Lemma last_at_blocks L l b k : same_blocks L l -> last_at L b k -> last_at l b k.
Proof.
  intros H [(i & Hi & Hb) Hno]. split.
  - destruct (same_blocks_lookup L l k i H Hi) as (j & Hj & E). exists j. split; congruence.
  - intros j x Hj Hx. destruct (same_blocks_lookup l L j x (eq_sym H) Hx) as (y & Hy & <-). eauto.
Qed.

Section Threading.
Context {St : Type} (exec : IRInstructionType -> list IROperand -> St -> St) (taken : IROperand -> St -> bool).
Context (n : Z) (rank : Z -> Z) (L : list IRInstruction) (first : pointers).
Hypothesis rank_range : forall b, 0 <= b < n -> 0 <= rank b < n.
Hypothesis first_ok : firsts_ok L (length L) first.

Abbreviation evals := (evals exec taken).
Abbreviation run_code := (run_code exec taken).
Abbreviation goes := (goes exec taken).

Lemma first_of_ok l t :
  same_blocks L l -> 0 <= t -> code t l <> [] ->
  exists i r, first_of first l t = Ok i /\ code t l = i :: r.
Proof.
  intros Hs Ht Hne. destruct (code t l) as [| x m] eqn:E; [contradiction |].
  assert (Hx : x ∈ code t l) by (rewrite E; left). apply code_elem in Hx as [Hx Hb].
  apply list_elem_of_lookup in Hx as (j & Hj).
  destruct (same_blocks_lookup l L j x (eq_sym Hs) Hj) as (y & Hy & Hyb).
  destruct (proj2 first_ok j y ltac:(eauto using lookup_lt_Some) Hy) as (k & Hk).
  rewrite Hyb, Hb in Hk. pose proof (proj1 first_ok t k Ht Hk) as Hf.
  apply (first_at_blocks L l) in Hf; [| assumption]. pose proof Hf as [(i & Hi & _) _].
  destruct (code_first l t k i Hf Hi) as (r & Er). exists i, r. split; [| congruence].
  unfold first_of. assert (Ev : vec_get first t = Ok (Some k)) by (apply vec_get_Ok; auto).
  rewrite Ev. cbn. rewrite Hi. reflexivity.
Qed.

Lemma head_control_alone l t i r :
  terminated l -> code t l = i :: r -> is_control (type i) = true -> code t l = [i].
Proof.
  intros Ht E Hc. destruct (Ht t) as [H | H]; [congruence |]. rewrite E in *. destruct r; [reflexivity |].
  cbn [ends_in_control] in H. rewrite Hc in H. discriminate.
Qed.

Lemma follow_jumps_ok l fuel x i r :
  flows n rank l -> same_blocks L l -> 0 <= x < n -> code x l = i :: r -> n - rank x <= Z.of_nat fuel ->
  exists j r', follow_jumps fuel first l i = Ok j /\ code (ir_block j) l = j :: r' /\ type j <> JMP /\
    rank x <= rank (ir_block j) /\
    forall b s, rank b < rank x -> rtc (goes l b) (x, s) (ir_block j, s).
Proof.
  intros Hf Hs. revert x i r. induction fuel as [| fuel IH]; intros x i r Hx E Hfu;
    pose proof (rank_range x Hx) as Hrx; [lia |].
  assert (Hi : i ∈ code x l) by (rewrite E; left). apply code_elem in Hi as [Hi Hb].
  destruct (decide (type i = JMP)) as [Et | Et].
  - assert (Hti : value (op i 0) ∈ targets i) by (unfold targets; rewrite Et; left).
    destruct (fl_target _ _ _ Hf i _ Hi Hti) as [Hr Hne].
    pose proof (fl_ranked _ _ _ Hf i _ Hi Hti) as Hlt. rewrite Hb in Hlt.
    destruct (first_of_ok l _ Hs (proj1 Hr) Hne) as (i' & r' & Ei' & Er').
    destruct (IH (value (op i 0)) i' r' Hr Er' ltac:(lia)) as (j & rj & Ej & Hcj & Htj & Hle & Hgo).
    exists j, rj. cbn [follow_jumps]. rewrite Et, Ei'. cbn [rbind]. split; [assumption |].
    split; [assumption |]. split; [assumption |]. split; [lia |]. intros b s Hrb.
    apply rtc_l with (value (op i 0), s); [| apply Hgo; lia]. split; cbn [fst snd].
    + intros ->. lia.
    + rewrite (head_control_alone l x i r) by (apply Hf || assumption || (rewrite Et; reflexivity)).
      cbn [BlockFlow.run_code]. rewrite Et. reflexivity.
  - exists i, r. rewrite Hb. split; [destruct (type i) eqn:Et'; (reflexivity || congruence || (cbn [follow_jumps]; rewrite Et'; reflexivity)) |].
    split; [assumption |]. split; [assumption |]. split; [lia |]. intros. apply rtc_refl.
Qed.

(** Replacing the last instruction of a block. *)
Lemma replace_last l b k i i' :
  flows n rank l -> last_at l b k -> l !! k = Some i ->
  ir_block i' = b -> is_control (type i') = true -> has_operands i' ->
  (forall t, t ∈ targets i' -> 0 <= t < n /\ code t l <> [] /\ rank b < rank t) ->
  (forall s, exists x s1 y s2, run_code [i] s = Goto x s1 /\ run_code [i'] s = Goto y s2 /\
     rtc (goes l b) (x, s1) (y, s2)) ->
  flows n rank (<[k := i']> l) /\ same_blocks l (<[k := i']> l) /\
  forall z s r, evals l z s r <-> evals (<[k := i']> l) z s r.
Proof.
  intros [Ho Hb Ht Hte Hra] Hlast Hi Hib Hc Hop Htgt Hskip.
  destruct (code_last l b k i Hlast Hi) as (body & Hcode & Hrep). destruct (Hrep i' Hib) as [Hcode' Hother].
  assert (Hib0 : ir_block i = b)
    by (assert (Hin : i ∈ code b l) by (rewrite Hcode; set_solver); apply code_elem in Hin; tauto).
  assert (Hbody : Forall (fun i => is_control (type i) = false) body).
  { destruct (Hte b) as [H | H]; [rewrite Hcode in H; destruct body; discriminate |].
    apply ends_in_control_spec in H as (body0 & t0 & E & _ & H). rewrite Hcode in E.
    apply app_inj_tail in E as [-> _]. assumption. }
  assert (Hin : forall x, x ∈ <[k := i']> l -> x = i' \/ x ∈ l).
  { intros x Hx. apply list_elem_of_lookup in Hx as (j & Hj).
    apply list_lookup_insert_Some in Hj as [(_ & -> & _) | [_ Hj]]; [auto |]. right. eauto using list_elem_of_lookup_2. }
  assert (Hne : forall t, code t l <> [] -> code t (<[k := i']> l) <> []).
  { intros t H. destruct (decide (t = b)) as [-> |]; [rewrite Hcode'; destruct body; discriminate |].
    rewrite Hother; assumption. }
  split; [split | split].
  - apply Forall_insert; assumption.
  - apply Forall_insert; [assumption |]. rewrite Hib, <- Hib0. rewrite Forall_forall in Hb.
    apply Hb. eauto using list_elem_of_lookup_2.
  - intros x t Hx Hxt. destruct (Hin x Hx) as [-> | Hxl]; [destruct (Htgt t Hxt) as (? & ? & ?); auto |].
    destruct (Ht x t Hxl Hxt); auto.
  - intros z. destruct (decide (z = b)) as [-> |]; [| rewrite Hother by assumption; apply Hte].
    right. rewrite Hcode'. apply ends_in_control_spec. eauto.
  - intros x t Hx Hxt. destruct (Hin x Hx) as [-> | Hxl]; [rewrite Hib; apply (Htgt t Hxt) | eauto].
  - unfold same_blocks. rewrite list_fmap_insert. apply list_insert_id.
    rewrite list_lookup_fmap, Hi. simpl. congruence.
  - eapply evals_redirect; eassumption.
Qed.

(** What is kept by the step from [l] to [l']. *)
Definition kept (l l' : list IRInstruction) : Prop :=
  flows n rank l' /\ same_blocks L l' /\ forall z s r, evals l z s r <-> evals l' z s r.

Lemma kept_trans l l1 l2 : kept l l1 -> kept l1 l2 -> kept l l2.
Proof. intros (_ & _ & H1) (H2 & H3 & H4). split; [assumption |]. split; [assumption |]. intros. rewrite H1. apply H4. Qed.

Lemma set_op_type k o i : type (set_op k o i) = type i.
Proof. reflexivity. Qed.
Lemma set_op_block k o i : ir_block (set_op k o i) = ir_block i.
Proof. reflexivity. Qed.

Lemma last_insn l b k i :
  flows n rank l -> last_at l b k -> l !! k = Some i ->
  i ∈ l /\ ir_block i = b /\ 0 <= b < n /\ is_control (type i) = true /\ has_operands i.
Proof.
  intros [Ho Hb _ Hte _] Hlast Hi. assert (Hil : i ∈ l) by eauto using list_elem_of_lookup_2.
  pose proof Hlast as [(j & Hj & Hjb) _]. rewrite Hi in Hj. injection Hj as <-.
  rewrite Forall_forall in Ho, Hb. pose proof (Hb i Hil) as Hbi. simpl in Hbi.
  destruct (code_last l b k i Hlast Hi) as (body & Hcode & _).
  split; [assumption |]. split; [assumption |]. split; [lia |]. split; [| auto].
  destruct (Hte b) as [H | H]; rewrite Hcode in H; [destruct body; discriminate |].
  apply ends_in_control_spec in H as (body0 & t0 & E & Ht0 & _). apply app_inj_tail in E as [_ ->]. assumption.
Qed.

(** Where a target [t] of the last instruction of [b] leads. *)
Lemma target_leads l b k i t fuel :
  flows n rank l -> same_blocks L l -> last_at l b k -> l !! k = Some i -> t ∈ targets i -> n <= Z.of_nat fuel ->
  exists i0 j r', first_of first l t = Ok i0 /\ follow_jumps fuel first l i0 = Ok j /\
    code (ir_block j) l = j :: r' /\ type j <> JMP /\ 0 <= ir_block j < n /\ rank b < rank (ir_block j) /\
    forall s, rtc (goes l b) (t, s) (ir_block j, s).
Proof.
  intros Hf Hs Hlast Hi Ht Hfu. destruct (last_insn l b k i Hf Hlast Hi) as (Hil & Hib & _).
  destruct (fl_target _ _ _ Hf i t Hil Ht) as [Hr Hne].
  pose proof (fl_ranked _ _ _ Hf i t Hil Ht) as Hlt. rewrite Hib in Hlt.
  destruct (first_of_ok l t Hs (proj1 Hr) Hne) as (i0 & r0 & E0 & Er0). pose proof (rank_range t Hr).
  destruct (follow_jumps_ok l fuel t i0 r0 Hf Hs Hr Er0 ltac:(lia)) as (j & rj & Ej & Hcj & Htj & Hle & Hgo).
  exists i0, j, rj. repeat (split; [assumption |]). split; [| split; [lia |]].
  - assert (Hj : j ∈ code (ir_block j) l) by (rewrite Hcj; left). apply code_elem in Hj as [Hj _].
    pose proof (fl_block _ _ _ Hf) as Hb. rewrite Forall_forall in Hb. apply (Hb j Hj).
  - intros s. apply Hgo. assumption.
Qed.

Lemma thread_branch_ok l b k i fuel :
  flows n rank l -> same_blocks L l -> last_at l b k -> l !! k = Some i -> type i = BRANCH ->
  n <= Z.of_nat fuel -> exists l', thread_branch fuel first l k i = Ok l' /\ kept l l'.
Proof.
  intros Hf Hs Hlast Hi Et Hfu. destruct (last_insn l b k i Hf Hlast Hi) as (Hil & Hib & Hb & _ & Hop).
  assert (Ht : targets i = [value (op i 1); value (op i 2)]) by (unfold targets; rewrite Et; reflexivity).
  destruct (target_leads l b k i (value (op i 1)) fuel) as (i1 & j1 & r1 & E1 & F1 & C1 & _ & B1 & R1 & G1);
    try assumption; [rewrite Ht; set_solver |].
  destruct (target_leads l b k i (value (op i 2)) fuel) as (i2 & j2 & r2 & E2 & F2 & C2 & _ & B2 & R2 & G2);
    try assumption; [rewrite Ht; set_solver |].
  unfold thread_branch. rewrite E1, E2. cbn [rbind]. rewrite F1, F2. cbn [rbind]. eexists. split; [reflexivity |].
  set (i' := set_op 2 _ _). unfold has_operands in Hop. rewrite Et in Hop.
  assert (O : forall m, op i' m = if decide (m = 1)%nat then with_value (ir_block j1) (op i 1)
                                  else if decide (m = 2)%nat then with_value (ir_block j2) (op i 2) else op i m).
  { intros m. unfold i'. rewrite !op_set_op. unfold set_op. cbn [operands]. rewrite length_insert.
    destruct m as [| [| [| m]]]; repeat case_decide; try reflexivity; lia. }
  assert (T : targets i' = [ir_block j1; ir_block j2]).
  { unfold targets. change (type i') with (type i). rewrite Et, !O. reflexivity. }
  destruct (replace_last l b k i i') as (K1 & K2 & K3); try assumption.
  - change (type i') with (type i). rewrite Et. reflexivity.
  - unfold has_operands. change (type i') with (type i). rewrite Et. unfold i', set_op. cbn [operands].
    rewrite !length_insert. assumption.
  - rewrite T. intros t Hin. apply elem_of_cons in Hin as [-> | Hin]; [rewrite C1; auto |].
    apply list_elem_of_singleton in Hin as ->. rewrite C2. auto.
  - intros s. exists (value (op i (if taken (op i 0) s then 1 else 2)%nat)), s,
      (if taken (op i 0) s then ir_block j1 else ir_block j2), s. cbn [BlockFlow.run_code].
    change (type i') with (type i). rewrite Et, (O 0%nat). split; [reflexivity |].
    cbn [decide]. destruct (taken (op i 0) s) eqn:Ek; (split; [| auto]);
      rewrite decide_False, decide_False, Ek, O by lia; reflexivity.
  - split; [assumption |]. split; [unfold same_blocks in *; congruence | assumption].
Qed.

(** Replacing a jump whose target leads to the block of [j] by an instruction
    that goes on from there. *)
Lemma replace_jump l b k i j i' :
  flows n rank l -> same_blocks L l -> last_at l b k -> l !! k = Some i -> type i = JMP ->
  (forall s, rtc (goes l b) (value (op i 0), s) (ir_block j, s)) ->
  ir_block i' = b -> is_control (type i') = true -> has_operands i' ->
  (forall t, t ∈ targets i' -> 0 <= t < n /\ code t l <> [] /\ rank b < rank t) ->
  (forall s, exists y s2, run_code [i'] s = Goto y s2 /\ rtc (goes l b) (ir_block j, s) (y, s2)) ->
  kept l (<[k := i']> l).
Proof.
  intros Hf Hs Hlast Hi Et G1 H1 H2 H3 H4 H5.
  destruct (replace_last l b k i i') as (K1 & K2 & K3); try assumption.
  - intros s. destruct (H5 s) as (y & s2 & E & Hy). exists (value (op i 0)), s, y, s2.
    split; [cbn [BlockFlow.run_code]; rewrite Et; reflexivity |]. split; [assumption |].
    etransitivity; [apply G1 | exact Hy].
  - split; [assumption |]. split; [unfold same_blocks in *; congruence | assumption].
Qed.

Lemma thread_jump_ok l b k i fuel :
  flows n rank l -> same_blocks L l -> last_at l b k -> l !! k = Some i -> type i = JMP ->
  n <= Z.of_nat fuel -> exists l', thread_block fuel first l b (Some k) = Ok l' /\ kept l l'.
Proof.
  intros Hf Hs Hlast Hi Et Hfu. destruct (last_insn l b k i Hf Hlast Hi) as (Hil & Hib & Hb & _ & Hop).
  unfold has_operands in Hop. rewrite Et in Hop.
  destruct (target_leads l b k i (value (op i 0)) fuel) as (i1 & j & r1 & E1 & F1 & C1 & Nj & B1 & R1 & G1);
    try assumption; [unfold targets; rewrite Et; left |].
  cbn [thread_block]. rewrite Hi. cbn [of_option rbind]. rewrite Et, E1. cbn [rbind]. rewrite F1. cbn [rbind].
  assert (Hj : j ∈ l) by (assert (H : j ∈ code (ir_block j) l) by (rewrite C1; left); apply code_elem in H; tauto).
  assert (Hplain : kept l (<[k := set_op 0 (with_value (ir_block j) (op i 0)) i]> l)).
  { assert (Ho : op (set_op 0 (with_value (ir_block j) (op i 0)) i) 0 = with_value (ir_block j) (op i 0))
      by (rewrite op_set_op, decide_True by (split; [reflexivity | lia]); reflexivity).
    eapply replace_jump; try eassumption.
    - rewrite set_op_type, Et. reflexivity.
    - unfold has_operands. rewrite set_op_type, Et. unfold set_op. cbn [operands]. rewrite length_insert. assumption.
    - unfold targets. rewrite set_op_type, Et, Ho.
      intros t Hin. apply list_elem_of_singleton in Hin as ->. cbn [value with_value]. rewrite C1. auto.
    - intros s. exists (ir_block j), s. cbn [BlockFlow.run_code]. rewrite set_op_type, Et, Ho.
      split; [reflexivity | apply rtc_refl]. }
  destruct (type j) eqn:Etj; try (eexists; split; [reflexivity | exact Hplain]).
  2: { exists l. split; [reflexivity |]. split; [assumption |]. split; [assumption | reflexivity]. }
  set (copy := mkInsn (operands j) b BRANCH).
  assert (Hcopy : kept l (<[k := copy]> l)).
  { eapply replace_jump; try eassumption; try reflexivity.
    - pose proof (fl_operands _ _ _ Hf) as Ho. rewrite Forall_forall in Ho. specialize (Ho j Hj).
      unfold has_operands in *. rewrite Etj in Ho. exact Ho.
    - intros t Hin. assert (Hin' : t ∈ targets j) by (unfold targets in *; rewrite Etj; exact Hin).
      destruct (fl_target _ _ _ Hf j t Hj Hin') as [? ?]. pose proof (fl_ranked _ _ _ Hf j t Hj Hin').
      split; [assumption |]. split; [assumption | lia].
    - intros s. eexists _, s. cbn [BlockFlow.run_code]. split; [reflexivity |]. apply rtc_once. split; cbn [fst snd];
        [intros E; rewrite E in R1; lia |].
      rewrite (head_control_alone l _ j r1) by (apply Hf || assumption || (rewrite Etj; reflexivity)).
      cbn [BlockFlow.run_code]. rewrite Etj. reflexivity. }
  pose proof Hcopy as (Kf & Ks & _). pose proof (lookup_lt_Some _ _ _ Hi) as Hk.
  destruct (thread_branch_ok (<[k := copy]> l) b k copy fuel) as (l' & El & Kl); try assumption; try reflexivity.
  - apply (last_at_blocks l); [unfold same_blocks in *; congruence | assumption].
  - apply list_lookup_insert_eq. assumption.
  - exists l'. split; [exact El |]. eapply kept_trans; eassumption.
Qed.

Lemma thread_block_ok l b p fuel :
  flows n rank l -> same_blocks L l -> (forall k, p = Some k -> last_at L b k) -> n <= Z.of_nat fuel ->
  exists l', thread_block fuel first l b p = Ok l' /\ kept l l'.
Proof.
  intros Hf Hs Hp Hfu. assert (Hid : kept l l) by (split; [assumption |]; split; [assumption | reflexivity]).
  destruct p as [k |]; [| exists l; auto]. specialize (Hp k eq_refl).
  apply (last_at_blocks L l) in Hp; [| assumption]. pose proof Hp as [(i & Hi & _) _].
  destruct (last_insn l b k i Hf Hp Hi) as (_ & _ & _ & Hc & _).
  destruct (type i) eqn:Et; try discriminate Hc.
  - apply thread_jump_ok with i; assumption.
  - cbn [thread_block]. rewrite Hi. cbn [of_option rbind]. rewrite Et.
    apply thread_branch_ok with b; assumption.
  - exists l. cbn [thread_block]. rewrite Hi. cbn [of_option rbind]. rewrite Et. auto.
  - exists l. cbn [thread_block]. rewrite Hi. cbn [of_option rbind]. rewrite Et. auto.
Qed.

Lemma thread_blocks_ok last b l fuel :
  flows n rank l -> same_blocks L l -> 0 <= b ->
  (forall m k, last !! m = Some (Some k) -> last_at L (b + Z.of_nat m) k) -> n <= Z.of_nat fuel ->
  exists l', thread_blocks fuel first last b l = Ok l' /\ kept l l'.
Proof.
  intros Hf Hs Hb Hlast Hfu. revert b l Hf Hs Hb Hlast.
  induction last as [| p last IH]; intros b l Hf Hs Hb Hlast; cbn [thread_blocks].
  - exists l. split; [reflexivity |]. split; [assumption |]. split; [assumption | reflexivity].
  - destruct (thread_block_ok l b p fuel) as (l1 & E1 & K1); try assumption.
    { intros k ->. rewrite <- (Z.add_0_r b). apply (Hlast 0%nat). reflexivity. }
    rewrite E1. cbn [rbind]. pose proof K1 as (Kf & Ks & _).
    destruct (IH (b + 1) l1) as (l2 & E2 & K2); try assumption; [lia | |].
    + intros m k H. replace (b + 1 + Z.of_nat m) with (b + Z.of_nat (S m)) by lia. apply Hlast. exact H.
    + exists l2. split; [assumption |]. eapply kept_trans; eassumption.
Qed.
End Threading.

(** Code the transform is made for. *)
Record threadable (rank : Z -> Z) (c : TranslationContext) : Prop := {
  th_count : 0 < _ir_block_count c <= NOP_BLOCK;
  th_flows : flows (_ir_block_count c) rank (_ir_insns c);
  th_rank : forall b, 0 <= b < _ir_block_count c -> 0 <= rank b < _ir_block_count c;
  th_contiguous : contiguous (_ir_insns c)
}.

Lemma thread_jumps_ok {St} (exec : IRInstructionType -> list IROperand -> St -> St)
    (taken : IROperand -> St -> bool) rank c fuel :
  threadable rank c -> _ir_block_count c <= Z.of_nat fuel ->
  exists l', ThreadJumps_Apply fuel c = Ok (with_insns l' c) /\
    kept exec taken (_ir_block_count c) rank (_ir_insns c) (_ir_insns c) l'.
Proof.
  intros [Hc Hf Hr Hcont] Hfu. unfold ThreadJumps_Apply. set (n := Z.to_nat (_ir_block_count c)).
  assert (Hn : Z.of_nat n = _ir_block_count c) by lia.
  assert (Hnone : forall m k, replicate n (@None nat) !! m = Some (Some k) -> False)
    by (intros m k H; apply lookup_replicate in H as [H _]; discriminate).
  destruct (find_instructions_spec (_ir_insns c) n (_ir_insns c) 0 INVALID_BLOCK_ID (replicate n None) (replicate n None))
    as (first & last & E & _ & Llast & Hfirst & Hlast); try reflexivity; try assumption; try apply length_replicate.
  - rewrite Hn. apply Hf.
  - assert (NOP_BLOCK < INVALID_BLOCK_ID) by reflexivity. lia.
  - split; [intros b k _ H; destruct (Hnone _ _ H) | intros; lia].
  - intros b k _ H. destruct (Hnone _ _ H).
  - rewrite E. cbn [rbind].
    destruct (thread_blocks_ok exec taken (_ir_block_count c) rank (_ir_insns c) first Hr Hfirst last 0 (_ir_insns c) fuel)
      as (l' & E' & K); try assumption; try lia; [reflexivity | |].
    + intros m k H. apply Hlast; [lia |]. rewrite Z.add_0_l, Nat2Z.id. assumption.
    + rewrite E'. cbn [rbind]. eauto.
Qed.

(** On contiguous, terminated, acyclic code in which every
    target has code, jump threading follows no null pointer, fails no
    assertion and leaves each of its loops; the code means the same from every
    block, keeps its blocks where they were, and stays terminated and acyclic. *)
Theorem thread_jumps_correct {St} (exec : IRInstructionType -> list IROperand -> St -> St)
    (taken : IROperand -> St -> bool) rank c fuel :
  threadable rank c -> _ir_block_count c <= Z.of_nat fuel ->
  exists c', ThreadJumps_Apply fuel c = Ok c' /\
    (forall b s r, evals exec taken (_ir_insns c) b s r <-> evals exec taken (_ir_insns c') b s r) /\
    map ir_block (_ir_insns c') = map ir_block (_ir_insns c) /\
    flows (_ir_block_count c') rank (_ir_insns c').
Proof.
  intros H Hf. destruct (thread_jumps_ok exec taken rank c fuel H Hf) as (l' & E & K1 & K2 & K3).
  exists (with_insns l' c). auto.
Qed.

(** [contiguous] by computation: a block does not come back. *)
Fixpoint contiguous_check (l : list IRInstruction) : bool :=
  match l with
  | x :: (y :: _) as r =>
      ((ir_block x =? ir_block y) || negb (existsb (fun z => ir_block z =? ir_block x) r)) && contiguous_check r
  | _ => true
  end.

Lemma contiguous_check_ok l : contiguous_check l = true -> contiguous l.
Proof.
  induction l as [| x l IH]; intros H i j k a b c Hijk Ha Hb Hc E; [discriminate |].
  destruct l as [| y r]; [destruct k; [lia | discriminate Hc] |].
  cbn [contiguous_check] in H. apply andb_true_iff in H as [Hx Hr]. specialize (IH Hr).
  destruct i as [| i]; [| destruct j as [| j], k as [| k]; try lia; apply (IH i j k a b c); auto; lia].
  cbn in Ha. injection Ha as <-. destruct j as [| j], k as [| k]; try lia. cbn in Hb, Hc.
  apply orb_true_iff in Hx as [Hxy | Hno].
  - apply Z.eqb_eq in Hxy. destruct j as [| j]; [cbn in Hb; injection Hb as <-; congruence |].
    rewrite Hxy. apply (IH 0%nat (S j) k y b c); auto; [lia | congruence].
  - exfalso. apply negb_true_iff in Hno. apply not_true_iff_false in Hno. apply Hno, existsb_exists.
    exists c. split; [apply list_elem_of_In; eauto using list_elem_of_lookup_2 | apply Z.eqb_eq; congruence].
Qed.

(** A jump through block 1 to the branch in block 2, one arm of which only
    jumps on. *)
Definition thread_example : TranslationContext :=
  mkContext 5 0
    [mkInsn [] 0 TRAP; mkInsn [block_op 1] 0 JMP; mkInsn [block_op 2] 1 JMP;
     mkInsn [new_operand CONSTANT 1 1; block_op 3; block_op 4] 2 BRANCH;
     mkInsn [block_op 4] 3 JMP; mkInsn [] 4 RET] 0.

Lemma thread_example_ok : threadable (fun b => b) thread_example.
Proof.
  split; [vm_compute; split; congruence | | auto |].
  - assert (W : Forall (fun i => 0 <= ir_block i < 5) (_ir_insns thread_example))
      by (repeat constructor; vm_compute; congruence).
    split; [repeat constructor; vm_compute; lia | exact W | | |].
    + intros i t Hi Ht. repeat (apply elem_of_cons in Hi as [-> | Hi];
        [repeat (apply elem_of_cons in Ht as [-> | Ht]; [split; [cbn; lia | discriminate] |]); inversion Ht |]).
      inversion Hi.
    + apply (terminated_check 5); [exact W | reflexivity].
    + intros i t Hi Ht. repeat (apply elem_of_cons in Hi as [-> | Hi];
        [repeat (apply elem_of_cons in Ht as [-> | Ht]; [reflexivity |]); inversion Ht |]). inversion Hi.
  - apply contiguous_check_ok. reflexivity.
Qed.

Lemma thread_jumps_correct_witness :
  exists c', ThreadJumps_Apply 5 thread_example = Ok c' /\
    map targets (_ir_insns c') = [[]; [4; 4]; [4; 4]; [4; 4]; [4]; []] /\
    evals (fun _ _ n => S n) (fun _ _ => true) (_ir_insns c') 0 5%nat (RET, [], 6%nat).
Proof.
  destruct (thread_jumps_correct (fun _ _ n => S n) (fun _ _ => true) (fun b => b) thread_example 5 thread_example_ok)
    as (c' & E & Hev & _); [vm_compute; congruence |].
  exists c'. split; [exact E |]. split; [vm_compute in E; injection E as <-; reflexivity |].
  apply Hev, (run_evals _ _ 5). reflexivity.
Defined.
