(* ===== verification/MergeBlocks.v ===== *)
(** * Merging blocks

    MergeBlocksTransform.cpp: after sorting, a block that ends in a jump to a
    block with no other predecessor takes over its instructions. *)

From Stdlib Require Import ZArith Lia Bool Sorted.
From stdpp Require Import base list numbers sets.
From S2P Require Import Prelude.
From S2P Require Import BlockIR.
From S2P Require Import IRSorter.
From S2P Require Import IRSorterCorrect.
From S2P Require Import BlockFlow.

(** ** The transform *)

(** [(IRBlockId)-1], no successor. *)
Definition NO_BLOCK : Z := 2 ^ 32 - 1.

Definition is_jmp (i : IRInstruction) : bool := match type i with JMP => true | _ => false end.

(** The first loop stops at the jump that ends [merge_into]; the second goes
    on from there. *)
Definition move_insn (merge_from merge_into : Z) (insn : IRInstruction) : IRInstruction :=
  if ir_block insn =? NOP_BLOCK then insn
  else if ir_block insn =? merge_from then mkInsn (operands insn) merge_into (type insn) else insn.

Fixpoint move_block (merge_from merge_into : Z) (l : list IRInstruction) : list IRInstruction :=
  match l with
  | [] => []
  | insn :: r =>
      if (ir_block insn =? merge_into) && is_jmp insn
      then make_nop insn :: map (move_insn merge_from merge_into) r
      else insn :: move_block merge_from merge_into r
  end.

(** [None] when the blocks are not merged. *)
Definition merge_block (l : list IRInstruction) (merge_from merge_into : Z) : option (list IRInstruction) :=
  if merge_from <? merge_into then None else Some (move_block merge_from merge_into l).

Definition count_pred (pred_count : list Z) (b : Z) : result (list Z) :=
  let* p := vec_get pred_count b in vec_set pred_count b (p + 1).

(** The back of the vector [work_list] is the head of the list. *)
Fixpoint identify (l : list IRInstruction) (succs pred_count work_list : list Z)
  : result (list Z * list Z * list Z) :=
  match l with
  | [] => Ok (succs, pred_count, work_list)
  | insn :: r =>
      if ir_block insn =? NOP_BLOCK then identify r succs pred_count work_list
      else
        match type insn with
        | JMP =>
            let* succs1 := vec_set succs (ir_block insn) (u32 (value (op insn 0))) in
            let* pred1 := count_pred pred_count (value (op insn 0)) in
            identify r succs1 pred1 (ir_block insn :: work_list)
        | BRANCH =>
            let* pred1 := count_pred pred_count (value (op insn 1)) in
            let* pred2 := count_pred pred1 (value (op insn 2)) in
            identify r succs pred2 work_list
        | _ => identify r succs pred_count work_list
        end
  end.

Fixpoint merge_loop (fuel : nat) (l : list IRInstruction) (succs pred_count work_list : list Z)
  : result (list IRInstruction) :=
  match fuel, work_list with
  | _, [] => Ok l
  | O, _ => Err OutOfFuel
  | S n, block :: work_list =>
      let* block_successor := vec_get succs block in
      let* preds := vec_get pred_count block_successor in
      if negb (preds =? 1) then merge_loop n l succs pred_count work_list
      else
        match merge_block l block_successor block with
        | None => merge_loop n l succs pred_count work_list
        | Some l1 =>
            let* succ := vec_get succs block_successor in
            let* succs1 := vec_set succs block succ in
            merge_loop n l1 succs1 pred_count (if succ =? NO_BLOCK then work_list else block :: work_list)
        end
  end.

Definition MergeBlocks_Apply (fuel : nat) (c : TranslationContext) : result TranslationContext :=
  let n := Z.to_nat (_ir_block_count c) in
  let* c1 := SortIRTransform_Apply c in
  let* (succs, pred_count, work_list) :=
    identify (_ir_insns c1) (replicate n NO_BLOCK) (replicate n 0) [] in
  let* l := merge_loop fuel (_ir_insns c1) succs pred_count work_list in
  Ok (with_insns l c1).

(** ** One merge *)

Lemma run_code_same {St} (exec : IRInstructionType -> list IROperand -> St -> St) taken f c s :
  (forall i, type (f i) = type i /\ operands (f i) = operands i) ->
  run_code exec taken (map f c) s = run_code exec taken c s.
Proof.
  intros Hf. assert (Ho : forall i k, op (f i) k = op i k)
    by (intros i k; unfold op; rewrite (proj2 (Hf i)); reflexivity).
  revert s. induction c as [| i c IH]; intros s; [reflexivity |]. cbn [map run_code].
  destruct (Hf i) as [-> ->]. rewrite !Ho. destruct (type i); auto.
Qed.

Section OneMerge.
Context {St : Type} (exec : IRInstructionType -> list IROperand -> St -> St) (taken : IROperand -> St -> bool).
Context (l l' : list IRInstruction) (from into : Z) (body : list IRInstruction) (j : IRInstruction)
        (f : IRInstruction -> IRInstruction).
Hypothesis f_same : forall i, type (f i) = type i /\ operands (f i) = operands i.
Hypothesis body_straight : Forall (fun i => is_control (type i) = false) body.
Hypothesis j_jump : type j = JMP /\ value (op j 0) = from.
Hypothesis code_into : code into l = body ++ [j].
Hypothesis code_into' : code into l' = body ++ map f (code from l).
Hypothesis code_other : forall b, b <> into -> b <> from -> b <> NOP_BLOCK -> code b l' = code b l.
Hypothesis only_pred : forall b i, i ∈ code b l -> from ∈ targets i -> b = into.
Hypothesis from_into : from <> into.
Hypothesis real_targets : forall i t, i ∈ l -> t ∈ targets i -> t <> NOP_BLOCK.

Lemma goto_real b s b' s' :
  b <> into -> run_code exec taken (code b l) s = Goto b' s' -> b' <> from /\ b' <> NOP_BLOCK.
Proof.
  intros Hb E. apply run_code_goto in E as (i & Hi & Ht). split.
  - intros ->. apply Hb. eauto.
  - apply code_elem in Hi as [Hi _]. eauto.
Qed.

Lemma into_jumps s : exists s1,
  run_code exec taken (code into l) s = Goto from s1 /\
  run_code exec taken (code into l') s = run_code exec taken (code from l) s1.
Proof.
  rewrite code_into, code_into', !run_code_app by assumption. eexists. split.
  - cbn [run_code]. destruct j_jump as [-> ->]. reflexivity.
  - apply run_code_same, f_same.
Qed.

Lemma evals_merge b s r :
  b <> from -> b <> NOP_BLOCK -> evals exec taken l b s r <-> evals exec taken l' b s r.
Proof.
  intros Hb Hn. split; intros H.
  - apply evals_run in H as (n & H). revert b s Hb Hn H. induction n as [n IH] using lt_wf_ind. intros b s Hb Hn H.
    destruct n as [| n]; [discriminate |]. cbn [run] in H. destruct (decide (b = into)) as [-> | Hne].
    + destruct (into_jumps s) as (s1 & E1 & E2). rewrite E1 in H. destruct n as [| n]; [discriminate |].
      cbn [run] in H. destruct (run_code exec taken (code from l) s1) as [b' s' | t ops s' |] eqn:E; [| | discriminate].
      * destruct (goto_real from s1 b' s' from_into E). apply evals_goto with b' s'; [congruence |].
        apply (IH n); [lia | | |]; assumption.
      * injection H as <-. apply evals_leave. congruence.
    + destruct (run_code exec taken (code b l) s) as [b' s' | t ops s' |] eqn:E; [| | discriminate].
      * destruct (goto_real b s b' s' Hne E). apply evals_goto with b' s'; [rewrite code_other; assumption |].
        apply (IH n); [lia | | |]; assumption.
      * injection H as <-. apply evals_leave. rewrite code_other; assumption.
  - induction H as [b s t ops s' E | b s b' s' r E H IH]; destruct (decide (b = into)) as [-> | Hne];
      try (rewrite code_other in E by assumption).
    + destruct (into_jumps s) as (s1 & E1 & E2). rewrite E2 in E.
      apply evals_goto with from s1; [assumption |]. apply evals_leave. assumption.
    + apply evals_leave. assumption.
    + destruct (into_jumps s) as (s1 & E1 & E2). rewrite E2 in E.
      destruct (goto_real from s1 b' s' from_into E).
      apply evals_goto with from s1; [assumption |]. apply evals_goto with b' s'; auto.
    + destruct (goto_real b s b' s' Hne E). apply evals_goto with b' s'; auto.
Qed.
End OneMerge.

(** ** What every merge keeps *)

Definition edges (l : list IRInstruction) : list Z := concat (map targets l).

Definition preds (l : list IRInstruction) (b : Z) : Z := Z.of_nat (count_occ Z.eq_dec (edges l) b).

(** The target of the last jump of a block. *)
Definition succ_of (c : list IRInstruction) : Z :=
  match last (filter (fun i => is_jmp i = true) c) with Some i => u32 (value (op i 0)) | None => NO_BLOCK end.

Definition jumps (l : list IRInstruction) : nat := length (filter (fun i => is_jmp i = true) l).

Record mergeable (n : Z) (l : list IRInstruction) : Prop := {
  mg_block : forall i, i ∈ l -> ir_block i <> NOP_BLOCK -> 0 <= ir_block i < n;
  mg_nop : forall i, i ∈ l -> ir_block i = NOP_BLOCK -> type i = NOP;
  mg_target : forall i t, i ∈ l -> t ∈ targets i -> 0 <= t < n /\ code t l <> [];
  mg_terminated : forall b, b <> NOP_BLOCK -> code b l = [] \/ ends_in_control (code b l) = true;
  mg_forward : forall i t, i ∈ l -> t ∈ targets i -> ir_block i < t;
  (* the code of a target comes after the instruction that goes there *)
  mg_after : forall p q i k, l !! p = Some i -> l !! q = Some k -> ir_block k ∈ targets i -> (p < q)%nat
}.

Lemma jmp_targets i : is_jmp i = true -> targets i = [value (op i 0)].
Proof. unfold is_jmp, targets. destruct (type i); try discriminate. reflexivity. Qed.

Lemma jmp_control i : is_jmp i = true -> is_control (type i) = true.
Proof. unfold is_jmp. destruct (type i); try discriminate. reflexivity. Qed.

Lemma edges_app l1 l2 : edges (l1 ++ l2) = edges l1 ++ edges l2.
Proof. unfold edges. rewrite map_app. apply concat_app. Qed.

Lemma edges_elem l t : t ∈ edges l <-> exists i, i ∈ l /\ t ∈ targets i.
Proof.
  unfold edges. induction l as [| i l IH]; cbn [map concat]; [set_solver |].
  rewrite elem_of_app, IH. set_solver.
Qed.

Lemma preds_app l1 l2 b : preds (l1 ++ l2) b = preds l1 b + preds l2 b.
Proof. unfold preds. rewrite edges_app, count_occ_app. lia. Qed.

Lemma preds_none l b : preds l b = 0 -> forall i, i ∈ l -> ~ b ∈ targets i.
Proof.
  unfold preds. intros H i Hi Hb. assert (H' : count_occ Z.eq_dec (edges l) b = 0%nat) by lia.
  apply count_occ_not_In in H'. apply H', list_elem_of_In, edges_elem. eauto.
Qed.

Lemma preds_nonneg l b : 0 <= preds l b.
Proof. unfold preds. lia. Qed.

Lemma move_insn_same from into i :
  type (move_insn from into i) = type i /\ operands (move_insn from into i) = operands i.
Proof. unfold move_insn. repeat case_match; auto. Qed.

Lemma move_insn_targets from into i : targets (move_insn from into i) = targets i.
Proof. unfold targets, op. destruct (move_insn_same from into i) as [-> ->]. reflexivity. Qed.

Lemma move_insn_block from into i :
  from <> NOP_BLOCK -> ir_block (move_insn from into i) = if ir_block i =? from then into else ir_block i.
Proof.
  intros Hn. unfold move_insn. destruct (Z.eqb_spec (ir_block i) NOP_BLOCK) as [E |].
  - destruct (Z.eqb_spec (ir_block i) from); [congruence | reflexivity].
  - destruct (Z.eqb_spec (ir_block i) from); reflexivity.
Qed.

Lemma edges_moved from into l : edges (map (move_insn from into) l) = edges l.
Proof.
  unfold edges. rewrite map_map. f_equal. apply map_ext. intros. apply move_insn_targets.
Qed.

Lemma code_moved from into l b :
  from <> NOP_BLOCK -> from <> into -> code into l = [] ->
  code b (map (move_insn from into) l) =
  if decide (b = into) then map (move_insn from into) (code from l)
  else if decide (b = from) then [] else code b l.
Proof.
  intros Hn Hne. induction l as [| i l IH]; intros Hi; [repeat case_decide; reflexivity |].
  rewrite code_cons in Hi. case_decide as Ei; [discriminate |]. specialize (IH Hi).
  cbn [map]. rewrite !code_cons, IH, move_insn_block by assumption.
  destruct (Z.eqb_spec (ir_block i) from) as [Ef | Ef].
  - destruct (decide (b = into)) as [-> |].
    + rewrite !decide_True by congruence. reflexivity.
    + rewrite decide_False by congruence. destruct (decide (b = from)); [reflexivity |].
      rewrite decide_False by congruence. reflexivity.
  - destruct (decide (b = into)) as [-> |]; [rewrite !decide_False by congruence; reflexivity |].
    destruct (decide (b = from)) as [-> |]; [rewrite !decide_False by congruence; reflexivity |].
    destruct (decide (ir_block i = b)); [| reflexivity]. f_equal.
    unfold move_insn. destruct (Z.eqb_spec (ir_block i) NOP_BLOCK); [reflexivity |].
    destruct (Z.eqb_spec (ir_block i) from); [contradiction | reflexivity].
Qed.

Section Merge.
Context (n : Z) (l : list IRInstruction) (from into : Z).
Hypothesis n_small : n <= NOP_BLOCK.
Hypothesis ok : mergeable n l.
Hypothesis into_real : 0 <= into < n.

(** [l] around the jump from [into] to [from]. *)
Record split_at (l1 : list IRInstruction) (j : IRInstruction) (l2 : list IRInstruction) : Prop := {
  sp_list : l = l1 ++ j :: l2;
  sp_jump : is_jmp j = true /\ ir_block j = into /\ value (op j 0) = from;
  sp_straight : Forall (fun i => is_control (type i) = false) (code into l1);
  sp_into : code into l2 = [];
  sp_from : code from l1 = [];
  sp_distinct : from <> into /\ 0 <= from < n;
  sp_moved : move_block from into l = l1 ++ make_nop j :: map (move_insn from into) l2
}.

Lemma move_block_app l1 l2 :
  (forall i, i ∈ l1 -> ir_block i = into -> is_jmp i = false) ->
  move_block from into (l1 ++ l2) = l1 ++ move_block from into l2.
Proof.
  induction l1 as [| i l1 IH]; intros H; [reflexivity |]. cbn [app move_block].
  destruct (Z.eqb_spec (ir_block i) into) as [E |]; cbn [andb].
  - rewrite (H i) by (left || assumption). f_equal. apply IH. intros; apply H; [right |]; assumption.
  - f_equal. apply IH. intros; apply H; [right |]; assumption.
Qed.

Lemma find_split j :
  j ∈ l -> is_jmp j = true -> ir_block j = into -> value (op j 0) = from ->
  exists l1 l2, split_at l1 j l2.
Proof.
  intros Hj Hjmp Hb Hv. pose proof Hj as Hj'. apply list_elem_of_split in Hj' as (l1 & l2 & E). exists l1, l2.
  assert (Hin : from ∈ targets j) by (rewrite (jmp_targets j Hjmp), Hv; left).
  destruct (mg_target _ _ ok j from Hj Hin) as [Hr _]. pose proof (mg_forward _ _ ok j from Hj Hin) as Hlt.
  assert (Hcode : code into l = code into l1 ++ j :: code into l2)
    by (rewrite E, code_app, code_cons, decide_True by assumption; reflexivity).
  destruct (mg_terminated _ _ ok into ltac:(lia)) as [H | H];
    [rewrite Hcode in H; destruct (code into l1); discriminate |].
  rewrite Hcode in H. apply ends_in_control_spec in H as (body & t & Ebt & Ht & Hbody).
  destruct (code into l2) as [| x m _] eqn:E2 using rev_ind.
  2: { exfalso. rewrite app_comm_cons, app_assoc in Ebt. apply app_inj_tail in Ebt as [<- _].
       rewrite Forall_forall in Hbody. specialize (Hbody j ltac:(set_solver)). simpl in Hbody.
       rewrite (jmp_control j Hjmp) in Hbody. discriminate. }
  apply app_inj_tail in Ebt as [<- _].
  split; try assumption; auto; [| lia |].
  - apply code_nil_iff. intros i Hi Ei. apply list_elem_of_lookup in Hi as (q & Hq).
    assert (Hp : l !! length l1 = Some j) by (rewrite E; apply list_lookup_middle; reflexivity).
    assert (Hql : l !! q = Some i) by (rewrite E; apply lookup_app_l_Some; assumption).
    assert (length l1 < q)%nat by (eapply (mg_after _ _ ok); [exact Hp | exact Hql | rewrite Ei; assumption]).
    apply lookup_lt_Some in Hq. lia.
  - rewrite E, move_block_app.
    + cbn [move_block]. rewrite Hb, Z.eqb_refl, Hjmp. reflexivity.
    + intros i Hi Ei. rewrite Forall_forall in Hbody. specialize (Hbody i).
      destruct (is_jmp i) eqn:Ej; [| reflexivity]. apply jmp_control in Ej. rewrite Hbody in Ej; [discriminate |].
      apply list_elem_of_filter. auto.
Qed.

Section Merged.
Context (l1 l2 : list IRInstruction) (j : IRInstruction).
Hypothesis sp : split_at l1 j l2.
Hypothesis one_pred : preds l from = 1.

Abbreviation l' := (move_block from into l).
Abbreviation mv := (move_insn from into).

Lemma j_targets : targets j = [from].
Proof. destruct sp as [_ (Hj & _ & <-) _ _ _ _ _]. apply jmp_targets. assumption. Qed.

Lemma preds_split b : preds l b = preds l1 b + (if from =? b then 1 else 0) + preds l2 b.
Proof.
  rewrite (sp_list _ _ _ sp). change (j :: l2) with ([j] ++ l2). rewrite !preds_app.
  assert (E : preds [j] b = if from =? b then 1 else 0); [| lia].
  unfold preds, edges. cbn [map concat app]. rewrite j_targets. cbn [app count_occ].
  destruct (Z.eq_dec from b), (Z.eqb_spec from b); congruence || reflexivity.
Qed.

Lemma no_other_pred i : i ∈ l1 \/ i ∈ l2 -> ~ from ∈ targets i.
Proof.
  pose proof (preds_split from) as E. rewrite one_pred, Z.eqb_refl in E.
  pose proof (preds_nonneg l1 from). pose proof (preds_nonneg l2 from).
  intros [H1 | H2]; eapply preds_none; eauto; lia.
Qed.

Lemma preds_merged b : preds l' b = preds l b - (if from =? b then 1 else 0).
Proof.
  rewrite (preds_split b), (sp_moved _ _ _ sp). change (make_nop j :: map mv l2) with ([make_nop j] ++ map mv l2).
  rewrite !preds_app. unfold preds at 2 3. rewrite edges_moved. fold (preds l2 b). cbn. lia.
Qed.

Lemma code_from : code from l = code from l2.
Proof.
  destruct sp as [E (_ & Hb & _) _ _ Hf [Hne _] _].
  rewrite E, code_app, code_cons, decide_False, Hf by congruence. reflexivity.
Qed.

Lemma code_into_merged : code into l = code into l1 ++ [j] /\ code into l' = code into l1 ++ map mv (code from l).
Proof.
  pose proof sp as [E (_ & Hb & _) _ Hi _ [Hne Hr] Em]. split.
  - rewrite E, code_app, code_cons, decide_True, Hi by assumption. reflexivity.
  - rewrite code_from, Em, code_app, code_cons, decide_False, code_moved, decide_True by (cbn; reflexivity || assumption || lia).
    reflexivity.
Qed.

Lemma code_other_merged b : b <> into -> b <> NOP_BLOCK -> code b l' = if decide (b = from) then [] else code b l.
Proof.
  intros Hbi Hbn. pose proof sp as [E (_ & Hb & _) _ Hi Hf [Hne Hr] Em].
  rewrite Em, code_app, code_cons, decide_False, code_moved, (decide_False (P := b = into)) by (cbn; congruence || lia).
  case_decide as D; [subst b; rewrite Hf; reflexivity |].
  rewrite E, code_app, code_cons, decide_False by congruence. reflexivity.
Qed.

(** An instruction of the merged buffer: the position it had, and its block. *)
Lemma merged_lookup p i' :
  l' !! p = Some i' -> p <> length l1 ->
  exists i, l !! p = Some i /\ targets i' = targets i /\ type i' = type i /\ (i ∈ l1 \/ i ∈ l2) /\
    (ir_block i' = ir_block i \/ ir_block i = from /\ ir_block i' = into /\ (length l1 < p)%nat).
Proof.
  destruct sp as [E _ _ _ _ [_ Hr] Em]. rewrite Em, E. intros H Hp. apply lookup_app_Some in H as [H | [Hge H]].
  - exists i'. split; [apply lookup_app_l_Some; assumption |]. split; [reflexivity |]. split; [reflexivity |].
    split; [eauto using list_elem_of_lookup_2 | auto].
  - destruct (p - length l1)%nat as [| m] eqn:Ep; [lia |]. cbn in H.
    apply list_lookup_fmap_Some in H as (i & -> & H). exists i.
    split; [rewrite lookup_app_r, Ep by lia; exact H |].
    split; [apply move_insn_targets |]. split; [apply move_insn_same |].
    split; [eauto using list_elem_of_lookup_2 |]. rewrite move_insn_block by lia.
    destruct (Z.eqb_spec (ir_block i) from); [right; split; [assumption |]; split; [reflexivity | lia] | auto].
Qed.

Lemma merged_nop p i' : l' !! p = Some i' -> p = length l1 -> i' = make_nop j.
Proof.
  destruct sp as [_ _ _ _ _ _ Em]. rewrite Em. intros H ->. rewrite list_lookup_middle in H by reflexivity. congruence.
Qed.

Lemma merged_elem i' :
  i' ∈ l' -> i' = make_nop j \/
  exists i, i ∈ l /\ targets i' = targets i /\ type i' = type i /\ (i ∈ l1 \/ i ∈ l2) /\
    (ir_block i' = ir_block i \/ ir_block i = from /\ ir_block i' = into).
Proof.
  intros H. apply list_elem_of_lookup in H as (p & H). destruct (decide (p = length l1)) as [Hp | Hp].
  - left. eapply merged_nop; eassumption.
  - right. destruct (merged_lookup p i' H Hp) as (i & Hi & H1 & H2 & H3 & H4). exists i.
    split; [eauto using list_elem_of_lookup_2 |]. repeat (split; [assumption |]). tauto.
Qed.

Lemma merged_nonempty t : code t l <> [] -> t <> from -> t <> NOP_BLOCK -> code t l' <> [].
Proof.
  intros H Hf Hn. destruct (decide (t = into)) as [-> | Hi].
  - destruct code_into_merged as [_ ->]. pose proof sp as [E (Hj & _ & Hv) _ _ _ _ _].
    assert (Hjl : j ∈ l) by (rewrite E; set_solver).
    destruct (mg_target _ _ ok j from Hjl ltac:(rewrite j_targets; left)) as [_ Hc].
    destruct (code from l); [contradiction |]. destruct (code into l1); discriminate.
  - rewrite code_other_merged, decide_False by assumption. assumption.
Qed.

Lemma merged_mergeable : mergeable n l'.
Proof.
  pose proof sp as [E (Hj & Hb & Hv) Hst _ _ [Hne Hr] _].
  assert (Hjp : l !! length l1 = Some j) by (rewrite E; apply list_lookup_middle; reflexivity).
  assert (Hjl : j ∈ l) by eauto using list_elem_of_lookup_2.
  pose proof (mg_forward _ _ ok j from Hjl ltac:(rewrite j_targets; left)) as Hlt.
  split.
  - intros i' Hi' Hn. destruct (merged_elem i' Hi') as [-> | (i & Hi & _ & _ & _ & Hbl)]; [contradiction |].
    destruct Hbl as [Eb | [_ ->]]; [| assumption]. rewrite Eb in *. apply (mg_block _ _ ok); assumption.
  - intros i' Hi' Hn. destruct (merged_elem i' Hi') as [-> | (i & Hi & _ & -> & _ & Hbl)]; [reflexivity |].
    destruct Hbl as [Eb | [_ Eb]]; [apply (mg_nop _ _ ok); congruence | lia].
  - intros i' t Hi' Ht. destruct (merged_elem i' Hi') as [-> | (i & Hi & Et & _ & Ho & _)]; [inversion Ht |].
    rewrite Et in Ht. destruct (mg_target _ _ ok i t Hi Ht) as [Hrt Hct]. split; [assumption |].
    apply merged_nonempty; [assumption | | lia]. intros ->. eapply no_other_pred; eassumption.
  - intros b Hbn. destruct (decide (b = into)) as [-> | Hbi].
    + right. destruct code_into_merged as [_ ->].
      destruct (mg_terminated _ _ ok from ltac:(lia)) as [H | H].
      * destruct (mg_target _ _ ok j from Hjl ltac:(rewrite j_targets; left)) as [_ Hc]. contradiction.
      * apply ends_in_control_spec in H as (body & t & Ec & Ht & Hbody). rewrite Ec, map_app, app_assoc.
        apply ends_in_control_spec. exists (code into l1 ++ map mv body), (mv t). split; [reflexivity |].
        rewrite (proj1 (move_insn_same from into t)). split; [assumption |]. apply Forall_app. split; [assumption |].
        apply Forall_map. eapply Forall_impl; [exact Hbody |]. intros x Hx.
        rewrite (proj1 (move_insn_same from into x)). exact Hx.
    + rewrite code_other_merged by assumption. case_decide; [auto | apply (mg_terminated _ _ ok); assumption].
  - intros i' t Hi' Ht. destruct (merged_elem i' Hi') as [-> | (i & Hi & Et & _ & _ & Hbl)]; [inversion Ht |].
    rewrite Et in Ht. pose proof (mg_forward _ _ ok i t Hi Ht). destruct Hbl as [-> | [Hbf ->]]; lia.
  - intros p q i' k' Hp Hq Ht. destruct (decide (p = length l1)) as [Ep | Ep].
    { rewrite (merged_nop p i' Hp Ep) in Ht. inversion Ht. }
    destruct (merged_lookup p i' Hp Ep) as (i & Hi & Et & _ & Ho & _). rewrite Et in Ht.
    assert (Hil : i ∈ l) by eauto using list_elem_of_lookup_2.
    destruct (decide (q = length l1)) as [Eq | Eq].
    { rewrite (merged_nop q k' Hq Eq) in Ht. destruct (mg_target _ _ ok i _ Hil Ht) as [Hrt _]. cbn in Hrt. lia. }
    destruct (merged_lookup q k' Hq Eq) as (k & Hk & _ & _ & _ & Hbl). destruct Hbl as [Eb | (Ebf & Eb & Hlq)].
    + rewrite Eb in Ht. eapply (mg_after _ _ ok); eassumption.
    + rewrite Eb, <- Hb in Ht. assert (p < length l1)%nat by (eapply (mg_after _ _ ok); eassumption). lia.
Qed.

Lemma jumps_app m1 m2 : jumps (m1 ++ m2) = (jumps m1 + jumps m2)%nat.
Proof. unfold jumps. rewrite filter_app, length_app. reflexivity. Qed.

Lemma filter_jmp_moved m :
  filter (fun i => is_jmp i = true) (map mv m) = map mv (filter (fun i => is_jmp i = true) m).
Proof.
  assert (H : forall i, is_jmp (mv i) = is_jmp i)
    by (intros; unfold is_jmp; rewrite (proj1 (move_insn_same from into i)); reflexivity).
  induction m as [| i m IH]; [reflexivity |]. cbn [map]. destruct (is_jmp i) eqn:E.
  - rewrite !filter_cons_True by (rewrite ?H; assumption). cbn [map]. f_equal. exact IH.
  - rewrite !filter_cons_False by (rewrite ?H; congruence). exact IH.
Qed.

Lemma jumps_merged : jumps l = S (jumps l').
Proof.
  pose proof sp as [E (Hj & _) _ _ _ _ Em]. rewrite Em, E.
  change (j :: l2) with ([j] ++ l2). change (make_nop j :: map mv l2) with ([make_nop j] ++ map mv l2).
  rewrite !jumps_app.
  assert (E1 : jumps [j] = 1%nat) by (unfold jumps; rewrite filter_cons_True by assumption; reflexivity).
  assert (E2 : jumps (map mv l2) = jumps l2) by (unfold jumps; rewrite filter_jmp_moved; apply length_map).
  rewrite E1, E2. change (jumps [make_nop j]) with 0%nat. lia.
Qed.

Lemma succ_merged : succ_of (code into l') = succ_of (code from l).
Proof.
  destruct code_into_merged as [_ ->]. unfold succ_of. rewrite filter_app, filter_jmp_moved.
  replace (filter (fun i => is_jmp i = true) (code into l1)) with (@nil IRInstruction).
  - cbn [app]. rewrite fmap_last. destruct (last _) as [i |]; [| reflexivity]. cbn.
    unfold op. rewrite (proj2 (move_insn_same from into i)). reflexivity.
  - symmetry. apply elem_of_nil_inv. intros i Hi. apply list_elem_of_filter in Hi as [Hi Hc].
    pose proof (sp_straight _ _ _ sp) as Hs. rewrite Forall_forall in Hs. specialize (Hs i Hc). simpl in Hs.
    rewrite (jmp_control i Hi) in Hs. discriminate.
Qed.

Lemma merged_evals {St} (exec : IRInstructionType -> list IROperand -> St -> St) taken b s r :
  b <> from -> b <> NOP_BLOCK -> evals exec taken l b s r <-> evals exec taken l' b s r.
Proof.
  pose proof sp as [E (Hj & Hb & Hv) Hst _ _ [Hne Hr] _]. destruct code_into_merged as [C1 C2].
  apply (evals_merge exec taken l l' from into (code into l1) j mv); try assumption.
  - apply move_insn_same.
  - split; [unfold is_jmp in Hj; destruct (type j); congruence | assumption].
  - intros z H1 H2 H3. rewrite code_other_merged, decide_False by assumption. reflexivity.
  - intros z i Hi Ht. apply code_elem in Hi as [Hi <-]. rewrite E in Hi.
    apply elem_of_app in Hi as [Hi | Hi]; [destruct (no_other_pred i (or_introl Hi) Ht) |].
    apply elem_of_cons in Hi as [-> | Hi]; [assumption | destruct (no_other_pred i (or_intror Hi) Ht)].
  - intros i t Hi Ht. destruct (mg_target _ _ ok i t Hi Ht). lia.
Qed.
End Merged.
End Merge.

(** ** The work list *)

Lemma real_jump n l j : mergeable n l -> j ∈ l -> is_jmp j = true -> 0 <= ir_block j < n /\ ir_block j <> NOP_BLOCK.
Proof.
  intros H Hj Hjmp. assert (Hn : ir_block j <> NOP_BLOCK).
  { intros E. pose proof (mg_nop _ _ H j Hj E) as Ht. unfold is_jmp in Hjmp. rewrite Ht in Hjmp. discriminate. }
  split; [apply (mg_block _ _ H); assumption | assumption].
Qed.

Lemma jump_unique n l i j :
  mergeable n l -> i ∈ l -> j ∈ l -> is_jmp i = true -> is_jmp j = true -> ir_block i = ir_block j -> i = j.
Proof.
  intros H Hi Hj Ji Jj E. destruct (real_jump n l j H Hj Jj) as [_ Hn].
  assert (Ci : i ∈ code (ir_block j) l) by (apply list_elem_of_filter; auto).
  assert (Cj : j ∈ code (ir_block j) l) by (apply list_elem_of_filter; auto).
  destruct (mg_terminated _ _ H (ir_block j) Hn) as [Hc | Hc]; [rewrite Hc in Cj; inversion Cj |].
  eapply terminator_unique; eauto using jmp_control.
Qed.

Lemma jump_succ n l j :
  n <= NOP_BLOCK -> mergeable n l -> j ∈ l -> is_jmp j = true ->
  succ_of (code (ir_block j) l) = value (op j 0) /\ 0 <= value (op j 0) < n /\
  code (value (op j 0)) l <> [] /\ ir_block j < value (op j 0).
Proof.
  intros Hn H Hj Hjmp. assert (Ht : value (op j 0) ∈ targets j) by (rewrite jmp_targets by assumption; left).
  destruct (mg_target _ _ H j _ Hj Ht) as [Hr Hc]. pose proof (mg_forward _ _ H j _ Hj Ht).
  split; [| auto]. unfold succ_of. destruct (last _) as [i |] eqn:E.
  - apply last_Some_elem_of, list_elem_of_filter in E as [Ji Ci]. apply code_elem in Ci as [Ci Eb].
    rewrite (jump_unique n l i j) by assumption. assert (NOP_BLOCK < 2 ^ 32) by reflexivity.
    apply wrap_small. unfold in_range. lia.
  - apply last_None in E. assert (Hf : j ∈ filter (fun i => is_jmp i = true) (code (ir_block j) l))
      by (apply list_elem_of_filter; split; [assumption | apply list_elem_of_filter; auto]).
    rewrite E in Hf. inversion Hf.
Qed.

Record loop_inv (n : Z) (l : list IRInstruction) (succs pred_count work_list : list Z) : Prop := {
  li_ok : mergeable n l;
  li_length : Z.of_nat (length succs) = n;
  li_succs : forall b, 0 <= b < n -> code b l <> [] -> vec_get succs b = Ok (succ_of (code b l));
  li_preds : forall b, 0 <= b < n -> code b l <> [] -> vec_get pred_count b = Ok (preds l b);
  li_sorted : StronglySorted (fun a b => b < a) work_list;
  li_jumps : forall b, b ∈ work_list -> exists j, j ∈ l /\ is_jmp j = true /\ ir_block j = b;
  li_done : forall j, j ∈ l -> is_jmp j = true -> ir_block j ∈ work_list \/ preds l (value (op j 0)) <> 1
}.

Lemma skip_inv n l succs pc b w j :
  n <= NOP_BLOCK -> loop_inv n l succs pc (b :: w) -> j ∈ l -> is_jmp j = true -> ir_block j = b ->
  preds l (value (op j 0)) <> 1 -> loop_inv n l succs pc w.
Proof.
  intros Hn [H1 H2 H3 H4 H5 H6 H7] Hj Hjmp Eb Hp. split; try assumption.
  - inversion H5. assumption.
  - intros z Hz. apply H6. right. assumption.
  - intros i Hi Ji. destruct (H7 i Hi Ji) as [Hin | ?]; [| auto]. apply elem_of_cons in Hin as [E | ?]; [| auto].
    right. rewrite (jump_unique n l i j) by (assumption || congruence). assumption.
Qed.

Lemma vec_get_set_at {A} (v : list A) b x z :
  0 <= b < Z.of_nat (length v) -> 0 <= z -> vec_get (set_at v b x) z = if b =? z then Ok x else vec_get v z.
Proof.
  intros Hb Hz. unfold vec_get. destruct (Z.ltb_spec z 0); [lia |]. rewrite lookup_set_at by assumption.
  destruct (Z.eqb_spec b z) as [-> |]; case_decide; try reflexivity; lia.
Qed.

Section Step.
Context (n : Z) (l : list IRInstruction) (succs pc : list Z) (b : Z) (w : list Z) (j : IRInstruction) (l1 l2 : list IRInstruction).
Hypothesis n_small : n <= NOP_BLOCK.
Hypothesis inv : loop_inv n l succs pc (b :: w).
Hypothesis b_real : 0 <= b < n.
Abbreviation from := (value (op j 0)).
Hypothesis sp : split_at n l from b l1 j l2.
Hypothesis one : preds l from = 1.
Abbreviation l' := (move_block from b l).
Abbreviation w' := (if succ_of (code from l) =? NO_BLOCK then w else b :: w).

Let ok : mergeable n l := li_ok _ _ _ _ _ inv.
Let ok' : mergeable n l' := merged_mergeable n l from b n_small ok b_real l1 l2 j sp one.

Lemma step_code z : 0 <= z < n -> code z l' <> [] -> z <> from /\ code z l <> [] /\ (z <> b -> code z l' = code z l).
Proof.
  intros Hz Hc. pose proof (sp_distinct _ _ _ _ _ _ _ sp) as [Hd _]. destruct (decide (z = b)) as [-> | Hzb].
  - split; [congruence |]. destruct (code_into_merged n l from b n_small b_real l1 l2 j sp) as [-> _].
    split; [destruct (code b l1); discriminate | congruence].
  - rewrite (code_other_merged n l from b n_small b_real l1 l2 j sp z) in * by (assumption || lia).
    case_decide; [contradiction | auto].
Qed.

Lemma step_jump i' :
  i' ∈ l' -> is_jmp i' = true ->
  exists i, i ∈ l /\ is_jmp i = true /\ value (op i 0) = value (op i' 0) /\ value (op i' 0) <> from /\
    (ir_block i' = ir_block i \/ ir_block i' = b).
Proof.
  intros Hi' Ji'. destruct (merged_elem n l from b n_small b_real l1 l2 j sp i' Hi') as [-> | (i & Hi & Et & Ety & Ho & Hbl)];
    [discriminate |].
  assert (Ji : is_jmp i = true) by (unfold is_jmp in *; rewrite <- Ety; assumption).
  rewrite !jmp_targets in Et by assumption. injection Et as Ev. exists i. repeat (split; [assumption || congruence |]).
  split; [| tauto]. rewrite Ev. intros E. apply (no_other_pred n l from b l1 l2 j sp one i Ho).
  rewrite jmp_targets by assumption. rewrite E. left.
Qed.

Lemma step_inv : loop_inv n l' (set_at succs b (succ_of (code from l))) pc w'.
Proof.
  pose proof inv as [_ HL Hs Hp Hso Hj Hd]. pose proof (sp_distinct _ _ _ _ _ _ _ sp) as [Hne Hfr].
  pose proof (sp_list _ _ _ _ _ _ _ sp) as El. pose proof (sp_jump _ _ _ _ _ _ _ sp) as (Jj & Bj & _).
  assert (Hjl : j ∈ l) by (rewrite El; set_solver).
  destruct (jump_succ n l j n_small ok Hjl Jj) as (_ & _ & Hcf & Hlt). rewrite Bj in Hlt.
  assert (Hw : Forall (fun z => z < b) w) by (inversion Hso; assumption).
  split.
  - exact ok'.
  - rewrite length_set_at. assumption.
  - intros z Hz Hc. destruct (step_code z Hz Hc) as (Hzf & Hcl & Hother). rewrite vec_get_set_at by lia.
    destruct (Z.eqb_spec b z) as [<- | Hzb]; [| rewrite Hother by congruence; auto].
    f_equal. symmetry. apply (succ_merged n l from b n_small b_real l1 l2 j sp).
  - intros z Hz Hc. destruct (step_code z Hz Hc) as (Hzf & Hcl & _). rewrite Hp by assumption. f_equal.
    rewrite (preds_merged n l from b l1 l2 j sp one z). destruct (Z.eqb_spec from z); [congruence | lia].
  - case_match; [inversion Hso |]; assumption.
  - assert (Hrest : forall z, z ∈ w -> exists i, i ∈ l' /\ is_jmp i = true /\ ir_block i = z).
    { intros z Hz. destruct (Hj z (list_elem_of_further _ _ _ Hz)) as (i & Hi & Ji & Eb). exists i.
      split; [| auto]. rewrite Forall_forall in Hw. specialize (Hw z Hz). simpl in Hw.
      assert (Hi' : i ∈ code z l') by
        (rewrite (code_other_merged n l from b n_small b_real l1 l2 j sp z), decide_False by lia;
         apply list_elem_of_filter; auto).
      apply code_elem in Hi'. tauto. }
    intros z Hz. destruct (Z.eqb_spec (succ_of (code from l)) NO_BLOCK) as [Es | Es]; [auto |].
    apply elem_of_cons in Hz as [-> | Hz]; [| auto].
    rewrite <- (succ_merged n l from b n_small b_real l1 l2 j sp) in Es. unfold succ_of in Es.
    destruct (last _) as [i |] eqn:Ei; [| contradiction].
    apply last_Some_elem_of, list_elem_of_filter in Ei as [Ji Ci]. apply code_elem in Ci as [Ci Eb]. eauto.
  - intros i' Hi' Ji'. destruct (step_jump i' Hi' Ji') as (i & Hi & Ji & Ev & Hvf & Hbl).
    rewrite (preds_merged n l from b l1 l2 j sp one). destruct (Z.eqb_spec from (value (op i' 0))); [congruence |].
    rewrite Z.sub_0_r, <- Ev. destruct (decide (ir_block i' = b)) as [Eb | Nb].
    + left. destruct (jump_succ n l' i' n_small ok' Hi' Ji') as (Esu & Hv & _).
      rewrite Eb, (succ_merged n l from b n_small b_real l1 l2 j sp) in Esu. rewrite Esu, Eb.
      assert (NOP_BLOCK < NO_BLOCK) by reflexivity.
      destruct (Z.eqb_spec (value (op i' 0)) NO_BLOCK); [lia | left].
    + destruct Hbl as [Eb | ?]; [| contradiction]. rewrite Eb in *. destruct (Hd i Hi Ji) as [Hin | ?]; [left | auto].
      apply elem_of_cons in Hin as [? | Hin]; [contradiction |]. case_match; [| right]; assumption.
Qed.
End Step.

Lemma merge_loop_ok {St} (exec : IRInstructionType -> list IROperand -> St -> St) (taken : IROperand -> St -> bool)
    n fuel l succs pc w :
  n <= NOP_BLOCK -> loop_inv n l succs pc w -> (length w + jumps l <= fuel)%nat ->
  exists l', merge_loop fuel l succs pc w = Ok l' /\ mergeable n l' /\
    (forall s r, evals exec taken l 0 s r <-> evals exec taken l' 0 s r) /\
    (forall j, j ∈ l' -> is_jmp j = true -> preds l' (value (op j 0)) <> 1).
Proof.
  intros Hn. revert l succs pc w. induction fuel as [| fuel IH]; intros l succs pc w I Hf.
  - destruct w as [| b w]; [| cbn in Hf; lia]. exists l. split; [reflexivity |]. split; [apply I |].
    split; [reflexivity |]. intros j Hj Jj. destruct (li_done _ _ _ _ _ I j Hj Jj) as [H |]; [inversion H | assumption].
  - destruct w as [| b w].
    { exists l. split; [reflexivity |]. split; [apply I |]. split; [reflexivity |].
      intros j Hj Jj. destruct (li_done _ _ _ _ _ I j Hj Jj) as [H |]; [inversion H | assumption]. }
    destruct (li_jumps _ _ _ _ _ I b ltac:(left)) as (j & Hj & Jj & Eb).
    destruct (real_jump n l j (li_ok _ _ _ _ _ I) Hj Jj) as [Hb _].
    destruct (jump_succ n l j Hn (li_ok _ _ _ _ _ I) Hj Jj) as (Es & Hv & Hc & Hlt). rewrite Eb in *.
    assert (Hcb : code b l <> [])
      by (intros E; assert (H : j ∈ code b l) by (apply list_elem_of_filter; auto); rewrite E in H; inversion H).
    cbn [merge_loop]. rewrite (li_succs _ _ _ _ _ I b Hb Hcb), Es. cbn [rbind].
    rewrite (li_preds _ _ _ _ _ I _ Hv Hc). cbn [rbind]. destruct (Z.eqb_spec (preds l (value (op j 0))) 1) as [E1 | E1].
    + cbn [negb]. unfold merge_block. destruct (Z.ltb_spec (value (op j 0)) b); [lia |].
      rewrite (li_succs _ _ _ _ _ I _ Hv Hc). cbn [rbind].
      assert (Ev : forall x, vec_set succs b x = Ok (set_at succs b x))
        by (intros; apply vec_set_Ok; rewrite (li_length _ _ _ _ _ I); auto).
      rewrite Ev. cbn [rbind].
      destruct (find_split n l (value (op j 0)) b Hn (li_ok _ _ _ _ _ I) Hb j Hj Jj Eb eq_refl) as (l1 & l2 & sp).
      pose proof (step_inv n l succs pc b w j l1 l2 Hn I Hb sp E1) as I'.
      pose proof (jumps_merged n l (value (op j 0)) b l1 l2 j sp) as Hjm.
      destruct (IH _ _ _ _ I') as (l3 & E3 & M3 & V3 & D3); [cbn [length] in Hf; case_match; cbn [length]; lia |].
      exists l3. split; [assumption |]. split; [assumption |]. split; [| assumption].
      intros s r. rewrite <- V3. apply (merged_evals n l (value (op j 0)) b Hn (li_ok _ _ _ _ _ I) Hb l1 l2 j sp E1);
        [lia | discriminate].
    + cbn [negb]. apply IH; [| cbn [length] in Hf; lia]. eapply skip_inv; eauto.
Qed.

(** ** Identifying the candidates *)

Lemma count_pred_spec pc t :
  0 <= t < Z.of_nat (length pc) ->
  exists pc', count_pred pc t = Ok pc' /\ length pc' = length pc /\
    forall b p, 0 <= b -> pc !! Z.to_nat b = Some p -> pc' !! Z.to_nat b = Some (p + if t =? b then 1 else 0).
Proof.
  intros Ht. unfold count_pred. destruct (vec_get_in_range pc t Ht) as (x & E). rewrite E. cbn [rbind].
  apply vec_get_Ok in E as [_ E]. exists (set_at pc t (x + 1)).
  split; [apply vec_set_Ok; auto |]. split; [apply length_set_at |]. intros b p Hb Hp.
  rewrite lookup_set_at by assumption. destruct (Z.eqb_spec t b) as [-> |]; case_decide; try lia; f_equal; try lia.
  - rewrite E in Hp. injection Hp as <-. reflexivity.
  - rewrite Hp. f_equal. lia.
Qed.

(** Every target of an instruction counts. *)
Fixpoint count_preds (pc : list Z) (ts : list Z) : result (list Z) :=
  match ts with [] => Ok pc | t :: r => let* pc1 := count_pred pc t in count_preds pc1 r end.

Lemma count_preds_spec pc ts :
  Forall (fun t => 0 <= t < Z.of_nat (length pc)) ts ->
  exists pc', count_preds pc ts = Ok pc' /\ length pc' = length pc /\
    forall b p, 0 <= b -> pc !! Z.to_nat b = Some p ->
      pc' !! Z.to_nat b = Some (p + Z.of_nat (count_occ Z.eq_dec ts b)).
Proof.
  revert pc. induction ts as [| t ts IH]; intros pc Ht; cbn [count_preds].
  - exists pc. split; [reflexivity |]. split; [reflexivity |]. intros b p _ ->. f_equal. cbn. lia.
  - apply Forall_cons in Ht as [Ht Hts]. destruct (count_pred_spec pc t Ht) as (pc1 & E1 & L1 & H1).
    destruct (IH pc1 ltac:(rewrite L1; assumption)) as (pc2 & E2 & L2 & H2). exists pc2.
    rewrite E1. cbn [rbind]. split; [assumption |]. split; [congruence |]. intros b p Hb Hp.
    rewrite (H2 b _ Hb (H1 b p Hb Hp)). f_equal. cbn [count_occ].
    destruct (Z.eq_dec t b), (Z.eqb_spec t b); lia.
Qed.

Lemma preds_cons i l b : preds (i :: l) b = Z.of_nat (count_occ Z.eq_dec (targets i) b) + preds l b.
Proof. unfold preds, edges. cbn [map concat]. rewrite count_occ_app. lia. Qed.

Lemma identify_step i r succs pc w :
  (ir_block i = NOP_BLOCK -> type i = NOP) ->
  identify (i :: r) succs pc w =
  let* succs1 := (if is_jmp i then vec_set succs (ir_block i) (u32 (value (op i 0))) else Ok succs) in
  let* pc1 := count_preds pc (targets i) in
  identify r succs1 pc1 (if is_jmp i then ir_block i :: w else w).
Proof.
  intros Hn. cbn [identify]. unfold is_jmp, targets. destruct (Z.eqb_spec (ir_block i) NOP_BLOCK) as [E |].
  - rewrite (Hn E). reflexivity.
  - destruct (type i); try reflexivity; cbn [count_preds].
    + destruct (vec_set _ _ _); cbn [rbind]; [| reflexivity]. destruct (count_pred _ _); reflexivity.
    + destruct (count_pred _ _); cbn [rbind]; [| reflexivity]. destruct (count_pred _ _); reflexivity.
Qed.

Lemma last_jmp_cons b i l :
  last (filter (fun i => is_jmp i = true) (code b (i :: l))) =
  match last (filter (fun i => is_jmp i = true) (code b l)) with
  | Some j => Some j
  | None => if bool_decide (ir_block i = b) && is_jmp i then Some i else None
  end.
Proof.
  rewrite code_cons. case_bool_decide; [rewrite decide_True by assumption | rewrite decide_False by assumption].
  - destruct (is_jmp i) eqn:E.
    + rewrite filter_cons_True by assumption. rewrite last_cons. reflexivity.
    + rewrite filter_cons_False by congruence. simpl. destruct (last _); reflexivity.
  - simpl. destruct (last _); reflexivity.
Qed.

Lemma identify_spec n l succs pc w :
  (forall i, i ∈ l -> ir_block i <> NOP_BLOCK -> 0 <= ir_block i < n) ->
  (forall i, i ∈ l -> ir_block i = NOP_BLOCK -> type i = NOP) ->
  (forall i t, i ∈ l -> t ∈ targets i -> 0 <= t < n) ->
  Z.of_nat (length succs) = n -> Z.of_nat (length pc) = n ->
  exists succs' pc',
    identify l succs pc w = Ok (succs', pc', rev (map ir_block (filter (fun i => is_jmp i = true) l)) ++ w) /\
    Z.of_nat (length succs') = n /\
    (forall b, 0 <= b < n -> succs' !! Z.to_nat b =
       match last (filter (fun i => is_jmp i = true) (code b l)) with
       | Some i => Some (u32 (value (op i 0))) | None => succs !! Z.to_nat b end) /\
    (forall b p, 0 <= b < n -> pc !! Z.to_nat b = Some p -> pc' !! Z.to_nat b = Some (p + preds l b)).
Proof.
  revert succs pc w. induction l as [| i l IH]; intros succs pc w Hb Hnop Ht Ls Lp.
  { exists succs, pc. split; [reflexivity |]. split; [assumption |]. split; [reflexivity |].
    intros b p _ Hp. rewrite Hp. f_equal. unfold preds. cbn. lia. }
  rewrite identify_step by (apply Hnop; left).
  destruct (count_preds_spec pc (targets i)) as (pc1 & E1 & L1 & H1);
    [apply Forall_forall; intros t Hti; rewrite Lp; apply (Ht i); [left | assumption] |].
  assert (Hsucc : exists succs1,
    (if is_jmp i then vec_set succs (ir_block i) (u32 (value (op i 0))) else Ok succs) = Ok succs1 /\
    length succs1 = length succs /\
    forall b, 0 <= b < n -> succs1 !! Z.to_nat b =
      if bool_decide (ir_block i = b) && is_jmp i then Some (u32 (value (op i 0))) else succs !! Z.to_nat b).
  { destruct (is_jmp i) eqn:Ej; [| exists succs; split; [reflexivity |]; split; [reflexivity |];
      intros; rewrite andb_false_r; reflexivity].
    assert (Hr : ir_block i <> NOP_BLOCK).
    { intros E. unfold is_jmp in Ej. rewrite (Hnop i ltac:(left) E) in Ej. discriminate. }
    pose proof (Hb i ltac:(left) Hr) as Hbi. eexists. split; [apply vec_set_Ok; split; [lia | reflexivity] |].
    split; [apply length_set_at |]. intros b Hbr. rewrite lookup_set_at, andb_true_r by lia.
    case_bool_decide; case_decide; try reflexivity; lia. }
  destruct Hsucc as (succs1 & Es & Ls1 & H1s). rewrite Es, E1. cbn [rbind].
  destruct (IH succs1 pc1 (if is_jmp i then ir_block i :: w else w)) as (succs' & pc' & E & Ls' & Hs & Hp);
    try lia; try (intros x; intros; first [apply Hb | apply Hnop | eapply Ht]; try right; eassumption).
  exists succs', pc'. split.
  { rewrite E. destruct (is_jmp i) eqn:Ej.
    - rewrite (filter_cons_True _ i) by assumption. cbn [map rev]. rewrite <- app_assoc. reflexivity.
    - rewrite (filter_cons_False _ i) by congruence. reflexivity. }
  split; [assumption |]. split.
  - intros b Hbr. rewrite Hs, last_jmp_cons by assumption. destruct (last _); [reflexivity |].
    rewrite H1s by assumption. destruct (_ && _); reflexivity.
  - intros b p Hbr Hpb. rewrite (Hp b _ Hbr (H1 b p (proj1 Hbr) Hpb)), preds_cons. f_equal. lia.
Qed.

(** ** Correctness *)

(** Code as it comes to the transform: the blocks end in one jump, branch,
    return or dispatch, every target has code, control only goes to blocks
    with larger numbers, and only NOPs are in the NOP block. *)
Record forward_code (n : Z) (l : list IRInstruction) : Prop := {
  fc_block : forall i, i ∈ l -> ir_block i <> NOP_BLOCK -> 0 <= ir_block i < n;
  fc_nop : forall i, i ∈ l -> ir_block i = NOP_BLOCK -> type i = NOP;
  fc_target : forall i t, i ∈ l -> t ∈ targets i -> 0 <= t < n /\ code t l <> [];
  fc_terminated : forall b, b <> NOP_BLOCK -> code b l = [] \/ ends_in_control (code b l) = true;
  fc_forward : forall i t, i ∈ l -> t ∈ targets i -> ir_block i < t
}.

Lemma by_block_lookup l p q i k :
  by_block l -> l !! p = Some i -> l !! q = Some k -> ir_block i < ir_block k -> (p < q)%nat.
Proof.
  intros H. revert p q. induction H as [| x l Hs IH Hf]; intros p q Hp Hq Hlt; [discriminate |].
  rewrite Forall_forall in Hf. destruct p as [| p], q as [| q]; cbn in Hp, Hq; [| lia | |].
  - injection Hp as ->. injection Hq as ->. lia.
  - injection Hq as ->. specialize (Hf i (list_elem_of_lookup_2 _ _ _ Hp)). simpl in Hf. lia.
  - specialize (IH p q Hp Hq Hlt). lia.
Qed.

Lemma sorted_mergeable n l l' : n <= NOP_BLOCK -> forward_code n l -> sorts l l' -> mergeable n l'.
Proof.
  intros Hn [Hb Hno Ht Hte Hf] (Hp & Hs & Hc).
  assert (Hin : forall i, i ∈ l' <-> i ∈ l) by (intros i; rewrite Hp; reflexivity).
  split.
  - intros i Hi. apply Hb, Hin. assumption.
  - intros i Hi. apply Hno, Hin. assumption.
  - intros i t Hi Hit. apply Hin in Hi. destruct (Ht i t Hi Hit) as [Hr Hne]. rewrite Hc by lia. auto.
  - intros b Hbn. rewrite Hc by assumption. auto.
  - intros i t Hi. apply Hf, Hin. assumption.
  - intros p q i k Hi Hk Hit. eapply by_block_lookup; try eassumption.
    apply (Hf i); [apply Hin; eauto using list_elem_of_lookup_2 | assumption].
Qed.

Lemma sorted_jumps l :
  by_block l -> (forall b, b <> NOP_BLOCK -> (jumps (code b l) <= 1)%nat) ->
  (forall i, i ∈ l -> is_jmp i = true -> ir_block i <> NOP_BLOCK) ->
  StronglySorted Z.lt (map ir_block (filter (fun i => is_jmp i = true) l)).
Proof.
  intros H. induction H as [| i l Hs IH Hf]; intros Hone Hr; [constructor |].
  assert (Htl : StronglySorted Z.lt (map ir_block (filter (fun i => is_jmp i = true) l))).
  { apply IH; [| intros; apply Hr; [right |]; assumption]. intros b Hb. specialize (Hone b Hb).
    rewrite code_cons in Hone. case_decide; [| assumption]. change (i :: code b l) with ([i] ++ code b l) in Hone.
    rewrite jumps_app in Hone. lia. }
  destruct (is_jmp i) eqn:Ej; [| rewrite filter_cons_False by congruence; assumption].
  rewrite filter_cons_True by assumption. cbn [map]. constructor; [assumption |].
  apply Forall_forall. intros b Hb. apply list_elem_of_fmap in Hb as (k & -> & Hk).
  apply list_elem_of_filter in Hk as [Jk Hk]. rewrite Forall_forall in Hf. specialize (Hf k Hk). simpl in Hf.
  destruct (Z.eq_dec (ir_block i) (ir_block k)) as [E | Hne]; [exfalso | lia].
  specialize (Hone (ir_block i) (Hr i ltac:(left) Ej)). rewrite code_cons, decide_True in Hone by reflexivity.
  unfold jumps in Hone. rewrite filter_cons_True in Hone by assumption. cbn [length] in Hone.
  assert (Hin : k ∈ filter (fun i => is_jmp i = true) (code (ir_block i) l))
    by (apply list_elem_of_filter; split; [assumption | apply list_elem_of_filter; auto]).
  destruct (filter _ (code (ir_block i) l)); [inversion Hin | cbn [length] in Hone; lia].
Qed.

Lemma rev_sorted l : StronglySorted Z.lt l -> StronglySorted (fun a b => b < a) (rev l).
Proof.
  induction 1 as [| x l Hs IH Hf]; [constructor |]. cbn [rev].
  assert (Happ : forall m, StronglySorted (fun a b => b < a) m -> Forall (fun y => x < y) m ->
            StronglySorted (fun a b => b < a) (m ++ [x])).
  { induction 1 as [| y m Hm IHm Hfm]; intros Hx; cbn [app]; [repeat constructor |]. inversion Hx; subst.
    constructor; [auto |]. apply Forall_app. split; [assumption |]. repeat constructor. assumption. }
  apply Happ; [assumption |]. apply Forall_forall. intros y Hy.
  rewrite Forall_forall in Hf. apply Hf. apply list_elem_of_In, in_rev, list_elem_of_In. assumption.
Qed.

Lemma one_jump_per_block n l b : mergeable n l -> b <> NOP_BLOCK -> (jumps (code b l) <= 1)%nat.
Proof.
  intros H Hb. destruct (mg_terminated _ _ H b Hb) as [-> | Hc]; [cbn; lia |].
  apply ends_in_control_spec in Hc as (body & t & -> & _ & Hbody). rewrite jumps_app.
  assert (E : jumps body = 0%nat).
  { unfold jumps. replace (filter _ body) with (@nil IRInstruction); [reflexivity |]. symmetry.
    apply elem_of_nil_inv. intros i Hi. apply list_elem_of_filter in Hi as [Ji Hi].
    rewrite Forall_forall in Hbody. specialize (Hbody i Hi). simpl in Hbody. rewrite (jmp_control i Ji) in Hbody. discriminate. }
  rewrite E. unfold jumps. pose proof (length_filter (fun i => is_jmp i = true) [t]). cbn [length] in *. lia.
Qed.

Lemma identified_inv n l succs pc :
  n <= NOP_BLOCK -> mergeable n l -> by_block l ->
  Z.of_nat (length succs) = n ->
  (forall b, 0 <= b < n -> succs !! Z.to_nat b = Some (succ_of (code b l))) ->
  (forall b, 0 <= b < n -> pc !! Z.to_nat b = Some (preds l b)) ->
  loop_inv n l succs pc (rev (map ir_block (filter (fun i => is_jmp i = true) l))).
Proof.
  intros Hn H Hs Ls Hsu Hpc.
  assert (Hin : forall b, b ∈ rev (map ir_block (filter (fun i => is_jmp i = true) l)) <->
                          exists j, j ∈ l /\ is_jmp j = true /\ ir_block j = b).
  { intros b. rewrite list_elem_of_In, <- in_rev, <- list_elem_of_In, list_elem_of_fmap.
    split; intros (j & Hj); exists j; rewrite list_elem_of_filter in *; intuition. }
  split; try assumption.
  - intros b Hb _. apply vec_get_Ok. auto with lia.
  - intros b Hb _. apply vec_get_Ok. auto with lia.
  - apply rev_sorted, sorted_jumps; [assumption | intros; eapply one_jump_per_block; eassumption |].
    intros i Hi Ji. apply (real_jump n l i H Hi Ji).
  - intros b Hb. apply Hin. assumption.
  - intros j Hj Jj. left. apply Hin. eauto.
Qed.

Lemma merge_blocks_ok {St} (exec : IRInstructionType -> list IROperand -> St -> St) (taken : IROperand -> St -> bool) c fuel :
  0 < _ir_block_count c <= NOP_BLOCK -> _ir_insns c <> [] -> forward_code (_ir_block_count c) (_ir_insns c) ->
  (2 * length (_ir_insns c) <= fuel)%nat ->
  exists l', MergeBlocks_Apply fuel c = Ok (with_insns l' c) /\ mergeable (_ir_block_count c) l' /\
    (forall s r, evals exec taken (_ir_insns c) 0 s r <-> evals exec taken l' 0 s r) /\
    (forall j, j ∈ l' -> is_jmp j = true -> preds l' (value (op j 0)) <> 1).
Proof.
  intros Hc Hne Hfc Hfu. set (n := _ir_block_count c) in *. destruct (SortIR_sorts c Hne) as (l & El & Hsorts).
  { unfold blocks_in_range. apply Forall_forall. intros i Hi. assert (NOP_BLOCK < 2 ^ 31) by reflexivity.
    destruct (Z.eq_dec (ir_block i) NOP_BLOCK) as [-> | Hr]; [split; [discriminate | reflexivity] |].
    pose proof (fc_block _ _ Hfc i Hi Hr). lia. }
  pose proof (sorted_mergeable n _ l ltac:(lia) Hfc Hsorts) as Hm. destruct Hsorts as (Hp & Hby & Hcode).
  unfold MergeBlocks_Apply. rewrite El. cbn [rbind _ir_insns with_insns]. fold n.
  destruct (identify_spec n l (replicate (Z.to_nat n) NO_BLOCK) (replicate (Z.to_nat n) 0) [])
    as (succs & pc & Ei & Ls & Hs & Hpc); try (rewrite length_replicate; lia);
    [apply Hm | apply Hm | intros i t Hi Ht; apply (mg_target _ _ Hm i t Hi Ht) |].
  rewrite Ei, app_nil_r. cbn [rbind].
  destruct (merge_loop_ok exec taken n fuel l succs pc (rev (map ir_block (filter (fun i => is_jmp i = true) l))))
    as (l' & E' & M' & V' & D'); [lia | | |].
  - apply identified_inv; try assumption; [lia | |].
    + intros b Hb. rewrite Hs by assumption. unfold succ_of. destruct (last _); [reflexivity |].
      apply lookup_replicate. split; [reflexivity | lia].
    + intros b Hb. rewrite (Hpc b 0 Hb), Z.add_0_l by (apply lookup_replicate; split; [reflexivity | lia]). reflexivity.
  - rewrite length_rev, length_map. change (length (filter _ l)) with (jumps l).
    pose proof (length_filter (fun i => is_jmp i = true) l). unfold jumps. rewrite (Permutation_length Hp) in *. lia.
  - rewrite E'. cbn [rbind]. exists l'. split; [reflexivity |]. split; [assumption |]. split; [| assumption].
    intros s r. rewrite <- V'. apply (evals_same_code exec taken (fun b => b <> NOP_BLOCK)); [assumption | | discriminate].
    intros b i t _ Hi Ht. apply code_elem in Hi as [Hi _]. destruct (fc_target _ _ Hfc i t Hi Ht). lia.
Qed.

(** On terminated code whose control flow only goes to blocks
    with larger numbers, block merging terminates after at most two steps of
    its work list per instruction, the code it leaves means the same from the
    entry block, and no jump is left that is the only way to its target. *)
Theorem merge_blocks_correct {St} (exec : IRInstructionType -> list IROperand -> St -> St)
    (taken : IROperand -> St -> bool) c fuel :
  0 < _ir_block_count c <= NOP_BLOCK -> _ir_insns c <> [] -> forward_code (_ir_block_count c) (_ir_insns c) ->
  (2 * length (_ir_insns c) <= fuel)%nat ->
  exists c', MergeBlocks_Apply fuel c = Ok c' /\
    (forall s r, evals exec taken (_ir_insns c) 0 s r <-> evals exec taken (_ir_insns c') 0 s r) /\
    (forall j, j ∈ _ir_insns c' -> is_jmp j = true -> preds (_ir_insns c') (value (op j 0)) <> 1).
Proof.
  intros H1 H2 H3 H4. destruct (merge_blocks_ok exec taken c fuel H1 H2 H3 H4) as (l' & E & _ & V & D).
  exists (with_insns l' c). auto.
Qed.

(** Block 0 jumps to block 1, which jumps to block 3; block 2 is empty. *)
Definition merge_example : TranslationContext :=
  mkContext 4 0
    [mkInsn [] 0 TRAP; mkInsn [block_op 1] 0 JMP; mkInsn [] NOP_BLOCK NOP;
     mkInsn [] 3 TRAP; mkInsn [] 3 RET; mkInsn [] 1 TRAP; mkInsn [block_op 3] 1 JMP] 0.

Lemma merge_example_ok : forward_code 4 (_ir_insns merge_example).
Proof.
  split.
  - intros i Hi. repeat (apply elem_of_cons in Hi as [-> | Hi]; [cbn; try lia; congruence |]). inversion Hi.
  - intros i Hi E. repeat (apply elem_of_cons in Hi as [-> | Hi]; [try discriminate E; reflexivity |]). inversion Hi.
  - intros i t Hi Ht. repeat (apply elem_of_cons in Hi as [-> | Hi];
      [repeat (apply elem_of_cons in Ht as [-> | Ht]; [split; [cbn; lia | discriminate] |]); inversion Ht |]). inversion Hi.
  - intros b Hb. assert (b = 0 \/ b = 1 \/ b = 3 \/ (b <> 0 /\ b <> 1 /\ b <> 3)) as [-> | [-> | [-> | (H0 & H1 & H3)]]]
      by lia; try (right; reflexivity).
    left. apply code_nil_iff. intros i Hi. repeat (apply elem_of_cons in Hi as [-> | Hi]; [cbn; congruence |]). inversion Hi.
  - intros i t Hi Ht. repeat (apply elem_of_cons in Hi as [-> | Hi];
      [repeat (apply elem_of_cons in Ht as [-> | Ht]; [reflexivity |]); inversion Ht |]). inversion Hi.
Qed.

Lemma merge_blocks_correct_witness :
  exists c', MergeBlocks_Apply 14 merge_example = Ok c' /\
    code 0 (_ir_insns c') = [mkInsn [] 0 TRAP; mkInsn [] 0 TRAP; mkInsn [] 0 TRAP; mkInsn [] 0 RET] /\
    evals (fun _ _ n => S n) (fun _ _ => true) (_ir_insns c') 0 5%nat (RET, [], 8%nat).
Proof.
  destruct (merge_blocks_correct (fun _ _ n => S n) (fun _ _ => true) merge_example 14)
    as (c' & E & Hev & _); [vm_compute; split; congruence | discriminate | exact merge_example_ok | vm_compute; lia |].
  exists c'. split; [exact E |]. split; [vm_compute in E; injection E as <-; reflexivity |].
  apply Hev, (run_evals _ _ 4). reflexivity.
Defined.
