(* ===== verification/BlockCompiler.v ===== *)
(** * The control-flow half of the block compiler

    The first transforms of BlockCompiler::compile, in the order it applies
    them, and what they achieve together. *)

From Stdlib Require Import ZArith Lia Bool.
From stdpp Require Import base list numbers sets.
From S2P Require Import Prelude.
From S2P Require Import BlockIR.
From S2P Require Import IRSorterCorrect.
From S2P Require Import BlockFlow.
From S2P Require Import ReorderBlocks.
From S2P Require Import ThreadJumps.
From S2P Require Import MergeBlocks.

(** [BlockCompiler::compile] up to the peephole optimiser. *)
Definition compile_control_flow (std_sort : (Z -> Z -> bool) -> list Z -> list Z) (fuel : nat)
    (c : TranslationContext) : result TranslationContext :=
  let* c1 := ReorderBlocks_Apply std_sort fuel c in
  let* c2 := ThreadJumps_Apply fuel c1 in
  let* c3 := DeadBlockElimination_Apply c2 in
  MergeBlocks_Apply fuel c3.

(** A finished translation: its blocks are terminated, reachable and acyclic
    ([flow_ok]), stand together in the buffer, and no target is empty. *)
Record translation_ok (rank : Z -> Z) (c : TranslationContext) : Prop := {
  tr_flow : flow_ok rank c;
  tr_contiguous : contiguous (_ir_insns c);
  tr_targets : forall i t, i ∈ _ir_insns c -> t ∈ targets i -> code t (_ir_insns c) <> [];
  tr_nonempty : _ir_insns c <> []
}.

Lemma reorders_threadable rank c rho c' :
  translation_ok rank c -> reorders c rho c' -> threadable (fun b => b) c'.
Proof.
  intros [ok Hcont Htgt _] R. pose proof (reorders_flow_ok rank c ok rho c' R) as [[Ho Hc Hb Ht] Hte _ Hra _ Hrr].
  split; [assumption | | assumption |].
  - split; try assumption. intros i t Hi Hit. split.
    + rewrite Forall_forall in Ht. specialize (Ht i Hi). rewrite Forall_forall in Ht. apply (Ht t Hit).
    + rewrite (ro_insns _ _ _ R) in *. apply list_elem_of_fmap in Hi as (j & -> & Hj).
      rewrite renamed_targets in Hit by (pose proof (wf_operands _ (fo_wf _ _ ok)) as H; rewrite Forall_forall in H; auto).
      apply list_elem_of_fmap in Hit as (t0 & -> & Ht0).
      rewrite (code_renamed rho (_ir_insns c) (reachable (_ir_insns c))).
      * specialize (Htgt j t0 Hj Ht0). destruct (code t0 (_ir_insns c)); [contradiction | discriminate].
      * apply R.
      * apply ok.
      * eapply target_reachable; eassumption.
  - rewrite (ro_insns _ _ _ R). intros i j k x y z Hijk Hx Hy Hz E.
    apply list_lookup_fmap_Some in Hx as (x0 & -> & Hx). apply list_lookup_fmap_Some in Hy as (y0 & -> & Hy).
    apply list_lookup_fmap_Some in Hz as (z0 & -> & Hz). rewrite !renamed_block in *. f_equal.
    apply (Hcont i j k x0 y0 z0); try assumption.
    apply (ro_inj _ _ _ R); [apply ok | apply ok | assumption]; eauto using list_elem_of_lookup_2.
Qed.

Lemma flows_wf c rank :
  0 < _ir_block_count c <= NOP_BLOCK -> flows (_ir_block_count c) rank (_ir_insns c) -> ctx_wf c.
Proof.
  intros Hc [Ho Hb Ht _ _]. split; try assumption. apply Forall_forall. intros i Hi. apply Forall_forall.
  intros t Hit. apply (Ht i t Hi Hit).
Qed.

Lemma eliminates_forward n l live l' :
  n <= NOP_BLOCK -> flows n (fun b => b) l -> eliminates l live l' -> forward_code n l'.
Proof.
  intros Hn [_ Hb Ht Hte Hra] H. rewrite Forall_forall in Hb.
  assert (Hnop : forall i t, i ∈ l' -> t ∈ targets i -> i ∈ l).
  { intros i t Hi Hit. destruct (el_elem _ _ _ H i Hi) as [| ->]; [assumption | inversion Hit]. }
  split.
  - intros i Hi Hr. destruct (el_elem _ _ _ H i Hi) as [Hl | ->]; [apply (Hb i Hl) | contradiction].
  - intros i Hi Hr. destruct (el_elem _ _ _ H i Hi) as [Hl | ->]; [| reflexivity].
    specialize (Hb i Hl). simpl in Hb. lia.
  - intros i t Hi Hit. specialize (Hnop i t Hi Hit). destruct (Ht i t Hnop Hit) as [Hr Hc]. split; [assumption |].
    destruct (el_target _ _ _ H i t Hnop Hit) as [_ Hm].
    rewrite (el_code _ _ _ H), bool_decide_true by (assumption || lia). assumption.
  - intros b Hbn. rewrite (el_code _ _ _ H) by assumption. case_bool_decide; auto.
  - intros i t Hi Hit. apply (Hra i t); [eapply Hnop | assumption]; eassumption.
Qed.

(** Enough for every loop of the transforms. *)
Definition flow_fuel (c : TranslationContext) : Z :=
  2 * _ir_block_count c * _ir_block_count c + 2 * ctx_count c + 1.

(** C1. On a finished translation, reordering, jump
    threading, dead block elimination and merging together succeed, whatever
    order std::sort gives blocks of equal depth: no vector is indexed out of
    range, no null pointer followed, no assertion failed, and every loop ends.
    The code they leave reaches the same exits with the same state from the
    entry block, control only goes forward in it, and no jump is left that is
    the only way to its target. *)
Theorem compile_control_flow_correct {St} (exec : IRInstructionType -> list IROperand -> St -> St)
    (taken : IROperand -> St -> bool) std_sort rank c fuel :
  std_sort_ok std_sort -> translation_ok rank c -> flow_fuel c <= Z.of_nat fuel ->
  exists c', compile_control_flow std_sort fuel c = Ok c' /\
    (forall s r, evals exec taken (_ir_insns c) 0 s r <-> evals exec taken (_ir_insns c') 0 s r) /\
    (forall i t, i ∈ _ir_insns c' -> t ∈ targets i -> ir_block i < t) /\
    (forall j, j ∈ _ir_insns c' -> is_jmp j = true -> preds (_ir_insns c') (value (op j 0)) <> 1).
Proof.
  intros Hsort Hok Hf. pose proof Hok as [ok _ _ Hne]. unfold flow_fuel, ctx_count in Hf.
  pose proof (wf_count _ (fo_wf _ _ ok)) as Hc.
  destruct (reorder_renames rank c ok std_sort fuel Hsort ltac:(lia)) as (rho & c1 & E1 & R).
  pose proof (reorders_threadable rank c rho c1 Hok R) as T1. pose proof (ro_count _ _ _ R) as Hc1.
  destruct (thread_jumps_ok exec taken (fun b => b) c1 fuel T1 ltac:(nia)) as (l2 & E2 & F2 & B2 & V2).
  pose proof (flows_wf (with_insns l2 c1) (fun b => b) ltac:(cbn; lia) F2) as W2.
  destruct (dead_block_elimination_ok _ W2) as (live & l3 & E3 & D3 & N3). cbn [_ir_insns with_insns] in D3.
  assert (L3 : length l3 = length (_ir_insns c)).
  { rewrite (el_length _ _ _ D3), <- (length_map ir_block l2), B2, length_map, (ro_insns _ _ _ R). apply length_map. }
  destruct (merge_blocks_ok exec taken (with_insns l3 (with_insns l2 c1)) fuel) as (l4 & E4 & M4 & V4 & D4).
  - cbn. lia.
  - cbn. destruct l3; [| discriminate]. destruct (_ir_insns c); [contradiction | discriminate].
  - cbn. apply (eliminates_forward _ l2 live); [lia | assumption | assumption].
  - cbn [_ir_insns with_insns]. lia.
  - exists (with_insns l4 (with_insns l3 (with_insns l2 c1))). unfold compile_control_flow.
    rewrite E1. cbn [rbind]. rewrite E2. cbn [rbind]. rewrite E3. cbn [rbind]. split; [assumption |].
    split; [| split; [apply M4 | assumption]]. intros s r. cbn [_ir_insns with_insns].
    rewrite (reorders_evals rank c ok exec taken rho c1 s r R), (V2 0 s r).
    rewrite (eliminates_evals exec taken l2 live l3 s r D3 N3). apply V4.
Qed.

(** [translation_ok] by computation. *)
Definition translation_check (rank : Z -> Z) (c : TranslationContext) : bool :=
  flow_check rank c && contiguous_check (_ir_insns c) &&
  forallb (fun i => forallb (fun t => negb (bool_decide (code t (_ir_insns c) = []))) (targets i)) (_ir_insns c) &&
  negb (bool_decide (_ir_insns c = [])).

Lemma translation_check_ok rank c : translation_check rank c = true -> translation_ok rank c.
Proof.
  unfold translation_check. rewrite !andb_true_iff, forallb_elem, negb_true_iff, bool_decide_eq_false.
  intros (((H1 & H2) & H3) & H4). split; [apply flow_check_ok | apply contiguous_check_ok | |]; try assumption.
  intros i t Hi Ht. specialize (H3 i Hi). rewrite forallb_elem in H3. specialize (H3 t Ht).
  rewrite negb_true_iff, bool_decide_eq_false in H3. assumption.
Qed.

Lemma reorder_example_translation : translation_ok reorder_example_rank reorder_example.
Proof. apply translation_check_ok. vm_compute. reflexivity. Qed.

Lemma compile_control_flow_correct_witness :
  exists c', compile_control_flow insertion_sort 27 reorder_example = Ok c' /\
    map ir_block (_ir_insns c') = [0; 1; 1; 2] /\
    evals (fun _ _ n => S n) (fun _ _ => false) (_ir_insns c') 0 5%nat (RET, [], 6%nat).
Proof.
  destruct (compile_control_flow_correct (fun _ _ n => S n) (fun _ _ => false) insertion_sort
              reorder_example_rank reorder_example 27 insertion_sort_ok reorder_example_translation)
    as (c' & E & Hev & _); [vm_compute; congruence |].
  exists c'. split; [exact E |]. split; [vm_compute in E; injection E as <-; reflexivity |].
  apply Hev, (run_evals _ _ 3). reflexivity.
Defined.

(** Blocks 0 and 2 are connected; block 1 has code but nothing goes there. *)
Definition unreachable_example : TranslationContext :=
  mkContext 3 0
    [mkInsn [block_op 2] 0 JMP; mkInsn [] 1 TRAP; mkInsn [] 1 RET; mkInsn [] 2 RET] 0.

(** Code that nothing goes to is put in the NOP block by the
    reordering, as it is; jump threading then indexes its vectors with the
    number of the NOP block, which is undefined. *)
Theorem unreachable_code_is_undefined :
  (exists c', ReorderBlocks_Apply insertion_sort 30 unreachable_example = Ok c' /\
     mkInsn [] NOP_BLOCK TRAP ∈ _ir_insns c') /\
  compile_control_flow insertion_sort 30 unreachable_example = Err UndefinedBehaviour.
Proof.
  split; [| vm_compute; reflexivity]. eexists. split; [vm_compute; reflexivity |].
  cbn [_ir_insns]. apply list_elem_of_In. vm_compute. tauto.
Qed.
