(* ===== verification/ValueFlow.v ===== *)
(** * Virtual registers

    Which virtual registers an instruction reads and writes, by the operand
    format of its descriptor, and the interface of a machine that agrees with
    the descriptors: the value transforms of the block compiler rely on the
    descriptors only.  A second interface is that of a machine that treats
    registers alike: what an instruction does depends on the values of the
    registers it reads, not on which registers they are; renumbering and
    register allocation rely on it. *)

From Stdlib Require Import ZArith Lia Bool Ascii String.
From stdpp Require Import base list numbers sets.
From S2P Require Import Prelude.
From S2P Require Import BlockIR.
From S2P Require Import BlockFlow.
#[local] Open Scope Z_scope.
#[local] Open Scope list_scope.

Definition is_read (c : ascii) : bool := Ascii.eqb c "I" || Ascii.eqb c "B".
Definition is_write (c : ascii) : bool := Ascii.eqb c "O" || Ascii.eqb c "B".

Definition get_vreg_idx (o : IROperand) : Z := u32 (value o).

(** The virtual registers in the operands from position [k] on whose format
    letter satisfies [p]. *)
Fixpoint vregs_of (p : ascii -> bool) (t : IRInstructionType) (k : nat) (ops : list IROperand) : list Z :=
  match ops with
  | [] => []
  | o :: r => (if is_vreg o && p (format_at t k) then [get_vreg_idx o] else []) ++ vregs_of p t (S k) r
  end.

Definition reads (t : IRInstructionType) (ops : list IROperand) : list Z := vregs_of is_read t 0 ops.
Definition writes (t : IRInstructionType) (ops : list IROperand) : list Z := vregs_of is_write t 0 ops.

Lemma vregs_of_elem p t k ops x :
  x ∈ vregs_of p t k ops <->
  exists j o, ops !! j = Some o /\ is_vreg o = true /\ p (format_at t (k + j)) = true /\ x = get_vreg_idx o.
Proof.
  revert k. induction ops as [| o ops IH]; intros k; cbn [vregs_of].
  - split; [intros H; inversion H | intros (j & o & H & _); discriminate].
  - rewrite elem_of_app, IH. split.
    + intros [H | (j & o' & H1 & H2 & H3 & H4)].
      * destruct (is_vreg o) eqn:Ev, (p (format_at t k)) eqn:Ep; cbn in H; try solve [inversion H].
        apply list_elem_of_singleton in H. exists 0%nat, o. rewrite Nat.add_0_r. auto.
      * exists (S j), o'. rewrite <- Nat.add_succ_comm. auto.
    + intros ([| j] & o' & H1 & H2 & H3 & H4).
      * injection H1 as <-. rewrite Nat.add_0_r in H3. left. rewrite H2, H3. cbn. subst. left.
      * right. exists j, o'. rewrite Nat.add_succ_comm. auto.
Qed.

(** The letters end after six. *)
Lemma format_at_end t k : (6 <= k)%nat -> format_at t k = Ascii.zero.
Proof. intros H. do 6 (destruct k as [| k]; [lia |]). destruct t; reflexivity. Qed.

Definition write_positions (t : IRInstructionType) : list nat :=
  filter (fun k => is_write (format_at t k) = true) (seq 0 6).

(** An instruction without side effects has at most one output. *)
Lemma single_output t j k :
  has_side_effects (descriptor t) = false ->
  is_write (format_at t j) = true -> is_write (format_at t k) = true -> j = k.
Proof.
  intros Hs Hj Hk.
  assert (Hin : forall m, is_write (format_at t m) = true -> m ∈ write_positions t).
  { intros m Hm. apply list_elem_of_filter. split; [assumption |]. apply elem_of_seq.
    destruct (Nat.lt_ge_cases m 6) as [H | H]; [lia |]. rewrite format_at_end in Hm by assumption. discriminate. }
  apply Hin in Hj, Hk.
  assert (Hl : (List.length (write_positions t) <= 1)%nat) by (destruct t; try discriminate Hs; vm_compute; lia).
  destruct (write_positions t) as [| x [| y l]]; cbn in Hl; [inversion Hj | | lia].
  apply list_elem_of_singleton in Hj, Hk. congruence.
Qed.

Lemma single_write t ops x y :
  has_side_effects (descriptor t) = false -> x ∈ writes t ops -> y ∈ writes t ops -> x = y.
Proof.
  intros Hs Hx Hy. apply vregs_of_elem in Hx as (j & o & H1 & _ & H2 & ->).
  apply vregs_of_elem in Hy as (j' & o' & H1' & _ & H2' & ->).
  assert (j = j') as <- by exact (single_output t j j' Hs H2 H2'). congruence.
Qed.

(** A machine state: the virtual registers and the rest. *)
Definition vstate (R : Type) : Type := (Z -> Z) * R.

(** A machine that does with the virtual registers what the descriptors say. *)
Class RespectsDescriptors {R : Type} (exec : IRInstructionType -> list IROperand -> vstate R -> vstate R)
    (taken : IROperand -> vstate R -> bool) : Prop := {
  exec_reads : forall t ops v v' r,
    (forall x, x ∈ reads t ops -> v x = v' x) ->
    snd (exec t ops (v, r)) = snd (exec t ops (v', r)) /\
    forall x, x ∈ writes t ops -> fst (exec t ops (v, r)) x = fst (exec t ops (v', r)) x;
  exec_writes : forall t ops s x, ~ x ∈ writes t ops -> fst (exec t ops s) x = fst s x;
  exec_pure : forall t ops s, has_side_effects (descriptor t) = false -> snd (exec t ops s) = snd s;
  taken_reads : forall o v v' r,
    (is_vreg o = true -> v (get_vreg_idx o) = v' (get_vreg_idx o)) -> taken o (v, r) = taken o (v', r)
}.

(** ** A small machine

    Moves, additions and subtractions on virtual registers; loads and register
    writes are recorded in a log; other instructions clear their outputs. *)
Definition operand_value (v : Z -> Z) (o : IROperand) : Z := if is_vreg o then v (get_vreg_idx o) else value o.
Definition set_vreg (o : IROperand) (x : Z) (v : Z -> Z) : Z -> Z :=
  if is_vreg o then fun y => if y =? get_vreg_idx o then x else v y else v.

Definition clear_outputs (t : IRInstructionType) (ops : list IROperand) (v : Z -> Z) : Z -> Z :=
  fun y => if bool_decide (y ∈ writes t ops) then 0 else v y.

Definition small_exec (t : IRInstructionType) (ops : list IROperand) (s : vstate (list Z)) : vstate (list Z) :=
  let '(v, r) := s in
  match t, ops with
  | MOV, [a; b] => (set_vreg b (operand_value v a) v, r)
  | ADD, [a; b] => (set_vreg b (u64 (operand_value v b + operand_value v a)) v, r)
  | SUB, [a; b] => (set_vreg b (u64 (operand_value v b - operand_value v a)) v, r)
  | WRITE_REG, [a; b] => (v, operand_value v b :: operand_value v a :: r)
  | READ_MEM, [_; a; b; d] => (set_vreg d 0 v, operand_value v a :: r)
  | _, _ => (clear_outputs t ops v, r)
  end.
Definition small_taken (o : IROperand) (s : vstate (list Z)) : bool := to_bool (operand_value (fst s) o).

Lemma operand_value_reads t ops k o v v' :
  ops !! k = Some o -> is_read (format_at t k) = true ->
  (forall x, x ∈ reads t ops -> v x = v' x) -> operand_value v o = operand_value v' o.
Proof.
  intros Ho Hr H. unfold operand_value. destruct (is_vreg o) eqn:E; [| reflexivity].
  apply H, vregs_of_elem. exists k, o. auto.
Qed.

Lemma set_vreg_other t ops k o x v y :
  ops !! k = Some o -> is_write (format_at t k) = true -> ~ y ∈ writes t ops -> set_vreg o x v y = v y.
Proof.
  intros Ho Hw H. unfold set_vreg. destruct (is_vreg o) eqn:E; [| reflexivity].
  destruct (Z.eqb_spec y (get_vreg_idx o)) as [-> |]; [| reflexivity].
  exfalso. apply H, vregs_of_elem. exists k, o. auto.
Qed.

Lemma set_vreg_same o x v v' y :
  is_vreg o = true -> y = get_vreg_idx o -> set_vreg o x v y = set_vreg o x v' y.
Proof. intros E ->. unfold set_vreg. rewrite E, Z.eqb_refl. reflexivity. Qed.

(** The only register written is the one of operand [k]. *)
Lemma set_vreg_written t ops k o x v v' y :
  ops !! k = Some o -> (forall j, is_write (format_at t j) = true -> j = k) ->
  y ∈ writes t ops -> set_vreg o x v y = set_vreg o x v' y.
Proof.
  intros Ho Hk Hy. apply vregs_of_elem in Hy as (j & o' & H1 & H2 & H3 & ->).
  rewrite (Hk j H3), Ho in H1. injection H1 as <-. apply set_vreg_same; auto.
Qed.

(** The format of the type has its only output where the goal says. *)
Ltac write_position :=
  let j := fresh "j" in let H := fresh "H" in
  intros j H; destruct (Nat.lt_ge_cases j 6);
  [ do 6 (destruct j as [| j]; [first [reflexivity | discriminate H] |]); lia
  | rewrite format_at_end in H by assumption; discriminate H ].

#[export] Instance small_respects : RespectsDescriptors small_exec small_taken.
Proof.
  assert (Hclear : forall t ops v v' x, x ∈ writes t ops -> clear_outputs t ops v x = clear_outputs t ops v' x)
    by (intros; unfold clear_outputs; rewrite bool_decide_true by assumption; reflexivity).
  assert (Hkeep : forall t ops v x, ~ x ∈ writes t ops -> clear_outputs t ops v x = v x)
    by (intros; unfold clear_outputs; rewrite bool_decide_false by assumption; reflexivity).
  split.
  - intros t ops v v' r H. unfold small_exec. destruct t; try (split; [reflexivity | apply Hclear]);
      destruct ops as [| a [| b [| c [| d [| ]]]]]; try (split; [reflexivity | apply Hclear]); cbn [fst snd].
    + split; [reflexivity |]. intros x Hx. rewrite (operand_value_reads MOV [a; b] 0 a v v') by auto.
      apply (set_vreg_written MOV [a; b] 1); [reflexivity | write_position | assumption].
    + split; [reflexivity |]. intros x Hx. rewrite (operand_value_reads ADD [a; b] 0 a v v') by auto.
      rewrite (operand_value_reads ADD [a; b] 1 b v v') by auto.
      apply (set_vreg_written ADD [a; b] 1); [reflexivity | write_position | assumption].
    + split; [reflexivity |]. intros x Hx. rewrite (operand_value_reads SUB [a; b] 0 a v v') by auto.
      rewrite (operand_value_reads SUB [a; b] 1 b v v') by auto.
      apply (set_vreg_written SUB [a; b] 1); [reflexivity | write_position | assumption].
    + rewrite (operand_value_reads WRITE_REG [a; b] 0 a v v') by auto.
      rewrite (operand_value_reads WRITE_REG [a; b] 1 b v v') by auto. split; [reflexivity |].
      intros x Hx. apply vregs_of_elem in Hx as (j & o & _ & _ & Hw & _). exfalso.
      destruct (Nat.lt_ge_cases j 6); [| rewrite format_at_end in Hw by assumption; discriminate Hw].
      do 6 (destruct j as [| j]; [discriminate Hw |]). lia.
    + rewrite (operand_value_reads READ_MEM [a; b; c; d] 1 b v v') by auto. split; [reflexivity |].
      intros x Hx. apply (set_vreg_written READ_MEM [a; b; c; d] 3); [reflexivity | write_position | assumption].
  - intros t ops [v r] x Hx. unfold small_exec. destruct t; try (apply Hkeep; assumption);
      destruct ops as [| a [| b [| c [| d [| ]]]]]; try (apply Hkeep; assumption); cbn [fst snd].
    + apply (set_vreg_other MOV [a; b] 1); auto.
    + apply (set_vreg_other ADD [a; b] 1); auto.
    + apply (set_vreg_other SUB [a; b] 1); auto.
    + reflexivity.
    + apply (set_vreg_other READ_MEM [a; b; c; d] 3); auto.
  - intros t ops [v r] H. unfold small_exec. destruct t; try discriminate H; try reflexivity;
      destruct ops as [| a [| b [| c [| d [| ]]]]]; reflexivity.
  - intros o v v' r H. unfold small_taken, operand_value. cbn [fst]. destruct (is_vreg o); [rewrite H |]; reflexivity.
Qed.

(** [o'] names register [f x] where [o] names register [x]. *)
Definition renamed (f : Z -> Z) (o o' : IROperand) : Prop :=
  if is_vreg o then op_type o' = VREG /\ size o' = size o /\ get_vreg_idx o' = f (get_vreg_idx o) else o' = o.

Abbreviation renamed_ops f := (Forall2 (renamed f)).

Class RegisterAgnostic {R : Type} (exec : IRInstructionType -> list IROperand -> vstate R -> vstate R)
    (taken : IROperand -> vstate R -> bool) : Prop := {
  exec_rename : forall t ops ops' f v v' r,
    renamed_ops f ops ops' -> (forall x, x ∈ reads t ops -> v x = v' (f x)) ->
    snd (exec t ops (v, r)) = snd (exec t ops' (v', r)) /\
    forall x, x ∈ writes t ops -> fst (exec t ops (v, r)) x = fst (exec t ops' (v', r)) (f x);
  taken_rename : forall o o' f v v' r,
    renamed f o o' -> (is_vreg o = true -> v (get_vreg_idx o) = v' (f (get_vreg_idx o))) ->
    taken o (v, r) = taken o' (v', r)
}.

Lemma renamed_is_vreg f o o' : renamed f o o' -> is_vreg o' = is_vreg o.
Proof.
  unfold renamed. destruct (is_vreg o) eqn:E; [intros (H & _); unfold is_vreg; rewrite H; reflexivity | intros ->; assumption].
Qed.

Lemma renamed_idx f o o' : renamed f o o' -> is_vreg o = true -> get_vreg_idx o' = f (get_vreg_idx o).
Proof. unfold renamed. intros H E. rewrite E in H. apply H. Qed.

Lemma renamed_plain f o o' : renamed f o o' -> is_vreg o = false -> o' = o.
Proof. unfold renamed. intros H E. rewrite E in H. assumption. Qed.

Lemma vregs_of_renamed p t f ops ops' k :
  renamed_ops f ops ops' -> vregs_of p t k ops' = map f (vregs_of p t k ops).
Proof.
  intros H. revert k. induction H as [| o o' ops ops' Ho H IH]; intros k; [reflexivity |]. cbn [map vregs_of].
  rewrite (renamed_is_vreg f o o' Ho), map_app, IH. f_equal. destruct (is_vreg o) eqn:E; [| reflexivity].
  destruct (p (format_at t k)); [| reflexivity]. cbn. rewrite (renamed_idx f o o' Ho E). reflexivity.
Qed.

Lemma op_renamed f i i' k : renamed_ops f (operands i) (operands i') -> renamed f (op i k) (op i' k).
Proof.
  intros H. unfold op. generalize (operands i), (operands i'), H. clear. intros l l' H. revert k.
  induction H as [| o o' l l' Ho H IH]; intros [| k]; cbn; auto; unfold renamed; cbn; reflexivity.
Qed.

(** No instruction has two outputs. *)
Lemma one_output t j k : is_write (format_at t j) = true -> is_write (format_at t k) = true -> j = k.
Proof.
  intros Hj Hk.
  assert (Hin : forall m, is_write (format_at t m) = true -> m ∈ write_positions t).
  { intros m Hm. apply list_elem_of_filter. split; [assumption |]. apply elem_of_seq.
    destruct (Nat.lt_ge_cases m 6) as [H | H]; [lia |]. rewrite format_at_end in Hm by assumption. discriminate. }
  apply Hin in Hj, Hk.
  assert (Hl : (List.length (write_positions t) <= 1)%nat) by (destruct t; vm_compute; lia).
  destruct (write_positions t) as [| x [| y l]]; cbn in Hl; [inversion Hj | | lia].
  apply list_elem_of_singleton in Hj, Hk. congruence.
Qed.

Lemma vregs_mentioned p t ops x : x ∈ vregs_of p t 0 ops -> exists o, o ∈ ops /\ is_vreg o = true /\ get_vreg_idx o = x.
Proof.
  intros H. apply vregs_of_elem in H as (j & o & H1 & H2 & _ & ->). exists o.
  split; [eapply list_elem_of_lookup_2; eassumption | auto].
Qed.

(** ** The small machine treats registers alike *)

Lemma operand_value_renamed t ops k o o' f v v' :
  renamed f o o' -> ops !! k = Some o -> is_read (format_at t k) = true ->
  (forall x, x ∈ reads t ops -> v x = v' (f x)) -> operand_value v o = operand_value v' o'.
Proof.
  intros Hf Ho Hr H. unfold operand_value. rewrite (renamed_is_vreg f o o' Hf). destruct (is_vreg o) eqn:E.
  - rewrite (renamed_idx f o o' Hf E). apply H, vregs_of_elem. exists k, o. auto.
  - rewrite (renamed_plain f o o' Hf E). reflexivity.
Qed.

Lemma set_vreg_renamed t ops k o o' f a v v' y :
  renamed f o o' -> ops !! k = Some o -> is_write (format_at t k) = true ->
  y ∈ writes t ops -> set_vreg o a v y = set_vreg o' a v' (f y).
Proof.
  intros Hf Ho Hk Hy. apply vregs_of_elem in Hy as (j & o1 & H1 & H2 & H3 & ->).
  assert (j = k) as -> by exact (one_output t j k H3 Hk). rewrite Ho in H1. injection H1 as <-.
  unfold set_vreg. rewrite (renamed_is_vreg f o o' Hf), H2, (renamed_idx f o o' Hf H2), !Z.eqb_refl. reflexivity.
Qed.

Lemma clear_outputs_renamed t ops ops' f v v' x :
  renamed_ops f ops ops' -> x ∈ writes t ops -> clear_outputs t ops v x = clear_outputs t ops' v' (f x).
Proof.
  intros H Hx. unfold clear_outputs. rewrite !bool_decide_true; [reflexivity | | assumption].
  unfold writes. rewrite (vregs_of_renamed _ _ _ _ _ _ H). apply list_elem_of_In, in_map, list_elem_of_In. assumption.
Qed.

Ltac forall2_inv :=
  repeat match goal with
  | H : Forall2 _ (_ :: _) _ |- _ => apply Forall2_cons_inv_l in H as (? & ? & ? & H & ->)
  | H : Forall2 _ [] _ |- _ => apply Forall2_nil_inv_l in H as ->
  end.

#[export] Instance small_agnostic : RegisterAgnostic small_exec small_taken.
Proof.
  split.
  - intros t ops ops' f v v' r Hf H. unfold small_exec.
    pose proof (fun y => clear_outputs_renamed t ops ops' f v v' y Hf) as Hclr.
    destruct t; try (split; [reflexivity | exact Hclr]);
      destruct ops as [| a [| b [| c [| d [| ]]]]]; forall2_inv; try (split; [reflexivity | exact Hclr]); cbn [fst snd].
    + split; [reflexivity |]. intros y Hy. erewrite (operand_value_renamed MOV [a; b] 0 a) by eauto.
      eapply (set_vreg_renamed MOV [a; b] 1); eauto.
    + split; [reflexivity |]. intros y Hy. erewrite (operand_value_renamed ADD [a; b] 0 a) by eauto.
      erewrite (operand_value_renamed ADD [a; b] 1 b) by eauto. eapply (set_vreg_renamed ADD [a; b] 1); eauto.
    + split; [reflexivity |]. intros y Hy. erewrite (operand_value_renamed SUB [a; b] 0 a) by eauto.
      erewrite (operand_value_renamed SUB [a; b] 1 b) by eauto. eapply (set_vreg_renamed SUB [a; b] 1); eauto.
    + erewrite (operand_value_renamed WRITE_REG [a; b] 0 a) by eauto.
      erewrite (operand_value_renamed WRITE_REG [a; b] 1 b) by eauto. split; [reflexivity |].
      intros y Hy. apply vregs_of_elem in Hy as (j & o & _ & _ & Hw & _). exfalso.
      destruct (Nat.lt_ge_cases j 6); [| rewrite format_at_end in Hw by assumption; discriminate Hw].
      do 6 (destruct j as [| j]; [discriminate Hw |]). lia.
    + erewrite (operand_value_renamed READ_MEM [a; b; c; d] 1 b) by eauto. split; [reflexivity |].
      intros y Hy. eapply (set_vreg_renamed READ_MEM [a; b; c; d] 3); eauto.
  - intros o o' f v v' r Hf H. unfold small_taken, operand_value. cbn [fst]. rewrite (renamed_is_vreg f o o' Hf).
    destruct (is_vreg o) eqn:Ev; [rewrite (renamed_idx f o o' Hf Ev), H by auto | rewrite (renamed_plain f o o' Hf Ev)]; reflexivity.
Qed.
