(* ===== verification/ValueRenumbering.v ===== *)
(** * Value renumbering

    ValueRenumberingTransform.cpp: the virtual registers are renumbered in the
    order in which the code mentions them, without gaps. *)

From Stdlib Require Import ZArith Lia Bool Ascii.
From stdpp Require Import base list numbers sets.
From S2P Require Import Prelude.
From S2P Require Import BlockIR.
From S2P Require Import IRSorterCorrect.
From S2P Require Import BlockFlow.
From S2P Require Import ValueFlow.

(** ** The transform *)

Definition invalid_renumbering : Z := 0xffffffff.

(** [renumberings] and [next_reg]. *)
Definition renumber_state : Type := list Z * Z.

Definition renumber_operand (op : IROperand) (st : renumber_state) : result (IROperand * renumber_state) :=
  if is_vreg op then
    let '(renumberings, next_reg) := st in
    let* n := vec_get renumberings (value op) in
    let* (renumberings1, next_reg1) :=
      if n =? invalid_renumbering then
        let* r := vec_set renumberings (value op) next_reg in Ok (r, u32 (next_reg + 1))
      else Ok (renumberings, next_reg) in
    let* n1 := vec_get renumberings1 (value op) in
    Ok (with_value n1 op, (renumberings1, next_reg1))
  else Ok (op, st).

Fixpoint renumber_operands (ops : list IROperand) (st : renumber_state) : result (list IROperand * renumber_state) :=
  match ops with
  | [] => Ok ([], st)
  | op :: r =>
      let* (op1, st1) := renumber_operand op st in
      let* (r1, st2) := renumber_operands r st1 in
      Ok (op1 :: r1, st2)
  end.

Fixpoint renumber_insns (l : list IRInstruction) (st : renumber_state) : result (list IRInstruction * renumber_state) :=
  match l with
  | [] => Ok ([], st)
  | insn :: r =>
      let* (ops, st1) := renumber_operands (operands insn) st in
      let* (r1, st2) := renumber_insns r st1 in
      Ok (mkInsn ops (ir_block insn) (type insn) :: r1, st2)
  end.

Definition ValueRenumbering_Apply (c : TranslationContext) : result TranslationContext :=
  let* (l, st) := renumber_insns (_ir_insns c) (replicate (Z.to_nat (_ir_reg_count c)) invalid_renumbering, 0) in
  Ok (recount_regs (snd st) (with_insns l c)).

(** ** The numbers given out *)

Definition unset (x : Z) : bool := x =? invalid_renumbering.
Definition count_set (r : list Z) : nat := List.length (List.filter (fun x => negb (unset x)) r).

Lemma count_set_insert r i x :
  r !! i = Some invalid_renumbering -> unset x = false -> count_set (<[i := x]> r) = S (count_set r).
Proof.
  revert i. unfold count_set. induction r as [| a r IH]; intros [| i] Hi Hx; try discriminate; cbn [List.filter insert list_insert].
  - injection Hi as ->. cbn. rewrite Hx. reflexivity.
  - cbn in Hi. specialize (IH i Hi Hx). cbn [insert] in IH.
    destruct (negb (unset a)); cbn [List.length]; [f_equal |]; exact IH.
Qed.

Lemma count_set_bound r i : r !! i = Some invalid_renumbering -> (count_set r < length r)%nat.
Proof.
  revert i. unfold count_set. induction r as [| a r IH]; intros [| i] Hi; try discriminate.
  - injection Hi as ->. cbn. pose proof (filter_length_le (fun x => negb (unset x)) r). lia.
  - cbn in Hi. specialize (IH i Hi). cbn. destruct (negb (unset a)); cbn; lia.
Qed.

(** Every register that has a number has one of its own below [next_reg]. *)
Record numbering (n : nat) (st : renumber_state) : Prop := {
  nu_length : length (fst st) = n;
  nu_next : snd st = Z.of_nat (count_set (fst st));
  nu_below : forall x a, fst st !! x = Some a -> unset a = false -> 0 <= a < snd st;
  nu_inj : forall x y a, fst st !! x = Some a -> fst st !! y = Some a -> unset a = false -> x = y
}.

(** Numbers once given stay. *)
Definition extends (st st' : renumber_state) : Prop :=
  forall x a, fst st !! x = Some a -> unset a = false -> fst st' !! x = Some a.

(** The operand as it comes out, with the final numbers. *)
Definition numbered (st : renumber_state) (o o' : IROperand) : Prop :=
  if is_vreg o then exists a, fst st !! Z.to_nat (value o) = Some a /\ unset a = false /\ o' = with_value a o else o' = o.

Lemma extends_trans st1 st2 st3 : extends st1 st2 -> extends st2 st3 -> extends st1 st3.
Proof. intros H1 H2 x a Hx Ha. apply H2; [apply H1 |]; assumption. Qed.

Lemma numbered_extends st st' o o' : extends st st' -> numbered st o o' -> numbered st' o o'.
Proof. unfold numbered. destruct (is_vreg o); [| auto]. intros H (a & Ha & Hu & ->). exists a. auto. Qed.

Lemma renumber_operand_spec n o st :
  Z.of_nat n <= invalid_renumbering -> numbering n st -> (is_vreg o = true -> 0 <= value o < Z.of_nat n) ->
  exists o' st', renumber_operand o st = Ok (o', st') /\ numbering n st' /\ extends st st' /\ numbered st' o o'.
Proof.
  intros Hn [Hl Hx Hb Hi] Ho. destruct st as [ren next]. cbn [fst snd] in *. unfold renumber_operand, numbered.
  destruct (is_vreg o); [| exists o, (ren, next); split; [reflexivity |]; split; [split; assumption |]; split; [intros ? ?; auto | reflexivity]].
  specialize (Ho eq_refl). destruct (vec_get_in_range ren (value o)) as (a & Ea); [lia |]. rewrite Ea. cbn [rbind].
  pose proof Ea as Ea'. apply vec_get_Ok in Ea' as [_ Ea']. destruct (Z.eqb_spec a invalid_renumbering) as [-> | Hne].
  - assert (Hset : vec_set ren (value o) next = Ok (set_at ren (value o) next)) by (apply vec_set_Ok; split; [lia | reflexivity]).
    rewrite Hset. cbn [rbind]. pose proof (count_set_bound ren _ Ea') as Hcb.
    assert (Hns : unset next = false) by (unfold unset; apply Z.eqb_neq; lia).
    assert (Hat : set_at ren (value o) next !! Z.to_nat (value o) = Some next)
      by (rewrite lookup_set_at by lia; rewrite decide_True by reflexivity; reflexivity).
    assert (Hget : vec_get (set_at ren (value o) next) (value o) = Ok next) by (apply vec_get_Ok; auto with lia).
    rewrite Hget. cbn [rbind]. unfold u32. rewrite wrap_small by (unfold in_range, invalid_renumbering in *; lia).
    eexists _, _. split; [reflexivity |]. split; [| split].
    + split; cbn [fst snd].
      * rewrite length_set_at. assumption.
      * unfold set_at. rewrite count_set_insert by assumption. lia.
      * intros x b Hxb Hu. rewrite lookup_set_at in Hxb by lia. case_decide; [injection Hxb as <-; lia |].
        specialize (Hb x b Hxb Hu). lia.
      * intros x y b Hxb Hyb Hu. rewrite lookup_set_at in Hxb, Hyb by lia.
        destruct (decide (x = Z.to_nat (value o))), (decide (y = Z.to_nat (value o))); try congruence.
        -- injection Hxb as <-. specialize (Hb y next Hyb Hu). lia.
        -- injection Hyb as <-. specialize (Hb x next Hxb Hu). lia.
        -- eauto.
    + intros x b Hxb Hu. cbn [fst] in *. rewrite lookup_set_at by lia. case_decide; [| assumption]. subst x.
      rewrite Ea' in Hxb. injection Hxb as <-. discriminate.
    + exists next. auto.
  - cbn [rbind]. rewrite Ea. cbn [rbind]. eexists _, _. split; [reflexivity |]. split; [split; assumption |]. split; [intros ? ?; auto |].
    exists a. split; [assumption |]. split; [apply Z.eqb_neq; assumption | reflexivity].
Qed.

Definition indices_in_range (n : nat) (ops : list IROperand) : Prop :=
  Forall (fun o => is_vreg o = true -> 0 <= value o < Z.of_nat n) ops.

Lemma renumber_operands_spec n ops st :
  Z.of_nat n <= invalid_renumbering -> numbering n st -> indices_in_range n ops ->
  exists ops' st', renumber_operands ops st = Ok (ops', st') /\ numbering n st' /\ extends st st' /\ Forall2 (numbered st') ops ops'.
Proof.
  intros Hn Hst H. revert st Hst. induction H as [| o ops Ho H IH]; intros st Hst; cbn [renumber_operands].
  - exists [], st. split; [reflexivity |]. split; [assumption |]. split; [intros ? ?; auto | constructor].
  - destruct (renumber_operand_spec n o st Hn Hst Ho) as (o' & st1 & -> & Hst1 & He1 & Hn1). cbn [rbind].
    destruct (IH st1 Hst1) as (ops' & st2 & -> & Hst2 & He2 & Hn2). cbn [rbind].
    eexists _, _. split; [reflexivity |]. split; [assumption |]. split; [eapply extends_trans; eassumption |].
    constructor; [eapply numbered_extends; eassumption | assumption].
Qed.

Definition renumbered_insn (st : renumber_state) (i i' : IRInstruction) : Prop :=
  ir_block i' = ir_block i /\ type i' = type i /\ Forall2 (numbered st) (operands i) (operands i').

Lemma renumber_insns_spec n l st :
  Z.of_nat n <= invalid_renumbering -> numbering n st -> Forall (fun i => indices_in_range n (operands i)) l ->
  exists l' st', renumber_insns l st = Ok (l', st') /\ numbering n st' /\ extends st st' /\ Forall2 (renumbered_insn st') l l'.
Proof.
  intros Hn Hst H. revert st Hst. induction H as [| i l Hi H IH]; intros st Hst; cbn [renumber_insns].
  - exists [], st. split; [reflexivity |]. split; [assumption |]. split; [intros ? ?; auto | constructor].
  - destruct (renumber_operands_spec n (operands i) st Hn Hst Hi) as (ops' & st1 & -> & Hst1 & He1 & Hn1). cbn [rbind].
    destruct (IH st1 Hst1) as (l' & st2 & -> & Hst2 & He2 & Hn2). cbn [rbind].
    eexists _, _. split; [reflexivity |]. split; [assumption |]. split; [eapply extends_trans; eassumption |].
    constructor; [| assumption]. split; [reflexivity |]. split; [reflexivity |]. cbn [operands].
    eapply Forall2_impl; [exact Hn1 |]. intros o o'. apply numbered_extends. assumption.
Qed.

Lemma numbering_start n : numbering n (replicate n invalid_renumbering, 0).
Proof.
  split; cbn [fst snd].
  - apply length_replicate.
  - unfold count_set. induction n; cbn; [reflexivity | assumption].
  - intros x a H Hu. apply lookup_replicate in H as [-> _]. discriminate.
  - intros x y a H _ Hu. apply lookup_replicate in H as [-> _]. discriminate.
Qed.

(** ** Renaming registers apart preserves the meaning of the code *)

(** The registers an instruction mentions. *)
Definition mentioned_in (l : list IRInstruction) (x : Z) : Prop :=
  exists i o, i ∈ l /\ o ∈ operands i /\ is_vreg o = true /\ get_vreg_idx o = x.

Definition injective_on (l : list IRInstruction) (f : Z -> Z) : Prop :=
  forall x y, mentioned_in l x -> mentioned_in l y -> f x = f y -> x = y.

Definition renamed_insn (f : Z -> Z) (i i' : IRInstruction) : Prop :=
  ir_block i' = ir_block i /\ type i' = type i /\ renamed_ops f (operands i) (operands i').

(** Jump and branch targets are not registers. *)
Definition plain_targets (l : list IRInstruction) : Prop :=
  forall i k, i ∈ l -> type i = JMP /\ k = 0%nat \/ type i = BRANCH /\ (k = 1 \/ k = 2)%nat -> is_vreg (op i k) = false.

Section Renamed.
Context {R : Type} (exec : IRInstructionType -> list IROperand -> vstate R -> vstate R)
        (taken : IROperand -> vstate R -> bool) {RD : RespectsDescriptors exec taken} {RA : RegisterAgnostic exec taken}.
Context (l0 : list IRInstruction) (f : Z -> Z) (Hinj : injective_on l0 f) (Hplain : plain_targets l0).
Implicit Types (s : vstate R).

Definition agrees s s' : Prop := snd s = snd s' /\ forall x, mentioned_in l0 x -> fst s x = fst s' (f x).

Lemma agrees_exec i i' s s' :
  i ∈ l0 -> renamed_insn f i i' -> agrees s s' ->
  agrees (exec (type i) (operands i) s) (exec (type i') (operands i') s').
Proof.
  intros Hi (_ & -> & Hops) [H1 H2]. destruct s as [v r], s' as [v' r']. cbn [fst snd] in H1, H2. subst r'.
  assert (Hm : forall p x, x ∈ vregs_of p (type i) 0 (operands i) -> mentioned_in l0 x).
  { intros p x Hx. apply vregs_mentioned in Hx as (o & Ho & Hv & <-). exists i, o. auto. }
  destruct (exec_rename (exec := exec) (type i) (operands i) (operands i') f v v' r Hops) as [E1 E2].
  { intros x Hx. apply H2, (Hm is_read), Hx. }
  split; [assumption |]. intros x Hx. destruct (decide (x ∈ writes (type i) (operands i))) as [Hw | Hw]; [auto |].
  rewrite !(exec_writes (exec := exec)); [apply H2; assumption | | assumption].
  unfold writes. rewrite (vregs_of_renamed _ _ _ _ _ _ Hops). intros Hin.
  apply list_elem_of_In, in_map_iff in Hin as (y & Hfy & Hy). apply list_elem_of_In in Hy.
  assert (y = x) as -> by (apply Hinj; [apply (Hm is_write) | |]; assumption). contradiction.
Qed.

Definition same_outcome (o o' : outcome (St := vstate R)) : Prop :=
  match o, o' with
  | Goto b s, Goto b' s' => b = b' /\ agrees s s'
  | Leave t ops s, Leave t' ops' s' => t = t' /\ renamed_ops f ops ops' /\ agrees s s'
  | FallOff s, FallOff s' => agrees s s'
  | _, _ => False
  end.

Lemma renamed_code l l' b : Forall2 (renamed_insn f) l l' -> Forall2 (renamed_insn f) (code b l) (code b l').
Proof.
  induction 1 as [| i i' l l' Hi H IH]; [constructor |]. rewrite !code_cons. destruct Hi as (Hb & Ht). rewrite Hb.
  case_decide; [constructor; [split; assumption | assumption] | assumption].
Qed.

Lemma renamed_run_code l l' s s' :
  (forall i, i ∈ l -> i ∈ l0) -> Forall2 (renamed_insn f) l l' -> agrees s s' ->
  same_outcome (run_code exec taken l s) (run_code exec taken l' s').
Proof.
  intros Hsub H. revert s s'. induction H as [| i i' l l' Hi H IH]; intros s s' Ha; [exact Ha |].
  assert (Hin : i ∈ l0) by (apply Hsub; left).
  assert (Hgo : same_outcome (run_code exec taken l (exec (type i) (operands i) s))
                  (run_code exec taken l' (exec (type i) (operands i') s'))).
  { apply IH; [intros j Hj; apply Hsub; right; assumption |].
    pose proof (agrees_exec i i' s s' Hin Hi Ha) as He. destruct Hi as (_ & Ht & _). rewrite Ht in He. exact He. }
  pose proof Hi as (_ & Ht & Hops). cbn [run_code]. rewrite Ht.
  assert (Hv : forall k, type i = JMP /\ k = 0%nat \/ type i = BRANCH /\ (k = 1 \/ k = 2)%nat -> value (op i' k) = value (op i k)).
  { intros k Hk. rewrite (renamed_plain f (op i k) (op i' k)); [reflexivity | apply op_renamed, Hops | apply Hplain; assumption]. }
  destruct (type i) eqn:Et; try exact Hgo.
  - rewrite Hv by auto. split; [reflexivity | assumption].
  - assert (Htk : taken (op i 0) s = taken (op i' 0) s').
    { destruct s as [v r], s' as [v' r'], Ha as [H1 H2]. cbn [fst snd] in H1, H2. subst r'.
      apply (taken_rename (exec := exec) _ _ f); [apply op_renamed, Hops |]. intros Hr. apply H2.
      exists i, (op i 0). split; [assumption |]. split; [| auto]. unfold op in *. destruct (operands i); [discriminate Hr | left]. }
    rewrite <- Htk. rewrite Hv by (right; split; [reflexivity | destruct (taken (op i 0) s); auto]). split; [reflexivity | assumption].
  - split; [reflexivity |]. split; assumption.
  - split; [reflexivity |]. split; assumption.
Qed.

Definition renamed_exit (o o' : option (exit (St := vstate R))) : Prop :=
  match o, o' with
  | Some (t, ops, s), Some (t', ops', s') => t = t' /\ renamed_ops f ops ops' /\ snd s = snd s'
  | None, None => True
  | _, _ => False
  end.

Lemma renamed_run fuel l' b s s' :
  Forall2 (renamed_insn f) l0 l' -> agrees s s' -> renamed_exit (run exec taken fuel l0 b s) (run exec taken fuel l' b s').
Proof.
  intros H. revert b s s'. induction fuel as [| fuel IH]; intros b s s' Ha; [exact I |]. cbn [run].
  pose proof (renamed_run_code (code b l0) (code b l') s s') as Hc.
  assert (Hsub : forall i, i ∈ code b l0 -> i ∈ l0) by (intros i Hi; unfold code in Hi; apply list_elem_of_filter in Hi as [_ Hi]; assumption).
  specialize (Hc Hsub (renamed_code _ _ b H) Ha).
  destruct (run_code exec taken (code b l0) s), (run_code exec taken (code b l') s'); cbn in Hc |- *; try tauto.
  - destruct Hc as [<- Hc]. apply IH. assumption.
  - destruct Hc as (? & ? & [? _]). auto.
Qed.
End Renamed.

(** On a buffer whose virtual registers are in range,
    ValueRenumberingTransform::Apply succeeds and renames every register by one
    injective function, onto numbers below the new register count, which is not
    larger than the old one; on every machine that follows the instruction
    descriptors and does not care for register numbers, the renumbered code
    leaves by the same instruction with the same outside state, for every number
    of steps. *)
Theorem value_renumbering_correct {R} (exec : IRInstructionType -> list IROperand -> vstate R -> vstate R)
    (taken : IROperand -> vstate R -> bool) {RD : RespectsDescriptors exec taken} {RA : RegisterAgnostic exec taken} c :
  0 <= _ir_reg_count c <= invalid_renumbering ->
  Forall (fun i => indices_in_range (Z.to_nat (_ir_reg_count c)) (operands i)) (_ir_insns c) ->
  plain_targets (_ir_insns c) ->
  exists c' f, ValueRenumbering_Apply c = Ok c' /\ Forall2 (renamed_insn f) (_ir_insns c) (_ir_insns c') /\
    injective_on (_ir_insns c) f /\ (forall x, mentioned_in (_ir_insns c) x -> 0 <= f x < _ir_reg_count c') /\
    _ir_reg_count c' <= _ir_reg_count c /\
    forall v v' r fuel, (forall x, mentioned_in (_ir_insns c) x -> v x = v' (f x)) ->
      renamed_exit f (run exec taken fuel (_ir_insns c) 0 (v, r)) (run exec taken fuel (_ir_insns c') 0 (v', r)).
Proof.
  intros Hn Hr Hp. set (n := Z.to_nat (_ir_reg_count c)) in *.
  destruct (renumber_insns_spec n (_ir_insns c) _ ltac:(lia) (numbering_start n) Hr) as (l' & st & E & [Hl Hx Hb Hi] & _ & H2).
  set (f := fun x => fst st !!! Z.to_nat x).
  assert (Hidx : forall o, is_vreg o = true -> 0 <= value o < Z.of_nat n -> get_vreg_idx o = value o).
  { intros o _ Ho. apply wrap_small. unfold in_range, invalid_renumbering in *. lia. }
  assert (Hin : forall i o, i ∈ _ir_insns c -> o ∈ operands i -> is_vreg o = true -> 0 <= value o < Z.of_nat n).
  { intros i o Hii Ho Hv. rewrite Forall_forall in Hr. specialize (Hr i Hii). unfold indices_in_range in Hr.
    rewrite Forall_forall in Hr. apply (Hr o Ho Hv). }
  assert (Hlk : forall x, mentioned_in (_ir_insns c) x -> 0 <= x /\ fst st !! Z.to_nat x = Some (f x) /\ unset (f x) = false).
  { intros x (i & o & Hii & Ho & Hv & <-). rewrite (Hidx o Hv (Hin i o Hii Ho Hv)). split; [apply (Hin i o Hii Ho Hv) |].
    apply list_elem_of_lookup in Hii as (k & Hk). destruct (Forall2_lookup_l _ _ _ _ _ H2 Hk) as (i' & _ & (_ & _ & Hops)).
    apply list_elem_of_lookup in Ho as (j & Hj). destruct (Forall2_lookup_l _ _ _ _ _ Hops Hj) as (o' & _ & Hnum).
    unfold numbered in Hnum. rewrite Hv in Hnum. destruct Hnum as (a & Ha & Hu & _). unfold f.
    rewrite (list_lookup_total_correct _ _ _ Ha). auto. }
  assert (Hinj : injective_on (_ir_insns c) f).
  { intros x y Hmx Hmy Hxy. destruct (Hlk x Hmx) as (Hx0 & Hx1 & Hx2). destruct (Hlk y Hmy) as (Hy0 & Hy1 & Hy2).
    rewrite <- Hxy in Hy1. specialize (Hi _ _ _ Hx1 Hy1 Hx2). lia. }
  assert (Hren : Forall2 (renamed_insn f) (_ir_insns c) l').
  { apply Forall2_same_length_lookup. split; [eapply Forall2_length; exact H2 |]. intros k i i' Hk Hk'.
    destruct (Forall2_lookup_lr _ _ _ _ _ _ H2 Hk Hk') as (Hblk & Hty & Hops). split; [assumption |]. split; [assumption |].
    apply Forall2_same_length_lookup. split; [eapply Forall2_length; exact Hops |]. intros j o o' Hj Hj'.
    pose proof (Forall2_lookup_lr _ _ _ _ _ _ Hops Hj Hj') as Hnum. unfold numbered, renamed in *.
    destruct (is_vreg o) eqn:Hv; [| assumption]. destruct Hnum as (a & Ha & Hu & ->).
    assert (Ho : 0 <= value o < Z.of_nat n) by (eapply Hin; eauto using list_elem_of_lookup_2).
    split; [unfold is_vreg in Hv; apply bool_decide_eq_true in Hv; exact Hv |]. split; [reflexivity |].
    rewrite (Hidx o Hv Ho). unfold f. rewrite (list_lookup_total_correct _ _ _ Ha). apply wrap_small.
    specialize (Hb _ _ Ha Hu). pose proof (filter_length_le (fun x => negb (unset x)) (fst st)) as Hc.
    unfold count_set in Hx. unfold in_range, invalid_renumbering in *. lia. }
  exists (recount_regs (snd st) (with_insns l' c)), f. split; [unfold ValueRenumbering_Apply; fold n; rewrite E; reflexivity |].
  cbn [_ir_insns recount_regs with_insns _ir_reg_count]. split; [assumption |]. split; [assumption |]. split; [| split].
  - intros x Hm. destruct (Hlk x Hm) as (_ & H & Hu). eapply Hb; eassumption.
  - pose proof (filter_length_le (fun x => negb (unset x)) (fst st)) as Hc. unfold count_set in Hx. lia.
  - intros v v' r fuel Hv. apply (renamed_run exec taken); [assumption | assumption | assumption |]. split; [reflexivity | assumption].
Qed.

(** Registers 7 and 3 become 0 and 1. *)
Definition renumbering_example : TranslationContext :=
  mkContext 1 8
    [mkInsn [constant 1 8; vreg 7 8] 0 MOV; mkInsn [vreg 7 8; vreg 3 8] 0 MOV;
     mkInsn [vreg 3 8; constant 16 8] 0 WRITE_REG; mkInsn [] 0 RET] 0.

Lemma value_renumbering_correct_witness :
  exists c', ValueRenumbering_Apply renumbering_example = Ok c' /\ _ir_reg_count c' = 2 /\
    map (fun i => map value (operands i)) (_ir_insns c') = [[1; 0]; [0; 1]; [1; 16]; []] /\
    option_map (fun e => snd (snd e)) (run small_exec small_taken 1 (_ir_insns c') 0 (fun _ => 5, [])) = Some [16; 1].
Proof.
  destruct (value_renumbering_correct small_exec small_taken renumbering_example) as (c' & f & E & _ & _ & _ & _ & Hrun).
  - vm_compute. split; discriminate.
  - repeat (apply Forall_cons; split); try apply Forall_nil; cbn [operands];
      repeat (apply Forall_cons; split); try apply Forall_nil; vm_compute; intuition congruence.
  - intros i k Hi Hk. repeat (apply elem_of_cons in Hi as [-> | Hi]; [destruct Hk as [[Hk _] | [Hk _]]; discriminate Hk |]). inversion Hi.
  - exists c'. split; [exact E |]. specialize (Hrun (fun _ => 5) (fun _ => 5) [] 1%nat ltac:(reflexivity)).
    set (o2 := run small_exec small_taken 1 (_ir_insns c') 0 (fun _ => 5, [])) in *.
    assert (Ho : option_map (fun e => snd (snd e)) o2 = Some [16; 1]).
    { clearbody o2. destruct o2 as [[[t ops] s] |]; [| contradiction Hrun]. destruct Hrun as (_ & _ & Hs). cbn.
      rewrite <- Hs. reflexivity. }
    vm_compute in E. injection E as <-. split; [reflexivity |]. split; [reflexivity | exact Ho].
Defined.
