(* ===== verification/ConstantProp.v ===== *)
(** * Constant propagation

    ConstantPropTransform.cpp: within a block, a register that was given a
    constant by a move is replaced by the constant where it is only read. *)

From Stdlib Require Import ZArith Lia Bool Ascii.
From stdpp Require Import base list numbers sets gmap.
From S2P Require Import Prelude.
From S2P Require Import BlockIR.
From S2P Require Import IRSorterCorrect.
From S2P Require Import BlockFlow.
From S2P Require Import ValueFlow.
#[local] Open Scope Z_scope.

(** ** The transform *)

Abbreviation constant_map := (gmap Z IROperand).

Definition cp_operand (t : IRInstructionType) (op_idx : nat) (operand : IROperand) (constant_operands : constant_map)
  : IROperand * constant_map :=
  if Ascii.eqb (format_at t op_idx) "I" then
    if is_vreg operand then
      match constant_operands !! get_vreg_idx operand with
      | Some k => (k, constant_operands)
      | None => (operand, constant_operands)
      end
    else (operand, constant_operands)
  else if is_vreg operand then (operand, delete (get_vreg_idx operand) constant_operands)
  else (operand, constant_operands).

Fixpoint cp_operands (t : IRInstructionType) (op_idx : nat) (ops : list IROperand) (constant_operands : constant_map)
  : list IROperand * constant_map :=
  match ops with
  | [] => ([], constant_operands)
  | operand :: r =>
      let '(o1, m1) := cp_operand t op_idx operand constant_operands in
      let '(r1, m2) := cp_operands t (S op_idx) r m1 in
      (o1 :: r1, m2)
  end.

(** The entry of the target of an addition or subtraction of a constant is
    brought up to date (and erased by the operands that follow). *)
Definition cp_accumulate (insn : IRInstruction) (constant_operands : constant_map) : constant_map :=
  if is_constant (op insn 0) then
    match constant_operands !! get_vreg_idx (op insn 1) with
    | Some k =>
        let v := match type insn with ADD => value k + value (op insn 0) | _ => value k - value (op insn 0) end in
        <[get_vreg_idx (op insn 1) := with_value (u64 v) k]> constant_operands
    | None => constant_operands
    end
  else constant_operands.

Definition cp_insn (insn : IRInstruction) (constant_operands : constant_map) : result (IRInstruction * constant_map) :=
  let substitute m :=
    let '(ops, m1) := cp_operands (type insn) 0 (operands insn) m in
    Ok (mkInsn ops (ir_block insn) (type insn), m1) in
  match type insn with
  | MOV =>
      check* is_vreg (op insn 1) or AssertFailed in
      if is_constant (op insn 0) then Ok (insn, <[get_vreg_idx (op insn 1) := op insn 0]> constant_operands)
      else substitute constant_operands
  | ADD | SUB =>
      check* is_vreg (op insn 1) or AssertFailed in
      substitute (cp_accumulate insn constant_operands)
  | _ => substitute constant_operands
  end.

Fixpoint cp_insns (l : list IRInstruction) (prev_block : Z) (constant_operands : constant_map)
  : result (list IRInstruction) :=
  match l with
  | [] => Ok []
  | insn :: r =>
      if ir_block insn =? NOP_BLOCK then
        let* r1 := cp_insns r prev_block constant_operands in Ok (insn :: r1)
      else
        let m := if prev_block =? ir_block insn then constant_operands else ∅ in
        let* (insn1, m1) := cp_insn insn m in
        let* r1 := cp_insns r (ir_block insn) m1 in
        Ok (insn1 :: r1)
  end.

Definition ConstantProp_Apply (c : TranslationContext) : result TranslationContext :=
  let* l := cp_insns (_ir_insns c) 0 ∅ in Ok (with_insns l c).

(** ** Constants as operands *)

(** A constant in place of a register that holds it, where the instruction
    only reads. *)
Definition substituted (v : Z -> Z) (t : IRInstructionType) (j : nat) (o o' : IROperand) : Prop :=
  o' = o \/
  format_at t j = "I"%char /\ is_vreg o = true /\ is_constant o' = true /\ size o' = size o /\ v (get_vreg_idx o) = value o'.

Fixpoint substituted_ops (v : Z -> Z) (t : IRInstructionType) (j : nat) (ops ops' : list IROperand) : Prop :=
  match ops, ops' with
  | [], [] => True
  | o :: r, o' :: r' => substituted v t j o o' /\ substituted_ops v t (S j) r r'
  | _, _ => False
  end.

(** A machine on which a constant operand stands for its value. *)
Class ConstantOperands {R : Type} (exec : IRInstructionType -> list IROperand -> vstate R -> vstate R)
    (taken : IROperand -> vstate R -> bool) : Prop := {
  exec_mov_constant : forall k d v r,
    is_constant k = true -> is_vreg d = true -> fst (exec MOV [k; d] (v, r)) (get_vreg_idx d) = value k;
  exec_constant : forall t ops ops' v r,
    substituted_ops v t 0 ops ops' ->
    snd (exec t ops (v, r)) = snd (exec t ops' (v, r)) /\ forall x, fst (exec t ops (v, r)) x = fst (exec t ops' (v, r)) x;
  taken_constant : forall o k v r,
    is_vreg o = true -> is_constant k = true -> size k = size o -> v (get_vreg_idx o) = value k -> taken o (v, r) = taken k (v, r)
}.

(** Every register has one width, and moves do not change it. *)
Definition sized (sz : Z -> Z) (i : IRInstruction) : Prop :=
  Forall (fun o => is_vreg o = true -> size o = sz (get_vreg_idx o)) (operands i) /\
  match type i with
  | MOV => exists s d, operands i = [s; d] /\ size s = size d /\ is_vreg d = true
  | ADD | SUB => exists s d, operands i = [s; d] /\ is_vreg d = true
  | _ => True
  end.

(** ** Runs that agree *)
Section Agree.
Context {R : Type} (exec : IRInstructionType -> list IROperand -> vstate R -> vstate R) (taken : IROperand -> vstate R -> bool).

(** The same registers pointwise. *)
Definition same_state (s s' : vstate R) : Prop := snd s = snd s' /\ forall x, fst s x = fst s' x.

Definition same_outcome (o o' : outcome (St := vstate R)) : Prop :=
  match o, o' with
  | Goto b s, Goto b' s' => b = b' /\ same_state s s'
  | Leave t ops s, Leave t' ops' s' => t = t' /\ ops = ops' /\ same_state s s'
  | FallOff s, FallOff s' => same_state s s'
  | _, _ => False
  end.

Definition same_exit (o o' : option (exit (St := vstate R))) : Prop :=
  match o, o' with
  | Some (t, ops, s), Some (t', ops', s') => t = t' /\ ops = ops' /\ same_state s s'
  | None, None => True
  | _, _ => False
  end.

(** Control goes to a target of one of the instructions. *)
Lemma goto_target c : forall s b s', run_code exec taken c s = Goto b s' -> exists i, i ∈ c /\ b ∈ targets i.
Proof.
  induction c as [| i c IHc]; intros s b s' Hr; [discriminate |]. cbn [run_code] in Hr.
  assert (Hgo : run_code exec taken c (exec (type i) (operands i) s) = Goto b s' -> exists i0, i0 ∈ i :: c /\ b ∈ targets i0).
  { intros H. destruct (IHc _ _ _ H) as (k & Hk & Ht). exists k. split; [right; assumption | assumption]. }
  destruct (type i) eqn:Et; try (apply Hgo; exact Hr); try discriminate Hr; injection Hr as <- _; exists i; (split; [left |]);
    unfold targets; rewrite Et; [left |]. destruct (taken (op i 0) s); [left | right; left].
Qed.

(** Two buffers whose blocks do the same leave the same way. *)
Lemma blockwise_run l l' :
  (forall i t, i ∈ l -> t ∈ targets i -> t <> NOP_BLOCK) ->
  (forall b s s', b <> NOP_BLOCK -> same_state s s' ->
     same_outcome (run_code exec taken (code b l) s) (run_code exec taken (code b l') s')) ->
  forall fuel b s s', b <> NOP_BLOCK -> same_state s s' ->
  same_exit (run exec taken fuel l b s) (run exec taken fuel l' b s').
Proof.
  intros Hn Hcode fuel. induction fuel as [| fuel IH]; intros b s s' Hb Hs; [exact I |]. cbn [run].
  pose proof (Hcode b s s' Hb Hs) as Hc.
  destruct (run_code exec taken (code b l) s) as [b1 s1 | |] eqn:Er, (run_code exec taken (code b l') s'); cbn in Hc |- *; try tauto.
  destruct Hc as [<- Hc]. apply IH; [| assumption].
  destruct (goto_target _ _ _ _ Er) as (i & Hi & Ht). apply (Hn i); [| assumption]. unfold code in Hi.
  apply list_elem_of_filter in Hi as [_ Hi]. assumption.
Qed.
End Agree.

Section Correct.
Context {R : Type} (exec : IRInstructionType -> list IROperand -> vstate R -> vstate R)
        (taken : IROperand -> vstate R -> bool) {RD : RespectsDescriptors exec taken} {CO : ConstantOperands exec taken}.
Context (sz : Z -> Z).
Implicit Types (m : constant_map) (v : Z -> Z).

(** What the map says of the registers. *)
Definition known m v : Prop :=
  forall x k, m !! x = Some k -> is_constant k = true /\ size k = sz x /\ v x = value k.

Lemma known_delete m v x : known m v -> known (delete x m) v.
Proof. intros H y k Hy. apply lookup_delete_Some in Hy as [_ Hy]. auto. Qed.

Lemma cp_operand_spec t j o m v o' m' :
  known m v -> (is_vreg o = true -> size o = sz (get_vreg_idx o)) -> cp_operand t j o m = (o', m') ->
  substituted v t j o o' /\ known m' v /\
  (is_vreg o = true -> is_write (format_at t j) = true -> m' !! get_vreg_idx o = None) /\
  (forall x, m !! x = None -> m' !! x = None).
Proof.
  intros Hk Hs E. unfold cp_operand in E. destruct (Ascii.eqb_spec (format_at t j) "I") as [EI | NI].
  - assert (Hw : is_write (format_at t j) = false) by (rewrite EI; reflexivity). rewrite Hw.
    destruct (is_vreg o) eqn:Ev; [destruct (m !! get_vreg_idx o) as [k |] eqn:Em |]; injection E as <- <-.
    + destruct (Hk _ _ Em) as (H1 & H2 & H3). split; [right; rewrite H2, Hs by reflexivity; auto |].
      split; [assumption |]. split; [discriminate | auto].
    + split; [left; reflexivity |]. split; [assumption |]. split; [discriminate | auto].
    + split; [left; reflexivity |]. split; [assumption |]. split; [discriminate | auto].
  - destruct (is_vreg o) eqn:Ev; injection E as <- <-; (split; [left; reflexivity |]).
    + split; [apply known_delete; assumption |]. split; [intros _ _; apply lookup_delete_eq |].
      intros x Hx. apply lookup_delete_None. auto.
    + split; [assumption |]. split; [discriminate | auto].
Qed.

Lemma cp_operands_spec t v ops : forall j m ops' m',
  known m v -> Forall (fun o => is_vreg o = true -> size o = sz (get_vreg_idx o)) ops -> cp_operands t j ops m = (ops', m') ->
  substituted_ops v t j ops ops' /\ known m' v /\ (forall x, x ∈ vregs_of is_write t j ops -> m' !! x = None) /\
  (forall x, m !! x = None -> m' !! x = None).
Proof.
  induction ops as [| o ops IH]; intros j m ops' m' Hk Hs E; cbn [cp_operands] in E.
  - injection E as <- <-. split; [exact I |]. split; [assumption |]. split; [intros x Hx; inversion Hx | auto].
  - apply Forall_cons in Hs as [Ho Hs]. destruct (cp_operand t j o m) as [o1 m1] eqn:E1.
    destruct (cp_operands t (S j) ops m1) as [r1 m2] eqn:E2. injection E as <- <-.
    destruct (cp_operand_spec t j o m v o1 m1 Hk Ho E1) as (S1 & K1 & W1 & N1).
    destruct (IH (S j) m1 r1 m2 K1 Hs E2) as (S2 & K2 & W2 & N2).
    split; [split; assumption |]. split; [assumption |]. split; [| auto].
    intros x Hx. cbn [vregs_of] in Hx. apply elem_of_app in Hx as [Hx | Hx]; [| auto].
    destruct (is_vreg o) eqn:Ev, (is_write (format_at t j)) eqn:Ew; cbn in Hx; try solve [inversion Hx].
    apply list_elem_of_singleton in Hx as ->. auto.
Qed.

Lemma known_ext m v v' : (forall x, v x = v' x) -> known m v -> known m v'.
Proof. intros E H x k Hk. destruct (H x k Hk) as (H1 & H2 & H3). rewrite <- E. auto. Qed.

Lemma known_written m t ops s :
  known m (fst s) -> (forall x, x ∈ writes t ops -> m !! x = None) -> known m (fst (exec t ops s)).
Proof.
  intros H Hw x k Hx. rewrite (exec_writes (exec := exec)); [auto |]. intros Hin. rewrite (Hw x Hin) in Hx. discriminate.
Qed.

Lemma exec_same t ops s s' : same_state s s' -> same_state (exec t ops s) (exec t ops s').
Proof.
  intros [H1 H2]. destruct s as [v r], s' as [v' r']. cbn [fst snd] in *. subst r'.
  destruct (exec_reads (exec := exec) t ops v v' r) as [E1 E2]; [auto |]. split; [assumption |].
  intros x. destruct (decide (x ∈ writes t ops)); [auto |]. rewrite !(exec_writes (exec := exec)) by assumption. apply H2.
Qed.

Lemma taken_same o s s' : same_state s s' -> taken o s = taken o s'.
Proof.
  intros [H1 H2]. destruct s as [v r], s' as [v' r']. cbn [fst snd] in *. subst r'.
  apply (taken_reads (exec := exec)). auto.
Qed.

Lemma cp_accumulate_known i m v :
  (type i = ADD \/ type i = SUB) -> sized sz i -> known m v ->
  exists m0, known m0 v /\ forall ops' m', cp_operands (type i) 0 (operands i) (cp_accumulate i m) = (ops', m') ->
    cp_operands (type i) 0 (operands i) m0 = (ops', m') \/
    (cp_operands (type i) 0 (operands i) (cp_accumulate i m) = (ops', m') /\ cp_accumulate i m = m).
Proof.
  intros Ht [_ Hs] Hk. unfold cp_accumulate. destruct (is_constant (op i 0)) eqn:Ec; [| exists m; auto].
  destruct (m !! get_vreg_idx (op i 1)) as [k |] eqn:Em; [| exists m; auto]. exists (delete (get_vreg_idx (op i 1)) m).
  split; [apply known_delete; assumption |]. intros ops' m' E. left. rewrite <- E. clear E.
  assert (Ho : exists s d, operands i = [s; d] /\ is_vreg d = true) by (destruct Ht as [H | H]; rewrite H in Hs; exact Hs).
  destruct Ho as (s & d & Eo & Ed). unfold op in *. rewrite Eo in *. cbn [nth] in *.
  assert (Hsv : is_vreg s = false).
  { unfold is_constant, is_vreg in *. apply bool_decide_eq_true in Ec. rewrite Ec. reflexivity. }
  assert (F1 : Ascii.eqb (format_at (type i) 1) "I" = false) by (destruct Ht as [H | H]; rewrite H; reflexivity).
  cbn [cp_operands]. unfold cp_operand. rewrite Hsv, F1, Ed.
  destruct (Ascii.eqb (format_at (type i) 0) "I"); f_equal; symmetry; rewrite delete_insert_eq;
    apply map_eq; intros x; (destruct (decide (get_vreg_idx d = x)) as [<- | Hx];
      [rewrite !lookup_delete_eq; reflexivity | rewrite !lookup_delete_ne by assumption; reflexivity]).
Qed.

Lemma cp_insn_spec i m v r i' m' :
  sized sz i -> known m v -> cp_insn i m = Ok (i', m') ->
  type i' = type i /\ ir_block i' = ir_block i /\ substituted_ops v (type i) 0 (operands i) (operands i') /\
  known m' (fst (exec (type i) (operands i) (v, r))).
Proof.
  intros Hs Hk E. pose proof Hs as [Hsz Hmov].
  assert (Hsub : forall m0, known m0 v -> (let '(ops, m1) := cp_operands (type i) 0 (operands i) m0 in
            Ok (mkInsn ops (ir_block i) (type i), m1)) = Ok (i', m') ->
            type i' = type i /\ ir_block i' = ir_block i /\ substituted_ops v (type i) 0 (operands i) (operands i') /\
            known m' (fst (exec (type i) (operands i) (v, r)))).
  { intros m0 Hk0 E0. destruct (cp_operands (type i) 0 (operands i) m0) as [ops m1] eqn:E1. apply Ok_inj in E0 as [= <- <-].
    destruct (cp_operands_spec (type i) v (operands i) 0 m0 ops m1 Hk0 Hsz E1) as (S1 & K1 & W1 & _).
    split; [reflexivity |]. split; [reflexivity |]. split; [assumption |]. apply known_written; assumption. }
  assert (Hacc : type i = ADD \/ type i = SUB ->
            (let '(ops, m1) := cp_operands (type i) 0 (operands i) (cp_accumulate i m) in
            Ok (mkInsn ops (ir_block i) (type i), m1)) = Ok (i', m') ->
            type i' = type i /\ ir_block i' = ir_block i /\ substituted_ops v (type i) 0 (operands i) (operands i') /\
            known m' (fst (exec (type i) (operands i) (v, r)))).
  { intros Ht E0. destruct (cp_accumulate_known i m v Ht Hs Hk) as (m0 & Hk0 & H).
    destruct (cp_operands (type i) 0 (operands i) (cp_accumulate i m)) as [ops m1] eqn:E1.
    destruct (H ops m1 eq_refl) as [H1 | [_ H1]].
    - apply (Hsub m0 Hk0). rewrite H1. assumption.
    - apply (Hsub m Hk). rewrite H1 in E1. rewrite E1. assumption. }
  unfold cp_insn in E. destruct (type i) eqn:Et; try (apply (Hsub m Hk); exact E).
  - destruct (is_vreg (op i 1)) eqn:Ed; [| discriminate E].
    destruct (is_constant (op i 0)) eqn:Ec; [| apply (Hsub m Hk); exact E]. apply Ok_inj in E as [= <- <-].
    split; [assumption |]. split; [reflexivity |]. destruct Hmov as (s & d & Eo & Esz & _).
    unfold op in *. rewrite Eo in *. cbn [nth] in *. split; [cbn; split; [left; reflexivity |]; split; [left; reflexivity | exact I] |].
    intros x k Hx. destruct (decide (x = get_vreg_idx d)) as [-> | Hne].
    + rewrite lookup_insert_eq in Hx. injection Hx as <-. split; [assumption |]. split.
      * rewrite Esz. rewrite Forall_forall in Hsz. apply Hsz; [right; left | assumption].
      * apply (exec_mov_constant (exec := exec)); assumption.
    + rewrite lookup_insert_ne in Hx by congruence. destruct (Hk x k Hx) as (H1 & H2 & H3). split; [assumption |]. split; [assumption |].
      rewrite (exec_writes (exec := exec)); [assumption |]. intros Hw.
      apply vregs_of_elem in Hw as (j & o & Hj & _ & Hf & ->). destruct j as [| [| j]]; [discriminate Hf | | discriminate Hj].
      injection Hj as <-. contradiction.
  - destruct (is_vreg (op i 1)); [| discriminate E]. apply Hacc; [auto | exact E].
  - destruct (is_vreg (op i 1)); [| discriminate E]. apply Hacc; [auto | exact E].
Qed.

Lemma known_empty v : known ∅ v.
Proof. intros x k H. rewrite lookup_empty in H. discriminate. Qed.

(** An operand of a jump, return or dispatch is never replaced. *)
Lemma substituted_kept v t ops ops' :
  (forall j, format_at t j <> "I"%char) -> substituted_ops v t 0 ops ops' -> ops' = ops.
Proof.
  intros Ht. generalize 0%nat. revert ops'. induction ops as [| o ops IH]; intros [| o' ops'] j H; cbn in H; try tauto.
  destruct H as [[-> | [H _]] H2]; [f_equal; eapply IH; eassumption | exfalso; exact (Ht j H)].
Qed.

Lemma substituted_nth v t j ops ops' k d :
  substituted_ops v t j ops ops' -> format_at t (j + k) <> "I"%char -> nth k ops' d = nth k ops d.
Proof.
  revert j k ops'. induction ops as [| o ops IH]; intros j k [| o' ops'] H Hk; cbn in H; try tauto. destruct H as [H1 H2], k as [| k]; cbn.
  - destruct H1 as [-> | [H1 _]]; [reflexivity |]. rewrite Nat.add_0_r in Hk. contradiction.
  - apply (IH (S j)); [assumption |]. rewrite Nat.add_succ_comm. assumption.
Qed.

Lemma not_input t : t = JMP \/ t = RET \/ t = DISPATCH -> forall j, format_at t j <> "I"%char.
Proof.
  intros Ht j. destruct (Nat.lt_ge_cases j 6) as [H | H]; [| rewrite format_at_end by assumption; discriminate].
  destruct Ht as [-> | [-> | ->]]; do 6 (destruct j as [| j]; [discriminate |]); lia.
Qed.

Lemma cp_code l b l' : b <> NOP_BLOCK -> Forall (sized sz) l ->
  forall prev m s s', cp_insns l prev m = Ok l' -> (prev = b -> known m (fst s)) -> same_state s s' ->
  same_outcome (run_code exec taken (code b l) s) (run_code exec taken (code b l') s').
Proof.
  intros Hb Hsz. revert l'. induction Hsz as [| i l Hi Hsz IH]; intros l' prev m s s' E Hk Hss; cbn [cp_insns] in E.
  - apply Ok_inj in E as <-. exact Hss.
  - destruct (Z.eqb_spec (ir_block i) NOP_BLOCK) as [En | Nn].
    { apply rbind_Ok in E as (r1 & E1 & E). apply Ok_inj in E as <-. rewrite !code_cons, !decide_False by congruence. eapply IH; eassumption. }
    apply rbind_Ok in E as ((i' & m1) & E1 & E). apply rbind_Ok in E as (r1 & E2 & E). apply Ok_inj in E as <-.
    set (m0 := if prev =? ir_block i then m else ∅) in *. rewrite !code_cons.
    destruct (decide (ir_block i = b)) as [Eb | Nb].
    2: { destruct (cp_insn i m0) as [[i1 m2] |] eqn:E0; [| discriminate E1]. apply Ok_inj in E1 as [= <- <-].
         assert (Hbi : ir_block i1 = ir_block i).
         { unfold cp_insn in E0. destruct (cp_operands (type i) 0 (operands i) m0), (cp_operands (type i) 0 (operands i) (cp_accumulate i m0)).
           destruct (type i); try (apply Ok_inj in E0 as [= <- _]; reflexivity);
             (destruct (is_vreg (op i 1)); [| discriminate E0]; try (destruct (is_constant (op i 0))); apply Ok_inj in E0 as [= <- _]; reflexivity). }
         rewrite decide_False by congruence. eapply IH; [exact E2 | congruence | assumption]. }
    assert (Hk0 : known m0 (fst s)).
    { unfold m0. destruct (Z.eqb_spec prev (ir_block i)); [apply Hk; congruence | apply known_empty]. }
    destruct s as [v r]. destruct (cp_insn_spec i m0 v r i' m1 Hi Hk0 E1) as (Et & Ebi & Hsub & Hk1).
    rewrite decide_True by congruence. cbn [run_code]. rewrite Et.
    assert (Hexec : same_state (exec (type i) (operands i) (v, r)) (exec (type i) (operands i') s')).
    { destruct (exec_constant (exec := exec) (type i) (operands i) (operands i') v r Hsub) as [H1 H2].
      destruct (exec_same (type i) (operands i') (v, r) s' Hss) as [H3 H4]. split; [congruence |]. intros x. rewrite H2. apply H4. }
    assert (Hgo : same_outcome (run_code exec taken (code b l) (exec (type i) (operands i) (v, r)))
                    (run_code exec taken (code b r1) (exec (type i) (operands i') s'))).
    { eapply IH; [exact E2 | intros _; exact Hk1 | exact Hexec]. }
    destruct (type i) eqn:Ety; try exact Hgo.
    + unfold op. rewrite (substituted_kept v JMP _ _ (not_input JMP ltac:(auto)) Hsub). split; [reflexivity | assumption].
    + assert (Hops : forall k, (1 <= k)%nat -> op i' k = op i k).
      { intros k Hk2. unfold op. eapply (substituted_nth v BRANCH 0); [exact Hsub |].
        destruct k as [| [| [| k]]]; [lia | discriminate | discriminate |]. cbn [Nat.add].
        destruct (Nat.lt_ge_cases k 3); [do 3 (destruct k as [| k]; [discriminate |]); lia | rewrite format_at_end by lia; discriminate]. }
      assert (Htk : taken (op i 0) (v, r) = taken (op i' 0) s').
      { rewrite <- (taken_same (op i' 0) (v, r) s' Hss). unfold op. destruct (operands i) as [| a ?], (operands i') as [| a' ?]; cbn in Hsub; try tauto.
        destruct Hsub as [[-> | (_ & H1 & H2 & H3 & H4)] _]; [reflexivity |]. cbn [nth]. apply (taken_constant (exec := exec)); assumption. }
      rewrite <- Htk. split; [| assumption]. f_equal. symmetry. apply Hops. destruct (taken (op i 0) (v, r)); lia.
    + rewrite (substituted_kept v RET _ _ (not_input RET ltac:(auto)) Hsub). split; [reflexivity |]. split; [reflexivity | assumption].
    + rewrite (substituted_kept v DISPATCH _ _ (not_input DISPATCH ltac:(auto)) Hsub). split; [reflexivity |]. split; [reflexivity | assumption].
Qed.

Lemma cp_insns_total l : Forall (sized sz) l -> forall prev m, exists l', cp_insns l prev m = Ok l'.
Proof.
  induction 1 as [| i l Hi H IH]; intros prev m; cbn [cp_insns]; [eauto |]. destruct (ir_block i =? NOP_BLOCK).
  { destruct (IH prev m) as (l' & ->). cbn [rbind]. eauto. }
  set (m0 := if prev =? ir_block i then m else ∅).
  assert (Hok : exists p, cp_insn i m0 = Ok p).
  { destruct Hi as [_ Hi]. unfold cp_insn, op. destruct (cp_operands (type i) 0 (operands i) m0),
      (cp_operands (type i) 0 (operands i) (cp_accumulate i m0)). destruct (type i); try (eexists; reflexivity).
    - destruct Hi as (s & d & -> & _ & Hd). cbn [nth]. rewrite Hd. destruct (is_constant s); eauto.
    - destruct Hi as (s & d & -> & Hd). cbn [nth]. rewrite Hd. eauto.
    - destruct Hi as (s & d & -> & Hd). cbn [nth]. rewrite Hd. eauto. }
  destruct Hok as ((i' & m1) & ->). cbn [rbind]. destruct (IH (ir_block i) m1) as (l' & ->). cbn [rbind]. eauto.
Qed.

End Correct.

(** C36. On code in which every register has
    one width and the targets of moves, additions and subtractions are
    registers, ConstantPropTransform::Apply succeeds and the code it leaves
    runs from every state, on every machine that follows the instruction
    descriptors and on which a constant operand stands for its value, to the same
    exit with the same registers. *)
Theorem constant_propagation_correct {R} (exec : IRInstructionType -> list IROperand -> vstate R -> vstate R)
    (taken : IROperand -> vstate R -> bool) {RD : RespectsDescriptors exec taken} {CO : ConstantOperands exec taken} sz c :
  Forall (sized sz) (_ir_insns c) -> (forall i t, i ∈ _ir_insns c -> t ∈ targets i -> t <> NOP_BLOCK) ->
  exists c', ConstantProp_Apply c = Ok c' /\
    forall fuel s, same_exit (run exec taken fuel (_ir_insns c) 0 s) (run exec taken fuel (_ir_insns c') 0 s).
Proof.
  intros Hsz Hn. destruct (cp_insns_total sz (_ir_insns c) Hsz 0 ∅) as (l' & E). unfold ConstantProp_Apply. rewrite E. cbn [rbind].
  eexists. split; [reflexivity |]. intros fuel s. cbn [_ir_insns with_insns].
  apply blockwise_run; [assumption | | discriminate | split; reflexivity]. intros b s1 s2 Hb Hs.
  apply (cp_code exec taken sz (_ir_insns c) b l' Hb Hsz 0 ∅); [assumption | intros; apply known_empty | assumption].
Qed.

(** ** Constants on the small machine *)

Lemma substituted_value v t j o o' : substituted v t j o o' -> operand_value v o = operand_value v o'.
Proof.
  intros [-> | (_ & H1 & H2 & _ & H3)]; [reflexivity |]. unfold operand_value. rewrite H1, H3.
  unfold is_constant, is_vreg in *. apply bool_decide_eq_true in H2. rewrite H2. reflexivity.
Qed.

Lemma substituted_writes v t ops ops' k : substituted_ops v t k ops ops' -> vregs_of is_write t k ops' = vregs_of is_write t k ops.
Proof.
  revert k ops'. induction ops as [| o ops IH]; intros k [| o' ops'] H; cbn in H; try tauto. destruct H as [H1 H2].
  cbn [vregs_of]. rewrite (IH _ _ H2). f_equal. destruct H1 as [-> | (H1 & _)]; [reflexivity |]. rewrite H1. cbn.
  rewrite !andb_false_r. reflexivity.
Qed.

Lemma substituted_output v t j o o' : substituted v t j o o' -> format_at t j <> "I"%char -> o' = o.
Proof. intros [-> | (H & _)] Hn; [reflexivity | contradiction]. Qed.

#[export] Instance small_constants : ConstantOperands small_exec small_taken.
Proof.
  split.
  - intros k d v r Hk Hd. cbn. unfold set_vreg. rewrite Hd, Z.eqb_refl. unfold operand_value.
    unfold is_constant, is_vreg in *. apply bool_decide_eq_true in Hk. rewrite Hk. reflexivity.
  - intros t ops ops' v r H.
    assert (Hclr : forall x, clear_outputs t ops v x = clear_outputs t ops' v x).
    { intros x. unfold clear_outputs, writes. rewrite (substituted_writes v t ops ops' 0 H). reflexivity. }
    unfold small_exec. destruct t; try (split; [reflexivity | exact Hclr]);
      destruct ops as [| a [| b [| c [| d [| ]]]]], ops' as [| a' [| b' [| c' [| d' [| ]]]]]; cbn in H; try tauto;
      try (split; [reflexivity | exact Hclr]); destruct H as (Ha & Hb & H); cbn [fst snd].
    + rewrite (substituted_value _ _ _ _ _ Ha), (substituted_output _ _ _ _ _ Hb) by discriminate. auto.
    + rewrite (substituted_value _ _ _ _ _ Ha), (substituted_output _ _ _ _ _ Hb) by discriminate. auto.
    + rewrite (substituted_value _ _ _ _ _ Ha), (substituted_output _ _ _ _ _ Hb) by discriminate. auto.
    + rewrite (substituted_value _ _ _ _ _ Ha), (substituted_value _ _ _ _ _ Hb). auto.
    + destruct H as (Hc & Hd & _). rewrite (substituted_value _ _ _ _ _ Hb), (substituted_output _ _ _ _ _ Hd) by discriminate. auto.
  - intros o k v r Ho Hk _ Hv. unfold small_taken, operand_value. cbn [fst]. rewrite Ho, Hv.
    unfold is_constant, is_vreg in *. apply bool_decide_eq_true in Hk. rewrite Hk. reflexivity.
Qed.

(** The addition is not followed through, the register write is. *)
Definition constprop_example : TranslationContext :=
  mkContext 1 2
    [mkInsn [constant 5 8; vreg 0 8] 0 MOV; mkInsn [constant 1 8; vreg 1 8] 0 MOV;
     mkInsn [vreg 0 8; vreg 1 8] 0 ADD; mkInsn [vreg 0 8; constant 16 8] 0 WRITE_REG;
     mkInsn [vreg 1 8; constant 24 8] 0 WRITE_REG; mkInsn [] 0 RET] 0.

Lemma constant_propagation_correct_witness :
  exists c', ConstantProp_Apply constprop_example = Ok c' /\
    map (fun i => map is_vreg (operands i)) (_ir_insns c') =
      [[false; true]; [false; true]; [false; true]; [false; false]; [true; false]; []] /\
    option_map (fun e => snd (snd e)) (run small_exec small_taken 1 (_ir_insns c') 0 (fun _ => 0, [])) = Some [24; 6; 16; 5].
Proof.
  destruct (constant_propagation_correct small_exec small_taken (fun _ => 8) constprop_example) as (c' & E & Hrun).
  - repeat (apply Forall_cons_2; [split; [repeat (apply Forall_cons_2; [reflexivity |]); apply Forall_nil_2 | cbn; eauto 7] |]).
    apply Forall_nil_2.
  - intros i t Hi Ht. repeat (apply elem_of_cons in Hi as [-> | Hi]; [inversion Ht |]). inversion Hi.
  - exists c'. split; [exact E |]. specialize (Hrun 1%nat (fun _ => 0, [])).
    set (o2 := run small_exec small_taken 1 (_ir_insns c') 0 (fun _ => 0, [])) in *.
    assert (Ho : option_map (fun e => snd (snd e)) o2 = Some [24; 6; 16; 5]).
    { clearbody o2. destruct o2 as [[[t ops] s] |]; [| contradiction Hrun]. destruct Hrun as (_ & _ & [Hs _]). cbn.
      rewrite <- Hs. reflexivity. }
    vm_compute in E. injection E as <-. split; [reflexivity | exact Ho].
Defined.
