(* ===== verification/DeadStore.v ===== *)
(** * Dead store elimination

    DeadStoreEliminationTransform.cpp.  [DSE] goes through the buffer backwards
    and removes instructions without side effects whose output is never read
    after them; [StoreAfterStoreElimination] goes forwards and removes a write
    that is overwritten in the same block before it is read. *)

From Stdlib Require Import ZArith Lia Bool.
From stdpp Require Import base list numbers sets gmap.
From S2P Require Import Prelude.
From S2P Require Import BlockIR.
From S2P Require Import IRSorterCorrect.
From S2P Require Import BlockFlow.
From S2P Require Import MergeBlocks.
From S2P Require Import ValueFlow.

(** ** The transforms *)

(** One operand; [true] when the instruction is to be eliminated. *)
Definition dse_operand (side_effects : bool) (t : IRInstructionType) (op_idx : nat) (op : IROperand)
    (vreg_read : list bool) : result (bool * list bool) :=
  if is_vreg op then
    let* dead :=
      if negb side_effects && is_write (format_at t op_idx) then
        let* r := vec_get vreg_read (get_vreg_idx op) in Ok (negb r)
      else Ok false in
    if dead then Ok (true, vreg_read)
    else if is_read (format_at t op_idx) then
      let* vreg_read1 := vec_set vreg_read (get_vreg_idx op) true in Ok (false, vreg_read1)
    else Ok (false, vreg_read)
  else Ok (false, vreg_read).

(** The operands from the last to the first, until one is dead. *)
Fixpoint dse_operands (side_effects : bool) (t : IRInstructionType) (op_idx : nat) (ops : list IROperand)
    (vreg_read : list bool) : result (bool * list bool) :=
  match ops with
  | [] => Ok (false, vreg_read)
  | op :: r =>
      let* (dead, vreg_read1) := dse_operands side_effects t (S op_idx) r vreg_read in
      if dead then Ok (true, vreg_read1) else dse_operand side_effects t op_idx op vreg_read1
  end.

(** The instructions from the last to the first. *)
Fixpoint dse_insns (l : list IRInstruction) (vreg_read : list bool) : result (list IRInstruction * list bool) :=
  match l with
  | [] => Ok ([], vreg_read)
  | insn :: r =>
      let* (r1, vreg_read1) := dse_insns r vreg_read in
      let* (should_eliminate, vreg_read2) :=
        dse_operands (has_side_effects (descriptor (type insn))) (type insn) 0 (operands insn) vreg_read1 in
      Ok ((if should_eliminate then make_nop insn else insn) :: r1, vreg_read2)
  end.

Definition DSE (c : TranslationContext) : result TranslationContext :=
  let* (l, _) := dse_insns (_ir_insns c) (replicate (Z.to_nat (_ir_reg_count c)) false) in
  Ok (with_insns l c).

(** [prev_writes] maps a register to the position of an instruction. *)
Definition sas_operand (insn_idx : nat) (op_idx : nat) (op : IROperand)
    (st : list IRInstruction * gmap Z nat) : list IRInstruction * gmap Z nat :=
  let '(l, prev_writes) := st in
  match l !! insn_idx with
  | Some insn =>
      if is_vreg op then
        let c := format_at (type insn) op_idx in
        let prev_writes1 := if is_read c then delete (get_vreg_idx op) prev_writes else prev_writes in
        if is_write c then
          let l1 :=
            match prev_writes1 !! get_vreg_idx op with
            | Some p =>
                match l !! p with
                | Some prev => if ir_block insn =? ir_block prev then <[p := make_nop prev]> l else l
                | None => l
                end
            | None => l
            end in
          (l1, <[get_vreg_idx op := insn_idx]> prev_writes1)
        else (l, prev_writes1)
      else st
  | None => st
  end.

Fixpoint sas_operands (insn_idx op_idx : nat) (ops : list IROperand)
    (st : list IRInstruction * gmap Z nat) : list IRInstruction * gmap Z nat :=
  match ops with
  | [] => st
  | op :: r => sas_operands insn_idx (S op_idx) r (sas_operand insn_idx op_idx op st)
  end.

Fixpoint sas_insns (n insn_idx : nat) (st : list IRInstruction * gmap Z nat) : list IRInstruction * gmap Z nat :=
  match n with
  | O => st
  | S m =>
      match fst st !! insn_idx with
      | Some insn => sas_insns m (S insn_idx) (sas_operands insn_idx 0 (operands insn) st)
      | None => st
      end
  end.

Definition StoreAfterStoreElimination (c : TranslationContext) : TranslationContext :=
  with_insns (fst (sas_insns (length (_ir_insns c)) 0 (_ir_insns c, ∅))) c.

Definition DeadStoreElimination_Apply (c : TranslationContext) : result TranslationContext :=
  let* c1 := DSE c in Ok (StoreAfterStoreElimination c1).

(** ** What is marked *)

Definition vregs_in_range (n : nat) (ops : list IROperand) : Prop :=
  Forall (fun o => is_vreg o = true -> 0 <= get_vreg_idx o < Z.of_nat n) ops.


Ltac spec_parts := split; [reflexivity || assumption |]; split; [assumption |]; split; [assumption || auto |]; split.

Lemma dse_operand_spec n side t k o vr :
  length vr = n -> (is_vreg o = true -> 0 <= get_vreg_idx o < Z.of_nat n) ->
  exists dead vr', dse_operand side t k o vr = Ok (dead, vr') /\ length vr' = n /\
    (forall x, marked vr x -> marked vr' x) /\
    (dead = false -> is_vreg o = true -> is_read (format_at t k) = true -> marked vr' (get_vreg_idx o)) /\
    (dead = true -> side = false /\ is_vreg o = true /\ is_write (format_at t k) = true /\ ~ marked vr (get_vreg_idx o)).
Proof.
  intros Hl Hr. unfold dse_operand. destruct (is_vreg o) eqn:Ev;
    [| exists false, vr; spec_parts; discriminate].
  specialize (Hr eq_refl). destruct (vec_get_in_range vr (get_vreg_idx o)) as (b & Eb); [lia |]. rewrite Eb.
  assert (Hset : exists vr', vec_set vr (get_vreg_idx o) true = Ok vr' /\ length vr' = n /\
            marked vr' (get_vreg_idx o) /\ forall x, marked vr x -> marked vr' x).
  { exists (set_at vr (get_vreg_idx o) true).
    assert (E : vec_set vr (get_vreg_idx o) true = Ok (set_at vr (get_vreg_idx o) true))
      by (apply vec_set_Ok; split; [lia | reflexivity]).
    split; [assumption |]. apply vec_set_marked in E as (H1 & H2 & H3). split; [lia |]. auto. }
  assert (Hlive : exists dead vr', (if is_read (format_at t k) then
            let* vreg_read1 := vec_set vr (get_vreg_idx o) true in Ok (false, vreg_read1) else Ok (false, vr)) = Ok (dead, vr') /\
          dead = false /\ length vr' = n /\ (forall x, marked vr x -> marked vr' x) /\
          (is_read (format_at t k) = true -> marked vr' (get_vreg_idx o))).
  { destruct (is_read (format_at t k)); [| exists false, vr; split; [reflexivity |]; split; [reflexivity |]; split; [assumption |]; split; [auto | discriminate]].
    destruct Hset as (vr' & E & H1 & H2 & H3). rewrite E. cbn [rbind]. exists false, vr'. auto 6. }
  destruct Hlive as (dead & vr' & E & -> & H1 & H2 & H3).
  destruct (negb side && is_write (format_at t k)) eqn:Ew; cbn [rbind].
  - apply andb_true_iff in Ew as [Es Ew]. apply negb_true_iff in Es. destruct b; cbn [negb].
    + exists false, vr'. spec_parts; [auto | discriminate].
    + exists true, vr. spec_parts; [discriminate |].
      intros _. repeat (split; [assumption || reflexivity |]). intros [_ Hm]. apply vec_get_Ok in Eb as [_ Eb]. congruence.
  - exists false, vr'. spec_parts; [auto | discriminate].
Qed.

Lemma dse_operands_spec n side t k ops vr :
  length vr = n -> vregs_in_range n ops ->
  exists dead vr', dse_operands side t k ops vr = Ok (dead, vr') /\ length vr' = n /\
    (forall x, marked vr x -> marked vr' x) /\
    (dead = false -> forall x, x ∈ vregs_of is_read t k ops -> marked vr' x) /\
    (dead = true -> side = false /\ exists x, x ∈ vregs_of is_write t k ops /\ ~ marked vr x).
Proof.
  intros Hl H. revert k. induction H as [| o ops Ho H IH]; intros k; cbn [dse_operands].
  - exists false, vr. spec_parts; [intros _ x Hx; inversion Hx | discriminate].
  - destruct (IH (S k)) as (dead & vr1 & E1 & L1 & M1 & R1 & D1). rewrite E1. cbn [rbind]. destruct dead.
    + exists true, vr1. split; [reflexivity |]. split; [assumption |]. split; [assumption |]. split; [discriminate |].
      intros _. destruct (D1 eq_refl) as (Hs & x & Hx & Hm). split; [assumption |]. exists x.
      split; [cbn [vregs_of]; apply elem_of_app; auto | assumption].
    + destruct (dse_operand_spec n side t k o vr1 L1 Ho) as (dead & vr2 & E2 & L2 & M2 & R2 & D2).
      exists dead, vr2. split; [assumption |]. split; [assumption |]. split; [auto |]. split.
      * intros -> x Hx. cbn [vregs_of] in Hx. apply elem_of_app in Hx as [Hx | Hx]; [| apply M2, R1; auto].
        destruct (is_vreg o) eqn:Ev, (is_read (format_at t k)) eqn:Er; cbn in Hx; try solve [inversion Hx].
        apply list_elem_of_singleton in Hx as ->. auto.
      * intros ->. destruct (D2 eq_refl) as (Hs & Hv & Hw & Hm). split; [assumption |]. exists (get_vreg_idx o).
        split; [cbn [vregs_of]; rewrite Hv, Hw; left | auto].
Qed.

Definition all_vregs_in_range (n : nat) (l : list IRInstruction) : Prop :=
  Forall (fun i => vregs_in_range n (operands i)) l.

Lemma dse_insns_total n l vr0 :
  length vr0 = n -> all_vregs_in_range n l -> exists l' vr, dse_insns l vr0 = Ok (l', vr) /\ length vr = n.
Proof.
  intros Hl H. induction H as [| i l Hi H (l' & vr & E & L)]; cbn [dse_insns]; [eauto |].
  rewrite E. cbn [rbind].
  destruct (dse_operands_spec n (has_side_effects (descriptor (type i))) (type i) 0 (operands i) vr L Hi)
    as (dead & vr' & E' & L' & _). rewrite E'. cbn [rbind]. eauto.
Qed.

(** What one instruction does to the marks. *)
Lemma dse_insns_cons n i l vr0 r vr :
  length vr0 = n -> all_vregs_in_range n (i :: l) -> dse_insns (i :: l) vr0 = Ok (r, vr) ->
  exists (dead : bool) l' vr1, dse_insns l vr0 = Ok (l', vr1) /\ r = (if dead then make_nop i else i) :: l' /\
    (forall x, marked vr1 x -> marked vr x) /\
    (dead = false -> forall x, x ∈ reads (type i) (operands i) -> marked vr x) /\
    (dead = true -> has_side_effects (descriptor (type i)) = false /\
       forall x, x ∈ writes (type i) (operands i) -> ~ marked vr1 x).
Proof.
  intros Hl H E. apply Forall_cons in H as [Hi Htl].
  destruct (dse_insns_total n l vr0 Hl Htl) as (l' & vr1 & E1 & L1).
  cbn [dse_insns] in E. rewrite E1 in E. cbn [rbind] in E.
  destruct (dse_operands_spec n (has_side_effects (descriptor (type i))) (type i) 0 (operands i) vr1 L1 Hi)
    as (dead & vr2 & E2 & _ & M & Rd & D). rewrite E2 in E. cbn [rbind] in E. apply Ok_inj in E as [= <- <-].
  exists dead, l', vr1. split; [assumption |]. split; [reflexivity |]. split; [assumption |]. split; [assumption |].
  intros Hd. destruct (D Hd) as (Hs & x & Hx & Hm). split; [assumption |]. intros y Hy.
  rewrite (single_write _ _ y x Hs Hy Hx). assumption.
Qed.

Section Simulation.
Context {R : Type} (exec : IRInstructionType -> list IROperand -> vstate R -> vstate R)
        (taken : IROperand -> vstate R -> bool) {RD : RespectsDescriptors exec taken}.
Context (n : nat) (vr0 : list bool) (Hvr0 : length vr0 = n).
Implicit Types (s : vstate R) (vr : list bool).

Definition agree vr s s' : Prop := snd s = snd s' /\ forall x, marked vr x -> fst s x = fst s' x.

Lemma agree_weaken vr vr1 s s' : (forall x, marked vr1 x -> marked vr x) -> agree vr s s' -> agree vr1 s s'.
Proof. intros H [H1 H2]. split; auto. Qed.

Lemma exec_kept vr vr1 t ops s s' :
  (forall x, marked vr1 x -> marked vr x) -> (forall x, x ∈ reads t ops -> marked vr x) ->
  agree vr s s' -> agree vr1 (exec t ops s) (exec t ops s').
Proof.
  intros Hm Hr [H1 H2]. destruct s as [v r], s' as [v' r']. cbn [fst snd] in H1, H2. subst r'.
  destruct (exec_reads (exec := exec) t ops v v' r) as [E1 E2]; [intros; auto |]. split; [assumption |].
  intros x Hx. destruct (decide (x ∈ writes t ops)) as [Hw | Hw]; [auto |].
  rewrite !(exec_writes (exec := exec)) by assumption. cbn [fst]. auto.
Qed.

Lemma exec_removed vr vr1 t ops s s' :
  (forall x, marked vr1 x -> marked vr x) -> has_side_effects (descriptor t) = false ->
  (forall x, x ∈ writes t ops -> ~ marked vr1 x) ->
  agree vr s s' -> agree vr1 (exec t ops s) s'.
Proof.
  intros Hm Hs Hw [H1 H2]. split; [rewrite (exec_pure (exec := exec)) by assumption; assumption |].
  intros x Hx. rewrite (exec_writes (exec := exec)) by (intros H; exact (Hw x H Hx)). auto.
Qed.

(** How the code of a block ends in a buffer [l] and in what is left of it. *)
Definition same_end (l : list IRInstruction) (o o' : outcome (St := vstate R)) : Prop :=
  match o, o' with
  | Goto b s, Goto b' s' =>
      b = b' /\ exists m1 i m2 m2' vr, l = m1 ++ i :: m2 /\ b ∈ targets i /\
        dse_insns m2 vr0 = Ok (m2', vr) /\ agree vr s s'
  | Leave t ops s, Leave t' ops' s' => t = t' /\ ops = ops' /\ snd s = snd s'
  | FallOff _, FallOff _ => True
  | _, _ => False
  end.

Lemma same_end_cons i l o o' : same_end l o o' -> same_end (i :: l) o o'.
Proof.
  destruct o, o'; cbn; try tauto. intros [-> (m1 & j & m2 & m2' & vr & -> & H)]. split; [reflexivity |].
  exists (i :: m1), j, m2, m2', vr. auto.
Qed.

Lemma dse_code l l' vr b s s' :
  all_vregs_in_range n l -> dse_insns l vr0 = Ok (l', vr) -> b <> NOP_BLOCK -> agree vr s s' ->
  same_end l (run_code exec taken (code b l) s) (run_code exec taken (code b l') s').
Proof.
  intros Hr E Hb. revert l' vr s s' E. induction l as [| i l IH]; intros l' vr s s' E Ha.
  { cbn in E. apply Ok_inj in E as [= <- <-]. exact I. }
  destruct (dse_insns_cons n i l vr0 l' vr Hvr0 Hr E) as (dead & l1 & vr1 & E1 & -> & Hm & Hrd & Hd).
  assert (Htl : all_vregs_in_range n l) by (inversion Hr; assumption). specialize (IH Htl l1 vr1).
  rewrite !code_cons. destruct dead.
  - rewrite (decide_False (P := ir_block (make_nop i) = b)) by (cbn; congruence).
    destruct (Hd eq_refl) as [Hs Hw]. apply same_end_cons. case_decide as Eb; [| apply IH; eauto using agree_weaken].
    assert (Hctl : run_code exec taken (i :: code b l) s = run_code exec taken (code b l) (exec (type i) (operands i) s))
      by (cbn [run_code]; destruct (type i); try discriminate Hs; reflexivity).
    rewrite Hctl. apply IH; [assumption |]. eapply exec_removed; eassumption.
  - specialize (Hrd eq_refl). case_decide as Eb; [| apply same_end_cons, IH; eauto using agree_weaken].
    cbn [run_code]. pose proof (agree_weaken _ _ _ _ Hm Ha) as Ha1. destruct (type i) eqn:Et;
      try (apply same_end_cons, IH; [assumption | eapply exec_kept; eassumption]).
    + split; [reflexivity |]. exists [], i, l, l1, vr1. split; [reflexivity |].
      split; [unfold targets; rewrite Et; left |]. auto.
    + assert (Htk : taken (op i 0) s = taken (op i 0) s').
      { destruct s as [v r], s' as [v' r'], Ha as [H1 H2]. cbn [fst snd] in H1, H2. subst r'.
        apply (taken_reads (exec := exec)). intros Hv. apply H2, Hrd, vregs_of_elem. exists 0%nat, (op i 0).
        unfold op in *. destruct (operands i); [discriminate Hv |]. auto. }
      rewrite Htk. split; [reflexivity |]. exists [], i, l, l1, vr1. split; [reflexivity |].
      split; [unfold targets; rewrite Et; destruct (taken (op i 0) s'); [left | right; left] |]. auto.
    + cbn. destruct Ha1. auto.
    + cbn. destruct Ha1. auto.
Qed.

Lemma dse_app pre m l' vr :
  dse_insns (pre ++ m) vr0 = Ok (l', vr) ->
  exists pre' m' vr1, dse_insns m vr0 = Ok (m', vr1) /\ l' = pre' ++ m' /\
    forall b, b <> NOP_BLOCK -> code b pre = [] -> code b pre' = [].
Proof.
  revert l' vr. induction pre as [| i pre IH]; intros l' vr E; [exists [], l', vr; auto |].
  cbn [app dse_insns] in E. apply rbind_Ok in E as ((l1 & vr1) & E1 & E). destruct (IH l1 vr1 E1) as (pre' & m' & vrm & Em & -> & Hc).
  apply rbind_Ok in E as ((dead & vr2) & E2 & E). apply Ok_inj in E as [= <- <-].
  exists ((if dead then make_nop i else i) :: pre'), m', vrm. split; [assumption |]. split; [reflexivity |].
  intros b Hb H. rewrite code_cons in H |- *. case_decide as D1; [discriminate |].
  rewrite decide_False by (destruct dead; cbn; congruence). auto.
Qed.

Definition same_result (o o' : option (exit (St := vstate R))) : Prop :=
  match o, o' with
  | Some (t, ops, s), Some (t', ops', s') => t = t' /\ ops = ops' /\ snd s = snd s'
  | None, None => True
  | _, _ => False
  end.

(** Control only goes to code further on in the buffer. *)
Definition topological (l : list IRInstruction) : Prop :=
  forall p q i k, l !! p = Some i -> l !! q = Some k -> ir_block k ∈ targets i -> (p < q)%nat.

Lemma dse_run l l' vrl fuel pre m m' vr b s s' :
  all_vregs_in_range n l -> topological l -> (forall i t, i ∈ l -> t ∈ targets i -> t <> NOP_BLOCK) ->
  dse_insns l vr0 = Ok (l', vrl) ->
  l = pre ++ m -> dse_insns m vr0 = Ok (m', vr) -> code b pre = [] -> b <> NOP_BLOCK -> agree vr s s' ->
  same_result (run exec taken fuel l b s) (run exec taken fuel l' b s').
Proof.
  intros Hr Ht Hn El. revert pre m m' vr b s s'. induction fuel as [| fuel IH]; intros pre m m' vr b s s' E Em Hc Hb Ha; [exact I |].
  assert (Hcode : code b l = code b m /\ code b l' = code b m').
  { rewrite E in El. destruct (dse_app pre m l' vrl El) as (pre' & m1 & vr1 & Em1 & -> & Hpre). rewrite Em in Em1.
    apply Ok_inj in Em1 as [= <- <-]. rewrite E, !code_app, Hc, (Hpre b Hb Hc). auto. }
  destruct Hcode as [C1 C2]. cbn [run]. rewrite C1, C2.
  pose proof (dse_code m m' vr b s s') as Hd. unfold all_vregs_in_range in Hr. rewrite E in Hr.
  apply Forall_app in Hr as [_ Hrm]. specialize (Hd Hrm Em Hb Ha).
  destruct (run_code exec taken (code b m) s), (run_code exec taken (code b m') s'); cbn in Hd |- *; try tauto.
  destruct Hd as [<- (m1 & i & m2 & m2' & vr2 & Em2 & Hi & Ed & Hag)].
  apply (IH (pre ++ m1 ++ [i]) m2 m2' vr2); try assumption.
  - rewrite E, Em2, <- !app_assoc. reflexivity.
  - apply code_nil_iff. intros k Hk Ek. apply list_elem_of_lookup in Hk as (q & Hq).
    assert (Hli : l !! length (pre ++ m1) = Some i).
    { rewrite E, Em2, app_assoc. apply list_lookup_middle. reflexivity. }
    assert (Hlq : l !! q = Some k).
    { rewrite E, Em2. replace (pre ++ m1 ++ i :: m2) with ((pre ++ m1 ++ [i]) ++ m2) by (rewrite <- !app_assoc; reflexivity).
      apply lookup_app_l_Some. assumption. }
    assert (length (pre ++ m1) < q)%nat by (eapply Ht; [exact Hli | exact Hlq | congruence]).
    apply lookup_lt_Some in Hq. rewrite !length_app in *. cbn in Hq. lia.
  - apply (Hn i); [| assumption]. rewrite E, Em2. apply elem_of_app. right. apply elem_of_app. right. left.
Qed.
End Simulation.

(** C31. On a buffer in which control only goes forward, and for every
    machine that agrees with the instruction descriptors, removing dead stores
    succeeds and cannot be seen from outside: the translated code leaves by
    the same exits with the same state, virtual registers apart. *)
Theorem dead_store_elimination_correct {R} (exec : IRInstructionType -> list IROperand -> vstate R -> vstate R)
    (taken : IROperand -> vstate R -> bool) {RD : RespectsDescriptors exec taken} c :
  topological (_ir_insns c) ->
  (forall i t, i ∈ _ir_insns c -> t ∈ targets i -> t <> NOP_BLOCK) ->
  all_vregs_in_range (Z.to_nat (_ir_reg_count c)) (_ir_insns c) ->
  exists c', DSE c = Ok c' /\
    forall v r t ops r',
      (exists v', evals exec taken (_ir_insns c) 0 (v, r) (t, ops, (v', r'))) <->
      (exists v', evals exec taken (_ir_insns c') 0 (v, r) (t, ops, (v', r'))).
Proof.
  intros Ht Hn Hr. unfold DSE. set (k := Z.to_nat (_ir_reg_count c)) in *.
  destruct (dse_insns_total k (_ir_insns c) (replicate k false) (length_replicate _ _) Hr) as (l' & vr & E & _).
  rewrite E. cbn [rbind]. exists (with_insns l' c). split; [reflexivity |]. intros v r t ops r'. cbn [_ir_insns with_insns].
  assert (Hsim : forall fuel, same_result (run exec taken fuel (_ir_insns c) 0 (v, r)) (run exec taken fuel l' 0 (v, r))).
  { intros fuel. eapply (dse_run exec taken k (replicate k false) (length_replicate _ _) _ l' vr fuel [] (_ir_insns c) l' vr);
      try eassumption; try reflexivity; [discriminate | split; reflexivity]. }
  split; intros (v' & H); apply evals_run in H as (fuel & H); specialize (Hsim fuel); rewrite H in Hsim;
    destruct (run _ _ fuel _ 0 _) as [((t1, ops1), (v1, r1)) |] eqn:E1; cbn in Hsim; try tauto;
    destruct Hsim as (<- & <- & <-); exists v1; eapply run_evals; eassumption.
Qed.

(** The first move is dead. *)
Definition dse_example : TranslationContext :=
  mkContext 1 2
    [mkInsn [constant 1 8; vreg 0 8] 0 MOV; mkInsn [constant 2 8; vreg 1 8] 0 MOV;
     mkInsn [vreg 1 8; constant 16 8] 0 WRITE_REG; mkInsn [] 0 RET] 0.

Lemma dead_store_elimination_correct_witness :
  exists c' v, DSE dse_example = Ok c' /\
    map type (_ir_insns c') = [NOP; MOV; WRITE_REG; RET] /\
    evals small_exec small_taken (_ir_insns c') 0 (fun _ => 0, []) (RET, [], (v, [16; 2])).
Proof.
  destruct (dead_store_elimination_correct small_exec small_taken dse_example) as (c' & E & Hev).
  - intros p q i k Hi _ Ht. assert (p < 4)%nat by (apply lookup_lt_Some in Hi; exact Hi).
    do 4 (destruct p as [| p]; [injection Hi as <-; inversion Ht |]). lia.
  - intros i t Hi Ht. repeat (apply elem_of_cons in Hi as [-> | Hi]; [inversion Ht |]). inversion Hi.
  - repeat (apply Forall_cons; split); try apply Forall_nil;
      cbn [operands]; repeat (apply Forall_cons; split); try apply Forall_nil; vm_compute; intuition congruence.
  - exists c'. destruct (proj1 (Hev (fun _ => 0) [] RET [] [16; 2])) as (v & Hv).
    + eexists. apply (run_evals _ _ 1). reflexivity.
    + exists v. split; [exact E |]. split; [vm_compute in E; injection E as <-; reflexivity | exact Hv].
Defined.

(** A load whose result is overwritten before it is read. *)
Definition sas_example : TranslationContext :=
  mkContext 1 1
    [mkInsn [constant 0 4; constant 0x1000 8; const32 0; vreg 0 8] 0 READ_MEM;
     mkInsn [constant 2 8; vreg 0 8] 0 MOV;
     mkInsn [vreg 0 8; constant 16 8] 0 WRITE_REG; mkInsn [] 0 RET] 0.

(** Store-after-store elimination does not look at side effects: a
    load whose result is overwritten in the same block is removed, and the
    access to memory with it, although the descriptor of loads says that they
    have side effects and [DSE] keeps it. *)
Theorem store_after_store_drops_load :
  has_side_effects (descriptor READ_MEM) = true /\
  DSE sas_example = Ok sas_example /\
  exists c', DeadStoreElimination_Apply sas_example = Ok c' /\
    map type (_ir_insns c') = [NOP; MOV; WRITE_REG; RET] /\
    option_map (fun r => snd (snd r)) (run small_exec small_taken 1 (_ir_insns sas_example) 0 (fun _ => 0, []))
      = Some [16; 2; 0x1000] /\
    option_map (fun r => snd (snd r)) (run small_exec small_taken 1 (_ir_insns c') 0 (fun _ => 0, []))
      = Some [16; 2].
Proof.
  split; [reflexivity |]. split; [vm_compute; reflexivity |]. eexists. split; [vm_compute; reflexivity |].
  split; [reflexivity |]. split; reflexivity.
Qed.
