(* ===== verification/RegStore.v ===== *)
(** * The peephole optimiser and register store elimination

    PeepholeTransform.cpp: additions of negative constants become
    subtractions, shifts by the full width become moves of zero, neutral
    operations disappear, and increments of the program counter in a block are
    added up.

    RegStoreEliminationTransform.cpp: a write to a guest register that is
    overwritten before it is read is removed.  The map of previous writes is
    keyed by offset; an instruction pointer is a position in the buffer. *)

From Stdlib Require Import ZArith Lia Bool.
From stdpp Require Import base list numbers sets gmap fin_maps.
From S2P Require Import Prelude.
From S2P Require Import BlockIR.
From S2P Require Import BlockFlow.
From S2P Require Import ReorderBlocks.
From S2P Require Import BlockCompiler.

Definition set_type (t : IRInstructionType) (i : IRInstruction) : IRInstruction :=
  mkInsn (operands i) (ir_block i) t.

(** The [switch] on the size that picks the smallest negative number. *)
Definition unsigned_negative (size : Z) : result Z :=
  if size =? 1 then Ok 0x80
  else if size =? 2 then Ok 0x8000
  else if size =? 4 then Ok 0x80000000
  else if size =? 8 then Ok 0x8000000000000000
  else Err AssertFailed.

(** [-(intN_t)value] converted back to [uint64_t].  The narrow types are
    promoted to [int] first; negating the smallest [int] or [int64_t] is
    undefined. *)
Definition negate_as (size value : Z) : result Z :=
  let v := sext (8 * size) value in
  if ((size =? 4) || (size =? 8)) && (v =? - 2 ^ (8 * size - 1)) then Err UndefinedBehaviour
  else Ok (u64 (- v)).

Definition peephole_add (insn : IRInstruction) : result IRInstruction :=
  let op1 := op insn 0 in
  if is_constant op1 then
    let* limit := unsigned_negative (size op1) in
    if limit <=? value op1 then
      let* v := negate_as (size op1) (value op1) in
      Ok (set_op 0 (with_value v op1) (set_type SUB insn))
    else Ok insn
  else Ok insn.

Definition zeros_out (size value : Z) : bool :=
  if size =? 1 then value =? 8
  else if size =? 2 then value =? 16
  else if size =? 4 then value =? 32
  else if size =? 8 then value =? 64
  else false.

Definition peephole_shift (insn : IRInstruction) : IRInstruction :=
  let op1 := op insn 0 in
  if is_constant op1 && zeros_out (size (op insn 1)) (value op1)
  then set_op 0 (mkOperand 0 (alloc_data op1) (alloc_mode op1) CONSTANT (size op1)) (set_type MOV insn)
  else insn.

Definition is_neutral (insn : IRInstruction) : bool := is_constant (op insn 0) && (value (op insn 0) =? 0).

(** The variables of the loop. *)
Record peephole_state := mkPeephole {
  ph_insns : list IRInstruction;
  prev_pc_inc : option nat;          (* position of the last increment *)
  ph_prev_block : Z
}.

Definition pc_offset : Z := 0x3c.

Definition peephole_insn (ir_idx : nat) (insn : IRInstruction) (st : peephole_state) : result peephole_state :=
  if ir_block insn =? NOP_BLOCK then Ok st
  else
    let l := ph_insns st in
    let prev := if ir_block insn =? ph_prev_block st then prev_pc_inc st else None in
    let put insn1 := Ok (mkPeephole (<[ir_idx := insn1]> l) prev (ir_block insn)) in
    let forget := Ok (mkPeephole l None (ir_block insn)) in
    match type insn with
    | ADD => if is_neutral insn then put (make_nop insn) else let* insn1 := peephole_add insn in put insn1
    | SHR | SHL => put (if is_neutral insn then make_nop insn else peephole_shift insn)
    | SUB | SAR | OR | XOR => put (if is_neutral insn then make_nop insn else insn)
    | INCPC =>
        match prev with
        | Some p =>
            let* first := of_option UndefinedBehaviour (l !! p) in
            let insn1 := set_op 0 (with_value (u64 (value (op insn 0) + value (op first 0))) (op insn 0)) insn in
            Ok (mkPeephole (<[p := make_nop first]> (<[ir_idx := insn1]> l)) (Some ir_idx) (ir_block insn))
        | None => Ok (mkPeephole l (Some ir_idx) (ir_block insn))
        end
    | READ_REG =>
        Ok (mkPeephole l (if value (op insn 0) =? pc_offset then None else prev) (ir_block insn))
    | RET | VERIFY | DISPATCH | READ_MEM | WRITE_MEM | LDPC | READ_DEVICE | WRITE_DEVICE | TAKE_EXCEPTION => forget
    | _ => Ok (mkPeephole l prev (ir_block insn))
    end.

Fixpoint peephole_loop (n ir_idx : nat) (st : peephole_state) : result peephole_state :=
  match n with
  | O => Ok st
  | S m =>
      let* insn := of_option UndefinedBehaviour (ph_insns st !! ir_idx) in
      let* st1 := peephole_insn ir_idx insn st in
      peephole_loop m (S ir_idx) st1
  end.

Definition Peephole_Apply (c : TranslationContext) : result TranslationContext :=
  let* st := peephole_loop (length (_ir_insns c)) 0 (mkPeephole (_ir_insns c) None INVALID_BLOCK_ID) in
  Ok (with_insns (ph_insns st) c).

(** ** Additions *)

(** What an addition or a subtraction of an operand leaves in its target of
    [sz] bytes that held [d]. *)
Definition arith (insn : IRInstruction) (sz d : Z) : Z :=
  match type insn with
  | ADD => wrap (8 * sz) (d + value (op insn 0))
  | SUB => wrap (8 * sz) (d - value (op insn 0))
  | _ => d
  end.

Definition operand_size (sz : Z) : Prop := sz = 1 \/ sz = 2 \/ sz = 4 \/ sz = 8.

Lemma wrap_eq w a b : 0 <= w -> wrap w a = wrap w b <-> exists k, a = b + k * 2 ^ w.
Proof.
  intros Hw. unfold wrap. assert (0 < 2 ^ w) by lia. split.
  - intros H1. exists (a / 2 ^ w - b / 2 ^ w). pose proof (Z.div_mod a (2 ^ w)). pose proof (Z.div_mod b (2 ^ w)). lia.
  - intros (k & ->). apply Z.mod_add. lia.
Qed.

Lemma sext_cong w v : 0 < w -> exists k, sext w v = v + k * 2 ^ w.
Proof.
  intros Hw. unfold sext, wrap. pose proof (Z.div_mod v (2 ^ w) ltac:(lia)).
  destruct (_ <? _); [exists (- (v / 2 ^ w)) | exists (- (v / 2 ^ w) - 1)]; lia.
Qed.

Lemma u64_cong sz v : operand_size sz -> exists k, u64 v = v + k * 2 ^ (8 * sz).
Proof.
  intros Hs. unfold u64, wrap. exists (- (v / 2 ^ 64) * 2 ^ (64 - 8 * sz)).
  rewrite <- Z.mul_assoc, <- Z.pow_add_r by (unfold operand_size in Hs; lia).
  replace (64 - 8 * sz + 8 * sz) with 64 by lia. pose proof (Z.div_mod v (2 ^ 64) ltac:(lia)). lia.
Qed.

Lemma negate_as_spec sz v r : operand_size sz -> negate_as sz v = Ok r -> exists k, r = - v + k * 2 ^ (8 * sz).
Proof.
  intros Hs E. unfold negate_as in E. destruct (_ && _); [discriminate |]. apply Ok_inj in E as <-.
  destruct (u64_cong sz (- sext (8 * sz) v) Hs) as (k1 & E1).
  destruct (sext_cong (8 * sz) v ltac:(unfold operand_size in Hs; lia)) as (k2 & E2).
  exists (k1 - k2). lia.
Qed.

(** Replacing the addition of a negative constant by a
    subtraction leaves the same value in a target of the constant's size; the
    only constants on which the replacement is undefined are the smallest
    32-bit and 64-bit numbers, whose negation overflows. *)
Theorem peephole_add_correct insn :
  type insn = ADD -> (0 < length (operands insn))%nat -> operand_size (size (op insn 0)) ->
  let sz := size (op insn 0) in
  (forall insn', peephole_add insn = Ok insn' -> forall d, arith insn' sz d = arith insn sz d) /\
  (peephole_add insn = Err UndefinedBehaviour <->
   is_constant (op insn 0) = true /\ (sz = 4 \/ sz = 8) /\ 2 ^ (8 * sz - 1) <= value (op insn 0) /\
   sext (8 * sz) (value (op insn 0)) = - 2 ^ (8 * sz - 1)).
Proof.
  intros Et Hl Hs sz.
  assert (Hlim : unsigned_negative sz = Ok (2 ^ (8 * sz - 1)))
    by (unfold operand_size, sz in *; destruct Hs as [-> | [-> | [-> | ->]]]; reflexivity).
  unfold peephole_add. fold sz. rewrite Hlim. cbn [rbind].
  destruct (is_constant (op insn 0)); [| split; [intros insn' [= <-]; reflexivity | split; [discriminate | intros [[=] _]]]].
  destruct (Z.leb_spec (2 ^ (8 * sz - 1)) (value (op insn 0))) as [Hneg | Hpos];
    [| split; [intros insn' [= <-]; reflexivity | split; [discriminate | intros (_ & _ & H & _); lia]]].
  split.
  - intros insn' E d. bind_inv E. apply Ok_inj in E as <-. destruct (negate_as_spec sz _ _ Hs E0) as (k & ->).
    unfold arith. rewrite Et. cbn [type set_op set_type]. unfold op, set_op. cbn [operands set_type].
    destruct (operands insn) as [| o ops]; [cbn in Hl; lia |]. cbn.
    apply wrap_eq; [unfold operand_size in Hs; lia |]. exists (- k). lia.
  - unfold negate_as. destruct (Z.eqb_spec (sext (8 * sz) (value (op insn 0))) (- 2 ^ (8 * sz - 1))) as [E | E].
    + destruct (Z.eqb_spec sz 4), (Z.eqb_spec sz 8); cbn; split; intros; auto; try discriminate; intuition.
    + rewrite andb_false_r. cbn. split; [discriminate | intros (_ & _ & _ & H); contradiction].
Qed.

Lemma peephole_add_correct_witness :
  exists insn', peephole_add (mkInsn [constant 0xfffffffc 4; vreg 0 4] 0 ADD) = Ok insn' /\
    type insn' = SUB /\ value (op insn' 0) = 4 /\ arith insn' 4 10 = 6.
Proof.
  destruct (peephole_add_correct (mkInsn [constant 0xfffffffc 4; vreg 0 4] 0 ADD)) as [H _];
    [reflexivity | cbn; lia | unfold operand_size; cbn; lia |].
  eexists. split; [reflexivity |]. split; [reflexivity |]. split; [reflexivity |].
  refine (eq_trans (H _ _ 10) _); reflexivity.
Defined.

(** ** The transform *)

Record RegWriteInfo := mkWriteInfo { Size : Z; Offset : Z; WriteAt : nat }.

(** The constructor [RegWriteInfo(size, offset, write)]. *)
Definition new_RegWriteInfo (size offset : Z) (write : nat) : RegWriteInfo := mkWriteInfo (u32 size) (u32 offset) write.

Definition ClearPreviousWrites (writes : gmap Z RegWriteInfo) (offset size : Z) : gmap Z RegWriteInfo :=
  let begin := offset in
  let end_ := u32 (offset + size) in
  filter (fun '(k, i) => (k <=? end_) || (u32 (k + Size i) <=? begin) = false) writes.

(** The entries that match, in the order of the map. *)
Definition matches (offset size : Z) (i : RegWriteInfo) : bool := (Offset i =? offset) && (Size i =? size).

Definition NopPreviousWrites (l : list IRInstruction) (writes : gmap Z RegWriteInfo) (offset size : Z)
  : list IRInstruction * gmap Z RegWriteInfo :=
  let hits := filter (fun '(_, i) => matches offset size i = true) (map_to_list writes) in
  (fold_left (fun l '(_, i) => match l !! WriteAt i with Some w => <[WriteAt i := make_nop w]> l | None => l end) hits l,
   filter (fun '(_, i) => matches offset size i = false) writes).

Definition rse_insn (ir_idx : nat) (insn : IRInstruction) (st : list IRInstruction * gmap Z RegWriteInfo)
  : list IRInstruction * gmap Z RegWriteInfo :=
  let '(l, prev_writes) := st in
  match type insn with
  | JMP | BRANCH | READ_MEM | WRITE_MEM | LDPC | INCPC | TAKE_EXCEPTION | CALL | DISPATCH | RET
  | READ_DEVICE | WRITE_DEVICE | ADC_WITH_FLAGS => (l, ∅)
  | READ_REG =>
      let offset := op insn 0 in
      if is_constant offset then (l, ClearPreviousWrites prev_writes (u32 (value offset)) (size (op insn 1)))
      else (l, ∅)
  | WRITE_REG =>
      let offset := op insn 1 in
      let size := size (op insn 0) in
      if is_constant offset then
        let '(l1, writes1) := NopPreviousWrites l prev_writes (u32 (value offset)) size in
        let key := u32 (value offset) in
        (* std::map::insert leaves an entry that is there already *)
        (l1, match writes1 !! key with
             | Some _ => writes1
             | None => <[key := new_RegWriteInfo (value offset) size ir_idx]> writes1
             end)
      else (l, ∅)
  | _ => st
  end.

Fixpoint rse_loop (n ir_idx : nat) (st : list IRInstruction * gmap Z RegWriteInfo)
  : list IRInstruction * gmap Z RegWriteInfo :=
  match n with
  | O => st
  | S m =>
      match fst st !! ir_idx with
      | Some insn => rse_loop m (S ir_idx) (rse_insn ir_idx insn st)
      | None => st
      end
  end.

Definition RegStoreElimination_Apply (c : TranslationContext) : TranslationContext :=
  with_insns (fst (rse_loop (length (_ir_insns c)) 0 (_ir_insns c, ∅))) c.

(** ** A machine with a register file

    The bytes of the guest registers; constants are written to them, least
    significant byte first. *)

Fixpoint write_bytes (n : nat) (offset v : Z) (file : Z -> Z) : Z -> Z :=
  match n with
  | O => file
  | S m => fun y => if y =? offset then u8 v else write_bytes m (offset + 1) (Z.shiftr v 8) file y
  end.

Definition file_exec (t : IRInstructionType) (ops : list IROperand) (file : Z -> Z) : Z -> Z :=
  match t, ops with
  | WRITE_REG, [v; offset] => write_bytes (Z.to_nat (size v)) (value offset) (value v) file
  | _, _ => file
  end.
Definition file_taken (o : IROperand) (file : Z -> Z) : bool := to_bool (value o).

(** The value of byte [y] when the code started in block 0 leaves. *)
Definition final_byte (fuel : nat) (l : list IRInstruction) (y : Z) : option Z :=
  option_map (fun r => snd r y) (run file_exec file_taken fuel l 0 (fun _ => 0)).

(** Eight bytes at offset 4, then four bytes at offset 8. *)
Definition overlap_example : TranslationContext :=
  mkContext 1 0
    [mkInsn [constant 0x0102030405060708 8; constant 4 4] 0 WRITE_REG;
     mkInsn [constant 0 4; constant 8 4] 0 WRITE_REG; mkInsn [] 0 RET] 0.

(** Two writes of four bytes at offset 16. *)
Definition rewrite_example : TranslationContext :=
  mkContext 1 0
    [mkInsn [constant 1 4; constant 16 4] 0 WRITE_REG;
     mkInsn [constant 2 4; constant 16 4] 0 WRITE_REG; mkInsn [] 0 RET] 0.

(** [Apply] passes the offset and the size of a write in the
    wrong order, so that a write is compared with offset and size exchanged:
    a write that is not overwritten is removed, and one that is stays. *)
Theorem rse_confuses_offset_and_size :
  map type (_ir_insns (RegStoreElimination_Apply overlap_example)) = [NOP; WRITE_REG; RET] /\
  final_byte 1 (_ir_insns overlap_example) 4 = Some 8 /\
  final_byte 1 (_ir_insns (RegStoreElimination_Apply overlap_example)) 4 = Some 0 /\
  RegStoreElimination_Apply rewrite_example = rewrite_example.
Proof. repeat split; vm_compute; reflexivity. Qed.

(** Block 0 branches to blocks 1 and 2, which both write eight bytes at offset
    8; block 1 goes on to block 3. *)
Definition merged_example : TranslationContext :=
  mkContext 4 0
    [mkInsn [constant 1 1; block_op 1; block_op 2] 0 BRANCH;
     mkInsn [constant 1 8; constant 8 4] 1 WRITE_REG; mkInsn [block_op 3] 1 JMP;
     mkInsn [constant 2 8; constant 8 4] 2 WRITE_REG; mkInsn [] 2 RET;
     mkInsn [] 3 TRAP; mkInsn [] 3 RET] 0.

(** [BlockCompiler::compile] up to register store elimination. *)
Definition compile_to_rse (std_sort : (Z -> Z -> bool) -> list Z -> list Z) (fuel : nat)
    (c : TranslationContext) : result TranslationContext :=
  let* c1 := compile_control_flow std_sort fuel c in
  let* c2 := Peephole_Apply c1 in
  Ok (RegStoreElimination_Apply c2).

(** Register store elimination runs before the buffer is
    sorted again.  Merging has removed the jump between a block and the code
    it took over, so that the block is not cut off from one that stands in
    between, and its register write is removed as if that block overwrote it:
    on a finished translation the compiled code leaves register 8 at 0 where
    the translation sets it to 1. *)
Theorem rse_across_merged_blocks :
  (exists rank, translation_ok rank merged_example) /\
  final_byte 3 (_ir_insns merged_example) 8 = Some 1 /\
  exists c', compile_to_rse insertion_sort 100 merged_example = Ok c' /\
    final_byte 3 (_ir_insns c') 8 = Some 0.
Proof.
  split; [| split; [reflexivity | eexists; split; [vm_compute; reflexivity | reflexivity]]].
  exists (fun b => nth (Z.to_nat b) [0; 1; 1; 2] 0). apply translation_check_ok. vm_compute. reflexivity.
Qed.
