(* ===== verification/MovElimination.v ===== *)
(** * Move elimination

    MovEliminationTransform.cpp: a virtual register that is written once and
    only read by a move is replaced by the target of the move, everywhere. *)

From Stdlib Require Import ZArith Lia Bool.
From stdpp Require Import base list numbers sets.
From S2P Require Import Prelude.
From S2P Require Import BlockIR.
From S2P Require Import BlockFlow.
From S2P Require Import ValueFlow.
From Stdlib Require Import Ascii.
#[local] Open Scope Z_scope.
#[local] Open Scope list_scope.

(** ** The transform *)

Definition increment (counts : list Z) (r : Z) : result (list Z) :=
  let* n := vec_get counts r in vec_set counts r (u32 (n + 1)).

(** The counts of one operand. *)
Definition count_operand (t : IRInstructionType) (op_idx : nat) (operand : IROperand)
    (st : list Z * list Z) : result (list Z * list Z) :=
  let '(write_count, read_count) := st in
  if is_vreg operand then
    let r := get_vreg_idx operand in
    let c := format_at t op_idx in
    if Ascii.eqb c "I" then let* reads := increment read_count r in Ok (write_count, reads)
    else if Ascii.eqb c "O" then let* writes := increment write_count r in Ok (writes, read_count)
    else if Ascii.eqb c "B" then
      let* reads := increment read_count r in
      let* writes := increment write_count r in Ok (writes, reads)
    else Ok st
  else Ok st.

Fixpoint count_operands (t : IRInstructionType) (op_idx : nat) (ops : list IROperand)
    (st : list Z * list Z) : result (list Z * list Z) :=
  match ops with
  | [] => Ok st
  | o :: r => let* st1 := count_operand t op_idx o st in count_operands t (S op_idx) r st1
  end.

(** The first loop: counts, and the move that reads a register. *)
Fixpoint count_insns (insn_idx : nat) (l : list IRInstruction) (counts : list Z * list Z)
    (reg_mov : list (option nat)) : result (list Z * list Z * list (option nat)) :=
  match l with
  | [] => Ok (counts, reg_mov)
  | insn :: r =>
      let* counts1 := count_operands (type insn) 0 (operands insn) counts in
      let* reg_mov1 :=
        if bool_decide (type insn = MOV) then
          let* src := of_option OutOfRange (operands insn !! 0%nat) in
          if is_vreg src then vec_set reg_mov (get_vreg_idx src) (Some insn_idx) else Ok reg_mov
        else Ok reg_mov in
      count_insns (S insn_idx) r counts1 reg_mov1
  end.

Definition NO_REPLACEMENT : Z := 0xffffffff.

(** The second loop: the candidates, with their moves removed. *)
Fixpoint find_replacements (n : nat) (reg_idx : Z) (write_count read_count : list Z) (reg_mov : list (option nat))
    (l : list IRInstruction) (replacements : list Z) : result (list IRInstruction * list Z) :=
  match n with
  | O => Ok (l, replacements)
  | S m =>
      let* w := vec_get write_count reg_idx in
      let* r := vec_get read_count reg_idx in
      let* mv := vec_get reg_mov reg_idx in
      match mv with
      | Some p =>
          if (w =? 1) && (r =? 1) then
            let* insn := of_option UndefinedBehaviour (l !! p) in
            check* is_vreg (op insn 1) or AssertFailed in
            let* replacements1 := vec_set replacements reg_idx (get_vreg_idx (op insn 1)) in
            find_replacements m (reg_idx + 1) write_count read_count reg_mov (<[p := make_nop insn]> l) replacements1
          else find_replacements m (reg_idx + 1) write_count read_count reg_mov l replacements
      | None => find_replacements m (reg_idx + 1) write_count read_count reg_mov l replacements
      end
  end.

(** [while(replacements[replacement] != 0xffffffff)]. *)
Fixpoint last_replacement (fuel : nat) (replacements : list Z) (replacement : Z) : result Z :=
  match fuel with
  | O => Err OutOfFuel
  | S n =>
      let* next := vec_get replacements replacement in
      if next =? NO_REPLACEMENT then Ok replacement else last_replacement n replacements next
  end.

Definition replace_operand (fuel : nat) (replacements : list Z) (operand : IROperand) : result IROperand :=
  if is_vreg operand then
    let* replacement := vec_get replacements (get_vreg_idx operand) in
    if replacement =? NO_REPLACEMENT then Ok operand
    else let* r := last_replacement fuel replacements replacement in Ok (with_value r operand)
  else Ok operand.

Fixpoint replace_operands (fuel : nat) (replacements : list Z) (ops : list IROperand) : result (list IROperand) :=
  match ops with
  | [] => Ok []
  | o :: r =>
      let* o1 := replace_operand fuel replacements o in
      let* r1 := replace_operands fuel replacements r in Ok (o1 :: r1)
  end.

Fixpoint replace_insns (fuel : nat) (replacements : list Z) (l : list IRInstruction) : result (list IRInstruction) :=
  match l with
  | [] => Ok []
  | insn :: r =>
      let* ops := replace_operands fuel replacements (operands insn) in
      let* r1 := replace_insns fuel replacements r in
      Ok (mkInsn ops (ir_block insn) (type insn) :: r1)
  end.

Definition MovElimination_Apply (fuel : nat) (c : TranslationContext) : result TranslationContext :=
  let n := Z.to_nat (_ir_reg_count c) in
  let* ((write_count, read_count), reg_mov) :=
    count_insns 0 (_ir_insns c) (replicate n 0, replicate n 0) (replicate n None) in
  let* (l, replacements) :=
    find_replacements n 0 write_count read_count reg_mov (_ir_insns c) (replicate n NO_REPLACEMENT) in
  let* l1 := replace_insns fuel replacements l in
  Ok (with_insns l1 c).

(** ** What it gets wrong *)

(** Register 0 is read between the write of register 1 and the move of
    register 1 to register 0. *)
Definition mov_example : TranslationContext :=
  mkContext 1 2
    [mkInsn [constant 1 8; vreg 0 8] 0 MOV; mkInsn [constant 2 8; vreg 1 8] 0 MOV;
     mkInsn [vreg 0 8; constant 16 8] 0 WRITE_REG; mkInsn [vreg 1 8; vreg 0 8] 0 MOV;
     mkInsn [vreg 0 8; constant 24 8] 0 WRITE_REG; mkInsn [] 0 RET] 0.

(** Move elimination does not check that the target of the move is
    left alone between the write of the register and the move: the register
    is written through its replacement too early, and code in between that
    reads the target sees the new value. *)
Theorem mov_elimination_clobbers :
  RespectsDescriptors small_exec small_taken /\
  option_map (fun r => snd (snd r)) (run small_exec small_taken 1 (_ir_insns mov_example) 0 (fun _ => 0, []))
    = Some [24; 2; 16; 1] /\
  exists c', MovElimination_Apply 3 mov_example = Ok c' /\
    option_map (fun r => snd (snd r)) (run small_exec small_taken 1 (_ir_insns c') 0 (fun _ => 0, []))
      = Some [24; 2; 16; 2].
Proof.
  split; [apply small_respects |]. split; [reflexivity |]. eexists. split; [vm_compute; reflexivity | reflexivity].
Qed.
