(* ===== verification/RegAlloc.v ===== *)
(** * Register allocation

    GlobalRegisterAllocationTransform.cpp: live ranges of the virtual
    registers, a linear scan that hands out numbered registers, the mapping
    of those numbers to machine registers and stack slots, and the attachment
    of the result to the operands.

    The allocated code works on locations; it is run by the same machine with
    every virtual register operand replaced by its location. *)

From Stdlib Require Import ZArith Lia Bool Ascii Sorted.
From stdpp Require Import base list numbers sets.
From S2P Require Import Prelude.
From S2P Require Import BlockIR.
From S2P Require Import IRSorterCorrect.
From S2P Require Import BlockFlow.
From S2P Require Import ValueFlow.
From S2P Require Import DeadStore.

(** ** The transform *)

Definition UNSET : Z := 0xffffffff.

(** The first and the last instruction that mentions a virtual register. *)
Definition range_operand (insn_idx : Z) (op : IROperand) (st : list Z * list Z) : result (list Z * list Z) :=
  let '(vreg_begins, vreg_ends) := st in
  if is_vreg op then
    let* b := vec_get vreg_begins (get_vreg_idx op) in
    let* vreg_begins1 := if insn_idx <? b then vec_set vreg_begins (get_vreg_idx op) insn_idx else Ok vreg_begins in
    let* e := vec_get vreg_ends (get_vreg_idx op) in
    let* vreg_ends1 := if e <? insn_idx then vec_set vreg_ends (get_vreg_idx op) insn_idx else Ok vreg_ends in
    Ok (vreg_begins1, vreg_ends1)
  else Ok st.

Record scan_state := mkScan {
  allocations : list Z;
  free_regs : list Z;             (* the back of the vector first *)
  next_free_reg : Z;
  total_regs : Z
}.

Definition allocate_reg (idx : Z) (st : scan_state) : result scan_state :=
  match free_regs st with
  | reg_id :: rest =>
      let* a := vec_set (allocations st) idx reg_id in
      Ok (mkScan a rest (next_free_reg st) (total_regs st))
  | [] =>
      let* a := vec_set (allocations st) idx (next_free_reg st) in
      Ok (mkScan a [] (u32 (next_free_reg st + 1)) (u32 (total_regs st + 1)))
  end.

Definition release_reg (idx : Z) (st : scan_state) : result scan_state :=
  let* a := vec_get (allocations st) idx in
  Ok (mkScan (allocations st) (a :: free_regs st) (next_free_reg st) (total_regs st)).

Definition scan_operand (vreg_begins vreg_ends : list Z) (insn_idx : Z) (op : IROperand) (st : scan_state)
  : result scan_state :=
  if is_vreg op then
    let* b := vec_get vreg_begins (get_vreg_idx op) in
    let* st1 := if insn_idx =? b then allocate_reg (get_vreg_idx op) st else Ok st in
    let* e := vec_get vreg_ends (get_vreg_idx op) in
    if insn_idx =? e then release_reg (get_vreg_idx op) st1 else Ok st1
  else Ok st.

(** [for(insn_idx ...) for(op_idx ...) f(insn_idx, operand)]. *)
Fixpoint over_operands {St} (f : IROperand -> St -> result St) (ops : list IROperand) (st : St) : result St :=
  match ops with
  | [] => Ok st
  | op :: r => let* st1 := f op st in over_operands f r st1
  end.
Fixpoint over_insns {St} (f : Z -> IROperand -> St -> result St) (insn_idx : Z) (l : list IRInstruction) (st : St)
  : result St :=
  match l with
  | [] => Ok st
  | insn :: r =>
      let* st1 := over_operands (f insn_idx) (operands insn) st in
      over_insns f (insn_idx + 1) r st1
  end.

Record phys_state := mkPhys {
  allocation_info : list (IRAllocationMode * Z);
  regs_left : Z;
  next_stack_frame : Z;
  used_phys_regs : list bool
}.

(** One of the [total_regs] numbered registers; the entries of
    [allocation_info] are filled in order. *)
Definition place_reg (num_allocable_registers : Z) (st : phys_state) : result phys_state :=
  if to_bool (regs_left st) then
    let r := num_allocable_registers - regs_left st in
    let* used := vec_set (used_phys_regs st) r true in
    Ok (mkPhys (allocation_info st ++ [(ALLOCATED_REG, r)]) (regs_left st - 1) (next_stack_frame st) used)
  else
    Ok (mkPhys (allocation_info st ++ [(ALLOCATED_STACK, next_stack_frame st)]) (regs_left st)
          (u32 (next_stack_frame st + 8)) (used_phys_regs st)).

Fixpoint place_regs (num_allocable_registers : Z) (n : nat) (st : phys_state) : result phys_state :=
  match n with
  | O => Ok st
  | S m => let* st1 := place_reg num_allocable_registers st in place_regs num_allocable_registers m st1
  end.

Definition attach_operand (allocations : list Z) (info : list (IRAllocationMode * Z)) (op : IROperand)
  : result IROperand :=
  if is_vreg op then
    let* a := vec_get allocations (get_vreg_idx op) in
    let* allocation := vec_get info a in
    Ok (allocate (fst allocation) (snd allocation) op)
  else Ok op.

Fixpoint result_map {A B} (f : A -> result B) (l : list A) : result (list B) :=
  match l with
  | [] => Ok []
  | x :: r => let* y := f x in let* r1 := result_map f r in Ok (y :: r1)
  end.

Definition attach_insn (allocations : list Z) (info : list (IRAllocationMode * Z)) (insn : IRInstruction)
  : result IRInstruction :=
  let* ops := result_map (attach_operand allocations info) (operands insn) in
  Ok (mkInsn ops (ir_block insn) (type insn)).

Definition vreg_ranges (c : TranslationContext) : result (list Z * list Z) :=
  let n := Z.to_nat (_ir_reg_count c) in
  over_insns range_operand 0 (_ir_insns c) (replicate n UNSET, replicate n 0).

Definition linear_scan (vreg_begins vreg_ends : list Z) (c : TranslationContext) : result scan_state :=
  over_insns (scan_operand vreg_begins vreg_ends) 0 (_ir_insns c)
    (mkScan (replicate (Z.to_nat (_ir_reg_count c)) UNSET) [] 0 0).

(** The new buffer, [stack_frame_size_] and [used_phys_regs_]. *)
Definition GlobalRegisterAllocation_Apply (num_allocable_registers : Z) (c : TranslationContext)
  : result (TranslationContext * Z * list bool) :=
  let* (vreg_begins, vreg_ends) := vreg_ranges c in
  let* st := linear_scan vreg_begins vreg_ends c in
  let* ph := place_regs num_allocable_registers (Z.to_nat (total_regs st))
               (mkPhys [] num_allocable_registers 0 (replicate (Z.to_nat num_allocable_registers) false)) in
  let* l := result_map (attach_insn (allocations st) (allocation_info ph)) (_ir_insns c) in
  Ok (with_insns l c, next_stack_frame ph, used_phys_regs ph).

(** ** Events

    The two passes over the operands only look at the mentions of virtual
    registers, in order. *)

Definition event : Type := Z * Z.      (* instruction, virtual register *)

Definition insn_events (p : Z) (ops : list IROperand) : list event :=
  map (fun o => (p, get_vreg_idx o)) (List.filter is_vreg ops).

Fixpoint events (p : Z) (l : list IRInstruction) : list event :=
  match l with
  | [] => []
  | i :: r => insn_events p (operands i) ++ events (p + 1) r
  end.

Fixpoint over_events {St} (f : event -> St -> result St) (E : list event) (st : St) : result St :=
  match E with
  | [] => Ok st
  | e :: r => let* st1 := f e st in over_events f r st1
  end.

Lemma over_events_app {St} (f : event -> St -> result St) E1 E2 st :
  over_events f (E1 ++ E2) st = let* st1 := over_events f E1 st in over_events f E2 st1.
Proof.
  revert st. induction E1 as [| e E1 IH]; intros st; [reflexivity |]. cbn. destruct (f e st); cbn; auto.
Qed.

(** A pass that skips every operand that is not a virtual register. *)
Lemma over_insns_events {St} (f : Z -> IROperand -> St -> result St) (g : event -> St -> result St) :
  (forall p o st, f p o st = if is_vreg o then g (p, get_vreg_idx o) st else Ok st) ->
  forall l p st, over_insns f p l st = over_events g (events p l) st.
Proof.
  intros Hf. assert (Ho : forall ops p st, over_operands (f p) ops st = over_events g (insn_events p ops) st).
  { induction ops as [| o ops IH]; intros p st; [reflexivity |]. cbn [over_operands]. rewrite Hf.
    unfold insn_events. cbn [List.filter]. destruct (is_vreg o); [| cbn; apply IH].
    cbn. destruct (g (p, get_vreg_idx o) st); cbn; [apply IH | reflexivity]. }
  induction l as [| i l IH]; intros p st; [reflexivity |]. cbn [over_insns events].
  rewrite Ho, over_events_app. destruct (over_events g (insn_events p (operands i)) st); cbn; [apply IH | reflexivity].
Qed.

Lemma insn_events_elem p ops q x :
  (q, x) ∈ insn_events p ops <-> q = p /\ exists o, o ∈ ops /\ is_vreg o = true /\ get_vreg_idx o = x.
Proof.
  unfold insn_events. rewrite list_elem_of_In, in_map_iff. split.
  - intros (o & [= <- <-] & Ho). apply filter_In in Ho as [Ho Hv]. split; [reflexivity |].
    exists o. rewrite list_elem_of_In. auto.
  - intros (-> & o & Ho & Hv & <-). exists o. split; [reflexivity |]. apply filter_In. rewrite <- list_elem_of_In. auto.
Qed.

Lemma events_elem p l q x :
  (q, x) ∈ events p l <->
  exists k i o, l !! k = Some i /\ q = p + Z.of_nat k /\ o ∈ operands i /\ is_vreg o = true /\ get_vreg_idx o = x.
Proof.
  revert p. induction l as [| i l IH]; intros p; cbn [events].
  - split; [intros H; inversion H | intros (k & i & o & H & _); discriminate].
  - rewrite elem_of_app, insn_events_elem, IH. split.
    + intros [(-> & o & Ho) | (k & j & o & Hk & -> & Ho)].
      * exists 0%nat, i, o. split; [reflexivity |]. split; [lia | assumption].
      * exists (S k), j, o. split; [assumption |]. split; [lia | assumption].
    + intros ([| k] & j & o & Hk & -> & Ho).
      * injection Hk as <-. left. split; [lia | eauto].
      * right. exists k, j, o. split; [assumption |]. split; [lia | assumption].
Qed.

Lemma events_from p l : Forall (fun e => p <= fst e) (events p l).
Proof.
  apply Forall_forall. intros [q x] H. apply events_elem in H as (k & i & o & _ & -> & _). cbn. lia.
Qed.

Lemma sorted_before {A} (R : A -> A -> Prop) E1 e E2 :
  StronglySorted R (E1 ++ e :: E2) -> Forall (fun d => R d e) E1.
Proof.
  induction E1 as [| d E1 IH]; intros H; [constructor |]. cbn in H. apply StronglySorted_inv in H as [H Hd].
  constructor; [| auto]. rewrite Forall_forall in Hd. apply Hd, elem_of_app. right. left.
Qed.

Lemma events_sorted_app {A} (R : A -> A -> Prop) E1 E2 :
  StronglySorted R E1 -> StronglySorted R E2 -> (forall a b, a ∈ E1 -> b ∈ E2 -> R a b) -> StronglySorted R (E1 ++ E2).
Proof.
  intros H1 H2 H. induction H1 as [| a E1 H1 IH Ha]; [assumption |]. cbn. constructor.
  - apply IH. intros x y Hx Hy. apply H; [right |]; assumption.
  - apply Forall_app. split; [assumption |]. apply Forall_forall. intros b Hb. apply H; [left | assumption].
Qed.

Lemma events_sorted p l : StronglySorted (fun a b : event => fst a <= fst b) (events p l).
Proof.
  revert p. induction l as [| i l IH]; intros p; cbn [events]; [constructor |]. apply events_sorted_app; [| apply IH |].
  - unfold insn_events. induction (List.filter is_vreg (operands i)) as [| o r IHr]; cbn; constructor; [assumption |].
    apply Forall_forall. intros d Hd. apply list_elem_of_In, in_map_iff in Hd as (o' & <- & _). cbn. lia.
  - intros [q x] b Ha Hb. apply insn_events_elem in Ha as [-> _].
    pose proof (events_from (p + 1) l) as Hf. rewrite Forall_forall in Hf. specialize (Hf b Hb). cbn. lia.
Qed.

(** ** Live ranges *)

Definition range_event (e : event) (st : list Z * list Z) : result (list Z * list Z) :=
  let '(vreg_begins, vreg_ends) := st in
  let* b := vec_get vreg_begins (snd e) in
  let* vreg_begins1 := if fst e <? b then vec_set vreg_begins (snd e) (fst e) else Ok vreg_begins in
  let* n := vec_get vreg_ends (snd e) in
  let* vreg_ends1 := if n <? fst e then vec_set vreg_ends (snd e) (fst e) else Ok vreg_ends in
  Ok (vreg_begins1, vreg_ends1).

(** [v] with [v[i] < x] or [v[i] > x] replaced, as the two updates do. *)
Definition upd (v : list Z) (i x : Z) (c : Z -> bool) : result (list Z) :=
  let* b := vec_get v i in if c b then vec_set v i x else Ok v.

Lemma upd_spec v i x c :
  0 <= i < Z.of_nat (length v) ->
  exists v', upd v i x c = Ok v' /\ length v' = length v /\
    forall j, 0 <= j -> v' !!! Z.to_nat j = if (j =? i) && c (v !!! Z.to_nat i) then x else v !!! Z.to_nat j.
Proof.
  intros Hi. unfold upd. destruct (vec_get_in_range v i Hi) as (b & Eb). rewrite Eb. cbn [rbind].
  apply vec_get_Ok in Eb as [_ Eb]. rewrite (list_lookup_total_correct _ _ _ Eb). destruct (c b) eqn:Ec.
  - exists (set_at v i x). split; [apply vec_set_Ok; auto |]. split; [apply length_set_at |]. intros j Hj.
    rewrite andb_true_r. rewrite !list_lookup_total_alt, lookup_set_at by assumption.
    destruct (Z.eqb_spec j i) as [-> |]; [rewrite decide_True by reflexivity; reflexivity |].
    rewrite decide_False by lia. reflexivity.
  - exists v. split; [reflexivity |]. split; [reflexivity |]. intros j Hj. rewrite andb_false_r. reflexivity.
Qed.

(** The ranges of the events so far. *)
Record ranges (n : nat) (E : list event) (bs es : list Z) : Prop := {
  rg_begins : length bs = n;
  rg_ends : length es = n;
  rg_bounds : forall p x, (p, x) ∈ E -> bs !!! Z.to_nat x <= p <= es !!! Z.to_nat x;
  rg_first : forall p x, (p, x) ∈ E -> (bs !!! Z.to_nat x, x) ∈ E;
  rg_last : forall p x, (p, x) ∈ E -> (es !!! Z.to_nat x, x) ∈ E
}.

Definition ranges_unset (E : list event) (bs es : list Z) : Prop :=
  forall x, 0 <= x < Z.of_nat (length bs) -> (forall p, ~ (p, x) ∈ E) -> bs !!! Z.to_nat x = UNSET /\ es !!! Z.to_nat x = 0.

Lemma range_event_spec n E bs es p x :
  ranges n E bs es -> ranges_unset E bs es -> 0 <= x < Z.of_nat n -> 0 <= p < UNSET ->
  (forall q y, (q, y) ∈ E -> 0 <= y) ->
  exists bs' es', range_event (p, x) (bs, es) = Ok (bs', es') /\
    ranges n (E ++ [(p, x)]) bs' es' /\ ranges_unset (E ++ [(p, x)]) bs' es'.
Proof.
  intros [Hb He Hbd Hf Hl] Hu Hx Hp Hnn.
  destruct (upd_spec bs x p (fun b => p <? b)) as (bs' & E1 & L1 & V1); [lia |].
  destruct (upd_spec es x p (fun b => b <? p)) as (es' & E2 & L2 & V2); [lia |].
  exists bs', es'. split; [| split].
  - unfold range_event, upd in *. cbn [fst snd]. destruct (vec_get bs x); [| discriminate E1]. cbn [rbind] in *.
    rewrite E1. cbn [rbind]. destruct (vec_get es x); [| discriminate E2]. cbn [rbind] in *. rewrite E2. reflexivity.
  - assert (Hcase : (exists q, (q, x) ∈ E) \/ (bs !!! Z.to_nat x = UNSET /\ es !!! Z.to_nat x = 0 /\ forall q, ~ (q, x) ∈ E)).
    { destruct (decide (Exists (fun e : event => snd e = x) E)) as [D | D].
      - apply Exists_exists in D as ([q y] & Hq & <-). eauto.
      - right. assert (Hn : forall q, ~ (q, x) ∈ E).
        { intros q Hq. apply D, Exists_exists. exists (q, x). auto. }
        destruct (Hu x ltac:(lia) Hn). auto. }
    assert (Hbd' : bs' !!! Z.to_nat x <= p <= es' !!! Z.to_nat x).
    { rewrite V1, V2, Z.eqb_refl by lia. cbn [andb].
      destruct (Z.ltb_spec p (bs !!! Z.to_nat x)), (Z.ltb_spec (es !!! Z.to_nat x) p); lia. }
    split; [lia | lia | | |].
    + intros q y [H | H%list_elem_of_singleton]%elem_of_app.
      * specialize (Hbd q y H). pose proof (Hnn q y H). rewrite V1, V2 by assumption.
        destruct (Z.eqb_spec y x) as [-> |]; cbn [andb]; [| assumption].
        destruct (Z.ltb_spec p (bs !!! Z.to_nat x)), (Z.ltb_spec (es !!! Z.to_nat x) p); lia.
      * injection H as -> ->. assumption.
    + intros q y H. rewrite elem_of_app, list_elem_of_singleton in H |- *.
      assert (Hy : 0 <= y) by (destruct H as [H | [= -> ->]]; [eapply Hnn; eassumption | lia]).
      rewrite V1 by assumption. destruct (Z.eqb_spec y x) as [-> |]; cbn [andb].
      * destruct (Z.ltb_spec p (bs !!! Z.to_nat x)); [right; reflexivity |].
        destruct Hcase as [[q' Hq'] | (H1 & _)]; [left; eapply Hf; eassumption | lia].
      * left. destruct H as [H | [= -> ->]]; [eapply Hf; eassumption | congruence].
    + intros q y H. rewrite elem_of_app, list_elem_of_singleton in H |- *.
      assert (Hy : 0 <= y) by (destruct H as [H | [= -> ->]]; [eapply Hnn; eassumption | lia]).
      rewrite V2 by assumption. destruct (Z.eqb_spec y x) as [-> |]; cbn [andb].
      * destruct (Z.ltb_spec (es !!! Z.to_nat x) p); [right; reflexivity |].
        destruct Hcase as [[q' Hq'] | (_ & H2 & _)]; [left; eapply Hl; eassumption |].
        right. f_equal. lia.
      * left. destruct H as [H | [= -> ->]]; [eapply Hl; eassumption | congruence].
  - intros y Hy Hn. rewrite V1, V2 by lia. destruct (Z.eqb_spec y x) as [-> |].
    + exfalso. apply (Hn p), elem_of_app. right. left.
    + cbn [andb]. apply Hu; [lia |]. intros q Hq. apply (Hn q), elem_of_app. left. assumption.
Qed.

Definition events_ok (n : nat) (E : list event) : Prop :=
  Forall (fun e => 0 <= fst e < UNSET /\ 0 <= snd e < Z.of_nat n) E.

Lemma ranges_total n E :
  events_ok n E ->
  exists bs es, over_events range_event E (replicate n UNSET, replicate n 0) = Ok (bs, es) /\ ranges n E bs es.
Proof.
  assert (Hgen : forall E2 E1 bs es, events_ok n (E1 ++ E2) -> ranges n E1 bs es -> ranges_unset E1 bs es ->
    exists bs' es', over_events range_event E2 (bs, es) = Ok (bs', es') /\ ranges n (E1 ++ E2) bs' es').
  { induction E2 as [| [p x] E2 IH]; intros E1 bs es Hok Hr Hu.
    - exists bs, es. rewrite app_nil_r. auto.
    - assert (Hok' := Hok). apply Forall_app in Hok as [Hok1 Hok2]. apply Forall_cons in Hok2 as [[Hp Hx] _]. cbn in Hp, Hx.
      destruct (range_event_spec n E1 bs es p x Hr Hu Hx Hp) as (bs1 & es1 & Ev & Hr1 & Hu1).
      { intros q y Hq. rewrite Forall_forall in Hok1. specialize (Hok1 _ Hq). cbn in Hok1. lia. }
      cbn [over_events]. rewrite Ev. cbn [rbind].
      destruct (IH (E1 ++ [(p, x)]) bs1 es1) as (bs' & es' & Ev' & Hr'); [rewrite <- app_assoc; assumption | assumption | assumption |].
      rewrite <- app_assoc in Hr'. eauto. }
  intros Hok. apply (Hgen E []); [assumption | |].
  - split; try apply length_replicate; intros p x H; inversion H.
  - intros x Hx _. rewrite length_replicate in Hx. split; apply lookup_total_replicate_2; lia.
Qed.

(** ** The linear scan *)

Definition scan_event (vreg_begins vreg_ends : list Z) (ev : event) (st : scan_state) : result scan_state :=
  let* b := vec_get vreg_begins (snd ev) in
  let* st1 := if fst ev =? b then allocate_reg (snd ev) st else Ok st in
  let* e := vec_get vreg_ends (snd ev) in
  if fst ev =? e then release_reg (snd ev) st1 else Ok st1.

Section Scan.
Context (n : nat) (E : list event) (bs es : list Z) (Hok : events_ok n E)
        (Hsorted : StronglySorted (fun a b : event => fst a <= fst b) E) (Hrg : ranges n E bs es)
        (Hsmall : Z.of_nat (length E) < 2 ^ 32).

Definition begin_ (x : Z) : Z := bs !!! Z.to_nat x.
Definition end_ (x : Z) : Z := es !!! Z.to_nat x.
Definition reg_of (st : scan_state) (x : Z) : Z := allocations st !!! Z.to_nat x.

(** A register is mentioned once in the last instruction that mentions it,
    unless that is the only one. *)
Definition single_last_use : Prop :=
  forall x E1 E2, E = E1 ++ (end_ x, x) :: E2 -> begin_ x < end_ x -> ~ (end_ x, x) ∈ E1 /\ ~ (end_ x, x) ∈ E2.
Context (Hsingle : single_last_use).

(** Registers that have been given a number and are mentioned again after
    their first instruction. *)
Definition live (E1 E2 : list event) (x : Z) : Prop :=
  (exists p, (p, x) ∈ E1) /\ exists p, (p, x) ∈ E2 /\ begin_ x < p.

Record scan_inv (E1 : list event) (held : Z -> Prop) (st : scan_state) : Prop := {
  si_length : length (allocations st) = n;
  si_total : total_regs st = next_free_reg st;
  si_next : 0 <= next_free_reg st <= Z.of_nat (length E1);
  si_nodup : NoDup (free_regs st);
  si_free : Forall (fun r => 0 <= r < next_free_reg st) (free_regs st);
  si_given : forall p x, (p, x) ∈ E1 -> 0 <= reg_of st x < next_free_reg st;
  si_held : forall x, held x -> ~ reg_of st x ∈ free_regs st;
  si_apart : forall x y, held x -> held y -> x <> y -> reg_of st x <> reg_of st y
}.

Lemma event_ok p x : (p, x) ∈ E -> 0 <= p < UNSET /\ 0 <= x < Z.of_nat n.
Proof. intros H. unfold events_ok in Hok. rewrite Forall_forall in Hok. apply (Hok _ H). Qed.

Lemma reg_of_set st a x y F N T :
  0 <= x < Z.of_nat n -> length (allocations st) = n -> 0 <= y ->
  reg_of (mkScan (set_at (allocations st) x a) F N T) y = if y =? x then a else reg_of st y.
Proof.
  intros Hx Hl Hy. unfold reg_of. cbn [allocations]. rewrite !list_lookup_total_alt, lookup_set_at by lia.
  destruct (Z.eqb_spec y x) as [-> |]; [rewrite decide_True by reflexivity | rewrite decide_False by lia]; reflexivity.
Qed.

(** A new register: different from every number held by a live register. *)
Lemma allocate_reg_spec E1 E2 st x :
  scan_inv E1 (live E1 E2) st -> 0 <= x < Z.of_nat n -> Z.of_nat (length E1) + 1 < 2 ^ 32 ->
  exists st', allocate_reg x st = Ok st' /\ length (allocations st') = n /\ total_regs st' = next_free_reg st' /\
    next_free_reg st <= next_free_reg st' <= Z.of_nat (length E1) + 1 /\
    NoDup (free_regs st') /\ Forall (fun r => 0 <= r < next_free_reg st') (free_regs st') /\
    (forall y, 0 <= y -> y <> x -> reg_of st' y = reg_of st y) /\
    0 <= reg_of st' x < next_free_reg st' /\ ~ reg_of st' x ∈ free_regs st' /\
    (forall r, r ∈ free_regs st' -> r ∈ free_regs st) /\
    (forall y, live E1 E2 y -> reg_of st y <> reg_of st' x).
Proof.
  intros [Hl Ht Hn Hnd Hf Hg Hh Ha] Hx Hb. unfold allocate_reg. destruct (free_regs st) as [| r rest] eqn:Ef.
  - assert (E0 : vec_set (allocations st) x (next_free_reg st) = Ok (set_at (allocations st) x (next_free_reg st)))
      by (apply vec_set_Ok; split; [lia | reflexivity]).
    rewrite E0. cbn [rbind]. eexists. split; [reflexivity |]. cbn [allocations total_regs next_free_reg free_regs].
    assert (Hu : u32 (next_free_reg st + 1) = next_free_reg st + 1) by (apply wrap_small; unfold in_range; lia).
    rewrite length_set_at, Ht, Hu. split; [assumption |]. split; [reflexivity |]. split; [lia |].
    split; [constructor |]. split; [constructor |]. split.
    { intros y Hy Hyx. rewrite reg_of_set by lia. destruct (Z.eqb_spec y x); [contradiction | reflexivity]. }
    rewrite reg_of_set, Z.eqb_refl by lia. split; [lia |]. split; [intros H; inversion H |]. split; [auto |].
    intros y [[p Hp] _]. specialize (Hg p y Hp). lia.
  - assert (E0 : vec_set (allocations st) x r = Ok (set_at (allocations st) x r))
      by (apply vec_set_Ok; split; [lia | reflexivity]).
    rewrite E0. cbn [rbind]. eexists. split; [reflexivity |]. cbn [allocations total_regs next_free_reg free_regs].
    apply NoDup_cons in Hnd as [Hr Hnd]. apply Forall_cons in Hf as [Hrn Hf].
    rewrite length_set_at. split; [assumption |]. split; [assumption |]. split; [lia |].
    split; [assumption |]. split; [assumption |]. split.
    { intros y Hy Hyx. rewrite reg_of_set by lia. destruct (Z.eqb_spec y x); [contradiction | reflexivity]. }
    rewrite reg_of_set, Z.eqb_refl by lia. split; [lia |]. split; [assumption |]. split; [right; assumption |].
    intros y Hy <-. apply (Hh y Hy). left.
Qed.

Lemma live_step E1 p x E2 y :
  live (E1 ++ [(p, x)]) E2 y -> live E1 ((p, x) :: E2) y \/ (y = x /\ ~ exists q, (q, x) ∈ E1).
Proof.
  intros [[q Hq] (q' & Hq' & Hlt)]. destruct (decide (Exists (fun e : event => snd e = y) E1)) as [D | D].
  - left. apply Exists_exists in D as ([q0 y0] & H0 & <-). cbn. split; [eauto |]. exists q'. split; [right |]; assumption.
  - apply elem_of_app in Hq as [Hq | Hq%list_elem_of_singleton].
    + exfalso. apply D, Exists_exists. eexists. split; [exact Hq | reflexivity].
    + injection Hq as -> ->. right. split; [reflexivity |]. intros [q0 H0]. apply D, Exists_exists.
      eexists. split; [exact H0 | reflexivity].
Qed.

Lemma scan_inv_weaken E1 (L L' : Z -> Prop) st : (forall x, L' x -> L x) -> scan_inv E1 L st -> scan_inv E1 L' st.
Proof. intros H [Hl Ht Hn Hnd Hf Hg Hh Ha]. split; auto. Qed.

(** Giving a number back. *)
Lemma release_reg_spec E1 L st x :
  scan_inv E1 (fun y => y = x \/ L y) st -> ~ L x -> 0 <= x < Z.of_nat n -> (exists p, (p, x) ∈ E1) ->
  exists st', release_reg x st = Ok st' /\ scan_inv E1 L st' /\ allocations st' = allocations st.
Proof.
  intros [Hl Ht Hn Hnd Hf Hg Hh Ha] Hx Hxn [p Hp]. unfold release_reg.
  destruct (vec_get_in_range (allocations st) x) as (a & Ea); [lia |]. rewrite Ea. cbn [rbind].
  apply vec_get_Ok in Ea as [_ Ea]. assert (Er : reg_of st x = a) by apply (list_lookup_total_correct _ _ _ Ea).
  eexists. split; [reflexivity |]. split; [| reflexivity]. split; cbn; try assumption.
  - apply NoDup_cons. split; [| assumption]. rewrite <- Er. apply Hh. auto.
  - apply Forall_cons. split; [rewrite <- Er; eapply Hg; eassumption | assumption].
  - intros y Hy [H | H]%elem_of_cons; [| exact (Hh y (or_intror Hy) H)].
    apply (Ha y x); auto; [congruence |]. unfold reg_of in *. cbn in H. congruence.
  - intros y z Hy Hz. apply Ha; auto.
Qed.

Lemma begin_processed (E1 : list event) p x (E2 : list event) : E = E1 ++ (p, x) :: E2 -> begin_ x <> p -> (begin_ x, x) ∈ E1 /\ begin_ x < p.
Proof.
  intros HE Hne. assert (Hin : (p, x) ∈ E) by (rewrite HE; apply elem_of_app; right; left).
  pose proof (rg_bounds _ _ _ _ Hrg p x Hin) as Hbd. pose proof (rg_first _ _ _ _ Hrg p x Hin) as Hfi.
  fold (begin_ x) in Hbd, Hfi. split; [| lia]. rewrite HE in Hfi.
  apply elem_of_app in Hfi as [H | [[= H] | H]%elem_of_cons]; [assumption | congruence |].
  apply list_elem_of_split in H as (D1 & D2 & ->). exfalso. rewrite HE in Hsorted.
  replace (E1 ++ (p, x) :: D1 ++ (begin_ x, x) :: D2) with ((E1 ++ (p, x) :: D1) ++ (begin_ x, x) :: D2) in Hsorted
    by (rewrite <- app_assoc; reflexivity).
  apply sorted_before in Hsorted. rewrite Forall_forall in Hsorted.
  specialize (Hsorted (p, x)). cbn in Hsorted. assert (p <= begin_ x) by (apply Hsorted, elem_of_app; right; left). lia.
Qed.

Lemma later_events E1 p x E2 q y : E = E1 ++ (p, x) :: E2 -> (q, y) ∈ E2 -> p <= q.
Proof.
  intros HE H. apply list_elem_of_split in H as (D1 & D2 & ->). rewrite HE in Hsorted.
  replace (E1 ++ (p, x) :: D1 ++ (q, y) :: D2) with ((E1 ++ (p, x) :: D1) ++ (q, y) :: D2) in Hsorted
    by (rewrite <- app_assoc; reflexivity).
  apply sorted_before in Hsorted. rewrite Forall_forall in Hsorted.
  apply (Hsorted (p, x)), elem_of_app. right. left.
Qed.

(** After its last mention a register is not live. *)
Lemma ended (E1 : list event) x (E2 : list event) : E = E1 ++ (end_ x, x) :: E2 -> ~ live (E1 ++ [(end_ x, x)]) E2 x.
Proof.
  intros HE [_ (q & Hq & Hlt)]. pose proof (later_events _ _ _ _ _ _ HE Hq) as Hge.
  assert (Hin : (q, x) ∈ E) by (rewrite HE; apply elem_of_app; right; right; assumption).
  pose proof (rg_bounds _ _ _ _ Hrg q x Hin) as Hbd. fold (begin_ x) (end_ x) in Hbd.
  assert (q = end_ x) as -> by lia. destruct (Hsingle x E1 E2 HE) as [_ H]; [lia | contradiction].
Qed.

Lemma scan_step (E1 : list event) p x (E2 : list event) st :
  E = E1 ++ (p, x) :: E2 -> scan_inv E1 (live E1 ((p, x) :: E2)) st ->
  exists st', scan_event bs es (p, x) st = Ok st' /\
    scan_inv (E1 ++ [(p, x)]) (live (E1 ++ [(p, x)]) E2) st' /\
    (forall y, 0 <= y -> (p, x) <> (begin_ y, y) -> reg_of st' y = reg_of st y) /\
    (p = begin_ x -> forall y, live E1 ((p, x) :: E2) y -> reg_of st y <> reg_of st' x).
Proof.
  intros HE Hinv. assert (Hin : (p, x) ∈ E) by (rewrite HE; apply elem_of_app; right; left).
  destruct (event_ok p x Hin) as [Hp Hx].
  assert (HlenE : Z.of_nat (length E1) + 1 < 2 ^ 32) by (rewrite HE, length_app in Hsmall; cbn in Hsmall; lia).
  pose proof (rg_begins _ _ _ _ Hrg) as Lb. pose proof (rg_ends _ _ _ _ Hrg) as Le.
  assert (Gb : vec_get bs x = Ok (begin_ x)) by (apply vec_get_Ok; split; [lia | apply list_lookup_lookup_total_lt; lia]).
  assert (Ge : vec_get es x = Ok (end_ x)) by (apply vec_get_Ok; split; [lia | apply list_lookup_lookup_total_lt; lia]).
  assert (Hx1 : exists q, (q, x) ∈ E1 ++ [(p, x)]) by (exists p; apply elem_of_app; right; left).
  assert (Hmid : exists st1, (if p =? begin_ x then allocate_reg x st else Ok st) = Ok st1 /\
      scan_inv (E1 ++ [(p, x)]) (fun y => y = x \/ live (E1 ++ [(p, x)]) E2 y) st1 /\
      (forall y, 0 <= y -> (p, x) <> (begin_ y, y) -> reg_of st1 y = reg_of st y) /\
      (p = begin_ x -> forall y, live E1 ((p, x) :: E2) y -> reg_of st y <> reg_of st1 x)).
  { destruct (Z.eqb_spec p (begin_ x)) as [Eb | Nb].
    - destruct (allocate_reg_spec E1 ((p, x) :: E2) st x Hinv Hx HlenE)
        as (st1 & E0 & L & T & N & ND & F & Oth & B & NF & Sub & Dis).
      exists st1. split; [assumption |]. destruct Hinv as [Hl Ht Hn Hnd Hf Hg Hh Ha].
      assert (Hnn : forall q y, (q, y) ∈ E1 -> 0 <= y).
      { intros q y Hq. apply (event_ok q y). rewrite HE. apply elem_of_app. auto. }
      assert (Hlv : forall y, y <> x -> live (E1 ++ [(p, x)]) E2 y -> live E1 ((p, x) :: E2) y /\ reg_of st1 y = reg_of st y).
      { intros y Hyx Hy. destruct (live_step E1 p x E2 y Hy) as [H | [H _]]; [| contradiction]. split; [assumption |].
        destruct H as [[q Hq] _]. apply Oth; eauto. }
      split; [| split; [| intros _; exact Dis]].
      + split; try assumption.
        * rewrite length_app. cbn [length]. lia.
        * intros q y [Hq | Hq%list_elem_of_singleton]%elem_of_app; [| injection Hq as -> ->; assumption].
          destruct (decide (y = x)) as [-> | Hyx]; [assumption |]. rewrite Oth by eauto.
          specialize (Hg q y Hq). lia.
        * intros y [-> | Hy]; [assumption |]. destruct (decide (y = x)) as [-> | Hyx]; [assumption |].
          destruct (Hlv y Hyx Hy) as [H1 H2]. rewrite H2. intros H. exact (Hh y H1 (Sub _ H)).
        * assert (Hax : forall y, y <> x -> live (E1 ++ [(p, x)]) E2 y -> reg_of st1 y <> reg_of st1 x).
          { intros y Hyx Hy. destruct (Hlv y Hyx Hy) as [H1 H2]. rewrite H2. apply Dis. assumption. }
          intros y z Hy Hz Hyz. destruct (decide (y = x)) as [-> | Hyx], (decide (z = x)) as [-> | Hzx]; [congruence | | |].
          -- apply not_eq_sym, Hax; [assumption |]. destruct Hz; [contradiction | assumption].
          -- apply Hax; [assumption |]. destruct Hy; [contradiction | assumption].
          -- destruct Hy as [| Hy], Hz as [| Hz]; try contradiction.
             destruct (Hlv y Hyx Hy) as [H1 ->]. destruct (Hlv z Hzx Hz) as [H2 ->]. apply Ha; assumption.
      + intros y Hy Hne. apply Oth; [assumption |]. intros ->. congruence.
    - exists st. split; [reflexivity |]. destruct (begin_processed E1 p x E2 HE ltac:(congruence)) as [Hb Hlt].
      assert (Hlx : live E1 ((p, x) :: E2) x) by (split; [eauto | exists p; split; [left | assumption]]).
      split; [| split; [auto | congruence]].
      assert (Hw : scan_inv E1 (fun y => y = x \/ live (E1 ++ [(p, x)]) E2 y) st).
      { eapply scan_inv_weaken; [| exact Hinv]. intros y [-> | Hy]; [assumption |].
        destruct (live_step E1 p x E2 y Hy) as [H | [-> _]]; assumption. }
      destruct Hw as [Hl Ht Hn Hnd Hf Hg Hh Ha].
      split; try assumption; [rewrite length_app; lia |].
      intros q y [Hq | Hq%list_elem_of_singleton]%elem_of_app; [eauto |]. injection Hq as -> ->. eauto. }
  destruct Hmid as (st1 & E0 & Hinv1 & Hoth & Hdis). unfold scan_event. cbn [fst snd]. rewrite Gb. cbn [rbind].
  rewrite E0. cbn [rbind]. rewrite Ge. cbn [rbind]. destruct (Z.eqb_spec p (end_ x)) as [-> | Ne].
  - destruct (release_reg_spec _ _ st1 x Hinv1 (ended E1 x E2 HE) Hx Hx1) as (st' & Er & Hinv' & Hal).
    exists st'. split; [assumption |]. split; [assumption |]. unfold reg_of in *. rewrite Hal. auto.
  - exists st1. split; [reflexivity |]. split; [| auto]. eapply scan_inv_weaken; [| exact Hinv1]. cbn. auto.
Qed.

(** The rest of the pass. *)
Lemma scan_run E2 : forall E1 st,
  E = E1 ++ E2 -> scan_inv E1 (live E1 E2) st ->
  exists st', over_events (scan_event bs es) E2 st = Ok st' /\ scan_inv E (live E []) st' /\
    (forall y, 0 <= y -> ~ (begin_ y, y) ∈ E2 -> reg_of st' y = reg_of st y).
Proof.
  induction E2 as [| [p x] E2 IH]; intros E1 st HE Hinv.
  - rewrite app_nil_r in HE. subst E1. exists st. auto.
  - destruct (scan_step E1 p x E2 st HE Hinv) as (st1 & Es & Hinv1 & Hoth & _). cbn [over_events]. rewrite Es. cbn [rbind].
    destruct (IH (E1 ++ [(p, x)]) st1) as (st' & Er & Hinv' & Hkeep); [rewrite <- app_assoc; assumption | assumption |].
    exists st'. split; [assumption |]. split; [assumption |]. intros y Hy Hn. rewrite elem_of_cons in Hn.
    rewrite Hkeep, Hoth by (try assumption; intros H; apply Hn; auto). reflexivity.
Qed.

(** [x] gets its number for good while [y], which has its own, is live. *)
Lemma scan_separates E1 x E2 y st st1 st' :
  E = E1 ++ (begin_ x, x) :: E2 -> ~ (begin_ x, x) ∈ E2 -> scan_inv E1 (live E1 ((begin_ x, x) :: E2)) st ->
  live E1 ((begin_ x, x) :: E2) y -> ~ (begin_ y, y) ∈ (begin_ x, x) :: E2 ->
  scan_event bs es (begin_ x, x) st = Ok st1 -> over_events (scan_event bs es) E2 st1 = Ok st' ->
  reg_of st' x <> reg_of st' y.
Proof.
  intros HE Hx Hinv Hlive Hy Es Er.
  assert (Hx0 : 0 <= x) by (apply (event_ok (begin_ x) x); rewrite HE; apply elem_of_app; right; left).
  assert (Hy0 : 0 <= y) by (destruct Hlive as [[q Hq] _]; apply (event_ok q y); rewrite HE; apply elem_of_app; auto).
  destruct (scan_step E1 (begin_ x) x E2 st HE Hinv) as (st1' & Es' & Hinv1 & Hoth & Hdis).
  rewrite Es in Es'. apply Ok_inj in Es' as <-. rewrite elem_of_cons in Hy.
  destruct (scan_run E2 (E1 ++ [(begin_ x, x)]) st1) as (st2 & Er' & _ & Hkeep); [rewrite <- app_assoc; assumption | assumption |].
  rewrite Er in Er'. apply Ok_inj in Er' as <-. rewrite !Hkeep by tauto. rewrite (Hoth y) by (try assumption; intuition congruence).
  apply not_eq_sym, Hdis; [reflexivity | assumption].
Qed.

Lemma last_occurrence {A} `{EqDecision A} (a : A) l : a ∈ l -> exists l1 l2, l = l1 ++ a :: l2 /\ ~ a ∈ l2.
Proof.
  induction l as [| b l IH]; intros H; [inversion H |]. destruct (decide (a ∈ l)) as [D | D].
  - destruct (IH D) as (l1 & l2 & -> & Hn). exists (b :: l1), l2. auto.
  - apply elem_of_cons in H as [-> | H]; [| contradiction]. exists [], l. auto.
Qed.

Definition scan_start : scan_state := mkScan (replicate n UNSET) [] 0 0.

Lemma scan_start_inv : scan_inv [] (live [] E) scan_start.
Proof.
  split; [apply length_replicate | reflexivity | cbn; lia | apply NoDup_nil_2 | apply Forall_nil; exact I | | |].
  - intros ? ? H. inversion H.
  - intros ? [[? H] _]. inversion H.
  - intros ? ? [[? H] _]. inversion H.
Qed.

Lemma scan_prefix E1 E2 st' :
  E = E1 ++ E2 -> over_events (scan_event bs es) E scan_start = Ok st' ->
  exists st, over_events (scan_event bs es) E1 scan_start = Ok st /\ over_events (scan_event bs es) E2 st = Ok st' /\
    scan_inv E1 (live E1 E2) st.
Proof.
  intros HE Hr. rewrite HE, over_events_app in Hr. apply rbind_Ok in Hr as (st & Hst & Hr). exists st.
  split; [assumption |]. split; [assumption |]. clear Hr st'.
  assert (Hgen : forall D1 D0 st0, E = D0 ++ D1 ++ E2 -> scan_inv D0 (live D0 (D1 ++ E2)) st0 ->
            over_events (scan_event bs es) D1 st0 = Ok st -> scan_inv (D0 ++ D1) (live (D0 ++ D1) E2) st).
  { induction D1 as [| [p x] D1 IH]; intros D0 st0 HD Hinv Hr.
    - cbn in Hr. apply Ok_inj in Hr as <-. rewrite app_nil_r. assumption.
    - destruct (scan_step D0 p x (D1 ++ E2) st0 HD Hinv) as (st1 & Es & Hinv1 & _). cbn in Hr. rewrite Es in Hr. cbn in Hr.
      rewrite cons_middle, app_assoc. eapply IH; [rewrite <- app_assoc; exact HD | exact Hinv1 | exact Hr]. }
  apply (Hgen E1 [] scan_start); [assumption | | assumption]. rewrite <- HE. apply scan_start_inv.
Qed.

(** Registers that are mentioned keep apart while their ranges overlap. *)
Lemma scan_no_sharing st' x y p q :
  over_events (scan_event bs es) E scan_start = Ok st' -> (p, x) ∈ E -> (q, y) ∈ E -> x <> y ->
  reg_of st' x = reg_of st' y -> end_ x <= begin_ y \/ end_ y <= begin_ x.
Proof.
  intros Hr Hpx Hqy Hxy Hsame.
  destruct (Z.le_gt_cases (end_ x) (begin_ y)) as [| Ho1]; [auto |].
  destruct (Z.le_gt_cases (end_ y) (begin_ x)) as [| Ho2]; [auto |]. exfalso.
  assert (Hkey : forall x y E1 E2, x <> y -> (exists q, (q, y) ∈ E) -> begin_ x < end_ y ->
            E = E1 ++ (begin_ x, x) :: E2 -> ~ (begin_ x, x) ∈ E2 -> ~ (begin_ y, y) ∈ E2 -> reg_of st' x <> reg_of st' y).
  { clear x y p q Hpx Hqy Hxy Hsame Ho1 Ho2. intros x y E1 E2 Hxy [q Hq] Ho HE Hx Hy.
    pose proof (rg_last _ _ _ _ Hrg q y Hq) as Hlast. pose proof (rg_first _ _ _ _ Hrg q y Hq) as Hfirst.
    fold (begin_ y) (end_ y) in Hlast, Hfirst.
    assert (Hy1 : (begin_ y, y) ∈ E1).
    { rewrite HE in Hfirst. apply elem_of_app in Hfirst as [H | [[= _ H] | H]%elem_of_cons]; [assumption | congruence | contradiction]. }
    assert (Hle : begin_ y <= begin_ x).
    { rewrite HE in Hsorted. apply sorted_before in Hsorted. rewrite Forall_forall in Hsorted. apply (Hsorted _ Hy1). }
    assert (Hy2 : (end_ y, y) ∈ E2).
    { rewrite HE in Hlast. apply elem_of_app in Hlast as [H | [[= _ H] | H]%elem_of_cons]; [exfalso | congruence | assumption].
      rewrite HE in Hsorted. apply sorted_before in Hsorted. rewrite Forall_forall in Hsorted. specialize (Hsorted _ H). cbn in Hsorted. lia. }
    destruct (scan_prefix E1 ((begin_ x, x) :: E2) st' HE Hr) as (st & _ & Hr2 & Hinv). cbn [over_events] in Hr2.
    apply rbind_Ok in Hr2 as (st1 & Es & Er). eapply (scan_separates E1 x E2 y st st1 st'); try eassumption.
    - split; [eauto |]. exists (end_ y). split; [right; assumption | lia].
    - rewrite elem_of_cons. intros [[= _ H] | H]; congruence || contradiction. }
  pose proof (rg_first _ _ _ _ Hrg p x Hpx) as Fx. pose proof (rg_first _ _ _ _ Hrg q y Hqy) as Fy.
  fold (begin_ x) in Fx. fold (begin_ y) in Fy.
  destruct (last_occurrence _ _ Fx) as (E1 & E2 & HE & Hn). destruct (decide ((begin_ y, y) ∈ E2)) as [D | D].
  - destruct (last_occurrence _ _ D) as (D1 & D2 & HD & Hnd).
    apply (Hkey y x (E1 ++ (begin_ x, x) :: D1) D2); auto; [eauto | | ].
    + rewrite HE, HD, <- app_assoc. reflexivity.
    + intros H. apply Hn. rewrite HD. apply elem_of_app. right. right. assumption.
  - apply (Hkey x y E1 E2); eauto.
Qed.
End Scan.

(** ** Locations *)

Definition loc_of (num r : Z) : IRAllocationMode * Z :=
  if r <? num then (ALLOCATED_REG, r) else (ALLOCATED_STACK, 8 * (r - num)).

(** After [k] registers have been placed. *)
Record placed (num : Z) (k : nat) (st : phys_state) : Prop := {
  pl_info : allocation_info st = map (loc_of num) (seqZ 0 (Z.of_nat k));
  pl_left : regs_left st = Z.max 0 (num - Z.of_nat k);
  pl_frame : next_stack_frame st = 8 * Z.max 0 (Z.of_nat k - num);
  pl_used : used_phys_regs st = map (fun r => r <? Z.of_nat k) (seqZ 0 num)
}.

Lemma set_marks num k :
  0 <= k < num ->
  set_at (map (fun r => r <? k) (seqZ 0 num)) k true = map (fun r => r <? k + 1) (seqZ 0 num).
Proof.
  intros Hk. apply list_eq. intros i. rewrite lookup_set_at by (rewrite length_map, length_seqZ; lia).
  change (map (fun r => r <? k)) with (fmap (M := list) (fun r => r <? k)).
  change (map (fun r => r <? k + 1)) with (fmap (M := list) (fun r => r <? k + 1)). rewrite !list_lookup_fmap.
  destruct (decide (i < Z.to_nat num)%nat) as [Hi | Hi].
  - rewrite lookup_seqZ_lt by lia. cbn [option_map fmap option_fmap]. case_decide as D; f_equal;
      destruct (Z.ltb_spec (0 + Z.of_nat i) k), (Z.ltb_spec (0 + Z.of_nat i) (k + 1)); lia || reflexivity.
  - rewrite lookup_seqZ_ge by lia. cbn. rewrite decide_False by lia. reflexivity.
Qed.

Lemma place_reg_spec num k st :
  0 <= num -> 8 * (Z.of_nat k + 1) < 2 ^ 32 -> placed num k st ->
  exists st', place_reg num st = Ok st' /\ placed num (S k) st'.
Proof.
  intros Hn Hk [Hi Hl Hf Hu]. unfold place_reg, to_bool. rewrite Hl, Hi.
  assert (Hs : seqZ 0 (Z.of_nat (S k)) = seqZ 0 (Z.of_nat k) ++ [Z.of_nat k]).
  { rewrite Nat2Z.inj_succ. unfold Z.succ. rewrite seqZ_app by lia. f_equal. }
  destruct (Z.eqb_spec (Z.max 0 (num - Z.of_nat k)) 0) as [E | E]; cbn [negb].
  - eexists. split; [reflexivity |]. split; cbn [allocation_info regs_left next_stack_frame used_phys_regs].
    + rewrite Hs, map_app, Hf. cbn [map]. f_equal. unfold loc_of. destruct (Z.ltb_spec (Z.of_nat k) num); [lia |].
      do 2 f_equal. lia.
    + lia.
    + rewrite Hf. unfold u32. rewrite wrap_small by (unfold in_range; lia). lia.
    + rewrite Hu. apply map_ext_in. intros r Hr. apply list_elem_of_In, elem_of_seqZ in Hr.
      destruct (Z.ltb_spec r (Z.of_nat k)), (Z.ltb_spec r (Z.of_nat (S k))); lia || reflexivity.
  - replace (num - Z.max 0 (num - Z.of_nat k)) with (Z.of_nat k) by lia. rewrite Hu.
    assert (E0 : vec_set (map (fun r => r <? Z.of_nat k) (seqZ 0 num)) (Z.of_nat k) true =
                 Ok (map (fun r => r <? Z.of_nat k + 1) (seqZ 0 num))).
    { apply vec_set_Ok. rewrite length_map, length_seqZ. split; [lia |]. symmetry. apply set_marks. lia. }
    rewrite E0. cbn [rbind]. eexists. split; [reflexivity |].
    split; cbn [allocation_info regs_left next_stack_frame used_phys_regs].
    + rewrite Hs, map_app. cbn [map]. f_equal. unfold loc_of. destruct (Z.ltb_spec (Z.of_nat k) num); [reflexivity | lia].
    + lia.
    + lia.
    + rewrite Nat2Z.inj_succ. reflexivity.
Qed.

Lemma place_regs_spec num n k st :
  0 <= num -> 8 * (Z.of_nat (k + n)) < 2 ^ 32 -> placed num k st ->
  exists st', place_regs num n st = Ok st' /\ placed num (k + n) st'.
Proof.
  intros Hn. revert k st. induction n as [| n IH]; intros k st Hk Hp; cbn [place_regs].
  - rewrite Nat.add_0_r. eauto.
  - destruct (place_reg_spec num k st Hn ltac:(lia) Hp) as (st1 & -> & Hp1). cbn [rbind].
    rewrite <- Nat.add_succ_comm. apply IH; [lia | assumption].
Qed.

Lemma placed_start num : 0 <= num -> placed num 0 (mkPhys [] num 0 (replicate (Z.to_nat num) false)).
Proof.
  intros Hn. split; cbn [allocation_info regs_left next_stack_frame used_phys_regs]; try reflexivity; try lia.
  unfold seqZ. rewrite map_map. generalize (Z.to_nat num). intros m.
  replace (map _ (seq 0 m)) with (map (fun _ : nat => false) (seq 0 m)).
  - generalize 0%nat. induction m as [| m IH]; intros a; cbn; [reflexivity |]. f_equal. apply IH.
  - apply map_ext. intros i. destruct (Z.ltb_spec (Z.of_nat i + 0) (Z.of_nat 0)); [lia | reflexivity].
Qed.

(** Different registers have different locations, as far as the 14 bits that
    an operand has for them go. *)
Definition loc_code (mode : IRAllocationMode) (data : Z) : Z :=
  match mode with ALLOCATED_STACK => 2 * data + 1 | _ => 2 * data end.
Definition location (num r : Z) : Z :=
  let '(mode, data) := loc_of num r in loc_code mode (wrap 14 data).

Lemma location_inj num r1 r2 :
  0 <= num <= 2 ^ 14 -> 0 <= r1 -> 0 <= r2 -> 8 * (r1 - num) < 2 ^ 14 -> 8 * (r2 - num) < 2 ^ 14 ->
  location num r1 = location num r2 -> r1 = r2.
Proof.
  intros. unfold location, loc_of in *. destruct (Z.ltb_spec r1 num), (Z.ltb_spec r2 num); cbn in *;
    rewrite !wrap_small in * by (unfold in_range; lia); lia.
Qed.

Lemma location_range num r : in_range 32 (location num r).
Proof.
  unfold location. destruct (loc_of num r) as [m d]. pose proof (wrap_range 14 d ltac:(lia)) as H.
  unfold in_range, loc_code in *. destruct m; lia.
Qed.

Lemma result_map_total {A B} (f : A -> result B) (P : A -> B -> Prop) l :
  (forall x, x ∈ l -> exists y, f x = Ok y /\ P x y) -> exists l', result_map f l = Ok l' /\ Forall2 P l l'.
Proof.
  induction l as [| x l IH]; intros H; [exists []; split; [reflexivity | constructor] |].
  destruct (H x) as (y & Ey & Py); [left |]. destruct IH as (l' & El & Pl); [intros; apply H; right; assumption |].
  exists (y :: l'). cbn. rewrite Ey. cbn. rewrite El. split; [reflexivity | constructor; assumption].
Qed.

(** ** What the transform does *)

(** The location that stands for a virtual register operand. *)
Definition located (o : IROperand) : IROperand :=
  if is_vreg o then vreg (loc_code (alloc_mode o) (alloc_data o)) (size o) else o.

(** [i'] is [i] with its virtual registers placed by [f]. *)
Definition allocated (f : Z -> Z) (i i' : IRInstruction) : Prop :=
  ir_block i' = ir_block i /\ type i' = type i /\
  renamed_ops f (operands i) (map located (operands i')).

(** First and last mention. *)
Definition mentions (l : list IRInstruction) (p x : Z) : Prop := (p, x) ∈ events 0 l.
Record live_range (l : list IRInstruction) (x b e : Z) : Prop := {
  lr_first : mentions l b x;
  lr_last : mentions l e x;
  lr_all : forall p, mentions l p x -> b <= p <= e
}.

(** A virtual register mentioned in several instructions is mentioned once in
    the last of them. *)
Definition last_use_single (l : list IRInstruction) : Prop :=
  forall x b e E1 E2, live_range l x b e -> b < e -> events 0 l = E1 ++ (e, x) :: E2 -> ~ (e, x) ∈ E1 /\ ~ (e, x) ∈ E2.

Definition small_enough (c : TranslationContext) : Prop :=
  ctx_count c < UNSET /\ 8 * Z.of_nat (length (events 0 (_ir_insns c))) < 2 ^ 32.

Lemma context_events_ok c :
  ctx_count c < UNSET -> all_vregs_in_range (Z.to_nat (_ir_reg_count c)) (_ir_insns c) ->
  events_ok (Z.to_nat (_ir_reg_count c)) (events 0 (_ir_insns c)).
Proof.
  intros Hc Hr. apply Forall_forall. intros [p x] H. apply events_elem in H as (k & i & o & Hi & -> & Ho & Hv & <-). cbn [fst snd].
  unfold ctx_count in Hc. pose proof (lookup_lt_Some _ _ _ Hi). split; [lia |].
  unfold all_vregs_in_range in Hr. rewrite Forall_forall in Hr. specialize (Hr i (list_elem_of_lookup_2 _ _ _ Hi)).
  unfold vregs_in_range in Hr. rewrite Forall_forall in Hr. apply (Hr o Ho Hv).
Qed.

Lemma ranges_live_range n l bs es p x :
  ranges n (events 0 l) bs es -> mentions l p x -> live_range l x (begin_ bs x) (end_ es x).
Proof.
  intros Hr Hp. split; [eapply rg_first | eapply rg_last | intros; eapply rg_bounds]; eassumption.
Qed.

Lemma live_range_unique l x b e b' e' : live_range l x b e -> live_range l x b' e' -> b = b' /\ e = e'.
Proof.
  intros [F1 L1 A1] [F2 L2 A2]. pose proof (A1 _ F2). pose proof (A1 _ L2). pose proof (A2 _ F1). pose proof (A2 _ L1). lia.
Qed.

(** Virtual registers whose live ranges share more than an end point have
    different locations. *)
Definition separates (l : list IRInstruction) (f : Z -> Z) : Prop :=
  forall x y bx ex by_ ey, live_range l x bx ex -> live_range l y by_ ey -> x <> y -> f x = f y -> ex <= by_ \/ ey <= bx.

Lemma vreg_ranges_ok c :
  small_enough c -> all_vregs_in_range (Z.to_nat (_ir_reg_count c)) (_ir_insns c) ->
  exists bs es, vreg_ranges c = Ok (bs, es) /\ ranges (Z.to_nat (_ir_reg_count c)) (events 0 (_ir_insns c)) bs es.
Proof.
  intros [Hc _] Hr. destruct (ranges_total _ _ (context_events_ok c Hc Hr)) as (bs & es & E & Hrg).
  exists bs, es. split; [| assumption]. unfold vreg_ranges.
  rewrite (over_insns_events range_operand range_event); [assumption |].
  intros p o [b e]. unfold range_operand, range_event. cbn [fst snd]. destruct (is_vreg o); reflexivity.
Qed.

Lemma linear_scan_ok c bs es :
  small_enough c -> all_vregs_in_range (Z.to_nat (_ir_reg_count c)) (_ir_insns c) -> last_use_single (_ir_insns c) ->
  ranges (Z.to_nat (_ir_reg_count c)) (events 0 (_ir_insns c)) bs es ->
  exists st, linear_scan bs es c = Ok st /\ length (allocations st) = Z.to_nat (_ir_reg_count c) /\
    0 <= total_regs st <= Z.of_nat (length (events 0 (_ir_insns c))) /\
    (forall p x, mentions (_ir_insns c) p x -> 0 <= reg_of st x < total_regs st) /\
    separates (_ir_insns c) (reg_of st).
Proof.
  intros [Hc Hs] Hr Hl Hrg. set (n := Z.to_nat (_ir_reg_count c)) in *. set (E := events 0 (_ir_insns c)) in *.
  assert (Hok : events_ok n E) by (apply context_events_ok; assumption).
  assert (Hsorted : StronglySorted (fun a b : event => fst a <= fst b) E) by apply events_sorted.
  assert (Hsingle : single_last_use E bs es).
  { intros x E1 E2 HE Hlt. apply (Hl x (begin_ bs x) (end_ es x)); try assumption.
    apply (ranges_live_range n _ bs es (end_ es x)); [assumption |].
    unfold mentions. fold E. rewrite HE. apply elem_of_app. right. left. }
  assert (Hsm : Z.of_nat (length E) < 2 ^ 32) by lia.
  destruct (scan_run n E bs es Hok Hsorted Hrg Hsm Hsingle E [] (scan_start n) eq_refl (scan_start_inv n E bs))
    as (st & Ev & [L T N ND F G _ _] & _).
  exists st. split.
  { unfold linear_scan. rewrite (over_insns_events _ (scan_event bs es)); [exact Ev |].
    intros p o s. unfold scan_operand, scan_event. cbn [fst snd]. reflexivity. }
  split; [assumption |]. rewrite T. split; [assumption |]. split; [intros p x H; eapply G; exact H |].
  intros x y bx ex by_ ey Hx Hy Hne Hsame.
  pose proof (ranges_live_range n _ bs es bx x Hrg (lr_first _ _ _ _ Hx)) as Hx'.
  pose proof (ranges_live_range n _ bs es by_ y Hrg (lr_first _ _ _ _ Hy)) as Hy'.
  destruct (live_range_unique _ _ _ _ _ _ Hx Hx') as [-> ->]. destruct (live_range_unique _ _ _ _ _ _ Hy Hy') as [-> ->].
  eapply (scan_no_sharing n E bs es Hok Hsorted Hrg Hsm Hsingle st x y); try eassumption; [apply Hx | apply Hy].
Qed.

Lemma attach_operand_ok c num st T o :
  length (allocations st) = Z.to_nat (_ir_reg_count c) ->
  (is_vreg o = true -> 0 <= get_vreg_idx o < Z.of_nat (Z.to_nat (_ir_reg_count c)) /\ 0 <= reg_of st (get_vreg_idx o) < Z.of_nat T) ->
  exists o', attach_operand (allocations st) (map (loc_of num) (seqZ 0 (Z.of_nat T))) o = Ok o' /\
    renamed (fun x => location num (reg_of st x)) o (located o').
Proof.
  intros Hl Ho. unfold attach_operand. destruct (is_vreg o) eqn:Ev.
  - destruct (Ho eq_refl) as [Hi Hr]. set (x := get_vreg_idx o) in *.
    assert (E1 : vec_get (allocations st) x = Ok (reg_of st x)) by (apply vec_get_Ok; split; [lia | apply list_lookup_lookup_total_lt; lia]).
    rewrite E1. cbn [rbind].
    assert (E2 : vec_get (map (loc_of num) (seqZ 0 (Z.of_nat T))) (reg_of st x) = Ok (loc_of num (reg_of st x))).
    { apply vec_get_Ok. split; [lia |]. change (map (loc_of num)) with (fmap (M := list) (loc_of num)).
      rewrite list_lookup_fmap, lookup_seqZ_lt by lia. cbn. rewrite Z2Nat.id by lia. reflexivity. }
    rewrite E2. cbn [rbind]. eexists. split; [reflexivity |]. unfold located, renamed. rewrite Ev. unfold is_vreg in Ev |- *. cbn [op_type allocate].
    rewrite Ev. fold x. split; [reflexivity |]. split; [reflexivity |]. pose proof (location_range num (reg_of st x)) as Hr32.
    unfold location in *. destruct (loc_of num (reg_of st x)) as [m d]. cbn [fst snd alloc_mode alloc_data allocate] in *.
    apply wrap_small. assumption.
  - exists o. split; [reflexivity |]. unfold located, renamed. rewrite Ev. reflexivity.
Qed.

Lemma attach_insn_ok c num st T i :
  length (allocations st) = Z.to_nat (_ir_reg_count c) ->
  (forall o, o ∈ operands i -> is_vreg o = true ->
     0 <= get_vreg_idx o < Z.of_nat (Z.to_nat (_ir_reg_count c)) /\ 0 <= reg_of st (get_vreg_idx o) < Z.of_nat T) ->
  exists i', attach_insn (allocations st) (map (loc_of num) (seqZ 0 (Z.of_nat T))) i = Ok i' /\
    allocated (fun x => location num (reg_of st x)) i i'.
Proof.
  intros Hl Ho. unfold attach_insn.
  destruct (result_map_total (attach_operand (allocations st) (map (loc_of num) (seqZ 0 (Z.of_nat T))))
    (fun o o' => renamed (fun x => location num (reg_of st x)) o (located o')) (operands i)) as (ops & E & H2).
  { intros o Hin. apply (attach_operand_ok c); auto. }
  rewrite E. cbn [rbind]. eexists. split; [reflexivity |]. split; [reflexivity |]. split; [reflexivity |]. cbn [operands].
  clear E Ho. induction H2; cbn; constructor; assumption.
Qed.

(** The whole transform: it returns, and places every virtual register. *)
Lemma register_allocation_ok num c :
  0 <= num -> small_enough c -> all_vregs_in_range (Z.to_nat (_ir_reg_count c)) (_ir_insns c) ->
  last_use_single (_ir_insns c) ->
  exists l' (T : Z) reg,
    GlobalRegisterAllocation_Apply num c = Ok (with_insns l' c, 8 * Z.max 0 (T - num), map (fun r => r <? T) (seqZ 0 num)) /\
    Forall2 (allocated (fun x => location num (reg x))) (_ir_insns c) l' /\
    (forall p x, mentions (_ir_insns c) p x -> 0 <= reg x < T) /\ separates (_ir_insns c) reg.
Proof.
  intros Hn Hs Hr Hl. destruct (vreg_ranges_ok c Hs Hr) as (bs & es & E1 & Hrg).
  destruct (linear_scan_ok c bs es Hs Hr Hl Hrg) as (st & E2 & L & Ht & Hg & Hsep).
  destruct (place_regs_spec num (Z.to_nat (total_regs st)) 0 _ Hn ltac:(destruct Hs; lia) (placed_start num Hn))
    as (ph & E3 & [Pi _ Pf Pu]). rewrite Nat.add_0_l, Z2Nat.id in Pi, Pf, Pu by lia.
  set (f := fun x => location num (reg_of st x)).
  destruct (result_map_total (attach_insn (allocations st) (allocation_info ph)) (allocated f) (_ir_insns c)) as (l' & E4 & H4).
  { intros i Hi. rewrite Pi. replace (total_regs st) with (Z.of_nat (Z.to_nat (total_regs st))) by lia. apply (attach_insn_ok c); [assumption |].
    intros o Ho Hv. apply list_elem_of_lookup in Hi as (k & Hk). split.
    - unfold all_vregs_in_range in Hr. rewrite Forall_forall in Hr. specialize (Hr i (list_elem_of_lookup_2 _ _ _ Hk)).
      unfold vregs_in_range in Hr. rewrite Forall_forall in Hr. apply (Hr o Ho Hv).
    - rewrite Z2Nat.id by lia. apply (Hg (0 + Z.of_nat k)), events_elem. exists k, i, o. auto. }
  exists l', (total_regs st), (reg_of st). split; [| auto].
  unfold GlobalRegisterAllocation_Apply. rewrite E1. cbn [rbind]. rewrite E2. cbn [rbind]. rewrite E3. cbn [rbind].
  rewrite E4. cbn [rbind]. rewrite Pf, Pu. reflexivity.
Qed.

(** Locations that differ as numbers differ as locations, when the stack frame
    fits the offsets of an operand. *)
Lemma location_separates c num T reg :
  0 <= num <= 2 ^ 14 -> 8 * Z.max 0 (T - num) <= 2 ^ 14 ->
  (forall p x, mentions (_ir_insns c) p x -> 0 <= reg x < T) -> separates (_ir_insns c) reg ->
  separates (_ir_insns c) (fun x => location num (reg x)).
Proof.
  intros Hn HT Hg Hsep x y bx ex by_ ey Lx Ly Hne Hsame. apply (Hsep x y); try assumption.
  pose proof (Hg _ _ (lr_first _ _ _ _ Lx)). pose proof (Hg _ _ (lr_first _ _ _ _ Ly)).
  apply (location_inj num); try assumption; lia.
Qed.

(** On a buffer in range in which no
    register is mentioned twice in its last instruction,
    GlobalRegisterAllocationTransform::Apply succeeds, gives every operand of a
    virtual register the physical register or stack slot of that virtual
    register, changes nothing else, and two virtual registers in one place have
    live ranges that do not overlap. *)
Theorem allocation_separates num c :
  0 <= num <= 2 ^ 14 -> small_enough c -> all_vregs_in_range (Z.to_nat (_ir_reg_count c)) (_ir_insns c) ->
  last_use_single (_ir_insns c) ->
  exists l' frame used f, GlobalRegisterAllocation_Apply num c = Ok (with_insns l' c, frame, used) /\
    Forall2 (allocated f) (_ir_insns c) l' /\ (frame <= 2 ^ 14 -> separates (_ir_insns c) f).
Proof.
  intros Hn Hs Hr Hl. destruct (register_allocation_ok num c ltac:(lia) Hs Hr Hl) as (l' & T & reg & E & HA & Hg & Hsep).
  eexists l', _, _, _. split; [exact E |]. split; [exact HA |]. intros HT. eapply location_separates; eassumption.
Qed.
