(* ===== verification/RegAllocCorrect.v ===== *)
(** * Register allocation preserves the meaning of the code

    The allocated code is run by the same machine on locations in place of
    virtual registers ([located]).  What is asked of the machine is that it
    treats registers alike ([RegisterAgnostic]); what is asked of the code is
    that control only goes forward, that no register is read on a path on
    which it was not written ([uses_defined]) and that a register occurs once
    in its last instruction ([last_use_single]). *)

From Stdlib Require Import ZArith Lia Bool Ascii Sorted.
From stdpp Require Import base list numbers sets.
From S2P Require Import Prelude.
From S2P Require Import BlockIR.
From S2P Require Import IRSorterCorrect.
From S2P Require Import BlockFlow.
From S2P Require Import ValueFlow.
From S2P Require Import DeadStore.
From S2P Require Import RegAlloc.

(** ** Reads see a write

    [D b] are registers written on every path to block [b]; [uses_defined]
    checks the code of a block and its exits. *)
Definition all_in (a b : list Z) : bool := forallb (fun x => bool_decide (x ∈ b)) a.

Fixpoint uses_defined (D : Z -> list Z) (S : list Z) (c : list IRInstruction) : bool :=
  match c with
  | [] => true
  | i :: r =>
      all_in (reads (type i) (operands i)) S && forallb (fun t => all_in (D t) S) (targets i) &&
      uses_defined D (writes (type i) (operands i) ++ S) r
  end.

Definition defined_before_use (D : Z -> list Z) (l : list IRInstruction) : Prop :=
  D 0 = [] /\ forall b, uses_defined D (D b) (code b l) = true.

Lemma all_in_spec a b : all_in a b = true <-> forall x, x ∈ a -> x ∈ b.
Proof.
  unfold all_in. rewrite forallb_forall. split; intros H x Hx.
  - apply list_elem_of_In in Hx. specialize (H x Hx). apply bool_decide_eq_true in H. assumption.
  - apply bool_decide_eq_true, H, list_elem_of_In, Hx.
Qed.

Lemma uses_defined_mono D c : forall S S', (forall x, x ∈ S -> x ∈ S') -> uses_defined D S c = true -> uses_defined D S' c = true.
Proof.
  induction c as [| i c IH]; intros S S' HS H; [reflexivity |]. cbn [uses_defined] in *.
  rewrite !andb_true_iff, all_in_spec in *. destruct H as [[H1 H2] H3]. split; [split |].
  - auto.
  - rewrite forallb_forall in *. intros t Ht. specialize (H2 t Ht). rewrite all_in_spec in *. auto.
  - eapply IH; [| exact H3]. intros x Hx. rewrite elem_of_app in *. destruct Hx; auto.
Qed.

Section Simulation.
Context {R : Type} (exec : IRInstructionType -> list IROperand -> vstate R -> vstate R)
        (taken : IROperand -> vstate R -> bool) {RD : RespectsDescriptors exec taken} {RA : RegisterAgnostic exec taken}.
Context (l : list IRInstruction) (f : Z -> Z) (D : Z -> list Z).
Context (Hsep : separates l f)
        (Hlr : forall p x, mentions l p x -> exists b e, live_range l x b e)
        (Htop : topological l) (Hdef : defined_before_use D l).
Implicit Types (s : vstate R) (S : list Z).

(** The machine on locations. *)
Definition loc_exec (t : IRInstructionType) (ops : list IROperand) (s : vstate R) : vstate R := exec t (map located ops) s.
Definition loc_taken (o : IROperand) (s : vstate R) : bool := taken (located o) s.

(** Before instruction [p], when the registers in [S] have been written. *)
Definition sim S (p : Z) s s' : Prop :=
  snd s = snd s' /\
  forall x, x ∈ S -> exists b e, live_range l x b e /\ b < p /\ (p <= e -> fst s x = fst s' (f x)).

Lemma mentioned p i x : l !! p = Some i -> (exists o, o ∈ operands i /\ is_vreg o = true /\ get_vreg_idx o = x) ->
  mentions l (Z.of_nat p) x.
Proof. intros Hi (o & Ho & Hv & <-). apply events_elem. exists p, i, o. auto with lia. Qed.

Lemma sim_exec S p i ops' s s' :
  l !! p = Some i -> renamed_ops f (operands i) ops' -> (forall x, x ∈ reads (type i) (operands i) -> x ∈ S) ->
  sim S (Z.of_nat p) s s' ->
  sim (writes (type i) (operands i) ++ S) (Z.of_nat p + 1) (exec (type i) (operands i) s) (exec (type i) ops' s').
Proof.
  intros Hi Hren Hrd [Hr Hs]. set (t := type i) in *. set (ops := operands i) in *.
  destruct s as [v r], s' as [v' r']. cbn [fst snd] in Hr, Hs. subst r'.
  destruct (exec_rename (exec := exec) t ops ops' f v v' r Hren) as [E1 E2].
  { intros x Hx. destruct (Hs x (Hrd x Hx)) as (b & e & L & Hb & Heq). apply Heq.
    apply (lr_all _ _ _ _ L), (mentioned p i); [assumption |]. eapply vregs_mentioned. exact Hx. }
  split; [assumption |]. intros x Hx. destruct (decide (x ∈ writes t ops)) as [Hw | Hw].
  - assert (Hm : mentions l (Z.of_nat p) x) by (eapply mentioned; [eassumption | eapply vregs_mentioned; exact Hw]).
    destruct (Hlr _ _ Hm) as (b & e & L). exists b, e. split; [assumption |].
    pose proof (lr_all _ _ _ _ L _ Hm). split; [lia |]. intros _. apply E2. assumption.
  - apply elem_of_app in Hx as [Hx | Hx]; [contradiction |]. destruct (Hs x Hx) as (b & e & L & Hb & Heq).
    exists b, e. split; [assumption |]. split; [lia |]. intros He.
    rewrite (exec_writes (exec := exec)) by assumption. rewrite (exec_writes (exec := exec)); [cbn; apply Heq; lia |].
    unfold writes. rewrite (vregs_of_renamed _ _ _ _ _ _ Hren). intros Hin.
    apply list_elem_of_In, in_map_iff in Hin as (y & Hfy & Hy). apply list_elem_of_In in Hy.
    assert (Hm : mentions l (Z.of_nat p) y) by (eapply mentioned; [eassumption | eapply vregs_mentioned; exact Hy]).
    destruct (Hlr _ _ Hm) as (b' & e' & L'). pose proof (lr_all _ _ _ _ L' _ Hm).
    assert (y <> x) by (intros ->; contradiction).
    destruct (Hsep y x b' e' b e L' L) as [Hov | Hov]; try assumption; lia.
Qed.

Definition same_end S (pre m : list IRInstruction) (o o' : outcome (St := vstate R)) : Prop :=
  match o, o' with
  | Goto b s, Goto b' s' =>
      b = b' /\ exists m1 i m2 S', m = m1 ++ i :: m2 /\ b ∈ targets i /\ (forall x, x ∈ D b -> x ∈ S') /\
        sim S' (Z.of_nat (length (pre ++ m1 ++ [i]))) s s'
  | Leave t ops s, Leave t' ops' s' => t = t' /\ renamed_ops f ops (map located ops') /\ snd s = snd s'
  | FallOff _, FallOff _ => True
  | _, _ => False
  end.

Lemma same_end_next S S1 pre i m o o' : same_end S1 (pre ++ [i]) m o o' -> same_end S pre (i :: m) o o'.
Proof.
  destruct o, o'; cbn; try tauto. intros [-> (m1 & j & m2 & S' & -> & H1 & H2 & H3)]. split; [reflexivity |].
  exists (i :: m1), j, m2, S'. split; [reflexivity |]. split; [assumption |]. split; [assumption |].
  rewrite <- app_assoc in H3. exact H3.
Qed.

Lemma sim_later S p q s s' : p <= q -> sim S p s s' -> sim S q s s'.
Proof.
  intros Hpq [H1 H2]. split; [assumption |]. intros x Hx. destruct (H2 x Hx) as (b & e & L & Hb & Heq).
  exists b, e. split; [assumption |]. split; [lia |]. intros. apply Heq. lia.
Qed.

Lemma op_allocated i i' k : allocated f i i' -> renamed f (op i k) (located (op i' k)).
Proof.
  intros (_ & _ & Hops). pose proof (op_renamed f i (mkInsn (map located (operands i')) 0 NOP) k Hops) as H.
  unfold op in *. cbn [operands] in H. change (new_operand NONE 0 0) with (located (new_operand NONE 0 0)) in H at 2.
  rewrite (map_nth located) in H. exact H.
Qed.

Lemma block_value i i' k : allocated f i i' -> is_vreg (op i k) = false -> value (op i' k) = value (op i k).
Proof.
  intros Ha Hv. pose proof (renamed_plain _ _ _ (op_allocated i i' k Ha) Hv) as H. unfold located in H.
  destruct (is_vreg (op i' k)) eqn:E; [| rewrite H; reflexivity]. rewrite <- H in Hv. discriminate.
Qed.

(** Jump and branch targets are not registers. *)
Definition targets_plain : Prop :=
  forall i, i ∈ l -> (type i = JMP -> is_vreg (op i 0) = false) /\
    (type i = BRANCH -> is_vreg (op i 1) = false /\ is_vreg (op i 2) = false).
Context (Hplain : targets_plain).

Lemma code_step b S pre m m' s s' :
  l = pre ++ m -> Forall2 (allocated f) m m' -> uses_defined D S (code b m) = true -> sim S (Z.of_nat (length pre)) s s' ->
  same_end S pre m (run_code exec taken (code b m) s) (run_code loc_exec loc_taken (code b m') s').
Proof.
  intros E H. revert S pre s s' E. induction H as [| i i' m m' Hi H IH]; intros S pre s s' E Hu Hs; [exact I |].
  assert (Hat : l !! length pre = Some i) by (rewrite E; apply list_lookup_middle; reflexivity).
  assert (El : l = (pre ++ [i]) ++ m) by (rewrite E, <- app_assoc; reflexivity).
  assert (Hlen : Z.of_nat (length (pre ++ [i])) = Z.of_nat (length pre) + 1) by (rewrite length_app; cbn; lia).
  rewrite !code_cons in *. pose proof Hi as (Eb & Et & Eops). rewrite Eb. case_decide as Hb.
  2: { apply (same_end_next S S), IH; [assumption | assumption |]. rewrite Hlen. eapply sim_later; [| exact Hs]. lia. }
  cbn [uses_defined] in Hu. rewrite !andb_true_iff, all_in_spec in Hu. destruct Hu as [[Hrd Htg] Hrest].
  assert (Htg' : forall t, t ∈ targets i -> forall x, x ∈ D t -> x ∈ S).
  { intros t Ht. rewrite forallb_forall in Htg. apply all_in_spec, Htg, list_elem_of_In, Ht. }
  assert (Hnext : sim S (Z.of_nat (length (pre ++ [] ++ [i]))) s s').
  { cbn [app]. rewrite Hlen. eapply sim_later; [| exact Hs]. lia. }
  assert (Hstep : sim (writes (type i) (operands i) ++ S) (Z.of_nat (length (pre ++ [i])))
                    (exec (type i) (operands i) s) (loc_exec (type i) (operands i') s')).
  { rewrite Hlen. apply sim_exec; assumption. }
  assert (Hgo : same_end S pre (i :: m) (run_code exec taken (code b m) (exec (type i) (operands i) s))
                  (run_code loc_exec loc_taken (code b m') (loc_exec (type i) (operands i') s'))).
  { eapply same_end_next, IH; eassumption. }
  assert (Hpl : (type i = JMP -> is_vreg (op i 0) = false) /\
    (type i = BRANCH -> is_vreg (op i 1) = false /\ is_vreg (op i 2) = false)).
  { apply Hplain. rewrite E. apply elem_of_app. right. left. }
  cbn [run_code]. rewrite Et. destruct (type i) eqn:Ety; try exact Hgo.
  - rewrite (block_value i i' 0 Hi) by (apply Hpl; reflexivity). split; [reflexivity |].
    assert (Hin : value (op i 0) ∈ targets i) by (unfold targets; rewrite Ety; left).
    exists [], i, m, S. split; [reflexivity |]. split; [assumption |]. split; [apply Htg'; assumption | exact Hnext].
  - assert (Htk : taken (op i 0) s = loc_taken (op i' 0) s').
    { unfold loc_taken. destruct s as [v r], s' as [v' r'], Hs as [H1 H2]. cbn [fst snd] in H1, H2.
      subst r'. apply (taken_rename (exec := exec) _ _ f); [apply op_allocated, Hi |]. intros Hv.
      assert (Hr0 : get_vreg_idx (op i 0) ∈ reads BRANCH (operands i)).
      { apply vregs_of_elem. exists 0%nat, (op i 0). unfold op in *. destruct (operands i); [discriminate Hv |]. auto. }
      destruct (H2 _ (Hrd _ Hr0)) as (b0 & e0 & L & Hb0 & Heq). apply Heq, (lr_all _ _ _ _ L), (mentioned _ i); [assumption |].
      eapply vregs_mentioned. exact Hr0. }
    rewrite <- Htk. destruct (proj2 Hpl eq_refl) as [P1 P2].
    set (k := (if taken (op i 0) s then 1 else 2)%nat).
    rewrite (block_value i i' k Hi) by (unfold k; destruct (taken (op i 0) s); assumption). split; [reflexivity |].
    assert (Hin : value (op i k) ∈ targets i).
    { unfold targets, k. rewrite Ety. destruct (taken (op i 0) s); [left | right; left]. }
    exists [], i, m, S. split; [reflexivity |]. split; [assumption |]. split; [apply Htg'; assumption | exact Hnext].
  - split; [reflexivity |]. split; [assumption | apply Hs].
  - split; [reflexivity |]. split; [assumption | apply Hs].
Qed.

Definition allocated_exit (o o' : option (exit (St := vstate R))) : Prop :=
  match o, o' with
  | Some (t, ops, s), Some (t', ops', s') => t = t' /\ renamed_ops f ops (map located ops') /\ snd s = snd s'
  | None, None => True
  | _, _ => False
  end.

Lemma allocated_code b m m' : Forall2 (allocated f) m m' -> code b m = [] -> code b m' = [].
Proof.
  induction 1 as [| i i' m m' Hi H IH]; intros Hc; [reflexivity |]. rewrite code_cons in *. destruct Hi as (-> & _ & _).
  case_decide; [discriminate | auto].
Qed.

Lemma allocated_run fuel : forall pre m pre' m' b S s s',
  l = pre ++ m -> Forall2 (allocated f) pre pre' -> Forall2 (allocated f) m m' -> code b pre = [] ->
  (forall x, x ∈ D b -> x ∈ S) -> sim S (Z.of_nat (length pre)) s s' ->
  allocated_exit (run exec taken fuel l b s) (run loc_exec loc_taken fuel (pre' ++ m') b s').
Proof.
  induction fuel as [| fuel IH]; intros pre m pre' m' b S s s' E Hpre Hm Hc HD Hs; [exact I |]. cbn [run].
  assert (C1 : code b l = code b m) by (rewrite E, code_app, Hc; reflexivity).
  assert (C2 : code b (pre' ++ m') = code b m') by (rewrite code_app, (allocated_code b pre pre' Hpre Hc); reflexivity).
  assert (Hu : uses_defined D S (code b m) = true).
  { rewrite <- C1. eapply uses_defined_mono; [exact HD | apply Hdef]. }
  rewrite C1, C2. pose proof (code_step b S pre m m' s s' E Hm Hu Hs) as Hstep.
  destruct (run_code exec taken (code b m) s), (run_code loc_exec loc_taken (code b m') s'); cbn in Hstep |- *; try tauto.
  destruct Hstep as [<- (m1 & i & m2 & S' & Em & Hi & HD' & Hs')]. subst m.
  apply Forall2_app_inv_l in Hm as (m1' & r' & Hm1 & Hr & ->). apply Forall2_cons_inv_l in Hr as (i' & m2' & Hi' & Hm2 & ->).
  rewrite cons_middle, app_assoc, app_assoc, <- (app_assoc pre').
  apply (IH (pre ++ m1 ++ [i]) m2 (pre' ++ m1' ++ [i']) m2' b0 S'); try assumption.
  - rewrite E, <- !app_assoc. reflexivity.
  - apply Forall2_app; [assumption |]. apply Forall2_app; [assumption |]. constructor; [assumption | constructor].
  - apply code_nil_iff. intros k Hk Ek. apply list_elem_of_lookup in Hk as (q & Hq).
    assert (Hli : l !! length (pre ++ m1) = Some i) by (rewrite E, app_assoc; apply list_lookup_middle; reflexivity).
    assert (Hlq : l !! q = Some k).
    { rewrite E. replace (pre ++ m1 ++ i :: m2) with ((pre ++ m1 ++ [i]) ++ m2) by (rewrite <- !app_assoc; reflexivity).
      apply lookup_app_l_Some. assumption. }
    assert (length (pre ++ m1) < q)%nat by (eapply Htop; [exact Hli | exact Hlq | congruence]).
    apply lookup_lt_Some in Hq. rewrite !length_app in *. cbn in Hq. lia.
Qed.
End Simulation.

(** ** The theorems *)

(** The range of every register that is mentioned. *)
Lemma mentioned_live_range c p x :
  small_enough c -> all_vregs_in_range (Z.to_nat (_ir_reg_count c)) (_ir_insns c) ->
  mentions (_ir_insns c) p x -> exists b e, live_range (_ir_insns c) x b e.
Proof.
  intros Hs Hr Hm. destruct (vreg_ranges_ok c Hs Hr) as (bs & es & _ & Hrg). eauto using ranges_live_range.
Qed.

(** What the allocator asks of a buffer. *)
Record allocable (D : Z -> list Z) (c : TranslationContext) : Prop := {
  ac_small : small_enough c;
  ac_range : all_vregs_in_range (Z.to_nat (_ir_reg_count c)) (_ir_insns c);
  ac_single : last_use_single (_ir_insns c);
  ac_topological : topological (_ir_insns c);
  ac_defined : defined_before_use D (_ir_insns c);
  ac_plain : targets_plain (_ir_insns c)
}.

(** C32. On topologically sorted code that writes
    every register before it reads it, in which no register is mentioned twice
    in its last instruction, jumps name constants, and registers and counts are
    in range, with at most 2^14 physical registers and stack slots: allocation
    succeeds, and the allocated code, run on physical registers
    and stack slots, leaves by the same instruction with the same outside state
    as the code run on virtual registers, and one of the two runs ends exactly
    when the other does. *)
Theorem register_allocation_correct {R} (exec : IRInstructionType -> list IROperand -> vstate R -> vstate R)
    (taken : IROperand -> vstate R -> bool) {RD : RespectsDescriptors exec taken} {RA : RegisterAgnostic exec taken}
    num D c :
  0 <= num <= 2 ^ 14 -> allocable D c ->
  exists l' frame used f, GlobalRegisterAllocation_Apply num c = Ok (with_insns l' c, frame, used) /\
    (frame <= 2 ^ 14 -> forall v v' r t r',
      (forall ops1 v1, evals exec taken (_ir_insns c) 0 (v, r) (t, ops1, (v1, r')) ->
         exists ops2 v2, evals (loc_exec exec) (loc_taken taken) l' 0 (v', r) (t, ops2, (v2, r')) /\
           renamed_ops f ops1 (map located ops2)) /\
      (forall ops2 v2, evals (loc_exec exec) (loc_taken taken) l' 0 (v', r) (t, ops2, (v2, r')) ->
         exists ops1 v1, evals exec taken (_ir_insns c) 0 (v, r) (t, ops1, (v1, r')) /\
           renamed_ops f ops1 (map located ops2))).
Proof.
  intros Hn [Hs Hr Hl Ht Hd Hp]. destruct (register_allocation_ok num c ltac:(lia) Hs Hr Hl) as (l' & T & reg & E & HA & Hg & Hsep).
  eexists l', _, _, (fun x => location num (reg x)). split; [exact E |]. intros HT v v' r t r'.
  pose proof (location_separates c num T reg Hn HT Hg Hsep) as Hsep'.
  assert (Hsim : forall fuel, allocated_exit (fun x => location num (reg x)) (run exec taken fuel (_ir_insns c) 0 (v, r))
                   (run (loc_exec exec) (loc_taken taken) fuel l' 0 (v', r))).
  { intros fuel. apply (allocated_run exec taken (_ir_insns c) _ D) with (pre := []) (m := _ir_insns c) (pre' := []) (S := []); try assumption; try reflexivity.
    - intros p x. apply mentioned_live_range; assumption.
    - constructor.
    - rewrite (proj1 Hd). auto.
    - split; [reflexivity |]. intros x Hx. inversion Hx. }
  split; intros o w H; apply evals_run in H as (fuel & H); specialize (Hsim fuel); rewrite H in Hsim.
  - destruct (run (loc_exec exec) _ fuel _ 0 _) as [((t1, ops1), (v1, r1)) |] eqn:E1; cbn in Hsim; [| tauto].
    destruct Hsim as (<- & Hops & <-). exists ops1, v1. split; [eapply run_evals; eassumption | assumption].
  - destruct (run exec taken fuel _ 0 _) as [((t1, ops1), (v1, r1)) |] eqn:E1; cbn in Hsim; [| tauto].
    destruct Hsim as (-> & Hops & ->). exists ops1, v1. split; [eapply run_evals; eassumption | assumption].
Qed.

(** ** Checks by computation *)

Definition single_check (l : list IRInstruction) : bool :=
  let E := events 0 l in
  forallb (fun ev : event =>
    negb (existsb (fun d : event => (snd d =? snd ev) && (fst d <? fst ev)) E) ||
    existsb (fun d : event => (snd d =? snd ev) && (fst ev <? fst d)) E ||
    Nat.eqb (List.length (List.filter (fun d : event => (fst d =? fst ev) && (snd d =? snd ev)) E)) 1) E.

Lemma filter_two {A} (p : A -> bool) l1 a l2 :
  List.length (List.filter p (l1 ++ a :: l2)) = 1%nat -> p a = true -> forall b, b ∈ l1 \/ b ∈ l2 -> p b = false.
Proof.
  rewrite List.filter_app, length_app. cbn [List.filter]. intros H Ha b Hb. rewrite Ha in H. cbn in H.
  assert (H1 : List.filter p l1 = []) by (destruct (List.filter p l1); [reflexivity | cbn in H; lia]).
  assert (H2 : List.filter p l2 = []) by (destruct (List.filter p l2); [reflexivity | cbn in H; lia]).
  destruct (p b) eqn:E; [| reflexivity]. exfalso.
  destruct Hb as [Hb | Hb]; apply list_elem_of_In in Hb;
    assert (Hin := proj2 (filter_In p b _) (conj Hb E)); [rewrite H1 in Hin | rewrite H2 in Hin]; inversion Hin.
Qed.

Lemma single_check_ok l : single_check l = true -> last_use_single l.
Proof.
  unfold single_check. rewrite forallb_forall. intros H x b e E1 E2 [Hf Hl Ha] Hlt HE.
  specialize (H (e, x)). cbn [fst snd] in H. unfold mentions in *. rewrite HE in H at 1.
  assert (Hin : In (e, x) (E1 ++ (e, x) :: E2)) by (apply in_or_app; right; left; reflexivity).
  specialize (H Hin). apply orb_true_iff in H as [H | H]; [apply orb_true_iff in H as [H | H] |].
  - exfalso. apply negb_true_iff in H. assert (Hex : existsb (fun d : event => (snd d =? x) && (fst d <? e)) (events 0 l) = true).
    { apply existsb_exists. exists (b, x). split; [apply list_elem_of_In; assumption |]. cbn. rewrite Z.eqb_refl. apply Z.ltb_lt. assumption. }
    congruence.
  - exfalso. apply existsb_exists in H as ([q y] & Hq & Hc). cbn in Hc. apply andb_true_iff in Hc as [Hc1 Hc2].
    apply Z.eqb_eq in Hc1 as ->. apply Z.ltb_lt in Hc2. apply list_elem_of_In in Hq. specialize (Ha q Hq). lia.
  - apply Nat.eqb_eq in H. rewrite HE in H. split; intros Hm;
      assert (Hz := filter_two _ _ _ _ H ltac:(cbn; rewrite !Z.eqb_refl; reflexivity) (e, x) ltac:(auto)); cbn in Hz;
      rewrite !Z.eqb_refl in Hz; discriminate.
Qed.

(** Three registers, of which two are live together, and one machine
    register. *)
Definition regalloc_example : TranslationContext :=
  mkContext 1 3
    [mkInsn [constant 1 8; vreg 0 8] 0 MOV; mkInsn [constant 2 8; vreg 1 8] 0 MOV;
     mkInsn [vreg 0 8; vreg 1 8] 0 ADD; mkInsn [vreg 1 8; vreg 2 8] 0 MOV;
     mkInsn [vreg 2 8; constant 16 8] 0 WRITE_REG; mkInsn [] 0 RET] 0.

Lemma regalloc_example_allocable : allocable (fun _ => []) regalloc_example.
Proof.
  split.
  - vm_compute. split; reflexivity.
  - repeat (apply Forall_cons; split); try apply Forall_nil; cbn [operands];
      repeat (apply Forall_cons; split); try apply Forall_nil; vm_compute; intuition congruence.
  - apply single_check_ok. vm_compute. reflexivity.
  - intros p q i k Hi _ Ht. assert (p < 6)%nat by (apply lookup_lt_Some in Hi; exact Hi).
    do 6 (destruct p as [| p]; [injection Hi as <-; inversion Ht |]). lia.
  - split; [reflexivity |]. intros b. destruct (decide (b = 0)) as [-> | Hb]; [vm_compute; reflexivity |].
    replace (code b (_ir_insns regalloc_example)) with ([] : list IRInstruction); [reflexivity |].
    symmetry. apply code_nil_iff. intros i Hi. repeat (apply elem_of_cons in Hi as [-> | Hi]; [cbn; congruence |]). inversion Hi.
  - intros i Hi. repeat (apply elem_of_cons in Hi as [-> | Hi]; [cbn; split; discriminate |]). inversion Hi.
Qed.

Lemma allocation_separates_witness :
  exists l' frame used f, GlobalRegisterAllocation_Apply 1 regalloc_example = Ok (with_insns l' regalloc_example, frame, used) /\
    frame = 8 /\ used = [true] /\ separates (_ir_insns regalloc_example) f.
Proof.
  destruct (allocation_separates 1 regalloc_example) as (l' & frame & used & f & E & _ & H);
    [lia | apply regalloc_example_allocable | apply regalloc_example_allocable | apply regalloc_example_allocable |].
  exists l', frame, used, f. split; [exact E |]. vm_compute in E. injection E as <- <- <-. split; [reflexivity |].
  split; [reflexivity |]. apply H. vm_compute. discriminate.
Defined.

Lemma register_allocation_correct_witness :
  exists l' frame used v2, GlobalRegisterAllocation_Apply 1 regalloc_example = Ok (with_insns l' regalloc_example, frame, used) /\
    map (fun i => map (fun o => (alloc_mode o, alloc_data o)) (List.filter is_vreg (operands i))) l' =
      [[(ALLOCATED_REG, 0)]; [(ALLOCATED_STACK, 0)]; [(ALLOCATED_REG, 0); (ALLOCATED_STACK, 0)];
       [(ALLOCATED_STACK, 0); (ALLOCATED_STACK, 0)]; [(ALLOCATED_STACK, 0)]; []] /\
    evals (loc_exec small_exec) (loc_taken small_taken) l' 0 (fun _ => 7, []) (RET, [], (v2, [16; 3])).
Proof.
  destruct (register_allocation_correct small_exec small_taken 1 (fun _ => []) regalloc_example ltac:(lia) regalloc_example_allocable)
    as (l' & frame & used & f & E & H).
  assert (Hfr : frame <= 2 ^ 14) by (vm_compute in E; injection E as <- <- <-; vm_compute; discriminate).
  edestruct (proj1 (H Hfr (fun _ => 0) (fun _ => 7) [] RET [16; 3]) []) as (ops2 & v2 & Hev & Hops);
    [apply (run_evals _ _ 1); reflexivity |].
  apply Forall2_nil_inv_l in Hops. destruct ops2; [| discriminate Hops]. exists l', frame, used, v2. split; [exact E |]. split; [| exact Hev].
  vm_compute in E. injection E as <- <- <-. reflexivity.
Defined.
