(* ===== verification/PostAlloc.v ===== *)
(** * Transforms after register allocation, and the whole compiler

    BlockCompiler::post_allocate_peephole (block-compiler.cpp),
    PostAllocatePeephole.cpp and Peephole2Transform.cpp work on allocated
    operands.  [compile] is BlockCompiler::compile. *)

From Stdlib Require Import ZArith Lia Bool Ascii.
From stdpp Require Import base list numbers sets.
From S2P Require Import Prelude.
From S2P Require Import BlockIR.
From S2P Require Import IRSorter.
From S2P Require Import IRSorterCorrect.
From S2P Require Import BlockFlow.
From S2P Require Import ReorderBlocks.
From S2P Require Import ThreadJumps.
From S2P Require Import MergeBlocks.
From S2P Require Import BlockCompiler.
From S2P Require Import ValueFlow.
From S2P Require Import ValueRenumbering.
From S2P Require Import ConstantProp.
From S2P Require Import DeadStore.
From S2P Require Import RegStore.
From S2P Require Import MovElimination.
From S2P Require Import RegAlloc.
From S2P Require Import RegAllocCorrect.

(** ** post_allocate_peephole *)

Definition same_alloc (a b : IROperand) : bool :=
  bool_decide (alloc_mode a = alloc_mode b) && (alloc_data a =? alloc_data b).

Definition make_instruction_nop (insn : IRInstruction) (set_block : bool) : IRInstruction :=
  mkInsn [] (if set_block then NOP_BLOCK else ir_block insn) NOP.

(** The two instructions as they are left. *)
Definition is_mov_nop (insn next : IRInstruction) (set_block : bool) : IRInstruction * IRInstruction :=
  match type insn with
  | MOV =>
      if same_alloc (op insn 0) (op insn 1) then (make_instruction_nop insn set_block, next)
      else
        match type next with
        | MOV =>
            if same_alloc (op insn 0) (op next 1) && same_alloc (op insn 1) (op next 0)
            then (insn, make_instruction_nop next set_block)
            else (insn, next)
        | _ => (insn, next)
        end
  | _ => (insn, next)
  end.

(** [for(ir_idx = 0; ir_idx < ctx.count() - 1; ++ir_idx)], at instruction
    [insn]. *)
Fixpoint mov_nops (insn : IRInstruction) (rest : list IRInstruction) : list IRInstruction :=
  match rest with
  | [] => [insn]
  | next :: r => let '(insn1, next1) := is_mov_nop insn next true in insn1 :: mov_nops next1 r
  end.

Definition is_add_candidate (insn : IRInstruction) : bool :=
  (bool_decide (type insn = ADD) || bool_decide (type insn = SUB)) &&
  is_constant (op insn 0) && is_alloc_reg (op insn 1).

Definition is_mem_candidate (mem add : IRInstruction) : bool :=
  if negb (bool_decide (type mem = READ_MEM)) then false
  else if negb (is_alloc_reg (op mem 0)) || negb (is_alloc_reg (op mem 2)) then false
  else if negb (alloc_data (op mem 0) =? alloc_data (op mem 2)) then false
  else if negb (alloc_data (op mem 0) =? alloc_data (op add 1)) then false
  else true.

Definition is_breaker (add test : IRInstruction) : bool :=
  if ir_block test =? NOP_BLOCK then false
  else if negb (ir_block add =? ir_block test) && negb (ir_block test =? NOP_BLOCK) then true
  else if negb (bool_decide (type test = READ_MEM)) then existsb (fun o => same_alloc o (op add 1)) (operands test)
  else false.

(** The search for the load of an addition. *)
Inductive mem_search := Exit | Broken | Found (k : nat).
Fixpoint find_mem (add : IRInstruction) (rest : list IRInstruction) : mem_search :=
  match rest with
  | [] => Exit
  | mem :: r =>
      if is_breaker add mem then Broken
      else if is_mem_candidate mem add then Found 0
      else match find_mem add r with Found k => Found (S k) | s => s end
  end.

Definition merge_into_load (add mem : IRInstruction) : result IRInstruction :=
  check* is_constant (op mem 1) or AssertFailed in
  let a := value (op mem 1) in
  let b := value (op add 0) in
  Ok (set_op 1 (with_value (u64 (match type add with ADD => a + b | _ => a - b end)) (op mem 1)) mem).

(** [while(true)], with at most one turn per instruction. *)
Fixpoint merge_adds (n : nat) (l : list IRInstruction) : result (list IRInstruction) :=
  match n, l with
  | S m, insn :: r =>
      if is_add_candidate insn then
        match find_mem insn r with
        | Exit => Ok l
        | Broken => let* r1 := merge_adds m r in Ok (insn :: r1)
        | Found k =>
            let* mem := of_option UndefinedBehaviour (r !! k) in
            let* mem1 := merge_into_load insn mem in
            let* r1 := merge_adds m (<[k := mem1]> r) in
            Ok (make_instruction_nop insn true :: r1)
        end
      else let* r1 := merge_adds m r in Ok (insn :: r1)
  | _, _ => Ok l
  end.

(** [ctx.count() - 1] wraps around on an empty buffer. *)
Definition post_allocate_peephole (c : TranslationContext) : result TranslationContext :=
  match _ir_insns c with
  | [] => Err UndefinedBehaviour
  | insn :: r =>
      let l := mov_nops insn r in
      let* l1 := merge_adds (length l) l in Ok (with_insns l1 c)
  end.

(** ** PostAllocatePeephole *)

Definition and_size (v : Z) : option Z :=
  if v =? 0xff then Some 1 else if v =? 0xffff then Some 2 else if v =? 0xffffffff then Some 4 else None.

Definition peephole_and (insn : IRInstruction) : IRInstruction :=
  let k := op insn 0 in
  if is_constant k then
    match and_size (value k) with
    | None => insn
    | Some op_size =>
        if negb (size k =? op_size) then set_op 0 (with_size op_size (op insn 1)) (set_type ZX insn)
        else make_nop insn
    end
  else insn.

Definition PostAllocatePeephole_Apply (c : TranslationContext) : TranslationContext :=
  with_insns (map (fun insn =>
    if ir_block insn =? NOP_BLOCK then insn
    else match type insn with AND => peephole_and insn | _ => insn end) (_ir_insns c)) c.

(** ** Peephole2 *)

Definition with_alloc_data (d : Z) (o : IROperand) : IROperand :=
  mkOperand (value o) d (alloc_mode o) (op_type o) (size o).

(** The first two of three instructions as they are left. *)
Definition ldreg_window (ldreg1 mov ldreg2 : IRInstruction) : IRInstruction * IRInstruction :=
  match type ldreg1, type mov, type ldreg2 with
  | READ_REG, MOV, READ_REG =>
      let d1 := op ldreg1 1 in let s := op mov 0 in let d := op mov 1 in let d2 := op ldreg2 1 in
      if is_alloc_reg d1 && is_alloc_reg s && is_alloc_reg d && is_alloc_reg d2 then
        if (alloc_data d1 =? alloc_data s) && (alloc_data d1 =? alloc_data d2)
        then (set_op 1 (with_alloc_data (alloc_data d) d1) ldreg1, make_nop mov)
        else (ldreg1, mov)
      else (ldreg1, mov)
  | _, _, _ => (ldreg1, mov)
  end.

(** [ir_idx < (int)ctx.count() - 3], at instruction [insn]. *)
Fixpoint peephole2 (insn : IRInstruction) (rest : list IRInstruction) : list IRInstruction :=
  match rest with
  | next :: ((third :: _ :: _) as r) =>
      let '(insn1, next1) := ldreg_window insn next third in insn1 :: peephole2 next1 r
  | _ => insn :: rest
  end.

Definition Peephole2_Apply (c : TranslationContext) : TranslationContext :=
  match _ir_insns c with
  | [] => c
  | insn :: r => with_insns (peephole2 insn r) c
  end.

(** ** BlockCompiler::compile *)

Definition BLKJIT_NUM_ALLOCABLE : Z := 8.

Record CompileResult := mkCompileResult {
  compiled : TranslationContext;
  StackFrameSize : Z;
  UsedPhysRegs : list bool
}.

Definition compile (std_sort : (Z -> Z -> bool) -> list Z -> list Z) (fuel : nat) (c : TranslationContext)
  : result CompileResult :=
  let* c1 := compile_control_flow std_sort fuel c in
  let* c2 := Peephole_Apply c1 in
  let c3 := RegStoreElimination_Apply c2 in
  let* c4 := SortIRTransform_Apply c3 in
  let* c5 := ValueRenumbering_Apply c4 in
  let* c6 := MovElimination_Apply fuel c5 in
  let* c7 := ConstantProp_Apply c6 in
  let* c8 := DeadStoreElimination_Apply c7 in
  let* c9 := SortIRTransform_Apply c8 in
  let* (c10, frame, used) := GlobalRegisterAllocation_Apply BLKJIT_NUM_ALLOCABLE c9 in
  let* c11 := post_allocate_peephole c10 in
  let c12 := PostAllocatePeephole_Apply c11 in
  let* c13 := SortIRTransform_Apply c12 in
  let c14 := Peephole2_Apply c13 in
  let* c15 := SortIRTransform_Apply c14 in
  Ok (mkCompileResult c15 frame used).

(** ** Machines on locations *)

(** A move copies; a register file read puts a value into its target that
    depends on the offset and on the rest of the state only. *)
Class MovesAndReads {R : Type} (exec : IRInstructionType -> list IROperand -> vstate R -> vstate R)
    (taken : IROperand -> vstate R -> bool) : Prop := {
  exec_mov : forall s d v r, is_vreg d = true ->
    snd (exec MOV [s; d] (v, r)) = r /\ fst (exec MOV [s; d] (v, r)) (get_vreg_idx d) = operand_value v s;
  exec_ldreg : forall a a' d d' v v' r, is_vreg d = true -> is_vreg d' = true -> size d = size d' ->
    value a = value a' -> size a = size a' -> op_type a = op_type a' -> operand_value v a = operand_value v' a' ->
    fst (exec READ_REG [a; d] (v, r)) (get_vreg_idx d) = fst (exec READ_REG [a'; d'] (v', r)) (get_vreg_idx d')
}.

(** The operands of allocated code: exactly the virtual registers are
    allocated. *)
Definition alloc_ok (o : IROperand) : Prop := is_vreg o = is_allocated o.

Lemma same_alloc_located a b :
  alloc_ok a -> alloc_ok b -> is_vreg b = true -> same_alloc a b = true ->
  is_vreg a = true /\ get_vreg_idx (located a) = get_vreg_idx (located b).
Proof.
  unfold alloc_ok, same_alloc, is_allocated. intros Ha Hb Hv H. apply andb_true_iff in H as [H1 H2].
  apply bool_decide_eq_true in H1. apply Z.eqb_eq in H2. rewrite H1, <- Hb, Hv in Ha. split; [assumption |].
  unfold located. rewrite Ha, Hv, H1, H2. reflexivity.
Qed.

(** Moves of allocated code. *)
Definition movs_ok (l : list IRInstruction) : Prop :=
  Forall (fun i => type i = MOV -> exists s d, operands i = [s; d] /\ is_vreg d = true /\ alloc_ok s /\ alloc_ok d) l.

(** A move is followed by an instruction of its block. *)
Fixpoint movs_followed (l : list IRInstruction) : Prop :=
  match l with
  | i :: ((k :: _) as r) => (type i = MOV -> ir_block k = ir_block i) /\ movs_followed r
  | _ => True
  end.

Lemma movs_followed_lookup l :
  (forall p i k, l !! p = Some i -> l !! S p = Some k -> type i = MOV -> ir_block k = ir_block i) -> movs_followed l.
Proof.
  induction l as [| i l IH]; intros H; [exact I |]. destruct l as [| k l]; [exact I |]. split.
  - intros Ht. exact (H 0%nat i k eq_refl eq_refl Ht).
  - apply IH. intros p i' k' Hi Hk. exact (H (S p) i' k' Hi Hk).
Qed.

(** In a sorted buffer whose blocks are terminated, one is. *)
Lemma sorted_movs_followed l : terminated l -> contiguous l -> movs_followed l.
Proof.
  intros Ht Hc. apply movs_followed_lookup. intros p i k Hi Hk Hm.
  destruct (Ht (ir_block i)) as [Hn | Hend].
  { exfalso. pose proof (proj1 (code_nil_iff (ir_block i) l) Hn i (list_elem_of_lookup_2 _ _ _ Hi)). contradiction. }
  assert (Hl : l = take (S p) l ++ drop (S p) l) by (symmetry; apply take_drop).
  assert (Htake : code (ir_block i) (take (S p) l) = code (ir_block i) (take p l) ++ [i]).
  { rewrite (take_S_r l p i Hi), code_app. f_equal. rewrite code_cons, decide_True by reflexivity. reflexivity. }
  rewrite Hl, code_app, Htake in Hend. destruct (code (ir_block i) (drop (S p) l)) as [| j r] eqn:Ed.
  - exfalso. rewrite app_nil_r in Hend. apply ends_in_control_spec in Hend as (body & t & E & Hct & _).
    apply app_inj_tail in E as [_ <-]. rewrite Hm in Hct. discriminate.
  - assert (Hj : j ∈ code (ir_block i) (drop (S p) l)) by (rewrite Ed; left). unfold code in Hj.
    apply list_elem_of_filter in Hj as [Hbj Hj]. apply list_elem_of_lookup in Hj as (q & Hq). rewrite lookup_drop in Hq.
    destruct (decide (q = 0)%nat) as [-> | Hq0].
    + rewrite Nat.add_0_r, Hk in Hq. injection Hq as <-. congruence.
    + apply (Hc p (S p) (S p + q)%nat i k j); try assumption; [lia | congruence].
Qed.

Section Moves.
Context {R : Type} (exec : IRInstructionType -> list IROperand -> vstate R -> vstate R)
        (taken : IROperand -> vstate R -> bool) {RD : RespectsDescriptors exec taken} {MR : MovesAndReads exec taken}.
Implicit Types (s : vstate R).
Abbreviation lexec := (loc_exec exec).
Abbreviation ltaken := (loc_taken taken).

Lemma loc_exec_same t ops s s' : same_state s s' -> same_state (lexec t ops s) (lexec t ops s').
Proof. apply (exec_same exec taken). Qed.

Lemma loc_taken_same o s s' : same_state s s' -> ltaken o s = ltaken o s'.
Proof. apply (taken_same exec taken). Qed.

Lemma is_vreg_located o : is_vreg (located o) = is_vreg o.
Proof. unfold located. destruct (is_vreg o) eqn:E; [reflexivity | assumption]. Qed.

Lemma loc_mov_value i x y s :
  operands i = [x; y] -> is_vreg y = true ->
  snd (lexec MOV (operands i) s) = snd s /\
  forall z, fst (lexec MOV (operands i) s) z = if z =? get_vreg_idx (located y) then operand_value (fst s) (located x) else fst s z.
Proof.
  intros Eo Hy. destruct s as [v r]. unfold loc_exec. rewrite Eo. cbn [map].
  destruct (exec_mov (exec := exec) (located x) (located y) v r) as [E1 E2]; [rewrite is_vreg_located; assumption |].
  split; [assumption |]. intros z. destruct (Z.eqb_spec z (get_vreg_idx (located y))) as [-> | Hz]; [assumption |].
  apply (exec_writes (exec := exec)). intros Hw. apply vregs_of_elem in Hw as (j & o & Hj & _ & Hf & ->).
  destruct j as [| [| j]]; [discriminate Hf | injection Hj as <-; contradiction | discriminate Hj].
Qed.

(** A move to where the value is. *)
Lemma self_move i x y s :
  operands i = [x; y] -> is_vreg y = true -> alloc_ok x -> alloc_ok y -> same_alloc x y = true ->
  same_state (lexec MOV (operands i) s) s.
Proof.
  intros Eo Hy Hax Hay Hs. destruct (loc_mov_value i x y s Eo Hy) as [E1 E2].
  destruct (same_alloc_located x y Hax Hay Hy Hs) as [Hx Hxy]. split; [assumption |]. intros z. rewrite E2.
  destruct (Z.eqb_spec z (get_vreg_idx (located y))) as [-> |]; [| reflexivity].
  unfold operand_value. rewrite is_vreg_located, Hx, Hxy. reflexivity.
Qed.

(** A move back. *)
Lemma back_move i k x y x' y' s :
  operands i = [x; y] -> operands k = [x'; y'] -> is_vreg y = true -> is_vreg y' = true ->
  alloc_ok x -> alloc_ok y -> alloc_ok x' -> alloc_ok y' -> same_alloc x y' = true -> same_alloc y x' = true ->
  same_state (lexec MOV (operands k) (lexec MOV (operands i) s)) (lexec MOV (operands i) s).
Proof.
  intros Ei Ek Hy Hy' Hax Hay Hax' Hay' H1 H2. destruct (loc_mov_value i x y s Ei Hy) as [E1 E2].
  destruct (loc_mov_value k x' y' (lexec MOV (operands i) s) Ek Hy') as [F1 F2].
  destruct (same_alloc_located x y' Hax Hay' Hy' H1) as [Hx Hxy].
  assert (Hx' : is_vreg x' = true).
  { unfold alloc_ok, same_alloc, is_allocated in *. apply andb_true_iff in H2 as [H2 _]. apply bool_decide_eq_true in H2.
    rewrite Hax', <- H2, <- Hay. assumption. }
  destruct (same_alloc_located y x' Hay Hax' Hx' H2) as [_ Hyx].
  split; [assumption |]. intros z. rewrite F2. destruct (Z.eqb_spec z (get_vreg_idx (located y'))) as [-> |]; [| reflexivity].
  unfold operand_value at 1. rewrite is_vreg_located, Hx', !E2, <- Hyx, Z.eqb_refl.
  unfold operand_value. rewrite is_vreg_located, Hx, Hxy.
  destruct (Z.eqb_spec (get_vreg_idx (located y')) (get_vreg_idx (located y))) as [Hzz |]; reflexivity.
Qed.

(** [cur] is [cur0] or has been removed, which the block [b] does not notice
    in state [s]. *)
Definition elided (b : Z) s (cur0 cur : IRInstruction) : Prop :=
  cur = cur0 \/
  cur = make_instruction_nop cur0 true /\ is_control (type cur0) = false /\
    (ir_block cur0 = b -> same_state (lexec (type cur0) (operands cur0) s) s).

Lemma same_trans s1 s2 s3 : same_state s1 s2 -> same_state s2 s3 -> same_state s1 s3.
Proof. intros [A1 A2] [B1 B2]. split; [congruence |]. intros x. rewrite A2. apply B2. Qed.

Lemma same_sym s1 s2 : same_state s1 s2 -> same_state s2 s1.
Proof. intros [A1 A2]. split; [congruence |]. intros x. symmetry. apply A2. Qed.

Lemma run_code_agree c : forall s s', same_state s s' ->
  same_outcome (run_code lexec ltaken c s) (run_code lexec ltaken c s').
Proof.
  induction c as [| i c IH]; intros s s' H; [exact H |]. cbn [run_code].
  destruct (type i); try (apply IH, loc_exec_same; assumption).
  - split; [reflexivity | assumption].
  - rewrite (loc_taken_same _ _ _ H). split; [reflexivity | assumption].
  - split; [reflexivity |]. split; [reflexivity | assumption].
  - split; [reflexivity |]. split; [reflexivity | assumption].
Qed.

Lemma run_code_skip i c s o' :
  is_control (type i) = false -> same_state (lexec (type i) (operands i) s) s ->
  same_outcome (run_code lexec ltaken c s) o' -> same_outcome (run_code lexec ltaken (i :: c) s) o'.
Proof.
  intros Hc Hs Ho.
  assert (E : run_code lexec ltaken (i :: c) s = run_code lexec ltaken c (lexec (type i) (operands i) s))
    by (cbn [run_code]; destruct (type i); try discriminate Hc; reflexivity).
  rewrite E. pose proof (run_code_agree c _ _ Hs) as Hr.
  destruct (run_code lexec ltaken c (lexec (type i) (operands i) s)), (run_code lexec ltaken c s), o'; cbn in *; try tauto;
    intuition (try congruence); eauto using same_trans.
Qed.

Lemma mov_nops_code b rest : forall cur0 cur s s',
  b <> NOP_BLOCK -> movs_ok (cur0 :: rest) -> movs_followed (cur0 :: rest) -> elided b s cur0 cur -> same_state s s' ->
  same_outcome (run_code lexec ltaken (code b (cur0 :: rest)) s) (run_code lexec ltaken (code b (mov_nops cur rest)) s').
Proof.
  induction rest as [| next r IH]; intros cur0 cur s s' Hb Hm Hf He Hs.
  - cbn [mov_nops]. rewrite !code_cons. destruct He as [-> | (-> & Hc & Hsk)].
    + case_decide; apply run_code_agree; assumption.
    + rewrite (decide_False (P := ir_block (make_instruction_nop cur0 true) = b)) by (cbn; congruence).
      case_decide as Hcb; [| exact Hs]. apply run_code_skip; auto.
  - cbn [mov_nops]. pose proof Hm as Hm'. apply Forall_cons in Hm as [Hcur Hm]. destruct Hf as [Hadj Hf]. rewrite code_cons.
    destruct He as [-> | (-> & Hc & Hsk)].
    2: { cbn [is_mov_nop make_instruction_nop type]. rewrite (code_cons b (mkInsn [] NOP_BLOCK NOP)), (decide_False (P := ir_block (mkInsn [] NOP_BLOCK NOP) = b)) by (cbn; congruence).
         assert (Hrest : same_outcome (run_code lexec ltaken (code b (next :: r)) s) (run_code lexec ltaken (code b (mov_nops next r)) s'))
           by (apply IH; try assumption; left; reflexivity).
         case_decide as Hcb; [apply run_code_skip; auto | exact Hrest]. }
    assert (Hgo : forall next1, (forall s1, ir_block cur0 = b -> s1 = lexec (type cur0) (operands cur0) s -> elided b s1 next next1) ->
        (ir_block cur0 <> b -> elided b s next next1) ->
        same_outcome (run_code lexec ltaken (if decide (ir_block cur0 = b) then cur0 :: code b (next :: r) else code b (next :: r)) s)
          (run_code lexec ltaken (code b (cur0 :: mov_nops next1 r)) s')).
    { intros next1 He1 He2. rewrite (code_cons b cur0 (mov_nops next1 r)). case_decide as Hcb; [| apply IH; auto].
      assert (Hnext : same_outcome (run_code lexec ltaken (code b (next :: r)) (lexec (type cur0) (operands cur0) s))
                (run_code lexec ltaken (code b (mov_nops next1 r)) (lexec (type cur0) (operands cur0) s')))
        by (apply IH; auto; apply loc_exec_same; assumption).
      cbn [run_code]. destruct (type cur0) eqn:Et; try exact Hnext.
      - split; [reflexivity | assumption].
      - rewrite (loc_taken_same _ _ _ Hs). split; [reflexivity | assumption].
      - split; [reflexivity |]. split; [reflexivity | assumption].
      - split; [reflexivity |]. split; [reflexivity | assumption]. }
    assert (Hkeep : same_outcome (run_code lexec ltaken (if decide (ir_block cur0 = b) then cur0 :: code b (next :: r) else code b (next :: r)) s)
          (run_code lexec ltaken (code b (cur0 :: mov_nops next r)) s')) by (apply Hgo; intros; left; reflexivity).
    unfold is_mov_nop. destruct (type cur0) eqn:Et; try exact Hkeep. destruct (Hcur eq_refl) as (x & y & Eo & Hy & Hax & Hay).
    unfold op. rewrite Eo. cbn [nth]. destruct (same_alloc x y) eqn:Exy.
    + rewrite (code_cons b (make_instruction_nop cur0 true)), (decide_False (P := ir_block (make_instruction_nop cur0 true) = b)) by (cbn; congruence).
      assert (Hrest : same_outcome (run_code lexec ltaken (code b (next :: r)) s) (run_code lexec ltaken (code b (mov_nops next r)) s'))
        by (apply IH; try assumption; left; reflexivity).
      case_decide; [| exact Hrest]. apply run_code_skip; [rewrite Et; reflexivity | | exact Hrest].
      rewrite Et. eapply self_move; eassumption.
    + destruct (type next) eqn:En; try exact Hkeep. apply Forall_cons in Hm as [Hnx _]. destruct (Hnx En) as (x' & y' & Eo' & Hy' & Hax' & Hay').
      rewrite Eo'. cbn [nth]. destruct (same_alloc x y' && same_alloc y x') eqn:Ec; [| exact Hkeep].
      apply andb_true_iff in Ec as [Ec1 Ec2]. apply Hgo.
      * intros s1 Hcb ->. right. split; [reflexivity |]. rewrite En. split; [reflexivity |]. intros _.
        eapply (back_move cur0 next x y x' y'); eassumption.
      * intros Hcb. right. split; [reflexivity |]. rewrite En. split; [reflexivity |]. intros Hnb. rewrite (Hadj eq_refl) in Hnb. contradiction.
Qed.

Lemma mov_nops_run l i r fuel s :
  l = i :: r -> movs_ok l -> movs_followed l -> (forall i t, i ∈ l -> t ∈ targets i -> t <> NOP_BLOCK) ->
  same_exit (run lexec ltaken fuel l 0 s) (run lexec ltaken fuel (mov_nops i r) 0 s).
Proof.
  intros -> Hm Hf Hn. apply blockwise_run; [assumption | | discriminate | split; reflexivity].
  intros b s1 s2 Hb Hs. apply mov_nops_code; try assumption. left. reflexivity.
Qed.

(** Three instructions and what is left of them. *)
Definition run3 (i j k : IRInstruction) s : vstate R :=
  lexec (type k) (operands k) (lexec (type j) (operands j) (lexec (type i) (operands i) s)).

Lemma loc_ldreg_value i x y s :
  operands i = [x; y] -> is_vreg y = true ->
  snd (lexec READ_REG (operands i) s) = snd s /\
  forall z, z <> get_vreg_idx (located y) -> fst (lexec READ_REG (operands i) s) z = fst s z.
Proof.
  intros Eo Hy. unfold loc_exec. rewrite Eo. cbn [map]. split; [apply (exec_pure (exec := exec)); reflexivity |].
  intros z Hz. apply (exec_writes (exec := exec)). intros Hw. apply vregs_of_elem in Hw as (j & o & Hj & _ & Hf & ->).
  destruct j as [| [| j]]; [discriminate Hf | injection Hj as <-; contradiction | discriminate Hj].
Qed.
Lemma alloc_reg_vreg o : alloc_ok o -> is_alloc_reg o = true -> is_vreg o = true.
Proof.
  unfold alloc_ok, is_alloc_reg, is_allocated. intros H1 H2. apply bool_decide_eq_true in H2. rewrite H1, H2. reflexivity.
Qed.

Lemma same_data_located a b :
  alloc_ok a -> alloc_ok b -> is_alloc_reg a = true -> is_alloc_reg b = true -> alloc_data a = alloc_data b ->
  get_vreg_idx (located a) = get_vreg_idx (located b).
Proof.
  intros Ha Hb Ra Rb E. unfold located. rewrite (alloc_reg_vreg a), (alloc_reg_vreg b) by assumption.
  unfold is_alloc_reg in *. apply bool_decide_eq_true in Ra, Rb. rewrite Ra, Rb, E. reflexivity.
Qed.

(** The window of the second peephole, when the second offset is not in the
    register of the first read. *)
Lemma ldreg_window_ok i j k a d1 x d a2 d2 i' j' s :
  type i = READ_REG -> type j = MOV -> type k = READ_REG ->
  operands i = [a; d1] -> operands j = [x; d] -> operands k = [a2; d2] ->
  Forall alloc_ok [d1; x; d; d2] -> ldreg_window i j k = (i', j') -> type j' = NOP ->
  (is_vreg a2 = true -> get_vreg_idx (located a2) <> get_vreg_idx (located d1)) ->
  same_state (run3 i j k s) (lexec READ_REG (operands k) (lexec READ_REG (operands i') s)).
Proof.
  intros Ti Tj Tk Oi Oj Ok Hok E Hnop Ha2.
  apply Forall_cons in Hok as [Hd1 Hok]. apply Forall_cons in Hok as [Hx Hok]. apply Forall_cons in Hok as [Hd Hok].
  apply Forall_cons in Hok as [Hd2 _].
  unfold ldreg_window, op in E. rewrite Ti, Tj, Tk, Oi, Oj, Ok in E. cbn [nth] in E.
  destruct (is_alloc_reg d1 && is_alloc_reg x && is_alloc_reg d && is_alloc_reg d2) eqn:Ereg;
    [| injection E as _ <-; congruence].
  destruct ((alloc_data d1 =? alloc_data x) && (alloc_data d1 =? alloc_data d2)) eqn:Edata;
    [| injection E as _ <-; congruence].
  injection E as <- _. rewrite !andb_true_iff in Ereg. destruct Ereg as [[[R1 Rx] Rd] R2].
  rewrite andb_true_iff, !Z.eqb_eq in Edata. destruct Edata as [D1 D2].
  set (n1 := with_alloc_data (alloc_data d) d1).
  assert (On : operands (set_op 1 n1 i) = [a; n1]) by (cbn; rewrite Oi; reflexivity).
  assert (V1 : is_vreg d1 = true) by (apply alloc_reg_vreg; assumption).
  assert (Vx : is_vreg x = true) by (apply alloc_reg_vreg; assumption).
  assert (Vd : is_vreg d = true) by (apply alloc_reg_vreg; assumption).
  assert (V2 : is_vreg d2 = true) by (apply alloc_reg_vreg; assumption).
  assert (Vn : is_vreg n1 = true) by exact V1.
  assert (Ex : get_vreg_idx (located x) = get_vreg_idx (located d1)) by (apply same_data_located; auto).
  assert (E2 : get_vreg_idx (located d2) = get_vreg_idx (located d1)) by (apply same_data_located; auto).
  assert (En : get_vreg_idx (located n1) = get_vreg_idx (located d)).
  { apply same_data_located; auto. }
  unfold run3. rewrite Ti, Tj, Tk.
  set (s1 := lexec READ_REG (operands i) s). set (s2 := lexec MOV (operands j) s1). set (t1 := lexec READ_REG (operands (set_op 1 n1 i)) s).
  destruct (loc_ldreg_value i a d1 s Oi V1) as [S1a S1b]. fold s1 in S1a, S1b.
  destruct (loc_mov_value j x d s1 Oj Vd) as [S2a S2b]. fold s2 in S2a, S2b.
  destruct (loc_ldreg_value (set_op 1 n1 i) a n1 s On Vn) as [T1a T1b]. fold t1 in T1a, T1b.
  assert (Hread : fst s1 (get_vreg_idx (located d1)) = fst t1 (get_vreg_idx (located d))).
  { rewrite <- En. unfold s1, t1, loc_exec. rewrite Oi, On. cbn [map]. destruct s as [v r].
    apply (exec_ldreg (exec := exec)); rewrite ?is_vreg_located; auto. unfold located. rewrite V1, Vn. reflexivity. }
  assert (Hst : forall z, z <> get_vreg_idx (located d1) -> fst s2 z = fst t1 z).
  { intros z Hz. rewrite S2b. destruct (Z.eqb_spec z (get_vreg_idx (located d))) as [-> | Hzd].
    - unfold operand_value. rewrite is_vreg_located, Vx, Ex. assumption.
    - rewrite S1b, T1b by congruence. reflexivity. }
  destruct (loc_ldreg_value k a2 d2 s2 Ok V2) as [S3a S3b]. destruct (loc_ldreg_value k a2 d2 t1 Ok V2) as [T2a T2b].
  split; [congruence |]. intros z. destruct (decide (z = get_vreg_idx (located d2))) as [-> | Hz].
  - unfold loc_exec. rewrite Ok. cbn [map]. destruct s2 as [v2 r2], t1 as [w1 q1]. cbn [fst snd] in *.
    assert (r2 = q1) as -> by congruence. apply (exec_ldreg (exec := exec)); rewrite ?is_vreg_located; auto.
    unfold operand_value. rewrite is_vreg_located. destruct (is_vreg a2); [| reflexivity]. apply Hst, Ha2. reflexivity.
  - rewrite S3b, T2b by assumption. apply Hst. congruence.
Qed.
End Moves.

(** ** The additions and loads are left alone

    The first operand of a load is its memory interface, a constant. *)
Definition loads_ok (l : list IRInstruction) : Prop :=
  Forall (fun i => type i = READ_MEM -> is_alloc_reg (op i 0) = false) l.

Lemma find_mem_none add rest : loads_ok rest -> forall k, find_mem add rest <> Found k.
Proof.
  induction 1 as [| mem r Hmem Hr IH]; intros k; cbn [find_mem]; [discriminate |].
  destruct (is_breaker add mem); [discriminate |].
  assert (Hc : is_mem_candidate mem add = false).
  { unfold is_mem_candidate. case_bool_decide as Ht; cbn [negb]; [| reflexivity]. rewrite (Hmem Ht). reflexivity. }
  rewrite Hc. destruct (find_mem add r) eqn:E; try discriminate. intros _. exact (IH _ eq_refl).
Qed.

Lemma merge_adds_id n l : loads_ok l -> merge_adds n l = Ok l.
Proof.
  revert l. induction n as [| n IH]; intros l Hl; [reflexivity |]. destruct l as [| i r]; [reflexivity |]. cbn [merge_adds].
  apply Forall_cons in Hl as [_ Hl]. rewrite (IH r Hl). cbn [rbind]. destruct (is_add_candidate i); [| reflexivity].
  destruct (find_mem i r) eqn:E; [reflexivity | reflexivity |]. exfalso. exact (find_mem_none i r Hl k E).
Qed.

Lemma is_mov_nop_cases i k i' k' :
  is_mov_nop i k true = (i', k') -> (i' = i \/ type i' = NOP) /\ (k' = k \/ type k' = NOP).
Proof.
  unfold is_mov_nop. intros E.
  repeat (match type of E with context [match ?x with _ => _ end] => destruct x end); injection E as <- <-; auto.
Qed.

Lemma mov_nops_loads i r : loads_ok (i :: r) -> loads_ok (mov_nops i r).
Proof.
  revert i. induction r as [| k r IH]; intros i H; [exact H |]. cbn [mov_nops].
  apply Forall_cons in H as [Hi H]. apply Forall_cons in H as [Hk H].
  destruct (is_mov_nop i k true) as [i' k'] eqn:E. destruct (is_mov_nop_cases i k i' k' E) as [Ei Ek].
  apply Forall_cons. split; [| apply IH, Forall_cons; split; [| assumption]].
  - destruct Ei as [-> | ->]; [assumption | discriminate].
  - destruct Ek as [-> | ->]; [assumption | discriminate].
Qed.

(** On a sorted, terminated, not
    empty buffer BlockCompiler::post_allocate_peephole succeeds, does no more
    than remove moves of a location to itself and moves that undo the move before
    (the merging of additions into loads never finds a load, the operand it
    compares being the memory interface), and the code it leaves runs to the same
    exit with the same locations. *)
Theorem post_allocate_peephole_correct {R} (exec : IRInstructionType -> list IROperand -> vstate R -> vstate R)
    (taken : IROperand -> vstate R -> bool) {RD : RespectsDescriptors exec taken} {MR : MovesAndReads exec taken} c :
  _ir_insns c <> [] -> movs_ok (_ir_insns c) -> loads_ok (_ir_insns c) -> terminated (_ir_insns c) -> contiguous (_ir_insns c) ->
  (forall i t, i ∈ _ir_insns c -> t ∈ targets i -> t <> NOP_BLOCK) ->
  exists c', post_allocate_peephole c = Ok c' /\
    (forall i r, _ir_insns c = i :: r -> _ir_insns c' = mov_nops i r) /\
    forall fuel s, same_exit (run (loc_exec exec) (loc_taken taken) fuel (_ir_insns c) 0 s)
                             (run (loc_exec exec) (loc_taken taken) fuel (_ir_insns c') 0 s).
Proof.
  intros Hne Hm Hl Ht Hc Hn. unfold post_allocate_peephole. destruct (_ir_insns c) as [| i r] eqn:E; [contradiction |].
  rewrite merge_adds_id by (apply mov_nops_loads; assumption). cbn [rbind]. eexists. split; [reflexivity |].
  cbn [_ir_insns with_insns]. split; [intros i' r' [= <- <-]; reflexivity |]. intros fuel s.
  apply (mov_nops_run exec taken); [reflexivity | assumption | apply sorted_movs_followed; assumption | assumption].
Qed.

(** ** Masks

    What an AND with a constant, or what replaces it, leaves in its target of
    [w] bytes that holds [x]. *)
Definition and_result (insn : IRInstruction) (x : Z) : Z :=
  match type insn with
  | AND => Z.land x (value (op insn 0))
  | ZX => wrap (8 * size (op insn 0)) x
  | _ => x
  end.

Lemma and_size_mask v n : and_size v = Some n -> v = Z.ones (8 * n) /\ (n = 1 \/ n = 2 \/ n = 4).
Proof.
  unfold and_size. destruct (Z.eqb_spec v 0xff) as [-> |]; [intros [= <-]; auto |].
  destruct (Z.eqb_spec v 0xffff) as [-> |]; [intros [= <-]; auto |].
  destruct (Z.eqb_spec v 0xffffffff) as [-> |]; [intros [= <-]; auto | discriminate].
Qed.

(** Replacing the AND with 0xff, 0xffff or 0xffffffff by a
    zero extension, or by nothing when the mask has the operand's width, leaves
    the same value in the target, and every other AND is unchanged. *)
Theorem peephole_and_correct insn k d x :
  type insn = AND -> operands insn = [k; d] -> size k = size d -> in_range (8 * size d) x ->
  and_result (peephole_and insn) x = and_result insn x.
Proof.
  intros Ht Ho Hs Hx. unfold peephole_and, op. rewrite Ho. cbn [nth]. destruct (is_constant k); [| reflexivity].
  destruct (and_size (value k)) as [n |] eqn:E; [| reflexivity]. apply and_size_mask in E as [Ek Hn].
  unfold and_result at 2, op. rewrite Ht, Ho. cbn [nth]. rewrite Ek, Z.land_ones by lia.
  destruct (Z.eqb_spec (size k) n) as [<- | Hne]; cbn [negb].
  - cbn. symmetry. apply wrap_small. rewrite Hs. assumption.
  - unfold and_result, op, set_op, set_type. cbn [type operands]. rewrite Ho. reflexivity.
Qed.

Lemma peephole_and_correct_witness :
  peephole_and (mkInsn [constant 0xff 4; vreg 3 4] 0 AND) = mkInsn [with_size 1 (vreg 3 4); vreg 3 4] 0 ZX /\
  and_result (peephole_and (mkInsn [constant 0xff 4; vreg 3 4] 0 AND)) 0x12345678 = 0x78.
Proof.
  split; [reflexivity |]. rewrite (peephole_and_correct _ (constant 0xff 4) (vreg 3 4)); try reflexivity.
  split; [lia | reflexivity].
Defined.

(** ** Examples *)

#[export] Instance small_moves : MovesAndReads small_exec small_taken.
Proof.
  split.
  - intros s d v r Hd. cbn. unfold set_vreg. rewrite Hd, Z.eqb_refl. auto.
  - intros a a' d d' v v' r Hd Hd' _ _ _ _ _. cbn [small_exec fst].
    assert (Hc : forall b e w, is_vreg e = true -> clear_outputs READ_REG [b; e] w (get_vreg_idx e) = 0).
    { intros b e w He. unfold clear_outputs. rewrite bool_decide_true; [reflexivity |]. apply vregs_of_elem. exists 1%nat, e. auto. }
    rewrite !Hc by assumption. reflexivity.
Qed.

Definition in_reg (r : Z) : IROperand := mkOperand r r ALLOCATED_REG VREG 8.

(** A move to itself and a move back. *)
Definition moves_example : TranslationContext :=
  mkContext 1 2
    [mkInsn [constant 9 8; in_reg 0] 0 MOV; mkInsn [in_reg 0; in_reg 0] 0 MOV; mkInsn [in_reg 0; in_reg 1] 0 MOV;
     mkInsn [in_reg 1; in_reg 0] 0 MOV; mkInsn [in_reg 0; constant 16 8] 0 WRITE_REG; mkInsn [] 0 RET] 0.

Lemma post_allocate_peephole_correct_witness :
  exists c', post_allocate_peephole moves_example = Ok c' /\
    map type (_ir_insns c') = [MOV; NOP; MOV; NOP; WRITE_REG; RET] /\
    option_map (fun e => snd (snd e)) (run (loc_exec small_exec) (loc_taken small_taken) 1 (_ir_insns c') 0 (fun _ => 0, []))
      = Some [16; 9].
Proof.
  destruct (post_allocate_peephole_correct small_exec small_taken moves_example) as (c' & E & _ & Hrun).
  - discriminate.
  - repeat (apply Forall_cons_2; [first [intros Ht; discriminate Ht | intros _; eexists _, _; split; [reflexivity |]; repeat split] |]).
    apply Forall_nil_2.
  - repeat (apply Forall_cons_2; [intros Ht; discriminate Ht |]). apply Forall_nil_2.
  - apply (terminated_check 1); [repeat (apply Forall_cons_2; [cbn; lia |]); apply Forall_nil_2 | vm_compute; reflexivity].
  - apply contiguous_check_ok. vm_compute. reflexivity.
  - intros i t Hi Ht. repeat (apply elem_of_cons in Hi as [-> | Hi]; [inversion Ht |]). inversion Hi.
  - exists c'. split; [exact E |]. specialize (Hrun 1%nat (fun _ => 0, [])).
    set (o2 := run (loc_exec small_exec) (loc_taken small_taken) 1 (_ir_insns c') 0 (fun _ => 0, [])) in *.
    assert (Ho : option_map (fun e => snd (snd e)) o2 = Some [16; 9]).
    { clearbody o2. destruct o2 as [[[t ops] s] |]; [| contradiction Hrun]. destruct Hrun as (_ & _ & [Hs _]). cbn.
      rewrite <- Hs. reflexivity. }
    vm_compute in E. injection E as <-. split; [reflexivity | exact Ho].
Defined.

(** The small machine with a register file in which the register at offset
    [a] holds [a + 1000]. *)
Definition file_exec (t : IRInstructionType) (ops : list IROperand) (s : vstate (list Z)) : vstate (list Z) :=
  match t, ops with
  | READ_REG, [a; d] => (set_vreg d (u64 (operand_value (fst s) a + 1000)) (fst s), snd s)
  | _, _ => small_exec t ops s
  end.

(** What the code and its compilation write to registers. *)
Definition written (l : list IRInstruction) : option (list Z) :=
  option_map (fun e => snd (snd e)) (run file_exec small_taken 1 l 0 (fun _ => 0, [])).
Definition written_compiled (r : result CompileResult) : option (list Z) :=
  match r with
  | Ok r => option_map (fun e => snd (snd e)) (run (loc_exec file_exec) (loc_taken small_taken) 1 (_ir_insns (compiled r)) 0 (fun _ => 0, []))
  | Err _ => None
  end.

(** A store whose address and value are the same register, its last use. *)
Definition double_release_example : TranslationContext :=
  mkContext 1 3
    [mkInsn [constant 8 4; vreg 0 8] 0 READ_REG;
     mkInsn [constant 0 4; vreg 0 8; const32 0; vreg 0 8] 0 WRITE_MEM;
     mkInsn [constant 16 4; vreg 1 8] 0 READ_REG; mkInsn [constant 24 4; vreg 2 8] 0 READ_REG;
     mkInsn [vreg 1 8; constant 32 4] 0 WRITE_REG; mkInsn [vreg 2 8; constant 40 4] 0 WRITE_REG;
     mkInsn [] 0 RET] 0.

(** A register mentioned twice in its last
    instruction is released twice by the allocator: for a store of a register to
    the address in the same register, which TranslationContext builds, followed
    by two register reads, BlockCompiler::compile gives both reads one physical
    register and the compiled code writes another register value than the
    translation. *)
Theorem double_release_miscompiles :
  Build.stmem (constant 0 4) (vreg 0 8) (vreg 0 8) = Ok (WRITE_MEM, [constant 0 4; vreg 0 8; const32 0; vreg 0 8]) /\
  written (_ir_insns double_release_example) = Some [40; 1024; 32; 1016] /\
  written_compiled (compile insertion_sort 40 double_release_example) = Some [40; 1024; 32; 1024].
Proof. split; [reflexivity |]. split; vm_compute; reflexivity. Qed.

(** The offset of the second register read is the value of the first. *)
Definition indirect_read_example : TranslationContext :=
  mkContext 1 3
    [mkInsn [constant 8 4; vreg 0 4] 0 READ_REG; mkInsn [vreg 0 4; vreg 1 4] 0 MOV; mkInsn [vreg 0 4; vreg 2 4] 0 READ_REG;
     mkInsn [vreg 1 4; constant 32 4] 0 WRITE_REG; mkInsn [vreg 2 4; constant 40 4] 0 WRITE_REG; mkInsn [] 0 RET] 0.

(** When the offset of the second of two
    register reads is the value of the first, Peephole2Transform redirects the
    first read although the second still needs it: BlockCompiler::compile
    produces code that reads another register than the translation. *)
Theorem peephole2_miscompiles :
  Build.ldreg (vreg 0 4) (vreg 2 4) = Ok (READ_REG, [vreg 0 4; vreg 2 4]) /\
  written (_ir_insns indirect_read_example) = Some [40; 2008; 32; 1008] /\
  written_compiled (compile insertion_sort 40 indirect_read_example) = Some [40; 1000; 32; 1008].
Proof. split; [reflexivity |]. split; vm_compute; reflexivity. Qed.
