(* ===== verification/IRTypes.v ===== *)
(** * GenC types

    The types of GenC values: src/gensim/inc/genC/ir/IRType.h and
    src/gensim/src/genC/ir/IRType.cpp with the enumerations of IREnums.h.  A
    type is plain old data, a structure, or one of the two migration types for
    blocks and functions; it may be a vector.  [BaseType] is a union in the
    code: which member is valid is told by [DataType], and reading the other
    one is undefined. *)

From stdpp Require Import base list numbers strings.
From Stdlib Require Import ZArith Lia.
From S2P Require Import Prelude.
#[local] Open Scope Z_scope.

Inductive IRPlainOldDataType :=
| VOID | INT1 | INT8 | INT16 | INT32 | INT64 | INT128 | FLOAT | DOUBLE | LONG_DOUBLE.

#[export] Instance pod_eq_dec : EqDecision IRPlainOldDataType.
Proof. solve_decision. Defined.

Definition pod_index (p : IRPlainOldDataType) : Z :=
  match p with
  | VOID => 0 | INT1 => 1 | INT8 => 2 | INT16 => 3 | INT32 => 4 | INT64 => 5 | INT128 => 6
  | FLOAT => 7 | DOUBLE => 8 | LONG_DOUBLE => 9
  end.

Inductive IRDataType := PlainOldData | Struct | BlockType | FunctionType.

(** A structure type is known by the address of its declaration. *)
Inductive IRType :=
| mkType (base_type : IRBaseType) (data_type : IRDataType) (vector_width : Z) (signed reference const : bool)
with IRBaseType :=
| PlainOldDataType (p : IRPlainOldDataType)
| StructType (address : Z) (name : string) (members : list (string * IRType)).

Definition BaseType (t : IRType) : IRBaseType := let 'mkType b _ _ _ _ _ := t in b.
Definition DataType (t : IRType) : IRDataType := let 'mkType _ d _ _ _ _ := t in d.
Definition VectorWidth (t : IRType) : Z := let 'mkType _ _ v _ _ _ := t in v.
Definition Signed (t : IRType) : bool := let 'mkType _ _ _ s _ _ := t in s.
Definition Reference (t : IRType) : bool := let 'mkType _ _ _ _ r _ := t in r.
Definition Const (t : IRType) : bool := let 'mkType _ _ _ _ _ c := t in c.

#[export] Instance datatype_eq_dec : EqDecision IRDataType.
Proof. solve_decision. Defined.

Definition new_type : IRType := mkType (PlainOldDataType VOID) PlainOldData 1 false false false.

(** [IRType::_UInt32] and the like. *)
Definition pod (p : IRPlainOldDataType) (s : bool) : IRType := mkType (PlainOldDataType p) PlainOldData 1 s false false.
Module IRTypes.
Definition Int8 := pod INT8 true.
Definition Int16 := pod INT16 true.
Definition Int32 := pod INT32 true.
Definition Int64 := pod INT64 true.
Definition Int128 := pod INT128 true.
Definition UInt1 := pod INT1 false.
Definition UInt8 := pod INT8 false.
Definition UInt16 := pod INT16 false.
Definition UInt32 := pod INT32 false.
Definition UInt64 := pod INT64 false.
Definition UInt128 := pod INT128 false.
Definition Float := pod FLOAT false.
Definition Double := pod DOUBLE false.
Definition LongDouble := pod LONG_DOUBLE false.
Definition Void := mkType (PlainOldDataType VOID) PlainOldData 1 false false true.
Definition Block := mkType (PlainOldDataType VOID) BlockType 1 false false false.
Definition Function := mkType (PlainOldDataType VOID) FunctionType 1 false false false.
End IRTypes.

Definition CreateStruct (address : Z) (name : string) (members : list (string * IRType)) : IRType :=
  mkType (StructType address name members) Struct 1 false false false.
Definition Ref (t : IRType) : IRType :=
  mkType (BaseType t) (DataType t) (VectorWidth t) (Signed t) true (Const t).
Definition VectorOf (t : IRType) (vectorwidth : Z) : IRType :=
  mkType (BaseType t) (DataType t) (u8 vectorwidth) (Signed t) (Reference t) (Const t).
Definition GetElementType (t : IRType) : IRType := VectorOf t 1.

(** The member [PlainOldDataType] of the union. *)
Definition pod_of (t : IRType) : result IRPlainOldDataType :=
  match BaseType t with PlainOldDataType p => Ok p | StructType _ _ _ => Err UndefinedBehaviour end.

(** [DataType == PlainOldData && ...] never reads the union of a structure. *)
Definition IsInteger (t : IRType) : bool :=
  match DataType t, BaseType t with
  | PlainOldData, PlainOldDataType p => (pod_index VOID <? pod_index p) && (pod_index p <? pod_index FLOAT)
  | _, _ => false
  end.
Definition IsFloating (t : IRType) : bool :=
  match DataType t, BaseType t with
  | PlainOldData, PlainOldDataType p => pod_index FLOAT <=? pod_index p
  | _, _ => false
  end.
Definition IsStruct (t : IRType) : bool := bool_decide (DataType t = Struct).

Definition type_eqb (a b : IRType) : result bool :=
  if negb (bool_decide (DataType a = DataType b)) then Ok false
  else if negb (Bool.eqb (Signed a) (Signed b)) then Ok false
  else if negb (VectorWidth a =? VectorWidth b) then Ok false
  else match DataType a with
  | PlainOldData => let* p := pod_of a in let* q := pod_of b in Ok (bool_decide (p = q))
  | Struct =>
      match BaseType a, BaseType b with
      | StructType x _ _, StructType y _ _ => Ok (x =? y)
      | _, _ => Err UndefinedBehaviour
      end
  | BlockType | FunctionType => Err NotImplemented
  end.

(** ** Sizes *)

Definition pod_size (p : IRPlainOldDataType) : Z :=
  match p with
  | VOID => 0 | INT1 => 1 | INT8 => 1 | INT16 => 2 | INT32 => 4 | INT64 => 8 | INT128 => 16
  | FLOAT => 4 | DOUBLE => 8 | LONG_DOUBLE => 10
  end.

(** [SizeInBytes] and [ElementSize] call each other on the members of a
    structure. *)
Fixpoint SizeInBytes (t : IRType) : result Z :=
  let 'mkType base_type data_type vector_width _ _ _ := t in
  check* negb (vector_width =? 0) or AssertFailed in
  let* n := match data_type, base_type with
    | PlainOldData, PlainOldDataType p => Ok (pod_size p)
    | PlainOldData, StructType _ _ _ => Err UndefinedBehaviour
    | _, StructType _ _ members =>
        (fix go (l : list (string * IRType)) (size : Z) : result Z :=
           match l with
           | [] => Ok size
           | (_, ty) :: r => let* n := SizeInBytes ty in go r (u32 (size + n))
           end) members 0
    | _, PlainOldDataType _ => Err UndefinedBehaviour
    end in
  Ok (u32 (vector_width * n)).

(** The loop over the members of a structure. *)
Fixpoint members_size (l : list (string * IRType)) (size : Z) : result Z :=
  match l with
  | [] => Ok size
  | (_, ty) :: r => let* n := SizeInBytes ty in members_size r (u32 (size + n))
  end.

Definition ElementSize (t : IRType) : result Z :=
  match DataType t, BaseType t with
  | PlainOldData, PlainOldDataType p => Ok (pod_size p)
  | PlainOldData, StructType _ _ _ => Err UndefinedBehaviour
  | _, StructType _ _ members => members_size members 0
  | _, PlainOldDataType _ => Err UndefinedBehaviour
  end.

Definition AddMember (members : list (string * IRType)) (name : string) (t : IRType) : list (string * IRType) :=
  members ++ [(name, t)].
Definition HasMember (members : list (string * IRType)) (name : string) : bool :=
  existsb (fun m => String.eqb (fst m) name) members.
Fixpoint offset_from (members : list (string * IRType)) (name : string) (offset : Z) : result Z :=
  match members with
  | [] => Err AssertFailed
  | (n, t) :: r =>
      if String.eqb n name then Ok offset
      else let* sz := SizeInBytes t in offset_from r name (u32 (offset + sz))
  end.
Definition GetOffset (members : list (string * IRType)) (name : string) : result Z := offset_from members name 0.
Definition GetMemberType (members : list (string * IRType)) (name : string) : result IRType :=
  match List.find (fun m => String.eqb (fst m) name) members with
  | Some m => Ok (snd m)
  | None => Err AssertFailed
  end.

(** [1 << n] is an [int]: it is defined for [n < 32], and for [n = 31] its
    value converts to the largest 33 bits of an [uint64_t]. *)
Definition GetMaxValue (t : IRType) : result Z :=
  check* bool_decide (DataType t = PlainOldData) or AssertFailed in
  check* negb (IsFloating t) or AssertFailed in
  let* sz := SizeInBytes t in
  let n := u32 (u32 (8 * sz) - 1) in
  if n <? 32 then Ok (u64 (sext 32 (Z.shiftl 1 n))) else Err UndefinedBehaviour.

(** ** Operators *)

Inductive EBinaryOperator :=
| Add | Subtract | Multiply | Divide | Modulo | ShiftLeft | ShiftRight | RotateLeft | RotateRight
| Bitwise_Or | Bitwise_And | Bitwise_XOR | SignedShiftRight | VConcatenate | END_OF_NORMAL_OPERATORS
| Logical_Or | Logical_And | END_OF_LOGICAL_OPERATORS
| Equality | Inequality | LessThan | GreaterThan | LessThanEqual | GreaterThanEqual | END_OF_COMPARISON_OPERATORS
| START_OF_ASSIGNMENT_OPERATORS | Set_ | AddAndSet | SubAndSet | MulAndSet | DivAndSet | ModAndSet | LSAndSet
| RSAndSet | OrAndSet | AndAndSet | XOrAndSet | END_OF_ASSIGNMENT_OPERATORS.

#[export] Instance binop_eq_dec : EqDecision EBinaryOperator.
Proof. solve_decision. Defined.

(** The order of the enumeration, which the code compares operators by. *)
Definition operators : list EBinaryOperator :=
  [Add; Subtract; Multiply; Divide; Modulo; ShiftLeft; ShiftRight; RotateLeft; RotateRight; Bitwise_Or; Bitwise_And;
   Bitwise_XOR; SignedShiftRight; VConcatenate; END_OF_NORMAL_OPERATORS; Logical_Or; Logical_And;
   END_OF_LOGICAL_OPERATORS; Equality; Inequality; LessThan; GreaterThan; LessThanEqual; GreaterThanEqual;
   END_OF_COMPARISON_OPERATORS; START_OF_ASSIGNMENT_OPERATORS; Set_; AddAndSet; SubAndSet; MulAndSet; DivAndSet;
   ModAndSet; LSAndSet; RSAndSet; OrAndSet; AndAndSet; XOrAndSet; END_OF_ASSIGNMENT_OPERATORS].
Definition operator_index (op : EBinaryOperator) : nat :=
  match list_find (eq op) operators with Some (k, _) => k | None => 0%nat end.
Definition operator_ltb (a b : EBinaryOperator) : bool := Nat.ltb (operator_index a) (operator_index b).

Definition SetOpToNonSetOp (op : EBinaryOperator) : result EBinaryOperator :=
  match op with
  | AddAndSet => Ok Add | SubAndSet => Ok Subtract | MulAndSet => Ok Multiply | DivAndSet => Ok Divide
  | ModAndSet => Ok Modulo | LSAndSet => Ok ShiftLeft | RSAndSet => Ok ShiftRight | OrAndSet => Ok Bitwise_Or
  | AndAndSet => Ok Bitwise_And | XOrAndSet => Ok Bitwise_XOR
  | _ => Err LogicError
  end.
Definition ReverseOperator (op : EBinaryOperator) : result EBinaryOperator :=
  match op with
  | Equality | Inequality => Ok op
  | LessThan => Ok GreaterThanEqual | LessThanEqual => Ok GreaterThan
  | GreaterThan => Ok LessThanEqual | GreaterThanEqual => Ok LessThan
  | _ => Err AssertFailed
  end.
Definition IsComparative (op : EBinaryOperator) : bool :=
  match op with
  | Equality | Inequality | LessThan | LessThanEqual | GreaterThan | GreaterThanEqual => true
  | _ => false
  end.
Definition IsAssignment (op : EBinaryOperator) : bool :=
  operator_ltb START_OF_ASSIGNMENT_OPERATORS op && operator_ltb op END_OF_ASSIGNMENT_OPERATORS.

(** ** Promotion, resolution and parsing *)

Inductive PromoteResult :=
| PROMOTE_OK | PROMOTE_OK_SIGNED | PROMOTE_SIGN_CHANGE | PROMOTE_TRUNCATE | PROMOTE_CONVERT
| PROMOTE_TO_STRUCT | PROMOTE_FROM_STRUCT | PROMOTE_VECTOR.

Definition AutoPromote (t PromoteTo : IRType) : result PromoteResult :=
  if negb (bool_decide (DataType t = DataType PromoteTo)) then
    Ok (if bool_decide (DataType t = PlainOldData) then PROMOTE_TO_STRUCT else PROMOTE_FROM_STRUCT)
  else if negb (VectorWidth t =? VectorWidth PromoteTo) then Ok PROMOTE_VECTOR
  else if negb (Bool.eqb (IsFloating t) (IsFloating PromoteTo)) then Ok PROMOTE_CONVERT
  else if IsFloating t && negb (bool_decide (DataType t = DataType PromoteTo)) then Ok PROMOTE_CONVERT
  else
    let* p := pod_of t in
    let* q := pod_of PromoteTo in
    if pod_index q <? pod_index p then Ok PROMOTE_TRUNCATE
    else if negb (Bool.eqb (Signed t) (Signed PromoteTo)) then Ok PROMOTE_SIGN_CHANGE
    else if Signed t then Ok PROMOTE_OK_SIGNED
    else Ok PROMOTE_OK.

Inductive CastType :=
| Cast_Unknown | Cast_Reinterpret | Cast_Truncate | Cast_SignExtend | Cast_ZeroExtend | Cast_Convert | Cast_VectorSplat.

#[export] Instance casttype_eq_dec : EqDecision CastType.
Proof. solve_decision. Defined.

(** [SSACastStatement::GetCastType]: a cast of unknown kind takes the kind of
    the promotion from the type of its operand. *)
Definition GetCastType (cast_type : CastType) (expr_type target_type : IRType) : result CastType :=
  match cast_type with
  | Cast_Unknown =>
      let* res := AutoPromote expr_type target_type in
      match res with
      | PROMOTE_TRUNCATE => Ok Cast_Truncate
      | PROMOTE_OK => Ok Cast_ZeroExtend
      | PROMOTE_OK_SIGNED => Ok Cast_SignExtend
      | PROMOTE_SIGN_CHANGE => Ok (if Signed expr_type then Cast_ZeroExtend else Cast_SignExtend)
      | PROMOTE_CONVERT => Ok Cast_Convert
      | PROMOTE_VECTOR => Ok Cast_VectorSplat
      | PROMOTE_TO_STRUCT | PROMOTE_FROM_STRUCT => Err NotExpected
      end
  | _ => Ok cast_type
  end.

Definition GetIntType (width_in_bits : Z) : result IRType :=
  if width_in_bits =? 8 then Ok IRTypes.UInt8
  else if width_in_bits =? 16 then Ok IRTypes.UInt16
  else if width_in_bits =? 32 then Ok IRTypes.UInt32
  else if width_in_bits =? 64 then Ok IRTypes.UInt64
  else if width_in_bits =? 128 then Ok IRTypes.UInt128
  else Err LogicError.

Definition Resolve (op : EBinaryOperator) (LHS RHS : IRType) : result IRType :=
  if operator_ltb op END_OF_NORMAL_OPERATORS then
    let c := Const LHS && Const RHS in
    let s := Signed LHS && Signed RHS in
    let v := VectorWidth LHS in
    match IsStruct LHS, IsStruct RHS with
    | true, true => Ok (mkType (BaseType LHS) Struct v s false c)
    | true, false | false, true => Ok IRTypes.Void
    | false, false =>
        let* p := pod_of LHS in
        let* q := pod_of RHS in
        let m := if pod_index q <? pod_index p then p else q in
        let floating := pod_index FLOAT <=? pod_index m in
        Ok (mkType (PlainOldDataType m) PlainOldData v (if floating then false else s) false c)
    end
  else if 1 <? VectorWidth LHS then
    if (VectorWidth LHS =? VectorWidth RHS) || (VectorWidth RHS =? 1) then Ok LHS else Err LogicError
  else Ok IRTypes.UInt8.

(** [uint8_t annotations = text.find('*')]: no position is [npos], 255 as a
    byte. *)
Definition base_name (text : string) : string :=
  let annotations := match String.index 0 "*" text with Some k => u8 (Z.of_nat k) | None => 255 end in
  String.substring 0 (Z.to_nat annotations) text.

Definition type_names : list (string * IRType) :=
  [("uint8", IRTypes.UInt8); ("sint8", IRTypes.Int8); ("uint16", IRTypes.UInt16); ("sint16", IRTypes.Int16);
   ("uint32", IRTypes.UInt32); ("sint32", IRTypes.Int32); ("uint64", IRTypes.UInt64); ("sint64", IRTypes.Int64);
   ("uint128", IRTypes.UInt128); ("sint128", IRTypes.Int128); ("float", IRTypes.Float); ("double", IRTypes.Double);
   ("void", IRTypes.Void)]%string.

Definition ParseType (text : string) : option IRType :=
  option_map snd (List.find (fun m => String.eqb (fst m) (base_name text)) type_names).

(** ** The layout of structures *)

Fixpoint total (l : list Z) : Z := match l with [] => 0 | z :: r => z + total r end.

Lemma total_app l m : total (l ++ m) = total l + total m.
Proof. induction l as [| z l IH]; cbn; [reflexivity | rewrite IH; lia]. Qed.

Lemma SizeInBytes_range t z : SizeInBytes t = Ok z -> 0 <= z.
Proof.
  destruct t as [b d v s r c]. cbn. intros H. bind_inv H. injection H as <-. apply wrap_range. lia.
Qed.

Definition sized_members (members : list (string * IRType)) (sizes : list Z) : Prop :=
  Forall2 (fun m z => SizeInBytes (snd m) = Ok z) members sizes.

Lemma sized_nonneg members sizes : sized_members members sizes -> 0 <= total sizes.
Proof. induction 1 as [| m z members sizes Hz _ IH]; cbn; [lia |]. apply SizeInBytes_range in Hz. lia. Qed.

Lemma SizeInBytes_struct address name members :
  SizeInBytes (CreateStruct address name members) = let* n := members_size members 0 in Ok (u32 n).
Proof.
  assert (H : forall l size, (fix go (l : list (string * IRType)) (size : Z) : result Z :=
      match l with [] => Ok size | (_, ty) :: r => let* n := SizeInBytes ty in go r (u32 (size + n)) end) l size = members_size l size).
  { induction l as [| [n t] l IH]; intros size; [reflexivity |]. cbn. destruct (SizeInBytes t); [apply IH | reflexivity]. }
  unfold CreateStruct. cbn [SizeInBytes negb Z.eqb]. rewrite H. destruct (members_size members 0); cbn [rbind]; [| reflexivity].
  rewrite Z.mul_1_l. reflexivity.
Qed.

Lemma members_size_sized members sizes off :
  sized_members members sizes -> 0 <= off -> off + total sizes < 2 ^ 32 -> members_size members off = Ok (off + total sizes).
Proof.
  intros H. revert off. induction H as [| [n t] z members sizes Hz Hs IH]; intros off Ho Hb; cbn in *; [f_equal; lia |].
  pose proof (SizeInBytes_range t z Hz). pose proof (sized_nonneg _ _ Hs). rewrite Hz. cbn [rbind].
  unfold u32. rewrite wrap_small by (unfold in_range; lia). rewrite IH by lia. f_equal. lia.
Qed.

Lemma offset_from_sized members sizes k name t off :
  sized_members members sizes -> NoDup (map fst members) -> members !! k = Some (name, t) ->
  0 <= off -> off + total sizes < 2 ^ 32 -> offset_from members name off = Ok (off + total (take k sizes)).
Proof.
  intros H. revert k off. induction H as [| [n ty] z members sizes Hz Hs IH]; intros k off Hd Hk Ho Hb; [discriminate |].
  cbn in *. apply NoDup_cons in Hd as [Hn Hd]. pose proof (SizeInBytes_range ty z Hz). pose proof (sized_nonneg _ _ Hs).
  destruct k as [| k]; cbn [offset_from take].
  - injection Hk as -> ->. rewrite String.eqb_refl. cbn. f_equal. lia.
  - change (members !! k = Some (name, t)) in Hk. assert (Hne : String.eqb n name = false).
    { apply String.eqb_neq. intros ->. apply Hn, list_elem_of_lookup. exists k. rewrite list_lookup_fmap, Hk. reflexivity. }
    rewrite Hne, Hz. cbn [rbind]. unfold u32. rewrite wrap_small by (unfold in_range; lia). rewrite (IH k) by (assumption || lia).
    f_equal. cbn. lia.
Qed.

(** The members of a structure with different names and a size below
    2^32 bytes lie one after the other without gaps: the size of the structure
    is the sum of the sizes of its members, and the offset of a member is the
    sum of the sizes of the members before it. *)
Theorem struct_layout address name members sizes :
  sized_members members sizes -> NoDup (map fst members) -> total sizes < 2 ^ 32 ->
  SizeInBytes (CreateStruct address name members) = Ok (total sizes) /\
  (forall k n t, members !! k = Some (n, t) ->
     HasMember members n = true /\ GetOffset members n = Ok (total (take k sizes)) /\
     exists z, SizeInBytes t = Ok z /\ total (take k sizes) + z = total (take (S k) sizes)).
Proof.
  intros H Hd Hb. pose proof (sized_nonneg _ _ H). split.
  - rewrite SizeInBytes_struct, (members_size_sized members sizes) by (assumption || lia). cbn [rbind]. f_equal.
    apply wrap_small. unfold in_range. lia.
  - intros k n t Hk. split; [| split].
    + apply existsb_exists. exists (n, t). split; [apply list_elem_of_In, list_elem_of_lookup_2 with k; exact Hk | apply String.eqb_refl].
    + unfold GetOffset. rewrite (offset_from_sized members sizes k n t) by (assumption || lia). f_equal.
    + destruct (Forall2_lookup_l _ _ _ _ _ H Hk) as (z & Hz & Hs). exists z. split; [exact Hs |].
      rewrite (take_S_r sizes k z Hz), total_app. cbn. lia.
Qed.

Lemma struct_layout_witness :
  SizeInBytes (CreateStruct 0 "insn" [("opcode", IRTypes.UInt8); ("rd", IRTypes.UInt8); ("imm", IRTypes.Int64)]%string) = Ok 10 /\
  GetOffset [("opcode", IRTypes.UInt8); ("rd", IRTypes.UInt8); ("imm", IRTypes.Int64)]%string "imm" = Ok 2.
Proof.
  destruct (struct_layout 0 "insn" [("opcode", IRTypes.UInt8); ("rd", IRTypes.UInt8); ("imm", IRTypes.Int64)]%string [1; 1; 8])
    as [H1 H2]; [repeat constructor | | reflexivity |].
  - apply (bool_decide_unpack _). exact I.
  - split; [exact H1 |]. exact (proj1 (proj2 (H2 2%nat _ _ eq_refl))).
Defined.
