(* ===== verification/RegisterFile.v ===== *)
(** * Register files of architecture descriptions

    src/gensim/inc/arch/RegisterFile.h, src/gensim/src/arch/RegisterFile.cpp
    and the loading of register spaces by ArchDescriptionParser.cpp: a register
    file is a list of spaces, laid out one after the other, and every bank or
    slot of registers is a view of a part of its space.  A space is known by its
    address; descriptors of views do not change once made. *)

From stdpp Require Import base list numbers strings gmap.
From Stdlib Require Import ZArith Lia.
From S2P Require Import Prelude IRTypes.
#[local] Open Scope Z_scope.

Record RegSlotViewDescriptor := mkSlot {
  slot_space : Z;
  slot_ID : string;
  slot_TypeName : string;
  slot_Size : Z;
  slot_Offset : Z;
  slot_tag : option string
}.

Record RegBankViewDescriptor := mkBank {
  bank_space : Z;
  bank_ID : string;
  ElementTypeName : string;
  RegisterSpaceOffset : Z;
  RegisterCount : Z;
  RegisterStride : Z;
  ElementCount : Z;
  bank_ElementSize : Z;
  ElementStride : Z
}.

Record RegSpaceDescriptor := mkSpace {
  space_address : Z;
  size_in_bytes : Z;
  banks : list RegBankViewDescriptor;
  slots : list RegSlotViewDescriptor
}.

Record RegisterFile := mkFile {
  spaces : list RegSpaceDescriptor;
  bank_views : list RegBankViewDescriptor;
  slot_views : list RegSlotViewDescriptor;
  tagged_slots : gmap string RegSlotViewDescriptor
}.

(** ** Views *)

Definition GetBankSize (b : RegBankViewDescriptor) : Z := u32 (RegisterCount b * RegisterStride b).
Definition GetRegisterWidth (b : RegBankViewDescriptor) : Z := u32 (ElementCount b * ElementStride b).

Definition GetElementIRType (b : RegBankViewDescriptor) : result IRType :=
  of_option LogicError (ParseType (ElementTypeName b)).
Definition GetRegisterIRType (b : RegBankViewDescriptor) : result IRType :=
  let* t := GetElementIRType b in
  Ok (if 1 <? ElementCount b then VectorOf t (ElementCount b) else t).

(** A slot whose type name is not known keeps the type of the constructor
    [IRType()]. *)
Definition default_IRType : IRType := mkType (PlainOldDataType VOID) PlainOldData 1 false false false.
Definition slot_IRType (s : RegSlotViewDescriptor) : IRType := default default_IRType (ParseType (slot_TypeName s)).

(** ** Spaces *)

Definition space_HasRegBank (sp : RegSpaceDescriptor) (id : string) : bool := existsb (fun b => String.eqb (bank_ID b) id) (banks sp).
Definition space_HasRegSlot (sp : RegSpaceDescriptor) (id : string) : bool := existsb (fun s => String.eqb (slot_ID s) id) (slots sp).
Definition space_HasView (sp : RegSpaceDescriptor) (id : string) : bool := space_HasRegBank sp id || space_HasRegSlot sp id.

Definition AddRegBankView (sp : RegSpaceDescriptor) (b : RegBankViewDescriptor) : RegSpaceDescriptor * bool :=
  if space_HasView sp (bank_ID b) then (sp, false)
  else (mkSpace (space_address sp) (size_in_bytes sp) (banks sp ++ [b]) (slots sp), true).
Definition AddRegSlotView (sp : RegSpaceDescriptor) (s : RegSlotViewDescriptor) : RegSpaceDescriptor * bool :=
  if space_HasView sp (slot_ID s) then (sp, false)
  else (mkSpace (space_address sp) (size_in_bytes sp) (banks sp) (slots sp ++ [s]), true).

Fixpoint max_stride (l : list Z) (m : Z) : Z := match l with [] => m | x :: r => max_stride r (if x >? m then x else m) end.
Definition GetAlignmentRequirements (sp : RegSpaceDescriptor) : Z :=
  max_stride (map slot_Size (slots sp)) (max_stride (map RegisterStride (banks sp)) 0).

(** ** The file *)

(** The remainder by zero is undefined. *)
Definition ALIGN_UP (value alignment : Z) : result Z :=
  if alignment =? 0 then Err UndefinedBehaviour
  else if value mod alignment =? 0 then Ok value
  else Ok (u32 (value + (alignment - value mod alignment))).

Fixpoint offset_loop (l : list RegSpaceDescriptor) (test_space total_offset : Z) : result Z :=
  match l with
  | [] => Err AssertFailed
  | space :: r =>
      let* total := ALIGN_UP total_offset (GetAlignmentRequirements space) in
      if test_space =? space_address space then Ok total
      else offset_loop r test_space (u32 (total + size_in_bytes space))
  end.
Definition GetOffsetOf (rf : RegisterFile) (test_space : Z) : result Z := offset_loop (spaces rf) test_space 0.

Definition bank_RegFileOffset (rf : RegisterFile) (b : RegBankViewDescriptor) : result Z :=
  let* o := GetOffsetOf rf (bank_space b) in Ok (u32 (RegisterSpaceOffset b + o)).
Definition slot_RegFileOffset (rf : RegisterFile) (s : RegSlotViewDescriptor) : result Z :=
  let* o := GetOffsetOf rf (slot_space s) in Ok (u32 (o + slot_Offset s)).

Definition GetSize (rf : RegisterFile) : result Z :=
  match last (spaces rf) with
  | Some sp => let* o := GetOffsetOf rf (space_address sp) in Ok (u32 (size_in_bytes sp + o))
  | None => Err UndefinedBehaviour
  end.

Definition HasSpace (rf : RegisterFile) (sp : Z) : bool := existsb (fun x => space_address x =? sp) (spaces rf).
Definition AddRegisterSpace (rf : RegisterFile) (sp : RegSpaceDescriptor) : RegisterFile * bool :=
  if HasSpace rf (space_address sp) then (rf, false)
  else (mkFile (spaces rf ++ [sp]) (bank_views rf) (slot_views rf) (tagged_slots rf), true).

(** [idx > spaces.size()] lets the index one past the end through. *)
Definition GetSpaceByIndex (rf : RegisterFile) (idx : Z) : result (option RegSpaceDescriptor) :=
  if idx >? Z.of_nat (length (spaces rf)) then Ok None else let* sp := vec_get (spaces rf) idx in Ok (Some sp).

(** Adding a view changes the space at its address; the answers of
    [AddRegBankView] and [AddRegSlotView] are dropped. *)
Definition update_space (l : list RegSpaceDescriptor) (sp : Z) (f : RegSpaceDescriptor -> RegSpaceDescriptor) : list RegSpaceDescriptor :=
  map (fun x => if space_address x =? sp then f x else x) l.
Definition AddRegisterBank (rf : RegisterFile) (sp : Z) (b : RegBankViewDescriptor) : RegisterFile :=
  mkFile (update_space (spaces rf) sp (fun x => fst (AddRegBankView x b))) (bank_views rf ++ [b]) (slot_views rf) (tagged_slots rf).
Definition AddRegisterSlot (rf : RegisterFile) (sp : Z) (s : RegSlotViewDescriptor) : RegisterFile :=
  mkFile (update_space (spaces rf) sp (fun x => fst (AddRegSlotView x s))) (bank_views rf) (slot_views rf ++ [s])
    (match slot_tag s with Some t => <[t := s]> (tagged_slots rf) | None => tagged_slots rf end).

Definition file_HasRegBank (rf : RegisterFile) (id : string) : bool := existsb (fun sp => space_HasRegBank sp id) (spaces rf).
Definition file_HasRegSlot (rf : RegisterFile) (id : string) : bool := existsb (fun sp => space_HasRegSlot sp id) (spaces rf).
Definition file_HasView (rf : RegisterFile) (id : string) : bool := file_HasRegBank rf id || file_HasRegSlot rf id.
Definition HasTaggedRegSlot (rf : RegisterFile) (tag : string) : bool := bool_decide (is_Some (tagged_slots rf !! tag)).
Definition GetTaggedRegSlot (rf : RegisterFile) (tag : string) : result RegSlotViewDescriptor :=
  of_option OutOfRange (tagged_slots rf !! tag).
Definition GetBankByIdx (rf : RegisterFile) (idx : Z) : result RegBankViewDescriptor := at_ (bank_views rf) idx.
Definition GetSlotByIdx (rf : RegisterFile) (idx : Z) : result RegSlotViewDescriptor := at_ (slot_views rf) idx.

(** ** Resolution: [true] when there was no error *)

Definition known_type (name : string) : bool := match ParseType name with Some _ => true | None => false end.

Definition slot_Resolve (sp : RegSpaceDescriptor) (s : RegSlotViewDescriptor) : bool :=
  negb (u32 (slot_Offset s + slot_Size s) >? size_in_bytes sp) && known_type (slot_TypeName s).

Definition bank_Resolve (sp : RegSpaceDescriptor) (b : RegBankViewDescriptor) : bool :=
  negb (RegisterCount b =? 0) &&
  negb (u32 (RegisterSpaceOffset b + GetBankSize b) >? size_in_bytes sp) &&
  negb (ElementStride b <? bank_ElementSize b) &&
  negb (u32 (ElementCount b * ElementStride b) >? RegisterStride b) &&
  known_type (ElementTypeName b).

Definition space_Resolve (sp : RegSpaceDescriptor) : bool :=
  forallb (bank_Resolve sp) (banks sp) && forallb (slot_Resolve sp) (slots sp).

Fixpoint bank_names (l : list RegBankViewDescriptor) (names : gset string) (success : bool) : gset string * bool :=
  match l with
  | [] => (names, success)
  | b :: r => bank_names r ({[bank_ID b]} ∪ names) (success && negb (bool_decide (bank_ID b ∈ names)))
  end.
Fixpoint slot_names (l : list RegSlotViewDescriptor) (names tags : gset string) (success : bool) : bool :=
  match l with
  | [] => success
  | s :: r =>
      let tagged := match slot_tag s with Some t => bool_decide (t ∈ tags) | None => false end in
      slot_names r ({[slot_ID s]} ∪ names) (match slot_tag s with Some t => {[t]} ∪ tags | None => tags end)
        (success && negb (bool_decide (slot_ID s ∈ names)) && negb tagged)
  end.

Definition file_Resolve (rf : RegisterFile) : bool :=
  let '(names, success) := bank_names (bank_views rf) ∅ (forallb space_Resolve (spaces rf)) in
  slot_names (slot_views rf) names ∅ success.

(** ** Loading

    What the parser reads of a view, and the register spaces of a description
    in turn; the space under construction gets the next free address. *)
Inductive ViewDecl :=
| DBank (id type : string) (offset rcount rstride ecount esize estride : Z)
| DSlot (id type : string) (width offset : Z) (tag : option string).

Definition load_view (rf : RegisterFile) (sp : Z) (v : ViewDecl) : RegisterFile :=
  match v with
  | DBank id type offset rcount rstride ecount esize estride =>
      AddRegisterBank rf sp (mkBank sp id type (u32 offset) (u32 rcount) (u32 rstride) (u32 ecount) (u32 esize) (u32 estride))
  | DSlot id type width offset tag => AddRegisterSlot rf sp (mkSlot sp id type (u32 width) (u32 offset) tag)
  end.

Definition load_regspace (rf : RegisterFile) (d : Z * list ViewDecl) : result RegisterFile :=
  let '(size, views) := d in
  check* 0 <? u32 size or AssertFailed in
  let sp := Z.of_nat (length (spaces rf)) in
  Ok (fold_left (fun rf v => load_view rf sp v) views (fst (AddRegisterSpace rf (mkSpace sp (u32 size) [] [])))).

Fixpoint load_regspaces (rf : RegisterFile) (l : list (Z * list ViewDecl)) : result RegisterFile :=
  match l with
  | [] => Ok rf
  | d :: r => let* rf1 := load_regspace rf d in load_regspaces rf1 r
  end.

Definition empty_file : RegisterFile := mkFile [] [] [] ∅.

(** ** What loading builds *)

Definition all_names (rf : RegisterFile) : list string := map bank_ID (bank_views rf) ++ map slot_ID (slot_views rf).
Definition bank_in_range (b : RegBankViewDescriptor) : Prop :=
  in_range 32 (RegisterSpaceOffset b) /\ in_range 32 (RegisterCount b) /\ in_range 32 (RegisterStride b) /\
  in_range 32 (ElementCount b) /\ in_range 32 (bank_ElementSize b) /\ in_range 32 (ElementStride b).
Definition slot_in_range (s : RegSlotViewDescriptor) : Prop := in_range 32 (slot_Size s) /\ in_range 32 (slot_Offset s).

(** Every view is in the list of its space, unless two views share a name. *)
Record built (rf : RegisterFile) : Prop := {
  bu_addresses : map space_address (spaces rf) = map Z.of_nat (seq 0 (length (spaces rf)));
  bu_sizes : forall sp, sp ∈ spaces rf -> 0 < size_in_bytes sp < 2 ^ 32;
  bu_banks : forall b, b ∈ bank_views rf -> bank_in_range b /\
    exists sp, sp ∈ spaces rf /\ space_address sp = bank_space b /\ (b ∈ banks sp \/ ~ NoDup (all_names rf));
  bu_slots : forall s, s ∈ slot_views rf -> slot_in_range s /\
    exists sp, sp ∈ spaces rf /\ space_address sp = slot_space s /\ (s ∈ slots sp \/ ~ NoDup (all_names rf));
  bu_names : forall sp id, sp ∈ spaces rf -> space_HasView sp id = true -> id ∈ all_names rf
}.

Lemma has_view_spec sp id : space_HasView sp id = true <->
  (exists b, b ∈ banks sp /\ bank_ID b = id) \/ (exists s, s ∈ slots sp /\ slot_ID s = id).
Proof.
  unfold space_HasView, space_HasRegBank, space_HasRegSlot. rewrite orb_true_iff, !existsb_exists.
  setoid_rewrite String.eqb_eq. setoid_rewrite list_elem_of_In. reflexivity.
Qed.

(** The space at an address after a view has been added to it. *)
Lemma update_space_elem l a f sp : sp ∈ l -> (if space_address sp =? a then f sp else sp) ∈ update_space l a f.
Proof. intros H. apply list_elem_of_fmap. exists sp. auto. Qed.

Lemma update_space_addresses l a f : (forall sp, space_address (f sp) = space_address sp) ->
  map space_address (update_space l a f) = map space_address l.
Proof.
  intros Hf. unfold update_space. rewrite map_map. apply map_ext. intros sp. destruct (_ =? _); [apply Hf | reflexivity].
Qed.

(** Adding views and spaces. *)
Section Adding.
Context (rf : RegisterFile) (Hb : built rf).

Lemma add_bank_shape sp b : let sp' := fst (AddRegBankView sp b) in
  space_address sp' = space_address sp /\ size_in_bytes sp' = size_in_bytes sp /\ slots sp' = slots sp /\
  (forall c, c ∈ banks sp -> c ∈ banks sp') /\ (b ∈ banks sp' \/ space_HasView sp (bank_ID b) = true) /\
  (forall c, c ∈ banks sp' -> c ∈ banks sp \/ c = b).
Proof.
  unfold AddRegBankView. destruct (space_HasView sp (bank_ID b)); cbn; [repeat split; auto |]. repeat split; auto.
  - intros c Hc. apply elem_of_app. auto.
  - left. apply elem_of_app. right. left.
  - intros c Hc. apply elem_of_app in Hc as [| Hc]; [auto |]. apply list_elem_of_singleton in Hc. auto.
Qed.

Lemma add_slot_shape sp s : let sp' := fst (AddRegSlotView sp s) in
  space_address sp' = space_address sp /\ size_in_bytes sp' = size_in_bytes sp /\ banks sp' = banks sp /\
  (forall c, c ∈ slots sp -> c ∈ slots sp') /\ (s ∈ slots sp' \/ space_HasView sp (slot_ID s) = true) /\
  (forall c, c ∈ slots sp' -> c ∈ slots sp \/ c = s).
Proof.
  unfold AddRegSlotView. destruct (space_HasView sp (slot_ID s)); cbn; [repeat split; auto |]. repeat split; auto.
  - intros c Hc. apply elem_of_app. auto.
  - left. apply elem_of_app. right. left.
  - intros c Hc. apply elem_of_app in Hc as [| Hc]; [auto |]. apply list_elem_of_singleton in Hc. auto.
Qed.

(** A state with the spaces changed by [f] at one address and one view more. *)
Lemma built_step f a (rf' : RegisterFile) name :
  spaces rf' = update_space (spaces rf) a f -> all_names rf' ≡ₚ name :: all_names rf ->
  (forall sp, space_address (f sp) = space_address sp /\ size_in_bytes (f sp) = size_in_bytes sp) ->
  (forall sp b, b ∈ banks sp -> b ∈ banks (f sp)) -> (forall sp s, s ∈ slots sp -> s ∈ slots (f sp)) ->
  (forall sp id, sp ∈ spaces rf -> space_HasView (f sp) id = true -> space_HasView sp id = true \/ id = name) ->
  (forall b, b ∈ bank_views rf' -> b ∈ bank_views rf \/ (bank_in_range b /\ bank_space b = a /\ HasSpace rf a = true /\ bank_ID b = name /\
     forall sp, b ∈ banks (f sp) \/ space_HasView sp name = true)) ->
  (forall s, s ∈ slot_views rf' -> s ∈ slot_views rf \/ (slot_in_range s /\ slot_space s = a /\ HasSpace rf a = true /\ slot_ID s = name /\
     forall sp, s ∈ slots (f sp) \/ space_HasView sp name = true)) ->
  built rf'.
Proof.
  intros Es En Hf Fb Fs Fv Vb Vs.
  assert (Hdup : ~ NoDup (all_names rf) -> ~ NoDup (all_names rf'))
    by (rewrite En; intros H1 H2; apply NoDup_cons in H2 as [_ H2]; contradiction).
  assert (Hnew : forall sp, sp ∈ spaces rf -> space_HasView sp name = true -> ~ NoDup (all_names rf')).
  { intros sp Hsp Hv H. rewrite En in H. apply NoDup_cons in H as [H _]. apply H, (bu_names rf Hb sp); assumption. }
  assert (Hkeep : forall sp, sp ∈ spaces rf -> exists sp', sp' ∈ spaces rf' /\ space_address sp' = space_address sp /\
    (forall b, b ∈ banks sp -> b ∈ banks sp') /\ (forall s, s ∈ slots sp -> s ∈ slots sp') /\ (space_address sp = a -> sp' = f sp)).
  { intros sp Hsp. eexists. split; [rewrite Es; apply update_space_elem, Hsp |].
    destruct (Z.eqb_spec (space_address sp) a); [split; [apply Hf | auto] | split; [reflexivity |]; repeat split; auto; contradiction]. }
  assert (Hhas : HasSpace rf a = true -> exists sp, sp ∈ spaces rf /\ space_address sp = a)
    by (intros H; apply existsb_exists in H as (sp & H1 & H2); apply Z.eqb_eq in H2; apply list_elem_of_In in H1; eauto).
  split.
  - rewrite Es, update_space_addresses by apply Hf. unfold update_space. rewrite length_map. apply (bu_addresses rf Hb).
  - intros sp Hsp. rewrite Es in Hsp. apply list_elem_of_fmap in Hsp as (x & -> & Hx). pose proof (bu_sizes rf Hb x Hx).
    destruct (_ =? _); [destruct (Hf x) as [_ ->] |]; assumption.
  - intros b Hbv. destruct (Vb b Hbv) as [Hold | (Hr & Ha & Hh & Hid & Hin)].
    + destruct (bu_banks rf Hb b Hold) as (Hr & sp & H1 & H2 & H3). split; [exact Hr |]. destruct (Hkeep sp H1) as (sp' & K1 & K2 & K3 & _).
      exists sp'. split; [exact K1 |]. split; [congruence |]. destruct H3; auto.
    + split; [exact Hr |]. destruct (Hhas Hh) as (sp & H1 & H2). destruct (Hkeep sp H1) as (sp' & K1 & K2 & _ & _ & K5).
      exists sp'. split; [exact K1 |]. split; [congruence |]. rewrite (K5 H2). destruct (Hin sp) as [| Hv]; [auto |]. right. eauto.
  - intros s Hsv. destruct (Vs s Hsv) as [Hold | (Hr & Ha & Hh & Hid & Hin)].
    + destruct (bu_slots rf Hb s Hold) as (Hr & sp & H1 & H2 & H3). split; [exact Hr |]. destruct (Hkeep sp H1) as (sp' & K1 & K2 & _ & K4 & _).
      exists sp'. split; [exact K1 |]. split; [congruence |]. destruct H3; auto.
    + split; [exact Hr |]. destruct (Hhas Hh) as (sp & H1 & H2). destruct (Hkeep sp H1) as (sp' & K1 & K2 & _ & _ & K5).
      exists sp'. split; [exact K1 |]. split; [congruence |]. rewrite (K5 H2). destruct (Hin sp) as [| Hv]; [auto |]. right. eauto.
  - intros sp id Hsp Hv. rewrite En. apply elem_of_cons. rewrite Es in Hsp. apply list_elem_of_fmap in Hsp as (x & -> & Hx).
    destruct (_ =? _); [destruct (Fv x id Hx Hv) as [Hv' | ->]; [| auto] | rename Hv into Hv']; right; apply (bu_names rf Hb x); assumption.
Qed.

Lemma AddRegisterBank_built b : bank_in_range b -> HasSpace rf (bank_space b) = true -> built (AddRegisterBank rf (bank_space b) b).
Proof.
  intros Hr Hh. apply (built_step (fun x => fst (AddRegBankView x b)) (bank_space b) _ (bank_ID b)).
  - reflexivity.
  - unfold all_names. cbn. rewrite map_app, <- app_assoc. cbn. symmetry. apply Permutation_middle.
  - intros sp. destruct (add_bank_shape sp b) as (? & ? & _). auto.
  - intros sp. apply add_bank_shape.
  - intros sp s Hs. destruct (add_bank_shape sp b) as (_ & _ & -> & _). exact Hs.
  - intros sp id _ Hv. apply has_view_spec in Hv. destruct (add_bank_shape sp b) as (_ & _ & Es & _ & _ & Hc). rewrite Es in Hv. rewrite has_view_spec.
    destruct Hv as [(c & H1 & H2) | H]; [| auto]. destruct (Hc c H1) as [| ->]; [left; left; eauto | auto].
  - intros c Hc. cbn in Hc. apply elem_of_app in Hc as [| Hc]; [auto |]. apply list_elem_of_singleton in Hc as ->. right.
    repeat split; try assumption; try apply Hr. intros sp. apply add_bank_shape.
  - auto.
Qed.

Lemma AddRegisterSlot_built s : slot_in_range s -> HasSpace rf (slot_space s) = true -> built (AddRegisterSlot rf (slot_space s) s).
Proof.
  intros Hr Hh. apply (built_step (fun x => fst (AddRegSlotView x s)) (slot_space s) _ (slot_ID s)).
  - reflexivity.
  - unfold all_names. cbn. rewrite map_app, app_assoc. cbn. rewrite Permutation_app_comm. reflexivity.
  - intros sp. destruct (add_slot_shape sp s) as (? & ? & _). auto.
  - intros sp c Hc. destruct (add_slot_shape sp s) as (_ & _ & -> & _). exact Hc.
  - intros sp. apply add_slot_shape.
  - intros sp id _ Hv. apply has_view_spec in Hv. destruct (add_slot_shape sp s) as (_ & _ & Es & _ & _ & Hc). rewrite Es in Hv. rewrite has_view_spec.
    destruct Hv as [H | (c & H1 & H2)]; [auto |]. destruct (Hc c H1) as [| ->]; [left; right; eauto | auto].
  - auto.
  - intros c Hc. cbn in Hc. apply elem_of_app in Hc as [| Hc]; [auto |]. apply list_elem_of_singleton in Hc as ->. right.
    repeat split; try assumption; try apply Hr. intros sp. apply add_slot_shape.
Qed.
End Adding.

Lemma HasSpace_update rf a sp f : (forall x, space_address (f x) = space_address x) ->
  existsb (fun x => space_address x =? a) (update_space (spaces rf) sp f) = HasSpace rf a.
Proof.
  intros Hf. unfold update_space, HasSpace. induction (spaces rf) as [| x l IH]; [reflexivity |]. cbn. rewrite IH.
  destruct (space_address x =? sp); rewrite ?Hf; reflexivity.
Qed.

Lemma load_view_built rf sp v : built rf -> HasSpace rf sp = true -> built (load_view rf sp v) /\ HasSpace (load_view rf sp v) sp = true.
Proof.
  intros Hb Hh. destruct v as [id ty o rc rs ec es est | id ty w o tag]; cbn [load_view]; split.
  - apply (AddRegisterBank_built rf Hb (mkBank sp id ty (u32 o) (u32 rc) (u32 rs) (u32 ec) (u32 es) (u32 est))); [| exact Hh].
    repeat split; cbn; apply wrap_range; lia.
  - unfold HasSpace, AddRegisterBank. cbn [spaces]. rewrite HasSpace_update; [exact Hh |]. intros x. apply add_bank_shape.
  - apply (AddRegisterSlot_built rf Hb (mkSlot sp id ty (u32 w) (u32 o) tag)); [| exact Hh]. repeat split; cbn; apply wrap_range; lia.
  - unfold HasSpace, AddRegisterSlot. cbn [spaces]. rewrite HasSpace_update; [exact Hh |]. intros x. apply add_slot_shape.
Qed.

Lemma HasSpace_addresses rf a : built rf -> HasSpace rf a = true <-> 0 <= a < Z.of_nat (length (spaces rf)).
Proof.
  intros Hb. unfold HasSpace. rewrite existsb_exists. setoid_rewrite Z.eqb_eq. transitivity (a ∈ map space_address (spaces rf)).
  - rewrite list_elem_of_In, in_map_iff. split; intros (x & H1 & H2); exists x; auto.
  - rewrite (bu_addresses rf Hb), list_elem_of_In, in_map_iff. setoid_rewrite in_seq. split; [intros (k & <- & H); lia |].
    intros H. exists (Z.to_nat a). lia.
Qed.

Lemma load_regspace_built rf d rf' : built rf -> load_regspace rf d = Ok rf' -> built rf'.
Proof.
  destruct d as [size views]. unfold load_regspace. intros Hb H. bind_inv H. injection H as <-. apply Z.ltb_lt in G.
  set (sp := Z.of_nat (length (spaces rf))). unfold AddRegisterSpace. cbn [space_address].
  destruct (HasSpace rf sp) eqn:E; [apply (HasSpace_addresses rf sp Hb) in E; lia |]. cbn [fst].
  assert (Hb1 : built (mkFile (spaces rf ++ [mkSpace sp (u32 size) [] []]) (bank_views rf) (slot_views rf) (tagged_slots rf))).
  { split; cbn [spaces bank_views slot_views].
    - rewrite map_app, length_app, seq_app, map_app, (bu_addresses rf Hb). reflexivity.
    - intros x Hx. apply elem_of_app in Hx as [Hx | Hx]; [apply (bu_sizes rf Hb x Hx) |]. apply list_elem_of_singleton in Hx as ->.
      cbn. split; [exact G |]. apply (wrap_range 32); lia.
    - intros b Hx. destruct (bu_banks rf Hb b Hx) as (Hr & x & H1 & H2). split; [exact Hr |]. exists x. split; [apply elem_of_app; auto | exact H2].
    - intros s Hx. destruct (bu_slots rf Hb s Hx) as (Hr & x & H1 & H2). split; [exact Hr |]. exists x. split; [apply elem_of_app; auto | exact H2].
    - intros x id Hx Hv. apply elem_of_app in Hx as [Hx | Hx]; [apply (bu_names rf Hb x id Hx Hv) |].
      apply list_elem_of_singleton in Hx as ->. discriminate. }
  assert (Hh1 : HasSpace (mkFile (spaces rf ++ [mkSpace sp (u32 size) [] []]) (bank_views rf) (slot_views rf) (tagged_slots rf)) sp = true).
  { apply (HasSpace_addresses _ sp Hb1). cbn. rewrite length_app. cbn. lia. }
  revert Hb1 Hh1. generalize (mkFile (spaces rf ++ [mkSpace sp (u32 size) [] []]) (bank_views rf) (slot_views rf) (tagged_slots rf)).
  generalize sp. clear. intros sp r. revert r. induction views as [| v views IH]; intros r Hb Hh; [exact Hb |]. cbn.
  destruct (load_view_built r sp v Hb Hh). apply IH; assumption.
Qed.

Lemma load_regspaces_built rf l rf' : built rf -> load_regspaces rf l = Ok rf' -> built rf'.
Proof.
  revert rf. induction l as [| d l IH]; intros rf Hb H; cbn in H; [congruence |]. bind_inv H.
  apply (IH v); [apply (load_regspace_built rf d); assumption | exact H].
Qed.

Lemma empty_built : built empty_file.
Proof. split; [reflexivity | | | |]; intros; cbn in *; match goal with H : _ ∈ [] |- _ => inversion H end. Qed.

(** A resolved file has no name twice. *)
Lemma bank_names_true l names ok names' : bank_names l names ok = (names', true) ->
  ok = true /\ NoDup (map bank_ID l) /\ (forall n, n ∈ map bank_ID l -> n ∉ names) /\ forall n, n ∈ names' <-> n ∈ names \/ n ∈ map bank_ID l.
Proof.
  revert names ok. induction l as [| b l IH]; intros names ok H; cbn in H |- *.
  { injection H as <- ->. split; [reflexivity |]. split; [constructor |]. split; [intros n Hn; inversion Hn |]. intros n. split; [auto |].
    intros [| Hn]; [assumption | inversion Hn]. }
  apply IH in H as (H1 & H2 & H3 & H4). apply andb_true_iff in H1 as [-> H1]. apply negb_true_iff, bool_decide_eq_false in H1.
  split; [reflexivity |]. split; [apply NoDup_cons; split; [intros Hb; apply (H3 _ Hb); set_solver | exact H2] |].
  split; [intros n Hn; apply elem_of_cons in Hn as [-> | Hn]; [exact H1 | specialize (H3 n Hn); set_solver] |].
  intros n. rewrite H4, elem_of_union, elem_of_singleton, elem_of_cons. tauto.
Qed.

Lemma slot_names_true l names tags ok : slot_names l names tags ok = true ->
  ok = true /\ NoDup (map slot_ID l) /\ forall n, n ∈ map slot_ID l -> n ∉ names.
Proof.
  revert names tags ok. induction l as [| s l IH]; intros names tags ok H; cbn in H |- *.
  { split; [exact H |]. split; [constructor | intros n Hn; inversion Hn]. }
  apply IH in H as (H1 & H2 & H3). apply andb_true_iff in H1 as [H1 _]. apply andb_true_iff in H1 as [-> H1].
  apply negb_true_iff, bool_decide_eq_false in H1.
  split; [reflexivity |]. split; [apply NoDup_cons; split; [intros Hb; apply (H3 _ Hb); set_solver | exact H2] |].
  intros n Hn. apply elem_of_cons in Hn as [-> | Hn]; [exact H1 | specialize (H3 n Hn); set_solver].
Qed.

Lemma file_Resolve_true rf : file_Resolve rf = true -> NoDup (all_names rf) /\ forall sp, sp ∈ spaces rf -> space_Resolve sp = true.
Proof.
  unfold file_Resolve. destruct (bank_names _ _ _) as [names ok] eqn:E. intros H. apply slot_names_true in H as (-> & Hs & Hn).
  apply bank_names_true in E as (Hsp & Hb & _ & Hin). split.
  - apply NoDup_app. split; [exact Hb |]. split; [| exact Hs]. intros n H1 H2. apply (Hn n H2). apply Hin. auto.
  - intros sp H. rewrite forallb_forall in Hsp. apply Hsp. apply list_elem_of_In. exact H.
Qed.

(** ** The layout *)

(** The layout in unbounded integers. *)
Definition align (z a : Z) : Z := if z mod a =? 0 then z else z + (a - z mod a).
Fixpoint extent (l : list RegSpaceDescriptor) (total : Z) : Z :=
  match l with [] => total | sp :: r => extent r (align total (GetAlignmentRequirements sp) + size_in_bytes sp) end.

(** Every space has a view of some width, and the file fits 32 bits. *)
Record laid_out (l : list RegSpaceDescriptor) (total : Z) : Prop := {
  lo_aligned : forall sp, sp ∈ l -> 0 < GetAlignmentRequirements sp;
  lo_sizes : forall sp, sp ∈ l -> 0 <= size_in_bytes sp;
  lo_start : 0 <= total;
  lo_extent : extent l total < 2 ^ 32
}.

Lemma align_bounds z a : 0 < a -> z <= align z a < z + a /\ align z a mod a = 0.
Proof.
  intros Ha. unfold align. pose proof (Z.mod_pos_bound z a Ha). destruct (Z.eqb_spec (z mod a) 0) as [E | E]; [lia |]. split; [lia |].
  replace (z + (a - z mod a)) with ((z / a + 1) * a) by (rewrite (Z.div_mod z a) at 2 by lia; ring). apply Z.mod_mul. lia.
Qed.

Lemma extent_app l m total : extent (l ++ m) total = extent m (extent l total).
Proof. revert total. induction l as [| sp l IH]; intros total; [reflexivity | apply IH]. Qed.

Lemma extent_mono l total : (forall sp, sp ∈ l -> 0 < GetAlignmentRequirements sp) -> (forall sp, sp ∈ l -> 0 <= size_in_bytes sp) -> total <= extent l total.
Proof.
  revert total. induction l as [| sp l IH]; intros total Ha Hs; cbn; [lia |].
  specialize (IH (align total (GetAlignmentRequirements sp) + size_in_bytes sp)
    ltac:(intros x Hx; apply Ha; right; exact Hx) ltac:(intros x Hx; apply Hs; right; exact Hx)).
  destruct (align_bounds total _ (Ha sp ltac:(left))) as [Hb _]. specialize (Hs sp ltac:(left)). lia.
Qed.

Lemma laid_out_cons sp l total : laid_out (sp :: l) total ->
  ALIGN_UP total (GetAlignmentRequirements sp) = Ok (align total (GetAlignmentRequirements sp)) /\
  u32 (align total (GetAlignmentRequirements sp) + size_in_bytes sp) = align total (GetAlignmentRequirements sp) + size_in_bytes sp /\
  laid_out l (align total (GetAlignmentRequirements sp) + size_in_bytes sp).
Proof.
  intros [Ha Hs Ht He]. specialize (Ha sp ltac:(left)) as Ha1. specialize (Hs sp ltac:(left)) as Hs1.
  destruct (align_bounds total _ Ha1) as [Hb _]. cbn in He.
  assert (Hm : align total (GetAlignmentRequirements sp) + size_in_bytes sp <= extent l (align total (GetAlignmentRequirements sp) + size_in_bytes sp))
    by (apply extent_mono; intros x Hx; [apply Ha | apply Hs]; right; exact Hx).
  split; [| split].
  - unfold ALIGN_UP, align in *. destruct (Z.eqb_spec (GetAlignmentRequirements sp) 0); [lia |].
    destruct (total mod _ =? 0); [reflexivity |]. f_equal. apply (wrap_small 32). unfold in_range. lia.
  - apply (wrap_small 32). unfold in_range. lia.
  - split; [intros x Hx; apply Ha; right; exact Hx | intros x Hx; apply Hs; right; exact Hx | lia | exact He].
Qed.

Lemma offset_loop_spec l1 sp l2 total : laid_out (l1 ++ sp :: l2) total -> (forall x, x ∈ l1 -> space_address x <> space_address sp) ->
  offset_loop (l1 ++ sp :: l2) (space_address sp) total = Ok (align (extent l1 total) (GetAlignmentRequirements sp)).
Proof.
  revert total. induction l1 as [| x l1 IH]; intros total Hl Hn; cbn [offset_loop app].
  - destruct (laid_out_cons sp l2 total Hl) as (-> & _). cbn [rbind]. rewrite Z.eqb_refl. reflexivity.
  - destruct (laid_out_cons x (l1 ++ sp :: l2) total Hl) as (-> & E & Hl1). cbn [rbind].
    destruct (Z.eqb_spec (space_address sp) (space_address x)) as [Ex | _]; [exfalso; apply (Hn x ltac:(left)); auto |].
    rewrite E. apply IH; [exact Hl1 | intros y Hy; apply Hn; right; exact Hy].
Qed.

(** Where a space of a built file lies. *)
Section Layout.
Context (rf : RegisterFile) (Hb : built rf) (Hl : laid_out (spaces rf) 0).

Lemma split_spaces l1 sp l2 : spaces rf = l1 ++ sp :: l2 -> forall x, x ∈ l1 -> space_address x <> space_address sp.
Proof.
  intros E x Hx Ha. pose proof (bu_addresses rf Hb) as H.
  assert (Hd : NoDup (map space_address (spaces rf))).
  { rewrite H. apply (NoDup_fmap_2 Z.of_nat), NoDup_ListNoDup, seq_NoDup. }
  rewrite E, map_app in Hd. apply NoDup_app in Hd as (_ & Hd & _). apply (Hd (space_address x)); [| rewrite Ha; left].
  apply list_elem_of_fmap. eauto.
Qed.

Lemma space_offset l1 sp l2 : spaces rf = l1 ++ sp :: l2 ->
  GetOffsetOf rf (space_address sp) = Ok (align (extent l1 0) (GetAlignmentRequirements sp)) /\
  0 <= align (extent l1 0) (GetAlignmentRequirements sp) /\ extent l1 0 <= align (extent l1 0) (GetAlignmentRequirements sp) /\
  align (extent l1 0) (GetAlignmentRequirements sp) mod GetAlignmentRequirements sp = 0 /\
  align (extent l1 0) (GetAlignmentRequirements sp) + size_in_bytes sp = extent (l1 ++ [sp]) 0 /\
  extent (l1 ++ [sp]) 0 <= extent (spaces rf) 0.
Proof.
  intros E. destruct Hl as [Ha Hs _ He]. rewrite E in Ha, Hs.
  assert (Hsp : sp ∈ l1 ++ sp :: l2) by (apply elem_of_app; right; left).
  destruct (align_bounds (extent l1 0) _ (Ha sp Hsp)) as [Hb1 Hb2].
  assert (Hm1 : 0 <= extent l1 0) by (apply extent_mono; intros x Hx; [apply Ha | apply Hs]; apply elem_of_app; auto).
  assert (Hm2 : extent (l1 ++ [sp]) 0 <= extent l2 (extent (l1 ++ [sp]) 0))
    by (apply extent_mono; intros x Hx; [apply Ha | apply Hs]; apply elem_of_app; right; right; exact Hx).
  split; [unfold GetOffsetOf; rewrite E; apply offset_loop_spec; [rewrite <- E; exact Hl | apply (split_spaces l1 sp l2 E)] |].
  split; [lia |]. split; [lia |]. split; [exact Hb2 |]. split; [rewrite extent_app; reflexivity |].
  rewrite E, (cons_middle sp l1 l2), app_assoc, (extent_app (l1 ++ [sp])). exact Hm2.
Qed.

Lemma GetSize_extent : spaces rf <> [] -> GetSize rf = Ok (extent (spaces rf) 0).
Proof.
  intros Hne. destruct (exists_last Hne) as (l & sp & E). unfold GetSize. rewrite E, last_snoc.
  destruct (space_offset l sp [] E) as (Eo & _ & _ & _ & Hsum & _). rewrite Eo. cbn [rbind]. f_equal.
  rewrite Z.add_comm, Hsum. apply (wrap_small 32). pose proof (lo_extent _ _ Hl) as He. rewrite E in He.
  destruct (space_offset l sp [] E) as (_ & H0 & _). assert (Hs : 0 <= size_in_bytes sp).
  { apply (lo_sizes _ _ Hl). rewrite E. apply elem_of_app. right. left. }
  unfold in_range. lia.
Qed.
End Layout.

(** The products and sums in the checks of a bank do not wrap around. *)
Definition bank_fits (b : RegBankViewDescriptor) : Prop :=
  RegisterSpaceOffset b + RegisterCount b * RegisterStride b < 2 ^ 32 /\ ElementCount b * ElementStride b < 2 ^ 32.

Lemma bank_Resolve_bounds sp b r e : bank_in_range b -> bank_fits b -> bank_Resolve sp b = true ->
  0 <= r < RegisterCount b -> 0 <= e < ElementCount b ->
  0 <= RegisterSpaceOffset b /\
  RegisterSpaceOffset b + r * RegisterStride b + e * ElementStride b + bank_ElementSize b <= size_in_bytes sp.
Proof.
  intros (H1 & H2 & H3 & H4 & H5 & H6) [F1 F2] H Hr He. unfold bank_Resolve, GetBankSize, in_range in *. rewrite !andb_true_iff, !negb_true_iff in H.
  destruct H as ((((_ & Hs) & Hst) & Hel) & _). unfold u32 in *.
  rewrite (wrap_small 32 (RegisterCount b * RegisterStride b)) in Hs by (unfold in_range; nia).
  rewrite wrap_small in Hs by (unfold in_range; nia). rewrite wrap_small in Hel by (unfold in_range; nia).
  rewrite Z.gtb_ltb in Hs, Hel. apply Z.ltb_ge in Hs, Hst, Hel. split; [lia |].
  assert (e * ElementStride b + bank_ElementSize b <= RegisterStride b) by nia. nia.
Qed.

(** C35. In a register file that was loaded from declarations and
    resolved without an error, in which every space has a view of some width
    and the file fits 32 bits: every element of every register of a bank whose
    offset and sizes do not wrap around at 32 bits ([bank_fits]; otherwise see
    [bank_size_wraps]), and every slot whose end does not, lies within the
    register file, even when views of one name were dropped by their space. *)
Theorem register_file_layout l rf :
  load_regspaces empty_file l = Ok rf -> file_Resolve rf = true -> laid_out (spaces rf) 0 ->
  (forall b, b ∈ bank_views rf -> bank_fits b -> exists off size, bank_RegFileOffset rf b = Ok off /\ GetSize rf = Ok size /\ 0 <= off /\
     forall r e, 0 <= r < RegisterCount b -> 0 <= e < ElementCount b ->
       off + r * RegisterStride b + e * ElementStride b + bank_ElementSize b <= size) /\
  (forall s, s ∈ slot_views rf -> slot_Offset s + slot_Size s < 2 ^ 32 ->
     exists off size, slot_RegFileOffset rf s = Ok off /\ GetSize rf = Ok size /\ 0 <= off /\ off + slot_Size s <= size).
Proof.
  intros El Er Hl. pose proof (load_regspaces_built _ _ _ empty_built El) as Hb. destruct (file_Resolve_true rf Er) as [Hnd Hsp].
  assert (Hplace : forall a sp, sp ∈ spaces rf -> space_address sp = a -> exists o, GetOffsetOf rf a = Ok o /\ 0 <= o /\
    o + size_in_bytes sp <= extent (spaces rf) 0 /\ GetSize rf = Ok (extent (spaces rf) 0)).
  { intros a sp Hin <-. destruct (list_elem_of_split _ _ Hin) as (l1 & l2 & E).
    destruct (space_offset rf Hb Hl l1 sp l2 E) as (Eo & H0 & _ & _ & Hs & He). eexists. split; [exact Eo |]. split; [exact H0 |].
    split; [lia |]. apply (GetSize_extent rf Hb Hl). rewrite E. destruct l1; discriminate. }
  pose proof (lo_extent _ _ Hl) as Hext. split.
  - intros b Hbv Hf. destruct (bu_banks rf Hb b Hbv) as (Hr & sp & H1 & H2 & [H3 | H3]); [| contradiction].
    destruct (Hplace _ sp H1 H2) as (o & Eo & Ho & Hos & Ez).
    pose proof (Hsp sp H1) as Hres. apply andb_true_iff in Hres as [Hres _]. rewrite forallb_forall in Hres.
    specialize (Hres b ltac:(apply list_elem_of_In; exact H3)). unfold bank_RegFileOffset. rewrite Eo. cbn [rbind].
    assert (Hw : RegisterSpaceOffset b <= size_in_bytes sp).
    { pose proof (bank_Resolve_bounds sp b 0 0 Hr Hf Hres) as Hz. unfold bank_Resolve, GetBankSize in Hres. rewrite !andb_true_iff, !negb_true_iff in Hres.
      destruct Hres as ((((_ & Hs) & _) & _) & _). destruct Hr as (R1 & R2 & R3 & _), Hf as [F1 _]. unfold u32, in_range in *.
      rewrite (wrap_small 32 (RegisterCount b * RegisterStride b)) in Hs by (unfold in_range; nia).
      rewrite wrap_small in Hs by (unfold in_range; nia). rewrite Z.gtb_ltb in Hs. apply Z.ltb_ge in Hs. nia. }
    assert (H0 : 0 <= RegisterSpaceOffset b) by (destruct Hr as ((? & _) & _); assumption).
    eexists _, _. split; [reflexivity |]. split; [exact Ez |]. unfold u32. rewrite wrap_small by (unfold in_range; lia). split; [lia |].
    intros r e R E. pose proof (bank_Resolve_bounds sp b r e Hr Hf Hres R E). lia.
  - intros s Hsv Hf. destruct (bu_slots rf Hb s Hsv) as ((R1 & R2) & sp & H1 & H2 & [H3 | H3]); [| contradiction].
    destruct (Hplace _ sp H1 H2) as (o & Eo & Ho & Hos & Ez).
    pose proof (Hsp sp H1) as Hres. apply andb_true_iff in Hres as [_ Hres]. rewrite forallb_forall in Hres.
    specialize (Hres s ltac:(apply list_elem_of_In; exact H3)). apply andb_true_iff in Hres as [Hres _]. apply negb_true_iff in Hres.
    unfold u32, in_range in *. rewrite wrap_small in Hres by (unfold in_range; lia). rewrite Z.gtb_ltb in Hres. apply Z.ltb_ge in Hres.
    unfold slot_RegFileOffset. rewrite Eo. cbn [rbind]. eexists _, _. split; [reflexivity |]. split; [exact Ez |].
    unfold u32. rewrite wrap_small by (unfold in_range; lia). lia.
Qed.

(** A file of sixteen general registers and the program counter, with two
    slots that are views of the same bytes. *)
Definition example_decls : list (Z * list ViewDecl) :=
  [(64, [DBank "RB" "uint32" 0 16 4 1 4 4]); (12, [DSlot "PC" "uint64" 8 0 (Some "PC"); DSlot "PC_LO" "uint32" 4 0 None; DSlot "C" "uint8" 1 8 (Some "C")])]%string.
Definition example_file : RegisterFile := match load_regspaces empty_file example_decls with Ok rf => rf | Err _ => empty_file end.

Lemma laid_out_check l total :
  forallb (fun sp => (0 <? GetAlignmentRequirements sp) && (0 <=? size_in_bytes sp)) l && (0 <=? total) && (extent l total <? 2 ^ 32) = true ->
  laid_out l total.
Proof.
  rewrite !andb_true_iff, forallb_forall, Z.leb_le, Z.ltb_lt. intros ((H & H1) & H2).
  split; [| | exact H1 | exact H2]; intros sp Hsp; apply list_elem_of_In in Hsp; specialize (H sp Hsp); apply andb_true_iff in H as [Ha Hs];
    [apply Z.ltb_lt in Ha | apply Z.leb_le in Hs]; assumption.
Qed.

Lemma register_file_layout_witness :
  GetSize example_file = Ok 76 /\
  (forall b, b ∈ bank_views example_file -> bank_fits b ->
     exists off size, bank_RegFileOffset example_file b = Ok off /\ GetSize example_file = Ok size /\ 0 <= off /\
     forall r e, 0 <= r < RegisterCount b -> 0 <= e < ElementCount b ->
       off + r * RegisterStride b + e * ElementStride b + bank_ElementSize b <= size).
Proof.
  split; [reflexivity |].
  apply (register_file_layout example_decls example_file); [reflexivity | vm_compute; reflexivity | apply laid_out_check; vm_compute; reflexivity].
Defined.

(** The spaces of a loaded register file that is laid out within 32
    bits start at a multiple of the largest stride or width of their views, and
    an earlier space ends before a later one begins. *)
Theorem register_spaces_disjoint l rf i j sp1 sp2 :
  load_regspaces empty_file l = Ok rf -> laid_out (spaces rf) 0 ->
  spaces rf !! i = Some sp1 -> spaces rf !! j = Some sp2 -> (i < j)%nat ->
  exists o1 o2, GetOffsetOf rf (space_address sp1) = Ok o1 /\ GetOffsetOf rf (space_address sp2) = Ok o2 /\
    o1 mod GetAlignmentRequirements sp1 = 0 /\ o2 mod GetAlignmentRequirements sp2 = 0 /\ o1 + size_in_bytes sp1 <= o2.
Proof.
  intros El Hl Hi Hj Hij. pose proof (load_regspaces_built _ _ _ empty_built El) as Hb.
  pose proof (take_drop_middle _ _ _ Hi) as E1. pose proof (take_drop_middle _ _ _ Hj) as E2. symmetry in E1, E2.
  destruct (space_offset rf Hb Hl _ _ _ E1) as (O1 & _ & _ & M1 & S1 & _). destruct (space_offset rf Hb Hl _ _ _ E2) as (O2 & _ & G2 & M2 & _ & _).
  eexists _, _. split; [exact O1 |]. split; [exact O2 |]. split; [exact M1 |]. split; [exact M2 |]. rewrite S1.
  etransitivity; [| exact G2]. rewrite <- (take_S_r _ _ _ Hi).
  replace (take j (spaces rf)) with (take (S i) (spaces rf) ++ drop (S i) (take j (spaces rf)))
    by (rewrite <- (take_drop (S i) (take j (spaces rf))) at 2; rewrite take_take; do 2 f_equal; lia).
  rewrite extent_app. apply extent_mono; intros x Hx; [apply (lo_aligned _ _ Hl) | apply (lo_sizes _ _ Hl)];
    rewrite <- (take_drop j (spaces rf)), <- (take_drop (S i) (take j (spaces rf))); apply elem_of_app; left; apply elem_of_app; right; exact Hx.
Qed.

Lemma register_spaces_disjoint_witness :
  exists o1 o2, GetOffsetOf example_file 0 = Ok o1 /\ GetOffsetOf example_file 1 = Ok o2 /\ o1 mod 4 = 0 /\ o2 mod 8 = 0 /\ o1 + 64 <= o2.
Proof.
  pose (sp1 := mkSpace 0 64 (bank_views example_file) []). pose (sp2 := mkSpace 1 12 [] (slot_views example_file)).
  change 0 with (space_address sp1) at 1. change 1 with (space_address sp2) at 1.
  apply (register_spaces_disjoint example_decls example_file 0 1
    sp1 sp2);
    [reflexivity | apply laid_out_check; vm_compute; reflexivity | reflexivity | reflexivity | lia].
Defined.

(** A bank of more than four gigabytes passes the check against a space of
    sixteen bytes: the product of count and stride wraps around. *)
Example bank_size_wraps :
  let d := [(16, [DBank "RB" "uint32" 0 1073741825 4 1 4 4])]%string in
  exists rf, load_regspaces empty_file d = Ok rf /\ file_Resolve rf = true /\ GetSize rf = Ok 16.
Proof. eexists. split; [reflexivity |]. split; vm_compute; reflexivity. Qed.

(** A space without views has no alignment, and the offset of every space from
    there on divides by zero. *)
Example empty_space_divides_by_zero :
  let d := [(16, []); (16, [DSlot "PC" "uint64" 8 0 None])]%string in
  exists rf, load_regspaces empty_file d = Ok rf /\ file_Resolve rf = true /\ GetSize rf = Err UndefinedBehaviour.
Proof. eexists. split; [reflexivity |]. split; vm_compute; reflexivity. Qed.

Example GetSpaceByIndex_past_end : GetSpaceByIndex example_file 2 = Err UndefinedBehaviour.
Proof. reflexivity. Qed.
