(* ===== verification/IRConstants.v ===== *)
(** * GenC constants

    The values of GenC constants and the arithmetic on them:
    src/gensim/inc/genC/ir/IRConstant.h, src/gensim/src/genC/ir/IRConstant.cpp
    and [IRType::Cast] of src/gensim/src/genC/ir/IRType.cpp.  Integers of every
    GenC width are kept in one [uint64_t]; float and double are the IEEE
    formats with 24 and 53 bits of precision, rounded to nearest, long double
    the x87 format. *)

From stdpp Require Import base list numbers strings.
From Stdlib Require Import ZArith Lia SpecFloat.
From S2P Require Import Prelude IRTypes.
#[local] Open Scope Z_scope.

(** A structure constant maps the names of its members to their values. *)
Inductive IRConstant :=
| CInvalid
| CInteger (i : Z)
| CBigInteger (l h : Z)
| CFloat (f : spec_float)
| CDouble (d : spec_float)
| CLongDouble (d : spec_float)
| CStruct (members : list (string * IRConstant))
| CVector (elements : list IRConstant).

Inductive ValueType :=
| Type_Invalid | Type_Integer | Type_BigInteger | Type_Float_Single | Type_Float_Double | Type_Float_LongDouble
| Type_Struct | Type_Vector.

#[export] Instance valuetype_eq_dec : EqDecision ValueType.
Proof. solve_decision. Defined.

Definition Type_ (c : IRConstant) : ValueType :=
  match c with
  | CInvalid => Type_Invalid
  | CInteger _ => Type_Integer
  | CBigInteger _ _ => Type_BigInteger
  | CFloat _ => Type_Float_Single
  | CDouble _ => Type_Float_Double
  | CLongDouble _ => Type_Float_LongDouble
  | CStruct _ => Type_Struct
  | CVector _ => Type_Vector
  end.
Definition same_type (a b : IRConstant) : bool := bool_decide (Type_ a = Type_ b).

Definition Int (c : IRConstant) : result Z := match c with CInteger i => Ok i | _ => Err AssertFailed end.
Definition Flt (c : IRConstant) : result spec_float := match c with CFloat f => Ok f | _ => Err AssertFailed end.
Definition Dbl (c : IRConstant) : result spec_float := match c with CDouble d => Ok d | _ => Err AssertFailed end.
Definition GetVector (c : IRConstant) : result (list IRConstant) :=
  match c with CVector v => Ok v | _ => Err AssertFailed end.

(** ** Floating point

    [prec] bits of significand and exponents below [emax]. *)

Definition of_uint (prec emax i : Z) : spec_float := binary_normalize prec emax i 0 false.

(** The conversion to another format, correctly rounded. *)
Definition convert (prec emax : Z) (f : spec_float) : spec_float :=
  match f with
  | S754_finite s m e => binary_normalize prec emax (cond_Zopp s (Zpos m)) e s
  | _ => f
  end.

(** The conversion to [uint64_t] truncates; it is undefined when the result
    does not fit. *)
Definition truncate (f : spec_float) : result Z :=
  match f with
  | S754_zero _ => Ok 0
  | S754_finite s m e =>
      let z := cond_Zopp s (Z.shiftl (Zpos m) e) in
      if (0 <=? z) && (z <? 2 ^ 64) then Ok z else Err UndefinedBehaviour
  | S754_infinity _ | S754_nan => Err UndefinedBehaviour
  end.

(** [f != 0] holds of NaNs. *)
Definition nonzero (f : spec_float) : bool := match f with S754_zero _ => false | _ => true end.

(** The bits of an IEEE format of [prec + ebits] bits. *)
Definition ieee_bits (prec emax ebits : Z) (f : spec_float) : Z :=
  let sign (s : bool) := if s then 2 ^ (prec + ebits - 1) else 0 in
  let top := 2 ^ ebits - 1 in
  match f with
  | S754_zero s => sign s
  | S754_infinity s => sign s + top * 2 ^ (prec - 1)
  | S754_nan => top * 2 ^ (prec - 1) + 2 ^ (prec - 2)
  | S754_finite s m e =>
      if Zpos m <? 2 ^ (prec - 1) then sign s + Zpos m
      else sign s + (e - (3 - emax - prec) + 1) * 2 ^ (prec - 1) + (Zpos m - 2 ^ (prec - 1))
  end.
Definition FltBits (f : spec_float) : Z := ieee_bits 24 128 8 f.
Definition DblBits (f : spec_float) : Z := ieee_bits 53 1024 11 f.

(** The first eight bytes of a long double: its significand. *)
Definition LongDblLow (f : spec_float) : Z :=
  match f with
  | S754_zero _ => 0
  | S754_infinity _ => 2 ^ 63
  | S754_nan => 2 ^ 63 + 2 ^ 62
  | S754_finite _ m _ => Zpos m
  end.

(** The member [integer_] of the union, which is zero unless another member of
    the union was written. *)
Definition integer_ (c : IRConstant) : Z :=
  match c with
  | CInteger i => i
  | CBigInteger l _ => l
  | CFloat f => FltBits f
  | CDouble d => DblBits d
  | CLongDouble d => LongDblLow d
  | CInvalid | CStruct _ | CVector _ => 0
  end.

Definition POD (c : IRConstant) : result Z :=
  match c with
  | CInteger _ | CFloat _ | CDouble _ | CLongDouble _ => Ok (integer_ c)
  | _ => Err AssertFailed
  end.

(** [operator==] and [operator bool]. *)
Definition const_eqb (a b : IRConstant) : result bool :=
  match a with
  | CStruct _ => Err AssertFailed
  | _ => Ok (same_type a b && (integer_ a =? integer_ b))
  end.
Definition const_bool (c : IRConstant) : result bool :=
  match c with
  | CInteger i => Ok (to_bool i)
  | CFloat f | CDouble f | CLongDouble f => Ok (nonzero f)
  | _ => Err LogicError
  end.

Definition GetDefault (t : IRType) : result IRConstant :=
  check* VectorWidth t =? 1 or AssertFailed in
  check* negb (IsStruct t) or AssertFailed in
  let* p := pod_of t in
  match p with
  | VOID | LONG_DOUBLE => Err NotImplemented
  | FLOAT => Ok (CFloat (S754_zero false))
  | DOUBLE => Ok (CDouble (S754_zero false))
  | _ => Ok (CInteger 0)
  end.

(** ** Vectors and structures *)

Definition GetElement (v : list IRConstant) (i : Z) : result IRConstant := at_ v i.
Definition TypeMatches (v : list IRConstant) (e : IRConstant) : result bool :=
  let* e0 := at_ v 0 in Ok (same_type e0 e).
Definition SetElement (v : list IRConstant) (i : Z) (elem : IRConstant) : result (list IRConstant) :=
  let* m := TypeMatches v elem in
  check* m or AssertFailed in
  let* _ := at_ v i in
  Ok (<[Z.to_nat i := elem]> v).

Definition StructGet (members : list (string * IRConstant)) (name : string) : result IRConstant :=
  match List.find (fun m => String.eqb (fst m) name) members with
  | Some m => Ok (snd m)
  | None => Err OutOfRange
  end.
Definition StructSet (members : list (string * IRConstant)) (name : string) (c : IRConstant) : list (string * IRConstant) :=
  if existsb (fun m => String.eqb (fst m) name) members
  then map (fun m => if String.eqb (fst m) name then (name, c) else m) members
  else members ++ [(name, c)].

(** ** Operators

    What an operator does to two integers, two floats, two doubles, and
    whether it is mapped over vectors ([MAPVECTOR]).  The elements of the
    result are set one by one in a copy of the left vector, and setting checks
    the kind of the element against the first. *)
Record scalar_op := mkOp {
  on_int : Z -> Z -> result IRConstant;
  on_float : option (spec_float -> spec_float -> IRConstant);
  on_double : option (spec_float -> spec_float -> IRConstant);
  mapped : bool
}.

Fixpoint apply_op (o : scalar_op) (lhs rhs : IRConstant) : result IRConstant :=
  check* same_type lhs rhs or AssertFailed in
  match lhs, rhs with
  | CInteger a, CInteger b => on_int o a b
  | CFloat a, CFloat b => match on_float o with Some f => Ok (f a b) | None => Err NotExpected end
  | CDouble a, CDouble b => match on_double o with Some f => Ok (f a b) | None => Err NotExpected end
  | CVector v, CVector w =>
      if mapped o then
        let kind := option_map Type_ (head v) in
        let* r := (fix go (l r : list IRConstant) : result (list IRConstant) :=
          match l with
          | [] => Ok []
          | a :: l1 =>
              match r with
              | [] => Err OutOfRange
              | b :: r1 =>
                  let* c := apply_op o a b in
                  check* bool_decide (Some (Type_ c) = kind) or AssertFailed in
                  let* rest := go l1 r1 in
                  Ok (c :: rest)
              end
          end) v w in
        Ok (CVector r)
      else Err NotExpected
  | _, _ => Err NotExpected
  end.

Definition int_op (f : Z -> Z -> Z) : scalar_op := mkOp (fun a b => Ok (CInteger (f a b))) None None false.
Definition arith (f : Z -> Z -> Z) (g h : spec_float -> spec_float -> spec_float) : scalar_op :=
  mkOp (fun a b => Ok (CInteger (u64 (f a b)))) (Some (fun x y => CFloat (g x y))) (Some (fun x y => CDouble (h x y))) true.
Definition comparison_op (f : Z -> Z -> bool) (g : spec_float -> spec_float -> bool) : scalar_op :=
  mkOp (fun a b => Ok (CInteger (Z.b2z (f a b)))) (Some (fun x y => CInteger (Z.b2z (g x y))))
    (Some (fun x y => CInteger (Z.b2z (g x y)))) true.

Definition const_add := apply_op (arith Z.add (SFadd 24 128) (SFadd 53 1024)).
Definition const_sub := apply_op (arith Z.sub (SFsub 24 128) (SFsub 53 1024)).
Definition const_mul := apply_op (arith Z.mul (SFmul 24 128) (SFmul 53 1024)).
Definition const_div := apply_op (mkOp (fun a b => if b =? 0 then Err UndefinedBehaviour else Ok (CInteger (a / b)))
  (Some (fun x y => CFloat (SFdiv 24 128 x y))) (Some (fun x y => CDouble (SFdiv 53 1024 x y))) true).
Definition const_mod :=
  apply_op (mkOp (fun a b => if b =? 0 then Err UndefinedBehaviour else Ok (CInteger (a mod b))) None None false).
Definition const_gt := apply_op (comparison_op Z.gtb (fun x y => SFltb y x)).
Definition const_ge := apply_op (comparison_op Z.geb (fun x y => SFleb y x)).
Definition const_lt := apply_op (comparison_op Z.ltb SFltb).
Definition const_le := apply_op (comparison_op Z.leb SFleb).
Definition const_and := apply_op (int_op Z.land).
Definition const_or := apply_op (int_op Z.lor).
Definition const_xor := apply_op (int_op Z.lxor).
(** A shift of a 64-bit number by 64 or more is undefined. *)
Definition const_shr :=
  apply_op (mkOp (fun a b => if b <? 64 then Ok (CInteger (Z.shiftr a b)) else Err UndefinedBehaviour) None None false).
Definition const_shl :=
  apply_op (mkOp (fun a b => if b <? 64 then Ok (CInteger (u64 (Z.shiftl a b))) else Err UndefinedBehaviour) None None false).
Definition const_land := apply_op (int_op (fun a b => Z.b2z (to_bool a && to_bool b))).
Definition const_lor := apply_op (int_op (fun a b => Z.b2z (to_bool a || to_bool b))).

Definition const_neg (c : IRConstant) : result IRConstant :=
  match c with
  | CInteger i => Ok (CInteger (u64 (- i)))
  | CFloat f => Ok (CFloat (SFopp f))
  | CDouble d => Ok (CDouble (SFopp d))
  | _ => Err NotExpected
  end.

(** [lhs << a], [lhs >> b] and [1ULL << width] of the rotations. *)
Definition shl64 (a n : Z) : result Z := if n <? 64 then Ok (u64 (Z.shiftl a n)) else Err UndefinedBehaviour.
Definition shr64 (a n : Z) : result Z := if n <? 64 then Ok (Z.shiftr a n) else Err UndefinedBehaviour.

Definition ROL (lhs rhs : IRConstant) (width_in_bits : Z) : result IRConstant :=
  let* lhs_value := Int lhs in
  let* n := Int rhs in
  let* lowbits := shl64 lhs_value n in
  let* highbits := shr64 lhs_value (u64 (width_in_bits - n)) in
  let* one := shl64 1 width_in_bits in
  Ok (CInteger (Z.land (lowbits .| highbits) (u64 (one - 1)))).

Definition ROR (lhs rhs : IRConstant) (width_in_bits : Z) : result IRConstant :=
  let* lhs_value := Int lhs in
  let* n := Int rhs in
  let* lowbits := shr64 lhs_value n in
  let* highbits := shl64 lhs_value (u64 (width_in_bits - n)) in
  let* one := shl64 1 width_in_bits in
  Ok (CInteger (Z.land (lowbits .| highbits) (u64 (one - 1)))).

Definition SSR (lhs rhs : IRConstant) : result IRConstant :=
  check* same_type lhs rhs or AssertFailed in
  let* a := Int lhs in
  let* n := Int rhs in
  if n <? 64 then Ok (CInteger (u64 (Z.shiftr (sext 64 a) n))) else Err UndefinedBehaviour.

(** ** Casts *)

(** [(int64_t)(int8_t)value.Int()] and the like, as an [uint64_t]. *)
Definition sign_extend (size i : Z) : result Z :=
  if size =? 1 then Ok (u64 (sext 8 i))
  else if size =? 2 then Ok (u64 (sext 16 i))
  else if size =? 4 then Ok (u64 (sext 32 i))
  else if size =? 8 then Ok (u64 (sext 64 i))
  else Err NotExpected.

(** A cast from or to floating point of a scalar. *)
Definition cast_floating (value : IRConstant) (from to : IRType) : result IRConstant :=
  let* p := pod_of from in
  let* q := pod_of to in
  match IsFloating from, IsFloating to with
  | false, _ =>
      let* i := Int value in
      match q with
      | FLOAT => Ok (CFloat (of_uint 24 128 i))
      | DOUBLE => Ok (CDouble (of_uint 53 1024 i))
      | _ => Ok (CLongDouble (of_uint 64 16384 i))
      end
  | true, false =>
      match p with
      | FLOAT => let* f := Flt value in rmap CInteger (truncate f)
      | DOUBLE => let* d := Dbl value in rmap CInteger (truncate d)
      | _ => Err NotImplemented
      end
  | true, true =>
      if bool_decide (p = q) then Ok value
      else match p with
      | FLOAT => let* f := Flt value in Ok (CDouble (convert 53 1024 f))
      | DOUBLE => let* d := Dbl value in Ok (CFloat (convert 24 128 d))
      | _ => Err NotImplemented
      end
  end.

(** A cast between scalars that are not floating point.  The sign-extended
    [result] is only used for targets of less than 64 bits. *)
Definition cast_integer (value : IRConstant) (from to : IRType) : result IRConstant :=
  let* result :=
    if Signed from && Signed to then
      let* from_size := SizeInBytes from in
      let* to_size := SizeInBytes to in
      if (from_size =? 16) || (to_size =? 16) then Err LogicError
      else
        let* i := Int value in
        rmap CInteger (sign_extend from_size i)
    else Ok value in
  let* q := pod_of to in
  match q with
  | INT64 | INT128 =>
      match value with
      | CInteger i => Ok (CInteger i)
      | CFloat f | CDouble f => rmap CInteger (truncate f)
      | _ => Err NotExpected
      end
  | _ =>
      let* to_size := SizeInBytes to in
      let* one := shl64 1 (u32 (to_size * 8)) in
      let* i := Int result in
      Ok (CInteger (Z.land i (u64 (one - 1))))
  end.

Definition cast_scalar (value : IRConstant) (from to : IRType) : result IRConstant :=
  if IsFloating from || IsFloating to then cast_floating value from to else cast_integer value from to.

(** [IRType::Cast]: a scalar is spread over a vector, vectors are cast element
    by element. *)
Fixpoint Cast (value : IRConstant) (from to : IRType) : result IRConstant :=
  if (VectorWidth from =? 1) && (1 <? VectorWidth to) then
    Ok (CVector (replicate (Z.to_nat (VectorWidth to)) value))
  else if negb (VectorWidth from =? 1) || negb (VectorWidth to =? 1) then
    match value with
    | CVector v =>
        check* VectorWidth from =? VectorWidth to or AssertFailed in
        let kind := option_map Type_ (head v) in
        let* r := (fix go (l : list IRConstant) (n : nat) : result (list IRConstant) :=
          match n with
          | O => Ok l
          | S n1 =>
              match l with
              | [] => Err OutOfRange
              | e :: l1 =>
                  let* c := Cast e (GetElementType from) (GetElementType to) in
                  check* bool_decide (Some (Type_ c) = kind) or AssertFailed in
                  let* rest := go l1 n1 in
                  Ok (c :: rest)
              end
          end) v (Z.to_nat (VectorWidth from)) in
        Ok (CVector r)
    | _ => Err AssertFailed
    end
  else cast_scalar value from to.

(** ** Integers in a type *)

(** The scalar integer types, which fit 64 bits. *)
Definition int_pod (p : IRPlainOldDataType) : bool :=
  match p with INT8 | INT16 | INT32 | INT64 => true | _ => false end.
Definition bits (p : IRPlainOldDataType) : Z := 8 * pod_size p.

(** The number an integer of a type stands for. *)
Definition denotes (p : IRPlainOldDataType) (s : bool) (i : Z) : Z := if s then sext (bits p) i else wrap (bits p) i.

Lemma sext_range w z : 0 < w -> - 2 ^ (w - 1) <= sext w z < 2 ^ (w - 1).
Proof.
  intros Hw. unfold sext. pose proof (Z.mod_pos_bound z (2 ^ w) ltac:(apply Z.pow_pos_nonneg; lia)).
  assert (2 ^ w = 2 * 2 ^ (w - 1)) by (rewrite <- Z.pow_succ_r by lia; f_equal; lia).
  unfold wrap in *. destruct (Z.ltb_spec (z mod 2 ^ w) (2 ^ (w - 1))); lia.
Qed.

Lemma wrap_sext w z : 0 < w -> wrap w (sext w z) = wrap w z.
Proof.
  intros Hw. unfold sext, wrap. destruct (_ <? _).
  - apply Z.mod_mod. apply Z.pow_nonzero; lia.
  - rewrite <- (Z_mod_plus_full (z mod 2 ^ w - 2 ^ w) 1 (2 ^ w)), Z.mul_1_l, Z.sub_add. apply Z.mod_mod.
    apply Z.pow_nonzero; lia.
Qed.

Lemma wrap_wrap_le w v z : 0 <= w <= v -> wrap w (wrap v z) = wrap w z.
Proof.
  intros [H1 H2]. unfold wrap. apply Z.mod_mod_divide. exists (2 ^ (v - w)). rewrite <- Z.pow_add_r by lia. f_equal. lia.
Qed.

Lemma int_pod_bits p : int_pod p = true -> bits p = 8 \/ bits p = 16 \/ bits p = 32 \/ bits p = 64.
Proof. destruct p; try discriminate; auto. Qed.

Lemma shl64_mask n : 0 <= n < 64 -> shl64 1 n = Ok (2 ^ n) /\ u64 (2 ^ n - 1) = Z.ones n.
Proof.
  intros Hn. unfold shl64, u64. destruct (Z.ltb_spec n 64); [| lia]. rewrite Z.shiftl_1_l.
  assert (2 ^ n < 2 ^ 64) by (apply Z.pow_lt_mono_r; lia). assert (0 < 2 ^ n) by (apply Z.pow_pos_nonneg; lia).
  split; [rewrite wrap_small; [reflexivity | unfold in_range; lia] |].
  rewrite wrap_small by (unfold in_range; lia). unfold Z.ones. rewrite Z.shiftl_1_l. lia.
Qed.

(** What a cast between the integer types of at most 64 bits does: it wraps to
    the target, from the sign-extended value when both types are signed and
    the target has less than 64 bits. *)
Lemma cast_integer_spec p q s1 s2 i :
  int_pod p = true -> int_pod q = true -> in_range 64 i ->
  Cast (CInteger i) (pod p s1) (pod q s2) =
  Ok (CInteger (if bool_decide (q = INT64) then i
                else wrap (bits q) (if s1 && s2 then sext (bits p) i else i))).
Proof.
  intros Hp Hq Hi. cbn [Cast VectorWidth pod negb Z.eqb Z.ltb Pos.eqb andb orb].
  change (cast_scalar (CInteger i) (pod p s1) (pod q s2) = Ok (CInteger
    (if bool_decide (q = INT64) then i else wrap (bits q) (if s1 && s2 then sext (bits p) i else i)))).
  assert (Hres : (if s1 && s2 then
      let* from_size := SizeInBytes (pod p s1) in
      let* to_size := SizeInBytes (pod q s2) in
      if (from_size =? 16) || (to_size =? 16) then Err LogicError
      else let* i0 := Int (CInteger i) in rmap CInteger (sign_extend from_size i0)
    else Ok (CInteger i)) = Ok (CInteger (if s1 && s2 then u64 (sext (bits p) i) else i))).
  { destruct s1, s2; try reflexivity. destruct p; try discriminate; destruct q; try discriminate; reflexivity. }
  assert (Hsc : cast_scalar (CInteger i) (pod p s1) (pod q s2) = cast_integer (CInteger i) (pod p s1) (pod q s2))
    by (destruct p; try discriminate; destruct q; try discriminate; reflexivity).
  rewrite Hsc. unfold cast_integer. change (Signed (pod p s1)) with s1. change (Signed (pod q s2)) with s2.
  rewrite Hres. cbn [rbind pod_of pod BaseType].
  assert (Hm : forall z n, 0 <= n < 64 -> Z.land (if s1 && s2 then u64 z else i) (Z.ones n) = wrap n (if s1 && s2 then z else i)).
  { intros z n Hn. rewrite Z.land_ones by lia. destruct (s1 && s2); [apply wrap_wrap_le; lia | reflexivity]. }
  destruct q; try discriminate; cbn [rbind SizeInBytes pod pod_size negb Z.eqb].
  - change (u32 (u32 (1 * 1) * 8)) with 8. destruct (shl64_mask 8 ltac:(lia)) as [-> E]. cbn [rbind Int]. rewrite E, Hm by lia.
    rewrite bool_decide_false by discriminate. reflexivity.
  - change (u32 (u32 (1 * 2) * 8)) with 16. destruct (shl64_mask 16 ltac:(lia)) as [-> E]. cbn [rbind Int]. rewrite E, Hm by lia.
    rewrite bool_decide_false by discriminate. reflexivity.
  - change (u32 (u32 (1 * 4) * 8)) with 32. destruct (shl64_mask 32 ltac:(lia)) as [-> E]. cbn [rbind Int]. rewrite E, Hm by lia.
    rewrite bool_decide_false by discriminate. reflexivity.
  - rewrite bool_decide_true by reflexivity. reflexivity.
Qed.
