(* ===== verification/ConstantFold.v ===== *)
(** * Constant folding and the interpretation of arithmetic

    The values computed by ConstantFoldingPass.cpp
    (src/gensim/src/genC/ssa/passes), by the binary, unary and cast statements
    of the SSA interpreter (src/gensim/src/genC/ssa/testing), and by the C++
    expressions that the interpreter generator emits for the same statements
    (src/gensim/src/generators/GenCInterpreter/InterpreterNodeWalker.cpp). *)

From stdpp Require Import base list numbers strings.
From Stdlib Require Import ZArith Lia SpecFloat.
From S2P Require Import Prelude IRTypes IRConstants.
#[local] Open Scope Z_scope.

(** ** The folded value *)

(** The switch of [ConstantFoldBinaryOp]; [size] is the size of the statement's
    type. *)
Definition fold_val (op : EBinaryOperator) (size : result Z) (lhs rhs : IRConstant) : result Z :=
  let* a := Int lhs in
  let* b := Int rhs in
  match op with
  | Add => Ok (u64 (a + b))
  | Subtract => Ok (u64 (a - b))
  | Multiply => Ok (u64 (a * b))
  | Divide => Ok (if b =? 0 then 0 else a / b)
  | Modulo => Ok (if b =? 0 then 0 else a mod b)
  | ShiftLeft => shl64 a b
  | ShiftRight => shr64 a b
  | SignedShiftRight => if b <? 64 then Ok (u64 (Z.shiftr (sext 64 a) b)) else Err UndefinedBehaviour
  | RotateLeft => let* n := size in let* c := ROL lhs rhs (u32 (n * 8)) in Int c
  | RotateRight => let* n := size in let* c := ROR lhs rhs (u32 (n * 8)) in Int c
  | Bitwise_And => Ok (Z.land a b)
  | Bitwise_Or => Ok (a .| b)
  | Bitwise_XOR => Ok (Z.lxor a b)
  | Logical_Or => Ok (Z.b2z (to_bool a || to_bool b))
  | Logical_And => Ok (Z.b2z (to_bool a && to_bool b))
  | Equality => Ok (Z.b2z (a =? b))
  | Inequality => Ok (Z.b2z (negb (a =? b)))
  | LessThan => Ok (Z.b2z (a <? b))
  | LessThanEqual => Ok (Z.b2z (a <=? b))
  | GreaterThan => Ok (Z.b2z (a >? b))
  | GreaterThanEqual => Ok (Z.b2z (a >=? b))
  | _ => Err AssertFailed
  end.

(** The constant that replaces a binary statement on constants of the types
    [lhs_type] and [rhs_type], and its type. *)
Definition fold_binary (op : EBinaryOperator) (lhs_type rhs_type : IRType) (lhs rhs : IRConstant)
  : result (IRConstant * IRType) :=
  if IsFloating lhs_type || IsFloating rhs_type then Err NotImplemented
  else
    let* ty := Resolve op lhs_type rhs_type in
    let* val := fold_val op (SizeInBytes ty) lhs rhs in
    let* c := Cast (CInteger val) ty ty in
    Ok (c, ty).

(** [ConstantFoldCastOp]. *)
Definition fold_cast (c : IRConstant) (from to : IRType) : result (IRConstant * IRType) :=
  let* end_value := Cast c from to in Ok (end_value, to).

(** [SSAConstantStatement::Resolve]. *)
Definition constant_fits (c : IRConstant) (t : IRType) : result bool :=
  let* c1 := Cast c t t in const_eqb c1 c.

(** ** The interpreter *)

Definition interp_rotate (rotate : IRConstant -> IRConstant -> Z -> result IRConstant) (size : result Z) (lhs rhs : IRConstant)
  : result IRConstant :=
  let* n := size in
  if n =? 4 then rotate lhs rhs 32 else if n =? 8 then rotate lhs rhs 64 else Err NotImplemented.

(** [VisitBinaryArithmeticStatement].  The cases of the rotations do not break:
    a rotation to the left goes on to the rotation to the right and both go on
    to the comparison. *)
Definition interp_binary (op : EBinaryOperator) (lhs_type rhs_type : IRType) (lhs rhs : IRConstant) : result IRConstant :=
  let size := (let* ty := Resolve op lhs_type rhs_type in SizeInBytes ty) in
  let compare := (let* b := const_eqb lhs rhs in Ok (CInteger (Z.b2z b))) in
  let by_zero (k : IRConstant -> IRConstant -> result IRConstant) :=
    (let* z := const_eqb rhs (CInteger 0) in if z then Ok (CInteger 0) else k lhs rhs) in
  match op with
  | Add => const_add lhs rhs
  | Subtract => const_sub lhs rhs
  | Multiply => const_mul lhs rhs
  | Divide => by_zero const_div
  | Modulo => by_zero const_mod
  | Bitwise_And => const_and lhs rhs
  | Bitwise_Or => const_or lhs rhs
  | Bitwise_XOR => const_xor lhs rhs
  | Logical_And => const_land lhs rhs
  | Logical_Or => const_lor lhs rhs
  | ShiftLeft => const_shl lhs rhs
  | ShiftRight => const_shr lhs rhs
  | SignedShiftRight => SSR lhs rhs
  | RotateLeft => let* _ := interp_rotate ROL size lhs rhs in let* _ := interp_rotate ROR size lhs rhs in compare
  | RotateRight => let* _ := interp_rotate ROR size lhs rhs in compare
  | Equality => compare
  | Inequality => let* b := const_eqb lhs rhs in Ok (CInteger (Z.b2z (negb b)))
  | GreaterThan => const_gt lhs rhs
  | GreaterThanEqual => const_ge lhs rhs
  | LessThan => const_lt lhs rhs
  | LessThanEqual => const_le lhs rhs
  | _ => Err LogicError
  end.

(** The operator of a unary statement; the interpreter does not look at it. *)
Inductive ESSAUnaryOperator := OP_NEGATE | OP_COMPLEMENT | OP_NEGATIVE.
Definition interp_unary (op : ESSAUnaryOperator) (input : IRConstant) : result IRConstant := const_neg input.

(** ** The emitted code

    [SSABinaryArithmeticStatementWalker] emits [T name = (lhs op rhs)], an
    operation on two variables of a C++ integer type; for [SignedShiftRight]
    the left one is made signed, and the rotations are two shifts.  C++ works
    on the promoted type: [int] for types of less than 32 bits.  [None] where
    C++ leaves the expression undefined; shifts of negative numbers are as
    C++20 and the compilers in use define them. *)
Section Emitted.
Context (p : IRPlainOldDataType) (s : bool) (a b : Z).
Let w := bits p.
Let x := denotes p s a.
Let y := denotes p s b.
Definition promoted_bits : Z := Z.max 32 w.
Definition promoted_signed : bool := s || (w <? 32).
Definition representable (z : Z) : bool :=
  negb promoted_signed || ((- 2 ^ (promoted_bits - 1) <=? z) && (z <? 2 ^ (promoted_bits - 1))).
(** The value of an expression that may overflow, converted to [T]. *)
Definition computed (z : Z) : option Z := if representable z then Some (wrap w z) else None.
Definition shift_ok (n : Z) : bool := (0 <=? n) && (n <? promoted_bits).
Definition emitted_binary (op : EBinaryOperator) : option Z :=
  match op with
  | Add => computed (x + y)
  | Subtract => computed (x - y)
  | Multiply => computed (x * y)
  | Divide => if y =? 0 then None else computed (Z.quot x y)
  | Modulo => if (y =? 0) || negb (representable (Z.quot x y)) then None else Some (wrap w (Z.rem x y))
  | ShiftLeft => if shift_ok y then Some (wrap w (Z.shiftl x y)) else None
  | ShiftRight => if shift_ok y then Some (wrap w (Z.shiftr x y)) else None
  | SignedShiftRight => if shift_ok y then Some (wrap w (Z.shiftr (sext w a) y)) else None
  | RotateLeft => if shift_ok y && shift_ok (w - y) then Some (wrap w (Z.shiftl x y .| Z.shiftr x (w - y))) else None
  | RotateRight => if shift_ok y && shift_ok (w - y) then Some (wrap w (Z.shiftr x y .| Z.shiftl x (w - y))) else None
  | Bitwise_And => Some (wrap w (Z.land x y))
  | Bitwise_Or => Some (wrap w (x .| y))
  | Bitwise_XOR => Some (wrap w (Z.lxor x y))
  | Logical_Or => Some (Z.b2z (to_bool x || to_bool y))
  | Logical_And => Some (Z.b2z (to_bool x && to_bool y))
  | Equality => Some (Z.b2z (x =? y))
  | Inequality => Some (Z.b2z (negb (x =? y)))
  | LessThan => Some (Z.b2z (x <? y))
  | LessThanEqual => Some (Z.b2z (x <=? y))
  | GreaterThan => Some (Z.b2z (x >? y))
  | GreaterThanEqual => Some (Z.b2z (x >=? y))
  | _ => None
  end.
End Emitted.
(** [v] is the value of the emitted expression wherever C++ defines one. *)
Definition emits (p : IRPlainOldDataType) (s : bool) (a b : Z) (op : EBinaryOperator) (v : Z) : Prop :=
  forall v', emitted_binary p s a b op = Some v' -> v' = v.

Lemma computed_some p s z v : computed p s z = Some v -> v = wrap (bits p) z.
Proof. unfold computed. destruct (representable p s z); congruence. Qed.
Lemma emits_some p s a b op v : emitted_binary p s a b op = Some v -> emits p s a b op v.
Proof. intros E v' H. congruence. Qed.

(** [SSACastStatementWalker] for extensions and truncations: the signedness
    changes first, at the width of the operand. *)
Definition emitted_cast (p q : IRPlainOldDataType) (s1 s2 : bool) (i : Z) : Z :=
  let partial := if Bool.eqb s1 s2 then denotes p s1 i else denotes p s2 i in
  wrap (bits q) partial.

(** ** Folding computes what the emitted code computes *)

Definition result_type (op : EBinaryOperator) (p : IRPlainOldDataType) (s : bool) : IRType :=
  if operator_ltb op END_OF_NORMAL_OPERATORS then pod p s else IRTypes.UInt8.

(** Not negative as a number of its type. *)
Definition nonneg (p : IRPlainOldDataType) (s : bool) (a : Z) : bool := negb s || (a <? 2 ^ (bits p - 1)).

(** Where folding can be trusted: signed operands of divisions, remainders,
    comparisons and shifts to the right must not be negative, a signed shift
    has 64 bits or a clear top bit, and rotations have less than 64 bits and an
    operand that is not negative. *)
Definition fold_faithful (op : EBinaryOperator) (p : IRPlainOldDataType) (s : bool) (a b : Z) : bool :=
  match op with
  | Add | Subtract | Multiply | Bitwise_And | Bitwise_Or | Bitwise_XOR | Logical_And | Logical_Or
  | Equality | Inequality => true
  | Divide | Modulo | LessThan | LessThanEqual | GreaterThan | GreaterThanEqual => nonneg p s a && nonneg p s b
  | ShiftLeft => b <? bits p
  | ShiftRight => (b <? bits p) && nonneg p s a
  | SignedShiftRight => (b <? bits p) && (bool_decide (p = INT64) || (a <? 2 ^ (bits p - 1)))
  | RotateLeft | RotateRight => (b <? bits p) && (negb (bool_decide (p = INT64)) && nonneg p s a)
  | _ => false
  end.

Lemma bits_range p : int_pod p = true -> 8 <= bits p <= 64.
Proof. intros H. destruct (int_pod_bits p H) as [| [| [|]]]; lia. Qed.

Lemma range_64 p a : int_pod p = true -> in_range (bits p) a -> in_range 64 a.
Proof. intros Hp Ha. apply (in_range_mono (bits p)); [pose proof (bits_range p Hp); lia | assumption]. Qed.

Lemma cast_same p s i : int_pod p = true -> in_range 64 i -> Cast (CInteger i) (pod p s) (pod p s) = Ok (CInteger (wrap (bits p) i)).
Proof.
  intros Hp Hi. rewrite cast_integer_spec by assumption. do 2 f_equal.
  case_bool_decide as E; [subst; symmetry; apply wrap_small; assumption |].
  destruct s; [| reflexivity]. apply wrap_sext. pose proof (bits_range p Hp). lia.
Qed.

Lemma denotes_wrap p s a : int_pod p = true -> wrap (bits p) (denotes p s a) = wrap (bits p) a.
Proof.
  intros Hp. pose proof (bits_range p Hp). unfold denotes. destruct s; [apply wrap_sext; lia | apply wrap_wrap_le; lia].
Qed.

Lemma denotes_small p s a : int_pod p = true -> in_range (bits p) a -> nonneg p s a = true -> denotes p s a = a.
Proof.
  intros Hp Ha Hn. unfold denotes, nonneg, sext in *. destruct s; cbn in Hn; rewrite wrap_small by assumption; [| reflexivity].
  rewrite Hn. reflexivity.
Qed.

Lemma small_nonneg p s b : int_pod p = true -> b < bits p -> nonneg p s b = true.
Proof.
  intros Hp Hb. unfold nonneg. apply orb_true_iff. right. apply Z.ltb_lt.
  destruct (int_pod_bits p Hp) as [E | [E | [E | E]]]; rewrite E in *; lia.
Qed.

Lemma denotes_inj p s a b : int_pod p = true -> in_range (bits p) a -> in_range (bits p) b ->
  (denotes p s a =? denotes p s b) = (a =? b).
Proof.
  intros Hp Ha Hb. apply Bool.eq_iff_eq_true. rewrite !Z.eqb_eq. split; [| intros ->; reflexivity].
  intros H. apply (f_equal (wrap (bits p))) in H. rewrite !denotes_wrap, !wrap_small in H by assumption. exact H.
Qed.

Lemma denotes_to_bool p s a : int_pod p = true -> in_range (bits p) a -> to_bool (denotes p s a) = to_bool a.
Proof.
  intros Hp Ha. unfold to_bool. f_equal. pose proof (bits_range p Hp).
  assert (E : denotes p s 0 = 0).
  { apply denotes_small; [assumption | split; [lia | apply Z.pow_pos_nonneg; lia] | apply small_nonneg; [assumption | lia]]. }
  rewrite <- E at 1. apply denotes_inj; [assumption .. | split; [lia | apply Z.pow_pos_nonneg; lia]].
Qed.

(** Congruence of the wrapped operations. *)
Lemma wrap_op2 w (f : Z -> Z -> Z) a b x y :
  0 <= w -> (forall u v, wrap w (f (wrap w u) (wrap w v)) = wrap w (f u v)) -> wrap w x = wrap w a -> wrap w y = wrap w b ->
  wrap w (f x y) = wrap w (f a b).
Proof. intros Hw Hf Hx Hy. rewrite <- (Hf x), <- (Hf a), Hx, Hy. reflexivity. Qed.

Lemma wrap_testbit w (f : Z -> Z -> Z) (g : bool -> bool -> bool) :
  0 <= w -> (forall u v n, Z.testbit (f u v) n = g (Z.testbit u n) (Z.testbit v n)) ->
  forall u v, wrap w (f (wrap w u) (wrap w v)) = wrap w (f u v).
Proof.
  intros Hw Hf u v. unfold wrap. rewrite <- !Z.land_ones by assumption. apply Z.bits_inj_iff'. intros n Hn.
  rewrite !Z.land_spec, !Hf, !Z.land_spec. destruct (Z.testbit (Z.ones w) n); rewrite ?andb_true_r, ?andb_false_r; reflexivity.
Qed.

Lemma wrap_wrap_add w u v : 0 <= w -> wrap w (wrap w u + wrap w v) = wrap w (u + v).
Proof. intros. unfold wrap. symmetry. apply Z.add_mod, Z.pow_nonzero; lia. Qed.
Lemma wrap_wrap_sub w u v : 0 <= w -> wrap w (wrap w u - wrap w v) = wrap w (u - v).
Proof. intros. unfold wrap. symmetry. apply Zminus_mod. Qed.
Lemma wrap_wrap_mul w u v : 0 <= w -> wrap w (wrap w u * wrap w v) = wrap w (u * v).
Proof. intros. unfold wrap. symmetry. apply Z.mul_mod, Z.pow_nonzero; lia. Qed.

Lemma wrap_shiftl w x a n : 0 <= w -> 0 <= n -> wrap w x = wrap w a -> wrap w (Z.shiftl x n) = wrap w (Z.shiftl a n).
Proof.
  intros Hw Hn E. rewrite !Z.shiftl_mul_pow2 by assumption.
  apply (wrap_op2 w Z.mul); [assumption | intros; apply wrap_wrap_mul; assumption | assumption | reflexivity].
Qed.

Lemma wrap_lor w x y : 0 <= w -> wrap w (x .| y) = (wrap w x .| wrap w y).
Proof. intros Hw. unfold wrap. rewrite <- !Z.land_ones by assumption. apply Z.land_lor_distr_l. Qed.

Lemma in_range_lxor w a b : 0 <= w -> in_range w a -> in_range w b -> in_range w (Z.lxor a b).
Proof.
  intros Hw Ha Hb. apply in_range_bits; [lia | apply Z.lxor_nonneg; destruct Ha, Hb; tauto |].
  intros n Hn. rewrite Z.lxor_spec, !(testbit_high w) by assumption. reflexivity.
Qed.

Lemma nonneg_shiftr a n w : in_range w a -> 0 <= n -> in_range w (Z.shiftr a n).
Proof.
  intros [H1 H2] Hn. rewrite Z.shiftr_div_pow2 by assumption. assert (0 < 2 ^ n) by (apply Z.pow_pos_nonneg; lia). split.
  - apply Z.div_pos; lia.
  - apply Z.le_lt_trans with a; [apply Z.div_le_upper_bound; nia | assumption].
Qed.

Lemma b2z_range b : in_range 64 (Z.b2z b).
Proof. destruct b; cbv; split; congruence. Qed.
Lemma wrap_b2z w b : 0 < w -> wrap w (Z.b2z b) = Z.b2z b.
Proof.
  intros Hw. apply wrap_small. assert (2 ^ 1 <= 2 ^ w) by (apply Z.pow_le_mono_r; lia). destruct b; split; cbn in *; lia.
Qed.

(** The value before the cast to the statement's type. *)
Section Fold.
Context (p : IRPlainOldDataType) (s : bool) (a b : Z).
Hypothesis Hp : int_pod p = true.
Hypothesis Ha : in_range (bits p) a.
Hypothesis Hb : in_range (bits p) b.
Abbreviation w := (bits p).
Abbreviation folds op w' :=
  (exists val, fold_val op (Ok (pod_size p)) (CInteger a) (CInteger b) = Ok val /\ in_range 64 val /\
     emits p s a b op (wrap w' val)).

#[local] Lemma w_pos : 0 <= w <= 64 /\ 0 < w.
Proof. pose proof (bits_range p Hp). lia. Qed.

Lemma fold_ring op f :
  fold_val op (Ok (pod_size p)) (CInteger a) (CInteger b) = Ok (u64 (f a b)) ->
  emits p s a b op (wrap w (f (denotes p s a) (denotes p s b))) ->
  (forall u v, wrap w (f (wrap w u) (wrap w v)) = wrap w (f u v)) -> folds op w.
Proof.
  intros E1 E2 Hf. exists (u64 (f a b)). destruct w_pos as [Hw _]. split; [exact E1 |]. split; [apply wrap_range; lia |].
  unfold u64. rewrite wrap_wrap_le by lia. intros v Hv. rewrite (E2 v Hv). apply wrap_op2; [lia | exact Hf | |]; apply denotes_wrap; exact Hp.
Qed.

Lemma fold_bitwise op f g :
  fold_val op (Ok (pod_size p)) (CInteger a) (CInteger b) = Ok (f a b) -> in_range 64 (f a b) ->
  emits p s a b op (wrap w (f (denotes p s a) (denotes p s b))) ->
  (forall u v n, Z.testbit (f u v) n = g (Z.testbit u n) (Z.testbit v n)) -> folds op w.
Proof.
  intros E1 Hr E2 Hf. exists (f a b). split; [exact E1 |]. split; [exact Hr |]. destruct w_pos as [Hw _].
  intros v Hv. rewrite (E2 v Hv). apply wrap_op2; [lia | apply (wrap_testbit w f g); [lia | exact Hf] | |]; apply denotes_wrap; exact Hp.
Qed.

Lemma fold_bool op c w' : 0 < w' ->
  fold_val op (Ok (pod_size p)) (CInteger a) (CInteger b) = Ok (Z.b2z c) -> emits p s a b op (Z.b2z c) ->
  folds op w'.
Proof.
  intros Hw E1 E2. exists (Z.b2z c). split; [exact E1 |]. split; [apply b2z_range |]. rewrite wrap_b2z by exact Hw. exact E2.
Qed.

(** Values that are already in the range of the type. *)
Lemma fold_plain op val :
  fold_val op (Ok (pod_size p)) (CInteger a) (CInteger b) = Ok val -> in_range w val -> emits p s a b op val ->
  folds op w.
Proof.
  intros E1 Hr E2. exists val. split; [exact E1 |]. split; [apply (range_64 p); assumption |]. rewrite wrap_small by exact Hr. exact E2.
Qed.

Lemma fold_division op : op = Divide \/ op = Modulo -> nonneg p s a && nonneg p s b = true -> folds op w.
Proof.
  intros Ho H. apply andb_true_iff in H as [Na Nb]. pose proof (denotes_small p s a Hp Ha Na) as Ea.
  pose proof (denotes_small p s b Hp Hb Nb) as Eb. destruct Ha as [Ha0 Ha1], Hb as [Hb0 Hb1]. destruct Ho as [-> | ->].
  - apply fold_plain with (if b =? 0 then 0 else a / b); [reflexivity | |].
    + destruct (Z.eqb_spec b 0); [split; lia |]. split; [apply Z.div_pos; lia |].
      apply Z.le_lt_trans with a; [apply Z.div_le_upper_bound; nia | lia].
    + intros v. cbn. rewrite Ea, Eb. destruct (Z.eqb_spec b 0); [discriminate |]. rewrite Z.quot_div_nonneg by lia.
      intros Hv. apply computed_some in Hv. rewrite wrap_small in Hv; [exact Hv |].
      split; [apply Z.div_pos; lia |]. apply Z.le_lt_trans with a; [apply Z.div_le_upper_bound; nia | lia].
  - apply fold_plain with (if b =? 0 then 0 else a mod b); [reflexivity | |].
    + destruct (Z.eqb_spec b 0); [split; lia |]. pose proof (Z.mod_pos_bound a b ltac:(lia)). split; lia.
    + intros v. cbn. rewrite Ea, Eb. destruct (Z.eqb_spec b 0); [discriminate |]. rewrite Z.rem_mod_nonneg by lia. cbn [orb].
      destruct (negb _); [discriminate |]. intros [= <-]. apply wrap_small.
      pose proof (Z.mod_pos_bound a b ltac:(lia)). split; lia.
Qed.

Lemma fold_compare op f :
  fold_val op (Ok (pod_size p)) (CInteger a) (CInteger b) = Ok (Z.b2z (f a b)) ->
  emits p s a b op (Z.b2z (f (denotes p s a) (denotes p s b))) ->
  nonneg p s a && nonneg p s b = true -> folds op 8.
Proof.
  intros E1 E2 H. apply andb_true_iff in H as [Na Nb]. apply (fold_bool op (f a b)); [lia | exact E1 |].
  rewrite (denotes_small p s a Hp Ha Na), (denotes_small p s b Hp Hb Nb) in E2. exact E2.
Qed.

(** A shift by less than the width. *)
Lemma shift_amount : b < w -> denotes p s b = b /\ (b <? 64) = true.
Proof.
  intros Hlt. destruct w_pos. split; [apply denotes_small; [exact Hp | exact Hb | apply small_nonneg; assumption] | apply Z.ltb_lt; lia].
Qed.

(** The value of a guarded expression. *)
Lemma emits_if op (c : bool) u v : emitted_binary p s a b op = (if c then Some u else None) -> u = v -> emits p s a b op v.
Proof. intros E -> v' H. rewrite E in H. destruct c; congruence. Qed.

Lemma fold_shift op : op = ShiftLeft \/ op = ShiftRight \/ op = SignedShiftRight -> fold_faithful op p s a b = true -> folds op w.
Proof.
  intros Ho H. destruct w_pos as [Hw Hw1]. pose proof (range_64 p a Hp Ha) as H64. destruct Hb as [Hb0 _].
  destruct Ho as [-> | [-> | ->]]; cbn [fold_faithful] in H.
  - apply Z.ltb_lt in H. destruct (shift_amount H) as (E & G64). exists (u64 (Z.shiftl a b)). cbn [fold_val rbind Int]. unfold shl64.
    rewrite G64. split; [reflexivity |]. split; [apply wrap_range; lia |]. unfold u64. rewrite wrap_wrap_le by lia.
    eapply emits_if; [reflexivity |]. rewrite E. apply wrap_shiftl; [lia | lia | apply denotes_wrap; exact Hp].
  - apply andb_true_iff in H as [H Na]. apply Z.ltb_lt in H. destruct (shift_amount H) as (E & G64).
    assert (Hr : in_range w (Z.shiftr a b)) by (apply nonneg_shiftr; [exact Ha | lia]).
    apply fold_plain with (Z.shiftr a b); [cbn; unfold shr64; rewrite G64; reflexivity | exact Hr |].
    eapply emits_if; [reflexivity |]. rewrite E, (denotes_small p s a Hp Ha Na). apply wrap_small. exact Hr.
  - apply andb_true_iff in H as [H Na]. apply Z.ltb_lt in H. destruct (shift_amount H) as (E & G64).
    exists (u64 (Z.shiftr (sext 64 a) b)). cbn [fold_val rbind Int]. rewrite G64. split; [reflexivity |].
    split; [apply wrap_range; lia |]. unfold u64. rewrite wrap_wrap_le by lia. eapply emits_if; [reflexivity |]. rewrite E.
    do 2 f_equal. apply orb_true_iff in Na as [Na | Na].
    + apply bool_decide_eq_true in Na. rewrite Na. reflexivity.
    + apply Z.ltb_lt in Na. assert (2 ^ (w - 1) <= 2 ^ (64 - 1)) by (apply Z.pow_le_mono_r; lia).
      unfold sext. rewrite !wrap_small by assumption. destruct (Z.ltb_spec a (2 ^ (w - 1))); [| lia].
      destruct (Z.ltb_spec a (2 ^ (64 - 1))); [reflexivity | lia].
Qed.

Lemma fold_rotate op : op = RotateLeft \/ op = RotateRight -> fold_faithful op p s a b = true -> folds op w.
Proof.
  intros Ho H. destruct w_pos as [Hw Hw1]. destruct Hb as [Hb0 _].
  assert (Hf : (b <? w) && (negb (bool_decide (p = INT64)) && nonneg p s a) = true) by (destruct Ho as [-> | ->]; exact H). clear H.
  apply andb_true_iff in Hf as [H Hn]. apply andb_true_iff in Hn as [Hn Na]. apply Z.ltb_lt in H. destruct (shift_amount H) as (E & G64).
  pose proof (denotes_small p s a Hp Ha Na) as Ea.
  assert (Hw64 : w < 64) by (destruct p; try discriminate; cbv; congruence).
  assert (Hsz : u32 (pod_size p * 8) = w) by (destruct p; try discriminate; reflexivity).
  assert (Hsub : u64 (w - b) = w - b) by (apply wrap_small; split; lia).
  assert (Hlt : (w - b <? 64) = true) by (apply Z.ltb_lt; lia).
  destruct (shl64_mask w ltac:(lia)) as [Eone Emask].
  destruct Ho as [-> | ->]; cbn [fold_val rbind Int];
    (unfold ROL || unfold ROR); cbn [rbind Int]; rewrite Hsz, Hsub, Eone; unfold shl64, shr64; rewrite G64, Hlt;
    cbn [rbind Int]; rewrite Emask; eexists; (split; [reflexivity |]); rewrite Z.land_ones by lia;
    (split; [apply (range_64 p); [exact Hp | apply wrap_range; lia] |]); (eapply emits_if; [reflexivity |]); rewrite E, Ea.
  - fold (wrap w (u64 (Z.shiftl a b) .| Z.shiftr a (w - b))).
    rewrite wrap_wrap_le by lia. rewrite !wrap_lor by lia. unfold u64. rewrite wrap_wrap_le by lia. reflexivity.
  - fold (wrap w (Z.shiftr a b .| u64 (Z.shiftl a (w - b)))).
    rewrite wrap_wrap_le by lia. rewrite !wrap_lor by lia. unfold u64. rewrite wrap_wrap_le by lia. reflexivity.
Qed.

(** Every operation that can be trusted. *)
Lemma fold_val_correct op :
  fold_faithful op p s a b = true -> folds op (if operator_ltb op END_OF_NORMAL_OPERATORS then w else 8).
Proof.
  intros H. destruct w_pos as [Hw Hw1]. pose proof (range_64 p a Hp Ha) as Ra. pose proof (range_64 p b Hp Hb) as Rb.
  destruct op; try discriminate H;
    (match goal with |- context [operator_ltb ?x ?y] => let c := eval vm_compute in (operator_ltb x y) in change (operator_ltb x y) with c end);
    cbv iota.
  - apply (fold_ring Add Z.add); [reflexivity | intros v; apply computed_some | intros; apply wrap_wrap_add; lia].
  - apply (fold_ring Subtract Z.sub); [reflexivity | intros v; apply computed_some | intros; apply wrap_wrap_sub; lia].
  - apply (fold_ring Multiply Z.mul); [reflexivity | intros v; apply computed_some | intros; apply wrap_wrap_mul; lia].
  - apply fold_division; auto.
  - apply fold_division; auto.
  - apply fold_shift; auto.
  - apply fold_shift; auto.
  - apply fold_rotate; auto.
  - apply fold_rotate; auto.
  - apply (fold_bitwise Bitwise_Or Z.lor orb); [reflexivity | apply in_range_lor; (lia || assumption) | apply emits_some; reflexivity | intros; apply Z.lor_spec].
  - apply (fold_bitwise Bitwise_And Z.land andb); [reflexivity | apply in_range_land_l; (lia || assumption) | apply emits_some; reflexivity | intros; apply Z.land_spec].
  - apply (fold_bitwise Bitwise_XOR Z.lxor xorb); [reflexivity | apply in_range_lxor; (lia || assumption) | apply emits_some; reflexivity | intros; apply Z.lxor_spec].
  - apply fold_shift; auto.
  - apply (fold_bool Logical_Or (to_bool a || to_bool b)); [lia | reflexivity |]. apply emits_some. unfold emitted_binary. rewrite !denotes_to_bool by assumption. reflexivity.
  - apply (fold_bool Logical_And (to_bool a && to_bool b)); [lia | reflexivity |]. apply emits_some. unfold emitted_binary. rewrite !denotes_to_bool by assumption. reflexivity.
  - apply (fold_bool Equality (a =? b)); [lia | reflexivity |]. apply emits_some. unfold emitted_binary. rewrite denotes_inj by assumption. reflexivity.
  - apply (fold_bool Inequality (negb (a =? b))); [lia | reflexivity |]. apply emits_some. unfold emitted_binary. rewrite denotes_inj by assumption. reflexivity.
  - apply (fold_compare LessThan Z.ltb); [reflexivity | apply emits_some; reflexivity | exact H].
  - apply (fold_compare GreaterThan Z.gtb); [reflexivity | apply emits_some; reflexivity | exact H].
  - apply (fold_compare LessThanEqual Z.leb); [reflexivity | apply emits_some; reflexivity | exact H].
  - apply (fold_compare GreaterThanEqual Z.geb); [reflexivity | apply emits_some; reflexivity | exact H].
Qed.
End Fold.

(** C34. On two constants of one integer type of at most 64 bits,
    wherever [fold_faithful] holds (additions, subtractions, products, bitwise
    and logical operations and equality always; divisions, comparisons and
    shifts to the right of operands that are not negative; rotations of less
    than 64 bits), constant folding succeeds with a constant of the statement's
    type, whose value is the one the emitted C++ code computes wherever C++
    defines it. *)
Theorem constant_fold_correct op p s a b :
  int_pod p = true -> in_range (bits p) a -> in_range (bits p) b -> fold_faithful op p s a b = true ->
  exists v, fold_binary op (pod p s) (pod p s) (CInteger a) (CInteger b) = Ok (CInteger v, result_type op p s) /\
    emits p s a b op v.
Proof.
  intros Hp Ha Hb Hf. destruct (fold_val_correct p s a b Hp Ha Hb op Hf) as (val & E & Hr & Em).
  eexists. split; [| exact Em]. unfold fold_binary.
  assert (Hfl : IsFloating (pod p s) = false) by (destruct p; try discriminate; reflexivity). rewrite Hfl. cbn [orb].
  assert (Hres : Resolve op (pod p s) (pod p s) = Ok (result_type op p s)).
  { unfold Resolve, result_type. destruct (operator_ltb _ _); [| reflexivity]. destruct p; try discriminate; destruct s; reflexivity. }
  rewrite Hres. cbn [rbind]. unfold result_type in *. destruct (operator_ltb op END_OF_NORMAL_OPERATORS) eqn:En.
  - assert (Hsz : SizeInBytes (pod p s) = Ok (pod_size p)) by (destruct p; try discriminate; reflexivity).
    rewrite Hsz, E. cbn [rbind]. rewrite cast_same by assumption. reflexivity.
  - assert (Hsz : fold_val op (SizeInBytes IRTypes.UInt8) (CInteger a) (CInteger b) = fold_val op (Ok (pod_size p)) (CInteger a) (CInteger b))
      by (destruct op; try reflexivity; discriminate En).
    rewrite Hsz, E. cbn [rbind]. unfold IRTypes.UInt8. rewrite cast_same by (reflexivity || assumption). reflexivity.
Qed.

Lemma constant_fold_correct_witness :
  emitted_binary INT32 false 0x80000001 4 RotateLeft = Some 0x18 /\
  exists v, fold_binary RotateLeft IRTypes.UInt32 IRTypes.UInt32 (CInteger 0x80000001) (CInteger 4) = Ok (CInteger v, IRTypes.UInt32) /\
    emits INT32 false 0x80000001 4 RotateLeft v.
Proof.
  split; [reflexivity |]. apply (constant_fold_correct RotateLeft INT32 false); [reflexivity | split; reflexivity || lia .. | reflexivity].
Defined.

(** [1ULL << 64] is undefined. *)
Lemma rotate_64 a b : ROL (CInteger a) (CInteger b) 64 = Err UndefinedBehaviour /\ ROR (CInteger a) (CInteger b) 64 = Err UndefinedBehaviour.
Proof.
  unfold ROL, ROR. cbn [rbind Int]. unfold shl64, shr64. split; destruct (b <? 64); try reflexivity; cbn [rbind];
    destruct (u64 (64 - b) <? 64); reflexivity.
Qed.

(** Folding works on the numbers as unsigned 64-bit numbers: on
    negative constants of a signed type the comparison, the division and the
    shifts to the right give other values than the emitted code, the signed
    shift to the right also on unsigned types of less than 64 bits, and a
    rotation of 64-bit constants is undefined, for all operands. *)
Theorem constant_fold_signed_wrong :
  (emitted_binary INT32 true 0xffffffff 0 LessThan = Some 1 /\
   fold_binary LessThan IRTypes.Int32 IRTypes.Int32 (CInteger 0xffffffff) (CInteger 0) = Ok (CInteger 0, IRTypes.UInt8)) /\
  (emitted_binary INT32 true 0xfffffffc 2 Divide = Some 0xfffffffe /\
   fold_binary Divide IRTypes.Int32 IRTypes.Int32 (CInteger 0xfffffffc) (CInteger 2) = Ok (CInteger 0x7ffffffe, IRTypes.Int32)) /\
  (emitted_binary INT32 false 0x80000000 4 SignedShiftRight = Some 0xf8000000 /\
   fold_binary SignedShiftRight IRTypes.UInt32 IRTypes.UInt32 (CInteger 0x80000000) (CInteger 4)
     = Ok (CInteger 0x08000000, IRTypes.UInt32)) /\
  (forall a b, fold_binary RotateLeft IRTypes.UInt64 IRTypes.UInt64 (CInteger a) (CInteger b) = Err UndefinedBehaviour /\
     fold_binary RotateRight IRTypes.UInt64 IRTypes.UInt64 (CInteger a) (CInteger b) = Err UndefinedBehaviour).
Proof.
  repeat apply conj; try reflexivity. intros a b. split.
  - change (rbind (let* c := ROL (CInteger a) (CInteger b) 64 in Int c)
      (fun val => let* c := Cast (CInteger val) IRTypes.UInt64 IRTypes.UInt64 in Ok (c, IRTypes.UInt64)) = Err UndefinedBehaviour).
    rewrite (proj1 (rotate_64 a b)). reflexivity.
  - change (rbind (let* c := ROR (CInteger a) (CInteger b) 64 in Int c)
      (fun val => let* c := Cast (CInteger val) IRTypes.UInt64 IRTypes.UInt64 in Ok (c, IRTypes.UInt64)) = Err UndefinedBehaviour).
    rewrite (proj2 (rotate_64 a b)). reflexivity.
Qed.

(** ** Casts *)

(** Folding a cast between integer types of at most 64 bits gives
    the value of the emitted C++ cast exactly when the target is unsigned or
    not wider than the operand, or the operand is not negative as a signed
    number, or both types are signed and the target has less than 64 bits: the
    sign is lost when a signed constant is cast to 64 bits and when an unsigned
    constant is cast to a wider signed type. *)
Theorem cast_fold_exact p q s1 s2 i :
  int_pod p = true -> int_pod q = true -> in_range (bits p) i ->
  fold_cast (CInteger i) (pod p s1) (pod q s2) = Ok (CInteger (emitted_cast p q s1 s2 i), pod q s2) <->
  s2 = false \/ bits q <= bits p \/ i < 2 ^ (bits p - 1) \/ (s1 = true /\ q <> INT64).
Proof.
  intros Hp Hq Hi. pose proof (range_64 p i Hp Hi) as H64. pose proof (bits_range p Hp) as Bp. pose proof (bits_range q Hq) as Bq.
  unfold fold_cast. rewrite cast_integer_spec by assumption. cbn [rbind].
  set (v := if bool_decide (q = INT64) then i else wrap (bits q) (if s1 && s2 then sext (bits p) i else i)).
  assert (He : emitted_cast p q s1 s2 i = wrap (bits q) (denotes p s2 i)) by (unfold emitted_cast; destruct s1, s2; reflexivity).
  transitivity (v = wrap (bits q) (denotes p s2 i)); [rewrite He; split; congruence |].
  assert (Hv : s1 = true /\ s2 = true /\ q <> INT64 \/ (~ (s1 = true /\ s2 = true /\ q <> INT64) /\ v = wrap (bits q) i)).
  { unfold v. case_bool_decide as Eq; [right; subst q; split; [tauto | symmetry; apply wrap_small; assumption] |].
    destruct s1, s2; auto; right; (split; [intros (? & ? & _); discriminate | reflexivity]). }
  assert (Hd : denotes p s2 i = if s2 then sext (bits p) i else i)
    by (unfold denotes; destruct s2; [reflexivity | apply wrap_small; assumption]).
  assert (Hle : bits q <= bits p -> wrap (bits q) (sext (bits p) i) = wrap (bits q) i).
  { intros Hle. rewrite <- (wrap_wrap_le (bits q) (bits p) (sext (bits p) i)), wrap_sext, wrap_wrap_le by lia. reflexivity. }
  assert (Hsext : sext (bits p) i = if i <? 2 ^ (bits p - 1) then i else i - 2 ^ bits p)
    by (unfold sext; rewrite wrap_small by assumption; reflexivity).
  rewrite Hd. destruct Hv as [(-> & -> & Hn) | [Hn ->]].
  - unfold v. rewrite bool_decide_false by assumption. cbn. split; [auto | reflexivity].
  - destruct s2; [| split; auto]. split; [| intros [| [H | [H | [-> H]]]]].
    + intros H. right. destruct (Z.le_gt_cases (bits q) (bits p)) as [| Hw]; [auto |]. right.
      destruct (Z.lt_ge_cases i (2 ^ (bits p - 1))) as [| Hneg]; [auto |]. exfalso. revert H.
      rewrite Hsext. destruct (Z.ltb_spec i (2 ^ (bits p - 1))); [lia |]. destruct Hi as [Hi0 Hi1].
      assert (2 ^ bits p < 2 ^ bits q) by (apply Z.pow_lt_mono_r; lia). unfold wrap.
      rewrite (Z.mod_small i) by lia. rewrite <- (Z_mod_plus_full (i - 2 ^ bits p) 1), Z.mod_small by lia. lia.
    + discriminate.
    + symmetry. apply Hle. assumption.
    + rewrite Hsext. apply Z.ltb_lt in H. rewrite H. reflexivity.
    + tauto.
Qed.

Lemma cast_fold_exact_witness :
  fold_cast (CInteger 0xff) IRTypes.Int8 IRTypes.Int64 = Ok (CInteger 0xff, IRTypes.Int64) /\
  emitted_cast INT8 INT64 true true 0xff = 0xffffffffffffffff /\
  (fold_cast (CInteger 0xff) IRTypes.Int8 IRTypes.Int64 = Ok (CInteger (emitted_cast INT8 INT64 true true 0xff), IRTypes.Int64) <->
   true = false \/ bits INT64 <= bits INT8 \/ 0xff < 2 ^ (bits INT8 - 1) \/ (true = true /\ INT64 <> INT64)).
Proof.
  split; [reflexivity |]. split; [reflexivity |].
  apply (cast_fold_exact INT8 INT64 true true 0xff); [reflexivity | reflexivity | split; reflexivity || lia].
Defined.

(** ** The interpreter agrees with the pass *)

Lemma same_int a b : same_type (CInteger a) (CInteger b) = true.
Proof. reflexivity. Qed.

(** [SetStatementValue] casts a value to the type of its statement. *)
Definition interp_binary_value (op : EBinaryOperator) (lhs_type rhs_type : IRType) (lhs rhs : IRConstant) : result IRConstant :=
  let* d := interp_binary op lhs_type rhs_type lhs rhs in
  let* ty := Resolve op lhs_type rhs_type in
  Cast d ty ty.

(** Whenever folding a binary statement on integer constants
    that is not a rotation succeeds, the SSA interpreter gives the statement
    the value of the folded constant. *)
Theorem interpreter_agrees_with_folding op lhs_type rhs_type a b c ty :
  op <> RotateLeft -> op <> RotateRight ->
  fold_binary op lhs_type rhs_type (CInteger a) (CInteger b) = Ok (c, ty) ->
  interp_binary_value op lhs_type rhs_type (CInteger a) (CInteger b) = Ok c.
Proof.
  intros Hl Hr. unfold fold_binary, interp_binary_value. destruct (IsFloating lhs_type || IsFloating rhs_type); [discriminate |].
  intros H. apply rbind_Ok in H as (ty' & Ety & H). apply rbind_Ok in H as (val & Ev & H). apply rbind_Ok in H as (c' & Ec & H).
  injection H as -> ->. enough (E : interp_binary op lhs_type rhs_type (CInteger a) (CInteger b) = Ok (CInteger val))
    by (rewrite E, Ety; exact Ec). clear Ec Ety.
  destruct op; try contradiction; cbn [fold_val rbind Int] in Ev; try discriminate Ev; cbn [interp_binary];
    unfold const_add, const_sub, const_mul, const_div, const_mod, const_and, const_or, const_xor, const_land, const_lor, const_shl,
      const_shr, const_gt, const_ge, const_lt, const_le, SSR, shl64, shr64 in *;
    cbn [apply_op]; rewrite ?same_int; cbn [arith int_op comparison_op on_int rbind Int const_eqb same_type Type_ integer_];
    rewrite ?bool_decide_true by reflexivity; cbn [andb rbind]; try (injection Ev as <-; reflexivity);
    repeat match goal with
    | |- context [if ?x then _ else _] => let E := fresh in destruct x eqn:E; try rewrite E in Ev
    | E : context [if ?x then _ else _] |- _ => let E' := fresh in destruct x eqn:E'; try rewrite E' in E
    end; try discriminate; try (injection Ev as <-); reflexivity.
Qed.

Lemma interpreter_agrees_with_folding_witness :
  fold_binary Add IRTypes.UInt8 IRTypes.UInt8 (CInteger 200) (CInteger 100) = Ok (CInteger 44, IRTypes.UInt8) /\
  interp_binary_value Add IRTypes.UInt8 IRTypes.UInt8 (CInteger 200) (CInteger 100) = Ok (CInteger 44).
Proof.
  split; [reflexivity |].
  apply (interpreter_agrees_with_folding Add IRTypes.UInt8 IRTypes.UInt8 200 100 (CInteger 44) IRTypes.UInt8);
    [discriminate | discriminate | reflexivity].
Defined.

(** The interpreter takes a rotation for a comparison, and negates for every
    unary operator. *)
Example interpreter_differs :
  interp_binary_value RotateLeft IRTypes.UInt32 IRTypes.UInt32 (CInteger 0x80000001) (CInteger 4) = Ok (CInteger 0) /\
  fold_binary RotateLeft IRTypes.UInt32 IRTypes.UInt32 (CInteger 0x80000001) (CInteger 4) = Ok (CInteger 0x18, IRTypes.UInt32) /\
  interp_unary OP_COMPLEMENT (CInteger 1) = Ok (CInteger 0xffffffffffffffff).
Proof. repeat split. Qed.

(** Comparing vectors of floats throws, since the results are integers; and two
    vectors are equal whatever they hold. *)
Example vector_comparisons :
  const_lt (CVector [CFloat (S754_zero false)]) (CVector [CFloat (S754_zero false)]) = Err AssertFailed /\
  const_eqb (CVector [CInteger 1]) (CVector [CInteger 2; CInteger 3]) = Ok true.
Proof. split; reflexivity. Qed.

(** Conversions between float and double are not taken for conversions. *)
Example float_to_double_is_extension :
  GetCastType Cast_Unknown IRTypes.Float IRTypes.Double = Ok Cast_ZeroExtend /\
  GetCastType Cast_Unknown IRTypes.Double IRTypes.Float = Ok Cast_Truncate /\
  GetCastType Cast_Unknown IRTypes.Float IRTypes.UInt32 = Ok Cast_Convert.
Proof. repeat split. Qed.
