(* ===== verification/SSAForm.v ===== *)
(** * GenC actions in SSA form

    The data of src/gensim/inc/genC/ssa (SSAFormAction, SSABlock, SSAStatement
    and its classes) and the queries on the control flow of an action.  Values
    (statements, blocks, symbols) are known by their addresses.  A statement
    keeps its operands in one vector, as the code does: blocks, statements and
    symbols alike; the targets of control flow are operands.  The uses of a
    value, which the code keeps in a list, are computed from the operands. *)

From stdpp Require Import base list numbers strings sorting gmap.
From Stdlib Require Import ZArith Lia.
From S2P Require Import Prelude IRTypes IRConstants ConstantFold.
#[local] Open Scope Z_scope.

Inductive SSAOperand :=
| ONull
| OStmt (s : Z)
| OBlock (b : Z)
| OSymbol (s : Z)
| OAction (a : Z).

#[export] Instance operand_eq_dec : EqDecision SSAOperand.
Proof. solve_decision. Defined.

(** The intrinsics that the interpreter of the tests knows; all others are
    [UnhandledIntrinsic]. *)
Inductive IntrinsicID :=
| GetFeature | GetCpuMode | ReadPC | FPGetFlush | FPGetRounding | FPSetFlush | FPSetRounding
| SetCpuMode | TakeException | PendInterrupt | Trap | WriteDevice32 | PopInterrupt | PushInterrupt
| EnterKernelMode | EnterUserMode | SetFeature
| PopCount32 | DoubleSqrt | FloatSqrt | UpdateZNFlags32 | UpdateZNFlags64
| ADC32 | ADC32_Flags | ADC64 | ADC64_Flags | CLZ32 | HaltCpu
| UnhandledIntrinsic (id : Z).

(** The class of a statement with the members that are not operands. *)
Inductive SSAKind :=
| SConstant (Constant : IRConstant) (type : IRType)
| SBinary (op : EBinaryOperator)
| SUnary (op : ESSAUnaryOperator)
| SCast (type : IRType) (cast_type : CastType)
| SSelect
| SPhi (type : IRType)
| SVariableRead
| SVariableWrite
| SVariableKill
| SRegister (IsRead IsBanked : bool) (Bank : Z)
| SMemoryRead (Width : Z) (Signed : bool)
| SMemoryWrite (Width : Z)
| SDeviceRead
| SIntrinsic (id : IntrinsicID) (type : IRType)
| SCall
| SReadStructMember (MemberNames : list string)
| SVectorExtractElement
| SVectorInsertElement
| SVectorShuffle
| SBitDeposit
| SBitExtract
| SJump
| SIf
| SSwitch
| SReturn
| SRaise.

Record SSAStatement := mkStmt {
  address : Z;
  kind : SSAKind;
  operands_ : list SSAOperand
}.

Record SSABlock := mkBlock {
  block_address : Z;
  Statements : list SSAStatement
}.

(** [new_address] is the next address the allocator gives out. *)
Record SSAFormAction := mkAction {
  EntryBlock : Z;
  blocks_ : list SSABlock;
  _symbols : list (Z * IRType);
  new_address : Z;
  ParamSymbols : list Z;
  ReturnType : IRType
}.

Definition with_blocks (l : list SSABlock) (a : SSAFormAction) : SSAFormAction :=
  mkAction (EntryBlock a) l (_symbols a) (new_address a) (ParamSymbols a) (ReturnType a).
Definition with_statements (l : list SSAStatement) (b : SSABlock) : SSABlock := mkBlock (block_address b) l.
Definition block_ids (a : SSAFormAction) : list Z := map block_address (blocks_ a).

(** The object at an address. *)
Definition find_block (a : SSAFormAction) (b : Z) : option SSABlock :=
  List.find (fun x => block_address x =? b) (blocks_ a).
Definition all_statements (a : SSAFormAction) : list SSAStatement := concat (map Statements (blocks_ a)).
Definition find_statement (a : SSAFormAction) (s : Z) : option SSAStatement :=
  List.find (fun x => address x =? s) (all_statements a).

(** A pointer to a block that is followed. *)
Definition deref_block (a : SSAFormAction) (b : Z) : result SSABlock := of_option UndefinedBehaviour (find_block a b).

(** The elements of a [std::set] of pointers, in the order of the set. *)
Definition as_set (l : list Z) : list Z := merge_sort Z.le (remove_dups l).

(** ** Statements *)

Definition is_controlflow (s : SSAStatement) : bool :=
  match kind s with SJump | SIf | SSwitch | SReturn | SRaise => true | _ => false end.

Definition HasSideEffects (s : SSAStatement) : bool :=
  match kind s with
  | SConstant _ _ | SBinary _ | SUnary _ | SCast _ _ | SPhi _ | SVariableRead | SReadStructMember _ | SVectorExtractElement => false
  | _ => true
  end.

Definition GetOperand (s : SSAStatement) (i : Z) : result SSAOperand := at_ (operands_ s) i.

(** [(SSABlock* )GetOperand(i)], used as a block. *)
Definition block_operand (s : SSAStatement) (i : Z) : result Z :=
  let* o := GetOperand s i in
  match o with OBlock b => Ok b | _ => Err UndefinedBehaviour end.
Definition stmt_operand (s : SSAStatement) (i : Z) : result Z :=
  let* o := GetOperand s i in
  match o with OStmt x => Ok x | _ => Err UndefinedBehaviour end.

(** [SSAStatement::Replace]: every operand that is [find]. *)
Definition replace_operand (find replace o : SSAOperand) : SSAOperand := if bool_decide (o = find) then replace else o.
Definition Replace (s : SSAStatement) (find replace : SSAOperand) : SSAStatement * bool :=
  (mkStmt (address s) (kind s) (map (replace_operand find replace) (operands_ s)),
   bool_decide (find ∈ operands_ s)).

(** The operands 1, 3, 5, ... of a switch. *)
Fixpoint odd_operands (ops : list SSAOperand) : list SSAOperand :=
  match ops with
  | _ :: o :: r => o :: odd_operands r
  | _ => []
  end.

(** The blocks among a list of operands that must be blocks. *)
Fixpoint as_blocks (ops : list SSAOperand) : result (list Z) :=
  match ops with
  | [] => Ok []
  | OBlock b :: r => let* l := as_blocks r in Ok (b :: l)
  | _ :: _ => Err AssertFailed
  end.

Definition GetTargets (s : SSAStatement) : result (list Z) :=
  match kind s with
  | SJump => let* b := block_operand s 0 in Ok [b]
  | SIf =>
      let* t := block_operand s 1 in
      let* f := block_operand s 2 in
      Ok (if t =? f then [t] else [t; f])
  | SSwitch => let* l := as_blocks (odd_operands (operands_ s)) in Ok (as_set l)
  | _ => Ok []
  end.

(** [SSASwitchStatement::GetValues]: the cases by the address of their value,
    in the order of the map; a later case for the same statement replaces an
    earlier one. *)
Fixpoint case_pairs (ops : list SSAOperand) : result (list (Z * Z)) :=
  match ops with
  | [] => Ok []
  | [_] => Err OutOfRange
  | OStmt v :: OBlock b :: r => let* l := case_pairs r in Ok ((v, b) :: l)
  | _ :: _ :: _ => Err UndefinedBehaviour
  end.
Definition last_value (l : list (Z * Z)) (v : Z) : option Z := option_map snd (List.find (fun p => fst p =? v) (rev l)).
Definition GetValues (s : SSAStatement) : result (list (Z * Z)) :=
  let* l := case_pairs (drop 2 (operands_ s)) in
  Ok (omap (fun v => option_map (pair v) (last_value l v)) (as_set (map fst l))).

(** ** Blocks and the control-flow graph *)

Definition GetControlFlow (b : SSABlock) : option SSAStatement :=
  match last (Statements b) with
  | Some s => if is_controlflow s then Some s else None
  | None => None
  end.

Definition GetSuccessors (b : SSABlock) : result (list Z) :=
  match Statements b with
  | [] => Ok []
  | _ => match GetControlFlow b with Some s => GetTargets s | None => Err LogicError end
  end.

(** A block is a predecessor once for every time it names the successor. *)
Fixpoint predecessors_in (l : list SSABlock) (b : Z) : result (list Z) :=
  match l with
  | [] => Ok []
  | x :: r =>
      let* succs := GetSuccessors x in
      let* preds := predecessors_in r b in
      Ok (map (fun _ => block_address x) (List.filter (Z.eqb b) succs) ++ preds)
  end.
Definition GetPredecessors (a : SSAFormAction) (b : Z) : result (list Z) := predecessors_in (blocks_ a) b.

(** [SuccessorAnalysis] and [PredecessorAnalysis] of
    ControlFlowGraphAnalyses.cpp. *)
Fixpoint BuildSuccessors (l : list SSABlock) : result (gmap Z (list Z)) :=
  match l with
  | [] => Ok ∅
  | b :: r =>
      let* succs := GetSuccessors b in
      let* m := BuildSuccessors r in
      Ok (<[block_address b := succs]> m)
  end.
Fixpoint add_predecessor (b : Z) (succs : list Z) (m : gmap Z (list Z)) : gmap Z (list Z) :=
  match succs with
  | [] => m
  | x :: r => add_predecessor b r (<[x := default [] (m !! x) ++ [b]]> m)
  end.
Fixpoint add_predecessors (l : list SSABlock) (successors m : gmap Z (list Z)) : result (gmap Z (list Z)) :=
  match l with
  | [] => Ok m
  | b :: r =>
      let* succs := of_option OutOfRange (successors !! block_address b) in
      add_predecessors r successors (add_predecessor (block_address b) succs m)
  end.
Definition BuildPredecessors (a : SSAFormAction) : result (gmap Z (list Z)) :=
  let* successors := BuildSuccessors (blocks_ a) in
  add_predecessors (blocks_ a) successors (list_to_map (map (fun b => (block_address b, [])) (blocks_ a))).

Definition AddBlock (a : SSAFormAction) (b : SSABlock) : result SSAFormAction :=
  if bool_decide (block_address b ∈ block_ids a) then Err LogicError else Ok (with_blocks (blocks_ a ++ [b]) a).

Definition RemoveBlock (a : SSAFormAction) (b : Z) : result SSAFormAction :=
  if b =? EntryBlock a then Err LogicError
  else if negb (bool_decide (b ∈ block_ids a)) then Err LogicError
  else Ok (with_blocks (List.filter (fun x => negb (block_address x =? b)) (blocks_ a)) a).

(** [Dispose] of a value that is still an operand of some statement throws. *)
Definition has_uses (a : SSAFormAction) (o : SSAOperand) : bool :=
  existsb (fun s => bool_decide (o ∈ operands_ s)) (all_statements a).
Definition Dispose (a : SSAFormAction) (o : SSAOperand) : result unit :=
  if has_uses a o then Err LogicError else Ok tt.

Definition update_block (a : SSAFormAction) (b : Z) (f : SSABlock -> SSABlock) : SSAFormAction :=
  with_blocks (map (fun x => if block_address x =? b then f x else x) (blocks_ a)) a.
