(* ===== verification/SSAMachine.v ===== *)
(** * The machine state of the SSA interpreter

    src/gensim/src/genC/ssa/testing/MachineState.cpp and MachineState.h: a
    register file and a memory of bytes.  Bytes that were never written have a
    value made from their address, and reading one stores it. *)

From stdpp Require Import base list numbers gmap.
From Stdlib Require Import ZArith Lia.
From S2P Require Import Prelude.
#[local] Open Scope Z_scope.

Record RegisterFileState := mkRegs { data_ : gmap Z Z; size_ : Z; _wrap : bool }.
Abbreviation MemoryState := (gmap Z Z).
Record MachineState := mkMachine { regfile : RegisterFileState; memory : MemoryState }.

(** ** Code that throws after it has changed the state

    The accesses to the register file are caught by their caller, so the state
    is kept with the exception. *)
Definition stateful (S A : Type) : Type := S -> S * result A.
Definition sret {S A} (x : A) : stateful S A := fun s => (s, Ok x).
Definition sbind {S A B} (m : stateful S A) (k : A -> stateful S B) : stateful S B :=
  fun s => let '(s1, r) := m s in match r with Ok x => k x s1 | Err e => (s1, Err e) end.
Notation "'do*' x ':=' m 'in' k" := (sbind m (fun x => k)) (at level 10, x pattern, m at level 100, k at level 200) : gensim_scope.

(** ** The register file *)

Definition in_file (offset : Z) (s : RegisterFileState) : result unit :=
  check* _wrap s || (offset <? size_ s) or LogicError in
  check* negb (size_ s =? 0) or UndefinedBehaviour in Ok tt.

Definition regs_ReadByte (offset : Z) : stateful RegisterFileState Z := fun s =>
  match in_file offset s with
  | Err e => (s, Err e)
  | Ok _ =>
      let o := offset mod size_ s in
      match data_ s !! o with
      | Some b => (s, Ok b)
      | None => (mkRegs (<[o := Z.land o 255]> (data_ s)) (size_ s) (_wrap s), Ok (Z.land o 255))
      end
  end.
Definition regs_WriteByte (offset data : Z) : stateful RegisterFileState unit := fun s =>
  match in_file offset s with
  | Err e => (s, Err e)
  | Ok _ => (mkRegs (<[offset mod size_ s := data]> (data_ s)) (size_ s) (_wrap s), Ok tt)
  end.

(** [n] bytes from [offset + i] on. *)
Fixpoint regs_Read (offset i : Z) (n : nat) : stateful RegisterFileState (list Z) :=
  match n with
  | O => sret []
  | S k =>
      do* b := regs_ReadByte (u32 (offset + i)) in
      do* r := regs_Read offset (i + 1) k in
      sret (b :: r)
  end.
Fixpoint regs_Write (offset i : Z) (data : list Z) : stateful RegisterFileState unit :=
  match data with
  | [] => sret tt
  | b :: r => do* _ := regs_WriteByte (u32 (offset + i)) b in regs_Write offset (i + 1) r
  end.

Definition regs_Reset (s : RegisterFileState) : RegisterFileState := mkRegs ∅ (size_ s) (_wrap s).
Definition regs_IsSet (s : RegisterFileState) (offset : Z) : bool := bool_decide (is_Some (data_ s !! offset)).
Definition regs_Equals (s t : RegisterFileState) : bool := bool_decide (data_ s = data_ t).

(** ** Memory *)

Definition default_byte (addr : Z) : Z := Z.lxor (Z.land addr 255) (Z.land (Z.shiftr addr 8) 255).
Definition mem_ReadByte (addr : Z) (m : MemoryState) : MemoryState * Z :=
  match m !! addr with
  | Some b => (m, b)
  | None => (<[addr := default_byte addr]> m, default_byte addr)
  end.
Definition mem_WriteByte (addr value : Z) (m : MemoryState) : MemoryState := <[addr := value]> m.

Fixpoint mem_Read (addr i : Z) (n : nat) (m : MemoryState) : MemoryState * list Z :=
  match n with
  | O => (m, [])
  | S k =>
      let '(m1, b) := mem_ReadByte (u64 (addr + i)) m in
      let '(m2, r) := mem_Read addr (i + 1) k m1 in
      (m2, b :: r)
  end.
Fixpoint mem_Write (addr i : Z) (data : list Z) (m : MemoryState) : MemoryState :=
  match data with
  | [] => m
  | b :: r => mem_Write addr (i + 1) r (mem_WriteByte (u64 (addr + i)) b m)
  end.
Definition mem_Equals (m n : MemoryState) : bool := bool_decide (m = n).

Definition machine_Reset (s : MachineState) : MachineState := mkMachine (regs_Reset (regfile s)) ∅.
Definition machine_Equals (s t : MachineState) : bool := regs_Equals (regfile s) (regfile t) && mem_Equals (memory s) (memory t).

(** ** Bytes of an integer, the lowest first *)

Fixpoint to_bytes (n : nat) (z : Z) : list Z := match n with O => [] | S k => u8 z :: to_bytes k (Z.shiftr z 8) end.
Fixpoint of_bytes (l : list Z) : Z := match l with [] => 0 | b :: r => b .| Z.shiftl (of_bytes r) 8 end.

Lemma to_bytes_range n z : Forall (in_range 8) (to_bytes n z).
Proof. revert z. induction n; intros z; constructor; [apply wrap_range; lia | apply IHn]. Qed.

Lemma of_to_bytes n z : of_bytes (to_bytes n z) = wrap (8 * Z.of_nat n) z.
Proof.
  revert z. induction n as [| n IH]; intros z; cbn [to_bytes of_bytes]; [unfold wrap; rewrite Z.mod_1_r; reflexivity |].
  rewrite IH. apply Z.bits_inj'. intros i Hi. rewrite Z.lor_spec, Z.shiftl_spec by assumption. unfold u8.
  rewrite !testbit_wrap by lia. destruct (Z.ltb_spec i 8).
  - rewrite (Z.testbit_neg_r (Z.shiftr z 8)) by lia. rewrite andb_false_r, orb_false_r.
    destruct (Z.ltb_spec i (8 * Z.of_nat (S n))); [reflexivity | lia].
  - rewrite Z.shiftr_spec by lia. replace (i - 8 + 8) with i by lia. cbn [andb orb]. f_equal.
    destruct (Z.ltb_spec (i - 8) (8 * Z.of_nat n)), (Z.ltb_spec i (8 * Z.of_nat (S n))); try lia; reflexivity.
Qed.

(** ** Memory *)

(** What a read of a byte gives. *)
Definition view (m : MemoryState) (addr : Z) : Z := default (default_byte addr) (m !! addr).

Lemma u64_offset_inj addr i j : 0 <= i < 2 ^ 64 -> 0 <= j < 2 ^ 64 -> u64 (addr + i) = u64 (addr + j) -> i = j.
Proof.
  intros Hi Hj E. unfold u64, wrap in E. assert (H : (i - j) mod 2 ^ 64 = 0).
  { replace (i - j) with ((addr + i) - (addr + j)) by lia. rewrite Zminus_mod, E, Z.sub_diag. reflexivity. }
  apply Z.mod_divide in H as [k Hk]; [| lia]. assert (k = 0) by lia. lia.
Qed.

Lemma mem_Write_lookup addr data : forall i m x, 0 <= i -> i + Z.of_nat (length data) <= 2 ^ 64 ->
  (forall k b, data !! k = Some b -> mem_Write addr i data m !! u64 (addr + (i + Z.of_nat k)) = Some b) /\
  ((forall k, (k < length data)%nat -> x <> u64 (addr + (i + Z.of_nat k))) -> mem_Write addr i data m !! x = m !! x).
Proof.
  induction data as [| b data IH]; intros i m x Hi Hl; cbn [mem_Write length] in *; [split; [intros k b H; discriminate | reflexivity] |].
  split.
  - intros k c Hk. destruct k as [| k].
    + injection Hk as <-. destruct (IH (i + 1) (mem_WriteByte (u64 (addr + i)) b m) (u64 (addr + i)) ltac:(lia) ltac:(lia)) as [_ H2].
      change (Z.of_nat 0) with 0. rewrite Z.add_0_r, H2; [apply lookup_insert_eq |]. intros k Hk E. apply u64_offset_inj in E; lia.
    + destruct (IH (i + 1) (mem_WriteByte (u64 (addr + i)) b m) x ltac:(lia) ltac:(lia)) as [H1 _]. specialize (H1 k c Hk).
      replace (i + Z.of_nat (S k)) with (i + 1 + Z.of_nat k) by lia. exact H1.
  - intros Hx. destruct (IH (i + 1) (mem_WriteByte (u64 (addr + i)) b m) x ltac:(lia) ltac:(lia)) as [_ H2]. rewrite H2.
    + apply lookup_insert_ne. intros E. apply (Hx O ltac:(lia)). rewrite Z.add_0_r. auto.
    + intros k Hk E. apply (Hx (S k) ltac:(lia)). replace (i + Z.of_nat (S k)) with (i + 1 + Z.of_nat k) by lia. exact E.
Qed.

Lemma mem_Read_present addr data : forall i m, (forall k b, data !! k = Some b -> m !! u64 (addr + (i + Z.of_nat k)) = Some b) ->
  mem_Read addr i (length data) m = (m, data).
Proof.
  induction data as [| b data IH]; intros i m H; cbn [mem_Read length]; [reflexivity |]. unfold mem_ReadByte.
  pose proof (H O b eq_refl) as H0. rewrite Z.add_0_r in H0. rewrite H0. rewrite IH; [reflexivity |]. intros k c Hk.
  replace (i + 1 + Z.of_nat k) with (i + Z.of_nat (S k)) by lia. apply (H (S k) c Hk).
Qed.

Lemma mem_Read_view addr n : forall i m, let '(m', l) := mem_Read addr i n m in
  (forall x, view m' x = view m x) /\ l = map (fun k => view m (u64 (addr + (i + Z.of_nat k)))) (seq 0 n).
Proof.
  induction n as [| n IH]; intros i m; cbn [mem_Read]; [auto |]. unfold mem_ReadByte.
  assert (Hs : forall b m1, (forall x, view m1 x = view m x) -> b = view m (u64 (addr + i)) ->
    let '(m2, r) := mem_Read addr (i + 1) n m1 in (forall x, view m2 x = view m x) /\ b :: r = map (fun k => view m (u64 (addr + (i + Z.of_nat k)))) (seq 0 (S n))).
  { intros b m1 Hv ->. specialize (IH (i + 1) m1). destruct (mem_Read addr (i + 1) n m1) as [m2 r]. destruct IH as [H1 ->].
    split; [intros x; rewrite H1; apply Hv |]. cbn [seq map]. rewrite Z.add_0_r. f_equal. rewrite <- seq_shift, map_map. apply map_ext. intros k.
    rewrite Hv. do 2 f_equal. lia. }
  destruct (m !! u64 (addr + i)) as [b |] eqn:E.
  - specialize (Hs b m (fun _ => eq_refl)). destruct (mem_Read addr (i + 1) n m). apply Hs. unfold view. rewrite E. reflexivity.
  - specialize (Hs (default_byte (u64 (addr + i))) (<[u64 (addr + i) := default_byte (u64 (addr + i))]> m)).
    destruct (mem_Read addr (i + 1) n _). apply Hs; [| unfold view; rewrite E; reflexivity]. intros x. unfold view.
    destruct (decide (x = u64 (addr + i))) as [-> | Hne]; [rewrite lookup_insert_eq, E; reflexivity | rewrite lookup_insert_ne by congruence; reflexivity].
Qed.

(** Reading back the bytes that were written gives them and changes
    nothing, at any address, even where the range wraps around; and a read of
    memory changes no byte that a later read can see. *)
Theorem memory_round_trip addr z n m :
  let data := to_bytes n z in
  Z.of_nat n <= 2 ^ 64 ->
  mem_Read addr 0 n (mem_Write addr 0 data m) = (mem_Write addr 0 data m, data) /\ of_bytes data = wrap (8 * Z.of_nat n) z /\
  forall x, view (fst (mem_Read addr 0 n m)) x = view m x.
Proof.
  intros data Hn. assert (El : length data = n) by (unfold data; clear; revert z; induction n; intros z; cbn; auto).
  split; [| split; [apply of_to_bytes |]].
  - rewrite <- El at 1. apply mem_Read_present. apply (mem_Write_lookup addr data 0 m 0); lia.
  - pose proof (mem_Read_view addr n 0 m) as H. destruct (mem_Read addr 0 n m) as [m' l]. apply H.
Qed.

Lemma memory_round_trip_witness :
  of_bytes (snd (mem_Read 18446744073709551614 0 4 (mem_Write 18446744073709551614 0 (to_bytes 4 305419896) ∅))) = 305419896 /\
  mem_Read 18446744073709551614 0 4 (mem_Write 18446744073709551614 0 (to_bytes 4 305419896) ∅) =
    (mem_Write 18446744073709551614 0 (to_bytes 4 305419896) ∅, to_bytes 4 305419896) /\
  of_bytes (to_bytes 4 305419896) = wrap 32 305419896 /\ forall x, view (fst (mem_Read 18446744073709551614 0 4 ∅)) x = view ∅ x.
Proof. split; [vm_compute; reflexivity |]. apply (memory_round_trip 18446744073709551614 305419896 4 ∅). vm_compute. discriminate. Defined.

(** The comparison of machine states sees the read all the same: a machine that
    read a byte and one that did not are different. *)
Example reading_is_seen :
  let m := ∅ : MemoryState in
  mem_Equals (fst (mem_Read 256 0 1 m)) m = false /\ forall x, view (fst (mem_Read 256 0 1 m)) x = view m x.
Proof. split; [vm_compute; reflexivity |]. intros x. pose proof (mem_Read_view 256 1 0 ∅) as H. destruct (mem_Read 256 0 1 ∅) as [m' l]. apply H. Qed.
