(* ===== verification/SSAReach.v ===== *)
(** * Reachability and loops

    ReachabilityAnalysis.cpp and LoopAnalysis.cpp of
    src/gensim/src/genC/ssa/analysis: the blocks that can be reached from a set
    of blocks, and whether a loop can be reached from the entry. *)

From stdpp Require Import base list numbers gmap relations sorting.
From Stdlib Require Import ZArith Lia.
From S2P Require Import Prelude IRTypes IRConstants ConstantFold SSAForm.
#[local] Open Scope Z_scope.

(** ** The code *)

(** The successors of a block with statements and control flow; none
    otherwise. *)
Definition next_blocks (b : SSABlock) : result (list Z) :=
  match Statements b, GetControlFlow b with
  | [], _ | _, None => Ok []
  | _, Some _ => GetSuccessors b
  end.

(** The loop of [GetReachable]; the back of [work_list] is the head of the
    list. *)
Fixpoint reach_loop (fuel : nat) (a : SSAFormAction) (work_list : list Z) (processed_blocks : gset Z)
    (is_block_reachable : gmap Z bool) : result (gmap Z bool) :=
  match work_list with
  | [] => Ok is_block_reachable
  | block :: rest =>
      match fuel with
      | O => Err OutOfFuel
      | S n =>
          if bool_decide (block ∈ processed_blocks) then reach_loop n a rest processed_blocks is_block_reachable
          else
            let* b := deref_block a block in
            let* succs := next_blocks b in
            reach_loop n a (reverse succs ++ rest) ({[block]} ∪ processed_blocks) (<[block := true]> is_block_reachable)
      end
  end.

Definition GetReachable (fuel : nat) (a : SSAFormAction) (reachability_sources : list Z) : result (list Z) :=
  let sources := as_set reachability_sources in
  let start := list_to_map (map (fun b => (b, bool_decide (b ∈ reachability_sources))) (block_ids a)) in
  let* m := reach_loop fuel a (reverse sources) ∅ start in
  Ok (as_set (map fst (List.filter snd (map_to_list m)))).

(** The numbers of the blocks in LoopAnalysis.cpp.  [block_idxs[i] =
    block_idxs.size()] gives a block its position when the size is taken before
    the element is inserted ([size_first]) and one more when it is taken after;
    before C++17 either may happen. *)
Definition block_idx (size_first : bool) (a : SSAFormAction) (b : Z) : result Z :=
  of_option OutOfRange
    (option_map (fun p => Z.of_nat (fst p) + (if size_first then 0 else 1)) (list_find (eq b) (block_ids a))).

(** The vectors [visited] and [rec_stack]. *)
Abbreviation marks := (list bool * list bool)%type.

(** The loop over the successors of a block; [visit] is the call of
    [LoopExists] on a successor. *)
Fixpoint succ_loop (size_first : bool) (a : SSAFormAction) (visit : Z -> marks -> result (bool * marks)) (l : list Z) (st : marks)
  : result (bool * marks) :=
  match l with
  | [] => Ok (false, st)
  | succ :: l1 =>
      let* j := block_idx size_first a succ in
      let* v := vec_get (fst st) j in
      let* (found, st1) := if (v : bool) then Ok (false, st) else visit succ st in
      if (found : bool) then Ok (true, st1)
      else
        let* on_stack := vec_get (snd st1) j in
        if (on_stack : bool) then Ok (true, st1) else succ_loop size_first a visit l1 st1
  end.

(** [LoopExists(block, block_idxs, visited, rec_stack)]. *)
Fixpoint LoopExists_block (size_first : bool) (fuel : nat) (a : SSAFormAction) (block : Z) (st : marks) : result (bool * marks) :=
  match fuel with
  | O => Err OutOfFuel
  | S n =>
      let* i := block_idx size_first a block in
      let* seen := vec_get (fst st) i in
      let* (r, st1) :=
        if (seen : bool) then Ok (false, st)
        else
          let* visited := vec_set (fst st) i true in
          let* rec_stack := vec_set (snd st) i true in
          let* b := deref_block a block in
          let* succs := GetSuccessors b in
          succ_loop size_first a (fun succ st => LoopExists_block size_first n a succ st) succs (visited, rec_stack) in
      if (r : bool) then Ok (true, st1)
      else let* rec_stack := vec_set (snd st1) i false in Ok (false, (fst st1, rec_stack))
  end.

Definition LoopExists (size_first : bool) (fuel : nat) (a : SSAFormAction) : result bool :=
  let n := length (blocks_ a) in
  let* (r, _) := LoopExists_block size_first fuel a (EntryBlock a) (replicate n false, replicate n false) in
  Ok r.

(** ** The graph of an action *)

(** The successors as a total function, and actions whose targets exist. *)
Definition succs (a : SSAFormAction) (x : Z) : list Z :=
  match find_block a x with
  | Some b => match next_blocks b with Ok l => l | Err _ => [] end
  | None => []
  end.
Definition edge (a : SSAFormAction) (x y : Z) : Prop := y ∈ succs a x.

(** The blocks have different addresses and end in control flow to blocks of
    the action. *)
Record closed (a : SSAFormAction) : Prop := {
  cl_nodup : NoDup (block_ids a);
  cl_entry : EntryBlock a ∈ block_ids a;
  cl_succs : forall b, b ∈ blocks_ a -> exists l, GetSuccessors b = Ok l /\ forall y, y ∈ l -> y ∈ block_ids a
}.

Lemma find_block_elem a x b : find_block a x = Some b -> b ∈ blocks_ a /\ block_address b = x.
Proof.
  intros H. apply List.find_some in H as [H1 H2]. apply list_elem_of_In in H1. apply Z.eqb_eq in H2. auto.
Qed.

Lemma map_nodup_inj {A B} (f : A -> B) l x y : NoDup (map f l) -> x ∈ l -> y ∈ l -> f x = f y -> x = y.
Proof.
  induction l as [| z l IH]; intros Hd Hx Hy E; [inversion Hx |]. cbn in Hd. apply NoDup_cons in Hd as [Hz Hd].
  apply elem_of_cons in Hx as [-> | Hx]; apply elem_of_cons in Hy as [-> | Hy]; auto.
  - destruct Hz. rewrite E. apply list_elem_of_fmap. eauto.
  - destruct Hz. rewrite <- E. apply list_elem_of_fmap. eauto.
Qed.

Lemma find_block_ids a x : x ∈ block_ids a -> exists b, find_block a x = Some b.
Proof.
  unfold block_ids. intros H. apply list_elem_of_fmap in H as (b & -> & Hb). unfold find_block.
  destruct (List.find _ _) eqn:E; [eauto |]. apply list_elem_of_In in Hb. pose proof (List.find_none _ _ E b Hb) as Hn.
  cbn in Hn. rewrite Z.eqb_refl in Hn. discriminate.
Qed.

Lemma next_blocks_successors b l : GetSuccessors b = Ok l -> next_blocks b = Ok l.
Proof.
  unfold next_blocks, GetSuccessors. destruct (Statements b); [auto |]. destruct (GetControlFlow b); [auto | discriminate].
Qed.

Section Closed.
Context (a : SSAFormAction) (Ha : closed a).

(** Every block can be followed. *)
Lemma follow x : x ∈ block_ids a ->
  exists b, find_block a x = Some b /\ deref_block a x = Ok b /\ GetSuccessors b = Ok (succs a x) /\
    next_blocks b = Ok (succs a x) /\ forall y, y ∈ succs a x -> y ∈ block_ids a.
Proof.
  intros Hx. destruct (find_block_ids a x Hx) as (b & E). exists b. destruct (find_block_elem a x b E) as [Hb _].
  destruct (cl_succs a Ha b Hb) as (l & El & Hl). pose proof (next_blocks_successors b l El) as En.
  assert (Es : succs a x = l) by (unfold succs; rewrite E, En; reflexivity). rewrite Es. unfold deref_block. rewrite E. auto.
Qed.

Lemma find_own_block b : b ∈ blocks_ a -> find_block a (block_address b) = Some b.
Proof.
  intros Hb. destruct (find_block_ids a (block_address b)) as (c & E); [apply list_elem_of_fmap; eauto |]. rewrite E.
  destruct (find_block_elem a _ c E) as [Hc Ec]. f_equal. apply (map_nodup_inj block_address (blocks_ a)); try assumption.
  apply (cl_nodup a Ha).
Qed.

Lemma own_successors b : b ∈ blocks_ a -> GetSuccessors b = Ok (succs a (block_address b)).
Proof.
  intros Hb. destruct (follow (block_address b)) as (c & E & _ & Eg & _); [apply list_elem_of_fmap; eauto |].
  rewrite (find_own_block b Hb) in E. injection E as <-. exact Eg.
Qed.

Lemma edge_closed x y : edge a x y -> x ∈ block_ids a /\ y ∈ block_ids a.
Proof.
  intros H. assert (Hx : x ∈ block_ids a).
  { unfold edge, succs in H. destruct (find_block a x) as [b |] eqn:E; [| inversion H].
    destruct (find_block_elem a x b E) as [Hb <-]. apply list_elem_of_fmap. eauto. }
  split; [exact Hx |]. destruct (follow x Hx) as (b & _ & _ & _ & _ & Hs). apply Hs, H.
Qed.

Lemma rtc_edge_closed x y : rtc (edge a) x y -> x ∈ block_ids a -> y ∈ block_ids a.
Proof. induction 1 as [| x y z H _ IH]; [auto |]. intros _. apply IH. apply (edge_closed x y H). Qed.
End Closed.

(** ** Reachability *)

Lemma as_set_elem l x : x ∈ as_set l <-> x ∈ l.
Proof. unfold as_set. rewrite merge_sort_Permutation, elem_of_remove_dups. reflexivity. Qed.

Section Reach.
Context (a : SSAFormAction) (Ha : closed a).

(** The edges that leave blocks which are not yet processed. *)
Definition edges_left (processed : gset Z) : nat :=
  sum_list (map (fun x => if bool_decide (x ∈ processed) then 0%nat else length (succs a x)) (block_ids a)).

Lemma edges_left_step processed x :
  x ∈ block_ids a -> x ∉ processed -> (edges_left ({[x]} ∪ processed) + length (succs a x) = edges_left processed)%nat.
Proof.
  intros Hx Hn. unfold edges_left. pose proof (cl_nodup a Ha) as Hd. induction (block_ids a) as [| y l IH]; [inversion Hx |].
  apply NoDup_cons in Hd as [Hy Hd]. cbn [map sum_list sum_list_with]. apply elem_of_cons in Hx as [<- | Hx].
  - rewrite (bool_decide_true (x ∈ {[x]} ∪ processed)) by set_solver. rewrite (bool_decide_false (x ∈ processed)) by assumption.
    assert (E : map (fun z => if bool_decide (z ∈ {[x]} ∪ processed) then 0%nat else length (succs a z)) l
              = map (fun z => if bool_decide (z ∈ processed) then 0%nat else length (succs a z)) l).
    { apply map_ext_in. intros z Hz. apply list_elem_of_In in Hz. assert (z <> x) by congruence.
      rewrite (bool_decide_ext (z ∈ {[x]} ∪ processed) (z ∈ processed)) by set_solver. reflexivity. }
    cbn in E |- *. rewrite E. lia.
  - specialize (IH Hx Hd). assert (y <> x) by congruence.
    rewrite (bool_decide_ext (y ∈ {[x]} ∪ processed) (y ∈ processed)) by set_solver. cbn in IH |- *. lia.
Qed.

(** The state of the loop: what is marked has been processed or waits, what is
    processed has its successors processed or waiting, and everything can be
    reached from the sources. *)
Record reach_inv (sources : list Z) (work : list Z) (processed : gset Z) (m : gmap Z bool) : Prop := {
  ri_work : forall x, x ∈ work -> x ∈ block_ids a /\ exists s, s ∈ sources /\ rtc (edge a) s x;
  ri_done : forall x, x ∈ processed -> m !! x = Some true /\ forall y, edge a x y -> y ∈ processed \/ y ∈ work;
  ri_marked : forall x, m !! x = Some true -> (exists s, s ∈ sources /\ rtc (edge a) s x) /\ (x ∈ processed \/ x ∈ work);
  ri_sources : forall s, s ∈ sources -> s ∈ processed \/ s ∈ work
}.

Lemma reach_step sources x rest processed m :
  reach_inv sources (x :: rest) processed m -> x ∉ processed ->
  reach_inv sources (reverse (succs a x) ++ rest) ({[x]} ∪ processed) (<[x := true]> m).
Proof.
  intros [Hw Hd Hm Hs] Hn. destruct (Hw x ltac:(left)) as (Hx & s0 & Hs0 & Hr0).
  assert (Hsucc : forall y, y ∈ reverse (succs a x) ++ rest <-> edge a x y \/ y ∈ rest)
    by (intros y; rewrite elem_of_app, elem_of_reverse; reflexivity).
  assert (Hmove : forall y, y ∈ processed \/ y ∈ x :: rest -> y ∈ {[x]} ∪ processed \/ y ∈ reverse (succs a x) ++ rest).
  { intros y [Hy | Hy]; [left; set_solver |]. rewrite Hsucc. apply elem_of_cons in Hy as [-> | Hy]; [left; set_solver | auto]. }
  split.
  - intros y Hy. apply Hsucc in Hy as [Hy | Hy]; [| apply Hw; right; exact Hy].
    split; [apply (edge_closed a Ha x y Hy) |]. exists s0. split; [exact Hs0 |]. eapply rtc_r; eassumption.
  - intros y Hy. destruct (decide (y = x)) as [-> | Hne].
    + rewrite lookup_insert_eq. split; [reflexivity |]. intros z Hz. right. apply Hsucc. auto.
    + rewrite lookup_insert_ne by congruence. assert (Hp : y ∈ processed) by set_solver. destruct (Hd y Hp) as [H1 H2].
      split; [exact H1 |]. intros z Hz. apply Hmove, H2, Hz.
  - intros y Hy. destruct (decide (y = x)) as [-> | Hne]; [split; [eauto | left; set_solver] |].
    rewrite lookup_insert_ne in Hy by congruence. destruct (Hm y Hy) as [H1 H2]. split; [exact H1 | apply Hmove, H2].
  - intros s Hss. apply Hmove, Hs, Hss.
Qed.

Lemma reach_skip sources x rest processed m :
  reach_inv sources (x :: rest) processed m -> x ∈ processed -> reach_inv sources rest processed m.
Proof.
  intros [Hw Hd Hm Hs] Hx.
  assert (Hmove : forall y, y ∈ processed \/ y ∈ x :: rest -> y ∈ processed \/ y ∈ rest).
  { intros y [Hy | Hy]; [auto |]. apply elem_of_cons in Hy as [-> | Hy]; auto. }
  split.
  - intros y Hy. apply Hw. right. exact Hy.
  - intros y Hy. destruct (Hd y Hy) as [H1 H2]. split; [exact H1 | intros z Hz; apply Hmove, H2, Hz].
  - intros y Hy. destruct (Hm y Hy) as [H1 H2]. split; [exact H1 | apply Hmove, H2].
  - intros s Hss. apply Hmove, Hs, Hss.
Qed.

Lemma reach_loop_spec sources fuel work processed m :
  reach_inv sources work processed m -> (length work + edges_left processed <= fuel)%nat ->
  exists m' processed', reach_loop fuel a work processed m = Ok m' /\ reach_inv sources [] processed' m'.
Proof.
  revert work processed m. induction fuel as [| n IH]; intros [| x rest] processed m Hi Hf; cbn [reach_loop]; try (eexists _, _; eauto; fail);
    [cbn in Hf; lia |].
  cbn [length] in Hf. case_bool_decide as Hx; [apply (IH rest processed); [eapply reach_skip; eassumption | lia] |].
  destruct (ri_work _ _ _ _ Hi x ltac:(left)) as [Hn _]. destruct (follow a Ha x Hn) as (b & _ & Ed & _ & En & _). rewrite Ed. cbn [rbind].
  rewrite En. cbn [rbind].
  apply IH; [apply reach_step; assumption |]. rewrite length_app, length_reverse. pose proof (edges_left_step processed x Hn Hx). lia.
Qed.
End Reach.

(** The number of steps [GetReachable] needs: the sources and the edges. *)
Definition reach_fuel (a : SSAFormAction) (sources : list Z) : nat := length (as_set sources) + edges_left a ∅.

(** On an action whose targets are blocks of it, the reachability
    analysis ends within as many steps as there are sources and edges and
    returns exactly the blocks that can be reached from the sources. *)
Theorem GetReachable_exact a sources fuel :
  closed a -> (forall s, s ∈ sources -> s ∈ block_ids a) -> (reach_fuel a sources <= fuel)%nat ->
  exists l, GetReachable fuel a sources = Ok l /\ forall x, x ∈ l <-> exists s, s ∈ sources /\ rtc (edge a) s x.
Proof.
  intros Ha Hs Hf. unfold GetReachable.
  set (start := list_to_map (map (fun b => (b, bool_decide (b ∈ sources))) (block_ids a)) : gmap Z bool).
  assert (Hstart : forall x, start !! x = Some true -> x ∈ sources).
  { intros x Hx. apply elem_of_list_to_map_2, list_elem_of_fmap in Hx as (y & [= -> E] & _). symmetry in E.
    apply bool_decide_eq_true in E. exact E. }
  destruct (reach_loop_spec a Ha sources fuel (reverse (as_set sources)) ∅ start) as (m & done & E & Hi).
  - split.
    + intros x Hx. rewrite elem_of_reverse, as_set_elem in Hx. split; [auto |]. exists x. split; [exact Hx | constructor].
    + intros x Hx. set_solver.
    + intros x Hx. apply Hstart in Hx. split; [exists x; split; [exact Hx | constructor] |]. right.
      rewrite elem_of_reverse, as_set_elem. exact Hx.
    + intros s Hss. right. rewrite elem_of_reverse, as_set_elem. exact Hss.
  - rewrite length_reverse. exact Hf.
  - rewrite E. cbn [rbind]. eexists. split; [reflexivity |]. intros x. rewrite as_set_elem.
    assert (Hx : x ∈ map fst (List.filter snd (map_to_list m)) <-> m !! x = Some true).
    { split.
      - intros H. apply list_elem_of_fmap in H as ([y b] & -> & H). apply list_elem_of_In, filter_In in H as [H1 H2].
        cbn in H2. subst b. apply elem_of_map_to_list, list_elem_of_In, H1.
      - intros H. apply list_elem_of_fmap. exists (x, true). split; [reflexivity |]. apply list_elem_of_In, filter_In.
        split; [apply list_elem_of_In, elem_of_map_to_list, H | reflexivity]. }
    rewrite Hx. split; [intros H; apply (ri_marked _ _ _ _ _ Hi x H) |].
    intros (s & Hss & Hr). enough (Hd : x ∈ done) by apply (ri_done _ _ _ _ _ Hi x Hd).
    assert (Hdone : s ∈ done) by (destruct (ri_sources _ _ _ _ _ Hi s Hss) as [| H]; [assumption | inversion H]).
    clear Hss Hx. induction Hr as [| x y z Hxy _ IH]; [exact Hdone |]. apply IH.
    destruct (proj2 (ri_done _ _ _ _ _ Hi x Hdone) y Hxy) as [| H]; [assumption | inversion H].
Qed.

(** A loop from block 1 to itself through 2, a block 3 after it and a block 4
    that nothing goes to. *)
Definition loop_example : SSAFormAction :=
  mkAction 1
    [mkBlock 1 [mkStmt 10 (SConstant (CInteger 1) IRTypes.UInt8) []; mkStmt 11 SIf [OStmt 10; OBlock 2; OBlock 3]];
     mkBlock 2 [mkStmt 20 SJump [OBlock 1]]; mkBlock 3 [mkStmt 30 SReturn [ONull]]; mkBlock 4 [mkStmt 40 SJump [OBlock 3]]]
    [] 100 [] IRTypes.Void.

Lemma closed_check a :
  bool_decide (NoDup (block_ids a)) && bool_decide (EntryBlock a ∈ block_ids a) &&
  forallb (fun b => match GetSuccessors b with Ok l => forallb (fun y => bool_decide (y ∈ block_ids a)) l | Err _ => false end)
    (blocks_ a) = true -> closed a.
Proof.
  intros H. apply andb_true_iff in H as [H H3]. apply andb_true_iff in H as [H1 H2]. apply bool_decide_eq_true in H1, H2.
  split; [assumption .. |]. intros b Hb. rewrite forallb_forall in H3. apply list_elem_of_In in Hb. specialize (H3 b Hb). cbn in H3.
  destruct (GetSuccessors b) as [l |]; [| discriminate]. exists l. split; [reflexivity |]. intros y Hy.
  rewrite forallb_forall in H3. apply list_elem_of_In in Hy. specialize (H3 y Hy). apply bool_decide_eq_true in H3. exact H3.
Qed.

Lemma loop_example_closed : closed loop_example.
Proof. apply closed_check. reflexivity. Qed.

Lemma GetReachable_exact_witness :
  GetReachable 10 loop_example [1] = Ok [1; 2; 3] /\
  exists l, GetReachable 10 loop_example [1] = Ok l /\ forall x, x ∈ l <-> exists s, s ∈ [1] /\ rtc (edge loop_example) s x.
Proof.
  split; [vm_compute; reflexivity |]. apply GetReachable_exact; [apply loop_example_closed | | vm_compute; lia].
  intros s Hs. apply list_elem_of_singleton in Hs as ->. apply (bool_decide_unpack _). exact I.
Defined.

(** ** Loops *)

Section Loops.
Context (a : SSAFormAction) (Ha : closed a).
Abbreviation ids := (block_ids a).
Abbreviation n := (length (blocks_ a)).

(** The mark of a block. *)
Definition flag (v : list bool) (x : Z) : bool :=
  match list_find (eq x) ids with Some (k, _) => default false (v !! k) | None => false end.

(** How the marks are read and written. *)
Lemma block_idx_spec x : x ∈ ids ->
  exists i, block_idx true a x = Ok i /\
    forall v, length v = n -> vec_get v i = Ok (flag v x) /\
      forall b, exists v', vec_set v i b = Ok v' /\ length v' = n /\ flag v' x = b /\ forall y, y <> x -> flag v' y = flag v y.
Proof.
  intros Hx. unfold block_idx. destruct (list_find (eq x) ids) as [[k z] |] eqn:E.
  2: { exfalso. eapply list_find_None in E. rewrite Forall_forall in E. exact (E x Hx eq_refl). }
  pose proof E as E0. apply list_find_Some in E as (Hk & <- & _). cbn [option_map fst of_option]. rewrite Z.add_0_r.
  exists (Z.of_nat k). split; [reflexivity |]. intros v Hv.
  assert (Hlt : (k < n)%nat) by (apply lookup_lt_Some in Hk; unfold block_ids in Hk; rewrite length_map in Hk; exact Hk).
  destruct (lookup_lt_is_Some_2 v k ltac:(lia)) as (c & Hc). unfold vec_get, vec_set, set_at.
  replace (Z.of_nat k <? 0) with false by (symmetry; apply Z.ltb_ge; lia). rewrite Nat2Z.id, Hc. cbn [of_option].
  split; [unfold flag; rewrite E0, Hc; reflexivity |]. intros b. eexists.
  replace ((0 <=? Z.of_nat k) && (Z.of_nat k <? Z.of_nat (length v))) with true
    by (symmetry; apply andb_true_iff; split; [apply Z.leb_le | apply Z.ltb_lt]; lia).
  split; [reflexivity |]. split; [rewrite length_insert; exact Hv |]. split.
  - unfold flag. rewrite E0, list_lookup_insert_eq by lia. reflexivity.
  - intros y Hy. unfold flag. destruct (list_find (eq y) ids) as [[j z] |] eqn:Ej; [| reflexivity].
    apply list_find_Some in Ej as (Hj & <- & _). rewrite list_lookup_insert_ne; [reflexivity |]. intros <-. congruence.
Qed.

(** Blocks that have been finished: visited and not on the stack. *)
Definition black (st : marks) (x : Z) : Prop := flag (fst st) x = true /\ flag (snd st) x = false.

Record dfs_inv (st : marks) : Prop := {
  di_visited : length (fst st) = n;
  di_stack : length (snd st) = n;
  di_sub : forall x, x ∈ ids -> flag (snd st) x = true -> flag (fst st) x = true;
  di_black : forall x, x ∈ ids -> black st x -> (forall y, edge a x y -> black st y) /\ ~ tc (edge a) x x
}.

Lemma black_closed st x y : dfs_inv st -> x ∈ ids -> rtc (edge a) x y -> black st x -> black st y.
Proof.
  intros Hi Hx Hr. induction Hr as [| x y z Hxy _ IH]; [auto |]. intros Hb. apply IH; [apply (edge_closed a Ha x y Hxy) |].
  apply (proj1 (di_black st Hi x Hx Hb)), Hxy.
Qed.

(** What a search from [x] leaves behind when it found no loop. *)
Record searched (st st' : marks) : Prop := {
  se_inv : dfs_inv st';
  se_mono : forall y, flag (fst st) y = true -> flag (fst st') y = true;
  se_stack : forall y, flag (snd st') y = flag (snd st) y
}.

Lemma searched_refl st : dfs_inv st -> searched st st.
Proof. split; auto. Qed.
Lemma searched_trans st1 st2 st3 : searched st1 st2 -> searched st2 st3 -> searched st1 st3.
Proof. intros [? M1 S1] [? M2 S2]. split; [assumption | auto | intros y; rewrite S2; apply S1]. Qed.

Definition loop_from (x : Z) : Prop := exists z, rtc (edge a) x z /\ tc (edge a) z z.
Definition unvisited (st : marks) : nat := length (List.filter (fun x => negb (flag (fst st) x)) ids).

Lemma unvisited_le (st st' : marks) l : (forall y, flag (fst st) y = true -> flag (fst st') y = true) ->
  (length (List.filter (fun x => negb (flag (fst st') x)) l) <= length (List.filter (fun x => negb (flag (fst st) x)) l))%nat.
Proof.
  intros H. induction l as [| x l IH]; [cbn; lia |]. cbn. specialize (H x).
  destruct (flag (fst st) x) eqn:E; [rewrite H by reflexivity; exact IH |]. destruct (flag (fst st') x); cbn; lia.
Qed.

Lemma unvisited_mark (st st' : marks) x : x ∈ ids -> flag (fst st) x = false -> flag (fst st') x = true ->
  (forall y, flag (fst st) y = true -> flag (fst st') y = true) -> (unvisited st' < unvisited st)%nat.
Proof.
  intros Hx H1 H2 H. unfold unvisited. induction ids as [| y l IH]; [inversion Hx |]. cbn.
  pose proof (unvisited_le st st' l H) as Hl. apply elem_of_cons in Hx as [<- | Hx].
  - rewrite H1, H2. cbn. lia.
  - specialize (IH Hx). destruct (flag (fst st) y) eqn:E; [rewrite (H y E); exact IH |]. destruct (flag (fst st') y); cbn; lia.
Qed.

(** Marking a new block. *)
Lemma dfs_enter (st : marks) x v r :
  dfs_inv st -> x ∈ ids -> flag (fst st) x = false -> length v = n -> length r = n ->
  flag v x = true -> (forall y, y <> x -> flag v y = flag (fst st) y) ->
  flag r x = true -> (forall y, y <> x -> flag r y = flag (snd st) y) -> dfs_inv (v, r).
Proof.
  intros [Lv Lr Hsub Hb] Hx Hnew Hv Hr Vx Vy Rx Ry. split; [exact Hv | exact Hr | |].
  - intros y Hy. cbn. destruct (decide (y = x)) as [-> | Hne]; [auto |]. rewrite Vy, Ry by exact Hne. auto.
  - intros y Hy [H1 H2]. cbn in H1, H2. assert (Hne : y <> x) by congruence. rewrite Vy in H1 by exact Hne. rewrite Ry in H2 by exact Hne.
    destruct (Hb y Hy (conj H1 H2)) as [Hs Ht]. split; [| exact Ht]. intros z Hz. destruct (Hs z Hz) as [Z1 Z2].
    assert (z <> x) by congruence. split; cbn; [rewrite Vy | rewrite Ry]; assumption.
Qed.

Lemma tc_step x : tc (edge a) x x -> exists s, edge a x s /\ rtc (edge a) s x.
Proof. intros H. inversion H as [x' y Hxy | x' y z Hxy Hyz]; subst; [exists x; split; [assumption | constructor] | exists y; split; [assumption | apply tc_rtc; assumption]]. Qed.

(** Leaving a block whose successors are all finished. *)
Lemma dfs_leave (st : marks) x r :
  dfs_inv st -> x ∈ ids -> flag (snd st) x = true -> (forall y, edge a x y -> black st y) ->
  length r = n -> flag r x = false -> (forall y, y <> x -> flag r y = flag (snd st) y) -> dfs_inv (fst st, r).
Proof.
  intros Hi Hx Sx Hs Hr Rx Ry. pose proof (di_visited st Hi) as Lv.
  assert (Hblack : forall y, black st y -> black (fst st, r) y).
  { intros y [H1 H2]. split; [exact H1 |]. cbn. rewrite Ry; [exact H2 | congruence]. }
  split; [exact Lv | exact Hr | |].
  - intros y Hy. cbn. destruct (decide (y = x)) as [-> | Hne]; [congruence |]. rewrite Ry by exact Hne. apply (di_sub st Hi y Hy).
  - intros y Hy [H1 H2]. cbn in H1, H2. destruct (decide (y = x)) as [-> | Hne].
    + split; [intros z Hz; apply Hblack, Hs, Hz |]. intros Ht. apply tc_step in Ht as (s & Hxs & Hsx).
      assert (Hbx : black st x) by (apply (black_closed st s x Hi); [apply (edge_closed a Ha x s Hxs) | exact Hsx | apply Hs, Hxs]).
      destruct Hbx. congruence.
    + rewrite Ry in H2 by exact Hne. destruct (di_black st Hi y Hy (conj H1 H2)) as [B1 B2].
      split; [intros z Hz; apply Hblack, B1, Hz | exact B2].
Qed.

(** The search from one block, and from the successors [l] of a block [x] that
    is on the stack. *)
Definition search_ok (m : nat) : Prop := forall x st,
  dfs_inv st -> x ∈ ids -> flag (fst st) x = false -> (forall y, flag (snd st) y = true -> rtc (edge a) y x) ->
  (unvisited st < m)%nat ->
  exists r st', LoopExists_block true m a x st = Ok (r, st') /\
    if (r : bool) then loop_from x else searched st st' /\ flag (fst st') x = true.

Lemma succ_loop_ok m x : x ∈ ids -> search_ok m -> forall l st,
  (forall y, y ∈ l -> edge a x y) -> dfs_inv st -> flag (snd st) x = true ->
  (forall y, flag (snd st) y = true -> rtc (edge a) y x) -> (unvisited st < m)%nat ->
  exists r st', succ_loop true a (fun succ st => LoopExists_block true m a succ st) l st = Ok (r, st') /\
    if (r : bool) then loop_from x else searched st st' /\ forall y, y ∈ l -> black st' y.
Proof.
  intros Hx Hm. induction l as [| s l IH]; intros st Hl Hi Sx Hst Hu.
  { exists false, st. split; [reflexivity |]. split; [apply searched_refl, Hi | intros y Hy; inversion Hy]. }
  assert (Hxs : edge a x s) by (apply Hl; left). assert (Hs : s ∈ ids) by apply (edge_closed a Ha x s Hxs).
  cbn [succ_loop]. destruct (block_idx_spec s Hs) as (j & Ej & Hj). rewrite Ej. cbn [rbind].
  destruct (Hj (fst st) (di_visited st Hi)) as [Gv _]. rewrite Gv. cbn [rbind].
  assert (Hcall : exists r st1, (if flag (fst st) s then Ok (false, st) else LoopExists_block true m a s st) = Ok (r, st1) /\
    if (r : bool) then loop_from s else searched st st1 /\ flag (fst st1) s = true).
  { destruct (flag (fst st) s) eqn:Ev.
    - exists false, st. split; [reflexivity |]. split; [apply searched_refl, Hi | exact Ev].
    - apply Hm; [exact Hi | exact Hs | exact Ev | | exact Hu]. intros y Hy. eapply rtc_r; [apply Hst, Hy | exact Hxs]. }
  destruct Hcall as (r & st1 & -> & Hr). cbn [rbind]. destruct r.
  { exists true, st1. split; [reflexivity |]. destruct Hr as (z & Hz & Hc). exists z. split; [| exact Hc]. eapply rtc_l; eassumption. }
  destruct Hr as [Hse Hvs]. destruct Hse as [Hi1 Hmono Hstack].
  destruct (Hj (snd st1) (di_stack st1 Hi1)) as [Gs _]. rewrite Gs. cbn [rbind]. destruct (flag (snd st1) s) eqn:Es.
  { exists true, st1. split; [reflexivity |]. exists x. split; [constructor |]. apply tc_rtc_r with s; [constructor; exact Hxs |].
    apply Hst. rewrite <- Hstack. exact Es. }
  destruct (IH st1) as (r & st2 & -> & Hr).
  - intros y Hy. apply Hl. right. exact Hy.
  - exact Hi1.
  - rewrite Hstack. exact Sx.
  - intros y Hy. apply Hst. rewrite <- Hstack. exact Hy.
  - pose proof (unvisited_le st st1 ids Hmono). unfold unvisited in *. lia.
  - exists r, st2. split; [reflexivity |]. destruct r; [exact Hr |]. destruct Hr as [Hse2 Hl2].
    split; [eapply searched_trans; [split; eassumption | exact Hse2] |]. intros y Hy. apply elem_of_cons in Hy as [-> | Hy]; [| auto].
    split; [apply (se_mono _ _ Hse2), Hvs | rewrite (se_stack _ _ Hse2); exact Es].
Qed.

Lemma search_all m : search_ok m.
Proof.
  induction m as [| m IH]; intros x st Hi Hx Hnew Hst Hu; [lia |]. cbn [LoopExists_block].
  destruct (block_idx_spec x Hx) as (i & Ei & Hj). rewrite Ei. cbn [rbind].
  destruct (Hj (fst st) (di_visited st Hi)) as [Gv Sv]. rewrite Gv, Hnew. cbn [rbind].
  destruct (Sv true) as (v & -> & Lv & Vx & Vy). cbn [rbind].
  destruct (Hj (snd st) (di_stack st Hi)) as [_ Ss]. destruct (Ss true) as (r & -> & Lr & Rx & Ry). cbn [rbind].
  destruct (follow a Ha x Hx) as (b & _ & Ed & Eg & _ & _). rewrite Ed. cbn [rbind]. rewrite Eg. cbn [rbind].
  assert (Hi1 : dfs_inv (v, r)) by (eapply dfs_enter; eassumption).
  assert (Hmono : forall y, flag (fst st) y = true -> flag v y = true)
    by (intros y Hy; destruct (decide (y = x)) as [-> | Hne]; [exact Vx | rewrite Vy by exact Hne; exact Hy]).
  destruct (succ_loop_ok m x Hx IH (succs a x) (v, r)) as (res & st2 & -> & Hres).
  - auto.
  - exact Hi1.
  - exact Rx.
  - intros y Hy. destruct (decide (y = x)) as [-> | Hne]; [constructor |]. apply Hst. cbn in Hy. rewrite Ry in Hy by exact Hne. exact Hy.
  - pose proof (unvisited_mark st (v, r) x Hx Hnew Vx Hmono). lia.
  - cbn [rbind]. destruct res; [exists true, st2; auto |]. destruct Hres as [[Hi2 M2 S2] Hs2].
    destruct (Hj (snd st2) (di_stack st2 Hi2)) as [_ Ss2]. destruct (Ss2 false) as (r' & -> & Lr' & Rx' & Ry'). cbn [rbind].
    exists false, (fst st2, r'). split; [reflexivity |]. split; [| apply M2; exact Vx]. split.
    + apply (dfs_leave st2 x r'); try assumption. rewrite S2. exact Rx.
    + intros y Hy. apply M2, Hmono, Hy.
    + intros y. cbn. destruct (decide (y = x)) as [-> | Hne].
      * rewrite Rx'. destruct (flag (snd st) x) eqn:E; [| reflexivity].
        pose proof (di_sub st Hi x Hx E). congruence.
      * rewrite Ry', S2 by exact Hne. apply Ry. exact Hne.
Qed.
End Loops.

(** When the numbers of the blocks start at zero, the loop analysis ends
    within a recursion depth of one more than the number of blocks and answers
    whether a block that can be reached from the entry lies on a cycle. *)
Theorem LoopExists_exact a fuel :
  closed a -> (length (blocks_ a) < fuel)%nat ->
  exists r, LoopExists true fuel a = Ok r /\
    (r = true <-> exists x, rtc (edge a) (EntryBlock a) x /\ tc (edge a) x x).
Proof.
  intros Ha Hf. unfold LoopExists. set (st := (replicate (length (blocks_ a)) false, replicate (length (blocks_ a)) false)).
  assert (Hflag : forall x, flag a (replicate (length (blocks_ a)) false) x = false).
  { intros x. unfold flag. destruct (list_find _ _) as [[k z] |]; [| reflexivity].
    destruct (replicate _ false !! k) eqn:E; [apply lookup_replicate in E as [-> _]; reflexivity | reflexivity]. }
  assert (Hi : dfs_inv a st).
  { split; cbn; [apply length_replicate | apply length_replicate | intros x _; rewrite Hflag; auto |].
    intros x _ [H _]. cbn in H. rewrite Hflag in H. discriminate. }
  destruct (search_all a Ha fuel (EntryBlock a) st Hi (cl_entry a Ha)) as (r & st' & E & Hr).
  - apply Hflag.
  - intros y Hy. cbn in Hy. rewrite Hflag in Hy. discriminate.
  - eapply Nat.le_lt_trans; [apply filter_length_le |]. unfold block_ids. rewrite length_map. exact Hf.
  - rewrite E. cbn [rbind]. exists r. split; [reflexivity |]. destruct r; [split; [intros _; exact Hr | reflexivity] |].
    split; [discriminate |]. intros (x & Hx & Hc). destruct Hr as [[Hi' _ Hs] Hv].
    assert (Hb : black a st' (EntryBlock a)) by (split; [exact Hv | rewrite Hs; apply Hflag]).
    pose proof (black_closed a Ha st' _ x Hi' (cl_entry a Ha) Hx Hb) as Hbx.
    exfalso. exact (proj2 (di_black a st' Hi' x (rtc_edge_closed a Ha _ _ Hx (cl_entry a Ha)) Hbx) Hc).
Qed.

Lemma LoopExists_exact_witness :
  LoopExists true 5 loop_example = Ok true /\
  exists r, LoopExists true 5 loop_example = Ok r /\
    (r = true <-> exists x, rtc (edge loop_example) (EntryBlock loop_example) x /\ tc (edge loop_example) x x).
Proof. split; [reflexivity |]. apply LoopExists_exact; [apply loop_example_closed | cbn; lia]. Defined.

(** When they start at one, marking the last block is out of the range of the
    vector. *)
Example LoopExists_out_of_range :
  LoopExists false 5 (mkAction 1 [mkBlock 1 [mkStmt 10 SReturn [ONull]]] [] 100 [] IRTypes.Void) = Err UndefinedBehaviour.
Proof. reflexivity. Qed.
