(* ===== verification/SSADominance.v ===== *)
(** * Dominance

    SSADominance.cpp and DominanceFrontierAnalysis.cpp of
    src/gensim/src/genC/ssa/analysis.  The dominators of a block are computed
    by iteration from the full set; the sets of the predecessors are united
    where dominance asks for their intersection. *)

From stdpp Require Import base list numbers gmap relations sorting fin_maps fin_sets.
From Stdlib Require Import ZArith Lia.
From S2P Require Import Prelude IRTypes IRConstants ConstantFold SSAForm SSAReach.
#[local] Open Scope Z_scope.

Abbreviation dominance_info := (gmap Z (gset Z)).

(** ** The code *)

(** The [set_intersection]s of the old set with the sets of the predecessors,
    all inserted into one set. *)
Fixpoint new_dom (dominance : dominance_info) (old_dom : gset Z) (preds : list Z) : result (gset Z) :=
  match preds with
  | [] => Ok ∅
  | pred :: r =>
      let* pred_dom := of_option OutOfRange (dominance !! pred) in
      let* rest := new_dom dominance old_dom r in
      Ok ((old_dom ∩ pred_dom) ∪ rest)
  end.

(** One block of an iteration, with the flag [changes]. *)
Definition dom_block (a : SSAFormAction) (predecessors : gmap Z (list Z)) (block : Z) (st : dominance_info * bool)
  : result (dominance_info * bool) :=
  let '(dominance, changes) := st in
  if block =? EntryBlock a then Ok st
  else
    let* old_dom := of_option OutOfRange (dominance !! block) in
    let* preds := of_option OutOfRange (predecessors !! block) in
    let* inter := new_dom dominance old_dom preds in
    let new := {[block]} ∪ inter in
    if bool_decide (new = old_dom) then Ok st else Ok (<[block := new]> dominance, true).

Fixpoint dom_round (a : SSAFormAction) (predecessors : gmap Z (list Z)) (l : list Z) (st : dominance_info * bool)
  : result (dominance_info * bool) :=
  match l with
  | [] => Ok st
  | block :: r => let* st1 := dom_block a predecessors block st in dom_round a predecessors r st1
  end.

Fixpoint dom_loop (fuel : nat) (a : SSAFormAction) (predecessors : gmap Z (list Z)) (dominance : dominance_info)
  : result dominance_info :=
  match fuel with
  | O => Err OutOfFuel
  | S n =>
      let* (dominance1, changes) := dom_round a predecessors (block_ids a) (dominance, false) in
      if (changes : bool) then dom_loop n a predecessors dominance1 else Ok dominance1
  end.

Definition dom_start (a : SSAFormAction) : dominance_info :=
  <[EntryBlock a := {[EntryBlock a]}]> (list_to_map (map (fun b => (b, list_to_set (block_ids a))) (block_ids a))).

Definition Calculate (fuel : nat) (a : SSAFormAction) : result dominance_info :=
  let* predecessors := BuildPredecessors a in
  dom_loop fuel a predecessors (dom_start a).

Definition StrictlyDominates (dominance : dominance_info) (x y : Z) : result bool :=
  if x =? y then Ok false
  else let* d := of_option OutOfRange (dominance !! y) in Ok (bool_decide (x ∈ d)).

(** The loop over the predecessors of [y] does not look at them. *)
Fixpoint dominates_any (dominance : dominance_info) (x y : Z) (preds : list Z) : result bool :=
  match preds with
  | [] => Ok false
  | _ :: r =>
      let* d := of_option OutOfRange (dominance !! y) in
      if bool_decide (x ∈ d) then Ok true else dominates_any dominance x y r
  end.
Definition DominatesAPredecessor (a : SSAFormAction) (dominance : dominance_info) (x y : Z) : result bool :=
  let* preds := GetPredecessors a y in dominates_any dominance x y preds.

Fixpoint frontier_of (a : SSAFormAction) (dominance : dominance_info) (n : Z) (l : list Z) : result (gset Z) :=
  match l with
  | [] => Ok ∅
  | x :: r =>
      let* s := StrictlyDominates dominance n x in
      let* p := if (s : bool) then Ok false else DominatesAPredecessor a dominance n x in
      let* rest := frontier_of a dominance n r in
      Ok (if (p : bool) then {[x]} ∪ rest else rest)
  end.
Definition GetDominanceFrontier (fuel : nat) (a : SSAFormAction) (n : Z) : result (gset Z) :=
  let* dominance := Calculate fuel a in
  frontier_of a dominance n (block_ids a).

(** ** Predecessors *)

(** The keys of a map given as a list. *)
Lemma keys_of_map {A B C} (k : A -> B) (f : A -> C) l : (map (fun x => (k x, f x)) l).*1 = map k l.
Proof. induction l as [| x l IH]; cbn; [reflexivity | f_equal; exact IH]. Qed.

Section Preds.
Context (a : SSAFormAction) (Ha : closed a).

Lemma BuildSuccessors_ok l : (forall b, b ∈ l -> b ∈ blocks_ a) ->
  exists m, BuildSuccessors l = Ok m /\ forall b, b ∈ l -> m !! block_address b = Some (succs a (block_address b)).
Proof.
  induction l as [| b l IH]; intros Hl; [exists ∅; split; [reflexivity | intros b Hb; inversion Hb] |]. cbn [BuildSuccessors].
  destruct (IH ltac:(intros c Hc; apply Hl; right; exact Hc)) as (m & -> & Hm).
  rewrite (own_successors a Ha b) by (apply Hl; left). cbn [rbind]. eexists. split; [reflexivity |]. intros c Hc.
  destruct (decide (block_address c = block_address b)) as [-> | Hne]; [apply lookup_insert_eq |].
  rewrite lookup_insert_ne by congruence. apply elem_of_cons in Hc as [-> | Hc]; [congruence | apply Hm, Hc].
Qed.

(** [x] is a predecessor of [y] in the map. *)
Definition listed (m : gmap Z (list Z)) (x y : Z) : Prop := x ∈ default [] (m !! y).

Lemma add_predecessor_spec b l m :
  (forall x y, listed (add_predecessor b l m) x y <-> listed m x y \/ (x = b /\ y ∈ l)) /\
  (forall y, is_Some (m !! y) -> is_Some (add_predecessor b l m !! y)).
Proof.
  revert m. induction l as [| z l IH]; intros m; cbn [add_predecessor].
  { split; [| auto]. intros x y. split; [auto | intros [| [_ H]]; [assumption | inversion H]]. }
  destruct (IH (<[z := default [] (m !! z) ++ [b]]> m)) as [H1 H2]. split.
  - intros x y. rewrite H1. unfold listed at 1. destruct (decide (y = z)) as [-> | Hne].
    + rewrite lookup_insert_eq. simpl. rewrite elem_of_app, list_elem_of_singleton, elem_of_cons. unfold listed. tauto.
    + rewrite lookup_insert_ne by congruence. rewrite elem_of_cons. unfold listed. intuition congruence.
  - intros y Hy. apply H2. destruct (decide (y = z)) as [-> | Hne]; [rewrite lookup_insert_eq; eauto |].
    rewrite lookup_insert_ne by congruence. exact Hy.
Qed.

Lemma add_predecessors_spec S l m :
  (forall b, b ∈ l -> S !! block_address b = Some (succs a (block_address b))) ->
  exists m', add_predecessors l S m = Ok m' /\
    (forall x y, listed m' x y <-> listed m x y \/ (x ∈ map block_address l /\ edge a x y)) /\
    (forall y, is_Some (m !! y) -> is_Some (m' !! y)).
Proof.
  revert m. induction l as [| b l IH]; intros m Hl; cbn [add_predecessors map].
  { exists m. split; [reflexivity |]. split; [| auto]. intros x y. split; [auto | intros [| [H _]]; [assumption | inversion H]]. }
  rewrite (Hl b ltac:(left)). cbn [of_option rbind].
  destruct (add_predecessor_spec (block_address b) (succs a (block_address b)) m) as [H1 H2].
  destruct (IH (add_predecessor (block_address b) (succs a (block_address b)) m)) as (m' & E & H3 & H4);
    [intros c Hc; apply Hl; right; exact Hc |].
  exists m'. split; [exact E |]. split; [| intros y Hy; apply H4, H2, Hy]. intros x y. rewrite H3, H1, elem_of_cons. unfold edge.
  split; [intros [[| [-> ?]] | []]; auto | intros [| [[-> |] ?]]; auto].
Qed.

Lemma BuildPredecessors_ok :
  exists P, BuildPredecessors a = Ok P /\ forall y, y ∈ block_ids a -> exists l, P !! y = Some l /\ forall x, x ∈ l <-> edge a x y.
Proof.
  unfold BuildPredecessors. destruct (BuildSuccessors_ok (blocks_ a)) as (S & -> & HS); [auto |]. cbn [rbind].
  set (start := list_to_map (map (fun b => (block_address b, [])) (blocks_ a)) : gmap Z (list Z)).
  assert (Hstart : forall y, y ∈ block_ids a -> start !! y = Some []).
  { intros y Hy. apply elem_of_list_to_map_1.
    - rewrite keys_of_map. apply (cl_nodup a Ha).
    - apply list_elem_of_fmap in Hy as (b & -> & Hb). apply list_elem_of_fmap. exists b. auto. }
  destruct (add_predecessors_spec S (blocks_ a) start HS) as (P & -> & H1 & H2). exists P. split; [reflexivity |].
  intros y Hy. destruct (H2 y) as (l & El); [rewrite (Hstart y Hy); eauto |]. exists l. split; [exact El |]. intros x.
  specialize (H1 x y). unfold listed in H1. rewrite El, (Hstart y Hy) in H1. simpl in H1. rewrite H1. split.
  - intros [H | [_ H]]; [inversion H | exact H].
  - intros H. right. split; [apply (edge_closed a Ha x y H) | exact H].
Qed.

Lemma predecessors_in_ok l y : (forall b, b ∈ l -> b ∈ blocks_ a) ->
  exists p, predecessors_in l y = Ok p /\ forall x, x ∈ p <-> x ∈ map block_address l /\ edge a x y.
Proof.
  induction l as [| b l IH]; intros Hl; cbn [predecessors_in map].
  { exists []. split; [reflexivity |]. intros x. split; [intros H; inversion H | intros [H _]; inversion H]. }
  rewrite (own_successors a Ha b) by (apply Hl; left). cbn [rbind].
  destruct (IH ltac:(intros c Hc; apply Hl; right; exact Hc)) as (p & -> & Hp). cbn [rbind]. eexists. split; [reflexivity |].
  intros x. rewrite elem_of_app, Hp, elem_of_cons, list_elem_of_fmap. unfold edge. split.
  - intros [(z & -> & Hz) | []]; [| auto]. apply list_elem_of_In, filter_In in Hz as [H1 H2]. apply Z.eqb_eq in H2 as <-.
    apply list_elem_of_In in H1. auto.
  - intros [[-> | H] He]; [| auto]. left. exists y. split; [reflexivity |]. apply list_elem_of_In, filter_In.
    split; [apply list_elem_of_In, He | apply Z.eqb_refl].
Qed.

Lemma GetPredecessors_ok y : exists p, GetPredecessors a y = Ok p /\ forall x, x ∈ p <-> edge a x y.
Proof.
  destruct (predecessors_in_ok (blocks_ a) y) as (p & E & Hp); [auto |]. exists p. split; [exact E |]. intros x. rewrite Hp.
  split; [tauto |]. intros H. split; [apply (edge_closed a Ha x y H) | exact H].
Qed.
End Preds.

(** ** The iteration *)

Section Iteration.
Context (a : SSAFormAction) (Ha : closed a) (P : gmap Z (list Z)).
Hypothesis HP : forall y, y ∈ block_ids a -> exists l, P !! y = Some l /\ forall x, x ∈ l <-> edge a x y.
Abbreviation ids := (block_ids a).
Abbreviation entry := (EntryBlock a).

Definition dom_of (D : dominance_info) (x : Z) : gset Z := default ∅ (D !! x).

Record dom_inv (D : dominance_info) : Prop := {
  dm_some : forall x, x ∈ ids -> D !! x = Some (dom_of D x);
  dm_self : forall x, x ∈ ids -> x ∈ dom_of D x;
  dm_ids : forall x, x ∈ ids -> dom_of D x ⊆ list_to_set ids;
  dm_entry : dom_of D entry = {[entry]}
}.

(** The sets of the ancestors are kept. *)
Definition covers (D : dominance_info) : Prop := forall d x, x ∈ ids -> rtc (edge a) d x -> d ∈ dom_of D x.

(** The equation of a block at the end. *)
Definition stable (D : dominance_info) (x : Z) : Prop :=
  x = entry \/ forall d, d ∈ dom_of D x -> d = x \/ exists p, edge a p x /\ d ∈ dom_of D p.

Definition total_size (D : dominance_info) : nat := sum_list (map (fun x => size (dom_of D x)) ids).

Lemma new_dom_spec D old preds : dom_inv D -> (forall p, p ∈ preds -> p ∈ ids) ->
  exists s, new_dom D old preds = Ok s /\ forall d, d ∈ s <-> d ∈ old /\ exists p, p ∈ preds /\ d ∈ dom_of D p.
Proof.
  intros Hi. induction preds as [| p preds IH]; intros Hp; cbn [new_dom].
  { exists ∅. split; [reflexivity |]. intros d. split; [set_solver | intros (_ & p & Hpp & _); inversion Hpp]. }
  rewrite (dm_some D Hi p) by (apply Hp; left). cbn [of_option rbind].
  destruct (IH ltac:(intros q Hq; apply Hp; right; exact Hq)) as (s & -> & Hs). cbn [rbind]. eexists. split; [reflexivity |].
  intros d. rewrite elem_of_union, elem_of_intersection, Hs. split.
  - intros [[H1 H2] | [H1 (q & H2 & H3)]]; (split; [exact H1 |]); [exists p | exists q]; (split; [| assumption]); [left | right; assumption].
  - intros (H1 & q & H2 & H3). apply elem_of_cons in H2 as [-> | H2]; [auto | right; split; [exact H1 | eauto]].
Qed.

Lemma dom_of_insert D x s y : dom_of (<[x := s]> D) y = if bool_decide (y = x) then s else dom_of D y.
Proof.
  unfold dom_of. case_bool_decide as E; [subst; rewrite lookup_insert_eq | rewrite lookup_insert_ne by congruence]; reflexivity.
Qed.

Lemma total_shrinks D x s : x ∈ ids -> (size s < size (dom_of D x))%nat -> (total_size (<[x := s]> D) < total_size D)%nat.
Proof.
  intros Hx Hs. unfold total_size. pose proof (cl_nodup a Ha) as Hd. clear HP. induction ids as [| y l IH]; [inversion Hx |].
  apply NoDup_cons in Hd as [Hy Hd]. cbn [map sum_list sum_list_with]. rewrite dom_of_insert. apply elem_of_cons in Hx as [<- | Hx].
  - rewrite bool_decide_true by reflexivity.
    assert (E : map (fun z => size (dom_of (<[x := s]> D) z)) l = map (fun z => size (dom_of D z)) l).
    { apply map_ext_in. intros z Hz. apply list_elem_of_In in Hz. rewrite dom_of_insert, bool_decide_false by congruence. reflexivity. }
    cbn in E |- *. rewrite E. lia.
  - rewrite bool_decide_false by congruence. specialize (IH Hx Hd). cbn in IH |- *. lia.
Qed.

(** One block: its equation holds already, or its set becomes smaller. *)
Lemma dom_block_spec D c x : dom_inv D -> x ∈ ids ->
  exists D' c', dom_block a P x (D, c) = Ok (D', c') /\ dom_inv D' /\
    ((forall y, ~ edge a y entry) -> covers D -> covers D') /\
    ((D' = D /\ c' = c /\ stable D x) \/ (c' = true /\ (total_size D' < total_size D)%nat)).
Proof.
  intros Hi Hx. unfold dom_block. destruct (Z.eqb_spec x entry) as [-> | Hne].
  { exists D, c. split; [reflexivity |]. split; [exact Hi |]. split; [auto |]. left. split; [reflexivity |]. split; [reflexivity | left; reflexivity]. }
  rewrite (dm_some D Hi x Hx). cbn [of_option rbind]. destruct (HP x Hx) as (l & -> & Hl). cbn [of_option rbind].
  assert (Hli : forall p, p ∈ l -> p ∈ ids) by (intros p Hp; apply Hl in Hp; apply (edge_closed a Ha p x Hp)).
  destruct (new_dom_spec D (dom_of D x) l Hi Hli) as (s & -> & Hs). cbn [rbind].
  assert (Hnew : forall d, d ∈ {[x]} ∪ s <-> d = x \/ (d ∈ dom_of D x /\ exists p, edge a p x /\ d ∈ dom_of D p)).
  { intros d. rewrite elem_of_union, elem_of_singleton, Hs. setoid_rewrite Hl. reflexivity. }
  assert (Hsub : {[x]} ∪ s ⊆ dom_of D x) by (intros d Hd; apply Hnew in Hd as [-> | [H _]]; [apply (dm_self D Hi x Hx) | exact H]).
  case_bool_decide as E.
  { exists D, c. split; [reflexivity |]. split; [exact Hi |]. split; [auto |]. left. split; [reflexivity |]. split; [reflexivity |].
    right. intros d Hd. rewrite <- E in Hd. apply Hnew in Hd as [H | [_ H]]; auto. }
  exists (<[x := {[x]} ∪ s]> D), true. split; [reflexivity |]. split; [| split].
  - split; [intros y Hy | intros y Hy | intros y Hy | rewrite dom_of_insert, bool_decide_false by congruence; apply (dm_entry D Hi)].
    + rewrite dom_of_insert. case_bool_decide as Ey; [subst; apply lookup_insert_eq |]. rewrite lookup_insert_ne by congruence.
      apply (dm_some D Hi y Hy).
    + rewrite dom_of_insert. case_bool_decide as Ey; [subst; set_solver | apply (dm_self D Hi y Hy)].
    + rewrite dom_of_insert. case_bool_decide as Ey; [subst; etransitivity; [exact Hsub |] |]; apply (dm_ids D Hi); assumption.
  - intros He Hc d y Hy Hr. rewrite dom_of_insert. case_bool_decide as Ey; [subst y | apply Hc; assumption].
    apply Hnew. apply rtc_inv_r in Hr as [-> | (p & Hp & Hpx)]; [auto |]. right. split.
    + apply Hc; [assumption |]. eapply rtc_r; eassumption.
    + exists p. split; [exact Hpx |]. apply Hc; [apply (edge_closed a Ha p x Hpx) | exact Hp].
  - right. split; [reflexivity |]. apply total_shrinks; [exact Hx |]. apply subset_size. split; [exact Hsub |].
    intros H. apply E. apply set_eq. intros d. split; [apply Hsub | apply H].
Qed.

Lemma dom_round_spec l D c : dom_inv D -> (forall x, x ∈ l -> x ∈ ids) ->
  exists D' c', dom_round a P l (D, c) = Ok (D', c') /\ dom_inv D' /\
    ((forall y, ~ edge a y entry) -> covers D -> covers D') /\
    ((D' = D /\ c' = c /\ forall x, x ∈ l -> stable D x) \/ (c' = true /\ (total_size D' < total_size D)%nat)).
Proof.
  revert D c. induction l as [| x l IH]; intros D c Hi Hl; cbn [dom_round].
  { exists D, c. split; [reflexivity |]. split; [exact Hi |]. split; [auto |]. left. repeat split. intros x Hx. inversion Hx. }
  destruct (dom_block_spec D c x Hi ltac:(apply Hl; left)) as (D1 & c1 & E1 & Hi1 & Hc1 & H1). rewrite E1. cbn [rbind].
  destruct (IH D1 c1 Hi1 ltac:(intros y Hy; apply Hl; right; exact Hy)) as (D2 & c2 & E2 & Hi2 & Hc2 & H2). rewrite E2.
  exists D2, c2. split; [reflexivity |]. split; [exact Hi2 |]. split; [auto |].
  destruct H1 as [(-> & -> & Hx) | [-> Hlt]].
  - destruct H2 as [(-> & -> & Hs) | H2]; [| auto]. left. repeat split. intros y Hy. apply elem_of_cons in Hy as [-> | Hy]; auto.
  - right. destruct H2 as [(-> & -> & _) | [-> H2]]; split; try reflexivity; lia.
Qed.

Lemma dom_loop_spec fuel D : dom_inv D -> (total_size D < fuel)%nat ->
  exists D', dom_loop fuel a P D = Ok D' /\ dom_inv D' /\ ((forall y, ~ edge a y entry) -> covers D -> covers D') /\
    forall x, x ∈ ids -> stable D' x.
Proof.
  revert D. induction fuel as [| n IH]; intros D Hi Hf; [lia |]. cbn [dom_loop].
  destruct (dom_round_spec ids D false Hi ltac:(auto)) as (D1 & c1 & -> & Hi1 & Hc1 & H1). cbn [rbind].
  destruct H1 as [(-> & -> & Hs) | [-> Hlt]]; [exists D; repeat split; auto; apply Hi |].
  destruct (IH D1 Hi1 ltac:(lia)) as (D2 & -> & Hi2 & Hc2 & Hs2). exists D2.
  split; [reflexivity |]. split; [exact Hi2 |]. split; [auto | exact Hs2].
Qed.
End Iteration.

(** Enough rounds: every round but the last makes one of the sets smaller. *)
Definition dom_fuel (a : SSAFormAction) : nat := S (length (block_ids a) * length (block_ids a)).

Lemma dom_start_of a x : closed a -> x ∈ block_ids a ->
  dom_start a !! x = Some (dom_of (dom_start a) x) /\
  dom_of (dom_start a) x = if bool_decide (x = EntryBlock a) then {[EntryBlock a]} else list_to_set (block_ids a).
Proof.
  intros Ha Hx. unfold dom_start. rewrite dom_of_insert. case_bool_decide as E; [subst; rewrite lookup_insert_eq; auto |].
  rewrite lookup_insert_ne by congruence.
  assert (Hm : (list_to_map (map (fun b => (b, list_to_set (block_ids a))) (block_ids a)) : dominance_info) !! x = Some (list_to_set (block_ids a))).
  { apply elem_of_list_to_map_1; [rewrite (keys_of_map (fun b => b)), map_id; apply (cl_nodup a Ha) |]. apply list_elem_of_fmap. eauto. }
  unfold dom_of. rewrite Hm. auto.
Qed.

Lemma dom_start_inv a : closed a -> dom_inv a (dom_start a) /\ ((forall y, ~ edge a y (EntryBlock a)) -> covers a (dom_start a)) /\
  (total_size a (dom_start a) < dom_fuel a)%nat.
Proof.
  intros Ha. pose proof (cl_entry a Ha) as He. split; [| split].
  - assert (Hs : forall x, x ∈ block_ids a -> dom_start a !! x = Some (dom_of (dom_start a) x) /\ x ∈ dom_of (dom_start a) x /\
      dom_of (dom_start a) x ⊆ list_to_set (block_ids a)).
    { intros x Hx. destruct (dom_start_of a x Ha Hx) as [H1 H2]. split; [exact H1 |]. rewrite H2. case_bool_decide; set_solver. }
    split; [intros x Hx; apply (Hs x Hx) .. |]. destruct (dom_start_of a _ Ha He) as [_ ->]. rewrite bool_decide_true; reflexivity.
  - intros Hn d x Hx Hr. destruct (dom_start_of a x Ha Hx) as [_ ->]. case_bool_decide as E.
    + subst. apply rtc_inv_r in Hr as [-> | (p & _ & Hp)]; [set_solver | destruct (Hn p Hp)].
    + apply elem_of_list_to_set. apply rtc_inv in Hr as [-> | (p & Hp & _)]; [exact Hx | apply (edge_closed a Ha d p Hp)].
  - unfold total_size, dom_fuel. apply Nat.lt_succ_r.
    assert (H : forall l, (forall x, x ∈ l -> x ∈ block_ids a) ->
      (sum_list (map (fun x => size (dom_of (dom_start a) x)) l) <= length l * length (block_ids a))%nat).
    { induction l as [| x l IH]; intros Hl; [cbn; lia |]. cbn [map length Nat.mul].
      specialize (IH ltac:(intros y Hy; apply Hl; right; exact Hy)).
      destruct (dom_start_of a x Ha (Hl x ltac:(left))) as [_ E]. cbn in IH |- *. rewrite E.
      assert (Hsz : (size (if bool_decide (x = EntryBlock a) then {[EntryBlock a]} else list_to_set (block_ids a) : gset Z) <= length (block_ids a))%nat).
      { case_bool_decide; [rewrite size_singleton; destruct (block_ids a); [inversion He | cbn; lia] |].
        rewrite size_list_to_set by apply (cl_nodup a Ha). lia. }
      lia. }
    apply H. auto.
Qed.

(** The result of the analysis. *)
Lemma Calculate_ok a fuel : closed a -> (dom_fuel a <= fuel)%nat ->
  exists D, Calculate fuel a = Ok D /\ dom_inv a D /\ ((forall y, ~ edge a y (EntryBlock a)) -> covers a D) /\
    forall x, x ∈ block_ids a -> stable a D x.
Proof.
  intros Ha Hf. destruct (dom_start_inv a Ha) as (Hi & Hc & Ht). destruct (BuildPredecessors_ok a Ha) as (P & EP & HP).
  destruct (dom_loop_spec a Ha P HP fuel (dom_start a) Hi ltac:(lia)) as (D & E & Hi' & Hc' & Hs).
  exists D. unfold Calculate. rewrite EP. cbn [rbind].
  split; [exact E |]. split; [exact Hi' |]. split; [intros He; apply Hc'; auto | exact Hs].
Qed.

(** On an action whose targets are blocks of it, the dominance
    analysis ends within one more round than the square of the number of
    blocks.  Every block has a set, which holds the block itself, and at the
    end every other member of the set of a block that is not the entry is a
    member of the set of one of its predecessors. *)
Theorem Calculate_terminates a fuel :
  closed a -> (dom_fuel a <= fuel)%nat ->
  exists D, Calculate fuel a = Ok D /\ forall x, x ∈ block_ids a -> exists s, D !! x = Some s /\ x ∈ s /\
    (x <> EntryBlock a -> forall d, d ∈ s -> d = x \/ exists p t, edge a p x /\ D !! p = Some t /\ d ∈ t).
Proof.
  intros Ha Hf. destruct (Calculate_ok a fuel Ha Hf) as (D & E & Hi & _ & Hs). exists D. split; [exact E |]. intros x Hx.
  exists (dom_of D x). split; [apply (dm_some a D Hi x Hx) |]. split; [apply (dm_self a D Hi x Hx) |]. intros Hne d Hd.
  destruct (Hs x Hx) as [| H]; [contradiction |]. destruct (H d Hd) as [| (p & Hp & Hdp)]; [auto |]. right. exists p, (dom_of D p).
  split; [exact Hp |]. split; [apply (dm_some a D Hi), (edge_closed a Ha p x Hp) | exact Hdp].
Qed.

(** The members of the sets are ancestors when the blocks have a rank. *)
Lemma dom_ancestor a D (rank : Z -> nat) d :
  closed a -> dom_inv a D -> (forall x, x ∈ block_ids a -> stable a D x) -> (forall x y, edge a x y -> (rank x < rank y)%nat) ->
  forall k x, (rank x < k)%nat -> x ∈ block_ids a -> d ∈ dom_of D x -> rtc (edge a) d x.
Proof.
  intros Ha Hi Hs Hr. induction k as [| k IH]; intros x Hk Hx Hd; [lia |].
  destruct (Hs x Hx) as [-> | H]; [rewrite (dm_entry a D Hi) in Hd; apply elem_of_singleton in Hd as ->; constructor |].
  destruct (H d Hd) as [-> | (p & Hp & Hdp)]; [constructor |]. eapply rtc_r; [| exact Hp].
  apply IH; [specialize (Hr p x Hp); lia | apply (edge_closed a Ha p x Hp) | exact Hdp].
Qed.

(** A branch that joins again: block 1 goes to 2 or 3, and both to 4. *)
Definition diamond : SSAFormAction :=
  mkAction 1
    [mkBlock 1 [mkStmt 10 SIf [OStmt 9; OBlock 2; OBlock 3]];
     mkBlock 2 [mkStmt 20 SJump [OBlock 4]];
     mkBlock 3 [mkStmt 30 SJump [OBlock 4]];
     mkBlock 4 [mkStmt 40 SReturn [ONull]]] [] 100 [] IRTypes.Void.

Lemma diamond_closed : closed diamond.
Proof. apply closed_check. vm_compute. reflexivity. Qed.

Definition diamond_rank (x : Z) : nat := if x =? 1 then 0 else if x =? 4 then 2 else 1.
Lemma diamond_edges x y : edge diamond x y -> (diamond_rank x < diamond_rank y)%nat /\ y <> 1.
Proof.
  intros H. pose proof (edge_closed _ diamond_closed x y H) as [Hx _]. cbv in Hx.
  repeat (apply elem_of_cons in Hx as [-> | Hx];
    [unfold edge, succs in H; cbn in H; repeat (apply elem_of_cons in H as [-> | H]; [cbn; lia |]); inversion H |]).
  inversion Hx.
Qed.

Lemma Calculate_terminates_witness :
  exists D, Calculate 17 diamond = Ok D /\ forall x, x ∈ block_ids diamond -> exists s, D !! x = Some s /\ x ∈ s /\
    (x <> EntryBlock diamond -> forall d, d ∈ s -> d = x \/ exists p t, edge diamond p x /\ D !! p = Some t /\ d ∈ t).
Proof. apply Calculate_terminates; [apply diamond_closed | vm_compute; lia]. Defined.

(** On an action without cycles in which nothing goes back to
    the entry, the set computed for a block is not the set of its dominators:
    it is the set of all blocks from which the block can be reached. *)
Theorem dominance_is_ancestry a fuel (rank : Z -> nat) :
  closed a -> (dom_fuel a <= fuel)%nat -> (forall x y, edge a x y -> (rank x < rank y)%nat) -> (forall x, ~ edge a x (EntryBlock a)) ->
  exists D, Calculate fuel a = Ok D /\
    forall x, x ∈ block_ids a -> exists s, D !! x = Some s /\ forall d, d ∈ s <-> rtc (edge a) d x.
Proof.
  intros Ha Hf Hrank He. destruct (Calculate_ok a fuel Ha Hf) as (D & E & Hi & Hc & Hs). exists D. split; [exact E |].
  intros x Hx. exists (dom_of D x). split; [apply (dm_some a D Hi x Hx) |]. intros d.
  split; [apply (dom_ancestor a D rank d Ha Hi Hs Hrank (S (rank x)) x); [lia | exact Hx] | apply (Hc He); exact Hx].
Qed.

(** In the diamond, block 2 is in the set of block 4, which can be reached
    without it. *)
Lemma dominance_is_ancestry_witness :
  Calculate 17 diamond = Ok (list_to_map [(1, {[1]}); (2, {[1; 2]}); (3, {[1; 3]}); (4, {[1; 2; 3; 4]})]) /\
  exists D, Calculate 17 diamond = Ok D /\
    forall x, x ∈ block_ids diamond -> exists s, D !! x = Some s /\ forall d, d ∈ s <-> rtc (edge diamond) d x.
Proof.
  split; [vm_compute; reflexivity |]. apply (dominance_is_ancestry diamond 17 diamond_rank); [apply diamond_closed | vm_compute; lia | |].
  - intros x y H. apply (diamond_edges x y H).
  - intros x H. apply (diamond_edges x _ H). reflexivity.
Defined.

(** ** Frontiers *)

Lemma dominates_any_spec D x y preds : is_Some (D !! y) ->
  dominates_any D x y preds = Ok (bool_decide (preds <> [] /\ x ∈ dom_of D y)).
Proof.
  intros [d E]. unfold dom_of. rewrite E. simpl. induction preds as [| p preds IH]; cbn [dominates_any].
  { rewrite bool_decide_false by (intros [H _]; auto). reflexivity. }
  rewrite E. cbn [of_option rbind]. destruct (decide (x ∈ d)) as [Hx | Hx].
  - rewrite !bool_decide_true by auto. reflexivity.
  - rewrite (bool_decide_false (x ∈ d)) by exact Hx. rewrite IH. f_equal. apply bool_decide_ext. split; intros [_ H]; contradiction.
Qed.

Lemma frontier_of_spec a D n l : closed a -> dom_inv a D -> n ∈ block_ids a -> (forall x, x ∈ l -> x ∈ block_ids a) ->
  exists s, frontier_of a D n l = Ok s /\ forall x, x ∈ s <-> x ∈ l /\ x = n /\ exists p, edge a p n.
Proof.
  intros Ha Hi Hn. induction l as [| x l IH]; intros Hl; cbn [frontier_of]; [exists ∅; split; [reflexivity | set_solver] |].
  destruct (IH ltac:(intros y Hy; apply Hl; right; exact Hy)) as (s & Es & Hs).
  assert (Hx : x ∈ block_ids a) by (apply Hl; left). destruct (GetPredecessors_ok a Ha x) as (preds & Ep & Hp).
  unfold StrictlyDominates, DominatesAPredecessor. destruct (Z.eqb_spec n x) as [-> | Hne]; cbn [rbind].
  - rewrite Ep. cbn [rbind]. rewrite (dominates_any_spec D x x preds) by (rewrite (dm_some a D Hi x Hx); eauto).
    cbn [rbind]. rewrite Es. cbn [rbind]. eexists. split; [reflexivity |]. intros y. case_bool_decide as Hb.
    + destruct preds as [| p preds]; [destruct Hb; congruence |]. rewrite elem_of_union, elem_of_singleton, Hs, elem_of_cons.
      assert (exists p, edge a p x) by (exists p; apply Hp; left). tauto.
    + rewrite Hs, elem_of_cons. split; [tauto |]. intros (_ & -> & p & He). destruct Hb.
      split; [intros ->; apply Hp in He; inversion He | apply (dm_self a D Hi x Hx)].
  - rewrite (dm_some a D Hi x Hx). cbn [of_option rbind]. case_bool_decide as Hd; cbn [rbind].
    + rewrite Es. cbn [rbind]. exists s. split; [reflexivity |]. intros y. rewrite Hs, elem_of_cons. intuition congruence.
    + rewrite Ep. cbn [rbind]. rewrite (dominates_any_spec D n x preds) by (rewrite (dm_some a D Hi x Hx); eauto). cbn [rbind].
      rewrite bool_decide_false by tauto. rewrite Es. cbn [rbind]. exists s. split; [reflexivity |].
      intros y. rewrite Hs, elem_of_cons. intuition congruence.
Qed.

(** The dominance frontier computed for a block never holds another
    block: it is the block itself when something goes to it, and empty
    otherwise, because the set of the block is looked at where the sets of its
    predecessors are meant. *)
Theorem dominance_frontier_is_self a fuel n :
  closed a -> (dom_fuel a <= fuel)%nat -> n ∈ block_ids a ->
  exists s, GetDominanceFrontier fuel a n = Ok s /\ forall x, x ∈ s <-> x = n /\ exists p, edge a p n.
Proof.
  intros Ha Hf Hn. destruct (Calculate_ok a fuel Ha Hf) as (D & E & Hi & _). unfold GetDominanceFrontier. rewrite E. cbn [rbind].
  destruct (frontier_of_spec a D n (block_ids a) Ha Hi Hn ltac:(auto)) as (s & Es & Hs). exists s. split; [exact Es |].
  intros x. rewrite Hs. split; [tauto |]. intros [-> H]. auto.
Qed.

(** The frontier of block 2 of the diamond should be block 4. *)
Lemma dominance_frontier_is_self_witness :
  GetDominanceFrontier 17 diamond 2 = Ok {[2]} /\
  exists s, GetDominanceFrontier 17 diamond 2 = Ok s /\ forall x, x ∈ s <-> x = 2 /\ exists p, edge diamond p 2.
Proof. split; [vm_compute; reflexivity |]. apply dominance_frontier_is_self; [apply diamond_closed | vm_compute; lia | apply (bool_decide_unpack _); exact I]. Defined.
