(* ===== verification/SSAInterp.v ===== *)
(** * The SSA interpreter

    src/gensim/src/genC/ssa/testing/SSAInterpreter.cpp and
    SSAInterpreterStatementVisitor.cpp: what an action in SSA form does, as the
    tests of GenSim define it.  The types of statements, which the interpreter
    asks for, are the [GetType] methods of
    src/gensim/inc/genC/ssa/statement. *)

From stdpp Require Import base list numbers strings gmap.
From Stdlib Require Import ZArith Lia SpecFloat.
From S2P Require Import Prelude IRTypes RegisterFile IRConstants ConstantFold SSAForm SSAMachine.
#[local] Open Scope Z_scope.

(** ** The context of an action

    The register file of the architecture, the actions by their address (an
    action that is not in SSA form has only a return type), and the contents of
    uninitialised variables. *)
Inductive SSAActionBase :=
| FormAction (a : SSAFormAction)
| ExternalAction (return_type : IRType).

Record SSAContext := mkContext {
  RegFile : RegisterFile;
  Actions : gmap Z SSAActionBase;
  uninitialised : Z
}.

Definition action_ReturnType (b : SSAActionBase) : IRType :=
  match b with FormAction a => ReturnType a | ExternalAction t => t end.

Section Interpreter.
Context (ctx : SSAContext).

(** ** Types *)

Definition symbol_type (a : SSAFormAction) (s : Z) : result IRType :=
  of_option UndefinedBehaviour (option_map snd (List.find (fun p => fst p =? s) (_symbols a))).

(** The operand [i] as a symbol. *)
Definition symbol_operand (s : SSAStatement) (i : Z) : result Z :=
  let* o := GetOperand s i in
  match o with OSymbol x => Ok x | _ => Err UndefinedBehaviour end.
Definition action_operand (s : SSAStatement) (i : Z) : result SSAActionBase :=
  let* o := GetOperand s i in
  match o with OAction x => of_option UndefinedBehaviour (Actions ctx !! x) | _ => Err UndefinedBehaviour end.

Definition register_type (is_banked : bool) (bank : Z) : result IRType :=
  if is_banked then let* b := GetBankByIdx (RegFile ctx) bank in GetRegisterIRType b
  else let* s := GetSlotByIdx (RegFile ctx) bank in Ok (slot_IRType s).

Fixpoint member_type (t : IRType) (names : list string) : result IRType :=
  match names with
  | [] => Ok t
  | n :: r =>
      match BaseType t with
      | StructType _ _ members => let* t1 := GetMemberType members n in member_type t1 r
      | PlainOldDataType _ => Err UndefinedBehaviour
      end
  end.

(** [GetType]; [fuel] bounds the chain of operands that are asked for their
    types. *)
Fixpoint type_of (fuel : nat) (a : SSAFormAction) (s : SSAStatement) : result IRType :=
  match fuel with
  | O => Err OutOfFuel
  | S n =>
      let operand i :=
        (let* x := stmt_operand s i in
         let* st := of_option UndefinedBehaviour (find_statement a x) in
         type_of n a st) in
      match kind s with
      | SConstant _ t | SCast t _ | SPhi t | SIntrinsic _ t => Ok t
      | SBinary op => let* l := operand 0 in let* r := operand 1 in Resolve op l r
      | SUnary _ | SBitDeposit | SBitExtract => operand 0
      | SSelect => operand 1
      | SVariableRead => let* t := symbol_operand s 0 in symbol_type a t
      | SRegister is_read is_banked bank => if is_read then register_type is_banked bank else Ok IRTypes.Void
      | SCall => let* t := action_operand s 0 in Ok (action_ReturnType t)
      | SReadStructMember names =>
          let* t := symbol_operand s 0 in
          let* ty := symbol_type a t in
          check* IsStruct ty or AssertFailed in
          member_type ty names
      | SVectorExtractElement => let* t := operand 0 in Ok (VectorOf t 1)
      | SVectorInsertElement => operand 2
      | SVectorShuffle => let* l := operand 0 in let* i := operand 2 in Ok (VectorOf l (VectorWidth i))
      | SVariableWrite | SVariableKill | SMemoryRead _ _ | SMemoryWrite _ | SDeviceRead
      | SJump | SIf | SSwitch | SReturn | SRaise => Ok IRTypes.Void
      end
  end.

(** An operand chain longer than the number of statements is a cycle, on which
    [GetType] does not return. *)
Definition GetType (a : SSAFormAction) (s : SSAStatement) : result IRType := type_of (S (length (all_statements a))) a s.
Definition operand_type (a : SSAFormAction) (s : SSAStatement) (i : Z) : result IRType :=
  let* x := stmt_operand s i in
  let* st := of_option UndefinedBehaviour (find_statement a x) in
  GetType a st.

(** ** The state of an action *)

Inductive InterpretResult := Interpret_Normal | Interpret_Exception | Interpret_Halt | Interpret_Error.
#[global] Instance interpret_result_eq_dec : EqDecision InterpretResult.
Proof. solve_decision. Defined.

Record VMActionState := mkVM {
  statements_ : gmap Z (Z * IRConstant);
  symbols_ : gmap Z IRConstant;
  interpret_result_ : InterpretResult;
  next_block_ : option Z;
  return_value_ : IRConstant;
  timestamp_ : Z
}.

Definition SetResult (r : InterpretResult) (v : VMActionState) : VMActionState :=
  mkVM (statements_ v) (symbols_ v) r (next_block_ v) (return_value_ v) (timestamp_ v).
Definition SetNextBlock (b : option Z) (v : VMActionState) : VMActionState :=
  mkVM (statements_ v) (symbols_ v) (interpret_result_ v) b (return_value_ v) (timestamp_ v).
Definition SetReturnValue (c : IRConstant) (v : VMActionState) : VMActionState :=
  mkVM (statements_ v) (symbols_ v) (interpret_result_ v) (next_block_ v) c (timestamp_ v).

Definition HasStatementValue (v : VMActionState) (s : Z) : bool := bool_decide (is_Some (statements_ v !! s)).
Definition GetStatementTimestamp (v : VMActionState) (s : Z) : result Z := of_option OutOfRange (option_map fst (statements_ v !! s)).
Definition GetStatementValue (v : VMActionState) (s : Z) : result IRConstant := of_option OutOfRange (option_map snd (statements_ v !! s)).

Definition valid_constant (c : IRConstant) : bool := negb (bool_decide (Type_ c = Type_Invalid)).

Definition SetStatementValue (a : SSAFormAction) (s : SSAStatement) (value : IRConstant) (v : VMActionState) : result VMActionState :=
  check* valid_constant value or AssertFailed in
  let* t := GetType a s in
  let* c := Cast value t t in
  Ok (mkVM (<[address s := (timestamp_ v, c)]> (statements_ v)) (symbols_ v) (interpret_result_ v) (next_block_ v) (return_value_ v)
        (u64 (timestamp_ v + 1))).

Definition SetSymbolValue (a : SSAFormAction) (symbol : Z) (value : IRConstant) (v : VMActionState) : result VMActionState :=
  check* valid_constant value or AssertFailed in
  let* t := symbol_type a symbol in
  let* c := Cast value t t in
  Ok (mkVM (statements_ v) (<[symbol := c]> (symbols_ v)) (interpret_result_ v) (next_block_ v) (return_value_ v) (timestamp_ v)).

Definition scalar_default (t : IRType) : result IRConstant :=
  let* p := pod_of t in
  Ok (match p with FLOAT => CFloat (S754_zero false) | DOUBLE => CDouble (S754_zero false) | _ => CInteger 0 end).
Definition GetDefaultValue (t : IRType) : result IRConstant :=
  check* negb (IsStruct t) or AssertFailed in
  let* c := scalar_default t in
  Ok (if 1 <? VectorWidth t then CVector (replicate (Z.to_nat (VectorWidth t)) c) else c).

(** A symbol without a value gets the default value of its type. *)
Definition GetSymbolValue (a : SSAFormAction) (symbol : Z) (v : VMActionState) : result (IRConstant * VMActionState) :=
  match symbols_ v !! symbol with
  | Some c => Ok (c, v)
  | None =>
      let* t := symbol_type a symbol in
      let* d := GetDefaultValue t in
      let* v1 := SetSymbolValue a symbol d v in
      let* c := of_option OutOfRange (symbols_ v1 !! symbol) in
      Ok (c, v1)
  end.

Definition operand_value (v : VMActionState) (s : SSAStatement) (i : Z) : result IRConstant :=
  let* x := stmt_operand s i in GetStatementValue v x.

(** ** Registers and memory *)

(** The 64-bit variable [data] after [bytes] were stored at its start; more
    than eight bytes overrun it. *)
Definition overlay (bytes : list Z) : result Z :=
  check* Z.of_nat (length bytes) <=? 8 or UndefinedBehaviour in
  let n := 8 * Z.of_nat (length bytes) in
  Ok (of_bytes bytes .| Z.shiftl (Z.shiftr (u64 (uninitialised ctx)) n) n).

(** The bits of an IEEE format, read back. *)
Definition ieee_of_bits (prec emax ebits z : Z) : spec_float :=
  let s := Z.testbit z (prec + ebits - 1) in
  let e := Z.land (Z.shiftr z (prec - 1)) (2 ^ ebits - 1) in
  let m := Z.land z (2 ^ (prec - 1) - 1) in
  if e =? 2 ^ ebits - 1 then (if m =? 0 then S754_infinity s else S754_nan)
  else if e =? 0 then match m with Zpos p => S754_finite s p (3 - emax - prec) | _ => S754_zero s end
  else match 2 ^ (prec - 1) + m with Zpos p => S754_finite s p (e - 1 + (3 - emax - prec)) | _ => S754_nan end.

Definition lift_regs {A} (r : result A) : stateful RegisterFileState A := fun s => (s, r).

Definition ReadElement (offset : Z) (t : IRType) : stateful RegisterFileState IRConstant :=
  do* _ := lift_regs (check* VectorWidth t =? 1 or AssertFailed in Ok tt) in
  do* n := lift_regs (SizeInBytes t) in
  do* bytes := regs_Read (u32 offset) 0 (Z.to_nat n) in
  do* data := lift_regs (overlay bytes) in
  do* p := lift_regs (pod_of t) in
  sret (match p with
        | FLOAT => CFloat (ieee_of_bits 24 128 8 (u32 data))
        | DOUBLE => CDouble (ieee_of_bits 53 1024 11 data)
        | _ => CInteger data
        end).

(** The elements of a vector register; the offset advances by the size of the
    whole vector. *)
Fixpoint read_elements (k : nat) (i offset : Z) (t : IRType) (vector : list IRConstant) : stateful RegisterFileState (list IRConstant) :=
  match k with
  | O => sret vector
  | S k1 =>
      do* e := ReadElement offset (GetElementType t) in
      do* v := lift_regs (SetElement vector i e) in
      do* n := lift_regs (SizeInBytes t) in
      read_elements k1 (i + 1) (u64 (offset + n)) t v
  end.

Fixpoint write_elements (k : nat) (i offset size stride : Z) (vector : list IRConstant) : stateful RegisterFileState unit :=
  match k with
  | O => sret tt
  | S k1 =>
      do* e := lift_regs (GetElement vector i) in
      do* data := lift_regs (POD e) in
      do* _ := lift_regs (check* size <=? 8 or UndefinedBehaviour in Ok tt) in
      do* _ := regs_Write (u32 offset) 0 (to_bytes (Z.to_nat size) data) in
      write_elements k1 (i + 1) (u64 (offset + stride)) size stride vector
  end.

(** Where a register statement finds its data: offset, size, stride and type
    of the value. *)
Definition register_place (v : VMActionState) (s : SSAStatement) (is_banked : bool) (bank : Z) : result (Z * Z * Z * IRType) :=
  if is_banked then
    let* b := GetBankByIdx (RegFile ctx) bank in
    let* r := operand_value v s 0 in
    let* regnum := Int r in
    let* base := bank_RegFileOffset (RegFile ctx) b in
    let* t := GetRegisterIRType b in
    Ok (u64 (base + u64 (regnum * RegisterStride b)), bank_ElementSize b, ElementStride b, t)
  else
    let* sl := GetSlotByIdx (RegFile ctx) bank in
    let* base := slot_RegFileOffset (RegFile ctx) sl in
    Ok (base, slot_Size sl, slot_Size sl, slot_IRType sl).

(** [catch(std::exception)]: undefined behaviour and lack of fuel are not
    exceptions. *)
Definition catch_errors {A} (r : result A) (v : VMActionState) (k : A -> result VMActionState) : result VMActionState :=
  match r with
  | Ok x => k x
  | Err UndefinedBehaviour => Err UndefinedBehaviour
  | Err OutOfFuel => Err OutOfFuel
  | Err _ => Ok (SetResult Interpret_Error v)
  end.

Definition set_value_caught (a : SSAFormAction) (s : SSAStatement) (v : VMActionState) (c : IRConstant) : result VMActionState :=
  catch_errors (SetStatementValue a s c v) v (fun v1 => Ok (SetResult Interpret_Normal v1)).

Definition VisitRegisterStatement (a : SSAFormAction) (s : SSAStatement) (is_read is_banked : bool) (bank : Z)
    (st : VMActionState * MachineState) : result (VMActionState * MachineState) :=
  let '(v, m) := st in
  let* (offset, size, stride, t) := register_place v s is_banked bank in
  if is_read then
    let '(rf, r) :=
      (if 1 <? VectorWidth t then
         do* d := lift_regs (scalar_default (GetElementType t)) in
         do* vec := read_elements (Z.to_nat (VectorWidth t)) 0 offset t (replicate (Z.to_nat (VectorWidth t)) d) in
         sret (CVector vec)
       else ReadElement offset t) (regfile m) in
    let* v1 := catch_errors r v (set_value_caught a s v) in
    Ok (v1, mkMachine rf (memory m))
  else
    let '(rf, r) :=
      (do* vt := lift_regs (operand_type a s 1) in
       do* value := lift_regs (operand_value v s 1) in
       if 1 <? VectorWidth vt then
         do* vec := lift_regs (GetVector value) in
         write_elements (Z.to_nat (VectorWidth vt)) 0 offset size stride vec
       else
         do* data := lift_regs (POD value) in
         do* _ := lift_regs (check* size <=? 8 or UndefinedBehaviour in Ok tt) in
         regs_Write (u32 offset) 0 (to_bytes (Z.to_nat size) data)) (regfile m) in
    let* v1 := catch_errors r v (fun _ => Ok (SetResult Interpret_Normal v)) in
    Ok (v1, mkMachine rf (memory m)).

Definition VisitMemoryReadStatement (a : SSAFormAction) (s : SSAStatement) (width : Z) (st : VMActionState * MachineState)
  : result (VMActionState * MachineState) :=
  let '(v, m) := st in
  let* addr := operand_value v s 1 in
  let* ad := Int addr in
  let '(m1, bytes) := mem_Read ad 0 (Z.to_nat width) (memory m) in
  let* data := overlay bytes in
  let* target := symbol_operand s 0 in
  let* v1 := SetSymbolValue a target (CInteger data) v in
  Ok (SetResult Interpret_Normal v1, mkMachine (regfile m) m1).

Definition VisitMemoryWriteStatement (s : SSAStatement) (width : Z) (st : VMActionState * MachineState)
  : result (VMActionState * MachineState) :=
  let '(v, m) := st in
  let* addr := operand_value v s 0 in
  let* ad := Int addr in
  let* value := operand_value v s 1 in
  let* data := Int value in
  check* width <=? 8 or UndefinedBehaviour in
  Ok (SetResult Interpret_Normal v, mkMachine (regfile m) (mem_Write ad 0 (to_bytes (Z.to_nat width) data) (memory m))).

(** ** Intrinsics *)

Fixpoint popcount (n : nat) (z : Z) : Z := match n with O => 0 | S k => Z.b2z (Z.odd z) + popcount k (Z.shiftr z 1) end.

(** [__builtin_clz] is undefined on zero. *)
Definition clz32 (z : Z) : result Z := if z =? 0 then Err UndefinedBehaviour else Ok (31 - Z.log2 z).

Definition tag_offset (tag : string) : result Z :=
  let* s := GetTaggedRegSlot (RegFile ctx) tag in slot_RegFileOffset (RegFile ctx) s.

(** [Write8]s of the register file, which nobody catches here. *)
Fixpoint write_flags (l : list (Z * Z)) (m : MachineState) : result MachineState :=
  match l with
  | [] => Ok m
  | (offset, value) :: r =>
      match regs_WriteByte (u32 offset) (u8 value) (regfile m) with
      | (rf, Ok _) => write_flags r (mkMachine rf (memory m))
      | (_, Err e) => Err e
      end
  end.

Definition update_zn (value : Z) (m : MachineState) : result MachineState :=
  let* z_offset := tag_offset "Z" in
  let* n_offset := tag_offset "N" in
  write_flags [(z_offset, Z.b2z (value =? 0)); (n_offset, Z.b2z (value <? 0))] m.

(** The flags of a 32-bit addition with carry: N, Z, C and V. *)
Definition adc_flags (lhs rhs result : Z) : Z * Z * Z * Z :=
  let top := 2147483648 in
  (Z.b2z (negb (Z.land result top =? 0)), Z.b2z (u32 result =? 0), Z.b2z (result >? 4294967295),
   Z.b2z ((Z.land lhs top =? Z.land rhs top) && negb (Z.land lhs top =? Z.land result top))).

Definition VisitADC (a : SSAFormAction) (s : SSAStatement) (id : IntrinsicID) (st : VMActionState * MachineState)
  : result (VMActionState * MachineState) :=
  let '(v, m) := st in
  let* lc := operand_value v s 0 in
  let* rc := operand_value v s 1 in
  let* cc := operand_value v s 2 in
  let* lhs := Int lc in
  let* rhs := Int rc in
  let* carry_in := Int cc in
  let sum := u64 (lhs + rhs + carry_in) in
  let* v1 := SetStatementValue a s (CInteger sum) v in
  match id with
  | ADC32_Flags =>
      let '(n, z, c, o) := adc_flags lhs rhs sum in
      let* c_offset := tag_offset "C" in
      let* v_offset := tag_offset "V" in
      let* z_offset := tag_offset "Z" in
      let* n_offset := tag_offset "N" in
      let* m1 := write_flags [(c_offset, c); (v_offset, o); (z_offset, z); (n_offset, n)] m in
      Ok (v1, m1)
  | ADC64_Flags => Err NotImplemented
  | _ => Ok (v1, m)
  end.

Definition VisitIntrinsicStatement (a : SSAFormAction) (s : SSAStatement) (id : IntrinsicID) (st : VMActionState * MachineState)
  : result (VMActionState * MachineState) :=
  let '(v0, m) := st in
  let v := SetResult Interpret_Normal v0 in
  let set c := (let* v1 := SetStatementValue a s c v in Ok (v1, m)) in
  match id with
  | GetFeature | GetCpuMode | ReadPC | FPGetFlush | FPGetRounding | FPSetFlush | FPSetRounding => set (CInteger 0)
  | SetCpuMode | TakeException | PendInterrupt | Trap | WriteDevice32 | PopInterrupt | PushInterrupt
  | EnterKernelMode | EnterUserMode | SetFeature => Ok (v, m)
  | PopCount32 => let* c := operand_value v s 0 in let* i := Int c in set (CInteger (popcount 32 (u32 i)))
  | DoubleSqrt => let* c := operand_value v s 0 in let* d := Dbl c in set (CDouble (SFsqrt 53 1024 d))
  | FloatSqrt => let* c := operand_value v s 0 in let* f := Flt c in set (CFloat (SFsqrt 24 128 f))
  | UpdateZNFlags32 => let* c := operand_value v s 0 in let* i := Int c in let* m1 := update_zn (sext 32 i) m in Ok (v, m1)
  | UpdateZNFlags64 => let* c := operand_value v s 0 in let* i := Int c in let* m1 := update_zn (sext 64 i) m in Ok (v, m1)
  | ADC32 | ADC32_Flags | ADC64 | ADC64_Flags => VisitADC a s id (v, m)
  | CLZ32 => let* c := operand_value v s 0 in let* i := Int c in let* r := clz32 (u32 i) in set (CInteger r)
  | HaltCpu => Ok (SetResult Interpret_Halt v, m)
  | UnhandledIntrinsic _ => Err LogicError
  end.

(** ** Phi, switch and vectors *)

(** The member with the latest value. *)
Fixpoint latest (v : VMActionState) (members : list SSAOperand) (found : option (Z * IRConstant)) : result (option (Z * IRConstant)) :=
  match members with
  | [] => Ok found
  | OStmt i :: r =>
      latest v r
        (match statements_ v !! i, found with
         | None, _ => found
         | Some x, None => Some x
         | Some (t, c), Some (t0, c0) => if t >? t0 then Some (t, c) else Some (t0, c0)
         end)
  | _ :: _ => Err UndefinedBehaviour
  end.

(** The last case, in the order of the addresses of the case values, whose
    constant is [expr]. *)
Fixpoint switch_target (a : SSAFormAction) (matches : IRConstant -> result bool) (cases : list (Z * Z)) (next : Z) : result Z :=
  match cases with
  | [] => Ok next
  | (value, target) :: r =>
      let* st := of_option UndefinedBehaviour (find_statement a value) in
      match kind st with
      | SConstant c _ =>
          let* b := matches c in
          switch_target a matches r (if (b : bool) then target else next)
      | _ => Err LogicError
      end
  end.

Fixpoint shuffle (v0 v1 : list IRConstant) (i : Z) (indices output : list IRConstant) : result (list IRConstant) :=
  match indices with
  | [] => Ok output
  | c :: r =>
      let* n := Int c in
      let index := sext 32 n in
      let width := Z.of_nat (length v0) in
      let* e := if index <? width then GetElement v0 index else GetElement v1 (index - width) in
      let* o := SetElement output i e in
      shuffle v0 v1 (i + 1) r o
  end.

Definition vector_index (index : IRConstant) (v : list IRConstant) : result Z :=
  let* i := Int index in
  let w := Z.of_nat (length v) in
  if w =? 0 then Err UndefinedBehaviour else Ok (i mod w).

Definition VisitVectorExtract (a : SSAFormAction) (s : SSAStatement) (v : VMActionState) : result VMActionState :=
  let* base := operand_value v s 0 in
  let* index := operand_value v s 1 in
  let* vec := GetVector base in
  let* i := vector_index index vec in
  let* e := GetElement vec i in
  let* t := operand_type a s 0 in
  let* c := Cast e (GetElementType t) (GetElementType t) in
  let* v1 := SetStatementValue a s c v in
  Ok (SetResult Interpret_Normal v1).

Definition VisitVectorInsert (a : SSAFormAction) (s : SSAStatement) (v : VMActionState) : result VMActionState :=
  let* base := operand_value v s 2 in
  let* value := operand_value v s 1 in
  let* t := operand_type a s 2 in
  let* c := Cast value (GetElementType t) (GetElementType t) in
  let* vec := GetVector base in
  let* index := operand_value v s 0 in
  let* i := vector_index index vec in
  let* vec1 := SetElement vec i c in
  let* v1 := SetStatementValue a s (CVector vec1) v in
  Ok (SetResult Interpret_Normal v1).

Definition VisitVectorShuffle (a : SSAFormAction) (s : SSAStatement) (v : VMActionState) : result VMActionState :=
  let* c0 := operand_value v s 0 in
  let* v0 := GetVector c0 in
  let* c1 := operand_value v s 1 in
  let* v1 := GetVector c1 in
  let* ci := operand_value v s 2 in
  let* indices := GetVector ci in
  let* e0 := GetElement v0 0 in
  let* output := shuffle v0 v1 0 indices (replicate (length indices) e0) in
  let* r := SetStatementValue a s (CVector output) v in
  Ok (SetResult Interpret_Normal r).

(** ** Calls

    What [ExecuteAction] answers; [call] is the call of it on the callee, with
    an interpreter that shares the machine state. *)
Record ActionResult := mkResult {
  Result : InterpretResult;
  ReturnValue : IRConstant;
  ReferenceParameterValues : gmap Z IRConstant
}.

Fixpoint call_arguments (a : SSAFormAction) (args : list SSAOperand) (v : VMActionState) : result (list IRConstant * VMActionState) :=
  match args with
  | [] => Ok ([], v)
  | OStmt x :: r =>
      let* c := GetStatementValue v x in
      let* (l, v1) := call_arguments a r v in
      Ok (c :: l, v1)
  | OSymbol x :: r =>
      let* (c, v1) := GetSymbolValue a x v in
      let* (l, v2) := call_arguments a r v1 in
      Ok (c :: l, v2)
  | _ :: r => call_arguments a r v
  end.

Fixpoint reference_results (a : SSAFormAction) (args : list SSAOperand) (i : Z) (values : gmap Z IRConstant) (v : VMActionState) : result VMActionState :=
  match args with
  | [] => Ok v
  | OSymbol x :: r =>
      let* c := of_option OutOfRange (values !! i) in
      let* v1 := SetSymbolValue a x c v in
      reference_results a r (i + 1) values v1
  | _ :: r => reference_results a r (i + 1) values v
  end.

Definition not_void (t : IRType) : result bool := let* b := type_eqb t IRTypes.Void in Ok (negb b).

Section Visitor.
Context (call : SSAFormAction -> list IRConstant -> MachineState -> result (ActionResult * MachineState)).

Definition VisitCallStatement (a : SSAFormAction) (s : SSAStatement) (st : VMActionState * MachineState) : result (VMActionState * MachineState) :=
  let '(v, m) := st in
  let* target := action_operand s 0 in
  match target with
  | ExternalAction _ => Err LogicError
  | FormAction callee =>
      let args := drop 1 (operands_ s) in
      let* (params, v1) := call_arguments a args v in
      let* (r, m1) := call callee params m in
      let* v2 := reference_results a args 0 (ReferenceParameterValues r) v1 in
      let* valued := not_void (ReturnType callee) in
      let* v3 := if bool_decide (Result r = Interpret_Normal) && valued then SetStatementValue a s (ReturnValue r) v2 else Ok v2 in
      Ok (SetResult (Result r) v3, m1)
  end.

(** [statement->Accept(visitor)]. *)
Definition visit (a : SSAFormAction) (s : SSAStatement) (st : VMActionState * MachineState) : result (VMActionState * MachineState) :=
  let '(v, m) := st in
  let set c := (let* v1 := SetStatementValue a s c v in Ok (SetResult Interpret_Normal v1, m)) in
  let next b := Ok (SetResult Interpret_Normal (SetNextBlock b v), m) in
  match kind s with
  | SConstant c _ => set c
  | SBinary op =>
      let* l := operand_value v s 0 in
      let* r := operand_value v s 1 in
      let* lt := operand_type a s 0 in
      let* rt := operand_type a s 1 in
      let* c := interp_binary op lt rt l r in
      set c
  | SUnary op => let* i := operand_value v s 0 in let* c := interp_unary op i in set c
  | SCast t _ =>
      let* base := operand_value v s 0 in
      let* from := operand_type a s 0 in
      let* c := Cast base from t in
      set c
  | SSelect =>
      let* expr := operand_value v s 0 in
      let* b := const_bool expr in
      let* c := if (b : bool) then operand_value v s 1 else operand_value v s 2 in
      set c
  | SPhi _ =>
      let* found := latest v (operands_ s) None in
      let* (_, c) := of_option AssertFailed found in
      set c
  | SVariableRead =>
      let* t := symbol_operand s 0 in
      let* (c, v1) := GetSymbolValue a t v in
      let* v2 := SetStatementValue a s c v1 in
      Ok (SetResult Interpret_Normal v2, m)
  | SVariableWrite =>
      let* t := symbol_operand s 0 in
      let* c := operand_value v s 1 in
      let* v1 := SetSymbolValue a t c v in
      Ok (SetResult Interpret_Normal v1, m)
  | SRegister is_read is_banked bank => VisitRegisterStatement a s is_read is_banked bank st
  | SMemoryRead width _ => VisitMemoryReadStatement a s width st
  | SMemoryWrite width => VisitMemoryWriteStatement s width st
  | SDeviceRead =>
      let* t := symbol_operand s 0 in
      let* v1 := SetSymbolValue a t (CInteger 0) v in
      let* v2 := SetStatementValue a s (CInteger 0) v1 in
      Ok (SetResult Interpret_Normal v2, m)
  | SIntrinsic id _ => VisitIntrinsicStatement a s id st
  | SCall => VisitCallStatement a s st
  | SVectorExtractElement => let* v1 := VisitVectorExtract a s v in Ok (v1, m)
  | SVectorInsertElement => let* v1 := VisitVectorInsert a s v in Ok (v1, m)
  | SVectorShuffle => let* v1 := VisitVectorShuffle a s v in Ok (v1, m)
  | SVariableKill | SReadStructMember _ | SBitDeposit | SBitExtract => Err NotImplemented
  | SJump => let* b := block_operand s 0 in next (Some b)
  | SIf =>
      let* expr := operand_value v s 0 in
      let* b := const_bool expr in
      let* t := if (b : bool) then block_operand s 1 else block_operand s 2 in
      next (Some t)
  | SSwitch =>
      let* d := block_operand s 1 in
      let* e := operand_value v s 0 in
      let* expr := Int e in
      let* values := GetValues s in
      let* t := switch_target a (fun c => let* i := Int c in Ok (i =? expr)) values d in
      next (Some t)
  | SReturn =>
      let* o := GetOperand s 0 in
      match o with
      | ONull => next None
      | OStmt x =>
          let* c := GetStatementValue v x in
          Ok (SetResult Interpret_Normal (SetNextBlock None (SetReturnValue c v)), m)
      | _ => Err UndefinedBehaviour
      end
  | SRaise => Err LogicError
  end.

(** [ExecuteBlock]: the statements in turn, up to one whose result is not
    normal. *)
Fixpoint execute_statements (a : SSAFormAction) (l : list SSAStatement) (st : VMActionState * MachineState)
  : result (InterpretResult * (VMActionState * MachineState)) :=
  match l with
  | [] => Ok (Interpret_Normal, st)
  | s :: r =>
      let* st1 := visit a s st in
      if bool_decide (interpret_result_ (fst st1) = Interpret_Normal) then execute_statements a r st1
      else Ok (interpret_result_ (fst st1), st1)
  end.

Fixpoint execute_blocks (fuel : nat) (a : SSAFormAction) (next : option Z) (st : VMActionState * MachineState)
  : result (InterpretResult * (VMActionState * MachineState)) :=
  match next with
  | None => Ok (Interpret_Normal, st)
  | Some x =>
      match fuel with
      | O => Err OutOfFuel
      | S n =>
          let* b := deref_block a x in
          let* (r, st1) := execute_statements a (Statements b) st in
          if bool_decide (r = Interpret_Normal) then execute_blocks n a (next_block_ (fst st1)) st1 else Ok (r, st1)
      end
  end.

Fixpoint set_parameters (a : SSAFormAction) (symbols : list Z) (values : list IRConstant) (v : VMActionState) : result VMActionState :=
  match symbols, values with
  | s :: rs, c :: rc => let* v1 := SetSymbolValue a s c v in set_parameters a rs rc v1
  | [], [] => Ok v
  | _, _ => Err LogicError
  end.

(** The values of the reference parameters, by their position. *)
Fixpoint reference_parameters (a : SSAFormAction) (symbols : list Z) (i : Z) (v : VMActionState) : result (gmap Z IRConstant) :=
  match symbols with
  | [] => Ok ∅
  | s :: r =>
      let* t := symbol_type a s in
      if Reference t then
        let* (c, v1) := GetSymbolValue a s v in
        let* m := reference_parameters a r (i + 1) v1 in
        Ok (<[i := c]> m)
      else reference_parameters a r (i + 1) v
  end.

Definition ExecuteAction (fuel : nat) (a : SSAFormAction) (param_values : list IRConstant) (m : MachineState)
  : result (ActionResult * MachineState) :=
  check* bool_decide (length param_values = length (ParamSymbols a)) or LogicError in
  let start := mkVM ∅ ∅ Interpret_Error None CInvalid (u64 (uninitialised ctx)) in
  let* v0 := set_parameters a (ParamSymbols a) param_values start in
  let* (r, (v, m1)) := execute_blocks fuel a (Some (EntryBlock a)) (v0, m) in
  let* valued := not_void (ReturnType a) in
  let* refs := reference_parameters a (ParamSymbols a) 0 v in
  Ok (mkResult r (if (valued : bool) then return_value_ v else CInvalid) refs, m1).
End Visitor.

(** The interpreter with its calls: [depth] bounds their nesting and [fuel] the
    number of blocks of every action. *)
Fixpoint Interpret (depth fuel : nat) (a : SSAFormAction) (param_values : list IRConstant) (m : MachineState)
  : result (ActionResult * MachineState) :=
  match depth with
  | O => Err OutOfFuel
  | S d => ExecuteAction (fun callee l m => Interpret d fuel callee l m) fuel a param_values m
  end.
End Interpreter.

(** ** The flags of an addition *)

Lemma land_top a : in_range 33 a -> Z.land a 2147483648 = if Z.testbit a 31 then 2147483648 else 0.
Proof.
  intros Ha. apply Z.bits_inj'. intros i Hi. rewrite Z.land_spec. change 2147483648 with (2 ^ 31). rewrite Z.pow2_bits_eqb by lia.
  destruct (Z.eqb_spec 31 i) as [<- | Hne].
  - destruct (Z.testbit a 31); reflexivity.
  - rewrite andb_false_r. destruct (Z.testbit a 31); [rewrite Z.pow2_bits_eqb by lia; destruct (Z.eqb_spec 31 i); [contradiction | reflexivity] | rewrite Z.bits_0; reflexivity].
Qed.

Lemma top_bit a : in_range 32 a -> Z.testbit a 31 = (2147483648 <=? a).
Proof.
  intros [H0 H1]. rewrite Z.testbit_eqb by lia. change (2 ^ 31) with 2147483648. change (2 ^ 32) with 4294967296 in H1.
  destruct (Z.leb_spec 2147483648 a).
  - rewrite <- (Z.div_unique a 2147483648 1 (a - 2147483648)) by lia. reflexivity.
  - rewrite Z.div_small by lia. reflexivity.
Qed.

(** The flags of the interpreted 32-bit addition with carry are those
    of the architecture: N and Z of the 32-bit result, C the carry out, and V
    set exactly when the signed sum does not fit 32 bits. *)
Theorem adc_flags_correct a b c :
  in_range 32 a -> in_range 32 b -> 0 <= c <= 1 ->
  let sum := a + b + c in
  adc_flags a b (u64 sum) =
    (Z.b2z (sext 32 sum <? 0), Z.b2z (wrap 32 sum =? 0), Z.b2z (2 ^ 32 <=? sum),
     Z.b2z (negb (sext 32 sum =? sext 32 a + sext 32 b + c))).
Proof.
  intros Ha Hb Hc sum. assert (Hsum : 0 <= sum < 2 ^ 33) by (unfold in_range, sum in *; lia).
  assert (E : u64 sum = sum) by (apply (wrap_small 64); unfold in_range; lia). rewrite E. unfold adc_flags.
  rewrite !land_top by (unfold in_range in *; lia). rewrite (top_bit a Ha), (top_bit b Hb).
  assert (Et : Z.testbit sum 31 = (2147483648 <=? wrap 32 sum)).
  { rewrite <- top_bit by (apply wrap_range; lia). rewrite testbit_wrap by lia. reflexivity. }
  rewrite Et. unfold u32, sext. rewrite (wrap_small 32 a Ha), (wrap_small 32 b Hb). unfold in_range in Ha, Hb.
  change (2 ^ (32 - 1)) with 2147483648 in *. change (2 ^ 32) with 4294967296 in *. rewrite Z.gtb_ltb.
  assert (Hw : wrap 32 sum = if sum <? 4294967296 then sum else sum - 4294967296).
  { destruct (Z.ltb_spec sum 4294967296); [apply wrap_small; unfold in_range; change (2 ^ 32) with 4294967296; lia |].
    unfold wrap. change (2 ^ 32) with 4294967296. symmetry. apply (Z.mod_unique _ _ 1); unfold sum in *; lia. }
  rewrite Hw. subst sum. clear Hw Et E.
  repeat match goal with
  | |- context [?x <=? ?y] => destruct (Z.leb_spec x y); try lia
  | |- context [?x <? ?y] => destruct (Z.ltb_spec x y); try lia
  | |- context [?x =? ?y] => destruct (Z.eqb_spec x y); try lia
  end; reflexivity.
Qed.

Lemma adc_flags_correct_witness :
  adc_flags 2147483647 0 (u64 2147483648) = (1, 0, 0, 1) /\
  adc_flags 2147483647 0 (u64 (2147483647 + 0 + 1)) =
    (Z.b2z (sext 32 (2147483647 + 0 + 1) <? 0), Z.b2z (wrap 32 (2147483647 + 0 + 1) =? 0), Z.b2z (2 ^ 32 <=? 2147483647 + 0 + 1),
     Z.b2z (negb (sext 32 (2147483647 + 0 + 1) =? sext 32 2147483647 + sext 32 0 + 1))).
Proof. split; [reflexivity |]. apply (adc_flags_correct 2147483647 0 1); unfold in_range; lia. Defined.

(** ** Vector registers *)

(** A bank of one register of two 32-bit elements, and an action that writes
    the vector (1, 2) to it and returns what it reads back. *)
Definition vector_file : RegisterFile :=
  match load_regspaces empty_file [(16, [DBank "V" "uint32" 0 2 8 2 4 4])]%string with Ok rf => rf | Err _ => empty_file end.
Definition vector_copy : SSAFormAction :=
  mkAction 1
    [mkBlock 1
      [mkStmt 10 (SConstant (CInteger 0) IRTypes.UInt32) [];
       mkStmt 11 (SConstant (CVector [CInteger 1; CInteger 2]) (VectorOf IRTypes.UInt32 2)) [];
       mkStmt 12 (SRegister false true 0) [OStmt 10; OStmt 11];
       mkStmt 13 (SRegister true true 0) [OStmt 10; ONull];
       mkStmt 14 SReturn [OStmt 13]]]
    [] 100 [] (VectorOf IRTypes.UInt32 2).

(** The interpreter reads the elements of a vector register too far
    apart: after (1, 2) was written to a register of two elements, reading it
    gives 1 and the contents of the next register. *)
Theorem vector_register_misread :
  file_Resolve vector_file = true /\
  match Interpret (mkContext vector_file ∅ 0) 1 5 vector_copy [] (mkMachine (mkRegs ∅ 16 false) ∅) with
  | Ok (r, _) => ReturnValue r = CVector [CInteger 1; CInteger (of_bytes [8; 9; 10; 11])]
  | Err _ => False
  end.
Proof. split; vm_compute; reflexivity. Qed.
