(* ===== verification/SSAInterpFacts.v ===== *)
(** * What the SSA interpreter depends on

    Two actions whose statements give the operands of a statement the same
    types interpret it alike; a statement changes the value of no other
    statement; more fuel gives the same result. *)

From stdpp Require Import base list numbers strings gmap.
From Stdlib Require Import ZArith Lia SpecFloat.
From S2P Require Import Prelude IRTypes RegisterFile IRConstants ConstantFold SSAForm SSAMachine SSAInterp.
#[local] Open Scope Z_scope.

Lemma rbind_ext {A B} (m m' : result A) (k k' : A -> result B) : m = m' -> (forall x, k x = k' x) -> rbind m k = rbind m' k'.
Proof. intros -> H. destruct m'; [apply H | reflexivity]. Qed.

(** ** Agreement *)

Section Agree.
Context (ctx : SSAContext) (a a' : SSAFormAction) (s : SSAStatement).
Hypothesis HT : GetType ctx a s = GetType ctx a' s.
Hypothesis HO : forall i, operand_type ctx a s i = operand_type ctx a' s i.
Hypothesis HS : _symbols a = _symbols a'.
Hypothesis HW : forall f l d, switch_target a f l d = switch_target a' f l d \/ GetValues s <> Ok l.

Lemma symbol_type_agree x : symbol_type a x = symbol_type a' x.
Proof. unfold symbol_type. rewrite HS. reflexivity. Qed.

Lemma SetStatementValue_agree c v : SetStatementValue ctx a s c v = SetStatementValue ctx a' s c v.
Proof. unfold SetStatementValue. rewrite HT. reflexivity. Qed.

Lemma SetSymbolValue_agree x c v : SetSymbolValue a x c v = SetSymbolValue a' x c v.
Proof. unfold SetSymbolValue. rewrite symbol_type_agree. reflexivity. Qed.

Lemma GetSymbolValue_agree x v : GetSymbolValue a x v = GetSymbolValue a' x v.
Proof.
  unfold GetSymbolValue. destruct (symbols_ v !! x); [reflexivity |]. rewrite symbol_type_agree. apply rbind_ext; [reflexivity |].
  intros t. apply rbind_ext; [reflexivity |]. intros d. rewrite SetSymbolValue_agree. reflexivity.
Qed.

Lemma call_arguments_agree l v : call_arguments a l v = call_arguments a' l v.
Proof.
  revert v. induction l as [| o l IH]; intros v; [reflexivity |]. cbn [call_arguments].
  destruct o; try apply IH; [rewrite IH; reflexivity |]. rewrite GetSymbolValue_agree. apply rbind_ext; [reflexivity |].
  intros [c v1]. rewrite IH. reflexivity.
Qed.

Lemma reference_results_agree l i values v : reference_results a l i values v = reference_results a' l i values v.
Proof.
  revert i v. induction l as [| o l IH]; intros i v; [reflexivity |]. cbn [reference_results].
  destruct o; try apply IH. apply rbind_ext; [reflexivity |]. intros c. rewrite SetSymbolValue_agree. apply rbind_ext; [reflexivity |].
  intros v1. apply IH.
Qed.

Lemma set_value_caught_agree v c : set_value_caught ctx a s v c = set_value_caught ctx a' s v c.
Proof. unfold set_value_caught. rewrite SetStatementValue_agree. reflexivity. Qed.

Lemma visit_register_agree is_read is_banked bank st :
  VisitRegisterStatement ctx a s is_read is_banked bank st = VisitRegisterStatement ctx a' s is_read is_banked bank st.
Proof.
  unfold VisitRegisterStatement. destruct st as [v m]. apply rbind_ext; [reflexivity |]. intros [[[offset size] stride] t].
  destruct is_read; [| rewrite HO; reflexivity]. match goal with |- (let '(_, _) := ?x in _) = _ => destruct x as [rf r] end.
  apply rbind_ext; [| reflexivity]. unfold catch_errors. destruct r as [c |]; [apply set_value_caught_agree | reflexivity].
Qed.

Lemma visit_adc_agree id st : VisitADC ctx a s id st = VisitADC ctx a' s id st.
Proof.
  unfold VisitADC. destruct st as [v m]. do 6 (apply rbind_ext; [reflexivity | intros ?]). rewrite SetStatementValue_agree. reflexivity.
Qed.

Lemma visit_intrinsic_agree id st : VisitIntrinsicStatement ctx a s id st = VisitIntrinsicStatement ctx a' s id st.
Proof.
  unfold VisitIntrinsicStatement. destruct st as [v m].
  destruct id; rewrite ?SetStatementValue_agree; try reflexivity; try apply visit_adc_agree;
    repeat (apply rbind_ext; [reflexivity | intros ?]); rewrite ?SetStatementValue_agree; reflexivity.
Qed.

Lemma visit_vector_agree v :
  VisitVectorExtract ctx a s v = VisitVectorExtract ctx a' s v /\
  VisitVectorInsert ctx a s v = VisitVectorInsert ctx a' s v /\ VisitVectorShuffle ctx a s v = VisitVectorShuffle ctx a' s v.
Proof.
  unfold VisitVectorExtract, VisitVectorInsert, VisitVectorShuffle.
  repeat split; repeat (apply rbind_ext; [first [reflexivity | apply HO | apply SetStatementValue_agree] | intros ?]); reflexivity.
Qed.

Lemma visit_call_agree call st : VisitCallStatement ctx call a s st = VisitCallStatement ctx call a' s st.
Proof.
  unfold VisitCallStatement. destruct st as [v m]. apply rbind_ext; [reflexivity |]. intros [callee |]; [| reflexivity].
  rewrite call_arguments_agree. apply rbind_ext; [reflexivity |]. intros [params v1]. apply rbind_ext; [reflexivity |]. intros [r m1].
  rewrite reference_results_agree. apply rbind_ext; [reflexivity |]. intros v2. apply rbind_ext; [reflexivity |]. intros valued.
  rewrite SetStatementValue_agree. reflexivity.
Qed.

(** A statement that is not a switch, or whose cases are found alike. *)
Lemma visit_agree call st : visit ctx call a s st = visit ctx call a' s st.
Proof.
  unfold visit. destruct st as [v m]. destruct (kind s);
    try apply visit_register_agree; try apply visit_intrinsic_agree; try apply visit_call_agree; try reflexivity;
    try (match goal with |- rbind (VisitVectorExtract _ _ _ _) _ = _ => idtac | |- rbind (VisitVectorInsert _ _ _ _) _ = _ => idtac
         | |- rbind (VisitVectorShuffle _ _ _ _) _ = _ => idtac end;
         apply rbind_ext; [apply visit_vector_agree | reflexivity]);
    try (unfold VisitMemoryReadStatement; apply rbind_ext; [reflexivity | intros ?]; apply rbind_ext; [reflexivity | intros ?];
         destruct (mem_Read _ _ _ _); apply rbind_ext; [reflexivity | intros ?]; apply rbind_ext; [reflexivity | intros ?];
         rewrite SetSymbolValue_agree; reflexivity);
    try (repeat (apply rbind_ext; [first [reflexivity | apply HO | apply SetStatementValue_agree | apply SetSymbolValue_agree | apply GetSymbolValue_agree]
           | first [intros [? ?] | intros ?]]); first [reflexivity | rewrite SetStatementValue_agree; reflexivity]).
  (* a switch *)
  destruct (GetValues s) as [l | e] eqn:E; cbn [rbind].
  - do 3 (apply rbind_ext; [reflexivity | intros ?]). destruct (HW (fun c => let* i := Int c in Ok (i =? x1)) l x) as [-> | H]; [reflexivity | congruence].
  - repeat (apply rbind_ext; [reflexivity | intros ?]). reflexivity.
Qed.
End Agree.

(** ** Actions that agree on values *)

(** The operands of statements that are statements have values. *)
Definition valued_stmt (a : SSAFormAction) (s : SSAStatement) : Prop :=
  forall x, OStmt x ∈ operands_ s -> exists s', find_statement a x = Some s' /\ is_controlflow s' = false.
Definition valued (a : SSAFormAction) : Prop := forall s, s ∈ all_statements a -> valued_stmt a s.

(** [a'] has the statements of [a] that have values. *)
Record same_values (a a' : SSAFormAction) : Prop := {
  sv_find : forall x s, find_statement a x = Some s -> is_controlflow s = false -> find_statement a' x = Some s;
  sv_length : length (all_statements a') = length (all_statements a);
  sv_symbols : _symbols a' = _symbols a
}.

Lemma find_statement_elem a x s : find_statement a x = Some s -> s ∈ all_statements a /\ address s = x.
Proof. intros H. apply List.find_some in H as [H1 H2]. apply list_elem_of_In in H1. apply Z.eqb_eq in H2. auto. Qed.

Lemma stmt_operand_elem s i x : stmt_operand s i = Ok x -> OStmt x ∈ operands_ s.
Proof.
  unfold stmt_operand, GetOperand. intros H. bind_inv H. destruct v; try discriminate. injection H as ->.
  apply at_Ok in E as [_ E]. apply list_elem_of_lookup. eauto.
Qed.

Section SameValues.
Context (ctx : SSAContext) (a a' : SSAFormAction) (Hv : valued a) (H : same_values a a').

Lemma operand_found s i x : valued_stmt a s -> stmt_operand s i = Ok x ->
  exists st, find_statement a x = Some st /\ find_statement a' x = Some st /\ valued_stmt a st.
Proof.
  intros Hs E. apply stmt_operand_elem in E. destruct (Hs x E) as (st & E1 & Hc). exists st. split; [exact E1 |].
  split; [apply (sv_find a a' H); assumption | apply Hv, (find_statement_elem a x st E1)].
Qed.

Lemma type_of_agree n s : valued_stmt a s -> type_of ctx n a s = type_of ctx n a' s.
Proof.
  revert s. induction n as [| n IH]; intros s Hs; [reflexivity |].
  assert (Hop : forall i, (let* x := stmt_operand s i in let* st := of_option UndefinedBehaviour (find_statement a x) in type_of ctx n a st) =
    (let* x := stmt_operand s i in let* st := of_option UndefinedBehaviour (find_statement a' x) in type_of ctx n a' st)).
  { intros i. destruct (stmt_operand s i) as [x |] eqn:E; [| reflexivity]. cbn [rbind].
    destruct (operand_found s i x Hs E) as (st & -> & -> & Hst). cbn [rbind of_option]. apply IH, Hst. }
  assert (Hsym : forall x, symbol_type a x = symbol_type a' x) by (intros x; unfold symbol_type; rewrite (sv_symbols a a' H); reflexivity).
  cbn [type_of]. destruct (kind s); try reflexivity; rewrite ?Hop; try reflexivity;
    repeat (apply rbind_ext; [first [reflexivity | apply Hop | apply Hsym] | intros ?]); first [reflexivity | apply Hsym].
Qed.

Lemma GetType_agree s : valued_stmt a s -> GetType ctx a s = GetType ctx a' s.
Proof. intros Hs. unfold GetType. rewrite (sv_length a a' H). apply type_of_agree, Hs. Qed.

Lemma operand_type_agree s i : valued_stmt a s -> operand_type ctx a s i = operand_type ctx a' s i.
Proof.
  intros Hs. unfold operand_type. destruct (stmt_operand s i) as [x |] eqn:E; [| reflexivity]. cbn [rbind].
  destruct (operand_found s i x Hs E) as (st & -> & -> & Hst). cbn [rbind of_option]. apply GetType_agree, Hst.
Qed.

Lemma case_pairs_elem ops l x t : case_pairs ops = Ok l -> (x, t) ∈ l -> OStmt x ∈ ops.
Proof.
  revert l. induction ops as [ops IH] using (induction_ltof1 _ length). unfold ltof in IH. intros l E Hin.
  destruct ops as [| o [| o2 r]]; [injection E as <-; inversion Hin | destruct o; discriminate |].
  destruct o; try discriminate. destruct o2; try discriminate. cbn in E. bind_inv E. injection E as <-.
  apply elem_of_cons in Hin as [Hin | Hin]; [injection Hin as -> ->; left |]. right; right. apply (IH r ltac:(cbn; lia) v E0 Hin).
Qed.

Lemma GetValues_elem s l x t : GetValues s = Ok l -> (x, t) ∈ l -> OStmt x ∈ operands_ s.
Proof.
  unfold GetValues. intros E Hin. bind_inv E. injection E as <-. apply list_elem_of_omap in Hin as (y & Hy & Ey).
  unfold last_value in Ey. destruct (List.find _ _) as [p |] eqn:Ef; [| discriminate]. cbn in Ey. injection Ey as -> <-.
  apply List.find_some in Ef as [Hp Ep]. apply Z.eqb_eq in Ep. apply in_rev, list_elem_of_In in Hp. destruct p as [x0 t0]. cbn in Ep. subst x0.
  pose proof (case_pairs_elem _ _ _ _ E0 Hp) as Hd. rewrite <- (take_drop 2 (operands_ s)). apply elem_of_app. auto.
Qed.

Lemma switch_target_agree f l d : (forall x t, (x, t) ∈ l -> exists st, find_statement a x = Some st /\ is_controlflow st = false) ->
  switch_target a f l d = switch_target a' f l d.
Proof.
  revert d. induction l as [| [x t] l IH]; intros d Hl; [reflexivity |]. cbn [switch_target].
  destruct (Hl x t ltac:(left)) as (st & Ef & Hc). rewrite Ef, (sv_find a a' H x st Ef Hc). cbn [of_option rbind].
  destruct (kind st); try reflexivity. apply rbind_ext; [reflexivity |]. intros b. apply IH. intros y u Hy. apply (Hl y u). right. exact Hy.
Qed.

Lemma visit_same call s st : valued_stmt a s -> visit ctx call a s st = visit ctx call a' s st.
Proof.
  intros Hs. apply visit_agree.
  - apply GetType_agree, Hs.
  - intros i. apply operand_type_agree, Hs.
  - symmetry. apply (sv_symbols a a' H).
  - intros f l d. destruct (GetValues s) as [l' |] eqn:E; [| right; discriminate].
    destruct (decide (l' = l)) as [-> | Hne]; [| right; congruence]. left. apply switch_target_agree.
    intros x t Hx. apply (Hs x). apply (GetValues_elem s l x t E Hx).
Qed.

Lemma execute_statements_same call l st : (forall s, s ∈ l -> valued_stmt a s) ->
  execute_statements ctx call a l st = execute_statements ctx call a' l st.
Proof.
  revert st. induction l as [| s l IH]; intros st Hl; [reflexivity |]. cbn [execute_statements].
  rewrite (visit_same call s st) by (apply Hl; left). apply rbind_ext; [reflexivity |]. intros st1.
  destruct (bool_decide _); [| reflexivity]. apply IH. intros x Hx. apply Hl. right. exact Hx.
Qed.

Lemma set_parameters_same l c v : set_parameters a l c v = set_parameters a' l c v.
Proof.
  revert c v. induction l as [| x l IH]; intros [| k c] v; try reflexivity. cbn [set_parameters].
  rewrite (SetSymbolValue_agree a a') by (symmetry; apply (sv_symbols a a' H)). apply rbind_ext; [reflexivity |]. intros v1. apply IH.
Qed.

Lemma reference_parameters_same l i v : reference_parameters a l i v = reference_parameters a' l i v.
Proof.
  revert i v. induction l as [| x l IH]; intros i v; [reflexivity |]. cbn [reference_parameters].
  rewrite (symbol_type_agree a a') by (symmetry; apply (sv_symbols a a' H)). apply rbind_ext; [reflexivity |]. intros t.
  destruct (Reference t); [| apply IH]. rewrite (GetSymbolValue_agree a a') by (symmetry; apply (sv_symbols a a' H)).
  apply rbind_ext; [reflexivity |]. intros [c v1]. rewrite IH. reflexivity.
Qed.
End SameValues.

(** ** Fuel *)

Lemma execute_statements_app ctx call a l1 l2 st :
  execute_statements ctx call a (l1 ++ l2) st =
  (let* (r, st1) := execute_statements ctx call a l1 st in
   if bool_decide (r = Interpret_Normal) then execute_statements ctx call a l2 st1 else Ok (r, st1)).
Proof.
  revert st. induction l1 as [| s l1 IH]; intros st; cbn [app execute_statements].
  { cbn [rbind]. rewrite bool_decide_true by reflexivity. reflexivity. }
  destruct (visit ctx call a s st) as [st1 |]; [| reflexivity]. cbn [rbind]. destruct (bool_decide (interpret_result_ (fst st1) = _)) eqn:E.
  - apply IH.
  - cbn [rbind]. rewrite E. reflexivity.
Qed.

Lemma execute_blocks_more ctx call n k a next st r : execute_blocks ctx call n a next st = Ok r -> (n <= k)%nat -> execute_blocks ctx call k a next st = Ok r.
Proof.
  revert k next st. induction n as [| n IH]; intros k next st E Hk; destruct next as [x |]; destruct k; try lia; try (exact E); try discriminate E.
  cbn [execute_blocks] in E |- *. bind_inv E. rewrite E0. cbn [rbind]. destruct v0 as [q st1]. rewrite E1. cbn [rbind].
  destruct (bool_decide (q = Interpret_Normal)); [apply (IH k) in E; [exact E | lia] | exact E].
Qed.

(** ** A statement only changes its own value *)

Definition framed (s : SSAStatement) (v v' : VMActionState) : Prop :=
  forall y, y <> address s -> statements_ v' !! y = statements_ v !! y.

Lemma framed_refl s v v' : statements_ v' = statements_ v -> framed s v v'.
Proof. intros E y _. rewrite E. reflexivity. Qed.
Lemma framed_trans s v1 v2 v3 : framed s v1 v2 -> framed s v2 v3 -> framed s v1 v3.
Proof. intros H1 H2 y Hy. rewrite H2, H1 by exact Hy. reflexivity. Qed.
Lemma framed_result s v v' r : framed s v v' -> framed s v (SetResult r v').
Proof. auto. Qed.

Section Frame.
Context (ctx : SSAContext) (a : SSAFormAction) (s : SSAStatement).

Lemma SetStatementValue_spec c v v' : SetStatementValue ctx a s c v = Ok v' ->
  exists t c', GetType ctx a s = Ok t /\ Cast c t t = Ok c' /\ statements_ v' = <[address s := (timestamp_ v, c')]> (statements_ v).
Proof. unfold SetStatementValue. intros H. bind_inv H. injection H as <-. eauto. Qed.

Lemma SetStatementValue_framed c v v' : SetStatementValue ctx a s c v = Ok v' -> framed s v v'.
Proof. intros H y Hy. apply SetStatementValue_spec in H as (t & c' & _ & _ & ->). apply lookup_insert_ne. congruence. Qed.

Lemma SetSymbolValue_frame x c v v' : SetSymbolValue a x c v = Ok v' -> statements_ v' = statements_ v.
Proof. unfold SetSymbolValue. intros H. bind_inv H. injection H as <-. reflexivity. Qed.

Lemma GetSymbolValue_frame x v c v' : GetSymbolValue a x v = Ok (c, v') -> statements_ v' = statements_ v.
Proof.
  unfold GetSymbolValue. destruct (symbols_ v !! x); intros H; [congruence |]. bind_inv H. injection H as <- <-. apply (SetSymbolValue_frame _ _ _ _ E1).
Qed.

Lemma call_arguments_frame l : forall v r v', call_arguments a l v = Ok (r, v') -> statements_ v' = statements_ v.
Proof.
  induction l as [| o l IH]; intros v r v' H; [cbn in H; congruence |]. cbn [call_arguments] in H. destruct o; try (apply (IH _ _ _ H)).
  - bind_inv H. destruct v1 as [l1 v1]. bind_inv H. injection H as <- <-. apply (IH _ _ _ E0).
  - bind_inv H. destruct v0 as [c v0]. bind_inv H. destruct v1 as [l1 v1]. injection H as <- <-. rewrite (IH _ _ _ E0). apply (GetSymbolValue_frame _ _ _ _ E).
Qed.

Lemma reference_results_frame l : forall i values v v', reference_results a l i values v = Ok v' -> statements_ v' = statements_ v.
Proof.
  induction l as [| o l IH]; intros i values v v' H; [cbn in H; congruence |]. cbn [reference_results] in H. destruct o; try (apply (IH _ _ _ _ H)).
  bind_inv H. rewrite (IH _ _ _ _ H). apply (SetSymbolValue_frame _ _ _ _ E0).
Qed.

Lemma catch_framed {A} (r : result A) v k v' : catch_errors r v k = Ok v' -> (forall x, k x = Ok v' -> framed s v v') -> framed s v v'.
Proof.
  unfold catch_errors. intros H Hk. destruct r as [x | e]; [apply (Hk x H) |].
  destruct e; try discriminate; injection H as <-; apply framed_refl; reflexivity.
Qed.

Lemma visit_register_framed is_read is_banked bank v m v' m' :
  VisitRegisterStatement ctx a s is_read is_banked bank (v, m) = Ok (v', m') -> framed s v v'.
Proof.
  unfold VisitRegisterStatement. intros H. bind_inv H. destruct v0 as [[[offset size] stride] t]. destruct is_read.
  - match type of H with (let '(_, _) := ?x in _) = _ => destruct x as [rf r] end. bind_inv H. injection H as <- _. apply (catch_framed _ _ _ _ E0).
    intros c Hc. apply (catch_framed _ _ _ _ Hc). intros v1 Hv. injection Hv as <-. intros y Hy. cbn.
    unfold set_value_caught in Hc. destruct (SetStatementValue ctx a s c v) as [v2 |] eqn:Es.
    + injection Hc as Hc. rewrite <- (SetStatementValue_framed c v v2 Es y Hy), Hc. reflexivity.
    + destruct e; try discriminate; injection Hc as Hc; rewrite Hc; reflexivity.
  - match type of H with (let '(_, _) := ?x in _) = _ => destruct x as [rf r] end. bind_inv H. injection H as <- _. apply (catch_framed _ _ _ _ E0).
    intros x Hx. injection Hx as <-. apply framed_refl. reflexivity.
Qed.

Lemma visit_intrinsic_framed id v m v' m' : VisitIntrinsicStatement ctx a s id (v, m) = Ok (v', m') -> framed s v v'.
Proof.
  assert (Hs : forall c, SetStatementValue ctx a s c (SetResult Interpret_Normal v) = Ok v' -> framed s v v')
    by (intros c H; apply (SetStatementValue_framed c (SetResult Interpret_Normal v)), H).
  assert (Hadc : forall i, VisitADC ctx a s i (SetResult Interpret_Normal v, m) = Ok (v', m') -> framed s v v').
  { intros i H. unfold VisitADC in H. bind_inv H. assert (v6 = v') as ->; [| apply (Hs _ E5)].
    destruct i; bind_inv H; try (injection H as -> _; reflexivity); try discriminate H.
    destruct (adc_flags _ _ _) as [[[n z] c] o]. bind_inv H. injection H as -> _. reflexivity. }
  unfold VisitIntrinsicStatement. destruct id; intros H; try apply (Hadc _ H); bind_inv H; try discriminate;
    try (injection H as <- _; apply framed_refl; reflexivity);
    match goal with E : SetStatementValue _ _ _ _ _ = Ok ?x |- _ => injection H as -> _; apply (Hs _ E) end.
Qed.

Lemma visit_call_framed call v m v' m' : VisitCallStatement ctx call a s (v, m) = Ok (v', m') -> framed s v v'.
Proof.
  unfold VisitCallStatement. intros H. bind_inv H. destruct v0 as [callee |]; [| discriminate]. bind_inv H. destruct v0 as [params v1]. bind_inv H.
  destruct v0 as [r m1]. bind_inv H. injection H as <- _. apply framed_result. intros y Hy.
  rewrite <- (call_arguments_frame _ _ _ _ E0), <- (reference_results_frame _ _ _ _ _ E2).
  destruct (_ && _); [apply (SetStatementValue_framed _ _ _ E4 y Hy) | congruence].
Qed.

Lemma visit_framed call v m v' m' : visit ctx call a s (v, m) = Ok (v', m') -> framed s v v'.
Proof.
  destruct (is_controlflow s) eqn:Hf.
  { unfold visit, is_controlflow in *. destruct (kind s); try discriminate; intros H; bind_inv H; try discriminate;
      try (injection H as <- _; apply framed_refl; reflexivity).
    destruct v0; try discriminate; bind_inv H; injection H as <- _; apply framed_refl; reflexivity. }
  unfold visit, is_controlflow in *. destruct (kind s) eqn:Hk; try discriminate; intros H;
    try apply (visit_register_framed _ _ _ _ _ _ _ H); try apply (visit_intrinsic_framed _ _ _ _ _ H); try apply (visit_call_framed _ _ _ _ _ H).
  all: unfold VisitMemoryReadStatement, VisitMemoryWriteStatement, VisitVectorExtract, VisitVectorInsert, VisitVectorShuffle in H; bind_inv H; try discriminate.
  all: repeat match type of H with
    | (let '(_, _) := ?x in _) = _ => destruct x as [? ?] eqn:?; bind_inv H
    end.
  all: injection H as <- _; try apply framed_result.
  all: try (match goal with E : rbind _ _ = Ok ?v0 |- framed _ _ ?v0 => bind_inv E; injection E as <- end; apply framed_result).
  all: repeat match goal with
    | E : SetStatementValue ctx a s _ _ = Ok ?v1 |- framed s _ ?v1 => refine (framed_trans s _ _ _ _ (SetStatementValue_framed _ _ _ E)); clear E
    | E : SetSymbolValue a _ _ ?v0 = Ok ?v1 |- framed s ?v0 ?v1 => apply framed_refl, (SetSymbolValue_frame _ _ _ _ E)
    | E : GetSymbolValue a _ ?v0 = Ok (_, ?v1) |- framed s ?v0 ?v1 => apply framed_refl, (GetSymbolValue_frame _ _ _ _ E)
    | |- framed s ?v0 ?v0 => apply framed_refl; reflexivity
    end.
Qed.
End Frame.

(** ** The values of constants *)

(** A constant statement that has a value has the value of its constant. *)
Definition const_values (a : SSAFormAction) (v : VMActionState) : Prop :=
  forall x st c t ts cv, find_statement a x = Some st -> kind st = SConstant c t -> statements_ v !! x = Some (ts, cv) -> Cast c t t = Ok cv.

Section Constants.
Context (ctx : SSAContext) (call : SSAFormAction -> list IRConstant -> MachineState -> result (ActionResult * MachineState)) (a : SSAFormAction).

Lemma visit_const_values s v m v' m' : find_statement a (address s) = Some s -> const_values a v ->
  visit ctx call a s (v, m) = Ok (v', m') -> const_values a v'.
Proof.
  intros Hs Hv E x st c t ts cv Ef Hk El. destruct (decide (x = address s)) as [-> | Hne].
  - rewrite Hs in Ef. injection Ef as <-. unfold visit in E. rewrite Hk in E. bind_inv E. injection E as <- _.
    apply SetStatementValue_spec in E0 as (t' & c' & Et & Ec & Es). cbn in El. rewrite Es, lookup_insert_eq in El. injection El as _ <-.
    unfold GetType in Et. cbn [type_of] in Et. rewrite Hk in Et. injection Et as <-. exact Ec.
  - apply (Hv x st c t ts cv Ef Hk). rewrite <- El. symmetry. apply (visit_framed ctx a s call v m v' m' E x Hne).
Qed.

Lemma execute_const_values l : forall st r st', (forall s, s ∈ l -> find_statement a (address s) = Some s) -> const_values a (fst st) ->
  execute_statements ctx call a l st = Ok (r, st') -> const_values a (fst st').
Proof.
  induction l as [| s l IH]; intros st r st' Hl Hv E; cbn [execute_statements] in E; [injection E as _ <-; exact Hv |]. bind_inv E. destruct st as [v0 m0], v as [v1 m1].
  assert (H1 : const_values a v1) by (apply (visit_const_values s v0 m0 v1 m1); [apply Hl; left | exact Hv | exact E0]).
  destruct (bool_decide _); [apply (IH (v1, m1) r st'); [intros q Hq; apply Hl; right; exact Hq | exact H1 | exact E] |]. injection E as _ <-. exact H1.
Qed.
End Constants.
