(* ===== verification/SSAPasses.v ===== *)
(** * Passes on the control flow of GenC actions

    SSAPass.cpp, ControlFlowSimplificationPass.cpp and JumpThreadingPass.cpp of
    src/gensim/src/genC/ssa/passes.  A pass changes an action in place and says
    whether it did. *)

From stdpp Require Import base list numbers gmap relations.
From Stdlib Require Import ZArith Lia.
From S2P Require Import Prelude IRTypes RegisterFile IRConstants ConstantFold SSAForm SSAMachine SSAReach SSAInterp.
#[local] Open Scope Z_scope.

(** ** Statement lists *)

(** [AddStatement(stmt, before)] and [RemoveStatement]. *)
Fixpoint insert_before (l : list SSAStatement) (before : Z) (s : SSAStatement) : result (list SSAStatement) :=
  match l with
  | [] => Err UndefinedBehaviour
  | x :: r => if address x =? before then Ok (s :: x :: r) else let* r1 := insert_before r before s in Ok (x :: r1)
  end.
Fixpoint RemoveStatement (l : list SSAStatement) (s : Z) : list SSAStatement :=
  match l with
  | [] => []
  | x :: r => if address x =? s then r else x :: RemoveStatement r s
  end.

Definition with_new_address (n : Z) (a : SSAFormAction) : SSAFormAction :=
  mkAction (EntryBlock a) (blocks_ a) (_symbols a) n (ParamSymbols a) (ReturnType a).

(** [new SSAJumpStatement(block, target, old)], then [old] is removed, disposed
    of and deleted. *)
Definition replace_by_jump (a : SSAFormAction) (block : Z) (old : SSAStatement) (target : Z) : result SSAFormAction :=
  let* b := deref_block a block in
  let jump := mkStmt (new_address a) SJump [OBlock target] in
  let* l := insert_before (Statements b) (address old) jump in
  let a1 := with_new_address (new_address a + 1) (update_block a block (with_statements (RemoveStatement l (address old)))) in
  let* _ := Dispose a1 (OStmt (address old)) in
  Ok a1.

(** ** ControlFlowSimplificationPass.cpp *)

(** [dynamic_cast<SSAConstantStatement*>] of the operand 0. *)
Definition constant_operand (a : SSAFormAction) (s : SSAStatement) : result (option IRConstant) :=
  let* x := stmt_operand s 0 in
  let* st := of_option UndefinedBehaviour (find_statement a x) in
  Ok (match kind st with SConstant c _ => Some c | _ => None end).

Definition is_true (c : IRConstant) : result bool :=
  match c with
  | CInteger i => Ok (negb (i =? 0))
  | CFloat f | CDouble f => Ok (nonzero f)
  | _ => Err LogicError
  end.

Definition TrySimplifyIf (a : SSAFormAction) (if_stmt : SSAStatement) (block : Z) : result (SSAFormAction * bool) :=
  let* constant := constant_operand a if_stmt in
  match constant with
  | None => Ok (a, false)
  | Some c =>
      let* t := is_true c in
      let* target := block_operand if_stmt (if t then 1 else 2) in
      let* a1 := replace_by_jump a block if_stmt target in
      Ok (a1, true)
  end.

(** The last matching case wins. *)
Definition TrySimplifySwitch (a : SSAFormAction) (switch_stmt : SSAStatement) (block : Z) : result (SSAFormAction * bool) :=
  let* constant := constant_operand a switch_stmt in
  match constant with
  | None => Ok (a, false)
  | Some expr =>
      let* d := block_operand switch_stmt 1 in
      let* values := GetValues switch_stmt in
      let* target := switch_target a (fun c => const_eqb c expr) values d in
      let* a1 := replace_by_jump a block switch_stmt target in
      Ok (a1, true)
  end.

Definition simplify_block (a : SSAFormAction) (block : Z) : result (SSAFormAction * bool) :=
  let* b := deref_block a block in
  match GetControlFlow b with
  | Some s =>
      match kind s with
      | SIf => TrySimplifyIf a s block
      | SSwitch => TrySimplifySwitch a s block
      | _ => Ok (a, false)
      end
  | None => Ok (a, false)
  end.

(** A pass that works on one block after the other. *)
Fixpoint over_blocks (f : SSAFormAction -> Z -> result (SSAFormAction * bool)) (l : list Z) (a : SSAFormAction) (changed : bool)
  : result (SSAFormAction * bool) :=
  match l with
  | [] => Ok (a, changed)
  | block :: r => let* (a1, c) := f a block in over_blocks f r a1 (changed || c)
  end.

Definition ControlFlowSimplification (a : SSAFormAction) : result (SSAFormAction * bool) :=
  over_blocks simplify_block (block_ids a) a false.

(** ** JumpThreadingPass.cpp *)

(** The control flow of a block after [Replace(target, jump->Target())]. *)
Definition replace_control_flow (a : SSAFormAction) (block : Z) (ctrlflow : SSAStatement) : SSAFormAction :=
  update_block a block (fun b => with_statements (removelast (Statements b) ++ [ctrlflow]) b).

(** The loop over the targets; the statement and the action change as it
    goes. *)
Fixpoint thread_targets (targets : list Z) (a : SSAFormAction) (block : Z) (ctrlflow : SSAStatement) (changed : bool)
  : result (SSAFormAction * bool) :=
  match targets with
  | [] => Ok (a, changed)
  | target :: r =>
      let* t := deref_block a target in
      match Statements t with
      | first :: _ =>
          match kind first with
          | SJump =>
              let* u := block_operand first 0 in
              let '(ctrlflow1, replaced) := Replace ctrlflow (OBlock target) (OBlock u) in
              check* replaced or AssertFailed in
              thread_targets r (replace_control_flow a block ctrlflow1) block ctrlflow1 true
          | _ => thread_targets r a block ctrlflow changed
          end
      | [] => thread_targets r a block ctrlflow changed
      end
  end.

Definition TryThreadJump (a : SSAFormAction) (block : Z) : result (SSAFormAction * bool) :=
  let* b := deref_block a block in
  match GetControlFlow b with
  | None => Ok (a, false)
  | Some ctrlflow =>
      let* targets := GetTargets ctrlflow in
      thread_targets targets a block ctrlflow false
  end.

Definition JumpThreading (a : SSAFormAction) : result (SSAFormAction * bool) :=
  over_blocks TryThreadJump (block_ids a) a false.

(** ** SSAPass.cpp *)

Abbreviation SSAPass := (SSAFormAction -> result (SSAFormAction * bool)).

(** [while(i->Run(action)) changed = true]. *)
Fixpoint run_while (fuel : nat) (pass : SSAPass) (a : SSAFormAction) (changed : bool) : result (SSAFormAction * bool) :=
  match fuel with
  | O => Err OutOfFuel
  | S n =>
      let* (a1, c) := pass a in
      if (c : bool) then run_while n pass a1 true else Ok (a1, changed)
  end.

(** One round over the passes. *)
Fixpoint run_passes (multirun_each : bool) (fuel : nat) (passes : list SSAPass) (a : SSAFormAction) (changed : bool)
  : result (SSAFormAction * bool) :=
  match passes with
  | [] => Ok (a, changed)
  | p :: r =>
      let* (a1, c) := if multirun_each then run_while fuel p a changed else let* (a1, c) := p a in Ok (a1, changed || c) in
      run_passes multirun_each fuel r a1 c
  end.

(** [SSAPassManager::Run]. *)
Fixpoint manager_run (fuel : nat) (multirun_all multirun_each : bool) (passes : list SSAPass) (a : SSAFormAction) (anychanged : bool)
  : result (SSAFormAction * bool) :=
  match fuel with
  | O => Err OutOfFuel
  | S n =>
      let* (a1, changed) := run_passes multirun_each n passes a false in
      let any := anychanged || changed in
      if changed && multirun_all then manager_run n multirun_all multirun_each passes a1 any else Ok (a1, any)
  end.
