(* ===== verification/SSAPassesCorrect.v ===== *)
(** * Correctness of the passes on control flow

    Jump threading and control-flow simplification against the interpreter, and
    the termination of the pass manager's loop on jump threading. *)

From stdpp Require Import base list numbers gmap relations sorting.
From Stdlib Require Import ZArith Lia.
From S2P Require Import Prelude IRTypes RegisterFile IRConstants ConstantFold SSAForm SSAMachine SSAReach SSAInterp SSAInterpFacts SSAPasses.
#[local] Open Scope Z_scope.

(** ** Well-formed actions *)

(** A block ends in control flow to blocks of the action, and has none before. *)
Record wf_block (a : SSAFormAction) (b : SSABlock) (init : list SSAStatement) (s : SSAStatement) : Prop := {
  wb_statements : Statements b = init ++ [s];
  wb_init : forall x, x ∈ init -> is_controlflow x = false;
  wb_flow : is_controlflow s = true;
  wb_targets : exists l, GetTargets s = Ok l;
  wb_closed : forall t, OBlock t ∈ operands_ s -> t ∈ block_ids a
}.

Record wf (a : SSAFormAction) : Prop := {
  wf_blocks : NoDup (block_ids a);
  wf_addresses : NoDup (map address (all_statements a));
  wf_valued : valued a;
  wf_each : forall b, b ∈ blocks_ a -> exists init s, wf_block a b init s;
  wf_fresh : forall s, s ∈ all_statements a -> address s < new_address a
}.

Lemma all_statements_elem a s : s ∈ all_statements a <-> exists b, b ∈ blocks_ a /\ s ∈ Statements b.
Proof.
  unfold all_statements. rewrite list_elem_of_In, in_concat. split.
  - intros (l & Hl & Hs). apply in_map_iff in Hl as (b & <- & Hb). exists b. rewrite !list_elem_of_In. auto.
  - intros (b & Hb & Hs). exists (Statements b). rewrite !list_elem_of_In in *. split; [apply in_map, Hb | exact Hs].
Qed.

Lemma find_statement_own a s : NoDup (map address (all_statements a)) -> s ∈ all_statements a -> find_statement a (address s) = Some s.
Proof.
  intros Hd Hs. unfold find_statement. induction (all_statements a) as [| x l IH]; [inversion Hs |]. cbn in Hd |- *.
  apply NoDup_cons in Hd as [Hx Hd]. apply elem_of_cons in Hs as [-> | Hs]; [rewrite Z.eqb_refl; reflexivity |].
  destruct (Z.eqb_spec (address x) (address s)) as [E | _]; [| apply IH; assumption].
  destruct Hx. rewrite E. apply list_elem_of_fmap. eauto.
Qed.

(** ** Changing the end of a block *)

Lemma find_block_update a b g x : (forall y, block_address (g y) = block_address y) ->
  find_block (update_block a b g) x = option_map (fun y => if block_address y =? b then g y else y) (find_block a x).
Proof.
  intros Hg. unfold find_block, update_block. cbn [blocks_ with_blocks]. induction (blocks_ a) as [| y l IH]; [reflexivity |].
  cbn. assert (E : block_address (if block_address y =? b then g y else y) = block_address y) by (destruct (_ =? b); auto).
  rewrite E. destruct (block_address y =? x); [reflexivity | apply IH].
Qed.

Lemma block_ids_update a b g : (forall y, block_address (g y) = block_address y) -> block_ids (update_block a b g) = block_ids a.
Proof.
  intros Hg. unfold block_ids, update_block. cbn. rewrite map_map. apply map_ext. intros y. destruct (_ =? b); auto.
Qed.

(** The block [b] of [a] ends in [s], and [a'] is [a] with [s'] there. *)
Record new_end (a a' : SSAFormAction) (b : Z) (init : list SSAStatement) (s s' : SSAStatement) : Prop := {
  ne_wf : wf a;
  ne_block : exists blk, find_block a b = Some blk /\ wf_block a blk init s;
  ne_find : forall x, find_block a' x = if x =? b then Some (mkBlock b (init ++ [s'])) else find_block a x;
  ne_ids : block_ids a' = block_ids a;
  ne_statements : forall x, x ∈ all_statements a -> x <> s -> x ∈ all_statements a';
  ne_statements' : forall x, x ∈ all_statements a' -> x = s' \/ (x ∈ all_statements a /\ x <> s);
  ne_addresses : NoDup (map address (all_statements a'));
  ne_length : length (all_statements a') = length (all_statements a);
  ne_flow : is_controlflow s' = true;
  ne_targets : exists l, GetTargets s' = Ok l;
  ne_closed : forall t, OBlock t ∈ operands_ s' -> t ∈ block_ids a;
  ne_valued : valued_stmt a s';
  ne_fresh : address s' < new_address a';
  ne_new : new_address a <= new_address a';
  ne_rest : EntryBlock a' = EntryBlock a /\ _symbols a' = _symbols a /\ ParamSymbols a' = ParamSymbols a /\ ReturnType a' = ReturnType a
}.

Section NewEnd.
Context (a a' : SSAFormAction) (b : Z) (init : list SSAStatement) (s s' : SSAStatement) (H : new_end a a' b init s s').

Lemma ne_old_elem : s ∈ all_statements a.
Proof.
  destruct (ne_block _ _ _ _ _ _ H) as (blk & E & Hb). apply all_statements_elem. exists blk. split; [apply (find_block_elem a b blk E) |].
  rewrite (wb_statements _ _ _ _ Hb). apply elem_of_app. right. left.
Qed.

Lemma ne_same_values : same_values a a'.
Proof.
  split.
  - intros x st Ef Hc. destruct (find_statement_elem a x st Ef) as [Hin <-]. apply find_statement_own; [apply (ne_addresses _ _ _ _ _ _ H) |].
    apply (ne_statements _ _ _ _ _ _ H st Hin). intros ->. destruct (ne_block _ _ _ _ _ _ H) as (blk & _ & Hb).
    rewrite (wb_flow _ _ _ _ Hb) in Hc. discriminate.
  - apply (ne_length _ _ _ _ _ _ H).
  - apply (ne_rest _ _ _ _ _ _ H).
Qed.

Lemma ne_valued_all st : valued_stmt a st -> valued_stmt a' st.
Proof.
  intros Hv x Hx. destruct (Hv x Hx) as (q & E & Hc). exists q. split; [| exact Hc]. apply (sv_find _ _ ne_same_values); assumption.
Qed.

Lemma ne_wf_after : wf a'.
Proof.
  pose proof (ne_wf _ _ _ _ _ _ H) as Hw. split.
  - rewrite (ne_ids _ _ _ _ _ _ H). apply (wf_blocks a Hw).
  - apply (ne_addresses _ _ _ _ _ _ H).
  - intros st Hst. apply ne_valued_all. destruct (ne_statements' _ _ _ _ _ _ H st Hst) as [-> | [Hin _]]; [apply (ne_valued _ _ _ _ _ _ H) |].
    apply (wf_valued a Hw st Hin).
  - intros blk Hblk.
    assert (Hd : NoDup (block_ids a')) by (rewrite (ne_ids _ _ _ _ _ _ H); apply (wf_blocks a Hw)).
    assert (E : find_block a' (block_address blk) = Some blk).
    { destruct (find_block_ids a' (block_address blk)) as (c & E); [apply list_elem_of_fmap; eauto |]. destruct (find_block_elem a' _ c E) as [Hc Ea].
      rewrite E. f_equal. apply (map_nodup_inj block_address (blocks_ a')); assumption. }
    rewrite (ne_find _ _ _ _ _ _ H) in E. destruct (block_address blk =? b).
    + injection E as <-. destruct (ne_block _ _ _ _ _ _ H) as (old & _ & Hb). exists init, s'. split.
      * reflexivity.
      * apply (wb_init _ _ _ _ Hb).
      * apply (ne_flow _ _ _ _ _ _ H).
      * apply (ne_targets _ _ _ _ _ _ H).
      * rewrite (ne_ids _ _ _ _ _ _ H). apply (ne_closed _ _ _ _ _ _ H).
    + destruct (find_block_elem a _ blk E) as [Hin _]. destruct (wf_each a Hw blk Hin) as (i & q & [B1 B2 B3 B4 B5]). exists i, q.
      split; try assumption. rewrite (ne_ids _ _ _ _ _ _ H). exact B5.
  - intros st Hst. destruct (ne_statements' _ _ _ _ _ _ H st Hst) as [-> | [Hin _]]; [apply (ne_fresh _ _ _ _ _ _ H) |].
    pose proof (wf_fresh a Hw st Hin). pose proof (ne_new _ _ _ _ _ _ H). lia.
Qed.

(** Running a block in either action. *)
Context (ctx : SSAContext) (call : SSAFormAction -> list IRConstant -> MachineState -> result (ActionResult * MachineState)).

Lemma ne_run_other l st : (forall x, x ∈ l -> x ∈ all_statements a) ->
  execute_statements ctx call a' l st = execute_statements ctx call a l st.
Proof.
  intros Hl. symmetry. apply (execute_statements_same ctx a a').
  - apply (wf_valued a (ne_wf _ _ _ _ _ _ H)).
  - apply ne_same_values.
  - intros x Hx. apply (wf_valued a (ne_wf _ _ _ _ _ _ H) x), Hl, Hx.
Qed.

Lemma ne_run_new st : visit ctx call a' s' st = visit ctx call a s' st.
Proof.
  symmetry. apply (visit_same ctx a a'); [apply (wf_valued a (ne_wf _ _ _ _ _ _ H)) | apply ne_same_values | apply (ne_valued _ _ _ _ _ _ H)].
Qed.

Lemma ne_init_elem x : x ∈ init -> x ∈ all_statements a.
Proof.
  intros Hx. destruct (ne_block _ _ _ _ _ _ H) as (blk & E & Hb). apply all_statements_elem. exists blk. split; [apply (find_block_elem a b blk E) |].
  rewrite (wb_statements _ _ _ _ Hb). apply elem_of_app. auto.
Qed.
End NewEnd.

(** ** The effect of control flow *)

(** A pass keeps what actions do: the same results with no more blocks run, and
    no results that the action did not have. *)
Definition same_meaning (a a' : SSAFormAction) : Prop :=
  forall ctx call params m,
    (forall n r, ExecuteAction ctx call n a params m = Ok r -> ExecuteAction ctx call n a' params m = Ok r) /\
    (forall n r, ExecuteAction ctx call n a' params m = Ok r -> exists k, ExecuteAction ctx call k a params m = Ok r).

Lemma same_meaning_refl a : same_meaning a a.
Proof. intros ctx call params m. split; [auto | eauto]. Qed.
Lemma same_meaning_trans a b c : same_meaning a b -> same_meaning b c -> same_meaning a c.
Proof.
  intros H1 H2 ctx call params m. destruct (H1 ctx call params m) as [F1 B1], (H2 ctx call params m) as [F2 B2].
  split; [auto |]. intros n r E. apply B2 in E as [k E]. apply B1 in E. exact E.
Qed.

Lemma SetNextBlock_same v : SetNextBlock (next_block_ v) v = v.
Proof. destruct v; reflexivity. Qed.
Lemma SetResult_same v : interpret_result_ v = Interpret_Normal -> SetResult Interpret_Normal v = v.
Proof. destruct v; cbn; intros ->; reflexivity. Qed.

Lemma visit_flow ctx call a s v m v' m' : is_controlflow s = true -> visit ctx call a s (v, m) = Ok (v', m') ->
  m' = m /\ interpret_result_ v' = Interpret_Normal /\ statements_ v' = statements_ v.
Proof.
  unfold is_controlflow, visit. destruct (kind s); try discriminate; intros _ E; bind_inv E;
    try (injection E as <- <-; repeat split; reflexivity); try discriminate.
  destruct v0; try discriminate; [injection E as <- <-; repeat split; reflexivity |].
  bind_inv E. injection E as <- <-. repeat split; reflexivity.
Qed.

(** Replacing a target in control flow redirects it. *)
Definition redirect (t u x : Z) : Z := if x =? t then u else x.

Section Redirect.
Context (s : SSAStatement) (t u : Z).
Abbreviation s' := (fst (Replace s (OBlock t) (OBlock u))).

Lemma GetOperand_replace i : GetOperand s' i = rmap (replace_operand (OBlock t) (OBlock u)) (GetOperand s i).
Proof.
  unfold GetOperand, at_. cbn. destruct (i <? 0) eqn:E; [reflexivity |]. rewrite list_lookup_fmap. destruct (operands_ s !! _); reflexivity.
Qed.

Lemma replace_operand_cases o : replace_operand (OBlock t) (OBlock u) o = match o with OBlock x => OBlock (redirect t u x) | _ => o end.
Proof.
  unfold replace_operand, redirect. case_bool_decide as E; [subst; rewrite Z.eqb_refl; reflexivity |].
  destruct o; try reflexivity. destruct (Z.eqb_spec b t); [subst; congruence | reflexivity].
Qed.

Lemma stmt_operand_replace i : stmt_operand s' i = stmt_operand s i.
Proof.
  unfold stmt_operand. rewrite GetOperand_replace. destruct (GetOperand s i) as [o |]; [| reflexivity]. cbn. rewrite replace_operand_cases.
  destruct o; reflexivity.
Qed.

Lemma block_operand_replace i : block_operand s' i = rmap (redirect t u) (block_operand s i).
Proof.
  unfold block_operand. rewrite GetOperand_replace. destruct (GetOperand s i) as [o |]; [| reflexivity]. cbn. rewrite replace_operand_cases.
  destruct o; reflexivity.
Qed.

Lemma operand_value_replace v i : operand_value v s' i = operand_value v s i.
Proof. unfold operand_value. rewrite stmt_operand_replace. reflexivity. Qed.

Lemma case_pairs_replace ops : case_pairs (map (replace_operand (OBlock t) (OBlock u)) ops) = rmap (map (fun p => (fst p, redirect t u (snd p)))) (case_pairs ops).
Proof.
  induction ops as [ops IH] using (induction_ltof1 _ length). unfold ltof in IH. destruct ops as [| o [| o2 r]]; [reflexivity | |].
  - cbn [map]. rewrite replace_operand_cases. destruct o; reflexivity.
  - cbn [map]. rewrite !replace_operand_cases. destruct o; try reflexivity. destruct o2; try reflexivity. cbn. rewrite IH by (cbn; lia).
    destruct (case_pairs r); reflexivity.
Qed.

Lemma last_value_redirect (l : list (Z * Z)) v : last_value (map (fun p => (fst p, redirect t u (snd p))) l) v = option_map (redirect t u) (last_value l v).
Proof.
  unfold last_value. rewrite <- map_rev. induction (rev l) as [| [x y] r IH]; [reflexivity |]. cbn. destruct (x =? v); [reflexivity | exact IH].
Qed.

Lemma GetValues_replace : GetValues s' = rmap (map (fun p => (fst p, redirect t u (snd p)))) (GetValues s).
Proof.
  unfold GetValues. cbn [operands_ fst Replace]. rewrite skipn_map, case_pairs_replace. destruct (case_pairs (drop 2 (operands_ s))) as [l |]; [| reflexivity]. cbn [rmap rbind]. f_equal.
  rewrite map_map. cbn [fst]. induction (as_set (map fst l)) as [| v r IH]; [reflexivity |]. cbn. rewrite last_value_redirect.
  destruct (last_value l v); cbn; [f_equal |]; exact IH.
Qed.

Lemma switch_target_redirect a f l d :
  switch_target a f (map (fun p => (fst p, redirect t u (snd p))) l) (redirect t u d) = rmap (redirect t u) (switch_target a f l d).
Proof.
  revert d. induction l as [| [x y] l IH]; intros d; [reflexivity |]. cbn [map switch_target fst snd]. destruct (find_statement a x) as [st |]; [| reflexivity].
  cbn [of_option rbind]. destruct (kind st); try reflexivity. destruct (f Constant) as [b |]; [| reflexivity]. cbn [rbind].
  destruct b; apply IH.
Qed.

Definition redirect_state (st : VMActionState * MachineState) : VMActionState * MachineState :=
  (SetNextBlock (option_map (redirect t u) (next_block_ (fst st))) (fst st), snd st).

Lemma visit_redirect ctx call a st : is_controlflow s = true -> visit ctx call a s' st = rmap redirect_state (visit ctx call a s st).
Proof.
  unfold is_controlflow. intros Hc. unfold visit. destruct st as [v m]. change (kind s') with (kind s).
  destruct (kind s); try discriminate; rewrite ?operand_value_replace, ?block_operand_replace, ?GetValues_replace.
  - destruct (block_operand s 0); reflexivity.
  - destruct (operand_value v s 0) as [c |]; [| reflexivity]. cbn [rbind]. destruct (const_bool c) as [[] |]; [| | reflexivity]; cbn [rbind];
      rewrite ?block_operand_replace; destruct (block_operand s _); reflexivity.
  - destruct (block_operand s 1) as [d |]; [| reflexivity]. cbn [rbind rmap]. destruct (operand_value v s 0) as [c |]; [| reflexivity]. cbn [rbind].
    destruct (Int c) as [i |]; [| reflexivity]. cbn [rbind]. destruct (GetValues s) as [l |]; [| reflexivity]. cbn [rbind rmap].
    rewrite switch_target_redirect. destruct (switch_target _ _ l d); reflexivity.
  - rewrite GetOperand_replace. destruct (GetOperand s 0) as [o |]; [| reflexivity]. cbn [rbind rmap]. rewrite replace_operand_cases.
    destruct o; try reflexivity. cbn. destruct (GetStatementValue v s0); reflexivity.
  - reflexivity.
Qed.
End Redirect.

(** ** Threading one target *)

Section Thread.
Context (a a' : SSAFormAction) (b : Z) (init : list SSAStatement) (s : SSAStatement) (t u : Z).
Hypothesis H : new_end a a' b init s (fst (Replace s (OBlock t) (OBlock u))).
Context (jump : SSAStatement) (tb : SSABlock).
Hypothesis Ht : find_block a t = Some tb.
Hypothesis Hj : Statements tb = [jump].
Hypothesis Hk : kind jump = SJump.
Hypothesis Hu : block_operand jump 0 = Ok u.
Context (ctx : SSAContext) (call : SSAFormAction -> list IRConstant -> MachineState -> result (ActionResult * MachineState)).
Abbreviation run := (execute_blocks ctx call).

Lemma jump_block_step n v m : interpret_result_ v = Interpret_Normal ->
  run (S n) a (Some t) (v, m) = run n a (Some u) (SetNextBlock (Some u) v, m).
Proof.
  intros Hr. cbn [execute_blocks]. unfold deref_block. rewrite Ht. cbn [of_option rbind]. rewrite Hj. cbn [execute_statements].
  assert (E : visit ctx call a jump (v, m) = Ok (SetNextBlock (Some u) v, m)).
  { unfold visit. rewrite Hk, Hu. cbn [rbind]. rewrite SetResult_same; [reflexivity | exact Hr]. }
  rewrite E. cbn [rbind fst]. change (interpret_result_ (SetNextBlock (Some u) v)) with (interpret_result_ v). rewrite Hr.
  rewrite !bool_decide_true by reflexivity. cbn [rbind]. rewrite bool_decide_true by reflexivity. reflexivity.
Qed.

(** A block of [a]: its statements run alike, up to the redirected end. *)
Lemma block_step x blk st : find_block a x = Some blk ->
  exists blk', find_block a' x = Some blk' /\
    ((x <> b /\ execute_statements ctx call a' (Statements blk') st = execute_statements ctx call a (Statements blk) st) \/
     (x = b /\ execute_statements ctx call a' (Statements blk') st =
        (let* (r, st1) := execute_statements ctx call a init st in
         if bool_decide (r = Interpret_Normal) then let* st2 := visit ctx call a s st1 in Ok (Interpret_Normal, redirect_state t u st2) else Ok (r, st1)) /\
      execute_statements ctx call a (Statements blk) st =
        (let* (r, st1) := execute_statements ctx call a init st in
         if bool_decide (r = Interpret_Normal) then let* st2 := visit ctx call a s st1 in Ok (Interpret_Normal, st2) else Ok (r, st1)))).
Proof.
  intros Hx. rewrite (ne_find _ _ _ _ _ _ H). destruct (Z.eqb_spec x b) as [-> | Hne].
  - eexists. split; [reflexivity |]. right. split; [reflexivity |]. destruct (ne_block _ _ _ _ _ _ H) as (blk0 & E0 & Hb).
    rewrite Hx in E0. injection E0 as <-. rewrite (wb_statements _ _ _ _ Hb). cbn [Statements]. rewrite !execute_statements_app.
    rewrite (ne_run_other _ _ _ _ _ _ H) by apply (ne_init_elem _ _ _ _ _ _ H).
    split; apply rbind_ext; try reflexivity; intros [r [v1 m1]]; destruct (bool_decide (r = Interpret_Normal)); try reflexivity; cbn [execute_statements].
    + rewrite (ne_run_new _ _ _ _ _ _ H), visit_redirect by apply (wb_flow _ _ _ _ Hb).
      destruct (visit ctx call a s (v1, m1)) as [[v2 m2] |] eqn:E; [| reflexivity]. cbn [rmap rbind fst redirect_state].
      destruct (visit_flow ctx call a s v1 m1 v2 m2 (wb_flow _ _ _ _ Hb) E) as (_ & Hn & _). rewrite bool_decide_true by exact Hn. reflexivity.
    + destruct (visit ctx call a s (v1, m1)) as [[v2 m2] |] eqn:E; [| reflexivity]. cbn [rbind fst].
      destruct (visit_flow ctx call a s v1 m1 v2 m2 (wb_flow _ _ _ _ Hb) E) as (_ & Hn & _). rewrite bool_decide_true by exact Hn. reflexivity.
  - exists blk. split; [exact Hx |]. left. split; [exact Hne |]. apply (ne_run_other _ _ _ _ _ _ H). intros y Hy. apply all_statements_elem.
    exists blk. split; [apply (find_block_elem a x blk Hx) | exact Hy].
Qed.

Lemma flow_normal st1 st2 : visit ctx call a s st1 = Ok st2 -> interpret_result_ (fst st2) = Interpret_Normal.
Proof.
  destruct (ne_block _ _ _ _ _ _ H) as (blk & _ & Hb). destruct st1 as [v1 m1], st2 as [v2 m2]. intros E.
  apply (visit_flow ctx call a s v1 m1 v2 m2 (wb_flow _ _ _ _ Hb) E).
Qed.

Lemma redirect_other st : next_block_ (fst st) <> Some t -> redirect_state t u st = st.
Proof.
  intros Hn. destruct st as [v m]. unfold redirect_state. cbn [fst snd] in *. f_equal. destruct (next_block_ v) as [x |] eqn:E; cbn.
  - unfold redirect. destruct (Z.eqb_spec x t); [congruence |]. rewrite <- E. apply SetNextBlock_same.
  - rewrite <- E. apply SetNextBlock_same.
Qed.

Lemma redirect_there v m : next_block_ v = Some t -> redirect_state t u (v, m) = (SetNextBlock (Some u) v, m).
Proof. intros E. unfold redirect_state. cbn [fst snd]. rewrite E. cbn. unfold redirect. rewrite Z.eqb_refl. reflexivity. Qed.

Lemma thread_forward n : forall next st r, run n a next st = Ok r -> run n a' next st = Ok r.
Proof.
  induction n as [n IH] using lt_wf_ind. intros next st r E. destruct next as [x |]; [| destruct n; exact E]. destruct n as [| k]; [discriminate |].
  cbn [execute_blocks] in E |- *. unfold deref_block in *. bind_inv E. destruct (find_block a x) as [blk |] eqn:Ex; [| discriminate]. injection E0 as <-.
  destruct (block_step x blk st Ex) as (blk' & -> & [[Hne Eb] | (-> & Eb' & Eb)]); cbn [of_option rbind].
  - rewrite Eb, E1. cbn [rbind]. destruct v0 as [q st1]. destruct (bool_decide (q = Interpret_Normal)); [| exact E]. apply (IH k); [lia | exact E].
  - rewrite Eb in E1. bind_inv E1. rewrite Eb', E0. cbn [rbind]. destruct v as [q st1]. destruct (bool_decide (q = Interpret_Normal)) eqn:Eq.
    + bind_inv E1. injection E1 as <-. rewrite E2. cbn [rbind]. rewrite bool_decide_true in E |- * by reflexivity. destruct v as [v2 m2].
      pose proof (flow_normal st1 (v2, m2) E2) as Hn. cbn [fst] in Hn.
      destruct (decide (next_block_ v2 = Some t)) as [Et | Et].
      * rewrite (redirect_there v2 m2 Et). cbn [fst] in E |- *. rewrite Et in E. cbn [SetNextBlock next_block_].
        destruct k as [| k]; [discriminate |]. rewrite (jump_block_step k v2 m2 Hn) in E.
        apply (IH k) in E; [| lia]. apply (execute_blocks_more _ _ k (S k) _ _ _ _ E). lia.
      * rewrite (redirect_other (v2, m2) Et). apply (IH k); [lia | exact E].
    + injection E1 as <-. cbn [rbind]. rewrite Eq in E |- *. exact E.
Qed.

Lemma thread_backward n : forall next st r, run n a' next st = Ok r -> run (2 * n) a next st = Ok r.
Proof.
  induction n as [n IH] using lt_wf_ind. intros next st r E. destruct next as [x |]; [| destruct n; exact E]. destruct n as [| k]; [discriminate |].
  replace (2 * S k)%nat with (S (S (2 * k))) by lia. remember (S (2 * k)) as K eqn:EK. cbn [execute_blocks] in E. unfold deref_block in *. bind_inv E.
  destruct (find_block a x) as [blk |] eqn:Ex.
  2:{ rewrite (ne_find _ _ _ _ _ _ H) in E0. destruct (Z.eqb_spec x b) as [-> | _]; [| rewrite Ex in E0; discriminate].
      destruct (ne_block _ _ _ _ _ _ H) as (blk0 & E2 & _). congruence. }
  cbn [execute_blocks]. unfold deref_block. rewrite Ex. cbn [of_option rbind].
  destruct (block_step x blk st Ex) as (blk' & Ef & Hcase). rewrite Ef in E0. injection E0 as <-. destruct Hcase as [[Hne Eb] | (-> & Eb' & Eb)].
  - rewrite <- Eb, E1. cbn [rbind]. destruct v0 as [q st1]. destruct (bool_decide (q = Interpret_Normal)); [| exact E].
    apply (execute_blocks_more _ _ (2 * k)); [apply (IH k); [lia | exact E] | lia].
  - rewrite Eb' in E1. bind_inv E1. rewrite Eb, E0. cbn [rbind]. destruct v as [q st1]. destruct (bool_decide (q = Interpret_Normal)) eqn:Eq.
    + bind_inv E1. injection E1 as <-. rewrite E2. cbn [rbind]. rewrite bool_decide_true in E |- * by reflexivity. destruct v as [v2 m2].
      pose proof (flow_normal st1 (v2, m2) E2) as Hn. cbn [fst] in Hn.
      destruct (decide (next_block_ v2 = Some t)) as [Et | Et].
      * rewrite (redirect_there v2 m2 Et) in E. cbn [fst] in E |- *. rewrite Et. cbn [SetNextBlock next_block_] in E.
        rewrite EK, (jump_block_step (2 * k) v2 m2 Hn). apply (IH k); [lia | exact E].
      * rewrite (redirect_other (v2, m2) Et) in E. apply (execute_blocks_more _ _ (2 * k)); [apply (IH k); [lia | exact E] | lia].
    + injection E1 as <-. cbn [rbind]. rewrite Eq in E |- *. exact E.
Qed.
End Thread.

(** From the blocks to the action. *)
Lemma meaning_of_blocks a a' b init s s' : new_end a a' b init s s' ->
  (forall ctx call n next st r, execute_blocks ctx call n a next st = Ok r -> execute_blocks ctx call n a' next st = Ok r) ->
  (forall ctx call n next st r, execute_blocks ctx call n a' next st = Ok r -> exists k, execute_blocks ctx call k a next st = Ok r) ->
  same_meaning a a'.
Proof.
  intros H Hf Hb ctx call params m. pose proof (ne_same_values _ _ _ _ _ _ H) as Hs. destruct (ne_rest _ _ _ _ _ _ H) as (Ee & _ & Ep & Er).
  unfold ExecuteAction. rewrite Ee, Ep, Er. rewrite <- (set_parameters_same a a' Hs). split; intros n r E; bind_inv E.
  - rewrite E0. cbn [rbind]. destruct v0 as [q [v1 m1]]. rewrite (Hf _ _ _ _ _ _ E1). cbn [rbind]. bind_inv E. rewrite E2. cbn [rbind].
    rewrite <- (reference_parameters_same a a' Hs), E3. exact E.
  - destruct v0 as [q [v1 m1]]. destruct (Hb _ _ _ _ _ _ E1) as (k & Ek). exists k. rewrite E0. cbn [rbind]. rewrite Ek. cbn [rbind].
    bind_inv E. rewrite E2. cbn [rbind]. rewrite (reference_parameters_same a a' Hs), E3. exact E.
Qed.

(** ** Replacing the control flow of a block *)

Lemma wf_own_block a blk : wf a -> blk ∈ blocks_ a -> find_block a (block_address blk) = Some blk.
Proof.
  intros Hw Hb. destruct (find_block_ids a (block_address blk)) as (c & E); [apply list_elem_of_fmap; eauto |].
  destruct (find_block_elem a _ c E) as [Hc Ea]. rewrite E. f_equal.
  apply (map_nodup_inj block_address (blocks_ a)); try assumption. apply (wf_blocks a Hw).
Qed.

(** A statement is in one block. *)
Lemma one_block a y z x : wf a -> y ∈ blocks_ a -> z ∈ blocks_ a -> x ∈ Statements y -> x ∈ Statements z -> y = z.
Proof.
  intros Hw Hy Hz Hxy Hxz. pose proof (wf_addresses a Hw) as Hd. unfold all_statements in Hd. clear Hw. revert Hd Hy Hz.
  induction (blocks_ a) as [| w l IH]; intros Hd Hy Hz; [inversion Hy |]. cbn in Hd. rewrite map_app in Hd. apply NoDup_app in Hd as (_ & Hdis & Hd).
  assert (Hlater : forall q, q ∈ l -> x ∈ Statements q -> x ∈ Statements w -> False).
  { intros q Hq Hxq Hxw. apply (Hdis (address x)); [apply list_elem_of_fmap; eauto |]. apply list_elem_of_fmap. exists x. split; [reflexivity |].
    apply list_elem_of_In, in_concat. exists (Statements q). split; [apply in_map, list_elem_of_In, Hq | apply list_elem_of_In, Hxq]. }
  apply elem_of_cons in Hy as [-> | Hy]; apply elem_of_cons in Hz as [-> | Hz]; [reflexivity | | |].
  - destruct (Hlater z Hz Hxz Hxy).
  - destruct (Hlater y Hy Hxy Hxz).
  - apply IH; assumption.
Qed.

(** The statements of an action after a change to the block at [b]. *)
Section ChangeBlock.
Context (a : SSAFormAction) (Hw : wf a) (b : Z) (blk : SSABlock) (E : find_block a b = Some blk).
Context (g : SSABlock -> SSABlock) (Hg : forall y, block_address (g y) = block_address y).

Lemma change_find x : find_block (update_block a b g) x = if x =? b then Some (g blk) else find_block a x.
Proof.
  rewrite find_block_update by exact Hg. destruct (Z.eqb_spec x b) as [-> | Hne].
  - rewrite E. cbn. destruct (find_block_elem a b blk E) as [_ ->]. rewrite Z.eqb_refl. reflexivity.
  - destruct (find_block a x) as [y |] eqn:Ex; [| reflexivity]. cbn. destruct (find_block_elem a x y Ex) as [_ ->].
    destruct (Z.eqb_spec x b); [contradiction | reflexivity].
Qed.

Lemma change_elem x : x ∈ all_statements (update_block a b g) <->
  x ∈ Statements (g blk) \/ exists y, y ∈ blocks_ a /\ block_address y <> b /\ x ∈ Statements y.
Proof.
  rewrite all_statements_elem. cbn. destruct (find_block_elem a b blk E) as [Hblk Ea]. split.
  - intros (y & Hy & Hx). apply list_elem_of_fmap in Hy as (z & -> & Hz). destruct (Z.eqb_spec (block_address z) b) as [Ez | Hne]; [| eauto].
    left. pose proof (wf_own_block a z Hw Hz) as Eo. rewrite Ez, E in Eo. injection Eo as ->. exact Hx.
  - intros [Hx | (y & Hy & Hne & Hx)].
    + exists (g blk). split; [| exact Hx]. apply list_elem_of_fmap. exists blk. rewrite Ea, Z.eqb_refl. auto.
    + exists y. split; [| exact Hx]. apply list_elem_of_fmap. exists y. destruct (Z.eqb_spec (block_address y) b); [contradiction | auto].
Qed.

Lemma old_elem x : x ∈ all_statements a <-> x ∈ Statements blk \/ exists y, y ∈ blocks_ a /\ block_address y <> b /\ x ∈ Statements y.
Proof.
  rewrite all_statements_elem. destruct (find_block_elem a b blk E) as [Hblk Ea]. split.
  - intros (y & Hy & Hx). destruct (decide (block_address y = b)) as [Ey | Hne]; [| eauto].
    left. pose proof (wf_own_block a y Hw Hy) as Eo. rewrite Ey, E in Eo. injection Eo as ->. exact Hx.
  - intros [Hx | (y & Hy & _ & Hx)]; eauto.
Qed.

Lemma change_addresses l : map address (Statements (g blk)) = map l (map address (Statements blk)) ->
  (forall y, y ∈ all_statements a -> y ∉ Statements blk -> l (address y) = address y) ->
  map address (all_statements (update_block a b g)) = map l (map address (all_statements a)).
Proof.
  intros Hblk Hl. unfold all_statements. cbn. rewrite !concat_map, !map_map. f_equal. apply map_ext_in. intros y Hy. apply list_elem_of_In in Hy.
  destruct (Z.eqb_spec (block_address y) b) as [Ey | Hne].
  - pose proof (wf_own_block a y Hw Hy) as Eo. rewrite Ey, E in Eo. injection Eo as ->. exact Hblk.
  - rewrite map_map. apply map_ext_in. intros x Hx. apply list_elem_of_In in Hx. symmetry. apply Hl; [apply all_statements_elem; eauto |].
    intros Hin. apply Hne. destruct (find_block_elem a b blk E) as [Hb Ea]. rewrite <- Ea. f_equal. apply (one_block a y blk x); assumption.
Qed.
End ChangeBlock.

Lemma new_end_update a a' b blk init s s' g :
  wf a -> find_block a b = Some blk -> wf_block a blk init s -> a' = update_block a b g \/ (exists n, new_address a <= n /\ a' = with_new_address n (update_block a b g)) ->
  (forall y, block_address (g y) = block_address y) -> Statements (g blk) = init ++ [s'] ->
  is_controlflow s' = true -> (exists l, GetTargets s' = Ok l) -> (forall t, OBlock t ∈ operands_ s' -> t ∈ block_ids a) -> valued_stmt a s' ->
  (address s' = address s \/ (forall x, x ∈ all_statements a -> address x <> address s')) -> address s' < new_address a' ->
  new_end a a' b init s s'.
Proof.
  intros Hw E Hb Ha' Hg Hst Hf Ht Hc Hv Haddr Hfr. pose proof (wb_statements _ _ _ _ Hb) as Eb.
  assert (Hall : all_statements a' = all_statements (update_block a b g)) by (destruct Ha' as [-> | (n & _ & ->)]; reflexivity).
  assert (Hblocks : blocks_ a' = blocks_ (update_block a b g)) by (destruct Ha' as [-> | (n & _ & ->)]; reflexivity).
  assert (Hs : s ∈ all_statements a) by (apply (old_elem a Hw b blk E); left; rewrite Eb; apply elem_of_app; right; left).
  assert (Huniq : forall y, y ∈ all_statements a -> address y = address s -> y = s)
    by (intros y Hy Ey; apply (map_nodup_inj address (all_statements a)); try assumption; apply (wf_addresses a Hw)).
  assert (Hninit : s ∉ init) by (intros Hin; pose proof (wb_init _ _ _ _ Hb s Hin); rewrite (wb_flow _ _ _ _ Hb) in *; discriminate).
  pose (l := fun x => if x =? address s then address s' else x).
  assert (Hl : forall y, y ∈ all_statements a -> y <> s -> l (address y) = address y).
  { intros y Hy Hne. unfold l. destruct (Z.eqb_spec (address y) (address s)) as [Ey | _]; [destruct (Hne (Huniq y Hy Ey)) | reflexivity]. }
  assert (Hmap : map address (all_statements a') = map l (map address (all_statements a))).
  { rewrite Hall. apply (change_addresses a Hw b blk E g).
    - rewrite Hst, Eb, !map_app. cbn. unfold l at 2. rewrite Z.eqb_refl. f_equal. rewrite map_map. apply map_ext_in. intros x Hx.
      apply list_elem_of_In in Hx. symmetry. apply Hl; [| intros ->; contradiction]. apply (old_elem a Hw b blk E). left. rewrite Eb. apply elem_of_app. auto.
    - intros y Hy Hny. apply Hl; [exact Hy |]. intros ->. apply Hny. rewrite Eb. apply elem_of_app. right. left. }
  split; try assumption.
  - exists blk. auto.
  - intros x. assert (Ef : find_block a' x = find_block (update_block a b g) x) by (unfold find_block; rewrite Hblocks; reflexivity). rewrite Ef.
    rewrite (change_find a b blk E g Hg). destruct (Z.eqb_spec x b); [| reflexivity]. f_equal. destruct (find_block_elem a b blk E) as [_ Ea].
    specialize (Hg blk). destruct (g blk). cbn in *. congruence.
  - unfold block_ids. rewrite Hblocks. apply (block_ids_update a b g Hg).
  - intros x Hx Hne. rewrite Hall. apply (change_elem a Hw b blk E g). apply (old_elem a Hw b blk E) in Hx as [Hx | Hx]; [| auto].
    left. rewrite Hst. rewrite Eb in Hx. apply elem_of_app in Hx as [Hx | Hx]; [apply elem_of_app; auto |]. apply list_elem_of_singleton in Hx. contradiction.
  - intros x Hx. rewrite Hall in Hx. apply (change_elem a Hw b blk E g) in Hx as [Hx | (y & Hy & Hne & Hx)].
    + rewrite Hst in Hx. apply elem_of_app in Hx as [Hx | Hx]; [| apply list_elem_of_singleton in Hx; auto].
      right. split; [| intros ->; contradiction]. apply (old_elem a Hw b blk E). left. rewrite Eb. apply elem_of_app. auto.
    + right. assert (Hxa : x ∈ all_statements a) by (apply all_statements_elem; eauto). split; [exact Hxa |]. intros ->.
      apply Hne. destruct (find_block_elem a b blk E) as [Hbl Ea]. rewrite <- Ea. f_equal. apply (one_block a y blk s); try assumption.
      rewrite Eb. apply elem_of_app. right. left.
  - rewrite Hmap. destruct Haddr as [Ha | Ha].
    + replace (map l (map address (all_statements a))) with (map address (all_statements a)); [apply (wf_addresses a Hw) |].
      symmetry. rewrite <- (map_id (map address (all_statements a))) at 2. apply map_ext. intros x. unfold l. rewrite Ha. destruct (Z.eqb_spec x (address s)); auto.
    + apply (NoDup_fmap_2_strong l); [| apply (wf_addresses a Hw)]. intros x y Hx Hy El. unfold l in El.
      apply list_elem_of_fmap in Hx as (sx & -> & Hx), Hy as (sy & -> & Hy). pose proof (Ha sx Hx). pose proof (Ha sy Hy).
      destruct (Z.eqb_spec (address sx) (address s)), (Z.eqb_spec (address sy) (address s)); congruence.
  - rewrite <- (length_map address (all_statements a')), Hmap, !length_map. reflexivity.
  - destruct Ha' as [-> | (n & Hn & ->)]; [reflexivity | exact Hn].
  - destruct Ha' as [-> | (n & _ & ->)]; repeat split; reflexivity.
Qed.

(** ** Targets *)

Lemma as_set_nodup l : NoDup (as_set l).
Proof. unfold as_set. rewrite (merge_sort_Permutation Z.le). apply NoDup_remove_dups. Qed.

Lemma block_operand_elem s i t : block_operand s i = Ok t -> OBlock t ∈ operands_ s.
Proof.
  unfold block_operand, GetOperand. intros H. bind_inv H. destruct v; try discriminate. injection H as ->.
  apply at_Ok in E as [_ E]. apply list_elem_of_lookup. eauto.
Qed.

Lemma as_blocks_elem ops l t : as_blocks ops = Ok l -> t ∈ l -> OBlock t ∈ ops.
Proof.
  revert l. induction ops as [| o r IH]; intros l H Ht; cbn in H; [injection H as <-; inversion Ht |]. destruct o; try discriminate.
  bind_inv H. injection H as <-. apply elem_of_cons in Ht as [-> | Ht]; [left | right; apply (IH v); auto].
Qed.

Lemma odd_operands_elem ops o : o ∈ odd_operands ops -> o ∈ ops.
Proof.
  induction ops as [ops IH] using (induction_ltof1 _ length). unfold ltof in IH. destruct ops as [| x [| y r]]; [inversion 1 | inversion 1 |].
  cbn. intros H. apply elem_of_cons in H as [-> | H]; [right; left | right; right; apply (IH r); [cbn; lia | exact H]].
Qed.

Lemma targets_spec s l : GetTargets s = Ok l -> NoDup l /\ forall t, t ∈ l -> OBlock t ∈ operands_ s.
Proof.
  unfold GetTargets. destruct (kind s); intros H; try (injection H as <-; split; [constructor | intros t Ht; inversion Ht]).
  - bind_inv H. injection H as <-. split; [apply NoDup_singleton |]. intros t Ht. apply list_elem_of_singleton in Ht as ->. apply (block_operand_elem s 0 _ E).
  - bind_inv H. injection H as <-. apply block_operand_elem in E, E0. destruct (Z.eqb_spec v v0).
    + split; [apply NoDup_singleton |]. intros t Ht. apply list_elem_of_singleton in Ht as ->. exact E.
    + split; [apply NoDup_cons; split; [intros Hin; apply list_elem_of_singleton in Hin; contradiction | apply NoDup_singleton] |].
      intros t Ht. apply elem_of_cons in Ht as [-> | Ht]; [exact E |]. apply list_elem_of_singleton in Ht as ->. exact E0.
  - bind_inv H. injection H as <-. split; [apply as_set_nodup |]. intros t Ht. apply (proj1 (as_set_elem v t)) in Ht.
    apply odd_operands_elem, (as_blocks_elem _ _ _ E Ht).
Qed.

Lemma targets_replace s t u l : GetTargets s = Ok l -> exists l', GetTargets (fst (Replace s (OBlock t) (OBlock u))) = Ok l'.
Proof.
  unfold GetTargets. change (kind (fst (Replace s (OBlock t) (OBlock u)))) with (kind s).
  destruct (kind s); try (intros _; eexists; reflexivity); intros H; bind_inv H; rewrite ?block_operand_replace.
  - rewrite E. eexists. reflexivity.
  - rewrite E. cbn [rmap rbind]. rewrite ?block_operand_replace, E0. eexists. reflexivity.
  - cbn [operands_ fst Replace]. clear H. revert v E. induction (operands_ s) as [ops IH] using (induction_ltof1 _ length). unfold ltof in IH. intros v E.
    destruct ops as [| x [| y r]]; [eexists; reflexivity | eexists; reflexivity |]. cbn [map odd_operands] in E |- *. rewrite replace_operand_cases.
    destruct y; try discriminate. cbn [as_blocks] in E |- *. bind_inv E.
    destruct (IH r ltac:(cbn; lia) v0 E0) as (l' & E'). bind_inv E'. rewrite E1. eexists. reflexivity.
Qed.

Lemma replace_elem s t u o : o ∈ operands_ (fst (Replace s (OBlock t) (OBlock u))) -> o = OBlock u \/ o ∈ operands_ s.
Proof.
  cbn. intros H. apply list_elem_of_fmap in H as (x & -> & Hx). unfold replace_operand. case_bool_decide; auto.
Qed.

(** ** Steps of the pass *)

(** A target [t] of the block [b] that starts with a jump to [u] is replaced. *)
Record thread1 (a a' : SSAFormAction) (b : Z) (init : list SSAStatement) (s : SSAStatement) (t u : Z) : Prop := {
  t1_end : new_end a a' b init s (fst (Replace s (OBlock t) (OBlock u)));
  t1_target : OBlock t ∈ operands_ s;
  t1_jump : exists tb jump, find_block a t = Some tb /\ Statements tb = [jump] /\ kind jump = SJump /\ block_operand jump 0 = Ok u;
  t1_action : a' = replace_control_flow a b (fst (Replace s (OBlock t) (OBlock u)))
}.
Definition threads (a a' : SSAFormAction) : Prop := exists b init s t u, thread1 a a' b init s t u.

Lemma threads_meaning a a' : threads a a' -> same_meaning a a'.
Proof.
  intros (b & init & s & t & u & [He _ (tb & jump & H1 & H2 & H3 & H4) _]). apply (meaning_of_blocks a a' b init s _ He).
  - intros ctx call n next st r. apply (thread_forward a a' b init s t u He jump tb); assumption.
  - intros ctx call n next st r E. exists (2 * n)%nat. apply (thread_backward a a' b init s t u He jump tb); assumption.
Qed.

Lemma threads_wf a a' : threads a a' -> wf a'.
Proof. intros (b & init & s & t & u & [He _ _ _]). apply (ne_wf_after _ _ _ _ _ _ He). Qed.

Lemma threads_ids a a' : threads a a' -> block_ids a' = block_ids a.
Proof. intros (b & init & s & t & u & [He _ _ _]). apply (ne_ids _ _ _ _ _ _ He). Qed.

Lemma rtc_threads a a' : rtc threads a a' -> wf a -> wf a' /\ same_meaning a a' /\ block_ids a' = block_ids a.
Proof.
  induction 1 as [a | a b c Hab _ IH]; intros Hw; [split; [exact Hw | split; [apply same_meaning_refl | reflexivity]] |].
  destruct (IH (threads_wf a b Hab)) as (Hc & Hm & Hi). split; [exact Hc |].
  split; [apply (same_meaning_trans a b c); [apply threads_meaning, Hab | exact Hm] | rewrite Hi; apply threads_ids, Hab].
Qed.

(** A block that starts with a jump is only that jump. *)
Lemma jump_block a t tb jump rest : wf a -> find_block a t = Some tb -> Statements tb = jump :: rest -> kind jump = SJump ->
  rest = [] /\ exists u, block_operand jump 0 = Ok u /\ u ∈ block_ids a.
Proof.
  intros Hw Et Es Hk. destruct (find_block_elem a t tb Et) as [Hin _]. destruct (wf_each a Hw tb Hin) as (i & q & [W1 W2 W3 (l & W4) W5]).
  rewrite W1 in Es. destruct i as [| x i].
  - injection Es as -> <-. split; [reflexivity |]. unfold GetTargets in W4. rewrite Hk in W4. bind_inv W4. exists v. split; [exact E |].
    apply W5, (block_operand_elem jump 0 v E).
  - injection Es as -> _. specialize (W2 jump ltac:(left)). unfold is_controlflow in W2. rewrite Hk in W2. discriminate.
Qed.

Lemma thread_step a b blk init s t tb jump rest u :
  wf a -> find_block a b = Some blk -> wf_block a blk init s -> OBlock t ∈ operands_ s ->
  find_block a t = Some tb -> Statements tb = jump :: rest -> kind jump = SJump -> block_operand jump 0 = Ok u ->
  thread1 a (replace_control_flow a b (fst (Replace s (OBlock t) (OBlock u)))) b init s t u.
Proof.
  intros Hw Eb Hb Ht Et Es Hk Eu. destruct (jump_block a t tb jump rest Hw Et Es Hk) as (-> & u' & Eu' & Hu). rewrite Eu in Eu'. injection Eu' as <-.
  destruct Hb as [W1 W2 W3 (l & W4) W5]. destruct (find_block_elem a b blk Eb) as [Hin _]. split; [| exact Ht | exists tb, jump; auto | reflexivity].
  apply (new_end_update a _ b blk init s _ (fun y => with_statements (removelast (Statements y) ++ [fst (Replace s (OBlock t) (OBlock u))]) y)).
  - exact Hw.
  - exact Eb.
  - split; eauto.
  - left. reflexivity.
  - reflexivity.
  - cbn [Statements with_statements]. rewrite W1, removelast_last. reflexivity.
  - exact W3.
  - apply (targets_replace s t u l W4).
  - intros x Hx. apply replace_elem in Hx as [Hx | Hx]; [injection Hx as ->; exact Hu | apply W5, Hx].
  - intros x Hx. apply replace_elem in Hx as [Hx | Hx]; [discriminate |]. apply (wf_valued a Hw s); [| exact Hx]. apply all_statements_elem.
    exists blk. split; [exact Hin |]. rewrite W1. apply elem_of_app. right. left.
  - left. reflexivity.
  - apply (wf_fresh a Hw s). apply all_statements_elem. exists blk. split; [exact Hin |]. rewrite W1. apply elem_of_app. right. left.
Qed.

Definition starts_with_jump (a : SSAFormAction) (t : Z) : Prop :=
  exists tb jump rest, find_block a t = Some tb /\ Statements tb = jump :: rest /\ kind jump = SJump.

Lemma new_end_block a a' b init s s' : new_end a a' b init s s' -> wf_block a' (mkBlock b (init ++ [s'])) init s'.
Proof.
  intros H. destruct (ne_block _ _ _ _ _ _ H) as (old & _ & Hb). split.
  - reflexivity.
  - apply (wb_init _ _ _ _ Hb).
  - apply (ne_flow _ _ _ _ _ _ H).
  - apply (ne_targets _ _ _ _ _ _ H).
  - rewrite (ne_ids _ _ _ _ _ _ H). apply (ne_closed _ _ _ _ _ _ H).
Qed.

Lemma thread_targets_spec targets : forall a b blk init s changed,
  wf a -> find_block a b = Some blk -> wf_block a blk init s -> NoDup targets -> (forall t, t ∈ targets -> OBlock t ∈ operands_ s) ->
  exists a' c, thread_targets targets a b s changed = Ok (a', c) /\ rtc threads a a' /\ (c = true -> changed = true \/ tc threads a a') /\
    (c = false -> a' = a /\ changed = false /\ forall t, t ∈ targets -> ~ starts_with_jump a t).
Proof.
  induction targets as [| t r IH]; intros a b blk init s changed Hw Eb Hb Hd Hops.
  { exists a, changed. split; [reflexivity |]. split; [constructor |]. split; [auto |]. intros ->. split; [reflexivity |]. split; [reflexivity |]. intros t Ht. inversion Ht. }
  apply NoDup_cons in Hd as [Hnt Hd]. assert (Ht : OBlock t ∈ operands_ s) by (apply Hops; left).
  destruct (find_block_ids a t (wb_closed _ _ _ _ Hb t Ht)) as (tb & Et). cbn [thread_targets]. unfold deref_block. rewrite Et. cbn [of_option rbind].
  assert (Hskip : ~ starts_with_jump a t -> exists a' c, thread_targets r a b s changed = Ok (a', c) /\ rtc threads a a' /\
    (c = true -> changed = true \/ tc threads a a') /\ (c = false -> a' = a /\ changed = false /\ forall x, x ∈ t :: r -> ~ starts_with_jump a x)).
  { intros Hn. destruct (IH a b blk init s changed Hw Eb Hb Hd) as (a' & c & E & H1 & H2 & H3); [intros x Hx; apply Hops; right; exact Hx |].
    exists a', c. split; [exact E |]. split; [exact H1 |]. split; [exact H2 |]. intros Hc. destruct (H3 Hc) as (-> & -> & Hr). split; [reflexivity |].
    split; [reflexivity |]. intros x Hx. apply elem_of_cons in Hx as [-> | Hx]; auto. }
  destruct (Statements tb) as [| first rest] eqn:Es; [apply Hskip; intros (tb' & j & rs & E1 & E2 & _); congruence |].
  destruct (kind first) eqn:Ek; try (apply Hskip; intros (tb' & j & rs & E1 & E2 & E3); congruence).
  destruct (jump_block a t tb first rest Hw Et Es Ek) as (_ & u & Eu & _). rewrite Eu. cbn [rbind]. cbn [Replace].
  rewrite bool_decide_true by exact Ht. pose proof (thread_step a b blk init s t tb first rest u Hw Eb Hb Ht Et Es Ek Eu) as Hstep.
  set (a1 := replace_control_flow a b (fst (Replace s (OBlock t) (OBlock u)))) in *. pose proof (t1_end _ _ _ _ _ _ _ Hstep) as He.
  assert (Hth : threads a a1) by (exists b, init, s, t, u; exact Hstep).
  destruct (IH a1 b (mkBlock b (init ++ [fst (Replace s (OBlock t) (OBlock u))])) init (fst (Replace s (OBlock t) (OBlock u))) true) as (a' & c & E & H1 & H2 & H3).
  - apply (ne_wf_after _ _ _ _ _ _ He).
  - rewrite (ne_find _ _ _ _ _ _ He), Z.eqb_refl. reflexivity.
  - apply (new_end_block _ _ _ _ _ _ He).
  - exact Hd.
  - intros x Hx. cbn. apply list_elem_of_fmap. exists (OBlock x). split; [| apply Hops; right; exact Hx]. unfold replace_operand.
    rewrite bool_decide_false by (intros Ex; injection Ex as ->; contradiction). reflexivity.
  - exists a', c. split; [exact E |]. split; [eapply rtc_l; eassumption |]. split; [intros _; right; eapply tc_rtc_r; [apply tc_once, Hth | exact H1] |].
    intros Hc. destruct (H3 Hc) as (_ & Hf & _). discriminate.
Qed.

Lemma TryThreadJump_spec a b : wf a -> b ∈ block_ids a ->
  exists a' c, TryThreadJump a b = Ok (a', c) /\ rtc threads a a' /\ (c = true -> tc threads a a') /\
    (c = false -> a' = a /\ forall t, edge a b t -> ~ starts_with_jump a t).
Proof.
  intros Hw Hb. destruct (find_block_ids a b Hb) as (blk & Eb). destruct (find_block_elem a b blk Eb) as [Hin _].
  destruct (wf_each a Hw blk Hin) as (init & s & Hwb). unfold TryThreadJump, deref_block. rewrite Eb. cbn [of_option rbind].
  pose proof (wb_statements _ _ _ _ Hwb) as Es. pose proof (wb_flow _ _ _ _ Hwb) as Hf. destruct (wb_targets _ _ _ _ Hwb) as (l & El).
  assert (Ec : GetControlFlow blk = Some s) by (unfold GetControlFlow; rewrite Es, last_snoc, Hf; reflexivity). rewrite Ec, El. cbn [rbind].
  destruct (targets_spec s l El) as [Hd Hops].
  destruct (thread_targets_spec l a b blk init s false Hw Eb Hwb Hd Hops) as (a' & c & E & H1 & H2 & H3). exists a', c.
  split; [exact E |]. split; [exact H1 |]. split; [intros Hc; destruct (H2 Hc); [discriminate | assumption] |].
  intros Hc. destruct (H3 Hc) as (-> & _ & Hn). split; [reflexivity |]. intros t Ht. apply Hn. unfold edge, succs in Ht. rewrite Eb in Ht.
  unfold next_blocks, GetSuccessors in Ht. rewrite Ec, El in Ht. destruct (Statements blk); [inversion Ht | exact Ht].
Qed.

Lemma over_threads l : forall a changed, wf a -> (forall b, b ∈ l -> b ∈ block_ids a) ->
  exists a' c, over_blocks TryThreadJump l a changed = Ok (a', c) /\ rtc threads a a' /\ (c = true -> changed = true \/ tc threads a a') /\
    (c = false -> a' = a /\ changed = false /\ forall b t, b ∈ l -> edge a b t -> ~ starts_with_jump a t).
Proof.
  induction l as [| b l IH]; intros a changed Hw Hl; cbn [over_blocks].
  { exists a, changed. split; [reflexivity |]. split; [constructor |]. split; [auto |]. intros ->. repeat split. intros b t Hb. inversion Hb. }
  destruct (TryThreadJump_spec a b Hw ltac:(apply Hl; left)) as (a1 & c1 & -> & H1 & H2 & H3). cbn [rbind].
  destruct (rtc_threads a a1 H1 Hw) as (Hw1 & _ & Hi).
  destruct (IH a1 (changed || c1) Hw1) as (a' & c & E & J1 & J2 & J3); [intros x Hx; rewrite Hi; apply Hl; right; exact Hx |].
  exists a', c. split; [exact E |]. split; [etransitivity; eassumption |]. split.
  - intros Hc. destruct (J2 Hc) as [Ho | Ht]; [| right; eapply tc_rtc_l; eassumption].
    apply orb_true_iff in Ho as [-> | ->]; [auto |]. right. eapply tc_rtc_r; [apply H2; reflexivity | exact J1].
  - intros Hc. destruct (J3 Hc) as (-> & Ho & Hn). apply orb_false_iff in Ho as [-> ->]. destruct (H3 eq_refl) as [-> Hb]. repeat split.
    intros x t Hx. apply elem_of_cons in Hx as [-> | Hx]; [apply Hb | apply Hn, Hx].
Qed.

(** C5. On a well-formed action jump threading succeeds and keeps what
    the action does: an execution gives the same result after it, within the
    same number of blocks, and only results that the action gave before.  When
    it reports no change, no block goes to a block that starts with a jump. *)
Theorem jump_threading_correct a :
  wf a -> exists a' changed, JumpThreading a = Ok (a', changed) /\ wf a' /\ same_meaning a a' /\
    (changed = false -> a' = a /\ forall b t, edge a b t -> ~ starts_with_jump a t).
Proof.
  intros Hw. destruct (over_threads (block_ids a) a false Hw ltac:(auto)) as (a' & c & E & H1 & _ & H3). exists a', c.
  destruct (rtc_threads a a' H1 Hw) as (Hw' & Hm & _). split; [exact E |]. split; [exact Hw' |]. split; [exact Hm |].
  intros Hc. destruct (H3 Hc) as (-> & _ & Hn). split; [reflexivity |]. intros b t Ht. apply (Hn b t); [| exact Ht].
  unfold edge, succs in Ht. destruct (find_block a b) as [blk |] eqn:Eb; [| inversion Ht]. destruct (find_block_elem a b blk Eb) as [Hin <-].
  apply list_elem_of_fmap. eauto.
Qed.

(** ** Termination *)

Section Rank.
Context (rank : Z -> nat).

(** Jumps alone in their block go to blocks of a lower rank. *)
Definition ranked (a : SSAFormAction) : Prop :=
  forall t tb jump u, find_block a t = Some tb -> Statements tb = [jump] -> kind jump = SJump -> block_operand jump 0 = Ok u -> (rank u < rank t)%nat.

Definition operand_weight (o : SSAOperand) : nat := match o with OBlock t => rank t | _ => 0 end.
Definition stmt_weight (s : SSAStatement) : nat := sum_list (map operand_weight (operands_ s)).
Definition block_weight (b : SSABlock) : nat := sum_list (map stmt_weight (Statements b)).
Definition weight (a : SSAFormAction) : nat := sum_list (map block_weight (blocks_ a)).

Lemma list_singleton_inj {A} (x y : A) : [x] = [y] -> x = y.
Proof. congruence. Qed.

Lemma sum_lt {A} (f g : A -> nat) l x : (forall y, y ∈ l -> (f y <= g y)%nat) -> x ∈ l -> (f x < g x)%nat ->
  (sum_list (map f l) < sum_list (map g l))%nat.
Proof.
  induction l as [| y l IH]; intros Hle Hx Hlt; [inversion Hx |]. cbn.
  assert (Hl : (sum_list (map f l) <= sum_list (map g l))%nat).
  { clear IH Hx. induction l as [| z l IHl]; [cbn; lia |]. cbn. pose proof (Hle z ltac:(right; left)).
    specialize (IHl ltac:(intros w Hw; apply Hle; apply elem_of_cons in Hw as [-> | Hw]; [left | right; right; exact Hw])). cbn in IHl. lia. }
  apply elem_of_cons in Hx as [-> | Hx]; [cbn in *; lia |]. specialize (IH ltac:(intros w Hw; apply Hle; right; exact Hw) Hx Hlt).
  pose proof (Hle y ltac:(left)). cbn in *. lia.
Qed.

Lemma replace_weight s t u : OBlock t ∈ operands_ s -> (rank u < rank t)%nat -> (stmt_weight (fst (Replace s (OBlock t) (OBlock u))) < stmt_weight s)%nat.
Proof.
  intros Ht Hr. unfold stmt_weight. cbn [operands_ fst Replace]. rewrite map_map. apply (sum_lt _ _ _ (OBlock t)); [| exact Ht |].
  - intros o _. rewrite replace_operand_cases. destruct o; cbn; try lia. unfold redirect. destruct (Z.eqb_spec b t); subst; lia.
  - rewrite replace_operand_cases. cbn. unfold redirect. rewrite Z.eqb_refl. exact Hr.
Qed.

Lemma thread1_ranked a a' b init s t u : thread1 a a' b init s t u -> ranked a -> ranked a' /\ (weight a' < weight a)%nat.
Proof.
  intros [He Ht (tb & jump & H1 & H2 & H3 & H4) Ea] Hr. pose proof (Hr t tb jump u H1 H2 H3 H4) as Hlt.
  destruct (ne_block _ _ _ _ _ _ He) as (blk & Eb & Hb). split.
  - intros x xb q w Ex Es Hk Ew. rewrite (ne_find _ _ _ _ _ _ He) in Ex. destruct (Z.eqb_spec x b) as [-> | _]; [| apply (Hr x xb q w); assumption].
    injection Ex as <-. cbn [Statements] in Es. destruct init as [| i0 init]; [cbn [app] in Es; apply list_singleton_inj in Es; subst q | destruct init; discriminate].
    change (block_operand (fst (Replace s (OBlock t) (OBlock u))) 0 = Ok w) in Ew.
    rewrite block_operand_replace in Ew. destruct (block_operand s 0) as [w0 |] eqn:E0; [| discriminate]. injection Ew as <-.
    assert (Hw0 : (rank w0 < rank b)%nat) by (apply (Hr b blk s w0); [exact Eb | apply (wb_statements _ _ _ _ Hb) | exact Hk | exact E0]).
    unfold redirect. destruct (Z.eqb_spec w0 t); [subst; lia | exact Hw0].
  - subst a'. unfold weight, replace_control_flow, update_block. cbn [blocks_ with_blocks]. rewrite map_map.
    destruct (find_block_elem a b blk Eb) as [Hin Eaddr]. pose proof (ne_wf _ _ _ _ _ _ He) as Hw.
    assert (Hblk : (block_weight (with_statements (removelast (Statements blk) ++ [fst (Replace s (OBlock t) (OBlock u))]) blk) < block_weight blk)%nat).
    { unfold block_weight. cbn [Statements with_statements]. rewrite (wb_statements _ _ _ _ Hb), removelast_last, !map_app, !sum_list_with_app.
      pose proof (replace_weight s t u Ht Hlt). cbn in *. lia. }
    apply (sum_lt _ _ _ blk); [| exact Hin | rewrite Eaddr, Z.eqb_refl; exact Hblk]. intros y Hy. destruct (Z.eqb_spec (block_address y) b) as [Ey | _]; [| lia].
    pose proof (wf_own_block a y Hw Hy) as Eo. rewrite Ey, Eb in Eo. injection Eo as <-. lia.
Qed.

Lemma rtc_ranked a a' : rtc threads a a' -> ranked a -> ranked a' /\ (weight a' <= weight a)%nat.
Proof.
  induction 1 as [a | a b c (x & init & s & t & u & Hab) _ IH]; intros Hr; [auto |].
  destruct (thread1_ranked a b x init s t u Hab Hr) as [Hb Hlt]. destruct (IH Hb) as [Hc Hle]. split; [exact Hc | lia].
Qed.
Lemma tc_ranked a a' : tc threads a a' -> ranked a -> (weight a' < weight a)%nat.
Proof.
  intros Ht Hr. assert (Hex : exists b, threads a b /\ rtc threads b a') by (inversion Ht; subst; eauto using rtc_refl, tc_rtc).
  destruct Hex as (b & (x & init & s & t & u & Hab) & Hbc). destruct (thread1_ranked a b x init s t u Hab Hr) as [Hb Hlt].
  destruct (rtc_ranked b a' Hbc Hb). lia.
Qed.

Lemma run_threading fuel : forall a changed, wf a -> ranked a -> (weight a < fuel)%nat ->
  exists a' c, run_while fuel JumpThreading a changed = Ok (a', c) /\ wf a' /\ same_meaning a a' /\ forall b t, edge a' b t -> ~ starts_with_jump a' t.
Proof.
  induction fuel as [| n IH]; intros a changed Hw Hr Hf; [lia |]. cbn [run_while].
  destruct (over_threads (block_ids a) a false Hw ltac:(auto)) as (a1 & c & E & H1 & H2 & H3). unfold JumpThreading at 1. rewrite E. cbn [rbind].
  destruct (rtc_threads a a1 H1 Hw) as (Hw1 & Hm & _). destruct c.
  - destruct (H2 eq_refl) as [| Ht]; [discriminate |]. destruct (rtc_ranked a a1 H1 Hr) as [Hr1 _]. pose proof (tc_ranked a a1 Ht Hr).
    destruct (IH a1 true Hw1 Hr1 ltac:(lia)) as (a' & c & E' & Hw' & Hm' & Hn). exists a', c. split; [exact E' |]. split; [exact Hw' |].
    split; [apply (same_meaning_trans a a1 a'); assumption | exact Hn].
  - destruct (H3 eq_refl) as (-> & _ & Hn). exists a, changed. split; [reflexivity |]. split; [exact Hw |]. split; [apply same_meaning_refl |].
    intros b t Ht. apply (Hn b t); [| exact Ht]. unfold edge, succs in Ht. destruct (find_block a b) as [blk |] eqn:Eb; [| inversion Ht].
    destruct (find_block_elem a b blk Eb) as [Hin <-]. apply list_elem_of_fmap. eauto.
Qed.
End Rank.

(** C33. When blocks that are only a jump go to blocks of a
    lower rank, so that they form no cycle, the pass manager's loop on jump
    threading ends: within one more run than the sum of the ranks of all
    targets it reaches an action that does the same and in which no block goes
    to a block that starts with a jump. *)
Theorem jump_threading_terminates (rank : Z -> nat) a fuel :
  wf a -> ranked rank a -> (weight rank a < fuel)%nat ->
  exists a' changed, run_while fuel JumpThreading a false = Ok (a', changed) /\ wf a' /\ same_meaning a a' /\
    forall b t, edge a' b t -> ~ starts_with_jump a' t.
Proof. apply run_threading. Qed.

(** ** A block that jumps to itself *)

Definition self_jump (a : SSAFormAction) (x : Z) : Prop :=
  exists blk jump, find_block a x = Some blk /\ Statements blk = [jump] /\ kind jump = SJump /\ operands_ jump = [OBlock x].

Lemma self_jump_kept a a' x : threads a a' -> self_jump a x -> self_jump a' x.
Proof.
  intros (b & init & s & t & u & [He Ht (tb & j & H1 & H2 & H3 & H4) Ea]) (blk & jump & E1 & E2 & E3 & E4). unfold self_jump.
  rewrite (ne_find _ _ _ _ _ _ He). destruct (Z.eqb_spec x b) as [-> | _]; [| exists blk, jump; auto].
  destruct (ne_block _ _ _ _ _ _ He) as (blk0 & Eb & Hb). rewrite E1 in Eb. injection Eb as <-. pose proof (wb_statements _ _ _ _ Hb) as Es.
  rewrite E2 in Es. destruct init as [| i0 init]; [| destruct init; discriminate]. apply list_singleton_inj in Es as <-.
  rewrite E4 in Ht. apply list_elem_of_singleton in Ht. injection Ht as ->. rewrite E1 in H1. injection H1 as <-. rewrite E2 in H2.
  apply list_singleton_inj in H2 as <-. assert (u = b) as -> by (unfold block_operand, GetOperand in H4; rewrite E4 in H4; symmetry; apply Ok_inj; exact H4).
  eexists _, _. split; [reflexivity |]. split; [reflexivity |]. split; [exact E3 |]. cbn. rewrite E4. cbn. unfold replace_operand.
  rewrite bool_decide_true by reflexivity. reflexivity.
Qed.

Lemma self_jump_edge a x : self_jump a x -> edge a x x /\ starts_with_jump a x.
Proof.
  intros (blk & jump & E1 & E2 & E3 & E4). split; [| exists blk, jump, []; auto]. unfold edge, succs. rewrite E1.
  unfold next_blocks, GetSuccessors, GetControlFlow. rewrite E2. cbn. unfold is_controlflow. rewrite E3. cbn. unfold GetTargets. rewrite E3.
  unfold block_operand, GetOperand. rewrite E4. cbn. left.
Qed.

(** C40. In an action with a block that is only a jump to itself
    jump threading reports a change whenever it runs, so that the pass
    manager's loop never ends, however many rounds it is given. *)
Theorem jump_threading_diverges a x fuel changed :
  wf a -> self_jump a x -> run_while fuel JumpThreading a changed = Err OutOfFuel.
Proof.
  revert a changed. induction fuel as [| n IH]; intros a changed Hw Hx; [reflexivity |]. cbn [run_while].
  destruct (over_threads (block_ids a) a false Hw ltac:(auto)) as (a1 & c & E & H1 & _ & H3). unfold JumpThreading at 1. rewrite E. cbn [rbind].
  destruct (rtc_threads a a1 H1 Hw) as (Hw1 & _). destruct c.
  - apply IH; [exact Hw1 |]. clear - H1 Hx. induction H1 as [| a b c Hab _ IH]; [exact Hx |]. apply IH, (self_jump_kept a b); assumption.
  - destruct (H3 eq_refl) as (_ & _ & Hn). destruct (self_jump_edge a x Hx) as [He Hs]. destruct (Hn x x); try assumption.
    destruct Hx as (blk & jump & E1 & _). destruct (find_block_elem a x blk E1) as [Hin <-]. apply list_elem_of_fmap. eauto.
Qed.

(** ** Examples *)

Definition block_check (a : SSAFormAction) (b : SSABlock) : bool :=
  match last (Statements b) with
  | Some s =>
      is_controlflow s && forallb (fun x => negb (is_controlflow x)) (removelast (Statements b)) && is_ok (GetTargets s) &&
      forallb (fun o => match o with OBlock t => bool_decide (t ∈ block_ids a) | _ => true end) (operands_ s)
  | None => false
  end.
Definition valued_check (a : SSAFormAction) (s : SSAStatement) : bool :=
  forallb (fun o => match o with
    | OStmt x => match find_statement a x with Some q => negb (is_controlflow q) | None => false end
    | _ => true end) (operands_ s).
Definition wf_check (a : SSAFormAction) : bool :=
  bool_decide (NoDup (block_ids a)) && bool_decide (NoDup (map address (all_statements a))) && forallb (valued_check a) (all_statements a) &&
  forallb (block_check a) (blocks_ a) && forallb (fun s => address s <? new_address a) (all_statements a).

Lemma wf_check_ok a : wf_check a = true -> wf a.
Proof.
  unfold wf_check. rewrite !andb_true_iff, !bool_decide_eq_true, !forallb_forall. intros ((((H1 & H2) & H3) & H4) & H5).
  split; [exact H1 | exact H2 | | |].
  - intros s Hs x Hx. apply list_elem_of_In in Hs. specialize (H3 s Hs). unfold valued_check in H3. rewrite forallb_forall in H3.
    apply list_elem_of_In in Hx. specialize (H3 _ Hx). cbn in H3. destruct (find_statement a x) as [q |]; [| discriminate].
    exists q. apply negb_true_iff in H3. auto.
  - intros b Hb. apply list_elem_of_In in Hb. specialize (H4 b Hb). unfold block_check in H4. destruct (last (Statements b)) as [s |] eqn:El; [| discriminate].
    rewrite !andb_true_iff, !forallb_forall in H4. destruct H4 as (((W1 & W2) & W3) & W4). apply last_Some in El as (init & El). exists init, s. split.
    + exact El.
    + intros x Hx. apply negb_true_iff, W2. rewrite El, removelast_last. apply list_elem_of_In, Hx.
    + exact W1.
    + apply is_ok_true, W3.
    + intros t Ht. apply list_elem_of_In in Ht. specialize (W4 _ Ht). apply bool_decide_eq_true in W4. exact W4.
  - intros s Hs. apply list_elem_of_In in Hs. apply Z.ltb_lt, H5, Hs.
Qed.

(** [if(c) goto 2 else goto 3], with a chain of jumps from both to 5, which
    returns the constant 7. *)
Definition chain : SSAFormAction :=
  mkAction 1
    [mkBlock 1 [mkStmt 10 (SConstant (CInteger 1) IRTypes.UInt8) []; mkStmt 11 SIf [OStmt 10; OBlock 2; OBlock 3]];
     mkBlock 2 [mkStmt 20 SJump [OBlock 4]]; mkBlock 3 [mkStmt 30 SJump [OBlock 4]]; mkBlock 4 [mkStmt 40 SJump [OBlock 5]];
     mkBlock 5 [mkStmt 50 (SConstant (CInteger 7) IRTypes.UInt32) []; mkStmt 51 SReturn [OStmt 50]]]
    [] 100 [] IRTypes.UInt32.
Definition chain_rank (x : Z) : nat := Z.to_nat (5 - x).

Lemma chain_wf : wf chain.
Proof. apply wf_check_ok. vm_compute. reflexivity. Qed.

Lemma chain_ranked : ranked chain_rank chain.
Proof.
  intros t tb jump u E1 E2 E3 E4. destruct (find_block_elem chain t tb E1) as [Hin <-]. cbv in Hin.
  repeat (apply elem_of_cons in Hin as [-> | Hin]; [cbn in E2; first [discriminate E2 | injection E2 as <-; first [discriminate E3 | cbn in E4; injection E4 as <-; vm_compute; lia]] |]).
  inversion Hin.
Qed.

Lemma jump_threading_correct_witness :
  exists a' changed, JumpThreading chain = Ok (a', changed) /\ wf a' /\ same_meaning chain a' /\
    (changed = false -> a' = chain /\ forall b t, edge chain b t -> ~ starts_with_jump chain t).
Proof. apply jump_threading_correct, chain_wf. Defined.

Lemma jump_threading_terminates_witness :
  exists a' changed, run_while 12 JumpThreading chain false = Ok (a', changed) /\ wf a' /\ same_meaning chain a' /\
    forall b t, edge a' b t -> ~ starts_with_jump a' t.
Proof. apply (jump_threading_terminates chain_rank); [apply chain_wf | apply chain_ranked | vm_compute; lia]. Defined.

Definition spin : SSAFormAction :=
  mkAction 1 [mkBlock 1 [mkStmt 10 SJump [OBlock 2]]; mkBlock 2 [mkStmt 20 SJump [OBlock 2]]] [] 100 [] IRTypes.Void.

Lemma jump_threading_diverges_witness : run_while 1000 JumpThreading spin false = Err OutOfFuel.
Proof.
  apply (jump_threading_diverges spin 2); [apply wf_check_ok; vm_compute; reflexivity |]. eexists _, _. repeat split; reflexivity.
Defined.
