(* ===== verification/SSASimplifyCorrect.v ===== *)
(** * Correctness of control-flow simplification

    ControlFlowSimplificationPass.cpp against the interpreter: where the
    condition of a branch is a constant the branch becomes a jump. *)

From stdpp Require Import base list numbers gmap relations sorting.
From Stdlib Require Import ZArith Lia.
From S2P Require Import Prelude IRTypes RegisterFile IRConstants ConstantFold SSAForm SSAMachine SSAReach SSAInterp SSAInterpFacts SSAPasses SSAPassesCorrect.
#[local] Open Scope Z_scope.

(** Every result of [a] is a result of [a']. *)
Definition refines (a a' : SSAFormAction) : Prop :=
  forall ctx call params m n r, ExecuteAction ctx call n a params m = Ok r -> ExecuteAction ctx call n a' params m = Ok r.

(** The constants fit their types, as [SSAConstantStatement::Resolve] checks. *)
Definition constants_fit (a : SSAFormAction) : Prop :=
  forall s c t, s ∈ all_statements a -> kind s = SConstant c t -> Cast c t t = Ok c.

(** ** A branch on a constant *)

Section Branch.
Context (a : SSAFormAction) (Hw : wf a) (Hc : constants_fit a).
Context (ctx : SSAContext) (call : SSAFormAction -> list IRConstant -> MachineState -> result (ActionResult * MachineState)).

(** The value of a constant operand. *)
Lemma constant_value s c v cv : constant_operand a s = Ok (Some c) -> const_values a v -> operand_value v s 0 = Ok cv -> cv = c.
Proof.
  unfold constant_operand, operand_value, GetStatementValue. intros H Hv E. bind_inv H. bind_inv E. rewrite E0 in E2. injection E2 as <-.
  destruct (find_statement a v0) as [q |] eqn:Ef; [| discriminate]. injection E1 as <-. destruct (kind q) eqn:Hk; try discriminate. injection H as ->.
  destruct (statements_ v !! v0) as [[ts c1] |] eqn:Es; [| discriminate]. injection E as <-.
  pose proof (Hv v0 q c type ts c1 Ef Hk Es) as H1. rewrite (Hc q c type (proj1 (find_statement_elem a v0 q Ef)) Hk) in H1. congruence.
Qed.

Lemma is_true_bool c t b : is_true c = Ok t -> const_bool c = Ok b -> t = b.
Proof. destruct c; unfold is_true, const_bool, to_bool; congruence. Qed.

Lemma switch_target_weaken f g l d t : (forall c b, f c = Ok b -> g c = Ok b) -> switch_target a f l d = Ok t -> switch_target a g l d = Ok t.
Proof.
  intros Hfg. revert d. induction l as [| [x y] l IH]; intros d H; [exact H |]. cbn [switch_target] in *. bind_inv H. rewrite E. cbn [rbind].
  destruct (kind v); try discriminate. bind_inv H. rewrite (Hfg _ _ E0). cbn [rbind]. apply IH, H.
Qed.

(** The branch goes where the pass makes it jump to. *)
Lemma if_goes s c tv target v m v' m' :
  kind s = SIf -> constant_operand a s = Ok (Some c) -> is_true c = Ok tv -> block_operand s (if tv then 1 else 2) = Ok target ->
  const_values a v -> visit ctx call a s (v, m) = Ok (v', m') -> (v', m') = (SetResult Interpret_Normal (SetNextBlock (Some target) v), m).
Proof.
  intros Hk Hco Ht Ho Hv E. unfold visit in E. rewrite Hk in E. bind_inv E. apply (constant_value s c v v0 Hco Hv) in E0 as ->.
  rewrite <- (is_true_bool c tv v1 Ht E1) in E2. destruct tv; rewrite Ho in E2; injection E2 as <-; congruence.
Qed.

Lemma switch_goes s c d values target v m v' m' :
  kind s = SSwitch -> constant_operand a s = Ok (Some c) -> block_operand s 1 = Ok d -> GetValues s = Ok values ->
  switch_target a (fun k => const_eqb k c) values d = Ok target ->
  const_values a v -> visit ctx call a s (v, m) = Ok (v', m') -> (v', m') = (SetResult Interpret_Normal (SetNextBlock (Some target) v), m).
Proof.
  intros Hk Hco Hd Hvs Ht Hv E. unfold visit in E. rewrite Hk in E. bind_inv E. rewrite Hd in E0. injection E0 as <-. rewrite Hvs in E3. injection E3 as <-.
  apply (constant_value s c v v1 Hco Hv) in E1 as ->. destruct c as [| i | | | | | |]; try discriminate. injection E2 as <-.
  assert (E' : switch_target a (fun k => const_eqb k (CInteger i)) values d = Ok v4).
  { apply (switch_target_weaken _ _ _ _ _) with (2 := E4). intros k b Hb. bind_inv Hb. destruct k; try discriminate. unfold const_eqb, same_type. rewrite bool_decide_true by reflexivity. cbn in *. congruence. }
  rewrite Ht in E'. injection E' as <-. congruence.
Qed.
End Branch.

(** ** Replacing it *)

Lemma insert_before_end init s j : (forall x, x ∈ init -> address x <> address s) -> insert_before (init ++ [s]) (address s) j = Ok (init ++ [j; s]).
Proof.
  induction init as [| x init IH]; intros H; cbn; [rewrite Z.eqb_refl; reflexivity |].
  destruct (Z.eqb_spec (address x) (address s)) as [E | _]; [destruct (H x ltac:(left) E) |]. rewrite IH by (intros y Hy; apply H; right; exact Hy). reflexivity.
Qed.

Lemma RemoveStatement_end init s j : (forall x, x ∈ init -> address x <> address s) -> address j <> address s ->
  RemoveStatement (init ++ [j; s]) (address s) = init ++ [j].
Proof.
  intros H Hj. induction init as [| x init IH]; cbn.
  - destruct (Z.eqb_spec (address j) (address s)); [contradiction |]. rewrite Z.eqb_refl. reflexivity.
  - destruct (Z.eqb_spec (address x) (address s)) as [E | _]; [destruct (H x ltac:(left) E) |]. rewrite IH by (intros y Hy; apply H; right; exact Hy). reflexivity.
Qed.

Lemma replace_by_jump_end a b blk init s target a1 :
  wf a -> find_block a b = Some blk -> wf_block a blk init s -> target ∈ block_ids a -> replace_by_jump a b s target = Ok a1 ->
  new_end a a1 b init s (mkStmt (new_address a) SJump [OBlock target]).
Proof.
  intros Hw Eb Hb Ht H. unfold replace_by_jump, deref_block in H. rewrite Eb in H. cbn [of_option rbind] in H. bind_inv H. injection H as <-.
  pose proof (wb_statements _ _ _ _ Hb) as Es. destruct (find_block_elem a b blk Eb) as [Hin _].
  assert (Hall : forall x, x ∈ init ++ [s] -> x ∈ all_statements a) by (intros x Hx; apply all_statements_elem; exists blk; rewrite Es; auto).
  assert (Hsa : s ∈ all_statements a) by (apply Hall, elem_of_app; right; left).
  assert (Hdis : forall x, x ∈ init -> address x <> address s).
  { intros x Hx Ex. assert (x = s) as -> by (apply (map_nodup_inj address (all_statements a)); try assumption; [apply (wf_addresses a Hw) | apply Hall, elem_of_app; auto]).
    pose proof (wb_init _ _ _ _ Hb s Hx). rewrite (wb_flow _ _ _ _ Hb) in *. discriminate. }
  pose proof (wf_fresh a Hw s Hsa) as Hfr. rewrite Es, insert_before_end in E by exact Hdis. injection E as <-.
  rewrite RemoveStatement_end by (try exact Hdis; cbn; lia).
  apply (new_end_update a _ b blk init s _ (with_statements (init ++ [mkStmt (new_address a) SJump [OBlock target]]))).
  - exact Hw.
  - exact Eb.
  - exact Hb.
  - right. exists (new_address a + 1). split; [lia | reflexivity].
  - reflexivity.
  - reflexivity.
  - reflexivity.
  - eexists. reflexivity.
  - intros t Hin'. apply list_elem_of_singleton in Hin'. injection Hin' as ->. exact Ht.
  - intros x Hx. apply list_elem_of_singleton in Hx. discriminate.
  - right. intros x Hx. pose proof (wf_fresh a Hw x Hx). cbn. lia.
  - cbn. lia.
Qed.

(** An action whose branch goes where the new jump goes is refined by the one
    with the jump. *)
Lemma jump_refines a a1 b init s target :
  new_end a a1 b init s (mkStmt (new_address a) SJump [OBlock target]) ->
  (forall ctx call v m v' m', const_values a v -> visit ctx call a s (v, m) = Ok (v', m') -> (v', m') = (SetResult Interpret_Normal (SetNextBlock (Some target) v), m)) ->
  refines a a1.
Proof.
  intros H Hgo. pose proof (ne_wf _ _ _ _ _ _ H) as Hw. destruct (ne_block _ _ _ _ _ _ H) as (blk0 & E0 & Hb).
  assert (Hown : forall l : list SSAStatement, (forall x, x ∈ l -> x ∈ all_statements a) -> forall x, x ∈ l -> find_statement a (address x) = Some x)
    by (intros l Hl x Hx; apply find_statement_own; [apply (wf_addresses a Hw) | apply Hl, Hx]).
  assert (Hrun : forall ctx call n next st r, const_values a (fst st) -> execute_blocks ctx call n a next st = Ok r -> execute_blocks ctx call n a1 next st = Ok r).
  { intros ctx call. induction n as [| n IH]; intros next st r Hv E; destruct next as [x |]; try exact E. cbn [execute_blocks] in E |- *.
    unfold deref_block in *. bind_inv E. destruct (find_block a x) as [blk |] eqn:Ex; [| discriminate]. injection E1 as <-. destruct v0 as [q st1].
    destruct (find_block_elem a x blk Ex) as [Hin _].
    assert (Hst : forall y, y ∈ Statements blk -> y ∈ all_statements a) by (intros y Hy; apply all_statements_elem; eauto).
    pose proof (execute_const_values ctx call a _ _ _ _ (Hown _ Hst) Hv E2) as Hv1. rewrite (ne_find _ _ _ _ _ _ H).
    assert (Hsame : exists blk1, (if x =? b then Some (mkBlock b (init ++ [mkStmt (new_address a) SJump [OBlock target]])) else Some blk) = Some blk1 /\
      execute_statements ctx call a1 (Statements blk1) st = Ok (q, st1)).
    { destruct (Z.eqb_spec x b) as [-> | _].
      2:{ exists blk. split; [reflexivity |]. rewrite (ne_run_other _ _ _ _ _ _ H) by exact Hst. exact E2. }
      eexists. split; [reflexivity |]. rewrite Ex in E0. injection E0 as <-. rewrite (wb_statements _ _ _ _ Hb), execute_statements_app in E2. cbn [Statements].
      rewrite execute_statements_app, (ne_run_other _ _ _ _ _ _ H) by apply (ne_init_elem _ _ _ _ _ _ H). bind_inv E2. rewrite E0. cbn [rbind].
      destruct v as [r0 [v0 m0]]. destruct (bool_decide (r0 = Interpret_Normal)); [| exact E2]. cbn [execute_statements] in E2 |- *. bind_inv E2.
      assert (Hv0 : const_values a v0) by (apply (execute_const_values ctx call a init st r0 (v0, m0)); [apply Hown, (ne_init_elem _ _ _ _ _ _ H) | exact Hv | exact E0]).
      destruct v as [v2 m2]. rewrite (Hgo ctx call v0 m0 v2 m2 Hv0 E1) in E2. rewrite (ne_run_new _ _ _ _ _ _ H). exact E2. }
    destruct Hsame as (blk1 & Eb1 & Erun). rewrite Ex in *. rewrite Eb1. cbn [of_option rbind]. rewrite Erun. cbn [rbind].
    destruct (bool_decide (q = Interpret_Normal)); [apply IH; assumption | exact E]. }
  intros ctx call params m n r E. pose proof (ne_same_values _ _ _ _ _ _ H) as Hs. destruct (ne_rest _ _ _ _ _ _ H) as (Ee & _ & Ep & Er).
  unfold ExecuteAction in E |- *. rewrite Ee, Ep, Er. rewrite <- (set_parameters_same a a1 Hs). bind_inv E. rewrite E1. cbn [rbind]. destruct v0 as [q [v1 m1]].
  assert (Hv : const_values a v).
  { intros x st c t ts cv _ _ El. exfalso. assert (Hempty : statements_ v = ∅); [| rewrite Hempty, lookup_empty in El; discriminate].
    clear - E1. assert (Hg : forall l p w, set_parameters a l p w = Ok v -> statements_ v = statements_ w).
    { induction l as [| y l IH]; intros [| k p] w Ew; try discriminate; [cbn in Ew; congruence |]. cbn in Ew. bind_inv Ew.
      rewrite (IH _ _ Ew). apply (SetSymbolValue_frame _ _ _ _ _ E). }
    apply (Hg _ _ _ E1). }
  rewrite (Hrun ctx call n _ (v, m) _ Hv E2). cbn [rbind]. bind_inv E. rewrite E3. cbn [rbind]. rewrite <- (reference_parameters_same a a1 Hs), E4. exact E.
Qed.

(** ** The pass *)

Lemma switch_target_elem a f l d t : switch_target a f l d = Ok t -> t = d \/ exists x, (x, t) ∈ l.
Proof.
  revert d. induction l as [| [x y] l IH]; intros d H; cbn [switch_target] in H; [injection H as ->; auto |]. bind_inv H.
  destruct (kind v); try discriminate. bind_inv H. destruct (IH _ H) as [-> | (z & Hz)].
  - destruct v0; [right; exists x; left | auto].
  - right. exists z. right. exact Hz.
Qed.

Lemma case_pairs_block ops l x t : case_pairs ops = Ok l -> (x, t) ∈ l -> OBlock t ∈ ops.
Proof.
  revert l. induction ops as [ops IH] using (induction_ltof1 _ length). unfold ltof in IH. intros l E Hin.
  destruct ops as [| o [| o2 r]]; [injection E as <-; inversion Hin | destruct o; discriminate |].
  destruct o; try discriminate. destruct o2; try discriminate. cbn in E. bind_inv E. injection E as <-.
  apply elem_of_cons in Hin as [Hin | Hin]; [injection Hin as -> ->; right; left |]. right; right. apply (IH r ltac:(cbn; lia) v E0 Hin).
Qed.

Lemma GetValues_block s l x t : GetValues s = Ok l -> (x, t) ∈ l -> OBlock t ∈ operands_ s.
Proof.
  unfold GetValues. intros E Hin. bind_inv E. injection E as <-. apply list_elem_of_omap in Hin as (y & Hy & Ey).
  unfold last_value in Ey. destruct (List.find _ _) as [p |] eqn:Ef; [| discriminate]. cbn in Ey. injection Ey as -> <-.
  apply List.find_some in Ef as [Hp _]. apply in_rev, list_elem_of_In in Hp. destruct p as [x0 t0].
  pose proof (case_pairs_block _ _ _ _ E0 Hp) as Hd. rewrite <- (take_drop 2 (operands_ s)). apply elem_of_app. auto.
Qed.

(** What a step of the pass keeps. *)
Definition simplified (a a' : SSAFormAction) : Prop := wf a' /\ constants_fit a' /\ refines a a' /\ block_ids a' = block_ids a.

Lemma simplified_refl a : wf a -> constants_fit a -> simplified a a.
Proof. intros Hw Hc. split; [exact Hw |]. split; [exact Hc |]. split; [intros ctx call p m n r E; exact E | reflexivity]. Qed.
Lemma simplified_trans a b c : simplified a b -> simplified b c -> simplified a c.
Proof.
  intros (_ & _ & R1 & I1) (W & C & R2 & I2). split; [exact W |]. split; [exact C |]. split; [| congruence].
  intros ctx call p m n r E. apply R2, R1, E.
Qed.

Lemma jump_simplified a a1 b init s target : constants_fit a ->
  new_end a a1 b init s (mkStmt (new_address a) SJump [OBlock target]) ->
  (forall ctx call v m v' m', const_values a v -> visit ctx call a s (v, m) = Ok (v', m') -> (v', m') = (SetResult Interpret_Normal (SetNextBlock (Some target) v), m)) ->
  simplified a a1.
Proof.
  intros Hc H Hgo. split; [apply (ne_wf_after _ _ _ _ _ _ H) |]. split; [| split; [apply (jump_refines a a1 b init s target H Hgo) | apply (ne_ids _ _ _ _ _ _ H)]].
  intros st c t Hst Hk. destruct (ne_statements' _ _ _ _ _ _ H st Hst) as [-> | [Hin _]]; [discriminate | apply (Hc st c t Hin Hk)].
Qed.

Lemma simplify_block_spec a b a' c : wf a -> constants_fit a -> b ∈ block_ids a -> simplify_block a b = Ok (a', c) ->
  simplified a a' /\ (c = false -> a' = a).
Proof.
  intros Hw Hc Hb H. destruct (find_block_ids a b Hb) as (blk & Eb). destruct (find_block_elem a b blk Eb) as [Hin _].
  destruct (wf_each a Hw blk Hin) as (init & s & Hwb). unfold simplify_block, deref_block in H. rewrite Eb in H. cbn [of_option rbind] in H.
  assert (Ec : GetControlFlow blk = Some s) by (unfold GetControlFlow; rewrite (wb_statements _ _ _ _ Hwb), last_snoc, (wb_flow _ _ _ _ Hwb); reflexivity).
  rewrite Ec in H.
  assert (Hnone : Ok (a, false) = Ok (a', c) -> simplified a a' /\ (c = false -> a' = a))
    by (intros E; injection E as <- <-; split; [apply simplified_refl; assumption | reflexivity]).
  destruct (kind s) eqn:Hk; try apply (Hnone H).
  - unfold TrySimplifyIf in H. bind_inv H. destruct v as [k |]; [| apply (Hnone H)]. bind_inv H. injection H as <- <-. split; [| discriminate].
    assert (Ht : v0 ∈ block_ids a) by (apply (wb_closed _ _ _ _ Hwb), (block_operand_elem s _ _ E1)).
    apply (jump_simplified a v1 b init s v0 Hc); [apply (replace_by_jump_end a b blk init s v0 v1 Hw Eb Hwb Ht E2) |].
    intros ctx call vm m v' m' Hv Ev. apply (if_goes a Hc ctx call s k v v0); assumption.
  - unfold TrySimplifySwitch in H. bind_inv H. destruct v as [k |]; [| apply (Hnone H)]. bind_inv H. injection H as <- <-. split; [| discriminate].
    assert (Ht : v1 ∈ block_ids a).
    { apply (wb_closed _ _ _ _ Hwb). destruct (switch_target_elem a _ _ _ _ E2) as [-> | (x & Hx)]; [apply (block_operand_elem s _ _ E0) | apply (GetValues_block s _ _ _ E1 Hx)]. }
    apply (jump_simplified a v2 b init s v1 Hc); [apply (replace_by_jump_end a b blk init s v1 v2 Hw Eb Hwb Ht E3) |].
    intros ctx call vm m v' m' Hv Ev. apply (switch_goes a Hc ctx call s k v v0); assumption.
Qed.

Lemma over_simplify l : forall a changed a' c, wf a -> constants_fit a -> (forall b, b ∈ l -> b ∈ block_ids a) ->
  over_blocks simplify_block l a changed = Ok (a', c) -> simplified a a' /\ (c = false -> a' = a).
Proof.
  induction l as [| b l IH]; intros a changed a' c Hw Hc Hl H; cbn [over_blocks] in H.
  { injection H as <- <-. split; [apply simplified_refl; assumption | reflexivity]. }
  bind_inv H. destruct v as [a1 c1]. destruct (simplify_block_spec a b a1 c1 Hw Hc ltac:(apply Hl; left) E) as [S1 F1].
  destruct S1 as (W1 & C1 & R1 & I1). destruct (IH a1 (changed || c1) a' c W1 C1) as [S2 F2]; [intros x Hx; rewrite I1; apply Hl; right; exact Hx | exact H |].
  split; [apply (simplified_trans a a1 a'); [exact (conj W1 (conj C1 (conj R1 I1))) | exact S2] |]. intros Hf. rewrite (F2 Hf).
  apply F1. clear - H Hf. assert (Hch : forall l a ch a' c, over_blocks simplify_block l a ch = Ok (a', c) -> c = false -> ch = false).
  { induction l0 as [| x l0 IH]; intros a2 ch a3 c2 E Ec; cbn [over_blocks] in E; [congruence |]. bind_inv E. destruct v as [a4 c4].
    apply (IH _ _ _ _ E) in Ec. apply orb_false_iff in Ec. tauto. }
  apply (Hch _ _ _ _ _ H) in Hf. apply orb_false_iff in Hf. tauto.
Qed.

(** C6. When control-flow simplification succeeds on a
    well-formed action whose constants fit their types, the result is
    well-formed with constants that fit, every result of an execution of the
    action is a result after the pass, and without a change reported there is
    none. *)
Theorem control_flow_simplification_correct a a' changed :
  wf a -> constants_fit a -> ControlFlowSimplification a = Ok (a', changed) ->
  wf a' /\ constants_fit a' /\ refines a a' /\ (changed = false -> a' = a).
Proof.
  intros Hw Hc H. destruct (over_simplify (block_ids a) a false a' changed Hw Hc (fun b Hb => Hb) H) as [(W & C & R & _) F]. auto.
Qed.

(** A branch and a switch on constants; the switch takes its second case. *)
Definition branches : SSAFormAction :=
  mkAction 1
    [mkBlock 1 [mkStmt 10 (SConstant (CInteger 0) IRTypes.UInt8) []; mkStmt 11 SIf [OStmt 10; OBlock 2; OBlock 3]];
     mkBlock 2 [mkStmt 20 SReturn [ONull]];
     mkBlock 3 [mkStmt 30 (SConstant (CInteger 5) IRTypes.UInt32) []; mkStmt 31 (SConstant (CInteger 4) IRTypes.UInt32) [];
                mkStmt 32 (SConstant (CInteger 5) IRTypes.UInt32) []; mkStmt 33 SSwitch [OStmt 30; OBlock 2; OStmt 31; OBlock 2; OStmt 32; OBlock 4]];
     mkBlock 4 [mkStmt 40 SReturn [OStmt 30]]]
    [] 100 [] IRTypes.UInt32.
Definition branches_after : SSAFormAction :=
  mkAction 1
    [mkBlock 1 [mkStmt 10 (SConstant (CInteger 0) IRTypes.UInt8) []; mkStmt 100 SJump [OBlock 3]];
     mkBlock 2 [mkStmt 20 SReturn [ONull]];
     mkBlock 3 [mkStmt 30 (SConstant (CInteger 5) IRTypes.UInt32) []; mkStmt 31 (SConstant (CInteger 4) IRTypes.UInt32) [];
                mkStmt 32 (SConstant (CInteger 5) IRTypes.UInt32) []; mkStmt 101 SJump [OBlock 4]];
     mkBlock 4 [mkStmt 40 SReturn [OStmt 30]]]
    [] 102 [] IRTypes.UInt32.

Lemma control_flow_simplification_correct_witness :
  wf branches_after /\ constants_fit branches_after /\ refines branches branches_after /\ (true = false -> branches_after = branches).
Proof.
  apply control_flow_simplification_correct; [apply wf_check_ok; vm_compute; reflexivity | | vm_compute; reflexivity].
  intros s c t Hs Hk. cbv in Hs.
  repeat (apply elem_of_cons in Hs as [-> | Hs]; [first [discriminate Hk | injection Hk as <- <-; vm_compute; reflexivity] |]). inversion Hs.
Defined.
