(* ===== verification/SSAConstPasses.v ===== *)
(** * Passes that replace values by constants

    ConstantFoldingPass.cpp (its statements and loop; the folded values are in
    the file ConstantFold), ConstantPropagationPass.cpp and
    DeadCodeEliminationPass.cpp of src/gensim/src/genC/ssa/passes. *)

From stdpp Require Import base list numbers strings gmap relations sorting.
From Stdlib Require Import ZArith Lia.
From S2P Require Import Prelude IRTypes RegisterFile IRConstants ConstantFold SSAForm SSAMachine SSAReach SSADominance SSAInterp SSAPasses.
#[local] Open Scope Z_scope.

(** ** Replacing a statement *)

(** The block whose statements hold the statement at [x]: its [Parent]. *)
Definition Parent (a : SSAFormAction) (x : Z) : result Z :=
  of_option UndefinedBehaviour
    (option_map block_address (List.find (fun b => existsb (fun s => address s =? x) (Statements b)) (blocks_ a))).

(** The statements that use a value. *)
Definition users (a : SSAFormAction) (o : SSAOperand) : list SSAStatement :=
  List.filter (fun s => bool_decide (o ∈ operands_ s)) (all_statements a).

Definition replace_everywhere (a : SSAFormAction) (find replace : SSAOperand) : SSAFormAction :=
  with_blocks (map (fun b => with_statements (map (fun s => fst (Replace s find replace)) (Statements b)) b) (blocks_ a)) a.

(** [new S(old->Parent, ..., old)]; every user of [old] uses the new statement;
    [old] is removed, disposed of and deleted. *)
Definition substitute (a : SSAFormAction) (old : Z) (k : SSAKind) (ops : list SSAOperand) : result SSAFormAction :=
  let* block := Parent a old in
  let* b := deref_block a block in
  let n := new_address a in
  let* l := insert_before (Statements b) old (mkStmt n k ops) in
  let a1 := with_new_address (n + 1) (update_block a block (with_statements l)) in
  let a2 := replace_everywhere a1 (OStmt old) (OStmt n) in
  let a3 := update_block a2 block (fun b => with_statements (RemoveStatement (Statements b) old) b) in
  let* _ := Dispose a3 (OStmt old) in
  Ok a3.

(** ** ConstantFoldingPass.cpp *)

(** The constant and type of an operand that is a constant statement. *)
Definition as_constant (a : SSAFormAction) (s : SSAStatement) (i : Z) : result (option (IRConstant * IRType)) :=
  let* x := stmt_operand s i in
  let* st := of_option UndefinedBehaviour (find_statement a x) in
  Ok (match kind st with SConstant c t => Some (c, t) | _ => None end).

Definition ConstantFoldBinaryOp (a : SSAFormAction) (s : SSAStatement) (op : EBinaryOperator) : result SSAFormAction :=
  let* l := as_constant a s 0 in
  let* r := as_constant a s 1 in
  match l, r with
  | Some (lc, lt), Some (rc, rt) =>
      let* (c, t) := fold_binary op lt rt lc rc in
      substitute a (address s) (SConstant c t) []
  | _, _ => Err AssertFailed
  end.

Definition ConstantFoldCastOp (a : SSAFormAction) (s : SSAStatement) (to : IRType) : result SSAFormAction :=
  let* l := as_constant a s 0 in
  match l with
  | Some (c, from) =>
      let* (c1, t) := fold_cast c from to in
      substitute a (address s) (SConstant c1 t) []
  | None => Err AssertFailed
  end.

(** The candidates of a block: binary statements on two constants and casts of
    constants. *)
Fixpoint fold_candidates (a : SSAFormAction) (l : list SSAStatement) : result (list Z * list Z) :=
  match l with
  | [] => Ok ([], [])
  | s :: r =>
      let* (bins, casts) := fold_candidates a r in
      match kind s with
      | SBinary _ =>
          let* x := as_constant a s 0 in
          let* y := as_constant a s 1 in
          Ok (match x, y with Some _, Some _ => (address s :: bins, casts) | _, _ => (bins, casts) end)
      | SCast _ _ =>
          let* x := as_constant a s 0 in
          Ok (match x with Some _ => (bins, address s :: casts) | None => (bins, casts) end)
      | _ => Ok (bins, casts)
      end
  end.

Fixpoint fold_bins (a : SSAFormAction) (l : list Z) (change_made : bool) : result (SSAFormAction * bool) :=
  match l with
  | [] => Ok (a, change_made)
  | x :: r =>
      let* s := of_option UndefinedBehaviour (find_statement a x) in
      match kind s with
      | SBinary op => let* a1 := ConstantFoldBinaryOp a s op in fold_bins a1 r true
      | _ => Err UndefinedBehaviour
      end
  end.

Fixpoint fold_casts (a : SSAFormAction) (l : list Z) (change_made : bool) : result (SSAFormAction * bool) :=
  match l with
  | [] => Ok (a, change_made)
  | x :: r =>
      let* s := of_option UndefinedBehaviour (find_statement a x) in
      match kind s with
      | SCast t ct =>
          let* from := (let* y := as_constant a s 0 in of_option UndefinedBehaviour (option_map snd y)) in
          let* c := GetCastType ct from t in
          let* p := if bool_decide (c = Cast_Reinterpret) then Ok INT128 else pod_of t in
          if bool_decide (c = Cast_Reinterpret) || bool_decide (p = INT128) then fold_casts a r change_made
          else let* a1 := ConstantFoldCastOp a s t in fold_casts a1 r true
      | _ => Err UndefinedBehaviour
      end
  end.

Definition fold_block (a : SSAFormAction) (block : Z) : result (SSAFormAction * bool) :=
  let* b := deref_block a block in
  let* (bins, casts) := fold_candidates a (Statements b) in
  let* (a1, c1) := fold_bins a bins false in
  fold_casts a1 casts c1.
Definition ConstantFolding (a : SSAFormAction) : result (SSAFormAction * bool) := over_blocks fold_block (block_ids a) a false.

(** ** ConstantPropagationPass.cpp *)

(** [dynamic_cast<SSAVariableKillStatement*>] and [SSACallStatement*]. *)
Definition kills (s : SSAStatement) : bool :=
  match kind s with SVariableWrite | SVariableKill | SMemoryRead _ _ | SDeviceRead => true | _ => false end.
Definition is_call (s : SSAStatement) : bool := match kind s with SCall => true | _ => false end.

Definition IsACandidate (a : SSAFormAction) (statement : SSAStatement) : result bool :=
  match kind statement with
  | SVariableWrite =>
      let* target := symbol_operand statement 0 in
      if existsb (fun use => (kills use && negb (address use =? address statement)) || is_call use) (users a (OSymbol target)) then Ok false
      else
        let* e := stmt_operand statement 1 in
        let* expression := of_option UndefinedBehaviour (find_statement a e) in
        Ok (match kind expression with SConstant _ _ | SReadStructMember _ => true | _ => false end)
  | _ => Ok false
  end.

(** [ReplaceUse]: a copy of the constant, or of the read of the structure,
    takes the place of the read. *)
Definition ReplaceUse (a : SSAFormAction) (cst : SSAStatement) (read : Z) : result SSAFormAction :=
  match kind cst with
  | SConstant c t => substitute a read (SConstant c t) []
  | SReadStructMember names => let* target := symbol_operand cst 0 in substitute a read (SReadStructMember names) [OSymbol target]
  | _ => Ok a
  end.

Fixpoint replace_uses (a : SSAFormAction) (dominance : dominance_info) (block : Z) (cst : SSAStatement) (uses : list SSAStatement) (changed : bool)
  : result (SSAFormAction * bool) :=
  match uses with
  | [] => Ok (a, changed)
  | use :: r =>
      match kind use with
      | SVariableRead =>
          let* p := Parent a (address use) in
          if p =? block then replace_uses a dominance block cst r changed
          else
            let* dominators := of_option OutOfRange (dominance !! p) in
            if bool_decide (block ∈ dominators) then
              let* a1 := ReplaceUse a cst (address use) in
              replace_uses a1 dominance block cst r true
            else replace_uses a dominance block cst r changed
      | _ => replace_uses a dominance block cst r changed
      end
  end.

Definition RunOnStatement (a : SSAFormAction) (dominance : dominance_info) (statement : Z) : result (SSAFormAction * bool) :=
  let* s := of_option UndefinedBehaviour (find_statement a statement) in
  let* target := symbol_operand s 0 in
  let* e := stmt_operand s 1 in
  let* cst := of_option UndefinedBehaviour (find_statement a e) in
  let* block := Parent a statement in
  replace_uses a dominance block cst (users a (OSymbol target)) false.

Fixpoint candidates_of (a : SSAFormAction) (l : list SSAStatement) : result (list Z) :=
  match l with
  | [] => Ok []
  | s :: r => let* b := IsACandidate a s in let* rest := candidates_of a r in Ok (if (b : bool) then address s :: rest else rest)
  end.

Definition ConstantPropagation (fuel : nat) (a : SSAFormAction) : result (SSAFormAction * bool) :=
  let* candidates := candidates_of a (all_statements a) in
  match candidates with
  | [] => Ok (a, false)
  | _ => let* dominance := Calculate fuel a in over_blocks (fun a s => RunOnStatement a dominance s) candidates a false
  end.

(** ** DeadCodeEliminationPass.cpp *)

(** The last statement, from the end, that has no side effects and is not an
    operand of a statement; the control flow is skipped. *)
Definition is_dead (a : SSAFormAction) (s : SSAStatement) : bool := negb (HasSideEffects s) && negb (has_uses a (OStmt (address s))).
Definition find_dead (a : SSAFormAction) (l : list SSAStatement) : option SSAStatement := List.find (is_dead a) (drop 1 (reverse l)).

Definition RemoveADeadStatement (a : SSAFormAction) (block : Z) : result (SSAFormAction * bool) :=
  let* b := deref_block a block in
  match find_dead a (Statements b) with
  | None => Ok (a, false)
  | Some s =>
      let a1 := update_block a block (fun b => with_statements (RemoveStatement (Statements b) (address s)) b) in
      let* _ := Dispose a1 (OStmt (address s)) in
      Ok (a1, true)
  end.

Fixpoint RemoveDeadStatements (fuel : nat) (a : SSAFormAction) (block : Z) (any_change : bool) : result (SSAFormAction * bool) :=
  match fuel with
  | O => Err OutOfFuel
  | S n =>
      let* (a1, changed) := RemoveADeadStatement a block in
      if (changed : bool) then RemoveDeadStatements n a1 block true else Ok (a1, any_change)
  end.

Definition DeadCodeElimination (fuel : nat) (a : SSAFormAction) : result (SSAFormAction * bool) :=
  over_blocks (fun a block => RemoveDeadStatements fuel a block false) (block_ids a) a false.

(** ** Constant propagation changes the meaning of a program *)

(** [uint32 f(uint32 x, uint8 c) { if(c) x = 10; return x; }] *)
Definition conditional_write : SSAFormAction :=
  mkAction 1
    [mkBlock 1 [mkStmt 10 SVariableRead [OSymbol 1001]; mkStmt 11 SIf [OStmt 10; OBlock 2; OBlock 3]];
     mkBlock 2 [mkStmt 20 (SConstant (CInteger 10) IRTypes.UInt32) []; mkStmt 21 SVariableWrite [OSymbol 1000; OStmt 20]; mkStmt 22 SJump [OBlock 3]];
     mkBlock 3 [mkStmt 30 SVariableRead [OSymbol 1000]; mkStmt 31 SReturn [OStmt 30]]]
    [(1000, IRTypes.UInt32); (1001, IRTypes.UInt8)] 100 [1000; 1001] IRTypes.UInt32.

Definition empty_context : SSAContext := mkContext empty_file ∅ 0.
Definition empty_machine : MachineState := mkMachine (mkRegs ∅ 0 false) ∅.
Definition returns (a : SSAFormAction) (params : list IRConstant) : result IRConstant :=
  let* (r, _) := Interpret empty_context 1 20 a params empty_machine in Ok (ReturnValue r).

(** Constant propagation replaces the read of a variable after a
    branch in which it was conditionally given a constant: the function that
    returned its argument 5 when the condition was false returns 10. *)
Theorem constant_propagation_miscompiles :
  exists a', ConstantPropagation 10 conditional_write = Ok (a', true) /\
    returns conditional_write [CInteger 5; CInteger 0] = Ok (CInteger 5) /\ returns a' [CInteger 5; CInteger 0] = Ok (CInteger 10).
Proof. eexists. split; [vm_compute; reflexivity |]. split; vm_compute; reflexivity. Qed.

(** ** Dead code elimination *)

Lemma RemoveStatement_split l s : s ∈ l -> NoDup (map address l) -> exists l1 l2, l = l1 ++ s :: l2 /\ RemoveStatement l (address s) = l1 ++ l2.
Proof.
  induction l as [| x l IH]; intros Hs Hd; [inversion Hs |]. cbn in Hd |- *. apply NoDup_cons in Hd as [Hx Hd].
  apply elem_of_cons in Hs as [-> | Hs]; [rewrite Z.eqb_refl; exists [], l; auto |].
  destruct (Z.eqb_spec (address x) (address s)) as [E | _]; [destruct Hx; rewrite E; apply list_elem_of_fmap; eauto |].
  destruct (IH Hs Hd) as (l1 & l2 & -> & ->). exists (x :: l1), l2. auto.
Qed.

Lemma has_uses_spec a o : has_uses a o = true <-> exists b s, b ∈ blocks_ a /\ s ∈ Statements b /\ o ∈ operands_ s.
Proof.
  unfold has_uses, all_statements. rewrite existsb_exists. split.
  - intros (s & Hs & Ho). apply bool_decide_eq_true in Ho. apply in_concat in Hs as (l & Hl & Hs). apply in_map_iff in Hl as (b & <- & Hb).
    exists b, s. rewrite !list_elem_of_In in *. auto.
  - intros (b & s & Hb & Hs & Ho). exists s. split; [| apply bool_decide_eq_true, Ho]. apply in_concat. exists (Statements b).
    rewrite !list_elem_of_In in *. split; [apply in_map, Hb | exact Hs].
Qed.

Lemma find_dead_spec a l s : find_dead a l = Some s -> s ∈ l /\ HasSideEffects s = false /\ has_uses a (OStmt (address s)) = false.
Proof.
  unfold find_dead. intros H. apply List.find_some in H as [Hin Hd]. apply andb_true_iff in Hd as [H1 H2]. apply negb_true_iff in H1, H2.
  split; [| auto]. apply list_elem_of_In in Hin. rewrite <- (reverse_involutive l). apply elem_of_reverse. rewrite <- (take_drop 1 (reverse l)).
  apply elem_of_app. auto.
Qed.

(** One statement less. *)
Lemma remove_dead_step a b blk s : NoDup (block_ids a) -> find_block a b = Some blk -> NoDup (map address (Statements blk)) -> find_dead a (Statements blk) = Some s ->
  exists a1 blk1, RemoveADeadStatement a b = Ok (a1, true) /\ block_ids a1 = block_ids a /\ find_block a1 b = Some blk1 /\
    NoDup (map address (Statements blk1)) /\ S (length (Statements blk1)) = length (Statements blk) /\
    (forall x, x ∈ Statements blk <-> x = s \/ x ∈ Statements blk1) /\ (forall o, has_uses a1 o = true -> has_uses a o = true).
Proof.
  intros Hd Eb Ha Ef. destruct (find_dead_spec a _ s Ef) as (Hin & _ & Hu).
  destruct (RemoveStatement_split _ s Hin Ha) as (l1 & l2 & El & Er).
  set (g := fun y => with_statements (RemoveStatement (Statements y) (address s)) y).
  assert (Hfind : find_block (update_block a b g) b = Some (g blk)).
  { unfold find_block, update_block. cbn [blocks_ with_blocks]. unfold find_block in Eb. revert Eb. induction (blocks_ a) as [| y l IH]; intros Eb; [discriminate |].
    cbn in Eb |- *. destruct (Z.eqb_spec (block_address y) b) as [E | E]; cbn [block_address g with_statements].
    - rewrite (proj2 (Z.eqb_eq _ _) E). congruence.
    - destruct (Z.eqb_spec (block_address y) b); [contradiction | apply IH, Eb]. }
  assert (Hsub : forall o, has_uses (update_block a b g) o = true -> has_uses a o = true).
  { intros o Ho. apply has_uses_spec in Ho as (y & x & Hy & Hx & Hox). cbn in Hy. apply list_elem_of_fmap in Hy as (z & -> & Hz). apply has_uses_spec. exists z, x.
    split; [exact Hz |]. split; [| exact Hox]. destruct (_ =? b); [| exact Hx]. cbn in Hx. revert Hx. generalize (address s). clear. intros n.
    induction (Statements z) as [| q r IH]; cbn; [auto |]. destruct (_ =? n); [intros H; right; exact H |].
    intros H. apply elem_of_cons in H as [-> | H]; [left | right; auto]. }
  exists (update_block a b g), (g blk). unfold RemoveADeadStatement, deref_block. rewrite Eb. cbn [of_option rbind]. rewrite Ef. fold g.
  assert (Edisp : Dispose (update_block a b g) (OStmt (address s)) = Ok tt).
  { unfold Dispose. destruct (has_uses (update_block a b g) (OStmt (address s))) eqn:E; [apply Hsub in E; congruence | reflexivity]. }
  rewrite Edisp. split; [reflexivity |]. split; [unfold block_ids, update_block; cbn; rewrite map_map; apply map_ext; intros y; destruct (_ =? b); reflexivity |].
  split; [exact Hfind |]. cbn [Statements g with_statements]. rewrite Er. rewrite El, map_app in Ha. rewrite El.
  split; [rewrite map_app; apply NoDup_app in Ha as (N1 & N2 & N3); apply NoDup_cons in N3 as [_ N3]; apply NoDup_app; split; [exact N1 |]; split; [| exact N3];
    intros x Hx1 Hx2; apply (N2 x Hx1); right; exact Hx2 |].
  split; [rewrite !length_app; cbn; lia |]. split; [| exact Hsub]. intros x. rewrite !elem_of_app, elem_of_cons. tauto.
Qed.

Lemma remove_dead_all fuel : forall a b blk any, NoDup (block_ids a) -> find_block a b = Some blk -> NoDup (map address (Statements blk)) ->
  (length (Statements blk) < fuel)%nat ->
  exists a' c blk', RemoveDeadStatements fuel a b any = Ok (a', c) /\ find_block a' b = Some blk' /\ find_dead a' (Statements blk') = None /\
    (forall o, has_uses a' o = true -> has_uses a o = true) /\
    (forall s, s ∈ Statements blk' -> s ∈ Statements blk) /\
    (forall s, s ∈ Statements blk -> HasSideEffects s = true \/ has_uses a' (OStmt (address s)) = true -> s ∈ Statements blk').
Proof.
  induction fuel as [| n IH]; intros a b blk any Hd Eb Ha Hf; [lia |]. cbn [RemoveDeadStatements]. destruct (find_dead a (Statements blk)) as [s |] eqn:Ef.
  - destruct (remove_dead_step a b blk s Hd Eb Ha Ef) as (a1 & blk1 & -> & Hi & Eb1 & Ha1 & Hlen & Hin & Hsub). cbn [rbind].
    destruct (IH a1 b blk1 true ltac:(rewrite Hi; exact Hd) Eb1 Ha1 ltac:(lia)) as (a' & c & blk' & E & Eb' & Hnd & Hs' & H1 & H2).
    exists a', c, blk'. split; [exact E |]. split; [exact Eb' |]. split; [exact Hnd |]. split; [intros o Ho; apply Hsub, Hs', Ho |].
    split; [intros x Hx; apply Hin; right; apply H1, Hx |]. intros x Hx Hk. apply Hin in Hx as [-> | Hx]; [exfalso | apply H2; assumption].
    destruct (find_dead_spec a _ s Ef) as (_ & Hse & Hu). destruct Hk as [Hk | Hk]; [congruence |]. apply Hs', Hsub in Hk. congruence.
  - exists a, any, blk. assert (E : RemoveADeadStatement a b = Ok (a, false)) by (unfold RemoveADeadStatement, deref_block; rewrite Eb; cbn [of_option rbind]; rewrite Ef; reflexivity).
    rewrite E. cbn [rbind]. repeat split; auto.
Qed.

(** Removing the dead statements of a block ends within one more
    round than the block has statements.  It keeps every statement that has
    side effects or that is still used, adds none, and leaves no statement
    before the control flow that has neither side effects nor uses. *)
Theorem dead_code_elimination_complete a b blk fuel :
  NoDup (block_ids a) -> find_block a b = Some blk -> NoDup (map address (Statements blk)) -> (length (Statements blk) < fuel)%nat ->
  exists a' changed blk', RemoveDeadStatements fuel a b false = Ok (a', changed) /\ find_block a' b = Some blk' /\
    find_dead a' (Statements blk') = None /\ (forall s, s ∈ Statements blk' -> s ∈ Statements blk) /\
    (forall s, s ∈ Statements blk -> HasSideEffects s = true \/ has_uses a' (OStmt (address s)) = true -> s ∈ Statements blk').
Proof.
  intros Hd Eb Ha Hf. destruct (remove_dead_all fuel a b blk false Hd Eb Ha Hf) as (a' & c & blk' & E & Eb' & Hn & _ & H1 & H2).
  exists a', c, blk'. auto.
Qed.

(** Two constants of which one is only used by the other's dead sum. *)
Definition dead_sum : SSAFormAction :=
  mkAction 1
    [mkBlock 1 [mkStmt 10 (SConstant (CInteger 1) IRTypes.UInt32) []; mkStmt 11 (SConstant (CInteger 2) IRTypes.UInt32) [];
                mkStmt 12 (SBinary Add) [OStmt 10; OStmt 11]; mkStmt 13 SReturn [OStmt 11]]]
    [] 100 [] IRTypes.UInt32.

Lemma dead_code_elimination_complete_witness :
  exists a' changed blk', RemoveDeadStatements 5 dead_sum 1 false = Ok (a', changed) /\ find_block a' 1 = Some blk' /\
    find_dead a' (Statements blk') = None /\
    (forall s, s ∈ Statements blk' -> s ∈ Statements (default (mkBlock 0 []) (find_block dead_sum 1))) /\
    (forall s, s ∈ Statements (default (mkBlock 0 []) (find_block dead_sum 1)) -> HasSideEffects s = true \/ has_uses a' (OStmt (address s)) = true -> s ∈ Statements blk').
Proof.
  apply dead_code_elimination_complete; [apply (bool_decide_unpack _); vm_compute; exact I | reflexivity | apply (bool_decide_unpack _); vm_compute; exact I | cbn; lia].
Defined.
