(* ===== verification/BitStrings.v ===== *)
(** * Instruction formats and bit strings (gensim/src/isa)

    The encodings of an instruction: [InstructionFormatDescription] with its
    chunks, the decode constraints of an [InstructionDescription], and the bit
    strings over 0, 1 and x that [GetBitString] makes of them for the decode
    tree.  The main result is that a word matches one of the bit strings
    exactly when its fields satisfy the constraints. *)

From Stdlib Require Import ZArith Lia List Bool Ascii.
From stdpp Require Import base list numbers strings.
From S2P Require Import Prelude.
Import ListNotations.
#[local] Open Scope Z_scope.
#[local] Open Scope gensim_scope.

Abbreviation bitstring := (list ascii).
Definition x_char : ascii := "x"%char.
Definition zero_char : ascii := "0"%char.
Definition one_char : ascii := "1"%char.

(** ** Formats *)

Record InstructionFormatChunk := mkChunk {
  chunk_Name : string;
  is_constrained : bool;
  chunk_length : Z;
  constrained_value : Z
}.

Record InstructionFormatDescription := mkFormat {
  Chunks : list InstructionFormatChunk;
  Length : Z
}.

Definition new_format : InstructionFormatDescription := mkFormat [] 0.
Definition AddChunk (f : InstructionFormatDescription) (chunk : InstructionFormatChunk) : InstructionFormatDescription :=
  mkFormat (Chunks f ++ [chunk]) (u32 (Length f + chunk_length chunk)).

Inductive DecodeConstraintType := Constraint_Equals | Constraint_NotEquals | Constraint_BitwiseAnd | Constraint_BitwiseXor.
Record DecodeConstraint := mkConstraint { Field : string; Type_of : DecodeConstraintType; Value : Z }.

(** An instruction description; [insn_address] is its address, by which the
    decode tree compares instructions. *)
Record InstructionDescription := mkInsn {
  insn_address : Z;
  insn_Name : string;
  Format : InstructionFormatDescription;
  Decode_Constraints : list (list DecodeConstraint)
}.

(** ** Binary numbers as strings (Util.cpp) *)

Fixpoint format_loop (n : nat) (x i : Z) : bitstring :=
  match n with
  | O => []
  | S k =>
      if negb (Z.land x i =? 0) then one_char :: format_loop k (u32 (x - i)) (Z.shiftr i 1)
      else zero_char :: format_loop k x (Z.shiftr i 1)
  end.
Definition FormatBinary (x width : Z) : bitstring := format_loop (Z.to_nat width) x (u32 (Z.shiftl 1 (width - 1))).

Fixpoint parse_loop (str : bitstring) (val bit : Z) : Z :=
  match str with
  | [] => val
  | c :: r => parse_loop r (if bool_decide (c = one_char) then u32 (val + bit) else val) (Z.shiftr bit 1)
  end.
Definition parse_binary (str : bitstring) : Z := parse_loop str 0 (u32 (Z.shiftl 1 (Z.of_nat (length str) - 1))).

Definition StrDup (todup : bitstring) (n : Z) : bitstring := concat (replicate (Z.to_nat n) todup).

(** ** Bit strings of an instruction *)

(** The constraints of a chunk on one value: a bit string is added for every
    constraint that holds; an equality that holds ends the function, and so
    does an inequality ([inr]). *)
Fixpoint constrain_value (chunk_len value : Z) (constraints : list DecodeConstraint) (output : list bitstring)
  : list bitstring + list bitstring :=
  match constraints with
  | [] => inl output
  | c :: r =>
      match Type_of c with
      | Constraint_Equals =>
          if value =? Value c then inr (output ++ [FormatBinary value chunk_len]) else constrain_value chunk_len value r output
      | Constraint_BitwiseAnd =>
          constrain_value chunk_len value r
            (if Z.land value (Value c) =? Value c then output ++ [FormatBinary value chunk_len] else output)
      | Constraint_BitwiseXor =>
          constrain_value chunk_len value r
            (if negb (Z.lxor value (Value c) =? 0) then output ++ [FormatBinary value chunk_len] else output)
      | Constraint_NotEquals => inr [replicate (Z.to_nat chunk_len) x_char]
      end
  end.

Fixpoint constrain_values (chunk_len : Z) (values : list Z) (constraints : list DecodeConstraint) (output : list bitstring)
  : list bitstring :=
  match values with
  | [] => output
  | v :: r =>
      match constrain_value chunk_len v constraints output with
      | inl output1 => constrain_values chunk_len r constraints output1
      | inr output1 => output1
      end
  end.

(** [1 << chunk_length] is undefined from 32 bits on. *)
Definition ConstrainChunk (chunk_len : Z) (constraints : list DecodeConstraint) : result (list bitstring) :=
  check* chunk_len <? 32 or UndefinedBehaviour in
  Ok (constrain_values chunk_len (map Z.of_nat (seq 0 (Z.to_nat (2 ^ chunk_len)))) constraints []).

(** The strings of one chunk under one set of constraints. *)
Definition constraints_on (chunk : InstructionFormatChunk) (constraint_set : list DecodeConstraint) : list DecodeConstraint :=
  List.filter (fun c => String.eqb (Field c) (chunk_Name chunk)) constraint_set.
Definition chunk_strings (constraint_set : list DecodeConstraint) (chunk : InstructionFormatChunk) : result (list bitstring) :=
  if is_constrained chunk then Ok [FormatBinary (constrained_value chunk) (chunk_length chunk)]
  else
    match constraints_on chunk constraint_set with
    | [] => Ok [replicate (Z.to_nat (chunk_length chunk)) x_char]
    | cs => ConstrainChunk (chunk_length chunk) cs
    end.

Fixpoint permute (constraint_set : list DecodeConstraint) (chunks : list InstructionFormatChunk) (acc : list bitstring)
  : result (list bitstring) :=
  match chunks with
  | [] => Ok acc
  | chunk :: r =>
      let* suffixes := chunk_strings constraint_set chunk in
      permute constraint_set r (flat_map (fun prefix => map (fun suffix => prefix ++ suffix) suffixes) acc)
  end.

Fixpoint constraint_sets (chunks : list InstructionFormatChunk) (sets : list (list DecodeConstraint)) (bitStrings : list bitstring)
  : result (list bitstring) :=
  match sets with
  | [] => Ok bitStrings
  | s :: r =>
      let* strings := permute s chunks [[]] in
      constraint_sets chunks r (strings ++ bitStrings)
  end.

Definition implicit_string (chunk : InstructionFormatChunk) : bitstring :=
  if is_constrained chunk then FormatBinary (constrained_value chunk) (chunk_length chunk)
  else StrDup [x_char] (chunk_length chunk).

Definition GetBitString (i : InstructionDescription) : result (list bitstring) :=
  match Decode_Constraints i with
  | [] => Ok [concat (map implicit_string (Chunks (Format i)))]
  | sets => constraint_sets (Chunks (Format i)) sets []
  end.

(** ** Words and bit strings *)

Section Words.
Context (W bits : Z).

(** The field of [len] bits at position [s], counted from the top of a word of
    [W] bits, as the decoders extract it. *)
Definition field (s len : Z) : Z := UNSIGNED_BITS bits (W - 1 - s) (W - s - len).

(** The word matches a string that starts at position [s]. *)
Fixpoint matches (s : Z) (p : bitstring) : bool :=
  match p with
  | [] => true
  | c :: r => (bool_decide (c = x_char) || Bool.eqb (Z.testbit bits (W - 1 - s)) (bool_decide (c = one_char))) && matches (s + 1) r
  end.
End Words.

Definition constant_string (p : bitstring) : Prop := Forall (fun c => c = zero_char \/ c = one_char) p.

(** The number a string of zeros and ones stands for. *)
Fixpoint string_value (p : bitstring) : Z :=
  match p with
  | [] => 0
  | c :: r => (if bool_decide (c = one_char) then 2 ^ Z.of_nat (length r) else 0) + string_value r
  end.

Lemma string_value_range p : 0 <= string_value p < 2 ^ Z.of_nat (length p).
Proof.
  induction p as [| c r IH]; [cbn; lia |]. cbn [string_value]. rewrite length_cons, Nat2Z.inj_succ, Z.pow_succ_r by lia.
  case_bool_decide; lia.
Qed.

Lemma shiftr_pow2 n : 0 < n -> Z.shiftr (2 ^ n) 1 = 2 ^ (n - 1).
Proof. intros Hn. rewrite Z.shiftr_div_pow2 by lia. rewrite <- Z.pow_sub_r by lia. reflexivity. Qed.

Lemma top_bit_u32 n : 0 < n <= 32 -> u32 (Z.shiftl 1 (n - 1)) = 2 ^ (n - 1).
Proof.
  intros Hn. rewrite Z.shiftl_1_l. apply wrap_small. split; [apply Z.pow_nonneg; lia | apply Z.pow_lt_mono_r; lia].
Qed.

Lemma parse_loop_value p : forall val,
  (0 < length p <= 32)%nat -> 0 <= val -> val + 2 ^ Z.of_nat (length p) <= 2 ^ 32 ->
  parse_loop p val (2 ^ (Z.of_nat (length p) - 1)) = val + string_value p.
Proof.
  induction p as [| c r IH]; intros val Hl Hv Hs; [cbn in Hl; lia |]. cbn [parse_loop string_value]. rewrite length_cons in *.
  pose proof (string_value_range r) as Hr. rewrite Nat2Z.inj_succ, Z.pow_succ_r in Hs by lia.
  replace (Z.of_nat (S (length r)) - 1) with (Z.of_nat (length r)) in * by lia.
  assert (E : (if bool_decide (c = one_char) then u32 (val + 2 ^ Z.of_nat (length r)) else val)
    = val + (if bool_decide (c = one_char) then 2 ^ Z.of_nat (length r) else 0)).
  { case_bool_decide; [apply wrap_small; split; lia | lia]. }
  rewrite E. destruct r as [| d r']; [cbn; lia |].
  rewrite shiftr_pow2 by (rewrite length_cons; lia). rewrite IH; [lia | rewrite length_cons in *; lia | case_bool_decide; lia |].
  case_bool_decide; lia.
Qed.

Lemma parse_binary_value p : (0 < length p <= 32)%nat -> parse_binary p = string_value p.
Proof.
  intros H. unfold parse_binary. rewrite top_bit_u32 by lia. rewrite parse_loop_value; [lia | lia | lia |].
  apply Z.pow_le_mono_r; lia.
Qed.

Lemma land_pow2 x n : 0 <= n -> 0 <= x < 2 ^ (n + 1) -> (Z.land x (2 ^ n) =? 0) = (x <? 2 ^ n).
Proof.
  intros Hn Hx. assert (E : Z.land x (2 ^ n) = if Z.testbit x n then 2 ^ n else 0).
  { apply Z.bits_inj'. intros i Hi. rewrite Z.land_spec, Z.pow2_bits_eqb by lia. destruct (Z.eqb_spec n i) as [<- | Hne].
    - rewrite andb_true_r. destruct (Z.testbit x n); [rewrite Z.pow2_bits_true by lia; reflexivity | rewrite Z.bits_0; reflexivity].
    - rewrite andb_false_r. destruct (Z.testbit x n); [rewrite Z.pow2_bits_false by lia; reflexivity | rewrite Z.bits_0; reflexivity]. }
  assert (P : 0 < 2 ^ n) by (apply Z.pow_pos_nonneg; lia). rewrite Z.pow_add_r in Hx by lia. change (2 ^ 1) with 2 in Hx.
  assert (B : Z.b2z (Z.testbit x n) = x / 2 ^ n mod 2) by (rewrite Z.testbit_spec' by lia; reflexivity).
  rewrite E. destruct (Z.ltb_spec x (2 ^ n)) as [H | H].
  - rewrite Z.div_small in B by lia. destruct (Z.testbit x n); [discriminate B | reflexivity].
  - assert (Q : x / 2 ^ n = 1) by (apply Z.le_antisymm; [apply Z.lt_succ_r, Z.div_lt_upper_bound; lia | apply Z.div_le_lower_bound; lia]).
    rewrite Q in B. destruct (Z.testbit x n); [apply Z.eqb_neq; lia | discriminate B].
Qed.

Lemma format_loop_spec n : forall x, (n <= 32)%nat -> 0 <= x < 2 ^ Z.of_nat n ->
  let p := format_loop n x (2 ^ (Z.of_nat n - 1)) in length p = n /\ constant_string p /\ string_value p = x.
Proof.
  induction n as [| k IH]; intros x Hn Hx; [cbn in *; split; [reflexivity | split; [constructor | lia]] |].
  cbv zeta. cbn [format_loop]. replace (Z.of_nat (S k) - 1) with (Z.of_nat k) by lia.
  assert (Hx' : 0 <= x < 2 ^ (Z.of_nat k + 1)) by (replace (Z.of_nat k + 1) with (Z.of_nat (S k)) by lia; exact Hx).
  rewrite land_pow2 by lia. assert (P : 0 < 2 ^ Z.of_nat k) by (apply Z.pow_pos_nonneg; lia).
  assert (M : 2 ^ Z.of_nat k < 2 ^ 32) by (apply Z.pow_lt_mono_r; lia).
  rewrite Z.pow_add_r in Hx' by lia. change (2 ^ 1) with 2 in Hx'.
  assert (Hi : forall y, 0 <= y < 2 ^ Z.of_nat k ->
    format_loop k y (Z.shiftr (2 ^ Z.of_nat k) 1) = format_loop k y (2 ^ (Z.of_nat k - 1))).
  { intros y _. destruct k; [reflexivity | rewrite shiftr_pow2 by lia; reflexivity]. }
  destruct (Z.ltb_spec x (2 ^ Z.of_nat k)) as [H | H]; cbn [negb].
  - rewrite Hi by lia. destruct (IH x ltac:(lia) ltac:(lia)) as (L & C & V). split; [cbn; lia |]. split; [constructor; auto |].
    cbn [string_value]. rewrite V. rewrite bool_decide_false by discriminate. lia.
  - assert (U : u32 (x - 2 ^ Z.of_nat k) = x - 2 ^ Z.of_nat k) by (apply wrap_small; split; lia).
    rewrite U, Hi by lia. destruct (IH (x - 2 ^ Z.of_nat k) ltac:(lia) ltac:(lia)) as (L & C & V).
    split; [cbn; lia |]. split; [constructor; auto |]. cbn [string_value]. rewrite V, L. rewrite bool_decide_true by reflexivity. lia.
Qed.

Lemma FormatBinary_spec x width : 0 < width <= 32 -> 0 <= x < 2 ^ width ->
  Z.of_nat (length (FormatBinary x width)) = width /\ constant_string (FormatBinary x width) /\ string_value (FormatBinary x width) = x.
Proof.
  intros Hw Hx. unfold FormatBinary. rewrite top_bit_u32 by lia.
  replace (2 ^ (width - 1)) with (2 ^ (Z.of_nat (Z.to_nat width) - 1)) by (f_equal; lia).
  destruct (format_loop_spec (Z.to_nat width) x ltac:(lia) ltac:(rewrite Z2Nat.id by lia; exact Hx)) as (L & C & V).
  rewrite L. split; [lia |]. split; assumption.
Qed.

(** Printing and parsing binary numbers. *)
Lemma parse_format x width : 0 < width <= 32 -> 0 <= x < 2 ^ width -> parse_binary (FormatBinary x width) = x.
Proof. intros Hw Hx. destruct (FormatBinary_spec x width Hw Hx) as (L & C & V). rewrite parse_binary_value by lia. exact V. Qed.

(** A field is a segment of the word. *)
Lemma field_div W bits s len : 0 <= s -> 0 <= len -> s + len <= W -> W <= 32 ->
  field W bits s len = (bits / 2 ^ (W - s - len)) mod 2 ^ len.
Proof.
  intros Hs Hl Hw H32. unfold field, UNSIGNED_BITS, u32. replace (31 - (W - 1 - s)) with (32 - W + s) by lia.
  replace (32 - W + s + (W - s - len)) with (32 - len) by lia. fold (wrap len (bits / 2 ^ (W - s - len))).
  apply Z.bits_inj'. intros i Hi. rewrite Z.shiftr_spec, !testbit_wrap, Z.shiftl_spec, testbit_wrap, Z.div_pow2_bits by lia.
  destruct (Z.ltb_spec i len) as [H | H].
  - replace (0 <=? i + (32 - len)) with true by lia. replace (i + (32 - len) <? 32) with true by lia.
    replace (0 <=? i + (32 - len) - (32 - W + s)) with true by lia. replace (i + (32 - len) - (32 - W + s) <? 32) with true by lia.
    replace (0 <=? i) with true by lia. cbn [andb]. f_equal. lia.
  - replace (i + (32 - len) <? 32) with false by lia. rewrite ?andb_false_r, ?andb_false_l. reflexivity.
Qed.

Lemma field_cons W bits s n : 0 <= s -> 0 <= n -> s + (1 + n) <= W -> W <= 32 ->
  field W bits s (1 + n) = (if Z.testbit bits (W - 1 - s) then 2 ^ n else 0) + field W bits (s + 1) n.
Proof.
  intros Hs Hn Hw H32. rewrite !field_div by lia. replace (W - (s + 1) - n) with (W - s - (1 + n)) by lia.
  set (q := bits / 2 ^ (W - s - (1 + n))). rewrite Z.add_comm with (n := 1), Z.pow_add_r, Z.rem_mul_r by lia.
  assert (E : q / 2 ^ n mod 2 ^ 1 = Z.b2z (Z.testbit bits (W - 1 - s))).
  { rewrite Z.testbit_spec' by lia. unfold q. rewrite Z.div_div by (apply Z.pow_nonzero || apply Z.pow_pos_nonneg; lia).
    rewrite <- Z.pow_add_r by lia. do 3 f_equal. lia. }
  rewrite E. destruct (Z.testbit bits (W - 1 - s)); cbn [Z.b2z]; lia.
Qed.

Lemma field_range W bits s len : 0 <= s -> 0 <= len -> s + len <= W -> W <= 32 -> 0 <= field W bits s len < 2 ^ len.
Proof. intros. rewrite field_div by lia. apply Z.mod_pos_bound. apply Z.pow_pos_nonneg; lia. Qed.

(** A field of a field. *)
Lemma field_split W bits s l1 l2 : 0 <= s -> 0 <= l1 -> 0 <= l2 -> s + l1 + l2 <= W -> W <= 32 ->
  field W bits s (l1 + l2) = field W bits s l1 * 2 ^ l2 + field W bits (s + l1) l2.
Proof.
  intros. rewrite !field_div by lia. replace (W - (s + l1) - l2) with (W - s - (l1 + l2)) by lia.
  set (q := bits / 2 ^ (W - s - (l1 + l2))). rewrite Z.add_comm with (n := l1) (m := l2), Z.pow_add_r, Z.rem_mul_r
    by (try apply Z.pow_nonzero; try apply Z.pow_pos_nonneg; lia).
  replace (bits / 2 ^ (W - s - l1)) with (q / 2 ^ l2); [lia |].
  unfold q. rewrite Z.div_div by (try apply Z.pow_nonzero; try apply Z.pow_pos_nonneg; lia). rewrite <- Z.pow_add_r by lia. do 2 f_equal. lia.
Qed.

Lemma matches_app W bits p : forall s q,
  matches W bits s (p ++ q) = matches W bits s p && matches W bits (s + Z.of_nat (length p)) q.
Proof.
  induction p as [| c r IH]; intros s q; [cbn; f_equal; lia |]. cbn [app matches]. rewrite IH, andb_assoc.
  do 2 f_equal. rewrite length_cons. lia.
Qed.

Lemma matches_unconstrained W bits n : forall s, matches W bits s (replicate n x_char) = true.
Proof. induction n as [| k IH]; intros s; [reflexivity |]. cbn [replicate matches]. rewrite IH. reflexivity. Qed.

Lemma matches_constant W bits p : forall s, constant_string p -> 0 <= s -> s + Z.of_nat (length p) <= W -> W <= 32 ->
  matches W bits s p = (field W bits s (Z.of_nat (length p)) =? string_value p).
Proof.
  induction p as [| c r IH]; intros s Hp Hs Hl HW.
  - cbn. rewrite field_div by (cbn in *; lia). rewrite Z.mod_1_r. reflexivity.
  - inversion Hp as [| ? ? Hc Hr]; subst. rewrite length_cons in *. cbn [matches string_value]. rewrite IH by (assumption || lia).
    replace (Z.of_nat (S (length r))) with (1 + Z.of_nat (length r)) by lia. rewrite field_cons by lia.
    pose proof (string_value_range r) as R. pose proof (field_range W bits (s + 1) (Z.of_nat (length r)) ltac:(lia) ltac:(lia) ltac:(lia) HW) as F.
    rewrite (bool_decide_false (c = x_char)) by (destruct Hc; subst; discriminate). cbn [orb].
    destruct (Z.testbit bits (W - 1 - s)), (bool_decide (c = one_char)); cbn [Bool.eqb andb];
      apply Bool.eq_iff_eq_true; rewrite ?Z.eqb_eq; split; intros E; try discriminate E; try (apply Z.eqb_eq in E); lia.
Qed.

Lemma matches_binary W bits s x len : 0 < len <= 32 -> 0 <= x < 2 ^ len -> 0 <= s -> s + len <= W -> W <= 32 ->
  matches W bits s (FormatBinary x len) = (field W bits s len =? x).
Proof.
  intros Hl Hx Hs Hw HW. destruct (FormatBinary_spec x len Hl Hx) as (L & C & V).
  rewrite matches_constant by (assumption || lia). rewrite L, V. reflexivity.
Qed.

(** ** What the constraints mean *)

Definition holds (c : DecodeConstraint) (v : Z) : bool :=
  match Type_of c with
  | Constraint_Equals => v =? Value c
  | Constraint_NotEquals => negb (v =? Value c)
  | Constraint_BitwiseAnd => Z.land v (Value c) =? Value c
  | Constraint_BitwiseXor => negb (Z.lxor v (Value c) =? 0)
  end.
Definition chunk_ok (set : list DecodeConstraint) (chunk : InstructionFormatChunk) (v : Z) : bool :=
  if is_constrained chunk then v =? constrained_value chunk else forallb (fun c => holds c v) (constraints_on chunk set).

Section Satisfies.
Context (W bits : Z).
Fixpoint fields_ok (set : list DecodeConstraint) (chunks : list InstructionFormatChunk) (s : Z) : bool :=
  match chunks with
  | [] => true
  | c :: r => chunk_ok set c (field W bits s (chunk_length c)) && fields_ok set r (s + chunk_length c)
  end.

(** The word satisfies all constraints of one of the sets, or there are none. *)
Definition satisfies (i : InstructionDescription) : bool :=
  match Decode_Constraints i with
  | [] => fields_ok [] (Chunks (Format i)) 0
  | sets => existsb (fun set => fields_ok set (Chunks (Format i)) 0) sets
  end.
End Satisfies.

(** A set has at most one constraint on a chunk, which is not an inequality. *)
Definition simple_constraints (cs : list DecodeConstraint) : Prop :=
  match cs with [] => True | [c] => Type_of c <> Constraint_NotEquals | _ => False end.
Record sized_chunk (c : InstructionFormatChunk) : Prop := {
  sized_length : 0 < chunk_length c < 32;
  sized_value : is_constrained c = true -> 0 <= constrained_value c < 2 ^ chunk_length c
}.
Definition simple_set (chunks : list InstructionFormatChunk) (set : list DecodeConstraint) : Prop :=
  Forall (fun c => is_constrained c = false -> simple_constraints (constraints_on c set)) chunks.
Fixpoint total_length (chunks : list InstructionFormatChunk) : Z :=
  match chunks with [] => 0 | c :: r => chunk_length c + total_length r end.

(** An instruction of [W] bits. *)
Record simple_insn (W : Z) (i : InstructionDescription) : Prop := {
  simple_chunks : Forall sized_chunk (Chunks (Format i));
  simple_total : total_length (Chunks (Format i)) = W;
  simple_sets : Forall (simple_set (Chunks (Format i))) (Decode_Constraints i)
}.

Lemma constrain_filter len c vs : Type_of c = Constraint_BitwiseAnd \/ Type_of c = Constraint_BitwiseXor -> forall out,
  constrain_values len vs [c] out = out ++ map (fun v => FormatBinary v len) (List.filter (holds c) vs).
Proof.
  intros Ht. induction vs as [| v r IH]; intros out; [symmetry; apply app_nil_r |].
  assert (E : constrain_value len v [c] out = inl (if holds c v then out ++ [FormatBinary v len] else out))
    by (unfold holds; cbn [constrain_value]; destruct Ht as [-> | ->]; reflexivity).
  cbn [constrain_values]. rewrite E, IH. cbn [List.filter]. destruct (holds c v); [| reflexivity].
  cbn [map]. rewrite <- app_assoc. reflexivity.
Qed.

Lemma constrain_equals len c vs : Type_of c = Constraint_Equals -> forall out,
  constrain_values len vs [c] out = out ++ (if existsb (Z.eqb (Value c)) vs then [FormatBinary (Value c) len] else []).
Proof.
  intros Ht. induction vs as [| v r IH]; intros out; [symmetry; apply app_nil_r |].
  cbn [constrain_values constrain_value existsb]. rewrite Ht. rewrite Z.eqb_sym with (x := Value c).
  destruct (Z.eqb_spec v (Value c)) as [-> | Hn]; [reflexivity | apply IH].
Qed.

Lemma in_values len v : 0 <= len -> In v (map Z.of_nat (seq 0 (Z.to_nat (2 ^ len)))) <-> 0 <= v < 2 ^ len.
Proof.
  intros Hl. assert (0 < 2 ^ len) by (apply Z.pow_pos_nonneg; lia). rewrite in_map_iff. split.
  - intros (n & <- & Hn). apply in_seq in Hn. lia.
  - intros Hv. exists (Z.to_nat v). split; [lia | apply in_seq; lia].
Qed.

Section Strings.
Context (W bits : Z).
Hypothesis HW : W <= 32.

(** The strings of a chunk match exactly the values the constraint allows. *)
Lemma constrained_strings len c s : 0 < len < 32 -> 0 <= s -> s + len <= W -> Type_of c <> Constraint_NotEquals ->
  exists l, ConstrainChunk len [c] = Ok l /\ Forall (fun p => Z.of_nat (length p) = len) l /\
    existsb (matches W bits s) l = holds c (field W bits s len).
Proof.
  intros Hl Hs Hw Hn. unfold ConstrainChunk. replace (len <? 32) with true by lia. eexists. split; [reflexivity |].
  set (vs := map Z.of_nat (seq 0 (Z.to_nat (2 ^ len)))).
  assert (Hvs : forall v, In v vs <-> 0 <= v < 2 ^ len) by (intros v; apply in_values; lia).
  pose proof (field_range W bits s len ltac:(lia) ltac:(lia) ltac:(lia) HW) as Hf.
  assert (Hcase : Type_of c = Constraint_Equals \/ Type_of c = Constraint_BitwiseAnd \/ Type_of c = Constraint_BitwiseXor)
    by (destruct (Type_of c); auto; contradiction).
  destruct Hcase as [Ht | Ht].
  - rewrite constrain_equals by exact Ht. cbn [app]. unfold holds. rewrite Ht. destruct (existsb (Z.eqb (Value c)) vs) eqn:E.
    + apply existsb_exists in E as (v & Hv & E). apply Z.eqb_eq in E. apply Hvs in Hv. rewrite <- E in Hv.
      split; [constructor; [apply FormatBinary_spec; lia | constructor] |]. cbn [existsb]. rewrite orb_false_r.
      apply matches_binary; lia.
    + split; [constructor |]. symmetry. apply Z.eqb_neq. intros Ef. rewrite <- not_true_iff_false in E. apply E.
      apply existsb_exists. exists (Value c). split; [apply Hvs; lia | apply Z.eqb_refl].
  - rewrite constrain_filter by exact Ht. cbn [app]. split.
    + apply List.Forall_forall. intros p Hp. apply in_map_iff in Hp as (v & <- & Hv). apply filter_In in Hv as [Hv _].
      apply Hvs in Hv. apply FormatBinary_spec; lia.
    + apply Bool.eq_iff_eq_true. rewrite existsb_exists. split.
      * intros (p & Hp & M). apply in_map_iff in Hp as (v & <- & Hv). apply filter_In in Hv as [Hv Hc]. apply Hvs in Hv.
        rewrite matches_binary in M by lia. apply Z.eqb_eq in M. rewrite M. exact Hc.
      * intros Hc. exists (FormatBinary (field W bits s len) len). split.
        -- apply in_map_iff. exists (field W bits s len). split; [reflexivity |]. apply filter_In. split; [apply Hvs; lia | exact Hc].
        -- rewrite matches_binary by lia. apply Z.eqb_refl.
Qed.

Lemma chunk_strings_exact set c s : sized_chunk c -> (is_constrained c = false -> simple_constraints (constraints_on c set)) ->
  0 <= s -> s + chunk_length c <= W ->
  exists l, chunk_strings set c = Ok l /\ Forall (fun p => Z.of_nat (length p) = chunk_length c) l /\
    existsb (matches W bits s) l = chunk_ok set c (field W bits s (chunk_length c)).
Proof.
  intros [Hl Hv] Hc Hs Hw. unfold chunk_strings, chunk_ok. destruct (is_constrained c).
  - eexists. split; [reflexivity |]. specialize (Hv eq_refl). split; [constructor; [apply FormatBinary_spec; lia | constructor] |].
    cbn [existsb]. rewrite orb_false_r. apply matches_binary; lia.
  - specialize (Hc eq_refl). destruct (constraints_on c set) as [| d [| e r]]; cbn in Hc; [| | contradiction].
    + eexists. split; [reflexivity |]. split; [constructor; [rewrite length_replicate; lia | constructor] |].
      cbn [existsb forallb]. rewrite orb_false_r. apply matches_unconstrained.
    + destruct (constrained_strings (chunk_length c) d s Hl Hs Hw Hc) as (l & E & L & M). exists l.
      split; [exact E |]. split; [exact L |]. cbn [forallb]. rewrite andb_true_r. exact M.
Qed.

Lemma existsb_product acc suffixes s : Forall (fun p => Z.of_nat (length p) = s) acc ->
  existsb (matches W bits 0) (flat_map (fun p => map (fun q => p ++ q) suffixes) acc)
  = existsb (matches W bits 0) acc && existsb (matches W bits s) suffixes.
Proof.
  intros Hl. apply Bool.eq_iff_eq_true. rewrite andb_true_iff, !existsb_exists. rewrite List.Forall_forall in Hl. split.
  - intros (x & Hx & M). apply in_flat_map in Hx as (p & Hp & Hx). apply in_map_iff in Hx as (q & <- & Hq).
    rewrite matches_app in M. apply andb_true_iff in M as [M1 M2]. rewrite (Hl p Hp) in M2. split; [exists p | exists q]; auto.
  - intros [(p & Hp & M1) (q & Hq & M2)]. exists (p ++ q). split.
    + apply in_flat_map. exists p. split; [exact Hp | apply in_map_iff; exists q; auto].
    + rewrite matches_app, M1, (Hl p Hp). exact M2.
Qed.

Lemma permute_exact set chunks : forall acc s, Forall sized_chunk chunks -> simple_set chunks set -> 0 <= s ->
  s + total_length chunks <= W -> Forall (fun p => Z.of_nat (length p) = s) acc ->
  exists l, permute set chunks acc = Ok l /\ Forall (fun p => Z.of_nat (length p) = s + total_length chunks) l /\
    existsb (matches W bits 0) l = existsb (matches W bits 0) acc && fields_ok W bits set chunks s.
Proof.
  induction chunks as [| c r IH]; intros acc s Hc Hset Hs Hw Hacc.
  - exists acc. split; [reflexivity |]. cbn. rewrite Z.add_0_r, andb_true_r. auto.
  - inversion Hc as [| ? ? Hc1 Hcr]; subst. inversion Hset as [| ? ? Hs1 Hsr]; subst. cbn [total_length] in *.
    assert (Htot : 0 <= total_length r) by (clear - Hcr; induction Hcr as [| x y [Hx _]]; cbn [total_length]; lia).
    destruct (chunk_strings_exact set c s Hc1 Hs1 Hs ltac:(lia)) as (l & E & L & M). cbn [permute]. rewrite E. cbn [rbind].
    destruct (IH (flat_map (fun prefix => map (fun suffix => prefix ++ suffix) l) acc) (s + chunk_length c) Hcr Hsr) as (out & Eo & Lo & Mo).
    + destruct Hc1. lia.
    + lia.
    + apply List.Forall_forall. intros x Hx. apply in_flat_map in Hx as (p & Hp & Hx). apply in_map_iff in Hx as (q & <- & Hq).
      rewrite List.Forall_forall in L, Hacc. rewrite length_app. specialize (L q Hq). specialize (Hacc p Hp). lia.
    + exists out. split; [exact Eo |]. split; [replace (s + (chunk_length c + total_length r)) with (s + chunk_length c + total_length r) by lia; exact Lo |].
      rewrite Mo, (existsb_product acc l s Hacc), M. cbn [fields_ok]. symmetry. apply andb_assoc.
Qed.
End Strings.

Lemma constraint_sets_exact W bits chunks sets : W <= 32 -> Forall sized_chunk chunks -> total_length chunks = W ->
  forall acc, Forall (simple_set chunks) sets -> Forall (fun p => Z.of_nat (length p) = W) acc ->
  exists l, constraint_sets chunks sets acc = Ok l /\ Forall (fun p => Z.of_nat (length p) = W) l /\
    existsb (matches W bits 0) l = existsb (fun set => fields_ok W bits set chunks 0) sets || existsb (matches W bits 0) acc.
Proof.
  intros HW Hc Ht. induction sets as [| set r IH]; intros acc Hs Hacc; [exists acc; auto |].
  inversion Hs as [| ? ? Hs1 Hsr]; subst.
  destruct (permute_exact (total_length chunks) bits HW set chunks [[]] 0 Hc Hs1) as (l & E & L & M); [lia | lia | constructor; [reflexivity | constructor] |].
  cbn [constraint_sets]. rewrite E. cbn [rbind]. destruct (IH (l ++ acc) Hsr) as (out & Eo & Lo & Mo).
  { apply Forall_app. split; [rewrite Z.add_0_l in L; exact L | exact Hacc]. }
  exists out. split; [exact Eo |]. split; [exact Lo |]. rewrite Mo, existsb_app, M. cbn [existsb matches andb orb].
  rewrite orb_assoc. f_equal. apply orb_comm.
Qed.

Lemma StrDup_replicate n : StrDup [x_char] n = replicate (Z.to_nat n) x_char.
Proof. unfold StrDup. induction (Z.to_nat n) as [| k IH]; [reflexivity |]. cbn. f_equal. exact IH. Qed.

Lemma implicit_exact W bits chunks : W <= 32 -> Forall sized_chunk chunks -> forall s, 0 <= s -> s + total_length chunks <= W ->
  Z.of_nat (length (concat (map implicit_string chunks))) = total_length chunks /\
  matches W bits s (concat (map implicit_string chunks)) = fields_ok W bits [] chunks s.
Proof.
  intros HW. induction 1 as [| c r [Hl Hv] Hr IH]; intros s Hs Hw; [split; reflexivity |]. cbn [total_length] in Hw.
  assert (Htot : 0 <= total_length r) by (clear - Hr; induction Hr as [| x y [Hx _]]; cbn [total_length]; lia).
  cbn [map concat fields_ok total_length]. rewrite matches_app, length_app. destruct (IH (s + chunk_length c) ltac:(lia) ltac:(lia)) as [IL IM].
  assert (E : Z.of_nat (length (implicit_string c)) = chunk_length c /\
    matches W bits s (implicit_string c) = chunk_ok [] c (field W bits s (chunk_length c))).
  { unfold implicit_string, chunk_ok. destruct (is_constrained c).
    - specialize (Hv eq_refl). split; [apply FormatBinary_spec; lia | apply matches_binary; lia].
    - rewrite StrDup_replicate, length_replicate, matches_unconstrained. split; [lia | reflexivity]. }
  destruct E as [EL EM]. rewrite EM, EL, IM. split; [lia | reflexivity].
Qed.

Lemma GetBitString_exact W bits i : W <= 32 -> simple_insn W i ->
  exists l, GetBitString i = Ok l /\ Forall (fun p => Z.of_nat (length p) = W) l /\
    existsb (matches W bits 0) l = satisfies W bits i.
Proof.
  intros HW [Hc Ht Hs]. unfold GetBitString, satisfies. destruct (Decode_Constraints i) as [| set sets] eqn:E.
  - destruct (implicit_exact W bits (Chunks (Format i)) HW Hc 0) as [L M]; [lia | lia |]. eexists. split; [reflexivity |].
    split; [constructor; [lia | constructor] |]. cbn [existsb]. rewrite orb_false_r. exact M.
  - destruct (constraint_sets_exact W bits (Chunks (Format i)) (set :: sets) HW Hc Ht [] Hs) as (l & El & Ll & Ml); [constructor |].
    exists l. rewrite Ml, orb_false_r. auto.
Qed.

(** Bit strings have no other characters than 0, 1 and x. *)
Definition valid_string (p : bitstring) : Prop := Forall (fun c => c = x_char \/ c = zero_char \/ c = one_char) p.

Lemma format_loop_valid n : forall x i, valid_string (format_loop n x i).
Proof.
  induction n as [| k IH]; intros x i; [constructor |]. cbn [format_loop]. destruct (negb _); constructor; auto; apply IH.
Qed.
Lemma replicate_x_valid n : valid_string (replicate n x_char).
Proof. apply Forall_replicate. auto. Qed.

Lemma constrain_value_valid len v cs : forall out, Forall valid_string out ->
  match constrain_value len v cs out with inl l | inr l => Forall valid_string l end.
Proof.
  induction cs as [| c r IH]; intros out Ho; [exact Ho |]. cbn [constrain_value].
  assert (Hadd : Forall valid_string (out ++ [FormatBinary v len])).
  { apply Forall_app. split; [exact Ho | constructor; [apply format_loop_valid | constructor]]. }
  destruct (Type_of c).
  - destruct (v =? Value c); [exact Hadd | apply IH; exact Ho].
  - constructor; [apply replicate_x_valid | constructor].
  - apply IH. destruct (_ =? _); assumption.
  - apply IH. destruct (negb _); assumption.
Qed.
Lemma constrain_values_valid len vs cs : forall out, Forall valid_string out -> Forall valid_string (constrain_values len vs cs out).
Proof.
  induction vs as [| v r IH]; intros out Ho; [exact Ho |]. cbn [constrain_values]. pose proof (constrain_value_valid len v cs out Ho) as H.
  destruct (constrain_value len v cs out); [apply IH |]; exact H.
Qed.
Lemma chunk_strings_valid set c l : chunk_strings set c = Ok l -> Forall valid_string l.
Proof.
  unfold chunk_strings. destruct (is_constrained c); [intros [= <-]; constructor; [apply format_loop_valid | constructor] |].
  destruct (constraints_on c set) as [| d r]; [intros [= <-]; constructor; [apply replicate_x_valid | constructor] |].
  unfold ConstrainChunk. destruct (_ <? _); [| discriminate]. intros [= <-]. apply constrain_values_valid. constructor.
Qed.
Lemma permute_valid set chunks : forall acc l, Forall valid_string acc -> permute set chunks acc = Ok l -> Forall valid_string l.
Proof.
  induction chunks as [| c r IH]; intros acc l Ha; cbn [permute]; [intros [= <-]; exact Ha |].
  destruct (chunk_strings set c) as [q |] eqn:E; [| discriminate]. cbn [rbind]. apply IH. apply List.Forall_forall. intros x Hx.
  apply in_flat_map in Hx as (p & Hp & Hx). apply in_map_iff in Hx as (y & <- & Hy). apply chunk_strings_valid in E.
  rewrite List.Forall_forall in Ha, E. apply Forall_app. split; [apply (Ha p Hp) | apply (E y Hy)].
Qed.
Lemma constraint_sets_valid chunks sets : forall acc l, Forall valid_string acc ->
  constraint_sets chunks sets acc = Ok l -> Forall valid_string l.
Proof.
  induction sets as [| set r IH]; intros acc l Ha; cbn [constraint_sets]; [intros [= <-]; exact Ha |].
  destruct (permute set chunks [[]]) as [q |] eqn:E; [| discriminate]. cbn [rbind]. apply IH. apply Forall_app. split; [| exact Ha].
  eapply permute_valid; [| exact E]. constructor; constructor.
Qed.
Lemma GetBitString_valid i l : GetBitString i = Ok l -> Forall valid_string l.
Proof.
  unfold GetBitString. destruct (Decode_Constraints i) as [| set sets].
  - intros [= <-]. constructor; [| constructor]. induction (Chunks (Format i)) as [| c r IH]; [constructor |]. cbn [map concat].
    apply Forall_app. split; [| exact IH]. unfold implicit_string. destruct (is_constrained c); [apply format_loop_valid |].
    rewrite StrDup_replicate. apply replicate_x_valid.
  - apply constraint_sets_valid. constructor.
Qed.

(** For an instruction of at most 32 bits whose constraint sets have
    at most one constraint per field, none of them an inequality, the bit
    strings have the length of the instruction, and a word matches one of them
    exactly when its fields satisfy all constraints of one of the sets (and the
    constants of the format). *)
Theorem bitstrings_exact W bits i : W <= 32 -> simple_insn W i ->
  exists l, GetBitString i = Ok l /\ Forall (fun p => Z.of_nat (length p) = W) l /\
    existsb (matches W bits 0) l = satisfies W bits i.
Proof. apply GetBitString_exact. Qed.

(** A format of 8 bits: an operation code, a mode and a register. *)
Definition example_format : InstructionFormatDescription :=
  fold_left AddChunk [mkChunk "Static Constrainment" true 3 5; mkChunk "mode" false 2 0; mkChunk "rd" false 3 0] new_format.
Definition example_insn : InstructionDescription :=
  mkInsn 1 "example" example_format [[mkConstraint "mode" Constraint_Equals 2]; [mkConstraint "mode" Constraint_BitwiseAnd 1]].

Lemma bitstrings_exact_witness :
  exists l, GetBitString example_insn = Ok l /\ Forall (fun p => Z.of_nat (length p) = 8) l /\
    existsb (matches 8 0xa8 0) l = satisfies 8 0xa8 example_insn.
Proof.
  apply bitstrings_exact; [lia |]. constructor.
  - repeat constructor; cbn; lia || discriminate.
  - reflexivity.
  - repeat (constructor; try (cbn; intros; discriminate || exact I)).
Defined.

(** Two constraints on one field are taken for alternatives, and an inequality
    for no constraint. *)
Example constraints_lost :
  GetBitString (mkInsn 1 "both" example_format
    [[mkConstraint "rd" Constraint_BitwiseAnd 3; mkConstraint "rd" Constraint_BitwiseAnd 4]])
    = Ok (map (fun r => FormatBinary 5 3 ++ [x_char; x_char] ++ FormatBinary r 3) [3; 4; 5; 6; 7; 7]) /\
  GetBitString (mkInsn 1 "unequal" example_format [[mkConstraint "rd" Constraint_NotEquals 0]])
    = Ok [FormatBinary 5 3 ++ replicate 5 x_char].
Proof. split; vm_compute; reflexivity. Qed.
