(* ===== verification/DecodeTree.v ===== *)
(** * The decode tree (gensim/src/DecodeTree.cpp)

    A [DecodeNode] decodes the instruction bits from its [start_ptr] on.  It has
    transitions on constant bits, kept in a multimap by their length, and at
    most one transition on any bits.  [DecodeGenerator] builds the tree from the
    bit strings of all instructions, optimises it, and generates nested switch
    statements from it.

    The pointers of the tree are owned: a node has one parent, so a node is a
    value here.  [MergeNodes] and [MergeCommonNodes], which only a generator
    that is compiled out calls, are not modelled; node numbers, which are only
    printed, are left out. *)

From Stdlib Require Import ZArith Lia List Bool Ascii.
From stdpp Require Import base list numbers strings gmap sorting.
From S2P Require Import Prelude BitStrings.
Import ListNotations.
#[local] Open Scope Z_scope.
#[local] Open Scope gensim_scope.

Record DecodeTransition (N : Type) := mkTrans { trans_length : Z; value : Z; trans_target : N }.
Arguments mkTrans {N} _ _ _.
Arguments trans_length {N} _.
Arguments value {N} _.
Arguments trans_target {N} _.

Inductive DecodeNode :=
| mkNode (start_ptr : Z) (transitions : list (DecodeTransition DecodeNode)) (unconstrained_transition : option (DecodeTransition DecodeNode))
    (target : option InstructionDescription).
Abbreviation transition := (DecodeTransition DecodeNode).

Definition start_ptr (n : DecodeNode) : Z := let 'mkNode s _ _ _ := n in s.
Definition transitions (n : DecodeNode) : list transition := let 'mkNode _ ts _ _ := n in ts.
Definition unconstrained_transition (n : DecodeNode) : option transition := let 'mkNode _ _ u _ := n in u.
Definition target (n : DecodeNode) : option InstructionDescription := let 'mkNode _ _ _ t := n in t.
Definition with_transitions (ts : list transition) (n : DecodeNode) : DecodeNode :=
  mkNode (start_ptr n) ts (unconstrained_transition n) (target n).
Definition with_unconstrained (u : option transition) (n : DecodeNode) : DecodeNode := mkNode (start_ptr n) (transitions n) u (target n).

(** A new node is a leaf when the instruction ends there. *)
Definition new_node (inst : option InstructionDescription) (start : Z) : DecodeNode :=
  mkNode start [] None
    (match inst with
     | Some i => if start =? Length (Format i) then Some i else None
     | None => None
     end).

(** [std::multimap::insert]: after the elements of the same key. *)
Fixpoint multimap_insert {A} (key : A -> Z) (x : A) (l : list A) : list A :=
  match l with
  | [] => [x]
  | y :: r => if key x <? key y then x :: l else y :: multimap_insert key x r
  end.

(** ** Prefixes of bit strings *)

Fixpoint take_while (f : ascii -> bool) (l : bitstring) : bitstring :=
  match l with
  | [] => []
  | c :: r => if f c then c :: take_while f r else []
  end.
Definition is_x (c : ascii) : bool := bool_decide (c = x_char).
Definition GetPrefix (str : bitstring) (start : Z) : bitstring :=
  match drop (Z.to_nat start) str with
  | [] => []
  | c :: r => take_while (if is_x c then is_x else fun d => negb (is_x d)) (c :: r)
  end.

(** ** Breaking transitions *)

Fixpoint Break (fuel : nat) (t : transition) (pos : Z) : result transition :=
  match fuel with
  | O => Err OutOfFuel
  | S k =>
      if (pos =? 0) || (pos =? trans_length t) then Ok t
      else if trans_length t <=? pos then
        let* n1 := BreakAllTransitions k (trans_target t) (u8 (pos - trans_length t)) in
        let* n2 := BreakUnconstrainedTransition k n1 (u8 (pos - trans_length t)) in
        Ok (mkTrans (trans_length t) (value t) n2)
      else
        let old := trans_target t in
        let rest := mkTrans (trans_length t - pos) (UNSIGNED_BITS (value t) (trans_length t - pos) 0) old in
        let newTarget := new_node (target old) (u8 (start_ptr old - trans_length t + pos)) in
        Ok (mkTrans pos (UNSIGNED_BITS (value t) pos (pos - pos)) (with_transitions [rest] newTarget))
  end
with BreakAllTransitions (fuel : nat) (n : DecodeNode) (pos : Z) : result DecodeNode :=
  match fuel with
  | O => Err OutOfFuel
  | S k =>
      let* ts :=
        (fix go (l acc : list transition) : result (list transition) :=
           match l with
           | [] => Ok acc
           | t :: r => let* t1 := Break k t pos in go r (multimap_insert trans_length t1 acc)
           end) (transitions n) [] in
      Ok (with_transitions ts n)
  end
with BreakUnconstrainedTransition (fuel : nat) (n : DecodeNode) (pos : Z) : result DecodeNode :=
  match fuel with
  | O => Err OutOfFuel
  | S k =>
      match unconstrained_transition n with
      | None => Ok n
      | Some t =>
          if trans_length t <=? pos then
            let* n1 := BreakAllTransitions k (trans_target t) (u8 (pos - trans_length t)) in
            let* n2 := BreakUnconstrainedTransition k n1 (u8 (pos - trans_length t)) in
            Ok (with_unconstrained (Some (mkTrans (trans_length t) (value t) n2)) n)
          else
            let new_transition := mkTrans (trans_length t - pos) 0 (trans_target t) in
            let node := with_unconstrained (Some new_transition) (new_node None (u8 (start_ptr n + pos))) in
            Ok (with_unconstrained (Some (mkTrans pos (value t) node)) n)
      end
  end.

(** ** Adding instructions *)

(** The first transition with this length and value is changed; [None] when
    there is none. *)
Fixpoint update_transition (len val : Z) (f : DecodeNode -> result DecodeNode) (l : list transition)
  : result (option (list transition)) :=
  match l with
  | [] => Ok None
  | t :: r =>
      if (trans_length t =? len) && (value t =? val) then
        let* n := f (trans_target t) in
        Ok (Some (mkTrans (trans_length t) (value t) n :: r))
      else
        let* r1 := update_transition len val f r in
        Ok (option_map (cons t) r1)
  end.

(** One bit string.  The flag says whether the instruction was added; the flag
    of a constant transition that was there already is not looked at. *)
Fixpoint AddBitString (fuel : nat) (n : DecodeNode) (instruction : InstructionDescription) (str : bitstring)
  : result (DecodeNode * bool) :=
  match fuel with
  | O => Err OutOfFuel
  | S k =>
      if start_ptr n =? Z.of_nat (length str) then
        Ok (n, match target n with
               | Some t => insn_address instruction =? insn_address t
               | None => true
               end)
      else
        let prefix := GetPrefix str (start_ptr n) in
        let len := Z.of_nat (length prefix) in
        match prefix with
        | [] => Err UndefinedBehaviour
        | c :: _ =>
            if is_x c then
              match unconstrained_transition n with
              | None =>
                  let* added := AddBitString k (new_node (Some instruction) (u8 (start_ptr n + len))) instruction str in
                  Ok (with_unconstrained (Some (mkTrans (u8 len) 0 (fst added))) n, snd added)
              | Some t =>
                  let* n1 := (if trans_length t <=? len then Ok n else BreakUnconstrainedTransition k n len) in
                  let* t1 := of_option UndefinedBehaviour (unconstrained_transition n1) in
                  let* added := AddBitString k (trans_target t1) instruction str in
                  Ok (with_unconstrained (Some (mkTrans (trans_length t1) (value t1) (fst added))) n1, snd added)
              end
            else
              let val := parse_binary prefix in
              let* found := update_transition len val (fun m => rmap fst (AddBitString k m instruction str)) (transitions n) in
              match found with
              | Some ts => Ok (with_transitions ts n, true)
              | None =>
                  let* added := AddBitString k (new_node (Some instruction) (u8 (start_ptr n + len))) instruction str in
                  Ok (with_transitions (multimap_insert trans_length (mkTrans (u8 len) val (fst added)) (transitions n)) n, snd added)
              end
        end
  end.

Fixpoint add_bitstrings (n : DecodeNode) (instruction : InstructionDescription) (l : list bitstring) : result (DecodeNode * bool) :=
  match l with
  | [] => Ok (n, true)
  | str :: r =>
      let* added := AddBitString (S (length str)) n instruction str in
      if snd added then add_bitstrings (fst added) instruction r else Ok (fst added, false)
  end.
Definition AddInstruction (n : DecodeNode) (instruction : InstructionDescription) : result (DecodeNode * bool) :=
  let* bitstrings := GetBitString instruction in
  add_bitstrings n instruction bitstrings.

Definition CreateTree (first_instruction : InstructionDescription) : result DecodeNode :=
  rmap fst (AddInstruction (new_node (Some first_instruction) 0) first_instruction).

(** The first loop of [DecodeGenerator::BuildDecodeTree]: the instructions of an
    ISA, without the table of specialisations, which is not used. *)
Fixpoint add_instructions (n : DecodeNode) (l : list InstructionDescription) : result DecodeNode :=
  match l with
  | [] => Ok n
  | i :: r => let* added := AddInstruction n i in add_instructions (fst added) r
  end.
Definition BuildTree (instructions : list InstructionDescription) : result DecodeNode :=
  match instructions with
  | [] => Err UndefinedBehaviour
  | first :: r => let* tree := CreateTree first in add_instructions tree r
  end.

(** ** Optimisation *)

Definition prefix : Type := Z * Z.

(** The prefixes of a transition, from the longest to the shortest. *)
Definition prefix_starts (len min_prefix_length : Z) : list Z :=
  map (fun k => len - min_prefix_length - Z.of_nat k) (seq 0 (Z.to_nat (len - 2 * min_prefix_length + 1))).
Definition top_bits (t : transition) (len : Z) : Z := UNSIGNED_BITS (value t) (trans_length t - 1) (trans_length t - len).
Fixpoint prefixes_of (t : transition) (starts : list Z) : result (list prefix) :=
  match starts with
  | [] => Ok []
  | start :: r =>
      let v := top_bits t start in
      check* (v =? 0) || (Z.log2 v + 1 <=? start) or AssertFailed in
      let* l := prefixes_of t r in
      Ok ((u8 start, v) :: l)
  end.
Fixpoint all_prefixes (min_prefix_length : Z) (candidates : list transition) : result (list prefix) :=
  match candidates with
  | [] => Ok []
  | t :: r =>
      let* l1 := prefixes_of t (prefix_starts (trans_length t) min_prefix_length) in
      let* l2 := all_prefixes min_prefix_length r in
      Ok (l1 ++ l2)
  end.

(** The popularity of the prefixes, a [std::map] in the order of pairs. *)
Definition pair_ltb (p q : prefix) : bool := (fst p <? fst q) || ((fst p =? fst q) && (snd p <? snd q)).
Fixpoint count_prefix (p : prefix) (l : list (prefix * Z)) : list (prefix * Z) :=
  match l with
  | [] => [(p, 1)]
  | (q, n) :: r =>
      if pair_ltb p q then (p, 1) :: l
      else if bool_decide (p = q) then (q, u32 (n + 1)) :: r
      else (q, n) :: count_prefix p r
  end.
Definition prefix_popularity (prefixes : list prefix) : list (prefix * Z) := fold_left (fun m p => count_prefix p m) prefixes [].
Definition prefix_ranking (min_prefix_members : Z) (popularity : list (prefix * Z)) : list (prefix * Z) :=
  fold_left (fun m e => multimap_insert snd e m) (List.filter (fun e => min_prefix_members <=? snd e) popularity) [].

(** [b.find(a) == 0] *)
Fixpoint starts_with (a b : bitstring) : bool :=
  match a, b with
  | [], _ => true
  | c :: r, d :: q => bool_decide (c = d) && starts_with r q
  | _ :: _, [] => false
  end.
Definition overlap (p q : prefix) : bool :=
  let a := FormatBinary (snd p) (fst p) in
  let b := FormatBinary (snd q) (fst q) in
  starts_with b a || starts_with a b.
Fixpoint select_prefixes (ranking : list (prefix * Z)) (selected : list prefix) : list prefix :=
  match ranking with
  | [] => selected
  | (p, _) :: r => select_prefixes r (if existsb (fun q => overlap q p) selected then selected else selected ++ [p])
  end.

Section Optimize.
(** What a shift by 32 bits gives: the value of a transition of no bits, which
    nothing reads. *)
Context (shifted_out : Z).

Definition matches_prefix (p : prefix) (t : transition) : bool :=
  (fst p <=? trans_length t) && (top_bits t (fst p) =? snd p).
Definition shorten (p : prefix) (t : transition) : transition :=
  let len := trans_length t - fst p in
  mkTrans (u8 len) (if len =? 0 then shifted_out else UNSIGNED_BITS (value t) (len - 1) 0) (trans_target t).
Definition add_match (p : prefix) (n : DecodeNode) (t : transition) : DecodeNode :=
  let t1 := shorten p t in
  if trans_length t1 =? 0 then with_unconstrained (Some t1) n
  else with_transitions (multimap_insert trans_length t1 (transitions n)) n.

(** The transitions that start with the prefix are moved to a new node. *)
Definition split_prefix (start : Z) (ts : list transition) (p : prefix) : list transition :=
  let matched := List.filter (matches_prefix p) ts in
  let rest := List.filter (fun t => negb (matches_prefix p t)) ts in
  let newNode := fold_left (add_match p) matched (mkNode (u8 (start + fst p)) [] None None) in
  multimap_insert trans_length (mkTrans (fst p) (snd p) newNode) rest.

Definition select_and_split (min_prefix_length min_prefix_members : Z) (n : DecodeNode) : result (list transition) :=
  match List.filter (fun t => min_prefix_length <=? trans_length t) (transitions n) with
  | [] => Ok (transitions n)
  | candidates =>
      let* prefixes := all_prefixes min_prefix_length candidates in
      let ranking := prefix_ranking min_prefix_members (prefix_popularity prefixes) in
      Ok (fold_left (split_prefix (start_ptr n)) (select_prefixes (rev ranking) []) (transitions n))
  end.

Fixpoint over_targets (f : DecodeNode -> result DecodeNode) (l : list transition) : result (list transition) :=
  match l with
  | [] => Ok []
  | t :: r =>
      let* n := f (trans_target t) in
      let* r1 := over_targets f r in
      Ok (mkTrans (trans_length t) (value t) n :: r1)
  end.

Fixpoint Optimize (fuel : nat) (min_prefix_length min_prefix_members : Z) (n : DecodeNode) : result DecodeNode :=
  match fuel with
  | O => Err OutOfFuel
  | S k =>
      let* ts := select_and_split min_prefix_length min_prefix_members n in
      let* ts1 := over_targets (Optimize k min_prefix_length min_prefix_members) ts in
      match unconstrained_transition n with
      | None => Ok (mkNode (start_ptr n) ts1 None (target n))
      | Some t =>
          let* m := Optimize k min_prefix_length min_prefix_members (trans_target t) in
          Ok (mkNode (start_ptr n) ts1 (Some (mkTrans (trans_length t) (value t) m)) (target n))
      end
  end.
End Optimize.

(** [DecodeGenerator::BuildDecodeTree]: with the options
    OptimisationMinPrefixLength and OptimisationMinPrefixMembers where
    OptimisationEnabled is set.  A path of the tree takes at most 32 bits. *)
Definition BuildDecodeTree (shifted_out : Z) (optimisation : option (Z * Z)) (instructions : list InstructionDescription)
  : result DecodeNode :=
  let* decode_tree := BuildTree instructions in
  match optimisation with
  | Some (min_prefix_length, min_prefix_members) => Optimize shifted_out 66 min_prefix_length (u8 min_prefix_members) decode_tree
  | None => Ok decode_tree
  end.

Fixpoint CountNodes (n : DecodeNode) : Z :=
  let 'mkNode _ ts u t := n in
  match t with
  | Some _ => 1
  | None =>
      u32 (1 + fold_right Z.add 0 (map (fun t => CountNodes (trans_target t)) ts) +
           match u with Some t => CountNodes (trans_target t) | None => 0 end)
  end.

(** ** Decoding *)

Record DecodedInstruction := mkDecoded { insn : InstructionDescription; chunks : gmap string Z }.

(** [std::map::insert] keeps the value of a name that is there already. *)
Fixpoint decode_chunks (bits insn_ptr : Z) (l : list InstructionFormatChunk) (m : gmap string Z) : gmap string Z :=
  match l with
  | [] => m
  | c :: r =>
      let v := UNSIGNED_BITS bits insn_ptr (insn_ptr - chunk_length c + 1) in
      decode_chunks bits (u32 (insn_ptr - chunk_length c)) r (if bool_decide (is_Some (m !! chunk_Name c)) then m else <[chunk_Name c := v]> m)
  end.

Fixpoint Decode (bits : Z) (n : DecodeNode) : option DecodedInstruction :=
  let 'mkNode start ts u t := n in
  match t with
  | Some i => Some (mkDecoded i (decode_chunks bits 31 (Chunks (Format i)) ∅))
  | None =>
      let fix try (l : list transition) : option DecodedInstruction :=
        match l with
        | [] => match u with Some t => Decode bits (trans_target t) | None => None end
        | t :: r =>
            if UNSIGNED_BITS bits (31 - start) (31 - start - trans_length t + 1) =? value t then
              match Decode bits (trans_target t) with
              | Some d => Some d
              | None => try r
              end
            else try r
        end in
      try ts
  end.

(** ** The generated decoder

    [FunctionalDecodeGenerator::GenerateDecodeTree] emits a switch statement for
    every length of transitions, from the longest to the shortest, whose cases
    hold the code of the targets, and then the code of the unconstrained
    transition.  The code of a leaf returns its instruction; code that does not
    return goes on behind its switch.  Instructions have [W] bits at most. *)
Definition group_lengths (ts : list transition) : list Z := reverse (merge_sort Z.le (remove_dups (map trans_length ts))).
Section Generated.
Context (W instr : Z).
Definition switch_value (start len : Z) : Z :=
  let high_bit := u32 (W - 1 - start) in
  let low_bit := u32 (W - start - len) in
  if len =? 1 then Z.shiftr (Z.land instr (Z.shiftl 1 high_bit)) high_bit else UNSIGNED_BITS instr high_bit low_bit.
Fixpoint run_switches (start : Z) (lengths : list Z) (cases : list (Z * Z * option InstructionDescription)) : option InstructionDescription :=
  match lengths with
  | [] => None
  | len :: r =>
      match List.find (fun c => (fst (fst c) =? len) && (snd (fst c) =? switch_value start len)) cases with
      | Some (_, Some i) => Some i
      | _ => run_switches start r cases
      end
  end.
Fixpoint GeneratedDecode (n : DecodeNode) : option InstructionDescription :=
  let 'mkNode start ts u t := n in
  match t with
  | Some i => Some i
  | None =>
      match run_switches start (group_lengths ts) (map (fun t => (trans_length t, value t, GeneratedDecode (trans_target t))) ts) with
      | Some i => Some i
      | None => match u with Some t => GeneratedDecode (trans_target t) | None => None end
      end
  end.
End Generated.
