(* ===== verification/DecodeTreeCorrect.v ===== *)
(** * Correctness of the decode tree

    [accepts] says which instructions the paths of a tree lead to for a word,
    without an order of trial.  [Decode] and the generated decoder refine it,
    [AddInstruction] adds exactly the words of the instruction, and [Optimize]
    changes nothing, so that the generated decoder of an ISA whose encodings do
    not overlap decodes every word to the instruction whose constraints it
    satisfies. *)

From Stdlib Require Import ZArith Lia List Bool Ascii.
From stdpp Require Import base list numbers strings gmap sorting.
From S2P Require Import Prelude BitStrings DecodeTree.
Import ListNotations.
#[local] Open Scope Z_scope.
#[local] Open Scope gensim_scope.

Section Accepts.
Context (W bits : Z).
Inductive accepts : DecodeNode -> InstructionDescription -> Prop :=
| accepts_leaf n i : target n = Some i -> accepts n i
| accepts_constant n t i : In t (transitions n) -> field W bits (start_ptr n) (trans_length t) = value t -> accepts (trans_target t) i -> accepts n i
| accepts_any n t i : unconstrained_transition n = Some t -> accepts (trans_target t) i -> accepts n i.

Lemma accepts_inner s ts u i : accepts (mkNode s ts u None) i <->
  (exists t, In t ts /\ field W bits s (trans_length t) = value t /\ accepts (trans_target t) i) \/
  (exists t, u = Some t /\ accepts (trans_target t) i).
Proof.
  split.
  - inversion 1; subst; cbn in *; [discriminate | left | right]; eexists; split; eauto.
  - intros [(t & Ht & Hf & Ha) | (t & Ht & Ha)]; [eapply accepts_constant | eapply accepts_any]; eauto.
Qed.
End Accepts.

(** Induction over the nodes of a tree. *)
Lemma node_ind (P : DecodeNode -> Prop)
  (step : forall s ts u t, (forall x, In x ts -> P (trans_target x)) -> (forall x, u = Some x -> P (trans_target x)) -> P (mkNode s ts u t)) :
  forall n, P n.
Proof.
  refine (fix IH n := let 'mkNode s ts u t := n return P n in step s ts u t _ _).
  - refine ((fix go (l : list transition) : forall x, In x l -> P (trans_target x) :=
      match l return forall x, In x l -> P (trans_target x) with
      | [] => fun x H => match H with end
      | y :: r => fun x H => match H with
                             | or_introl E => match E in _ = z return P (trans_target z) with eq_refl => IH (trans_target y) end
                             | or_intror H' => go r x H'
                             end
      end) ts).
  - intros x. refine (match u with
      | None => fun H => match eq_None_not_Some None with conj a _ => False_ind _ (a eq_refl (ex_intro _ x H)) end
      | Some y => fun H => match f_equal (default y) H in _ = z return P (trans_target z) with eq_refl => IH (trans_target y) end
      end).
Qed.

(** ** Decoding refines acceptance *)

(** The loop of [Decode] over the transitions. *)
Fixpoint try_transitions (bits start : Z) (u : option transition) (l : list transition) : option DecodedInstruction :=
  match l with
  | [] => match u with Some t => Decode bits (trans_target t) | None => None end
  | t :: r =>
      if field 32 bits start (trans_length t) =? value t then
        match Decode bits (trans_target t) with
        | Some d => Some d
        | None => try_transitions bits start u r
        end
      else try_transitions bits start u r
  end.

Lemma Decode_inner bits s ts u : Decode bits (mkNode s ts u None) = try_transitions bits s u ts.
Proof.
  cbn [Decode]. induction ts as [| t r IH]; [reflexivity |]. cbn [try_transitions]. rewrite <- IH.
  unfold field. replace (32 - 1 - s) with (31 - s) by lia. replace (32 - s - trans_length t) with (31 - s - trans_length t + 1) by lia.
  reflexivity.
Qed.

Lemma decode_some bits n d : Decode bits n = Some d -> accepts 32 bits n (insn d).
Proof.
  revert d. induction n as [s ts u t IHt IHu] using node_ind. intros d. destruct t as [i |].
  - intros [= <-]. apply accepts_leaf. reflexivity.
  - rewrite Decode_inner, accepts_inner. induction ts as [| x r IH]; cbn [try_transitions].
    + destruct u as [x |]; [| discriminate]. intros H. right. eauto.
    + assert (Hr : try_transitions bits s u r = Some d -> (exists t, In t (x :: r) /\ field 32 bits s (trans_length t) = value t /\
        accepts 32 bits (trans_target t) (insn d)) \/ (exists t, u = Some t /\ accepts 32 bits (trans_target t) (insn d))).
      { intros H. destruct (IH (fun y Hy => IHt y (or_intror Hy)) H) as [(y & Hy & G) | G]; [left; exists y; cbn; tauto | right; exact G]. }
      destruct (Z.eqb_spec (field 32 bits s (trans_length x)) (value x)) as [E | E]; [| exact Hr].
      destruct (Decode bits (trans_target x)) as [d' |] eqn:Ed; [| exact Hr].
      intros [= <-]. left. exists x. split; [cbn; auto |]. split; [exact E |]. apply IHt; cbn; auto.
Qed.

Lemma decode_none bits n : Decode bits n = None -> forall i, ~ accepts 32 bits n i.
Proof.
  induction n as [s ts u t IHt IHu] using node_ind. destruct t as [i |]; [discriminate |].
  rewrite Decode_inner. intros H i Ha. apply accepts_inner in Ha as [(x & Hx & Hf & Ha) | (x & -> & Ha)].
  - apply (IHt x Hx) in Ha; [exact Ha |]. clear IHt IHu Ha. induction ts as [| y r IH]; cbn [try_transitions] in H; [destruct Hx |].
    destruct (Z.eqb_spec (field 32 bits s (trans_length y)) (value y)) as [E | E].
    + destruct (Decode bits (trans_target y)) eqn:Ed; [discriminate H |]. destruct Hx as [<- | Hx]; auto.
    + destruct Hx as [<- | Hx]; [contradiction | auto].
  - apply (IHu x eq_refl) in Ha; [exact Ha |]. clear IHt IHu Ha. induction ts as [| y r IH]; [exact H |]. cbn [try_transitions] in H.
    destruct (_ =? _); [destruct (Decode bits (trans_target y)); [discriminate H |] |]; auto.
Qed.

(** ** The generated decoder refines acceptance *)

Definition key (t : transition) : Z * Z := (trans_length t, value t).

(** The cases of a switch statement have different values, and the tree stays
    within [W] bits. *)
Inductive switchable (W : Z) : DecodeNode -> Prop :=
| switchable_node s ts u t : 0 <= s <= W -> NoDup (map key ts) ->
    (forall x, In x ts -> 1 <= trans_length x /\ s + trans_length x <= W /\ switchable W (trans_target x)) ->
    (forall x, u = Some x -> switchable W (trans_target x)) ->
    switchable W (mkNode s ts u t).

Lemma switch_value_field W instr s len : 0 <= s -> 1 <= len -> s + len <= W -> W <= 32 -> switch_value W instr s len = field W instr s len.
Proof.
  intros Hs Hl Hw H32. unfold switch_value.
  assert (E1 : u32 (W - 1 - s) = W - 1 - s) by (apply wrap_small; split; lia).
  assert (E2 : u32 (W - s - len) = W - s - len) by (apply wrap_small; split; lia). rewrite E1, E2.
  destruct (Z.eqb_spec len 1) as [-> | Hn]; [| reflexivity]. rewrite field_div by lia. change (2 ^ 1) with 2.
  replace (W - s - 1) with (W - 1 - s) by lia. rewrite <- Z.testbit_spec' by lia.
  apply Z.bits_inj'. intros i Hi. rewrite Z.shiftr_spec, Z.land_spec, Z.shiftl_1_l, Z.pow2_bits_eqb, testbit_b2z by lia.
  destruct (Z.eqb_spec i 0) as [-> | Hi0].
  - rewrite Z.add_0_l, Z.eqb_refl, andb_true_r. reflexivity.
  - replace (W - 1 - s =? i + (W - 1 - s)) with false by lia. apply andb_false_r.
Qed.

Lemma group_lengths_elem ts len : In len (group_lengths ts) <-> exists t, In t ts /\ trans_length t = len.
Proof.
  unfold group_lengths. rewrite <- list_elem_of_In, elem_of_reverse, (merge_sort_Permutation Z.le), elem_of_remove_dups.
  rewrite list_elem_of_In, in_map_iff. firstorder.
Qed.

Section Generated.
Context (W instr : Z).
Hypothesis HW : W <= 32.
Abbreviation case := (Z * Z * option InstructionDescription)%type.

Lemma run_switches_some s cases i : forall lens, run_switches W instr s lens cases = Some i ->
  exists len, In (len, switch_value W instr s len, Some i) cases.
Proof.
  induction lens as [| len r IH]; [discriminate |]. cbn [run_switches].
  destruct (List.find _ cases) as [[[l v] o] |] eqn:E; [| exact IH]. destruct o as [j |]; [| exact IH].
  intros [= ->]. apply find_some in E as [Hin E]. cbn in E. apply andb_true_iff in E as [E1 E2].
  apply Z.eqb_eq in E1, E2. subst. eauto.
Qed.

Lemma run_switches_none s (cases : list case) : NoDup (map fst cases) -> forall lens, run_switches W instr s lens cases = None ->
  forall len o, In len lens -> In (len, switch_value W instr s len, o) cases -> o = None.
Proof.
  intros Hnd. induction lens as [| l r IH]; intros H len o Hl Hin; [destruct Hl |]. cbn [run_switches] in H.
  assert (Hrest : run_switches W instr s r cases = None /\ (l = len -> o = None)).
  { destruct (List.find _ cases) as [[[l' v] p] |] eqn:E.
    - destruct p as [j |]; [discriminate H |]. split; [exact H |]. intros ->. apply find_some in E as [Hin' E]. cbn in E.
      apply andb_true_iff in E as [E1 E2]. apply Z.eqb_eq in E1, E2. subst.
      apply list_elem_of_In in Hin, Hin'. apply list_elem_of_lookup in Hin as [k Hk]. apply list_elem_of_lookup in Hin' as [k' Hk'].
      assert (k = k').
      { eapply NoDup_lookup; [exact Hnd | |]; rewrite list_lookup_fmap; [rewrite Hk | rewrite Hk']; reflexivity. }
      subst. congruence.
    - split; [exact H |]. intros ->. exfalso. apply (find_none _ _ E) in Hin. cbn in Hin. rewrite !Z.eqb_refl in Hin. discriminate. }
  destruct Hrest as [Hr Hl']. destruct Hl as [E | Hl]; [auto | eapply IH; eauto].
Qed.

Lemma generated_some n : switchable W n -> forall i, GeneratedDecode W instr n = Some i -> accepts W instr n i.
Proof.
  induction n as [s ts u t IHt IHu] using node_ind. inversion 1 as [? ? ? ? Hs Hk Hts Hu]; subst. intros i. cbn [GeneratedDecode].
  destruct t as [j |]; [intros [= <-]; apply accepts_leaf; reflexivity |]. rewrite accepts_inner.
  destruct (run_switches _ _ _ _ _) as [j |] eqn:E.
  - intros [= <-]. apply run_switches_some in E as [len Hin]. apply in_map_iff in Hin as (x & Ex & Hx). injection Ex as El Ev Eg.
    destruct (Hts x Hx) as (H1 & H2 & H3). left. exists x. split; [exact Hx |]. subst len.
    rewrite switch_value_field in Ev by lia. split; [auto | apply IHt; auto].
  - destruct u as [x |]; [| discriminate]. intros Hg. right. exists x. split; [reflexivity |]. apply IHu; auto.
Qed.

Lemma generated_none n : switchable W n -> GeneratedDecode W instr n = None -> forall i, ~ accepts W instr n i.
Proof.
  induction n as [s ts u t IHt IHu] using node_ind. inversion 1 as [? ? ? ? Hs Hk Hts Hu]; subst. cbn [GeneratedDecode].
  destruct t as [j |]; [discriminate |]. destruct (run_switches _ _ _ _ _) as [j |] eqn:E; [discriminate |]. intros Hg i Ha.
  apply accepts_inner in Ha as [(x & Hx & Hf & Ha) | (x & -> & Ha)].
  - destruct (Hts x Hx) as (H1 & H2 & H3). refine (IHt x Hx H3 _ i Ha).
    assert (Hkeys : NoDup (map fst (map (fun t => (trans_length t, value t, GeneratedDecode W instr (trans_target t))) ts)))
      by (rewrite map_map; exact Hk).
    eapply (run_switches_none _ _ Hkeys _ E (trans_length x)).
    + apply group_lengths_elem. eauto.
    + apply in_map_iff. exists x. split; [| exact Hx]. rewrite switch_value_field by lia. rewrite Hf. reflexivity.
  - exact (IHu x eq_refl (Hu x eq_refl) Hg i Ha).
Qed.

(** Where at most one instruction is accepted, the decoder finds it. *)
Lemma generated_unique n : switchable W n -> (forall i j, accepts W instr n i -> accepts W instr n j -> i = j) ->
  forall i, GeneratedDecode W instr n = Some i <-> accepts W instr n i.
Proof.
  intros Hn Hu i. split; [apply generated_some; exact Hn |]. intros Ha. destruct (GeneratedDecode W instr n) as [j |] eqn:E.
  - f_equal. apply Hu; [apply generated_some; assumption | exact Ha].
  - destruct (generated_none n Hn E i Ha).
Qed.
End Generated.

(** ** Well-formed trees

    Trees of instructions of [W] bits: the leaves are at the end. *)

Inductive wf (W : Z) : DecodeNode -> Prop :=
| wf_leaf i : wf W (mkNode W [] None (Some i))
| wf_inner s ts u : 0 <= s < W -> NoDup (map key ts) ->
    (forall t, In t ts -> 1 <= trans_length t /\ 0 <= value t < 2 ^ trans_length t /\
       start_ptr (trans_target t) = s + trans_length t /\ wf W (trans_target t)) ->
    (forall t, u = Some t -> 1 <= trans_length t /\ start_ptr (trans_target t) = s + trans_length t /\ wf W (trans_target t)) ->
    wf W (mkNode s ts u None).

Lemma wf_start W n : 0 <= W -> wf W n -> 0 <= start_ptr n <= W.
Proof. intros HW. inversion 1; subst; cbn; lia. Qed.

Lemma multimap_insert_perm {A} (k : A -> Z) x l : multimap_insert k x l ≡ₚ x :: l.
Proof.
  induction l as [| y r IH]; [reflexivity |]. cbn [multimap_insert]. destruct (k x <? k y); [reflexivity |]. rewrite IH. constructor.
Qed.
Lemma multimap_insert_In {A} (k : A -> Z) x l y : In y (multimap_insert k x l) <-> y = x \/ In y l.
Proof.
  rewrite <- !list_elem_of_In, (multimap_insert_perm k x l), elem_of_cons. reflexivity.
Qed.

(** A subtree looks at the bits from its position on. *)
Lemma field_ext W b1 b2 s len : 0 <= s -> 0 <= len -> s + len <= W -> W <= 32 ->
  (forall k, 0 <= k < W - s -> Z.testbit b1 k = Z.testbit b2 k) -> field W b1 s len = field W b2 s len.
Proof.
  intros Hs Hl Hw HW H. rewrite !field_div by lia. fold (wrap len (b1 / 2 ^ (W - s - len))). fold (wrap len (b2 / 2 ^ (W - s - len))).
  apply Z.bits_inj'. intros i Hi. rewrite !testbit_wrap, !Z.div_pow2_bits by lia.
  destruct (Z.ltb_spec i len); [| reflexivity]. cbn [andb]. apply H. lia.
Qed.

Lemma matches_ext W b1 b2 p : forall s, s + Z.of_nat (length p) <= W ->
  (forall k, 0 <= k < W - s -> Z.testbit b1 k = Z.testbit b2 k) -> matches W b1 s p = matches W b2 s p.
Proof.
  induction p as [| c r IH]; intros s Hl H; [reflexivity |]. rewrite length_cons in Hl. cbn [matches].
  rewrite H by lia. rewrite (IH (s + 1)); [reflexivity | lia | intros; apply H; lia].
Qed.

Lemma accepts_ext W b1 b2 n i : W <= 32 -> wf W n -> (forall k, 0 <= k < W - start_ptr n -> Z.testbit b1 k = Z.testbit b2 k) ->
  accepts W b1 n i -> accepts W b2 n i.
Proof.
  intros HW Hn Hb Ha. revert Hn Hb. induction Ha as [n i Ht | n t i Ht Hf Ha IH | n t i Ht Ha IH]; intros Hn Hb.
  - apply accepts_leaf. exact Ht.
  - inversion Hn as [| s ts u Hs Hk Hts Hu]; subst; [destruct Ht |]. cbn in Ht, Hf, Hb. destruct (Hts t Ht) as (L & V & S & Hw).
    assert (start_ptr (trans_target t) <= W) by (apply wf_start; [lia | exact Hw]).
    eapply accepts_constant; [exact Ht | | apply IH; [exact Hw | intros; apply Hb; lia]].
    cbn [start_ptr]. rewrite <- Hf. symmetry. apply field_ext; try lia. exact Hb.
  - inversion Hn as [| s ts u Hs Hk Hts Hu]; subst; [discriminate Ht |]. cbn in Ht, Hb. destruct (Hu t Ht) as (L & S & Hw).
    eapply accepts_any; [exact Ht | apply IH; [exact Hw | intros; apply Hb; lia]].
Qed.

(** A word with a given field, and the same bits below it. *)
Lemma graft W bits s len v : 0 <= s -> 0 <= len -> s + len <= W -> W <= 32 -> 0 <= v < 2 ^ len ->
  exists b, field W b s len = v /\ forall k, 0 <= k < W - (s + len) -> Z.testbit b k = Z.testbit bits k.
Proof.
  intros Hs Hl Hw HW Hv. set (m := W - s - len). assert (P : 0 < 2 ^ m) by (apply Z.pow_pos_nonneg; lia).
  exists (v * 2 ^ m + bits mod 2 ^ m). split.
  - rewrite field_div by lia. fold m. rewrite Z.div_add_l by lia. rewrite (Z.div_small (bits mod 2 ^ m)) by (apply Z.mod_pos_bound; lia).
    rewrite Z.add_0_r. apply Z.mod_small. exact Hv.
  - intros k Hk. assert (E : (v * 2 ^ m + bits mod 2 ^ m) mod 2 ^ m = bits mod 2 ^ m).
    { rewrite Z.add_comm, Z.mod_add, Z.mod_mod by lia. reflexivity. }
    apply (f_equal (fun z => Z.testbit z k)) in E. rewrite !Z.mod_pow2_bits_low in E by lia. exact E.
Qed.

(** ** Prefixes *)

Lemma take_while_spec f l : exists r, l = take_while f l ++ r /\ Forall (fun c => f c = true) (take_while f l).
Proof.
  induction l as [| c r [q [E F]]]; [exists []; split; [reflexivity | constructor] |]. cbn [take_while]. destruct (f c) eqn:Ec.
  - exists q. split; [cbn; f_equal; exact E | constructor; assumption].
  - exists (c :: r). split; [reflexivity | constructor].
Qed.

Lemma GetPrefix_spec str s : valid_string str -> 0 <= s < Z.of_nat (length str) ->
  let p := GetPrefix str s in
  p <> [] /\ drop (Z.to_nat s) str = p ++ drop (Z.to_nat (s + Z.of_nat (length p))) str /\
  ((exists n, p = replicate n x_char) \/ (constant_string p /\ forall c r, p = c :: r -> is_x c = false)).
Proof.
  intros Hv Hs. cbv zeta. unfold GetPrefix. destruct (drop (Z.to_nat s) str) as [| c r] eqn:Ed.
  { apply (f_equal length) in Ed. rewrite length_drop in Ed. cbn in Ed. lia. }
  set (f := if is_x c then is_x else fun d => negb (is_x d)). assert (Hc : f c = true) by (unfold f; destruct (is_x c) eqn:E; [exact E | cbn; rewrite E; reflexivity]).
  destruct (take_while_spec f (c :: r)) as (q & Eq & Hq). set (p := take_while f (c :: r)) in *.
  assert (Hp : exists p', p = c :: p') by (unfold p; cbn [take_while]; rewrite Hc; eauto). destruct Hp as [p' Hp].
  split; [rewrite Hp; discriminate |]. split.
  - rewrite Z2Nat.inj_add, Nat2Z.id by lia. rewrite <- drop_drop, Ed. rewrite Eq at 1. f_equal. rewrite Eq, drop_app_length. reflexivity.
  - assert (Hvr : valid_string (c :: r)) by (rewrite <- Ed; apply Forall_drop, Hv).
    assert (Hvp : valid_string p) by (rewrite Eq in Hvr; apply Forall_app in Hvr; tauto).
    unfold f in Hq. destruct (is_x c) eqn:Ex.
    + left. exists (length p). clear - Hq. induction Hq as [| d l Hd Hl IH]; [reflexivity |]. cbn. f_equal; [| exact IH].
      unfold is_x in Hd. apply bool_decide_eq_true in Hd. exact Hd.
    + right. split.
      * clear - Hq Hvp. induction Hq as [| d l Hd Hl IH]; [constructor |]. inversion Hvp as [| ? ? Hd' Hvl]; subst.
        constructor; [| apply IH; exact Hvl]. destruct Hd' as [-> | Hd']; [discriminate Hd | exact Hd'].
      * intros d l E. rewrite Hp in E. injection E as <- _. exact Ex.
Qed.

(** ** Adding a bit string *)

Lemma update_transition_spec len val f l :
  (exists pre t post, l = pre ++ t :: post /\ key t = (len, val) /\
     update_transition len val f l = (let* n := f (trans_target t) in Ok (Some (pre ++ mkTrans len val n :: post)))) \/
  ((forall x, In x l -> key x <> (len, val)) /\ update_transition len val f l = Ok None).
Proof.
  induction l as [| t r IH]; [right; split; [intros ? [] | reflexivity] |]. cbn [update_transition].
  destruct ((trans_length t =? len) && (value t =? val)) eqn:E.
  - apply andb_true_iff in E as [E1 E2]. apply Z.eqb_eq in E1, E2. left. exists [], t, r. split; [reflexivity |].
    split; [unfold key; congruence |]. rewrite E1, E2. reflexivity.
  - assert (Hk : key t <> (len, val)).
    { intros [= E1 E2]. rewrite E1, E2, !Z.eqb_refl in E. discriminate. }
    destruct IH as [(pre & x & post & -> & Hx & IH) | [Hn IH]].
    + left. exists (t :: pre), x, post. split; [reflexivity |]. split; [exact Hx |]. rewrite IH.
      destruct (f (trans_target x)); reflexivity.
    + right. split; [intros y [<- | Hy]; auto |]. rewrite IH. reflexivity.
Qed.

Lemma new_node_wf W i s : Length (Format i) = W -> 0 <= s <= W -> wf W (new_node (Some i) s).
Proof.
  intros Hlen Hs. unfold new_node. rewrite Hlen. destruct (Z.eqb_spec s W) as [-> | Hn]; [constructor |].
  constructor; [lia | constructor | intros ? [] | discriminate].
Qed.
Lemma new_node_accepts W i s bits j : Length (Format i) = W -> accepts W bits (new_node (Some i) s) j <-> s = W /\ j = i.
Proof.
  intros Hlen. unfold new_node. rewrite Hlen. destruct (Z.eqb_spec s W) as [-> | Hn].
  - split; [inversion 1 as [? ? Ht | ? ? ? Ht | ? ? ? Ht]; subst; cbn in Ht; [split; congruence | destruct Ht | discriminate] |].
    intros [_ ->]. apply accepts_leaf. reflexivity.
  - rewrite accepts_inner. split; [intros [(t & [] & _) | (t & ? & _)]; discriminate | tauto].
Qed.

Lemma u8_small z : 0 <= z <= 32 -> u8 z = z.
Proof. intros H. apply wrap_small. split; lia. Qed.

Section Add.
Context (W : Z) (i : InstructionDescription) (str : bitstring).
Hypothesis HW : 1 <= W <= 32.
Hypothesis Hlen : Length (Format i) = W.
Hypothesis Hstr : Z.of_nat (length str) = W.
Hypothesis Hvalid : valid_string str.

(** The word matches the rest of the string. *)
Abbreviation rest_matches bits s := (matches W bits s (drop (Z.to_nat s) str) = true).
Definition free (n : DecodeNode) : Prop :=
  forall bits j, accepts W bits n j -> rest_matches bits (start_ptr n) -> j = i.
Definition added (n n' : DecodeNode) : Prop :=
  forall bits j, accepts W bits n' j <-> accepts W bits n j \/ (j = i /\ rest_matches bits (start_ptr n)).
Definition add_ok (n : DecodeNode) (r : result (DecodeNode * bool)) : Prop :=
  exists n' ok, r = Ok (n', ok) /\ wf W n' /\ start_ptr n' = start_ptr n /\ (free n -> ok = true /\ added n n').

Lemma rest_at_end bits : rest_matches bits W.
Proof. rewrite drop_ge by lia. reflexivity. Qed.

(** A new subtree accepts the words of the rest of the string. *)
Lemma add_new s fuel : 0 <= s <= W -> add_ok (new_node (Some i) s) (AddBitString fuel (new_node (Some i) s) i str) ->
  exists n', AddBitString fuel (new_node (Some i) s) i str = Ok (n', true) /\ wf W n' /\ start_ptr n' = s /\
    forall bits j, accepts W bits n' j <-> j = i /\ rest_matches bits s.
Proof.
  intros Hs (n' & ok & E & Hw & Hn & Ha). destruct Ha as [-> Ha]; [intros bits j Hj _; apply new_node_accepts in Hj; [tauto | exact Hlen] |].
  exists n'. split; [exact E |]. split; [exact Hw |]. split; [exact Hn |]. intros bits j. rewrite (Ha bits j), new_node_accepts by exact Hlen.
  cbn [new_node start_ptr]. split; [| tauto]. intros [[-> ->] | H]; [split; [reflexivity | apply rest_at_end] | exact H].
Qed.

Lemma rest_skip s m bits : 0 <= s -> drop (Z.to_nat s) str = replicate m x_char ++ drop (Z.to_nat (s + Z.of_nat m)) str ->
  (rest_matches bits s <-> rest_matches bits (s + Z.of_nat m)).
Proof. intros Hs ->. rewrite matches_app, matches_unconstrained, length_replicate. reflexivity. Qed.

Lemma x_prefix s m k : 0 <= s -> (k <= m)%nat -> drop (Z.to_nat s) str = replicate m x_char ++ drop (Z.to_nat (s + Z.of_nat m)) str ->
  drop (Z.to_nat s) str = replicate k x_char ++ drop (Z.to_nat (s + Z.of_nat k)) str.
Proof.
  intros Hs Hk E. replace (Z.to_nat (s + Z.of_nat k)) with (Z.to_nat s + k)%nat by lia. rewrite <- drop_drop.
  assert (T : take k (drop (Z.to_nat s) str) = replicate k x_char).
  { rewrite E, take_app_le, take_replicate by (rewrite length_replicate; lia). f_equal. lia. }
  rewrite <- T. symmetry. apply take_drop.
Qed.

(** Through the unconstrained transition. *)
Lemma add_any s ts t m fuel : wf W (mkNode s ts (Some t) None) -> drop (Z.to_nat s) str = replicate m x_char ++ drop (Z.to_nat (s + Z.of_nat m)) str ->
  trans_length t = Z.of_nat m -> add_ok (trans_target t) (AddBitString fuel (trans_target t) i str) ->
  add_ok (mkNode s ts (Some t) None)
    (let* added := AddBitString fuel (trans_target t) i str in
     Ok (mkNode s ts (Some (mkTrans (trans_length t) (value t) (fst added))) None, snd added)).
Proof.
  intros Hn Ed Em (n' & ok & E & Hw & Hs' & Ha). inversion Hn as [| ? ? ? Hs Hk Hts Hu]; subst. destruct (Hu t eq_refl) as (L & S & Hwt).
  rewrite E. eexists _, ok. split; [reflexivity |]. cbn [fst snd]. split; [| split; [reflexivity |]].
  - constructor; [exact Hs | exact Hk | exact Hts |]. intros x [= <-]. cbn. split; [exact L |]. split; [congruence | exact Hw].
  - intros Hf. destruct Ha as [-> Ha].
    + intros bits j Hj Hm. apply (Hf bits); [eapply accepts_any; [reflexivity | exact Hj] |]. cbn [start_ptr].
      apply (rest_skip s m bits); [lia | exact Ed |]. rewrite S, Em in Hm. exact Hm.
    + split; [reflexivity |]. intros bits j. cbn [start_ptr]. rewrite !accepts_inner, (rest_skip s m bits) by (lia || exact Ed).
      specialize (Ha bits j). rewrite S, Em in Ha. split.
      * intros [H | (x & [= <-] & Hx)]; [tauto |]. cbn in Hx. apply Ha in Hx as [Hx | Hx]; [left; right; eauto | right; exact Hx].
      * intros [[H | (x & [= <-] & Hx)] | H]; [left; exact H | right; eexists; split; [reflexivity | apply Ha; left; exact Hx] |].
        right. eexists. split; [reflexivity | apply Ha; right; exact H].
Qed.

(** Through a constant transition that is there. *)
Lemma add_constant s pre t post u p fuel : wf W (mkNode s (pre ++ t :: post) u None) -> constant_string p ->
  drop (Z.to_nat s) str = p ++ drop (Z.to_nat (s + Z.of_nat (length p))) str -> key t = (Z.of_nat (length p), string_value p) ->
  add_ok (trans_target t) (AddBitString fuel (trans_target t) i str) ->
  exists n', AddBitString fuel (trans_target t) i str = Ok n' /\
    add_ok (mkNode s (pre ++ t :: post) u None)
      (Ok (mkNode s (pre ++ mkTrans (Z.of_nat (length p)) (string_value p) (fst n') :: post) u None, true)).
Proof.
  intros Hn Hp Ed Ek (n' & ok & E & Hw & Hs' & Ha). injection Ek as El Ev.
  inversion Hn as [| ? ? ? Hs Hk Hts Hu]; subst. destruct (Hts t ltac:(apply in_elt)) as (L & V & S & Hwt).
  exists (n', ok). split; [exact E |]. cbn [fst]. set (t' := mkTrans (Z.of_nat (length p)) (string_value p) n').
  assert (Hin : forall x, In x (pre ++ t' :: post) -> x = t' \/ In x (pre ++ t :: post)).
  { intros x Hx. apply in_elt_inv in Hx as [-> | Hx]; [auto |]. right. apply in_app_iff in Hx. apply in_app_iff. cbn. tauto. }
  assert (Hpos : s + Z.of_nat (length p) <= W) by (pose proof (wf_start W _ ltac:(lia) Hwt); lia).
  eexists _, true. split; [reflexivity |]. split; [| split; [reflexivity |]].
  - constructor; [exact Hs | | | exact Hu].
    + rewrite map_app in *. cbn [map] in *. unfold key at 2 in Hk. rewrite El, Ev in Hk. exact Hk.
    + intros x Hx. destruct (Hin x Hx) as [-> | Hx']; [| exact (Hts x Hx')]. cbn. split; [lia |].
      split; [apply string_value_range |]. split; [lia | exact Hw].
  - assert (Hrest : forall bits, rest_matches bits s <->
      field W bits s (Z.of_nat (length p)) = string_value p /\ rest_matches bits (s + Z.of_nat (length p))).
    { intros bits. rewrite Ed, matches_app, andb_true_iff, matches_constant, Z.eqb_eq by (assumption || lia). reflexivity. }
    intros Hf. split; [reflexivity |]. assert (Hft : free (trans_target t)).
    { intros bits j Hj Hm. rewrite S in Hm.
      destruct (graft W bits s (Z.of_nat (length p)) (string_value p)) as (b & Eb & Hb); try lia; [apply string_value_range |].
      apply (Hf b).
      - eapply accepts_constant; [apply in_elt | cbn; rewrite El; congruence |].
        eapply accepts_ext; [| exact Hwt | | exact Hj]; [lia |]. intros k Hk0. symmetry. apply Hb. lia.
      - cbn [start_ptr]. apply Hrest. split; [exact Eb |]. rewrite El in Hm. rewrite <- Hm. apply matches_ext.
        + rewrite length_drop. lia.
        + intros k Hk0. apply Hb. lia. }
    destruct (Ha Hft) as [_ Hadd]. intros bits j. cbn [start_ptr]. rewrite !accepts_inner, Hrest.
    specialize (Hadd bits j). rewrite S, El in Hadd. split.
    + intros [(x & Hx & Hfx & Hax) | H]; [| tauto]. destruct (Hin x Hx) as [-> | Hx']; [| left; left; eauto].
      cbn in Hfx, Hax. apply Hadd in Hax as [Hax | [-> Hm]]; [| right; auto]. left. left. exists t.
      split; [apply in_elt |]. split; [congruence | exact Hax].
    + intros [[(x & Hx & Hfx & Hax) | H] | (-> & Hfp & Hm)]; [| tauto |].
      * left. apply in_elt_inv in Hx as [<- | Hx].
        -- exists t'. split; [apply in_elt |]. split; [cbn; congruence | apply Hadd; left; exact Hax].
        -- exists x. split; [apply in_app_iff in Hx; apply in_app_iff; cbn; tauto | auto].
      * left. exists t'. split; [apply in_elt |]. split; [exact Hfp | apply Hadd; right; auto].
Qed.

(** A new constant transition. *)
Lemma add_new_constant s ts u p n' : wf W (mkNode s ts u None) -> constant_string p -> p <> [] ->
  drop (Z.to_nat s) str = p ++ drop (Z.to_nat (s + Z.of_nat (length p))) str -> s + Z.of_nat (length p) <= W ->
  (forall x, In x ts -> key x <> (Z.of_nat (length p), string_value p)) ->
  wf W n' -> start_ptr n' = s + Z.of_nat (length p) ->
  (forall bits j, accepts W bits n' j <-> j = i /\ rest_matches bits (s + Z.of_nat (length p))) ->
  add_ok (mkNode s ts u None)
    (Ok (mkNode s (multimap_insert trans_length (mkTrans (Z.of_nat (length p)) (string_value p) n') ts) u None, true)).
Proof.
  intros Hn Hp Hne Ed Hpos Hnew Hw Hs' Ha. inversion Hn as [| ? ? ? Hs Hk Hts Hu]; subst.
  eexists _, true. split; [reflexivity |]. split; [| split; [reflexivity |]].
  - constructor; [exact Hs | | | exact Hu].
    + rewrite (Permutation_map key (multimap_insert_perm _ _ _)). cbn [map]. constructor; [| exact Hk].
      rewrite list_elem_of_In, in_map_iff. intros (x & Ex & Hx). exact (Hnew x Hx Ex).
    + intros x Hx. apply multimap_insert_In in Hx as [-> | Hx]; [| exact (Hts x Hx)]. cbn.
      destruct p; [contradiction |]. cbn [length]. split; [lia |]. split; [apply (string_value_range (_ :: _)) |]. split; [exact Hs' | exact Hw].
  - intros _. split; [reflexivity |]. intros bits j. cbn [start_ptr]. rewrite !accepts_inner.
    rewrite Ed, matches_app, andb_true_iff, matches_constant, Z.eqb_eq by (assumption || lia). specialize (Ha bits j). split.
    + intros [(x & Hx & Hfx & Hax) | H]; [| tauto]. apply multimap_insert_In in Hx as [-> | Hx]; [| left; left; eauto].
      cbn in Hfx, Hax. apply Ha in Hax. tauto.
    + intros [[(x & Hx & Hfx & Hax) | H] | (-> & Hf & Hm)]; [| tauto |].
      * left. exists x. rewrite multimap_insert_In. tauto.
      * left. eexists. rewrite multimap_insert_In. split; [left; reflexivity |]. cbn. split; [exact Hf | apply Ha; auto].
Qed.

(** A new unconstrained transition. *)
Lemma add_new_any s ts m n' : wf W (mkNode s ts None None) -> (0 < m)%nat -> s + Z.of_nat m <= W ->
  drop (Z.to_nat s) str = replicate m x_char ++ drop (Z.to_nat (s + Z.of_nat m)) str ->
  wf W n' -> start_ptr n' = s + Z.of_nat m -> (forall bits j, accepts W bits n' j <-> j = i /\ rest_matches bits (s + Z.of_nat m)) ->
  add_ok (mkNode s ts None None) (Ok (mkNode s ts (Some (mkTrans (Z.of_nat m) 0 n')) None, true)).
Proof.
  intros Hn Hm Hpos Ed Hw Hs' Ha. inversion Hn as [| ? ? ? Hs Hk Hts Hu]; subst.
  eexists _, true. split; [reflexivity |]. split; [| split; [reflexivity |]].
  - constructor; [lia | exact Hk | exact Hts |]. intros x [= <-]. cbn. split; [lia |]. auto.
  - intros _. split; [reflexivity |]. intros bits j. cbn [start_ptr]. rewrite !accepts_inner, (rest_skip s m bits) by (lia || exact Ed).
    specialize (Ha bits j). split.
    + intros [H | (x & [= <-] & H)]; [tauto |]. cbn in H. right. apply Ha. exact H.
    + intros [[H | (x & ? & _)] | H]; [left; exact H | discriminate |]. right. eexists. split; [reflexivity | apply Ha; exact H].
Qed.

(** Through the first part of an unconstrained transition that is broken. *)
Lemma add_broken s ts t m fuel : wf W (mkNode s ts (Some t) None) -> (0 < m)%nat -> Z.of_nat m < trans_length t ->
  drop (Z.to_nat s) str = replicate m x_char ++ drop (Z.to_nat (s + Z.of_nat m)) str ->
  let node := mkNode (s + Z.of_nat m) [] (Some (mkTrans (trans_length t - Z.of_nat m) 0 (trans_target t))) None in
  (wf W node -> add_ok node (AddBitString fuel node i str)) ->
  add_ok (mkNode s ts (Some t) None)
    (let* added := AddBitString fuel node i str in
     Ok (mkNode s ts (Some (mkTrans (Z.of_nat m) (value t) (fst added))) None, snd added)).
Proof.
  intros Hn Hm Hlt Ed node IH. inversion Hn as [| ? ? ? Hs Hk Hts Hu]; subst. destruct (Hu t eq_refl) as (L & S & Hwt).
  pose proof (wf_start W _ ltac:(lia) Hwt) as Hst.
  assert (Hnode : wf W node).
  { constructor; [lia | constructor | intros ? [] |]. intros x [= <-]. cbn. split; [lia |]. split; [lia | exact Hwt]. }
  set (broken := mkNode s ts (Some (mkTrans (Z.of_nat m) (value t) node)) None). assert (Hbroken : wf W broken).
  { constructor; [lia | exact Hk | exact Hts |]. intros x [= <-]. cbn. split; [lia |]. split; [reflexivity | exact Hnode]. }
  assert (Hsame : forall bits j, accepts W bits broken j <-> accepts W bits (mkNode s ts (Some t) None) j).
  { intros bits j. unfold broken. rewrite !accepts_inner. apply or_iff_compat_l. split.
    - intros (x & [= <-] & H). cbn in H. apply accepts_inner in H as [(y & [] & _) | (y & [= <-] & Hy)]. exists t. auto.
    - intros (x & [= <-] & H). eexists. split; [reflexivity |]. cbn. apply accepts_inner. right. eexists. split; [reflexivity | exact H]. }
  destruct (add_any s ts (mkTrans (Z.of_nat m) (value t) node) m fuel Hbroken Ed eq_refl (IH Hnode)) as (n' & ok & E' & Hw' & Hst' & Ha').
  exists n', ok. split; [exact E' |]. split; [exact Hw' |]. split; [exact Hst' |]. intros Hfree.
  destruct Ha' as [-> Ha']; [intros bits j Hj; apply Hfree, Hsame, Hj |]. split; [reflexivity |].
  intros bits j. etransitivity; [exact (Ha' bits j) |]. apply or_iff_compat_r. exact (Hsame bits j).
Qed.

Lemma AddBitString_ok fuel : forall n, wf W n -> (Z.to_nat (W - start_ptr n) < fuel)%nat -> add_ok n (AddBitString fuel n i str).
Proof.
  induction fuel as [| k IH]; intros n Hn Hf; [lia |]. pose proof (wf_start W n ltac:(lia) Hn) as Hs. cbn [AddBitString]. rewrite Hstr.
  destruct (Z.eqb_spec (start_ptr n) W) as [E | E].
  { inversion Hn as [j | ? ? ? Hs' _ _ _]; subst n; [| cbn in E; lia]. eexists _, _. split; [reflexivity |].
    split; [exact Hn |]. split; [reflexivity |]. intros Hfree. cbn [target].
    assert (j = i) as -> by (apply (Hfree 0); [apply accepts_leaf; reflexivity | apply rest_at_end]).
    split; [apply Z.eqb_refl |]. intros bits j. split; [tauto |]. intros [H | [-> _]]; [exact H | apply accepts_leaf; reflexivity]. }
  inversion Hn as [| s ts u Hs' Hk Hts Hu]; subst n; [cbn in E; lia |]. cbn [start_ptr unconstrained_transition transitions] in *.
  destruct (GetPrefix_spec str s Hvalid ltac:(lia)) as (Hne & Ed & Hp). set (p := GetPrefix str s) in *.
  assert (Hpos : s + Z.of_nat (length p) <= W) by (apply (f_equal length) in Ed; rewrite length_app, !length_drop in Ed; lia).
  assert (Hp1 : (0 < length p)%nat) by (destruct p; [contradiction | cbn; lia]).
  assert (Hfresh : forall s', s < s' <= W -> exists n', AddBitString k (new_node (Some i) s') i str = Ok (n', true) /\ wf W n' /\
    start_ptr n' = s' /\ forall bits j, accepts W bits n' j <-> j = i /\ rest_matches bits s').
  { intros s' Hs''. apply add_new; [lia |]. apply IH; [apply new_node_wf; [exact Hlen | lia] | cbn; lia]. }
  rewrite !u8_small by lia. destruct (Hfresh (s + Z.of_nat (length p)) ltac:(lia)) as (n' & E' & Hw' & Hst' & Ha').
  destruct Hp as [[m Hm] | [Hc Hhd]].
  - assert (Em : length p = m) by (rewrite Hm, length_replicate; reflexivity). clearbody p. subst p. rewrite length_replicate in *.
    destruct m as [| m']; [lia |]. cbn [replicate]. assert (Hx : is_x x_char = true) by reflexivity. rewrite Hx. destruct u as [t |].
    + destruct (Hu t eq_refl) as (L & S & Hwt). destruct (Z.leb_spec (trans_length t) (Z.of_nat (Datatypes.S m'))) as [Hle | Hgt].
      * cbn [rbind unconstrained_transition of_option]. apply (add_any s ts t (Z.to_nat (trans_length t))); [exact Hn | | lia |].
        -- apply (x_prefix s (Datatypes.S m')); [lia | lia | exact Ed].
        -- apply IH; [exact Hwt | lia].
      * destruct k as [| k']; [lia |]. cbn [BreakUnconstrainedTransition unconstrained_transition].
        destruct (Z.leb_spec (trans_length t) (Z.of_nat (Datatypes.S m'))); [lia |].
        cbn [rbind with_unconstrained unconstrained_transition of_option start_ptr transitions target new_node trans_length value trans_target].
        rewrite u8_small by lia. apply add_broken; [exact Hn | lia | lia | exact Ed |]. intros Hnode. apply IH; [exact Hnode | cbn; lia].
    + rewrite E'. apply add_new_any; (assumption || lia).
  - destruct p as [| c r] eqn:Ep; [contradiction |]. rewrite (Hhd c r eq_refl). rewrite <- Ep in *. rewrite parse_binary_value by lia.
    destruct (update_transition_spec (Z.of_nat (length p)) (string_value p) (fun m => rmap fst (AddBitString k m i str)) ts)
      as [(pre & t & post & -> & Hkt & Eu) | [Hnew Eu]]; rewrite Eu.
    + destruct (Hts t ltac:(apply in_elt)) as (L & _ & S & Hwt).
      destruct (add_constant s pre t post u p k Hn Hc Ed Hkt) as ([n'' ok] & E'' & Hadd); [apply IH; [exact Hwt | lia] |].
      rewrite E''. exact Hadd.
    + rewrite E'. apply add_new_constant; assumption.
Qed.
End Add.

(** ** Adding instructions *)

(** A tree accepts an instruction for the words of a list of strings. *)
Definition matched_by (W bits : Z) (strings : list bitstring) : bool := existsb (matches W bits 0) strings.

Section Build.
Context (W : Z).
Hypothesis HW : 1 <= W <= 32.

Lemma add_bitstrings_ok i l : Length (Format i) = W -> Forall (fun p => Z.of_nat (length p) = W) l -> Forall valid_string l ->
  forall n, wf W n -> start_ptr n = 0 ->
  (forall bits j, accepts W bits n j -> matched_by W bits l = true -> j = i) ->
  exists n', add_bitstrings n i l = Ok (n', true) /\ wf W n' /\ start_ptr n' = 0 /\
    forall bits j, accepts W bits n' j <-> accepts W bits n j \/ (j = i /\ matched_by W bits l = true).
Proof.
  intros Hi. induction 1 as [| p r Hp Hr IH]; intros Hv n Hn H0 Hfree.
  { exists n. split; [reflexivity |]. split; [exact Hn |]. split; [exact H0 |]. cbn. intuition discriminate. }
  apply Forall_cons in Hv as [Hvp Hvr]. unfold matched_by in Hfree. cbn [existsb] in Hfree.
  destruct (AddBitString_ok W i p HW Hi Hp Hvp (S (length p)) n Hn ltac:(lia)) as (n' & ok & E & Hw & Hs & Ha).
  destruct Ha as [-> Ha].
  { intros bits j Hj Hm. rewrite H0 in Hm. change (Z.to_nat 0) with 0%nat in Hm. rewrite drop_0 in Hm. apply (Hfree bits j Hj).
    rewrite Hm. reflexivity. }
  unfold added in Ha. rewrite H0 in Ha, Hs. change (Z.to_nat 0) with 0%nat in Ha.
  destruct (IH Hvr n' Hw Hs) as (n'' & E' & Hw' & Hs' & Ha').
  { intros bits j Hj Hm. apply Ha in Hj as [Hj | [-> _]]; [| reflexivity]. apply (Hfree bits j Hj). apply orb_true_iff. auto. }
  exists n''. cbn [add_bitstrings]. rewrite E. cbn [rbind fst snd]. split; [exact E' |]. split; [exact Hw' |]. split; [exact Hs' |].
  intros bits j. rewrite Ha', Ha. unfold matched_by. cbn [existsb]. rewrite drop_0, orb_true_iff. tauto.
Qed.

(** An instruction of an ISA of [W] bits. *)
Record encodable (i : InstructionDescription) : Prop := {
  encodable_simple : simple_insn W i;
  encodable_length : Length (Format i) = W
}.

Lemma AddInstruction_ok i n : encodable i -> wf W n -> start_ptr n = 0 ->
  (forall bits j, accepts W bits n j -> satisfies W bits i = true -> j = i) ->
  exists n', AddInstruction n i = Ok (n', true) /\ wf W n' /\ start_ptr n' = 0 /\
    forall bits j, accepts W bits n' j <-> accepts W bits n j \/ (j = i /\ satisfies W bits i = true).
Proof.
  intros [Hi Hl] Hn H0 Hfree. destruct (GetBitString_exact W 0 i ltac:(lia) Hi) as (l & E & L & _).
  assert (M : forall bits, matched_by W bits l = satisfies W bits i).
  { intros bits. destruct (GetBitString_exact W bits i ltac:(lia) Hi) as (l' & E' & _ & M'). rewrite E in E'. injection E' as <-. exact M'. }
  unfold AddInstruction. rewrite E. cbn [rbind].
  destruct (add_bitstrings_ok i l Hl L (GetBitString_valid i l E) n Hn H0) as (n' & E' & Hw & Hs & Ha).
  { intros bits j. rewrite M. apply Hfree. }
  exists n'. split; [exact E' |]. split; [exact Hw |]. split; [exact Hs |]. intros bits j. rewrite Ha, M. reflexivity.
Qed.

(** No word is an encoding of two instructions. *)
Definition disjoint_encodings (isa : list InstructionDescription) : Prop :=
  forall bits i j, In i isa -> In j isa -> satisfies W bits i = true -> satisfies W bits j = true -> i = j.

Lemma add_isa_ok l : forall n done, wf W n -> start_ptr n = 0 -> Forall encodable l -> disjoint_encodings (done ++ l) ->
  (forall bits j, accepts W bits n j <-> In j done /\ satisfies W bits j = true) ->
  exists n', add_instructions n l = Ok n' /\ wf W n' /\ start_ptr n' = 0 /\
    forall bits j, accepts W bits n' j <-> In j (done ++ l) /\ satisfies W bits j = true.
Proof.
  induction l as [| i r IH]; intros n done Hn H0 Hl Hd Ha; cbn [add_instructions].
  { exists n. rewrite app_nil_r. auto. }
  apply Forall_cons in Hl as [Hi Hr]. destruct (AddInstruction_ok i n Hi Hn H0) as (n' & E & Hw & Hs & Ha').
  { intros bits j Hj Hm. apply Ha in Hj as [Hj Hj']. apply (Hd bits); [apply in_app_iff; auto | apply in_elt | exact Hj' | exact Hm]. }
  rewrite E. cbn [rbind fst]. replace (done ++ i :: r) with ((done ++ [i]) ++ r) in * by (rewrite <- app_assoc; reflexivity).
  apply IH; try assumption. intros bits j. rewrite Ha', Ha, in_app_iff. cbn. split.
  - intros [H | [-> H]]; tauto.
  - intros [[H | [-> | []]] Hm]; tauto.
Qed.

(** The tree of an ISA accepts, for every word, the instructions whose
    constraints it satisfies. *)
Lemma BuildTree_ok isa : isa <> [] -> Forall encodable isa -> disjoint_encodings isa ->
  exists t, BuildTree isa = Ok t /\ wf W t /\ start_ptr t = 0 /\
    forall bits i, accepts W bits t i <-> In i isa /\ satisfies W bits i = true.
Proof.
  intros Hne Hl Hd. destruct isa as [| i r]; [contradiction |]. apply Forall_cons in Hl as [Hi Hr]. unfold BuildTree, CreateTree.
  assert (Hempty : forall bits j, ~ accepts W bits (new_node (Some i) 0) j).
  { intros bits j Hj. apply new_node_accepts in Hj; [lia | apply Hi]. }
  destruct (AddInstruction_ok i (new_node (Some i) 0) Hi) as (n & E & Hw & Hs & Ha).
  { apply new_node_wf; [apply Hi | lia]. }
  { reflexivity. }
  { intros bits j Hj. destruct (Hempty bits j Hj). }
  rewrite E. cbn [rmap rbind fst]. apply (add_isa_ok r n [i]); try assumption.
  intros bits j. rewrite Ha. cbn. split.
  - intros [H | [-> H]]; [destruct (Hempty bits j H) | auto].
  - intros [[-> | []] H]; auto.
Qed.
End Build.
