(* ===== verification/DecodeOptimize.v ===== *)
(** * Optimising the decode tree preserves it

    [Optimize] groups the transitions of a node that start with the same bits
    under a transition on these bits.  It terminates on the trees of BuildTree,
    its result accepts the same instructions for every word, and no switch
    statement generated from it has two equal cases.  The last part composes
    the decoder generator: from instruction descriptions to decoded words. *)

From Stdlib Require Import ZArith Lia List Bool Ascii.
From stdpp Require Import base list numbers strings gmap sorting.
From S2P Require Import Prelude BitStrings DecodeTree DecodeTreeCorrect.
Import ListNotations.
#[local] Open Scope Z_scope.
#[local] Open Scope gensim_scope.

(** ** Prefixes of numbers *)

Definition valid_prefix (p : prefix) : Prop := 1 <= fst p <= 32 /\ 0 <= snd p < 2 ^ fst p.

Lemma top_bits_div t len : 1 <= len <= trans_length t -> trans_length t <= 32 -> 0 <= value t < 2 ^ trans_length t ->
  top_bits t len = value t / 2 ^ (trans_length t - len).
Proof.
  intros Hl H32 Hv. unfold top_bits.
  pose proof (field_div (trans_length t) (value t) 0 len ltac:(lia) ltac:(lia) ltac:(lia) H32) as F. unfold field in F.
  replace (trans_length t - 1 - 0) with (trans_length t - 1) in F by lia.
  replace (trans_length t - 0 - len) with (trans_length t - len) in F by lia. rewrite F. apply Z.mod_small.
  assert (0 < 2 ^ (trans_length t - len)) by (apply Z.pow_pos_nonneg; lia). split; [apply Z.div_pos; lia |].
  apply Z.div_lt_upper_bound; [lia |]. rewrite <- Z.pow_add_r by lia. replace (trans_length t - len + len) with (trans_length t) by lia. lia.
Qed.
Lemma top_bits_range t len : 1 <= len <= trans_length t -> trans_length t <= 32 -> 0 <= value t < 2 ^ trans_length t ->
  0 <= top_bits t len < 2 ^ len.
Proof.
  intros Hl H32 Hv. rewrite top_bits_div by assumption.
  assert (0 < 2 ^ (trans_length t - len)) by (apply Z.pow_pos_nonneg; lia). split; [apply Z.div_pos; lia |].
  apply Z.div_lt_upper_bound; [lia |]. rewrite <- Z.pow_add_r by lia. replace (trans_length t - len + len) with (trans_length t) by lia. lia.
Qed.
Lemma low_bits v len : 1 <= len <= 32 -> UNSIGNED_BITS v (len - 1) 0 = v mod 2 ^ len.
Proof.
  intros Hl. pose proof (field_div len v 0 len ltac:(lia) ltac:(lia) ltac:(lia) ltac:(lia)) as F. unfold field in F.
  replace (len - 1 - 0) with (len - 1) in F by lia. replace (len - 0 - len) with 0 in F by lia. rewrite F, Z.div_1_r. reflexivity.
Qed.

Lemma field_at_split W bits s len a v : 0 <= s -> 0 <= a <= len -> s + len <= W -> W <= 32 ->
  field W bits s len = v <->
  field W bits s a = v / 2 ^ (len - a) /\ field W bits (s + a) (len - a) = v mod 2 ^ (len - a).
Proof.
  intros Hs Ha Hw HW. rewrite !field_div by lia. replace (W - (s + a) - (len - a)) with (W - s - len) by lia.
  set (y := bits / 2 ^ (W - s - len)). set (b := len - a). assert (Pb : 0 < 2 ^ b) by (apply Z.pow_pos_nonneg; lia).
  assert (Pa : 0 < 2 ^ a) by (apply Z.pow_pos_nonneg; lia).
  replace (bits / 2 ^ (W - s - a)) with (y / 2 ^ b).
  2: { unfold y. rewrite Z.div_div by (try apply Z.pow_nonzero; lia). rewrite <- Z.pow_add_r by lia. f_equal. f_equal. lia. }
  replace (2 ^ len) with (2 ^ b * 2 ^ a) by (rewrite <- Z.pow_add_r by lia; f_equal; lia). rewrite Z.rem_mul_r by lia.
  pose proof (Z.mod_pos_bound y (2 ^ b) Pb) as Hm. split.
  - intros <-. rewrite Z.add_comm, Z.mul_comm, Z.div_add_l, (Z.div_small (y mod _)) by lia. split; [lia |].
    rewrite Z.add_comm, Z.mod_add, Z.mod_mod by lia. reflexivity.
  - intros [E1 E2]. rewrite E1, E2, Z.add_comm. symmetry. apply Z.div_mod. lia.
Qed.

(** A transition starts with a prefix exactly when the bit string of the prefix
    is a prefix of its bit string. *)
Lemma string_value_app p q : string_value (p ++ q) = string_value p * 2 ^ Z.of_nat (length q) + string_value q.
Proof.
  induction p as [| c r IH]; [reflexivity |]. cbn [app string_value]. rewrite IH, length_app, Nat2Z.inj_add, Z.pow_add_r by lia.
  case_bool_decide; lia.
Qed.
Lemma string_value_inj p : forall q, constant_string p -> constant_string q -> length p = length q ->
  string_value p = string_value q -> p = q.
Proof.
  induction p as [| c r IH]; intros [| d q] Hp Hq Hl Hv; try discriminate; [reflexivity |]. cbn [string_value length] in *.
  injection Hl as Hl. rewrite Hl in Hv. pose proof (string_value_range r) as R1. pose proof (string_value_range q) as R2. rewrite Hl in R1.
  apply Forall_cons in Hp as [Hc Hp]. apply Forall_cons in Hq as [Hd Hq].
  destruct Hc as [-> | ->], Hd as [-> | ->]; 
    change (bool_decide (zero_char = one_char)) with false in Hv; change (bool_decide (one_char = one_char)) with true in Hv; cbn iota in Hv;
    try lia; f_equal; apply IH; assumption || lia.
Qed.
Lemma starts_with_app a b : starts_with a (a ++ b) = true.
Proof. induction a as [| c r IH]; [reflexivity |]. cbn. rewrite bool_decide_true by reflexivity. exact IH. Qed.

Lemma prefix_starts_with p q : valid_prefix p -> valid_prefix q -> fst q <= fst p -> snd p / 2 ^ (fst p - fst q) = snd q ->
  starts_with (FormatBinary (snd q) (fst q)) (FormatBinary (snd p) (fst p)) = true.
Proof.
  intros [Lp Vp] [Lq Vq] Hle Hd. destruct (FormatBinary_spec (snd p) (fst p) ltac:(lia) Vp) as (L1 & C1 & V1).
  destruct (FormatBinary_spec (snd q) (fst q) ltac:(lia) Vq) as (L2 & C2 & V2).
  set (a := FormatBinary (snd p) (fst p)) in *. set (b := FormatBinary (snd q) (fst q)) in *.
  assert (E : take (length b) a = b); [| rewrite <- (take_drop (length b) a), E; apply starts_with_app].
  assert (Hlen : length (take (length b) a) = length b) by (rewrite length_take; lia).
  apply string_value_inj; [apply Forall_take, C1 | exact C2 | exact Hlen |]. rewrite V2, <- Hd, <- V1.
  rewrite <- (take_drop (length b) a) at 2. rewrite string_value_app, length_drop.
  replace (Z.of_nat (length a - length b)) with (fst p - fst q) by lia.
  rewrite Z.div_add_l by (apply Z.pow_nonzero; lia). rewrite Z.div_small; [lia |].
  pose proof (string_value_range (drop (length b) a)) as R. rewrite length_drop in R.
  replace (Z.of_nat (length a - length b)) with (fst p - fst q) in R by lia. exact R.
Qed.

(** ** The prefixes that are selected *)

Definition prefix_in (W s : Z) (p : prefix) : Prop := valid_prefix p /\ s + fst p <= W.

Lemma prefix_starts_in len m a : 1 <= m -> In a (prefix_starts len m) -> 1 <= a < len.
Proof.
  intros Hm. unfold prefix_starts. rewrite in_map_iff. intros (k & <- & Hk). apply in_seq in Hk. lia.
Qed.

Lemma prefixes_of_ok W s t starts : 0 <= s -> s + trans_length t <= W -> W <= 32 -> 0 <= value t < 2 ^ trans_length t ->
  (forall a, In a starts -> 1 <= a < trans_length t) -> exists l, prefixes_of t starts = Ok l /\ Forall (prefix_in W s) l.
Proof.
  intros Hs Hw HW Hv. induction starts as [| a r IH]; intros Ha; [exists []; split; [reflexivity | constructor] |]. cbn [prefixes_of].
  assert (Ha' : 1 <= a < trans_length t) by (apply Ha; left; reflexivity).
  pose proof (top_bits_range t a ltac:(lia) ltac:(lia) Hv) as R.
  assert (C : (top_bits t a =? 0) || (Z.log2 (top_bits t a) + 1 <=? a) = true).
  { destruct (Z.eqb_spec (top_bits t a) 0) as [E | E]; [reflexivity |]. assert (Z.log2 (top_bits t a) < a) by (apply Z.log2_lt_pow2; lia). cbn. lia. }
  rewrite C. destruct IH as (l & -> & Hl); [intros; apply Ha; right; assumption |]. eexists. split; [reflexivity |]. constructor; [| exact Hl].
  rewrite u8_small by lia. split; [split; cbn [fst snd]; lia | cbn [fst]; lia].
Qed.

Lemma all_prefixes_ok W s m l : 1 <= m -> 0 <= s -> W <= 32 ->
  (forall t, In t l -> s + trans_length t <= W /\ 0 <= value t < 2 ^ trans_length t) ->
  exists ps, all_prefixes m l = Ok ps /\ Forall (prefix_in W s) ps.
Proof.
  intros Hm Hs HW. induction l as [| t r IH]; intros Hl; [exists []; split; [reflexivity | constructor] |]. cbn [all_prefixes].
  destruct (Hl t ltac:(left; reflexivity)) as [Ht Hv].
  destruct (prefixes_of_ok W s t (prefix_starts (trans_length t) m)) as (l1 & -> & H1); try assumption.
  { intros a. apply prefix_starts_in. exact Hm. }
  destruct IH as (l2 & -> & H2); [intros; apply Hl; right; assumption |]. eexists. split; [reflexivity |]. apply Forall_app. auto.
Qed.

Lemma count_prefix_keys p l e : In e (count_prefix p l) -> fst e = p \/ In (fst e) (map fst l).
Proof.
  induction l as [| [q n] r IH]; cbn [count_prefix]; [intros [<- | []]; auto |]. destruct (pair_ltb p q).
  - intros [<- | H]; [auto |]. right. apply in_map. exact H.
  - case_bool_decide as Eq; (intros [<- | H]; [cbn; auto |]).
    + right. cbn. right. apply in_map. exact H.
    + apply IH in H as [H | H]; cbn; auto.
Qed.
Lemma popularity_keys ps e : In e (prefix_popularity ps) -> In (fst e) ps.
Proof.
  unfold prefix_popularity. assert (G : forall acc, In e (fold_left (fun m p => count_prefix p m) ps acc) -> In (fst e) ps \/ In (fst e) (map fst acc)).
  { induction ps as [| p r IH]; intros acc H; cbn in H; [right; apply in_map; exact H |]. apply IH in H as [H | H]; [cbn; auto |].
    apply in_map_iff in H as (e' & E & H). apply count_prefix_keys in H as [H | H]; rewrite E in H; cbn; auto. }
  intros H. apply G in H as [H | []]. exact H.
Qed.
Lemma ranking_keys k l e : In e (prefix_ranking k l) -> In e l.
Proof.
  unfold prefix_ranking. assert (G : forall q acc, In e (fold_left (fun m e => multimap_insert snd e m) q acc) -> In e q \/ In e acc).
  { induction q as [| x r IH]; intros acc H; cbn in H; [auto |]. apply IH in H as [H | H]; [cbn; auto |].
    apply multimap_insert_In in H as [-> | H]; cbn; auto. }
  intros H. apply G in H as [H | []]. apply filter_In in H. tauto.
Qed.

(** Every prefix overlaps with none of those selected before it. *)
Lemma select_prefixes_spec r : forall acc, exists new, select_prefixes r acc = acc ++ new /\ (forall p, In p new -> In p (map fst r)) /\
  forall pre p post, new = pre ++ p :: post -> forall q, In q (acc ++ pre) -> overlap q p = false.
Proof.
  induction r as [| [p n] r IH]; intros acc; cbn [select_prefixes].
  { exists []. rewrite app_nil_r. split; [reflexivity |]. split; [intros ? [] |]. intros pre q post E. destruct pre; discriminate E. }
  destruct (existsb (fun q => overlap q p) acc) eqn:E.
  - destruct (IH acc) as (new & H1 & H2 & H3). exists new. split; [exact H1 |]. split; [cbn; auto | exact H3].
  - destruct (IH (acc ++ [p])) as (new & H1 & H2 & H3). exists (p :: new). split; [rewrite H1, <- app_assoc; reflexivity |].
    split; [intros q [<- | Hq]; cbn; auto |]. intros [| y pre] q post Eq; injection Eq as -> Eq; intros x Hx.
    + rewrite app_nil_r in Hx. destruct (overlap x q) eqn:Ex; [| reflexivity]. rewrite <- E. symmetry. apply existsb_exists. eauto.
    + apply (H3 pre q post Eq). rewrite <- app_assoc. exact Hx.
Qed.

(** ** Moving transitions below a prefix *)

(** Trees on the way: a node made for a prefix may have an unconstrained
    transition of no bits. *)
Inductive otree (W : Z) : DecodeNode -> Prop :=
| otree_leaf i : otree W (mkNode W [] None (Some i))
| otree_inner s ts u : 0 <= s <= W -> NoDup (map key ts) ->
    (forall t, In t ts -> 1 <= trans_length t /\ 0 <= value t < 2 ^ trans_length t /\
       start_ptr (trans_target t) = s + trans_length t /\ wf W (trans_target t)) ->
    (forall t, u = Some t -> 0 <= trans_length t /\ start_ptr (trans_target t) = s + trans_length t /\ wf W (trans_target t)) ->
    otree W (mkNode s ts u None).

Lemma wf_otree W n : wf W n -> otree W n.
Proof.
  inversion 1 as [| s ts u Hs Hk Ht Hu]; subst; constructor; try assumption; [lia |].
  intros t E. destruct (Hu t E) as (L & S & Hw). split; [lia | auto].
Qed.
Lemma otree_start W n : 0 <= W -> otree W n -> 0 <= start_ptr n <= W.
Proof. intros HW. inversion 1; subst; cbn; lia. Qed.

Section Split.
Context (shifted_out W s : Z).
Hypothesis HW : 0 <= W <= 32.
Hypothesis Hs : 0 <= s.

(** The transitions of a node at [s] while prefixes are split off: [done] are
    the prefixes that have been. *)
Record splitting (done : list prefix) (ts : list transition) : Prop := {
  splitting_keys : NoDup (map key ts);
  splitting_each t : In t ts -> 1 <= trans_length t /\ 0 <= value t < 2 ^ trans_length t /\
    start_ptr (trans_target t) = s + trans_length t /\ s + trans_length t <= W /\
    (wf W (trans_target t) \/ (In (key t) done /\ otree W (trans_target t)))
}.
Definition leads_to (bits : Z) (ts : list transition) (i : InstructionDescription) : Prop :=
  exists t, In t ts /\ field W bits s (trans_length t) = value t /\ accepts W bits (trans_target t) i.

Lemma add_matches_spec p l : forall ts0 u0 start, exists ts',
  fold_left (add_match shifted_out p) l (mkNode start ts0 u0 None)
    = mkNode start ts' (match last (List.filter (fun t => trans_length (shorten shifted_out p t) =? 0) l) with
                        | Some t => Some (shorten shifted_out p t) | None => u0 end) None /\
  ts' ≡ₚ map (shorten shifted_out p) (List.filter (fun t => negb (trans_length (shorten shifted_out p t) =? 0)) l) ++ ts0.
Proof.
  induction l as [| t r IH]; intros ts0 u0 start; [exists ts0; split; reflexivity |]. cbn [fold_left List.filter].
  change (add_match shifted_out p (mkNode start ts0 u0 None) t) with
    (if trans_length (shorten shifted_out p t) =? 0 then mkNode start ts0 (Some (shorten shifted_out p t)) None
     else mkNode start (multimap_insert trans_length (shorten shifted_out p t) ts0) u0 None).
  destruct (trans_length (shorten shifted_out p t) =? 0) eqn:E; cbn [negb].
  - destruct (IH ts0 (Some (shorten shifted_out p t)) start) as (ts' & Ef & Ep). exists ts'. split; [| exact Ep].
    rewrite Ef. f_equal. rewrite last_cons. destruct (last _); reflexivity.
  - destruct (IH (multimap_insert trans_length (shorten shifted_out p t) ts0) u0 start) as (ts' & Ef & Ep). exists ts'. split.
    + exact Ef.
    + rewrite Ep, multimap_insert_perm. cbn [map app]. symmetry. apply Permutation_middle.
Qed.

Lemma shorten_spec p t : valid_prefix p -> matches_prefix p t = true -> 1 <= trans_length t -> s + trans_length t <= W ->
  0 <= value t < 2 ^ trans_length t ->
  trans_length (shorten shifted_out p t) = trans_length t - fst p /\ fst p <= trans_length t /\
  snd p = value t / 2 ^ (trans_length t - fst p) /\
  (fst p < trans_length t -> value (shorten shifted_out p t) = value t mod 2 ^ (trans_length t - fst p)).
Proof.
  intros [Lp Vp] Hm Hl Hw Hv. unfold matches_prefix in Hm. apply andb_true_iff in Hm as [H1 H2]. apply Z.leb_le in H1. apply Z.eqb_eq in H2.
  rewrite top_bits_div in H2 by lia. unfold shorten. cbn [trans_length value]. rewrite u8_small by lia.
  split; [reflexivity |]. split; [exact H1 |]. split; [auto |]. intros Hlt. replace (trans_length t - fst p =? 0) with false by lia.
  apply low_bits. lia.
Qed.

(** Shortening keeps transitions on the same prefix apart. *)
Lemma shorten_keys p l : valid_prefix p -> NoDup (map key l) ->
  (forall t, In t l -> matches_prefix p t = true /\ fst p < trans_length t /\ s + trans_length t <= W /\ 0 <= value t < 2 ^ trans_length t) ->
  NoDup (map key (map (shorten shifted_out p) l)).
Proof.
  intros Hp. induction l as [| t r IH]; intros Hk Hl; [constructor |]. cbn [map] in *. apply NoDup_cons in Hk as [Hn Hk].
  constructor; [| apply IH; [exact Hk | intros; apply Hl; right; assumption]]. intros Hin. apply Hn.
  apply list_elem_of_In. apply list_elem_of_In in Hin. apply in_map_iff in Hin as (x & Ex & Hx). apply in_map_iff in Hx as (y & <- & Hy).
  apply in_map_iff. exists y. split; [| exact Hy]. destruct Hp as [Lp Vp].
  destruct (Hl t ltac:(left; reflexivity)) as (M1 & L1 & W1 & V1). destruct (Hl y ltac:(right; exact Hy)) as (M2 & L2 & W2 & V2).
  destruct (shorten_spec p t (conj Lp Vp) M1 ltac:(lia) W1 V1) as (A1 & _ & B1 & C1).
  destruct (shorten_spec p y (conj Lp Vp) M2 ltac:(lia) W2 V2) as (A2 & _ & B2 & C2).
  assert (E1 := f_equal fst Ex). assert (E2 := f_equal snd Ex). unfold key in E1, E2. cbn [fst snd] in E1, E2. rewrite A1, A2 in E1. assert (E : trans_length y = trans_length t) by lia.
  rewrite C1, C2 in E2 by lia. rewrite E in E2, B2. unfold key. f_equal; [exact E |].
  rewrite (Z.div_mod (value y) (2 ^ (trans_length t - fst p))), (Z.div_mod (value t) (2 ^ (trans_length t - fst p))) by (apply Z.pow_nonzero; lia).
  rewrite <- B1, <- B2, E2. reflexivity.
Qed.

Lemma key_inj (ts : list transition) x y : NoDup (map key ts) -> In x ts -> In y ts -> key x = key y -> x = y.
Proof.
  intros Hk Hx Hy E. apply list_elem_of_In, list_elem_of_lookup in Hx as [a Ha], Hy as [b Hb].
  assert (a = b); [| congruence].
  apply (NoDup_lookup (key <$> ts) a b (key x)); [exact Hk | |]; rewrite list_lookup_fmap; [rewrite Ha | rewrite Hb, E]; reflexivity.
Qed.
Lemma keys_filter f (ts : list transition) : NoDup (map key ts) -> NoDup (map key (List.filter f ts)).
Proof.
  induction ts as [| t r IH]; intros Hk; [constructor |]. cbn [map List.filter] in *. apply NoDup_cons in Hk as [Hn Hk].
  destruct (f t); [| auto]. cbn [map]. constructor; [| auto]. rewrite list_elem_of_In, in_map_iff in *. intros (x & E & Hx).
  apply Hn. exists x. apply filter_In in Hx. tauto.
Qed.

(** The transitions that start with a prefix. *)
Record starting (p : prefix) (t : transition) : Prop := {
  starting_matches : matches_prefix p t = true;
  starting_length : 1 <= trans_length t;
  starting_value : 0 <= value t < 2 ^ trans_length t;
  starting_within : s + trans_length t <= W;
  starting_target : start_ptr (trans_target t) = s + trans_length t;
  starting_wf : wf W (trans_target t)
}.
Lemma starting_shorten p t : valid_prefix p -> starting p t ->
  trans_length (shorten shifted_out p t) = trans_length t - fst p /\ fst p <= trans_length t /\
  snd p = value t / 2 ^ (trans_length t - fst p) /\
  (fst p < trans_length t -> value (shorten shifted_out p t) = value t mod 2 ^ (trans_length t - fst p)).
Proof. intros Hp [M L V B _ _]. apply shorten_spec; assumption. Qed.

(** The node of a prefix. *)
Lemma prefix_node_shape p ts : prefix_in W s p -> NoDup (map key ts) -> (forall t, In t ts -> starting p t) ->
  exists ts' u, fold_left (add_match shifted_out p) ts (mkNode (u8 (s + fst p)) [] None None) = mkNode (s + fst p) ts' u None /\
    NoDup (map key ts') /\ (forall x, In x ts' <-> exists t, In t ts /\ fst p < trans_length t /\ x = shorten shifted_out p t) /\
    (forall x, u = Some x <-> exists t, In t ts /\ trans_length t = fst p /\ x = shorten shifted_out p t).
Proof.
  intros [Hp Hpw] Hk Ht. destruct (add_matches_spec p ts [] None (u8 (s + fst p))) as (ts' & -> & Ep).
  destruct Hp as [Lp Vp]. rewrite u8_small by lia. rewrite app_nil_r in Ep.
  set (full := List.filter (fun t => trans_length (shorten shifted_out p t) =? 0) ts) in *.
  set (part := List.filter (fun t => negb (trans_length (shorten shifted_out p t) =? 0)) ts) in *.
  pose proof (fun t H => starting_shorten p t (conj Lp Vp) (Ht t H)) as Hsh.
  assert (Hpart : forall t, In t part <-> In t ts /\ fst p < trans_length t).
  { intros t. unfold part. rewrite filter_In. split; intros [H E]; (split; [exact H |]); destruct (Hsh t H) as (A & B & _); rewrite A in *; lia. }
  assert (Hfull : forall t, In t full <-> In t ts /\ trans_length t = fst p).
  { intros t. unfold full. rewrite filter_In. split; intros [H E]; (split; [exact H |]); destruct (Hsh t H) as (A & B & _); rewrite A in *; lia. }
  eexists ts', _. split; [reflexivity |]. split; [| split].
  - rewrite (Permutation_map key Ep). apply shorten_keys; [split; assumption | apply keys_filter, Hk |].
    intros t H. apply Hpart in H as [H Hlt]. destruct (Ht t H). auto.
  - intros x. rewrite <- list_elem_of_In, Ep, list_elem_of_In, in_map_iff.
    split; [intros (t & <- & H); apply Hpart in H as [H Hlt]; eauto | intros (t & H & Hlt & ->); exists t; rewrite Hpart; auto].
  - intros x. split.
    + destruct (last full) as [t |] eqn:El; [| discriminate]. intros [= <-]. apply last_Some in El as [l El]. exists t.
      assert (H : In t full) by (rewrite El; apply in_app_iff; cbn; auto). apply Hfull in H. tauto.
    + intros (t & H & E & ->). destruct (last full) as [y |] eqn:El.
      * f_equal. f_equal. apply last_Some in El as [l El]. assert (Hy : In y full) by (rewrite El; apply in_app_iff; cbn; auto).
        apply Hfull in Hy as [Hy Ey]. apply (key_inj ts); [exact Hk | exact Hy | exact H |]. unfold key. f_equal; [lia |].
        destruct (Hsh t H) as (_ & _ & B1 & _), (Hsh y Hy) as (_ & _ & B2 & _).
        rewrite E, Z.sub_diag, Z.div_1_r in B1. rewrite Ey, Z.sub_diag, Z.div_1_r in B2. lia.
      * apply last_None in El. assert (Hin : In t full) by (apply Hfull; auto). rewrite El in Hin. destruct Hin.
Qed.

Lemma prefix_node_ok p ts : prefix_in W s p -> NoDup (map key ts) -> (forall t, In t ts -> starting p t) ->
  let n := fold_left (add_match shifted_out p) ts (mkNode (u8 (s + fst p)) [] None None) in
  otree W n /\ start_ptr n = s + fst p /\
  forall bits i, (field W bits s (fst p) = snd p /\ accepts W bits n i) <-> leads_to bits ts i.
Proof.
  intros Hp Hk Ht. cbv zeta. destruct (prefix_node_shape p ts Hp Hk Ht) as (ts' & u & -> & Hk' & Hts' & Hu).
  destruct Hp as [[Lp Vp] Hpw]. pose proof (fun t H => starting_shorten p t (conj Lp Vp) (Ht t H)) as Hsh. split; [| split; [reflexivity |]].
  - constructor; [lia | exact Hk' | |].
    + intros x Hx. apply Hts' in Hx as (t & H & Hlt & ->). destruct (Ht t H). destruct (Hsh t H) as (A1 & A2 & A3 & A4).
      rewrite A1, A4 by exact Hlt. split; [lia |]. split; [apply Z.mod_pos_bound, Z.pow_pos_nonneg; lia |].
      cbn [shorten trans_target]. split; [lia | assumption].
    + intros x Hx. apply Hu in Hx as (t & H & E & ->). destruct (Ht t H). destruct (Hsh t H) as (A1 & _). rewrite A1.
      cbn [shorten trans_target]. split; [lia |]. split; [lia | assumption].
  - intros bits i. rewrite accepts_inner. unfold leads_to.
    assert (Hfs : forall t, In t ts -> field W bits s (trans_length t) = value t <->
      field W bits s (fst p) = snd p /\ field W bits (s + fst p) (trans_length t - fst p) = value t mod 2 ^ (trans_length t - fst p)).
    { intros t H. destruct (Ht t H). destruct (Hsh t H) as (_ & A2 & -> & _). apply field_at_split; lia. }
    split.
    + intros [Hf [(x & Hx & Hfx & Ha) | (x & Hx & Ha)]].
      * apply Hts' in Hx as (t & H & Hlt & ->). exists t. split; [exact H |]. split; [| exact Ha]. apply Hfs; [exact H |].
        destruct (Hsh t H) as (A1 & _ & _ & A4). rewrite A1, A4 in Hfx by exact Hlt. auto.
      * apply Hu in Hx as (t & H & E & ->). exists t. split; [exact H |]. split; [| exact Ha].
        destruct (Hsh t H) as (_ & _ & A3 & _). rewrite E, Z.sub_diag, Z.div_1_r in A3. congruence.
    + intros (t & H & Hf & Ha). apply Hfs in Hf as [F1 F2]; [| exact H]. split; [exact F1 |]. destruct (Hsh t H) as (A1 & A2 & _ & A4).
      destruct (Z.eqb_spec (trans_length t) (fst p)) as [E | E].
      * right. exists (shorten shifted_out p t). split; [apply Hu; eauto | exact Ha].
      * left. exists (shorten shifted_out p t). split; [apply Hts'; exists t; split; [exact H | split; [lia | reflexivity]] |].
        rewrite A1, A4 by lia. split; [exact F2 | exact Ha].
Qed.

Lemma leads_to_partition f bits ts i :
  leads_to bits ts i <-> leads_to bits (List.filter f ts) i \/ leads_to bits (List.filter (fun t => negb (f t)) ts) i.
Proof.
  unfold leads_to. split.
  - intros (t & H & G). destruct (f t) eqn:E; [left | right]; exists t; (split; [apply filter_In; rewrite E; auto | exact G]).
  - intros [(t & H & G) | (t & H & G)]; apply filter_In in H as [H _]; eauto.
Qed.

Lemma split_prefix_ok done p ts : splitting done ts -> prefix_in W s p -> Forall valid_prefix done -> (forall q, In q done -> overlap q p = false) ->
  splitting (p :: done) (split_prefix shifted_out s ts p) /\
  forall bits i, leads_to bits (split_prefix shifted_out s ts p) i <-> leads_to bits ts i.
Proof.
  intros [Hk Ht] Hp Hd Hov. unfold split_prefix. pose proof Hp as [Hpv Hpw].
  assert (Hm : forall t, In t (List.filter (matches_prefix p) ts) -> starting p t).
  { intros t H. apply filter_In in H as [H M]. destruct (Ht t H) as (L & V & S & B & C). constructor; try assumption.
    destruct C as [C | [C _]]; [exact C |]. exfalso. specialize (Hov _ C). rewrite List.Forall_forall in Hd. specialize (Hd _ C).
    unfold overlap in Hov. apply orb_false_iff in Hov as [Hov _].
    destruct (shorten_spec p t Hpv M L B V) as (_ & A2 & A3 & _). rewrite (prefix_starts_with (key t) p) in Hov; auto; discriminate. }
  destruct (prefix_node_ok p _ Hp (keys_filter _ ts Hk) Hm) as (Ho & Hst & Hacc).
  set (n := fold_left _ _ _) in *. split; [constructor |].
  - rewrite (Permutation_map key (multimap_insert_perm _ _ _)). cbn [map]. constructor; [| apply keys_filter, Hk].
    rewrite list_elem_of_In, in_map_iff. intros (t & E & H). apply filter_In in H as [H M]. destruct (Ht t H) as (L & V & S & B & C).
    injection E as E1 E2. apply negb_true_iff in M. unfold matches_prefix in M. rewrite top_bits_div in M by lia.
    rewrite E1, Z.sub_diag, Z.div_1_r, E2, Z.eqb_refl in M. destruct (Z.leb_spec (fst p) (fst p)); [discriminate M | lia].
  - intros t H. apply multimap_insert_In in H as [-> | H].
    + cbn [trans_length value trans_target]. destruct Hpv. split; [lia |]. split; [assumption |]. split; [exact Hst |]. split; [exact Hpw |].
      right. split; [left; destruct p; reflexivity | exact Ho].
    + apply filter_In in H as [H _]. destruct (Ht t H) as (L & V & S & B & C). repeat (split; [assumption |]). cbn. tauto.
  - intros bits i. rewrite (leads_to_partition (matches_prefix p) bits ts i), <- Hacc. unfold leads_to at 1. split.
    + intros (t & H & Hf & Ha). apply multimap_insert_In in H as [-> | H]; [left; auto | right; exists t; auto].
    + intros [[Hf Ha] | (t & H & G)].
      * eexists. rewrite multimap_insert_In. split; [left; reflexivity | auto].
      * exists t. rewrite multimap_insert_In. auto.
Qed.

Lemma split_prefixes_ok sel : forall done ts, splitting done ts -> Forall (prefix_in W s) sel -> Forall valid_prefix done ->
  (forall pre p post, sel = pre ++ p :: post -> forall q, In q (done ++ pre) -> overlap q p = false) ->
  exists done', splitting done' (fold_left (split_prefix shifted_out s) sel ts) /\
    forall bits i, leads_to bits (fold_left (split_prefix shifted_out s) sel ts) i <-> leads_to bits ts i.
Proof.
  induction sel as [| p r IH]; intros done ts Hts Hsel Hd Hov; [exists done; split; [exact Hts | reflexivity] |].
  apply Forall_cons in Hsel as [Hp Hr]. cbn [fold_left].
  destruct (split_prefix_ok done p ts Hts Hp Hd) as [H1 H2]; [intros q Hq; apply (Hov [] p r eq_refl); rewrite app_nil_r; exact Hq |].
  destruct (IH (p :: done) (split_prefix shifted_out s ts p) H1 Hr) as (done' & H3 & H4).
  - constructor; [apply Hp | exact Hd].
  - intros pre q post -> x Hx. apply (Hov (p :: pre) q post eq_refl). cbn in Hx. apply in_app_iff. cbn. rewrite in_app_iff in Hx. tauto.
  - exists done'. split; [exact H3 |]. intros bits i. rewrite H4. apply H2.
Qed.
End Split.

(** ** Optimising a tree *)

Section Optimize.
Context (shifted_out W min_prefix_length min_prefix_members : Z).
Hypothesis HW : 0 <= W <= 32.
Hypothesis Hmin : 1 <= min_prefix_length.

Lemma select_and_split_ok n : otree W n ->
  exists done ts, select_and_split shifted_out min_prefix_length min_prefix_members n = Ok ts /\ splitting W (start_ptr n) done ts /\
    forall bits i, leads_to W (start_ptr n) bits ts i <-> leads_to W (start_ptr n) bits (transitions n) i.
Proof.
  intros Hn. unfold select_and_split.
  assert (Hs : 0 <= start_ptr n) by (apply (otree_start W); [lia | exact Hn]).
  assert (H0 : splitting W (start_ptr n) [] (transitions n)).
  { inversion Hn as [i | s ts u Hs' Hk Ht Hu]; subst; cbn [start_ptr transitions]; constructor; [constructor | intros ? [] | exact Hk |].
    intros t H. destruct (Ht t H) as (L & V & S & Hw). pose proof (wf_start W _ ltac:(lia) Hw). repeat (split; [lia || assumption |]). auto. }
  destruct (List.filter _ (transitions n)) as [| c r] eqn:Ec; [exists [], (transitions n); split; [reflexivity | split; [exact H0 | reflexivity]] |].
  destruct (all_prefixes_ok W (start_ptr n) min_prefix_length (c :: r) Hmin Hs ltac:(lia)) as (ps & -> & Hps).
  { intros t H. rewrite <- Ec in H. apply filter_In in H as [H _]. destruct (splitting_each _ _ _ _ H0 t H) as (L & V & S & B & _). auto. }
  cbn [rbind]. set (ranking := prefix_ranking _ _).
  destruct (select_prefixes_spec (rev ranking) []) as (sel & -> & Hin & Hov). cbn [app] in *.
  destruct (split_prefixes_ok shifted_out W (start_ptr n) HW Hs sel [] (transitions n) H0) as (done & H1 & H2).
  - apply List.Forall_forall. intros p Hp. rewrite List.Forall_forall in Hps. apply Hps.
    apply Hin, in_map_iff in Hp as (e & <- & He). apply in_rev in He. apply popularity_keys. eapply ranking_keys. exact He.
  - constructor.
  - exact Hov.
  - exists done. eexists. split; [reflexivity |]. auto.
Qed.

Lemma over_targets_ok f ts : (forall t, In t ts -> exists n, f (trans_target t) = Ok n) ->
  exists ts', over_targets f ts = Ok ts' /\ map key ts' = map key ts /\
    (forall x, In x ts' -> exists t, In t ts /\ key x = key t /\ f (trans_target t) = Ok (trans_target x)) /\
    (forall t, In t ts -> exists x, In x ts' /\ key x = key t /\ f (trans_target t) = Ok (trans_target x)).
Proof.
  induction ts as [| t r IH]; intros H; [exists []; split; [reflexivity |]; split; [reflexivity |]; split; intros ? [] |].
  destruct (H t ltac:(left; reflexivity)) as [n En]. destruct IH as (r' & Er & Ek & H1 & H2); [intros; apply H; right; assumption |].
  cbn [over_targets]. rewrite En. cbn [rbind]. rewrite Er. eexists. split; [reflexivity |]. split; [cbn [map]; rewrite Ek; reflexivity |]. split.
  - intros x [<- | Hx]; [exists t; cbn; auto |]. destruct (H1 x Hx) as (y & Hy & G). exists y. cbn. auto.
  - intros y [<- | Hy]; [eexists; split; [left; reflexivity | cbn; auto] |]. destruct (H2 y Hy) as (x & Hx & G). exists x. cbn. auto.
Qed.

(** Every level of the tree ends further down, or has just been made for a
    prefix. *)
Definition opt_fuel (n : DecodeNode) : nat :=
  2 * Z.to_nat (W - start_ptr n) + match unconstrained_transition n with Some t => if trans_length t =? 0 then 1 else 0 | None => 0 end.

Lemma wf_opt_fuel n : wf W n -> opt_fuel n = (2 * Z.to_nat (W - start_ptr n))%nat.
Proof.
  unfold opt_fuel. inversion 1 as [| s ts u Hs Hk Ht Hu]; subst; cbn [unconstrained_transition start_ptr]; [lia |]. destruct u as [t |]; [| lia].
  destruct (Hu t eq_refl) as [L _]. replace (trans_length t =? 0) with false by lia. lia.
Qed.
Lemma opt_fuel_bound n : (opt_fuel n <= 2 * Z.to_nat (W - start_ptr n) + 1)%nat.
Proof. unfold opt_fuel. destruct (unconstrained_transition n) as [t |]; [destruct (_ =? _) |]; lia. Qed.

Lemma Optimize_ok fuel : forall n, otree W n -> (opt_fuel n < fuel)%nat ->
  exists n', Optimize shifted_out fuel min_prefix_length min_prefix_members n = Ok n' /\ switchable W n' /\ start_ptr n' = start_ptr n /\
    forall bits i, accepts W bits n' i <-> accepts W bits n i.
Proof.
  induction fuel as [| k IH]; intros n Hn Hf; [lia |]. cbn [Optimize].
  destruct (select_and_split_ok n Hn) as (done & ts & -> & [Hk Ht] & Hl). cbn [rbind].
  pose proof (otree_start W n ltac:(lia) Hn) as Hs.
  assert (Hsub : forall t, In t ts -> otree W (trans_target t) /\ (opt_fuel (trans_target t) < k)%nat).
  { intros t H. destruct (Ht t H) as (L & V & S & B & C). split; [destruct C as [C | [_ C]]; [apply wf_otree, C | exact C] |].
    pose proof (opt_fuel_bound (trans_target t)). unfold opt_fuel in Hf. lia. }
  destruct (over_targets_ok (Optimize shifted_out k min_prefix_length min_prefix_members) ts) as (ts1 & -> & Ek & Hx & Hy).
  { intros t H. destruct (Hsub t H) as [H1 H2]. destruct (IH _ H1 H2) as (n' & E & _). eauto. }
  cbn [rbind].
  assert (Hsw : forall x, In x ts1 -> 1 <= trans_length x /\ start_ptr n + trans_length x <= W /\ switchable W (trans_target x)).
  { intros x H. destruct (Hx x H) as (t & Ht1 & Ekt & Et). destruct (Hsub t Ht1) as [H1 H2]. destruct (IH _ H1 H2) as (n' & E & Hsw & _).
    destruct (Ht t Ht1) as (L & V & S & B & C). injection Ekt as E1 E2. assert (n' = trans_target x) as <- by congruence. rewrite E1. auto. }
  assert (Hle : forall bits i, leads_to W (start_ptr n) bits ts1 i <-> leads_to W (start_ptr n) bits (transitions n) i).
  { intros bits i. rewrite <- Hl. split.
    - intros (x & H & Hfx & Ha). destruct (Hx x H) as (t & Ht1 & Ekt & Et). exists t. split; [exact Ht1 |]. destruct (Hsub t Ht1) as [H1 H2].
      destruct (IH _ H1 H2) as (n' & E & _ & _ & Hacc). injection Ekt as E1 E2. assert (n' = trans_target x) as -> by congruence.
      split; [congruence | apply Hacc, Ha].
    - intros (t & Ht1 & Hft & Ha). destruct (Hy t Ht1) as (x & H & Ekt & Et). exists x. split; [exact H |]. destruct (Hsub t Ht1) as [H1 H2].
      destruct (IH _ H1 H2) as (n' & E & _ & _ & Hacc). injection Ekt as E1 E2. assert (n' = trans_target x) as -> by congruence.
      split; [congruence | apply Hacc, Ha]. }
  inversion Hn as [i | s ts0 u Hs' Hk' Ht' Hu']; subst; cbn [unconstrained_transition start_ptr transitions target] in *.
  - eexists. split; [reflexivity |]. split; [constructor; [lia | rewrite Ek; exact Hk | exact Hsw | discriminate] |]. split; [reflexivity |].
    intros bits j. split.
    + inversion 1 as [? ? E | ? t ? H1 H2 H3 | ? ? ? E]; subst; cbn in *; [apply accepts_leaf; exact E | | discriminate].
      assert (Hc : leads_to W W bits [] j) by (apply Hle; exists t; auto). destruct Hc as (t' & [] & _).
    + inversion 1 as [? ? E | ? t ? E | ? ? ? E]; subst; cbn in *; [apply accepts_leaf; exact E | destruct E | discriminate].
  - destruct u as [t |].
    + destruct (Hu' t eq_refl) as (L & S & Hw).
      assert (Hft : (opt_fuel (trans_target t) < k)%nat).
      { pose proof (wf_start W _ ltac:(lia) Hw). rewrite wf_opt_fuel by exact Hw. revert Hf. unfold opt_fuel. cbn [unconstrained_transition start_ptr].
        destruct (Z.eqb_spec (trans_length t) 0); lia. }
      destruct (IH _ (wf_otree W _ Hw) Hft) as (m & -> & Hm & Hsm & Hma). eexists. split; [reflexivity |].
      split; [constructor; [lia | rewrite Ek; exact Hk | exact Hsw | intros x [= <-]; exact Hm] |]. split; [reflexivity |].
      intros bits i. rewrite !accepts_inner. etransitivity; [apply or_iff_compat_r; exact (Hle bits i) | apply or_iff_compat_l]. split; (intros (x & [= <-] & Ha); eexists; split; [reflexivity | apply Hma, Ha]).
    + eexists. split; [reflexivity |]. split; [constructor; [lia | rewrite Ek; exact Hk | exact Hsw | discriminate] |]. split; [reflexivity |].
      intros bits i. rewrite !accepts_inner. apply or_iff_compat_r. exact (Hle bits i).
Qed.
End Optimize.

(** A well-formed tree can be made into a decoder as it is. *)
Lemma wf_switchable W n : 0 <= W -> wf W n -> switchable W n.
Proof.
  intros HW. induction n as [s ts u t IHt IHu] using node_ind. inversion 1 as [| ? ? ? Hs Hk Ht Hu]; subst.
  - constructor; [lia | constructor | intros ? [] | discriminate].
  - constructor; [lia | exact Hk | |].
    + intros x Hx. destruct (Ht x Hx) as (L & V & S & Hw). pose proof (wf_start W _ HW Hw). split; [lia |]. split; [lia | apply IHt; assumption].
    + intros x Hx. destruct (Hu x Hx) as (L & S & Hw). apply IHu; assumption.
Qed.

Definition valid_options (optimisation : option (Z * Z)) : Prop :=
  match optimisation with Some (min_prefix_length, _) => 1 <= min_prefix_length | None => True end.

Lemma BuildDecodeTree_ok shifted_out W optimisation isa : 1 <= W <= 32 -> valid_options optimisation ->
  isa <> [] -> Forall (encodable W) isa -> disjoint_encodings W isa ->
  exists t, BuildDecodeTree shifted_out optimisation isa = Ok t /\ switchable W t /\
    forall bits i, accepts W bits t i <-> In i isa /\ satisfies W bits i = true.
Proof.
  intros HW Ho Hne He Hd. destruct (BuildTree_ok W HW isa Hne He Hd) as (t & E & Hw & Hs & Ha). unfold BuildDecodeTree. rewrite E. cbn [rbind].
  destruct optimisation as [[m k] |].
  - destruct (Optimize_ok shifted_out W m (u8 k) ltac:(lia) Ho 66 t (wf_otree W t Hw)) as (t' & E' & Hsw & _ & Ha').
    { rewrite (wf_opt_fuel W t Hw), Hs. lia. }
    exists t'. split; [exact E' |]. split; [exact Hsw |]. intros bits i. rewrite Ha', Ha. reflexivity.
  - exists t. split; [reflexivity |]. split; [apply wf_switchable; [lia | exact Hw] | exact Ha].
Qed.

(** ** The fields of a decoded instruction *)

Fixpoint named_fields (W bits : Z) (l : list InstructionFormatChunk) (s : Z) : list (string * Z) :=
  match l with
  | [] => []
  | c :: r => (chunk_Name c, field W bits s (chunk_length c)) :: named_fields W bits r (s + chunk_length c)
  end.

Lemma decode_chunks_fields bits l : forall s m, Forall sized_chunk l -> 0 <= s -> s + total_length l <= 32 ->
  decode_chunks bits (u32 (31 - s)) l m = m ∪ list_to_map (named_fields 32 bits l s).
Proof.
  induction l as [| c r IH]; intros s m Hl Hs Hw; [symmetry; apply map_union_empty |].
  apply Forall_cons in Hl as [[Hc _] Hr]. cbn [total_length] in Hw.
  assert (0 <= total_length r) by (clear - Hr; induction Hr as [| x y [Hx _]]; cbn [total_length]; lia).
  cbn [decode_chunks named_fields list_to_map foldr]. assert (E : u32 (31 - s) = 31 - s) by (apply wrap_small; split; lia). rewrite E.
  assert (F : UNSIGNED_BITS bits (31 - s) (31 - s - chunk_length c + 1) = field 32 bits s (chunk_length c)).
  { unfold field. f_equal; lia. }
  rewrite F. replace (31 - s - chunk_length c) with (31 - (s + chunk_length c)) by lia. rewrite IH by (assumption || lia).
  cbn [fst snd uncurry]. set (v := field 32 bits s (chunk_length c)). set (L := list_to_map _). case_bool_decide as Hn.
  - destruct Hn as [x Hx]. apply map_eq. intros k. rewrite !lookup_union. destruct (decide (k = chunk_Name c)) as [-> | Hne].
    + rewrite Hx, lookup_insert_eq. destruct (L !! chunk_Name c); reflexivity.
    + rewrite lookup_insert_ne by congruence. reflexivity.
  - rewrite <- insert_union_l. apply insert_union_r. destruct (m !! chunk_Name c); [destruct Hn; eauto | reflexivity].
Qed.

Lemma decode_fields W bits n d : W = 32 -> (forall i, accepts W bits n i -> encodable W i) -> Decode bits n = Some d ->
  chunks d = list_to_map (named_fields 32 bits (Chunks (Format (insn d))) 0).
Proof.
  intros -> He Hd. assert (Hi : encodable 32 (insn d)) by (apply He, decode_some, Hd). clear He. revert d Hd Hi.
  assert (Hleaf : forall i, encodable 32 i -> decode_chunks bits 31 (Chunks (Format i)) ∅ = list_to_map (named_fields 32 bits (Chunks (Format i)) 0)).
  { intros i [[Hc Ht _] _]. change 31 with (u32 (31 - 0)). rewrite decode_chunks_fields by (assumption || lia). apply map_empty_union. }
  induction n as [s ts u t IHt IHu] using node_ind. intros d Hd Hi. destruct t as [i |].
  { injection Hd as <-. apply Hleaf. exact Hi. }
  rewrite Decode_inner in Hd. revert IHt Hd. induction ts as [| x r IH]; intros IHt Hd; cbn [try_transitions] in Hd.
  - destruct u as [x |]; [| discriminate]. eapply IHu; eauto.
  - assert (Hr : try_transitions bits s u r = Some d -> chunks d = list_to_map (named_fields 32 bits (Chunks (Format (insn d))) 0)).
    { apply IH. intros y Hy. apply IHt. right. exact Hy. }
    destruct (_ =? _); [| auto]. destruct (Decode bits (trans_target x)) as [d' |] eqn:E; [| auto]. injection Hd as <-.
    apply (IHt x); [left; reflexivity | exact E | exact Hi].
Qed.

(** ** The decoder of an ISA *)

(** C7. For an ISA of instructions of W bits (at most 32), whose formats have W
    bits, whose constraint sets have at most one constraint per field, none of
    them an inequality, and no two of which share an encoding: the decode tree
    is built, optimised or not, and the decoder generated from it decodes a
    word to an instruction exactly when the word satisfies the constraints of
    that instruction of the ISA. *)
Theorem generated_decoder_correct shifted_out W optimisation isa : 1 <= W <= 32 -> valid_options optimisation ->
  isa <> [] -> Forall (encodable W) isa -> disjoint_encodings W isa ->
  exists t, BuildDecodeTree shifted_out optimisation isa = Ok t /\
    forall instr i, GeneratedDecode W instr t = Some i <-> In i isa /\ satisfies W instr i = true.
Proof.
  intros HW Ho Hne He Hd. destruct (BuildDecodeTree_ok shifted_out W optimisation isa HW Ho Hne He Hd) as (t & E & Hs & Ha).
  exists t. split; [exact E |]. intros instr i. rewrite <- Ha. apply generated_unique; [lia | exact Hs |].
  intros x y Hx Hy. apply Ha in Hx as [Hx1 Hx2], Hy as [Hy1 Hy2]. eapply Hd; eassumption.
Qed.

(** C8. For an ISA of 32-bit instructions, whose formats have 32 bits, whose
    constraint sets have at most one constraint per field, none of them an
    inequality ([GetBitString] ignores those, so that with one [Decode] answers
    words that violate it), and no two of which share an encoding: the tree is
    built, and DecodeNode::Decode returns the instruction whose constraints the
    word satisfies, with every field of its format (the first of a name) as the
    word has it, and nothing for a word that satisfies none. *)
Theorem tree_decode_correct shifted_out optimisation isa : valid_options optimisation ->
  isa <> [] -> Forall (encodable 32) isa -> disjoint_encodings 32 isa ->
  exists t, BuildDecodeTree shifted_out optimisation isa = Ok t /\
    forall bits d, Decode bits t = Some d <->
      In (insn d) isa /\ satisfies 32 bits (insn d) = true /\
      chunks d = list_to_map (named_fields 32 bits (Chunks (Format (insn d))) 0).
Proof.
  intros Ho Hne He Hd. destruct (BuildDecodeTree_ok shifted_out 32 optimisation isa ltac:(lia) Ho Hne He Hd) as (t & E & Hs & Ha).
  exists t. split; [exact E |]. intros bits d. rewrite List.Forall_forall in He.
  assert (Hf : forall d', Decode bits t = Some d' -> chunks d' = list_to_map (named_fields 32 bits (Chunks (Format (insn d'))) 0)).
  { intros d' H. apply (decode_fields 32 bits t); [reflexivity | | exact H]. intros i Hi. apply He. apply Ha in Hi. tauto. }
  split.
  - intros H. pose proof (decode_some bits t d H) as Hi. apply Ha in Hi as [H1 H2]. auto.
  - intros (H1 & H2 & H3). assert (Hi : accepts 32 bits t (insn d)) by (apply Ha; auto). destruct (Decode bits t) as [d' |] eqn:Ed.
    + f_equal. pose proof (decode_some bits t d' Ed) as Hi'. apply Ha in Hi' as [H4 H5]. assert (Ei : insn d' = insn d) by (eapply Hd; eassumption).
      specialize (Hf d' eq_refl). destruct d, d'. cbn in *. congruence.
    + destruct (decode_none bits t Ed _ Hi).
Qed.

(** Two trees lead every word to the same instructions. *)
Definition same_decoding (W : Z) (n n' : DecodeNode) : Prop := forall bits i, accepts W bits n' i <-> accepts W bits n i.

(** C9. Optimising a decode tree of W-bit instructions terminates within 2 W + 1
    steps of recursion for any minimal prefix length of at least one bit, never
    fails its assertion, and the result leads every word to the same
    instructions; no switch statement generated from it has two equal cases. *)
Theorem optimize_preserves_tree shifted_out W min_prefix_length min_prefix_members n fuel : 0 <= W <= 32 -> 1 <= min_prefix_length ->
  wf W n -> (2 * Z.to_nat W < fuel)%nat ->
  exists n', Optimize shifted_out fuel min_prefix_length min_prefix_members n = Ok n' /\ switchable W n' /\ same_decoding W n n'.
Proof.
  intros HW Hm Hw Hf. pose proof (wf_start W n ltac:(lia) Hw).
  destruct (Optimize_ok shifted_out W min_prefix_length min_prefix_members HW Hm fuel n (wf_otree W n Hw)) as (n' & E & Hs & _ & Ha).
  - rewrite (wf_opt_fuel W n Hw). lia.
  - eauto.
Qed.

(** An ISA of 32 bits: four instructions whose operation codes start with the
    same bits, which are worth a prefix, and one with a constrained field. *)
Definition sample_format (op : Z) : InstructionFormatDescription :=
  fold_left AddChunk [mkChunk "Static Constrainment" true 4 op; mkChunk "rd" false 4 0; mkChunk "imm" false 24 0] new_format.
Definition sample_isa : list InstructionDescription :=
  [mkInsn 1 "add" (sample_format 8) []; mkInsn 2 "sub" (sample_format 9) []; mkInsn 3 "and" (sample_format 10) [];
   mkInsn 4 "orr" (sample_format 11) []; mkInsn 5 "halt" (sample_format 3) [[mkConstraint "rd" Constraint_Equals 7]]].

Lemma sample_encodable : Forall (encodable 32) sample_isa.
Proof.
  repeat constructor; cbn; try lia; try discriminate; intros _; repeat split; discriminate.
Qed.
Lemma sample_disjoint : disjoint_encodings 32 sample_isa.
Proof.
  intros bits i j Hi Hj. cbn in Hi, Hj.
  destruct Hi as [<- | [<- | [<- | [<- | [<- | []]]]]], Hj as [<- | [<- | [<- | [<- | [<- | []]]]]]; try reflexivity;
    unfold satisfies, Decode_Constraints, existsb, sample_format; cbn [fold_left AddChunk new_format Chunks Format app];
    unfold fields_ok; cbn [chunk_length chunk_ok is_constrained constrained_value]; intros H1 H2;
    rewrite ?orb_false_r in H1, H2; repeat (apply andb_true_iff in H1 as [H1 _]); repeat (apply andb_true_iff in H2 as [H2 _]);
    apply Z.eqb_eq in H1, H2; congruence.
Qed.

Lemma generated_decoder_correct_witness :
  exists t, BuildDecodeTree 0 (Some (2, 4)) sample_isa = Ok t /\
    forall instr i, GeneratedDecode 32 instr t = Some i <-> In i sample_isa /\ satisfies 32 instr i = true.
Proof.
  apply generated_decoder_correct; [lia | cbn; lia | discriminate | exact sample_encodable | exact sample_disjoint].
Defined.
Lemma tree_decode_correct_witness :
  exists t, BuildDecodeTree 0 (Some (2, 4)) sample_isa = Ok t /\
    forall bits d, Decode bits t = Some d <->
      In (insn d) sample_isa /\ satisfies 32 bits (insn d) = true /\
      chunks d = list_to_map (named_fields 32 bits (Chunks (Format (insn d))) 0).
Proof. apply tree_decode_correct; [cbn; lia | discriminate | exact sample_encodable | exact sample_disjoint]. Defined.

(** The decoder of the sample ISA on words, and the prefix that was made. *)
Example sample_decodes :
  (let* t := BuildDecodeTree 0 (Some (2, 4)) sample_isa in
   Ok (map (fun w => option_map insn_Name (GeneratedDecode 32 w t)) [0x80000000; 0xb7654321; 0x37000000; 0x38000000]))
    = Ok [Some "add"; Some "orr"; Some "halt"; None] /\
  (let* t := BuildDecodeTree 0 (Some (2, 4)) sample_isa in Ok (map key (transitions t), CountNodes t)) = Ok ([(2, 2); (8, 0x37)], 12).
Proof. split; vm_compute; reflexivity. Qed.

Lemma optimize_preserves_tree_witness :
  exists t n', BuildTree sample_isa = Ok t /\ Optimize 0 65 2 4 t = Ok n' /\ switchable 32 n' /\ same_decoding 32 t n'.
Proof.
  destruct (BuildTree_ok 32 ltac:(lia) sample_isa ltac:(discriminate) sample_encodable sample_disjoint) as (t & E & Hw & _).
  destruct (optimize_preserves_tree 0 32 2 4 t 65 ltac:(lia) ltac:(lia) Hw ltac:(lia)) as (n' & H). exists t, n'. split; [exact E | exact H].
Defined.

(** Two instructions with one encoding: the second is reported as added, since
    the result below a transition that is there already is not looked at, and
    is decoded for no word. *)
Example conflict_not_reported :
  let first := mkInsn 1 "add" (sample_format 8) [] in
  let second := mkInsn 2 "sub" (sample_format 8) [] in
  (let* t := CreateTree first in
   let* r := AddInstruction t second in
   Ok (snd r, option_map insn_Name (GeneratedDecode 32 0x80000000 (fst r)))) = Ok (true, Some "add").
Proof. vm_compute. reflexivity. Qed.

(** An instruction that ends where longer ones go on is lost. *)
Example shorter_instruction_lost :
  let short := mkInsn 1 "short" (fold_left AddChunk [mkChunk "op" false 4 0] new_format) [] in
  let long := mkInsn 2 "long" (fold_left AddChunk [mkChunk "op" false 4 0; mkChunk "imm" true 4 0] new_format) [] in
  (let* t := CreateTree long in
   let* r := AddInstruction t short in
   Ok (snd r, option_map insn (Decode 0x21000000 (fst r)))) = Ok (true, None).
Proof. vm_compute. reflexivity. Qed.
