(* ===== verification/TraceRecords.v ===== *)
(** * Trace records and packets (support/libtrace)

    A trace is a sequence of records of 64 bits: a header with a type, a number
    of extensions and 16 bits of data, and 32 bits of data.  A record and the
    extensions that follow it are a packet.  This file has the records of
    RecordTypes.h, packets (TraceRecordPacket.h) and their readers
    (RecordReader.h). *)

From Stdlib Require Import ZArith Lia List Bool.
From stdpp Require Import base numbers list.
From S2P Require Import Prelude.
Import ListNotations.
#[local] Open Scope Z_scope.
#[local] Open Scope gensim_scope.

(** ** Records *)

Inductive TraceRecordType :=
| Unknown
| InstructionHeader | InstructionCode
| RegRead | RegWrite | BankRegRead | BankRegWrite
| MemReadAddr | MemReadData | MemWriteAddr | MemWriteData
| InstructionBundleHeader
| DataExtension | TraceIndex.

Definition type_code (t : TraceRecordType) : Z :=
  match t with
  | Unknown => 0 | InstructionHeader => 1 | InstructionCode => 2 | RegRead => 3 | RegWrite => 4 | BankRegRead => 5 | BankRegWrite => 6
  | MemReadAddr => 7 | MemReadData => 8 | MemWriteAddr => 9 | MemWriteData => 10 | InstructionBundleHeader => 11
  | DataExtension => 12 | TraceIndex => 13
  end.

#[export] Instance TraceRecordType_eq_dec : EqDecision TraceRecordType.
Proof. solve_decision. Defined.

Record TRecord := mkRecord { header : Z; record_data : Z }.

Definition TraceRecord (type : TraceRecordType) (data16 data32 extension_count : Z) : TRecord :=
  mkRecord (u32 (Z.lor (Z.lor (Z.shiftl (type_code type) 24) (Z.shiftl (u8 extension_count) 16)) (u16 data16))) (u32 data32).

Definition GetRecordType (r : TRecord) : Z := Z.shiftr (header r) 24.
Definition GetExtensionCount (r : TRecord) : Z := u8 (Z.shiftr (header r) 16).
Definition GetData16 (r : TRecord) : Z := Z.land (header r) 0xffff.
Definition GetData32 (r : TRecord) : Z := record_data r.

Definition InstructionHeaderRecord (isa_mode pc extensions : Z) : TRecord := TraceRecord InstructionHeader (u8 isa_mode) pc extensions.
Definition InstructionCodeRecord (irq_mode ir extensions : Z) : TRecord := TraceRecord InstructionCode irq_mode ir extensions.
Definition RegReadRecord (regnum data extensions : Z) : TRecord := TraceRecord RegRead regnum data extensions.
Definition RegWriteRecord (regnum data extensions : Z) : TRecord := TraceRecord RegWrite regnum data extensions.
Definition BankRegReadRecord (bank regnum data extensions : Z) : TRecord :=
  TraceRecord BankRegRead (Z.lor (Z.shiftl (u8 bank) 8) (u8 regnum)) data extensions.
Definition BankRegWriteRecord (bank regnum data extensions : Z) : TRecord :=
  TraceRecord BankRegWrite (Z.lor (Z.shiftl (u8 bank) 8) (u8 regnum)) data extensions.
Definition MemReadAddrRecord (width address extensions : Z) : TRecord := TraceRecord MemReadAddr (u8 width) address extensions.
Definition MemReadDataRecord (width address extensions : Z) : TRecord := TraceRecord MemReadData (u8 width) address extensions.
Definition MemWriteAddrRecord (width address extensions : Z) : TRecord := TraceRecord MemWriteAddr (u8 width) address extensions.
Definition MemWriteDataRecord (width address extensions : Z) : TRecord := TraceRecord MemWriteData (u8 width) address extensions.
Definition DataExtensionRecord (prevtype : TraceRecordType) (data : Z) : TRecord := TraceRecord DataExtension (type_code prevtype) data 0.
Definition InstructionBundleHeaderRecord (low_start_pc extensions : Z) : TRecord := TraceRecord InstructionBundleHeader 0 low_start_pc extensions.
Definition IndexRecord (record_count instruction_count : Z) : TRecord := TraceRecord TraceIndex record_count instruction_count 0.

(** Readers of the fields. *)
Definition GetIsaMode (r : TRecord) : Z := u8 (GetData16 r).
Definition GetBank (r : TRecord) : Z := u8 (Z.shiftr (GetData16 r) 8).
Definition GetRegNum8 (r : TRecord) : Z := u8 (Z.land (GetData16 r) 0xff).
Definition GetWidth (r : TRecord) : Z := u8 (GetData16 r).
(** [MemReadDataRecord::GetData] masks with [1ULL << (width * 8)]: undefined
    from 8 bytes on. *)
Definition GetMemData (r : TRecord) : result Z :=
  check* GetWidth r * 8 <? 64 or UndefinedBehaviour in
  Ok (u32 (Z.land (GetData32 r) (Z.shiftl 1 (GetWidth r * 8) - 1))).

(** ** Packets *)

Record TraceRecordPacket := mkPacket { packet_record : TRecord; extensions : list TRecord }.
Definition kExtensionCount : Z := 4.

Definition Assign (record : TRecord) (exts : list TRecord) : result TraceRecordPacket :=
  check* Z.of_nat (length exts) <=? kExtensionCount or AssertFailed in
  Ok (mkPacket record exts).
(** The overload for vectors takes the address of the first element, with [at]. *)
Definition Assign_vector (record : TRecord) (exts : list TRecord) : result TraceRecordPacket :=
  match exts with [] => Err OutOfRange | _ => Assign record exts end.
Definition packet_assign (other : TraceRecordPacket) : result TraceRecordPacket :=
  Assign_vector (packet_record other) (extensions other).

(** [RecordReader]: the type is asserted on construction. *)
Record RecordReader := mkReader { reader_record : TRecord; reader_extensions : list TRecord }.
Definition new_reader (record : TRecord) (type : TraceRecordType) (exts : list TRecord) : result RecordReader :=
  check* GetRecordType record =? type_code type or AssertFailed in
  Ok (mkReader record exts).
Definition GetSize (r : RecordReader) : Z := 4 + Z.of_nat (length (reader_extensions r)) * 4.
Definition AsU32 (r : RecordReader) : Z := GetData32 (reader_record r).
Definition GetExtension (r : RecordReader) (idx : Z) : result Z := rmap GetData32 (at_ (reader_extensions r) idx).
Definition AsU64 (r : RecordReader) : result Z :=
  let* high := GetExtension r 0 in
  Ok (Z.lor (GetData32 (reader_record r)) (u64 (Z.shiftl high 32))).

(** [TraceRecordPacket::Visited]: the reader the visitor gets. *)
Definition visited_type (code : Z) : option TraceRecordType :=
  List.find (fun t => code =? type_code t)
    [InstructionHeader; InstructionCode; RegRead; RegWrite; BankRegRead; BankRegWrite; MemReadAddr; MemReadData; MemWriteAddr; MemWriteData].
Definition Visited (p : TraceRecordPacket) : result (TraceRecordType * RecordReader) :=
  match visited_type (GetRecordType (packet_record p)) with
  | None => Err AssertFailed
  | Some t =>
      let* reader := new_reader (packet_record p) t (extensions p) in
      Ok (t, reader)
  end.

(** ** Encoding and decoding of the header *)

Section Header.
Context (type : TraceRecordType) (data16 data32 count : Z).
Hypothesis H16 : in_range 16 data16.
Hypothesis Hcount : in_range 8 count.
Abbreviation r := (TraceRecord type data16 data32 count).

Lemma type_code_range : 0 <= type_code type < 14.
Proof. destruct type; cbn; lia. Qed.

Lemma header_value : header r = type_code type * 2 ^ 24 + count * 2 ^ 16 + data16.
Proof.
  unfold TraceRecord. cbn [header]. unfold u8, u16. rewrite !wrap_small by assumption.
  pose proof type_code_range as Ht. unfold in_range in *. rewrite !Z.shiftl_mul_pow2 by lia.
  replace (type_code type * 2 ^ 24) with ((type_code type * 2 ^ 8) * 2 ^ 16) by lia.
  replace (Z.lor (type_code type * 2 ^ 8 * 2 ^ 16) (count * 2 ^ 16)) with ((type_code type * 2 ^ 8 + count) * 2 ^ 16).
  - rewrite lor_low by lia. unfold u32. rewrite wrap_small by (split; lia). lia.
  - rewrite <- (lor_low (type_code type) count 8) by lia. rewrite <- !Z.shiftl_mul_pow2 by lia. apply Z.shiftl_lor.
Qed.

Lemma GetRecordType_make : GetRecordType r = type_code type.
Proof.
  unfold GetRecordType. rewrite header_value, Z.shiftr_div_pow2 by lia. unfold in_range in *.
  replace (type_code type * 2 ^ 24 + count * 2 ^ 16 + data16) with (type_code type * 2 ^ 24 + (count * 2 ^ 16 + data16)) by lia.
  rewrite Z.div_add_l by lia. rewrite Z.div_small by lia. lia.
Qed.
Lemma GetExtensionCount_make : GetExtensionCount r = count.
Proof.
  unfold GetExtensionCount, u8, wrap. rewrite header_value, Z.shiftr_div_pow2 by lia. unfold in_range in *.
  replace (type_code type * 2 ^ 24 + count * 2 ^ 16 + data16) with ((type_code type * 2 ^ 8 + count) * 2 ^ 16 + data16) by lia.
  rewrite Z.div_add_l by lia. rewrite Z.div_small by lia. rewrite Z.add_0_r, Z.add_comm, Z.mod_add by lia. apply Z.mod_small. lia.
Qed.
Lemma GetData16_make : GetData16 r = data16.
Proof.
  unfold GetData16. change 0xffff with (Z.ones 16). rewrite Z.land_ones, header_value by lia. unfold in_range in *.
  replace (type_code type * 2 ^ 24 + count * 2 ^ 16 + data16) with (data16 + (type_code type * 2 ^ 8 + count) * 2 ^ 16) by lia.
  rewrite Z.mod_add by lia. apply Z.mod_small. lia.
Qed.
Lemma GetData32_make : GetData32 r = u32 data32.
Proof. reflexivity. Qed.
End Header.

Lemma type_code_inj t1 t2 : type_code t1 = type_code t2 -> t1 = t2.
Proof. destruct t1, t2; cbn; intros E; reflexivity || discriminate. Qed.
