(* ===== verification/TraceSource.v ===== *)
(** * Trace sources and sinks (support/libtrace)

    A [TraceSource] turns the events of an executing thread into records, which
    it buffers and hands to a [TraceSink]; [BinaryFileTraceSink] has a file per
    source.  The files are lists of records.

    The templates of TraceSource are functions of the type of their argument:
    [Word] where there are specialisations for uint32_t and uint64_t, [UInt] and
    [WideWord] where there are more.  The overloads of Trace_Reg_Read and Trace_Reg_Write
    for narrower types convert to uint32_t, and those of the bank register
    functions for float and double take the bits of the number. *)

From Stdlib Require Import ZArith Lia List Bool.
From stdpp Require Import base numbers list.
From S2P Require Import Prelude TraceRecords.
Import ListNotations.
#[local] Open Scope Z_scope.
#[local] Open Scope gensim_scope.

Inductive Word := W32 | W64.
Inductive UInt := U8 | U16 | U32 | U64 | U128.
Inductive WideWord := D32 | D64 | D128.

(** ** State *)

Definition BinaryFileTraceSink : Type := list (list TRecord).

Record TraceSource := mkSource {
  is_terminated_ : bool;
  aggressive_flushing_ : bool;
  packet_open_ : bool;
  skip_ : Z;
  id_ : option Z;                    (* [None] while [sink_] is null *)
  packet_buffer_ : list TRecord      (* up to [packet_buffer_pos_] *)
}.
Definition PacketBufferSize : Z := 1024.
Definition new_source : TraceSource := mkSource false true false 0 None [].

Definition state : Type := TraceSource * BinaryFileTraceSink.
Definition with_open (b : bool) (s : state) : state :=
  let '(src, k) := s in (mkSource (is_terminated_ src) (aggressive_flushing_ src) b (skip_ src) (id_ src) (packet_buffer_ src), k).
Definition with_skip (n : Z) (s : state) : state :=
  let '(src, k) := s in (mkSource (is_terminated_ src) (aggressive_flushing_ src) (packet_open_ src) n (id_ src) (packet_buffer_ src), k).
Definition with_buffer (l : list TRecord) (s : state) : state :=
  let '(src, k) := s in (mkSource (is_terminated_ src) (aggressive_flushing_ src) (packet_open_ src) (skip_ src) (id_ src) l, k).

(** ** The sink *)

Definition Open (k : BinaryFileTraceSink) : Z * BinaryFileTraceSink := (Z.of_nat (length k), k ++ [[]]).
Definition SinkPackets (id : Z) (records : list TRecord) (k : BinaryFileTraceSink) : result BinaryFileTraceSink :=
  let* file := at_ k id in
  Ok (set_at k id (file ++ records)).

(** ** The source *)

Definition SetSink (s : state) : state :=
  let '(src, k) := s in
  let '(id, k1) := Open k in
  (mkSource (is_terminated_ src) (aggressive_flushing_ src) (packet_open_ src) (skip_ src) (Some id) (packet_buffer_ src), k1).
Definition SetAggressiveFlush (b : bool) (s : state) : state :=
  let '(src, k) := s in (mkSource (is_terminated_ src) b (packet_open_ src) (skip_ src) (id_ src) (packet_buffer_ src), k).
Definition SetInstructionSkip (skip : Z) (s : state) : state := with_skip (u64 skip) s.
Definition Terminate (s : state) : state :=
  let '(src, k) := s in (mkSource true (aggressive_flushing_ src) (packet_open_ src) (skip_ src) (id_ src) (packet_buffer_ src), k).

Definition EmitPackets (s : state) : result state :=
  let '(src, k) := s in
  let* id := of_option UndefinedBehaviour (id_ src) in
  let* k1 := SinkPackets id (packet_buffer_ src) k in
  Ok (with_buffer [] (src, k1)).
(** Flushing the file sink does nothing. *)
Definition Flush (s : state) : result state := EmitPackets s.

(** [*getNextPacket() = record] *)
Definition put (record : TRecord) (s : state) : result state :=
  let* s1 := (if (Z.of_nat (length (packet_buffer_ (fst s))) =? PacketBufferSize) || aggressive_flushing_ (fst s) then EmitPackets s else Ok s) in
  Ok (with_buffer (packet_buffer_ (fst s1) ++ [record]) s1).
Fixpoint put_all (records : list TRecord) (s : state) : result state :=
  match records with
  | [] => Ok s
  | r :: rs => let* s1 := put r s in put_all rs s1
  end.

Definition TraceBundleHeader (t : Word) (pc : Z) : list TRecord :=
  match t with
  | W32 => [InstructionBundleHeaderRecord pc 0]
  | W64 => [InstructionBundleHeaderRecord pc 1; DataExtensionRecord InstructionBundleHeader (Z.shiftr pc 32)]
  end.
Definition TraceInstructionHeader (t : Word) (pc isa_mode : Z) : list TRecord :=
  match t with
  | W32 => [InstructionHeaderRecord isa_mode pc 0]
  | W64 => [InstructionHeaderRecord isa_mode pc 1; DataExtensionRecord InstructionHeader (Z.shiftr pc 32)]
  end.
Definition TraceInstructionCode (t : Word) (ir irq_mode : Z) : list TRecord :=
  match t with
  | W32 => [InstructionCodeRecord (u8 irq_mode) ir 0]
  | W64 => [InstructionCodeRecord (u8 irq_mode) ir 1; DataExtensionRecord InstructionCode (Z.shiftr ir 32)]
  end.

Definition Trace_StartBundle (t : Word) (pc : Z) (s : state) : result state :=
  check* negb (is_terminated_ (fst s)) && negb (packet_open_ (fst s)) or AssertFailed in
  put_all (TraceBundleHeader t pc) s.
Definition Trace_Insn (tpc tir : Word) (pc ir isa_mode irq_mode : Z) (s : state) : result state :=
  if 0 <? skip_ (fst s) then Ok (with_skip (skip_ (fst s) - 1) s)
  else
    check* negb (is_terminated_ (fst s)) && negb (packet_open_ (fst s)) or AssertFailed in
    let* s1 := put_all (TraceInstructionHeader tpc pc isa_mode) s in
    let* s2 := put_all (TraceInstructionCode tir ir irq_mode) s1 in
    Ok (with_open true s2).

(** What all other functions do: nothing without an open packet. *)
Definition when_open (f : state -> result state) (s : state) : result state :=
  if negb (packet_open_ (fst s)) then Ok s
  else check* negb (is_terminated_ (fst s)) or AssertFailed in f s.

Definition Trace_End_Insn : state -> result state := when_open (fun s => Ok (with_open false s)).
Definition Trace_Vector_Bank_Reg : state -> result state := when_open Ok.

(** Registers of any size as bytes. *)
Definition getExtensionCount (size : Z) : Z := if size <=? 4 then 0 else size / 4 - 1.
Fixpoint le_value (bytes : list Z) : Z := match bytes with [] => 0 | b :: r => b + 256 * le_value r end.
Definition getDataWord (data : list Z) (total_size word_idx : Z) : result Z :=
  check* word_idx <=? getExtensionCount total_size or AssertFailed in
  let bytes := take (Z.to_nat (Z.min total_size 4)) (drop (Z.to_nat (word_idx * 4)) data) in
  check* Z.of_nat (length bytes) =? Z.min total_size 4 or UndefinedBehaviour in
  Ok (le_value bytes).
Fixpoint put_extensions (type : TraceRecordType) (data : list Z) (size : Z) (words : list Z) (s : state) : result state :=
  match words with
  | [] => Ok s
  | i :: r =>
      let* w := getDataWord data size (i + 1) in
      let* s1 := put (DataExtensionRecord type w) s in
      put_extensions type data size r s1
  end.
Definition extension_indices (size : Z) : list Z := map Z.of_nat (seq 0 (Z.to_nat (getExtensionCount size))).
Definition Trace_Bank_Reg_Read_bytes (bank regnum : Z) (data : list Z) (size : Z) : state -> result state := when_open (fun s =>
  let* w := getDataWord data size 0 in
  let* s1 := put (BankRegReadRecord bank regnum w (getExtensionCount size)) s in
  put_extensions BankRegRead data size (extension_indices size) s1).
Definition Trace_Bank_Reg_Write_bytes (bank regnum : Z) (data : list Z) (size : Z) : state -> result state := when_open (fun s =>
  let* w := getDataWord data size 0 in
  let* s1 := put (BankRegWriteRecord bank regnum w (getExtensionCount size)) s in
  put_extensions BankRegWrite data size (extension_indices size) s1).

Definition Trace_Bank_Reg_Read (t : Word) (bank regnum value : Z) : state -> result state := when_open (put_all
  match t with
  | W32 => [BankRegReadRecord bank regnum value 0]
  | W64 => [BankRegReadRecord bank regnum value 1; DataExtensionRecord BankRegRead (Z.shiftr value 32)]
  end).
Definition Trace_Bank_Reg_Write (t : Word) (bank regnum value : Z) : state -> result state := when_open (put_all
  match t with
  | W32 => [BankRegWriteRecord bank regnum value 0]
  | W64 => [BankRegWriteRecord bank regnum value 1; DataExtensionRecord BankRegWrite (Z.shiftr value 32)]
  end).
Definition Trace_Reg_Read (t : Word) (regnum value : Z) : state -> result state := when_open (put_all
  match t with
  | W32 => [RegReadRecord (u8 regnum) value 0]
  | W64 => [RegReadRecord (u8 regnum) value 1; DataExtensionRecord RegRead (Z.shiftr value 32)]
  end).
Definition Trace_Reg_Write (t : Word) (regnum value : Z) : state -> result state := when_open (put_all
  match t with
  | W32 => [RegWriteRecord (u8 regnum) value 0]
  | W64 => [RegWriteRecord (u8 regnum) value 1; DataExtensionRecord RegWrite (Z.shiftr value 32)]
  end).

Definition TraceMemReadAddr (t : Word) (addr width : Z) : list TRecord :=
  match t with
  | W32 => [MemReadAddrRecord width addr 0]
  | W64 => [MemReadAddrRecord width addr 1; DataExtensionRecord MemReadAddr (Z.shiftr addr 32)]
  end.
Definition TraceMemReadData (t : UInt) (data width : Z) : list TRecord :=
  match t with
  | U8 | U16 | U32 => [MemReadDataRecord width data 0]
  | U64 => [MemReadDataRecord width data 1; DataExtensionRecord MemReadData (Z.shiftr data 32)]
  | U128 => [MemReadDataRecord width data 3; DataExtensionRecord MemReadData (Z.shiftr data 32);
             DataExtensionRecord MemReadData (Z.shiftr data 64); DataExtensionRecord MemReadData (Z.shiftr data 96)]
  end.
Definition Trace_Mem_Read (ta : Word) (td : UInt) (addr value width : Z) : state -> result state := when_open (fun s =>
  let* s1 := put_all (TraceMemReadAddr ta addr width) s in
  put_all (TraceMemReadData td value width) s1).

(** The templates for writes take their first argument for the width of the
    record and their second, a uint32_t, for the address or the data. *)
Definition TraceMemWriteAddr (t : Word) (addr width : Z) : list TRecord :=
  match t with
  | W32 => [MemWriteAddrRecord addr width 0]
  | W64 => [MemWriteAddrRecord addr width 1; DataExtensionRecord MemWriteAddr (Z.shiftr addr 32)]
  end.
Definition TraceMemWriteData (t : WideWord) (data width : Z) : list TRecord :=
  match t with
  | D32 => [MemWriteDataRecord data width 0]
  | D64 => [MemWriteDataRecord data width 1; DataExtensionRecord MemWriteData (Z.shiftr data 32)]
  | D128 => [MemWriteDataRecord data width 3; DataExtensionRecord MemWriteData (Z.shiftr data 32);
             DataExtensionRecord MemWriteData (Z.shiftr data 64); DataExtensionRecord MemWriteData (Z.shiftr data 96)]
  end.
(** Called with the width first, which is a uint32_t: the specialisations for
    wider types are never used. *)
Definition Trace_Mem_Write (addr value width : Z) : state -> result state := when_open (fun s =>
  let* s1 := put_all (TraceMemWriteAddr W32 width (u32 addr)) s in
  put_all (TraceMemWriteData D32 width (u32 value)) s1).

(** ** What a trace says

    A packet has a type, 16 bits of data and one or more words of 32 bits. *)

Record packet := mkAbstract { p_type : TraceRecordType; p_data16 : Z; p_words : list Z }.
Definition records_of (p : packet) : list TRecord :=
  match p_words p with
  | [] => []
  | w :: ws => TraceRecord (p_type p) (p_data16 p) w (Z.of_nat (length ws)) :: map (DataExtensionRecord (p_type p)) ws
  end.
Definition records (ps : list packet) : list TRecord := concat (map records_of ps).

Fixpoint words (n : nat) (v : Z) : list Z :=
  match n with
  | O => []
  | S k => u32 v :: words k (Z.shiftr v 32)
  end.
Definition word_size (t : Word) : nat := match t with W32 => 1 | W64 => 2 end.
Definition uint_size (t : UInt) : nat := match t with U8 | U16 | U32 => 1 | U64 => 2 | U128 => 4 end.
(** The words of a register of up to 4 bytes, or of a multiple of 4 bytes. *)
Fixpoint byte_words (n : nat) (bytes : list Z) : list Z :=
  match n with
  | O => []
  | S k => le_value (take 4 bytes) :: byte_words k (drop 4 bytes)
  end.

(** The events of a thread, and the calls that trace them. *)
Inductive event :=
| EBundle (t : Word) (pc : Z)
| EInsn (tpc tir : Word) (pc ir isa_mode irq_mode : Z)
| EEnd
| EVector
| EBankBytes (write : bool) (bank regnum : Z) (data : list Z)
| EBank (write : bool) (t : Word) (bank regnum value : Z)
| EReg (write : bool) (t : Word) (regnum value : Z)
| EMemRead (ta : Word) (td : UInt) (addr value width : Z)
| EMemWrite (addr value width : Z).

Definition exec (e : event) (s : state) : result state :=
  match e with
  | EBundle t pc => Trace_StartBundle t pc s
  | EInsn tpc tir pc ir isa irq => Trace_Insn tpc tir pc ir isa irq s
  | EEnd => Trace_End_Insn s
  | EVector => Trace_Vector_Bank_Reg s
  | EBankBytes false bank reg data => Trace_Bank_Reg_Read_bytes bank reg data (Z.of_nat (length data)) s
  | EBankBytes true bank reg data => Trace_Bank_Reg_Write_bytes bank reg data (Z.of_nat (length data)) s
  | EBank false t bank reg v => Trace_Bank_Reg_Read t bank reg v s
  | EBank true t bank reg v => Trace_Bank_Reg_Write t bank reg v s
  | EReg false t reg v => Trace_Reg_Read t reg v s
  | EReg true t reg v => Trace_Reg_Write t reg v s
  | EMemRead ta td addr v width => Trace_Mem_Read ta td addr v width s
  | EMemWrite addr v width => Trace_Mem_Write addr v width s
  end.
Fixpoint exec_all (es : list event) (s : state) : result state :=
  match es with
  | [] => Ok s
  | e :: r => let* s1 := exec e s in exec_all r s1
  end.

Definition bank_data16 (bank regnum : Z) : Z := Z.lor (Z.shiftl (u8 bank) 8) (u8 regnum).
Definition register_words (data : list Z) : list Z :=
  if Z.of_nat (length data) <=? 4 then byte_words 1 data else byte_words (length data / 4) data.

(** The packets of an event within an instruction. *)
Definition inner_packets (e : event) : list packet :=
  match e with
  | EBankBytes w bank reg data => [mkAbstract (if w then BankRegWrite else BankRegRead) (bank_data16 bank reg) (register_words data)]
  | EBank w t bank reg v => [mkAbstract (if w then BankRegWrite else BankRegRead) (bank_data16 bank reg) (words (word_size t) v)]
  | EReg w t reg v => [mkAbstract (if w then RegWrite else RegRead) (u8 reg) (words (word_size t) v)]
  | EMemRead ta td addr v width =>
      [mkAbstract MemReadAddr (u8 width) (words (word_size ta) addr); mkAbstract MemReadData (u8 width) (words (uint_size td) v)]
  | EMemWrite addr v width => [mkAbstract MemWriteAddr (u8 width) [u32 addr]; mkAbstract MemWriteData (u8 width) [u32 v]]
  | _ => []
  end.

(** The protocol: instructions are not nested, and events outside of
    instructions, or within instructions that are skipped, leave no trace. *)
Definition spec_step (e : event) (open : bool) (skip : Z) : option (bool * Z * list packet) :=
  match e with
  | EBundle t pc => if open then None else Some (open, skip, [mkAbstract InstructionBundleHeader 0 (words (word_size t) pc)])
  | EInsn tpc tir pc ir isa irq =>
      if 0 <? skip then Some (open, skip - 1, [])
      else if open then None
      else Some (true, skip, [mkAbstract InstructionHeader (u8 isa) (words (word_size tpc) pc);
                              mkAbstract InstructionCode (u8 irq) (words (word_size tir) ir)])
  | EEnd => Some (false, skip, [])
  | _ => Some (open, skip, if open then inner_packets e else [])
  end.
Fixpoint spec_run (es : list event) (open : bool) (skip : Z) : option (bool * Z * list packet) :=
  match es with
  | [] => Some (open, skip, [])
  | e :: r =>
      match spec_step e open skip with
      | None => None
      | Some (o1, k1, ps) =>
          match spec_run r o1 k1 with
          | None => None
          | Some (o2, k2, qs) => Some (o2, k2, ps ++ qs)
          end
      end
  end.

(** ** The source refines the protocol *)

(** A source that is connected to a file. *)
Record connected (s : state) (id : nat) (file : list TRecord) : Prop := {
  connected_id : id_ (fst s) = Some (Z.of_nat id);
  connected_file : snd s !! id = Some file;
  connected_buffer : Z.of_nat (length (packet_buffer_ (fst s))) <= PacketBufferSize
}.

(** [s'] is [s] after these records have been traced. *)
Definition traced (s s' : state) (id : nat) (rs : list TRecord) : Prop :=
  is_terminated_ (fst s') = is_terminated_ (fst s) /\ packet_open_ (fst s') = packet_open_ (fst s) /\ skip_ (fst s') = skip_ (fst s) /\
  (forall j, j <> id -> snd s' !! j = snd s !! j) /\
  forall file, connected s id file ->
  exists file', connected s' id file' /\ file' ++ packet_buffer_ (fst s') = file ++ packet_buffer_ (fst s) ++ rs.

Lemma traced_refl s id : traced s s id [].
Proof. repeat (split; [reflexivity |]). intros file H. exists file. rewrite app_nil_r. auto. Qed.
Lemma traced_trans s1 s2 s3 id rs rs' : traced s1 s2 id rs -> traced s2 s3 id rs' -> traced s1 s3 id (rs ++ rs').
Proof.
  intros (A1 & A2 & A3 & A4 & A5) (B1 & B2 & B3 & B4 & B5). repeat (split; [congruence |]). split; [intros j Hj; rewrite B4, A4 by assumption; reflexivity |].
  intros file H. destruct (A5 file H) as (f & Hf & E). destruct (B5 f Hf) as (f' & Hf' & E'). exists f'. split; [exact Hf' |].
  rewrite E', (app_assoc f), E, <- !app_assoc. reflexivity.
Qed.

Lemma emit_ok s id file : connected s id file ->
  exists s', EmitPackets s = Ok s' /\ traced s s' id [] /\ packet_buffer_ (fst s') = [] /\ connected s' id (file ++ packet_buffer_ (fst s)).
Proof.
  destruct s as [src k]. intros [Hid Hf Hb]. cbn [fst snd] in *. unfold EmitPackets. rewrite Hid. cbn [of_option rbind].
  unfold SinkPackets. rewrite (proj2 (at_Ok k (Z.of_nat id) file)) by (rewrite Nat2Z.id; split; [lia | exact Hf]). cbn [rbind].
  eexists. split; [reflexivity |]. unfold set_at. rewrite Nat2Z.id.
  assert (Hc : connected (with_buffer [] (src, <[id:=file ++ packet_buffer_ src]> k)) id (file ++ packet_buffer_ src)).
  { constructor; cbn; [exact Hid | apply list_lookup_insert_eq, (lookup_lt_Some _ _ _ Hf) | lia]. }
  split; [| split; [reflexivity | exact Hc]]. repeat (split; [reflexivity |]). split.
  - intros j Hj. cbn. apply list_lookup_insert_ne. congruence.
  - intros file' [Hid' Hf' Hb']. cbn in Hf'. assert (file' = file) as -> by congruence. eexists. split; [exact Hc |].
    cbn. rewrite !app_nil_r. reflexivity.
Qed.

Lemma put_ok r s id file : connected s id file -> exists s', put r s = Ok s' /\ traced s s' id [r].
Proof.
  intros Hc. unfold put.
  assert (Hadd : forall s1, Z.of_nat (length (packet_buffer_ (fst s1))) < PacketBufferSize ->
    traced s1 (with_buffer (packet_buffer_ (fst s1) ++ [r]) s1) id [r]).
  { intros [src k] Hl. repeat (split; [reflexivity |]). intros f [H1 H2 H3]. exists f. cbn in *. split; [| reflexivity].
    constructor; cbn; try assumption. rewrite length_app. cbn. lia. }
  destruct (_ || _) eqn:E.
  - destruct (emit_ok s id file Hc) as (s1 & -> & Ht & Hb & _). cbn [rbind]. eexists. split; [reflexivity |].
    apply (traced_trans s s1 _ id []); [exact Ht |]. apply Hadd. rewrite Hb. reflexivity.
  - cbn [rbind]. eexists. split; [reflexivity |]. apply Hadd. destruct Hc. apply orb_false_iff in E as [E _]. lia.
Qed.

Lemma put_all_ok rs : forall s id file, connected s id file -> exists s', put_all rs s = Ok s' /\ traced s s' id rs.
Proof.
  induction rs as [| r rs IH]; intros s id file Hc; [exists s; split; [reflexivity | apply traced_refl] |]. cbn [put_all].
  destruct (put_ok r s id file Hc) as (s1 & -> & H1). cbn [rbind]. pose proof H1 as (_ & _ & _ & _ & H5).
  destruct (H5 file Hc) as (f1 & Hc1 & _). destruct (IH s1 id f1 Hc1) as (s2 & -> & H2). exists s2. split; [reflexivity |].
  apply (traced_trans s s1 s2 id [r] rs H1 H2).
Qed.

(** The records of the calls are those of the packets. *)
Lemma word_records (mk : Z -> Z -> TRecord) type data16 t v : (forall x n, mk x n = TraceRecord type data16 x n) ->
  match t with
  | W32 => [mk v 0]
  | W64 => [mk v 1; DataExtensionRecord type (Z.shiftr v 32)]
  end = records_of (mkAbstract type data16 (words (word_size t) v)).
Proof.
  intros Hmk. destruct t; cbn [word_size words records_of p_words p_type p_data16 length map]; rewrite Hmk;
    unfold DataExtensionRecord, TraceRecord, u32; rewrite !wrap_wrap by lia; reflexivity.
Qed.

Lemma uint_records t v width :
  TraceMemReadData t v width = records_of (mkAbstract MemReadData (u8 width) (words (uint_size t) v)).
Proof.
  destruct t; cbn [TraceMemReadData uint_size words records_of p_words p_type p_data16 length map]; rewrite ?Z.shiftr_shiftr by lia;
    unfold MemReadDataRecord, DataExtensionRecord, TraceRecord, u32; rewrite !wrap_wrap by lia; reflexivity.
Qed.

(** Bytes. *)
Lemma byte_words_lookup n : forall data i, (i < n)%nat -> byte_words n data !! i = Some (le_value (take 4 (drop (4 * i) data))).
Proof.
  induction n as [| k IH]; intros data i Hi; [lia |]. cbn [byte_words]. destruct i as [| i]; [reflexivity |]. cbn [lookup list_lookup].
  rewrite IH by lia. do 3 f_equal. rewrite drop_drop. f_equal. lia.
Qed.
Lemma length_byte_words n : forall data, length (byte_words n data) = n.
Proof. induction n as [| k IH]; intros data; [reflexivity |]. cbn. f_equal. apply IH. Qed.

Lemma register_words_count data : Z.of_nat (length (register_words data)) = getExtensionCount (Z.of_nat (length data)) + 1.
Proof.
  unfold register_words, getExtensionCount. destruct (_ <=? 4) eqn:E; rewrite length_byte_words; [reflexivity |]. rewrite Nat2Z.inj_div. lia.
Qed.

Lemma getDataWord_ok data i : (i < length (register_words data))%nat ->
  exists w, register_words data !! i = Some w /\ getDataWord data (Z.of_nat (length data)) (Z.of_nat i) = Ok w.
Proof.
  intros Hi. pose proof (register_words_count data) as Hc. unfold getDataWord.
  destruct (Z.leb_spec (Z.of_nat i) (getExtensionCount (Z.of_nat (length data)))); [| lia].
  unfold register_words in *. unfold getExtensionCount in *. destruct (Z.leb_spec (Z.of_nat (length data)) 4) as [H4 | H4].
  - assert (i = 0)%nat as -> by (rewrite length_byte_words in Hi; lia). rewrite byte_words_lookup by lia. eexists. split; [reflexivity |].
    change (Z.to_nat (Z.of_nat 0 * 4)) with 0%nat. cbn [Nat.mul]. rewrite !drop_0. rewrite !take_ge by lia.
    rewrite Z.min_l by lia. rewrite Z.eqb_refl. reflexivity.
  - rewrite length_byte_words in Hi. rewrite byte_words_lookup by exact Hi. eexists. split; [reflexivity |]. rewrite Z.min_r by lia.
    replace (Z.to_nat (Z.of_nat i * 4)) with (4 * i)%nat by lia. change (Z.to_nat 4) with 4%nat. rewrite length_take, length_drop.
    assert (4 * (length data / 4) <= length data)%nat by (apply Nat.Div0.mul_div_le).
    assert (4 * i + 4 <= length data)%nat by lia. rewrite Nat.min_l by lia. reflexivity.
Qed.

Lemma put_extensions_ok type data : forall n k s, (k + 1 + n = length (register_words data))%nat ->
  put_extensions type data (Z.of_nat (length data)) (map Z.of_nat (seq k n)) s =
  put_all (map (DataExtensionRecord type) (drop (k + 1) (register_words data))) s.
Proof.
  induction n as [| n IH]; intros k s Hn; cbn [seq map put_extensions].
  - rewrite drop_ge by lia. reflexivity.
  - destruct (getDataWord_ok data (k + 1)) as (w & Hw & E); [lia |]. replace (Z.of_nat k + 1) with (Z.of_nat (k + 1)) by lia. rewrite E.
    cbn [rbind]. rewrite (drop_S _ w (k + 1) Hw). cbn [map put_all]. destruct (put _ s) as [s1 | e]; [| reflexivity]. cbn [rbind].
    rewrite IH by lia. reflexivity.
Qed.

Lemma bank_bytes_records type (mk : Z -> Z -> TRecord) data16 data s : (forall x n, mk x n = TraceRecord type data16 x n) ->
  (let* w := getDataWord data (Z.of_nat (length data)) 0 in
   let* s1 := put (mk w (getExtensionCount (Z.of_nat (length data)))) s in
   put_extensions type data (Z.of_nat (length data)) (extension_indices (Z.of_nat (length data))) s1)
  = put_all (records_of (mkAbstract type data16 (register_words data))) s.
Proof.
  intros Hmk. pose proof (register_words_count data) as Hc. unfold records_of. cbn [p_words p_type p_data16].
  assert (0 <= getExtensionCount (Z.of_nat (length data))).
  { unfold getExtensionCount. destruct (Z.leb_spec (Z.of_nat (length data)) 4); [lia |].
    assert (1 <= Z.of_nat (length data) / 4) by (apply Z.div_le_lower_bound; lia). lia. }
  destruct (getDataWord_ok data 0) as (w & Hw & E); [lia |]. change (Z.of_nat 0) with 0 in E. rewrite E. cbn [rbind].
  unfold extension_indices. set (n := Z.to_nat (getExtensionCount (Z.of_nat (length data)))).
  destruct (register_words data) as [| w' ws] eqn:Ew; [discriminate Hw |]. injection Hw as ->. cbn [length] in Hc.
  rewrite Hmk. replace (Z.of_nat (length ws)) with (getExtensionCount (Z.of_nat (length data))) by lia. cbn [put_all].
  destruct (put _ s) as [s1 | e]; [| reflexivity]. cbn [rbind]. rewrite put_extensions_ok by (rewrite Ew; cbn; unfold n; lia).
  rewrite Ew. reflexivity.
Qed.

Lemma records_app ps qs : records (ps ++ qs) = records ps ++ records qs.
Proof. unfold records. rewrite map_app, concat_app. reflexivity. Qed.
Lemma put_all_app rs : forall rs' s, put_all (rs ++ rs') s = (let* s1 := put_all rs s in put_all rs' s1).
Proof. induction rs as [| r rs IH]; intros rs' s; [reflexivity |]. cbn [app put_all]. destruct (put r s); [apply IH | reflexivity]. Qed.

(** Within an instruction every event traces its packets. *)
Lemma inner_exec e s : packet_open_ (fst s) = true -> is_terminated_ (fst s) = false ->
  match e with EBundle _ _ | EInsn _ _ _ _ _ _ | EEnd => True | _ => exec e s = put_all (records (inner_packets e)) s end.
Proof.
  intros Ho Ht. assert (Hw : forall f, when_open f s = f s) by (intros f; unfold when_open; rewrite Ho, Ht; reflexivity).
  destruct e as [| | | | w bank reg data | w t bank reg v | w t reg v | ta td addr v width | addr v width]; try exact I;
    unfold records; cbn [inner_packets map concat]; rewrite ?app_nil_r.
  - cbn [exec]. unfold Trace_Vector_Bank_Reg. apply Hw.
  - destruct w; cbn [exec]; unfold Trace_Bank_Reg_Read_bytes, Trace_Bank_Reg_Write_bytes; rewrite Hw.
    + exact (bank_bytes_records BankRegWrite (BankRegWriteRecord bank reg) _ data s (fun x n => eq_refl)).
    + exact (bank_bytes_records BankRegRead (BankRegReadRecord bank reg) _ data s (fun x n => eq_refl)).
  - destruct w; cbn [exec]; unfold Trace_Bank_Reg_Read, Trace_Bank_Reg_Write; rewrite Hw; f_equal.
    + exact (word_records (BankRegWriteRecord bank reg) _ _ t v (fun x n => eq_refl)).
    + exact (word_records (BankRegReadRecord bank reg) _ _ t v (fun x n => eq_refl)).
  - destruct w; cbn [exec]; unfold Trace_Reg_Read, Trace_Reg_Write; rewrite Hw; f_equal.
    + exact (word_records (RegWriteRecord (u8 reg)) _ _ t v (fun x n => eq_refl)).
    + exact (word_records (RegReadRecord (u8 reg)) _ _ t v (fun x n => eq_refl)).
  - cbn [exec]. unfold Trace_Mem_Read. rewrite Hw, put_all_app, <- uint_records.
    rewrite <- (word_records (fun x n => MemReadAddrRecord width x n) MemReadAddr (u8 width) ta addr) by reflexivity. reflexivity.
  - cbn [exec]. unfold Trace_Mem_Write. rewrite Hw, put_all_app. cbn [TraceMemWriteAddr TraceMemWriteData records_of p_words p_type p_data16 length map].
    unfold MemWriteAddrRecord, MemWriteDataRecord. reflexivity.
Qed.

(** Sources that follow the protocol. *)
Record tracing (s : state) (id : nat) (file : list TRecord) (open : bool) (skip : Z) : Prop := {
  tracing_connected : connected s id file;
  tracing_alive : is_terminated_ (fst s) = false;
  tracing_open : packet_open_ (fst s) = open;
  tracing_skip : skip_ (fst s) = skip
}.
Definition recorded (file : list TRecord) (s : state) : list TRecord := file ++ packet_buffer_ (fst s).

Lemma put_packets s id file open skip ps : tracing s id file open skip ->
  exists s' file', put_all (records ps) s = Ok s' /\ tracing s' id file' open skip /\
    recorded file' s' = recorded file s ++ records ps /\ (forall j, j <> id -> snd s' !! j = snd s !! j).
Proof.
  intros [Hc Ht Ho Hs]. destruct (put_all_ok (records ps) s id file Hc) as (s' & E & A1 & A2 & A3 & A4 & A5).
  destruct (A5 file Hc) as (file' & Hc' & E'). exists s', file'. split; [exact E |]. split; [constructor; congruence || assumption |].
  split; [| exact A4]. unfold recorded. rewrite E', app_assoc. reflexivity.
Qed.

Lemma with_open_tracing b s id file open skip : tracing s id file open skip -> tracing (with_open b s) id file b skip.
Proof. destruct s as [src k]. intros [[H1 H2 H3] Ht Ho Hs]. constructor; [constructor |..]; cbn in *; congruence || assumption. Qed.
Lemma with_skip_tracing n s id file open skip : tracing s id file open skip -> tracing (with_skip n s) id file open n.
Proof. destruct s as [src k]. intros [[H1 H2 H3] Ht Ho Hs]. constructor; [constructor |..]; cbn in *; congruence || assumption. Qed.

(** Every event that the protocol allows adds its packets to the trace, and
    leaves the traces of other sources alone. *)
Lemma exec_ok e s id file open skip open' skip' ps : tracing s id file open skip -> spec_step e open skip = Some (open', skip', ps) ->
  exists s' file', exec e s = Ok s' /\ tracing s' id file' open' skip' /\
    recorded file' s' = recorded file s ++ records ps /\ (forall j, j <> id -> snd s' !! j = snd s !! j).
Proof.
  intros Ht Hsp. pose proof Ht as [Hc Hal Hop Hsk].
  assert (Hid : ps = [] -> exists s' file', Ok s = Ok s' /\ tracing s' id file' open skip /\
    recorded file' s' = recorded file s ++ records ps /\ (forall j, j <> id -> snd s' !! j = snd s !! j)).
  { intros ->. exists s, file. split; [reflexivity |]. split; [exact Ht |]. split; [symmetry; apply app_nil_r | reflexivity]. }
  assert (Hinner : spec_step e open skip = Some (open, skip, if open then inner_packets e else []) ->
    (open = false -> exec e s = Ok s) -> (open = true -> exec e s = put_all (records (inner_packets e)) s) ->
    exists s' file', exec e s = Ok s' /\ tracing s' id file' open' skip' /\
    recorded file' s' = recorded file s ++ records ps /\ (forall j, j <> id -> snd s' !! j = snd s !! j)).
  { intros E H0 H1. rewrite E in Hsp. injection Hsp as <- <- <-. destruct open; [rewrite H1 by reflexivity; apply put_packets, Ht |].
    rewrite H0 by reflexivity. apply Hid. reflexivity. }
  assert (Hclosed : forall f, open = false -> when_open f s = Ok s) by (intros f ->; unfold when_open; rewrite Hop; reflexivity).
  pose proof (fun Ho => inner_exec e s Ho Hal) as Hin.
  destruct e as [t pc | tpc tir pc ir isa irq | | | w bank reg data | w t bank reg v | w t reg v | ta td addr v width | addr v width];
    try (apply Hinner; [reflexivity | intros Ho; try destruct w; apply Hclosed, Ho | intros Ho; apply Hin; congruence]); clear Hinner Hin.
  - cbn [spec_step] in Hsp. destruct open; [discriminate |]. injection Hsp as <- <- <-. cbn [exec]. unfold Trace_StartBundle.
    rewrite Hal, Hop. cbn [negb andb]. replace (TraceBundleHeader t pc) with (records [mkAbstract InstructionBundleHeader 0 (words (word_size t) pc)]).
    + apply put_packets, Ht.
    + unfold records. cbn [map concat]. rewrite app_nil_r. symmetry. apply (word_records (fun x n => InstructionBundleHeaderRecord x n)). reflexivity.
  - cbn [spec_step exec] in *. unfold Trace_Insn. rewrite Hsk. destruct (0 <? skip).
    + injection Hsp as <- <- <-. exists (with_skip (skip - 1) s), file. split; [reflexivity |]. split; [eapply with_skip_tracing, Ht |].
      destruct s. split; [symmetry; apply app_nil_r | reflexivity].
    + destruct open; [discriminate |]. injection Hsp as <- <- <-. rewrite Hal, Hop. cbn [negb andb].
      destruct (put_packets s id file false skip [mkAbstract InstructionHeader (u8 isa) (words (word_size tpc) pc)] Ht) as (s1 & f1 & E1 & T1 & R1 & O1).
      destruct (put_packets s1 id f1 false skip [mkAbstract InstructionCode (u8 irq) (words (word_size tir) ir)] T1) as (s2 & f2 & E2 & T2 & R2 & O2).
      unfold records in E1, E2. cbn [map concat] in E1, E2. rewrite app_nil_r in E1, E2.
      rewrite <- (word_records (fun x n => InstructionHeaderRecord isa x n)) in E1 by reflexivity.
      rewrite <- (word_records (fun x n => InstructionCodeRecord (u8 irq) x n)) in E2 by reflexivity.
      unfold TraceInstructionHeader, TraceInstructionCode. rewrite E1. cbn [rbind]. rewrite E2. cbn [rbind].
      exists (with_open true s2), f2. split; [reflexivity |]. split; [eapply with_open_tracing, T2 |]. destruct s2 as [src2 k2]. cbn in *. split.
      * unfold recorded in *. cbn in *. rewrite R2, R1, <- app_assoc, !app_nil_r. reflexivity.
      * intros j Hj. rewrite O2, O1 by exact Hj. reflexivity.
  - cbn [spec_step exec] in *. injection Hsp as <- <- <-. unfold Trace_End_Insn, when_open. rewrite Hop, Hal. destruct open; cbn [negb].
    + exists (with_open false s), file. split; [reflexivity |]. split; [eapply with_open_tracing, Ht |].
      destruct s. split; [symmetry; apply app_nil_r | reflexivity].
    + apply Hid. reflexivity.
Qed.

Lemma exec_all_ok es : forall s id file open skip open' skip' ps, tracing s id file open skip ->
  spec_run es open skip = Some (open', skip', ps) ->
  exists s' file', exec_all es s = Ok s' /\ tracing s' id file' open' skip' /\
    recorded file' s' = recorded file s ++ records ps /\ (forall j, j <> id -> snd s' !! j = snd s !! j).
Proof.
  induction es as [| e r IH]; intros s id file open skip open' skip' ps Ht Hsp; cbn [spec_run exec_all] in *.
  - injection Hsp as <- <- <-. exists s, file. split; [reflexivity |]. split; [exact Ht |]. split; [symmetry; apply app_nil_r | reflexivity].
  - destruct (spec_step e open skip) as [[[o1 k1] ps1] |] eqn:E1; [| discriminate].
    destruct (spec_run r o1 k1) as [[[o2 k2] ps2] |] eqn:E2; [| discriminate]. injection Hsp as <- <- <-.
    destruct (exec_ok e s id file open skip o1 k1 ps1 Ht E1) as (s1 & f1 & -> & T1 & R1 & O1). cbn [rbind].
    destruct (IH s1 id f1 o1 k1 o2 k2 ps2 T1 E2) as (s2 & f2 & -> & T2 & R2 & O2). exists s2, f2. split; [reflexivity |]. split; [exact T2 |].
    split; [rewrite R2, R1, records_app, <- app_assoc; reflexivity | intros j Hj; rewrite O2, O1 by exact Hj; reflexivity].
Qed.

Lemma flush_ok s id file open skip : tracing s id file open skip ->
  exists s', Flush s = Ok s' /\ tracing s' id (recorded file s) open skip /\ packet_buffer_ (fst s') = [] /\
    (forall j, j <> id -> snd s' !! j = snd s !! j).
Proof.
  intros [Hc Ht Ho Hs]. destruct (emit_ok s id file Hc) as (s' & E & (A1 & A2 & A3 & A4 & _) & Hb & Hc'). exists s'. split; [exact E |].
  split; [constructor; congruence || exact Hc' |]. auto.
Qed.

(** A new source with a sink of its own file. *)
Lemma new_source_tracing k : tracing (SetSink (new_source, k)) (length k) [] false 0.
Proof.
  constructor; [constructor |..]; cbn; try reflexivity; [| unfold PacketBufferSize; lia].
  apply list_lookup_middle. reflexivity.
Qed.
