(* ===== verification/TraceStream.v ===== *)
(** * Reading traces (support/libtrace)

    [RecordFile] reads a file of records page by page; [RecordBufferStreamAdaptor]
    makes a stream of it and [TracePacketStreamAdaptor] a stream of packets.
    What a source traced is what is read back.  [RecordFileInputStream] and
    [RecordStream], which other tools use, do not stop where the file does. *)

From Stdlib Require Import ZArith Lia List Bool.
From stdpp Require Import base numbers list.
From S2P Require Import Prelude TraceRecords TraceSource.
Import ListNotations.
#[local] Open Scope Z_scope.
#[local] Open Scope gensim_scope.

(** ** RecordFile *)

Definition kBufferBits : Z := 17.
Definition kBufferCount : Z := 2 ^ kBufferBits.
(** The contents of the file, and the page in the buffer; what [malloc] returns
    is [garbage]. *)
Record RecordFile := mkRecordFile {
  rf_file : list TRecord;
  rf_count : Z;
  rf_buffer : option (list TRecord);
  rf_buffer_page : Z
}.
Definition BufferPage (idx : Z) : Z := Z.shiftr idx kBufferBits.
Definition BufferOffset (idx : Z) : Z := idx mod kBufferCount.
(** The bytes that [fread] finds replace the start of the buffer. *)
Definition loadBuffer (garbage : list TRecord) (idx : Z) (rf : RecordFile) : RecordFile :=
  let buffer := match rf_buffer rf with Some b => b | None => garbage end in
  let page := BufferPage idx in
  let found := take (Z.to_nat kBufferCount) (drop (Z.to_nat (page * kBufferCount)) (rf_file rf)) in
  mkRecordFile (rf_file rf) (rf_count rf) (Some (found ++ drop (length found) buffer)) page.
Definition RecordFile_Get (garbage : list TRecord) (i : Z) (rf : RecordFile) : result (option TRecord * RecordFile) :=
  if rf_count rf <=? i then Ok (None, rf)
  else
    let rf1 := match rf_buffer rf with
               | Some _ => if rf_buffer_page rf =? BufferPage i then rf else loadBuffer garbage i rf
               | None => loadBuffer garbage i rf
               end in
    let* r := of_option UndefinedBehaviour (default [] (rf_buffer rf1) !! Z.to_nat (BufferOffset i)) in
    Ok (Some r, rf1).

(** ** Streams of records and packets *)

Record RecordBufferStreamAdaptor := mkBufferStream { bs_file : RecordFile; index_ : Z }.
Section Streams.
Context (garbage : list TRecord).
Definition stream_Get (s : RecordBufferStreamAdaptor) : result (TRecord * RecordBufferStreamAdaptor) :=
  let* got := RecordFile_Get garbage (index_ s) (bs_file s) in
  let* r := of_option AssertFailed (fst got) in
  Ok (r, mkBufferStream (snd got) (index_ s + 1)).
Definition stream_Peek (s : RecordBufferStreamAdaptor) : result (TRecord * RecordBufferStreamAdaptor) :=
  let* got := RecordFile_Get garbage (index_ s) (bs_file s) in
  let* r := of_option AssertFailed (fst got) in
  Ok (r, mkBufferStream (snd got) (index_ s)).
Definition stream_Skip (i : Z) (s : RecordBufferStreamAdaptor) : RecordBufferStreamAdaptor := mkBufferStream (bs_file s) (index_ s + i).
Definition stream_Good (s : RecordBufferStreamAdaptor) : bool := index_ s <? rf_count (bs_file s).

Record TracePacketStreamAdaptor := mkPacketStream {
  packet_ready_ : bool;
  packet_ : TraceRecordPacket;
  input_stream_ : RecordBufferStreamAdaptor
}.
Fixpoint read_extensions (n : nat) (s : RecordBufferStreamAdaptor) : result (option (list TRecord) * RecordBufferStreamAdaptor) :=
  match n with
  | O => Ok (Some [], s)
  | S k =>
      if negb (stream_Good s) then Ok (None, s)
      else
        let* got := stream_Get s in
        let* rest := read_extensions k (snd got) in
        Ok (option_map (cons (fst got)) (fst rest), snd rest)
  end.
Definition PreparePacket (p : TracePacketStreamAdaptor) : result TracePacketStreamAdaptor :=
  if negb (stream_Good (input_stream_ p)) then Ok p
  else
    let* got := stream_Get (input_stream_ p) in
    let packet_head := fst got in
    check* negb (GetRecordType packet_head =? type_code DataExtension) or AssertFailed in
    let* exts := read_extensions (Z.to_nat (GetExtensionCount packet_head)) (snd got) in
    match fst exts with
    | None => Ok (mkPacketStream (packet_ready_ p) (packet_ p) (snd exts))
    | Some l =>
        let* packet := Assign packet_head l in
        Ok (mkPacketStream true packet (snd exts))
    end.
Definition packet_Peek (p : TracePacketStreamAdaptor) : result (TraceRecordPacket * TracePacketStreamAdaptor) :=
  let* p1 := (if packet_ready_ p then Ok p else PreparePacket p) in
  Ok (packet_ p1, p1).

End Streams.

(** ** RecordFileInputStream

    An [ifstream] has the rest of the file and the flag that [good] returns: it
    is cleared when [read] finds less than was asked for. *)
Record ifstream := mkIfstream { if_rest : list TRecord; if_good : bool }.
Definition if_read (n : Z) (f : ifstream) : list TRecord * ifstream :=
  if negb (if_good f) then ([], f)
  else (take (Z.to_nat n) (if_rest f), mkIfstream (drop (Z.to_nat n) (if_rest f)) (n <=? Z.of_nat (length (if_rest f)))).
Record RecordFileInputStream := mkFileStream {
  is_ready_record_ : bool;
  ready_record_ : TRecord;
  stream_ : ifstream;
  record_buffer_ : list TRecord;
  record_buffer_pointer_ : Z
}.
Definition file_stream (file : list TRecord) : RecordFileInputStream := mkFileStream false (mkRecord 0 0) (mkIfstream file true) [] 0.
Definition makeReadyRecord (f : RecordFileInputStream) : result RecordFileInputStream :=
  let f1 :=
    (if record_buffer_pointer_ f =? Z.of_nat (length (record_buffer_ f)) then
       let '(found, s) := if_read (1024 * 1024) (stream_ f) in
       mkFileStream (is_ready_record_ f) (ready_record_ f) s found 0
     else f) in
  let* r := vec_get (record_buffer_ f1) (record_buffer_pointer_ f1) in
  Ok (mkFileStream (if if_good (stream_ f1) then true else is_ready_record_ f1) r (stream_ f1) (record_buffer_ f1) (u32 (record_buffer_pointer_ f1 + 1))).
Definition file_Get (f : RecordFileInputStream) : result (TRecord * RecordFileInputStream) :=
  let* f1 := (if is_ready_record_ f then Ok f else makeReadyRecord f) in
  Ok (ready_record_ f1, mkFileStream false (ready_record_ f1) (stream_ f1) (record_buffer_ f1) (record_buffer_pointer_ f1)).
Definition file_Peek (f : RecordFileInputStream) : result (TRecord * RecordFileInputStream) :=
  let* f1 := (if is_ready_record_ f then Ok f else makeReadyRecord f) in
  Ok (ready_record_ f1, f1).
Definition if_ignore (n : Z) (f : ifstream) : ifstream :=
  if negb (if_good f) then f
  else mkIfstream (drop (Z.to_nat n) (if_rest f)) (n <=? Z.of_nat (length (if_rest f))).
Definition file_Skip (i : Z) (f : RecordFileInputStream) : RecordFileInputStream :=
  mkFileStream false (ready_record_ f) (if_ignore i (stream_ f)) (record_buffer_ f) (record_buffer_pointer_ f).
Definition file_Good (f : RecordFileInputStream) : bool := if_good (stream_ f).

(** ** RecordStream

    [kBufferEntries] records at a time; the end of the file is seen when the
    buffer is filled again. *)
Record RecordStream := mkRecordStream { rs_rest : list TRecord; rs_eof : bool; rs_buffer : list TRecord; rs_pos : Z; rs_good : bool }.
Definition kBufferEntries : Z := 1024.
Definition record_stream (file : list TRecord) : RecordStream :=
  mkRecordStream file false (replicate (Z.to_nat kBufferEntries) (mkRecord 0 0)) kBufferEntries true.
Definition refill_buffer (s : RecordStream) : RecordStream :=
  if rs_eof s then mkRecordStream (rs_rest s) true (rs_buffer s) 0 false
  else
    let found := take (Z.to_nat kBufferEntries) (rs_rest s) in
    mkRecordStream (drop (Z.to_nat kBufferEntries) (rs_rest s)) (Z.of_nat (length (rs_rest s)) <? kBufferEntries)
      (found ++ drop (length found) (rs_buffer s)) 0 true.
Definition rs_next (s : RecordStream) : result (TRecord * RecordStream) :=
  let s1 := if rs_pos s =? kBufferEntries then refill_buffer s else s in
  let* r := vec_get (rs_buffer s1) (rs_pos s1) in
  Ok (r, mkRecordStream (rs_rest s1) (rs_eof s1) (rs_buffer s1) (rs_pos s1 + 1) (rs_good s1)).
(** The loop of RecordTail that copies the rest of a trace. *)
Fixpoint copy_rest (fuel : nat) (s : RecordStream) : result (list TRecord) :=
  match fuel with
  | O => Err OutOfFuel
  | S k =>
      if negb (rs_good s) then Ok []
      else
        let* got := rs_next s in
        let* rest := copy_rest k (snd got) in
        Ok (fst got :: rest)
  end.

(** ** A record file returns the records of the file *)

Section Reading.
Context (garbage : list TRecord).






(** ** Packets are read as they were traced *)




(** A packet that can be read: the type has a meaning, the data fits, and the
    extensions fit in a TraceRecordPacket. *)
Record readable (p : packet) : Prop := {
  readable_type : p_type p <> DataExtension;
  readable_data16 : in_range 16 (p_data16 p);
  readable_count : 1 <= Z.of_nat (length (p_words p)) <= 1 + kExtensionCount;
  readable_words : Forall (in_range 32) (p_words p)
}.


Lemma records_nonempty p : readable p -> records_of p <> [].
Proof. intros [_ _ Hc _]. unfold records_of. destruct (p_words p); [cbn in Hc; lia | discriminate]. Qed.

End Reading.

(** ** From events to what is read *)











(** ** What a source is told

    A caller tells items: a type, what the 16 bits of data mean (an isa mode, a
    register, a bank and a register, the width of an access), and a whole value,
    of any size.  Nothing of this speaks of words, records or packets. *)











(** ** What is lost, and what is read too much *)

(** Memory writes are traced without the upper half of their address and data. *)
Lemma mem_write_truncated addr value width s : Trace_Mem_Write addr value width s = Trace_Mem_Write (u32 addr) (u32 value) width s.
Proof. unfold Trace_Mem_Write, u32. rewrite !wrap_wrap by lia. reflexivity. Qed.
Example mem_writes_confused s : Trace_Mem_Write 0x100000020 1 4 s = Trace_Mem_Write 0x20 0x300000001 4 s.
Proof. rewrite mem_write_truncated, (mem_write_truncated 0x20). reflexivity. Qed.

(** A register of 6 bytes is traced as its first 4. *)
Example odd_registers_truncated : register_words [1; 2; 3; 4; 5; 6] = register_words [1; 2; 3; 4].
Proof. reflexivity. Qed.

(** A packet without extensions cannot be assigned. *)
Example assignment_throws r : packet_assign (mkPacket r []) = Err OutOfRange.
Proof. reflexivity. Qed.

(** A bundle header cannot be visited. *)
Example bundle_not_visited pc : Visited (mkPacket (InstructionBundleHeaderRecord pc 0) []) = Err AssertFailed.
Proof. unfold Visited, InstructionBundleHeaderRecord. cbn [packet_record]. rewrite GetRecordType_make by (split; lia). reflexivity. Qed.

(** A RecordFileInputStream on a file of less than 2^20 records says that it is
    at the end after the first record, and to peek at a record takes it away. *)
Theorem file_stream_ends_early r0 r1 rest : Z.of_nat (length (r0 :: r1 :: rest)) < 2 ^ 20 ->
  exists f1 f2, file_Get (file_stream (r0 :: r1 :: rest)) = Ok (r0, f1) /\ file_Good f1 = false /\
    file_Peek (file_stream (r0 :: r1 :: rest)) = Ok (r0, f2) /\ rmap fst (file_Get f2) = Ok r1.
Proof.
  set (file := r0 :: r1 :: rest). intros Hl.
  assert (E : if_read (1024 * 1024) (mkIfstream file true) = (file, mkIfstream [] false)).
  { unfold if_read. cbn [if_good if_rest negb]. rewrite take_ge, drop_ge by lia. replace (1024 * 1024 <=? Z.of_nat (length file)) with false by lia. reflexivity. }
  assert (M : makeReadyRecord (file_stream file) = Ok (mkFileStream false r0 (mkIfstream [] false) file 1)).
  { unfold makeReadyRecord, file_stream. cbn [record_buffer_pointer_ record_buffer_ length stream_]. change (0 =? Z.of_nat 0) with true. cbn iota. rewrite E. reflexivity. }
  unfold file_Get at 1, file_Peek. rewrite M. cbn [rbind ready_record_ is_ready_record_]. eexists _, _. split; [reflexivity |].
  split; [reflexivity |]. split; [reflexivity |]. unfold file_Get, makeReadyRecord. cbn [is_ready_record_ record_buffer_pointer_ record_buffer_ stream_].
  assert (E1 : (1 =? Z.of_nat (length file)) = false) by (apply Z.eqb_neq; unfold file; rewrite !length_cons; lia). rewrite E1. reflexivity.
Qed.

Lemma file_stream_ends_early_witness :
  exists f1 f2, file_Get (file_stream [mkRecord 1 1; mkRecord 2 2; mkRecord 3 3]) = Ok (mkRecord 1 1, f1) /\ file_Good f1 = false /\
    file_Peek (file_stream [mkRecord 1 1; mkRecord 2 2; mkRecord 3 3]) = Ok (mkRecord 1 1, f2) /\ rmap fst (file_Get f2) = Ok (mkRecord 2 2).
Proof. apply file_stream_ends_early. cbn. lia. Defined.

Lemma copy_buffer rest b r0 tl : b = r0 :: tl -> Z.of_nat (length b) = kBufferEntries -> forall n pos fuel,
  pos = kBufferEntries - Z.of_nat n -> (n <= length b)%nat -> (n + 2 <= fuel)%nat ->
  copy_rest fuel (mkRecordStream rest true b pos true) = Ok (drop (Z.to_nat pos) b ++ [r0]).
Proof.
  intros Eb Hb. induction n as [| n IH]; intros pos fuel Hp Hn Hf; (destruct fuel as [| fuel]; [lia |]); cbn [copy_rest rs_good negb]; unfold rs_next; cbn [rs_pos].
  - replace (pos =? kBufferEntries) with true by lia. unfold refill_buffer. cbn [rs_eof rs_rest rs_buffer]. rewrite Eb at 1. cbn [vec_get rs_buffer rs_pos].
    destruct fuel as [| fuel]; [lia |]. rewrite drop_ge by lia. rewrite Eb. reflexivity.
  - replace (pos =? kBufferEntries) with false by lia. cbn [rs_buffer rs_pos rs_rest rs_eof rs_good].
    destruct (lookup_lt_is_Some_2 b (Z.to_nat pos)) as [x Hx]; [lia |]. rewrite (proj2 (vec_get_Ok b pos x)) by (split; [lia | exact Hx]). cbn [rbind fst snd].
    rewrite (IH (pos + 1) fuel) by lia. cbn [rbind]. rewrite (drop_S b x (Z.to_nat pos) Hx). replace (Z.to_nat (pos + 1)) with (S (Z.to_nat pos)) by lia. reflexivity.
Qed.

(** Copying the rest of a trace of less than 1024 records through a
    RecordStream, as RecordTail does, adds records that are not in the file: the
    unused part of the buffer, and the first record again. *)
Theorem record_stream_overreads r0 rest fuel : Z.of_nat (length (r0 :: rest)) < kBufferEntries -> (1026 < fuel)%nat ->
  copy_rest fuel (record_stream (r0 :: rest))
    = Ok ((r0 :: rest) ++ replicate (1024 - length (r0 :: rest)) (mkRecord 0 0) ++ [r0]).
Proof.
  set (file := r0 :: rest). intros Hl Hf. set (pad := replicate (1024 - length file) (mkRecord 0 0)).
  assert (Er : refill_buffer (record_stream file) = mkRecordStream [] true (file ++ pad) 0 true).
  { unfold refill_buffer, record_stream. cbn [rs_eof rs_rest rs_buffer]. replace (Z.of_nat (length file) <? kBufferEntries) with true by lia.
    change (Z.to_nat kBufferEntries) with 1024%nat. unfold kBufferEntries in Hl. rewrite (take_ge file), (drop_ge file), drop_replicate by lia. reflexivity. }
  assert (Hb : Z.of_nat (length (file ++ pad)) = kBufferEntries).
  { rewrite length_app. unfold pad. rewrite length_replicate. unfold kBufferEntries in *. lia. }
  destruct fuel as [| fuel]; [lia |]. cbn [copy_rest]. change (rs_good (record_stream file)) with true. cbn [negb]. unfold rs_next.
  change (rs_pos (record_stream file) =? kBufferEntries) with true. cbn iota. rewrite Er. cbn [rs_buffer rs_pos rs_rest rs_eof rs_good].
  rewrite (proj2 (vec_get_Ok (file ++ pad) 0 r0)) by (split; [lia | reflexivity]). cbn [rbind fst snd].
  change (0 + 1) with 1. rewrite (copy_buffer [] (file ++ pad) r0 (rest ++ pad) eq_refl Hb 1023 1 fuel) by (unfold kBufferEntries in *; lia).
  cbn [rbind]. rewrite (app_assoc file). reflexivity.
Qed.

Lemma record_stream_overreads_witness :
  copy_rest 1027 (record_stream [mkRecord 1 1; mkRecord 2 2])
    = Ok ([mkRecord 1 1; mkRecord 2 2] ++ replicate (1024 - 2) (mkRecord 0 0) ++ [mkRecord 1 1]).
Proof. apply (record_stream_overreads (mkRecord 1 1) [mkRecord 2 2] 1027); [reflexivity | lia]. Defined.
