(* ===== verification/JITCache.v ===== *)
(** * The code caches of the JIT engines (archsim/src/blockjit, src/core/execution)

    BasicJITExecutionEngine keeps the translations of guest blocks twice: in a
    [BlockProfile] by physical address, which owns their code, and in a
    [BlockCache] by virtual address, which generated code looks at.  Events that
    other parts publish flush one or the other.  A translation has the processor
    features it was made for.

    The code of a translation is its address; [live] is the set of addresses
    that the allocator has handed out and not got back, and to free another one
    is undefined.  A [std::map] of features is a list sorted by their numbers. *)

From Stdlib Require Import ZArith Lia List Bool.
From stdpp Require Import base numbers list gmap sets.
From S2P Require Import Prelude.
Import ListNotations.
#[local] Open Scope Z_scope.
#[local] Open Scope gensim_scope.

(** ** Processor features *)

Definition feature_map : Type := list (Z * Z).
Fixpoint set_feature (id level : Z) (m : feature_map) : feature_map :=
  match m with
  | [] => [(id, level)]
  | (i, l) :: r => if id <? i then (id, level) :: m else if id =? i then (id, level) :: r else (i, l) :: set_feature id level r
  end.
Definition AddFeature (id : Z) (m : feature_map) : feature_map := set_feature id 0 m.
Definition feature_level (id : Z) (m : feature_map) : option Z := option_map snd (List.find (fun f => fst f =? id) m).
Definition GetFeatureLevel (id : Z) (m : feature_map) : result Z := of_option OutOfRange (feature_level id m).

(** Shifts of a uint32_t and of an int, converted to uint64_t. *)
Definition shl_u32 (v n : Z) : result Z := check* n <? 32 or UndefinedBehaviour in Ok (u32 (Z.shiftl v n)).
Definition shl_int (v n : Z) : result Z := check* n <? 32 or UndefinedBehaviour in Ok (u64 (sext 32 (Z.shiftl v n))).

Fixpoint available_loop (m : feature_map) (mask : Z) : result Z :=
  match m with
  | [] => Ok mask
  | (i, l) :: r => if 7 <=? i then available_loop r mask else let* v := shl_u32 l (i * 8) in available_loop r (Z.lor mask v)
  end.
Definition GetAvailableMask (m : feature_map) : result Z :=
  let* mask := available_loop m 0 in
  check* Z.land mask 0xf000000000000000 =? 0 or AssertFailed in
  Ok mask.
Fixpoint required_loop (m : feature_map) (mask : Z) : result Z :=
  match m with
  | [] => Ok mask
  | (i, l) :: r =>
      let* v := shl_int 0xff (i * 8) in
      required_loop r (Z.lor (if 7 <=? i then Z.lor mask 0xf000000000000000 else mask) v)
  end.
Definition GetRequiredMask (m : feature_map) : result Z := required_loop m 0.
Fixpoint level_loop (m : feature_map) (mask : Z) : result Z :=
  match m with
  | [] => Ok mask
  | (i, l) :: r =>
      let* v := shl_u32 l (i * 8) in
      level_loop r (Z.lor (if 7 <=? i then Z.lor mask 0xf000000000000000 else mask) v)
  end.
Definition GetLevelMask (m : feature_map) : result Z := level_loop m 0.

(** ** The cache by virtual address *)

Definition kCacheSize : Z := 1024.
Record BlockCacheEntry := mkEntry { virt_tag : Z; ptr : Z }.
Record BlockFeaturesEntry := mkFeatures { feature_required_mask : Z; feature_level_mask : Z }.
Record BlockCache := mkCache { cache_ : list BlockCacheEntry; feature_cache_ : list BlockFeaturesEntry }.

Definition cache_index (address : Z) : Z := address mod kCacheSize.
Definition GetEntry (address : Z) (c : BlockCache) : result BlockCacheEntry := vec_get (cache_ c) (cache_index address).
(** [memset] with 0xff. *)
Definition cache_Invalidate (c : BlockCache) : BlockCache :=
  mkCache (replicate (Z.to_nat kCacheSize) (mkEntry (2 ^ 64 - 1) (2 ^ 64 - 1))) (feature_cache_ c).
Definition new_cache : BlockCache := cache_Invalidate (mkCache [] (replicate (Z.to_nat kCacheSize) (mkFeatures 0 0))).
Definition Contains (address : Z) (c : BlockCache) : result bool :=
  let* e := GetEntry address c in Ok (virt_tag e =? address).
Definition Lookup (address : Z) (c : BlockCache) : result Z :=
  let* e := GetEntry address c in Ok (if virt_tag e =? address then ptr e else 0).
Definition cache_Insert (address fn : Z) (required : feature_map) (c : BlockCache) : result BlockCache :=
  let* entries := vec_set (cache_ c) (cache_index address) (mkEntry address fn) in
  let* mask := GetRequiredMask required in
  let* level := GetLevelMask required in
  let* fs := vec_set (feature_cache_ c) (cache_index address) (mkFeatures mask level) in
  Ok (mkCache entries fs).
Fixpoint invalidate_features (mask : Z) (es : list BlockCacheEntry) (fs : list BlockFeaturesEntry) : list BlockCacheEntry :=
  match es, fs with
  | e :: er, f :: fr =>
      (if negb (Z.land mask (feature_required_mask f) =? feature_level_mask f) then mkEntry 1 (ptr e) else e) :: invalidate_features mask er fr
  | _, _ => es
  end.
Definition InvalidateFeatures (current_mask : Z) (c : BlockCache) : BlockCache :=
  mkCache (invalidate_features current_mask (cache_ c) (feature_cache_ c)) (feature_cache_ c).

(** ** Translations *)

Record BlockTranslation := mkTxln { fn_ : Z; features_required_ : option feature_map; size_ : Z }.
Definition no_txln : BlockTranslation := mkTxln 0 None 0.
Definition AddRequiredFeature (id level : Z) (t : BlockTranslation) : BlockTranslation :=
  mkTxln (fn_ t) (Some (set_feature id level (AddFeature id (default [] (features_required_ t))))) (size_ t).
Fixpoint features_agree (required features : feature_map) : result bool :=
  match required with
  | [] => Ok true
  | (i, l) :: r =>
      let* level := GetFeatureLevel i features in
      if level =? l then features_agree r features else Ok false
  end.
Definition FeaturesValid (features : feature_map) (t : BlockTranslation) : result bool :=
  match features_required_ t with
  | None => Ok true
  | Some required => features_agree required features
  end.
Definition IsValid (features : feature_map) (t : BlockTranslation) : result bool :=
  if fn_ t =? 0 then Ok false else FeaturesValid features t.
Definition txln_Invalidate (t : BlockTranslation) : BlockTranslation := mkTxln 0 None (size_ t).
Definition GetFeatures (t : BlockTranslation) : feature_map := default [] (features_required_ t).

(** ** The profile by physical address *)

Definition live_set : Type := gset Z.
Definition Free (p : Z) (live : live_set) : result live_set :=
  check* bool_decide (p ∈ live) or UndefinedBehaviour in Ok (live ∖ {[p]}).
Fixpoint free_all (l : list Z) (live : live_set) : result live_set :=
  match l with
  | [] => Ok live
  | p :: r =>
      check* negb (p =? 0) or AssertFailed in
      let* live1 := Free p live in
      free_all r live1
  end.

Definition kBlocksPerChunk : Z := 128.
(** The table has chunks, made when they are needed, of translations by their
    place in the chunk. *)
Record BlockPageProfile := mkPage {
  _table : gmap Z (gmap Z BlockTranslation);
  _txlns : gset Z;
  _dirty : bool;
  _valid : bool
}.
Definition new_page : BlockPageProfile := mkPage ∅ ∅ false false.
Definition GetPageOffset (address : Z) : Z := Z.land address 4095.
Definition GetPageIndex (address : Z) : Z := address / 4096.
Definition page_Get (address : Z) (p : BlockPageProfile) : BlockTranslation :=
  let offset := GetPageOffset address in
  default no_txln (default ∅ (_table p !! (offset / kBlocksPerChunk)) !! (offset mod kBlocksPerChunk)).
Definition page_put (address : Z) (t : BlockTranslation) (p : BlockPageProfile) : BlockPageProfile :=
  let offset := GetPageOffset address in
  let chunk := default ∅ (_table p !! (offset / kBlocksPerChunk)) in
  mkPage (<[offset / kBlocksPerChunk := <[offset mod kBlocksPerChunk := t]> chunk]> (_table p)) (_txlns p) (_dirty p) (_valid p).
Definition with_txlns (s : gset Z) (p : BlockPageProfile) : BlockPageProfile := mkPage (_table p) s (_dirty p) (_valid p).

Definition InvalidateTxln (address : Z) (p : BlockPageProfile) (live : live_set) : result (BlockPageProfile * live_set) :=
  let t := page_Get address p in
  if fn_ t =? 0 then Ok (page_put address (txln_Invalidate t) p, live)
  else
    let* live1 := Free (fn_ t) live in
    Ok (page_put address (txln_Invalidate t) (with_txlns (_txlns p ∖ {[fn_ t]}) p), live1).
Definition page_Invalidate (p : BlockPageProfile) (live : live_set) : result (BlockPageProfile * live_set) :=
  let* live1 := free_all (elements (_txlns p)) live in
  Ok (mkPage ∅ ∅ false false, live1).
Definition page_Insert (address : Z) (t : BlockTranslation) (p : BlockPageProfile) (live : live_set) : result (BlockPageProfile * live_set) :=
  let* pl := (if _dirty p then page_Invalidate p live else Ok (p, live)) in
  let '(p1, live1) := pl in
  let p2 := if _valid p1 then p1 else mkPage ∅ (_txlns p1) (_dirty p1) true in
  let* pl3 := (if fn_ (page_Get address p2) =? 0 then Ok (p2, live1) else InvalidateTxln address p2 live1) in
  let '(p3, live3) := pl3 in
  Ok (page_put address t (with_txlns ({[fn_ t]} ∪ _txlns p3) p3), live3).

Definition kProfileCount : Z := 2 ^ 20.
Record BlockProfile := mkProfile {
  _page_profiles : gmap Z BlockPageProfile;
  _dirty_pages : list Z;
  code_size_ : Z
}.
Definition new_profile : BlockProfile := mkProfile ∅ [] 0.
(** The array of profiles is indexed without a check. *)
Definition getProfile (address : Z) (b : BlockProfile) : result BlockPageProfile :=
  check* GetPageIndex address <? kProfileCount or UndefinedBehaviour in
  Ok (default new_page (_page_profiles b !! GetPageIndex address)).
Definition with_page (address : Z) (p : BlockPageProfile) (b : BlockProfile) : BlockProfile :=
  mkProfile (<[GetPageIndex address := p]> (_page_profiles b)) (_dirty_pages b) (code_size_ b).

Definition profile_Insert (address : Z) (t : BlockTranslation) (b : BlockProfile) (live : live_set) : result (BlockProfile * live_set) :=
  let* p := getProfile address b in
  let* pl := page_Insert address t p live in
  Ok (with_page address (fst pl) (mkProfile (_page_profiles b) (_dirty_pages b) (u64 (code_size_ b + size_ t))), snd pl).
Fixpoint invalidate_pages (l : list (Z * BlockPageProfile)) (m : gmap Z BlockPageProfile) (live : live_set)
  : result (gmap Z BlockPageProfile * live_set) :=
  match l with
  | [] => Ok (m, live)
  | (i, p) :: r =>
      let* pl := page_Invalidate p live in
      invalidate_pages r (<[i := fst pl]> m) (snd pl)
  end.
Definition profile_Invalidate (b : BlockProfile) (live : live_set) : result (BlockProfile * live_set) :=
  let* ml := invalidate_pages (map_to_list (_page_profiles b)) (_page_profiles b) live in
  Ok (mkProfile (fst ml) (_dirty_pages b) 0, snd ml).
Definition MarkPageDirty (address : Z) (b : BlockProfile) : result BlockProfile :=
  let* p := getProfile address b in
  let b1 := with_page address (mkPage (_table p) (_txlns p) true (_valid p)) b in
  Ok (mkProfile (_page_profiles b1) (_dirty_pages b1 ++ [GetPageIndex address]) (code_size_ b1)).
Fixpoint collect_pages (l : list Z) (m : gmap Z BlockPageProfile) (live : live_set) : result (gmap Z BlockPageProfile * live_set) :=
  match l with
  | [] => Ok (m, live)
  | i :: r =>
      let* pl := page_Invalidate (default new_page (m !! i)) live in
      collect_pages r (<[i := fst pl]> m) (snd pl)
  end.
Definition GarbageCollect (b : BlockProfile) (live : live_set) : result (BlockProfile * live_set) :=
  let* ml := collect_pages (_dirty_pages b) (_page_profiles b) live in
  Ok (mkProfile (fst ml) [] (code_size_ b), snd ml).
(** The translation is copied before it is invalidated. *)
Definition profile_Get (address : Z) (features : feature_map) (b : BlockProfile) (live : live_set)
  : result (BlockTranslation * BlockProfile * live_set) :=
  let* p := getProfile address b in
  let t := page_Get address p in
  let* valid := IsValid features t in
  if valid then Ok (t, with_page address p b, live)
  else
    let* pl := InvalidateTxln address p live in
    Ok (t, with_page address (fst pl) b, snd pl).

(** ** The engine *)

Record Engine := mkEngine {
  phys_block_profile_ : BlockProfile;
  virt_block_cache_ : BlockCache;
  live : live_set;
  flush_txlns_ : bool;
  flush_all_txlns_ : bool;
  max_code_size_ : Z
}.
Definition new_engine (max_code_size : Z) : Engine := mkEngine new_profile new_cache ∅ false false max_code_size.
Definition with_cache (c : BlockCache) (e : Engine) : Engine :=
  mkEngine (phys_block_profile_ e) c (live e) (flush_txlns_ e) (flush_all_txlns_ e) (max_code_size_ e).
Definition with_profile (b : BlockProfile) (l : live_set) (e : Engine) : Engine :=
  mkEngine b (virt_block_cache_ e) l (flush_txlns_ e) (flush_all_txlns_ e) (max_code_size_ e).
Definition with_flush (f a : bool) (e : Engine) : Engine :=
  mkEngine (phys_block_profile_ e) (virt_block_cache_ e) (live e) f a (max_code_size_ e).

Definition FlushTxlnCache (e : Engine) : Engine := with_cache (cache_Invalidate (virt_block_cache_ e)) e.
Definition FlushTxlns (e : Engine) : Engine := with_flush true (flush_all_txlns_ e) (FlushTxlnCache e).
Definition FlushAllTxlns (e : Engine) : Engine := with_flush true true (FlushTxlnCache e).
Fixpoint FlushTxlnsFeature (threads : list feature_map) (e : Engine) : result Engine :=
  match threads with
  | [] => Ok e
  | features :: r =>
      let* mask := GetAvailableMask features in
      FlushTxlnsFeature r (with_cache (InvalidateFeatures mask (virt_block_cache_ e)) e)
  end.
Definition InvalidateRegion (address : Z) (e : Engine) : result Engine :=
  let* b := MarkPageDirty address (phys_block_profile_ e) in
  Ok (with_profile b (live e) e).
Definition checkFlushTxlns (aggressive : bool) (e : Engine) : result Engine :=
  if flush_txlns_ e then
    let* bl := (if aggressive || flush_all_txlns_ e then profile_Invalidate (phys_block_profile_ e) (live e)
                else GarbageCollect (phys_block_profile_ e) (live e)) in
    Ok (with_flush false false (FlushTxlnCache (with_profile (fst bl) (snd bl) e)))
  else Ok e.
Definition checkCodeSize (e : Engine) : result Engine :=
  if max_code_size_ e =? 0 then Ok e
  else if max_code_size_ e <? code_size_ (phys_block_profile_ e) then
    let* bl := profile_Invalidate (phys_block_profile_ e) (live e) in
    Ok (FlushTxlnCache (with_profile (fst bl) (snd bl) e))
  else Ok e.

(** The events the engine subscribes to; [threads] are the features of its
    threads. *)
Inductive PubSubType :=
| ITlbFullFlush | ITlbEntryFlush
| FlushTranslations | L1ICacheFlush
| FeatureChange
| FlushAllTranslations
| RegionInvalidatePhysical (data : Z).
Definition flush_txlns_callback (threads : list feature_map) (type : PubSubType) (e : Engine) : result Engine :=
  match type with
  | ITlbFullFlush | ITlbEntryFlush => Ok (FlushTxlnCache e)
  | FlushTranslations | L1ICacheFlush => Ok (FlushTxlns e)
  | FeatureChange => FlushTxlnsFeature threads e
  | FlushAllTranslations => Ok (FlushAllTxlns e)
  | RegionInvalidatePhysical data => InvalidateRegion data e
  end.

Section Thread.
(** Fetch translation, [None] for a fault, and the features of the thread. *)
Context (PerformTranslation : Z -> option Z) (features : feature_map).

(** A fault makes the thread take an exception, and there is no block. *)
Definition lookupBlock (addr : Z) (e : Engine) : result (option Z * Engine) :=
  let* fn := Lookup addr (virt_block_cache_ e) in
  if negb (fn =? 0) then Ok (Some fn, e)
  else
    match PerformTranslation addr with
    | None => Ok (None, e)
    | Some physaddr =>
        let* got := profile_Get physaddr features (phys_block_profile_ e) (live e) in
        let '(txln, b, l) := got in
        let e1 := with_profile b l e in
        let* valid := IsValid features txln in
        if valid then
          let* c := cache_Insert addr (fn_ txln) (GetFeatures txln) (virt_block_cache_ e1) in
          Ok (Some (fn_ txln), with_cache c e1)
        else Ok (None, e1)
    end.
Definition registerTranslation (phys_addr virt_addr : Z) (txln : BlockTranslation) (e : Engine) : result Engine :=
  let* bl := profile_Insert phys_addr txln (phys_block_profile_ e) (live e) in
  let e1 := with_profile (fst bl) (snd bl) e in
  let* c := cache_Insert virt_addr (fn_ txln) (GetFeatures txln) (virt_block_cache_ e1) in
  Ok (with_cache c e1).
(** What the translator makes of the block is [txln]; its code is allocated
    then.  A fault of the second translation is not looked at. *)
Definition translateBlock (block_pc : Z) (txln : option BlockTranslation) (e : Engine) : result (bool * Engine) :=
  let* e1 := checkCodeSize e in
  let* found := lookupBlock block_pc e1 in
  match fst found with
  | Some _ => Ok (true, snd found)
  | None =>
      let physaddr := default 0 (PerformTranslation block_pc) in
      match txln with
      | None => Ok (false, snd found)
      | Some t =>
          let e2 := with_profile (phys_block_profile_ (snd found)) ({[fn_ t]} ∪ live (snd found)) (snd found) in
          let* e3 := registerTranslation physaddr block_pc t e2 in
          Ok (true, e3)
      end
  end.
(** [ExecuteInnerLoop]: the function that is called for a program counter. *)
Definition inner_step (pc : Z) (e : Engine) : result (option Z) :=
  let* entry := GetEntry pc (virt_block_cache_ e) in
  Ok (if virt_tag entry =? pc then Some (ptr entry) else None).
End Thread.

(** [ProcessorFeatureInterface::SetFeatureLevel] of the thread: the change is
    published, and then the level is set. *)
Definition SetFeatureLevel (id new_level : Z) (features : feature_map) (e : Engine) : result (feature_map * Engine) :=
  let* level := GetFeatureLevel id features in
  let* e1 := (if negb (level =? new_level) then flush_txlns_callback [features] FeatureChange e else Ok e) in
  Ok (set_feature id new_level features, e1).
