(* ===== verification/JITCacheSafe.v ===== *)
(** * Code that is executed has not been freed

    The invariant of the code caches: the profile owns disjoint sets of live
    functions, and every function in the cache by virtual address is the
    profile's translation of the block at the physical address it is mapped to.
    It holds in every state that is reached without a change of features and
    without translating a block of a page between the invalidation of the page
    and the next flush; both of these break it. *)

From Stdlib Require Import ZArith Lia List Bool.
From stdpp Require Import base numbers list gmap sets.
From S2P Require Import Prelude JITCache.
Import ListNotations.
#[local] Open Scope Z_scope.
#[local] Open Scope gensim_scope.

(** ** Pages *)

Lemma page_offset_split o1 o2 : o1 / kBlocksPerChunk = o2 / kBlocksPerChunk -> o1 mod kBlocksPerChunk = o2 mod kBlocksPerChunk -> o1 = o2.
Proof.
  intros E1 E2. rewrite (Z.div_mod o1 kBlocksPerChunk), (Z.div_mod o2 kBlocksPerChunk) by discriminate. congruence.
Qed.

Lemma page_Get_put a b t p : page_Get a (page_put b t p) = if decide (GetPageOffset a = GetPageOffset b) then t else page_Get a p.
Proof.
  unfold page_Get, page_put. cbn [_table]. set (o1 := GetPageOffset a). set (o2 := GetPageOffset b). case_decide as E.
  - rewrite E, lookup_insert_eq. cbn [default]. unfold id. rewrite lookup_insert_eq. reflexivity.
  - destruct (decide (o1 / kBlocksPerChunk = o2 / kBlocksPerChunk)) as [Eq | Ne].
    + rewrite Eq, lookup_insert_eq. cbn [default]. unfold id. rewrite lookup_insert_ne; [reflexivity |].
      intros Em. apply E. apply page_offset_split; congruence.
    + rewrite lookup_insert_ne by congruence. reflexivity.
Qed.

Lemma page_Get_empty a txlns d v : page_Get a (mkPage ∅ txlns d v) = no_txln.
Proof. unfold page_Get. cbn [_table]. rewrite lookup_empty. cbn [default]. rewrite lookup_empty. reflexivity. Qed.

Lemma free_all_ok l : forall lv : live_set, NoDup l -> Forall (fun p => p <> 0 /\ p ∈ lv) l -> free_all l lv = Ok (lv ∖ list_to_set l).
Proof.
  induction l as [| p r IH]; intros lv Hn Hl; cbn [free_all list_to_set].
  - f_equal. set_solver.
  - apply NoDup_cons in Hn as [Hp Hn]. apply Forall_cons in Hl as [[H0 Hin] Hr]. apply Z.eqb_neq in H0. rewrite H0. cbn [negb].
    unfold Free. rewrite bool_decide_true by exact Hin. cbn [rbind]. rewrite IH; [f_equal; set_solver | exact Hn |].
    apply Forall_forall. intros x Hx. rewrite Forall_forall in Hr. destruct (Hr x Hx) as [H1 H2]. split; [exact H1 |].
    apply elem_of_difference. split; [exact H2 |]. intros E. apply elem_of_singleton in E. subst. contradiction.
Qed.

Section Safe.
Context (features : feature_map).

(** The translations of a page are owned, distinct, and valid. *)
Definition usable (t : BlockTranslation) : Prop :=
  FeaturesValid features t = Ok true /\ Forall (fun f => 0 <= fst f < 4) (GetFeatures t).
Record page_ok (lv : live_set) (p : BlockPageProfile) : Prop := {
  page_owned : _txlns p ⊆ lv;
  page_nonnull : 0 ∉ _txlns p;
  page_listed a : fn_ (page_Get a p) <> 0 -> fn_ (page_Get a p) ∈ _txlns p /\ usable (page_Get a p);
  page_distinct a b : fn_ (page_Get a p) <> 0 -> fn_ (page_Get a p) = fn_ (page_Get b p) -> GetPageOffset a = GetPageOffset b;
  page_empty : _valid p = false -> _txlns p = ∅
}.

Lemma new_page_ok lv : page_ok lv new_page.
Proof. constructor; cbn; try set_solver; intros a; unfold new_page; rewrite page_Get_empty; cbn; congruence. Qed.

Lemma page_Invalidate_ok lv p : page_ok lv p -> page_Invalidate p lv = Ok (new_page, lv ∖ _txlns p).
Proof.
  intros [H1 H2 _ _ _]. unfold page_Invalidate. rewrite free_all_ok.
  - cbn [rbind]. rewrite list_to_set_elements_L. reflexivity.
  - apply NoDup_elements.
  - apply Forall_forall. intros x Hx. apply elem_of_elements in Hx. split; [intros -> | set_solver]. contradiction.
Qed.

(** Forgetting a translation that is not there. *)
Lemma InvalidateTxln_none lv p a : page_ok lv p -> fn_ (page_Get a p) = 0 ->
  exists p', InvalidateTxln a p lv = Ok (p', lv) /\ page_ok lv p' /\ _txlns p' = _txlns p /\ _dirty p' = _dirty p /\
    (forall b, fn_ (page_Get b p') = fn_ (page_Get b p)).
Proof.
  intros Hp H0. unfold InvalidateTxln. rewrite H0. cbn [Z.eqb]. eexists. split; [reflexivity |].
  assert (Hfn : forall b, fn_ (page_Get b (page_put a (txln_Invalidate (page_Get a p)) p)) = fn_ (page_Get b p)).
  { intros b. rewrite page_Get_put. case_decide as E; [| reflexivity]. cbn. unfold page_Get in *. rewrite E. congruence. }
  split; [| auto]. destruct Hp as [H1 H2 H3 H4 H5]. constructor; [exact H1 | exact H2 | | | exact H5].
  - intros b Hb. pose proof (Hfn b) as Ef. rewrite page_Get_put in *. case_decide as E; [cbn in Hb; congruence |]. apply H3. exact Hb.
  - intros b c. rewrite !Hfn. apply H4.
Qed.

(** A new translation on a page that is not dirty. *)
Lemma page_Insert_ok lv p a t : page_ok lv p -> _dirty p = false -> fn_ (page_Get a p) = 0 -> fn_ t <> 0 -> fn_ t ∉ _txlns p -> fn_ t ∈ lv -> usable t ->
  exists p', page_Insert a t p lv = Ok (p', lv) /\ page_ok lv p' /\ _txlns p' = {[fn_ t]} ∪ _txlns p /\ page_Get a p' = t /\
    (forall b, fn_ (page_Get b p) <> 0 -> page_Get b p' = page_Get b p).
Proof.
  intros [H1 H2 H3 H4 H5] Hd H0 Hn Hf Hl Hu. unfold page_Insert. rewrite Hd. cbn [rbind].
  set (p2 := if _valid p then p else mkPage ∅ (_txlns p) (_dirty p) true).
  assert (G : _txlns p2 = _txlns p /\ _valid p2 = true /\ forall b, fn_ (page_Get b p) <> 0 -> page_Get b p2 = page_Get b p).
  { unfold p2. destruct (_valid p) eqn:Ev; [auto |]. split; [reflexivity |]. split; [reflexivity |].
    intros b Hb. destruct (H3 b Hb) as [Hin _]. rewrite (H5 eq_refl) in Hin. set_solver. }
  assert (G0 : forall b, fn_ (page_Get b p2) <> 0 -> page_Get b p2 = page_Get b p).
  { unfold p2. destruct (_valid p) eqn:Ev; [auto |]. intros b. rewrite page_Get_empty. cbn. congruence. }
  destruct G as (G1 & G2 & G3). assert (Ga : fn_ (page_Get a p2) = 0).
  { destruct (Z.eq_dec (fn_ (page_Get a p2)) 0) as [E | E]; [exact E |]. pose proof (G0 a E). congruence. }
  rewrite Ga. cbn [Z.eqb rbind]. eexists. split; [reflexivity |].
  assert (Hget : forall b, page_Get b (page_put a t (with_txlns ({[fn_ t]} ∪ _txlns p2) p2))
    = if decide (GetPageOffset b = GetPageOffset a) then t else page_Get b p2) by (intros b; rewrite page_Get_put; reflexivity).
  split; [constructor |].
  - cbn. rewrite G1. set_solver.
  - cbn. rewrite G1. set_solver.
  - intros b. rewrite Hget. cbn. case_decide as E; [split; [set_solver | exact Hu] |]. intros Hb. pose proof (G0 b Hb) as Eb. rewrite Eb in Hb |- *.
    destruct (H3 b Hb) as [Hin Hus]. rewrite G1. split; [set_solver | exact Hus].
  - intros b c. rewrite !Hget. case_decide as E1; case_decide as E2; intros Hb Ebc; try congruence.
    + rewrite Ebc in Hb. pose proof (G0 c Hb) as Ec. rewrite Ec in Hb, Ebc. destruct (H3 c Hb) as [Hin _]. rewrite <- Ebc in Hin. contradiction.
    + pose proof (G0 b Hb) as Eb. rewrite Eb in Hb, Ebc. destruct (H3 b Hb) as [Hin _]. rewrite Ebc in Hin. contradiction.
    + assert (Hc : fn_ (page_Get c p2) <> 0) by congruence. pose proof (G0 b Hb) as Eb. pose proof (G0 c Hc) as Ec.
      apply H4; congruence.
  - cbn. congruence.
  - split; [cbn; rewrite G1; reflexivity |]. split; [rewrite Hget, decide_True by reflexivity; reflexivity |].
    intros b Hb. rewrite Hget. case_decide as E; [| apply G3, Hb]. unfold page_Get in H0, Hb. rewrite E in Hb. congruence.
Qed.

(** ** The profile *)

Record profile_ok (lv : live_set) (m : gmap Z BlockPageProfile) : Prop := {
  profile_pages i p : m !! i = Some p -> page_ok lv p;
  profile_disjoint i j p q : i <> j -> m !! i = Some p -> m !! j = Some q -> _txlns p ## _txlns q
}.
Definition page_of (m : gmap Z BlockPageProfile) (i : Z) : BlockPageProfile := default new_page (m !! i).
Definition txln_at (m : gmap Z BlockPageProfile) (pa : Z) : BlockTranslation := page_Get pa (page_of m (GetPageIndex pa)).

Lemma page_of_ok lv m i : profile_ok lv m -> page_ok lv (page_of m i).
Proof. intros [H _]. unfold page_of. destruct (m !! i) as [p |] eqn:E; [exact (H i p E) | apply new_page_ok]. Qed.
Lemma page_of_disjoint lv m i j : profile_ok lv m -> i <> j -> _txlns (page_of m i) ## _txlns (page_of m j).
Proof.
  intros [_ H] Hij. unfold page_of. destruct (m !! i) as [p |] eqn:Ei, (m !! j) as [q |] eqn:Ej; cbn; [exact (H i j p q Hij Ei Ej) | apply disjoint_empty_r | apply disjoint_empty_l | apply disjoint_empty_l].
Qed.
Lemma page_of_insert m i j p : page_of (<[i := p]> m) j = if decide (j = i) then p else page_of m j.
Proof. unfold page_of. case_decide as E; [subst; rewrite lookup_insert_eq; reflexivity | rewrite lookup_insert_ne by congruence; reflexivity]. Qed.

(** Replacing a page: what it owns comes from the old page or is new, and the
    other pages keep what they own. *)
Lemma replace_page lv lv' m i p' : profile_ok lv m -> page_ok lv' p' ->
  (forall x, x ∈ _txlns p' -> x ∈ _txlns (page_of m i) \/ forall j, j <> i -> x ∉ _txlns (page_of m j)) ->
  (forall x, x ∈ lv -> x ∉ _txlns (page_of m i) -> x ∈ lv') -> profile_ok lv' (<[i := p']> m).
Proof.
  intros Hm Hp' Hown Hkeep.
  assert (Hother : forall j q, j <> i -> m !! j = Some q -> page_of m j = q) by (intros j q _ E; unfold page_of; rewrite E; reflexivity).
  assert (Hdis : forall j q, j <> i -> m !! j = Some q -> _txlns p' ## _txlns q).
  { intros j q Hj E. rewrite <- (Hother j q Hj E). apply elem_of_disjoint. intros x Hx Hq.
    destruct (Hown x Hx) as [Hold | Hnew]; [| exact (Hnew j Hj Hq)].
    pose proof (page_of_disjoint lv m i j Hm ltac:(congruence)). set_solver. }
  constructor.
  - intros j q E. destruct (decide (j = i)) as [-> | Hj]; [rewrite lookup_insert_eq in E; injection E as <-; exact Hp' |].
    rewrite lookup_insert_ne in E by congruence. destruct (profile_pages lv m Hm j q E) as [H1 H2 H3 H4 H5]. constructor; try assumption.
    intros x Hx. apply Hkeep; [apply H1, Hx |]. intros Hi. pose proof (page_of_disjoint lv m i j Hm ltac:(congruence)) as D.
    rewrite (Hother j q Hj E) in D. set_solver.
  - intros j k q r Hjk Ej Ek. destruct (decide (j = i)) as [-> | Hj]; destruct (decide (k = i)) as [-> | Hk]; [contradiction | | |].
    + rewrite lookup_insert_eq in Ej. injection Ej as <-. rewrite lookup_insert_ne in Ek by congruence. exact (Hdis k r Hk Ek).
    + rewrite lookup_insert_eq in Ek. injection Ek as <-. rewrite lookup_insert_ne in Ej by congruence. symmetry. exact (Hdis j q Hj Ej).
    + rewrite lookup_insert_ne in Ej by congruence. rewrite lookup_insert_ne in Ek by congruence. exact (profile_disjoint lv m Hm j k q r Hjk Ej Ek).
Qed.

Lemma invalidate_page_ok lv m i : profile_ok lv m -> profile_ok (lv ∖ _txlns (page_of m i)) (<[i := new_page]> m).
Proof.
  intros Hm. apply (replace_page lv); [exact Hm | apply new_page_ok | cbn; set_solver | intros x H1 H2; set_solver].
Qed.

Lemma collect_pages_ok l : forall lv m, profile_ok lv m -> exists m' lv', collect_pages l m lv = Ok (m', lv') /\ profile_ok lv' m' /\ lv' ⊆ lv.
Proof.
  induction l as [| i r IH]; intros lv m Hm; [exists m, lv; auto |]. cbn [collect_pages]. fold (page_of m i).
  rewrite (page_Invalidate_ok lv _ (page_of_ok lv m i Hm)). cbn [rbind fst snd].
  destruct (IH _ _ (invalidate_page_ok lv m i Hm)) as (m' & lv' & E & Ho & Hs). exists m', lv'. split; [exact E |]. split; [exact Ho | set_solver].
Qed.
Lemma clear_dirty m i j : _dirty (page_of (<[i := new_page]> m) j) = true -> _dirty (page_of m j) = true.
Proof. rewrite page_of_insert. case_decide; [discriminate | auto]. Qed.
Lemma invalidate_pages_ok l : forall lv m, profile_ok lv m -> NoDup (map fst l) -> (forall i p, In (i, p) l -> m !! i = Some p) ->
  exists m' lv', invalidate_pages l m lv = Ok (m', lv') /\ profile_ok lv' m' /\ lv' ⊆ lv /\
    (forall i, _dirty (page_of m' i) = true -> _dirty (page_of m i) = true).
Proof.
  induction l as [| [i p] r IH]; intros lv m Hm Hn Hl; [exists m, lv; auto |]. cbn [invalidate_pages map fst] in *.
  apply NoDup_cons in Hn as [Hi Hn]. assert (Ei : page_of m i = p) by (unfold page_of; rewrite (Hl i p) by (left; reflexivity); reflexivity).
  rewrite (page_Invalidate_ok lv p) by (rewrite <- Ei; apply page_of_ok, Hm). cbn [rbind fst snd].
  destruct (IH (lv ∖ _txlns p) (<[i := new_page]> m)) as (m' & lv' & E & Ho & Hs & Hd); [rewrite <- Ei; apply invalidate_page_ok, Hm | exact Hn | |].
  2: { exists m', lv'. split; [exact E |]. split; [exact Ho |]. split; [set_solver |]. intros j Hj. apply (clear_dirty m i), Hd, Hj. }
  - intros j q Hj. rewrite lookup_insert_ne; [apply Hl; right; exact Hj |]. intros ->. apply Hi, list_elem_of_In, in_map_iff. exists (j, q). auto.
Qed.

(** ** The caches together *)

Abbreviation pages e := (_page_profiles (phys_block_profile_ e)).
Definition valid_map (pt : Z -> option Z) : Prop := forall va pa, pt va = Some pa -> 0 <= pa < 2 ^ 32.

Record inv (pt : Z -> option Z) (e : Engine) : Prop := {
  inv_map : valid_map pt;
  inv_profile : profile_ok (live e) (pages e);
  inv_entries : Z.of_nat (length (cache_ (virt_block_cache_ e))) = kCacheSize;
  inv_features : Z.of_nat (length (feature_cache_ (virt_block_cache_ e))) = kCacheSize;
  inv_cache i en : cache_ (virt_block_cache_ e) !! i = Some en -> virt_tag en = 2 ^ 64 - 1 \/
    (ptr en <> 0 /\ exists pa, pt (virt_tag en) = Some pa /\ fn_ (txln_at (pages e) pa) = ptr en)
}.

Lemma new_engine_inv n pt : valid_map pt -> inv pt (new_engine n).
Proof.
  intros Hm. constructor; [exact Hm | | reflexivity | reflexivity |].
  - constructor; cbn; intros; rewrite lookup_empty in *; discriminate.
  - intros i en. cbn [new_engine virt_block_cache_ new_cache cache_Invalidate cache_]. intros H. apply lookup_replicate in H as [-> _]. left. reflexivity.
Qed.

(** Flushing the cache is always possible. *)
Lemma flush_inv pt' e b lv f a : valid_map pt' -> profile_ok lv (_page_profiles b) ->
  Z.of_nat (length (feature_cache_ (virt_block_cache_ e))) = kCacheSize ->
  inv pt' (with_flush f a (FlushTxlnCache (with_profile b lv e))).
Proof.
  intros Hm Hp Hf. constructor; [exact Hm | exact Hp | reflexivity | exact Hf |].
  intros i en. cbn. intros H. apply lookup_replicate in H as [-> _]. left. reflexivity.
Qed.

Lemma masks_ok fs : Forall (fun f => 0 <= fst f < 4) fs -> exists m l, GetRequiredMask fs = Ok m /\ GetLevelMask fs = Ok l.
Proof.
  intros H. unfold GetRequiredMask, GetLevelMask.
  assert (G : forall m l, exists m' l', required_loop fs m = Ok m' /\ level_loop fs l = Ok l').
  { induction H as [| [i v] r Hi Hr IH]; intros m l; [exists m, l; auto |]. cbn [required_loop level_loop fst] in *. unfold shl_int, shl_u32.
    replace (i * 8 <? 32) with true by lia. apply IH. }
  apply G.
Qed.

Lemma cache_index_range va : 0 <= cache_index va < kCacheSize.
Proof. apply Z.mod_pos_bound. reflexivity. Qed.

Lemma cache_Insert_ok va fn fs c : Z.of_nat (length (cache_ c)) = kCacheSize -> Z.of_nat (length (feature_cache_ c)) = kCacheSize ->
  Forall (fun f => 0 <= fst f < 4) fs ->
  exists c', cache_Insert va fn fs c = Ok c' /\ cache_ c' = set_at (cache_ c) (cache_index va) (mkEntry va fn) /\
    Z.of_nat (length (cache_ c')) = kCacheSize /\ Z.of_nat (length (feature_cache_ c')) = kCacheSize.
Proof.
  intros H1 H2 Hf. pose proof (cache_index_range va) as Hi. destruct (masks_ok fs Hf) as (m & l & E1 & E2). unfold cache_Insert, vec_set.
  rewrite H1, H2. replace ((0 <=? cache_index va) && (cache_index va <? kCacheSize)) with true by lia. cbn [rbind]. rewrite E1. cbn [rbind]. rewrite E2. cbn [rbind].
  eexists. split; [reflexivity |]. split; [reflexivity |]. cbn [cache_ feature_cache_]. unfold set_at. rewrite !length_insert. auto.
Qed.

Lemma GetEntry_ok va c : Z.of_nat (length (cache_ c)) = kCacheSize ->
  exists en, GetEntry va c = Ok en /\ cache_ c !! Z.to_nat (cache_index va) = Some en.
Proof.
  intros Hl. pose proof (cache_index_range va) as Hi. rewrite <- Hl in Hi. destruct (vec_get_in_range (cache_ c) (cache_index va) Hi) as [en E].
  exists en. split; [exact E |]. apply vec_get_Ok, E.
Qed.

(** Entering a translation of the profile into the cache. *)
Lemma cache_enter pt e b lv va pa : inv pt e -> pt va = Some pa -> profile_ok lv (_page_profiles b) ->
  (forall pa', fn_ (txln_at (pages e) pa') <> 0 -> fn_ (txln_at (_page_profiles b) pa') = fn_ (txln_at (pages e) pa')) ->
  fn_ (txln_at (_page_profiles b) pa) <> 0 -> usable (txln_at (_page_profiles b) pa) ->
  exists c, cache_Insert va (fn_ (txln_at (_page_profiles b) pa)) (GetFeatures (txln_at (_page_profiles b) pa)) (virt_block_cache_ (with_profile b lv e)) = Ok c /\
    inv pt (with_cache c (with_profile b lv e)).
Proof.
  intros [Hm Hp Hl1 Hl2 Hc] Hpt Hb Hsame Hfn [_ Hu].
  destruct (cache_Insert_ok va (fn_ (txln_at (_page_profiles b) pa)) _ (virt_block_cache_ e) Hl1 Hl2 Hu) as (c & E & Ec & L1 & L2).
  exists c. split; [exact E |]. constructor; cbn [with_cache with_profile virt_block_cache_ phys_block_profile_ live]; [exact Hm | exact Hb | exact L1 | exact L2 |].
  intros i en. rewrite Ec. unfold set_at. intros H. apply list_lookup_insert_Some in H as [(_ & <- & _) | [_ H]].
  - right. cbn. split; [exact Hfn |]. exists pa. auto.
  - destruct (Hc i en H) as [H0 | (H1 & pa' & H2 & H3)]; [left; exact H0 |]. right. split; [exact H1 |]. exists pa'. split; [exact H2 |].
    rewrite Hsame; congruence.
Qed.

Lemma page_index_ok pa : 0 <= pa < 2 ^ 32 -> (GetPageIndex pa <? kProfileCount) = true.
Proof. intros H. apply Z.ltb_lt. apply Z.div_lt_upper_bound; [lia | unfold kProfileCount; lia]. Qed.

(** Looking at the profile changes nothing that matters. *)
Lemma profile_Get_ok lv b pa : profile_ok lv (_page_profiles b) -> 0 <= pa < 2 ^ 32 ->
  exists b', profile_Get pa features b lv = Ok (txln_at (_page_profiles b) pa, b', lv) /\ profile_ok lv (_page_profiles b') /\
    (forall pa', fn_ (txln_at (_page_profiles b') pa') = fn_ (txln_at (_page_profiles b) pa')) /\
    (forall i, _dirty (page_of (_page_profiles b') i) = _dirty (page_of (_page_profiles b) i)) /\
    IsValid features (txln_at (_page_profiles b) pa) = Ok (negb (fn_ (txln_at (_page_profiles b) pa) =? 0)) /\
    (fn_ (txln_at (_page_profiles b) pa) <> 0 -> txln_at (_page_profiles b') pa = txln_at (_page_profiles b) pa).
Proof.
  intros Hb Hpa. unfold profile_Get, getProfile. rewrite (page_index_ok pa Hpa). cbn [rbind]. fold (page_of (_page_profiles b) (GetPageIndex pa)).
  fold (txln_at (_page_profiles b) pa). set (p := page_of (_page_profiles b) (GetPageIndex pa)). set (t := txln_at (_page_profiles b) pa).
  pose proof (page_of_ok lv _ (GetPageIndex pa) Hb) as Hp. fold p in Hp.
  assert (Hv : IsValid features t = Ok (negb (fn_ t =? 0))).
  { unfold IsValid. destruct (Z.eqb_spec (fn_ t) 0) as [E | E]; [reflexivity |]. apply (page_listed lv p Hp pa). exact E. }
  rewrite Hv. cbn [rbind].
  assert (Hput : forall p', page_ok lv p' -> _txlns p' = _txlns p -> _dirty p' = _dirty p -> (forall a, fn_ (page_Get a p') = fn_ (page_Get a p)) ->
    profile_ok lv (_page_profiles (with_page pa p' b)) /\
    (forall pa', fn_ (txln_at (_page_profiles (with_page pa p' b)) pa') = fn_ (txln_at (_page_profiles b) pa')) /\
    (forall i, _dirty (page_of (_page_profiles (with_page pa p' b)) i) = _dirty (page_of (_page_profiles b) i))).
  { intros p' H1 H2 H3 H4. cbn [with_page _page_profiles]. split; [| split].
    - apply (replace_page lv); [exact Hb | exact H1 | intros x Hx; left; fold p; rewrite <- H2; exact Hx | auto].
    - intros pa'. unfold txln_at. rewrite page_of_insert. case_decide as E; [| reflexivity]. rewrite E, H4. reflexivity.
    - intros i. rewrite page_of_insert. case_decide as E; [subst i; exact H3 | reflexivity]. }
  destruct (Z.eqb_spec (fn_ t) 0) as [E0 | E0]; cbn [negb].
  - destruct (InvalidateTxln_none lv p pa Hp E0) as (p' & -> & H1 & H2 & H3 & H4). cbn [rbind fst snd]. eexists. split; [reflexivity |].
    destruct (Hput p' H1 H2 H3 H4) as (G1 & G2 & G3). split; [exact G1 |]. split; [exact G2 |]. split; [exact G3 |]. split; [reflexivity | congruence].
  - eexists. split; [reflexivity |]. destruct (Hput p Hp eq_refl eq_refl (fun a => eq_refl)) as (G1 & G2 & G3).
    split; [exact G1 |]. split; [exact G2 |]. split; [exact G3 |]. split; [reflexivity |]. intros _. unfold txln_at. cbn [with_page _page_profiles].
    rewrite page_of_insert, decide_True by reflexivity. reflexivity.
Qed.

Lemma lookupBlock_ok pt e va : inv pt e -> 0 <= va < 2 ^ 64 - 1 ->
  exists r e', lookupBlock pt features va e = Ok (r, e') /\ inv pt e' /\ live e' = live e /\
    (forall i, _dirty (page_of (pages e') i) = _dirty (page_of (pages e) i)) /\
    match r with
    | Some fn => exists pa, pt va = Some pa /\ fn_ (txln_at (pages e') pa) = fn /\ fn <> 0
    | None => forall pa, pt va = Some pa -> fn_ (txln_at (pages e') pa) = 0
    end.
Proof.
  intros Hinv Hva. pose proof Hinv as [Hm Hp Hl1 Hl2 Hc]. unfold lookupBlock, Lookup. destruct (GetEntry_ok va _ Hl1) as (en & E & Hen). rewrite E. cbn [rbind].
  destruct (negb ((if virt_tag en =? va then ptr en else 0) =? 0)) eqn:Eh.
  { destruct (Z.eqb_spec (virt_tag en) va) as [Et | Et]; [| discriminate Eh]. destruct (Hc _ en Hen) as [H0 | (H1 & pa & H2 & H3)]; [lia |].
    exists (Some (ptr en)), e. split; [reflexivity |]. split; [exact Hinv |]. split; [reflexivity |]. split; [reflexivity |]. exists pa. subst va. auto. }
  destruct (pt va) as [pa |] eqn:Ept.
  2: { exists None, e. split; [reflexivity |]. split; [exact Hinv |]. split; [reflexivity |]. split; [reflexivity | discriminate]. }
  destruct (profile_Get_ok (live e) (phys_block_profile_ e) pa Hp (Hm va pa Ept)) as (b' & -> & Hb & Hfn & Hd & Hv & Hsame). cbn [rbind]. rewrite Hv. cbn [rbind].
  destruct (Z.eqb_spec (fn_ (txln_at (pages e) pa)) 0) as [E0 | E0]; cbn [negb].
  - exists None, (with_profile b' (live e) e). split; [reflexivity |]. split; [| split; [reflexivity |]; split; [exact Hd |]].
    + constructor; cbn; [exact Hm | exact Hb | exact Hl1 | exact Hl2 |]. intros i en' H. destruct (Hc i en' H) as [H0 | (H1 & pa' & H2 & H3)]; [left; exact H0 |].
      right. split; [exact H1 |]. exists pa'. rewrite Hfn. auto.
    + intros pa' [= <-]. cbn. rewrite Hfn. exact E0.
  - destruct (cache_enter pt e b' (live e) va pa Hinv Ept Hb) as (c & Ec & Hi).
    + intros pa' _. apply Hfn.
    + rewrite Hfn. exact E0.
    + rewrite (Hsame E0). apply (page_listed (live e) _ (page_of_ok (live e) _ (GetPageIndex pa) Hp) pa). exact E0.
    + rewrite (Hsame E0) in Ec. rewrite Ec. cbn [rbind]. eexists _, _. split; [reflexivity |]. split; [exact Hi |]. split; [reflexivity |].
      split; [exact Hd |]. exists pa. split; [reflexivity |]. split; [apply Hfn | exact E0].
Qed.

(** ** Flushing *)

Lemma profile_Invalidate_ok lv b : profile_ok lv (_page_profiles b) ->
  exists b' lv', profile_Invalidate b lv = Ok (b', lv') /\ profile_ok lv' (_page_profiles b') /\ lv' ⊆ lv /\
    (forall i, _dirty (page_of (_page_profiles b') i) = true -> _dirty (page_of (_page_profiles b) i) = true).
Proof.
  intros Hb. unfold profile_Invalidate.
  destruct (invalidate_pages_ok (map_to_list (_page_profiles b)) lv (_page_profiles b) Hb) as (m' & lv' & -> & H).
  - apply NoDup_fst_map_to_list.
  - intros i p Hi. apply elem_of_map_to_list, list_elem_of_In, Hi.
  - cbn [rbind fst snd]. eexists _, _. split; [reflexivity | exact H].
Qed.

Lemma checkCodeSize_ok pt e : inv pt e ->
  exists e', checkCodeSize e = Ok e' /\ inv pt e' /\ live e' ⊆ live e /\
    (forall i, _dirty (page_of (pages e') i) = true -> _dirty (page_of (pages e) i) = true).
Proof.
  intros Hi. assert (Hid : exists e', Ok e = Ok e' /\ inv pt e' /\ live e' ⊆ live e /\
    (forall i, _dirty (page_of (pages e') i) = true -> _dirty (page_of (pages e) i) = true)) by (exists e; auto).
  unfold checkCodeSize. case_match; [exact Hid |]. case_match; [| exact Hid].
  destruct (profile_Invalidate_ok _ _ (inv_profile pt e Hi)) as (b' & lv' & -> & Hp & Hs & Hd). cbn [rbind fst snd].
  eexists. split; [reflexivity |].
  split; [exact (flush_inv pt e b' lv' (flush_txlns_ e) (flush_all_txlns_ e) (inv_map pt e Hi) Hp (inv_features pt e Hi)) |]. auto.
Qed.

Lemma checkFlushTxlns_ok pt e aggressive : inv pt e -> exists e', checkFlushTxlns aggressive e = Ok e' /\ inv pt e' /\ live e' ⊆ live e.
Proof.
  intros Hi. unfold checkFlushTxlns. destruct (flush_txlns_ e); [| exists e; auto].
  assert (G : exists b' lv', (if aggressive || flush_all_txlns_ e then profile_Invalidate (phys_block_profile_ e) (live e)
    else GarbageCollect (phys_block_profile_ e) (live e)) = Ok (b', lv') /\ profile_ok lv' (_page_profiles b') /\ lv' ⊆ live e).
  { destruct (aggressive || flush_all_txlns_ e).
    - destruct (profile_Invalidate_ok _ _ (inv_profile pt e Hi)) as (b' & lv' & E & Hp & Hs & _). eauto.
    - unfold GarbageCollect. destruct (collect_pages_ok (_dirty_pages (phys_block_profile_ e)) _ _ (inv_profile pt e Hi)) as (m' & lv' & -> & Hp).
      cbn [rbind fst snd]. eexists _, _. split; [reflexivity | exact Hp]. }
  destruct G as (b' & lv' & -> & Hp & Hs). cbn [rbind fst snd]. eexists. split; [reflexivity |].
  split; [apply flush_inv; [exact (inv_map pt e Hi) | exact Hp | exact (inv_features pt e Hi)] | exact Hs].
Qed.

Lemma InvalidateRegion_ok pt e pa : inv pt e -> 0 <= pa < 2 ^ 32 -> exists e', InvalidateRegion pa e = Ok e' /\ inv pt e'.
Proof.
  intros [Hm Hp Hl1 Hl2 Hc] Hpa. unfold InvalidateRegion, MarkPageDirty, getProfile. rewrite (page_index_ok pa Hpa). cbn [rbind].
  fold (page_of (pages e) (GetPageIndex pa)). set (p := page_of (pages e) (GetPageIndex pa)). eexists. split; [reflexivity |].
  pose proof (page_of_ok _ _ (GetPageIndex pa) Hp) as Hpo. fold p in Hpo.
  constructor; cbn [with_profile with_page phys_block_profile_ virt_block_cache_ live _page_profiles]; [exact Hm | | exact Hl1 | exact Hl2 |].
  - apply (replace_page (live e)); [exact Hp | destruct Hpo; constructor; assumption | auto | auto].
  - intros i en H. destruct (Hc i en H) as [H0 | (H1 & pa' & H2 & H3)]; [left; exact H0 |]. right. split; [exact H1 |]. exists pa'. split; [exact H2 |].
    rewrite <- H3. unfold txln_at. rewrite page_of_insert. case_decide as E; [rewrite E |]; reflexivity.
Qed.

(** ** Translating a block *)

Lemma registerTranslation_ok pt e va pa t : inv pt e -> pt va = Some pa -> _dirty (page_of (pages e) (GetPageIndex pa)) = false ->
  fn_ (txln_at (pages e) pa) = 0 -> fn_ t <> 0 -> fn_ t ∉ live e -> usable t ->
  exists e', registerTranslation pa va t (with_profile (phys_block_profile_ e) ({[fn_ t]} ∪ live e) e) = Ok e' /\ inv pt e' /\ live e' = {[fn_ t]} ∪ live e.
Proof.
  intros Hi Hpt Hd H0 Hn Hf Hu. pose proof Hi as [Hm Hp Hl1 Hl2 Hc]. unfold registerTranslation, profile_Insert, getProfile.
  rewrite (page_index_ok pa (Hm va pa Hpt)). cbn [rbind with_profile phys_block_profile_ live]. fold (page_of (pages e) (GetPageIndex pa)).
  set (p := page_of (pages e) (GetPageIndex pa)) in *. pose proof (page_of_ok _ _ (GetPageIndex pa) Hp) as Hpo. fold p in Hpo.
  assert (Hnot : forall j, fn_ t ∉ _txlns (page_of (pages e) j)) by (intros j Hj; apply Hf, (page_owned _ _ (page_of_ok _ _ j Hp)), Hj).
  assert (Hpo' : page_ok ({[fn_ t]} ∪ live e) p) by (destruct Hpo; constructor; [set_solver | assumption ..]).
  destruct (page_Insert_ok ({[fn_ t]} ∪ live e) p pa t Hpo' Hd H0 Hn (Hnot _)) as (p' & -> & K1 & K2 & K3 & K4); [set_solver | exact Hu |].
  cbn [rbind fst snd]. set (b := with_page pa p' (mkProfile _ _ _)).
  assert (Hb : profile_ok ({[fn_ t]} ∪ live e) (_page_profiles b)).
  { apply (replace_page (live e)); [exact Hp | exact K1 | | set_solver].
    intros x. rewrite K2. intros Hx. apply elem_of_union in Hx as [Hx | Hx]; [right | left; exact Hx]. apply elem_of_singleton in Hx. subst x. auto. }
  assert (Eb : txln_at (_page_profiles b) pa = t).
  { unfold txln_at, b. cbn [with_page _page_profiles]. rewrite page_of_insert, decide_True by reflexivity. exact K3. }
  destruct (cache_enter pt e b ({[fn_ t]} ∪ live e) va pa Hi Hpt Hb) as (c & Ec & Hinv); [| rewrite Eb; exact Hn | rewrite Eb; exact Hu |].
  - intros pa' Hpa'. unfold txln_at, b in *. cbn [with_page _page_profiles]. rewrite page_of_insert. case_decide as E; [| reflexivity].
    rewrite E in *. rewrite K4; [reflexivity | exact Hpa'].
  - rewrite Eb in Ec. change (virt_block_cache_ (with_profile b ({[fn_ t]} ∪ live e) e)) with (virt_block_cache_ e) in Ec.
    cbn [with_profile virt_block_cache_ phys_block_profile_ live] in *. rewrite Ec. cbn [rbind]. eexists. split; [reflexivity |]. split; [exact Hinv | reflexivity].
Qed.

(** The code is allocated after the caches have been cleared for their size. *)
Definition new_code (t : BlockTranslation) (e : Engine) : Prop := forall e1, checkCodeSize e = Ok e1 -> fn_ t ∉ live e1.

Lemma translateBlock_ok pt e va pa t : inv pt e -> 0 <= va < 2 ^ 64 - 1 -> pt va = Some pa -> _dirty (page_of (pages e) (GetPageIndex pa)) = false ->
  fn_ t <> 0 -> new_code t e -> usable t ->
  exists e1 e', checkCodeSize e = Ok e1 /\ translateBlock pt features va (Some t) e = Ok (true, e') /\ inv pt e' /\
    (live e' = live e1 \/ live e' = {[fn_ t]} ∪ live e1).
Proof.
  intros Hi Hva Hpt Hd Hn Hf Hu. unfold translateBlock. destruct (checkCodeSize_ok pt e Hi) as (e1 & E1 & Hi1 & Hs1 & Hd1). rewrite E1. cbn [rbind]. exists e1.
  destruct (lookupBlock_ok pt e1 va Hi1 Hva) as (r & e2 & -> & Hi2 & El & Ed & Hr). cbn [rbind fst snd]. destruct r as [fn |]; [exists e2; auto |].
  rewrite Hpt. cbn [default]. unfold id. destruct (registerTranslation_ok pt e2 va pa t Hi2 Hpt) as (e3 & -> & Hi3 & El3); [| exact (Hr pa Hpt) | exact Hn | | exact Hu |].
  - rewrite Ed. destruct (_dirty (page_of (pages e1) (GetPageIndex pa))) eqn:E; [| reflexivity]. rewrite (Hd1 _ E) in Hd. exact Hd.
  - rewrite El. exact (Hf e1 E1).
  - exists e3. rewrite El3, El. auto.
Qed.

(** ** Runs of the engine *)

(** What happens between two steps of [ExecuteLoop]: look-ups, translations,
    and the events that are published.  A change of the mapping comes with the
    flush of the instruction TLB. *)
Inductive event :=
| ELookup (va : Z)
| ETranslate (va : Z) (t : BlockTranslation)
| ERemap (pt' : Z -> option Z)
| EPublish (type : PubSubType)
| ECheck (aggressive : bool).

Definition do_event (ev : event) (pt : Z -> option Z) (e : Engine) : result ((Z -> option Z) * Engine) :=
  match ev with
  | ELookup va => let* r := lookupBlock pt features va e in Ok (pt, snd r)
  | ETranslate va t => let* r := translateBlock pt features va (Some t) e in Ok (pt, snd r)
  | ERemap pt' => let* e1 := flush_txlns_callback [features] ITlbFullFlush e in Ok (pt', e1)
  | EPublish type => let* e1 := flush_txlns_callback [features] type e in Ok (pt, e1)
  | ECheck aggressive => let* e1 := checkFlushTxlns aggressive e in Ok (pt, e1)
  end.

(** Guest addresses below the tag of an empty entry, physical addresses that
    the profile covers, code that the allocator has just made, no translation on
    a page that is marked dirty, and no change of features. *)
Definition allowed (ev : event) (pt : Z -> option Z) (e : Engine) : Prop :=
  match ev with
  | ELookup va => 0 <= va < 2 ^ 64 - 1
  | ETranslate va t =>
      0 <= va < 2 ^ 64 - 1 /\ fn_ t <> 0 /\ new_code t e /\ usable t /\
      exists pa, pt va = Some pa /\ _dirty (page_of (pages e) (GetPageIndex pa)) = false
  | ERemap pt' => valid_map pt'
  | EPublish FeatureChange => False
  | EPublish (RegionInvalidatePhysical pa) => 0 <= pa < 2 ^ 32
  | EPublish _ | ECheck _ => True
  end.

Inductive reachable (max_code_size : Z) : (Z -> option Z) -> Engine -> Prop :=
| reach_init pt : valid_map pt -> reachable max_code_size pt (new_engine max_code_size)
| reach_step pt e ev pt' e' : reachable max_code_size pt e -> allowed ev pt e -> do_event ev pt e = Ok (pt', e') -> reachable max_code_size pt' e'.

Lemma flush_only pt pt' e f a : inv pt e -> valid_map pt' -> inv pt' (with_flush f a (FlushTxlnCache e)).
Proof. intros [_ Hp _ Hf _] Hm. exact (flush_inv pt' e (phys_block_profile_ e) (live e) f a Hm Hp Hf). Qed.

Lemma jit_event_ok pt e ev : inv pt e -> allowed ev pt e -> exists pt' e', do_event ev pt e = Ok (pt', e') /\ inv pt' e'.
Proof.
  intros Hi. destruct ev as [va | va t | pt' | type | ag]; cbn [allowed do_event].
  - intros Hva. destruct (lookupBlock_ok pt e va Hi Hva) as (r & e' & -> & Hi' & _). cbn. eauto.
  - intros (Hva & Hn & Hf & Hu & pa & Hpt & Hd). destruct (translateBlock_ok pt e va pa t Hi Hva Hpt Hd Hn Hf Hu) as (e1 & e' & _ & -> & Hi' & _). cbn. eauto.
  - intros Hm. eexists _, _. split; [reflexivity |]. exact (flush_only pt pt' e _ _ Hi Hm).
  - intros Ha. assert (Hf : forall f a, inv pt (with_flush f a (FlushTxlnCache e))) by (intros; exact (flush_only pt pt e _ _ Hi (inv_map pt e Hi))).
    destruct type as [| | | | | | pa]; cbn [flush_txlns_callback rbind]; [| | | | destruct Ha | |].
    6: { destruct (InvalidateRegion_ok pt e pa Hi Ha) as (e' & -> & Hi'). cbn. eauto. }
    all: eexists _, _; split; [reflexivity | apply Hf].
  - intros _. destruct (checkFlushTxlns_ok pt e ag Hi) as (e' & -> & Hi' & _). cbn. eauto.
Qed.

Lemma reachable_inv n pt e : reachable n pt e -> inv pt e.
Proof.
  induction 1 as [pt Hm | pt e ev pt' e' _ IH Ha E]; [apply new_engine_inv, Hm |].
  destruct (jit_event_ok pt e ev IH Ha) as (pt1 & e1 & E1 & Hi). rewrite E in E1. injection E1 as -> ->. exact Hi.
Qed.

(** A function that may be called: it has not been freed, and it is the
    translation of the block at the physical address. *)
Definition callable (pt : Z -> option Z) (e : Engine) (va fn : Z) : Prop :=
  fn <> 0 /\ fn ∈ live e /\ exists pa, pt va = Some pa /\ fn_ (txln_at (pages e) pa) = fn /\ usable (txln_at (pages e) pa).

Lemma txln_callable pt e va pa : inv pt e -> pt va = Some pa -> fn_ (txln_at (pages e) pa) <> 0 -> callable pt e va (fn_ (txln_at (pages e) pa)).
Proof.
  intros Hi Hpt Hn. pose proof (page_of_ok _ _ (GetPageIndex pa) (inv_profile pt e Hi)) as Hp. destruct (page_listed _ _ Hp pa Hn) as [Hin Hu].
  split; [exact Hn |]. split; [exact (page_owned _ _ Hp _ Hin) |]. exists pa. auto.
Qed.

(** C10. The events that are [allowed] are look-ups of guest addresses below
    the tag of an empty entry, translations into code the allocator has just
    made, of mapped blocks on pages that are not marked dirty, remappings,
    checks for a flush, and published events other than a change of features
    (translating on a dirty page and a change of features break what follows).
    In every state the engine reaches by such events, every such event is
    carried out without a double free and without an access out of bounds,
    and what [ExecuteInnerLoop] calls, and what [lookupBlock] finds, is code
    that has not been freed, translated from the block at the physical address
    to which the program counter is mapped, for the features of the thread. *)
Theorem jit_cache_safe n pt e : reachable n pt e ->
  (forall ev, allowed ev pt e -> exists s, do_event ev pt e = Ok s) /\
  (forall va fn, 0 <= va < 2 ^ 64 - 1 -> inner_step va e = Ok (Some fn) -> callable pt e va fn) /\
  (forall va fn e', 0 <= va < 2 ^ 64 - 1 -> lookupBlock pt features va e = Ok (Some fn, e') -> callable pt e' va fn).
Proof.
  intros Hr. pose proof (reachable_inv n pt e Hr) as Hi. split; [| split].
  - intros ev Ha. destruct (jit_event_ok pt e ev Hi Ha) as (pt' & e' & E & _). eauto.
  - intros va fn Hva. unfold inner_step. destruct (GetEntry_ok va _ (inv_entries pt e Hi)) as (en & -> & Hen). cbn [rbind].
    destruct (Z.eqb_spec (virt_tag en) va) as [Et |]; [| discriminate]. intros H. injection H as H. subst fn.
    destruct (inv_cache pt e Hi _ en Hen) as [H0 | (H1 & pa & H2 & H3)]; [lia |]. rewrite Et in H2. rewrite <- H3 in *. apply txln_callable; assumption.
  - intros va fn e' Hva E. destruct (lookupBlock_ok pt e va Hi Hva) as (r & e1 & E1 & Hi1 & _ & _ & Hr1). rewrite E in E1.
    injection E1 as <- <-. destruct Hr1 as (pa & Hpt & Hfn & Hn). rewrite <- Hfn in *. apply txln_callable; assumption.
Qed.

End Safe.

Definition identity_map (va : Z) : option Z := if (0 <=? va) && (va <? 2 ^ 32) then Some va else None.
Lemma identity_map_valid : valid_map identity_map.
Proof. intros va pa. unfold identity_map. case_match eqn:E; [| discriminate]. intros H. apply (inj Some) in H. lia. Qed.

Definition first_block : BlockTranslation := AddRequiredFeature 0 1 (mkTxln 500 None 64).
Definition one_block : Engine :=
  match do_event [(0, 1)] (ETranslate 4096 first_block) identity_map (new_engine 0) with Ok s => snd s | _ => new_engine 0 end.

Lemma one_block_made : is_ok (translateBlock identity_map [(0, 1)] 4096 (Some first_block) (new_engine 0)) = true.
Proof. vm_compute. reflexivity. Qed.
Lemma first_block_allowed : allowed [(0, 1)] (ETranslate 4096 first_block) identity_map (new_engine 0).
Proof.
  split; [lia |]. split; [discriminate |]. split.
  { intros e1 E. change (Ok (new_engine 0) = Ok e1) in E. injection E as <-. apply not_elem_of_empty. }
  split.
  - split; [reflexivity |]. repeat constructor; cbn; lia.
  - exists 4096. split; [reflexivity |]. cbn. unfold page_of. rewrite lookup_empty. reflexivity.
Qed.

Lemma one_block_reachable : reachable [(0, 1)] 0 identity_map one_block.
Proof.
  apply (reach_step _ 0 identity_map (new_engine 0) (ETranslate 4096 first_block) identity_map one_block).
  - apply reach_init, identity_map_valid.
  - exact first_block_allowed.
  - pose proof one_block_made as H. unfold one_block. cbn [do_event]. destruct (translateBlock _ _ _ _ _); [reflexivity | discriminate H].
Qed.

Lemma jit_cache_safe_witness : reachable [(0, 1)] 0 identity_map one_block /\ inner_step 4096 one_block = Ok (Some 500) /\
  callable [(0, 1)] identity_map one_block 4096 500.
Proof.
  split; [exact one_block_reachable |]. split; [vm_compute; reflexivity |].
  destruct (jit_cache_safe [(0, 1)] 0 identity_map one_block one_block_reachable) as (_ & H & _). apply H; [lia |]. vm_compute. reflexivity.
Defined.

(** A page is invalidated while the engine runs (the guest writes to it), and
    another block of it is translated before the next flush: [Insert] frees the
    functions of the page, but the cache by virtual address still has them. *)
Definition translate_dirty_page : result (option Z * bool) :=
  let* r1 := translateBlock identity_map [(0, 1)] 4096 (Some first_block) (new_engine 0) in
  let* e2 := InvalidateRegion 4096 (snd r1) in
  let* r3 := translateBlock identity_map [(0, 1)] 4200 (Some (mkTxln 600 None 64)) e2 in
  let* fn := inner_step 4096 (snd r3) in
  Ok (fn, bool_decide (500 ∈ live (snd r3))).
Lemma dirty_page_use_after_free : translate_dirty_page = Ok (Some 500, false).
Proof. vm_compute. reflexivity. Qed.
