(* ===== verification/JITFeatures.v ===== *)
(** * Flushing by processor features is exact

    [BlockCache::InvalidateFeatures] compares two masks that were stored with a
    translation with a mask of the features the processor has.  For the first
    four features, with levels of eight bits, an entry stays in the cache
    exactly when [BlockTranslation::FeaturesValid] holds of its translation.
    The notification of a change, however, is sent before the change. *)

From Stdlib Require Import ZArith Lia List Bool.
From stdpp Require Import base numbers list gmap sets.
From S2P Require Import Prelude JITCache.
Import ListNotations.
#[local] Open Scope Z_scope.
#[local] Open Scope gensim_scope.

(** A bit of a level that has been put into the field of a feature. *)
Definition field_bit (n : Z) (f : Z * Z) : bool := (0 <=? n) && (n / 8 =? fst f) && Z.testbit (snd f) (n mod 8).

Lemma shl_u32_bits i l : 0 <= i < 4 -> 0 <= l < 256 -> exists v, shl_u32 l (i * 8) = Ok v /\ forall n, Z.testbit v n = field_bit n (i, l).
Proof.
  intros Hi Hl. unfold shl_u32. replace (i * 8 <? 32) with true by lia. eexists. split; [reflexivity |]. intros n. unfold u32, field_bit. cbn [fst snd].
  rewrite testbit_wrap, testbit_shiftl_u by lia. destruct (Z.leb_spec 0 n) as [Hn | Hn]; [| rewrite andb_false_r; reflexivity]. cbn [andb].
  pose proof (Z.div_mod n 8 ltac:(lia)) as E. pose proof (Z.mod_pos_bound n 8 ltac:(lia)) as Hm. destruct (Z.eqb_spec (n / 8) i) as [Ei | Ei]; cbn [andb].
  - replace (n <? 32) with true by lia. cbn [andb]. f_equal. lia.
  - rewrite andb_comm. destruct (Z.ltb_spec (n - i * 8) 0) as [H | H]; [rewrite Z.testbit_neg_r by exact H; reflexivity |].
    rewrite (testbit_high 8); [reflexivity | lia | unfold in_range; lia | lia].
Qed.

Lemma shl_int_bits i : 0 <= i < 4 -> exists v, shl_int 0xff (i * 8) = Ok v /\ forall n, 0 <= n < 32 -> Z.testbit v n = (n / 8 =? i).
Proof.
  intros Hi. unfold shl_int. replace (i * 8 <? 32) with true by lia. eexists. split; [reflexivity |].
  assert (C : forallb (fun i => forallb (fun n => eqb (Z.testbit (u64 (sext 32 (Z.shiftl 0xff (i * 8)))) n) (n / 8 =? i)) (seqZ 0 32)) (seqZ 0 4) = true)
    by (vm_compute; reflexivity).
  intros n Hn. rewrite forallb_forall in C. assert (Hin : In i (seqZ 0 4)) by (apply list_elem_of_In, elem_of_seqZ; lia).
  pose proof (C i Hin) as D. cbv beta in D. rewrite forallb_forall in D. apply eqb_prop, D, list_elem_of_In, elem_of_seqZ. lia.
Qed.

(** ** Masks *)

Definition small_features (m : feature_map) : Prop := NoDup (map fst m) /\ Forall (fun f => 0 <= fst f < 4 /\ 0 <= snd f < 256) m.

Lemma available_bits m : forall acc, Forall (fun f => 0 <= fst f < 4 /\ 0 <= snd f < 256) m ->
  exists r, available_loop m acc = Ok r /\ forall n, Z.testbit r n = Z.testbit acc n || existsb (field_bit n) m.
Proof.
  induction m as [| [i l] r IH]; intros acc H; cbn [available_loop existsb]; [exists acc; split; [reflexivity |]; intros; rewrite orb_false_r; reflexivity |].
  apply Forall_cons in H as [[Hi Hl] Hr]. cbn [fst snd] in *. replace (7 <=? i) with false by lia. destruct (shl_u32_bits i l Hi Hl) as (v & -> & Hv). cbn [rbind].
  destruct (IH (Z.lor acc v) Hr) as (q & -> & Hq). exists q. split; [reflexivity |]. intros n. rewrite Hq, Z.lor_spec, Hv, orb_assoc. reflexivity.
Qed.

Lemma level_bits m : forall acc, Forall (fun f => 0 <= fst f < 4 /\ 0 <= snd f < 256) m ->
  exists r, level_loop m acc = Ok r /\ forall n, Z.testbit r n = Z.testbit acc n || existsb (field_bit n) m.
Proof.
  induction m as [| [i l] r IH]; intros acc H; cbn [level_loop existsb]; [exists acc; split; [reflexivity |]; intros; rewrite orb_false_r; reflexivity |].
  apply Forall_cons in H as [[Hi Hl] Hr]. cbn [fst snd] in *. destruct (shl_u32_bits i l Hi Hl) as (v & -> & Hv). cbn [rbind]. replace (7 <=? i) with false by lia.
  destruct (IH (Z.lor acc v) Hr) as (q & -> & Hq). exists q. split; [reflexivity |]. intros n. rewrite Hq, Z.lor_spec, Hv, orb_assoc. reflexivity.
Qed.

Lemma required_bits m : forall acc, Forall (fun f => 0 <= fst f < 4 /\ 0 <= snd f < 256) m ->
  exists r, required_loop m acc = Ok r /\ forall n, 0 <= n < 32 -> Z.testbit r n = Z.testbit acc n || existsb (fun f => n / 8 =? fst f) m.
Proof.
  induction m as [| [i l] r IH]; intros acc H; cbn [required_loop existsb]; [exists acc; split; [reflexivity |]; intros; rewrite orb_false_r; reflexivity |].
  apply Forall_cons in H as [[Hi Hl] Hr]. cbn [fst snd] in *. destruct (shl_int_bits i Hi) as (v & -> & Hv). cbn [rbind]. replace (7 <=? i) with false by lia.
  destruct (IH (Z.lor acc v) Hr) as (q & -> & Hq). exists q. split; [reflexivity |]. intros n Hn. rewrite Hq, Z.lor_spec, Hv, orb_assoc by exact Hn. reflexivity.
Qed.

(** The fields of a map with distinct features. *)
Lemma feature_level_In i l m : NoDup (map fst m) -> feature_level i m = Some l <-> In (i, l) m.
Proof.
  unfold feature_level. induction m as [| [j k] r IH]; intros Hn; cbn [List.find map fst] in *; [split; [discriminate | intros []] |].
  apply NoDup_cons in Hn as [Hj Hn]. destruct (Z.eqb_spec j i) as [-> | Hne].
  - cbn. split; [intros H; apply (inj Some) in H; subst; auto |]. intros [H | H]; [congruence |]. exfalso. apply Hj, list_elem_of_In, in_map_iff. exists (i, l). auto.
  - rewrite (IH Hn). split; [intros H; right; exact H |]. intros [H | H]; [congruence | exact H].
Qed.

Lemma fields_bit n m : NoDup (map fst m) -> 0 <= n ->
  existsb (field_bit n) m = match feature_level (n / 8) m with Some l => Z.testbit l (n mod 8) | None => false end.
Proof.
  intros Hn H0. unfold feature_level. induction m as [| [j k] r IH]; [reflexivity |]. cbn [existsb List.find map fst] in *. apply NoDup_cons in Hn as [Hj Hn].
  rewrite (IH Hn). unfold field_bit. cbn [fst snd]. replace (0 <=? n) with true by lia. cbn [andb]. rewrite (Z.eqb_sym j). destruct (Z.eqb_spec (n / 8) j) as [E | E]; cbn [andb orb]; [| reflexivity].
  destruct (List.find _ r) as [[i l] |] eqn:Ef; cbn; [| apply orb_false_r]. apply find_some in Ef as [Hin Ef]. cbn in Ef. exfalso. apply Hj, list_elem_of_In, in_map_iff.
  exists (i, l). split; [cbn; lia | exact Hin].
Qed.

Lemma field_present n m : existsb (fun f : Z * Z => n / 8 =? fst f) m = match feature_level (n / 8) m with Some _ => true | None => false end.
Proof.
  unfold feature_level. induction m as [| [j k] r IH]; [reflexivity |]. cbn [existsb List.find fst]. rewrite (Z.eqb_sym j). destruct (n / 8 =? j); [reflexivity | exact IH].
Qed.

Lemma features_agree_spec req av : (forall i, In i (map fst req) -> exists l, feature_level i av = Some l) ->
  exists b, features_agree req av = Ok b /\ (b = true <-> forall i l, In (i, l) req -> feature_level i av = Some l).
Proof.
  induction req as [| [i l] r IH]; intros H; cbn [features_agree]; [exists true; split; [reflexivity |]; split; [intros _ ? ? [] | reflexivity] |].
  destruct (H i) as [la Ea]; [left; reflexivity |]. unfold GetFeatureLevel. rewrite Ea. cbn [of_option rbind].
  destruct (Z.eqb_spec la l) as [-> | Hne].
  - destruct IH as (b & E & Hb); [intros j Hj; apply H; right; exact Hj |]. exists b. split; [exact E |]. rewrite Hb. split.
    + intros K j k [F | F]; [injection F as <- <-; exact Ea | apply K, F].
    + intros K j k F. apply K. right. exact F.
  - exists false. split; [reflexivity |]. split; [discriminate |]. intros K. rewrite (K i l) in Ea by (left; reflexivity). congruence.
Qed.

(** ** The comparison of the masks *)

Lemma byte_bits_inj a b : 0 <= a < 256 -> 0 <= b < 256 -> (forall k, 0 <= k < 8 -> Z.testbit a k = Z.testbit b k) -> a = b.
Proof. intros Ha Hb H. apply (bits_eq_upto 8); [lia | unfold in_range; lia | unfold in_range; lia | exact H]. Qed.

Lemma feature_level_small m i l : small_features m -> feature_level i m = Some l -> 0 <= i < 4 /\ 0 <= l < 256.
Proof. intros [Hn H] E. apply feature_level_In in E; [| exact Hn]. rewrite Forall_forall in H. apply (H (i, l)), list_elem_of_In, E. Qed.

Lemma masks_agree av req am rm lm : small_features av -> small_features req ->
  (forall n, Z.testbit am n = existsb (field_bit n) av) -> (forall n, 0 <= n < 32 -> Z.testbit rm n = existsb (fun f => n / 8 =? fst f) req) ->
  (forall n, Z.testbit lm n = existsb (field_bit n) req) ->
  (forall i, In i (map fst req) -> exists l, feature_level i av = Some l) ->
  Z.land am rm = lm <-> (forall i l, In (i, l) req -> feature_level i av = Some l).
Proof.
  intros Hav Hreq Ea Er El Hsub. pose proof (proj1 Hav) as Na. pose proof (proj1 Hreq) as Nr. split.
  - intros E i l Hin. destruct (Hsub i) as [la La]; [apply in_map_iff; exists (i, l); auto |]. rewrite La. f_equal.
    apply (feature_level_In i l req Nr) in Hin. destruct (feature_level_small av i la Hav La) as [Hi Hla]. destruct (feature_level_small req i l Hreq Hin) as [_ Hl].
    apply byte_bits_inj; [exact Hla | exact Hl |]. intros k Hk.
    assert (B : Z.testbit (Z.land am rm) (i * 8 + k) = Z.testbit lm (i * 8 + k)) by (rewrite E; reflexivity).
    assert (Q : (i * 8 + k) / 8 = i) by (symmetry; apply (Z.div_unique_pos _ 8 i k); lia). assert (R : (i * 8 + k) mod 8 = k) by (symmetry; apply (Z.mod_unique_pos _ 8 i k); lia).
    rewrite Z.land_spec, Ea, Er, El, field_present, !fields_bit, Q, R, La, Hin, andb_true_r in B by (assumption || lia). exact B.
  - intros Hag. apply Z.bits_inj'. intros n Hn. rewrite Z.land_spec, Ea, El, !fields_bit by assumption. destruct (Z.ltb_spec n 32) as [H32 | H32].
    + rewrite Er, field_present by lia. destruct (feature_level (n / 8) req) as [l |] eqn:E; [| rewrite andb_false_r; reflexivity].
      rewrite (Hag (n / 8) l) by (apply feature_level_In; assumption). apply andb_true_r.
    + assert (High : forall m, small_features m -> feature_level (n / 8) m = None).
      { intros m Hm. destruct (feature_level (n / 8) m) as [l |] eqn:E; [| reflexivity]. destruct (feature_level_small m _ l Hm E) as [Hi _].
        pose proof (Z.div_le_lower_bound n 8 4). lia. }
      rewrite (High av Hav), (High req Hreq). reflexivity.
Qed.

Lemma no_high_bits am av : small_features av -> (forall n, Z.testbit am n = existsb (field_bit n) av) -> Z.land am 0xf000000000000000 = 0.
Proof.
  intros Hav Ea. apply Z.bits_inj'. intros n Hn. rewrite Z.land_spec, Z.bits_0, Ea, fields_bit by (apply Hav || exact Hn).
  destruct (feature_level (n / 8) av) as [l |] eqn:E; [| reflexivity]. destruct (feature_level_small av _ l Hav E) as [Hi _].
  assert (Hb : n < 32) by (pose proof (Z.div_mod n 8 ltac:(lia)); pose proof (Z.mod_pos_bound n 8 ltac:(lia)); lia).
  change 0xf000000000000000 with (Z.shiftl 0xf 60). rewrite Z.shiftl_spec_low by lia. apply andb_false_r.
Qed.

Lemma invalidate_features_lookup mask es : forall fs i e f, es !! i = Some e -> fs !! i = Some f ->
  invalidate_features mask es fs !! i = Some (if negb (Z.land mask (feature_required_mask f) =? feature_level_mask f) then mkEntry 1 (ptr e) else e).
Proof.
  induction es as [| x r IH]; intros fs i e f He Hf; [discriminate He |]. destruct fs as [| y q]; [discriminate Hf |]. destruct i as [| i].
  - apply (inj Some) in He, Hf. subst. reflexivity.
  - exact (IH q i e f He Hf).
Qed.

(** C11. The features of the processor and of a translation have
    numbers below four and levels of eight bits (above, their bits collide with
    others), the processor has every feature the translation requires, and the
    address is not 1, the tag of an empty entry. When the translation has been
    entered into the cache, and the cache is flushed for the features of the
    processor, the entry is found again exactly when [FeaturesValid] holds of
    the translation, and no shift is undefined. *)
Theorem feature_flush_exact av req va fn c c' :
  small_features av -> small_features req -> (forall i, In i (map fst req) -> exists l, feature_level i av = Some l) ->
  va <> 1 -> Z.of_nat (length (cache_ c)) = kCacheSize -> Z.of_nat (length (feature_cache_ c)) = kCacheSize -> cache_Insert va fn req c = Ok c' ->
  exists mask valid, GetAvailableMask av = Ok mask /\ FeaturesValid av (mkTxln fn (Some req) 0) = Ok valid /\
    Lookup va (InvalidateFeatures mask c') = Ok (if valid then fn else 0).
Proof.
  intros Hav Hreq Hsub Hva L1 L2. unfold GetAvailableMask, FeaturesValid, cache_Insert, GetRequiredMask, GetLevelMask, vec_set.
  destruct (available_bits av 0 (proj2 Hav)) as (am & -> & Ea). destruct (required_bits req 0 (proj2 Hreq)) as (rm & -> & Er).
  destruct (level_bits req 0 (proj2 Hreq)) as (lm & -> & El). setoid_rewrite Z.bits_0 in Ea. setoid_rewrite Z.bits_0 in Er. setoid_rewrite Z.bits_0 in El. cbn [rbind].
  pose proof (Z.mod_pos_bound va kCacheSize ltac:(reflexivity)) as Hi. fold (cache_index va) in Hi. rewrite L1, L2.
  replace ((0 <=? cache_index va) && (cache_index va <? kCacheSize)) with true by lia. cbn [rbind]. intros H. injection H as <-.
  rewrite (no_high_bits am av Hav Ea). cbn [rbind Z.eqb]. destruct (features_agree_spec req av Hsub) as (valid & Ev & Hv). exists am, valid.
  split; [reflexivity |]. split; [exact Ev |]. pose proof (masks_agree av req am rm lm Hav Hreq Ea Er El Hsub) as M.
  assert (S1 : set_at (cache_ c) (cache_index va) (mkEntry va fn) !! Z.to_nat (cache_index va) = Some (mkEntry va fn)) by (apply list_lookup_insert_eq; lia).
  assert (S2 : set_at (feature_cache_ c) (cache_index va) (mkFeatures rm lm) !! Z.to_nat (cache_index va) = Some (mkFeatures rm lm)) by (apply list_lookup_insert_eq; lia).
  unfold Lookup, GetEntry, InvalidateFeatures. cbn [cache_ feature_cache_].
  rewrite (proj2 (vec_get_Ok _ _ _) (conj (proj1 Hi) (invalidate_features_lookup am _ _ _ _ _ S1 S2))). cbn [rbind feature_required_mask feature_level_mask ptr].
  destruct (Z.eqb_spec (Z.land am rm) lm) as [E | E]; cbn [negb virt_tag ptr].
  - rewrite Z.eqb_refl. replace valid with true by (symmetry; apply Hv, M, E). reflexivity.
  - replace (1 =? va) with false by lia. destruct valid; [| reflexivity]. exfalso. apply E, M, Hv. reflexivity.
Qed.

Definition two_levels (a b : Z) : feature_map := [(0, a); (3, b)].
Lemma two_levels_small a b : 0 <= a < 256 -> 0 <= b < 256 -> small_features (two_levels a b).
Proof. intros Ha Hb. split; [apply (bool_decide_unpack (NoDup [0; 3])); exact I |]. repeat constructor; cbn; lia. Qed.

Lemma feature_flush_exact_witness : exists mask c, GetAvailableMask (two_levels 1 200) = Ok mask /\
  cache_Insert 4096 500 [(3, 201)] new_cache = Ok c /\ Lookup 4096 (InvalidateFeatures mask c) = Ok 0.
Proof.
  assert (E : exists c, cache_Insert 4096 500 [(3, 201)] new_cache = Ok c) by (apply is_ok_true; vm_compute; reflexivity). destruct E as [c E].
  destruct (feature_flush_exact (two_levels 1 200) [(3, 201)] 4096 500 new_cache c) as (mask & valid & E1 & E2 & E3).
  - apply two_levels_small; lia.
  - split; [apply (bool_decide_unpack (NoDup [3])); exact I |]. repeat constructor; cbn; lia.
  - intros i [<- | []]. exists 200. reflexivity.
  - lia.
  - reflexivity.
  - reflexivity.
  - exact E.
  - exists mask, c. split; [exact E1 |]. split; [exact E |]. vm_compute in E2. injection E2 as <-. exact E3.
Defined.

(** [SetFeatureLevel] notifies the engine while the level is still the old one:
    the flush keeps exactly the entries that are about to become invalid, and
    the code for the old level is found for the new one. *)
Definition stale_feature : result (Z * bool) :=
  let* e1 := registerTranslation 4096 4096 (mkTxln 500 (Some [(3, 200)]) 64) (new_engine 0) in
  let* fe := SetFeatureLevel 3 201 (two_levels 1 200) e1 in
  let* fn := Lookup 4096 (virt_block_cache_ (snd fe)) in
  let* valid := FeaturesValid (fst fe) (mkTxln 500 (Some [(3, 200)]) 64) in
  Ok (fn, valid).
Lemma feature_change_ignored : stale_feature = Ok (500, false).
Proof. vm_compute. reflexivity. Qed.
(** The masks are undefined from the fifth feature on, although they are meant
    for seven. *)
Lemma feature_four_undefined l r : GetRequiredMask ((4, l) :: r) = Err UndefinedBehaviour.
Proof. reflexivity. Qed.
