(* ===== verification/MemAllocator.v ===== *)
(** * The zone allocator (archsim/inc/util/MemAllocator.h, src/util/MemAllocator.cpp)

    SimpleZoneMemAllocator hands out buffers from chunks of one megabyte.  A
    buffer has a header in front of it with its chunk and its size; a chunk
    counts its buffers and is given back when the last one is freed; the buffer
    handed out last can grow and shrink in place.

    Memory is a function from addresses to bytes, and headers are stored in it.
    [objects] are the Chunk objects by their address.  What the system gives for
    a new chunk, the address of the object and of its memory, is a parameter;
    [None] is a failure of [mmap], which the code does not look for. *)

From Stdlib Require Import ZArith Lia List Bool.
From stdpp Require Import base numbers list gmap sets.
From S2P Require Import Prelude.
Import ListNotations.
#[local] Open Scope Z_scope.
#[local] Open Scope gensim_scope.

(** ** Memory *)

Definition memory : Type := Z -> Z.
Definition read_bytes (a : Z) (n : nat) (m : memory) : list Z := map (fun i => m (a + Z.of_nat i)) (seq 0 n).
Definition write_bytes (a : Z) (bs : list Z) (m : memory) : memory :=
  fun x => if a <=? x then default (m x) (bs !! Z.to_nat (x - a)) else m x.
Fixpoint bytes_of (n : nat) (v : Z) : list Z :=
  match n with O => [] | S k => v mod 256 :: bytes_of k (v / 256) end.
Fixpoint value_of (bs : list Z) : Z := match bs with [] => 0 | b :: r => b + 256 * value_of r end.
Definition load64 (a : Z) (m : memory) : Z := value_of (read_bytes a 8 m).
Definition store64 (a v : Z) (m : memory) : memory := write_bytes a (bytes_of 8 v) m.

(** ** Chunks *)

Definition kChunkSize : Z := 1024 * 1024.
Definition header_size : Z := 16.
Record Chunk := mkChunk { _data : Z; _data_ptr : Z; _allocated_pointers : Z }.

Definition ConsumedSpace (c : Chunk) : Z := u64 (_data_ptr c - _data c).
Definition RemainingSpace (c : Chunk) : Z := u64 (kChunkSize - ConsumedSpace c).
Definition Align (p : Z) : Z := if Z.land p 0xf =? 0 then p else Z.land (p + 0x10) (Z.lnot 0xf).
Definition Extend (bytes : Z) (c : Chunk) : result Chunk :=
  check* bytes <=? RemainingSpace c or AssertFailed in
  Ok (mkChunk (_data c) (Align (_data_ptr c + bytes)) (_allocated_pointers c)).
Definition Shrink (bytes : Z) (c : Chunk) : result Chunk :=
  check* _data c <=? _data_ptr c - bytes or AssertFailed in
  Ok (mkChunk (_data c) (Align (_data_ptr c - bytes)) (_allocated_pointers c)).
Definition Empty (c : Chunk) : bool := _allocated_pointers c =? 0.

(** [Chunk::Allocate]: a buffer, or the null pointer when there is no room. *)
Definition chunk_Allocate (self bytes : Z) (c : Chunk) (m : memory) : result (Z * Chunk * memory) :=
  check* bytes <? kChunkSize or AssertFailed in
  if RemainingSpace c <? u64 (bytes + header_size) then Ok (0, c, m)
  else
    let hdr := _data_ptr c in
    let* c1 := Extend header_size c in
    let m1 := store64 (hdr + 8) bytes (store64 hdr self m) in
    let curr_ptr := _data_ptr c1 in
    let* c2 := Extend bytes c1 in
    let c3 := mkChunk (_data c2) (Align (_data_ptr c2)) (u32 (_allocated_pointers c2 + 1)) in
    check* Z.land curr_ptr 0xf =? 0 or AssertFailed in
    Ok (curr_ptr, c3, m1).
Definition chunk_Free (ptr : Z) (c : Chunk) : result Chunk :=
  check* (_data c <=? ptr) && (ptr <? _data c + kChunkSize) or AssertFailed in
  Ok (mkChunk (_data c) (_data_ptr c) (u32 (_allocated_pointers c - 1))).

(** ** The allocator *)

Record Zone := mkZone {
  _chunks : list Z;
  _active_chunk : Z;
  _last_buffer : Z;
  objects : gmap Z Chunk;
  mem : memory
}.
Definition new_zone (m : memory) : Zone := mkZone [] 0 0 ∅ m.
Definition put_chunk (k : Z) (c : Chunk) (m : memory) (s : Zone) : Zone :=
  mkZone (_chunks s) (_active_chunk s) (_last_buffer s) (<[k := c]> (objects s)) m.
Definition set_last (p : Z) (s : Zone) : Zone := mkZone (_chunks s) (_active_chunk s) p (objects s) (mem s).
Definition chunk_at (k : Z) (s : Zone) : result Chunk := of_option UndefinedBehaviour (objects s !! k).

Section OS.
Context (new_chunk : gmap Z Chunk -> option (Z * Z)).

Definition add_chunk (s : Zone) : result Zone :=
  match new_chunk (objects s) with
  | None => Err UndefinedBehaviour
  | Some (k, data) => Ok (mkZone (_chunks s ++ [k]) k (_last_buffer s) (<[k := mkChunk data data 0]> (objects s)) (mem s))
  end.
Definition allocate_in (size_bytes : Z) (s : Zone) : result (Z * Zone) :=
  let* c := chunk_at (_active_chunk s) s in
  let* r := chunk_Allocate (_active_chunk s) size_bytes c (mem s) in
  let '(p, c1, m1) := r in
  Ok (p, put_chunk (_active_chunk s) c1 m1 s).
Definition Allocate (size_bytes : Z) (s : Zone) : result (Z * Zone) :=
  let* fits := (if _active_chunk s =? 0 then Ok false else let* c := chunk_at (_active_chunk s) s in Ok (size_bytes <=? RemainingSpace c)) in
  let* s1 := (if fits then Ok s else add_chunk s) in
  let* r := allocate_in size_bytes s1 in
  let* r2 := (if fst r =? 0 then let* s2 := add_chunk (snd r) in allocate_in size_bytes s2 else Ok r) in
  Ok (fst r2, set_last (fst r2) (snd r2)).

Definition Free (buffer : Z) (s : Zone) : result Zone :=
  let parent := load64 (buffer - header_size) (mem s) in
  let* c := chunk_at parent s in
  let* c1 := chunk_Free buffer c in
  let s1 := put_chunk parent c1 (mem s) s in
  let s2 := if Empty c1 then
      mkZone (List.filter (fun k => negb (k =? parent)) (_chunks s1)) (if parent =? _active_chunk s1 then 0 else _active_chunk s1)
        (_last_buffer s1) (delete parent (objects s1)) (mem s1)
    else s1 in
  Ok (if buffer =? _last_buffer s2 then set_last 0 s2 else s2).

(** The end of [Reallocate]: another buffer, with the contents that fit. *)
Definition move (buffer new_size_bytes : Z) (s : Zone) : result (Z * Zone) :=
  let* r := Allocate new_size_bytes s in
  let '(new_buffer, s1) := r in
  if buffer =? 0 then Ok (new_buffer, s1)
  else
    let size := load64 (buffer - 8) (mem s1) in
    let copy_size := if size <? new_size_bytes then size else new_size_bytes in
    check* negb (new_buffer =? 0) or UndefinedBehaviour in
    let s2 := mkZone (_chunks s1) (_active_chunk s1) (_last_buffer s1) (objects s1)
      (write_bytes new_buffer (read_bytes buffer (Z.to_nat copy_size) (mem s1)) (mem s1)) in
    let* s3 := Free buffer s2 in
    Ok (new_buffer, s3).
Definition Reallocate (buffer new_size_bytes : Z) (s : Zone) : result (Z * Zone) :=
  if (buffer =? _last_buffer s) && negb (buffer =? 0) then
    let parent := load64 (buffer - header_size) (mem s) in
    let size := load64 (buffer - 8) (mem s) in
    let* c := chunk_at parent s in
    let resized := store64 (buffer - 8) new_size_bytes (mem s) in
    if size <? new_size_bytes then
      let extra_space := new_size_bytes - size in
      if extra_space <=? RemainingSpace c then
        let* c1 := Extend extra_space c in
        Ok (buffer, put_chunk parent c1 resized s)
      else move buffer new_size_bytes s
    else
      let* c1 := Shrink (size - new_size_bytes) c in
      Ok (buffer, put_chunk parent c1 resized s)
  else move buffer new_size_bytes s.
End OS.
