(* ===== verification/MemAllocatorSafe.v ===== *)
(** * The zone allocator refines a heap

    The abstract heap maps the addresses of buffers to their contents.  Every
    operation of the allocator succeeds and does what the heap operation does;
    buffers and their headers never overlap, and nothing but a write by its
    owner changes the contents of a buffer. *)

From Stdlib Require Import ZArith Lia List Bool.
From stdpp Require Import base numbers list gmap sets fin_maps.
From S2P Require Import Prelude MemAllocator.
Import ListNotations.
#[local] Open Scope Z_scope.
#[local] Open Scope gensim_scope.

(** ** Memory *)

Definition same_on (a b : Z) (m m' : memory) : Prop := forall x, a <= x < b -> m' x = m x.

Lemma read_bytes_length a n m : length (read_bytes a n m) = n.
Proof. unfold read_bytes. rewrite length_map, length_seq. reflexivity. Qed.
Lemma read_bytes_lookup a n m i : (i < n)%nat -> read_bytes a n m !! i = Some (m (a + Z.of_nat i)).
Proof. intros H. unfold read_bytes. rewrite list_lookup_fmap, lookup_seq_lt by exact H. reflexivity. Qed.
Lemma read_bytes_ext a n m m' : same_on a (a + Z.of_nat n) m m' -> read_bytes a n m' = read_bytes a n m.
Proof. intros H. unfold read_bytes. apply map_ext_in. intros i Hi. apply in_seq in Hi. apply H. lia. Qed.
Lemma write_bytes_out a bs m x : x < a \/ a + Z.of_nat (length bs) <= x -> write_bytes a bs m x = m x.
Proof.
  intros H. unfold write_bytes. destruct (Z.leb_spec a x) as [Hx | Hx]; [| reflexivity].
  assert (L : bs !! Z.to_nat (x - a) = None) by (apply lookup_ge_None_2; lia). rewrite L. reflexivity.
Qed.
Lemma write_bytes_in a bs m i b : bs !! i = Some b -> write_bytes a bs m (a + Z.of_nat i) = b.
Proof.
  intros H. unfold write_bytes. rewrite (proj2 (Z.leb_le a (a + Z.of_nat i))) by lia.
  replace (Z.to_nat (a + Z.of_nat i - a)) with i by lia. rewrite H. reflexivity.
Qed.
Lemma read_write_bytes a bs m : read_bytes a (length bs) (write_bytes a bs m) = bs.
Proof.
  apply list_eq. intros i. destruct (decide (i < length bs)%nat) as [H | H].
  - rewrite read_bytes_lookup by exact H. destruct (lookup_lt_is_Some_2 bs i H) as [b E]. rewrite E. f_equal. apply write_bytes_in, E.
  - rewrite !lookup_ge_None_2; [reflexivity | lia | rewrite read_bytes_length; lia].
Qed.
Lemma write_bytes_same a bs m x y : y <= a \/ a + Z.of_nat (length bs) <= x -> same_on x y m (write_bytes a bs m).
Proof. intros H z Hz. apply write_bytes_out. lia. Qed.

Lemma bytes_of_length n : forall v, length (bytes_of n v) = n.
Proof. induction n as [| n IH]; intros v; cbn; [reflexivity | rewrite IH; reflexivity]. Qed.
Lemma value_bytes n : forall v, value_of (bytes_of n v) = v mod 256 ^ Z.of_nat n.
Proof.
  induction n as [| n IH]; intros v; [cbn; rewrite Z.mod_1_r; reflexivity |]. cbn [bytes_of value_of]. rewrite IH.
  rewrite Nat2Z.inj_succ, Z.pow_succ_r by lia. rewrite Z.rem_mul_r by (try lia; apply Z.pow_nonzero; lia). reflexivity.
Qed.
Lemma load_store a v m : 0 <= v < 2 ^ 64 -> load64 a (store64 a v m) = v.
Proof.
  intros Hv. unfold load64, store64. rewrite <- (bytes_of_length 8 v) at 1. rewrite read_write_bytes, value_bytes. apply Z.mod_small. exact Hv.
Qed.
Lemma load_same a m m' : same_on a (a + 8) m m' -> load64 a m' = load64 a m.
Proof. intros H. unfold load64. rewrite (read_bytes_ext a 8 m m'); [reflexivity | exact H]. Qed.
Lemma store_same a v m x y : y <= a \/ a + 8 <= x -> same_on x y m (store64 a v m).
Proof. intros H. apply write_bytes_same. rewrite bytes_of_length. exact H. Qed.
Lemma same_on_trans x y m1 m2 m3 : same_on x y m1 m2 -> same_on x y m2 m3 -> same_on x y m1 m3.
Proof. intros H1 H2 z Hz. rewrite H2, H1 by exact Hz. reflexivity. Qed.
Lemma same_on_sub a b x y m m' : same_on a b m m' -> a <= x -> y <= b -> same_on x y m m'.
Proof. intros H H1 H2 z Hz. apply H. lia. Qed.

(** ** Alignment *)

Lemma Align_spec p : p <= Align p < p + 16 /\ Align p mod 16 = 0.
Proof.
  unfold Align. change 0xf with (Z.ones 4). rewrite Z.land_ones by lia. change (2 ^ 4) with 16. destruct (Z.eqb_spec (p mod 16) 0) as [E | E]; [lia |].
  rewrite <- Z.ldiff_land, Z.ldiff_ones_r, Z.shiftr_div_pow2, Z.shiftl_mul_pow2 by lia. change (2 ^ 4) with 16. change 0x10 with 16.
  split; [| apply Z.mod_mul; lia]. pose proof (Z.div_mod (p + 16) 16 ltac:(lia)). pose proof (Z.mod_pos_bound (p + 16) 16 ltac:(lia)).
  assert (Em : (p + 16) mod 16 = p mod 16) by (replace (p + 16) with (p + 1 * 16) by lia; apply Z.mod_add; lia).
  pose proof (Z.mod_pos_bound p 16 ltac:(lia)). lia.
Qed.
Lemma Align_le p q : p <= q -> q mod 16 = 0 -> Align p <= q.
Proof.
  intros H E. pose proof (Align_spec p) as [H1 H2]. pose proof (Z.div_mod q 16 ltac:(lia)). pose proof (Z.div_mod (Align p) 16 ltac:(lia)). nia.
Qed.
Lemma Align_id p : p mod 16 = 0 -> Align p = p.
Proof. intros H. pose proof (Align_le p p ltac:(lia) H). pose proof (Align_spec p). lia. Qed.

(** ** The invariant *)

(** Buffers with the chunk they are in and their contents. *)
Abbreviation blockmap := (gmap Z (Z * list Z)).
Abbreviation len bs := (Z.of_nat (length bs)).
Definition count (k : Z) (blocks : blockmap) : Z := Z.of_nat (size (filter (fun b => b.2.1 = k) blocks)).

Definition block_at (m : memory) (p k : Z) (bs : list Z) : Prop :=
  load64 (p - 16) m = k /\ load64 (p - 8) m = len bs /\ read_bytes p (length bs) m = bs.

Record chunk_ok (blocks : blockmap) (k : Z) (c : Chunk) : Prop := {
  ck_key : 0 < k < 2 ^ 64;
  ck_data : 0 < _data c /\ _data c mod 16 = 0 /\ _data c + kChunkSize <= 2 ^ 64;
  ck_ptr : _data c <= _data_ptr c <= _data c + kChunkSize /\ _data_ptr c mod 16 = 0;
  ck_count : _allocated_pointers c = count k blocks;
  ck_bound : 16 * count k blocks <= _data_ptr c - _data c
}.

Record zone_base (blocks : blockmap) (s : Zone) : Prop := {
  zb_chunk k c : objects s !! k = Some c -> chunk_ok blocks k c;
  zb_apart k k' c c' : k <> k' -> objects s !! k = Some c -> objects s !! k' = Some c' -> _data c + kChunkSize <= _data c' \/ _data c' + kChunkSize <= _data c;
  zb_block p k bs : blocks !! p = Some (k, bs) -> bs <> [] /\ p mod 16 = 0 /\ block_at (mem s) p k bs /\
    exists c, objects s !! k = Some c /\ _data c + 16 <= p /\ p + len bs <= _data_ptr c;
  zb_disjoint p q k k' bs bs' : p <> q -> blocks !! p = Some (k, bs) -> blocks !! q = Some (k', bs') -> p + len bs <= q - 16 \/ q + len bs' <= p - 16;
  zb_list : NoDup (_chunks s) /\ forall k, k ∈ _chunks s <-> is_Some (objects s !! k);
  zb_active : _active_chunk s = 0 \/ is_Some (objects s !! _active_chunk s)
}.
(** The buffer that was handed out last is the topmost of the active chunk. *)
Definition last_ok (blocks : blockmap) (s : Zone) : Prop :=
  _last_buffer s = 0 \/ exists bs c, blocks !! _last_buffer s = Some (_active_chunk s, bs) /\ objects s !! _active_chunk s = Some c /\
    16 * count (_active_chunk s) blocks <= _last_buffer s - _data c /\ forall q bs', blocks !! q = Some (_active_chunk s, bs') -> q <= _last_buffer s.
Definition zone_ok (blocks : blockmap) (s : Zone) : Prop := zone_base blocks s /\ last_ok blocks s.

Lemma block_at_same m m' p k bs : same_on (p - 16) (p + len bs) m m' -> block_at m p k bs -> block_at m' p k bs.
Proof.
  intros H (H1 & H2 & H3). unfold block_at.
  rewrite (load_same (p - 16) m m'), (load_same (p - 8) m m'), (read_bytes_ext p (length bs) m m') by (eapply same_on_sub; [exact H | lia | lia]). auto.
Qed.

Lemma len_pos (bs : list Z) : bs <> [] -> 0 < len bs.
Proof. destruct bs; [congruence | cbn; lia]. Qed.

(** *** Counting the buffers of a chunk *)

Lemma count_insert_new k blocks p k' bs : blocks !! p = None -> count k (<[p := (k', bs)]> blocks) = count k blocks + (if decide (k' = k) then 1 else 0).
Proof.
  intros H. unfold count. rewrite map_filter_insert. cbn [fst snd]. case_decide as E.
  - rewrite map_size_insert_None by (apply map_lookup_filter_None; left; exact H). lia.
  - rewrite delete_id by exact H. lia.
Qed.
Lemma count_delete k blocks p k' bs : blocks !! p = Some (k', bs) -> count k (delete p blocks) = count k blocks - (if decide (k' = k) then 1 else 0).
Proof.
  intros H. unfold count. rewrite map_filter_delete. case_decide as E.
  - assert (Hs : filter (fun b : Z * (Z * list Z) => b.2.1 = k) blocks !! p = Some (k', bs)) by (apply map_lookup_filter_Some; auto).
    rewrite map_size_delete_Some by (exists (k', bs); exact Hs).
    assert (size (filter (fun b : Z * (Z * list Z) => b.2.1 = k) blocks) <> 0%nat) by (rewrite map_size_non_empty_iff; intros E0; rewrite E0, lookup_empty in Hs; discriminate). lia.
  - rewrite delete_id; [lia |]. apply map_lookup_filter_None. right. intros x Hx. rewrite H in Hx. injection Hx as <-. exact E.
Qed.
Lemma count_insert_same k blocks p k' bs0 bs : blocks !! p = Some (k', bs0) -> count k (<[p := (k', bs)]> blocks) = count k blocks.
Proof.
  intros H. rewrite <- insert_delete_eq. rewrite count_insert_new by apply lookup_delete_eq. rewrite (count_delete k blocks p k' bs0 H). lia.
Qed.
Lemma count_pos k blocks p bs : blocks !! p = Some (k, bs) -> 0 < count k blocks.
Proof. intros H. pose proof (count_delete k blocks p k bs H) as E. rewrite decide_True in E by reflexivity. unfold count in *. lia. Qed.
Lemma count_nonneg k blocks : 0 <= count k blocks.
Proof. unfold count. lia. Qed.

(** ** Putting a buffer into a chunk

    A buffer of a chunk is added or changed: the chunk still covers all its
    buffers, and the others are left alone. *)
Lemma put_block blocks s k c c' p bs m' : zone_base blocks s -> objects s !! k = Some c ->
  match blocks !! p with Some (k0, _) => k0 = k | None => True end ->
  _data c' = _data c -> _data c <= _data_ptr c' <= _data c + kChunkSize -> _data_ptr c' mod 16 = 0 ->
  _allocated_pointers c' = count k (<[p := (k, bs)]> blocks) -> 16 * count k (<[p := (k, bs)]> blocks) <= _data_ptr c' - _data c ->
  bs <> [] -> p mod 16 = 0 -> block_at m' p k bs -> _data c + 16 <= p -> p + len bs <= _data_ptr c' ->
  (forall q k' bs', q <> p -> blocks !! q = Some (k', bs') -> same_on (q - 16) (q + len bs') (mem s) m' /\
    (p + len bs <= q - 16 \/ q + len bs' <= p - 16) /\ (k' = k -> q + len bs' <= _data_ptr c')) ->
  zone_base (<[p := (k, bs)]> blocks) (put_chunk k c' m' s).
Proof.
  intros Hz Hk Hp Ed Er Em Ec Eb Hn Hpa Hat Hlo Hhi Hother.
  assert (Hcount : forall k', k' <> k -> count k' (<[p := (k, bs)]> blocks) = count k' blocks).
  { intros k' Hk'. destruct (blocks !! p) as [[k0 bs0] |] eqn:E; [subst k0; apply (count_insert_same k' blocks p k bs0 bs E) |].
    rewrite (count_insert_new k' blocks p k bs E), decide_False by congruence. lia. }
  assert (Hobj : forall k', is_Some (<[k := c']> (objects s) !! k') <-> is_Some (objects s !! k')).
  { intros k'. destruct (decide (k' = k)) as [-> |]; [rewrite lookup_insert_eq, Hk; split; eauto | rewrite lookup_insert_ne by congruence; reflexivity]. }
  assert (Hdata : forall k' d, <[k := c']> (objects s) !! k' = Some d -> exists d0, objects s !! k' = Some d0 /\ _data d = _data d0).
  { intros k' d. destruct (decide (k' = k)) as [-> |]; [rewrite lookup_insert_eq; intros H; injection H as <-; eauto | rewrite lookup_insert_ne by congruence; eauto]. }
  pose proof (zb_chunk blocks s Hz k c Hk) as [K1 K2 _ _ _].
  constructor; cbn [put_chunk objects mem _chunks _active_chunk].
  - intros k' d H. destruct (decide (k' = k)) as [-> | Hne].
    + rewrite lookup_insert_eq in H. injection H as <-. constructor; rewrite ?Ed; auto.
    + rewrite lookup_insert_ne in H by congruence. destruct (zb_chunk blocks s Hz k' d H). constructor; rewrite ?Hcount by exact Hne; auto.
  - intros k1 k2 d1 d2 Hne H1 H2. destruct (Hdata k1 d1 H1) as (e1 & F1 & ->). destruct (Hdata k2 d2 H2) as (e2 & F2 & ->).
    exact (zb_apart blocks s Hz k1 k2 e1 e2 Hne F1 F2).
  - intros q k' bs' H. destruct (decide (q = p)) as [-> | Hne].
    + rewrite lookup_insert_eq in H. injection H as <- <-. split; [exact Hn |]. split; [exact Hpa |]. split; [exact Hat |].
      exists c'. rewrite lookup_insert_eq, Ed. auto.
    + rewrite lookup_insert_ne in H by congruence. destruct (zb_block blocks s Hz q k' bs' H) as (B1 & B2 & B3 & d & B4 & B5 & B6).
      destruct (Hother q k' bs' Hne H) as (O1 & O2 & O3). split; [exact B1 |]. split; [exact B2 |]. split; [exact (block_at_same _ _ _ _ _ O1 B3) |].
      destruct (decide (k' = k)) as [-> | Hk'].
      * exists c'. rewrite lookup_insert_eq, Ed. assert (d = c) by congruence. subst d. auto.
      * exists d. rewrite lookup_insert_ne by congruence. auto.
  - intros q1 q2 k1 k2 b1 b2 Hne H1 H2. destruct (decide (q1 = p)) as [-> | N1]; destruct (decide (q2 = p)) as [-> | N2]; [congruence | | |].
    + rewrite lookup_insert_eq in H1. injection H1 as <- <-. rewrite lookup_insert_ne in H2 by congruence. apply (Hother q2 k2 b2 N2 H2).
    + rewrite lookup_insert_eq in H2. injection H2 as <- <-. rewrite lookup_insert_ne in H1 by congruence. destruct (Hother q1 k1 b1 N1 H1) as (_ & O2 & _). tauto.
    + rewrite lookup_insert_ne in H1 by congruence. rewrite lookup_insert_ne in H2 by congruence. exact (zb_disjoint blocks s Hz q1 q2 k1 k2 b1 b2 Hne H1 H2).
  - destruct (zb_list blocks s Hz) as [L1 L2]. split; [exact L1 |]. intros k'. rewrite L2, Hobj. reflexivity.
  - destruct (zb_active blocks s Hz) as [L | L]; [left; exact L | right; apply Hobj, L].
Qed.

(** Where the buffers of other chunks are. *)
Lemma block_outside blocks s k c q k' bs' : zone_base blocks s -> objects s !! k = Some c -> blocks !! q = Some (k', bs') -> k' <> k ->
  q + len bs' <= _data c \/ _data c + kChunkSize <= q - 16.
Proof.
  intros Hz Hk Hq Hne. destruct (zb_block blocks s Hz q k' bs' Hq) as (_ & _ & _ & d & B4 & B5 & B6).
  destruct (zb_apart blocks s Hz k k' c d ltac:(congruence) Hk B4); pose proof (ck_ptr _ _ _ (zb_chunk blocks s Hz k' d B4)); lia.
Qed.

(** ** New chunks *)

Definition fresh_chunk (objs : gmap Z Chunk) (k data : Z) : Prop :=
  objs !! k = None /\ 0 < k < 2 ^ 64 /\ 0 < data /\ data mod 4096 = 0 /\ data + kChunkSize <= 2 ^ 64 /\
  forall k' c, objs !! k' = Some c -> data + kChunkSize <= _data c \/ _data c + kChunkSize <= data.

Lemma RemainingSpace_range c : 0 < _data c -> _data c + kChunkSize <= 2 ^ 64 -> _data c <= _data_ptr c <= _data c + kChunkSize ->
  RemainingSpace c = _data c + kChunkSize - _data_ptr c.
Proof.
  intros H1 H2 H3. unfold RemainingSpace, ConsumedSpace, u64. unfold kChunkSize in *. rewrite !wrap_small; unfold in_range; try lia. rewrite wrap_small; unfold in_range; lia.
Qed.
Lemma RemainingSpace_ok blocks k c : chunk_ok blocks k c -> RemainingSpace c = _data c + kChunkSize - _data_ptr c.
Proof. intros [_ H1 H2 _ _]. apply RemainingSpace_range; lia. Qed.
Lemma Extend_ok n c : 0 < _data c -> _data c mod 16 = 0 -> _data c + kChunkSize <= 2 ^ 64 -> _data c <= _data_ptr c -> 0 <= n -> _data_ptr c + n <= _data c + kChunkSize ->
  Extend n c = Ok (mkChunk (_data c) (Align (_data_ptr c + n)) (_allocated_pointers c)) /\ _data_ptr c + n <= Align (_data_ptr c + n) <= _data c + kChunkSize.
Proof.
  intros H1 H2 H3 H4 H5 H6. unfold Extend. rewrite RemainingSpace_range by lia. replace (n <=? _data c + kChunkSize - _data_ptr c) with true by lia.
  split; [reflexivity |]. split; [apply Align_spec | apply Align_le; [exact H6 |]].
  unfold kChunkSize. replace (_data c + 1024 * 1024) with (_data c + 65536 * 16) by lia. rewrite Z.mod_add by lia. exact H2.
Qed.

Lemma mod_4096_16 x : x mod 4096 = 0 -> x mod 16 = 0.
Proof. intros H. pose proof (Z.div_mod x 4096 ltac:(lia)). replace x with (256 * (x / 4096) * 16) by lia. apply Z.mod_mul. lia. Qed.

Lemma no_blocks blocks s k : zone_base blocks s -> objects s !! k = None -> count k blocks = 0.
Proof.
  intros Hz H. unfold count. rewrite map_empty_filter_2; [reflexivity |]. intros p [k' bs] Hp E. cbn in E. subst k'.
  destruct (zb_block blocks s Hz p k bs Hp) as (_ & _ & _ & c & Hc & _). congruence.
Qed.

Lemma add_chunk_ok blocks s k data : zone_base blocks s -> fresh_chunk (objects s) k data ->
  zone_base blocks (mkZone (_chunks s ++ [k]) k (_last_buffer s) (<[k := mkChunk data data 0]> (objects s)) (mem s)).
Proof.
  intros Hz (F1 & F2 & F3 & F4 & F5 & F6). pose proof (mod_4096_16 data F4) as F4'. pose proof (no_blocks blocks s k Hz F1) as F7.
  constructor; cbn [objects mem _chunks _active_chunk].
  - intros k' c H. destruct (decide (k' = k)) as [-> | Hne].
    + rewrite lookup_insert_eq in H. injection H as <-. constructor; cbn; unfold kChunkSize in *; rewrite ?F7; auto; lia.
    + rewrite lookup_insert_ne in H by congruence. exact (zb_chunk blocks s Hz k' c H).
  - intros k1 k2 c1 c2 Hne H1 H2. destruct (decide (k1 = k)) as [-> |]; destruct (decide (k2 = k)) as [-> |]; [congruence | | |].
    + rewrite lookup_insert_eq in H1. injection H1 as <-. rewrite lookup_insert_ne in H2 by congruence. exact (F6 k2 c2 H2).
    + rewrite lookup_insert_eq in H2. injection H2 as <-. rewrite lookup_insert_ne in H1 by congruence. destruct (F6 k1 c1 H1); cbn; tauto.
    + rewrite lookup_insert_ne in H1 by congruence. rewrite lookup_insert_ne in H2 by congruence. exact (zb_apart blocks s Hz k1 k2 c1 c2 Hne H1 H2).
  - intros p k' bs Hp. destruct (zb_block blocks s Hz p k' bs Hp) as (B1 & B2 & B3 & c & B4 & B5). split; [exact B1 |]. split; [exact B2 |]. split; [exact B3 |].
    exists c. rewrite lookup_insert_ne by congruence. auto.
  - exact (zb_disjoint blocks s Hz).
  - destruct (zb_list blocks s Hz) as [L1 L2]. split.
    + apply NoDup_app. split; [exact L1 |]. split; [| apply NoDup_singleton]. intros x Hx Hk. apply list_elem_of_singleton in Hk. subst x. apply L2 in Hx. rewrite F1 in Hx. destruct Hx as [? E]. discriminate.
    + intros k'. rewrite elem_of_app, list_elem_of_singleton, L2. destruct (decide (k' = k)) as [-> | Hne]; [rewrite lookup_insert_eq; split; eauto |].
      rewrite lookup_insert_ne by congruence. tauto.
  - right. rewrite lookup_insert_eq. eauto.
Qed.

(** ** Allocating *)

Lemma chunk_Allocate_ok blocks s k c n : zone_base blocks s -> objects s !! k = Some c -> 0 < n -> n + 16 <= RemainingSpace c ->
  let p := _data_ptr c + 16 in
  exists c' m' (bs : list Z), chunk_Allocate k n c (mem s) = Ok (p, c', m') /\ _data c' = _data c /\ len bs = n /\ blocks !! p = None /\
    zone_base (<[p := (k, bs)]> blocks) (put_chunk k c' m' s) /\
    16 * count k (<[p := (k, bs)]> blocks) <= p - _data c /\ (forall q bs', blocks !! q = Some (k, bs') -> q <= p).
Proof.
  intros Hz Hk Hn Hr p. pose proof (zb_chunk blocks s Hz k c Hk) as Hc. pose proof Hc as [K1 (D1 & D2 & D3) [P1 P2] C1 C2].
  rewrite (RemainingSpace_ok _ _ _ Hc) in Hr. pose proof (count_nonneg k blocks) as C0. assert (Hp16 : p mod 16 = 0) by (unfold p; replace 16 with (1 * 16) at 1 by lia; rewrite Z.mod_add by lia; exact P2).
  assert (Hdown : forall q bs', blocks !! q = Some (k, bs') -> q + len bs' <= _data_ptr c).
  { intros q bs' Hq. destruct (zb_block blocks s Hz q k bs' Hq) as (_ & _ & _ & d & B4 & B5 & B6). assert (d = c) by congruence. subst d. exact B6. }
  assert (Hnew : blocks !! p = None).
  { destruct (blocks !! p) as [[k' bs'] |] eqn:E; [exfalso | reflexivity]. destruct (zb_block blocks s Hz p k' bs' E) as (B1 & _). pose proof (len_pos bs' B1).
    destruct (decide (k' = k)) as [-> | Hne]; [pose proof (Hdown p bs' E); unfold p in *; lia |].
    destruct (block_outside blocks s k c p k' bs' Hz Hk E Hne); unfold p in *; lia. }
  unfold chunk_Allocate. rewrite (RemainingSpace_ok _ _ _ Hc). unfold u64. rewrite wrap_small by (unfold in_range, header_size, kChunkSize in *; lia).
  replace (n <? kChunkSize) with true by lia. replace (_data c + kChunkSize - _data_ptr c <? n + header_size) with false by (unfold header_size; lia).
  destruct (Extend_ok header_size c) as [-> _]; try assumption; try (unfold header_size; lia). cbn [rbind _data_ptr].
  assert (Ep : Align (_data_ptr c + header_size) = p) by (apply Align_id; exact Hp16). rewrite Ep.
  destruct (Extend_ok n (mkChunk (_data c) p (_allocated_pointers c))) as [-> Hend]; cbn [_data _data_ptr] in *; try assumption; try (unfold p; lia).
  cbn [rbind _data _data_ptr _allocated_pointers]. change 0xf with (Z.ones 4). rewrite Z.land_ones by lia. change (2 ^ 4) with 16. rewrite Hp16. cbn [Z.eqb].
  pose proof (Align_spec (p + n)) as [_ Hal]. rewrite (Align_id (Align (p + n)) Hal). unfold u32. rewrite wrap_small by (unfold in_range, kChunkSize in *; lia).
  set (m' := store64 (_data_ptr c + 8) n (store64 (_data_ptr c) k (mem s))). set (bs := read_bytes p (Z.to_nat n) m').
  assert (Hlen : length bs = Z.to_nat n) by apply read_bytes_length.
  assert (Hcnt : count k (<[p := (k, bs)]> blocks) = count k blocks + 1) by (rewrite count_insert_new, decide_True by (exact Hnew || reflexivity); reflexivity).
  exists (mkChunk (_data c) (Align (p + n)) (_allocated_pointers c + 1)), m', bs. split; [reflexivity |]. split; [reflexivity |]. split; [lia |]. split; [exact Hnew |].
  split; [| split; [rewrite Hcnt; unfold p; lia | intros q bs' Hq; pose proof (Hdown q bs' Hq); unfold p; lia]].
  apply (put_block blocks s k c); cbn [_data _data_ptr _allocated_pointers]; try assumption; try reflexivity; try lia.
  - rewrite Hnew. exact I.
  - intros E. rewrite E in Hlen. cbn in Hlen. lia.
  - unfold block_at. rewrite Hlen. replace (p - 16) with (_data_ptr c) by (unfold p; lia). replace (p - 8) with (_data_ptr c + 8) by (unfold p; lia). split; [| split; [| reflexivity]].
    + unfold m'. erewrite load_same by (apply store_same; lia). apply load_store. lia.
    + unfold m'. rewrite load_store by (unfold kChunkSize in *; lia). lia.
  - intros q k' bs' Hne Hq. assert (Hout : q + len bs' <= _data_ptr c \/ _data c + kChunkSize <= q - 16).
    { destruct (decide (k' = k)) as [-> | Hk']; [left; apply (Hdown q bs' Hq) |]. destruct (block_outside blocks s k c q k' bs' Hz Hk Hq Hk'); lia. }
    split; [eapply same_on_trans; apply store_same; unfold p in *; lia |]. split; [unfold p in *; lia |]. intros ->. pose proof (Hdown q bs' Hq). unfold p in *. lia.
Qed.

Lemma put_chunk_same k c s : objects s !! k = Some c -> put_chunk k c (mem s) s = s.
Proof. intros H. unfold put_chunk. rewrite insert_id by exact H. destruct s. reflexivity. Qed.

(** What an allocation gives: a new buffer, and the others as they were. *)
Definition allocates (blocks : blockmap) (n : Z) (r : Z * Zone) : Prop :=
  exists k bs, fst r <> 0 /\ blocks !! fst r = None /\ len bs = n /\ zone_ok (<[fst r := (k, bs)]> blocks) (snd r).

Lemma allocate_in_ok blocks s c n : zone_base blocks s -> objects s !! _active_chunk s = Some c -> 0 < n -> n + 16 <= RemainingSpace c ->
  exists p s', allocate_in n s = Ok (p, s') /\ allocates blocks n (p, set_last p s').
Proof.
  intros Hz Hk Hn Hr. destruct (chunk_Allocate_ok blocks s _ c n Hz Hk Hn Hr) as (c' & m' & bs & E & Ed & Hl & Hnew & Hz' & Hc & Htop).
  unfold allocate_in, chunk_at. rewrite Hk. cbn [of_option rbind]. rewrite E. cbn [rbind]. eexists _, _. split; [reflexivity |].
  pose proof (ck_data _ _ _ (zb_chunk blocks s Hz _ c Hk)). pose proof (ck_ptr _ _ _ (zb_chunk blocks s Hz _ c Hk)).
  exists (_active_chunk s), bs. cbn [fst snd]. split; [lia |]. split; [exact Hnew |]. split; [exact Hl |]. split.
  - destruct Hz'. constructor; assumption.
  - right. exists bs, c'. cbn [set_last put_chunk _last_buffer _active_chunk objects]. rewrite !lookup_insert_eq, Ed.
    split; [reflexivity |]. split; [reflexivity |]. split; [exact Hc |]. intros q bs' Hq. destruct (decide (q = _data_ptr c + 16)) as [-> | Hne]; [lia |].
    rewrite lookup_insert_ne in Hq by congruence. exact (Htop q bs' Hq).
Qed.

Section OS.
Context (new_chunk : gmap Z Chunk -> option (Z * Z)).
Hypothesis os_fresh : forall objs k data, new_chunk objs = Some (k, data) -> fresh_chunk objs k data.

Definition small (n : Z) : Prop := 0 < n <= kChunkSize - 16.

Lemma add_and_allocate blocks s n : zone_base blocks s -> new_chunk (objects s) <> None -> small n ->
  exists s1, add_chunk new_chunk s = Ok s1 /\ exists p s', allocate_in n s1 = Ok (p, s') /\ allocates blocks n (p, set_last p s').
Proof.
  intros Hz Hnew [H0 H1]. unfold add_chunk. destruct (new_chunk (objects s)) as [[k d] |] eqn:E; [| congruence]. eexists. split; [reflexivity |].
  pose proof (os_fresh _ _ _ E) as Hf. apply (allocate_in_ok blocks _ (mkChunk d d 0) n); [apply add_chunk_ok; assumption | apply lookup_insert_eq | exact H0 |].
  destruct Hf as (_ & _ & F3 & _ & F5 & _). rewrite RemainingSpace_range; cbn; unfold kChunkSize in *; lia.
Qed.

Lemma Allocate_ok blocks s n : zone_ok blocks s -> new_chunk (objects s) <> None -> small n ->
  exists r, Allocate new_chunk n s = Ok r /\ allocates blocks n r.
Proof.
  intros [Hz _] Hnew Hn. unfold Allocate.
  assert (Hfinish : forall s1, (exists p s', allocate_in n s1 = Ok (p, s') /\ allocates blocks n (p, set_last p s')) ->
    exists r, (let* r := allocate_in n s1 in
      let* r2 := (if fst r =? 0 then let* s2 := add_chunk new_chunk (snd r) in allocate_in n s2 else Ok r) in
      Ok (fst r2, set_last (fst r2) (snd r2))) = Ok r /\ allocates blocks n r).
  { intros s1 (p & s' & -> & Ha). cbn [rbind fst snd]. destruct Ha as (k & bs & H0 & H1). apply Z.eqb_neq in H0 as E0. cbn [fst] in E0. rewrite E0. cbn [rbind fst snd].
    eexists. split; [reflexivity |]. exists k, bs. auto. }
  destruct (Z.eqb_spec (_active_chunk s) 0) as [Ea | Ea]; cbn [rbind].
  - destruct (add_and_allocate blocks s n Hz Hnew Hn) as (s1 & -> & Ha). cbn [rbind]. apply Hfinish, Ha.
  - destruct (zb_active blocks s Hz) as [L | [c Hc]]; [contradiction |]. unfold chunk_at. rewrite Hc. cbn [of_option rbind].
    destruct (Z.leb_spec n (RemainingSpace c)) as [Hfit | Hfit]; cbn [rbind].
    2: { destruct (add_and_allocate blocks s n Hz Hnew Hn) as (s1 & -> & Ha). cbn [rbind]. apply Hfinish, Ha. }
    destruct (Z.le_gt_cases (n + 16) (RemainingSpace c)) as [Hr | Hr]; [apply Hfinish, (allocate_in_ok blocks s c n Hz Hc); [apply Hn | exact Hr] |].
    unfold allocate_in at 1, chunk_at. rewrite Hc. cbn [of_option rbind]. unfold chunk_Allocate. destruct Hn as [N1 N2].
    unfold u64. rewrite wrap_small by (unfold in_range, header_size, kChunkSize in *; lia). replace (n <? kChunkSize) with true by lia.
    replace (RemainingSpace c <? n + header_size) with true by (unfold header_size; lia). cbn [rbind fst snd Z.eqb]. rewrite put_chunk_same by exact Hc.
    destruct (add_and_allocate blocks s n Hz Hnew (conj N1 N2)) as (s1 & -> & p & s' & E & Ha). cbn [rbind]. rewrite E. cbn [rbind fst snd]. eexists. split; [reflexivity | exact Ha].
Qed.
End OS.

(** ** Freeing *)

Lemma remove_block blocks s p k bs c : zone_base blocks s -> blocks !! p = Some (k, bs) -> objects s !! k = Some c ->
  zone_base (delete p blocks) (put_chunk k (mkChunk (_data c) (_data_ptr c) (count k (delete p blocks))) (mem s) s).
Proof.
  intros Hz Hp Hk. pose proof (zb_chunk blocks s Hz k c Hk) as [K1 K2 K3 K4 K5]. pose proof (count_delete k blocks p k bs Hp) as Ec. rewrite decide_True in Ec by reflexivity.
  constructor; cbn [put_chunk objects mem _chunks _active_chunk].
  - intros k' d H. destruct (decide (k' = k)) as [-> | Hne].
    + rewrite lookup_insert_eq in H. injection H as <-. constructor; cbn; auto; lia.
    + rewrite lookup_insert_ne in H by congruence. destruct (zb_chunk blocks s Hz k' d H).
      constructor; rewrite ?(count_delete k' blocks p k bs Hp), ?decide_False, ?Z.sub_0_r by congruence; auto.
  - intros k1 k2 d1 d2 Hne H1 H2.
    assert (Hd : forall k' d, <[k := mkChunk (_data c) (_data_ptr c) (count k (delete p blocks))]> (objects s) !! k' = Some d -> exists d0, objects s !! k' = Some d0 /\ _data d = _data d0).
    { intros k' d. destruct (decide (k' = k)) as [-> |]; [rewrite lookup_insert_eq; intros H; injection H as <-; eauto | rewrite lookup_insert_ne by congruence; eauto]. }
    destruct (Hd k1 d1 H1) as (e1 & F1 & ->). destruct (Hd k2 d2 H2) as (e2 & F2 & ->). exact (zb_apart blocks s Hz k1 k2 e1 e2 Hne F1 F2).
  - intros q k' bs' H. apply lookup_delete_Some in H as [Hne H]. destruct (zb_block blocks s Hz q k' bs' H) as (B1 & B2 & B3 & d & B4 & B5).
    split; [exact B1 |]. split; [exact B2 |]. split; [exact B3 |]. destruct (decide (k' = k)) as [-> | Hk'].
    + rewrite lookup_insert_eq. eexists. split; [reflexivity |]. assert (d = c) by congruence. subst d. exact B5.
    + exists d. rewrite lookup_insert_ne by congruence. auto.
  - intros q1 q2 k1 k2 b1 b2 Hne H1 H2. apply lookup_delete_Some in H1 as [_ H1], H2 as [_ H2]. exact (zb_disjoint blocks s Hz q1 q2 k1 k2 b1 b2 Hne H1 H2).
  - destruct (zb_list blocks s Hz) as [L1 L2]. split; [exact L1 |]. intros k'. rewrite L2.
    destruct (decide (k' = k)) as [-> |]; [rewrite lookup_insert_eq, Hk; split; eauto | rewrite lookup_insert_ne by congruence; reflexivity].
  - destruct (zb_active blocks s Hz) as [L | L]; [left; exact L | right]. destruct (decide (_active_chunk s = k)) as [-> |]; [rewrite lookup_insert_eq; eauto | rewrite lookup_insert_ne by congruence; exact L].
Qed.

Lemma drop_chunk blocks s k : zone_base blocks s -> count k blocks = 0 ->
  zone_base blocks (mkZone (List.filter (fun x => negb (x =? k)) (_chunks s)) (if k =? _active_chunk s then 0 else _active_chunk s) (_last_buffer s) (delete k (objects s)) (mem s)).
Proof.
  intros Hz H0. constructor; cbn [objects mem _chunks _active_chunk].
  - intros k' c H. apply lookup_delete_Some in H as [_ H]. exact (zb_chunk blocks s Hz k' c H).
  - intros k1 k2 c1 c2 Hne H1 H2. apply lookup_delete_Some in H1 as [_ H1], H2 as [_ H2]. exact (zb_apart blocks s Hz k1 k2 c1 c2 Hne H1 H2).
  - intros p k' bs Hp. destruct (zb_block blocks s Hz p k' bs Hp) as (B1 & B2 & B3 & c & B4 & B5). split; [exact B1 |]. split; [exact B2 |]. split; [exact B3 |].
    exists c. split; [| exact B5]. apply lookup_delete_Some. split; [| exact B4]. intros ->. pose proof (count_pos k' blocks p bs Hp). lia.
  - exact (zb_disjoint blocks s Hz).
  - destruct (zb_list blocks s Hz) as [L1 L2]. split.
    + apply NoDup_ListNoDup, List.NoDup_filter, NoDup_ListNoDup, L1.
    + intros k'. rewrite list_elem_of_In, filter_In, <- list_elem_of_In, L2. rewrite negb_true_iff, Z.eqb_neq. split.
      * intros [[c Hc] Hne]. exists c. apply lookup_delete_Some. auto.
      * intros [c Hc]. apply lookup_delete_Some in Hc as [Hne Hc]. split; [eauto | congruence].
  - destruct (Z.eqb_spec k (_active_chunk s)) as [E | E]; [left; reflexivity |]. destruct (zb_active blocks s Hz) as [L | [c L]]; [left; exact L | right].
    exists c. apply lookup_delete_Some. auto.
Qed.

Lemma count_delete_le k blocks p k' bs : blocks !! p = Some (k', bs) -> count k (delete p blocks) <= count k blocks.
Proof. intros H. rewrite (count_delete k blocks p k' bs H). case_decide; lia. Qed.

Lemma Free_ok blocks s p k bs : zone_ok blocks s -> blocks !! p = Some (k, bs) ->
  exists s', Free p s = Ok s' /\ zone_ok (delete p blocks) s' /\ mem s' = mem s.
Proof.
  intros [Hz Hlast] Hp. destruct (zb_block blocks s Hz p k bs Hp) as (B1 & B2 & (B3 & _) & c & Hc & B4 & B5). pose proof (len_pos bs B1) as Hl.
  pose proof (zb_chunk blocks s Hz k c Hc) as [K1 K2 K3 K4 K5]. pose proof (count_delete k blocks p k bs Hp) as Ec. rewrite decide_True in Ec by reflexivity.
  pose proof (count_pos k blocks p bs Hp) as Hpos. unfold Free, header_size. rewrite B3. unfold chunk_at. rewrite Hc. cbn [of_option rbind]. unfold chunk_Free.
  replace ((_data c <=? p) && (p <? _data c + kChunkSize)) with true by lia. cbn [rbind].
  assert (Eu : u32 (_allocated_pointers c - 1) = count k (delete p blocks)) by (rewrite Ec, K4; apply wrap_small; unfold in_range, kChunkSize in *; lia). rewrite Eu.
  pose proof (remove_block blocks s p k bs c Hz Hp Hc) as Hz1. set (s1 := put_chunk k (mkChunk (_data c) (_data_ptr c) (count k (delete p blocks))) (mem s) s) in *.
  set (s2 := if Empty (mkChunk (_data c) (_data_ptr c) (count k (delete p blocks))) then _ else s1).
  assert (Hz2 : zone_base (delete p blocks) s2).
  { unfold s2, Empty. cbn [_allocated_pointers]. destruct (Z.eqb_spec (count k (delete p blocks)) 0) as [E | E]; [apply drop_chunk; assumption | exact Hz1]. }
  assert (Em : mem s2 = mem s /\ _last_buffer s2 = _last_buffer s) by (unfold s2; case_match; auto). destruct Em as [Em El].
  eexists. split; [reflexivity |]. rewrite El. destruct (Z.eqb_spec p (_last_buffer s)) as [E | E].
  - split; [| exact Em]. split; [destruct Hz2; constructor; assumption | left; reflexivity].
  - split; [| exact Em]. split; [exact Hz2 |]. unfold last_ok. rewrite El. destruct Hlast as [L | (lb & lc & L1 & L2 & L3 & L4)]; [left; exact L | right].
    assert (L1' : delete p blocks !! _last_buffer s = Some (_active_chunk s, lb)) by (apply lookup_delete_Some; auto).
    assert (Ha : _active_chunk s2 = _active_chunk s /\ exists lc', objects s2 !! _active_chunk s = Some lc' /\ _data lc' = _data lc).
    { unfold s2, Empty. cbn [_allocated_pointers]. destruct (Z.eqb_spec (count k (delete p blocks)) 0) as [E0 | E0]; cbn [_active_chunk objects s1 put_chunk].
      - destruct (Z.eqb_spec k (_active_chunk s)) as [Ek | Ek]; [rewrite <- Ek in L1'; pose proof (count_pos k _ _ _ L1') as Q; rewrite E0 in Q; lia |]. split; [reflexivity |]. exists lc. split; [| reflexivity].
        apply lookup_delete_Some. rewrite lookup_insert_ne by congruence. auto.
      - split; [reflexivity |]. destruct (decide (_active_chunk s = k)) as [Ek | Ek]; [| exists lc; rewrite lookup_insert_ne by congruence; auto].
        rewrite Ek, lookup_insert_eq. eexists. split; [reflexivity |]. cbn. congruence. }
    destruct Ha as (-> & lc' & Ho & Ed). exists lb, lc'. split; [exact L1' |]. split; [exact Ho |]. rewrite Ed.
    split; [pose proof (count_delete_le (_active_chunk s) blocks p k bs Hp); lia |]. intros q bs' Hq. apply lookup_delete_Some in Hq as [_ Hq]. exact (L4 q bs' Hq).
Qed.

(** ** Changing a buffer in place *)

Lemma read_bytes_app p a b m : read_bytes p (a + b) m = read_bytes p a m ++ read_bytes (p + Z.of_nat a) b m.
Proof.
  apply list_eq. intros i. destruct (decide (i < a)%nat) as [H | H]; [rewrite lookup_app_l by (rewrite read_bytes_length; exact H); rewrite !read_bytes_lookup by lia; reflexivity |].
  rewrite lookup_app_r by (rewrite read_bytes_length; lia). rewrite read_bytes_length. destruct (decide (i < a + b)%nat) as [H' | H'].
  - rewrite !read_bytes_lookup by lia. f_equal. f_equal. lia.
  - rewrite !lookup_ge_None_2; [reflexivity | rewrite read_bytes_length; lia | rewrite read_bytes_length; lia].
Qed.

Lemma read_write_inside p i w bs m : read_bytes p (length bs) m = bs -> (i + length w <= length bs)%nat ->
  read_bytes p (length bs) (write_bytes (p + Z.of_nat i) w m) = take i bs ++ w ++ drop (i + length w) bs.
Proof.
  intros E H. set (j := (length bs - (i + length w))%nat). assert (En : length bs = (i + (length w + j))%nat) by (unfold j; lia). rewrite En, !read_bytes_app in *.
  set (m' := write_bytes (p + Z.of_nat i) w m).
  assert (E1 : read_bytes p i m' = read_bytes p i m) by (apply read_bytes_ext, write_bytes_same; lia).
  assert (E2 : read_bytes (p + Z.of_nat i) (length w) m' = w) by apply read_write_bytes.
  assert (E3 : read_bytes (p + Z.of_nat i + len w) j m' = read_bytes (p + Z.of_nat i + len w) j m) by (apply read_bytes_ext, write_bytes_same; lia).
  rewrite E1, E2, E3, <- E. rewrite take_app_le by (rewrite read_bytes_length; lia). rewrite take_ge by (rewrite read_bytes_length; lia). f_equal. f_equal.
  rewrite drop_app_ge by (rewrite read_bytes_length; lia). rewrite read_bytes_length. rewrite drop_app_ge by (rewrite read_bytes_length; lia). rewrite read_bytes_length.
  replace (i + length w - i - length w)%nat with 0%nat by lia. reflexivity.
Qed.

Lemma last_ok_update blocks s p k bs0 bs c c' m' : last_ok blocks s -> blocks !! p = Some (k, bs0) -> objects s !! k = Some c -> _data c' = _data c ->
  last_ok (<[p := (k, bs)]> blocks) (put_chunk k c' m' s).
Proof.
  intros [L | (lb & lc & L1 & L2 & L3 & L4)] Hp Hk Hd; [left; exact L | right]. cbn [put_chunk _last_buffer _active_chunk objects].
  exists (if decide (_last_buffer s = p) then bs else lb), (if decide (_active_chunk s = k) then c' else lc). split; [| split; [| split]].
  - case_decide as E; [rewrite E, lookup_insert_eq; rewrite E in L1; congruence | rewrite lookup_insert_ne by congruence; exact L1].
  - case_decide as E; [rewrite E, lookup_insert_eq; reflexivity | rewrite lookup_insert_ne by congruence; exact L2].
  - rewrite (count_insert_same _ blocks p k bs0 bs Hp). case_decide as E; [| exact L3]. rewrite Hd. rewrite E in L2. assert (lc = c) by congruence. subst lc. exact L3.
  - intros q bs' Hq. destruct (decide (q = p)) as [-> | Hne]; [| rewrite lookup_insert_ne in Hq by congruence; exact (L4 q bs' Hq)].
    rewrite lookup_insert_eq in Hq. injection Hq as Hq _. apply (L4 p bs0). rewrite Hp, Hq. reflexivity.
Qed.

Definition with_mem (m : memory) (s : Zone) : Zone := mkZone (_chunks s) (_active_chunk s) (_last_buffer s) (objects s) m.

(** Writing into a buffer. *)
Lemma write_block blocks s p k bs i w : zone_ok blocks s -> blocks !! p = Some (k, bs) -> (i + length w <= length bs)%nat ->
  zone_ok (<[p := (k, take i bs ++ w ++ drop (i + length w) bs)]> blocks) (with_mem (write_bytes (p + Z.of_nat i) w (mem s)) s).
Proof.
  intros [Hz Hlast] Hp Hi. destruct (zb_block blocks s Hz p k bs Hp) as (B1 & B2 & (B3 & B4 & B5) & c & Hc & B6 & B7). pose proof (len_pos bs B1) as Hl.
  pose proof (zb_chunk blocks s Hz k c Hc) as [K1 K2 K3 K4 K5]. set (bs' := take i bs ++ w ++ drop (i + length w) bs). set (m' := write_bytes _ w (mem s)).
  assert (Hlen : length bs' = length bs) by (unfold bs'; rewrite !length_app, length_take, length_drop; lia).
  assert (Es : with_mem m' s = put_chunk k c m' s) by (unfold with_mem, put_chunk; rewrite insert_id by exact Hc; reflexivity). rewrite Es.
  split; [| exact (last_ok_update blocks s p k bs bs' c c m' Hlast Hp Hc eq_refl)].
  apply (put_block blocks s k c); try assumption; try reflexivity; try lia; try tauto.
  - rewrite Hp. reflexivity.
  - rewrite (count_insert_same _ blocks p k bs bs' Hp). exact K4.
  - rewrite (count_insert_same _ blocks p k bs bs' Hp). exact K5.
  - intros E. rewrite E in Hlen. cbn in Hlen. lia.
  - unfold block_at, m'. rewrite Hlen. rewrite (load_same (p - 16) (mem s)), (load_same (p - 8) (mem s)) by (apply write_bytes_same; lia). split; [exact B3 |]. split; [exact B4 |].
    apply read_write_inside; assumption.
  - intros q k' b' Hne Hq. rewrite Hlen. pose proof (zb_disjoint blocks s Hz p q k k' bs b' ltac:(congruence) Hp Hq) as D.
    split; [apply write_bytes_same; lia |]. split; [exact D |]. intros ->. destruct (zb_block blocks s Hz q k b' Hq) as (_ & _ & _ & d & Hd & _ & Hd2).
    assert (d = c) by congruence. subst d. exact Hd2.
Qed.

(** The topmost buffer of a chunk gets another size. *)
Lemma resize_block blocks s p k bs c n end_ : zone_ok blocks s -> blocks !! p = Some (k, bs) -> objects s !! k = Some c -> small n ->
  16 * count k blocks <= p - _data c -> (forall q bs', blocks !! q = Some (k, bs') -> q <= p) ->
  p + n <= end_ <= _data c + kChunkSize -> end_ mod 16 = 0 ->
  exists bs', len bs' = n /\ (forall j, (j < length bs)%nat -> Z.of_nat j < n -> bs' !! j = bs !! j) /\
    zone_ok (<[p := (k, bs')]> blocks) (put_chunk k (mkChunk (_data c) end_ (_allocated_pointers c)) (store64 (p - 8) n (mem s)) s).
Proof.
  intros [Hz Hlast] Hp Hc [N1 N2] Hcnt Htop He Hem. destruct (zb_block blocks s Hz p k bs Hp) as (B1 & B2 & (B3 & B4 & B5) & d & Hd & B6 & B7). assert (d = c) by congruence. subst d.
  pose proof (zb_chunk blocks s Hz k c Hc) as [K1 K2 K3 K4 K5]. set (m' := store64 (p - 8) n (mem s)). set (bs' := read_bytes p (Z.to_nat n) m').
  assert (Hlen : length bs' = Z.to_nat n) by apply read_bytes_length. exists bs'. split; [lia |]. split.
  - intros j Hj Hjn. unfold bs'. rewrite read_bytes_lookup by lia. rewrite <- B5, read_bytes_lookup by exact Hj. f_equal.
    apply (store_same (p - 8) n (mem s) p (p + Z.of_nat j + 1)); lia.
  - split; [| exact (last_ok_update blocks s p k bs bs' c (mkChunk (_data c) end_ (_allocated_pointers c)) m' Hlast Hp Hc eq_refl)].
    apply (put_block blocks s k c); cbn [_data _data_ptr _allocated_pointers]; try assumption; try reflexivity; try lia; rewrite ?(count_insert_same _ blocks p k bs bs' Hp); try assumption; try lia.
    + rewrite Hp. reflexivity.
    + intros E. rewrite E in Hlen. cbn in Hlen. lia.
    + unfold block_at. rewrite Hlen. split; [| split; [unfold m'; rewrite load_store by (unfold kChunkSize in *; lia); lia | reflexivity]].
      unfold m'. erewrite load_same by (apply store_same; lia). exact B3.
    + intros q k' b' Hne Hq. pose proof (zb_disjoint blocks s Hz p q k k' bs b' ltac:(congruence) Hp Hq) as D. pose proof (len_pos bs B1) as Hl.
      destruct (zb_block blocks s Hz q k' b' Hq) as (Q1 & _). pose proof (len_pos b' Q1) as Hl'.
      assert (Hout : q + len b' <= p - 16 \/ k' <> k /\ _data c + kChunkSize <= q - 16).
      { destruct (decide (k' = k)) as [-> | Hk']; [pose proof (Htop q b' Hq); lia |]. destruct (block_outside blocks s k c q k' b' Hz Hc Hq Hk'); lia. }
      split; [apply store_same; lia |]. split; lia.
Qed.

Section Realloc.
Context (new_chunk : gmap Z Chunk -> option (Z * Z)).
Hypothesis os_fresh : forall objs k data, new_chunk objs = Some (k, data) -> fresh_chunk objs k data.

(** What [Reallocate] gives: a buffer of the new size, the old one or a new
    one, with the contents that fit; the others as they were. *)
Definition reallocates (blocks : blockmap) (p : Z) (bs : list Z) (n : Z) (r : Z * Zone) : Prop :=
  exists k bs', fst r <> 0 /\ (fst r = p \/ blocks !! fst r = None) /\ len bs' = n /\
    (forall j, (j < length bs)%nat -> Z.of_nat j < n -> bs' !! j = bs !! j) /\ zone_ok (<[fst r := (k, bs')]> (delete p blocks)) (snd r).

Lemma move_ok blocks s p k bs n : zone_ok blocks s -> blocks !! p = Some (k, bs) -> p <> 0 -> new_chunk (objects s) <> None -> small n ->
  exists r, move new_chunk p n s = Ok r /\ reallocates blocks p bs n r.
Proof.
  intros Hz Hp Hp0 Hnew Hn. unfold move. destruct (Allocate_ok new_chunk os_fresh blocks s n Hz Hnew Hn) as ([q s1] & -> & k1 & b1 & Q0 & Q1 & Q2 & Hz1). cbn [fst snd rbind] in *.
  assert (Hne : q <> p) by congruence. assert (Hp1 : <[q := (k1, b1)]> blocks !! p = Some (k, bs)) by (rewrite lookup_insert_ne by congruence; exact Hp).
  destruct (zb_block _ _ (proj1 Hz1) p k bs Hp1) as (_ & _ & (_ & B4 & B5) & _). apply Z.eqb_neq in Hp0 as ->. rewrite B4.
  apply Z.eqb_neq in Q0 as Q0'. rewrite Q0'. cbn [negb]. set (cs := if len bs <? n then len bs else n).
  set (w := read_bytes p (Z.to_nat cs) (mem s1)). assert (Hw : length w = Z.to_nat cs) by apply read_bytes_length.
  assert (Hcs : 0 <= cs <= len bs /\ cs <= n /\ (cs = len bs \/ cs = n)) by (unfold cs; destruct (Z.ltb_spec (len bs) n); destruct Hn; lia).
  assert (Ew : forall j, (j < Z.to_nat cs)%nat -> w !! j = bs !! j).
  { intros j Hj. unfold w. rewrite read_bytes_lookup by exact Hj. rewrite <- B5, read_bytes_lookup by lia. reflexivity. }
  pose proof (write_block _ s1 q k1 b1 0 w Hz1 (lookup_insert_eq _ _ _) ltac:(lia)) as Hz2. rewrite insert_insert_eq, Z.add_0_r in Hz2. cbn [take Nat.add app] in Hz2.
  change (mkZone (_chunks s1) (_active_chunk s1) (_last_buffer s1) (objects s1) (write_bytes q w (mem s1))) with (with_mem (write_bytes q w (mem s1)) s1).
  set (b2 := w ++ drop (length w) b1) in *. assert (Hp2 : <[q := (k1, b2)]> blocks !! p = Some (k, bs)) by (rewrite lookup_insert_ne by congruence; exact Hp).
  destruct (Free_ok _ _ p k bs Hz2 Hp2) as (s3 & -> & Hz3 & _). cbn [rbind]. eexists. split; [reflexivity |]. exists k1, b2. cbn [fst snd]. split; [exact Q0 |]. split; [right; exact Q1 |].
  split; [unfold b2; rewrite length_app, length_drop; lia |]. split; [| rewrite <- delete_insert_ne by congruence; exact Hz3].
  intros j Hj Hjn. unfold b2. rewrite lookup_app_l by lia. apply Ew. lia.
Qed.

Lemma Reallocate_ok blocks s p k bs n : zone_ok blocks s -> blocks !! p = Some (k, bs) -> p <> 0 -> new_chunk (objects s) <> None -> small n ->
  exists r, Reallocate new_chunk p n s = Ok r /\ reallocates blocks p bs n r.
Proof.
  intros Hz Hp Hp0 Hnew Hn. pose proof (move_ok blocks s p k bs n Hz Hp Hp0 Hnew Hn) as Hmove. unfold Reallocate.
  destruct (Z.eqb_spec p (_last_buffer s)) as [El | El]; [| exact Hmove]. apply Z.eqb_neq in Hp0 as Hp0'. rewrite Hp0'. cbn [andb negb].
  destruct Hz as [Hz Hlast]. destruct (zb_block blocks s Hz p k bs Hp) as (B1 & B2 & (B3 & B4 & B5) & c & Hc & B6 & B7). unfold header_size. rewrite B3, B4. unfold chunk_at. rewrite Hc. cbn [of_option rbind].
  destruct Hlast as [L | (lb & lc & L1 & L2 & L3 & L4)]; [congruence |]. assert (Ek : _active_chunk s = k) by congruence. rewrite Ek, <- El in *. assert (lc = c) by congruence. subst lc.
  pose proof (zb_chunk blocks s Hz k c Hc) as Hck. pose proof Hck as [K1 (K2a & K2b & K2c) [K3 K3'] K4 K5]. assert (Hzo : zone_ok blocks s) by (split; [exact Hz | right; exists lb, c; rewrite Ek, <- El; auto]).
  assert (Hdel : forall v, <[p := v]> (delete p blocks) = <[p := v]> blocks) by (intros; apply insert_delete_eq).
  destruct (Z.ltb_spec (len bs) n) as [Hgrow | Hshrink].
  - destruct (Z.leb_spec (n - len bs) (RemainingSpace c)) as [Hfit | Hfit]; [| exact Hmove]. rewrite (RemainingSpace_ok _ _ _ Hck) in Hfit.
    destruct (Extend_ok (n - len bs) c) as [-> He]; try assumption; try lia. cbn [rbind]. eexists. split; [reflexivity |].
    destruct (resize_block blocks s p k bs c n (Align (_data_ptr c + (n - len bs))) Hzo Hp Hc Hn L3 L4) as (bs' & R1 & R2 & R3); [lia | apply Align_spec |].
    exists k, bs'. cbn [fst snd]. rewrite Hdel. auto.
  - unfold Shrink. replace (_data c <=? _data_ptr c - (len bs - n)) with true by (destruct Hn; lia). cbn [rbind]. eexists. split; [reflexivity |].
    pose proof (Align_spec (_data_ptr c - (len bs - n))) as [A1 A2]. pose proof (Align_le (_data_ptr c - (len bs - n)) (_data_ptr c) ltac:(lia) K3') as A3.
    destruct (resize_block blocks s p k bs c n (Align (_data_ptr c - (len bs - n))) Hzo Hp Hc Hn L3 L4) as (bs' & R1 & R2 & R3); [lia | exact A2 |].
    exists k, bs'. cbn [fst snd]. rewrite Hdel. auto.
Qed.

(** ** The heap *)

Abbreviation heap := (gmap Z (list Z)).
(** What a client does: the operations of the allocator, and writes to its
    buffers. *)
Inductive zone_op :=
| OAlloc (n : Z)
| ORealloc (p n : Z)
| OFree (p : Z)
| OWrite (p : Z) (i : nat) (w : list Z).

Definition zone_exec (o : zone_op) (s : Zone) : result (Z * Zone) :=
  match o with
  | OAlloc n => Allocate new_chunk n s
  | ORealloc p n => Reallocate new_chunk p n s
  | OFree p => let* s1 := Free p s in Ok (0, s1)
  | OWrite p i w => Ok (0, with_mem (write_bytes (p + Z.of_nat i) w (mem s)) s)
  end.

Inductive heap_step : zone_op -> heap -> Z -> heap -> Prop :=
| HAlloc n h p bs : p <> 0 -> h !! p = None -> len bs = n -> heap_step (OAlloc n) h p (<[p := bs]> h)
| HReallocNull n h p bs : p <> 0 -> h !! p = None -> len bs = n -> heap_step (ORealloc 0 n) h p (<[p := bs]> h)
| HRealloc p n h bs p' bs' : h !! p = Some bs -> p' <> 0 -> p' = p \/ h !! p' = None -> len bs' = n ->
    (forall j, (j < length bs)%nat -> Z.of_nat j < n -> bs' !! j = bs !! j) -> heap_step (ORealloc p n) h p' (<[p' := bs']> (delete p h))
| HFree p h bs : h !! p = Some bs -> heap_step (OFree p) h 0 (delete p h)
| HWrite p i w h bs : h !! p = Some bs -> heap_step (OWrite p i w) h 0 (<[p := take i bs ++ w ++ drop (i + length w) bs]> h).

(** What a client may do: sizes that fit a chunk, and its own buffers. *)
Definition zone_allowed (o : zone_op) (h : heap) : Prop :=
  match o with
  | OAlloc n => small n
  | ORealloc p n => small n /\ (p = 0 \/ is_Some (h !! p))
  | OFree p => is_Some (h !! p)
  | OWrite p i w => exists bs, h !! p = Some bs /\ (i + length w <= length bs)%nat
  end.

Definition represents (s : Zone) (h : heap) : Prop := exists blocks : blockmap, zone_ok blocks s /\ h = snd <$> blocks.

Lemma represents_lookup (blocks : blockmap) p bs : (snd <$> blocks : heap) !! p = Some bs -> exists k, blocks !! p = Some (k, bs).
Proof. rewrite lookup_fmap. intros H. apply fmap_Some in H as ([k b] & H & ->). eauto. Qed.
Lemma represents_none (blocks : blockmap) p : blocks !! p = None -> (snd <$> blocks : heap) !! p = None.
Proof. intros H. rewrite lookup_fmap, H. reflexivity. Qed.

Lemma allocated_represents blocks n r : allocates blocks n r -> exists bs, fst r <> 0 /\ (snd <$> blocks : heap) !! fst r = None /\ len bs = n /\ represents (snd r) (<[fst r := bs]> (snd <$> blocks)).
Proof.
  intros (k & bs & H1 & H2 & H3 & H4). exists bs. split; [exact H1 |]. split; [apply represents_none, H2 |]. split; [exact H3 |].
  eexists. split; [exact H4 |]. rewrite fmap_insert. reflexivity.
Qed.

Lemma new_zone_ok m : zone_ok ∅ (new_zone m).
Proof.
  split; [| left; reflexivity]. constructor; cbn; intros; rewrite ?lookup_empty in *; try discriminate.
  - split; [apply NoDup_nil_2 |]. intros k. rewrite lookup_empty, elem_of_nil. split; [intros [] | intros [? E]; discriminate E].
  - left. reflexivity.
Qed.

Lemma zone_step s h o : represents s h -> zone_allowed o h -> new_chunk (objects s) <> None ->
  exists r s' h', zone_exec o s = Ok (r, s') /\ heap_step o h r h' /\ represents s' h'.
Proof.
  intros (blocks & Hz & ->) Ha Hnew. destruct o as [n | p n | p | p i w]; cbn [zone_exec zone_allowed] in *.
  - destruct (Allocate_ok new_chunk os_fresh blocks s n Hz Hnew Ha) as ([p s'] & E & Hr). destruct (allocated_represents _ _ _ Hr) as (bs & R1 & R2 & R3 & R4).
    exists p, s'. eexists. split; [exact E |]. split; [apply HAlloc; [exact R1 | exact R2 | exact R3] | exact R4].
  - destruct Ha as [Hn [-> | [bs Hp]]].
    + unfold Reallocate. rewrite andb_false_r. unfold move. destruct (Allocate_ok new_chunk os_fresh blocks s n Hz Hnew Hn) as ([p s'] & E & Hr).
      destruct (allocated_represents _ _ _ Hr) as (bs & R1 & R2 & R3 & R4). rewrite E. cbn [rbind Z.eqb]. exists p, s'. eexists. split; [reflexivity |]. split; [apply HReallocNull; [exact R1 | exact R2 | exact R3] | exact R4].
    + destruct (represents_lookup _ _ _ Hp) as [k Hk]. assert (Hp0 : p <> 0).
      { destruct (zb_block _ _ (proj1 Hz) p k bs Hk) as (_ & _ & _ & c & Hc & B & _). pose proof (ck_data _ _ _ (zb_chunk _ _ (proj1 Hz) k c Hc)). lia. }
      destruct (Reallocate_ok blocks s p k bs n Hz Hk Hp0 Hnew Hn) as ([p' s'] & E & k' & bs' & R1 & R2 & R3 & R4 & R5). cbn [fst snd] in *.
      exists p', s'. eexists. split; [exact E |]. split; [apply (HRealloc p n _ bs p' bs'); auto; destruct R2; [left | right; apply represents_none]; assumption |].
      eexists. split; [exact R5 |]. rewrite fmap_insert, fmap_delete. reflexivity.
  - destruct Ha as [bs Hp]. destruct (represents_lookup _ _ _ Hp) as [k Hk]. destruct (Free_ok blocks s p k bs Hz Hk) as (s' & -> & Hz' & _). cbn [rbind].
    exists 0, s'. eexists. split; [reflexivity |]. split; [eapply HFree; exact Hp |]. eexists. split; [exact Hz' |]. rewrite fmap_delete. reflexivity.
  - destruct Ha as (bs & Hp & Hi). destruct (represents_lookup _ _ _ Hp) as [k Hk]. pose proof (write_block blocks s p k bs i w Hz Hk Hi) as Hz'.
    exists 0. eexists _, _. split; [reflexivity |]. split; [eapply HWrite; exact Hp |]. eexists. split; [exact Hz' |]. rewrite fmap_insert. reflexivity.
Qed.

Lemma represents_observed s h p bs : represents s h -> h !! p = Some bs ->
  0 < p /\ p mod 16 = 0 /\ read_bytes p (length bs) (mem s) = bs /\ (forall q bs', q <> p -> h !! q = Some bs' -> p + len bs <= q \/ q + len bs' <= p).
Proof.
  intros (blocks & [Hz _] & ->) Hp. destruct (represents_lookup _ _ _ Hp) as [k Hk]. destruct (zb_block _ _ Hz p k bs Hk) as (B1 & B2 & (B3 & B4 & B5) & c & Hc & B6 & B7).
  pose proof (ck_data _ _ _ (zb_chunk _ _ Hz k c Hc)) as K. split; [lia |]. split; [exact B2 |]. split; [exact B5 |].
  intros q bs' Hne Hq. destruct (represents_lookup _ _ _ Hq) as [k' Hk']. destruct (zb_disjoint _ _ Hz p q k k' bs bs' ltac:(congruence) Hk Hk'); lia.
Qed.

(** C12. The zone allocator refines a heap.  A new allocator represents
    the empty heap.  In a state that represents a heap, every allowed operation
    succeeds, unless the system has no memory for a chunk, and is a step of the
    heap: allocation gives a new buffer, reallocation keeps the contents that
    fit, and no other buffer changes.  The buffers are aligned to 16 bytes, do
    not overlap, and hold what the heap says. *)
Theorem zone_refines_heap m s h o : represents s h -> zone_allowed o h -> new_chunk (objects s) <> None ->
  represents (new_zone m) ∅ /\
  (exists r s' h', zone_exec o s = Ok (r, s') /\ heap_step o h r h' /\ represents s' h') /\
  (forall p bs, h !! p = Some bs -> 0 < p /\ p mod 16 = 0 /\ read_bytes p (length bs) (mem s) = bs /\
    (forall q bs', q <> p -> h !! q = Some bs' -> p + len bs <= q \/ q + len bs' <= p)).
Proof.
  intros Hr Ha Hnew. split; [| split].
  - exists ∅. split; [apply new_zone_ok | rewrite fmap_empty; reflexivity].
  - apply zone_step; assumption.
  - intros p bs. apply represents_observed, Hr.
Qed.
End Realloc.

(** A system that has memory for one chunk. *)
Definition one_chunk (objs : gmap Z Chunk) : option (Z * Z) := if (size objs =? 0)%nat then Some (1, 4096) else None.
Lemma one_chunk_fresh objs k data : one_chunk objs = Some (k, data) -> fresh_chunk objs k data.
Proof.
  unfold one_chunk. destruct (Nat.eqb_spec (size objs) 0) as [E | E]; [| discriminate]. apply map_size_empty_iff in E. subst objs. intros H. apply (inj Some) in H. injection H as <- <-.
  split; [apply lookup_empty |]. split; [lia |]. split; [lia |]. split; [reflexivity |]. split; [unfold kChunkSize; lia |]. intros k' c H. rewrite lookup_empty in H. discriminate H.
Qed.

Lemma zone_refines_heap_witness : rmap fst (zone_exec one_chunk (OAlloc 100) (new_zone (fun _ => 0))) = Ok 4112 /\
  exists r s' h', zone_exec one_chunk (OAlloc 100) (new_zone (fun _ => 0)) = Ok (r, s') /\ heap_step (OAlloc 100) ∅ r h' /\ represents s' h'.
Proof.
  split; [vm_compute; reflexivity |].
  destruct (zone_refines_heap one_chunk one_chunk_fresh (fun _ => 0) (new_zone (fun _ => 0)) ∅ (OAlloc 100)) as (_ & H & _).
  - exists ∅. split; [apply new_zone_ok | rewrite fmap_empty; reflexivity].
  - cbn. unfold small, kChunkSize. lia.
  - discriminate.
  - exact H.
Defined.

(** *** Sizes at the limits *)

Definition many_chunks (objs : gmap Z Chunk) : option (Z * Z) := let n := Z.of_nat (size objs) in Some (n + 1, 4096 + n * kChunkSize).
(** A buffer of no bytes may lie just behind its chunk, and cannot be freed. *)
Definition empty_buffer : result Zone :=
  let* r1 := Allocate many_chunks (kChunkSize - 32) (new_zone (fun _ => 0)) in
  let* r2 := Allocate many_chunks 0 (snd r1) in
  Free (fst r2) (snd r2).
Lemma empty_buffer_not_freed : match empty_buffer with Err AssertFailed => true | _ => false end = true.
Proof. vm_compute. reflexivity. Qed.
(** No chunk has room for a buffer of almost its size: [Allocate] gives the null
    pointer, and [Reallocate] copies to it. *)
Definition grow_too_far : result (Z * Zone) :=
  let* r1 := Allocate many_chunks 100 (new_zone (fun _ => 0)) in
  Reallocate many_chunks (fst r1) (kChunkSize - 8) (snd r1).
Lemma grow_too_far_undefined : match grow_too_far with Err UndefinedBehaviour => true | _ => false end = true.
Proof. vm_compute. reflexivity. Qed.
Lemma allocate_null : rmap fst (Allocate many_chunks (kChunkSize - 8) (new_zone (fun _ => 0))) = Ok 0.
Proof. vm_compute. reflexivity. Qed.
