(* ===== verification/JITAllocator.v ===== *)
(** * The JIT engine on the zone allocator

    [CodeAllocator] is what the code caches rely on: memory for code that is new
    and not null, and that can be freed once.  The zone allocator provides it,
    and against it the set of live functions of the engine model is the set of
    buffers that the allocator has handed out. *)

From Stdlib Require Import ZArith Lia List Bool.
From stdpp Require Import base numbers list gmap sets fin_maps.
From S2P Require Import Prelude MemAllocator MemAllocatorSafe JITCache JITCacheSafe.
Import ListNotations.
#[local] Open Scope Z_scope.
#[local] Open Scope gensim_scope.

(** [ca_live a l]: the buffers that are in use are [l]; [ca_room]: the system
    has memory left. *)
Class CodeAllocator (A : Type) := {
  ca_alloc : Z -> A -> result (Z * A);
  ca_free : Z -> A -> result A;
  ca_live : A -> gset Z -> Prop;
  ca_room : A -> Prop;
  ca_alloc_ok a l n : ca_live a l -> ca_room a -> small n -> exists p a', ca_alloc n a = Ok (p, a') /\ p <> 0 /\ p ∉ l /\ ca_live a' ({[p]} ∪ l);
  ca_free_ok a l p : ca_live a l -> p ∈ l -> exists a', ca_free p a = Ok a' /\ ca_live a' (l ∖ {[p]})
}.

(** ** The zone allocator *)

Section Zone.
Context (new_chunk : gmap Z Chunk -> option (Z * Z)).
Hypothesis os_fresh : forall objs k data, new_chunk objs = Some (k, data) -> fresh_chunk objs k data.

Definition zone_live (s : Zone) (l : gset Z) : Prop := exists h, represents s h /\ (dom h : gset Z) = l.

Lemma zone_alloc_ok s l n : zone_live s l -> new_chunk (objects s) <> None -> small n ->
  exists p s', Allocate new_chunk n s = Ok (p, s') /\ p <> 0 /\ p ∉ l /\ zone_live s' ({[p]} ∪ l).
Proof.
  intros (h & Hr & <-) Hnew Hn. destruct (zone_step new_chunk os_fresh s h (OAlloc n) Hr Hn Hnew) as (p & s' & h' & E & Hs & Hr'). exists p, s'. split; [exact E |].
  inversion Hs as [? ? ? bs H0 Hf Hl | | | |]; subst. split; [exact H0 |]. split; [apply not_elem_of_dom, Hf |]. eexists. split; [exact Hr' |]. apply dom_insert_L.
Qed.
Lemma zone_free_ok s l p : zone_live s l -> p ∈ l -> exists s', MemAllocator.Free p s = Ok s' /\ zone_live s' (l ∖ {[p]}).
Proof.
  intros (h & (blocks & Hz & ->) & <-) Hp. apply elem_of_dom in Hp as [bs Hp]. destruct (represents_lookup _ _ _ Hp) as [k Hk].
  destruct (Free_ok blocks s p k bs Hz Hk) as (s' & E & Hz' & _). exists s'. split; [exact E |]. exists (snd <$> delete p blocks). split; [exists (delete p blocks); auto |].
  rewrite fmap_delete. apply dom_delete_L.
Qed.

#[local] Instance zone_allocator : CodeAllocator Zone := {|
  ca_alloc := Allocate new_chunk;
  ca_free := MemAllocator.Free;
  ca_live := zone_live;
  ca_room s := new_chunk (objects s) <> None;
  ca_alloc_ok := zone_alloc_ok;
  ca_free_ok := zone_free_ok
|}.
End Zone.

(** ** The engine on an allocator *)

Section Engine.
Context {A : Type} `{CodeAllocator A} (features : feature_map).

Fixpoint free_code (l : list Z) (a : A) : result A :=
  match l with
  | [] => Ok a
  | p :: r => let* a1 := ca_free p a in free_code r a1
  end.

Lemma free_list_ok l : forall a lv, NoDup l -> ca_live a lv -> (forall p, p ∈ l -> p ∈ lv) -> exists a', free_code l a = Ok a' /\ ca_live a' (lv ∖ list_to_set l).
Proof.
  induction l as [| p r IH]; intros a lv Hn Hl Hin; cbn [free_code list_to_set]; [exists a; split; [reflexivity |]; rewrite difference_empty_L; exact Hl |].
  apply NoDup_cons in Hn as [Hp Hn]. destruct (ca_free_ok a lv p Hl) as (a1 & -> & Hl1); [apply Hin; left |]. cbn [rbind].
  destruct (IH a1 _ Hn Hl1) as (a2 & E & Hl2); [intros q Hq; apply elem_of_difference; split; [apply Hin; right; exact Hq |]; intros Eq; apply elem_of_singleton in Eq; congruence |].
  exists a2. split; [exact E |]. rewrite difference_union_distr_r_L. replace (lv ∖ {[p]} ∖ list_to_set r) with (lv ∖ {[p]} ∩ (lv ∖ list_to_set r)) in Hl2; [exact Hl2 |]. set_solver.
Qed.
Lemma free_set_ok a lv lv' : ca_live a lv -> lv' ⊆ lv -> exists a', free_code (elements (lv ∖ lv')) a = Ok a' /\ ca_live a' lv'.
Proof.
  intros Hl Hs. destruct (free_list_ok (elements (lv ∖ lv')) a lv (NoDup_elements _) Hl) as (a' & E & Hl'); [intros p Hp; apply elem_of_elements in Hp; set_solver |].
  exists a'. split; [exact E |]. rewrite list_to_set_elements_L in Hl'. replace (lv ∖ (lv ∖ lv')) with lv' in Hl'; [exact Hl' |]. apply set_eq. intros x.
  rewrite !elem_of_difference. destruct (decide (x ∈ lv')); [set_solver | tauto].
Qed.

Lemma event_live pt e ev pt' e' : inv features pt e -> allowed features ev pt e -> do_event features ev pt e = Ok (pt', e') ->
  match ev with ETranslate _ _ => True | _ => live e' ⊆ live e end.
Proof.
  intros Hi Ha E. destruct ev as [va | va t | q | type | ag]; cbn [allowed do_event] in *; [| exact I | | |].
  - destruct (lookupBlock_ok features pt e va Hi Ha) as (r & e1 & E1 & _ & El & _). rewrite E1 in E. cbn in E. injection E as _ <-. rewrite El. reflexivity.
  - cbn in E. injection E as _ <-. reflexivity.
  - destruct type; cbn in *; try (injection E as _ <-; reflexivity); [destruct Ha |].
    destruct (InvalidateRegion data e) as [e1 |] eqn:E1; [| discriminate E]. cbn in E. injection E as _ <-. unfold InvalidateRegion in E1.
    destruct (MarkPageDirty data (phys_block_profile_ e)); [| discriminate E1]. cbn in E1. injection E1 as <-. reflexivity.
  - destruct (checkFlushTxlns_ok features pt e ag Hi) as (e1 & E1 & _ & Hs). rewrite E1 in E. cbn in E. injection E as _ <-. exact Hs.
Qed.

(** C13. The engine, in any state that it reaches, on an allocator
    that satisfies [CodeAllocator] and whose live buffers are the engine's
    functions.  An event that translates nothing is carried out, and freeing
    what the engine gives up leaves exactly its functions allocated.  To
    translate a block, the code that no longer fits is freed, memory for the
    new code is allocated, which is allowed as the function of the block, and
    after the translation exactly the engine's functions are allocated. *)
Theorem jit_on_allocator n pt e a : reachable features n pt e -> ca_live a (live e) ->
  (forall ev, allowed features ev pt e -> (forall va t, ev <> ETranslate va t) ->
    exists pt' e' a', do_event features ev pt e = Ok (pt', e') /\ free_code (elements (live e ∖ live e')) a = Ok a' /\ ca_live a' (live e')) /\
  (forall va pa required code size, 0 <= va < 2 ^ 64 - 1 -> pt va = Some pa -> _dirty (page_of (_page_profiles (phys_block_profile_ e)) (GetPageIndex pa)) = false ->
    usable features (mkTxln code required size) -> small size ->
    exists e1 a1, checkCodeSize e = Ok e1 /\ free_code (elements (live e ∖ live e1)) a = Ok a1 /\ ca_live a1 (live e1) /\
      (ca_room a1 -> exists p a2, ca_alloc size a1 = Ok (p, a2) /\ allowed features (ETranslate va (mkTxln p required size)) pt e /\
        exists e', do_event features (ETranslate va (mkTxln p required size)) pt e = Ok (pt, e') /\ (ca_live a1 (live e') \/ ca_live a2 (live e')))).
Proof.
  intros Hr Hl. pose proof (reachable_inv features n pt e Hr) as Hi. split.
  - intros ev Ha Hnt. destruct (jit_event_ok features pt e ev Hi Ha) as (pt' & e' & E & _). pose proof (event_live pt e ev pt' e' Hi Ha E) as Hs.
    assert (Hsub : live e' ⊆ live e) by (destruct ev as [va | va t | q | type | ag]; try exact Hs; destruct (Hnt va t eq_refl)).
    destruct (free_set_ok a (live e) (live e') Hl Hsub) as (a' & Ea & Hl'). eauto 7.
  - intros va pa required code size Hva Hpt Hd Hu Hn. destruct (checkCodeSize_ok features pt e Hi) as (e1 & E1 & _ & Hs1 & _).
    destruct (free_set_ok a (live e) (live e1) Hl Hs1) as (a1 & Ea & Hl1). exists e1, a1. split; [exact E1 |]. split; [exact Ea |]. split; [exact Hl1 |]. intros Hroom.
    destruct (ca_alloc_ok a1 (live e1) size Hl1 Hroom Hn) as (p & a2 & Ep & Hp0 & Hpn & Hl2). exists p, a2. split; [exact Ep |].
    assert (Hnew : new_code (mkTxln p required size) e) by (intros e1' E1'; rewrite E1 in E1'; injection E1' as <-; exact Hpn).
    assert (Hu' : usable features (mkTxln p required size)) by exact Hu. split; [cbn [allowed fn_]; eauto 8 |].
    destruct (translateBlock_ok features pt e va pa (mkTxln p required size) Hi Hva Hpt Hd Hp0 Hnew Hu') as (e1' & e' & E1' & E' & _ & Hlive).
    rewrite E1 in E1'. injection E1' as <-. cbn [do_event]. rewrite E'. cbn [rbind snd]. exists e'. split; [reflexivity |]. cbn [fn_] in Hlive.
    destruct Hlive as [-> | ->]; auto.
Qed.
End Engine.

Lemma jit_on_allocator_witness : exists p a2 e', Allocate one_chunk 64 (new_zone (fun _ => 0)) = Ok (p, a2) /\
  do_event [(0, 1)] (ETranslate 4096 (mkTxln p (Some [(0, 1)]) 64)) identity_map (new_engine 0) = Ok (identity_map, e') /\
  (zone_live (new_zone (fun _ => 0)) (live e') \/ zone_live a2 (live e')).
Proof.
  destruct (jit_on_allocator (H := zone_allocator one_chunk one_chunk_fresh) [(0, 1)] 0 identity_map (new_engine 0) (new_zone (fun _ => 0))) as [_ Ht].
  - apply reach_init, identity_map_valid.
  - exists ∅. split; [exists ∅; split; [apply new_zone_ok | rewrite fmap_empty; reflexivity] | apply dom_empty_L].
  - destruct (Ht 4096 4096 (Some [(0, 1)]) 1 64) as (e1 & a1 & E1 & E2 & E3 & E4).
    + lia.
    + reflexivity.
    + cbn. unfold page_of. rewrite lookup_empty. reflexivity.
    + split; [reflexivity |]. repeat constructor; cbn; lia.
    + unfold small, kChunkSize. lia.
    + change (Ok (new_engine 0) = Ok e1) in E1. injection E1 as <-. change (live (new_engine 0)) with (∅ : gset Z) in E2. rewrite difference_diag_L, elements_empty in E2. injection E2 as <-.
      destruct E4 as (p & a2 & E5 & _ & e' & E6 & E7); [discriminate |]. exists p, a2, e'. auto.
Defined.
