(* ===== verification/X86Encoder.v ===== *)
(** * The x86-64 encoder of BlockJIT (lowering/x86/X86Encoder.cpp, X86Encoder.h)

    A method of X86Encoder is the list of the [emit8], ... [emit64] calls it
    makes, or fails an assertion.  Overloads have the kinds of their arguments
    in their names, in the order of the source (AT&T: source first): [r] a
    register, [m] memory, [i] an immediate value, [v] a vector register.

    [run] carries emissions out on the buffer, which grows through the
    allocator; [_buffer] is what has been written to it.  [Ensure] is a call
    of [ensure_buffer], which writes nothing. *)

From Stdlib Require Import ZArith Lia List Bool.
From stdpp Require Import base numbers list.
From S2P Require Import Prelude.
Import ListNotations.
#[local] Open Scope Z_scope.
#[local] Open Scope gensim_scope.

(** ** Registers and memory operands *)

Record X86Register := mkReg { size : Z; raw_index : Z; hireg : bool; newreg : bool }.
Definition reg_eqb (a b : X86Register) : bool :=
  (size b =? size a) && (raw_index b =? raw_index a) && eqb (hireg b) (hireg a) && eqb (newreg b) (newreg a).

(** rax .. rdi, r8 .. r15 of eight, four and two bytes; al .. bl; ah .. bh;
    spl .. dil; r8b .. r15b. *)
Definition low_regs (sz : Z) : list X86Register := map (fun i => mkReg sz i false false) [0; 1; 2; 3; 4; 5; 6; 7].
Definition high_regs (sz : Z) : list X86Register := map (fun i => mkReg sz i true false) [0; 1; 2; 3; 4; 5; 6; 7].
Definition new_regs : list X86Register := map (fun i => mkReg 1 i false true) [4; 5; 6; 7].
Definition all_regs : list X86Register :=
  low_regs 8 ++ low_regs 4 ++ low_regs 2 ++ low_regs 1 ++ new_regs ++ high_regs 8 ++ high_regs 4 ++ high_regs 2 ++ high_regs 1.
Definition REG_RAX := mkReg 8 0 false false.
Definition REG_EAX := mkReg 4 0 false false.
Definition REG_RDX := mkReg 8 2 false false.
Definition REG_CL := mkReg 1 1 false false.
Definition REG_RSP := mkReg 8 4 false false.
Definition REG_RBP := mkReg 8 5 false false.
Definition REG_R12 := mkReg 8 4 true false.
Definition REG_R13 := mkReg 8 5 true false.
Definition REG_RIZ := mkReg 0 8 false false.
(** The reference named REG_RIP refers to the register riz. *)
Definition REG_RIP := REG_RIZ.

Record X86VectorRegister := mkVec { vsize : Z; vraw_index : Z; vhireg : bool }.
Definition vector_regs : list X86VectorRegister :=
  map (fun i => mkVec 16 i false) [0; 1; 2; 3; 4; 5; 6; 7] ++ map (fun i => mkVec 16 i true) [0; 1; 2; 3; 4; 5; 6; 7].

Record X86Memory := mkMem { index : X86Register; base : X86Register; segment : Z; displacement : Z; scale : Z }.
Definition mem_base (b : X86Register) : X86Memory := mkMem REG_RIZ b 0 0 0.
Definition mem_disp (b : X86Register) (disp : Z) : X86Memory := mkMem REG_RIZ b 0 (sext 32 disp) 0.
Definition mem_index (b i : X86Register) (s : Z) : X86Memory := mkMem i b 0 0 s.
Definition mem_full (b : X86Register) (disp : Z) (i : X86Register) (s : Z) : X86Memory := mkMem i b 0 (sext 32 disp) s.
Definition withSegment (s : Z) (m : X86Memory) : X86Memory := mkMem (index m) (base m) s (displacement m) (scale m).

(** ** Emission *)

Inductive emission := E8 (b : Z) | E16 (v : Z) | E32 (v : Z) | E64 (v : Z) | Ensure (extra : Z).
Definition code : Type := result (list emission).
Definition append (a b : code) : code := let* x := a in let* y := b in Ok (x ++ y).
#[local] Notation "a +> b" := (append a b) (at level 61, b at level 200).
Definition emit8 (b : Z) : code := Ok [E8 b].
Definition emit16 (v : Z) : code := Ok [E16 v].
Definition emit32 (v : Z) : code := Ok [E32 v].
Definition emit64 (v : Z) : code := Ok [E64 v].
Definition ensure (extra : Z) : code := Ok [Ensure extra].
Definition skip : code := Ok [].
Definition when (b : bool) (c : code) : code := if b then c else skip.

Fixpoint le_bytes (n : nat) (v : Z) : list Z := match n with O => [] | S k => v mod 256 :: le_bytes k (v / 256) end.
Definition bytes_emitted (e : emission) : list Z :=
  match e with E8 b => le_bytes 1 b | E16 v => le_bytes 2 v | E32 v => le_bytes 4 v | E64 v => le_bytes 8 v | Ensure _ => [] end.
Definition flatten (es : list emission) : list Z := concat (map bytes_emitted es).

Record X86Encoder := mkEncoder { _buffer : list Z; _buffer_size : Z; _support_relocation : bool }.
Definition new_encoder : X86Encoder := mkEncoder [] 0 false.
Definition _write_offset (e : X86Encoder) : Z := Z.of_nat (length (_buffer e)).
Definition ensure_buffer (extra : Z) (e : X86Encoder) : X86Encoder :=
  if _buffer_size e <=? _write_offset e + extra then mkEncoder (_buffer e) (_buffer_size e + 1024) (_support_relocation e) else e.
(** Writing past the end of the buffer is undefined. *)
Definition emit (em : emission) (e : X86Encoder) : result X86Encoder :=
  let bs := bytes_emitted em in
  let e1 := ensure_buffer (match em with Ensure extra => extra | _ => Z.of_nat (length bs) end) e in
  check* _write_offset e1 + Z.of_nat (length bs) <=? _buffer_size e1 or UndefinedBehaviour in
  Ok (mkEncoder (_buffer e1 ++ bs) (_buffer_size e1) (_support_relocation e1)).
Fixpoint run (es : list emission) (e : X86Encoder) : result X86Encoder :=
  match es with
  | [] => Ok e
  | em :: r => let* e1 := emit em e in run r e1
  end.

(** ** Prefixes, ModRM and SIB *)

Definition REX : Z := 0x40.
Definition REX_B : Z := 0x41.
Definition REX_X : Z := 0x42.
Definition REX_R : Z := 0x44.
Definition REX_W : Z := 0x48.
Definition GS_SEGMENT_PREFIX : Z := 0x65.
Definition OPER_SIZE_OVERRIDE : Z := 0x66.
Definition ADDR_SIZE_OVERRIDE : Z := 0x67.

Definition flag (b : bool) (v : Z) : Z := if b then v else 0.
(** The REX byte as the methods collect it; it is emitted when it is not zero. *)
Definition rex_byte (nw w r x b : bool) : Z :=
  Z.lor (Z.lor (Z.lor (Z.lor (flag nw REX) (flag w REX_W)) (flag r REX_R)) (flag b REX_B)) (flag x REX_X).
Definition emit_rex (rex : Z) : code := when (negb (rex =? 0)) (emit8 rex).
Definition encode_rex_prefix (b x r w : bool) : code :=
  emit8 (Z.lor (Z.lor (Z.lor (Z.lor 0x40 (flag b 1)) (flag x 2)) (flag r 4)) (flag w 8)).
Definition emit_opcode (opcode : Z) : code := when (0x100 <? opcode) (emit8 0x0f) +> emit8 (Z.land opcode 0xff).
Definition triple (hi mid lo : Z) : Z :=
  Z.lor (Z.lor (Z.shiftl (Z.land hi 3) 6) (Z.shiftl (Z.land mid 7) 3)) (Z.land lo 7).

Definition mod_reg_rm_r (mreg : Z) (rm : X86Register) : code := emit8 (triple 3 mreg (raw_index rm)).
Definition mod_reg_rm_v (mreg : Z) (rm : X86VectorRegister) : code := emit8 (triple 3 mreg (vraw_index rm)).
Definition mod_of (rm : X86Memory) : Z :=
  if (displacement rm =? 0) || (reg_eqb (base rm) REG_RIZ && reg_eqb (index rm) REG_RIZ) then 0
  else if (displacement rm <? 128) && (-127 <? displacement rm) then 1
  else 2.
Definition rm_of (rm : X86Memory) : result Z :=
  if reg_eqb (base rm) REG_RSP then Ok 4
  else if reg_eqb (base rm) REG_R12 then Ok 4
  else if reg_eqb (base rm) REG_RIP then Err AssertFailed
  else if negb (scale rm =? 0) then Ok 4
  else Ok (raw_index (base rm)).
Definition scale_bits (s : Z) : result Z :=
  if s =? 1 then Ok 0 else if s =? 2 then Ok 1 else if s =? 4 then Ok 2 else if s =? 8 then Ok 3 else Err UndefinedBehaviour.
Definition sib (rm : X86Memory) : code :=
  if scale rm =? 0 then emit8 (triple 0 4 (raw_index (base rm)))
  else
    let* s := scale_bits (scale rm) in
    let i := if reg_eqb (index rm) REG_RIZ then 4 else raw_index (index rm) in
    let b := if reg_eqb (base rm) REG_RIZ then 5 else raw_index (base rm) in
    emit8 (triple s i b).
Definition mod_reg_rm_m (mreg : Z) (rm : X86Memory) : code :=
  let* mrm := rm_of rm in
  let mod_ := if (mod_of rm =? 0) && (reg_eqb (base rm) REG_RBP || reg_eqb (base rm) REG_R13) then 1 else mod_of rm in
  emit8 (triple mod_ mreg mrm) +>
  when (mrm =? 4) (sib rm) +>
  if mod_ =? 1 then emit8 (displacement rm)
  else when ((mod_ =? 2) || (reg_eqb (base rm) REG_RIZ && reg_eqb (index rm) REG_RIZ)) (emit32 (displacement rm)).

Definition valid_size (s : Z) : bool := (s =? 1) || (s =? 2) || (s =? 4) || (s =? 8).
Definition opcode_rm (opcode : Z) (reg : X86Register) (rm : X86Memory) : code :=
  check* valid_size (size reg) or AssertFailed in
  check* (size (base rm) =? 4) || (size (base rm) =? 8) || reg_eqb (base rm) REG_RIZ or AssertFailed in
  check* (segment rm =? 0) || (segment rm =? 1) or AssertFailed in
  when (segment rm =? 1) (emit8 GS_SEGMENT_PREFIX) +>
  when (size reg =? 2) (emit8 OPER_SIZE_OVERRIDE) +>
  when (size (base rm) =? 4) (emit8 ADDR_SIZE_OVERRIDE) +>
  emit_rex (rex_byte (newreg reg) (size reg =? 8) (hireg reg) (hireg (index rm)) (hireg (base rm))) +>
  emit_opcode opcode +>
  mod_reg_rm_m (raw_index reg) rm.
Definition opcode_rr (opcode : Z) (reg rm : X86Register) : code :=
  when (size reg =? 2) (emit8 OPER_SIZE_OVERRIDE) +>
  emit_rex (rex_byte (newreg reg || newreg rm) (size reg =? 8) (hireg reg) false (hireg rm)) +>
  emit_opcode opcode +>
  mod_reg_rm_r (raw_index reg) rm.
Definition opcode_or (opcode oper : Z) (rm : X86Register) : code :=
  when (size rm =? 2) (emit8 OPER_SIZE_OVERRIDE) +>
  emit_rex (rex_byte (newreg rm) (size rm =? 8) false false (hireg rm)) +>
  emit_opcode opcode +>
  mod_reg_rm_r oper rm.
Definition opcode_om (opcode oper sz : Z) (rm : X86Memory) : code :=
  check* valid_size sz or AssertFailed in
  check* (size (base rm) =? 4) || (size (base rm) =? 8) or AssertFailed in
  when (sz =? 2) (emit8 OPER_SIZE_OVERRIDE) +>
  when (size (base rm) =? 4) (emit8 ADDR_SIZE_OVERRIDE) +>
  emit_rex (rex_byte false (sz =? 8) false false (hireg (base rm))) +>
  emit_opcode opcode +>
  mod_reg_rm_m oper rm.

(** ** Instructions *)

Definition incq (loc : X86Memory) : code := opcode_om 0xff 0 8 loc.
Definition cltd : code := emit8 0x99.
(** Registers of two bytes get no operand-size prefix. *)
Definition push_r (reg : X86Register) : code :=
  check* (size reg =? 2) || (size reg =? 8) or AssertFailed in
  when (hireg reg) (encode_rex_prefix true false false false) +> emit8 (0x50 + raw_index reg).
Definition push_i (imm : Z) : code := emit8 0x68 +> emit32 imm.
Definition pop (reg : X86Register) : code :=
  check* (size reg =? 2) || (size reg =? 8) or AssertFailed in
  when (hireg reg) (encode_rex_prefix true false false false) +> emit8 (0x58 + raw_index reg).
Definition wbinvd : code := emit8 0x0f +> emit8 0x09.
Definition invlpg (addr : X86Memory) : code := opcode_om 0x101 7 8 addr.
Definition lea (addr : X86Memory) (dst : X86Register) : code := opcode_rm 0x8d dst addr.
Definition bswap (dst : X86Register) : code :=
  when (size dst =? 2) (emit8 0x66) +> encode_rex_prefix (hireg dst) false false (size dst =? 8) +> emit8 0x0f +> emit8 (0xc8 + raw_index dst).

Definition pick (sz one other : Z) : Z := if sz =? 1 then one else other.
Definition mov_rr (src dst : X86Register) : code :=
  check* size src =? size dst or AssertFailed in opcode_rr (pick (size src) 0x88 0x89) src dst.
Definition mov_mr (src : X86Memory) (dst : X86Register) : code := opcode_rm (pick (size dst) 0x8a 0x8b) dst src.
Definition mov_rm (src : X86Register) (dst : X86Memory) : code := opcode_rm (pick (size src) 0x88 0x89) src dst.
Definition mov_ir (src : Z) (dst : X86Register) : code :=
  if size dst =? 1 then
    emit_rex (if newreg dst then REX else flag (hireg dst) REX_B) +> emit8 (0xb0 + raw_index dst) +> emit8 src
  else
    let sz := if (size dst =? 8) && (src <? 0x80000000) then 4 else size dst in
    when (sz =? 2) (emit8 OPER_SIZE_OVERRIDE) +>
    emit_rex (Z.lor (flag (hireg dst) REX_B) (flag (sz =? 8) REX_W)) +>
    emit8 (0xb8 + raw_index dst) +>
    if sz =? 8 then emit64 src else if sz =? 4 then emit32 src else if sz =? 2 then emit16 src else skip.
Definition mov8 (src : Z) (dst : X86Memory) : code := Err AssertFailed.
Definition mov4 (src : Z) (dst : X86Memory) : code := opcode_om 0xc7 0 4 dst +> emit32 src.
Definition mov2 (src : Z) (dst : X86Memory) : code := opcode_om 0xc7 0 2 dst +> emit16 src.
Definition mov1 (src : Z) (dst : X86Memory) : code := opcode_om 0xc6 0 1 dst +> emit8 src.

Definition wide (s : Z) : bool := (s =? 2) || (s =? 4) || (s =? 8).
Definition movzx_rr (src dst : X86Register) : code :=
  check* size src <? size dst or AssertFailed in
  check* (size src =? 1) || (size src =? 2) or AssertFailed in
  check* wide (size dst) or AssertFailed in
  opcode_rr (pick (size src) 0x1b6 0x1b7) dst src.
Definition movzx_mr (src_size : Z) (src : X86Memory) (dst : X86Register) : code :=
  check* (src_size =? 1) || (src_size =? 2) or AssertFailed in
  check* wide (size dst) or AssertFailed in
  check* src_size <? size dst or AssertFailed in
  opcode_rm (pick src_size 0x1b6 0x1b7) dst src.
Definition movsx_opcode (src_size : Z) : Z := if src_size =? 1 then 0x1be else if src_size =? 2 then 0x1bf else 0x63.
Definition movsx_mr (src_size : Z) (src : X86Memory) (dst : X86Register) : code :=
  check* (src_size =? 1) || (src_size =? 2) || (src_size =? 4) or AssertFailed in
  check* wide (size dst) or AssertFailed in
  check* src_size <? size dst or AssertFailed in
  check* negb (src_size =? 4) || (size dst =? 8) or AssertFailed in
  opcode_rm (movsx_opcode src_size) dst src.
Definition movsx_rr (src dst : X86Register) : code :=
  check* size src <? size dst or AssertFailed in
  check* (size src =? 1) || (size src =? 2) || (size src =? 4) or AssertFailed in
  check* wide (size dst) or AssertFailed in
  check* negb (size src =? 4) || (size dst =? 8) or AssertFailed in
  opcode_rr (movsx_opcode (size src)) dst src.

(** *** Vector registers *)

Definition movq_rex (w b r : bool) : Z := Z.lor (Z.lor (Z.lor 0x40 (flag w 8)) (flag b 1)) (flag r 4).
Definition movq_rv (src : X86Register) (dst : X86VectorRegister) : code :=
  when (vsize dst =? 16) (emit8 0x66) +>
  when (negb (movq_rex (size src =? 8) (hireg src) (vhireg dst) =? 0x40)) (emit8 (movq_rex (size src =? 8) (hireg src) (vhireg dst))) +>
  emit8 0x0f +> emit8 0x6e +> mod_reg_rm_r (vraw_index dst) src.
Definition movq_vr (src : X86VectorRegister) (dst : X86Register) : code :=
  when (vsize src =? 16) (emit8 0x66) +>
  when (negb (movq_rex (size dst =? 8) (hireg dst) (vhireg src) =? 0x40)) (emit8 (movq_rex (size dst =? 8) (hireg dst) (vhireg src))) +>
  emit8 0x0f +> emit8 0x7e +> mod_reg_rm_r (vraw_index src) dst.
(** The operations on two vector registers, which take only the first eight. *)
Definition vector_op (prefix : option Z) (opcode : Z) (src dest : X86VectorRegister) : code :=
  check* negb (vhireg src) && negb (vhireg dest) or AssertFailed in
  match prefix with Some p => emit8 p | None => skip end +> emit8 0x0f +> emit8 opcode +> mod_reg_rm_v (vraw_index dest) src.
Definition addss := vector_op (Some 0xf3) 0x58.
Definition addsd := vector_op (Some 0xf2) 0x58.
Definition subss := vector_op (Some 0xf3) 0x5c.
Definition subsd := vector_op (Some 0xf2) 0x5c.
Definition divss := vector_op (Some 0xf3) 0x5e.
Definition divsd := vector_op (Some 0xf2) 0x5e.
Definition mulss := vector_op (Some 0xf3) 0x59.
Definition mulsd := vector_op (Some 0xf2) 0x59.
Definition sqrtss := vector_op (Some 0xf3) 0x51.
Definition sqrtsd := vector_op (Some 0xf2) 0x51.
Definition cmpss (src dest : X86VectorRegister) (imm : Z) : code := vector_op (Some 0xf3) 0xc2 src dest +> emit8 imm.
Definition cmpsd (src dest : X86VectorRegister) (imm : Z) : code := vector_op (Some 0xf2) 0xc2 src dest +> emit8 imm.
Definition cvtss2sd := vector_op (Some 0xf3) 0x5a.
Definition cvtsd2ss := vector_op (Some 0xf2) 0x5a.
Definition paddw := vector_op (Some 0x66) 0xfd.
Definition paddd := vector_op (Some 0x66) 0xfe.
Definition paddq := vector_op (Some 0x66) 0xd4.
Definition psubd := vector_op (Some 0x66) 0xfa.
Definition psubq := vector_op (Some 0x66) 0xfb.
Definition pmuld := vector_op (Some 0x66) 0xf4.
Definition pmulq (src dest : X86VectorRegister) : code := Err AssertFailed.
Definition addps := vector_op None 0x58.
Definition addpd := vector_op (Some 0x66) 0x58.
Definition mulps := vector_op None 0x59.
Definition mulpd := vector_op (Some 0x66) 0x59.
Definition pxor := vector_op (Some 0x66) 0xef.
Definition cvt_to_int (prefix opcode : Z) (src : X86VectorRegister) (dest : X86Register) : code :=
  emit8 prefix +>
  when ((size dest =? 8) || hireg dest || vhireg src) (encode_rex_prefix (vhireg src) false (hireg dest) (size dest =? 8)) +>
  emit8 0x0f +> emit8 opcode +> mod_reg_rm_v (raw_index dest) src.
Definition cvttsd2si := cvt_to_int 0xf2 0x2c.
Definition cvtsd2si := cvt_to_int 0xf2 0x2d.
Definition cvtss2si := cvt_to_int 0xf3 0x2d.
Definition cvttss2si (src : X86VectorRegister) (dest : X86Register) : code :=
  check* negb (vhireg src) && negb (hireg dest) or AssertFailed in
  emit8 0xf3 +> when (size dest =? 8) (emit8 0x48) +> emit8 0x0f +> emit8 0x2c +> mod_reg_rm_v (raw_index dest) src.
Definition cvt_from_int (prefix : Z) (src : X86Register) (dest : X86VectorRegister) : code :=
  emit8 prefix +> encode_rex_prefix (hireg src) false (vhireg dest) (size src =? 8) +> emit8 0x0f +> emit8 0x2a +> mod_reg_rm_r (vraw_index dest) src.
Definition cvtsi2sd := cvt_from_int 0xf2.
Definition cvtsi2ss := cvt_from_int 0xf3.
Definition movfs (off : Z) (dst : X86Register) : code := Err AssertFailed.

Definition xchg (a b : X86Register) : code :=
  check* size a =? size b or AssertFailed in opcode_rr (pick (size a) 0x86 0x87) a b.
Definition cbtw : code := emit8 0x66 +> emit8 0x98.
Definition cwtl : code := emit8 0x98.
Definition cltq : code := emit8 0x48 +> emit8 0x98.

(** *** Arithmetic *)

Definition arithmetic_ir (oper imm : Z) (dst : X86Register) : code :=
  if size dst =? 1 then opcode_or 0x80 oper dst +> emit8 imm
  else if imm <? 128 then opcode_or 0x83 oper dst +> emit8 imm
  else if (sext 32 imm <? 0) && (-127 <? sext 32 imm) then opcode_or 0x83 oper dst +> emit8 (Z.land imm 0xff)
  else opcode_or 0x81 oper dst +> if (size dst =? 4) || (size dst =? 8) then emit32 imm else when (size dst =? 2) (emit16 imm).
Definition arithmetic_im (oper imm sz : Z) (dst : X86Memory) : code :=
  if sz =? 1 then opcode_om 0x80 oper sz dst +> emit8 imm
  else if imm <? 128 then opcode_om 0x83 oper sz dst +> emit8 imm
  else opcode_om 0x81 oper sz dst +> if (sz =? 4) || (sz =? 8) then emit32 imm else when (sz =? 2) (emit16 imm).
(** Two operands; the first opcode of an operation is 8 times its number. *)
Definition alu_rr (checked : bool) (oper : Z) (src dst : X86Register) : code :=
  check* negb checked || (size src =? size dst) or AssertFailed in opcode_rr (8 * oper + pick (size src) 0 1) src dst.
Definition alu_rm (oper : Z) (src : X86Register) (dst : X86Memory) : code := opcode_rm (8 * oper + pick (size src) 0 1) src dst.
Definition alu_mr (oper : Z) (src : X86Memory) (dst : X86Register) : code := opcode_rm (8 * oper + pick (size dst) 2 3) dst src.

Definition andd_im (val sz : Z) (dst : X86Memory) : code := arithmetic_im 4 val sz dst.
Definition andd_ir (val : Z) (dst : X86Register) : code := arithmetic_ir 4 val dst.
Definition andd_rr := alu_rr true 4.
Definition andd_rm := alu_rm 4.
Definition andd_mr := alu_mr 4.
Definition orr_im (val sz : Z) (dst : X86Memory) : code := arithmetic_im 1 val sz dst.
Definition orr_ir (val : Z) (dst : X86Register) : code := arithmetic_ir 1 val dst.
Definition orr_rr := alu_rr true 1.
Definition orr_rm := alu_rm 1.
Definition orr_mr := alu_mr 1.
Definition xorr_im (val sz : Z) (dst : X86Memory) : code := arithmetic_im 6 val sz dst.
(** The short form for the accumulator does not look at the size. *)
Definition xorr_ir (val : Z) (dst : X86Register) : code :=
  if (raw_index dst =? 0) && negb (hireg dst) then
    if size dst =? 1 then emit8 0x34 +> emit8 val else emit8 0x35 +> emit32 val
  else arithmetic_ir 6 val dst.
Definition xorr_rr := alu_rr true 6.
Definition xorr_rm := alu_rm 6.
Definition xorr_mr := alu_mr 6.
(** Here the opcode goes by the size of the destination. *)
Definition adc_ir (src : Z) (dst : X86Register) : code := arithmetic_ir 2 src dst.
Definition adc_mr := alu_mr 2.
Definition adc_rr (src dst : X86Register) : code := opcode_rr (pick (size dst) 0x10 0x11) src dst.
Definition sbc_ir (src : Z) (dst : X86Register) : code := arithmetic_ir 3 src dst.
Definition sbc_mr := alu_mr 3.
Definition sbc_rr (src dst : X86Register) : code := opcode_rr (pick (size dst) 0x18 0x19) src dst.
Definition add_rr := alu_rr false 0.
Definition add_mr := alu_mr 0.
Definition add_ir (val : Z) (dst : X86Register) : code := arithmetic_ir 0 val dst.
Definition add_rm := alu_rm 0.
Definition short_im (oper val sz : Z) (dst : X86Memory) : code :=
  if val <? 127 then opcode_om 0x83 oper sz dst +> emit8 val else opcode_om 0x81 oper sz dst +> emit32 val.
Definition add_im (val sz : Z) (dst : X86Memory) : code := short_im 0 val sz dst.
Definition add4 (val : Z) (dst : X86Memory) : code := short_im 0 val 4 dst.
Definition add8 (val : Z) (dst : X86Memory) : code := short_im 0 val 8 dst.
Definition sub_rr := alu_rr false 5.
Definition sub_mr := alu_mr 5.
Definition sub_rm := alu_rm 5.
Definition sub_ir (val : Z) (dst : X86Register) : code := arithmetic_ir 5 val dst.
Definition sub_im (val sz : Z) (dst : X86Memory) : code := short_im 5 val sz dst.
Definition cmp_rr := alu_rr true 7.
Definition cmp_rm := alu_rm 7.
Definition cmp_mr := alu_mr 7.
Definition cmp_ir (val : Z) (dst : X86Register) : code := arithmetic_ir 7 val dst.
Definition cmp1 (val : Z) (dst : X86Memory) : code := arithmetic_im 7 val 1 dst.
Definition cmp2 (val : Z) (dst : X86Memory) : code := arithmetic_im 7 val 2 dst.
Definition cmp4 (val : Z) (dst : X86Memory) : code := arithmetic_im 7 val 4 dst.
Definition cmp8 (val : Z) (dst : X86Memory) : code :=
  check* val <? 0x80 or AssertFailed in opcode_om 0x83 7 8 dst +> emit8 (Z.land val 0xff).

Definition shift_im (oper amount dstsize : Z) (dst : X86Memory) : code := opcode_om (pick dstsize 0xc0 0xc1) oper dstsize dst +> emit8 amount.
Definition shl_im := shift_im 4.
Definition shr_im := shift_im 5.
Definition sar_im := shift_im 7.
Definition ror_im := shift_im 1.
Definition shift_ir (oper amount : Z) (dst : X86Register) : code := opcode_or (pick (size dst) 0xc0 0xc1) oper dst +> emit8 amount.
Definition shift_one_ir (oper amount : Z) (dst : X86Register) : code :=
  if amount =? 1 then opcode_or (pick (size dst) 0xd0 0xd1) oper dst else shift_ir oper amount dst.
Definition shl_ir := shift_one_ir 4.
Definition shr_ir := shift_one_ir 5.
Definition sar_ir := shift_ir 7.
Definition ror_ir := shift_ir 1.
Definition shift_rr (oper : Z) (amount dst : X86Register) : code :=
  check* reg_eqb amount REG_CL or AssertFailed in opcode_or (pick (size dst) 0xd2 0xd3) oper dst.
Definition shl_rr := shift_rr 4.
Definition shr_rr := shift_rr 5.
Definition sar_rr := shift_rr 7.
Definition ror_rr := shift_rr 1.

Definition imul (src dst : X86Register) : code := check* size src =? size dst or AssertFailed in opcode_rr 0x1af dst src.
Definition mul (src : X86Register) : code := opcode_or 0xf7 4 src.
Definition mul1 (src : X86Register) : code := opcode_or 0xf6 4 src.
Definition div (divisor : X86Register) : code := opcode_or 0xf7 6 divisor.
Definition idiv (divisor : X86Register) : code := opcode_or 0xf7 7 divisor.
Definition test_ir (v : Z) (op : X86Register) : code :=
  opcode_or (pick (size op) 0xf6 0xf7) 0 op +>
  if size op =? 1 then emit8 v else if size op =? 2 then emit16 v else if size op =? 4 then emit32 v
  else if size op =? 8 then emit64 v else Err AssertFailed.
Definition test_rr (op1 op2 : X86Register) : code :=
  check* size op1 =? size op2 or AssertFailed in opcode_rr (pick (size op1) 0x84 0x85) op2 op1.
Definition test4 (op1 : Z) (op2 : X86Memory) : code := opcode_om 0xf7 0 4 op2 +> emit32 op1.

(** *** Control flow *)

Definition call_r (reg : X86Register) : code := when (hireg reg) (emit8 0x41) +> emit8 0xff +> mod_reg_rm_r (raw_index REG_RDX) reg.
Definition call_m (mem : X86Memory) : code := emit8 0xff +> mod_reg_rm_m 2 mem.
Definition jmp_r (tgt : X86Register) : code := when (hireg tgt) (emit8 0x41) +> emit8 0xff +> mod_reg_rm_r 4 tgt.
Definition jmp_m (tgt : X86Memory) : code := emit8 0xff +> mod_reg_rm_m 4 tgt.
(** To an address: relative when relocation is allowed and the offset, from
    [here], five bytes behind the current place, fits. *)
Definition far (support_relocation : bool) (here target : Z) : bool :=
  negb support_relocation || (2 ^ 31 - 1 <? target - here) || (target - here <? - 2 ^ 31).
Definition call_target (support_relocation : bool) (here target : Z) (reg : X86Register) : code :=
  ensure 16 +>
  if far support_relocation here target then mov_ir target reg +> call_r reg else emit8 0xe8 +> emit32 (target - here).
Definition jmp_target (support_relocation : bool) (here target : Z) (reg : X86Register) : code :=
  ensure 16 +>
  if far support_relocation here target then mov_ir target reg +> jmp_r reg else emit8 0xe9 +> emit32 (target - here).
Definition jmp_offset (offset : Z) : code := emit8 0xe9 +> emit32 offset.
(** With the place of the offset, for a method called at [write_offset]. *)
Definition jmp_reloc_offset (write_offset : Z) : Z := write_offset + 1.
Definition jmp_short_reloc_offset (write_offset : Z) : Z := write_offset + 1.
Definition jcc_reloc_offset (write_offset : Z) : Z := write_offset + 2.
Definition jcc_short_reloc_offset (write_offset : Z) : Z := write_offset + 1.
Definition jmp_reloc : code := emit8 0xe9 +> emit32 0.
Definition jmp_short_reloc : code := emit8 0xeb +> emit8 0.
Definition jcc_reloc (v : Z) : code := emit8 0x0f +> emit8 (Z.lor 0x80 (Z.land v 0xf)) +> emit32 0.
Definition jcc_short_reloc (v : Z) : code := emit8 (Z.lor 0x70 (Z.land v 0xf)) +> emit8 0.
Definition jcc_short (v off : Z) : code := emit8 (Z.lor 0x70 (Z.land v 0xf)) +> emit8 off.
Definition jcc (v off : Z) : code := emit8 0x0f +> emit8 (Z.lor 0x80 (Z.land v 0xf)) +> emit32 off.
Definition setcc_r (v : Z) (dst : X86Register) : code :=
  check* size dst =? 1 or AssertFailed in
  (if newreg dst then emit8 REX else when (hireg dst) (emit8 REX_B)) +> emit8 0x0f +> emit8 (Z.lor 0x90 (Z.land v 0xf)) +> mod_reg_rm_r 0 dst.
Definition setcc_m (v : Z) (dst : X86Memory) : code :=
  when (hireg (base dst)) (emit8 REX_B) +> emit8 0x0f +> emit8 (Z.lor 0x90 (Z.land v 0xf)) +> mod_reg_rm_m 0 dst.
Definition cmov (c : Z) (src dst : X86Register) : code := opcode_rr (Z.lor 0x140 c) dst src.
Definition lahf : code := emit8 0x9f.
Definition stc : code := emit8 0xf9.
Definition clc : code := emit8 0xf8.
Definition bsr (src dst : X86Register) : code := check* size src =? size dst or AssertFailed in opcode_rr 0x1bd dst src.
Definition ret : code := emit8 0xc3.
Definition movcs (dst : X86Register) : code :=
  check* size dst =? 2 or AssertFailed in emit8 0x66 +> emit8 0x8c +> mod_reg_rm_r 1 dst.
Definition int3 : code := emit8 0xcc.
Definition intt (irq : Z) : code := emit8 0xcd +> emit8 irq.
Definition leave : code := emit8 0xc9.
Definition hlt : code := emit8 0xf4.
Definition nop : code := emit8 0x90.
Definition nop_m (mem : X86Memory) : code := emit8 0x0f +> emit8 0x1f +> mod_reg_rm_m 0 mem.

Fixpoint times (n : nat) (c : code) : code := match n with O => skip | S k => c +> times k c end.
(** The loops of [nop], one after the other. *)
Definition nop_bytes (bytes : Z) : code :=
  times (Z.to_nat (bytes / 7)) (lea (mem_disp REG_EAX 0x80808080) REG_EAX) +>
  let b := bytes mod 7 in
  times (Z.to_nat (b / 6)) (lea (mem_disp REG_RAX 0x80808080) REG_EAX) +>
  let b := b mod 6 in
  times (Z.to_nat (b / 3)) (lea (mem_base REG_EAX) REG_EAX) +>
  let b := b mod 3 in
  times (Z.to_nat (b / 2)) (emit8 0x66 +> emit8 0x90) +>
  times (Z.to_nat (b mod 2)) nop.
Definition align_up (amount write_offset : Z) : code :=
  if Z.land write_offset (amount - 1) =? 0 then skip
  else nop_bytes (u8 (Z.land (write_offset + amount) (Z.lnot (amount - 1)) - write_offset)).
