(* ===== verification/X86Decode.v ===== *)
(** * What the bytes of an instruction mean

    A decoder for the x86-64 instructions that the encoder produces, after the
    architecture manual: legacy prefixes, REX, opcode, ModRM, SIB,
    displacement, immediate.  It is independent of the encoder. *)

From Stdlib Require Import ZArith Lia List Bool.
From stdpp Require Import base numbers list.
From S2P Require Import Prelude.
Import ListNotations.
#[local] Open Scope Z_scope.
#[local] Open Scope gensim_scope.

(** ** Instructions *)

(** Register [n] as [size] bytes, or one of ah, ch, dh, bh. *)
Inductive gpr := R (n size : Z) | RHigh (n : Z).
Record address := mkAddress { a_gs : bool; a_size : Z; a_base : option Z; a_index : option (Z * Z); a_disp : Z; a_rip : bool }.
Inductive opnd := OReg (r : gpr) | OMem (a : address) | OImm (v : Z) | OCL.
Inductive insn :=
| IAlu (op size : Z) (dst src : opnd)
| IMov (size : Z) (dst src : opnd)
| IMovImm (r : gpr) (v : Z)               (* the register gets the value, extended by zeros *)
| IMovzx (from : Z) (dst src : opnd)
| IMovsx (from : Z) (dst src : opnd)
| ILea (dst : gpr) (a : address)
| ITest (size : Z) (a b : opnd)
| IXchg (size : Z) (a b : opnd)
| IShift (op size : Z) (dst amount : opnd)
| IGroup3 (op size : Z) (dst : opnd)
| IImul (size : Z) (dst src : opnd)
| IBsr (size : Z) (dst src : opnd)
| ICmov (cc size : Z) (dst src : opnd)
| ISetcc (cc : Z) (dst : opnd)
| IInc (size : Z) (dst : opnd)
| ICall (target : opnd) | IJmp (target : opnd)
| ICallRel (off : Z) | IJmpRel (off : Z) | IJcc (cc off : Z)
| IPush (r : Z) | IPop (r : Z) | IPushImm (v : Z)
| IBswap (size r : Z)
| IConvert (size : Z)                     (* cbw, cwde, cdqe *)
| IConvertD (size : Z)                    (* cwd, cdq, cqo *)
| IMovSeg (seg : Z) (dst : opnd)
| IInvlpg (a : address) | IWbinvd
| INop | INopMem (a : address)
| IRet | ILeave | IHlt | IInt3 | IInt (n : Z) | ILahf | IClc | IStc
| IMovGX (size x g : Z) | IMovXG (size x g : Z)
| IVec (prefix : option Z) (opcode dst src : Z)
| IVecImm (prefix : option Z) (opcode dst src imm : Z)
| ICvtToInt (prefix opcode size dst src : Z)
| ICvtFromInt (prefix size dst src : Z).

(** ** Prefixes *)

Record prefixes := mkPrefixes { p_66 : bool; p_67 : bool; p_gs : bool; p_rep : option Z }.
Fixpoint parse_prefixes (bs : list Z) (p : prefixes) : prefixes * list Z :=
  match bs with
  | [] => (p, [])
  | b :: r =>
      if b =? 0x66 then parse_prefixes r (mkPrefixes true (p_67 p) (p_gs p) (p_rep p))
      else if b =? 0x67 then parse_prefixes r (mkPrefixes (p_66 p) true (p_gs p) (p_rep p))
      else if b =? 0x65 then parse_prefixes r (mkPrefixes (p_66 p) (p_67 p) true (p_rep p))
      else if (b =? 0xf2) || (b =? 0xf3) then parse_prefixes r (mkPrefixes (p_66 p) (p_67 p) (p_gs p) (Some b))
      else (p, bs)
  end.
Definition parse_rex (bs : list Z) : option Z * list Z :=
  match bs with b :: r => if b / 16 =? 4 then (Some b, r) else (None, bs) | [] => (None, []) end.
Definition rex_bit (rex : option Z) (i : Z) : Z := match rex with Some b => Z.b2z (Z.testbit b i) | None => 0 end.
(** Opcodes of two bytes count from 0x100. *)
Definition parse_opcode (bs : list Z) : option (Z * list Z) :=
  match bs with
  | b :: r => if b =? 0x0f then match r with c :: q => Some (0x100 + c, q) | [] => None end else Some (b, r)
  | [] => None
  end.

(** ** Immediate values and ModRM *)

Fixpoint le_value (bs : list Z) : Z := match bs with [] => 0 | b :: r => b + 256 * le_value r end.
Definition parse_imm (n : nat) (bs : list Z) : option (Z * list Z) :=
  if (length bs <? n)%nat then None else Some (le_value (take n bs), drop n bs).
Definition parse_disp (n : nat) (bs : list Z) : option (Z * list Z) :=
  match parse_imm n bs with
  | Some (v, r) => Some (if (n =? 0)%nat then 0 else sext (8 * Z.of_nat n) v, r)
  | None => None
  end.

Inductive rm := RMReg (n : Z) | RMMem (a : address).
(** The register field and the other operand. *)
Definition parse_modrm (p : prefixes) (rex : option Z) (bs : list Z) : option (Z * rm * list Z) :=
  match bs with
  | [] => None
  | b :: r =>
      let md := b / 64 in
      let reg := b / 8 mod 8 + 8 * rex_bit rex 2 in
      let low := b mod 8 in
      let mk base index disp rip := RMMem (mkAddress (p_gs p) (if p_67 p then 4 else 8) base index disp rip) in
      if md =? 3 then Some (reg, RMReg (low + 8 * rex_bit rex 0), r)
      else
        let dispn := if md =? 1 then 1%nat else if md =? 2 then 4%nat else 0%nat in
        if low =? 4 then
          match r with
          | [] => None
          | s :: q =>
              let i := s / 8 mod 8 + 8 * rex_bit rex 1 in
              let index := if i =? 4 then None else Some (i, 2 ^ (s / 64)) in
              let none := (s mod 8 =? 5) && (md =? 0) in
              let base := if none then None else Some (s mod 8 + 8 * rex_bit rex 0) in
              match parse_disp (if none then 4 else dispn) q with
              | Some (d, q2) => Some (reg, mk base index d false, q2)
              | None => None
              end
          end
        else
          let rip := (low =? 5) && (md =? 0) in
          match parse_disp (if rip then 4 else dispn) r with
          | Some (d, q) => Some (reg, mk (if rip then None else Some (low + 8 * rex_bit rex 0)) None d rip, q)
          | None => None
          end
  end.

Definition gpr_of (sz : Z) (rex : option Z) (n : Z) : gpr :=
  match rex with
  | None => if (sz =? 1) && (4 <=? n) then RHigh (n - 4) else R n sz
  | Some _ => R n sz
  end.
Definition rm_opnd (sz : Z) (rex : option Z) (x : rm) : opnd := match x with RMReg n => OReg (gpr_of sz rex n) | RMMem a => OMem a end.
Definition opsize (p : prefixes) (rex : option Z) : Z := if rex_bit rex 3 =? 1 then 8 else if p_66 p then 2 else 4.

(** ** Opcodes *)

Definition osz_of (wide : bool) (p : prefixes) (rex : option Z) : Z := if wide then opsize p rex else 1.
(** An immediate value of up to four bytes, extended by its sign. *)
Definition imm_for (sz : Z) (bs : list Z) : option (Z * list Z) :=
  match parse_imm (Z.to_nat (Z.min sz 4)) bs with
  | Some (v, r) => Some (wrap (8 * sz) (sext (8 * Z.min sz 4) v), r)
  | None => None
  end.
Definition imm8_for (sz : Z) (bs : list Z) : option (Z * list Z) :=
  match parse_imm 1 bs with Some (v, r) => Some (wrap (8 * sz) (sext 8 v), r) | None => None end.
Definition rel (n : nat) (bs : list Z) : option (Z * list Z) := parse_disp n bs.

Section Decode.
Context (p : prefixes) (rex : option Z).

(** With a ModRM byte, and with one and an immediate value. *)
Definition with_rm (bs : list Z) (f : Z -> rm -> option insn) : option (insn * list Z) :=
  match parse_modrm p rex bs with
  | Some (reg, x, r) => match f reg x with Some i => Some (i, r) | None => None end
  | None => None
  end.
Definition with_rm_imm (bs : list Z) (imm : list Z -> option (Z * list Z)) (f : Z -> rm -> Z -> option insn) : option (insn * list Z) :=
  match parse_modrm p rex bs with
  | Some (reg, x, r) =>
      match imm r with
      | Some (v, q) => match f reg x v with Some i => Some (i, q) | None => None end
      | None => None
      end
  | None => None
  end.
Definition with_imm (imm : option (Z * list Z)) (f : Z -> insn) : option (insn * list Z) :=
  match imm with Some (v, r) => Some (f v, r) | None => None end.
Definition only_reg (f : Z -> Z -> insn) : Z -> rm -> option insn := fun reg x => match x with RMReg n => Some (f reg n) | RMMem _ => None end.
Definition only_mem (f : Z -> address -> option insn) : Z -> rm -> option insn := fun reg x => match x with RMMem a => f reg a | RMReg _ => None end.

Definition osz (odd : Z) : Z := osz_of (Z.odd odd) p rex.
Definition greg (sz n : Z) : opnd := OReg (gpr_of sz rex n).

Definition decode_alu (opc : Z) (bs : list Z) : option (insn * list Z) :=
  let sz := osz opc in
  let op := opc / 8 in
  let form := opc mod 8 in
  if form <? 2 then with_rm bs (fun reg x => Some (IAlu op sz (rm_opnd sz rex x) (greg sz reg)))
  else if form <? 4 then with_rm bs (fun reg x => Some (IAlu op sz (greg sz reg) (rm_opnd sz rex x)))
  else with_imm (imm_for sz bs) (fun v => IAlu op sz (OReg (R 0 sz)) (OImm v)).

Definition decode_one (opc : Z) (bs : list Z) : option (insn * list Z) :=
  let sz := osz opc in
  let low := opc mod 8 + 8 * rex_bit rex 0 in
  if (opc <? 0x40) && (opc mod 8 <? 6) then decode_alu opc bs
  else if opc / 8 =? 0x50 / 8 then Some (IPush low, bs)
  else if opc / 8 =? 0x58 / 8 then Some (IPop low, bs)
  else if opc =? 0x63 then with_rm bs (fun reg x => Some (IMovsx 4 (greg (opsize p rex) reg) (rm_opnd 4 rex x)))
  else if opc =? 0x68 then with_imm (parse_disp 4 bs) IPushImm
  else if opc / 16 =? 7 then with_imm (rel 1 bs) (IJcc (opc mod 16))
  else if (opc =? 0x80) || (opc =? 0x81) then with_rm_imm bs (imm_for sz) (fun reg x v => Some (IAlu (reg mod 8) sz (rm_opnd sz rex x) (OImm v)))
  else if opc =? 0x83 then with_rm_imm bs (imm8_for sz) (fun reg x v => Some (IAlu (reg mod 8) sz (rm_opnd sz rex x) (OImm v)))
  else if (opc =? 0x84) || (opc =? 0x85) then with_rm bs (fun reg x => Some (ITest sz (rm_opnd sz rex x) (greg sz reg)))
  else if (opc =? 0x86) || (opc =? 0x87) then with_rm bs (fun reg x => Some (IXchg sz (rm_opnd sz rex x) (greg sz reg)))
  else if (opc =? 0x88) || (opc =? 0x89) then with_rm bs (fun reg x => Some (IMov sz (rm_opnd sz rex x) (greg sz reg)))
  else if (opc =? 0x8a) || (opc =? 0x8b) then with_rm bs (fun reg x => Some (IMov sz (greg sz reg) (rm_opnd sz rex x)))
  else if opc =? 0x8c then with_rm bs (fun reg x => Some (IMovSeg (reg mod 8) (rm_opnd (opsize p rex) rex x)))
  else if opc =? 0x8d then with_rm bs (only_mem (fun reg a => Some (ILea (gpr_of (opsize p rex) rex reg) a)))
  else if opc =? 0x90 then Some (INop, bs)
  else if opc =? 0x98 then Some (IConvert (opsize p rex), bs)
  else if opc =? 0x99 then Some (IConvertD (opsize p rex), bs)
  else if opc =? 0x9f then Some (ILahf, bs)
  else if opc / 8 =? 0xb0 / 8 then with_imm (parse_imm 1 bs) (fun v => IMovImm (gpr_of 1 rex low) v)
  else if opc / 8 =? 0xb8 / 8 then
    with_imm (parse_imm (Z.to_nat (opsize p rex)) bs) (fun v => IMovImm (R low (if opsize p rex =? 2 then 2 else 8)) v)
  else if (opc =? 0xc0) || (opc =? 0xc1) then with_rm_imm bs (parse_imm 1) (fun reg x v => Some (IShift (reg mod 8) sz (rm_opnd sz rex x) (OImm v)))
  else if opc =? 0xc3 then Some (IRet, bs)
  else if (opc =? 0xc6) || (opc =? 0xc7) then
    with_rm_imm bs (imm_for sz) (fun reg x v => if reg mod 8 =? 0 then Some (IMov sz (rm_opnd sz rex x) (OImm v)) else None)
  else if opc =? 0xc9 then Some (ILeave, bs)
  else if opc =? 0xcc then Some (IInt3, bs)
  else if opc =? 0xcd then with_imm (parse_imm 1 bs) IInt
  else if (opc =? 0xd0) || (opc =? 0xd1) then with_rm bs (fun reg x => Some (IShift (reg mod 8) sz (rm_opnd sz rex x) (OImm 1)))
  else if (opc =? 0xd2) || (opc =? 0xd3) then with_rm bs (fun reg x => Some (IShift (reg mod 8) sz (rm_opnd sz rex x) OCL))
  else if opc =? 0xe8 then with_imm (rel 4 bs) ICallRel
  else if opc =? 0xe9 then with_imm (rel 4 bs) IJmpRel
  else if opc =? 0xeb then with_imm (rel 1 bs) IJmpRel
  else if opc =? 0xf4 then Some (IHlt, bs)
  else if (opc =? 0xf6) || (opc =? 0xf7) then
    match parse_modrm p rex bs with
    | Some (reg, x, r) =>
        if reg mod 8 <? 2 then with_imm (imm_for sz r) (fun v => ITest sz (rm_opnd sz rex x) (OImm v))
        else Some (IGroup3 (reg mod 8) sz (rm_opnd sz rex x), r)
    | None => None
    end
  else if opc =? 0xf8 then Some (IClc, bs)
  else if opc =? 0xf9 then Some (IStc, bs)
  else if opc =? 0xff then
    with_rm bs (fun reg x =>
      if reg mod 8 =? 0 then Some (IInc sz (rm_opnd sz rex x))
      else if reg mod 8 =? 2 then Some (ICall (rm_opnd 8 rex x))
      else if reg mod 8 =? 4 then Some (IJmp (rm_opnd 8 rex x))
      else None)
  else None.

Definition vec_prefix : option Z := match p_rep p with Some b => Some b | None => if p_66 p then Some 0x66 else None end.
Definition vec_opcodes : list Z := [0x51; 0x58; 0x59; 0x5a; 0x5c; 0x5e; 0xd4; 0xef; 0xf4; 0xfa; 0xfb; 0xfd; 0xfe].
Definition decode_two (opc : Z) (bs : list Z) : option (insn * list Z) :=
  let sz := opsize p rex in
  if opc =? 0x01 then with_rm bs (only_mem (fun reg a => if reg mod 8 =? 7 then Some (IInvlpg a) else None))
  else if opc =? 0x09 then Some (IWbinvd, bs)
  else if opc =? 0x1f then with_rm bs (only_mem (fun reg a => Some (INopMem a)))
  else if opc =? 0x2a then
    match p_rep p with Some f => with_rm bs (only_reg (fun reg n => ICvtFromInt f sz reg n)) | None => None end
  else if (opc =? 0x2c) || (opc =? 0x2d) then
    match p_rep p with Some f => with_rm bs (only_reg (fun reg n => ICvtToInt f opc sz reg n)) | None => None end
  else if opc / 16 =? 4 then with_rm bs (fun reg x => Some (ICmov (opc mod 16) sz (greg sz reg) (rm_opnd sz rex x)))
  else if opc =? 0x6e then (if p_66 p then with_rm bs (only_reg (fun reg n => IMovGX (if sz =? 8 then 8 else 4) reg n)) else None)
  else if opc =? 0x7e then (if p_66 p then with_rm bs (only_reg (fun reg n => IMovXG (if sz =? 8 then 8 else 4) reg n)) else None)
  else if opc / 16 =? 8 then with_imm (rel 4 bs) (IJcc (opc mod 16))
  else if opc / 16 =? 9 then with_rm bs (fun reg x => Some (ISetcc (opc mod 16) (rm_opnd 1 rex x)))
  else if opc =? 0xaf then with_rm bs (fun reg x => Some (IImul sz (greg sz reg) (rm_opnd sz rex x)))
  else if opc =? 0xb6 then with_rm bs (fun reg x => Some (IMovzx 1 (greg sz reg) (rm_opnd 1 rex x)))
  else if opc =? 0xb7 then with_rm bs (fun reg x => Some (IMovzx 2 (greg sz reg) (rm_opnd 2 rex x)))
  else if opc =? 0xbd then with_rm bs (fun reg x => Some (IBsr sz (greg sz reg) (rm_opnd sz rex x)))
  else if opc =? 0xbe then with_rm bs (fun reg x => Some (IMovsx 1 (greg sz reg) (rm_opnd 1 rex x)))
  else if opc =? 0xbf then with_rm bs (fun reg x => Some (IMovsx 2 (greg sz reg) (rm_opnd 2 rex x)))
  else if opc =? 0xc2 then with_rm_imm bs (parse_imm 1) (fun reg x v => match x with RMReg n => Some (IVecImm vec_prefix opc reg n v) | RMMem _ => None end)
  else if opc / 8 =? 0xc8 / 8 then Some (IBswap sz (opc mod 8 + 8 * rex_bit rex 0), bs)
  else if existsb (Z.eqb opc) vec_opcodes then with_rm bs (only_reg (fun reg n => IVec vec_prefix opc reg n))
  else None.
End Decode.

Definition decode (bs : list Z) : option (insn * list Z) :=
  let '(p, r1) := parse_prefixes bs (mkPrefixes false false false None) in
  let '(rex, r2) := parse_rex r1 in
  match parse_opcode r2 with
  | Some (opc, r3) => if opc <? 0x100 then decode_one p rex opc r3 else decode_two p rex (opc - 0x100) r3
  | None => None
  end.

Example decode_mov : decode [0x48; 0x89; 0x44; 0x24; 0xf8; 0x90]
  = Some (IMov 8 (OMem (mkAddress false 8 (Some 4) None (-8) false)) (OReg (R 0 8)), [0x90]).
Proof. vm_compute. reflexivity. Qed.
