(* ===== verification/X86Shapes.v ===== *)
(** * Encoded instructions read back

    For each part that the methods of X86Encoder emit - prefixes and REX,
    opcode, ModRM with SIB and displacement, immediate value - what the
    decoder of [X86Decode] makes of its bytes, whatever follows them.

    An emission with a ModRM byte has a header (prefixes, REX, opcode) and an
    operand pair; [header] says how it is read, and the lemmas [header_rr],
    [header_rm], [header_or] and [header_om] say it of the four forms of
    encode_opcode_mod_rm.  [encodes c i]: the method emits bytes that the
    decoder reads as the instruction [i], whatever follows.  [asks c i]: the
    call [c] of a method asks for the instruction [i], with the arguments for
    which the method can encode it; each rule is a method, or a group of
    methods listed with what tells them apart. *)

From Stdlib Require Import ZArith Lia List Bool.
From stdpp Require Import base decidable numbers list.
From S2P Require Import Prelude X86Encoder X86Decode.
Import ListNotations.
#[local] Open Scope Z_scope.
#[local] Open Scope gensim_scope.

(** ** The bytes a method emits *)

Definition emits (c : code) (bs : list Z) : Prop := exists es, c = Ok es /\ flatten es = bs.

Lemma flatten_app a b : flatten (a ++ b) = flatten a ++ flatten b.
Proof. unfold flatten. rewrite map_app, concat_app. reflexivity. Qed.
Lemma emits_append a b x y : emits a x -> emits b y -> emits (append a b) (x ++ y).
Proof. intros (e & -> & <-) (f & -> & <-). exists (e ++ f). split; [reflexivity | apply flatten_app]. Qed.
Lemma emits_append_nil a b x : emits a x -> emits b [] -> emits (append a b) x.
Proof. intros Ha Hb. rewrite <- (app_nil_r x). now apply emits_append. Qed.
Lemma emits_when (b : bool) c bs : (b = true -> emits c bs) -> emits (when b c) (if b then bs else []).
Proof. intros H. destruct b; [auto | exists []; split; reflexivity]. Qed.
Lemma emits_byte b : 0 <= b < 256 -> emits (emit8 b) [b].
Proof. intros H. exists [E8 b]. split; [reflexivity |]. cbn. now rewrite Z.mod_small. Qed.
Lemma emits_8 v : emits (emit8 v) (le_bytes 1 v).
Proof. exists [E8 v]. split; [reflexivity |]. reflexivity. Qed.
Lemma emits_16 v : emits (emit16 v) (le_bytes 2 v).
Proof. exists [E16 v]. split; [reflexivity |]. reflexivity. Qed.
Lemma emits_32 v : emits (emit32 v) (le_bytes 4 v).
Proof. exists [E32 v]. split; [reflexivity |]. reflexivity. Qed.
Lemma emits_64 v : emits (emit64 v) (le_bytes 8 v).
Proof. exists [E64 v]. split; [reflexivity |]. reflexivity. Qed.

Lemma emits_ensure extra : emits (ensure extra) [].
Proof. exists [Ensure extra]. split; reflexivity. Qed.

Create HintDb x86 discriminated.
#[export] Hint Resolve emits_append emits_8 emits_16 emits_32 emits_64 : x86.

(** ** Immediate values *)

Lemma le_value_bytes n v : le_value (le_bytes n v) = v mod 2 ^ (8 * Z.of_nat n).
Proof.
  revert v. induction n as [|n IH]; intros v; [cbn; now rewrite Z.mod_1_r |].
  cbn [le_bytes le_value]. rewrite IH.
  replace (2 ^ (8 * Z.of_nat (S n))) with (256 * 2 ^ (8 * Z.of_nat n))
    by (rewrite Nat2Z.inj_succ, <- Zmult_succ_r_reverse, Z.add_comm, Z.pow_add_r by lia; reflexivity).
  assert (0 < 2 ^ (8 * Z.of_nat n)) by (apply Z.pow_pos_nonneg; lia).
  rewrite Z.rem_mul_r by lia. lia.
Qed.
Lemma le_bytes_length n v : length (le_bytes n v) = n.
Proof. revert v. induction n; intros; cbn; [reflexivity | now rewrite IHn]. Qed.
Lemma parse_imm_bytes n v rest : parse_imm n (le_bytes n v ++ rest) = Some (v mod 2 ^ (8 * Z.of_nat n), rest).
Proof.
  unfold parse_imm. rewrite length_app, le_bytes_length.
  destruct (Nat.ltb_spec (n + length rest) n); [lia |].
  rewrite take_app_length', drop_app_length' by (now rewrite le_bytes_length). now rewrite le_value_bytes.
Qed.
Lemma sext_mod w v : 0 <= w -> sext w (v mod 2 ^ w) = sext w v.
Proof. intros H. unfold sext. change (v mod 2 ^ w) with (wrap w v). now rewrite wrap_wrap. Qed.
Lemma sext_id w v : 0 < w -> - 2 ^ (w - 1) <= v < 2 ^ (w - 1) -> sext w v = v.
Proof.
  intros Hw H. unfold sext, wrap. assert (E : 2 ^ w = 2 * 2 ^ (w - 1)) by (rewrite <- Z.pow_succ_r by lia; f_equal; lia).
  destruct (Z.leb_spec 0 v).
  - rewrite Z.mod_small by lia. destruct (Z.ltb_spec v (2 ^ (w - 1))); lia.
  - replace (v mod 2 ^ w) with (v + 2 ^ w).
    + destruct (Z.ltb_spec (v + 2 ^ w) (2 ^ (w - 1))); lia.
    + apply Z.mod_unique with (-1); lia.
Qed.
Lemma wrap_of_sext w v : 0 <= w -> wrap w (sext w v) = wrap w v.
Proof.
  intros H. unfold sext. cbv zeta. destruct (_ <? _); [now apply wrap_wrap |].
  unfold wrap. rewrite <- (Z_mod_plus_full _ 1), Z.mul_1_l, Z.sub_add. apply Z.mod_mod. apply Z.pow_nonzero; lia.
Qed.
(** A narrower wrap does not see how far a value was extended. *)
Lemma wrap_sext_le w n v : 0 <= w <= n -> wrap w (sext n v) = wrap w v.
Proof.
  intros H. rewrite <- (wrap_small w (wrap w v)) by (apply wrap_range; lia).
  assert (D : forall x, wrap w (wrap n x) = wrap w x).
  { intros x. unfold wrap. apply Z.mod_mod_divide.
    exists (2 ^ (n - w)). rewrite <- Z.pow_add_r by lia. f_equal. lia. }
  rewrite <- D, wrap_of_sext, D by lia. now rewrite wrap_wrap by lia.
Qed.
Lemma parse_disp_bytes n v rest :
  (0 < n)%nat -> parse_disp n (le_bytes n v ++ rest) = Some (sext (8 * Z.of_nat n) v, rest).
Proof. intros H. unfold parse_disp. rewrite parse_imm_bytes, sext_mod by lia. destruct n; [lia | reflexivity]. Qed.

(** ** Prefixes, REX and opcode *)

Definition add_prefix (p : prefixes) (b : Z) : prefixes :=
  if b =? 0x66 then mkPrefixes true (p_67 p) (p_gs p) (p_rep p)
  else if b =? 0x67 then mkPrefixes (p_66 p) true (p_gs p) (p_rep p)
  else if b =? 0x65 then mkPrefixes (p_66 p) (p_67 p) true (p_rep p)
  else mkPrefixes (p_66 p) (p_67 p) (p_gs p) (Some b).
Definition is_prefix (b : Z) : bool := (b =? 0x66) || (b =? 0x67) || (b =? 0x65) || (b =? 0xf2) || (b =? 0xf3).
Definition no_prefixes := mkPrefixes false false false None.
Definition prefixes_of (bs : list Z) : prefixes := fold_left add_prefix bs no_prefixes.
Definition rex_ok (rex : Z) : bool := (rex =? 0) || (rex / 16 =? 4).
Definition rex_bytes (rex : Z) : list Z := if rex =? 0 then [] else [rex].
Definition rex_opt (rex : Z) : option Z := if rex =? 0 then None else Some rex.
(** An opcode whose first byte cannot be taken for a prefix. *)
Definition opcode_ok (opc : Z) : bool :=
  if 0x100 <? opc then opc <? 0x200 else (0 <=? opc) && (opc <? 0x100) && negb (is_prefix opc) && negb (opc / 16 =? 4) && negb (opc =? 0x0f).
Definition opcode_bytes (opc : Z) : list Z := if 0x100 <? opc then [0x0f; opc - 0x100] else [opc].
Definition dispatch (p : prefixes) (rex : option Z) (opc : Z) (bs : list Z) : option (insn * list Z) :=
  if opc <? 0x100 then decode_one p rex opc bs else decode_two p rex (opc - 0x100) bs.

Lemma parse_prefixes_app pre b r p :
  forallb is_prefix pre = true -> is_prefix b = false ->
  parse_prefixes (pre ++ b :: r) p = (fold_left add_prefix pre p, b :: r).
Proof.
  revert p. induction pre as [|a pre IH]; intros p H Hb; cbn [app parse_prefixes fold_left forallb] in *.
  - unfold is_prefix in Hb. apply orb_false_elim in Hb as [Hb H5]. apply orb_false_elim in Hb as [Hb H4].
    apply orb_false_elim in Hb as [Hb H3]. apply orb_false_elim in Hb as [H1 H2]. now rewrite H1, H2, H3, H4, H5.
  - apply andb_prop in H as [Ha H]. unfold add_prefix at 2. unfold is_prefix in Ha.
    destruct (a =? 0x66), (a =? 0x67), (a =? 0x65); cbn [orb] in Ha |- *; try now apply IH.
    rewrite Ha. now apply IH.
Qed.
Lemma rex_not_prefix rex : (rex / 16 =? 4) = true -> is_prefix rex = false.
Proof.
  intros H. apply Z.eqb_eq in H. pose proof (Z.div_mod rex 16 ltac:(lia)). pose proof (Z.mod_pos_bound rex 16 ltac:(lia)).
  unfold is_prefix. destruct (Z.eqb_spec rex 0x66), (Z.eqb_spec rex 0x67), (Z.eqb_spec rex 0x65), (Z.eqb_spec rex 0xf2), (Z.eqb_spec rex 0xf3); (lia || reflexivity).
Qed.
Lemma opcode_bytes_spec opc :
  opcode_ok opc = true ->
  exists b r, opcode_bytes opc = b :: r /\ is_prefix b = false /\ (b / 16 =? 4) = false
    /\ forall tail, parse_opcode (b :: r ++ tail) = Some (opc, tail).
Proof.
  unfold opcode_ok, opcode_bytes. destruct (Z.ltb_spec 0x100 opc) as [H | H].
  - intros _. exists 0x0f, [opc - 0x100]. repeat split. intros tail. cbn. do 2 f_equal. lia.
  - intros E. apply andb_prop in E as [E E0]. apply andb_prop in E as [E E1]. apply andb_prop in E as [E E2].
    exists opc, []. repeat split; [now apply negb_true_iff in E2 | now apply negb_true_iff in E1 |].
    intros tail. cbn. apply negb_true_iff in E0. now rewrite E0.
Qed.

(** The instruction after its prefixes, REX and opcode have been read. *)
Lemma decode_header pre rex opc tail :
  forallb is_prefix pre = true -> rex_ok rex = true -> opcode_ok opc = true ->
  decode (pre ++ rex_bytes rex ++ opcode_bytes opc ++ tail) = dispatch (prefixes_of pre) (rex_opt rex) opc tail.
Proof.
  intros Hp Hr Ho. destruct (opcode_bytes_spec opc Ho) as (b & r & Eb & Nb & Hb & Hparse).
  unfold decode. fold no_prefixes. unfold rex_bytes, rex_opt, rex_ok in *. rewrite Eb.
  destruct (rex =? 0); cbn [app orb] in *.
  - rewrite parse_prefixes_app by assumption. cbn [parse_rex]. rewrite Hb, Hparse. reflexivity.
  - rewrite parse_prefixes_app by (try assumption; now apply rex_not_prefix). cbn [parse_rex]. rewrite Hr, Hparse. reflexivity.
Qed.

Lemma emits_rex rex : rex_ok rex = true -> 0 <= rex -> emits (emit_rex rex) (rex_bytes rex).
Proof.
  intros H H0. unfold emit_rex, rex_bytes, rex_ok in *. destruct (Z.eqb_spec rex 0); cbn [negb when orb] in *.
  - exists []. split; reflexivity.
  - apply emits_byte. apply Z.eqb_eq in H. pose proof (Z.div_mod rex 16 ltac:(lia)). pose proof (Z.mod_pos_bound rex 16 ltac:(lia)). lia.
Qed.
Lemma emits_opcode opc : opcode_ok opc = true -> emits (emit_opcode opc) (opcode_bytes opc).
Proof.
  intros H. unfold emit_opcode, opcode_bytes, opcode_ok in *. change 0xff with (Z.ones 8). rewrite Z.land_ones by lia. change (2 ^ 8) with 256.
  destruct (Z.ltb_spec 0x100 opc); cbn [when].
  - apply Z.ltb_lt in H. replace (opc mod 256) with (opc - 0x100) by (apply Z.mod_unique with 1; lia).
    apply (emits_append _ _ [0x0f] [opc - 256]); apply emits_byte; lia.
  - rewrite !andb_true_iff, Z.leb_le, Z.ltb_lt in H.
    rewrite Z.mod_small by lia. apply (emits_append _ _ [] [opc]); [exists []; split; reflexivity | apply emits_byte; lia].
Qed.
Lemma rex_byte_ok nw w r x b : rex_ok (rex_byte nw w r x b) = true /\ 0 <= rex_byte nw w r x b.
Proof. destruct nw, w, r, x, b; vm_compute; split; congruence. Qed.
Lemma emits_rex_byte nw w r x b : emits (emit_rex (rex_byte nw w r x b)) (rex_bytes (rex_byte nw w r x b)).
Proof. apply emits_rex; apply rex_byte_ok. Qed.
#[export] Hint Resolve emits_rex_byte emits_opcode : x86.
(** The bits of a REX byte are the operands' high registers and the width. *)
Lemma rex_byte_bits nw w r x b :
  let o := rex_opt (rex_byte nw w r x b) in
  rex_bit o 0 = Z.b2z b /\ rex_bit o 1 = Z.b2z x /\ rex_bit o 2 = Z.b2z r /\ rex_bit o 3 = Z.b2z w.
Proof. destruct nw, w, r, x, b; vm_compute; repeat split. Qed.

(** ** ModRM *)

Lemma triple_fields hi mid lo :
  0 <= hi < 4 -> 0 <= mid < 8 -> 0 <= lo < 8 ->
  triple hi mid lo / 64 = hi /\ triple hi mid lo / 8 mod 8 = mid /\ triple hi mid lo mod 8 = lo /\ 0 <= triple hi mid lo < 256.
Proof.
  intros Hh Hm Hl.
  assert (Q : forallb (fun h => forallb (fun m => forallb (fun l =>
      let t := triple h m l in (t / 64 =? h) && (t / 8 mod 8 =? m) && (t mod 8 =? l) && (0 <=? t) && (t <? 256))
      (seqZ 0 8)) (seqZ 0 8)) (seqZ 0 4) = true) by (vm_compute; reflexivity).
  rewrite forallb_forall in Q. specialize (Q hi ltac:(apply list_elem_of_In, elem_of_seqZ; lia)).
  rewrite forallb_forall in Q. specialize (Q mid ltac:(apply list_elem_of_In, elem_of_seqZ; lia)).
  rewrite forallb_forall in Q. specialize (Q lo ltac:(apply list_elem_of_In, elem_of_seqZ; lia)).
  cbv zeta in Q. rewrite !andb_true_iff, !Z.eqb_eq, Z.leb_le, Z.ltb_lt in Q. lia.
Qed.
Lemma emits_triple hi mid lo : 0 <= hi < 4 -> 0 <= mid < 8 -> 0 <= lo < 8 -> emits (emit8 (triple hi mid lo)) [triple hi mid lo].
Proof. intros. apply emits_byte. now apply triple_fields. Qed.

Lemma parse_modrm_reg p rex reg n tail :
  0 <= reg < 8 -> 0 <= n < 8 ->
  parse_modrm p rex (triple 3 reg n :: tail) = Some (reg + 8 * rex_bit rex 2, RMReg (n + 8 * rex_bit rex 0), tail).
Proof.
  intros Hr Hn. destruct (triple_fields 3 reg n) as (E1 & E2 & E3 & _); [lia .. |].
  cbn [parse_modrm]. rewrite E1, E2, E3. reflexivity.
Qed.

(** ** Memory operands *)

Definition num (r : X86Register) : Z := raw_index r + 8 * Z.b2z (hireg r).
Definition reg_ok (r : X86Register) : bool := existsb (reg_eqb r) all_regs.
Definition is_riz (r : X86Register) : bool := reg_eqb r REG_RIZ.
(** The operands that can be encoded.  With ebp or r13d as the base a
    displacement of zero means another address. *)
Definition index_ok (m : X86Memory) : bool :=
  if scale m =? 0 then is_riz (index m)
  else existsb (Z.eqb (scale m)) [1; 2; 4; 8]
    && (is_riz (index m) || (reg_ok (index m) && (size (index m) =? size (base m)) && negb (num (index m) =? 4))).
Definition mem_ok (m : X86Memory) : bool :=
  reg_ok (base m) && ((size (base m) =? 4) || (size (base m) =? 8))
  && negb ((size (base m) =? 4) && (raw_index (base m) =? 5) && (displacement m =? 0))
  && (- 2 ^ 31 <=? displacement m) && (displacement m <? 2 ^ 31)
  && ((segment m =? 0) || (segment m =? 1)) && index_ok m.
Definition index_meaning (m : X86Memory) : option (Z * Z) := if is_riz (index m) then None else Some (num (index m), scale m).
Definition meaning_mem (m : X86Memory) : address :=
  mkAddress (segment m =? 1) (size (base m)) (Some (num (base m))) (index_meaning m) (displacement m) false.

Lemma reg_eqb_eq a b : reg_eqb a b = true -> a = b.
Proof.
  destruct a, b. unfold reg_eqb. cbn. rewrite !andb_true_iff, !Z.eqb_eq, !eqb_true_iff. intros (((-> & ->) & ->) & ->). reflexivity.
Qed.
(** What holds of every register can be checked on the list of them. *)
Lemma reg_ok_check (P : X86Register -> bool) r : reg_ok r = true -> forallb P all_regs = true -> P r = true.
Proof.
  intros H HP. unfold reg_ok in H. apply existsb_exists in H as (x & Hin & E). apply reg_eqb_eq in E as ->.
  rewrite forallb_forall in HP. now apply HP.
Qed.
Lemma reg_range r : reg_ok r = true -> 0 <= raw_index r < 8.
Proof.
  intros H. apply (reg_ok_check (fun r => (0 <=? raw_index r) && (raw_index r <? 8))) in H; [| vm_compute; reflexivity].
  rewrite andb_true_iff, Z.leb_le, Z.ltb_lt in H. exact H.
Qed.
#[export] Hint Resolve reg_range : x86.

Section Mem.
Context (m : X86Memory) (Hm : mem_ok m = true).

Lemma mem_parts :
  reg_ok (base m) = true /\ (size (base m) = 4 \/ size (base m) = 8)
  /\ (size (base m) = 4 -> raw_index (base m) = 5 -> displacement m <> 0)
  /\ - 2 ^ 31 <= displacement m < 2 ^ 31 /\ (segment m = 0 \/ segment m = 1) /\ index_ok m = true.
Proof.
  unfold mem_ok in Hm. rewrite !andb_true_iff, !orb_true_iff, negb_true_iff, !Z.eqb_eq, Z.leb_le, Z.ltb_lt in Hm.
  destruct Hm as ((((((H1 & H2) & H3) & H4) & H5) & H6) & H7). repeat split; try assumption.
  intros Hs Hr Hd. rewrite Hs, Hr, Hd in H3. discriminate.
Qed.
Lemma base_range : 0 <= raw_index (base m) < 8.
Proof. apply reg_range, mem_parts. Qed.
(** Which bases the encoder tells apart. *)
Lemma base_tests :
  reg_eqb (base m) REG_RIZ = false /\ ((reg_eqb (base m) REG_RSP || reg_eqb (base m) REG_R12) = true -> raw_index (base m) = 4)
  /\ (reg_eqb (base m) REG_RBP || reg_eqb (base m) REG_R13) = (size (base m) =? 8) && (raw_index (base m) =? 5).
Proof.
  destruct mem_parts as (Hb & Hs & _).
  apply (reg_ok_check (fun r => negb (reg_eqb r REG_RIZ)
    && (negb (reg_eqb r REG_RSP || reg_eqb r REG_R12) || (raw_index r =? 4))
    && eqb (reg_eqb r REG_RBP || reg_eqb r REG_R13) ((size r =? 8) && (raw_index r =? 5)))) in Hb; [| vm_compute; reflexivity].
  rewrite !andb_true_iff, !negb_true_iff, eqb_true_iff in Hb. destruct Hb as ((H1 & H2) & H3). repeat split; try assumption.
  intros E. rewrite E in H2. now apply Z.eqb_eq in H2.
Qed.

Definition needs_sib : bool := (raw_index (base m) =? 4) || negb (scale m =? 0).
Lemma rm_of_ok : rm_of m = Ok (if needs_sib then 4 else raw_index (base m)).
Proof.
  destruct base_tests as (Hz & H4 & _). unfold rm_of, needs_sib. unfold REG_RIP. rewrite Hz.
  destruct (reg_eqb (base m) REG_RSP); [now rewrite H4 |]. destruct (reg_eqb (base m) REG_R12); [now rewrite H4 |].
  destruct (Z.eqb_spec (raw_index (base m)) 4) as [E | E], (scale m =? 0); cbn [orb negb]; try rewrite E; reflexivity.
Qed.

Definition mod_final : Z :=
  if (mod_of m =? 0) && (reg_eqb (base m) REG_RBP || reg_eqb (base m) REG_R13) then 1 else mod_of m.
Definition disp_bytes : list Z := if mod_final =? 1 then le_bytes 1 (displacement m) else if mod_final =? 2 then le_bytes 4 (displacement m) else [].
Definition disp_len : nat := if mod_final =? 1 then 1%nat else if mod_final =? 2 then 4%nat else 0%nat.
Lemma mod_cases :
  (mod_final = 0 /\ displacement m = 0 /\ raw_index (base m) <> 5)
  \/ (mod_final = 1 /\ -128 <= displacement m < 128) \/ mod_final = 2.
Proof.
  destruct mem_parts as (_ & Hs & Hd & _), base_tests as (Hz & _ & H5). unfold mod_final. rewrite H5.
  unfold mod_of. rewrite Hz. cbn [andb]. rewrite orb_false_r.
  destruct (Z.eqb_spec (displacement m) 0) as [E | E]; cbn [Z.eqb andb].
  - destruct (Z.eqb_spec (size (base m)) 8), (Z.eqb_spec (raw_index (base m)) 5); cbn [andb]; lia.
  - destruct (Z.ltb_spec (displacement m) 128), (Z.ltb_spec (-127) (displacement m)); cbn [andb Z.eqb]; lia.
Qed.
Lemma disp_parsed tail : parse_disp disp_len (disp_bytes ++ tail) = Some (displacement m, tail).
Proof.
  destruct mem_parts as (_ & _ & _ & Hd & _). unfold disp_len, disp_bytes.
  destruct mod_cases as [(-> & -> & _) | [(-> & H) | ->]]; cbn [Z.eqb Pos.eqb].
  - reflexivity.
  - rewrite parse_disp_bytes by lia. now rewrite sext_id by (cbn; lia).
  - rewrite parse_disp_bytes by lia. now rewrite sext_id by (cbn; lia).
Qed.

Definition sib_index : Z := if is_riz (index m) then 4 else raw_index (index m).
Lemma sib_ok : exists s, 0 <= s < 4 /\ sib m = emit8 (triple s sib_index (raw_index (base m))) /\ 0 <= sib_index < 8
  /\ (if sib_index + 8 * Z.b2z (hireg (index m)) =? 4 then None else Some (sib_index + 8 * Z.b2z (hireg (index m)), 2 ^ s)) = index_meaning m.
Proof.
  destruct mem_parts as (_ & _ & _ & _ & _ & Hi), base_tests as (Hz & _). unfold sib, sib_index, index_meaning, index_ok, is_riz in *. rewrite Hz.
  destruct (Z.eqb_spec (scale m) 0) as [E0 | E0].
  - rewrite Hi. apply reg_eqb_eq in Hi. rewrite Hi. exists 0. repeat split; lia.
  - apply andb_prop in Hi as [Hs Hi]. apply existsb_exists in Hs as (s & Hin & Es). apply Z.eqb_eq in Es. rewrite Es.
    assert (exists k, 0 <= k < 4 /\ scale_bits s = Ok k /\ 2 ^ k = s) as (k & Hk & -> & <-).
    { cbn in Hin. destruct Hin as [<- | [<- | [<- | [<- | []]]]]; [exists 0 | exists 1 | exists 2 | exists 3]; repeat split; lia. }
    exists k. split; [exact Hk |]. cbn [rbind]. split; [reflexivity |].
    destruct (reg_eqb (index m) REG_RIZ) eqn:Er.
    + apply reg_eqb_eq in Er. rewrite Er. split; [lia | reflexivity].
    + cbn [orb] in Hi. rewrite !andb_true_iff, negb_true_iff in Hi. destruct Hi as ((Hr & _) & Hn). split; [now apply reg_range |].
      fold (num (index m)). now rewrite Hn.
Qed.

(** The bytes of a memory operand name its address. *)
Lemma modrm_mem mreg : 0 <= mreg < 8 ->
  exists bs, emits (mod_reg_rm_m mreg m) bs /\ forall p rex tail,
    rex_bit rex 0 = Z.b2z (hireg (base m)) -> (is_riz (index m) = false -> rex_bit rex 1 = Z.b2z (hireg (index m))) ->
    (is_riz (index m) = true -> rex_bit rex 1 = 0) ->
    parse_modrm p rex (bs ++ tail) = Some (mreg + 8 * rex_bit rex 2,
      RMMem (mkAddress (p_gs p) (if p_67 p then 4 else 8) (Some (num (base m))) (index_meaning m) (displacement m) false), tail).
Proof.
  intros Hr. pose proof base_range as Hb. destruct sib_ok as (s & Hs & Esib & Hi & Hindex), base_tests as (Hz & _).
  pose proof mod_cases as Hmod. assert (Hmr : 0 <= mod_final < 3) by lia.
  exists ([triple mod_final mreg (if needs_sib then 4 else raw_index (base m))]
    ++ (if needs_sib then [triple s sib_index (raw_index (base m))] else []) ++ disp_bytes).
  assert (Hrm : 0 <= (if needs_sib then 4 else raw_index (base m)) < 8) by (destruct needs_sib; lia).
  split.
  - unfold mod_reg_rm_m. rewrite rm_of_ok. cbn [rbind]. fold mod_final. rewrite Hz. cbn [andb]. rewrite orb_false_r.
    apply emits_append; [apply emits_triple; lia |]. apply emits_append.
    + replace ((if needs_sib then 4 else raw_index (base m)) =? 4) with needs_sib.
      * apply emits_when. intros _. rewrite Esib. apply emits_triple; lia.
      * destruct needs_sib eqn:En; [reflexivity |]. unfold needs_sib in En. apply orb_false_elim in En as [En _]. now rewrite En.
    + unfold disp_bytes. destruct (mod_final =? 1); [apply emits_8 |]. apply emits_when. intros _. apply emits_32.
  - intros p rex tail Hb0 Hx Hx0. destruct (triple_fields mod_final mreg (if needs_sib then 4 else raw_index (base m))) as (E1 & E2 & E3 & _); [lia .. |].
    cbn [app parse_modrm]. rewrite E1, E2, E3, Hb0. rewrite (proj2 (Z.eqb_neq mod_final 3)) by lia. fold disp_len.
    destruct needs_sib eqn:En.
    + destruct (triple_fields s sib_index (raw_index (base m))) as (F1 & F2 & F3 & _); [lia .. |].
      cbn [app Z.eqb Pos.eqb]. rewrite F1, F2, F3.
      replace ((raw_index (base m) =? 5) && (mod_final =? 0)) with false
        by (destruct (Z.eqb_spec (raw_index (base m)) 5), (Z.eqb_spec mod_final 0); cbn; lia).
      rewrite disp_parsed. rewrite <- Hindex.
      replace (rex_bit rex 1) with (Z.b2z (hireg (index m))); [reflexivity |].
      destruct (is_riz (index m)) eqn:Er; [rewrite Hx0 by reflexivity; apply reg_eqb_eq in Er; rewrite Er; reflexivity | symmetry; now apply Hx].
    + unfold needs_sib in En. apply orb_false_elim in En as [En Es]. rewrite En. apply negb_false_iff in Es.
      cbn [app]. replace ((raw_index (base m) =? 5) && (mod_final =? 0)) with false
        by (destruct (Z.eqb_spec (raw_index (base m)) 5), (Z.eqb_spec mod_final 0); cbn; lia).
      rewrite disp_parsed. destruct mem_parts as (_ & _ & _ & _ & _ & Hio). unfold index_ok in Hio. rewrite Es in Hio.
      unfold index_meaning. rewrite Hio. reflexivity.
Qed.
End Mem.

#[export] Instance gpr_eq_dec : EqDecision gpr.
Proof. solve_decision. Defined.

Definition encodes (c : code) (i : insn) : Prop :=
  exists bs, emits c bs /\ forall rest : list Z, decode (bs ++ rest) = Some (i, rest).

(** ** Registers as operands *)

(** ah, ch, dh and bh, which no instruction with a REX prefix can name. *)
Definition highbyte (r : X86Register) : bool := (size r =? 1) && (4 <=? raw_index r) && negb (hireg r) && negb (newreg r).
Definition needs_rex (r : X86Register) : bool := newreg r || hireg r || (size r =? 8).
Definition meaning_reg (r : X86Register) : gpr := if highbyte r then RHigh (raw_index r - 4) else R (num r) (size r).
Definition regs_ok (a b : X86Register) : bool :=
  reg_ok a && reg_ok b && negb (highbyte a && needs_rex b) && negb (highbyte b && needs_rex a).
Definition reg_mem_ok (r : X86Register) (m : X86Memory) : bool :=
  reg_ok r && mem_ok m && negb (highbyte r && (hireg (base m) || hireg (index m))).
(** The operand of encode_opcode_mod_rm with an operation number: neither the
    segment nor the high half of the index are looked at. *)
Definition plain_mem (m : X86Memory) : bool := mem_ok m && (segment m =? 0) && negb (hireg (index m)).

Definition size_prefix (sz : Z) : list Z := if sz =? 2 then [0x66] else [].
Definition mem_prefix (gs : bool) (sz bsz : Z) : list Z := (if gs then [0x65] else []) ++ size_prefix sz ++ (if bsz =? 4 then [0x67] else []).
Lemma emits_size_prefix sz : emits (when (sz =? 2) (emit8 OPER_SIZE_OVERRIDE)) (size_prefix sz).
Proof. unfold size_prefix. apply emits_when. intros _. apply emits_byte. unfold OPER_SIZE_OVERRIDE. lia. Qed.
Lemma emits_addr_prefix sz : emits (when (sz =? 4) (emit8 ADDR_SIZE_OVERRIDE)) (if sz =? 4 then [0x67] else []).
Proof. apply emits_when. intros _. apply emits_byte. unfold ADDR_SIZE_OVERRIDE. lia. Qed.
Lemma emits_gs_prefix s : emits (when (s =? 1) (emit8 GS_SEGMENT_PREFIX)) (if s =? 1 then [0x65] else []).
Proof. apply emits_when. intros _. apply emits_byte. unfold GS_SEGMENT_PREFIX. lia. Qed.
#[export] Hint Resolve emits_size_prefix emits_addr_prefix emits_gs_prefix : x86.
Lemma mem_prefix_ok gs sz bsz : forallb is_prefix (mem_prefix gs sz bsz) = true.
Proof. unfold mem_prefix, size_prefix. destruct gs, (sz =? 2), (bsz =? 4); reflexivity. Qed.
Lemma mem_prefix_flags gs sz bsz : prefixes_of (mem_prefix gs sz bsz) = mkPrefixes (sz =? 2) (bsz =? 4) gs None.
Proof. unfold mem_prefix, size_prefix. destruct gs, (sz =? 2), (bsz =? 4); reflexivity. Qed.

(** ** Headers *)

Definition reads_as (p : prefixes) (rex : option Z) (mb : list Z) (reg : Z) (x : rm) : Prop :=
  forall tail, parse_modrm p rex (mb ++ tail) = Some (reg, x, tail).
Definition header (c : code) (p : prefixes) (rex : option Z) (opc reg : Z) (x : rm) : Prop :=
  opcode_ok opc = true /\ exists pre rexb mb,
    emits c (pre ++ rex_bytes rexb ++ opcode_bytes opc ++ mb) /\ forallb is_prefix pre = true /\ rex_ok rexb = true
    /\ prefixes_of pre = p /\ rex_opt rexb = rex /\ reads_as p rex mb reg x.

Lemma encodes_header_any c immc ib p rex opc reg x i :
  header c p rex opc reg x -> emits immc ib ->
  (forall mb rest, reads_as p rex mb reg x -> dispatch p rex opc (mb ++ ib ++ rest) = Some (i, rest)) ->
  encodes (append c immc) i.
Proof.
  intros (Ho & pre & rexb & mb & He & Hp & Hr & <- & <- & Hm) Hi Hd. eexists. split; [eapply emits_append; eassumption |].
  intros rest. rewrite <- !app_assoc. rewrite decode_header by assumption. now apply Hd.
Qed.
Lemma encodes_skip c i : encodes (append c skip) i -> encodes c i.
Proof.
  intros (bs & (es & E & F) & H). unfold append, skip in E. destruct c as [l |]; [| discriminate]. cbn in E.
  injection E as <-. rewrite app_nil_r in F. exists bs. split; [exists l; split; [reflexivity | exact F] | exact H].
Qed.
Lemma encodes_header c p rex opc reg x f i :
  header c p rex opc reg x -> (forall bs, dispatch p rex opc bs = with_rm p rex bs f) -> f reg x = Some i -> encodes c i.
Proof.
  intros H Hd Hf. apply encodes_skip. eapply encodes_header_any; [eassumption | exists []; split; reflexivity |].
  intros mb rest Hm. rewrite Hd. unfold with_rm. rewrite Hm, Hf. reflexivity.
Qed.
Lemma encodes_header_imm c immc ib immf v p rex opc reg x f i :
  header c p rex opc reg x -> (forall bs, dispatch p rex opc bs = with_rm_imm p rex bs immf f) ->
  emits immc ib -> (forall rest, immf (ib ++ rest) = Some (v, rest)) -> f reg x v = Some i -> encodes (append c immc) i.
Proof.
  intros H Hd Hi Hv Hf. eapply encodes_header_any; [eassumption .. |].
  intros mb rest Hm. rewrite Hd. unfold with_rm_imm. rewrite Hm, Hv, Hf. reflexivity.
Qed.
(** Without a ModRM byte. *)
Lemma encodes_plain c pre rex opc body i :
  emits c (pre ++ rex_bytes rex ++ opcode_bytes opc ++ body) -> forallb is_prefix pre = true -> rex_ok rex = true -> opcode_ok opc = true ->
  (forall rest, dispatch (prefixes_of pre) (rex_opt rex) opc (body ++ rest) = Some (i, rest)) -> encodes c i.
Proof. intros He Hp Hr Ho Hd. eexists. split; [exact He |]. intros rest. rewrite <- !app_assoc. rewrite decode_header by assumption. apply Hd. Qed.

(** The operand pair of two registers, or of an operation and a register. *)
Lemma reads_reg p rex reg n :
  0 <= reg < 8 -> 0 <= n < 8 -> reads_as p rex [triple 3 reg n] (reg + 8 * rex_bit rex 2) (RMReg (n + 8 * rex_bit rex 0)).
Proof. intros Hr Hn tail. now apply parse_modrm_reg. Qed.

(** ** The four forms of encode_opcode_mod_rm *)

Definition rr_rex (reg q : X86Register) : Z := rex_byte (newreg reg || newreg q) (size reg =? 8) (hireg reg) false (hireg q).
Definition gpr_check (sz : Z) (rex : option Z) (r : X86Register) : bool := bool_decide (gpr_of (size r) rex (num r) = meaning_reg r).
Definition opsize_check (p : prefixes) (rex : option Z) (sz : Z) : bool := (sz =? 1) || (opsize p rex =? sz).
Lemma gpr_checked sz rex r : gpr_check sz rex r = true -> gpr_of (size r) rex (num r) = meaning_reg r.
Proof. apply bool_decide_eq_true_1. Qed.
Lemma opsize_checked p rex sz : opsize_check p rex sz = true -> sz <> 1 -> opsize p rex = sz.
Proof. unfold opsize_check. rewrite orb_true_iff, !Z.eqb_eq. lia. Qed.

Lemma rr_checks :
  forallb (fun a => forallb (fun b => negb (regs_ok a b)
    || (let p := prefixes_of (size_prefix (size a)) in let rex := rex_opt (rr_rex a b) in
        gpr_check (size a) rex a && gpr_check (size b) rex b && opsize_check p rex (size a))) all_regs) all_regs = true.
Proof. vm_compute. reflexivity. Qed.
Lemma rm_checks :
  forallb (fun a => forallb (fun x => forallb (fun b => negb (negb (highbyte a && (x || b)))
    || (let p := prefixes_of (size_prefix (size a)) in let rex := rex_opt (rex_byte (newreg a) (size a =? 8) (hireg a) x b) in
        gpr_check (size a) rex a && opsize_check p rex (size a))) [true; false]) [true; false]) all_regs = true.
Proof. vm_compute. reflexivity. Qed.
Lemma or_checks :
  forallb (fun a => let p := prefixes_of (size_prefix (size a)) in let rex := rex_opt (rex_byte (newreg a) (size a =? 8) false false (hireg a)) in
    gpr_check (size a) rex a && opsize_check p rex (size a)) all_regs = true.
Proof. vm_compute. reflexivity. Qed.

Lemma size_prefix_ok sz : forallb is_prefix (size_prefix sz) = true.
Proof. unfold size_prefix. now destruct (sz =? 2). Qed.
(** [opsize] looks at one prefix only. *)
Lemma opsize_flags sz gs bsz rex : opsize (prefixes_of (mem_prefix gs sz bsz)) rex = opsize (prefixes_of (size_prefix sz)) rex.
Proof. rewrite mem_prefix_flags. unfold opsize, size_prefix. destruct (rex_bit rex 3 =? 1), (sz =? 2); reflexivity. Qed.
#[export] Hint Resolve size_prefix_ok mem_prefix_ok emits_triple : x86.

Lemma header_rr opc reg q :
  opcode_ok opc = true -> regs_ok reg q = true ->
  exists p rex, header (opcode_rr opc reg q) p rex opc (num reg) (RMReg (num q))
    /\ gpr_of (size reg) rex (num reg) = meaning_reg reg /\ gpr_of (size q) rex (num q) = meaning_reg q
    /\ (size reg <> 1 -> opsize p rex = size reg).
Proof.
  intros Ho H. assert (reg_ok reg = true /\ reg_ok q = true) as [Hr Hq] by (unfold regs_ok in H; rewrite !andb_true_iff in H; tauto).
  pose proof (reg_range _ Hr). pose proof (reg_range _ Hq).
  exists (prefixes_of (size_prefix (size reg))), (rex_opt (rr_rex reg q)). split.
  - split; [exact Ho |]. exists (size_prefix (size reg)), (rr_rex reg q), [triple 3 (raw_index reg) (raw_index q)].
    repeat split; auto with x86; [| apply rex_byte_ok |].
    + repeat apply emits_append; auto with x86. apply emits_triple; lia.
    + destruct (rex_byte_bits (newreg reg || newreg q) (size reg =? 8) (hireg reg) false (hireg q)) as (B0 & _ & B2 & _).
      unfold num. rewrite <- B0, <- B2. now apply reads_reg.
  - pose proof (reg_ok_check _ q Hq (reg_ok_check _ reg Hr rr_checks)) as C. cbv beta zeta in C. rewrite H in C. cbn [negb orb] in C.
    rewrite !andb_true_iff in C. destruct C as ((C1 & C2) & C3).
    split; [exact (gpr_checked _ _ _ C1) | split; [exact (gpr_checked _ _ _ C2) |]]. now apply opsize_checked.
Qed.
Lemma header_or opc oper q :
  opcode_ok opc = true -> 0 <= oper < 8 -> reg_ok q = true ->
  exists p rex, header (opcode_or opc oper q) p rex opc oper (RMReg (num q))
    /\ gpr_of (size q) rex (num q) = meaning_reg q /\ (size q <> 1 -> opsize p rex = size q).
Proof.
  intros Ho Hop Hq. pose proof (reg_range _ Hq).
  set (rexb := rex_byte (newreg q) (size q =? 8) false false (hireg q)).
  exists (prefixes_of (size_prefix (size q))), (rex_opt rexb). split.
  - split; [exact Ho |]. exists (size_prefix (size q)), rexb, [triple 3 oper (raw_index q)].
    repeat split; auto with x86; [| apply rex_byte_ok |].
    + repeat apply emits_append; auto with x86. apply emits_triple; lia.
    + destruct (rex_byte_bits (newreg q) (size q =? 8) false false (hireg q)) as (B0 & _ & B2 & _).
      unfold num. rewrite <- B0. replace oper with (oper + 8 * rex_bit (rex_opt rexb) 2) at 2 by (unfold rexb; rewrite B2; cbn; lia). now apply reads_reg.
  - pose proof (reg_ok_check _ q Hq or_checks) as C. cbv beta zeta in C. rewrite !andb_true_iff in C. destruct C as (C1 & C2).
    split; [exact (gpr_checked _ _ _ C1) |]. now apply opsize_checked.
Qed.

Lemma meaning_prefixes (m : X86Memory) sz :
  mem_ok m = true ->
  mkAddress (p_gs (prefixes_of (mem_prefix (segment m =? 1) sz (size (base m))))) (if p_67 (prefixes_of (mem_prefix (segment m =? 1) sz (size (base m)))) then 4 else 8)
    (Some (num (base m))) (index_meaning m) (displacement m) false = meaning_mem m.
Proof.
  intros H. destruct (mem_parts m H) as (_ & Hs & _). rewrite mem_prefix_flags. unfold meaning_mem. cbn [p_gs p_67].
  destruct Hs as [-> | ->]; reflexivity.
Qed.
Lemma header_rm opc d m :
  opcode_ok opc = true -> reg_mem_ok d m = true ->
  exists p rex, header (opcode_rm opc d m) p rex opc (num d) (RMMem (meaning_mem m))
    /\ gpr_of (size d) rex (num d) = meaning_reg d /\ (size d <> 1 -> opsize p rex = size d).
Proof.
  intros Ho H. unfold reg_mem_ok in H. rewrite !andb_true_iff in H. destruct H as ((Hd & Hm) & Hh).
  pose proof (reg_range _ Hd) as Hdr. destruct (mem_parts m Hm) as (_ & Hsz & _ & _ & Hseg & _).
  set (rexb := rex_byte (newreg d) (size d =? 8) (hireg d) (hireg (index m)) (hireg (base m))).
  set (pre := mem_prefix (segment m =? 1) (size d) (size (base m))).
  destruct (rex_byte_bits (newreg d) (size d =? 8) (hireg d) (hireg (index m)) (hireg (base m))) as (B0 & B1 & B2 & _).
  destruct (modrm_mem m Hm (raw_index d) Hdr) as (mb & Hmb & Hparse).
  exists (prefixes_of pre), (rex_opt rexb). split.
  - split; [exact Ho |]. exists pre, rexb, mb. repeat split; [| apply mem_prefix_ok | apply rex_byte_ok |].
    + unfold opcode_rm.
      assert (valid_size (size d) = true) as -> by (apply (reg_ok_check (fun r => valid_size (size r)) d Hd); vm_compute; reflexivity).
      replace ((size (base m) =? 4) || (size (base m) =? 8) || reg_eqb (base m) REG_RIZ) with true by (destruct Hsz as [-> | ->]; reflexivity).
      replace ((segment m =? 0) || (segment m =? 1)) with true by (destruct Hseg as [-> | ->]; reflexivity).
      unfold pre, mem_prefix. rewrite <- !app_assoc. repeat apply emits_append; auto with x86. 
    + intros tail. rewrite Hparse; [| exact B0 | intros _; exact B1 | intros E; fold rexb in B1; rewrite B1; apply reg_eqb_eq in E; rewrite E; reflexivity].
      unfold pre. rewrite meaning_prefixes by assumption. unfold rexb. rewrite B2. reflexivity.
  - pose proof (reg_ok_check _ d Hd rm_checks) as C. rewrite forallb_forall in C.
    specialize (C (hireg (index m)) ltac:(destruct (hireg (index m)); cbn; tauto)). rewrite forallb_forall in C.
    specialize (C (hireg (base m)) ltac:(destruct (hireg (base m)); cbn; tauto)). cbv beta zeta in C.
    rewrite (orb_comm (hireg (base m))) in Hh.
    rewrite Hh in C. cbn [negb orb] in C. apply andb_prop in C as [C1 C2].
    split; [exact (gpr_checked _ _ _ C1) |]. unfold pre. rewrite opsize_flags. now apply opsize_checked.
Qed.

Lemma header_om opc oper sz m :
  opcode_ok opc = true -> 0 <= oper < 8 -> valid_size sz = true -> plain_mem m = true ->
  exists p rex, header (opcode_om opc oper sz m) p rex opc oper (RMMem (meaning_mem m)) /\ (sz <> 1 -> opsize p rex = sz).
Proof.
  intros Ho Hop Hsize H. unfold plain_mem in H. rewrite !andb_true_iff, negb_true_iff, Z.eqb_eq in H. destruct H as ((Hm & Hseg) & Hx).
  destruct (mem_parts m Hm) as (_ & Hsz & _).
  set (rexb := rex_byte false (sz =? 8) false false (hireg (base m))).
  set (pre := mem_prefix (segment m =? 1) sz (size (base m))).
  destruct (rex_byte_bits false (sz =? 8) false false (hireg (base m))) as (B0 & B1 & B2 & B3). fold rexb in B0, B1, B2, B3.
  destruct (modrm_mem m Hm oper Hop) as (mb & Hmb & Hparse).
  exists (prefixes_of pre), (rex_opt rexb). split.
  - split; [exact Ho |]. exists pre, rexb, mb. repeat split; [| apply mem_prefix_ok | apply rex_byte_ok |].
    + unfold opcode_om. rewrite Hsize.
      replace ((size (base m) =? 4) || (size (base m) =? 8)) with true by (destruct Hsz as [-> | ->]; reflexivity).
      unfold pre, mem_prefix. rewrite Hseg. cbn [Z.eqb app]. rewrite <- !app_assoc. repeat apply emits_append; auto with x86.
    + intros tail. rewrite Hparse; [| exact B0 | intros _; rewrite Hx; exact B1 | intros _; exact B1].
      unfold pre. rewrite meaning_prefixes by assumption. rewrite B2. cbn [Z.b2z]. now rewrite Z.mul_0_r, Z.add_0_r.
  - intros Hn. unfold pre. rewrite opsize_flags. unfold opsize, size_prefix. rewrite B3. unfold valid_size in Hsize.
    rewrite !orb_true_iff, !Z.eqb_eq in Hsize. destruct Hsize as [[[-> | ->] | ->] | ->]; reflexivity || lia.
Qed.
(** A memory operand whose address takes at most a REX.B. *)
Definition rexb_of (m : X86Memory) : Z := flag (hireg (base m)) REX_B.
Lemma header_m c opc oper m :
  opcode_ok opc = true -> 0 <= oper < 8 -> plain_mem m = true -> size (base m) = 8 ->
  (forall mb, emits (mod_reg_rm_m oper m) mb -> emits c (rex_bytes (rexb_of m) ++ opcode_bytes opc ++ mb)) ->
  header c no_prefixes (rex_opt (rexb_of m)) opc oper (RMMem (meaning_mem m)).
Proof.
  intros Ho Hop H Hb He. unfold plain_mem in H. rewrite !andb_true_iff, negb_true_iff, Z.eqb_eq in H. destruct H as ((Hm & Hseg) & Hx).
  destruct (modrm_mem m Hm oper Hop) as (mb & Hmb & Hparse).
  split; [exact Ho |]. exists [], (rexb_of m), mb.
  split; [exact (He mb Hmb) |]. split; [reflexivity |]. split; [unfold rexb_of; now destruct (hireg (base m)) |]. repeat split.
  intros tail. rewrite Hparse; [| unfold rexb_of; now destruct (hireg (base m)) | intros _; unfold rexb_of; rewrite Hx; now destruct (hireg (base m)) | intros _; unfold rexb_of; now destruct (hireg (base m))].
  unfold meaning_mem. rewrite Hb, Hseg. replace (rex_bit (rex_opt (rexb_of m)) 2) with 0 by (unfold rexb_of; now destruct (hireg (base m))).
  now rewrite Z.mul_0_r, Z.add_0_r.
Qed.

Abbreviation Reg r := (OReg (meaning_reg r)).
Abbreviation Mem m := (OMem (meaning_mem m)).
(** An immediate value is a 32-bit number, extended to the width. *)
Definition imm_value (sz imm : Z) : Z := wrap (8 * sz) (sext 32 imm).
Definition Imm (sz imm : Z) : opnd := OImm (imm_value sz imm).

Definition alu_rr_methods := [(add_rr, 0); (orr_rr, 1); (adc_rr, 2); (sbc_rr, 3); (andd_rr, 4); (sub_rr, 5); (xorr_rr, 6); (cmp_rr, 7)].
Definition alu_mr_methods := [(add_mr, 0); (orr_mr, 1); (adc_mr, 2); (sbc_mr, 3); (andd_mr, 4); (sub_mr, 5); (xorr_mr, 6); (cmp_mr, 7)].
Definition alu_rm_methods := [(add_rm, 0); (orr_rm, 1); (andd_rm, 4); (sub_rm, 5); (xorr_rm, 6); (cmp_rm, 7)].
Definition alu_ir_methods := [(add_ir, 0); (orr_ir, 1); (adc_ir, 2); (sbc_ir, 3); (andd_ir, 4); (sub_ir, 5); (xorr_ir, 6); (cmp_ir, 7)].
Definition alu_im_methods := [(orr_im, 1); (andd_im, 4); (xorr_im, 6)].
Definition short_im_methods := [(add_im, 0); (sub_im, 5)].
Definition cmp_im_methods := [(cmp1, 1); (cmp2, 2); (cmp4, 4)].
Definition add_im_methods := [(add4, 4); (add8, 8)].
Definition shift_ir_methods := [(ror_ir, 1); (shl_ir, 4); (shr_ir, 5); (sar_ir, 7)].
Definition shift_im_methods := [(ror_im, 1); (shl_im, 4); (shr_im, 5); (sar_im, 7)].
Definition shift_rr_methods := [(ror_rr, 1); (shl_rr, 4); (shr_rr, 5); (sar_rr, 7)].
Definition group3_methods := [(mul, 4); (div, 6); (idiv, 7)].
Definition plain_methods :=
  [(cltd, IConvertD 4); (cbtw, IConvert 2); (cwtl, IConvert 4); (cltq, IConvert 8); (lahf, ILahf); (stc, IStc); (clc, IClc); (ret, IRet);
   (int3, IInt3); (leave, ILeave); (hlt, IHlt); (nop, INop); (wbinvd, IWbinvd); (jmp_reloc, IJmpRel 0); (jmp_short_reloc, IJmpRel 0)].
Definition vector_methods :=
  [(addss, (Some 0xf3, 0x58)); (addsd, (Some 0xf2, 0x58)); (subss, (Some 0xf3, 0x5c)); (subsd, (Some 0xf2, 0x5c));
   (divss, (Some 0xf3, 0x5e)); (divsd, (Some 0xf2, 0x5e)); (mulss, (Some 0xf3, 0x59)); (mulsd, (Some 0xf2, 0x59));
   (sqrtss, (Some 0xf3, 0x51)); (sqrtsd, (Some 0xf2, 0x51)); (cvtss2sd, (Some 0xf3, 0x5a)); (cvtsd2ss, (Some 0xf2, 0x5a));
   (paddw, (Some 0x66, 0xfd)); (paddd, (Some 0x66, 0xfe)); (paddq, (Some 0x66, 0xd4)); (psubd, (Some 0x66, 0xfa)); (psubq, (Some 0x66, 0xfb));
   (pmuld, (Some 0x66, 0xf4)); (addps, (None, 0x58)); (addpd, (Some 0x66, 0x58)); (mulps, (None, 0x59)); (mulpd, (Some 0x66, 0x59)); (pxor, (Some 0x66, 0xef))].
Definition vector_imm_methods := [(cmpss, 0xf3); (cmpsd, 0xf2)].
Definition cvt_to_methods := [(cvttsd2si, (0xf2, 0x2c)); (cvtsd2si, (0xf2, 0x2d)); (cvtss2si, (0xf3, 0x2d)); (cvttss2si, (0xf3, 0x2c))].
Definition cvt_from_methods := [(cvtsi2sd, 0xf2); (cvtsi2ss, 0xf3)].

Definition vec_ok (v : X86VectorRegister) : bool :=
  existsb (fun w => (vsize w =? vsize v) && (vraw_index w =? vraw_index v) && eqb (vhireg w) (vhireg v)) vector_regs.
Definition vnum (v : X86VectorRegister) : Z := vraw_index v + 8 * Z.b2z (vhireg v).
(** The accumulator of two or eight bytes, whose short form is that of eax. *)
Definition wrong_accumulator (r : X86Register) : bool := (raw_index r =? 0) && negb (hireg r) && ((size r =? 2) || (size r =? 8)).
Definition simple_mem (m : X86Memory) : bool := plain_mem m && (size (base m) =? 8).

Inductive asks : code -> insn -> Prop :=
(* two operands *)
| asks_alu_rr f o s d : In (f, o) alu_rr_methods -> regs_ok s d = true -> size s = size d ->
    asks (f s d) (IAlu o (size s) (Reg d) (Reg s))
| asks_alu_mr f o m d : In (f, o) alu_mr_methods -> reg_mem_ok d m = true -> asks (f m d) (IAlu o (size d) (Reg d) (Mem m))
| asks_alu_rm f o s m : In (f, o) alu_rm_methods -> reg_mem_ok s m = true -> asks (f s m) (IAlu o (size s) (Mem m) (Reg s))
| asks_alu_ir f o imm d : In (f, o) alu_ir_methods -> 0 <= imm < 2 ^ 32 -> reg_ok d = true -> (o = 6 -> wrong_accumulator d = false) ->
    asks (f imm d) (IAlu o (size d) (Reg d) (Imm (size d) imm))
| asks_alu_im f o imm sz m : In (f, o) alu_im_methods -> 0 <= imm < 2 ^ 32 -> valid_size sz = true -> plain_mem m = true ->
    asks (f imm sz m) (IAlu o sz (Mem m) (Imm sz imm))
| asks_short_im f o imm sz m : In (f, o) short_im_methods -> 0 <= imm < 2 ^ 32 -> sz = 4 \/ sz = 8 \/ (sz = 2 /\ imm < 127) -> plain_mem m = true ->
    asks (f imm sz m) (IAlu o sz (Mem m) (Imm sz imm))
| asks_cmp_im f sz imm m : In (f, sz) cmp_im_methods -> 0 <= imm < 2 ^ 32 -> plain_mem m = true -> asks (f imm m) (IAlu 7 sz (Mem m) (Imm sz imm))
| asks_cmp8 imm m : 0 <= imm < 0x80 -> plain_mem m = true -> asks (cmp8 imm m) (IAlu 7 8 (Mem m) (Imm 8 imm))
| asks_add_im f sz imm m : In (f, sz) add_im_methods -> 0 <= imm < 2 ^ 32 -> plain_mem m = true -> asks (f imm m) (IAlu 0 sz (Mem m) (Imm sz imm))
| asks_test_rr a b : regs_ok b a = true -> size a = size b -> asks (test_rr a b) (ITest (size b) (Reg a) (Reg b))
| asks_test_ir imm d : 0 <= imm < 2 ^ 32 -> reg_ok d = true -> size d <> 8 -> asks (test_ir imm d) (ITest (size d) (Reg d) (Imm (size d) imm))
| asks_test4 imm m : 0 <= imm < 2 ^ 32 -> plain_mem m = true -> asks (test4 imm m) (ITest 4 (Mem m) (Imm 4 imm))
(* shifts *)
| asks_shift_ir f o n d : In (f, o) shift_ir_methods -> 0 <= n < 256 -> reg_ok d = true -> asks (f n d) (IShift o (size d) (Reg d) (OImm n))
| asks_shift_im f o n sz m : In (f, o) shift_im_methods -> 0 <= n < 256 -> valid_size sz = true -> plain_mem m = true ->
    asks (f n sz m) (IShift o sz (Mem m) (OImm n))
| asks_shift_rr f o d : In (f, o) shift_rr_methods -> reg_ok d = true -> asks (f REG_CL d) (IShift o (size d) (Reg d) OCL)
(* products, quotients, one operand *)
| asks_imul s d : regs_ok d s = true -> size s = size d -> size d <> 1 -> asks (imul s d) (IImul (size d) (Reg d) (Reg s))
| asks_group3 f o r : In (f, o) group3_methods -> reg_ok r = true -> size r <> 1 -> asks (f r) (IGroup3 o (size r) (Reg r))
| asks_mul1 r : reg_ok r = true -> size r = 1 -> asks (mul1 r) (IGroup3 4 1 (Reg r))
| asks_incq m : plain_mem m = true -> asks (incq m) (IInc 8 (Mem m))
| asks_bswap r : reg_ok r = true -> size r = 4 \/ size r = 8 -> asks (bswap r) (IBswap (size r) (num r))
| asks_bsr s d : regs_ok d s = true -> size s = size d -> size d <> 1 -> asks (bsr s d) (IBsr (size d) (Reg d) (Reg s))
(* moves *)
| asks_mov_rr s d : regs_ok s d = true -> size s = size d -> asks (mov_rr s d) (IMov (size s) (Reg d) (Reg s))
| asks_mov_mr m d : reg_mem_ok d m = true -> asks (mov_mr m d) (IMov (size d) (Reg d) (Mem m))
| asks_mov_rm s m : reg_mem_ok s m = true -> asks (mov_rm s m) (IMov (size s) (Mem m) (Reg s))
| asks_mov_ir v d : 0 <= v < 2 ^ 64 -> reg_ok d = true ->
    asks (mov_ir v d) (IMovImm (if size d =? 4 then R (num d) 8 else meaning_reg d) (wrap (8 * size d) v))
| asks_mov4 v m : plain_mem m = true -> asks (mov4 v m) (IMov 4 (Mem m) (OImm (wrap 32 v)))
| asks_mov2 v m : plain_mem m = true -> asks (mov2 v m) (IMov 2 (Mem m) (OImm (wrap 16 v)))
| asks_mov1 v m : plain_mem m = true -> asks (mov1 v m) (IMov 1 (Mem m) (OImm (wrap 8 v)))
| asks_movzx_rr s d : regs_ok d s = true -> size s = 1 \/ size s = 2 -> size s < size d -> asks (movzx_rr s d) (IMovzx (size s) (Reg d) (Reg s))
| asks_movzx_mr sz m d : reg_mem_ok d m = true -> sz = 1 \/ sz = 2 -> sz < size d -> asks (movzx_mr sz m d) (IMovzx sz (Reg d) (Mem m))
| asks_movsx_rr s d : regs_ok d s = true -> size s < size d -> (size s = 4 -> size d = 8) -> asks (movsx_rr s d) (IMovsx (size s) (Reg d) (Reg s))
| asks_movsx_mr sz m d : reg_mem_ok d m = true -> sz = 1 \/ sz = 2 \/ sz = 4 -> sz < size d -> asks (movsx_mr sz m d) (IMovsx sz (Reg d) (Mem m))
| asks_lea m d : reg_mem_ok d m = true -> size d <> 1 -> asks (lea m d) (ILea (meaning_reg d) (meaning_mem m))
| asks_xchg a b : regs_ok a b = true -> size a = size b -> asks (xchg a b) (IXchg (size a) (Reg b) (Reg a))
| asks_cmov cc s d : 0 <= cc < 16 -> regs_ok d s = true -> size s = size d -> size d <> 1 -> asks (cmov cc s d) (ICmov cc (size d) (Reg d) (Reg s))
| asks_setcc_r cc d : 0 <= cc < 16 -> reg_ok d = true -> size d = 1 -> asks (setcc_r cc d) (ISetcc cc (Reg d))
| asks_setcc_m cc m : 0 <= cc < 16 -> simple_mem m = true -> asks (setcc_m cc m) (ISetcc cc (Mem m))
| asks_movcs d : reg_ok d = true -> size d = 2 -> hireg d = false -> asks (movcs d) (IMovSeg 1 (Reg d))
(* the stack *)
| asks_push_r r : reg_ok r = true -> size r = 8 -> asks (push_r r) (IPush (num r))
| asks_push_i v : asks (push_i v) (IPushImm (sext 32 v))
| asks_pop r : reg_ok r = true -> size r = 8 -> asks (pop r) (IPop (num r))
(* control flow *)
| asks_call_r r : reg_ok r = true -> size r = 8 -> asks (call_r r) (ICall (Reg r))
| asks_jmp_r r : reg_ok r = true -> size r = 8 -> asks (jmp_r r) (IJmp (Reg r))
| asks_call_m m : simple_mem m = true -> hireg (base m) = false -> asks (call_m m) (ICall (Mem m))
| asks_jmp_m m : simple_mem m = true -> hireg (base m) = false -> asks (jmp_m m) (IJmp (Mem m))
| asks_call_near here t r : far true here t = false -> asks (call_target true here t r) (ICallRel (t - here))
| asks_jmp_near here t r : far true here t = false -> asks (jmp_target true here t r) (IJmpRel (t - here))
| asks_jmp_offset off : - 2 ^ 31 <= off < 2 ^ 31 -> asks (jmp_offset off) (IJmpRel off)
| asks_jcc cc off : 0 <= cc < 16 -> - 2 ^ 31 <= off < 2 ^ 31 -> asks (jcc cc off) (IJcc cc off)
| asks_jcc_short cc off : 0 <= cc < 16 -> -128 <= off < 128 -> asks (jcc_short cc off) (IJcc cc off)
| asks_jcc_reloc cc : 0 <= cc < 16 -> asks (jcc_reloc cc) (IJcc cc 0)
| asks_jcc_short_reloc cc : 0 <= cc < 16 -> asks (jcc_short_reloc cc) (IJcc cc 0)
| asks_intt n : 0 <= n < 256 -> asks (intt n) (IInt n)
(* the rest *)
| asks_plain c i : In (c, i) plain_methods -> asks c i
| asks_invlpg m : plain_mem m = true -> asks (invlpg m) (IInvlpg (meaning_mem m))
| asks_nop_m m : simple_mem m = true -> hireg (base m) = false -> asks (nop_m m) (INopMem (meaning_mem m))
(* vectors *)
| asks_vector f pre opc s d : In (f, (pre, opc)) vector_methods -> vec_ok s = true -> vec_ok d = true -> vhireg s = false -> vhireg d = false ->
    asks (f s d) (IVec pre opc (vnum d) (vnum s))
| asks_vector_imm f pre s d n : In (f, pre) vector_imm_methods -> vec_ok s = true -> vec_ok d = true -> vhireg s = false -> vhireg d = false -> 0 <= n < 256 ->
    asks (f s d n) (IVecImm (Some pre) 0xc2 (vnum d) (vnum s) n)
| asks_movq_rv s d : reg_ok s = true -> size s = 4 \/ size s = 8 -> vec_ok d = true -> asks (movq_rv s d) (IMovGX (size s) (vnum d) (num s))
| asks_movq_vr s d : reg_ok d = true -> size d = 4 \/ size d = 8 -> vec_ok s = true -> asks (movq_vr s d) (IMovXG (size d) (vnum s) (num d))
| asks_cvt_to f pre opc s d : In (f, (pre, opc)) cvt_to_methods -> vec_ok s = true -> reg_ok d = true -> size d = 4 \/ size d = 8 ->
    (pre = 0xf3 -> opc = 0x2c -> vhireg s = false /\ hireg d = false) -> asks (f s d) (ICvtToInt pre opc (size d) (num d) (vnum s))
| asks_cvt_from f pre s d : In (f, pre) cvt_from_methods -> reg_ok s = true -> size s = 4 \/ size s = 8 -> vec_ok d = true ->
    asks (f s d) (ICvtFromInt pre (size s) (vnum d) (num s)).
