(* ===== verification/X86Methods.v ===== *)
(** * Each method of X86Encoder emits the instruction it is asked for *)

From Stdlib Require Import ZArith Lia List Bool.
From stdpp Require Import base numbers list.
From S2P Require Import Prelude X86Encoder X86Decode X86Shapes.
Import ListNotations.
#[local] Open Scope Z_scope.
#[local] Open Scope gensim_scope.

(** ** Instructions by the form of their operands *)

Lemma osz_known wide p rex sz : wide = negb (sz =? 1) -> (sz <> 1 -> opsize p rex = sz) -> osz_of wide p rex = sz.
Proof. intros -> H. unfold osz_of. destruct (Z.eqb_spec sz 1); cbn [negb]; [congruence | now apply H]. Qed.

Lemma enc_rr opc wide F reg q i :
  opcode_ok opc = true -> regs_ok reg q = true -> wide = negb (size reg =? 1) ->
  (forall p rex bs, dispatch p rex opc bs = with_rm p rex bs (F p rex)) ->
  (forall p rex, osz_of wide p rex = size reg -> gpr_of (size reg) rex (num reg) = meaning_reg reg ->
     gpr_of (size q) rex (num q) = meaning_reg q -> F p rex (num reg) (RMReg (num q)) = Some i) ->
  encodes (opcode_rr opc reg q) i.
Proof.
  intros Ho Hr Hw Hd HF. destruct (header_rr opc reg q Ho Hr) as (p & rex & Hh & G1 & G2 & Hs).
  eapply encodes_header; [exact Hh | apply Hd |]. apply HF; [now apply osz_known | assumption ..].
Qed.
Lemma enc_rm opc wide F d m i :
  opcode_ok opc = true -> reg_mem_ok d m = true -> wide = negb (size d =? 1) ->
  (forall p rex bs, dispatch p rex opc bs = with_rm p rex bs (F p rex)) ->
  (forall p rex, osz_of wide p rex = size d -> gpr_of (size d) rex (num d) = meaning_reg d -> F p rex (num d) (RMMem (meaning_mem m)) = Some i) ->
  encodes (opcode_rm opc d m) i.
Proof.
  intros Ho Hr Hw Hd HF. destruct (header_rm opc d m Ho Hr) as (p & rex & Hh & G1 & Hs).
  eapply encodes_header; [exact Hh | apply Hd |]. apply HF; [now apply osz_known | assumption ..].
Qed.
Lemma enc_or opc wide F oper q i :
  opcode_ok opc = true -> 0 <= oper < 8 -> reg_ok q = true -> wide = negb (size q =? 1) ->
  (forall p rex bs, dispatch p rex opc bs = with_rm p rex bs (F p rex)) ->
  (forall p rex, osz_of wide p rex = size q -> gpr_of (size q) rex (num q) = meaning_reg q -> F p rex oper (RMReg (num q)) = Some i) ->
  encodes (opcode_or opc oper q) i.
Proof.
  intros Ho Hop Hr Hw Hd HF. destruct (header_or opc oper q Ho Hop Hr) as (p & rex & Hh & G1 & Hs).
  eapply encodes_header; [exact Hh | apply Hd |]. apply HF; [now apply osz_known | assumption ..].
Qed.
Lemma enc_om opc wide F oper sz m i :
  opcode_ok opc = true -> 0 <= oper < 8 -> valid_size sz = true -> plain_mem m = true -> wide = negb (sz =? 1) ->
  (forall p rex bs, dispatch p rex opc bs = with_rm p rex bs (F p rex)) ->
  (forall p rex, osz_of wide p rex = sz -> F p rex oper (RMMem (meaning_mem m)) = Some i) ->
  encodes (opcode_om opc oper sz m) i.
Proof.
  intros Ho Hop Hv Hr Hw Hd HF. destruct (header_om opc oper sz m Ho Hop Hv Hr) as (p & rex & Hh & Hs).
  eapply encodes_header; [exact Hh | apply Hd |]. apply HF; now apply osz_known.
Qed.
Lemma enc_or_imm opc wide I F oper q immc ib v i :
  opcode_ok opc = true -> 0 <= oper < 8 -> reg_ok q = true -> wide = negb (size q =? 1) ->
  (forall p rex bs, dispatch p rex opc bs = with_rm_imm p rex bs (I p rex) (F p rex)) ->
  emits immc ib -> (forall p rex rest, osz_of wide p rex = size q -> I p rex (ib ++ rest) = Some (v, rest)) ->
  (forall p rex, osz_of wide p rex = size q -> gpr_of (size q) rex (num q) = meaning_reg q -> F p rex oper (RMReg (num q)) v = Some i) ->
  encodes (append (opcode_or opc oper q) immc) i.
Proof.
  intros Ho Hop Hr Hw Hd He Hi HF. destruct (header_or opc oper q Ho Hop Hr) as (p & rex & Hh & G1 & Hs).
  eapply encodes_header_imm; [exact Hh | apply Hd | exact He | |].
  - intros rest. apply Hi. now apply osz_known.
  - apply HF; [now apply osz_known | assumption ..].
Qed.
Lemma enc_om_imm opc wide I F oper sz m immc ib v i :
  opcode_ok opc = true -> 0 <= oper < 8 -> valid_size sz = true -> plain_mem m = true -> wide = negb (sz =? 1) ->
  (forall p rex bs, dispatch p rex opc bs = with_rm_imm p rex bs (I p rex) (F p rex)) ->
  emits immc ib -> (forall p rex rest, osz_of wide p rex = sz -> I p rex (ib ++ rest) = Some (v, rest)) ->
  (forall p rex, osz_of wide p rex = sz -> F p rex oper (RMMem (meaning_mem m)) v = Some i) ->
  encodes (append (opcode_om opc oper sz m) immc) i.
Proof.
  intros Ho Hop Hv Hr Hw Hd He Hi HF. destruct (header_om opc oper sz m Ho Hop Hv Hr) as (p & rex & Hh & Hs).
  eapply encodes_header_imm; [exact Hh | apply Hd | exact He | |].
  - intros rest. apply Hi. now apply osz_known.
  - apply HF; now apply osz_known.
Qed.

(** The operands, once the size and the registers are known. *)
Ltac operands :=
  intros; unfold osz, greg, rm_opnd, only_mem in *;
  repeat match goal with
  | |- context [Z.odd ?n] => let b := eval vm_compute in (Z.odd n) in change (Z.odd n) with b
  | |- context [opsize ?p ?rex] => change (opsize p rex) with (osz_of true p rex)
  | H : osz_of ?b ?p ?rex = _ |- context [osz_of ?b ?p ?rex] => rewrite H
  | H : gpr_of ?s ?rex ?n = _ |- context [gpr_of ?s ?rex ?n] => rewrite H
  | E : size ?a = size ?b, H : gpr_of (size ?b) ?rex ?n = _ |- context [gpr_of (size ?a) ?rex ?n] => rewrite E, H
  | E : size ?a = size ?b, H : gpr_of (size ?a) ?rex ?n = _ |- context [gpr_of (size ?b) ?rex ?n] => rewrite <- E, H
  end; try reflexivity.
Ltac by_size s := unfold pick; destruct (Z.eqb_spec s 1).
Lemma narrow s : s = 1 -> false = negb (s =? 1).
Proof. intros ->. reflexivity. Qed.
Lemma wider s : s <> 1 -> true = negb (s =? 1).
Proof. intros H. now rewrite (proj2 (Z.eqb_neq _ _) H). Qed.
#[local] Hint Resolve narrow wider : x86.
(** An instruction whose opcode is known and that has a ModRM byte. *)
Ltac by_form L w := eapply L with (wide := w); try reflexivity; try assumption; auto with x86; try lia; operands.

(** ** Two registers *)

Lemma alu_cases o : 0 <= o < 8 -> o = 0 \/ o = 1 \/ o = 2 \/ o = 3 \/ o = 4 \/ o = 5 \/ o = 6 \/ o = 7.
Proof. lia. Qed.
Ltac each_alu H := apply alu_cases in H; destruct H as [-> | [-> | [-> | [-> | [-> | [-> | [-> | ->]]]]]]].

Lemma alu_rr_encodes checked o s d :
  0 <= o < 8 -> regs_ok s d = true -> size s = size d -> encodes (alu_rr checked o s d) (IAlu o (size s) (Reg d) (Reg s)).
Proof.
  intros Ho Hr Hs. unfold alu_rr. rewrite (proj2 (Z.eqb_eq (size s) (size d)) Hs), orb_true_r.
  by_size (size s); [each_alu Ho; by_form enc_rr false | each_alu Ho; by_form enc_rr true].
Qed.
Lemma reg_sizes r : reg_ok r = true -> size r = 1 \/ size r = 2 \/ size r = 4 \/ size r = 8.
Proof.
  intros H. apply (reg_ok_check (fun r => valid_size (size r))) in H; [| vm_compute; reflexivity].
  unfold valid_size in H. rewrite !orb_true_iff, !Z.eqb_eq in H. tauto.
Qed.
Lemma regs_parts a b : regs_ok a b = true -> reg_ok a = true /\ reg_ok b = true.
Proof. unfold regs_ok. rewrite !andb_true_iff. tauto. Qed.
Lemma same_size s d (x : code) e : size s = size d -> (check* size s =? size d or e in x) = x.
Proof. intros H. now rewrite (proj2 (Z.eqb_eq _ _) H). Qed.
Lemma adc_sbc_encodes o s d :
  0 <= o < 8 -> regs_ok s d = true -> size s = size d -> encodes (opcode_rr (pick (size d) (8 * o) (8 * o + 1)) s d) (IAlu o (size s) (Reg d) (Reg s)).
Proof. intros Ho Hr Hs. pose proof (alu_rr_encodes false o s d Ho Hr Hs) as H. unfold alu_rr in H. cbn [negb orb] in H. rewrite <- Hs. unfold pick in *. destruct (size s =? 1); [rewrite Z.add_0_r in H |]; exact H. Qed.
Lemma mov_rr_encodes s d : regs_ok s d = true -> size s = size d -> encodes (mov_rr s d) (IMov (size s) (Reg d) (Reg s)).
Proof. intros Hr Hs. unfold mov_rr. rewrite same_size by assumption. by_size (size s); [by_form enc_rr false | by_form enc_rr true]. Qed.
Lemma xchg_encodes a b : regs_ok a b = true -> size a = size b -> encodes (xchg a b) (IXchg (size a) (Reg b) (Reg a)).
Proof. intros Hr Hs. unfold xchg. rewrite same_size by assumption. by_size (size a); [by_form enc_rr false | by_form enc_rr true]. Qed.
Lemma test_rr_encodes a b : regs_ok b a = true -> size a = size b -> encodes (test_rr a b) (ITest (size b) (Reg a) (Reg b)).
Proof. intros Hr Hs. unfold test_rr. rewrite same_size by assumption. rewrite Hs. by_size (size b); [by_form enc_rr false | by_form enc_rr true]. Qed.
Lemma imul_encodes s d : regs_ok d s = true -> size s = size d -> size d <> 1 -> encodes (imul s d) (IImul (size d) (Reg d) (Reg s)).
Proof. intros Hr Hs Hn. unfold imul. rewrite same_size by assumption. by_form enc_rr true. Qed.
Lemma bsr_encodes s d : regs_ok d s = true -> size s = size d -> size d <> 1 -> encodes (bsr s d) (IBsr (size d) (Reg d) (Reg s)).
Proof. intros Hr Hs Hn. unfold bsr. rewrite same_size by assumption. by_form enc_rr true. Qed.
Lemma nibble_cases c : 0 <= c < 16 ->
  c = 0 \/ c = 1 \/ c = 2 \/ c = 3 \/ c = 4 \/ c = 5 \/ c = 6 \/ c = 7 \/ c = 8 \/ c = 9 \/ c = 10 \/ c = 11 \/ c = 12 \/ c = 13 \/ c = 14 \/ c = 15.
Proof. lia. Qed.
Ltac each_cc H := apply nibble_cases in H; repeat destruct H as [-> | H]; [.. | subst].
Lemma cmov_encodes cc s d : 0 <= cc < 16 -> regs_ok d s = true -> size s = size d -> size d <> 1 -> encodes (cmov cc s d) (ICmov cc (size d) (Reg d) (Reg s)).
Proof. intros Hc Hr Hs Hn. unfold cmov. each_cc Hc; by_form enc_rr true. Qed.
Lemma wide_size d n : reg_ok d = true -> 1 <= n -> n < size d -> wide (size d) = true /\ size d <> 1.
Proof. intros H Hn Hl. destruct (reg_sizes d H) as [E | [E | [E | E]]]; rewrite E in *; split; (reflexivity || lia). Qed.
Lemma movzx_rr_encodes s d : regs_ok d s = true -> size s = 1 \/ size s = 2 -> size s < size d -> encodes (movzx_rr s d) (IMovzx (size s) (Reg d) (Reg s)).
Proof.
  intros Hr Hs Hl. destruct (regs_parts _ _ Hr) as [Hd _]. destruct (wide_size d (size s) Hd) as [Hw Hn]; [lia .. |].
  unfold movzx_rr. rewrite (proj2 (Z.ltb_lt _ _) Hl), Hw. destruct Hs as [E | E]; rewrite E in *; cbn [Z.eqb Pos.eqb orb]; unfold pick; cbn [Z.eqb Pos.eqb]; by_form enc_rr true.
  all: rewrite <- E in *; operands.
Qed.
Lemma movsx_rr_encodes s d : regs_ok d s = true -> size s < size d -> (size s = 4 -> size d = 8) -> encodes (movsx_rr s d) (IMovsx (size s) (Reg d) (Reg s)).
Proof.
  intros Hr Hl H4. destruct (regs_parts _ _ Hr) as [Hd Hs']. pose proof (reg_sizes s Hs') as Hs. destruct (wide_size d (size s) Hd) as [Hw Hn]; [lia .. |].
  pose proof (reg_sizes d Hd) as Hd4.
  unfold movsx_rr. rewrite (proj2 (Z.ltb_lt _ _) Hl), Hw. unfold movsx_opcode.
  destruct Hs as [E | [E | [E | E]]]; [.. | lia]; try rewrite (H4 E); rewrite E in *; cbn [Z.eqb Pos.eqb orb negb]; by_form enc_rr true.
  all: rewrite <- E in *; operands.
Qed.

(** ** A register and memory *)

Lemma alu_rm_encodes o s m : 0 <= o < 8 -> reg_mem_ok s m = true -> encodes (alu_rm o s m) (IAlu o (size s) (Mem m) (Reg s)).
Proof. intros Ho Hr. unfold alu_rm. by_size (size s); [each_alu Ho; by_form enc_rm false | each_alu Ho; by_form enc_rm true]. Qed.
Lemma alu_mr_encodes o m d : 0 <= o < 8 -> reg_mem_ok d m = true -> encodes (alu_mr o m d) (IAlu o (size d) (Reg d) (Mem m)).
Proof. intros Ho Hr. unfold alu_mr. by_size (size d); [each_alu Ho; by_form enc_rm false | each_alu Ho; by_form enc_rm true]. Qed.
Lemma mov_rm_encodes s m : reg_mem_ok s m = true -> encodes (mov_rm s m) (IMov (size s) (Mem m) (Reg s)).
Proof. intros Hr. unfold mov_rm. by_size (size s); [by_form enc_rm false | by_form enc_rm true]. Qed.
Lemma mov_mr_encodes m d : reg_mem_ok d m = true -> encodes (mov_mr m d) (IMov (size d) (Reg d) (Mem m)).
Proof. intros Hr. unfold mov_mr. by_size (size d); [by_form enc_rm false | by_form enc_rm true]. Qed.
Lemma lea_encodes m d : reg_mem_ok d m = true -> size d <> 1 -> encodes (lea m d) (ILea (meaning_reg d) (meaning_mem m)).
Proof. intros Hr Hn. unfold lea. by_form enc_rm true. Qed.
Lemma reg_mem_reg d m : reg_mem_ok d m = true -> reg_ok d = true.
Proof. unfold reg_mem_ok. rewrite !andb_true_iff. tauto. Qed.
Lemma movzx_mr_encodes sz m d : reg_mem_ok d m = true -> sz = 1 \/ sz = 2 -> sz < size d -> encodes (movzx_mr sz m d) (IMovzx sz (Reg d) (Mem m)).
Proof.
  intros Hr Hs Hl. destruct (wide_size d sz (reg_mem_reg _ _ Hr)) as [Hw Hn]; [lia .. |].
  unfold movzx_mr. rewrite (proj2 (Z.ltb_lt _ _) Hl), Hw. destruct Hs as [-> | ->]; cbn [Z.eqb Pos.eqb orb]; unfold pick; cbn [Z.eqb Pos.eqb]; by_form enc_rm true.
Qed.
Lemma movsx_mr_encodes sz m d : reg_mem_ok d m = true -> sz = 1 \/ sz = 2 \/ sz = 4 -> sz < size d -> encodes (movsx_mr sz m d) (IMovsx sz (Reg d) (Mem m)).
Proof.
  intros Hr Hs Hl. pose proof (reg_mem_reg _ _ Hr) as Hd. destruct (wide_size d sz Hd) as [Hw Hn]; [lia .. |].
  assert (negb (sz =? 4) || (size d =? 8) = true) as E.
  { pose proof (reg_sizes d Hd). destruct (Z.eqb_spec sz 4), (Z.eqb_spec (size d) 8); cbn; lia. }
  unfold movsx_mr. rewrite (proj2 (Z.ltb_lt _ _) Hl), Hw, E. unfold movsx_opcode.
  destruct Hs as [-> | [-> | ->]]; cbn [Z.eqb Pos.eqb orb]; by_form enc_rm true.
Qed.

(** ** Immediate values *)

Lemma imm_for_bytes sz n imm rest :
  sz = 1 /\ n = 1%nat \/ sz = 2 /\ n = 2%nat \/ sz = 4 /\ n = 4%nat \/ sz = 8 /\ n = 4%nat ->
  imm_for sz (le_bytes n imm ++ rest) = Some (imm_value sz imm, rest).
Proof.
  intros H. unfold imm_for, imm_value. replace (Z.to_nat (Z.min sz 4)) with n by lia. rewrite parse_imm_bytes.
  replace (8 * Z.min sz 4) with (8 * Z.of_nat n) by lia. rewrite sext_mod by lia. do 2 f_equal.
  destruct H as [(-> & ->) | [(-> & ->) | [(-> & ->) | (-> & ->)]]]; [.. | reflexivity]; cbn [Z.of_nat Pos.of_succ_nat Pos.succ Z.mul Pos.mul];
    now rewrite !wrap_sext_le by lia.
Qed.
Lemma sext_congr w a b : wrap w a = wrap w b -> sext w a = sext w b.
Proof. unfold sext. now intros ->. Qed.
Lemma imm8_small imm : -128 <= sext 32 imm < 128 -> sext 8 imm = sext 32 imm.
Proof.
  intros H. rewrite <- (sext_id 8 (sext 32 imm)) by (cbn; lia). apply sext_congr. now rewrite wrap_sext_le by lia.
Qed.
Lemma imm8_for_bytes sz imm rest : -128 <= sext 32 imm < 128 -> imm8_for sz (le_bytes 1 imm ++ rest) = Some (imm_value sz imm, rest).
Proof.
  intros H. unfold imm8_for, imm_value. rewrite parse_imm_bytes. change (8 * Z.of_nat 1) with 8. rewrite sext_mod, imm8_small by lia. reflexivity.
Qed.
Lemma low_byte imm : le_bytes 1 (Z.land imm 0xff) = le_bytes 1 imm.
Proof. cbn [le_bytes]. change 0xff with (Z.ones 8). rewrite Z.land_ones by lia. change (2 ^ 8) with 256. now rewrite Z.mod_mod by lia. Qed.
Lemma sext_nonneg imm : 0 <= imm < 2 ^ 31 -> sext 32 imm = imm.
Proof. intros H. apply sext_id; cbn in *; lia. Qed.
Lemma emits_low_byte imm : emits (emit8 (Z.land imm 0xff)) (le_bytes 1 imm).
Proof. rewrite <- low_byte. apply emits_8. Qed.
Lemma opsize_cases p rex : opsize p rex = 2 \/ opsize p rex = 4 \/ opsize p rex = 8.
Proof. unfold opsize. destruct (_ =? 1), (p_66 p); tauto. Qed.

#[local] Hint Resolve emits_low_byte imm8_for_bytes : x86.
Ltac imm_size := intros; unfold osz in *; cbn [Z.odd] in *;
  repeat match goal with H : osz_of ?b ?p ?rex = _ |- context [osz_of ?b ?p ?rex] => rewrite H end.
Lemma arithmetic_ir_encodes o imm d :
  0 <= o < 8 -> 0 <= imm < 2 ^ 32 -> reg_ok d = true -> encodes (arithmetic_ir o imm d) (IAlu o (size d) (Reg d) (Imm (size d) imm)).
Proof.
  intros Ho Hi Hr. pose proof (reg_sizes d Hr) as Hs. pose proof (Z.mod_small o 8 Ho) as Hmod. unfold arithmetic_ir. destruct (Z.eqb_spec (size d) 1) as [E | E].
  { eapply enc_or_imm with (wide := false); try reflexivity; try assumption; auto with x86; [| operands; now rewrite Hmod].
    imm_size. apply imm_for_bytes. lia. }
  destruct (Z.ltb_spec imm 128).
  { eapply enc_or_imm with (wide := true); try reflexivity; try assumption; auto with x86; [| operands; now rewrite Hmod].
    imm_size. apply imm8_for_bytes. rewrite sext_nonneg by lia. lia. }
  destruct ((sext 32 imm <? 0) && (-127 <? sext 32 imm)) eqn:En.
  { rewrite andb_true_iff, !Z.ltb_lt in En.
    eapply enc_or_imm with (wide := true); try reflexivity; try assumption; auto with x86; [| operands; now rewrite Hmod].
    imm_size. apply imm8_for_bytes. lia. }
  destruct Hs as [Hs | [Hs | [Hs | Hs]]]; [lia | rewrite Hs; cbn [Z.eqb Pos.eqb orb when] ..].
  all: eapply enc_or_imm with (wide := true); try reflexivity; try assumption; auto with x86; [imm_size | operands; rewrite Hmod, ?Hs; reflexivity].
  all: rewrite Hs; apply imm_for_bytes; lia.
Qed.
Ltac sizes H := unfold valid_size in H; rewrite !orb_true_iff, !Z.eqb_eq in H.
Lemma arithmetic_im_encodes o imm sz m :
  0 <= o < 8 -> 0 <= imm < 2 ^ 32 -> valid_size sz = true -> plain_mem m = true -> encodes (arithmetic_im o imm sz m) (IAlu o sz (Mem m) (Imm sz imm)).
Proof.
  intros Ho Hi Hs Hm. pose proof Hs as Hv. sizes Hs. pose proof (Z.mod_small o 8 Ho) as Hmod. unfold arithmetic_im. destruct (Z.eqb_spec sz 1) as [E | E].
  { eapply enc_om_imm with (wide := false); try reflexivity; try assumption; auto with x86; [| operands; now rewrite Hmod].
    imm_size. apply imm_for_bytes. lia. }
  destruct (Z.ltb_spec imm 128).
  { eapply enc_om_imm with (wide := true); try reflexivity; try assumption; auto with x86; [| operands; now rewrite Hmod].
    imm_size. apply imm8_for_bytes. rewrite sext_nonneg by lia. lia. }
  destruct Hs as [[[-> | ->] | ->] | ->]; [lia | cbn [Z.eqb Pos.eqb orb when] ..].
  all: eapply enc_om_imm with (wide := true); try reflexivity; try assumption; auto with x86; [imm_size | operands; rewrite Hmod; reflexivity].
  all: apply imm_for_bytes; lia.
Qed.
Lemma short_im_encodes o imm sz m :
  0 <= o < 8 -> 0 <= imm < 2 ^ 32 -> sz = 4 \/ sz = 8 \/ (sz = 2 /\ imm < 127) -> plain_mem m = true -> encodes (short_im o imm sz m) (IAlu o sz (Mem m) (Imm sz imm)).
Proof.
  intros Ho Hi Hs Hm. pose proof (Z.mod_small o 8 Ho) as Hmod. assert (valid_size sz = true) as Hv by (destruct Hs as [-> | [-> | [-> _]]]; reflexivity).
  unfold short_im. assert (sz <> 1) by lia. destruct (Z.ltb_spec imm 127).
  - eapply enc_om_imm with (wide := true); try reflexivity; try assumption; auto with x86; [| operands; now rewrite Hmod].
    imm_size. apply imm8_for_bytes. rewrite sext_nonneg by lia. lia.
  - eapply enc_om_imm with (wide := true); try reflexivity; try assumption; auto with x86; [imm_size | operands; now rewrite Hmod].
    apply imm_for_bytes. lia.
Qed.
Lemma cmp8_encodes imm m : 0 <= imm < 0x80 -> plain_mem m = true -> encodes (cmp8 imm m) (IAlu 7 8 (Mem m) (Imm 8 imm)).
Proof.
  intros Hi Hm. unfold cmp8. rewrite (proj2 (Z.ltb_lt _ _)) by lia.
  eapply enc_om_imm with (wide := true); try reflexivity; try assumption; auto with x86; try lia; [| operands].
  imm_size. apply imm8_for_bytes. rewrite sext_nonneg by lia. lia.
Qed.
(** Values stored in memory, of the width of the destination. *)
Lemma imm_value_wrap sz v : sz = 1 \/ sz = 2 \/ sz = 4 -> imm_value sz v = wrap (8 * sz) v.
Proof. intros H. unfold imm_value. apply wrap_sext_le. lia. Qed.
Lemma mov_im_encodes sz n immc v m :
  sz = 1 /\ n = 1%nat \/ sz = 2 /\ n = 2%nat \/ sz = 4 /\ n = 4%nat -> emits immc (le_bytes n v) -> plain_mem m = true ->
  encodes (append (opcode_om (pick sz 0xc6 0xc7) 0 sz m) immc) (IMov sz (Mem m) (OImm (wrap (8 * sz) v))).
Proof.
  intros Hs He Hm. rewrite <- imm_value_wrap by lia. destruct Hs as [(-> & ->) | [(-> & ->) | (-> & ->)]]; unfold pick; cbn [Z.eqb Pos.eqb].
  1: eapply enc_om_imm with (wide := false) (ib := le_bytes 1 v); try reflexivity; try assumption; auto with x86; try lia; try (imm_size; apply imm_for_bytes; lia); operands.
  1: eapply enc_om_imm with (wide := true) (ib := le_bytes 2 v); try reflexivity; try assumption; auto with x86; try lia; try (imm_size; apply imm_for_bytes; lia); operands.
  all: eapply enc_om_imm with (wide := true) (ib := le_bytes 4 v); try reflexivity; try assumption; auto with x86; try lia; try (imm_size; apply imm_for_bytes; lia); operands.
Qed.
Lemma byte_parsed n rest : 0 <= n < 256 -> parse_imm 1 (le_bytes 1 n ++ rest) = Some (n, rest).
Proof. intros H. rewrite parse_imm_bytes. cbn [Z.of_nat Pos.of_succ_nat]. now rewrite Z.mod_small by (cbn; lia). Qed.
Lemma shift_ir_encodes o n d : 0 <= o < 8 -> 0 <= n < 256 -> reg_ok d = true -> encodes (shift_ir o n d) (IShift o (size d) (Reg d) (OImm n)).
Proof.
  intros Ho Hn Hr. pose proof (Z.mod_small o 8 Ho) as Hmod. unfold shift_ir. by_size (size d).
  - eapply enc_or_imm with (wide := false); try reflexivity; try assumption; auto with x86; [intros; now apply byte_parsed | operands; now rewrite Hmod].
  - eapply enc_or_imm with (wide := true); try reflexivity; try assumption; auto with x86; [intros; now apply byte_parsed | operands; now rewrite Hmod].
Qed.
Lemma shift_one_ir_encodes o n d : 0 <= o < 8 -> 0 <= n < 256 -> reg_ok d = true -> encodes (shift_one_ir o n d) (IShift o (size d) (Reg d) (OImm n)).
Proof.
  intros Ho Hn Hr. pose proof (Z.mod_small o 8 Ho) as Hmod. unfold shift_one_ir. destruct (Z.eqb_spec n 1) as [-> | _]; [| now apply shift_ir_encodes].
  by_size (size d).
  - eapply enc_or with (wide := false); try reflexivity; try assumption; auto with x86. operands. now rewrite Hmod.
  - eapply enc_or with (wide := true); try reflexivity; try assumption; auto with x86. operands. now rewrite Hmod.
Qed.
Lemma shift_im_encodes o n sz m : 0 <= o < 8 -> 0 <= n < 256 -> valid_size sz = true -> plain_mem m = true -> encodes (shift_im o n sz m) (IShift o sz (Mem m) (OImm n)).
Proof.
  intros Ho Hn Hv Hm. pose proof (Z.mod_small o 8 Ho) as Hmod. unfold shift_im. by_size sz.
  - eapply enc_om_imm with (wide := false); try reflexivity; try assumption; auto with x86; [intros; now apply byte_parsed | operands; now rewrite Hmod].
  - eapply enc_om_imm with (wide := true); try reflexivity; try assumption; auto with x86; [intros; now apply byte_parsed | operands; now rewrite Hmod].
Qed.
Lemma shift_rr_encodes o d : 0 <= o < 8 -> reg_ok d = true -> encodes (shift_rr o REG_CL d) (IShift o (size d) (Reg d) OCL).
Proof.
  intros Ho Hr. pose proof (Z.mod_small o 8 Ho) as Hmod. unfold shift_rr. change (reg_eqb REG_CL REG_CL) with true. cbn match. by_size (size d).
  - eapply enc_or with (wide := false); try reflexivity; try assumption; auto with x86. operands. now rewrite Hmod.
  - eapply enc_or with (wide := true); try reflexivity; try assumption; auto with x86. operands. now rewrite Hmod.
Qed.

(** ** One operand *)

Lemma dispatch_group3 p rex (b : bool) bs :
  dispatch p rex (if b then 0xf7 else 0xf6) bs =
  let sz := osz_of b p rex in
  match parse_modrm p rex bs with
  | Some (reg, x, r) =>
      if reg mod 8 <? 2 then with_imm (imm_for sz r) (fun v => ITest sz (rm_opnd sz rex x) (OImm v))
      else Some (IGroup3 (reg mod 8) sz (rm_opnd sz rex x), r)
  | None => None
  end.
Proof. destruct b; reflexivity. Qed.
Lemma group3_dispatch p rex (b : bool) mb reg x i tail :
  reads_as p rex mb reg x -> 2 <= reg mod 8 -> i = IGroup3 (reg mod 8) (osz_of b p rex) (rm_opnd (osz_of b p rex) rex x) ->
  dispatch p rex (if b then 0xf7 else 0xf6) (mb ++ tail) = Some (i, tail).
Proof. intros H Hr ->. rewrite dispatch_group3, H, (proj2 (Z.ltb_ge _ _) Hr). reflexivity. Qed.
Lemma group3_encodes (b : bool) o r :
  2 <= o < 8 -> reg_ok r = true -> b = negb (size r =? 1) -> encodes (opcode_or (if b then 0xf7 else 0xf6) o r) (IGroup3 o (size r) (Reg r)).
Proof.
  intros Ho Hr Hb. apply encodes_skip. destruct (header_or (if b then 0xf7 else 0xf6) o r) as (p & rex & Hh & G & Hs); [now destruct b | lia | assumption |].
  pose proof (osz_known b p rex (size r) Hb Hs) as Hw. pose proof (Z.mod_small o 8 ltac:(lia)) as Hmod.
  eapply encodes_header_any; [exact Hh | exists []; split; reflexivity |]. intros mb rest Hm.
  eapply group3_dispatch; [exact Hm | rewrite Hmod; lia |]. rewrite Hmod, Hw. cbn [rm_opnd]. now rewrite G.
Qed.
Lemma test_dispatch p rex (b : bool) mb x i v ib tail :
  reads_as p rex mb 0 x -> imm_for (osz_of b p rex) (ib ++ tail) = Some (v, tail) -> i = ITest (osz_of b p rex) (rm_opnd (osz_of b p rex) rex x) (OImm v) ->
  dispatch p rex (if b then 0xf7 else 0xf6) (mb ++ ib ++ tail) = Some (i, tail).
Proof. intros H Hi ->. rewrite dispatch_group3, H. cbv zeta. change (0 mod 8 <? 2) with true. cbn match. rewrite Hi. reflexivity. Qed.
Lemma test_ir_encodes imm d : 0 <= imm < 2 ^ 32 -> reg_ok d = true -> size d <> 8 -> encodes (test_ir imm d) (ITest (size d) (Reg d) (Imm (size d) imm)).
Proof.
  intros Hi Hr Hn. unfold test_ir. set (b := negb (size d =? 1)).
  replace (pick (size d) 0xf6 0xf7) with (if b then 0xf7 else 0xf6) by (unfold b, pick; now destruct (size d =? 1)).
  destruct (header_or (if b then 0xf7 else 0xf6) 0 d) as (p & rex & Hh & G & Hs); [now destruct b | lia | assumption |].
  pose proof (osz_known b p rex (size d) eq_refl Hs) as Hw.
  destruct (reg_sizes d Hr) as [E | [E | [E | E]]]; [.. | congruence]; rewrite E; cbn [Z.eqb Pos.eqb].
  all: eapply encodes_header_any; [exact Hh | auto with x86 |]; intros mb rest Hm; eapply test_dispatch; [exact Hm | rewrite Hw, E; apply imm_for_bytes; lia |].
  all: rewrite Hw; cbn [rm_opnd]; rewrite G, E; reflexivity.
Qed.
Lemma test4_encodes imm m : 0 <= imm < 2 ^ 32 -> plain_mem m = true -> encodes (test4 imm m) (ITest 4 (Mem m) (Imm 4 imm)).
Proof.
  intros Hi Hm. unfold test4. destruct (header_om 0xf7 0 4 m) as (p & rex & Hh & Hs); [reflexivity | lia | reflexivity | assumption |].
  pose proof (osz_known true p rex 4 eq_refl Hs) as Hw.
  eapply encodes_header_any; [exact Hh | auto with x86 |]. intros mb rest Hr.
  eapply (test_dispatch p rex true); [exact Hr | rewrite Hw; apply imm_for_bytes; lia |]. now rewrite Hw.
Qed.
Lemma incq_encodes m : plain_mem m = true -> encodes (incq m) (IInc 8 (Mem m)).
Proof. intros Hm. unfold incq. eapply enc_om with (wide := true); try reflexivity; try assumption; try lia; operands. Qed.
Lemma invlpg_encodes m : plain_mem m = true -> encodes (invlpg m) (IInvlpg (meaning_mem m)).
Proof. intros Hm. unfold invlpg. eapply enc_om with (wide := true); try reflexivity; try assumption; try lia; operands. Qed.

(** ** Without the general form *)

Ltac emit_parts := repeat apply emits_append; auto with x86; try (apply emits_byte; cbn; lia).
Lemma simple_parts m : simple_mem m = true -> plain_mem m = true /\ size (base m) = 8.
Proof. unfold simple_mem. rewrite andb_true_iff, Z.eqb_eq. tauto. Qed.
Lemma bytes_nil : emits skip [].
Proof. exists []. split; reflexivity. Qed.
#[local] Hint Resolve bytes_nil : x86.

Lemma far_mem_encodes oper m i :
  simple_mem m = true -> hireg (base m) = false -> oper = 2 /\ i = ICall (Mem m) \/ oper = 4 /\ i = IJmp (Mem m) ->
  encodes (append (emit8 0xff) (mod_reg_rm_m oper m)) i.
Proof.
  intros Hm Hb Hi. apply simple_parts in Hm as [Hm H8].
  eapply encodes_header; [eapply (header_m _ 0xff oper m); [reflexivity | lia | assumption .. |] | reflexivity |].
  - intros mb He. unfold rexb_of. rewrite Hb. cbn [flag rex_bytes Z.eqb app]. apply (emits_append _ _ [0xff] mb); [apply emits_byte; lia | exact He].
  - destruct Hi as [(-> & ->) | (-> & ->)]; reflexivity.
Qed.
Lemma nop_m_encodes m : simple_mem m = true -> hireg (base m) = false -> encodes (nop_m m) (INopMem (meaning_mem m)).
Proof.
  intros Hm Hb. apply simple_parts in Hm as [Hm H8].
  eapply encodes_header; [eapply (header_m _ 0x11f 0 m); [reflexivity | lia | assumption .. |] | reflexivity | reflexivity].
  intros mb He. unfold rexb_of. rewrite Hb. cbn [flag rex_bytes Z.eqb app].
  apply (emits_append _ _ [0x0f] (0x1f :: mb)); [apply emits_byte; lia |]. apply (emits_append _ _ [0x1f] mb); [apply emits_byte; lia | exact He].
Qed.
Lemma setcc_m_encodes cc m : 0 <= cc < 16 -> simple_mem m = true -> encodes (setcc_m cc m) (ISetcc cc (Mem m)).
Proof.
  intros Hc Hm. apply simple_parts in Hm as [Hm H8].
  eapply encodes_header; [eapply (header_m _ (0x190 + cc) 0 m); [| lia | assumption .. |] | |].
  - unfold opcode_ok. rewrite !(proj2 (Z.ltb_lt _ _)) by lia. reflexivity.
  - intros mb He. unfold setcc_m, rexb_of, opcode_bytes. rewrite (proj2 (Z.ltb_lt 0x100 _)) by lia.
    replace (0x190 + cc - 0x100) with (Z.lor 0x90 (Z.land cc 0xf)) by (each_cc Hc; reflexivity).
    apply emits_append.
    { destruct (hireg (base m)); cbn; [apply emits_byte; unfold REX_B; lia | apply bytes_nil]. }
    apply (emits_append _ _ [0x0f] (Z.lor 0x90 (Z.land cc 0xf) :: mb)); [apply emits_byte; lia |].
    apply (emits_append _ _ [_] mb); [apply emits_byte; each_cc Hc; vm_compute; split; congruence | exact He].
  - each_cc Hc; reflexivity.
  - each_cc Hc; reflexivity.
Qed.

(** Registers in the opcode byte, and other instructions that list their
    bytes: one case for each register. *)
Lemma reg_ok_ind (P : X86Register -> Prop) : Forall P all_regs -> forall r, reg_ok r = true -> P r.
Proof.
  intros HP r H. unfold reg_ok in H. apply existsb_exists in H as (x & Hin & E). apply reg_eqb_eq in E as ->.
  rewrite List.Forall_forall in HP. now apply HP.
Qed.
Ltac each_reg H r := pattern r; apply (fun P C => reg_ok_ind P C r H); unfold all_regs, low_regs, high_regs, new_regs; cbn [map app]; repeat (apply List.Forall_cons); [.. | apply List.Forall_nil]; intros; try discriminate; cbn [size hireg] in *; try lia.
Ltac by_bytes := eexists; split; [eexists; split; reflexivity | intros; reflexivity].
Lemma push_encodes r : reg_ok r = true -> size r = 8 -> encodes (push_r r) (IPush (num r)).
Proof. intros H. each_reg H r; by_bytes. Qed.
Lemma pop_encodes r : reg_ok r = true -> size r = 8 -> encodes (pop r) (IPop (num r)).
Proof. intros H. each_reg H r; by_bytes. Qed.
Lemma call_r_encodes r : reg_ok r = true -> size r = 8 -> encodes (call_r r) (ICall (Reg r)).
Proof. intros H. each_reg H r; by_bytes. Qed.
Lemma jmp_r_encodes r : reg_ok r = true -> size r = 8 -> encodes (jmp_r r) (IJmp (Reg r)).
Proof. intros H. each_reg H r; by_bytes. Qed.
Lemma bswap_encodes r : reg_ok r = true -> size r = 4 \/ size r = 8 -> encodes (bswap r) (IBswap (size r) (num r)).
Proof. intros H. each_reg H r; by_bytes. Qed.
Lemma movcs_encodes r : reg_ok r = true -> size r = 2 -> hireg r = false -> encodes (movcs r) (IMovSeg 1 (Reg r)).
Proof. intros H. each_reg H r; by_bytes. Qed.
Lemma setcc_r_encodes cc r : 0 <= cc < 16 -> reg_ok r = true -> size r = 1 -> encodes (setcc_r cc r) (ISetcc cc (Reg r)).
Proof. intros Hc H Hs. revert cc Hc Hs. each_reg H r; (each_cc Hc; by_bytes). Qed.
Lemma plain_encodes c i : In (c, i) plain_methods -> encodes c i.
Proof. intros H. cbn [In plain_methods] in H. repeat (destruct H as [[= <- <-] | H]; [by_bytes |]). contradiction. Qed.

(** ** Immediate values and offsets without a ModRM byte *)

Lemma dispatch_mov_wide p rex k bs : 0 <= k < 8 ->
  dispatch p rex (0xb8 + k) bs = with_imm (parse_imm (Z.to_nat (opsize p rex)) bs) (fun v => IMovImm (R (k + 8 * rex_bit rex 0) (if opsize p rex =? 2 then 2 else 8)) v).
Proof. intros H. each_alu H; reflexivity. Qed.
Lemma dispatch_mov_byte p rex k bs : 0 <= k < 8 ->
  dispatch p rex (0xb0 + k) bs = with_imm (parse_imm 1 bs) (fun v => IMovImm (gpr_of 1 rex (k + 8 * rex_bit rex 0)) v).
Proof. intros H. each_alu H; reflexivity. Qed.
Lemma mov_opcode_ok k : 0 <= k < 8 -> opcode_ok (0xb8 + k) = true /\ opcode_ok (0xb0 + k) = true.
Proof. intros H. each_alu H; split; reflexivity. Qed.
Lemma mov_opcode_bytes o k : o = 0xb8 \/ o = 0xb0 -> 0 <= k < 8 -> emits (emit8 (o + k)) (opcode_bytes (o + k)).
Proof. intros Ho H. unfold opcode_bytes. rewrite (proj2 (Z.ltb_ge _ _)) by lia. apply emits_byte. lia. Qed.

Lemma mov_wide_encodes sz h k n v immc :
  sz = 2 \/ sz = 4 \/ sz = 8 -> 0 <= k < 8 -> n = Z.to_nat sz -> emits immc (le_bytes n v) ->
  encodes (append (when (sz =? 2) (emit8 OPER_SIZE_OVERRIDE)) (append (emit_rex (Z.lor (flag h REX_B) (flag (sz =? 8) REX_W))) (append (emit8 (0xb8 + k)) immc)))
    (IMovImm (R (k + 8 * Z.b2z h) (if sz =? 2 then 2 else 8)) (wrap (8 * sz) v)).
Proof.
  intros Hs Hk Hn He. eapply (encodes_plain _ (size_prefix sz) (Z.lor (flag h REX_B) (flag (sz =? 8) REX_W)) (0xb8 + k) (le_bytes n v)).
  - repeat apply emits_append; auto with x86; [| now apply mov_opcode_bytes; [left |]].
    apply emits_rex; destruct h, (sz =? 8); vm_compute; congruence.
  - apply size_prefix_ok.
  - destruct h, (sz =? 8); reflexivity.
  - now apply mov_opcode_ok.
  - intros rest. rewrite dispatch_mov_wide by assumption.
    assert (opsize (prefixes_of (size_prefix sz)) (rex_opt (Z.lor (flag h REX_B) (flag (sz =? 8) REX_W))) = sz) as ->
      by (destruct Hs as [-> | [-> | ->]]; destruct h; reflexivity).
    rewrite <- Hn, parse_imm_bytes. unfold with_imm. unfold wrap.
    replace (rex_bit (rex_opt (Z.lor (flag h REX_B) (flag (sz =? 8) REX_W))) 0) with (Z.b2z h) by (destruct h, (sz =? 8); reflexivity).
    replace (8 * Z.of_nat n) with (8 * sz) by lia. reflexivity.
Qed.
Lemma mov_byte_encodes v d : reg_ok d = true -> size d = 1 ->
  encodes (append (emit_rex (if newreg d then REX else flag (hireg d) REX_B)) (append (emit8 (0xb0 + raw_index d)) (emit8 v))) (IMovImm (meaning_reg d) (wrap 8 v)).
Proof.
  intros Hr E. pose proof (reg_range _ Hr) as Hk. set (rexb := if newreg d then REX else flag (hireg d) REX_B).
  eapply (encodes_plain _ [] rexb (0xb0 + raw_index d) (le_bytes 1 v)).
  - cbn [app]. repeat apply emits_append; auto with x86; [| now apply mov_opcode_bytes; [right |]].
    apply emits_rex; unfold rexb; destruct (newreg d), (hireg d); vm_compute; congruence.
  - reflexivity.
  - unfold rexb. destruct (newreg d), (hireg d); reflexivity.
  - now apply mov_opcode_ok.
  - intros rest. rewrite dispatch_mov_byte by assumption. rewrite parse_imm_bytes. unfold with_imm. do 3 f_equal.
    unfold rexb. clear rexb Hk. revert E. each_reg Hr d; reflexivity.
Qed.
Lemma meaning_wide d : reg_ok d = true -> size d <> 1 -> meaning_reg d = R (num d) (size d).
Proof. intros _ H. unfold meaning_reg, highbyte. now rewrite (proj2 (Z.eqb_neq _ _) H). Qed.
Lemma mov_ir_encodes v d : 0 <= v < 2 ^ 64 -> reg_ok d = true ->
  encodes (mov_ir v d) (IMovImm (if size d =? 4 then R (num d) 8 else meaning_reg d) (wrap (8 * size d) v)).
Proof.
  intros Hv Hr. pose proof (reg_range _ Hr) as Hk. unfold mov_ir, num.
  destruct (reg_sizes d Hr) as [E | [E | [E | E]]]; [| rewrite meaning_wide by (assumption || lia) ..]; rewrite E; cbn [Z.eqb Pos.eqb andb].
  - now apply mov_byte_encodes.
  - apply (mov_wide_encodes 2 (hireg d) (raw_index d) 2 v); [lia .. | apply emits_16].
  - apply (mov_wide_encodes 4 (hireg d) (raw_index d) 4 v); [lia .. | apply emits_32].
  - destruct (Z.ltb_spec v 0x80000000) as [Hl | Hl]; cbv zeta; cbn [Z.eqb Pos.eqb].
    + replace (wrap (8 * 8) v) with (wrap (8 * 4) v) by (unfold wrap; rewrite !Z.mod_small by lia; reflexivity).
      apply (mov_wide_encodes 4 (hireg d) (raw_index d) 4 v); [lia .. | apply emits_32].
    + apply (mov_wide_encodes 8 (hireg d) (raw_index d) 8 v); [lia .. | apply emits_64].
Qed.

Lemma offset_encodes (n : nat) opc c off i :
  (0 < n)%nat -> - 2 ^ (8 * Z.of_nat n - 1) <= off < 2 ^ (8 * Z.of_nat n - 1) -> opcode_ok opc = true -> emits c (opcode_bytes opc ++ le_bytes n off) ->
  (forall bs, dispatch no_prefixes None opc bs = with_imm (parse_disp n bs) i) -> encodes c (i off).
Proof.
  intros Hn Hr Ho He Hd. eapply (encodes_plain _ [] 0 opc (le_bytes n off)); [exact He | reflexivity .. | assumption |].
  intros rest. change (dispatch _ _ opc (le_bytes n off ++ rest)) with (dispatch no_prefixes None opc (le_bytes n off ++ rest)).
  rewrite Hd, parse_disp_bytes, sext_id by lia. reflexivity.
Qed.
Ltac offset n opc := eapply (offset_encodes n opc); [lia | cbn; lia | reflexivity | | reflexivity].
Lemma emits_pair b o v (n : nat) c : 0 <= b < 256 -> 0 <= o < 256 -> emits c (le_bytes n v) -> emits (append (emit8 b) (append (emit8 o) c)) ([b; o] ++ le_bytes n v).
Proof. intros Hb Ho H. apply (emits_append _ _ [b] (o :: le_bytes n v)); [now apply emits_byte |]. apply (emits_append _ _ [o] (le_bytes n v)); [now apply emits_byte | assumption]. Qed.
Lemma call_near_encodes here t r : far true here t = false -> encodes (call_target true here t r) (ICallRel (t - here)).
Proof.
  intros H. unfold call_target. rewrite H. unfold far in H. cbn [negb orb] in H. apply orb_false_elim in H as [H1 H2]. apply Z.ltb_ge in H1, H2.
  offset 4%nat 0xe8. apply (emits_append _ _ [] ([0xe8] ++ le_bytes 4 (t - here))); [apply emits_ensure |].
  apply (emits_append _ _ [0xe8]); [apply emits_byte; lia | apply emits_32].
Qed.
Lemma jmp_offset_encodes off : - 2 ^ 31 <= off < 2 ^ 31 -> encodes (jmp_offset off) (IJmpRel off).
Proof. intros H. offset 4%nat 0xe9. apply (emits_append _ _ [0xe9]); [apply emits_byte; lia | apply emits_32]. Qed.
Lemma jmp_near_encodes here t r : far true here t = false -> encodes (jmp_target true here t r) (IJmpRel (t - here)).
Proof.
  intros H. unfold jmp_target. rewrite H. unfold far in H. cbn [negb orb] in H. apply orb_false_elim in H as [H1 H2]. apply Z.ltb_ge in H1, H2.
  offset 4%nat 0xe9. apply (emits_append _ _ [] ([0xe9] ++ le_bytes 4 (t - here))); [apply emits_ensure |].
  apply (emits_append _ _ [0xe9]); [apply emits_byte; lia | apply emits_32].
Qed.
Lemma jcc_encodes cc off : 0 <= cc < 16 -> - 2 ^ 31 <= off < 2 ^ 31 -> encodes (jcc cc off) (IJcc cc off).
Proof.
  intros Hc Ho. eapply (offset_encodes 4%nat (0x180 + cc)); [lia | cbn; lia | each_cc Hc; reflexivity | | each_cc Hc; reflexivity].
  unfold jcc. replace (opcode_bytes (0x180 + cc)) with [0x0f; Z.lor 0x80 (Z.land cc 0xf)] by (each_cc Hc; reflexivity).
  apply emits_pair; [lia | | apply emits_32]. each_cc Hc; vm_compute; split; congruence.
Qed.
Lemma jcc_short_encodes cc off : 0 <= cc < 16 -> -128 <= off < 128 -> encodes (jcc_short cc off) (IJcc cc off).
Proof.
  intros Hc Ho. eapply (offset_encodes 1%nat (0x70 + cc)); [lia | cbn; lia | each_cc Hc; reflexivity | | each_cc Hc; reflexivity].
  unfold jcc_short. replace (opcode_bytes (0x70 + cc)) with [Z.lor 0x70 (Z.land cc 0xf)] by (each_cc Hc; reflexivity).
  apply (emits_append _ _ [_]); [| apply emits_8]. apply emits_byte. each_cc Hc; vm_compute; split; congruence.
Qed.
Lemma push_i_encodes v : encodes (push_i v) (IPushImm (sext 32 v)).
Proof.
  eapply (encodes_plain _ [] 0 0x68 (le_bytes 4 v)); [| reflexivity .. |].
  - apply (emits_append _ _ [0x68]); [apply emits_byte; lia | apply emits_32].
  - intros rest. change (dispatch (prefixes_of []) (rex_opt 0) 0x68) with (fun bs => with_imm (parse_disp 4 bs) IPushImm). cbv beta.
    rewrite parse_disp_bytes by lia. reflexivity.
Qed.
Lemma intt_encodes n : 0 <= n < 256 -> encodes (intt n) (IInt n).
Proof.
  intros H. eapply (encodes_plain _ [] 0 0xcd (le_bytes 1 n)); [| reflexivity .. |].
  - apply (emits_append _ _ [0xcd]); [apply emits_byte; lia | apply emits_8].
  - intros rest. change (dispatch (prefixes_of []) (rex_opt 0) 0xcd) with (fun bs => with_imm (parse_imm 1 bs) IInt). cbv beta.
    rewrite byte_parsed by assumption. reflexivity.
Qed.

(** ** Vector registers *)

Lemma vec_range v : vec_ok v = true -> 0 <= vraw_index v < 8 /\ vsize v = 16.
Proof.
  intros H. unfold vec_ok in H. apply existsb_exists in H as (w & Hin & E). rewrite !andb_true_iff, !Z.eqb_eq in E. destruct E as ((<- & <-) & _).
  assert (forallb (fun w => (0 <=? vraw_index w) && (vraw_index w <? 8) && (vsize w =? 16)) vector_regs = true) as C by (vm_compute; reflexivity).
  rewrite forallb_forall in C. specialize (C w Hin). cbv beta in C. rewrite !andb_true_iff, Z.leb_le, Z.ltb_lt, Z.eqb_eq in C. tauto.
Qed.
Lemma header_regs c pre rexb opc a b :
  opcode_ok opc = true -> forallb is_prefix pre = true -> rex_ok rexb = true -> 0 <= a < 8 -> 0 <= b < 8 ->
  emits c (pre ++ rex_bytes rexb ++ opcode_bytes opc ++ [triple 3 a b]) ->
  header c (prefixes_of pre) (rex_opt rexb) opc (a + 8 * rex_bit (rex_opt rexb) 2) (RMReg (b + 8 * rex_bit (rex_opt rexb) 0)).
Proof.
  intros Ho Hp Hr Ha Hb He. split; [exact Ho |]. exists pre, rexb, [triple 3 a b]. repeat split; try assumption. now apply reads_reg.
Qed.
Definition opt_prefix (o : option Z) : list Z := match o with Some p => [p] | None => [] end.
Lemma header_vector pre opc s d :
  (forall p, pre = Some p -> is_prefix p = true) -> 0 <= opc < 256 -> opcode_ok (0x100 + opc) = true -> 0x100 < 0x100 + opc ->
  vec_ok s = true -> vec_ok d = true -> vhireg s = false -> vhireg d = false ->
  header (vector_op pre opc s d) (prefixes_of (opt_prefix pre)) None (0x100 + opc) (vnum d) (RMReg (vnum s)).
Proof.
  intros Hp Hopc Ho H1 Hs Hd Es Ed. destruct (vec_range s Hs) as [Rs _], (vec_range d Hd) as [Rd _].
  unfold vnum. rewrite Es, Ed. change (8 * Z.b2z false) with (8 * rex_bit (rex_opt 0) 0).
  change (vraw_index d + 8 * rex_bit (rex_opt 0) 0) with (vraw_index d + 8 * rex_bit (rex_opt 0) 2). change None with (rex_opt 0).
  apply header_regs; try assumption; try reflexivity.
  - destruct pre as [p |]; [| reflexivity]. cbn. now rewrite (Hp p eq_refl).
  - unfold vector_op, opcode_bytes. rewrite Es, Ed. cbn [negb andb rex_bytes Z.eqb]. rewrite (proj2 (Z.ltb_lt _ _) H1).
    replace (0x100 + opc - 0x100) with opc by lia. apply emits_append.
    + destruct pre as [p |]; [| apply bytes_nil]. apply emits_byte. specialize (Hp p eq_refl). unfold is_prefix in Hp. rewrite !orb_true_iff, !Z.eqb_eq in Hp. lia.
    + apply (emits_append _ _ [0x0f] [opc; _]); [apply emits_byte; lia |]. apply (emits_append _ _ [opc] [_]); [now apply emits_byte |]. apply emits_triple; lia.
Qed.
Lemma vector_encodes f pre opc s d :
  In (f, (pre, opc)) vector_methods -> vec_ok s = true -> vec_ok d = true -> vhireg s = false -> vhireg d = false -> encodes (f s d) (IVec pre opc (vnum d) (vnum s)).
Proof.
  intros H Hs Hd Es Ed. cbn [In vector_methods] in H.
  repeat (destruct H as [[= <- <- <-] | H];
    [eapply encodes_header; [apply header_vector; try assumption; try reflexivity; try lia; (intros ? [= <-]; reflexivity || discriminate) | reflexivity | reflexivity] |]).
  contradiction.
Qed.
Lemma vector_imm_encodes f pre s d n :
  In (f, pre) vector_imm_methods -> vec_ok s = true -> vec_ok d = true -> vhireg s = false -> vhireg d = false -> 0 <= n < 256 ->
  encodes (f s d n) (IVecImm (Some pre) 0xc2 (vnum d) (vnum s) n).
Proof.
  intros H Hs Hd Es Ed Hn. cbn [In vector_imm_methods] in H.
  repeat (destruct H as [[= <- <-] | H];
    [eapply encodes_header_imm with (immf := parse_imm 1); [apply header_vector; try assumption; try reflexivity; try lia; (intros ? [= <-]; reflexivity || discriminate) | reflexivity | apply emits_8 | intros; now apply byte_parsed | reflexivity] |]).
  contradiction.
Qed.

(** Between the two kinds of register: the REX byte of [encode_rex_prefix], which may be left out. *)
Definition cross_rex (b r w : bool) : Z := Z.lor (Z.lor (Z.lor (Z.lor 0x40 (flag b 1)) (flag false 2)) (flag r 4)) (flag w 8).
Lemma cross_rex_bits b r w :
  rex_ok (cross_rex b r w) = true /\ rex_bytes (cross_rex b r w) = [cross_rex b r w] /\ 0 <= cross_rex b r w < 256
  /\ rex_bit (rex_opt (cross_rex b r w)) 0 = Z.b2z b /\ rex_bit (rex_opt (cross_rex b r w)) 2 = Z.b2z r /\ rex_bit (rex_opt (cross_rex b r w)) 3 = Z.b2z w.
Proof. destruct b, r, w; vm_compute; repeat split; congruence. Qed.
(** [keep] tells when it is emitted; it must be where a bit is set. *)
Lemma header_cross c pre opc (keep b r w : bool) x y :
  is_prefix pre = true -> 0 <= opc < 256 -> opcode_ok (0x100 + opc) = true -> 0x100 < 0x100 + opc -> 0 <= x < 8 -> 0 <= y < 8 -> (keep = false -> b = false /\ r = false /\ w = false) ->
  emits c ([pre] ++ (if keep then [cross_rex b r w] else []) ++ [0x0f; opc; triple 3 x y]) ->
  exists rex, header c (prefixes_of [pre]) rex (0x100 + opc) (x + 8 * Z.b2z r) (RMReg (y + 8 * Z.b2z b)) /\ rex_bit rex 3 = Z.b2z w.
Proof.
  intros Hp Hopc Ho H1 Hx Hy Hk He. destruct (cross_rex_bits b r w) as (R1 & R2 & R3 & R4 & R5 & R6).
  assert (Hb : opcode_bytes (0x100 + opc) = [0x0f; opc]) by (unfold opcode_bytes; rewrite (proj2 (Z.ltb_lt _ _) H1); do 2 f_equal; lia).
  destruct keep.
  - exists (rex_opt (cross_rex b r w)). rewrite <- R4, <- R5. split; [| exact R6]. apply header_regs; try assumption.
    + cbn. now rewrite Hp.
    + rewrite R2, Hb. exact He.
  - destruct (Hk eq_refl) as (-> & -> & ->). exists (rex_opt 0). split; [| reflexivity].
    apply (header_regs c [pre] 0 (0x100 + opc) x y); try assumption; [cbn; now rewrite Hp | rewrite Hb; exact He].
Qed.
Lemma emits_cross c pre opc (keep : bool) rex mb :
  0 <= pre < 256 -> 0 <= opc < 256 -> 0 <= mb < 256 -> emits c (if keep then [rex] else []) ->
  emits (append (emit8 pre) (append c (append (emit8 0x0f) (append (emit8 opc) (emit8 mb))))) ([pre] ++ (if keep then [rex] else []) ++ [0x0f; opc; mb]).
Proof.
  intros Hp Ho Hm Hc. apply (emits_append _ _ [pre]); [now apply emits_byte |]. apply emits_append; [exact Hc |].
  apply (emits_append _ _ [0x0f] [opc; mb]); [apply emits_byte; lia |]. apply (emits_append _ _ [opc] [mb]); now apply emits_byte.
Qed.
Lemma emits_movq_rex b r w :
  emits (when (negb (movq_rex w b r =? 0x40)) (emit8 (movq_rex w b r))) (if b || r || w then [cross_rex b r w] else []).
Proof.
  replace (movq_rex w b r =? 0x40) with (negb (b || r || w)) by (destruct b, r, w; reflexivity). rewrite negb_involutive. apply emits_when. intros _.
  replace (movq_rex w b r) with (cross_rex b r w) by (destruct b, r, w; reflexivity). apply emits_byte, cross_rex_bits.
Qed.
Lemma opsize_cross pre rex sz : (pre =? 0x66) = false -> is_prefix pre = true -> sz = 4 \/ sz = 8 -> rex_bit rex 3 = Z.b2z (sz =? 8) -> opsize (prefixes_of [pre]) rex = sz.
Proof. intros H Hp Hs Hr. unfold opsize, prefixes_of, add_prefix. cbn [fold_left]. rewrite Hr, H. destruct Hs as [-> | ->]; [| reflexivity]. destruct (pre =? 0x67), (pre =? 0x65); reflexivity. Qed.
Lemma movq_rv_encodes s d : reg_ok s = true -> size s = 4 \/ size s = 8 -> vec_ok d = true -> encodes (movq_rv s d) (IMovGX (size s) (vnum d) (num s)).
Proof.
  intros Hs Hz Hd. destruct (vec_range d Hd) as [Rd Ed]. pose proof (reg_range s Hs) as Rs.
  destruct (header_cross (movq_rv s d) 0x66 0x6e (hireg s || vhireg d || (size s =? 8)) (hireg s) (vhireg d) (size s =? 8) (vraw_index d) (raw_index s)) as (rex & Hh & Hr); try reflexivity; try assumption; try lia.
  - rewrite !orb_false_iff. tauto.
  - unfold movq_rv. rewrite Ed. apply emits_cross; [lia .. | apply triple_fields; lia | apply emits_movq_rex].
  - eapply encodes_header; [exact Hh | reflexivity |]. unfold only_reg, opsize. rewrite Hr. destruct Hz as [-> | ->]; reflexivity.
Qed.
Lemma movq_vr_encodes s d : reg_ok d = true -> size d = 4 \/ size d = 8 -> vec_ok s = true -> encodes (movq_vr s d) (IMovXG (size d) (vnum s) (num d)).
Proof.
  intros Hs Hz Hd. destruct (vec_range s Hd) as [Rd Ed]. pose proof (reg_range d Hs) as Rs.
  destruct (header_cross (movq_vr s d) 0x66 0x7e (hireg d || vhireg s || (size d =? 8)) (hireg d) (vhireg s) (size d =? 8) (vraw_index s) (raw_index d)) as (rex & Hh & Hr); try reflexivity; try assumption; try lia.
  - rewrite !orb_false_iff. tauto.
  - unfold movq_vr. rewrite Ed. apply emits_cross; [lia .. | apply triple_fields; lia | apply emits_movq_rex].
  - eapply encodes_header; [exact Hh | reflexivity |]. unfold only_reg, opsize. rewrite Hr. destruct Hz as [-> | ->]; reflexivity.
Qed.
Lemma cvt_header c pre opc (keep b r w : bool) sz x y i :
  pre = 0xf2 \/ pre = 0xf3 -> opc = 0x2a \/ opc = 0x2c \/ opc = 0x2d -> w = (sz =? 8) -> sz = 4 \/ sz = 8 -> 0 <= x < 8 -> 0 <= y < 8 -> (keep = false -> b = false /\ r = false /\ w = false) ->
  emits c ([pre] ++ (if keep then [cross_rex b r w] else []) ++ [0x0f; opc; triple 3 x y]) ->
  i = (if opc =? 0x2a then ICvtFromInt pre sz (x + 8 * Z.b2z r) (y + 8 * Z.b2z b) else ICvtToInt pre opc sz (x + 8 * Z.b2z r) (y + 8 * Z.b2z b)) ->
  encodes c i.
Proof.
  intros Hp Ho Hw Hz Hx Hy Hk He Hi.
  destruct (header_cross c pre opc keep b r w x y) as (rex & Hh & Hr); try assumption; try lia.
  - destruct Hp as [-> | ->]; reflexivity.
  - destruct Ho as [-> | [-> | ->]]; reflexivity.
  - assert (Hs : opsize (prefixes_of [pre]) rex = sz) by (apply opsize_cross; [destruct Hp as [-> | ->]; reflexivity .. | assumption | now rewrite Hr, Hw]).
    destruct Hp as [-> | ->], Ho as [-> | [-> | ->]]; (eapply encodes_header; [exact Hh | reflexivity |]; unfold only_reg; rewrite Hs, Hi; reflexivity).
Qed.
Lemma cvt_to_int_encodes pre opc s d :
  pre = 0xf2 \/ pre = 0xf3 -> opc = 0x2c \/ opc = 0x2d -> vec_ok s = true -> reg_ok d = true -> size d = 4 \/ size d = 8 ->
  encodes (cvt_to_int pre opc s d) (ICvtToInt pre opc (size d) (num d) (vnum s)).
Proof.
  intros Hp Ho Hs Hd Hz. destruct (vec_range s Hs) as [Rs _]. pose proof (reg_range d Hd) as Rd.
  eapply (cvt_header _ pre opc ((size d =? 8) || hireg d || vhireg s) (vhireg s) (hireg d) (size d =? 8) (size d) (raw_index d) (vraw_index s));
    try reflexivity; try assumption; [lia | rewrite !orb_false_iff; tauto | | destruct Ho as [-> | ->]; reflexivity].
  unfold cvt_to_int. apply emits_cross; [lia .. | apply triple_fields; lia |].
  apply emits_when; intros _; apply emits_byte; apply cross_rex_bits.
Qed.
Lemma cvttss2si_encodes s d :
  vec_ok s = true -> reg_ok d = true -> size d = 4 \/ size d = 8 -> vhireg s = false -> hireg d = false ->
  encodes (cvttss2si s d) (ICvtToInt 0xf3 0x2c (size d) (num d) (vnum s)).
Proof.
  intros Hs Hd Hz E1 E2. destruct (vec_range s Hs) as [Rs _]. pose proof (reg_range d Hd) as Rd.
  eapply (cvt_header _ 0xf3 0x2c (size d =? 8) false false (size d =? 8) (size d) (raw_index d) (vraw_index s)); try reflexivity; try assumption; try tauto.
  - unfold cvttss2si. rewrite E1, E2. apply (emits_cross _ 0xf3 0x2c); [lia .. | apply triple_fields; lia |].
    destruct (size d =? 8); [apply (emits_byte 0x48); lia | apply bytes_nil].
  - unfold num, vnum. now rewrite E1, E2.
Qed.
Lemma cvt_to_encodes f pre opc s d :
  In (f, (pre, opc)) cvt_to_methods -> vec_ok s = true -> reg_ok d = true -> size d = 4 \/ size d = 8 ->
  (pre = 0xf3 -> opc = 0x2c -> vhireg s = false /\ hireg d = false) -> encodes (f s d) (ICvtToInt pre opc (size d) (num d) (vnum s)).
Proof.
  intros H Hs Hd Hz H3. cbn [In cvt_to_methods] in H. destruct H as [[= <- <- <-] | [[= <- <- <-] | [[= <- <- <-] | [[= <- <- <-] | []]]]].
  1-3: apply cvt_to_int_encodes; auto; lia.
  destruct (H3 eq_refl eq_refl). now apply cvttss2si_encodes.
Qed.
Lemma cvt_from_int_encodes pre s d :
  pre = 0xf2 \/ pre = 0xf3 -> reg_ok s = true -> size s = 4 \/ size s = 8 -> vec_ok d = true -> encodes (cvt_from_int pre s d) (ICvtFromInt pre (size s) (vnum d) (num s)).
Proof.
  intros Hp Hs Hz Hd. destruct (vec_range d Hd) as [Rd _]. pose proof (reg_range s Hs) as Rs.
  eapply (cvt_header _ pre 0x2a true (hireg s) (vhireg d) (size s =? 8) (size s) (vraw_index d) (raw_index s)); try reflexivity; try assumption; try discriminate; [lia |].
  unfold cvt_from_int. apply (emits_cross _ pre 0x2a true); [lia .. | apply triple_fields; lia |]. apply emits_byte, cross_rex_bits.
Qed.
Lemma cvt_from_encodes f pre s d :
  In (f, pre) cvt_from_methods -> reg_ok s = true -> size s = 4 \/ size s = 8 -> vec_ok d = true -> encodes (f s d) (ICvtFromInt pre (size s) (vnum d) (num s)).
Proof.
  intros H Hs Hz Hd. cbn [In cvt_from_methods] in H. destruct H as [[= <- <-] | [[= <- <-] | []]]; apply cvt_from_int_encodes; auto; lia.
Qed.

(** ** The short forms for the accumulator *)

Lemma accumulator_encodes sz n opc immc imm :
  sz = 1 /\ n = 1%nat /\ opc = 0x34 \/ sz = 4 /\ n = 4%nat /\ opc = 0x35 -> emits immc (le_bytes n imm) ->
  encodes (append (emit8 opc) immc) (IAlu 6 sz (OReg (R 0 sz)) (Imm sz imm)).
Proof.
  intros H He. eapply (encodes_plain _ [] 0 opc (le_bytes n imm)); [| reflexivity | reflexivity | destruct H as [(_ & _ & ->) | (_ & _ & ->)]; reflexivity |].
  - replace (opcode_bytes opc) with [opc] by (destruct H as [(_ & _ & ->) | (_ & _ & ->)]; reflexivity).
    apply (emits_append _ _ [opc]); [apply emits_byte; lia | exact He].
  - intros rest. assert (Hd : forall bs, dispatch (prefixes_of []) (rex_opt 0) opc bs = with_imm (imm_for sz bs) (fun v => IAlu 6 sz (OReg (R 0 sz)) (OImm v)))
      by (destruct H as [(-> & _ & ->) | (-> & _ & ->)]; reflexivity).
    rewrite Hd, imm_for_bytes by lia. reflexivity.
Qed.
Lemma xorr_ir_encodes imm d :
  0 <= imm < 2 ^ 32 -> reg_ok d = true -> wrong_accumulator d = false -> encodes (xorr_ir imm d) (IAlu 6 (size d) (Reg d) (Imm (size d) imm)).
Proof.
  intros Hi Hr Hw. unfold xorr_ir. destruct ((raw_index d =? 0) && negb (hireg d)) eqn:Ea; [| apply arithmetic_ir_encodes; (lia || assumption)].
  unfold wrong_accumulator in Hw. rewrite Ea in Hw. cbn [andb] in Hw. apply orb_false_elim in Hw as [H2 H8]. apply Z.eqb_neq in H2, H8.
  assert (Hd : size d = 1 \/ size d = 4) by (destruct (reg_sizes d Hr) as [? | [? | [? | ?]]]; tauto || lia).
  assert (Hm : meaning_reg d = R 0 (size d)).
  { apply andb_prop in Ea as [E0 Eh]. apply Z.eqb_eq in E0. apply negb_true_iff in Eh. unfold meaning_reg, highbyte, num. rewrite E0, Eh. cbn. now rewrite andb_false_r. }
  rewrite Hm. destruct Hd as [E | E]; rewrite E; cbn [Z.eqb Pos.eqb].
  - apply (accumulator_encodes 1 1 0x34); [lia | apply emits_8].
  - apply (accumulator_encodes 4 4 0x35); [lia | apply emits_32].
Qed.
