(* ===== verification/X86Conditions.v ===== *)
(** * The conditional methods of X86Encoder by name (X86Encoder.h)

    The encoder has a method for each mnemonic of a conditional jump, set and
    move.  After a comparison of two numbers, what the method emits does its
    work exactly when the mnemonic says so of the numbers. *)

From Stdlib Require Import ZArith Lia List Bool.
From stdpp Require Import base numbers list.
From S2P Require Import Prelude X86Encoder X86Decode X86Shapes X86Methods.
Import ListNotations.
#[local] Open Scope Z_scope.
#[local] Open Scope gensim_scope.

Definition jo_reloc : code := jcc_reloc 0.
Definition jno_reloc : code := jcc_reloc 1.
Definition jb_reloc : code := jcc_reloc 2.
Definition jnae_reloc : code := jcc_reloc 2.
Definition jc_reloc : code := jcc_reloc 2.
Definition jnb_reloc : code := jcc_reloc 3.
Definition jae_reloc : code := jcc_reloc 3.
Definition jnc_reloc : code := jcc_reloc 3.
Definition jz_reloc : code := jcc_reloc 4.
Definition je_reloc : code := jcc_reloc 4.
Definition je_short_reloc : code := jcc_short_reloc 4.
Definition jnz_reloc : code := jcc_reloc 5.
Definition jne_reloc : code := jcc_reloc 5.
Definition jne_short_reloc : code := jcc_short_reloc 5.
Definition jbe_reloc : code := jcc_reloc 6.
Definition jna_reloc : code := jcc_reloc 6.
Definition jnbe_reloc : code := jcc_reloc 7.
Definition ja_reloc : code := jcc_reloc 7.
Definition js_reloc : code := jcc_reloc 8.
Definition jns_reloc : code := jcc_reloc 9.
Definition jp_reloc : code := jcc_reloc 10.
Definition jpe_reloc : code := jcc_reloc 10.
Definition jnp_reloc : code := jcc_reloc 11.
Definition jpo_reloc : code := jcc_reloc 11.
Definition jl_reloc : code := jcc_reloc 12.
Definition jnge_reloc : code := jcc_reloc 12.
Definition jnl_reloc : code := jcc_reloc 13.
Definition jge_reloc : code := jcc_reloc 13.
Definition jle_reloc : code := jcc_reloc 14.
Definition jng_reloc : code := jcc_reloc 14.
Definition jnle_reloc : code := jcc_reloc 15.
Definition jg_reloc : code := jcc_reloc 15.
Definition je : Z -> code := jcc 4.
Definition je_short : Z -> code := jcc_short 4.
Definition jz : Z -> code := jcc 4.
Definition jz_short : Z -> code := jcc_short 4.
Definition jnz : Z -> code := jcc 5.
Definition jnz_short : Z -> code := jcc_short 5.
Definition jne : Z -> code := jcc 5.
Definition jne_short : Z -> code := jcc_short 5.
Definition cmove : X86Register -> X86Register -> code := cmov 4.
Definition cmovne : X86Register -> X86Register -> code := cmov 5.
Definition seto : X86Register -> code := setcc_r 0.
Definition seto_m : X86Memory -> code := setcc_m 0.
Definition setno : X86Register -> code := setcc_r 1.
Definition setb : X86Register -> code := setcc_r 2.
Definition setnae : X86Register -> code := setb.
Definition setc : X86Register -> code := setb.
Definition setc_m : X86Memory -> code := setcc_m 2.
Definition setnb : X86Register -> code := setcc_r 3.
Definition setae : X86Register -> code := setnb.
Definition setnc : X86Register -> code := setnb.
Definition setz : X86Register -> code := setcc_r 4.
Definition setz_m : X86Memory -> code := setcc_m 4.
Definition sete : X86Register -> code := setz.
Definition setnz : X86Register -> code := setcc_r 5.
Definition setne : X86Register -> code := setnz.
Definition setbe : X86Register -> code := setcc_r 6.
Definition setna : X86Register -> code := setbe.
Definition setnbe : X86Register -> code := setcc_r 7.
Definition seta : X86Register -> code := setnbe.
Definition sets : X86Register -> code := setcc_r 8.
Definition sets_m : X86Memory -> code := setcc_m 8.
Definition setns : X86Register -> code := setcc_r 9.
Definition setp : X86Register -> code := setcc_r 10.
Definition setpe : X86Register -> code := setp.
Definition setnp : X86Register -> code := setcc_r 11.
Definition setpo : X86Register -> code := setnp.
Definition setl : X86Register -> code := setcc_r 12.
Definition setnge : X86Register -> code := setl.
Definition setnl : X86Register -> code := setcc_r 13.
Definition setge : X86Register -> code := setnl.
Definition setle : X86Register -> code := setcc_r 14.
Definition setng : X86Register -> code := setle.
Definition setnle : X86Register -> code := setcc_r 15.
Definition setg : X86Register -> code := setnle.

(** ** What the mnemonics mean *)

Record flags := mkFlags { f_cf : bool; f_zf : bool; f_sf : bool; f_of : bool; f_pf : bool }.
(** The flags after cmp: of [a - b], with [w] bits. *)
Definition parity_even (z : Z) : bool := Nat.even (length (filter (fun i => Z.testbit z i = true) (seqZ 0 8))).
Definition out_of_range (w d : Z) : bool := (d <? - 2 ^ (w - 1)) || (2 ^ (w - 1) <=? d).
Definition cmp_flags (w a b : Z) : flags :=
  let r := wrap w (a - b) in
  mkFlags (a <? b) (r =? 0) (2 ^ (w - 1) <=? r) (out_of_range w (sext w a - sext w b)) (parity_even r).
(** A condition code, after the architecture manual. *)
Definition holds (cc : Z) (f : flags) : bool :=
  xorb (Z.odd cc)
    (let k := cc / 2 in
     if k =? 0 then f_of f else if k =? 1 then f_cf f else if k =? 2 then f_zf f else if k =? 3 then f_cf f || f_zf f
     else if k =? 4 then f_sf f else if k =? 5 then f_pf f else if k =? 6 then xorb (f_sf f) (f_of f) else f_zf f || xorb (f_sf f) (f_of f)).

Definition condition : Type := Z -> Z -> Z -> bool.
Definition equal : condition := fun w a b => a =? b.
Definition not_equal : condition := fun w a b => negb (a =? b).
Definition below : condition := fun w a b => a <? b.
Definition above_equal : condition := fun w a b => b <=? a.
Definition below_equal : condition := fun w a b => a <=? b.
Definition above : condition := fun w a b => b <? a.
Definition less : condition := fun w a b => sext w a <? sext w b.
Definition greater_equal : condition := fun w a b => sext w b <=? sext w a.
Definition less_equal : condition := fun w a b => sext w a <=? sext w b.
Definition greater : condition := fun w a b => sext w b <? sext w a.
Definition overflow : condition := fun w a b => out_of_range w (sext w a - sext w b).
Definition no_overflow : condition := fun w a b => negb (overflow w a b).
Definition negative : condition := fun w a b => sext w (a - b) <? 0.
Definition not_negative : condition := fun w a b => 0 <=? sext w (a - b).
Definition parity : condition := fun w a b => parity_even (wrap w (a - b)).
Definition no_parity : condition := fun w a b => negb (parity w a b).

Definition jump_methods :=
  [(jo_reloc, overflow); (jno_reloc, no_overflow); (jb_reloc, below); (jnae_reloc, below); (jc_reloc, below); (jnb_reloc, above_equal);
   (jae_reloc, above_equal); (jnc_reloc, above_equal); (jz_reloc, equal); (je_reloc, equal); (je_short_reloc, equal); (jnz_reloc, not_equal);
   (jne_reloc, not_equal); (jne_short_reloc, not_equal); (jbe_reloc, below_equal); (jna_reloc, below_equal); (jnbe_reloc, above); (ja_reloc, above);
   (js_reloc, negative); (jns_reloc, not_negative); (jp_reloc, parity); (jpe_reloc, parity); (jnp_reloc, no_parity); (jpo_reloc, no_parity);
   (jl_reloc, less); (jnge_reloc, less); (jnl_reloc, greater_equal); (jge_reloc, greater_equal); (jle_reloc, less_equal); (jng_reloc, less_equal);
   (jnle_reloc, greater); (jg_reloc, greater)].
Definition offset_methods :=
  [(je, equal); (jz, equal); (jnz, not_equal); (jne, not_equal)].
Definition short_offset_methods :=
  [(je_short, equal); (jz_short, equal); (jnz_short, not_equal); (jne_short, not_equal)].
Definition set_methods :=
  [(seto, overflow); (setno, no_overflow); (setb, below); (setnae, below); (setc, below); (setnb, above_equal); (setae, above_equal);
   (setnc, above_equal); (setz, equal); (sete, equal); (setnz, not_equal); (setne, not_equal); (setbe, below_equal); (setna, below_equal);
   (setnbe, above); (seta, above); (sets, negative); (setns, not_negative); (setp, parity); (setpe, parity); (setnp, no_parity); (setpo, no_parity);
   (setl, less); (setnge, less); (setnl, greater_equal); (setge, greater_equal); (setle, less_equal); (setng, less_equal); (setnle, greater);
   (setg, greater)].
Definition set_mem_methods :=
  [(seto_m, overflow); (setc_m, below); (setz_m, equal); (sets_m, negative)].
Definition move_methods :=
  [(cmove, equal); (cmovne, not_equal)].

(** ** Conditions after a comparison *)

Section Comparison.
Context (w a b : Z) (Hw : 0 < w) (Ha : in_range w a) (Hb : in_range w b).

Lemma half_range : 2 ^ w = 2 * 2 ^ (w - 1) /\ 0 < 2 ^ (w - 1).
Proof. split; [rewrite <- Z.pow_succ_r by lia; f_equal; lia | apply Z.pow_pos_nonneg; lia]. Qed.
Lemma sext_cases x : in_range w x -> sext w x = (if x <? 2 ^ (w - 1) then x else x - 2 ^ w).
Proof. intros H. unfold sext. now rewrite wrap_small. Qed.
Lemma wrap_diff : wrap w (a - b) = (if a <? b then a - b + 2 ^ w else a - b).
Proof.
  destruct half_range as [E Hp]. unfold in_range in *. unfold wrap. destruct (Z.ltb_spec a b).
  - symmetry. apply Z.mod_unique with (-1); lia.
  - apply Z.mod_small. lia.
Qed.
Lemma sf_negative : (2 ^ (w - 1) <=? wrap w (a - b)) = negative w a b.
Proof.
  unfold negative, sext. cbv zeta. pose proof (wrap_range w (a - b) ltac:(lia)) as Hr. unfold in_range in Hr.
  destruct (Z.ltb_spec (wrap w (a - b)) (2 ^ (w - 1))), (Z.leb_spec (2 ^ (w - 1)) (wrap w (a - b))); lia.
Qed.
Lemma zf_equal : (wrap w (a - b) =? 0) = (a =? b).
Proof.
  rewrite wrap_diff. unfold in_range in *. destruct (Z.ltb_spec a b), (Z.eqb_spec a b); lia.
Qed.
Lemma signed_less : xorb (2 ^ (w - 1) <=? wrap w (a - b)) (out_of_range w (sext w a - sext w b)) = (sext w a <? sext w b).
Proof.
  destruct half_range as [E Hp]. rewrite wrap_diff, !sext_cases by assumption. unfold in_range, out_of_range in *.
  destruct (Z.ltb_spec a b), (Z.ltb_spec a (2 ^ (w - 1))), (Z.ltb_spec b (2 ^ (w - 1)));
    repeat match goal with |- context [?x <=? ?y] => destruct (Z.leb_spec x y) | |- context [?x <? ?y] => destruct (Z.ltb_spec x y) end;
    cbn [xorb orb]; lia.
Qed.

Lemma negated_ltb x y : negb (x <? y) = (y <=? x).
Proof. symmetry. apply Z.leb_antisym. Qed.
Lemma negated_leb x y : negb (x <=? y) = (y <? x).
Proof. symmetry. apply Z.ltb_antisym. Qed.
Lemma ltb_or_eqb x y : (x <? y) || (x =? y) = (x <=? y).
Proof. destruct (Z.ltb_spec x y), (Z.eqb_spec x y), (Z.leb_spec x y); lia || reflexivity. Qed.
Lemma sext_eqb : (a =? b) = (sext w a =? sext w b).
Proof.
  destruct half_range as [E Hp]. rewrite !sext_cases by assumption. unfold in_range in *.
  destruct (Z.eqb_spec a b) as [-> | N]; symmetry; [apply Z.eqb_refl | apply Z.eqb_neq].
  destruct (Z.ltb_spec a (2 ^ (w - 1))), (Z.ltb_spec b (2 ^ (w - 1))); lia.
Qed.
(** The condition of each code. *)
Definition codes : list (Z * condition) :=
  [(0, overflow); (1, no_overflow); (2, below); (3, above_equal); (4, equal); (5, not_equal); (6, below_equal); (7, above);
   (8, negative); (9, not_negative); (10, parity); (11, no_parity); (12, less); (13, greater_equal); (14, less_equal); (15, greater)].
Definition means (c : Z * condition) : Prop := holds (fst c) (cmp_flags w a b) = snd c w a b.
Lemma code_conditions : Forall means codes.
Proof.
  unfold codes, means. repeat apply List.Forall_cons; [.. | apply List.Forall_nil]; unfold holds, cmp_flags; cbv zeta; cbn [fst snd f_cf f_zf f_sf f_of f_pf].
  all: match goal with |- xorb ?o _ = _ => let v := eval vm_compute in o in change o with v end.
  all: repeat match goal with |- context [if ?c then _ else _] => let v := eval vm_compute in c in change c with v; cbv iota end.
  all: rewrite ?xorb_false_l, ?xorb_true_l.
  all: rewrite ?signed_less, ?zf_equal, ?sf_negative; try reflexivity.
  - unfold above_equal. now rewrite negated_ltb.
  - unfold below_equal. now rewrite ltb_or_eqb.
  - unfold above. now rewrite ltb_or_eqb, negated_leb.
  - unfold negative, not_negative. now rewrite negated_ltb.
  - unfold greater_equal. now rewrite negated_ltb.
  - unfold less_equal. now rewrite sext_eqb, orb_comm, ltb_or_eqb.
  - unfold greater. now rewrite sext_eqb, orb_comm, ltb_or_eqb, negated_leb.
Qed.
Lemma code_condition cc p : In (cc, p) codes -> holds cc (cmp_flags w a b) = p w a b.
Proof. intros H. pose proof code_conditions as C. rewrite List.Forall_forall in C. exact (C _ H). Qed.
End Comparison.

(** ** The methods by name *)

(** An instruction with condition code [cc] for each method, and the code
    stands for the method's condition. *)
Definition tests {A} (w a b : Z) (emits_with : A -> Z -> Prop) (m : A * condition) : Prop :=
  exists cc, emits_with (fst m) cc /\ holds cc (cmp_flags w a b) = snd m w a b.
Ltac in_codes := unfold codes; repeat (first [left; reflexivity | right]).
Ltac each_name L := unfold tests; repeat apply List.Forall_cons; try apply List.Forall_nil; cbn [fst snd];
  (eexists; split; [intros; eapply L; (assumption || lia) | eapply code_condition; [assumption .. | in_codes]]).
Lemma jcc_reloc_encodes cc : 0 <= cc < 16 -> encodes (jcc_reloc cc) (IJcc cc 0).
Proof. intros H. apply (jcc_encodes cc 0); lia. Qed.
Lemma jcc_short_reloc_encodes cc : 0 <= cc < 16 -> encodes (jcc_short_reloc cc) (IJcc cc 0).
Proof. intros H. apply (jcc_short_encodes cc 0); lia. Qed.
(** After a comparison of any two numbers of any width,
    every conditional jump, set and move named after a mnemonic emits an
    instruction whose condition code is true exactly when the mnemonic says:
    below, above and the like of the numbers without sign, less, greater and
    the like of the numbers with sign. *)
Theorem x86_conditions w a b :
  0 < w -> in_range w a -> in_range w b ->
  Forall (tests w a b (fun c cc => encodes c (IJcc cc 0))) jump_methods
  /\ Forall (tests w a b (fun f cc => forall off, - 2 ^ 31 <= off < 2 ^ 31 -> encodes (f off) (IJcc cc off))) offset_methods
  /\ Forall (tests w a b (fun f cc => forall off, -128 <= off < 128 -> encodes (f off) (IJcc cc off))) short_offset_methods
  /\ Forall (tests w a b (fun f cc => forall d, reg_ok d = true -> size d = 1 -> encodes (f d) (ISetcc cc (Reg d)))) set_methods
  /\ Forall (tests w a b (fun f cc => forall m, simple_mem m = true -> encodes (f m) (ISetcc cc (Mem m)))) set_mem_methods
  /\ Forall (tests w a b (fun f cc => forall s d, regs_ok d s = true -> size s = size d -> size d <> 1 -> encodes (f s d) (ICmov cc (size d) (Reg d) (Reg s)))) move_methods.
Proof.
  intros Hw Ha Hb. split; [| split; [| split; [| split; [| split]]]].
  - unfold jump_methods. unfold tests. repeat apply List.Forall_cons; try apply List.Forall_nil; cbn [fst snd];
      (eexists; split; [first [eapply jcc_reloc_encodes; lia | eapply jcc_short_reloc_encodes; lia] | eapply code_condition; [assumption .. | in_codes]]).
  - unfold offset_methods. each_name jcc_encodes.
  - unfold short_offset_methods. each_name jcc_short_encodes.
  - unfold set_methods. each_name setcc_r_encodes.
  - unfold set_mem_methods. each_name setcc_m_encodes.
  - unfold move_methods. each_name cmov_encodes.
Qed.
Lemma x86_conditions_witness : Forall (tests 32 0xffffffff 1 (fun c cc => encodes c (IJcc cc 0))) jump_methods.
Proof. apply (x86_conditions 32 0xffffffff 1); unfold in_range; lia. Defined.
