(* ===== verification/X86Correct.v ===== *)
(** * The encoder of BlockJIT assembles what it is asked for

    The bytes that a sequence of calls leaves in the buffer disassemble to the
    instructions the calls ask for, and the buffer is never overrun.  Then the
    padding of align_up, and what becomes of arguments outside [asks]. *)

From Stdlib Require Import ZArith Lia List Bool.
From stdpp Require Import base numbers list.
From S2P Require Import Prelude X86Encoder X86Decode X86Shapes X86Methods.
Import ListNotations.
#[local] Open Scope Z_scope.
#[local] Open Scope gensim_scope.

(** The calls of a client, one after the other. *)
Fixpoint assemble (cs : list code) (e : X86Encoder) : result X86Encoder :=
  match cs with
  | [] => Ok e
  | c :: r => let* es := c in let* e1 := run es e in assemble r e1
  end.
Fixpoint disassemble (fuel : nat) (bs : list Z) : option (list insn) :=
  match bs with
  | [] => Some []
  | _ :: _ =>
      match fuel with
      | O => None
      | S k =>
          match decode bs with
          | Some (i, r) => match disassemble k r with Some l => Some (i :: l) | None => None end
          | None => None
          end
      end
  end.

(** ** The buffer *)

Definition room (e : X86Encoder) : Prop := _write_offset e <= _buffer_size e.
Lemma bytes_emitted_length em : Z.of_nat (length (bytes_emitted em)) <= 8.
Proof. destruct em; unfold bytes_emitted; rewrite ?le_bytes_length; cbn; lia. Qed.
Lemma ensure_room extra e : room e ->
  room (ensure_buffer extra e) /\ _buffer (ensure_buffer extra e) = _buffer e
  /\ (extra <= 1024 -> _write_offset e + extra <= _buffer_size (ensure_buffer extra e)).
Proof.
  unfold room, ensure_buffer, _write_offset. intros H. destruct (Z.leb_spec (_buffer_size e) (Z.of_nat (length (_buffer e)) + extra));
    cbn [_buffer _buffer_size]; unfold _write_offset in *; repeat split; lia.
Qed.
Lemma emit_room em e : room e -> exists e1, emit em e = Ok e1 /\ room e1 /\ _buffer e1 = _buffer e ++ bytes_emitted em.
Proof.
  intros H. pose proof (bytes_emitted_length em) as Hl. unfold emit. cbv zeta.
  set (extra := match em with Ensure x => x | _ => Z.of_nat (length (bytes_emitted em)) end).
  destruct (ensure_room extra e H) as (H1 & E1 & H2).
  assert (Hr : _write_offset (ensure_buffer extra e) + Z.of_nat (length (bytes_emitted em)) <= _buffer_size (ensure_buffer extra e)).
  { unfold room, _write_offset in *. rewrite E1 in *. destruct em; cbn [bytes_emitted length] in *; lia. }
  rewrite (proj2 (Z.leb_le _ _) Hr). eexists. split; [reflexivity |]. rewrite E1. split; [| reflexivity].
  unfold room, _write_offset in *. cbn [_buffer _buffer_size]. rewrite E1 in Hr. rewrite length_app. lia.
Qed.
Lemma run_room es e : room e -> exists e1, run es e = Ok e1 /\ room e1 /\ _buffer e1 = _buffer e ++ flatten es.
Proof.
  revert e. induction es as [|em es IH]; intros e H; cbn [run].
  - exists e. split; [reflexivity |]. split; [exact H |]. symmetry. apply app_nil_r.
  - destruct (emit_room em e H) as (e1 & -> & H1 & E1). destruct (IH e1 H1) as (e2 & E2 & H2 & E3). cbn [rbind].
    exists e2. split; [exact E2 |]. split; [exact H2 |]. rewrite E3, E1, <- app_assoc. reflexivity.
Qed.

(** ** Every method *)

Ltac each_method H := cbn [In] in H; repeat (destruct H as [[= <- <-] | H]; [| ]); [.. | contradiction].
Lemma method_encodes c i : asks c i -> encodes c i.
Proof.
  intros H. destruct H.
  - match goal with Hf : In _ alu_rr_methods |- _ => each_method Hf end;
      first [apply alu_rr_encodes; (lia || assumption) | apply (adc_sbc_encodes 2); (lia || assumption) | apply (adc_sbc_encodes 3); (lia || assumption)].
  - match goal with Hf : In _ alu_mr_methods |- _ => each_method Hf end; apply alu_mr_encodes; (lia || assumption).
  - match goal with Hf : In _ alu_rm_methods |- _ => each_method Hf end; apply alu_rm_encodes; (lia || assumption).
  - match goal with Hf : In _ alu_ir_methods |- _ => each_method Hf end; first [apply xorr_ir_encodes; auto | apply arithmetic_ir_encodes; (lia || assumption)].
  - match goal with Hf : In _ alu_im_methods |- _ => each_method Hf end; apply arithmetic_im_encodes; (lia || assumption).
  - match goal with Hf : In _ short_im_methods |- _ => each_method Hf end; apply short_im_encodes; (lia || assumption).
  - match goal with Hf : In _ cmp_im_methods |- _ => each_method Hf end; apply arithmetic_im_encodes; (lia || assumption || reflexivity).
  - now apply cmp8_encodes.
  - match goal with Hf : In _ add_im_methods |- _ => each_method Hf end; apply short_im_encodes; (lia || assumption || reflexivity).
  - now apply test_rr_encodes.
  - now apply test_ir_encodes.
  - now apply test4_encodes.
  - match goal with Hf : In _ shift_ir_methods |- _ => each_method Hf end; first [apply shift_one_ir_encodes | apply shift_ir_encodes]; (lia || assumption).
  - match goal with Hf : In _ shift_im_methods |- _ => each_method Hf end; apply shift_im_encodes; (lia || assumption).
  - match goal with Hf : In _ shift_rr_methods |- _ => each_method Hf end; apply shift_rr_encodes; (lia || assumption).
  - now apply imul_encodes.
  - match goal with Hf : In _ group3_methods |- _ => each_method Hf end; apply (group3_encodes true); auto using wider; lia.
  - match goal with Hs : size ?r = 1 |- _ => replace (IGroup3 4 1 (Reg r)) with (IGroup3 4 (size r) (Reg r)) by congruence; apply (group3_encodes false); auto using narrow; lia end.
  - now apply incq_encodes.
  - now apply bswap_encodes.
  - now apply bsr_encodes.
  - now apply mov_rr_encodes.
  - now apply mov_mr_encodes.
  - now apply mov_rm_encodes.
  - now apply mov_ir_encodes.
  - apply (mov_im_encodes 4 4); auto using emits_32; lia.
  - apply (mov_im_encodes 2 2); auto using emits_16; lia.
  - apply (mov_im_encodes 1 1); auto using emits_8; lia.
  - now apply movzx_rr_encodes.
  - now apply movzx_mr_encodes.
  - now apply movsx_rr_encodes.
  - now apply movsx_mr_encodes.
  - now apply lea_encodes.
  - now apply xchg_encodes.
  - now apply cmov_encodes.
  - now apply setcc_r_encodes.
  - now apply setcc_m_encodes.
  - now apply movcs_encodes.
  - now apply push_encodes.
  - apply push_i_encodes.
  - now apply pop_encodes.
  - now apply call_r_encodes.
  - now apply jmp_r_encodes.
  - apply far_mem_encodes; tauto.
  - apply far_mem_encodes; tauto.
  - now apply call_near_encodes.
  - now apply jmp_near_encodes.
  - now apply jmp_offset_encodes.
  - now apply jcc_encodes.
  - now apply jcc_short_encodes.
  - apply (jcc_encodes cc 0); lia.
  - apply (jcc_short_encodes cc 0); lia.
  - now apply intt_encodes.
  - now apply plain_encodes.
  - now apply invlpg_encodes.
  - now apply nop_m_encodes.
  - now apply vector_encodes.
  - now apply vector_imm_encodes.
  - now apply movq_rv_encodes.
  - now apply movq_vr_encodes.
  - now apply cvt_to_encodes.
  - now apply cvt_from_encodes.
Qed.

(** ** A program *)

Lemma encodes_nonempty bs i : decode (bs ++ []) = Some (i, []) -> bs <> [].
Proof. intros H ->. discriminate. Qed.
Lemma disassemble_more is1 n k bs : (n <= k)%nat -> disassemble n bs = Some is1 -> disassemble k bs = Some is1.
Proof.
  revert n k bs. induction is1 as [|i is1 IH]; intros n k bs Hle H.
  - destruct bs; [destruct k; reflexivity |]. destruct n; [discriminate |]. cbn in H. destruct (decode _) as [[j r] |]; [| discriminate].
    destruct (disassemble n r); discriminate.
  - destruct bs; [destruct n; discriminate |]. destruct n; [discriminate |]. destruct k; [lia |]. cbn [disassemble] in *.
    destruct (decode _) as [[j r] |]; [| discriminate]. destruct (disassemble n r) eqn:E; [| discriminate]. injection H as -> ->.
    rewrite (IH n k r) by (lia || assumption). reflexivity.
Qed.
Lemma assemble_encodes cs is1 e :
  Forall2 encodes cs is1 -> room e ->
  exists e1 (bs : list Z), assemble cs e = Ok e1 /\ room e1 /\ _buffer e1 = _buffer e ++ bs /\ disassemble (length bs) bs = Some is1.
Proof.
  intros H. revert e. induction H as [|c i cs is1 Hc _ IH]; intros e He.
  - exists e, []. cbn [assemble]. rewrite app_nil_r. repeat split; try assumption.
  - destruct Hc as (b1 & (es & -> & <-) & Hd). cbn [assemble rbind].
    destruct (run_room es e He) as (e1 & -> & H1 & E1). cbn [rbind]. destruct (IH e1 H1) as (e2 & bs & -> & H2 & E2 & D2).
    exists e2, (flatten es ++ bs). rewrite E2, E1, <- app_assoc. repeat split; try assumption.
    pose proof (encodes_nonempty _ _ (Hd [])) as Hne. destruct (flatten es) as [|x xs] eqn:Ef; [congruence |].
    cbn [app length disassemble]. change (x :: xs ++ bs) with ((x :: xs) ++ bs). rewrite Hd.
    rewrite (disassemble_more is1 (length bs)); [reflexivity | rewrite length_app; lia | exact D2].
Qed.
(** C14. Whatever calls a client makes on a new encoder, with arguments
    that the methods can encode, as [asks] lists them (operands of the sizes and
    registers an encoding has; the lemmas below show calls outside of it that
    are encoded as something else), none fails, no write is outside the buffer,
    and the bytes in it disassemble to exactly the instructions asked for, in
    that order. *)
Theorem x86_assembler_correct cs is1 :
  Forall2 asks cs is1 ->
  exists e, assemble cs new_encoder = Ok e /\ _write_offset e <= _buffer_size e
    /\ disassemble (length (_buffer e)) (_buffer e) = Some is1.
Proof.
  intros H. destruct (assemble_encodes cs is1 new_encoder) as (e & bs & E & Hr & Hb & D).
  - eapply Forall2_impl; [exact H | exact method_encodes].
  - unfold room, new_encoder, _write_offset. cbn. lia.
  - exists e. split; [exact E |]. split; [exact Hr |]. cbn [new_encoder _buffer app] in Hb. now rewrite Hb.
Qed.
(** xor eax, eax; add r12, 1000; mov [rbp + r9 * 8 - 16] <- r12 through gs; movzx ecx <- sil; cmp byte [r13], 7; jne -20; ret. *)
Lemma x86_assembler_correct_witness :
  exists e, assemble
    [xorr_rr REG_EAX REG_EAX; add_ir 1000 REG_R12; mov_rm REG_R12 (withSegment 1 (mem_full REG_RBP (-16) (mkReg 8 1 true false) 8));
     movzx_rr (mkReg 1 6 false true) (mkReg 4 1 false false); cmp1 7 (mem_base REG_R13); jcc_short 5 (-20); ret] new_encoder = Ok e
    /\ _write_offset e <= _buffer_size e
    /\ disassemble (length (_buffer e)) (_buffer e) = Some
      [IAlu 6 4 (OReg (R 0 4)) (OReg (R 0 4)); IAlu 0 8 (OReg (R 12 8)) (OImm 1000);
       IMov 8 (OMem (mkAddress true 8 (Some 5) (Some (9, 8)) (-16) false)) (OReg (R 12 8));
       IMovzx 1 (OReg (R 1 4)) (OReg (R 6 1)); IAlu 7 1 (OMem (mkAddress false 8 (Some 13) None 0 false)) (OImm 7); IJcc 5 (-20); IRet].
Proof.
  apply x86_assembler_correct. repeat match goal with |- Forall2 _ _ _ => constructor end.
  - apply (asks_alu_rr xorr_rr 6 REG_EAX REG_EAX); [do 6 right; left; reflexivity | reflexivity ..].
  - apply (asks_alu_ir add_ir 0 1000 REG_R12); [left; reflexivity | lia | reflexivity | discriminate].
  - apply (asks_mov_rm REG_R12 (withSegment 1 (mem_full REG_RBP (-16) (mkReg 8 1 true false) 8))). reflexivity.
  - apply (asks_movzx_rr (mkReg 1 6 false true) (mkReg 4 1 false false)); [reflexivity | left; reflexivity | cbn; lia].
  - apply (asks_cmp_im cmp1 1 7 (mem_base REG_R13)); [left; reflexivity | lia | reflexivity].
  - apply (asks_jcc_short 5 (-20)); lia.
  - apply asks_plain. do 7 right. left. reflexivity.
Defined.

(** ** Padding *)

Definition emitted (c : code) : result nat := let* es := c in Ok (length (flatten es)).
Lemma emitted_append a b x y : emitted a = Ok x -> emitted b = Ok y -> emitted (append a b) = Ok (x + y)%nat.
Proof.
  unfold emitted, append. destruct a, b; cbn; try discriminate. intros [= <-] [= <-]. now rewrite flatten_app, length_app.
Qed.
Lemma emitted_times c k n : emitted c = Ok k -> emitted (times n c) = Ok (n * k)%nat.
Proof. intros H. induction n as [|n IH]; [reflexivity |]. cbn [times]. rewrite (emitted_append _ _ _ _ H IH). reflexivity. Qed.
Lemma nop_sizes :
  emitted (lea (mem_disp REG_EAX 0x80808080) REG_EAX) = Ok 7%nat /\ emitted (lea (mem_disp REG_RAX 0x80808080) REG_EAX) = Ok 6%nat
  /\ emitted (lea (mem_base REG_EAX) REG_EAX) = Ok 3%nat /\ emitted (append (emit8 0x66) (emit8 0x90)) = Ok 2%nat /\ emitted nop = Ok 1%nat.
Proof. repeat split; vm_compute; reflexivity. Qed.
Lemma split_by x n : 0 <= x -> 0 < n -> x = n * (x / n) + x mod n /\ 0 <= x mod n < n /\ 0 <= x / n.
Proof. intros Hx Hn. split; [apply Z.div_mod; lia |]. split; [now apply Z.mod_pos_bound | apply Z.div_pos; lia]. Qed.
Lemma nop_bytes_length bytes : 0 <= bytes -> emitted (nop_bytes bytes) = Ok (Z.to_nat bytes).
Proof.
  intros H. unfold nop_bytes. cbv zeta. destruct nop_sizes as (N7 & N6 & N3 & N2 & N1).
  rewrite (emitted_append _ _ _ _ (emitted_times _ _ _ N7) (emitted_append _ _ _ _ (emitted_times _ _ _ N6)
    (emitted_append _ _ _ _ (emitted_times _ _ _ N3) (emitted_append _ _ _ _ (emitted_times _ _ _ N2) (emitted_times _ _ _ N1))))).
  f_equal. pose proof (split_by bytes 7). set (a := bytes mod 7) in *. pose proof (split_by a 6). set (b := a mod 6) in *.
  pose proof (split_by b 3). set (c := b mod 3) in *. pose proof (split_by c 2). lia.
Qed.
(** [align_up] to a power of two up to 256 fails nothing and
    ends at the next multiple: what it emits is shorter than the alignment. *)
Theorem align_up_aligns k e :
  0 <= k <= 8 -> _write_offset e <= _buffer_size e ->
  exists e1, assemble [align_up (2 ^ k) (_write_offset e)] e = Ok e1 /\ _write_offset e1 <= _buffer_size e1
    /\ _write_offset e1 mod 2 ^ k = 0 /\ _write_offset e <= _write_offset e1 < _write_offset e + 2 ^ k.
Proof.
  intros Hk Hr. assert (Hp : 0 < 2 ^ k) by (apply Z.pow_pos_nonneg; lia).
  assert (H256 : 2 ^ k <= 256) by (change 256 with (2 ^ 8); apply Z.pow_le_mono_r; lia).
  assert (H0 : 0 <= _write_offset e) by (unfold _write_offset; lia). set (w := _write_offset e) in *.
  pose proof (Z.mod_pos_bound w (2 ^ k) Hp) as Hm. pose proof (Z.div_mod w (2 ^ k) ltac:(lia)) as Hd.
  assert (Hones : 2 ^ k - 1 = Z.ones k) by (rewrite Z.ones_equiv; lia).
  assert (Hc : exists n, emitted (align_up (2 ^ k) w) = Ok (Z.to_nat n) /\ 0 <= n < 2 ^ k /\ (w + n) mod 2 ^ k = 0).
  { unfold align_up. rewrite Hones, Z.land_ones by lia. destruct (Z.eqb_spec (w mod 2 ^ k) 0) as [E | E].
    - exists 0. split; [reflexivity |]. rewrite Z.add_0_r. lia.
    - rewrite <- Z.ldiff_land, Z.ldiff_ones_r, Z.shiftr_div_pow2, Z.shiftl_mul_pow2 by lia.
      exists (2 ^ k - w mod 2 ^ k).
      assert ((w + 2 ^ k) / 2 ^ k * 2 ^ k - w = 2 ^ k - w mod 2 ^ k) as ->.
      { replace (w + 2 ^ k) with (w + 1 * 2 ^ k) by lia. rewrite Z.div_add by lia. lia. }
      unfold u8. rewrite wrap_small by (unfold in_range; change (2 ^ 8) with 256; lia). split; [apply nop_bytes_length; lia |]. split; [lia |].
      replace (w + (2 ^ k - w mod 2 ^ k)) with ((w / 2 ^ k + 1) * 2 ^ k) by lia. apply Z.mod_mul. lia. }
  destruct Hc as (n & Hn & Hr2 & Hal). unfold emitted in Hn. cbn [assemble].
  destruct (align_up (2 ^ k) w) as [es |]; [| discriminate]. cbn [rbind] in *. injection Hn as Hn.
  destruct (run_room es e Hr) as (e1 & -> & H1 & E1). cbn [rbind]. exists e1. split; [reflexivity |]. split; [exact H1 |].
  assert (Hw : _write_offset e1 = w + n) by (unfold w, _write_offset; rewrite E1, length_app; lia). rewrite Hw. lia.
Qed.
Lemma align_up_aligns_witness :
  let e := mkEncoder (repeat 0xc3 5) 1024 false in
  exists e1, assemble [align_up (2 ^ 4) (_write_offset e)] e = Ok e1 /\ _write_offset e1 <= _buffer_size e1
    /\ _write_offset e1 mod 2 ^ 4 = 0 /\ _write_offset e <= _write_offset e1 < _write_offset e + 2 ^ 4.
Proof. apply (align_up_aligns 4 (mkEncoder (repeat 0xc3 5) 1024 false)); [lia | vm_compute; discriminate]. Defined.

(** ** Arguments that are encoded as something else *)

Definition reads (c : code) : option (list insn) :=
  match c with Ok es => disassemble (length (flatten es)) (flatten es) | Err _ => None end.

(** The padding of three bytes or more is lea into eax. *)
Lemma nop_writes_eax :
  reads (nop_bytes 3) = Some [ILea (R 0 4) (mkAddress false 4 (Some 0) None 0 false)]
  /\ reads (nop_bytes 7) = Some [ILea (R 0 4) (mkAddress false 4 (Some 0) None (-0x7f7f7f80) false)].
Proof. split; vm_compute; reflexivity. Qed.
(** Exclusive or of an immediate with rax or ax is one with eax. *)
Lemma xorr_rax_is_eax : reads (xorr_ir 5 REG_RAX) = Some [IAlu 6 4 (OReg (R 0 4)) (OImm 5)].
Proof. vm_compute. reflexivity. Qed.
(** The immediate of a test of eight bytes has four bytes too many. *)
Lemma test_ir_eight_bytes :
  match test_ir 0 REG_RDX with Ok es => decode (flatten es) | Err _ => None end = Some (ITest 8 (OReg (R 2 8)) (OImm 0), [0; 0; 0; 0]).
Proof. vm_compute. reflexivity. Qed.
(** Adding to one byte of memory adds to four. *)
Lemma add_im_one_byte : reads (add_im 1 1 (mem_base REG_RDX)) = Some [IAlu 0 4 (OMem (mkAddress false 8 (Some 2) None 0 false)) (OImm 1)].
Proof. vm_compute. reflexivity. Qed.
(** With two bytes, values from 127 on take four bytes where two are read. *)
Lemma add_im_two_bytes :
  match add_im 0x180 2 (mem_base REG_RDX) with Ok es => decode (flatten es) | Err _ => None end
  = Some (IAlu 0 2 (OMem (mkAddress false 8 (Some 2) None 0 false)) (OImm 0x180), [0; 0]).
Proof. vm_compute. reflexivity. Qed.
(** Pushing ax pushes rax. *)
Lemma push_two_bytes : reads (push_r (mkReg 2 0 false false)) = Some [IPush 0].
Proof. vm_compute. reflexivity. Qed.
(** A high index register is taken for a low one. *)
Lemma operation_index_lost :
  reads (incq (mem_index REG_RDX (mkReg 8 1 true false) 2)) = Some [IInc 8 (OMem (mkAddress false 8 (Some 2) (Some (1, 2)) 0 false))].
Proof. vm_compute. reflexivity. Qed.
(** As is the base of an indirect call. *)
Lemma call_m_base_lost : reads (call_m (mem_base (mkReg 8 0 true false))) = Some [ICall (OMem (mkAddress false 8 (Some 0) None 0 false))].
Proof. vm_compute. reflexivity. Qed.
(** The segment of an operation with an immediate value is dropped. *)
Lemma operation_segment_lost :
  reads (mov4 1 (withSegment 1 (mem_base REG_RDX))) = Some [IMov 4 (OMem (mkAddress false 8 (Some 2) None 0 false)) (OImm 1)].
Proof. vm_compute. reflexivity. Qed.
(** ebp as a base, without displacement, takes the next bytes for one. *)
Lemma ebp_base_is_rip :
  match mov_mr (mem_base (mkReg 4 5 false false)) REG_EAX with Ok es => decode (flatten es ++ [1; 2; 3; 4]) | Err _ => None end
  = Some (IMov 4 (OReg (R 0 4)) (OMem (mkAddress false 4 None None 0x04030201 true)), []).
Proof. vm_compute. reflexivity. Qed.
(** A memory operand without a base is always refused. *)
Lemma no_base_fails reg i d s : valid_size (size reg) = true -> opcode_rm 0x8b reg (mkMem i REG_RIZ 0 d s) = Err AssertFailed.
Proof. intros H. unfold opcode_rm. cbn [segment base]. rewrite H. cbn. unfold emit_rex, when. destruct (size reg =? 2), (negb _); reflexivity. Qed.
(** Dividing by a register of one byte divides by four. *)
Lemma div_one_byte : reads (div (mkReg 1 1 false false)) = Some [IGroup3 6 4 (OReg (R 1 4))].
Proof. vm_compute. reflexivity. Qed.
