(* ===== verification/X86Machine.v ===== *)
(** * Executing x86-64 instructions

    What the instructions that BlockJIT emits do to registers, memory and
    flags, after the architecture manual: the straight-line subset of [insn].
    An instruction that faults, or whose result the manual leaves undefined,
    has no next state; undefined flags are [None] (the carry flag is kept apart,
    since an instruction can set it alone). *)

From Stdlib Require Import ZArith Lia List Bool.
From stdpp Require Import base numbers list.
From S2P Require Import Prelude X86Encoder X86Decode X86Shapes X86Conditions.
Import ListNotations.
#[local] Open Scope Z_scope.
#[local] Open Scope gensim_scope.

Record machine := mkMachine { regs : Z -> Z; mem : Z -> Z; cy : option bool; fl : option flags }.
Definition with_state (rs m : Z -> Z) (s : machine) : machine := mkMachine rs m (cy s) (fl s).

(** ** Registers and memory *)

Definition upd (f : Z -> Z) (k v : Z) : Z -> Z := fun x => if x =? k then v else f x.
Definition reg_value (rs : Z -> Z) (r : gpr) : Z :=
  match r with R n sz => wrap (8 * sz) (rs n) | RHigh n => wrap 8 (rs n / 256) end.
(** Writes of four bytes clear the upper half; shorter ones leave the rest. *)
Definition low_replaced (old sz v : Z) : Z := old - wrap (8 * sz) old + wrap (8 * sz) v.
Definition write_reg (rs : Z -> Z) (r : gpr) (v : Z) : Z -> Z :=
  match r with
  | R n sz => upd rs n (if (sz =? 8) || (sz =? 4) then wrap (8 * sz) v else low_replaced (rs n) sz v)
  | RHigh n => upd rs n (rs n - 256 * wrap 8 (rs n / 256) + 256 * wrap 8 v)
  end.
Fixpoint load (n : nat) (m : Z -> Z) (a : Z) : Z :=
  match n with O => 0 | S k => m (u64 a) + 256 * load k m (a + 1) end.
Fixpoint store (n : nat) (m : Z -> Z) (a v : Z) : Z -> Z :=
  match n with O => m | S k => upd (store k m (a + 1) (v / 256)) (u64 a) (v mod 256) end.

(** The address of an operand, without segments and in 64-bit mode. *)
Definition address_of (rs : Z -> Z) (a : address) : option Z :=
  if a_gs a || a_rip a || negb (a_size a =? 8) then None
  else
    let b := match a_base a with Some n => rs n | None => 0 end in
    let i := match a_index a with Some (n, k) => rs n * k | None => 0 end in
    Some (u64 (b + i + a_disp a)).

Definition read_opnd (sz : Z) (o : opnd) (s : machine) : option Z :=
  match o with
  | OReg r => Some (reg_value (regs s) r)
  | OMem a => match address_of (regs s) a with Some p => Some (load (Z.to_nat sz) (mem s) p) | None => None end
  | OImm v => Some (wrap (8 * sz) v)
  | OCL => Some (wrap 8 (regs s 1))
  end.
Definition write_opnd (sz : Z) (o : opnd) (v : Z) (s : machine) : option machine :=
  match o with
  | OReg r => Some (with_state (write_reg (regs s) r v) (mem s) s)
  | OMem a => match address_of (regs s) a with Some p => Some (with_state (regs s) (store (Z.to_nat sz) (mem s) p v) s) | None => None end
  | OImm _ | OCL => None
  end.
Definition with_flags (f : option flags) (s : machine) : machine := mkMachine (regs s) (mem s) (match f with Some x => Some (f_cf x) | None => None end) f.
Definition with_carry (b : bool) (s : machine) : machine :=
  mkMachine (regs s) (mem s) (Some b) (match fl s with Some f => Some (mkFlags b (f_zf f) (f_sf f) (f_of f) (f_pf f)) | None => None end).

(** ** Arithmetic *)

Definition result_flags (w r : Z) (c o : bool) : flags := mkFlags c (r =? 0) (2 ^ (w - 1) <=? r) o (parity_even r).
Definition carry (s : machine) : option Z := match cy s with Some b => Some (Z.b2z b) | None => None end.
(** The eight operations, by number: the result and the flags. *)
Definition alu_result (op w a b c : Z) : Z * flags :=
  let sum x := let r := wrap w (a + b + x) in (r, result_flags w r (2 ^ w <=? a + b + x) (out_of_range w (sext w a + sext w b + x))) in
  let difference x := let r := wrap w (a - b - x) in (r, result_flags w r (a <? b + x) (out_of_range w (sext w a - sext w b - x))) in
  let logic r := (r, result_flags w r false false) in
  if op =? 0 then sum 0 else if op =? 1 then logic (Z.lor a b) else if op =? 2 then sum c else if op =? 3 then difference c
  else if op =? 4 then logic (Z.land a b) else if op =? 5 then difference 0 else if op =? 6 then logic (Z.lxor a b) else difference 0.

(** Shifts count modulo 32, or 64 for eight bytes. *)
Definition shift_count (sz n : Z) : Z := n mod (if sz =? 8 then 64 else 32).
Definition rotate_right (w v c : Z) : Z := let k := c mod w in Z.lor (Z.shiftr v k) (wrap w (Z.shiftl v (w - k))).
Definition shift_result (op w v c : Z) : option Z :=
  if op =? 1 then Some (rotate_right w v c)
  else if op =? 4 then Some (wrap w (Z.shiftl v c))
  else if op =? 5 then Some (Z.shiftr v c)
  else if op =? 7 then Some (wrap w (Z.shiftr (sext w v) c))
  else None.

Definition byte_swap (n : nat) (v : Z) : Z := le_value (rev (le_bytes n v)).

(** ** Instructions *)

Definition exec_alu (op sz : Z) (dst src : opnd) (s : machine) : option machine :=
  match read_opnd sz dst s, read_opnd sz src s, (if (op =? 2) || (op =? 3) then carry s else Some 0) with
  | Some a, Some b, Some c =>
      let '(r, f) := alu_result op (8 * sz) a b c in
      if op =? 7 then Some (with_flags (Some f) s)
      else match write_opnd sz dst r s with Some s1 => Some (with_flags (Some f) s1) | None => None end
  | _, _, _ => None
  end.
Definition exec_shift (op sz : Z) (dst amount : opnd) (s : machine) : option machine :=
  match read_opnd sz dst s, read_opnd 1 amount s with
  | Some v, Some n =>
      let c := shift_count sz n in
      match shift_result op (8 * sz) v c with
      | Some r =>
          match write_opnd sz dst r s with
          | Some s1 => Some (if c =? 0 then s1 else with_flags None s1)
          | None => None
          end
      | None => None
      end
  | _, _ => None
  end.
(** Products and quotients with the accumulator and rdx. *)
Definition RAX := 0.
Definition RCX := 1.
Definition RDX := 2.
Definition RSP := 4.
Definition exec_group3 (op sz : Z) (src : opnd) (s : machine) : option machine :=
  match read_opnd sz src s with
  | None => None
  | Some b =>
      let w := 8 * sz in
      if sz =? 1 then
        if op =? 4 then Some (with_flags None (with_state (write_reg (regs s) (R RAX 2) (reg_value (regs s) (R RAX 1) * b)) (mem s) s)) else None
      else
        let lo := reg_value (regs s) (R RAX sz) in
        let hi := reg_value (regs s) (R RDX sz) in
        let put l h := Some (with_flags None (with_state (write_reg (write_reg (regs s) (R RAX sz) l) (R RDX sz) h) (mem s) s)) in
        if op =? 4 then put (wrap w (lo * b)) (lo * b / 2 ^ w)
        else if op =? 6 then
          let n := hi * 2 ^ w + lo in
          if (b =? 0) || (2 ^ w <=? n / b) then None else put (n / b) (n mod b)
        else if op =? 7 then
          let n := sext (2 * w) (hi * 2 ^ w + lo) in
          let d := sext w b in
          if (d =? 0) || out_of_range w (Z.quot n d) then None else put (Z.quot n d) (Z.rem n d)
        else None
  end.
Definition exec_mov (sz : Z) (dst src : opnd) (s : machine) : option machine :=
  match read_opnd sz src s with Some v => write_opnd sz dst v s | None => None end.
Definition gpr_size (o : opnd) (default : Z) : Z := match o with OReg (R _ sz) => sz | OReg (RHigh _) => 1 | _ => default end.

Definition exec (i : insn) (s : machine) : option machine :=
  match i with
  | IAlu op sz dst src => exec_alu op sz dst src s
  | IMov sz dst src => exec_mov sz dst src s
  | IMovImm r v => Some (with_state (write_reg (regs s) r v) (mem s) s)
  | IMovzx from dst src => match read_opnd from src s with Some v => write_opnd (gpr_size dst 8) dst v s | None => None end
  | IMovsx from dst src => match read_opnd from src s with Some v => write_opnd (gpr_size dst 8) dst (sext (8 * from) v) s | None => None end
  | ILea r a => match address_of (regs s) a with Some p => Some (with_state (write_reg (regs s) r p) (mem s) s) | None => None end
  | ITest sz a b =>
      match read_opnd sz a s, read_opnd sz b s with
      | Some x, Some y => let r := Z.land x y in Some (with_flags (Some (result_flags (8 * sz) r false false)) s)
      | _, _ => None
      end
  | IXchg sz a b =>
      match read_opnd sz a s, read_opnd sz b s with
      | Some x, Some y => match write_opnd sz a y s with Some s1 => write_opnd sz b x s1 | None => None end
      | _, _ => None
      end
  | IShift op sz dst amount => exec_shift op sz dst amount s
  | IGroup3 op sz src => exec_group3 op sz src s
  | IImul sz dst src =>
      match read_opnd sz dst s, read_opnd sz src s with
      | Some a, Some b => match write_opnd sz dst (wrap (8 * sz) (a * b)) s with Some s1 => Some (with_flags None s1) | None => None end
      | _, _ => None
      end
  | IBsr sz dst src =>
      match read_opnd sz src s with
      | Some v => if v =? 0 then None else match write_opnd sz dst (Z.log2 v) s with Some s1 => Some (with_flags None s1) | None => None end
      | None => None
      end
  | ICmov cc sz dst src =>
      match read_opnd sz dst s, read_opnd sz src s, fl s with
      | Some a, Some b, Some f => write_opnd sz dst (if holds cc f then b else a) s
      | _, _, _ => None
      end
  | ISetcc cc dst => match fl s with Some f => write_opnd 1 dst (Z.b2z (holds cc f)) s | None => None end
  | IInc sz dst => None
  | IPush r =>
      let p := u64 (regs s RSP - 8) in
      Some (with_state (upd (regs s) RSP p) (store 8 (mem s) p (regs s r)) s)
  | IPop r =>
      let p := regs s RSP in
      Some (with_state (upd (upd (regs s) RSP (u64 (p + 8))) r (load 8 (mem s) p)) (mem s) s)
  | IBswap sz r => if sz =? 2 then None else Some (with_state (write_reg (regs s) (R r sz) (byte_swap (Z.to_nat sz) (reg_value (regs s) (R r sz)))) (mem s) s)
  | IConvert sz => Some (with_state (write_reg (regs s) (R RAX sz) (sext (4 * sz) (reg_value (regs s) (R RAX (sz / 2))))) (mem s) s)
  | IConvertD sz => Some (with_state (write_reg (regs s) (R RDX sz) (if 2 ^ (8 * sz - 1) <=? reg_value (regs s) (R RAX sz) then 2 ^ (8 * sz) - 1 else 0)) (mem s) s)
  | IClc => Some (with_carry false s)
  | IStc => Some (with_carry true s)
  | INop => Some s
  | _ => None
  end.
Fixpoint exec_all (is_ : list insn) (s : machine) : option machine :=
  match is_ with
  | [] => Some s
  | i :: r => match exec i s with Some s1 => exec_all r s1 | None => None end
  end.

(** ** Well-formed states *)

Record good (s : machine) : Prop := mkGood { good_regs : forall r, in_range 64 (regs s r); good_mem : forall a, in_range 8 (mem s a) }.

Lemma upd_same f k v : upd f k v k = v.
Proof. unfold upd. now rewrite Z.eqb_refl. Qed.
Lemma upd_other f k v x : x <> k -> upd f k v x = f x.
Proof. intros H. unfold upd. now rewrite (proj2 (Z.eqb_neq _ _) H). Qed.
