(* ===== verification/X86Lower.v ===== *)
(** * Lowering BlockJIT instructions to x86-64 (lowering/x86/Lower*.cpp)

    A lowerer turns the instruction it is given into calls of the encoder;
    some look at the instructions that follow, and take more than one.  [lop]
    is one call: [Op] of a plain method, [Reloc] of a jump whose target block
    is filled in later, [Align] of align_up.  A lowerer gets the instructions
    from its own on and gives the calls and how many instructions it took.
    X86LoweringContext's places of operands come first. *)

From Stdlib Require Import ZArith Lia List Bool.
From stdpp Require Import base numbers list.
From S2P Require Import Prelude BlockIR X86Encoder X86Conditions.
Import ListNotations.
#[local] Open Scope Z_scope.
#[local] Open Scope gensim_scope.

Inductive lop := Op (c : code) | Reloc (c : code) (place : Z -> Z) (target : Z) | Align (amount : Z).
Definition lops : Type := result (list lop).
Definition lowering : Type := result (list lop * nat).
Abbreviation osize := BlockIR.size.

(** ** Places of operands *)

(** REGS_RAX and the like: the register [k] with a width. *)
Definition REGS (k width : Z) : result X86Register :=
  if (width =? 8) || (width =? 4) || (width =? 2) then Ok (mkReg width (k mod 8) (8 <=? k) false)
  else if width =? 1 then Ok (mkReg 1 (k mod 8) (8 <=? k) ((4 <=? k) && (k <? 8)))
  else Err AssertFailed.
(** rax, rbx, rcx, r8, r9, r10, r11, r13, r14. *)
Definition register_assignments : list Z := [0; 3; 1; 8; 9; 10; 11; 13; 14].
Definition get_allocable_register (index width : Z) : result X86Register :=
  match register_assignments !! Z.to_nat index with
  | Some k => if (width =? 1) || (width =? 2) || (width =? 4) || (width =? 8) then REGS k width else Err UndefinedBehaviour
  | None => Err OutOfRange
  end.
Definition BLKJIT_TEMPS_0 : Z -> result X86Register := REGS 7.
Definition BLKJIT_TEMPS_1 : Z -> result X86Register := REGS 6.
Definition BLKJIT_TEMPS_2 : Z -> result X86Register := REGS 2.
Definition get_temp (id width : Z) : result X86Register :=
  if id =? 0 then BLKJIT_TEMPS_0 width else if id =? 1 then BLKJIT_TEMPS_1 width else if id =? 2 then BLKJIT_TEMPS_2 width else Err UndefinedBehaviour.
Definition BLKJIT_REGSTATE_REG : X86Register := REG_RBP.
Definition BLKJIT_CPUSTATE_REG : X86Register := REG_R12.
Definition register_width (oper : IROperand) (force_width : Z) : result X86Register :=
  check* is_alloc_reg oper or AssertFailed in
  get_allocable_register (alloc_data oper) (if force_width =? 0 then osize oper else force_width).
Definition register_from_operand (oper : IROperand) : result X86Register := register_width oper 0.
Definition stack_from_operand (oper : IROperand) : result X86Memory :=
  check* is_alloc_stack oper or AssertFailed in
  check* osize oper <=? 8 or AssertFailed in
  Ok (mem_disp REG_RSP (alloc_data oper)).
Definition regstate (offset : Z) : X86Memory := mem_disp BLKJIT_REGSTATE_REG offset.

Definition operand (insn : IRInstruction) (i : nat) : result IROperand := of_option OutOfRange (operands insn !! i).
(** [insn + 1]: memory behind the last instruction is not the context's. *)
Definition next_insn (insns : list IRInstruction) (i : nat) : result IRInstruction := of_option UndefinedBehaviour (insns !! i).
Definition one (l : lops) : lowering := let* ops := l in Ok (ops, 1%nat).
Definition ops (cs : list code) : lops := Ok (map Op cs).

Definition unspill_temp (oper : IROperand) (id : Z) : result (X86Register * list code) :=
  let* tmp := get_temp id (osize oper) in
  let* m := stack_from_operand oper in
  Ok (tmp, [mov_mr m tmp]).
Definition encode_operand_to_reg (operand : IROperand) (reg : X86Register) : result (list code) :=
  match op_type operand with
  | CONSTANT => if value operand =? 0 then Ok [xorr_rr reg reg] else Ok [mov_ir (value operand) reg]
  | VREG =>
      if is_alloc_stack operand then let* m := stack_from_operand operand in Ok [mov_mr m reg]
      else if is_alloc_reg operand then let* r := register_width operand (X86Encoder.size reg) in Ok [mov_rr r reg]
      else Err AssertFailed
  | _ => Err AssertFailed
  end.

(** ** Moves *)

Definition mov_constant_to_stack (v : Z) (dest : IROperand) (m : X86Memory) : lops :=
  if v =? 0 then let* t := get_temp 0 (osize dest) in ops [xorr_rr t t; mov_rm t m]
  else if osize dest =? 1 then ops [mov1 (u8 v) m]
  else if osize dest =? 2 then ops [mov2 (u16 v) m]
  else if osize dest =? 4 then ops [mov4 (u32 v) m]
  else if osize dest =? 8 then let* t := BLKJIT_TEMPS_0 8 in ops [mov_ir v t; mov_rm t m]
  else Err AssertFailed.
Definition LowerMov (insn : IRInstruction) : lops :=
  let* source := operand insn 0 in
  let* dest := operand insn 1 in
  if bool_decide (op_type source = VREG) then
    if is_alloc_reg source then
      let* src_reg := register_from_operand source in
      if is_alloc_reg dest then
        if alloc_data source =? alloc_data dest then ops []
        else let* d := register_from_operand dest in ops [mov_rr src_reg d]
      else if is_alloc_stack dest then let* m := stack_from_operand dest in ops [mov_rm src_reg m]
      else Err AssertFailed
    else if is_alloc_stack source then
      let* src_mem := stack_from_operand source in
      if is_alloc_reg dest then let* d := register_from_operand dest in ops [mov_mr src_mem d]
      else if is_alloc_stack dest then
        if alloc_data source =? alloc_data dest then ops []
        else let* tmp := get_temp 0 (osize source) in let* m := stack_from_operand dest in ops [mov_mr src_mem tmp; mov_rm tmp m]
      else Err AssertFailed
    else Err AssertFailed
  else if bool_decide (op_type source = CONSTANT) then
    if is_alloc_reg dest then
      let* d := register_from_operand dest in
      if value source =? 0 then ops [xorr_rr d d] else ops [mov_ir (value source) d]
    else if is_alloc_stack dest then let* m := stack_from_operand dest in mov_constant_to_stack (value source) dest m
    else Err AssertFailed
  else Err AssertFailed.

(** ** Operations with two operands *)

(** The methods of the encoder for one of them: register and register,
    register and memory, memory and register, immediate value and register,
    immediate value and memory. *)
Record methods := mkMethods {
  m_rr : X86Register -> X86Register -> code; m_rm : X86Register -> X86Memory -> code; m_mr : X86Memory -> X86Register -> code;
  m_ir : Z -> X86Register -> code; m_im : Z -> Z -> X86Memory -> code }.
Definition add_methods := mkMethods add_rr add_rm add_mr add_ir add_im.
Definition sub_methods := mkMethods sub_rr sub_rm sub_mr sub_ir sub_im.
Definition and_methods := mkMethods andd_rr andd_rm andd_mr andd_ir andd_im.
Definition or_methods := mkMethods orr_rr orr_rm orr_mr orr_ir orr_im.
Definition xor_methods := mkMethods xorr_rr xorr_rm xorr_mr xorr_ir xorr_im.

Definition LowerAddSub (insn : IRInstruction) : lops :=
  let* source := operand insn 0 in
  let* dest := operand insn 1 in
  let* f := match type insn with ADD => Ok add_methods | SUB => Ok sub_methods | _ => Err AssertFailed end in
  match op_type source with
  | VREG =>
      if is_alloc_reg source && is_alloc_reg dest then
        let* s := register_from_operand source in let* d := register_from_operand dest in ops [m_rr f s d]
      else if is_alloc_reg source && is_alloc_stack dest then
        let* s := register_from_operand source in let* m := stack_from_operand dest in ops [m_rm f s m]
      else if is_alloc_stack source && is_alloc_reg dest then
        let* m := stack_from_operand source in let* d := register_from_operand dest in ops [m_mr f m d]
      else if is_alloc_stack source && is_alloc_stack dest then
        let* m := stack_from_operand source in let* t := BLKJIT_TEMPS_0 (osize source) in let* m2 := stack_from_operand dest in
        ops [mov_mr m t; m_rm f t m2]
      else Err AssertFailed
  | PC => if is_alloc_reg dest then let* d := register_from_operand dest in ops [m_mr f (regstate 60) d] else Err AssertFailed
  | CONSTANT =>
      if is_alloc_reg dest then
        let* d := register_from_operand dest in
        if osize source =? 8 then let* tmp := get_temp 0 (osize dest) in ops [mov_ir (value source) tmp; m_rr f tmp d]
        else ops [m_ir f (u32 (value source)) d]
      else if is_alloc_stack dest then
        let* m := stack_from_operand dest in ops [m_im f (u32 (value source)) (osize dest) m]
      else Err AssertFailed
  | _ => Err AssertFailed
  end.

Definition LowerBitwise (insn : IRInstruction) : lops :=
  let* source := operand insn 0 in
  let* dest := operand insn 1 in
  let* f := match type insn with AND => Ok and_methods | OR => Ok or_methods | XOR => Ok xor_methods | _ => Err AssertFailed end in
  let idempotent := bool_decide (type insn <> XOR) in
  if is_vreg source then
    if is_alloc_reg source && is_alloc_reg dest then
      if idempotent && (alloc_data source =? alloc_data dest) then ops []
      else let* s := register_from_operand source in let* d := register_from_operand dest in ops [m_rr f s d]
    else if is_alloc_stack source && is_alloc_reg dest then
      let* m := stack_from_operand source in let* d := register_from_operand dest in ops [m_mr f m d]
    else if is_alloc_reg source && is_alloc_stack dest then
      let* s := register_from_operand source in let* m := stack_from_operand dest in ops [m_rm f s m]
    else if is_alloc_stack source && is_alloc_stack dest then
      let* temp := get_temp 0 (osize source) in
      let* m := stack_from_operand source in let* m2 := stack_from_operand dest in ops [mov_mr m temp; m_rm f temp m2]
    else Err AssertFailed
  else if is_constant source then
    if is_alloc_reg dest then
      let* d := register_from_operand dest in
      if osize source =? 8 then let* tmp := get_temp 0 8 in ops [mov_ir (value source) tmp; m_rr f tmp d]
      else ops [m_ir f (u32 (value source)) d]
    else if is_alloc_stack dest then
      let* m := stack_from_operand dest in
      if osize source <? 8 then ops [m_im f (u32 (value source)) (osize dest) m]
      else let* t := BLKJIT_TEMPS_0 8 in ops [mov_ir (value source) t; m_rm f t m]
    else Err AssertFailed
  else Err AssertFailed.

(** ** Widths *)

Definition movx_rr (insn : IRInstruction) (s d : X86Register) : result code :=
  match type insn with ZX => Ok (movzx_rr s d) | SX => Ok (movsx_rr s d) | _ => Err AssertFailed end.
(** Four to eight bytes. *)
Definition zx_4_8 (source dest : IROperand) : lops :=
  if is_alloc_reg source && is_alloc_reg dest then
    let* s := register_from_operand source in let* d := register_width dest 4 in ops [mov_rr s d]
  else if is_alloc_stack source && is_alloc_reg dest then
    let* m := stack_from_operand source in let* d := register_width dest 4 in ops [mov_mr m d]
  else if is_alloc_reg source && is_alloc_stack dest then
    let* s := register_from_operand source in let* s8 := register_width source 8 in let* m := stack_from_operand dest in
    ops [mov_rr s s; mov_rm s8 m]
  else if is_alloc_stack source && is_alloc_stack dest then
    let* m := stack_from_operand source in let* t4 := BLKJIT_TEMPS_0 4 in let* t8 := BLKJIT_TEMPS_0 8 in let* m2 := stack_from_operand dest in
    ops [mov_mr m t4; mov_rm t8 m2]
  else Err AssertFailed.
Definition sx_4_8 (source dest : IROperand) : lops :=
  let* source_reg := (if is_alloc_reg source then register_from_operand source else BLKJIT_TEMPS_0 (osize source)) in
  let* dest_reg := (if is_alloc_reg dest then register_from_operand dest else BLKJIT_TEMPS_1 (osize dest)) in
  let* before := (if is_alloc_stack source then let* m := stack_from_operand source in Ok [mov_mr m source_reg] else Ok []) in
  let* after := (if is_alloc_stack dest then let* m := stack_from_operand dest in Ok [mov_rm dest_reg m] else Ok []) in
  ops (before ++ [movsx_rr source_reg dest_reg] ++ after).
Definition LowerExtend (insn : IRInstruction) : lops :=
  let* source := operand insn 0 in
  let* dest := operand insn 1 in
  if is_vreg source then
    if (osize source =? 4) && (osize dest =? 8) then
      if bool_decide (type insn = ZX) then zx_4_8 source dest else sx_4_8 source dest
    else if is_alloc_reg source && is_alloc_reg dest then
      let* s := register_from_operand source in
      let* d := register_from_operand dest in
      match type insn with
      | SX =>
          if reg_eqb s (mkReg 4 0 false false) && reg_eqb d (mkReg 8 0 false false) then ops [cltq]
          else if reg_eqb s (mkReg 2 0 false false) && reg_eqb d (mkReg 4 0 false false) then ops [cwtl]
          else if reg_eqb s (mkReg 1 0 false false) && reg_eqb d (mkReg 2 0 false false) then ops [cbtw]
          else ops [movsx_rr s d]
      | _ => let* c := movx_rr insn s d in ops [c]
      end
    else if is_alloc_reg source && is_alloc_stack dest then
      let* tmpreg := get_temp 0 (osize dest) in
      let* s := register_from_operand source in
      let* c := movx_rr insn s tmpreg in
      let* m := stack_from_operand dest in
      ops [c; mov_rm tmpreg m]
    else if is_alloc_stack source && is_alloc_reg dest then
      let* u := unspill_temp source 0 in
      let* d := register_from_operand dest in
      let* c := movx_rr insn (fst u) d in
      ops (snd u ++ [c])
    else if is_alloc_stack source && is_alloc_stack dest then
      let* u := unspill_temp source 0 in
      let* t := get_temp 0 (osize dest) in
      let* c := movx_rr insn (fst u) t in
      let* m := stack_from_operand dest in
      ops (snd u ++ [c; mov_rm t m])
    else Err AssertFailed
  else if is_constant source then let* d := register_from_operand dest in ops [mov_ir (value source) d]
  else Err AssertFailed.
Definition LowerTrunc (insn : IRInstruction) : lops :=
  let* source := operand insn 0 in
  let* dest := operand insn 1 in
  if is_vreg source then
    if is_alloc_reg source && is_alloc_reg dest then
      if alloc_data source =? alloc_data dest then ops []
      else let* s := register_from_operand source in let* d := register_width dest (osize source) in ops [mov_rr s d]
    else if is_alloc_reg source && is_alloc_stack dest then
      let* s := register_from_operand source in let* m := stack_from_operand dest in ops [mov_rm s m]
    else if is_alloc_stack source && is_alloc_reg dest then
      let* m := stack_from_operand source in let* d := register_from_operand dest in ops [mov_mr m d]
    else if is_alloc_stack source && is_alloc_stack dest then
      if alloc_data source =? alloc_data dest then ops []
      else
        let* m := stack_from_operand source in let* t := get_temp 0 (osize source) in
        let* t2 := get_temp 0 (osize dest) in let* m2 := stack_from_operand dest in
        ops [mov_mr m t; mov_rm t2 m2]
    else Err AssertFailed
  else Err AssertFailed.

(** ** Comparisons *)

Definition cmp_im (v sz : Z) (m : X86Memory) : result (list code) :=
  if sz =? 1 then Ok [cmp1 (u8 v) m] else if sz =? 2 then Ok [cmp2 (u16 v) m] else if sz =? 4 then Ok [cmp4 (u32 v) m] else if sz =? 8 then Ok [cmp8 v m]
  else Err AssertFailed.
(** The comparison of a virtual register with something, and whether the
    operands are the other way round. *)
Definition compare_vreg (lhs rhs : IROperand) : result (list code * bool) :=
  match op_type rhs with
  | VREG =>
      if is_alloc_reg lhs && is_alloc_reg rhs then
        let* r := register_from_operand rhs in let* l := register_from_operand lhs in Ok ([cmp_rr r l], false)
      else if is_alloc_stack lhs && is_alloc_reg rhs then
        let* r := register_from_operand rhs in let* m := stack_from_operand lhs in Ok ([cmp_rm r m], false)
      else if is_alloc_reg lhs && is_alloc_stack rhs then
        let* l := register_from_operand lhs in let* m := stack_from_operand rhs in Ok ([cmp_rm l m], true)
      else if is_alloc_stack lhs && is_alloc_stack rhs then
        let* u := unspill_temp lhs 0 in let* m := stack_from_operand rhs in Ok (snd u ++ [cmp_rm (fst u) m], true)
      else Err AssertFailed
  | CONSTANT =>
      if is_alloc_reg lhs then let* l := register_from_operand lhs in Ok ([cmp_ir (u32 (value rhs)) l], false)
      else if is_alloc_stack lhs then let* m := stack_from_operand lhs in let* c := cmp_im (value rhs) (osize rhs) m in Ok (c, false)
      else Err AssertFailed
  | _ => Err AssertFailed
  end.
Definition compare_operands (lhs rhs : IROperand) : result (list code * bool) :=
  match op_type lhs with
  | VREG => compare_vreg lhs rhs
  | CONSTANT =>
      let* temp_reg := get_temp 0 (osize lhs) in
      let load := mov_ir (value lhs) temp_reg in
      match op_type rhs with
      | VREG =>
          if is_alloc_reg rhs then let* r := register_from_operand rhs in Ok ([load; cmp_rr r temp_reg], false)
          else if is_alloc_stack rhs then let* m := stack_from_operand rhs in Ok ([load; cmp_mr m temp_reg], false)
          else Err AssertFailed
      | CONSTANT => let* t1 := get_temp 1 (osize rhs) in Ok ([load; mov_ir (value rhs) t1; cmp_rr t1 temp_reg], false)
      | _ => Err AssertFailed
      end
  | _ => Err AssertFailed
  end.
Definition compare_signed_operands (lhs rhs : IROperand) : result (list code * bool) :=
  match op_type lhs with
  | VREG => compare_vreg lhs rhs
  | CONSTANT =>
      match op_type rhs with
      | VREG =>
          if is_alloc_reg rhs then let* r := register_from_operand rhs in Ok ([cmp_ir (u32 (value lhs)) r], true)
          else if is_alloc_stack rhs then
            let* m := stack_from_operand rhs in
            let* c := (if (osize lhs =? 1) || (osize lhs =? 2) || (osize lhs =? 4) || (osize lhs =? 8) then cmp_im (value lhs) (osize lhs) m else Ok []) in
            Ok (c, true)
          else Err AssertFailed
      | CONSTANT => let* t := get_temp 0 (osize rhs) in Ok ([mov_ir (value rhs) t; cmp_ir (u32 (value lhs)) t], true)
      | _ => Err AssertFailed
      end
  | _ => Err AssertFailed
  end.
Definition unsigned_set (t : IRInstructionType) (reversed : bool) (r : X86Register) : result code :=
  match t with
  | CMPEQ => Ok (sete r)
  | CMPNE => Ok (setne r)
  | CMPLT => Ok (if reversed then seta r else setb r)
  | CMPLTE => Ok (if reversed then setae r else setbe r)
  | CMPGT => Ok (if reversed then setb r else seta r)
  | CMPGTE => Ok (if reversed then setbe r else setae r)
  | _ => Err AssertFailed
  end.
Definition signed_set (t : IRInstructionType) (reversed : bool) (r : X86Register) : result code :=
  match t with
  | CMPSLT => Ok (if reversed then setg r else setl r)
  | CMPSLTE => Ok (if reversed then setge r else setle r)
  | CMPSGT => Ok (if reversed then setl r else setg r)
  | CMPSGTE => Ok (if reversed then setle r else setge r)
  | _ => Err AssertFailed
  end.
Definition is_equality (t : IRInstructionType) : bool := bool_decide (t = CMPEQ) || bool_decide (t = CMPNE).
(** The branch on the result of an equality: to the true block unless it
    fails, and to the false block unless that comes next. *)
Definition fused_branch (t : IRInstructionType) (br next : IRInstruction) : lops :=
  let* t_block := operand br 1 in
  let* f_block := operand br 2 in
  let first := Reloc (if bool_decide (t = CMPEQ) then je_reloc else jne_reloc) jcc_reloc_offset (value t_block) in
  Ok (first :: (if value f_block =? ir_block next then [] else [Reloc jmp_reloc jmp_reloc_offset (value f_block)])).
Definition should_fuse (insns : list IRInstruction) (dest : IROperand) : result bool :=
  let* nx := next_insn insns 1 in
  if bool_decide (type nx = BRANCH) then
    let* c := operand nx 0 in
    Ok (is_vreg c && (value c =? value dest) && is_alloc_reg dest)
  else Ok false.
Definition LowerCompare (insns : list IRInstruction) : lowering :=
  let* insn := next_insn insns 0 in
  let* lhs := operand insn 0 in
  let* rhs := operand insn 1 in
  let* dest := operand insn 2 in
  let* cmp := compare_operands lhs rhs in
  let* fuse := should_fuse insns dest in
  let* temp := BLKJIT_TEMPS_0 (osize dest) in
  let* dest_reg := (if is_alloc_reg dest then register_from_operand dest else Ok temp) in
  let* set := unsigned_set (type insn) (snd cmp) dest_reg in
  let* branch := (if fuse && is_equality (type insn) then
                    let* br := next_insn insns 1 in let* nx := next_insn insns 2 in fused_branch (type insn) br nx
                  else Ok []) in
  let* after := (if is_alloc_stack dest then let* m := stack_from_operand dest in Ok [mov_rm dest_reg m] else Ok []) in
  Ok (map Op (fst cmp ++ [set]) ++ branch ++ map Op after, if fuse && is_equality (type insn) then 2%nat else 1%nat).
Definition LowerCompareSigned (insns : list IRInstruction) : lowering :=
  let* insn := next_insn insns 0 in
  let* lhs := operand insn 0 in
  let* rhs := operand insn 1 in
  let* dest := operand insn 2 in
  let* cmp := compare_signed_operands lhs rhs in
  let* _ := should_fuse insns dest in
  let* dest_reg := (if is_alloc_reg dest then register_from_operand dest else BLKJIT_TEMPS_0 1) in
  let* set := signed_set (type insn) (snd cmp) dest_reg in
  let* after := (if is_alloc_stack dest then let* m := stack_from_operand dest in Ok [mov_rm dest_reg m] else Ok []) in
  one (ops (fst cmp ++ [set] ++ after)).
Definition LowerCMov (insn : IRInstruction) : lops :=
  let* predicate := operand insn 0 in
  let* yes := operand insn 1 in
  let* no := operand insn 2 in
  check* is_alloc_reg predicate && is_alloc_reg no or AssertFailed in
  check* is_constant yes || is_alloc_reg yes or AssertFailed in
  let* temp := BLKJIT_TEMPS_0 (osize yes) in
  let* yes_reg := (if is_constant yes then Ok temp else register_from_operand yes) in
  let* p := register_from_operand predicate in
  let* n := register_from_operand no in
  ops ((if is_constant yes then [mov_ir (value yes) temp] else []) ++ [test_rr p p; cmovne yes_reg n]).

(** ** Shifts *)

Definition shift_by_immediate (t : IRInstructionType) : result ((Z -> X86Register -> code) * (Z -> Z -> X86Memory -> code)) :=
  match t with SHL => Ok (shl_ir, shl_im) | SHR => Ok (shr_ir, shr_im) | SAR => Ok (sar_ir, sar_im) | ROR => Ok (ror_ir, ror_im) | _ => Err AssertFailed end.
Definition ShiftInsn (t : IRInstructionType) (operand : X86Register) : result code :=
  match t with
  | SHL => Ok (shl_rr REG_CL operand) | SHR => Ok (shr_rr REG_CL operand) | SAR => Ok (sar_rr REG_CL operand) | ROR => Ok (ror_rr REG_CL operand)
  | _ => Err AssertFailed
  end.
Definition REG_RCX : X86Register := mkReg 8 1 false false.
Definition is_rcx (r : X86Register) : bool := reg_eqb r (mkReg (X86Encoder.size r) 1 false false).
(** The amount in a register goes to cl; rcx may hold either operand. *)
Definition shift_registers (t : IRInstructionType) (amount_reg bits_reg : X86Register) : result (list code) :=
  if negb (is_rcx amount_reg) && negb (is_rcx bits_reg) then
    let* temp := BLKJIT_TEMPS_2 8 in
    let* cx := REGS 1 (X86Encoder.size amount_reg) in
    let* c := ShiftInsn t bits_reg in
    Ok [mov_rr REG_RCX temp; mov_rr amount_reg cx; c; mov_rr temp REG_RCX]
  else if negb (is_rcx amount_reg) then
    let* c := ShiftInsn t amount_reg in
    Ok [xchg bits_reg amount_reg; c; xchg bits_reg amount_reg]
  else if negb (is_rcx bits_reg) then let* c := ShiftInsn t bits_reg in Ok [c]
  else Err AssertFailed.
Definition LowerShift (insn : IRInstruction) : lops :=
  let* amount := operand insn 0 in
  let* dest := operand insn 1 in
  if is_constant amount then
    let* f := shift_by_immediate (type insn) in
    if is_alloc_reg dest then let* d := register_from_operand dest in ops [fst f (u8 (value amount)) d]
    else if is_alloc_stack dest then let* m := stack_from_operand dest in ops [snd f (u8 (value amount)) (osize dest) m]
    else Err AssertFailed
  else if is_vreg amount then
    let* a := (if is_alloc_stack amount then
                 let* r := BLKJIT_TEMPS_0 (osize amount) in let* m := stack_from_operand amount in Ok (r, [mov_mr m r])
               else let* r := register_from_operand amount in Ok (r, [])) in
    let* b := (if is_alloc_stack dest then
                 let* r := BLKJIT_TEMPS_1 (osize amount) in let* m := stack_from_operand dest in Ok (r, [mov_mr m r])
               else let* r := register_from_operand dest in Ok (r, [])) in
    let* c := shift_registers (type insn) (fst a) (fst b) in
    let* after := (if is_alloc_stack dest then let* m := stack_from_operand dest in Ok [mov_rm (fst b) m] else Ok []) in
    ops (snd a ++ snd b ++ c ++ after)
  else Err AssertFailed.

(** ** Products and quotients *)

Definition LowerIMul (insn : IRInstruction) : lops :=
  let* source := operand insn 0 in
  let* dest := operand insn 1 in
  let* dest_reg := (if is_alloc_reg dest then register_from_operand dest else BLKJIT_TEMPS_1 (osize source)) in
  check* is_vreg dest or AssertFailed in
  let* before := (if is_alloc_stack dest then let* m := stack_from_operand dest in Ok [mov_mr m dest_reg] else Ok []) in
  let* t := BLKJIT_TEMPS_0 (osize source) in
  let* product := (if is_constant source then Ok [mov_ir (value source) t; imul t dest_reg]
                   else if is_alloc_reg source then let* s := register_from_operand source in Ok [imul s dest_reg]
                   else if is_alloc_stack source then let* m := stack_from_operand source in Ok [mov_mr m t; imul t dest_reg]
                   else Err AssertFailed) in
  let* after := (if is_alloc_stack dest then
                   let* t1 := BLKJIT_TEMPS_1 (osize source) in let* m := stack_from_operand dest in Ok [mov_rm t1 m]
                 else Ok []) in
  ops (before ++ product ++ after).
Definition is_reg_rax (o : IROperand) : result bool :=
  if is_alloc_reg o then
    let* r := register_from_operand o in let* rax := REGS 0 (osize o) in Ok (reg_eqb r rax)
  else Ok false.
(** An operand in a register, its own or rsi. *)
Definition mul_operand (o : IROperand) : result (X86Register * list code) :=
  if is_alloc_reg o then let* r := register_from_operand o in Ok (r, [])
  else let* r := BLKJIT_TEMPS_1 (osize o) in let* c := encode_operand_to_reg o r in Ok (r, c).
Definition LowerUMul (insn : IRInstruction) : lops :=
  let* source := operand insn 0 in
  let* dest := operand insn 1 in
  let* rax_is_source := is_reg_rax source in
  let* rax_is_dest := is_reg_rax dest in
  let save := if rax_is_dest then [] else [mov_rr REG_RAX (mkReg 8 7 false false)] in
  let* m := (if rax_is_source && negb rax_is_dest then mul_operand dest
             else if rax_is_dest then mul_operand source
             else
               let* ax := REGS 0 (osize source) in
               let* load := encode_operand_to_reg source ax in
               let* d := mul_operand dest in
               Ok (fst d, load ++ snd d)) in
  let product := if 1 <? osize dest then X86Encoder.mul (fst m) else mul1 (fst m) in
  let* after :=
    (if rax_is_dest then Ok []
     else
       let* ax := REGS 0 (osize dest) in
       let* put := (if is_alloc_reg dest then let* d := register_from_operand dest in Ok [mov_rr ax d]
                    else if is_alloc_stack dest then let* mm := stack_from_operand dest in Ok [mov_rm ax mm]
                    else Ok []) in
       Ok (put ++ [mov_rr (mkReg 8 7 false false) REG_RAX])) in
  ops (save ++ snd m ++ [product] ++ after).

Definition REG_EDX : X86Register := mkReg 4 2 false false.
Definition LowerUDiv (insn : IRInstruction) : lops :=
  let* source := operand insn 0 in
  let* dest := operand insn 1 in
  let* temp := get_temp 0 4 in
  let* save := BLKJIT_TEMPS_1 8 in
  let* load_dest := encode_operand_to_reg dest REG_EAX in
  let* load_source := encode_operand_to_reg source temp in
  check* is_alloc_reg dest or AssertFailed in
  let* d := register_width dest 4 in
  ops ([mov_rr REG_RAX save; xorr_rr REG_EDX REG_EDX] ++ load_dest ++ load_source
       ++ [div temp; mov_rr REG_EAX temp; mov_rr save REG_RAX; mov_rr temp d]).
Definition LowerSDiv (insn : IRInstruction) : lops :=
  let* source := operand insn 0 in
  let* dest := operand insn 1 in
  let* temp := get_temp 0 4 in
  let* dest_reg := register_from_operand dest in
  let* save := BLKJIT_TEMPS_1 8 in
  let* rax := REGS 0 (osize dest) in
  let* load_source := encode_operand_to_reg source temp in
  let* load_dest := encode_operand_to_reg dest REG_EAX in
  let keep := negb (reg_eqb dest_reg rax) in
  ops ((if keep then [mov_rr REG_RAX save] else []) ++ load_source ++ load_dest ++ [cltd; idiv temp; mov_rr REG_EAX temp]
       ++ (if keep then [mov_rr save REG_RAX] else []) ++ [mov_rr temp dest_reg]).
Definition LowerMod (insn : IRInstruction) : lops :=
  let* source := operand insn 0 in
  let* dest := operand insn 1 in
  let* temp := get_temp 0 4 in
  let* load_dest := encode_operand_to_reg dest REG_EAX in
  let* load_source := encode_operand_to_reg source temp in
  check* is_alloc_reg dest or AssertFailed in
  let* d := register_width dest 4 in
  ops ([push_r REG_RAX; push_r REG_RDX; xorr_rr REG_EDX REG_EDX] ++ load_dest ++ load_source
       ++ [div temp; mov_rr REG_EDX temp; X86Encoder.pop REG_RDX; X86Encoder.pop REG_RAX; mov_rr temp d]).

Definition LowerBSwap (insn : IRInstruction) : lops :=
  let* source := operand insn 0 in
  let* destination := operand insn 1 in
  let* dest_reg := (if is_alloc_reg destination then register_from_operand destination else BLKJIT_TEMPS_0 (osize destination)) in
  let* load := (if is_alloc_reg source then let* s := register_from_operand source in Ok [mov_rr s dest_reg]
                else if is_alloc_stack source then let* m := stack_from_operand source in Ok [mov_mr m dest_reg]
                else Err NotImplemented) in
  let* after := (if is_alloc_stack destination then let* m := stack_from_operand destination in Ok [mov_rm dest_reg m] else Ok []) in
  ops (load ++ [bswap dest_reg] ++ after).
(** The destination is loaded too, when it is not in a register. *)
Definition LowerClz (insn : IRInstruction) : lops :=
  let* source := operand insn 0 in
  let* dest := operand insn 1 in
  check* is_vreg source && is_vreg dest or AssertFailed in
  let* t0 := BLKJIT_TEMPS_0 (osize source) in
  let* t1 := BLKJIT_TEMPS_1 (osize dest) in
  let* s := (if is_alloc_reg source then let* r := register_from_operand source in Ok (r, [])
             else let* c := encode_operand_to_reg source t0 in Ok (t0, c)) in
  let* d := (if is_alloc_reg dest then let* r := register_from_operand dest in Ok (r, [])
             else let* c := encode_operand_to_reg dest t1 in Ok (t1, c)) in
  let* after := (if is_alloc_stack dest then let* m := stack_from_operand dest in Ok [mov_rm (fst d) m] else Ok []) in
  ops (snd s ++ snd d ++ [bsr (fst s) (fst d); xorr_ir 0x1f (fst d)] ++ after).
