(* ===== verification/X86LowerFlow.v ===== *)
(** * Lowering of what is not arithmetic, and the driver (lowering/LoweringContext.cpp, lowering/x86/)

    The register file and the state block, calls of the simulator and the
    registers saved around them, jumps, the prologue and the epilogue.  Then
    the driver of LoweringContext: it lowers a block at a time, records where
    blocks start and where jumps to them are, and fills the jumps in.

    [behind] is what lies in the buffer of instructions behind the last one:
    some lowerers look at it.  A lowerer that returns false is
    [Err LogicError].  Tags of the register file, fields of the state block
    and addresses of functions are functions of the context. *)

From Stdlib Require Import ZArith Lia List Bool Ascii String.
From stdpp Require Import base numbers list gmap.
From S2P Require Import Prelude BlockIR X86Encoder X86Conditions X86Lower.
Import ListNotations.
#[local] Open Scope Z_scope.
#[local] Open Scope gensim_scope.

(** The registers that hold values around a call, with their slots, and
    whether a slot was added to align the stack. *)
Record call_state := mkCalls { _stack_map : gmap Z Z; _stack_fixed : bool }.
Record X86LoweringContext := mkX86 {
  used_phys_regs : list bool; _stack_frame_size : Z;
  GetTaggedEntry : string -> option Z; GetBlockOffset : string -> option Z; function_address : string -> Z }.
(** A lowerer sees the instruction before its own, its own and those behind. *)
Definition lowerer : Type := call_state -> option IRInstruction -> list IRInstruction -> result (list lop * nat * call_state).
Definition plain (f : list IRInstruction -> lowering) : lowerer := fun s _ insns => let* x := f insns in Ok (x, s).
Definition single (f : IRInstruction -> lops) : lowerer := plain (fun insns => let* i := next_insn insns 0 in one (f i)).
Definition REG_RDI := mkReg 8 7 false false.
Definition REG_RSI := mkReg 8 6 false false.
Definition REG_ESI := mkReg 4 6 false false.
Definition REG_R8 := mkReg 8 0 true false.
Definition REG_R9 := mkReg 8 1 true false.
Definition REG_R15 := mkReg 8 7 true false.
Definition BLKJIT_RETURN : X86Register := REG_R15.

Section Lowerers.
Context (ctx : X86LoweringContext).

Definition tagged (name : string) : result X86Memory := let* o := of_option LogicError (GetTaggedEntry ctx name) in Ok (regstate (u32 o)).
Definition state_field (name : string) : result X86Memory :=
  let* o := of_option LogicError (GetBlockOffset ctx name) in Ok (mem_disp BLKJIT_CPUSTATE_REG o).
Definition load_state_field (name : string) (r : X86Register) : result (list code) := let* m := state_field name in Ok [mov_mr m r].
Definition lea_state_field (name : string) (r : X86Register) : result (list code) := let* m := state_field name in Ok [lea m r].
(** [load_state_field(0, ...)]: a string is made of a null pointer. *)
Definition load_null_state_field (r : X86Register) : result (list code) := Err UndefinedBehaviour.

(** ** The register file *)

Definition ModifierIsMergable (t : IRInstructionType) : bool :=
  match t with ADD | SUB | OR | AND | XOR | SHL | SHR | ROR => true | _ => false end.
Fixpoint potential_killer (insns : list IRInstruction) : result IRInstruction :=
  match insns with
  | [] => Err UndefinedBehaviour
  | i :: r => match type i with INCPC | BARRIER => potential_killer r | _ => Ok i end
  end.
(** Whether an instruction writes the register before it reads it. *)
Fixpoint kills_value (t : IRInstructionType) (i : nat) (opers : list IROperand) (data : Z) : bool :=
  match opers with
  | [] => false
  | kop :: r =>
      let hit := is_alloc_reg kop && (alloc_data kop =? data) in
      let f := format_at t i in
      if (Ascii.eqb f "I" || Ascii.eqb f "B") && hit then false
      else if Ascii.eqb f "O" && hit then true
      else kills_value t (S i) r data
  end.
(** The operation on the register file itself; [None] when it is not fused. *)
Definition fuse_binary (f : methods) (source : IROperand) (slot : X86Memory) : result (option (list code)) :=
  if is_constant source then Ok (Some [m_im f (u32 (value source)) (osize source) slot])
  else if is_vreg source then let* r := register_from_operand source in Ok (Some [m_rm f r slot])
  else Err AssertFailed.
Definition fuse_shift (f : Z -> Z -> X86Memory -> code) (source : IROperand) (slot : X86Memory) : result (option (list code)) :=
  if is_constant source then Ok (Some [f (u8 (value source)) (osize source) slot])
  else if is_vreg source then Ok None
  else Err AssertFailed.
Definition fuse (t : IRInstructionType) (source : IROperand) (slot : X86Memory) : result (option (list code)) :=
  match t with
  | ADD => fuse_binary add_methods source slot
  | SUB => fuse_binary sub_methods source slot
  | OR => fuse_binary or_methods source slot
  | AND => fuse_binary and_methods source slot
  | XOR => fuse_binary xor_methods source slot
  | SHL => fuse_shift shl_im source slot
  | SHR => fuse_shift shr_im source slot
  | ROR => fuse_shift ror_im source slot
  | _ => Ok None
  end.
(** The three instructions that may become one: the operation, or [None]. *)
Definition read_modify_write (insn mod_insn store_insn : IRInstruction) : result (option (list code)) :=
  let* offset := operand insn 0 in
  let reg_offset := u32 (value offset) in
  if (ir_block mod_insn =? ir_block insn) && ModifierIsMergable (type mod_insn) && (ir_block store_insn =? ir_block insn)
     && bool_decide (type store_insn = WRITE_REG) then
    let* store_offset := operand store_insn 1 in
    if value store_offset =? reg_offset then
      let* my_target := operand insn 1 in
      let* modify_source := operand mod_insn 0 in
      let* modify_target := operand mod_insn 1 in
      let* store_source := operand store_insn 0 in
      if is_alloc_reg my_target && negb (is_alloc_stack modify_source) && negb (is_alloc_stack modify_target) && is_alloc_reg store_source
         && (alloc_data my_target =? alloc_data modify_target) && (alloc_data modify_target =? alloc_data store_source) then
        fuse (type mod_insn) modify_source (regstate reg_offset)
      else Ok None
    else Ok None
  else Ok None.
Definition read_slot (slot : X86Memory) (target : IROperand) : lops :=
  if is_alloc_reg target then let* r := register_from_operand target in ops [mov_mr slot r]
  else if is_alloc_stack target then let* t := get_temp 0 (osize target) in let* m := stack_from_operand target in ops [mov_mr slot t; mov_rm t m]
  else Err AssertFailed.
Definition read_register (insn : IRInstruction) : lops :=
  let* offset := operand insn 0 in
  let* target := operand insn 1 in
  if is_constant offset then read_slot (regstate (value offset)) target
  else if is_alloc_reg offset then let* r := register_from_operand offset in read_slot (mem_index BLKJIT_REGSTATE_REG r 1) target
  else Err AssertFailed.
Definition LowerReadReg (insns : list IRInstruction) : lowering :=
  let* insn := next_insn insns 0 in
  let* mod_insn := next_insn insns 1 in
  let* store_insn := next_insn insns 2 in
  let* killer := potential_killer (drop 3 insns) in
  let* fused := read_modify_write insn mod_insn store_insn in
  match fused with
  | Some cs =>
      let* offset := operand insn 0 in
      let* store_source := operand store_insn 0 in
      let* r := register_from_operand store_source in
      let kills := kills_value (type killer) 0 (operands killer) (alloc_data store_source) in
      Ok (map Op (cs ++ (if kills then [] else [mov_mr (regstate (u32 (value offset))) r])), 3%nat)
  | None => one (read_register insn)
  end.

Definition LowerWriteReg (insn : IRInstruction) : lops :=
  let* offset := operand insn 1 in
  let* val := operand insn 0 in
  if is_constant offset then
    let slot := regstate (value offset) in
    if is_constant val then
      if osize val =? 8 then let* t := BLKJIT_TEMPS_0 8 in ops [mov_ir (value val) t; mov_rm t slot]
      else if osize val =? 4 then ops [mov4 (u32 (value val)) slot]
      else if osize val =? 2 then ops [mov2 (u16 (value val)) slot]
      else if osize val =? 1 then ops [mov1 (u8 (value val)) slot]
      else Err LogicError
    else if is_vreg val then
      if is_alloc_reg val then let* r := register_from_operand val in ops [mov_rm r slot]
      else if is_alloc_stack val then
        let* tmp := get_temp 0 (osize val) in let* m := stack_from_operand val in ops [mov_mr m tmp; mov_rm tmp slot]
      else Err LogicError
    else Err LogicError
  else if is_vreg offset then
    if is_constant val then Err LogicError
    else if is_vreg val then
      let* tmp_value := get_temp 0 (osize val) in
      let* tmp_offset := get_temp 1 (osize offset) in
      if is_alloc_reg offset then
        let* r := register_from_operand offset in ops [mov_rr r tmp_offset; mov_rm tmp_value (mem_index BLKJIT_REGSTATE_REG tmp_offset 1)]
      else Err LogicError
    else Err LogicError
  else Err LogicError.

Definition LowerLoadPC (insn : IRInstruction) : lops :=
  let* target := operand insn 0 in
  check* is_vreg target or AssertFailed in
  let* pc := tagged "PC" in
  if is_alloc_reg target then let* r := register_from_operand target in ops [mov_mr pc r]
  else if is_alloc_stack target then let* t := BLKJIT_TEMPS_0 4 in let* m := stack_from_operand target in ops [mov_mr pc t; mov_rm t m]
  else ops [].
Definition LowerIncPC (insn : IRInstruction) : lops :=
  let* amount := operand insn 0 in
  let* pc := tagged "PC" in
  if is_constant amount then ops [add4 (u32 (value amount)) pc] else Err AssertFailed.
Definition LowerZNFlags (insn : IRInstruction) : lops :=
  let* val := operand insn 0 in
  let* z := tagged "Z" in
  let* n := tagged "N" in
  if is_alloc_reg val then let* r := register_from_operand val in ops [test_rr r r; setz_m z; sets_m n]
  else if is_alloc_stack val then Err AssertFailed
  else if is_constant val then
    let v := sext 64 (value val) in
    if v =? 0 then ops [mov1 0 n; mov1 1 z] else if v <? 0 then ops [mov1 1 n; mov1 0 z] else ops [mov1 0 n; mov1 0 z]
  else Err AssertFailed.

(** An addition or a subtraction with carry, for its flags: the methods
    without and with the carry. *)
Definition carry_methods : Type :=
  (X86Register -> X86Register -> code) * (X86Memory -> X86Register -> code) * (Z -> X86Register -> code).
Definition set_carry (carry_in : IROperand) : result (list code) :=
  let* t1 := get_temp 0 1 in
  if is_constant carry_in then if value carry_in =? 0 then Ok [] else Ok [stc]
  else if is_vreg carry_in then
    if is_alloc_reg carry_in then let* c := register_width carry_in 1 in Ok [mov_ir 0xff t1; add_rr c t1]
    else let* m := stack_from_operand carry_in in Ok [mov_ir 0xff t1; add_mr m t1]
  else Err AssertFailed.
Definition load_lhs (lhs : IROperand) (tmp : X86Register) : result (list code) :=
  if is_constant lhs then Ok [mov_ir (value lhs) tmp]
  else if is_vreg lhs then
    if is_alloc_reg lhs then let* r := register_width lhs 4 in Ok [mov_rr r tmp]
    else if is_alloc_stack lhs then let* m := stack_from_operand lhs in Ok [mov_mr m tmp]
    else Err AssertFailed
  else Err AssertFailed.
Definition apply_rhs (f : carry_methods) (rhs : IROperand) (tmp : X86Register) : result (list code) :=
  let '(rr, mr, ir) := f in
  if is_constant rhs then Ok [ir (u32 (value rhs)) tmp]
  else if is_vreg rhs then
    if is_alloc_reg rhs then let* r := register_width rhs 4 in Ok [rr r tmp]
    else if is_alloc_stack rhs then let* m := stack_from_operand rhs in Ok [mr m tmp]
    else Err AssertFailed
  else Err AssertFailed.
Definition lower_flags (without with_carry : carry_methods) (insn : IRInstruction) : lops :=
  let* lhs := operand insn 0 in
  let* rhs := operand insn 1 in
  let* carry_in := operand insn 2 in
  let* tmp := get_temp 0 4 in
  let* a := set_carry carry_in in
  let* b := load_lhs lhs tmp in
  let* c := apply_rhs (if is_constant carry_in && (value carry_in =? 0) then without else with_carry) rhs tmp in
  let* mc := tagged "C" in
  let* mv := tagged "V" in
  let* mz := tagged "Z" in
  let* mn := tagged "N" in
  ops (a ++ b ++ c ++ [setc_m mc; seto_m mv; setz_m mz; sets_m mn]).
Definition LowerAdcFlags : IRInstruction -> lops := lower_flags (add_rr, add_mr, add_ir) (adc_rr, adc_mr, adc_ir).
Definition LowerSbcFlags : IRInstruction -> lops := lower_flags (sub_rr, sub_mr, sub_ir) (sbc_rr, sbc_mr, sbc_ir).

Definition LowerScm (insn : IRInstruction) : lops :=
  let* val := operand insn 0 in
  let* t := BLKJIT_TEMPS_0 8 in
  let* l := lea_state_field "ModeID" t in
  if is_constant val then ops (l ++ [mov1 (u8 (value val)) (mem_base t)])
  else if is_alloc_reg val then let* r := register_from_operand val in ops (l ++ [mov_rm r (mem_base t)])
  else Err AssertFailed.
Definition LowerCount (insn : IRInstruction) : lops :=
  let* counter := operand insn 0 in
  let* amount := operand insn 1 in
  ops [mov_ir (value counter) REG_RDI; add8 (u32 (value amount)) (mem_base REG_RDI)].
Definition LowerTrap (insn : IRInstruction) : lops := ops [int3].

(** ** The frame *)

Definition ABICalleeSave (reg : X86Register) : bool :=
  if hireg reg then 4 <=? raw_index reg else (raw_index reg =? 3) || (raw_index reg =? 4) || (raw_index reg =? 5).
Fixpoint registers_at (idx : list Z) : result (list X86Register) :=
  match idx with
  | [] => Ok []
  | i :: r => let* reg := get_allocable_register i 8 in let* rest := registers_at r in Ok (reg :: rest)
  end.
Definition used_indices : list Z := filter (fun i => used_phys_regs ctx !! Z.to_nat i = Some true) (seqZ 0 (Z.of_nat (length (used_phys_regs ctx)))).
Definition GetSavedRegisters : result (list X86Register) :=
  let* used := registers_at (rev used_indices) in
  Ok (List.filter ABICalleeSave (used ++ [BLKJIT_RETURN; BLKJIT_REGSTATE_REG; BLKJIT_CPUSTATE_REG])).
Definition aligned16 (size : Z) : Z := if Z.land size 15 =? 0 then size else u32 (Z.land size (Z.lnot 15) + 16).
Definition GetStackFrameSize : Z := aligned16 (_stack_frame_size ctx).
Definition max_stack (saved : list X86Register) : Z :=
  let m := aligned16 GetStackFrameSize in if Z.odd (Z.of_nat (length saved)) then u32 (m + 8) else m.
Definition EmitPrologue : result (list code) :=
  let* saved := GetSavedRegisters in
  Ok (map push_r saved ++ (if max_stack saved =? 0 then [] else [sub_ir (max_stack saved) REG_RSP])).
Definition EmitEpilogue : result (list code) :=
  let* saved := GetSavedRegisters in
  Ok ((if max_stack saved =? 0 then [] else [add_ir (max_stack saved) REG_RSP]) ++ map X86Encoder.pop (rev saved)).
Definition LowerHeader : result (list code) :=
  let* p := EmitPrologue in
  Ok (p ++ [mov_rr REG_RDI BLKJIT_REGSTATE_REG; mov_rr REG_RSI BLKJIT_CPUSTATE_REG]).
Definition LowerRet (insn : IRInstruction) : lops := let* e := EmitEpilogue in ops (e ++ [ret]).

(** ** Calls *)

Definition saved_at_call : list Z := filter (fun i => Z.testbit 0xffffffff i = true) used_indices.
Fixpoint push_all (idx : list Z) (stack_offset : Z) (m : gmap Z Z) : result (list code * gmap Z Z) :=
  match idx with
  | [] => Ok ([], m)
  | i :: r =>
      let* reg := get_allocable_register i 8 in
      let* x := push_all r (stack_offset - 8) (<[i := stack_offset - 8]> m) in
      Ok (push_r reg :: fst x, snd x)
  end.
Definition emit_save_reg_state : result (list code * call_state) :=
  let fix_stack := Nat.even (length saved_at_call) in
  let* x := push_all (rev saved_at_call) (8 * Z.of_nat (length saved_at_call)) ∅ in
  Ok ((if fix_stack then [sub_ir 8 REG_RSP] else []) ++ fst x, mkCalls (snd x) fix_stack).
Definition emit_restore_reg_state (s : call_state) : result (list code) :=
  let* regs := registers_at saved_at_call in
  Ok (map X86Encoder.pop regs ++ (if _stack_fixed s then [add_ir 8 REG_RSP] else [])).
Definition encode_operand_function_argument (s : call_state) (oper : IROperand) (target_reg : X86Register) : result (list code) :=
  let entries := Z.of_nat (base.size (_stack_map s)) in
  let stack_offset_adjust := if Z.odd entries then 0 else 8 in
  if is_constant oper then Ok [if value oper =? 0 then xorr_rr target_reg target_reg else mov_ir (value oper) target_reg]
  else if is_vreg oper then
    if is_alloc_reg oper then
      let* _ := get_allocable_register (alloc_data oper) 8 in
      let* off := of_option OutOfRange (_stack_map s !! alloc_data oper) in Ok [mov_mr (mem_disp REG_RSP off) target_reg]
    else Ok [lea (mem_disp REG_RSP (stack_offset_adjust + alloc_data oper + 8 * entries)) target_reg]
  else Err AssertFailed.
Definition sysv_abi : list X86Register := [REG_RDI; REG_RSI; REG_RDX; REG_RCX; REG_R8; REG_R9].
Fixpoint call_arguments (s : call_state) (i : nat) (opers : list IROperand) : result (list code) :=
  match opers with
  | [] => Ok []
  | o :: r =>
      let* c := (if is_valid o then
                   let* reg := of_option UndefinedBehaviour (sysv_abi !! i) in encode_operand_function_argument s o reg
                 else Ok []) in
      let* cs := call_arguments s (S i) r in
      Ok (c ++ cs)
  end.
Definition count_operands (insn : IRInstruction) : nat := length (List.filter is_valid (operands insn)).
(** Calls in a row share the registers they save. *)
Definition same_call (insn other : IRInstruction) : bool := bool_decide (type other = CALL) && Nat.eqb (count_operands insn) (count_operands other).
Definition call_result (rval : IROperand) : result (list code) :=
  if is_vreg rval then
    if is_alloc_reg rval then let* r := register_from_operand rval in Ok [mov_rr REG_RAX r]
    else if is_alloc_stack rval then let* m := stack_from_operand rval in Ok [mov_rm REG_RAX m]
    else Err NotExpected
  else Ok [].
Definition LowerCall : lowerer := fun s prev insns =>
  let* insn := next_insn insns 0 in
  let* rval := operand insn 0 in
  let* target := operand insn 1 in
  check* is_func target or NotExpected in
  let* prev_insn := of_option UndefinedBehaviour prev in
  let* nx := next_insn insns 1 in
  let* save := (if same_call insn prev_insn then Ok ([], s) else emit_save_reg_state) in
  let s1 := snd save in
  let* thread := load_state_field "thread_ptr" REG_RDI in
  let* args := call_arguments s1 1 (drop 2 (operands insn)) in
  let* res := call_result rval in
  let* restore := (if same_call insn nx then Ok [] else emit_restore_reg_state s1) in
  Ok (map Op (fst save ++ thread ++ args ++ [mov_ir (value target) BLKJIT_RETURN; call_r BLKJIT_RETURN] ++ res ++ restore), 1%nat, s1).
(** The functions of the simulator that take the thread and some operands. *)
Definition call_function (name : string) : list code := [mov_ir (function_address ctx name) BLKJIT_RETURN; call_r BLKJIT_RETURN].
Definition call_with_two (name : string) (insn : IRInstruction) : result (list lop * nat * call_state) :=
  let* save := emit_save_reg_state in
  let s1 := snd save in
  let* thread := load_state_field "thread_ptr" REG_RDI in
  let* o0 := operand insn 0 in
  let* o1 := operand insn 1 in
  let* a := encode_operand_function_argument s1 o0 REG_RSI in
  let* b := encode_operand_function_argument s1 o1 REG_RDX in
  let* restore := emit_restore_reg_state s1 in
  Ok (map Op (fst save ++ thread ++ a ++ b ++ call_function name ++ restore), 1%nat, s1).
Definition LowerTakeException : lowerer := fun s _ insns => let* insn := next_insn insns 0 in call_with_two "cpuTakeException" insn.
Definition LowerSetCpuFeature : lowerer := fun s _ insns => let* insn := next_insn insns 0 in call_with_two "cpuSetFeature" insn.
Definition LowerReadDevice : lowerer := fun s _ insns =>
  let* insn := next_insn insns 0 in
  let* dev := operand insn 0 in
  let* reg := operand insn 1 in
  let* val := operand insn 2 in
  let* save := emit_save_reg_state in
  let s1 := snd save in
  let* thread := load_state_field "thread_ptr" REG_RDI in
  let* a := encode_operand_function_argument s1 dev REG_RSI in
  let* b := encode_operand_function_argument s1 reg REG_RDX in
  let* restore := emit_restore_reg_state s1 in
  check* is_alloc_reg val or AssertFailed in
  let* r := register_width val 8 in
  Ok (map Op ([sub_ir 8 REG_RSP; push_i 0; mov_rr REG_RSP REG_RCX] ++ fst save ++ thread ++ a ++ b ++ call_function "devReadDevice"
              ++ restore ++ [X86Encoder.pop r; add_ir 8 REG_RSP]), 1%nat, s1).
(** Writes in a row share the registers they save. *)
Definition LowerWriteDevice : lowerer := fun s prev insns =>
  let* insn := next_insn insns 0 in
  let* dev := operand insn 0 in
  let* reg := operand insn 1 in
  let* val := operand insn 2 in
  let* prev_insn := of_option UndefinedBehaviour prev in
  let* nx := next_insn insns 1 in
  let* save := (if bool_decide (type prev_insn = WRITE_DEVICE) then Ok ([], s) else emit_save_reg_state) in
  let s1 := snd save in
  let* thread := load_state_field "thread_ptr" REG_RDI in
  let* a := encode_operand_function_argument s1 dev REG_RSI in
  let* b := encode_operand_function_argument s1 reg REG_RDX in
  let* c := encode_operand_function_argument s1 val REG_RCX in
  let* restore := (if bool_decide (type nx = WRITE_DEVICE) then Ok [] else emit_restore_reg_state s1) in
  Ok (map Op (fst save ++ thread ++ a ++ b ++ c ++ call_function "devWriteDevice" ++ restore), 1%nat, s1).
Definition LowerProbeDevice : lowerer := fun s _ insns =>
  let* _ := next_insn insns 0 in
  let* _ := emit_save_reg_state in
  let* _ := load_null_state_field REG_RDI in Err UndefinedBehaviour.
Definition LowerFlushTlb : lowerer := LowerProbeDevice.
Definition LowerFlushTlbEntry : lowerer := LowerProbeDevice.

(** ** Jumps *)

Definition LowerBranch (insns : list IRInstruction) : lowering :=
  let* insn := next_insn insns 0 in
  let* cond := operand insn 0 in
  let* t_block := operand insn 1 in
  let* f_block := operand insn 2 in
  if is_vreg cond then
    let* test := (if is_alloc_reg cond then let* r := register_from_operand cond in Ok [test_rr r r]
                  else let* tmp := get_temp 0 1 in let* m := stack_from_operand cond in Ok [mov_mr m tmp; test_rr tmp tmp]) in
    let* nx := next_insn insns 1 in
    one (Ok (map Op test ++
      (if ir_block nx =? u32 (value t_block) then [Reloc jz_reloc jcc_reloc_offset (value f_block)]
       else if ir_block nx =? u32 (value f_block) then [Reloc jnz_reloc jcc_reloc_offset (value t_block)]
       else [Reloc jnz_reloc jcc_reloc_offset (value t_block); Reloc jmp_reloc jmp_reloc_offset (value f_block); Align 8])))
  else if is_constant cond then
    one (Ok [Reloc jmp_reloc jmp_reloc_offset (if value cond =? 0 then value f_block else value t_block); Align 8])
  else Err AssertFailed.
Definition LowerJmp (insns : list IRInstruction) : lowering :=
  let* insn := next_insn insns 0 in
  let* target := operand insn 0 in
  check* is_block target or AssertFailed in
  let* nx := next_insn insns 1 in
  if ir_block nx =? u32 (value target) then one (ops []) else one (Ok [Reloc jmp_reloc jmp_reloc_offset (value target); Align 8]).
Definition NOPLower (insn : IRInstruction) : lops := ops [].

(** Prepare's table, less the lowerers of floating point, vectors and guest
    memory: those are [others]. *)
Definition Prepare (others : IRInstructionType -> option lowerer) (t : IRInstructionType) : option lowerer :=
  match t with
  | NOP | BARRIER | INTCHECK => Some (single NOPLower)
  | SET_CPU_MODE => Some (single LowerScm)
  | SET_CPU_FEATURE => Some LowerSetCpuFeature
  | TRAP => Some (single LowerTrap)
  | CMOV => Some (single LowerCMov)
  | MOV => Some (single LowerMov)
  | UDIV => Some (single LowerUDiv)
  | SDIV => Some (single LowerSDiv)
  | IMUL => Some (single LowerIMul)
  | MUL => Some (single LowerUMul)
  | MOD => Some (single LowerMod)
  | READ_REG => Some (plain LowerReadReg)
  | DISPATCH | VERIFY => Some (fun _ _ _ => Err NotImplemented)
  | RET => Some (single LowerRet)
  | ADD | SUB => Some (single LowerAddSub)
  | WRITE_REG => Some (single LowerWriteReg)
  | JMP => Some (plain LowerJmp)
  | BRANCH => Some (plain LowerBranch)
  | CALL => Some LowerCall
  | LDPC => Some (single LowerLoadPC)
  | INCPC => Some (single LowerIncPC)
  | WRITE_DEVICE => Some LowerWriteDevice
  | READ_DEVICE => Some LowerReadDevice
  | PROBE_DEVICE => Some LowerProbeDevice
  | CLZ => Some (single LowerClz)
  | BSWAP => Some (single LowerBSwap)
  | AND | OR | XOR => Some (single LowerBitwise)
  | TRUNC => Some (single LowerTrunc)
  | SX | ZX => Some (single LowerExtend)
  | CMPEQ | CMPGT | CMPGTE | CMPLT | CMPLTE | CMPNE => Some (plain LowerCompare)
  | SHL | SHR | SAR | ROR => Some (single LowerShift)
  | FLUSH_DTLB | FLUSH_ITLB => Some LowerFlushTlb
  | FLUSH_DTLB_ENTRY | FLUSH_ITLB_ENTRY => Some LowerFlushTlbEntry
  | ADC_WITH_FLAGS => Some (single LowerAdcFlags)
  | SBC_WITH_FLAGS => Some (single LowerSbcFlags)
  | SET_ZN_FLAGS => Some (single LowerZNFlags)
  | TAKE_EXCEPTION => Some LowerTakeException
  | COUNT => Some (single LowerCount)
  | CMPSGT | CMPSGTE | CMPSLT | CMPSLTE => Some (plain LowerCompareSigned)
  | INVALID | ROL | POPCNT | FLUSH | PROFILE | FABS | VORI | VANDI | VXORI | VCMPEQI | VCMPGTI | VCMPGTEI | VCMPLTF => None
  | _ => others t
  end.
End Lowerers.

(** ** The driver *)

Record lowering_state := mkLowering {
  encoder : X86Encoder; _block_offsets : list Z; _block_relocations : list (Z * Z); calls : call_state }.
Definition with_encoder (e : X86Encoder) (s : lowering_state) : lowering_state :=
  mkLowering e (_block_offsets s) (_block_relocations s) (calls s).
Definition with_calls (c : call_state) (s : lowering_state) : lowering_state :=
  mkLowering (encoder s) (_block_offsets s) (_block_relocations s) c.
Definition RegisterBlockOffset (block offset : Z) (s : lowering_state) : lowering_state :=
  let l := _block_offsets s in
  let l1 := l ++ repeat 0 (Z.to_nat (block + 1) - length l) in
  mkLowering (encoder s) (<[Z.to_nat block := offset]> l1) (_block_relocations s) (calls s).
Definition RegisterBlockRelocation (offset block : Z) (s : lowering_state) : lowering_state :=
  mkLowering (encoder s) (_block_offsets s) (_block_relocations s ++ [(offset, block)]) (calls s).
Definition do_lop (l : lop) (s : lowering_state) : result lowering_state :=
  let here := _write_offset (encoder s) in
  match l with
  | Op c => let* es := c in let* e := run es (encoder s) in Ok (with_encoder e s)
  | Reloc c place target =>
      let* es := c in let* e := run es (encoder s) in Ok (RegisterBlockRelocation (place here) (u32 target) (with_encoder e s))
  | Align n => let* es := align_up n here in let* e := run es (encoder s) in Ok (with_encoder e s)
  end.
Fixpoint do_lops (l : list lop) (s : lowering_state) : result lowering_state :=
  match l with [] => Ok s | x :: r => let* s1 := do_lop x s in do_lops r s1 end.

Section Driver.
Context (_lowerers : IRInstructionType -> option lowerer) (insns behind : list IRInstruction).

(** The instruction at [at_]; how far it goes. *)
Definition LowerInstruction (at_ : nat) (s : lowering_state) : result (nat * lowering_state) :=
  let* insn := of_option UndefinedBehaviour (insns !! at_) in
  let* f := of_option LogicError (_lowerers (type insn)) in
  let prev := match at_ with O => None | S k => insns !! k end in
  let* x := f (calls s) prev (drop at_ insns ++ behind) in
  let '(l, taken, c) := x in
  let* s1 := do_lops l s in
  check* Nat.leb 1 taken or AssertFailed in
  Ok (at_ + taken, with_calls c s1)%nat.
Fixpoint lower_block_from (fuel : nat) (block_id : Z) (at_ : nat) (s : lowering_state) : result lowering_state :=
  match insns !! at_ with
  | None => Ok s
  | Some insn =>
      if (ir_block insn =? NOP_BLOCK) || (ir_block insn =? block_id) then
        match fuel with
        | O => Err OutOfFuel
        | S k => let* x := LowerInstruction at_ s in lower_block_from k block_id (fst x) (snd x)
        end
      else Ok s
  end.
Definition LowerBlock (block_id : Z) (block_start : nat) (s : lowering_state) : result lowering_state :=
  lower_block_from (length insns) block_id block_start (RegisterBlockOffset block_id (_write_offset (encoder s)) s).
(** The rest of the instructions, from the one at [ir_idx]. *)
Fixpoint lower_body_from (rest : list IRInstruction) (ir_idx : nat) (current_block : Z) (s : lowering_state) : result lowering_state :=
  match rest with
  | [] => Ok s
  | insn :: r =>
      if (ir_block insn =? NOP_BLOCK) || (ir_block insn =? current_block) then lower_body_from r (S ir_idx) current_block s
      else let* s1 := LowerBlock (ir_block insn) ir_idx s in lower_body_from r (S ir_idx) (ir_block insn) s1
  end.
Definition LowerBody (s : lowering_state) : result lowering_state := lower_body_from insns 0 NOP_BLOCK s.
End Driver.

(** Four bytes of the buffer. *)
Definition patch (at_ v : Z) (bs : list Z) : result (list Z) :=
  check* (0 <=? at_) && (at_ + 4 <=? Z.of_nat (length bs)) or UndefinedBehaviour in
  Ok (take (Z.to_nat at_) bs ++ le_bytes 4 v ++ drop (Z.to_nat at_ + 4) bs).
Fixpoint perform_relocations (offsets : list Z) (relocs : list (Z * Z)) (bs : list Z) : result (list Z) :=
  match relocs with
  | [] => Ok bs
  | (place, block) :: r =>
      let* off := of_option OutOfRange (offsets !! Z.to_nat block) in
      let* b1 := patch place (u32 (off - place - 4)) bs in
      perform_relocations offsets r b1
  end.
Definition PerformRelocations (s : lowering_state) : result lowering_state :=
  let* bs := perform_relocations (_block_offsets s) (_block_relocations s) (_buffer (encoder s)) in
  Ok (with_encoder (mkEncoder bs (_buffer_size (encoder s)) (_support_relocation (encoder s))) s).
Definition new_lowering : lowering_state := mkLowering new_encoder [] [] (mkCalls ∅ false).
Definition Lower (ctx : X86LoweringContext) (others : IRInstructionType -> option lowerer) (insns behind : list IRInstruction) : result lowering_state :=
  let* header := LowerHeader ctx in
  let* s1 := do_lops (map Op header) new_lowering in
  let* s2 := LowerBody (Prepare ctx others) insns behind s1 in
  PerformRelocations s2.
