(* ===== verification/X86Steps.v ===== *)
(** * Places of values at run time, and what lowered instructions compute

    A value lives in a register or in a slot above the stack pointer.  What
    an instruction reads from a place and writes to it, which places a write
    leaves alone, and the calls of the encoder with places as operands.
    [runs]: a list of instructions executes from a state and ends in one with
    a property; one lemma for each instruction the lowerers use, and for each
    call of the encoder on the registers and slots they name.

    [ir_value]: the value an instruction of the IR gives its destination, of
    what its operands hold.  [computes]: the calls a lowerer makes assemble to
    instructions that put this value in the destination and change nothing
    else but temporaries.  [supported]: the operands for which the lowerers do
    so. *)

From Stdlib Require Import ZArith Lia List Bool.
From stdpp Require Import base numbers list.
From S2P Require Import Prelude BlockIR X86Encoder X86Decode X86Shapes X86Conditions X86Machine X86Lower.
Import ListNotations.
#[local] Open Scope Z_scope.
#[local] Open Scope gensim_scope.

Inductive place := InReg (k : Z) | OnStack (d : Z).
(** Not the stack pointer itself. *)
Definition valid_place (p : place) : bool :=
  match p with InReg k => (0 <=? k) && (k <? 16) && negb (k =? 4) | OnStack d => (- 2 ^ 31 <=? d) && (d <? 2 ^ 31) end.
Definition slot (d : Z) : address := mkAddress false 8 (Some 4) None d false.
Definition opnd_of (p : place) (sz : Z) : opnd := match p with InReg k => OReg (R k sz) | OnStack d => OMem (slot d) end.
Definition slot_address (s : machine) (d : Z) : Z := regs s 4 + d.
Definition held (s : machine) (p : place) (sz : Z) : Z :=
  match p with InReg k => wrap (8 * sz) (regs s k) | OnStack d => load (Z.to_nat sz) (mem s) (slot_address s d) end.
(** Nothing but these places is changed; a slot has eight bytes. *)
Definition in_slot (s : machine) (a : Z) (p : place) : Prop :=
  match p with InReg _ => False | OnStack d => exists i, 0 <= i < 8 /\ a = u64 (slot_address s d + i) end.
Record frame (ps : list place) (s s1 : machine) : Prop := mkFrame {
  frame_regs : forall r, ~ In (InReg r) ps -> regs s1 r = regs s r;
  frame_mem : forall a, (forall p, In p ps -> ~ in_slot s a p) -> mem s1 a = mem s a }.
Definition apart (p q : place) : bool :=
  match p, q with
  | InReg k, InReg l => negb (k =? l)
  | OnStack d, OnStack e => (8 <=? Z.abs (d - e)) && (Z.abs (d - e) <? 2 ^ 63)
  | _, _ => true
  end.

(** ** Loads and stores *)

Lemma u64_inj_near a b : u64 a = u64 b -> Z.abs (a - b) < 2 ^ 64 -> a = b.
Proof.
  unfold u64, wrap. intros H Hd. pose proof (Z.div_mod a (2 ^ 64) ltac:(lia)). pose proof (Z.div_mod b (2 ^ 64) ltac:(lia)).
  assert (a - b = 2 ^ 64 * (a / 2 ^ 64 - b / 2 ^ 64)) by lia. nia.
Qed.
Lemma u64_add a b : u64 (u64 a + b) = u64 (a + b).
Proof. unfold u64, wrap. now rewrite Zplus_mod_idemp_l. Qed.
Lemma u64_idem a : u64 (u64 a) = u64 a.
Proof. unfold u64. apply wrap_wrap. lia. Qed.
Lemma load_ext n f g a : (forall i, 0 <= i < Z.of_nat n -> f (u64 (a + i)) = g (u64 (a + i))) -> load n f a = load n g a.
Proof.
  revert a. induction n as [|n IH]; intros a H; cbn [load]; [reflexivity |].
  pose proof (H 0 ltac:(lia)) as H0. rewrite Z.add_0_r in H0. rewrite H0. f_equal. f_equal. apply IH. intros i Hi.
  replace (a + 1 + i) with (a + (1 + i)) by lia. apply H. lia.
Qed.
Lemma load_u64 n f a : load n f (u64 a) = load n f a.
Proof.
  revert a. induction n as [|n IH]; intros a; cbn [load]; [reflexivity |].
  rewrite u64_idem. f_equal. f_equal. rewrite <- (IH (u64 a + 1)), u64_add, IH. reflexivity.
Qed.
Lemma store_u64 n f a v x : store n f (u64 a) v x = store n f a v x.
Proof.
  revert a v x. induction n as [|n IH]; intros a v x; cbn [store]; [reflexivity |].
  rewrite u64_idem. unfold upd. destruct (x =? u64 a); [reflexivity |]. rewrite <- (IH (u64 a + 1)), u64_add, IH. reflexivity.
Qed.
Lemma store_other n f a v x : (forall i, 0 <= i < Z.of_nat n -> x <> u64 (a + i)) -> store n f a v x = f x.
Proof.
  revert a v. induction n as [|n IH]; intros a v H; cbn [store]; [reflexivity |].
  rewrite upd_other by (rewrite <- (Z.add_0_r a) at 1; apply H; lia).
  apply IH. intros i Hi. replace (a + 1 + i) with (a + (1 + i)) by lia. apply H. lia.
Qed.
Lemma mod_split v k : 0 <= k -> v mod 256 + 256 * ((v / 256) mod 2 ^ (8 * k)) = v mod 2 ^ (8 * (1 + k)).
Proof.
  intros H. replace (8 * (1 + k)) with (8 + 8 * k) by lia. rewrite Z.pow_add_r by lia. change (2 ^ 8) with 256.
  rewrite Z.rem_mul_r by lia. reflexivity.
Qed.
Lemma load_stored k n f a v : (k <= n)%nat -> (n <= 8)%nat -> load k (store n f a v) a = v mod 2 ^ (8 * Z.of_nat k).
Proof.
  revert n f a v. induction k as [|k IH]; intros n f a v H1 H2; cbn [load]; [now rewrite Z.mod_1_r |].
  destruct n as [|n]; [lia |]. cbn [store]. rewrite upd_same.
  rewrite (load_ext k _ (store n f (a + 1) (v / 256))).
  - rewrite IH by lia. rewrite mod_split by lia. f_equal. f_equal. lia.
  - intros i Hi. apply upd_other. intros E. apply u64_inj_near in E; lia.
Qed.
Lemma load_range n f a : (forall x, in_range 8 (f x)) -> in_range (8 * Z.of_nat n) (load n f a).
Proof.
  intros H. revert a. induction n as [|n IH]; intros a; cbn [load]; unfold in_range in *; [cbn; lia |].
  specialize (IH (a + 1)). specialize (H (u64 a)). replace (8 * Z.of_nat (S n)) with (8 + 8 * Z.of_nat n) by lia.
  rewrite Z.pow_add_r by lia. change (2 ^ 8) with 256 in *. lia.
Qed.
Lemma store_range n f a v : (forall x, in_range 8 (f x)) -> forall x, in_range 8 (store n f a v x).
Proof.
  intros H. revert a v. induction n as [|n IH]; intros a v x; cbn [store]; [apply H |]. unfold upd.
  destruct (x =? u64 a); [unfold in_range; apply Z.mod_pos_bound; lia | apply IH].
Qed.
Lemma load_narrow k n f a : (k <= n)%nat -> (forall x, in_range 8 (f x)) -> load k f a = load n f a mod 2 ^ (8 * Z.of_nat k).
Proof.
  intros Hk Hf. revert n a Hk. induction k as [|k IH]; intros n a Hk; cbn [load]; [now rewrite Z.mod_1_r |].
  destruct n as [|n]; [lia |]. cbn [load]. rewrite (IH n) by lia. pose proof (Hf (u64 a)) as Hb. unfold in_range in Hb. change (2 ^ 8) with 256 in Hb.
  set (l := load n f (a + 1)). replace (8 * Z.of_nat (S k)) with (8 * (1 + Z.of_nat k)) by lia. rewrite <- mod_split by lia.
  replace (f (u64 a) + 256 * l) with (l * 256 + f (u64 a)) by lia. rewrite Z.div_add_l by lia.
  rewrite (Z.div_small (f (u64 a))) by lia. rewrite Z.add_0_r. rewrite (Z.add_comm (l * 256)), Z.mod_add by lia. rewrite (Z.mod_small (f _)) by lia. reflexivity.
Qed.

(** ** Widths *)

Lemma valid_size_cases sz : valid_size sz = true -> sz = 1 \/ sz = 2 \/ sz = 4 \/ sz = 8.
Proof. unfold valid_size. lia. Qed.
Lemma width_nat sz : valid_size sz = true -> 8 * Z.of_nat (Z.to_nat sz) = 8 * sz.
Proof. intros H. apply valid_size_cases in H. lia. Qed.
Lemma wrap_narrow v w1 w2 : 0 <= w1 <= w2 -> wrap w1 (wrap w2 v) = wrap w1 v.
Proof.
  intros H. unfold wrap. apply Z.mod_mod_divide. exists (2 ^ (w2 - w1)). rewrite <- Z.pow_add_r by lia. f_equal. lia.
Qed.
Lemma in_range_wider w1 w2 v : 0 <= w1 <= w2 -> in_range w1 v -> in_range w2 v.
Proof. unfold in_range. intros H Hv. pose proof (Z.pow_le_mono_r 2 w1 w2 ltac:(lia) ltac:(lia)). lia. Qed.

Lemma held_range s p sz : good s -> valid_size sz = true -> in_range (8 * sz) (held s p sz).
Proof.
  intros [Hr Hm] Hs. destruct p as [k | d]; cbn [held].
  - apply wrap_range. apply valid_size_cases in Hs. lia.
  - rewrite <- (width_nat sz Hs). now apply load_range.
Qed.
Lemma held_narrow s p k sz : good s -> valid_size k = true -> valid_size sz = true -> k <= sz -> held s p k = wrap (8 * k) (held s p sz).
Proof.
  intros [Hr Hm] Hk Hs Hle. pose proof (valid_size_cases _ Hk) as Ck. destruct p as [j | d]; cbn [held].
  - symmetry. apply wrap_narrow. lia.
  - rewrite (load_narrow (Z.to_nat k) (Z.to_nat sz)); [| lia | assumption]. now rewrite (width_nat k Hk).
Qed.

(** ** Reading and writing *)

Lemma slot_addressed rs d : address_of rs (slot d) = Some (u64 (rs 4 + d)).
Proof. unfold address_of, slot. cbn. now rewrite Z.add_0_r. Qed.
Lemma read_place p sz s : read_opnd sz (opnd_of p sz) s = Some (held s p sz).
Proof.
  destruct p as [k | d]; cbn [opnd_of read_opnd held reg_value]; [reflexivity |].
  rewrite slot_addressed, load_u64. reflexivity.
Qed.

(** After [v] was written to [p]. *)
Record after (p : place) (sz v : Z) (s s1 : machine) : Prop := mkAfter {
  after_good : good s1; after_held : held s1 p sz = wrap (8 * sz) v; after_frame : frame [p] s s1;
  after_full : sz = 4 -> held s1 p 8 = wrap 32 v \/ exists d, p = OnStack d }.
Lemma low_replaced_range old sz v : valid_size sz = true -> in_range 64 old -> in_range 64 (low_replaced old sz v).
Proof.
  intros Hs Ho. unfold low_replaced, wrap, in_range in *. apply valid_size_cases in Hs.
  set (m := 2 ^ (8 * sz)). assert (Hm : 0 < m) by (apply Z.pow_pos_nonneg; lia).
  pose proof (Z.mod_pos_bound v m Hm). pose proof (Z.div_mod old m ltac:(lia)). pose proof (Z.mod_pos_bound old m Hm).
  assert (Hd : (m | 2 ^ 64)).
  { exists (2 ^ (64 - 8 * sz)). unfold m. rewrite <- Z.pow_add_r by lia. f_equal. lia. }
  destruct Hd as [q Hq]. assert (Hlt : old / m < q).
  { apply Z.div_lt_upper_bound; [lia |]. rewrite Z.mul_comm, <- Hq. exact (proj2 Ho). }
  assert (Hge : 0 <= old / m) by (apply Z.div_pos; lia). clearbody m. generalize dependent (old / m). generalize dependent (old mod m). generalize dependent (v mod m). intros c Hc b Hb a E Hlt Hge.
  assert (m * (a + 1) <= m * q) by (apply Z.mul_le_mono_nonneg_l; lia). nia.
Qed.
Lemma low_replaced_low old sz v : valid_size sz = true -> wrap (8 * sz) (low_replaced old sz v) = wrap (8 * sz) v.
Proof.
  intros Hs. unfold low_replaced, wrap. apply valid_size_cases in Hs. assert (Hm : 0 < 2 ^ (8 * sz)) by (apply Z.pow_pos_nonneg; lia).
  pose proof (Z.div_mod old (2 ^ (8 * sz)) ltac:(lia)).
  replace (old - old mod 2 ^ (8 * sz)) with (old / 2 ^ (8 * sz) * 2 ^ (8 * sz)) by lia.
  rewrite Z.add_comm, Z.mod_add by lia. apply Z.mod_mod. lia.
Qed.
Lemma write_reg_place k sz v s :
  valid_size sz = true -> good s -> after (InReg k) sz v s (with_state (write_reg (regs s) (R k sz) v) (mem s) s).
Proof.
  intros Hs [Hr Hm]. set (x := if (sz =? 8) || (sz =? 4) then wrap (8 * sz) v else low_replaced (regs s k) sz v).
  assert (Hx : in_range 64 x).
  { unfold x. destruct ((sz =? 8) || (sz =? 4)) eqn:E; [| now apply low_replaced_range].
    apply (in_range_wider (8 * sz)); [lia |]. apply wrap_range. lia. }
  assert (Hl : wrap (8 * sz) x = wrap (8 * sz) v).
  { unfold x. destruct ((sz =? 8) || (sz =? 4)) eqn:E; [apply wrap_wrap; lia | now apply low_replaced_low]. }
  split.
  - split; cbn; [| exact Hm]. intros r. unfold upd. destruct (r =? k); [exact Hx | apply Hr].
  - cbn. now rewrite upd_same.
  - split; cbn; [| reflexivity]. intros r Hn. apply upd_other. intros ->. apply Hn. now left.
  - intros ->. left. cbn. rewrite upd_same. apply wrap_small. apply (in_range_wider 32); [lia |]. apply wrap_range. lia.
Qed.
Lemma write_slot_place d sz v s :
  valid_size sz = true -> good s ->
  after (OnStack d) sz v s (with_state (regs s) (store (Z.to_nat sz) (mem s) (u64 (slot_address s d)) v) s).
Proof.
  intros Hs [Hr Hm]. pose proof (valid_size_cases _ Hs) as C. split.
  - split; cbn; [exact Hr |]. now apply store_range.
  - cbn [held with_state mem regs]. unfold slot_address. cbn [regs with_state]. rewrite <- load_u64, load_stored by lia. now rewrite (width_nat sz Hs).
  - split; cbn; [reflexivity |]. intros a Ha. rewrite store_u64. apply store_other. intros i Hi ->.
    apply (Ha (OnStack d)); [now left |]. exists i. split; [lia | reflexivity].
  - right. eauto.
Qed.
Lemma write_place p sz v s :
  valid_size sz = true -> good s -> exists s1, write_opnd sz (opnd_of p sz) v s = Some s1 /\ after p sz v s s1.
Proof.
  intros Hs Hg. destruct p as [k | d]; cbn [opnd_of write_opnd].
  - eexists. split; [reflexivity |]. now apply write_reg_place.
  - rewrite slot_addressed. eexists. split; [reflexivity |]. now apply write_slot_place.
Qed.

(** ** Frames *)

Lemma frame_refl ps s : frame ps s s.
Proof. split; reflexivity. Qed.
Lemma frame_sub ps qs s s1 : incl ps qs -> frame ps s s1 -> frame qs s s1.
Proof. intros H [Hr Hm]. split; [intros r Hn; apply Hr | intros a Ha; apply Hm]; auto. Qed.
Lemma in_slot_same s s1 a p : regs s1 4 = regs s 4 -> in_slot s1 a p <-> in_slot s a p.
Proof. intros E. destruct p; cbn; [tauto |]. unfold slot_address. now rewrite E. Qed.
Lemma frame_trans ps qs s s1 s2 : ~ In (InReg 4) ps -> frame ps s s1 -> frame qs s1 s2 -> frame (ps ++ qs) s s2.
Proof.
  intros H4 [Hr Hm] [Hr2 Hm2]. split.
  - intros r Hn. rewrite Hr2, Hr; [reflexivity | |]; intros Hi; apply Hn, in_app_iff; tauto.
  - intros a Ha. rewrite Hm2, Hm; [reflexivity | |]; intros p Hp; [apply Ha, in_app_iff; tauto |].
    rewrite (in_slot_same s) by (now apply Hr). apply Ha, in_app_iff. tauto.
Qed.
Lemma held_frame ps s s1 q sz :
  frame ps s s1 -> ~ In (InReg 4) ps -> forallb (fun p => apart p q) ps = true -> valid_size sz = true -> held s1 q sz = held s q sz.
Proof.
  intros [Hr Hm] H4 Ha Hs. pose proof (valid_size_cases _ Hs) as C. rewrite forallb_forall in Ha. destruct q as [k | d]; cbn [held].
  - rewrite Hr; [reflexivity |]. intros Hi. specialize (Ha _ Hi). cbn in Ha. rewrite Z.eqb_refl in Ha. discriminate.
  - unfold slot_address. rewrite (Hr 4 H4). apply load_ext. intros i Hi. apply Hm. intros p Hp Hin. specialize (Ha _ Hp).
    destruct p as [l | e]; cbn in Hin, Ha; [exact Hin |]. destruct Hin as (j & Hj & E). unfold slot_address in E. apply u64_inj_near in E; lia.
Qed.
Lemma after_apart p sz v s s1 q sz' :
  after p sz v s s1 -> p <> InReg 4 -> apart p q = true -> valid_size sz' = true -> held s1 q sz' = held s q sz'.
Proof.
  intros [_ _ Hf _] Hp Ha Hs. apply (held_frame [p]); [exact Hf | | | exact Hs].
  - intros [E | []]. congruence.
  - cbn. now rewrite Ha.
Qed.

Definition runs (l : list insn) (s : machine) (Q : machine -> Prop) : Prop := exists s1, exec_all l s = Some s1 /\ Q s1.
Lemma runs_nil s (Q : machine -> Prop) : Q s -> runs [] s Q.
Proof. intros H. exists s. split; [reflexivity | exact H]. Qed.
Lemma runs_step i r s s1 Q : exec i s = Some s1 -> runs r s1 Q -> runs (i :: r) s Q.
Proof. intros E (s2 & H & HQ). exists s2. cbn [exec_all]. rewrite E. auto. Qed.
Lemma runs_weaken l s (Q R : machine -> Prop) : runs l s Q -> (forall s1, Q s1 -> R s1) -> runs l s R.
Proof. intros (s1 & E & H) HR. exists s1. auto. Qed.

Lemma held_ext s s1 p sz : regs s1 = regs s -> mem s1 = mem s -> held s1 p sz = held s p sz.
Proof. intros E1 E2. destruct p; cbn; unfold slot_address; now rewrite ?E1, ?E2. Qed.
Lemma after_ext p sz v s s1 s2 : regs s2 = regs s1 -> mem s2 = mem s1 -> after p sz v s s1 -> after p sz v s s2.
Proof.
  intros E1 E2 [[Gr Gm] Hh [Fr Fm] Hf]. split.
  - split; intros; rewrite ?E1, ?E2; auto.
  - now rewrite (held_ext s1 s2).
  - split; intros; rewrite ?E1, ?E2; auto.
  - intros Es. rewrite (held_ext s1 s2) by assumption. auto.
Qed.
Lemma runs_write i r p sz v s Q :
  valid_size sz = true -> good s ->
  (forall s1, write_opnd sz (opnd_of p sz) v s = Some s1 -> exists s2, exec i s = Some s2 /\ regs s2 = regs s1 /\ mem s2 = mem s1) ->
  (forall s2, after p sz v s s2 -> runs r s2 Q) -> runs (i :: r) s Q.
Proof.
  intros Hs Hg He Hr. destruct (write_place p sz v s Hs Hg) as (s1 & E & A). destruct (He _ E) as (s2 & E2 & R1 & R2).
  apply (runs_step i r s s2); [exact E2 |]. apply Hr. now apply (after_ext _ _ _ _ s1).
Qed.
Lemma gpr_size_place k sz d : gpr_size (opnd_of (InReg k) sz) d = sz.
Proof. reflexivity. Qed.

Lemma write_reg_imm rs k sz v : valid_size sz = true -> write_reg rs (if sz =? 4 then R k 8 else R k sz) (wrap (8 * sz) v) = write_reg rs (R k sz) v.
Proof.
  intros Hs. apply valid_size_cases in Hs.
  destruct Hs as [-> | [-> | [-> | ->]]]; cbn [Z.eqb Pos.eqb write_reg orb]; unfold low_replaced; rewrite ?(wrap_wrap _ v) by lia; try reflexivity.
  rewrite (wrap_small (8 * 8)); [reflexivity |]. apply (in_range_wider (8 * 4)); [lia |]. now apply wrap_range.
Qed.
Section Steps.
Context (s : machine) (Hg : good s) (sz : Z) (Hs : valid_size sz = true) (p : place) (r : list insn) (Q : machine -> Prop).

Lemma runs_mov src v : read_opnd sz src s = Some v -> (forall s1, after p sz v s s1 -> runs r s1 Q) -> runs (IMov sz (opnd_of p sz) src :: r) s Q.
Proof. intros E. apply runs_write; [assumption .. |]. intros s1 W. cbn [exec exec_mov]. unfold exec_mov. rewrite E. eauto. Qed.
Lemma runs_mov_imm k v : (forall s1, after (InReg k) sz v s s1 -> runs r s1 Q) ->
  runs (IMovImm (if sz =? 4 then R k 8 else R k sz) (wrap (8 * sz) v) :: r) s Q.
Proof.
  intros Hr. eapply runs_step; [cbn [exec]; rewrite write_reg_imm by assumption; reflexivity |]. apply Hr. now apply write_reg_place.
Qed.
Lemma runs_movzx k from src v : read_opnd from src s = Some v -> (forall s1, after (InReg k) sz v s s1 -> runs r s1 Q) ->
  runs (IMovzx from (OReg (R k sz)) src :: r) s Q.
Proof. intros E. apply (runs_write _ _ (InReg k)); [assumption .. |]. intros s1 W. cbn [exec]. rewrite E. eauto. Qed.
Lemma runs_movsx k from src v : read_opnd from src s = Some v -> (forall s1, after (InReg k) sz (sext (8 * from) v) s s1 -> runs r s1 Q) ->
  runs (IMovsx from (OReg (R k sz)) src :: r) s Q.
Proof. intros E. apply (runs_write _ _ (InReg k)); [assumption .. |]. intros s1 W. cbn [exec]. rewrite E. eauto. Qed.
(** An operation other than a comparison or one with carry. *)
Definition without_carry (op : Z) : bool := negb ((op =? 2) || (op =? 3) || (op =? 7)).
Lemma runs_alu op src v : without_carry op = true -> read_opnd sz src s = Some v ->
  (forall s1, after p sz (fst (alu_result op (8 * sz) (held s p sz) v 0)) s s1 -> runs r s1 Q) ->
  runs (IAlu op sz (opnd_of p sz) src :: r) s Q.
Proof.
  intros Ho E. apply runs_write; [assumption .. |]. intros s1 W. cbn [exec]. unfold exec_alu. rewrite read_place, E.
  unfold without_carry in Ho. apply negb_true_iff, orb_false_iff in Ho as [Ho E7]. rewrite Ho, E7.
  destruct (alu_result op (8 * sz) (held s p sz) v 0) as [x f] eqn:Ea. cbn [fst] in W. rewrite W. eexists. split; [reflexivity | split; reflexivity].
Qed.
Lemma runs_shift op amount n x : read_opnd 1 amount s = Some n ->
  shift_result op (8 * sz) (held s p sz) (shift_count sz n) = Some x ->
  (forall s1, after p sz x s s1 -> runs r s1 Q) -> runs (IShift op sz (opnd_of p sz) amount :: r) s Q.
Proof.
  intros E Ex. apply runs_write; [assumption .. |]. intros s1 W. cbn [exec]. unfold exec_shift. rewrite read_place, E, Ex, W.
  eexists. split; [reflexivity |]. destruct (shift_count sz n =? 0); split; reflexivity.
Qed.
Lemma runs_imul k src v : read_opnd sz src s = Some v ->
  (forall s1, after (InReg k) sz (wrap (8 * sz) (held s (InReg k) sz * v)) s s1 -> runs r s1 Q) ->
  runs (IImul sz (OReg (R k sz)) src :: r) s Q.
Proof.
  intros E. apply (runs_write _ _ (InReg k)); [assumption .. |]. intros s1 W. cbn [exec]. rewrite (read_place (InReg k)), E.
  cbn [opnd_of] in W. rewrite W. eexists. split; [reflexivity | split; reflexivity].
Qed.
Lemma runs_bswap k : sz <> 2 ->
  (forall s1, after (InReg k) sz (byte_swap (Z.to_nat sz) (held s (InReg k) sz)) s s1 -> runs r s1 Q) -> runs (IBswap sz k :: r) s Q.
Proof.
  intros Hn. apply (runs_write _ _ (InReg k)); [assumption .. |]. intros s1 W. cbn [exec]. rewrite (proj2 (Z.eqb_neq sz 2) Hn).
  cbn in W. injection W as <-. eexists. split; [reflexivity | split; reflexivity].
Qed.
Lemma runs_bsr k src v : read_opnd sz src s = Some v -> v <> 0 -> (forall s1, after (InReg k) sz (Z.log2 v) s s1 -> runs r s1 Q) ->
  runs (IBsr sz (OReg (R k sz)) src :: r) s Q.
Proof.
  intros E Hv. apply (runs_write _ _ (InReg k)); [assumption .. |]. intros s1 W. cbn [exec]. rewrite E, (proj2 (Z.eqb_neq v 0) Hv).
  cbn [opnd_of] in W. rewrite W. eexists. split; [reflexivity | split; reflexivity].
Qed.
Lemma runs_convert k : k = RAX -> sz <> 1 -> 
  (forall s1, after (InReg k) sz (sext (4 * sz) (reg_value (regs s) (R RAX (sz / 2)))) s s1 -> runs r s1 Q) -> runs (IConvert sz :: r) s Q.
Proof.
  intros -> Hn. apply (runs_write _ _ (InReg RAX)); [assumption .. |]. intros s1 W. cbn in W. injection W as <-.
  eexists. split; [reflexivity | split; reflexivity].
Qed.
(** A comparison, and what can follow one. *)
Definition compared (w a b : Z) (s0 : machine) : machine := with_flags (Some (cmp_flags w a b)) s0.
Lemma runs_cmp dst src a b : read_opnd sz dst s = Some a -> read_opnd sz src s = Some b ->
  runs r (compared (8 * sz) a b s) Q -> runs (IAlu 7 sz dst src :: r) s Q.
Proof.
  intros Ea Eb H. eapply runs_step; [| exact H]. cbn [exec]. unfold exec_alu. rewrite Ea, Eb. cbn. unfold compared, cmp_flags, result_flags.
  rewrite !Z.sub_0_r, Z.add_0_r. reflexivity.
Qed.
End Steps.
Lemma runs_set s r Q cc k w a b : good s ->
  (forall s1, after (InReg k) 1 (Z.b2z (holds cc (cmp_flags w a b))) s s1 -> runs r s1 Q) ->
  runs (ISetcc cc (OReg (R k 1)) :: r) (compared w a b s) Q.
Proof.
  intros Hg Hr. destruct (write_place (InReg k) 1 (Z.b2z (holds cc (cmp_flags w a b))) s eq_refl Hg) as (s1 & E & A).
  cbn in E. injection E as <-. eapply runs_step; [reflexivity |]. apply Hr. eapply after_ext; [| | exact A]; reflexivity.
Qed.

(** ** Registers by number *)

Definition T (k w : Z) : X86Register := mkReg w (k mod 8) (8 <=? k) ((w =? 1) && ((4 <=? k) && (k <? 8))).
Lemma REGS_T k w : valid_size w = true -> REGS k w = Ok (T k w).
Proof.
  intros Hw. unfold REGS, T. apply valid_size_cases in Hw. destruct Hw as [-> | [-> | [-> | ->]]]; reflexivity.
Qed.
Definition all_T : list (Z * Z) := list_prod (seqZ 0 16) [1; 2; 4; 8].
Definition T_facts (x : Z * Z) : bool :=
  let t := T (fst x) (snd x) in reg_ok t && negb (highbyte t) && (num t =? fst x) && negb (is_riz t).
Lemma T_all k w : 0 <= k < 16 -> valid_size w = true -> T_facts (k, w) = true.
Proof.
  intros Hk Hw. assert (H : forallb T_facts all_T = true) by (vm_compute; reflexivity). rewrite forallb_forall in H. apply H.
  apply in_prod; [apply list_elem_of_In, elem_of_seqZ; lia |]. apply valid_size_cases in Hw. cbn. lia.
Qed.
Section Named.
Context (k w : Z) (Hk : 0 <= k < 16) (Hw : valid_size w = true).
Lemma T_ok : reg_ok (T k w) = true.
Proof. pose proof (T_all k w Hk Hw) as H. unfold T_facts in H. cbn [fst snd] in H. rewrite !andb_true_iff in H. tauto. Qed.
Lemma T_low : highbyte (T k w) = false.
Proof. pose proof (T_all k w Hk Hw) as H. unfold T_facts in H. cbn [fst snd] in H. rewrite !andb_true_iff, !negb_true_iff in H. tauto. Qed.
Lemma T_num : num (T k w) = k.
Proof. pose proof (T_all k w Hk Hw) as H. unfold T_facts in H. cbn [fst snd] in H. rewrite !andb_true_iff, Z.eqb_eq in H. tauto. Qed.
Lemma T_meaning : meaning_reg (T k w) = R k w.
Proof. unfold meaning_reg. now rewrite T_low, T_num. Qed.
Lemma T_reg_mem m : reg_mem_ok (T k w) m = mem_ok m.
Proof. unfold reg_mem_ok. rewrite T_ok, T_low. cbn. apply andb_true_r. Qed.
Lemma T_regs l v : 0 <= l < 16 -> valid_size v = true -> reg_ok (T l v) = true -> highbyte (T l v) = false -> regs_ok (T k w) (T l v) = true.
Proof. intros _ _ H1 H2. unfold regs_ok. rewrite T_ok, T_low, H1, H2. reflexivity. Qed.
End Named.
Lemma T_regs_ok k l w v : 0 <= k < 16 -> 0 <= l < 16 -> valid_size w = true -> valid_size v = true -> regs_ok (T k w) (T l v) = true.
Proof. intros. apply T_regs; auto using T_ok, T_low. Qed.

Definition stack_slot (d : Z) : X86Memory := mem_disp REG_RSP d.
Lemma stack_slot_ok d : - 2 ^ 31 <= d < 2 ^ 31 -> mem_ok (stack_slot d) = true /\ plain_mem (stack_slot d) = true /\ meaning_mem (stack_slot d) = slot d.
Proof.
  intros H. unfold stack_slot, mem_disp. rewrite sext_id by (cbn; lia).
  assert (E : mem_ok (mkMem REG_RIZ REG_RSP 0 d 0) = true).
  { unfold mem_ok. cbn -[Z.pow]. change (- 2 ^ 31 <=? d) with (- 2 ^ 31 <=? d). rewrite (proj2 (Z.leb_le _ _)), (proj2 (Z.ltb_lt _ _)) by lia. reflexivity. }
  split; [exact E |]. split; [unfold plain_mem; rewrite E; reflexivity | reflexivity].
Qed.

(** ** Calls on registers and slots *)

Lemma asks_as c i j : asks c i -> i = j -> asks c j.
Proof. now intros H <-. Qed.
Definition reg_number (k : Z) : Prop := 0 <= k < 16.
Definition slot_offset (d : Z) : Prop := - 2 ^ 31 <= d < 2 ^ 31.
Ltac by_asks :=
  repeat match goal with
  | H : reg_number ?k, W : valid_size ?w = true |- context [meaning_reg (T ?k ?w)] => rewrite (T_meaning k w H W)
  | H : reg_number ?k, W : valid_size ?w = true |- context [num (T ?k ?w)] => rewrite (T_num k w H W)
  | H : slot_offset ?d |- context [meaning_mem (stack_slot ?d)] => rewrite (proj2 (proj2 (stack_slot_ok d H)))
  end; reflexivity.
Ltac ask :=
  first [assumption | reflexivity | lia | apply T_regs_ok; assumption | apply T_ok; assumption
        | rewrite T_reg_mem by assumption; apply stack_slot_ok; assumption | apply stack_slot_ok; assumption].
Section Asked.
Context (k l w d : Z) (Hk : reg_number k) (Hl : reg_number l) (Hw : valid_size w = true) (Hd : slot_offset d).
Lemma ask_mov_rr : asks (mov_rr (T k w) (T l w)) (IMov w (opnd_of (InReg l) w) (opnd_of (InReg k) w)).
Proof. eapply asks_as; [apply asks_mov_rr; ask | cbn [opnd_of X86Encoder.size T]; by_asks]. Qed.
Lemma ask_mov_mr : asks (mov_mr (stack_slot d) (T k w)) (IMov w (opnd_of (InReg k) w) (opnd_of (OnStack d) w)).
Proof. eapply asks_as; [apply asks_mov_mr; ask | cbn [opnd_of X86Encoder.size T]; by_asks]. Qed.
Lemma ask_mov_rm : asks (mov_rm (T k w) (stack_slot d)) (IMov w (opnd_of (OnStack d) w) (opnd_of (InReg k) w)).
Proof. eapply asks_as; [apply asks_mov_rm; ask | cbn [opnd_of X86Encoder.size T]; by_asks]. Qed.
Lemma ask_mov_ir v : 0 <= v < 2 ^ 64 -> asks (mov_ir v (T k w)) (IMovImm (if w =? 4 then R k 8 else R k w) (wrap (8 * w) v)).
Proof. intros Hv. eapply asks_as; [apply asks_mov_ir; ask | cbn [X86Encoder.size T]; by_asks]. Qed.
Lemma ask_mov4 v : w = 4 -> asks (mov4 v (stack_slot d)) (IMov w (opnd_of (OnStack d) w) (OImm (wrap (8 * w) v))).
Proof. intros E. rewrite E. eapply asks_as; [apply asks_mov4; ask | cbn [opnd_of]; by_asks]. Qed.
Lemma ask_mov2 v : w = 2 -> asks (mov2 v (stack_slot d)) (IMov w (opnd_of (OnStack d) w) (OImm (wrap (8 * w) v))).
Proof. intros E. rewrite E. eapply asks_as; [apply asks_mov2; ask | cbn [opnd_of]; by_asks]. Qed.
Lemma ask_mov1 v : w = 1 -> asks (mov1 v (stack_slot d)) (IMov w (opnd_of (OnStack d) w) (OImm (wrap (8 * w) v))).
Proof. intros E. rewrite E. eapply asks_as; [apply asks_mov1; ask | cbn [opnd_of]; by_asks]. Qed.
Lemma ask_alu_rr f o : In (f, o) alu_rr_methods -> asks (f (T k w) (T l w)) (IAlu o w (opnd_of (InReg l) w) (opnd_of (InReg k) w)).
Proof. intros Hf. eapply asks_as; [eapply asks_alu_rr; [exact Hf | ask ..] | cbn [opnd_of X86Encoder.size T]; by_asks]. Qed.
Lemma ask_alu_mr f o : In (f, o) alu_mr_methods -> asks (f (stack_slot d) (T k w)) (IAlu o w (opnd_of (InReg k) w) (opnd_of (OnStack d) w)).
Proof. intros Hf. eapply asks_as; [eapply asks_alu_mr; [exact Hf | ask ..] | cbn [opnd_of X86Encoder.size T]; by_asks]. Qed.
Lemma ask_alu_rm f o : In (f, o) alu_rm_methods -> asks (f (T k w) (stack_slot d)) (IAlu o w (opnd_of (OnStack d) w) (opnd_of (InReg k) w)).
Proof. intros Hf. eapply asks_as; [eapply asks_alu_rm; [exact Hf | ask ..] | cbn [opnd_of X86Encoder.size T]; by_asks]. Qed.
Lemma ask_alu_ir f o v : In (f, o) alu_ir_methods -> 0 <= v < 2 ^ 32 -> (o = 6 -> wrong_accumulator (T k w) = false) ->
  asks (f v (T k w)) (IAlu o w (opnd_of (InReg k) w) (Imm w v)).
Proof. intros Hf Hv Ha. eapply asks_as; [eapply asks_alu_ir; [exact Hf | ask | ask | exact Ha] | cbn [opnd_of X86Encoder.size T]; by_asks]. Qed.
Lemma ask_alu_im f o v : In (f, o) alu_im_methods -> 0 <= v < 2 ^ 32 ->
  asks (f v w (stack_slot d)) (IAlu o w (opnd_of (OnStack d) w) (Imm w v)).
Proof. intros Hf Hv. eapply asks_as; [eapply asks_alu_im; [exact Hf | ask ..] | cbn [opnd_of]; by_asks]. Qed.
Lemma ask_short_im f o v : In (f, o) short_im_methods -> 0 <= v < 2 ^ 32 -> w = 4 \/ w = 8 \/ (w = 2 /\ v < 127) ->
  asks (f v w (stack_slot d)) (IAlu o w (opnd_of (OnStack d) w) (Imm w v)).
Proof. intros Hf Hv Hx. eapply asks_as; [eapply asks_short_im; [exact Hf | ask ..] | cbn [opnd_of]; by_asks]. Qed.
Lemma ask_cmp_im f v : In (f, w) cmp_im_methods -> 0 <= v < 2 ^ 32 -> asks (f v (stack_slot d)) (IAlu 7 w (opnd_of (OnStack d) w) (Imm w v)).
Proof. intros Hf Hv. eapply asks_as; [eapply asks_cmp_im; [exact Hf | ask ..] | cbn [opnd_of]; by_asks]. Qed.
Lemma ask_cmp8 v : 0 <= v < 0x80 -> asks (cmp8 v (stack_slot d)) (IAlu 7 8 (opnd_of (OnStack d) 8) (Imm 8 v)).
Proof. intros Hv. eapply asks_as; [eapply asks_cmp8; ask | cbn [opnd_of]; by_asks]. Qed.
Lemma ask_test : asks (test_rr (T k w) (T l w)) (ITest w (opnd_of (InReg k) w) (opnd_of (InReg l) w)).
Proof. eapply asks_as; [apply asks_test_rr; ask | cbn [opnd_of X86Encoder.size T]; by_asks]. Qed.
Lemma ask_shift_ir f o n : In (f, o) shift_ir_methods -> 0 <= n < 256 -> asks (f n (T k w)) (IShift o w (opnd_of (InReg k) w) (OImm n)).
Proof. intros Hf Hn. eapply asks_as; [eapply asks_shift_ir; [exact Hf | ask ..] | cbn [opnd_of X86Encoder.size T]; by_asks]. Qed.
Lemma ask_shift_im f o n : In (f, o) shift_im_methods -> 0 <= n < 256 -> asks (f n w (stack_slot d)) (IShift o w (opnd_of (OnStack d) w) (OImm n)).
Proof. intros Hf Hn. eapply asks_as; [eapply asks_shift_im; [exact Hf | ask ..] | cbn [opnd_of]; by_asks]. Qed.
Lemma ask_shift_rr f o : In (f, o) shift_rr_methods -> asks (f REG_CL (T k w)) (IShift o w (opnd_of (InReg k) w) OCL).
Proof. intros Hf. eapply asks_as; [eapply asks_shift_rr; [exact Hf | ask ..] | cbn [opnd_of X86Encoder.size T]; by_asks]. Qed.
Lemma ask_imul : w <> 1 -> asks (imul (T k w) (T l w)) (IImul w (opnd_of (InReg l) w) (opnd_of (InReg k) w)).
Proof. intros Hn. eapply asks_as; [apply asks_imul; ask | cbn [opnd_of X86Encoder.size T]; by_asks]. Qed.
Lemma ask_group3 f o : In (f, o) group3_methods -> w <> 1 -> asks (f (T k w)) (IGroup3 o w (opnd_of (InReg k) w)).
Proof. intros Hf Hn. eapply asks_as; [eapply asks_group3; [exact Hf | ask ..] | cbn [opnd_of X86Encoder.size T]; by_asks]. Qed.
Lemma ask_mul1 : w = 1 -> asks (mul1 (T k w)) (IGroup3 4 1 (opnd_of (InReg k) w)).
Proof. intros Hn. eapply asks_as; [apply asks_mul1; ask | cbn [opnd_of]; by_asks]. Qed.
Lemma ask_bswap : w = 4 \/ w = 8 -> asks (bswap (T k w)) (IBswap w k).
Proof. intros Hn. eapply asks_as; [apply asks_bswap; ask | cbn [X86Encoder.size T]; by_asks]. Qed.
Lemma ask_bsr : w <> 1 -> asks (bsr (T k w) (T l w)) (IBsr w (opnd_of (InReg l) w) (opnd_of (InReg k) w)).
Proof. intros Hn. eapply asks_as; [apply asks_bsr; ask | cbn [opnd_of X86Encoder.size T]; by_asks]. Qed.
Lemma ask_xchg : asks (xchg (T k w) (T l w)) (IXchg w (opnd_of (InReg l) w) (opnd_of (InReg k) w)).
Proof. eapply asks_as; [apply asks_xchg; ask | cbn [opnd_of X86Encoder.size T]; by_asks]. Qed.
Lemma ask_cmov cc : 0 <= cc < 16 -> w <> 1 -> asks (cmov cc (T k w) (T l w)) (ICmov cc w (opnd_of (InReg l) w) (opnd_of (InReg k) w)).
Proof. intros Hc Hn. eapply asks_as; [apply asks_cmov; ask | cbn [opnd_of X86Encoder.size T]; by_asks]. Qed.
Lemma ask_set cc : 0 <= cc < 16 -> w = 1 -> asks (setcc_r cc (T k w)) (ISetcc cc (opnd_of (InReg k) w)).
Proof. intros Hc Hn. eapply asks_as; [apply asks_setcc_r; ask | cbn [opnd_of]; by_asks]. Qed.
Lemma ask_push : w = 8 -> asks (push_r (T k w)) (IPush k).
Proof. intros Hn. eapply asks_as; [apply asks_push_r; ask | by_asks]. Qed.
Lemma ask_pop : w = 8 -> asks (X86Encoder.pop (T k w)) (IPop k).
Proof. intros Hn. eapply asks_as; [apply asks_pop; ask | by_asks]. Qed.
Lemma ask_movzx v : valid_size v = true -> v = 1 \/ v = 2 -> v < w -> asks (movzx_rr (T k v) (T l w)) (IMovzx v (opnd_of (InReg l) w) (opnd_of (InReg k) v)).
Proof. intros Hv Hx Hlt. eapply asks_as; [apply asks_movzx_rr; ask | cbn [opnd_of X86Encoder.size T]; by_asks]. Qed.
Lemma ask_movsx v : valid_size v = true -> v < w -> (v = 4 -> w = 8) -> asks (movsx_rr (T k v) (T l w)) (IMovsx v (opnd_of (InReg l) w) (opnd_of (InReg k) v)).
Proof. intros Hv Hlt Hx. eapply asks_as; [apply asks_movsx_rr; ask | cbn [opnd_of X86Encoder.size T]; by_asks]. Qed.
End Asked.

(** ** Operands after register allocation *)

Definition register_of (o : IROperand) : Z := nth (Z.to_nat (alloc_data o)) register_assignments 0.
Definition place_of (o : IROperand) : place := if is_alloc_reg o then InReg (register_of o) else OnStack (alloc_data o).
Definition placed (o : IROperand) : bool :=
  is_vreg o && valid_size (osize o) && (0 <=? alloc_data o)
  && (if is_alloc_reg o then alloc_data o <? 9 else is_alloc_stack o && (alloc_data o <? 2 ^ 14)).
Definition constant_ok (o : IROperand) : bool := is_constant o && valid_size (osize o) && (0 <=? value o) && (value o <? 2 ^ 64).
Definition input (s : machine) (o : IROperand) : Z :=
  if is_constant o then wrap (8 * osize o) (value o) else held s (place_of o) (osize o).

Definition own_register (k : Z) : Prop := 0 <= k < 16 /\ k <> 2 /\ k <> 4 /\ k <> 5 /\ k <> 6 /\ k <> 7 /\ k <> 12 /\ k <> 15.
Inductive spot (o : IROperand) : Prop :=
| spot_reg k : is_alloc_reg o = true -> is_alloc_stack o = false -> place_of o = InReg k -> own_register k -> k = register_of o ->
    (forall w, valid_size w = true -> register_width o w = Ok (T k w)) -> register_from_operand o = Ok (T k (osize o)) -> spot o
| spot_stack d : is_alloc_reg o = false -> is_alloc_stack o = true -> place_of o = OnStack d -> 0 <= d < 2 ^ 14 -> d = alloc_data o ->
    stack_from_operand o = Ok (stack_slot d) -> spot o.
Lemma placed_vreg o : placed o = true -> is_vreg o = true /\ is_constant o = false /\ op_type o = VREG /\ valid_size (osize o) = true.
Proof.
  unfold placed. rewrite !andb_true_iff. intros (((H & Hs) & _) & _). split; [exact H |]. unfold is_vreg in H. apply bool_decide_eq_true in H.
  unfold is_constant. rewrite H. repeat split; assumption.
Qed.
Lemma assignment_cases i : 0 <= i < 9 ->
  register_assignments !! Z.to_nat i = Some (nth (Z.to_nat i) register_assignments 0) /\ own_register (nth (Z.to_nat i) register_assignments 0).
Proof.
  intros H. assert (C : i = 0 \/ i = 1 \/ i = 2 \/ i = 3 \/ i = 4 \/ i = 5 \/ i = 6 \/ i = 7 \/ i = 8) by lia.
  unfold own_register. destruct C as [-> | [-> | [-> | [-> | [-> | [-> | [-> | [-> | ->]]]]]]]]; split; try (vm_compute; reflexivity);
    match goal with |- context [nth ?i ?l ?x] => let v := eval vm_compute in (nth i l x) in change (nth i l x) with v end; lia.
Qed.
Lemma placed_spot o : placed o = true -> spot o.
Proof.
  intros H. destruct (placed_vreg o H) as (_ & _ & _ & Hs). unfold placed in H. rewrite !andb_true_iff in H. destruct H as ((_ & H0) & H).
  destruct (is_alloc_reg o) eqn:Er.
  - destruct (assignment_cases (alloc_data o)) as [E O]; [lia |]. apply (spot_reg o (register_of o)); try assumption; try reflexivity.
    + unfold is_alloc_reg, is_alloc_stack in *. apply bool_decide_eq_true in Er. rewrite Er. reflexivity.
    + unfold place_of. now rewrite Er.
    + intros w Hw. unfold register_width, get_allocable_register. rewrite Er, E. apply valid_size_cases in Hw as C.
      replace ((if w =? 0 then osize o else w)) with w by (destruct (Z.eqb_spec w 0); lia).
      replace ((w =? 1) || (w =? 2) || (w =? 4) || (w =? 8)) with true by (symmetry; exact Hw). now apply REGS_T.
    + unfold register_from_operand, register_width, get_allocable_register. rewrite Er, E. cbn [Z.eqb].
      replace ((osize o =? 1) || (osize o =? 2) || (osize o =? 4) || (osize o =? 8)) with true by (symmetry; exact Hs). now apply REGS_T.
  - rewrite andb_true_iff in H. apply (spot_stack o (alloc_data o)); try tauto; try lia.
    + unfold place_of. now rewrite Er.
    + unfold stack_from_operand. rewrite (proj1 H). apply valid_size_cases in Hs. rewrite (proj2 (Z.leb_le _ _)) by lia. reflexivity.
Qed.
Lemma temps_T w : valid_size w = true -> BLKJIT_TEMPS_0 w = Ok (T 7 w) /\ BLKJIT_TEMPS_1 w = Ok (T 6 w) /\ BLKJIT_TEMPS_2 w = Ok (T 2 w) /\ get_temp 0 w = Ok (T 7 w) /\ get_temp 1 w = Ok (T 6 w).
Proof. intros H. unfold get_temp. cbn [Z.eqb]. unfold BLKJIT_TEMPS_0, BLKJIT_TEMPS_1, BLKJIT_TEMPS_2. now rewrite !REGS_T. Qed.

(** ** Meaning *)

Definition is_comparison (t : IRInstructionType) : bool :=
  match t with CMPEQ | CMPNE | CMPLT | CMPLTE | CMPGT | CMPGTE | CMPSLT | CMPSLTE | CMPSGT | CMPSGTE => true | _ => false end.
Definition destination (insn : IRInstruction) : IROperand :=
  if is_comparison (type insn) || bool_decide (type insn = CMOV) then op insn 2 else if bool_decide (type insn = LDPC) then op insn 0 else op insn 1.
(** [a] and [b], the first two operands, of [w] bits. *)
Definition comparison (t : IRInstructionType) (w a b : Z) : bool :=
  match t with
  | CMPEQ => a =? b | CMPNE => negb (a =? b)
  | CMPLT => a <? b | CMPLTE => a <=? b | CMPGT => b <? a | CMPGTE => b <=? a
  | CMPSLT => sext w a <? sext w b | CMPSLTE => sext w a <=? sext w b | CMPSGT => sext w b <? sext w a | CMPSGTE => sext w b <=? sext w a
  | _ => false
  end.
(** Of the width [w] of the destination, that of the source, the source and
    the destination. *)
Definition computed (t : IRInstructionType) (w ws a b : Z) : Z :=
  match t with
  | SX => wrap w (sext ws a)
  | TRUNC => wrap w a
  | ADD => wrap w (b + a) | SUB => wrap w (b - a) | AND => Z.land b a | OR => Z.lor b a | XOR => Z.lxor b a
  | IMUL | MUL => wrap w (b * a)
  | UDIV => b / a | MOD => b mod a | SDIV => wrap w (Z.quot (sext w b) (sext w a))
  | SHL => wrap w (Z.shiftl b a) | SHR => Z.shiftr b a | SAR => wrap w (Z.shiftr (sext w b) a) | ROR => rotate_right w b a
  | BSWAP => byte_swap (Z.to_nat (w / 8)) a
  | CLZ => w - 1 - Z.log2 a
  | _ => a
  end.
Definition ir_value (insn : IRInstruction) (s : machine) : Z :=
  let a := input s (op insn 0) in
  let b := input s (op insn 1) in
  let ws := 8 * osize (op insn 0) in
  if is_comparison (type insn) then Z.b2z (comparison (type insn) ws a b)
  else if bool_decide (type insn = CMOV) then (if a =? 0 then input s (op insn 2) else b)
  else computed (type insn) (8 * osize (op insn 1)) ws a b.
(** Values for which the operation is defined: no division by zero, shifts by
    less than the width, carries of zero or one. *)
Definition defined_at (insn : IRInstruction) (s : machine) : Prop :=
  let a := input s (op insn 0) in
  let b := input s (op insn 1) in
  let w := 8 * osize (op insn 1) in
  match type insn with
  | UDIV | MOD | CLZ => a <> 0
  | SDIV => a <> 0 /\ out_of_range w (Z.quot (sext w b) (sext w a)) = false
  | SHL | SHR | SAR | ROR => a < w
  | ADC_WITH_FLAGS | SBC_WITH_FLAGS => input s (op insn 2) <= 1
  | _ => True
  end.

(** ** Correct lowering *)

Definition temps : list place := [InReg 7; InReg 6; InReg 2].
(** Two words below the stack pointer may be overwritten. *)
Definition red_zone : list place := [OnStack (-8); OnStack (-16)].
(** Operands of four bytes in a register, whose upper half may be cleared. *)
Definition half_registers (insn : IRInstruction) : list place :=
  map place_of (List.filter (fun o => is_alloc_reg o && (osize o =? 4)) (operands insn)).
Record gives (insn : IRInstruction) (v : Z) (s s1 : machine) : Prop := mkGives {
  carried_good : good s1;
  carried_value : held s1 (place_of (destination insn)) (osize (destination insn)) = v;
  carried_inputs : forall o, In o (operands insn) -> placed o = true -> apart (place_of (destination insn)) (place_of o) = true -> input s1 o = input s o;
  carried_frame : frame (place_of (destination insn) :: temps ++ red_zone ++ half_registers insn) s s1 }.
Definition carried_out (insn : IRInstruction) (s s1 : machine) : Prop := gives insn (ir_value insn s) s s1.
Definition computes (insn : IRInstruction) (l : lops) : Prop :=
  exists cs is1, l = Ok (map Op cs) /\ Forall2 asks cs is1
    /\ forall s, good s -> defined_at insn s -> runs is1 s (carried_out insn s).

(** The state [s] is reached from [s0] by writing to [ps]. *)
Record reach (ps : list place) (s0 s : machine) : Prop := mkReach { reach_good : good s; reach_frame : frame ps s0 s; reach_stack : ~ In (InReg 4) ps }.
Lemma reach_start s : good s -> reach [] s s.
Proof. intros H. split; [exact H | apply frame_refl | intros []]. Qed.
Lemma reach_after ps p sz v s0 s s1 : reach ps s0 s -> after p sz v s s1 -> p <> InReg 4 -> reach (ps ++ [p]) s0 s1.
Proof.
  intros [_ Hf H4] [Hg _ Ha _] Hp. split; [exact Hg | exact (frame_trans _ _ _ _ _ H4 Hf Ha) |].
  intros [H | [H | []]]%in_app_iff; [contradiction | congruence].
Qed.
Lemma reach_held ps s0 s q sz : reach ps s0 s -> forallb (fun p => apart p q) ps = true -> valid_size sz = true -> held s q sz = held s0 q sz.
Proof. intros [_ Hf H4] Ha Hs. now apply (held_frame ps). Qed.
Definition own (p : place) : Prop := match p with InReg k => own_register k | OnStack d => 0 <= d < 2 ^ 14 end.
Lemma placed_own o : placed o = true -> own (place_of o).
Proof. intros H. destruct (placed_spot o H) as [k _ _ -> O _ _ _ | d _ _ -> O _ _]; exact O. Qed.
Lemma scratch_apart p q : In p (temps ++ red_zone) -> own q -> apart p q = true.
Proof. intros Hp Hq. cbn in Hp. unfold own, own_register in Hq. destruct q; repeat destruct Hp as [<- | Hp]; try contradiction; unfold apart; try reflexivity; lia. Qed.
Lemma apart_input s s1 o sz q : placed o = true -> held s1 (place_of o) (osize o) = held s (place_of o) (osize o) -> sz = osize o -> q = place_of o -> input s1 o = input s o.
Proof. intros Ho E _ _. unfold input. destruct (placed_vreg o Ho) as (_ & -> & _). exact E. Qed.

(** When nothing but the destination and temporaries was written. *)
Lemma gives_simply insn v s s1 ps :
  placed (destination insn) = true -> reach ps s s1 -> incl ps (place_of (destination insn) :: temps ++ red_zone) ->
  held s1 (place_of (destination insn)) (osize (destination insn)) = v -> gives insn v s s1.
Proof.
  intros Hd Hr Hi Hv. split; [apply Hr | exact Hv | |].
  - intros o _ Ho Ha. apply (apart_input s s1 o (osize o) (place_of o) Ho); try reflexivity.
    apply (reach_held ps); [exact Hr | | apply placed_vreg; assumption]. apply forallb_forall. intros p Hp.
    destruct (Hi p Hp) as [<- | Hin]; [exact Ha | apply scratch_apart; [exact Hin | now apply placed_own]].
  - apply (frame_sub ps); [| apply Hr]. intros p Hp. apply Hi in Hp. cbn in Hp |- *. tauto.
Qed.
Lemma carried_simply insn s s1 ps :
  placed (destination insn) = true -> reach ps s s1 -> incl ps (place_of (destination insn) :: temps ++ red_zone) ->
  held s1 (place_of (destination insn)) (osize (destination insn)) = ir_value insn s -> carried_out insn s s1.
Proof. apply gives_simply. Qed.
(** When upper halves of operands' registers were written too, and their
    values are as before. *)
Lemma carried_with_halves insn s s1 ps :
  placed (destination insn) = true -> reach ps s s1 -> incl ps (place_of (destination insn) :: temps ++ red_zone ++ half_registers insn) ->
  held s1 (place_of (destination insn)) (osize (destination insn)) = ir_value insn s ->
  (forall o k, In o (operands insn) -> placed o = true -> place_of o = InReg k -> In (InReg k) (half_registers insn) -> In (InReg k) ps -> place_of (destination insn) <> InReg k ->
     held s1 (InReg k) (osize o) = held s (InReg k) (osize o)) ->
  carried_out insn s s1.
Proof.
  intros Hd Hr Hi Hv Hh. split; [apply Hr | exact Hv | |].
  - intros o Ho Hp Ha. apply (apart_input s s1 o (osize o) (place_of o) Hp); try reflexivity.
    pose proof (placed_own o Hp) as Hown. destruct (forallb (fun p => apart p (place_of o)) ps) eqn:E.
    + apply (reach_held ps); [exact Hr | exact E | apply placed_vreg; assumption].
    + assert (Hn : exists p, In p ps /\ apart p (place_of o) = false).
      { clear -E. induction ps as [|p ps IH]; [discriminate |]. cbn in E. apply andb_false_iff in E as [E | E]; [exists p; split; [now left | exact E] |].
        destruct (IH E) as (q & Hq & Eq). exists q. split; [now right | exact Eq]. }
      destruct Hn as (p & Hp1 & Ep). destruct (Hi p Hp1) as [<- | [Hin | Hin]%in_app_iff]; [congruence | rewrite scratch_apart in Ep by (try assumption; apply in_app_iff; now left); discriminate |].
      apply in_app_iff in Hin as [Hin | Hin]; [rewrite scratch_apart in Ep by (try assumption; apply in_app_iff; now right); discriminate |].
      assert (Hreg : exists k, p = InReg k /\ place_of o = InReg k).
      { unfold half_registers in Hin. apply in_map_iff in Hin as (o' & <- & [_ Ho']%filter_In). apply andb_true_iff in Ho' as [Hr' _].
        assert (Po : place_of o' = InReg (register_of o')) by (unfold place_of; now rewrite Hr'). rewrite Po in *.
        destruct (place_of o) as [l | e]; [| discriminate]. cbn in Ep. apply negb_false_iff, Z.eqb_eq in Ep. exists l. split; [f_equal; exact Ep | reflexivity]. }
      destruct Hreg as (k & -> & Eo). rewrite Eo in *. apply (Hh o k Ho Hp Eo Hin Hp1). intros Ed. rewrite Ed in Ha. cbn in Ha. rewrite Z.eqb_refl in Ha. discriminate.
  - apply (frame_sub ps); [exact Hi | apply Hr].
Qed.
