(* ===== verification/X86LowerArith.v ===== *)
(** * Lowered moves, arithmetic and comparisons are correct

    Moves, sums, bitwise operations and changes of width: each lowerer, on
    operands it supports, computes what the instruction says.  A comparison of
    two operands sets the flags of one of them with the other, in either
    order; then the condition code of the name of the instruction, turned
    round when the operands are, is what the instruction says. *)

From Stdlib Require Import ZArith Lia List Bool.
From stdpp Require Import base numbers list.
From S2P Require Import Prelude BlockIR X86Encoder X86Decode X86Shapes X86Conditions X86Machine X86Lower X86Steps.
Import ListNotations.
#[local] Open Scope Z_scope.
#[local] Open Scope gensim_scope.

(** ** Proving runs *)

Definition simply (insn : IRInstruction) (s s1 : machine) : Prop :=
  exists ps, reach ps s s1 /\ incl ps (place_of (destination insn) :: temps ++ red_zone)
    /\ held s1 (place_of (destination insn)) (osize (destination insn)) = ir_value insn s.
Lemma computes_simply insn cs is1 :
  placed (destination insn) = true -> Forall2 asks cs is1 ->
  (forall s, good s -> defined_at insn s -> runs is1 s (simply insn s)) -> computes insn (ops cs).
Proof.
  intros Hd Ha H. exists cs, is1. split; [reflexivity |]. split; [exact Ha |]. intros s Hg Hdef.
  eapply runs_weaken; [now apply H |]. intros s1 (ps & Hr & Hi & Hv). now apply (carried_simply insn s s1 ps).
Qed.
Lemma input_placed s o : placed o = true -> input s o = held s (place_of o) (osize o).
Proof. intros H. unfold input. now rewrite (proj1 (proj2 (placed_vreg o H))). Qed.
Lemma constant_parts o : constant_ok o = true ->
  is_constant o = true /\ is_vreg o = false /\ op_type o = CONSTANT /\ valid_size (osize o) = true /\ 0 <= value o < 2 ^ 64 /\ forall s, input s o = wrap (8 * osize o) (value o).
Proof.
  unfold constant_ok. rewrite !andb_true_iff. intros (((H & Hs) & H1) & H2). split; [exact H |].
  unfold input. rewrite H. unfold is_constant in H. apply bool_decide_eq_true in H. unfold is_vreg. rewrite H. repeat split; try lia; try assumption; reflexivity.
Qed.

Ltac own_facts :=
  repeat match goal with
  | H : own_register ?k |- _ =>
      lazymatch goal with R : reg_number k |- _ => fail | _ => assert (reg_number k) by (unfold reg_number, own_register in *; lia) end
  | H : 0 <= ?d < 2 ^ 14 |- _ =>
      lazymatch goal with R : slot_offset d |- _ => fail | _ => assert (slot_offset d) by (unfold slot_offset; lia) end
  end.
Lemma temp_numbers : reg_number 7 /\ reg_number 6 /\ reg_number 2 /\ reg_number 0 /\ reg_number 1.
Proof. unfold reg_number. lia. Qed.
(** The cases of where an operand is. *)
Ltac open_operand o H :=
  let V1 := fresh "Vr" in let V2 := fresh "Vc" in let V3 := fresh "Vt" in let V4 := fresh "Vs" in let O := fresh "Own" in
  destruct (placed_vreg o H) as (V1 & V2 & V3 & V4);
  pose proof (fun s => input_placed s o H) as O;
  let R1 := fresh "Ar" in let R2 := fresh "As" in let P := fresh "Pl" in let O := fresh "Ow" in let K := fresh "Kd" in let W := fresh "Wd" in let F := fresh "Fr" in
  destruct (placed_spot o H) as [? R1 R2 P O K W F | ? R1 R2 P O K F]; own_facts.
Ltac lowering_eqs :=
  repeat first
    [ progress cbn [rbind of_option operands op_type type andb orb negb fst snd app
        m_rr m_rm m_mr m_ir m_im add_methods sub_methods and_methods or_methods xor_methods]
    | match goal with
      | |- context [operand (mkInsn (?a :: ?l) ?b ?t) 0] => change (operand (mkInsn (a :: l) b t) 0) with (@Ok IROperand a)
      | |- context [operand (mkInsn (?x :: ?a :: ?l) ?b ?t) 1] => change (operand (mkInsn (x :: a :: l) b t) 1) with (@Ok IROperand a)
      | |- context [operand (mkInsn (?x :: ?y :: ?a :: ?l) ?b ?t) 2] => change (operand (mkInsn (x :: y :: a :: l) b t) 2) with (@Ok IROperand a)
      | H : is_alloc_reg ?o = _ |- context [is_alloc_reg ?o] => rewrite H
      | H : is_alloc_stack ?o = _ |- context [is_alloc_stack ?o] => rewrite H
      | H : is_vreg ?o = _ |- context [is_vreg ?o] => rewrite H
      | H : is_constant ?o = _ |- context [is_constant ?o] => rewrite H
      | H : op_type ?o = _ |- context [op_type ?o] => rewrite H
      | H : register_from_operand ?o = _ |- context [register_from_operand ?o] => rewrite H
      | W : forall w, valid_size w = true -> register_width ?o w = _, H : valid_size ?v = true |- context [register_width ?o ?v] => rewrite (W v H)
      | H : stack_from_operand ?o = _ |- context [stack_from_operand ?o] => rewrite H
      | H : valid_size ?w = true |- context [BLKJIT_TEMPS_0 ?w] => rewrite (proj1 (temps_T w H))
      | H : valid_size ?w = true |- context [BLKJIT_TEMPS_1 ?w] => rewrite (proj1 (proj2 (temps_T w H)))
      | H : valid_size ?w = true |- context [get_temp 0 ?w] => rewrite (proj1 (proj2 (proj2 (proj2 (temps_T w H)))))
      | H : valid_size ?w = true |- context [get_temp 1 ?w] => rewrite (proj2 (proj2 (proj2 (proj2 (temps_T w H)))))
      | H : (?a =? ?b) = _ |- context [?a =? ?b] => rewrite H
      | |- context [bool_decide (?a = ?a)] => rewrite (bool_decide_eq_true_2 (a = a)) by reflexivity
      | |- context [bool_decide (?a = ?b)] => rewrite (bool_decide_eq_false_2 (a = b)) by discriminate
      end ].
Ltac in_list := first [left; reflexivity | right; in_list].
Ltac asked :=
  lazymatch goal with
  | |- asks (mov_rr _ _) _ => eapply ask_mov_rr
  | |- asks (mov_mr _ _) _ => eapply ask_mov_mr
  | |- asks (mov_rm _ _) _ => eapply ask_mov_rm
  | |- asks (mov_ir _ _) _ => eapply ask_mov_ir
  | |- asks (mov4 _ _) _ => eapply ask_mov4; [.. | eassumption]
  | |- asks (mov2 _ _) _ => eapply ask_mov2; [.. | eassumption]
  | |- asks (mov1 _ _) _ => eapply ask_mov1; [.. | eassumption]
  | |- asks (movzx_rr _ _) _ => eapply ask_movzx
  | |- asks (movsx_rr _ _) _ => eapply ask_movsx
  | |- asks (cmov _ _ _) _ => eapply ask_cmov
  | |- asks (imul _ _) _ => eapply ask_imul
  | |- asks (bswap _) _ => eapply ask_bswap
  | |- asks (div _) _ => eapply ask_group3; [.. | in_list |]
  | |- asks (idiv _) _ => eapply ask_group3; [.. | in_list |]
  | |- asks (bsr _ _) _ => eapply ask_bsr
  | |- asks (xchg _ _) _ => eapply ask_xchg
  | |- asks (test_rr _ _) _ => eapply ask_test
  | |- asks (_ (T _ _) (T _ _)) _ => eapply ask_alu_rr; [.. | in_list]
  | |- asks (_ (T _ _) (stack_slot _)) _ => eapply ask_alu_rm; [.. | in_list]
  | |- asks (_ (stack_slot _) (T _ _)) _ => eapply ask_alu_mr; [.. | in_list]
  | |- asks (_ REG_CL _) _ => eapply ask_shift_rr; [.. | in_list]
  | |- asks (_ (u32 _) (T _ _)) _ => eapply ask_alu_ir; [.. | in_list | |]
  | |- asks (_ (u8 _) (T _ _)) _ => eapply ask_shift_ir; [.. | in_list |]
  | |- asks (_ (u8 _) _ (stack_slot _)) _ => eapply ask_shift_im; [.. | in_list |]
  | |- asks (add_im _ _ _) _ => eapply ask_short_im; [.. | in_list | |]
  | |- asks (sub_im _ _ _) _ => eapply ask_short_im; [.. | in_list | |]
  | |- asks (_ (u32 _) _ (stack_slot _)) _ => eapply ask_alu_im; [.. | in_list |]
  end.
Ltac asks_all := repeat (apply List.Forall2_cons; [first [eassumption | asked; try assumption; try reflexivity; try lia; try (unfold reg_number; lia)] |]); try apply List.Forall2_nil.

(** Running: the state reached is in [Hr]. *)
Ltac place_ne := intros [= ?]; unfold own_register in *; lia.
Ltac next_state :=
  let s1 := fresh "s" in let A := fresh "A" in intros s1 A;
  match goal with
  | Hr : reach _ _ ?s |- _ =>
    match type of A with after _ _ _ s _ =>
      let H := fresh "Hr" in pose proof (reach_after _ _ _ _ _ _ _ Hr A ltac:(place_ne)) as H; clear Hr; rename H into Hr; cbn [app] in Hr
    end
  end.
Ltac good_now := match goal with Hr : reach _ _ _ |- good _ => exact (reach_good _ _ _ Hr) end.
Ltac sized := first [assumption | good_now | reflexivity].
Ltac incl_now := let x := fresh in intros x; cbn [In app temps red_zone destination]; intuition congruence.
Ltac apart_now := cbn [forallb]; unfold apart; unfold own_register in *; lia.
Ltac red_insn :=
  repeat match goal with
  | |- context [destination (mkInsn [?a; ?d] ?b ?t)] => change (destination (mkInsn [a; d] b t)) with d
  | |- context [destination (mkInsn [?x; ?y; ?d] ?b ?t)] => change (destination (mkInsn [x; y; d] b t)) with d
  | |- context [ir_value (mkInsn [?a; ?d] ?b ?t) ?s] =>
      change (ir_value (mkInsn [a; d] b t) s) with (computed t (8 * osize d) (8 * osize a) (input s a) (input s d)); cbn [computed]
  end;
  repeat match goal with
  | H : place_of ?o = _ |- context [place_of ?o] => rewrite H
  | H : forall s, input s ?o = _ |- context [input _ ?o] => rewrite H
  end.
Ltac finish := apply runs_nil; eexists; split; [eassumption |]; split; [red_insn; incl_now | red_insn].
(** Immediate values stand for 32 bits, extended with their sign. *)
Definition imm_ok (w v : Z) : bool := wrap w (sext 32 v) =? wrap w v.
Lemma imm_read sz v s : valid_size sz = true -> imm_ok (8 * sz) v = true -> read_opnd sz (Imm sz (u32 v)) s = Some (wrap (8 * sz) v).
Proof.
  intros Hs H. apply valid_size_cases in Hs. cbn [Imm read_opnd]. unfold imm_value. rewrite wrap_wrap by lia. f_equal.
  rewrite <- (proj1 (Z.eqb_eq _ _) H). f_equal. unfold u32, wrap. now apply sext_mod.
Qed.
Lemma u32_range v : 0 <= u32 v < 2 ^ 32. Proof. now apply wrap_range. Qed.
Lemma width_nonneg w : valid_size w = true -> 0 <= 8 * w.
Proof. intros H%valid_size_cases. lia. Qed.
Ltac read_now := first [apply read_place | apply imm_read; assumption | reflexivity].
Ltac step :=
  lazymatch goal with
  | |- runs (IMov _ _ _ :: _) _ _ => eapply runs_mov; [sized | sized | read_now | next_state]
  | |- runs (IMovImm _ _ :: _) _ _ => eapply runs_mov_imm; [sized | sized | next_state]
  | |- runs (IAlu _ _ _ _ :: _) _ _ => eapply runs_alu; [sized | sized | reflexivity | read_now | next_state]
  | |- runs (IMovzx _ _ _ :: _) _ _ => eapply runs_movzx; [sized | sized | read_now | next_state]
  | |- runs (IMovsx _ _ _ :: _) _ _ => eapply runs_movsx; [sized | sized | read_now | next_state]
  | |- runs (IBswap _ _ :: _) _ _ => eapply runs_bswap; [sized | sized | first [assumption | lia] | next_state]
  | |- runs (IImul _ _ _ :: _) _ _ => eapply runs_imul; [sized | sized | read_now | next_state]
  end.
Lemma alu_add w a b : fst (alu_result 0 w a b 0) = wrap w (a + b).
Proof. cbn. now rewrite Z.add_0_r. Qed.
Lemma alu_sub w a b : fst (alu_result 5 w a b 0) = wrap w (a - b).
Proof. cbn. now rewrite Z.sub_0_r. Qed.
Lemma alu_and w a b : fst (alu_result 4 w a b 0) = Z.land a b.
Proof. reflexivity. Qed.
Lemma alu_or w a b : fst (alu_result 1 w a b 0) = Z.lor a b.
Proof. reflexivity. Qed.
Lemma alu_xor w a b : fst (alu_result 6 w a b 0) = Z.lxor a b.
Proof. reflexivity. Qed.
Lemma after_narrow p sz v s s1 k : valid_size k = true -> valid_size sz = true -> k <= sz -> after p sz v s s1 -> held s1 p k = wrap (8 * k) v.
Proof.
  intros Hk Hs Hle A. pose proof (valid_size_cases _ Hk). rewrite (held_narrow s1 p k sz) by (try assumption; apply A).
  rewrite (after_held _ _ _ _ _ A). apply wrap_narrow. lia.
Qed.
(** What is held now, of what was held at the start. *)
Ltac back :=
  repeat match goal with
  | A : after ?p ?sz ?v ?s ?s1 |- context [held ?s1 ?q ?z] =>
      first [ rewrite (after_held _ _ _ _ _ A) | rewrite (after_narrow p sz v s s1 z ltac:(assumption) ltac:(assumption) ltac:(lia) A) | rewrite (after_apart _ _ _ _ _ q z A) by first [place_ne | apart_now | discriminate | assumption | reflexivity] ]
  end.
Ltac unwrap :=
  rewrite ?alu_add, ?alu_sub, ?alu_and, ?alu_or, ?alu_xor; repeat first [ rewrite wrap_wrap by first [lia | apply width_nonneg; assumption] | rewrite (wrap_small _ (held _ _ _)) by (apply held_range; assumption) ].

(** The calls are those asked for; then the run, up to the value computed. *)
Ltac computes_by Hd :=
  eapply computes_simply;
    [exact Hd | asks_all
    | let s := fresh "s" in let Hg := fresh "Hg" in let Hdef := fresh "Hdef" in intros s Hg Hdef; pose proof (reach_start s Hg) as Hr; repeat step; finish; back; unwrap; try reflexivity ].

Lemma wrap_bitwise w a b : 0 <= w -> in_range w a -> in_range w b ->
  wrap w (Z.land a b) = Z.land a b /\ wrap w (Z.lor a b) = Z.lor a b /\ wrap w (Z.lxor a b) = Z.lxor a b.
Proof.
  intros Hw Ha Hb. unfold wrap. rewrite <- !Z.land_ones by exact Hw. unfold in_range in *.
  rewrite <- (Z.mod_small a (2 ^ w)), <- (Z.mod_small b (2 ^ w)) by assumption. rewrite <- !Z.land_ones by exact Hw.
  repeat split; apply Z.bits_inj'; intros n Hn; rewrite ?Z.land_spec, ?Z.lor_spec, ?Z.lxor_spec, ?Z.land_spec;
    destruct (Z.testbit (Z.ones w) n), (Z.testbit a n), (Z.testbit b n); reflexivity.
Qed.

Lemma input_range s o : good s -> placed o = true \/ constant_ok o = true -> in_range (8 * osize o) (input s o).
Proof.
  intros Hg [H | H].
  - rewrite (input_placed s o H). apply held_range; [exact Hg | apply placed_vreg; assumption].
  - destruct (constant_parts o H) as (_ & _ & _ & Hs & _ & ->). apply wrap_range. now apply width_nonneg.
Qed.

(** ** Moves *)

Definition mov_ok (a d : IROperand) : bool := placed d && (osize a =? osize d) && (placed a || constant_ok a).
(** Operands allocated to the same place. *)
Lemma same_alloc a d : is_alloc_reg a = is_alloc_reg d -> (alloc_data a =? alloc_data d) = true -> place_of a = place_of d.
Proof. intros E1 E2%Z.eqb_eq. unfold place_of, register_of. now rewrite E1, E2. Qed.
Lemma LowerMov_placed b a d : placed a = true -> placed d = true -> osize a = osize d ->
  computes (mkInsn [a; d] b MOV) (LowerMov (mkInsn [a; d] b MOV)).
Proof.
  intros Ha Hd Hsz. open_operand a Ha; open_operand d Hd; unfold LowerMov; lowering_eqs; rewrite Hsz in *;
    try destruct (alloc_data a =? alloc_data d) eqn:Ealloc; computes_by Hd; rewrite <- Pl, <- Pl0; f_equal; symmetry; apply same_alloc; congruence.
Qed.
Ltac open_constant a Ha :=
  let C1 := fresh "Vc" in let C2 := fresh "Vr" in let C3 := fresh "Vt" in let C4 := fresh "Vs" in let C5 := fresh "Cv" in let C6 := fresh "Own" in
  destruct (constant_parts a Ha) as (C1 & C2 & C3 & C4 & C5 & C6).
Lemma LowerMov_constant b a d : constant_ok a = true -> placed d = true -> osize a = osize d ->
  computes (mkInsn [a; d] b MOV) (LowerMov (mkInsn [a; d] b MOV)).
Proof.
  intros Ha Hd Hsz. open_constant a Ha; open_operand d Hd; unfold LowerMov, mov_constant_to_stack; lowering_eqs; rewrite Hsz in *;
    destruct (Z.eqb_spec (value a) 0) as [E0 | E0].
  - computes_by Hd. rewrite E0. now rewrite Z.lxor_nilpotent.
  - computes_by Hd.
  - computes_by Hd. rewrite E0. now rewrite Z.lxor_nilpotent.
  - assert (U : forall n, osize d = n -> wrap (8 * osize d) (wrap (8 * n) (value a)) = wrap (8 * osize d) (value a)).
    { intros n <-. now rewrite wrap_wrap by now apply width_nonneg. }
    destruct (Z.eqb_spec (osize d) 1) as [E | ?]; [computes_by Hd; now apply (U 1) |].
    destruct (Z.eqb_spec (osize d) 2) as [E | ?]; [computes_by Hd; now apply (U 2) |].
    destruct (Z.eqb_spec (osize d) 4) as [E | ?]; [computes_by Hd; now apply (U 4) |].
    destruct (Z.eqb_spec (osize d) 8) as [E | N]; [| apply valid_size_cases in Vs; lia].
    replace (BLKJIT_TEMPS_0 8) with (BLKJIT_TEMPS_0 (osize d)) by now rewrite E. lowering_eqs. computes_by Hd.
Qed.
Lemma LowerMov_correct b a d : mov_ok a d = true -> computes (mkInsn [a; d] b MOV) (LowerMov (mkInsn [a; d] b MOV)).
Proof.
  unfold mov_ok. rewrite !andb_true_iff, orb_true_iff, Z.eqb_eq. intros ((Hd & E) & [Ha | Ha]); [now apply LowerMov_placed | now apply LowerMov_constant].
Qed.

(** ** Sums and bitwise operations *)

Definition sum_ok (a d : IROperand) : bool :=
  placed d && (osize a =? osize d)
  && (placed a || constant_ok a && (if is_alloc_reg d then (osize a =? 8) || imm_ok (8 * osize d) (value a)
                                    else imm_ok (8 * osize d) (value a)
                                      && ((osize d =? 4) || (osize d =? 8) || (osize d =? 2) && (u32 (value a) <? 127)))).
Definition is_sum (t : IRInstructionType) : Prop := t = ADD \/ t = SUB.
Lemma LowerAddSub_placed b t a d : is_sum t -> placed a = true -> placed d = true -> osize a = osize d ->
  computes (mkInsn [a; d] b t) (LowerAddSub (mkInsn [a; d] b t)).
Proof.
  intros [-> | ->] Ha Hd Hsz; open_operand a Ha; open_operand d Hd; unfold LowerAddSub; lowering_eqs; rewrite Hsz in *; computes_by Hd.
Qed.
Lemma LowerAddSub_constant b t a d : is_sum t -> sum_ok a d = true -> constant_ok a = true ->
  computes (mkInsn [a; d] b t) (LowerAddSub (mkInsn [a; d] b t)).
Proof.
  unfold sum_ok. rewrite !andb_true_iff, Z.eqb_eq. intros Ht ((Hd & Hsz) & Hc) Ha. open_constant a Ha.
  assert (placed a = false) as N by (unfold placed; now rewrite Vr). rewrite N, Ha, orb_false_l, andb_true_l in Hc.
  pose proof (u32_range (value a)).
  open_operand d Hd; rewrite Ar in Hc; unfold LowerAddSub; destruct Ht as [-> | ->]; lowering_eqs; rewrite Hsz in *.
  1-2: destruct (Z.eqb_spec (osize d) 8) as [E8 | E8]; rewrite ?orb_true_l, ?orb_false_l in Hc; computes_by Hd.
  all: rewrite andb_true_iff in Hc; destruct Hc as [Hc Hc2]; computes_by Hd.
Qed.
Lemma LowerAddSub_correct b t a d : is_sum t -> sum_ok a d = true -> computes (mkInsn [a; d] b t) (LowerAddSub (mkInsn [a; d] b t)).
Proof.
  intros Ht H. pose proof H as H'. unfold sum_ok in H'. rewrite !andb_true_iff, orb_true_iff, Z.eqb_eq, andb_true_iff in H'. destruct H' as ((Hd & E) & [Ha | [Ha _]]).
  - now apply LowerAddSub_placed.
  - now apply LowerAddSub_constant.
Qed.

Definition bitwise_ok (t : IRInstructionType) (a d : IROperand) : bool :=
  placed d && (osize a =? osize d)
  && (placed a || constant_ok a && ((osize a =? 8)
      || imm_ok (8 * osize d) (value a) && negb (bool_decide (t = XOR) && is_alloc_reg d && wrong_accumulator (T (register_of d) (osize d))))).
Definition is_bitwise (t : IRInstructionType) : Prop := t = AND \/ t = OR \/ t = XOR.
Lemma bitwise_value sz a b : valid_size sz = true -> in_range (8 * sz) a -> in_range (8 * sz) b ->
  wrap (8 * sz) (Z.land a b) = Z.land a b /\ wrap (8 * sz) (Z.lor a b) = Z.lor a b /\ wrap (8 * sz) (Z.lxor a b) = Z.lxor a b.
Proof. intros Hs. apply wrap_bitwise. now apply width_nonneg. Qed.
Lemma LowerBitwise_placed b t a d : is_bitwise t -> placed a = true -> placed d = true -> osize a = osize d ->
  computes (mkInsn [a; d] b t) (LowerBitwise (mkInsn [a; d] b t)).
Proof.
  intros Ht Ha Hd Hsz; open_operand a Ha; open_operand d Hd; destruct Ht as [-> | [-> | ->]]; unfold LowerBitwise; lowering_eqs; rewrite Hsz in *;
    try destruct (alloc_data a =? alloc_data d) eqn:Ealloc; computes_by Hd; try (apply bitwise_value; try assumption; now apply held_range).
  all: replace (InReg k) with (InReg k0) by (rewrite <- Pl, <- Pl0; symmetry; apply same_alloc; congruence); now rewrite ?Z.land_diag, ?Z.lor_diag.
Qed.
Lemma LowerBitwise_constant b t a d : is_bitwise t -> bitwise_ok t a d = true -> constant_ok a = true ->
  computes (mkInsn [a; d] b t) (LowerBitwise (mkInsn [a; d] b t)).
Proof.
  unfold bitwise_ok. rewrite !andb_true_iff, Z.eqb_eq. intros Ht ((Hd & Hsz) & Hc) Ha. open_constant a Ha.
  assert (placed a = false) as N by (unfold placed; now rewrite Vr). rewrite N, Ha, orb_false_l, andb_true_l in Hc.
  pose proof (u32_range (value a)). assert (Hw : forall s, good s -> in_range (8 * osize d) (wrap (8 * osize d) (value a))).
  { intros s _. apply wrap_range. rewrite <- Hsz. now apply width_nonneg. }
  open_operand d Hd; rewrite Ar, ?andb_true_r in Hc; destruct Ht as [-> | [-> | ->]]; unfold LowerBitwise; lowering_eqs; rewrite Hsz in *;
    (destruct (Z.eqb_spec (osize d) 8) as [E8 | E8];
      [ try replace (get_temp 0 8) with (get_temp 0 (osize d)) by (now rewrite E8); try replace (BLKJIT_TEMPS_0 8) with (BLKJIT_TEMPS_0 (osize d)) by (now rewrite E8);
        try replace (osize d <? 8) with false by (symmetry; apply Z.ltb_ge; lia); lowering_eqs
      | rewrite orb_false_l, andb_true_iff in Hc; destruct Hc as [Hc Hx];
        try (replace (osize d <? 8) with true by (pose proof (valid_size_cases _ Vs); symmetry; apply Z.ltb_lt; lia)) ]).
  all: computes_by Hd; try (apply bitwise_value; try assumption; [now apply held_range | now apply (Hw s)]).
  intros _. rewrite bool_decide_eq_true_2, andb_true_l in Hx by reflexivity. rewrite Kd. now apply negb_true_iff.
Qed.
Lemma LowerBitwise_correct b t a d : is_bitwise t -> bitwise_ok t a d = true -> computes (mkInsn [a; d] b t) (LowerBitwise (mkInsn [a; d] b t)).
Proof.
  intros Ht H. pose proof H as H'. unfold bitwise_ok in H'. rewrite !andb_true_iff, orb_true_iff, Z.eqb_eq, andb_true_iff in H'. destruct H' as ((Hd & E) & [Ha | [Ha _]]).
  - now apply LowerBitwise_placed.
  - now apply LowerBitwise_constant.
Qed.

(** ** Changes of width *)

Definition trunc_ok (a d : IROperand) : bool := placed a && placed d && (osize d <=? osize a).
Lemma held_wide s p k sz : good s -> valid_size k = true -> valid_size sz = true -> k <= sz -> wrap (8 * k) (held s p sz) = held s p k.
Proof. intros. symmetry. now apply held_narrow. Qed.
Lemma LowerTrunc_correct b a d : trunc_ok a d = true -> computes (mkInsn [a; d] b TRUNC) (LowerTrunc (mkInsn [a; d] b TRUNC)).
Proof.
  unfold trunc_ok. rewrite !andb_true_iff, Z.leb_le. intros ((Ha & Hd) & Hle). open_operand a Ha; open_operand d Hd; unfold LowerTrunc; lowering_eqs;
    try destruct (alloc_data a =? alloc_data d) eqn:Ealloc; computes_by Hd.
  all: rewrite held_wide by assumption; try reflexivity; rewrite <- Pl, <- Pl0; f_equal; symmetry; apply same_alloc; congruence.
Qed.

Definition extend_ok (t : IRInstructionType) (a d : IROperand) : bool :=
  placed d && (osize a <? osize d)
  && (placed a || constant_ok a && is_alloc_reg d
        && (value a <? 2 ^ (if bool_decide (t = SX) then 8 * osize a - 1 else 8 * osize a))).
Definition is_extension (t : IRInstructionType) : Prop := t = ZX \/ t = SX.
Lemma held_wider s p k sz : good s -> valid_size k = true -> valid_size sz = true -> k <= sz -> wrap (8 * sz) (held s p k) = held s p k.
Proof.
  intros Hg Hk Hs Hle. apply wrap_small. pose proof (valid_size_cases _ Hk). apply (in_range_wider (8 * k)); [lia |]. now apply held_range.
Qed.
Lemma narrow_sizes a d : valid_size a = true -> valid_size d = true -> a < d -> (a =? 4) && (d =? 8) = false -> a = 1 \/ a = 2.
Proof. intros H%valid_size_cases K%valid_size_cases. lia. Qed.
(** The three special forms of the accumulator. *)
Lemma accumulator k w v : 0 <= k < 16 -> reg_eqb (T k w) (mkReg v 0 false false) = true -> k = 0 /\ w = v.
Proof.
  intros Hk H%reg_eqb_eq. unfold T in H. injection H as Hw Hm Hh _. split; [| exact Hw]. apply Z.leb_gt in Hh.
  rewrite Z.mod_small in Hm by lia. exact Hm.
Qed.
Lemma convert_correct b a d c sz :
  placed a = true -> placed d = true -> place_of a = InReg 0 -> place_of d = InReg 0 -> osize a = sz / 2 -> osize d = sz -> sz = 2 \/ sz = 4 ->
  asks c (IConvert sz) -> computes (mkInsn [a; d] b SX) (ops [c]).
Proof.
  intros Ha Hd Pa Pd Ea Ed Hsz Hc. eapply computes_simply; [exact Hd | constructor; [exact Hc | constructor] |]. intros s Hg _.
  assert (Vs : valid_size sz = true) by (destruct Hsz as [-> | ->]; reflexivity). pose proof (reach_start s Hg) as Hr.
  eapply (runs_convert s Hg sz Vs [] _ RAX); [reflexivity | lia | next_state].
  apply runs_nil. eexists. split; [exact Hr |]. split; [red_insn; incl_now |].
  red_insn. rewrite Ed, Ea, (input_placed s a Ha), Pa, Ea. change RAX with 0 in A. rewrite (after_held _ _ _ _ _ A). cbn [held reg_value].
  f_equal. f_equal. destruct Hsz as [-> | ->]; reflexivity.
Qed.
Lemma LowerExtend_narrow b t a d : is_extension t -> placed a = true -> placed d = true -> osize a < osize d -> (osize a =? 4) && (osize d =? 8) = false ->
  computes (mkInsn [a; d] b t) (LowerExtend (mkInsn [a; d] b t)).
Proof.
  intros Ht Ha Hd Hlt H48. open_operand a Ha; open_operand d Hd; pose proof (narrow_sizes _ _ Vs Vs0 Hlt H48); unfold LowerExtend, unspill_temp, movx_rr;
    destruct Ht as [-> | ->]; lowering_eqs; rewrite H48; lowering_eqs.
  2: { destruct (reg_eqb (T k (osize a)) (mkReg 4 0 false false) && _) eqn:E1;
         [apply andb_true_iff in E1 as [E1%accumulator _]; [| assumption]; lia |].
       destruct (reg_eqb (T k (osize a)) (mkReg 2 0 false false) && _) eqn:E2.
       { apply andb_true_iff in E2 as [[-> E3]%accumulator [-> E4]%accumulator]; try assumption.
         eapply (convert_correct b a d cwtl 4); try assumption; [right; reflexivity | apply asks_plain; in_list]. }
       destruct (reg_eqb (T k (osize a)) (mkReg 1 0 false false) && _) eqn:E3.
       { apply andb_true_iff in E3 as [[-> E3]%accumulator [-> E4]%accumulator]; try assumption.
         eapply (convert_correct b a d cbtw 2); try assumption; [left; reflexivity | apply asks_plain; in_list]. }
       computes_by Hd. }
  all: computes_by Hd.
  all: apply held_wider; try assumption; lia.
Qed.
Lemma sext_small w v : 0 < w -> 0 <= v < 2 ^ (w - 1) -> sext w v = v.
Proof. intros Hw Hv. apply sext_id; [exact Hw |]. lia. Qed.
Lemma LowerExtend_constant b t a d : is_extension t -> extend_ok t a d = true -> constant_ok a = true ->
  computes (mkInsn [a; d] b t) (LowerExtend (mkInsn [a; d] b t)).
Proof.
  unfold extend_ok. rewrite !andb_true_iff, Z.ltb_lt. intros Ht ((Hd & Hlt) & Hc) Ha. open_constant a Ha.
  assert (placed a = false) as N by (unfold placed; now rewrite Vr). rewrite N, Ha, orb_false_l, andb_true_l, andb_true_iff, Z.ltb_lt in Hc.
  destruct Hc as [Hreg Hc]. open_operand d Hd; [| congruence]. pose proof (valid_size_cases _ Vs) as C. pose proof (valid_size_cases _ Vs0).
  assert (Hv : in_range (8 * osize a) (value a)).
  { unfold in_range. split; [lia |]. destruct Ht as [-> | ->]; [exact Hc |]. rewrite bool_decide_eq_true_2 in Hc by reflexivity.
    pose proof (Z.pow_le_mono_r 2 (8 * osize a - 1) (8 * osize a)). lia. }
  assert (Hv2 : in_range (8 * osize d) (value a)) by (apply (in_range_wider (8 * osize a)); [lia | exact Hv]).
  destruct Ht as [-> | ->]; unfold LowerExtend; lowering_eqs; computes_by Hd; rewrite (wrap_small (8 * osize a)) by exact Hv; [now apply wrap_small |].
  rewrite bool_decide_eq_true_2 in Hc by reflexivity. now rewrite sext_small by lia.
Qed.
Lemma after_half k sz w v s s1 : sz = 4 -> w = 8 -> after (InReg k) sz v s s1 -> held s1 (InReg k) w = wrap (8 * sz) v.
Proof. intros -> -> A. destruct (after_full _ _ _ _ _ A eq_refl) as [E | [d E]]; [exact E | discriminate]. Qed.
Lemma LowerExtend_4_8 b t a d : is_extension t -> placed a = true -> placed d = true -> osize a = 4 -> osize d = 8 ->
  (t = ZX -> is_alloc_reg a = true -> is_alloc_stack d = true -> False) ->
  computes (mkInsn [a; d] b t) (LowerExtend (mkInsn [a; d] b t)).
Proof.
  intros Ht Ha Hd E4 E8 Hx. assert (E48 : (osize a =? 4) && (osize d =? 8) = true) by (rewrite E4, E8; reflexivity).
  assert (Hle : osize a <= osize d) by lia.
  assert (T4 : BLKJIT_TEMPS_0 4 = BLKJIT_TEMPS_0 (osize a)) by now rewrite E4. assert (T8 : BLKJIT_TEMPS_0 8 = BLKJIT_TEMPS_0 (osize d)) by now rewrite E8.
  assert (W4 : register_width d 4 = register_width d (osize a)) by now rewrite E4.
  open_operand a Ha; open_operand d Hd; unfold LowerExtend, zx_4_8, sx_4_8; destruct Ht as [-> | ->]; lowering_eqs; rewrite E48; lowering_eqs;
    rewrite ?T4, ?T8, ?W4; lowering_eqs; try (exfalso; now apply Hx).
  all: computes_by Hd.
  all: rewrite (after_half _ _ _ _ _ _ E4 E8 A), (wrap_small (8 * osize a)) by (now apply held_range); try reflexivity. apply held_wider; try assumption.
Qed.
(** From a register to a slot, its own upper half is cleared on the way. *)
Lemma LowerExtend_own_half b a d : placed a = true -> placed d = true -> osize a = 4 -> osize d = 8 -> is_alloc_reg a = true -> is_alloc_stack d = true ->
  computes (mkInsn [a; d] b ZX) (LowerExtend (mkInsn [a; d] b ZX)).
Proof.
  intros Ha Hd E4 E8 Hra Hsd. assert (E48 : (osize a =? 4) && (osize d =? 8) = true) by (rewrite E4, E8; reflexivity).
  assert (Hle : osize a <= osize d) by lia.
  open_operand a Ha; [| congruence]. open_operand d Hd; [congruence |].
  assert (W8 : register_width a 8 = Ok (T k (osize d))) by (rewrite E8; now apply Wd). unfold LowerExtend, zx_4_8. lowering_eqs. rewrite E48. lowering_eqs.
  rewrite W8. lowering_eqs. eexists _, _. split; [reflexivity |]. split; [asks_all |]. intros s Hg _. pose proof (reach_start s Hg) as Hr. repeat step. apply runs_nil.
  assert (V : held s1 (OnStack d0) (osize d) = held s (InReg k) (osize a)).
  { back. rewrite (after_half _ _ _ _ _ _ E4 E8 A), (wrap_small (8 * osize a)) by (now apply held_range). now apply held_wider. }
  split; [apply Hr | red_insn; exact V | |].
  - intros o [<- | [<- | []]] _ Hap; [| red_insn; revert Hap; red_insn; cbn [apart]; rewrite Z.sub_diag; discriminate].
    rewrite !Own, !Pl. back. now unwrap.
  - apply (frame_sub [InReg k; OnStack d0]); [| apply Hr]. red_insn. unfold half_registers. cbn [operands List.filter]. rewrite Ar, E4. cbn [andb Z.eqb Pos.eqb map].
    rewrite Pl. intros x [<- | [<- | []]]; cbn; tauto.
Qed.
Lemma LowerExtend_correct b t a d : is_extension t -> extend_ok t a d = true -> computes (mkInsn [a; d] b t) (LowerExtend (mkInsn [a; d] b t)).
Proof.
  intros Ht H. pose proof H as H'. unfold extend_ok in H'. rewrite !andb_true_iff, orb_true_iff, Z.ltb_lt, !andb_true_iff in H'.
  destruct H' as ((Hd & Hlt) & [Ha | ((Ha & _) & _)]); [| now apply LowerExtend_constant].
  destruct ((osize a =? 4) && (osize d =? 8)) eqn:E; [| now apply LowerExtend_narrow].
  apply andb_true_iff in E as [E4%Z.eqb_eq E8%Z.eqb_eq]. destruct (bool_decide (t = ZX) && is_alloc_reg a && is_alloc_stack d) eqn:Ex.
  - apply andb_true_iff in Ex as [[->%bool_decide_eq_true Ea]%andb_true_iff Es]. now apply LowerExtend_own_half.
  - apply LowerExtend_4_8; try assumption. intros -> Ea Es. rewrite Ea, Es in Ex. discriminate.
Qed.

(** What a lowerer that may take several instructions does with one. *)
Definition lowers (insn : IRInstruction) (l : lowering) : Prop := exists x, l = Ok (x, 1%nat) /\ computes insn (Ok x).

(** ** Condition codes *)

Definition code_of (t : IRInstructionType) (reversed : bool) : Z :=
  match t with
  | CMPEQ => 4 | CMPNE => 5
  | CMPLT => if reversed then 7 else 2 | CMPLTE => if reversed then 3 else 6
  | CMPGT => if reversed then 2 else 7 | CMPGTE => if reversed then 6 else 3
  | CMPSLT => if reversed then 15 else 12 | CMPSLTE => if reversed then 13 else 14
  | CMPSGT => if reversed then 12 else 15 | CMPSGTE => if reversed then 14 else 13
  | _ => 0
  end.
Definition is_signed (t : IRInstructionType) : bool := match t with CMPSLT | CMPSLTE | CMPSGT | CMPSGTE => true | _ => false end.
Lemma unsigned_set_code t rev r : is_comparison t = true -> is_signed t = false -> unsigned_set t rev r = Ok (setcc_r (code_of t rev) r).
Proof. destruct t; try discriminate; intros _ _; destruct rev; reflexivity. Qed.
Lemma signed_set_code t rev r : is_signed t = true -> signed_set t rev r = Ok (setcc_r (code_of t rev) r).
Proof. destruct t; try discriminate; intros _; destruct rev; reflexivity. Qed.
Lemma code_range t rev : 0 <= code_of t rev < 16.
Proof. destruct t, rev; cbn; lia. Qed.
(** The operands of the instruction in the order in which they are compared. *)
Definition first (rev : bool) (a b : Z) : Z := if rev then b else a.
Definition second (rev : bool) (a b : Z) : Z := if rev then a else b.
Lemma code_correct t rev w a b : 0 < w -> in_range w a -> in_range w b -> is_comparison t = true ->
  holds (code_of t rev) (cmp_flags w (first rev a b) (second rev a b)) = comparison t w a b.
Proof.
  intros Hw Ha Hb Ht. assert (H : forall cc p x y, in_range w x -> in_range w y -> In (cc, p) codes -> holds cc (cmp_flags w x y) = p w x y) by (intros; now apply code_condition).
  destruct t; try discriminate; destruct rev; cbn [code_of first second comparison].
  all: erewrite H; [| assumption | assumption | unfold codes; in_list]; unfold equal, not_equal, below, above, below_equal, above_equal, less, greater, less_equal, greater_equal.
  all: rewrite ?(Z.eqb_sym b a); reflexivity.
Qed.

(** ** Comparisons *)

(** The calls compare the operands, possibly the other way round, and write
    temporaries only. *)
Definition compares (a b : IROperand) (c : result (list code * bool)) : Prop :=
  exists cs rev is1, c = Ok (cs, rev) /\ Forall2 asks cs is1
    /\ forall s r Q, good s ->
         (forall ps s1, reach ps s s1 -> incl ps temps ->
            runs r (compared (8 * osize a) (first rev (input s a) (input s b)) (second rev (input s a) (input s b)) s1) Q) ->
         runs (is1 ++ r) s Q.

Definition small_constant (a b : IROperand) : bool :=
  constant_ok b && (if is_alloc_reg a then imm_ok (8 * osize a) (value b) else (osize b <? 8) || (value b <? 0x80)).
Ltac compared_now :=
  eexists _, _, _; split; [reflexivity |]; split; [asks_all |];
  let s := fresh "s" in let r := fresh "r" in let Q := fresh "Q" in let Hg := fresh "Hg" in let H := fresh "H" in
  intros s r Q Hg H; pose proof (reach_start s Hg) as Hr; cbn [app]; repeat step;
  eapply runs_cmp; [read_now | read_now |]; back; unwrap;
  match goal with |- runs _ (compared ?w ?x ?y ?s1) _ => specialize (H _ _ Hr ltac:(intros ?; cbn; intuition congruence)) end;
  cbn [first second] in H;
  repeat match goal with
  | V : forall s, input s ?o = _ |- _ => rewrite !V in H; clear V
  | V : place_of ?o = _ |- _ => rewrite ?V in H; clear V
  end; try exact H.
Lemma compare_vreg_placed a b : placed a = true -> placed b = true -> osize a = osize b -> compares a b (compare_vreg a b).
Proof.
  intros Ha Hb E. open_operand a Ha; open_operand b Hb; unfold compare_vreg, unspill_temp; lowering_eqs; rewrite E in *; compared_now; rewrite E in *; try exact H1.
Qed.
Lemma cmp_im_constant v sz d : valid_size sz = true -> slot_offset d -> 0 <= v < 2 ^ 64 -> sz < 8 \/ v < 0x80 ->
  exists c i, cmp_im v sz (stack_slot d) = Ok [c] /\ asks c (IAlu 7 sz (opnd_of (OnStack d) sz) (OImm i)) /\ wrap (8 * sz) i = wrap (8 * sz) v.
Proof.
  intros Hs Hd Hv Hx. unfold cmp_im. pose proof (valid_size_cases _ Hs) as C. destruct C as [-> | [-> | [-> | ->]]]; cbn [Z.eqb Pos.eqb].
  - exists (cmp1 (u8 v) (stack_slot d)), (imm_value 1 (u8 v)). split; [reflexivity |]. split.
    + apply (ask_cmp_im 1 d); [exact Hd | in_list |]. unfold u8. pose proof (wrap_range 8 v). unfold in_range in *. lia.
    + unfold imm_value, u8. change (8 * 1) with 8. rewrite wrap_wrap by lia. rewrite wrap_sext_le by lia. now rewrite wrap_wrap.
  - exists (cmp2 (u16 v) (stack_slot d)), (imm_value 2 (u16 v)). split; [reflexivity |]. split.
    + apply (ask_cmp_im 2 d); [exact Hd | in_list |]. unfold u16. pose proof (wrap_range 16 v). unfold in_range in *. lia.
    + unfold imm_value, u16. change (8 * 2) with 16. rewrite wrap_wrap by lia. rewrite wrap_sext_le by lia. now rewrite wrap_wrap.
  - exists (cmp4 (u32 v) (stack_slot d)), (imm_value 4 (u32 v)). split; [reflexivity |]. split.
    + apply (ask_cmp_im 4 d); [exact Hd | in_list | apply u32_range].
    + unfold imm_value, u32. change (8 * 4) with 32. rewrite wrap_wrap by lia. rewrite wrap_sext_le by lia. now rewrite wrap_wrap.
  - exists (cmp8 v (stack_slot d)), (imm_value 8 v). split; [reflexivity |]. split.
    + apply ask_cmp8; [exact Hd | lia].
    + unfold imm_value. rewrite wrap_wrap by lia. now rewrite sext_small by lia.
Qed.
Lemma compare_vreg_constant a b : placed a = true -> small_constant a b = true -> osize a = osize b -> compares a b (compare_vreg a b).
Proof.
  unfold small_constant. intros Ha Hb E. apply andb_true_iff in Hb as [Hb Hi]. open_constant b Hb. pose proof (u32_range (value b)).
  open_operand a Ha; rewrite Ar in Hi; unfold compare_vreg; lowering_eqs.
  - rewrite E in *. compared_now. rewrite E in *. exact H1.
  - destruct (cmp_im_constant (value b) (osize b) d) as (c & i & Ec & Hc & Hv); try assumption; [lia |]. rewrite Ec. lowering_eqs.
    rewrite E in *. eexists _, _, _. split; [reflexivity |]. split; [constructor; [exact Hc | constructor] |]. 
    intros s r Q Hg K. cbn [app]. eapply runs_cmp; [apply read_place | cbn [read_opnd]; reflexivity |]. rewrite Hv.
    specialize (K [] s (reach_start s Hg) ltac:(intros ? [])). cbn [first second] in K. rewrite Own, Own0, Pl, E in K. exact K.
Qed.

Lemma compare_operands_constant a b : constant_ok a = true -> placed b = true \/ constant_ok b = true -> osize a = osize b -> compares a b (compare_operands a b).
Proof.
  intros Ha Hb E. open_constant a Ha. destruct Hb as [Hb | Hb]; [open_operand b Hb | open_constant b Hb]; unfold compare_operands; lowering_eqs; rewrite E in *; compared_now; rewrite E in *; try exact H1; try exact H0; try exact H.
Qed.
Lemma compare_signed_constant a b : constant_ok a = true -> osize a = osize b ->
  placed b = true /\ small_constant b a = true \/ constant_ok b = true /\ imm_ok (8 * osize a) (value a) = true ->
  compares a b (compare_signed_operands a b).
Proof.
  intros Ha E Hb. open_constant a Ha. pose proof (u32_range (value a)). destruct Hb as [(Hb & Hi) | (Hb & Hi)].
  - unfold small_constant in Hi. rewrite Ha in Hi. cbn [andb] in Hi. open_operand b Hb; rewrite Ar in Hi; unfold compare_signed_operands; lowering_eqs.
    + rewrite E in *. compared_now. rewrite E in *. exact H1.
    + destruct (cmp_im_constant (value a) (osize a) d) as (c & i & Ec & Hc & Hv); try assumption; [lia |].
      change (valid_size (osize a)) with ((osize a =? 1) || (osize a =? 2) || (osize a =? 4) || (osize a =? 8)) in Vs. rewrite Vs, Ec. lowering_eqs.
      rewrite E in *. eexists _, _, _. split; [reflexivity |]. split; [constructor; [exact Hc | constructor] |].
      intros s r Q Hg K. cbn [app]. eapply runs_cmp; [apply read_place | cbn [read_opnd]; reflexivity |]. rewrite Hv.
      specialize (K [] s (reach_start s Hg) ltac:(intros ? [])). cbn [first second] in K. rewrite Own, Own0, Pl, E in K. exact K.
  - open_constant b Hb. unfold compare_signed_operands. lowering_eqs. rewrite E in *. compared_now. rewrite E in *. exact H0.
Qed.

(** ** The result *)

Definition compare_ok (t : IRInstructionType) (a b d : IROperand) : bool :=
  placed d && (osize d =? 1) && (osize a =? osize b)
  && (placed a && (placed b || small_constant a b)
      || constant_ok a && (if is_signed t then placed b && small_constant b a || constant_ok b && imm_ok (8 * osize a) (value a)
                           else placed b || constant_ok b)).
(** The comparison, the setting of the result and the store of it. *)
Lemma set_result b0 t a b d cs rev is1 :
  is_comparison t = true -> placed d = true -> osize d = 1 -> osize a = osize b -> valid_size (osize a) = true ->
  (forall s, good s -> in_range (8 * osize a) (input s a) /\ in_range (8 * osize a) (input s b)) ->
  Forall2 asks cs is1 ->
  (forall s r Q, good s ->
     (forall ps s1, reach ps s s1 -> incl ps temps ->
        runs r (compared (8 * osize a) (first rev (input s a) (input s b)) (second rev (input s a) (input s b)) s1) Q) -> runs (is1 ++ r) s Q) ->
  let reg := if is_alloc_reg d then T (register_of d) 1 else T 7 1 in
  let after := if is_alloc_reg d then [] else [mov_rm reg (stack_slot (alloc_data d))] in
  computes (mkInsn [a; b; d] b0 t) (ops (cs ++ [setcc_r (code_of t rev) reg] ++ after)).
Proof.
  intros Ht Hd E1 E Hs Hin Hcs Hrun reg aft. pose proof (valid_size_cases _ Hs).
  set (k := if is_alloc_reg d then register_of d else 7).
  assert (Hdest : destination (mkInsn [a; b; d] b0 t) = d) by (unfold destination; cbn [type]; now rewrite Ht).
  assert (Hval : forall s, good s -> ir_value (mkInsn [a; b; d] b0 t) s
    = Z.b2z (holds (code_of t rev) (cmp_flags (8 * osize a) (first rev (input s a) (input s b)) (second rev (input s a) (input s b))))).
  { intros s Hg. unfold ir_value. cbn [type op operands nth]. rewrite Ht. destruct (Hin s Hg). rewrite code_correct by (try assumption; lia). reflexivity. }
  assert (Hk : reg = T k 1) by (unfold reg, k; destruct (is_alloc_reg d); reflexivity).
  apply (computes_simply _ _ (is1 ++ ISetcc (code_of t rev) (OReg (R k 1)) ::
    (if is_alloc_reg d then [] else [IMov 1 (opnd_of (OnStack (alloc_data d)) 1) (opnd_of (InReg 7) 1)]))); [now rewrite Hdest | |].
  - apply Forall2_app; [exact Hcs |]. constructor.
    + rewrite Hk. eapply ask_set; [| reflexivity | apply code_range | reflexivity].
      unfold k. open_operand d Hd; rewrite Ar; [rewrite <- Kd; assumption | unfold reg_number; lia].
    + unfold aft, reg. open_operand d Hd; rewrite Ar; [constructor |]. rewrite <- Kd.
      constructor; [| constructor]. apply ask_mov_rm; [unfold reg_number; lia | reflexivity | assumption].
  - intros s Hg _. apply Hrun; [exact Hg |]. intros ps s1 Hr Hps. apply runs_set; [apply Hr |]. intros s2 A.
    unfold simply. rewrite Hdest, (Hval s Hg), E1. clear Hval Hrun Hk. unfold k in A.
    assert (Hb : forall x : bool, wrap 8 (Z.b2z x) = Z.b2z x) by (intros []; reflexivity).
    open_operand d Hd; rewrite Ar in *.
    + apply runs_nil. exists (ps ++ [InReg (register_of d)]). split; [apply (reach_after _ _ _ _ _ _ _ Hr A); rewrite <- Kd; place_ne |].
      rewrite Pl, Kd. split.
      * intros x [Hx | [<- | []]]%in_app_iff; [right; apply in_app_iff; left; now apply Hps | now left].
      * rewrite (after_held _ _ _ _ _ A). apply Hb.
    + pose proof (reach_after _ _ _ _ _ _ _ Hr A ltac:(discriminate)) as Hr2. clear Hr. eapply runs_mov; [exact (reach_good _ _ _ Hr2) | reflexivity | apply read_place |].
      intros s3 A2. pose proof (reach_after _ _ _ _ _ _ _ Hr2 A2 ltac:(discriminate)) as Hr3. apply runs_nil. eexists. split; [exact Hr3 |]. rewrite Pl, Kd. split.
      * intros x [[Hx | [<- | []]]%in_app_iff | [<- | []]]%in_app_iff; [right; apply in_app_iff; left; now apply Hps | cbn; tauto | now left].
      * rewrite (after_held _ _ _ _ _ A2), (after_held _ _ _ _ _ A). change (8 * 1) with 8. now rewrite !Hb.
Qed.

Lemma compare_parts t a b d : compare_ok t a b d = true ->
  placed d = true /\ osize d = 1 /\ osize a = osize b /\ valid_size (osize a) = true
  /\ (forall s, good s -> in_range (8 * osize a) (input s a) /\ in_range (8 * osize a) (input s b))
  /\ (is_signed t = false -> compares a b (compare_operands a b)) /\ (is_signed t = true -> compares a b (compare_signed_operands a b)).
Proof.
  unfold compare_ok. rewrite !andb_true_iff, !Z.eqb_eq. intros (((Hd & E1) & E) & H).
  assert (Hin : placed a = true \/ constant_ok a = true -> placed b = true \/ constant_ok b = true ->
    valid_size (osize a) = true /\ forall s, good s -> in_range (8 * osize a) (input s a) /\ in_range (8 * osize a) (input s b)).
  { intros Ha Hb. split.
    - destruct Ha as [Ha | Ha]; [apply placed_vreg | apply constant_parts]; exact Ha.
    - intros s Hg. split; [now apply input_range | rewrite E; now apply input_range]. }
  apply orb_true_iff in H as [H | H]; apply andb_true_iff in H as [Ha Hb].
  - assert (Hb' : placed b = true \/ constant_ok b = true).
    { apply orb_true_iff in Hb as [Hb | Hb]; [now left | right]. unfold small_constant in Hb. now apply andb_true_iff in Hb. }
    destruct (Hin (or_introl Ha) Hb'). repeat (split; [assumption |]).
    assert (Hc : compares a b (compare_vreg a b)).
    { apply orb_true_iff in Hb as [Hb | Hb]; [now apply compare_vreg_placed | now apply compare_vreg_constant]. }
    destruct (placed_vreg a Ha) as (_ & _ & Ht & _). unfold compare_operands, compare_signed_operands. rewrite Ht. now split.
  - assert (Hb' : placed b = true \/ constant_ok b = true).
    { destruct (is_signed t); rewrite orb_true_iff, ?andb_true_iff in Hb; tauto. }
    destruct (Hin (or_intror Ha) Hb'). repeat (split; [assumption |]). split; intros Hs; rewrite Hs in Hb.
    + now apply compare_operands_constant.
    + apply compare_signed_constant; try assumption. rewrite orb_true_iff, !andb_true_iff in Hb. exact Hb.
Qed.
Lemma LowerCompare_correct b0 t a b d nx rest f :
  is_comparison t = true -> is_signed t = false -> compare_ok t a b d = true ->
  should_fuse (mkInsn [a; b; d] b0 t :: nx :: rest) d = Ok f -> f && is_equality t = false ->
  lowers (mkInsn [a; b; d] b0 t) (LowerCompare (mkInsn [a; b; d] b0 t :: nx :: rest)).
Proof.
  intros Ht Hs Hok Hf Hfe. destruct (compare_parts t a b d Hok) as (Hd & E1 & E & Hv & Hin & Hc & _).
  destruct (Hc Hs) as (cs & rev & is1 & Ec & Hcs & Hrun). pose proof (set_result b0 t a b d cs rev is1 Ht Hd E1 E Hv Hin Hcs Hrun) as H. cbv zeta in H.
  unfold LowerCompare. change (next_insn (mkInsn [a; b; d] b0 t :: nx :: rest) 0) with (Ok (mkInsn [a; b; d] b0 t)). lowering_eqs. rewrite Ec. cbn [rbind]. rewrite Hf. cbn [rbind].
  assert (Vs1 : valid_size (osize d) = true) by (rewrite E1; reflexivity). rewrite Hfe. lowering_eqs. rewrite E1 in *.
  open_operand d Hd; rewrite Ar in H; lowering_eqs; rewrite unsigned_set_code by assumption; lowering_eqs; eexists; (split; [reflexivity |]).
  - rewrite app_nil_r, Kd, E1. rewrite app_nil_r in H. exact H.
  - unfold ops in H. rewrite !map_app in H |- *. rewrite <- app_assoc. rewrite Kd. exact H.
Qed.
Lemma LowerCompareSigned_correct b0 t a b d nx rest f :
  is_comparison t = true -> is_signed t = true -> compare_ok t a b d = true ->
  should_fuse (mkInsn [a; b; d] b0 t :: nx :: rest) d = Ok f ->
  lowers (mkInsn [a; b; d] b0 t) (LowerCompareSigned (mkInsn [a; b; d] b0 t :: nx :: rest)).
Proof.
  intros Ht Hs Hok Hf. destruct (compare_parts t a b d Hok) as (Hd & E1 & E & Hv & Hin & _ & Hc).
  destruct (Hc Hs) as (cs & rev & is1 & Ec & Hcs & Hrun). pose proof (set_result b0 t a b d cs rev is1 Ht Hd E1 E Hv Hin Hcs Hrun) as H. cbv zeta in H.
  unfold LowerCompareSigned. change (next_insn (mkInsn [a; b; d] b0 t :: nx :: rest) 0) with (Ok (mkInsn [a; b; d] b0 t)). lowering_eqs. rewrite Ec. cbn [rbind]. rewrite Hf. cbn [rbind].
  open_operand d Hd; rewrite Ar in H; lowering_eqs; try rewrite (proj1 (temps_T 1 eq_refl)); lowering_eqs; rewrite signed_set_code by assumption; lowering_eqs; eexists; (split; [reflexivity |]).
  - rewrite Kd, E1. exact H.
  - rewrite Kd. exact H.
Qed.

(** ** Conditional moves *)

Definition cmov_ok (p y n : IROperand) : bool :=
  placed p && is_alloc_reg p && placed n && is_alloc_reg n && (osize y =? osize n) && negb (osize n =? 1)
  && (placed y && is_alloc_reg y || constant_ok y).
Definition tested (w a : Z) (s : machine) : machine := with_flags (Some (result_flags w (Z.land a a) false false)) s.
Lemma runs_test s sz k r Q : runs r (tested (8 * sz) (held s (InReg k) sz) s) Q -> runs (ITest sz (opnd_of (InReg k) sz) (opnd_of (InReg k) sz) :: r) s Q.
Proof. apply runs_step. reflexivity. Qed.
Lemma runs_cmov s sz k l w a r Q : good s -> valid_size sz = true ->
  (forall s1, after (InReg l) sz (if a =? 0 then held s (InReg l) sz else held s (InReg k) sz) s s1 -> runs r s1 Q) ->
  runs (ICmov 5 sz (opnd_of (InReg l) sz) (opnd_of (InReg k) sz) :: r) (tested w a s) Q.
Proof.
  intros Hg Hs Hr. destruct (write_place (InReg l) sz (if a =? 0 then held s (InReg l) sz else held s (InReg k) sz) s Hs Hg) as (s1 & E & A).
  cbn in E. injection E as <-. eapply runs_step; [cbn; reflexivity |]. apply Hr. eapply after_ext; [| | exact A]; [| reflexivity].
  cbn. unfold holds. cbn. rewrite Z.land_diag. destruct (a =? 0); reflexivity.
Qed.
Lemma LowerCMov_correct b p y n : cmov_ok p y n = true -> computes (mkInsn [p; y; n] b CMOV) (LowerCMov (mkInsn [p; y; n] b CMOV)).
Proof.
  unfold cmov_ok. rewrite !andb_true_iff, negb_true_iff, Z.eqb_eq, Z.eqb_neq. intros ((((((Hp & Rp) & Hn) & Rn) & E) & N1) & Hy).
  open_operand p Hp; [| congruence]. open_operand n Hn; [| congruence].
  assert (Hv : forall s, ir_value (mkInsn [p; y; n] b CMOV) s = if input s p =? 0 then input s n else input s y) by reflexivity.
  apply orb_true_iff in Hy as [Hy | Hy]; [apply andb_true_iff in Hy as [Hy Ry]; open_operand y Hy; [| congruence] | open_constant y Hy];
    unfold LowerCMov; lowering_eqs; rewrite E in *; (eapply computes_simply; [exact Hn | unfold cmovne; asks_all |]);
    intros s Hg _; pose proof (reach_start s Hg) as Hr; try step; apply runs_test; (eapply runs_cmov; [sized | sized | next_state]);
    apply runs_nil; (eexists; split; [exact Hr |]); (split; [red_insn; incl_now |]); rewrite Hv; red_insn; back; unwrap; 
    rewrite ?Own, ?Own0, ?Own1, ?Pl, ?Pl0, ?Pl1; unwrap;
    match goal with |- context [if ?c then _ else _] => destruct c end; unwrap; reflexivity.
Qed.
