(* ===== verification/X86LowerMul.v ===== *)
(** * Lowered shifts, products, quotients and bit counts are correct

    These use fixed registers: rcx has the amount of a shift, rax and rdx the
    product and the quotient.  What was in them is moved to a temporary, or
    pushed, and brought back. *)

From Stdlib Require Import ZArith Lia List Bool.
From stdpp Require Import base numbers list.
From S2P Require Import Prelude BlockIR X86Encoder X86Decode X86Shapes X86Conditions X86Machine X86Lower X86Steps X86LowerArith.
Import ListNotations.
#[local] Open Scope Z_scope.
#[local] Open Scope gensim_scope.

(** ** Fixed registers *)

Definition other_than (k : Z) (p : place) : bool := match p with InReg l => negb (l =? k) | OnStack _ => true end.
(** A register whose contents are back is not a place that changed. *)
Lemma reach_restored ps s0 s k : good s0 -> reach ps s0 s -> held s (InReg k) 8 = held s0 (InReg k) 8 -> reach (List.filter (other_than k) ps) s0 s.
Proof.
  intros [G0 _] [[Gr Gm] [Fr Fm] H4] E. split.
  - split; assumption.
  - split.
    + intros r Hn. destruct (Z.eq_dec r k) as [-> | Hne].
      * cbn [held] in E. change (8 * 8) with 64 in E. rewrite !wrap_small in E by auto. exact E.
      * apply Fr. intros Hi. apply Hn, filter_In. split; [exact Hi |]. cbn. now apply negb_true_iff, Z.eqb_neq.
    + intros a Ha. apply Fm. intros [l | d] Hi; [intros [] |]. apply Ha, filter_In. split; [exact Hi | reflexivity].
  - intros [Hi _]%filter_In. contradiction.
Qed.
Lemma runs_xchg s w k l r Q : good s -> valid_size w = true -> k <> l ->
  (forall s1 s2, after (InReg k) w (held s (InReg l) w) s s1 -> after (InReg l) w (held s (InReg k) w) s1 s2 -> runs r s2 Q) ->
  runs (IXchg w (opnd_of (InReg k) w) (opnd_of (InReg l) w) :: r) s Q.
Proof.
  intros Hg Hs Hn H. destruct (write_place (InReg k) w (held s (InReg l) w) s Hs Hg) as (s1 & E1 & A1).
  destruct (write_place (InReg l) w (held s (InReg k) w) s1 Hs (after_good _ _ _ _ _ A1)) as (s2 & E2 & A2).
  eapply runs_step; [| exact (H s1 s2 A1 A2)]. cbn [exec]. rewrite !read_place, E1. exact E2.
Qed.

(** ** Shifts *)

Definition is_shift (t : IRInstructionType) : Prop := t = SHL \/ t = SHR \/ t = SAR \/ t = ROR.
Definition shift_number (t : IRInstructionType) : Z := match t with SHL => 4 | SHR => 5 | SAR => 7 | _ => 1 end.
Lemma shift_computed t w ws a b : is_shift t -> shift_result (shift_number t) w b a = Some (computed t w ws a b).
Proof. intros [-> | [-> | [-> | ->]]]; reflexivity. Qed.
Lemma shift_count_small sz n : valid_size sz = true -> 0 <= n < 8 * sz -> shift_count sz n = n.
Proof.
  intros H%valid_size_cases Hn. unfold shift_count. apply Z.mod_small. destruct (Z.eqb_spec sz 8); lia.
Qed.
Lemma shift_in_range t w ws a b : is_shift t -> 0 < w -> 0 <= a -> in_range w b -> wrap w (computed t w ws a b) = computed t w ws a b.
Proof.
  intros Ht Hw Ha Hb. pose proof (Z.pow_pos_nonneg 2 w ltac:(lia) ltac:(lia)).
  assert (Hs : forall n, 0 <= n -> in_range w (Z.shiftr b n)).
  { intros n Hn. unfold in_range in *. rewrite Z.shiftr_div_pow2 by exact Hn. pose proof (Z.pow_pos_nonneg 2 n ltac:(lia) Hn).
    split; [apply Z.div_pos; lia |]. apply Z.div_lt_upper_bound; [lia |]. nia. }
  destruct Ht as [-> | [-> | [-> | ->]]]; cbn [computed]; try (apply wrap_wrap; lia).
  - now apply wrap_small, Hs.
  - unfold rotate_right. cbv zeta. apply wrap_bitwise; [lia | apply Hs; apply Z.mod_pos_bound; lia | apply wrap_range; lia].
Qed.
Lemma shift_by_immediate_methods t : is_shift t -> exists f g, shift_by_immediate t = Ok (f, g) /\ In (f, shift_number t) shift_ir_methods /\ In (g, shift_number t) shift_im_methods.
Proof. intros [-> | [-> | [-> | ->]]]; eexists _, _; (split; [reflexivity |]); split; in_list. Qed.
Lemma ShiftInsn_method t k w : is_shift t -> reg_number k -> valid_size w = true ->
  exists c, ShiftInsn t (T k w) = Ok c /\ asks c (IShift (shift_number t) w (opnd_of (InReg k) w) OCL).
Proof. intros [-> | [-> | [-> | ->]]] Hk Hw; eexists; (split; [reflexivity |]); apply ask_shift_rr; try assumption; in_list. Qed.

Definition constant_shift_ok (a d : IROperand) : bool := constant_ok a && placed d && (value a <? 8 * osize d).
Lemma LowerShift_constant b t a d : is_shift t -> constant_shift_ok a d = true -> computes (mkInsn [a; d] b t) (LowerShift (mkInsn [a; d] b t)).
Proof.
  unfold constant_shift_ok. rewrite !andb_true_iff, Z.ltb_lt. intros Ht ((Ha & Hd) & Hv). open_constant a Ha.
  destruct (shift_by_immediate_methods t Ht) as (f & g & Em & Hf & Hg').
  assert (Vd : valid_size (osize d) = true) by now apply placed_vreg. pose proof (valid_size_cases _ Vd). pose proof (valid_size_cases _ Vs).
  assert (E8 : u8 (value a) = value a) by (apply wrap_small; unfold in_range; lia).
  assert (Hdest : destination (mkInsn [a; d] b t) = d) by (destruct Ht as [-> | [-> | [-> | ->]]]; reflexivity).
  assert (Hval : forall s, good s -> ir_value (mkInsn [a; d] b t) s = computed t (8 * osize d) (8 * osize a) (value a) (held s (place_of d) (osize d))).
  { intros s Hgs. replace (ir_value (mkInsn [a; d] b t) s) with (computed t (8 * osize d) (8 * osize a) (input s a) (input s d)) by (destruct Ht as [-> | [-> | [-> | ->]]]; reflexivity).
    rewrite (input_placed s d Hd), Own, wrap_small; [reflexivity |]. unfold in_range. assert (64 < 2 ^ 8) by lia. pose proof (Z.pow_le_mono_r 2 8 (8 * osize a)). lia. }
  assert (Hx : forall s, good s -> wrap (8 * 1) (value a) = value a) by (intros; apply wrap_small; unfold in_range; change (8 * 1) with 8; lia).
  assert (Hrun : forall s, good s -> runs [IShift (shift_number t) (osize d) (opnd_of (place_of d) (osize d)) (OImm (value a))] s (simply (mkInsn [a; d] b t) s)).
  { intros s Hgs. pose proof (reach_start s Hgs) as Hr. eapply runs_shift; [assumption .. | cbn [read_opnd]; rewrite (Hx s Hgs); reflexivity | |].
    - rewrite shift_count_small by (try assumption; lia). apply (shift_computed t _ (8 * osize a)). exact Ht.
    - intros s1 A. apply runs_nil. eexists. split; [apply (reach_after _ _ _ _ _ _ _ Hr A); pose proof (placed_own d Hd) as O; intros E; rewrite E in O; unfold own, own_register in O; lia |].
      rewrite Hdest. split; [intros x [<- | []]; now left |]. rewrite (after_held _ _ _ _ _ A), Hval by exact Hgs. apply shift_in_range; try assumption; try lia. now apply held_range. }
  open_operand d Hd; unfold LowerShift; lowering_eqs; rewrite Em; lowering_eqs; rewrite E8.
  - eapply computes_simply; [now rewrite Hdest | constructor; [| constructor] | intros s Hgs _; now apply Hrun]. rewrite Pl. apply ask_shift_ir; try assumption. lia.
  - eapply computes_simply; [now rewrite Hdest | constructor; [| constructor] | intros s Hgs _; now apply Hrun]. rewrite Pl. apply ask_shift_im; try assumption. lia.
Qed.

(** The amount in register [ka], the value in [kb]. *)
Definition shift_clobbers (ka kb w : Z) : list place := InReg kb :: InReg 2 :: (if (kb =? 1) && (w =? 4) then [InReg ka] else []).
Definition shifts (t : IRInstructionType) (ka kb w : Z) (c : result (list code)) : Prop :=
  exists cs is1, c = Ok cs /\ Forall2 asks cs is1
    /\ forall s r Q, good s -> held s (InReg ka) w < 8 * w ->
         (forall ps s1, reach ps s s1 -> incl ps (shift_clobbers ka kb w) ->
            held s1 (InReg kb) w = computed t (8 * w) (8 * w) (held s (InReg ka) w) (held s (InReg kb) w) ->
            (ka <> kb -> held s1 (InReg ka) w = held s (InReg ka) w) -> runs r s1 Q) -> runs (is1 ++ r) s Q.
Lemma is_rcx_T k w : reg_number k -> valid_size w = true -> is_rcx (T k w) = (k =? 1).
Proof.
  intros Hk Hw. unfold is_rcx, reg_eqb, T, reg_number in *. cbn [X86Encoder.size raw_index hireg newreg]. rewrite Z.eqb_refl, andb_true_l.
  destruct (Z.eqb_spec k 1) as [-> | N]; [now destruct (w =? 1) |].
  destruct (Z.leb_spec 8 k); cbn [eqb]; rewrite ?andb_false_r; [reflexivity |]. rewrite Z.mod_small by lia.
  replace (1 =? k) with false by (symmetry; apply Z.eqb_neq; lia). reflexivity.
Qed.
Lemma amount_read s w v : valid_size w = true -> good s -> held s (InReg 1) w = v -> v < 8 * w -> read_opnd 1 OCL s = Some v /\ 0 <= v.
Proof.
  intros Hw Hg <- Hv. pose proof (valid_size_cases _ Hw) as C. pose proof (held_range s (InReg 1) w Hg Hw) as Hr. unfold in_range in Hr.
  split; [| lia]. cbn [read_opnd]. f_equal. transitivity (held s (InReg 1) 1); [reflexivity |]. rewrite (held_narrow s (InReg 1) 1 w) by (try assumption; try reflexivity; lia).
  apply wrap_small. unfold in_range. change (2 ^ (8 * 1)) with 256. lia.
Qed.
(** The shift itself, with the amount in cl. *)
Lemma runs_shift_cl t s w k r Q : is_shift t -> good s -> valid_size w = true -> held s (InReg 1) w < 8 * w ->
  (forall s1, after (InReg k) w (computed t (8 * w) (8 * w) (held s (InReg 1) w) (held s (InReg k) w)) s s1 -> runs r s1 Q) ->
  runs (IShift (shift_number t) w (opnd_of (InReg k) w) OCL :: r) s Q.
Proof.
  intros Ht Hg Hw Hv Hr. destruct (amount_read s w _ Hw Hg eq_refl Hv) as [E H0]. eapply runs_shift; [assumption .. | exact E | | exact Hr].
  rewrite shift_count_small by (try assumption; lia). now apply shift_computed.
Qed.
Lemma shifted_range t w a b : is_shift t -> valid_size w = true -> 0 <= a -> in_range (8 * w) b -> wrap (8 * w) (computed t (8 * w) (8 * w) a b) = computed t (8 * w) (8 * w) a b.
Proof. intros Ht Hw%valid_size_cases Ha Hb. apply shift_in_range; try assumption. lia. Qed.
Lemma shift_elsewhere t ka kb w : is_shift t -> reg_number ka -> own_register kb \/ kb = 6 -> ka <> 1 -> kb <> 1 -> ka <> 2 -> ka <> 4 -> valid_size w = true ->
  shifts t ka kb w (shift_registers t (T ka w) (T kb w)).
Proof.
  intros Ht Hka Hkb Na Nb N2 N4 Hw. assert (Hkb2 : reg_number kb /\ kb <> 2 /\ kb <> 4) by (unfold own_register, reg_number in *; lia). destruct Hkb2 as (Hrb & Nb2 & Nb4).
  destruct (ShiftInsn_method t kb w Ht Hrb Hw) as (c & Ec & Hc). unfold shift_registers. rewrite !is_rcx_T by assumption.
  rewrite (proj2 (Z.eqb_neq ka 1) Na), (proj2 (Z.eqb_neq kb 1) Nb). cbn [negb andb]. change (BLKJIT_TEMPS_2 8) with (Ok (T 2 8)). cbn [rbind].
  change (X86Encoder.size (T ka w)) with w. rewrite REGS_T by exact Hw. cbn [rbind]. rewrite Ec. cbn [rbind]. change REG_RCX with (T 1 8).
  eexists _, _. split; [reflexivity |]. split.
  { asks_all. }
  intros s r Q Hg Hlt H. cbn [app]. pose proof (reach_start s Hg) as Hr. pose proof (held_range s (InReg ka) w Hg Hw) as Hra. pose proof (held_range s (InReg kb) w Hg Hw) as Hrb2. unfold in_range in Hra.
  step. step. assert (E1 : held s1 (InReg 1) w = held s (InReg ka) w) by (back; now unwrap).
  eapply runs_shift_cl; [exact Ht | good_now | exact Hw | rewrite E1; exact Hlt |]. next_state. step. rewrite E1 in A1.
  assert (Ek : held s1 (InReg kb) w = held s (InReg kb) w) by now back. rewrite Ek in A1.
  assert (E3 : held s3 (InReg 1) 8 = held s (InReg 1) 8) by (back; change (8 * 8) with 64; cbn [held]; now rewrite !wrap_wrap).
  apply (reach_restored _ s s3 1 Hg) in Hr; [| exact E3]. cbn [List.filter other_than] in Hr. rewrite (proj2 (Z.eqb_neq kb 1) Nb) in Hr. cbn in Hr.
  apply (H _ s3 Hr).
  - intros x [<- | [<- | []]]; cbn; tauto.
  - back. apply shifted_range; try assumption. lia.
  - intros Hne. now back.
Qed.
Lemma shift_direct t kb w : is_shift t -> own_register kb \/ kb = 6 -> kb <> 1 -> valid_size w = true -> shifts t 1 kb w (shift_registers t (T 1 w) (T kb w)).
Proof.
  intros Ht Hkb Nb Hw. assert (Hrb : reg_number kb /\ kb <> 4) by (unfold own_register, reg_number in *; lia). destruct Hrb as [Hrb Nb4].
  assert (H1 : reg_number 1) by (unfold reg_number; lia). destruct (ShiftInsn_method t kb w Ht Hrb Hw) as (c & Ec & Hc).
  unfold shift_registers. rewrite !is_rcx_T by assumption. rewrite (proj2 (Z.eqb_neq kb 1) Nb). cbn [negb andb Z.eqb Pos.eqb]. rewrite Ec. cbn [rbind].
  eexists _, _. split; [reflexivity |]. split; [asks_all |].
  intros s r Q Hg Hlt H. cbn [app]. pose proof (reach_start s Hg) as Hr. pose proof (held_range s (InReg 1) w Hg Hw) as Hra. pose proof (held_range s (InReg kb) w Hg Hw). unfold in_range in Hra.
  eapply runs_shift_cl; [exact Ht | exact Hg | exact Hw | exact Hlt |]. next_state. apply (H _ _ Hr).
  - intros x [<- | []]. now left.
  - back. apply shifted_range; try assumption. lia.
  - intros Hne. now back.
Qed.
Lemma shift_exchanged t ka w : is_shift t -> own_register ka \/ ka = 7 -> ka <> 1 -> w = 4 \/ w = 8 -> shifts t ka 1 w (shift_registers t (T ka w) (T 1 w)).
Proof.
  intros Ht Hka Na Hw48. assert (Hra : reg_number ka /\ ka <> 2 /\ ka <> 4) by (unfold own_register, reg_number in *; lia). destruct Hra as (Hra & N2 & N4).
  assert (Hw : valid_size w = true) by (destruct Hw48 as [-> | ->]; reflexivity).
  assert (H1 : reg_number 1) by (unfold reg_number; lia). destruct (ShiftInsn_method t ka w Ht Hra Hw) as (c & Ec & Hc).
  unfold shift_registers. rewrite !is_rcx_T by assumption. rewrite (proj2 (Z.eqb_neq ka 1) Na). cbn [negb andb Z.eqb Pos.eqb]. rewrite Ec. cbn [rbind].
  eexists _, _. split; [reflexivity |]. split.
  { asks_all. }
  intros s r Q Hg Hlt H. cbn [app]. pose proof (reach_start s Hg) as Hr. pose proof (held_range s (InReg ka) w Hg Hw) as Hrange. pose proof (held_range s (InReg 1) w Hg Hw). unfold in_range in Hrange.
  eapply runs_xchg; [exact Hg | exact Hw | exact Na |]. intros s1 s2 A1 A2.
  pose proof (reach_after _ _ _ _ _ _ _ (reach_after _ _ _ _ _ _ _ Hr A1 ltac:(place_ne)) A2 ltac:(place_ne)) as Hr2. clear Hr. rename Hr2 into Hr. cbn [app] in Hr.
  assert (E1 : held s2 (InReg 1) w = held s (InReg ka) w) by (back; now unwrap). assert (Ea : held s2 (InReg ka) w = held s (InReg 1) w) by (back; now unwrap).
  eapply runs_shift_cl; [exact Ht | good_now | exact Hw | rewrite E1; exact Hlt |]. next_state. rewrite E1, Ea in A.
  eapply runs_xchg; [good_now | exact Hw | exact Na |]. intros s4 s5 A4 A5.
  pose proof (reach_after _ _ _ _ _ _ _ (reach_after _ _ _ _ _ _ _ Hr A4 ltac:(place_ne)) A5 ltac:(place_ne)) as Hr2. clear Hr. rename Hr2 into Hr. cbn [app] in Hr.
  assert (E5 : held s5 (InReg ka) w = held s (InReg ka) w).
  { back. now unwrap. }
  assert (V5 : held s5 (InReg 1) w = computed t (8 * w) (8 * w) (held s (InReg ka) w) (held s (InReg 1) w)).
  { back. rewrite wrap_wrap by now apply width_nonneg. apply shifted_range; try assumption. lia. }
  destruct Hw48 as [-> | ->].
  - apply (H _ _ Hr); [| exact V5 | intros; exact E5]. intros x Hx. cbn in Hx |- *. tauto.
  - apply (reach_restored _ s s5 ka Hg) in Hr; [| exact E5]. cbn [List.filter other_than] in Hr. rewrite Z.eqb_refl in Hr.
    rewrite (proj2 (Z.eqb_neq 1 ka)) in Hr by congruence. cbn in Hr. apply (H _ _ Hr); [| exact V5 | intros; exact E5]. intros x Hx. cbn in Hx |- *. tauto.
Qed.

Definition shift_number_of (o : IROperand) (temp : Z) : Z := if is_alloc_reg o then register_of o else temp.
(** Not both operands in rcx, and none exchanged with it below four bytes. *)
Definition register_shift_ok (a d : IROperand) : bool :=
  placed a && placed d && (osize a =? osize d)
  && (negb (shift_number_of d 6 =? 1) || negb (shift_number_of a 7 =? 1) && (4 <=? osize d)).
Lemma shift_registers_correct t a d : is_shift t -> register_shift_ok a d = true ->
  shifts t (shift_number_of a 7) (shift_number_of d 6) (osize d) (shift_registers t (T (shift_number_of a 7) (osize d)) (T (shift_number_of d 6) (osize d))).
Proof.
  unfold register_shift_ok. rewrite !andb_true_iff, Z.eqb_eq. intros Ht (((Ha & Hd) & E) & Hx).
  assert (Hw : valid_size (osize d) = true) by now apply placed_vreg. pose proof (valid_size_cases _ Hw).
  assert (Ka : own_register (shift_number_of a 7) \/ shift_number_of a 7 = 7) by (unfold shift_number_of; open_operand a Ha; rewrite Ar; [left; now rewrite <- Kd | now right]).
  assert (Kb : own_register (shift_number_of d 6) \/ shift_number_of d 6 = 6) by (unfold shift_number_of; open_operand d Hd; rewrite Ar; [left; now rewrite <- Kd | now right]).
  destruct (Z.eq_dec (shift_number_of a 7) 1) as [E1 | N1].
  - rewrite E1 in *. cbn [negb Z.eqb Pos.eqb andb] in Hx. rewrite orb_false_r, negb_true_iff, Z.eqb_neq in Hx. now apply shift_direct.
  - destruct (Z.eq_dec (shift_number_of d 6) 1) as [E2 | N2].
    + rewrite E2 in *. rewrite Z.eqb_refl in Hx. cbn [negb orb] in Hx. apply andb_true_iff in Hx as [_ Hx]. apply shift_exchanged; try assumption. lia.
    + apply shift_elsewhere; try assumption; unfold own_register, reg_number in *; lia.
Qed.
Lemma shift_insn b t a d : is_shift t -> let i := mkInsn [a; d] b t in
  destination i = d /\ forall s, ir_value i s = computed t (8 * osize d) (8 * osize a) (input s a) (input s d) /\ (defined_at i s = (input s a < 8 * osize d)).
Proof. intros [-> | [-> | [-> | ->]]]; (split; [reflexivity |]); intros s; split; reflexivity. Qed.
(** From the places of the operands to the registers of the shift. *)
Lemma half_register insn o : In o (operands insn) -> is_alloc_reg o = true -> osize o = 4 -> In (InReg (register_of o)) (half_registers insn).
Proof.
  intros Ho Hr E. unfold half_registers. apply in_map_iff. exists o. split; [unfold place_of; now rewrite Hr |]. apply filter_In. rewrite Hr, E. now split.
Qed.
Lemma reach_trans ps qs s0 s s1 : reach ps s0 s -> reach qs s s1 -> reach (ps ++ qs) s0 s1.
Proof.
  intros [_ F1 N1] [G F2 N2]. split; [exact G | exact (frame_trans _ _ _ _ _ N1 F1 F2) |]. intros [H | H]%in_app_iff; contradiction.
Qed.
Lemma LowerShift_register b t a d : is_shift t -> register_shift_ok a d = true -> computes (mkInsn [a; d] b t) (LowerShift (mkInsn [a; d] b t)).
Proof.
  intros Ht Hok. destruct (shift_registers_correct t a d Ht Hok) as (cs & is1 & Ec & Hcs & Hrun).
  unfold register_shift_ok in Hok. rewrite !andb_true_iff, Z.eqb_eq in Hok. destruct Hok as (((Ha & Hd) & E) & _).
  destruct (shift_insn b t a d Ht) as [Hdest Hi]. unfold shift_number_of in *. unfold shift_clobbers in Hrun.
  open_operand a Ha; open_operand d Hd; rewrite ?Ar, ?Ar0, <- ?Kd, <- ?Kd0 in *; unfold LowerShift; lowering_eqs; rewrite ?E; lowering_eqs; rewrite Ec; lowering_eqs.
  - eexists _, is1. split; [reflexivity |]. split; [rewrite app_nil_r; exact Hcs |]. intros s Hg Hdef. destruct (Hi s) as [Hv Hdf]. rewrite Hdf, Own, Pl, E in Hdef. rewrite Own, Own0, Pl, Pl0, E in Hv.
    rewrite <- (app_nil_r is1). apply Hrun; [exact Hg | exact Hdef |]. intros ps s1 Hr Hps Hval Hkeep. apply runs_nil.
    apply (carried_with_halves _ s s1 ps); rewrite ?Hdest; try assumption; rewrite ?Pl0; [| now rewrite Hval |].
    + intros p Hp. specialize (Hps p Hp). cbn in Hps. destruct Hps as [<- | [<- | Hps]]; [now left | do 3 right; now left |].
      destruct ((k0 =? 1) && (osize d =? 4)) eqn:E4; [| contradiction]. destruct Hps as [<- | []]. apply andb_true_iff in E4 as [_ E4%Z.eqb_eq]. do 6 right. rewrite Kd. apply half_register; [now left | exact Ar | congruence].
    + intros o l Ho Hpo Eo _ Hl Hne. destruct Ho as [<- | [<- | []]]; [| congruence]. rewrite Pl in Eo. injection Eo as <-. rewrite E. apply Hkeep. congruence.

  - eexists _, _. split; [reflexivity |]. split; [apply List.Forall2_cons; [eapply ask_mov_mr; try assumption; unfold reg_number; lia |]; apply Forall2_app; [exact Hcs | asks_all] |].
    intros s Hg Hdef. destruct (Hi s) as [Hv Hdf]. rewrite Hdf, Own, Pl, E in Hdef. rewrite Own, Own0, Pl, Pl0, E in Hv.
    pose proof (reach_start s Hg) as Hr. cbn [app]. step. apply Hrun; [good_now | back; exact Hdef |]. intros ps s1 Hr1 Hps Hval Hkeep.
    pose proof (reach_trans _ _ _ _ _ Hr Hr1) as Hr2. clear Hr Hr1. rename Hr2 into Hr. step. apply runs_nil.
    assert (Hk6 : k <> 6) by (unfold own_register in Ow; lia).
    eapply (carried_with_halves _ s s2); rewrite ?Hdest, ?Pl0; [exact Hd | exact Hr | | | ].
    + intros p [<- | [Hp | [<- | []]]%in_app_iff]; [do 2 right; now left | | now left]. specialize (Hps p Hp). cbn in Hps.
      destruct Hps as [<- | [<- | []]]; [do 2 right; now left | do 3 right; now left].
    + back. rewrite Hval. back. rewrite Hv. unwrap. apply shifted_range; try assumption; [now apply (held_range s _ (osize d)) | now apply held_range].
    + intros o l Ho Hpo Eo _ Hl Hne. destruct Ho as [<- | [<- | []]]; [| congruence]. rewrite Pl in Eo. injection Eo as <-. rewrite E. back. rewrite Hkeep by exact Hk6. now back.
  - eexists _, _. split; [reflexivity |]. split; [apply List.Forall2_cons; [eapply ask_mov_mr; try assumption; unfold reg_number; lia |]; apply Forall2_app; [exact Hcs | asks_all] |].
    intros s Hg Hdef. destruct (Hi s) as [Hv Hdf]. rewrite Hdf, Own, Pl, E in Hdef. rewrite Own, Own0, Pl, Pl0, E in Hv.
    pose proof (reach_start s Hg) as Hr. cbn [app]. step. apply Hrun; [good_now | back; now unwrap |]. intros ps s1 Hr1 Hps Hval _.
    pose proof (reach_trans _ _ _ _ _ Hr Hr1) as Hr2. clear Hr Hr1. rename Hr2 into Hr. apply runs_nil.
    eapply (carried_simply _ s s1); rewrite ?Hdest, ?Pl0; [exact Hd | exact Hr | |].
    + intros p [<- | Hp]; [right; now left |]. specialize (Hps p Hp). cbn in Hps.
      destruct Hps as [<- | [<- | Hps]]; [now left | do 3 right; now left |]. destruct ((k =? 1) && (osize d =? 4)); [destruct Hps as [<- | []]; right; now left | contradiction].
    + rewrite Hval. back. rewrite Hv. now unwrap.
  - eexists _, _. split; [reflexivity |].
    split; [apply List.Forall2_cons; [eapply ask_mov_mr; try assumption; unfold reg_number; lia |];
            apply List.Forall2_cons; [eapply ask_mov_mr; try assumption; unfold reg_number; lia |]; apply Forall2_app; [exact Hcs | asks_all] |].
    intros s Hg Hdef. destruct (Hi s) as [Hv Hdf]. rewrite Hdf, Own, Pl, E in Hdef. rewrite Own, Own0, Pl, Pl0, E in Hv.
    pose proof (reach_start s Hg) as Hr. cbn [app]. step. step. apply Hrun; [good_now | back; now unwrap |]. intros ps s2 Hr1 Hps Hval _.
    pose proof (reach_trans _ _ _ _ _ Hr Hr1) as Hr2. clear Hr Hr1. rename Hr2 into Hr. step. apply runs_nil.
    eapply (carried_simply _ s s3); rewrite ?Hdest, ?Pl0; [exact Hd | exact Hr | |].
    + intros p [<- | [<- | [Hp | [<- | []]]%in_app_iff]]; [right; now left | do 2 right; now left | | now left]. specialize (Hps p Hp). cbn in Hps.
      destruct Hps as [<- | [<- | []]]; [do 2 right; now left | do 3 right; now left].
    + back. rewrite Hval. back. rewrite Hv. unwrap. apply shifted_range; try assumption; [now apply (held_range s _ (osize d)) | now apply held_range].
Qed.

(** ** Loads and fixed registers *)

Definition usable (o : IROperand) : Prop := placed o = true \/ constant_ok o = true.
Definition loads (o : IROperand) (k : Z) (c : result (list code)) : Prop :=
  exists c1 i, c = Ok [c1] /\ asks c1 i /\ forall s r Q, good s -> (forall s1, after (InReg k) (osize o) (input s o) s s1 -> runs r s1 Q) -> runs (i :: r) s Q.
Lemma encode_operand_loads o k w : usable o -> reg_number k -> osize o = w -> loads o k (encode_operand_to_reg o (T k w)).
Proof.
  intros [Ho | Ho] Hk <-; [open_operand o Ho | open_constant o Ho]; unfold encode_operand_to_reg; lowering_eqs.
  - rewrite Wd by exact Vs. lowering_eqs. eexists _, _. split; [reflexivity |]. split; [now apply ask_mov_rr |].
    intros s r Q Hg K. rewrite Own, Pl in K. eapply runs_mov; [exact Hg | exact Vs | apply read_place | exact K].
  - eexists _, _. split; [reflexivity |]. split; [now apply ask_mov_mr |].
    intros s r Q Hg K. rewrite Own, Pl in K. eapply runs_mov; [exact Hg | exact Vs | apply read_place | exact K].
  - destruct (Z.eqb_spec (value o) 0) as [E0 | E0]; eexists _, _; (split; [reflexivity |]).
    + split; [apply ask_alu_rr; try assumption; in_list |]. intros s r Q Hg K. eapply runs_alu; [exact Hg | exact Vs | reflexivity | apply read_place |].
      intros s1 A. apply K. rewrite alu_xor, Z.lxor_nilpotent in A. rewrite Own, E0. exact A.
    + split; [now apply ask_mov_ir |]. intros s r Q Hg K. eapply runs_mov_imm; [exact Hg | exact Vs |]. intros s1 A. apply K. rewrite Own.
      destruct A as [A1 A2 A3 A4]. pose proof (valid_size_cases _ Vs) as C. split; [exact A1 | rewrite wrap_wrap by lia; exact A2 | exact A3 |].
      intros E4. destruct (A4 E4) as [E | E]; [left | now right]. rewrite E, E4. change (8 * 4) with 32. now rewrite wrap_wrap.
Qed.
Lemma runs_product s w src b op l h r Q : good s -> valid_size w = true -> w <> 1 -> read_opnd w src s = Some b ->
  (let lo := held s (InReg 0) w in let hi := held s (InReg 2) w in
   op = 4 /\ l = wrap (8 * w) (lo * b) /\ h = lo * b / 2 ^ (8 * w)
   \/ op = 6 /\ b <> 0 /\ (hi * 2 ^ (8 * w) + lo) / b < 2 ^ (8 * w) /\ l = (hi * 2 ^ (8 * w) + lo) / b /\ h = (hi * 2 ^ (8 * w) + lo) mod b
   \/ op = 7 /\ sext (8 * w) b <> 0 /\ out_of_range (8 * w) (Z.quot (sext (2 * (8 * w)) (hi * 2 ^ (8 * w) + lo)) (sext (8 * w) b)) = false
      /\ l = Z.quot (sext (2 * (8 * w)) (hi * 2 ^ (8 * w) + lo)) (sext (8 * w) b) /\ h = Z.rem (sext (2 * (8 * w)) (hi * 2 ^ (8 * w) + lo)) (sext (8 * w) b)) ->
  (forall s1 s2, after (InReg 0) w l s s1 -> after (InReg 2) w h s1 s2 -> runs r s2 Q) -> runs (IGroup3 op w src :: r) s Q.
Proof.
  intros Hg Hs Hn E H Hr. cbv zeta in H. pose proof (write_reg_place 0 w l s Hs Hg) as A1. set (s1 := with_state _ _ s) in A1.
  pose proof (write_reg_place 2 w h s1 Hs (after_good _ _ _ _ _ A1)) as A2.
  pose proof (after_ext _ _ _ _ _ (with_flags None (with_state (write_reg (write_reg (regs s) (R RAX w) l) (R RDX w) h) (mem s) s))
    (eq_refl : _ = regs (with_state (write_reg (regs s1) (R 2 w) h) (mem s1) s1)) (eq_refl : _ = mem (with_state (write_reg (regs s1) (R 2 w) h) (mem s1) s1)) A2) as A3.
  eapply runs_step; [| exact (Hr _ _ A1 A3)]. cbn [exec]. unfold exec_group3. rewrite E, (proj2 (Z.eqb_neq w 1) Hn).
  change (reg_value (regs s) (R RAX w)) with (held s (InReg 0) w). change (reg_value (regs s) (R RDX w)) with (held s (InReg 2) w). cbv zeta.
  destruct H as [(-> & -> & ->) | [(-> & H0 & H1 & -> & ->) | (-> & H0 & H1 & -> & ->)]].
  - reflexivity.
  - change (6 =? 4) with false. change (6 =? 6) with true. cbv iota. rewrite (proj2 (Z.eqb_neq b 0) H0), (proj2 (Z.leb_gt _ _) H1). reflexivity.
  - change (7 =? 4) with false. change (7 =? 6) with false. change (7 =? 7) with true. cbv iota. rewrite (proj2 (Z.eqb_neq _ 0) H0), H1. reflexivity.
Qed.

(** ** IMUL *)

Definition imul_ok (a d : IROperand) : bool := placed d && (osize a =? osize d) && negb (osize d =? 1) && (placed a || constant_ok a).
Lemma LowerIMul_correct b a d : imul_ok a d = true -> computes (mkInsn [a; d] b IMUL) (LowerIMul (mkInsn [a; d] b IMUL)).
Proof.
  unfold imul_ok. rewrite !andb_true_iff, negb_true_iff, Z.eqb_eq, Z.eqb_neq, orb_true_iff. intros (((Hd & E) & N1) & [Ha | Ha]);
    [open_operand a Ha | open_constant a Ha]; open_operand d Hd; unfold LowerIMul; lowering_eqs; rewrite E in *; lowering_eqs; computes_by Hd.
Qed.

(** ** MUL *)

Lemma T_eqb k l w : reg_number k -> reg_number l -> reg_eqb (T k w) (T l w) = (k =? l).
Proof.
  intros Hk Hl. apply eq_true_iff_eq. rewrite Z.eqb_eq. split; [| intros ->; unfold reg_eqb; now rewrite !Z.eqb_refl, !eqb_reflx].
  intros H%reg_eqb_eq. unfold T in H. injection H as H1 H2 _. unfold reg_number in *.
  destruct (Z.leb_spec 8 k), (Z.leb_spec 8 l); try discriminate.
  - rewrite (Z.mod_eq k 8), (Z.mod_eq l 8) in H1 by lia. assert (k / 8 = 1) by (symmetry; apply (Z.div_unique _ _ _ (k - 8)); lia). assert (l / 8 = 1) by (symmetry; apply (Z.div_unique _ _ _ (l - 8)); lia). lia.
  - rewrite !Z.mod_small in H1 by lia. exact H1.
Qed.
Definition in_rax (o : IROperand) : bool := is_alloc_reg o && (register_of o =? 0).
Lemma is_reg_rax_eq o : placed o = true \/ constant_ok o = true /\ is_alloc_reg o = false -> is_reg_rax o = Ok (in_rax o).
Proof.
  intros [Ho | [_ Ho]]; unfold is_reg_rax, in_rax; [| now rewrite Ho].
  open_operand o Ho; lowering_eqs; [| reflexivity]. rewrite REGS_T by exact Vs. lowering_eqs. rewrite T_eqb by (try assumption; unfold reg_number; lia). now rewrite Kd.
Qed.
Definition mul_ok (a d : IROperand) : bool :=
  placed d && (osize a =? osize d) && negb (osize d =? 1) && (placed a || constant_ok a && negb (is_alloc_reg a)).
Lemma mul_operand_loads o w : usable o -> (constant_ok o = true -> is_alloc_reg o = false) -> osize o = w ->
  exists k cs is1, mul_operand o = Ok (T k w, cs) /\ Forall2 asks cs is1 /\ reg_number k /\ (k = 6 \/ placed o = true /\ is_alloc_reg o = true /\ k = register_of o)
    /\ forall s r Q, good s -> (forall ps s1, reach ps s s1 -> incl ps [InReg 6] -> held s1 (InReg k) w = input s o -> runs r s1 Q) -> runs (is1 ++ r) s Q.
Proof.
  intros Ho Hc <-. assert (V : valid_size (osize o) = true) by (destruct Ho; [apply placed_vreg | apply constant_parts]; assumption).
  assert (Hload : is_alloc_reg o = false -> exists cs is1, mul_operand o = Ok (T 6 (osize o), cs) /\ Forall2 asks cs is1
    /\ forall s r Q, good s -> (forall ps s1, reach ps s s1 -> incl ps [InReg 6] -> held s1 (InReg 6) (osize o) = input s o -> runs r s1 Q) -> runs (is1 ++ r) s Q).
  { intros Ea. destruct (encode_operand_loads o 6 (osize o) Ho ltac:(unfold reg_number; lia) eq_refl) as (c & i & Ec & Hi & Hrun).
    exists [c], [i]. unfold mul_operand. rewrite Ea, (proj1 (proj2 (temps_T _ V))). cbn [rbind]. rewrite Ec. split; [reflexivity |]. split; [asks_all |].
    intros s r Q Hg K. cbn [app]. apply Hrun; [exact Hg |]. intros s1 A. apply (K [InReg 6] s1).
    - exact (reach_after _ _ _ _ _ _ _ (reach_start s Hg) A ltac:(discriminate)).
    - intros x Hx. exact Hx.
    - rewrite (after_held _ _ _ _ _ A). apply wrap_small. now apply input_range. }
  destruct (is_alloc_reg o) eqn:Ea.
  - destruct Ho as [Ho | Ho]; [| specialize (Hc Ho); congruence]. open_operand o Ho; [| congruence].
    exists k, [], []. unfold mul_operand. lowering_eqs. split; [reflexivity |]. split; [constructor |]. split; [assumption |]. split; [right; repeat split; congruence |].
    intros s r Q Hg K. apply (K [] s (reach_start s Hg)); [intros x [] | now rewrite Own, Pl].
  - destruct (Hload eq_refl) as (cs & is1 & E1 & E2 & E3). exists 6, cs, is1. split; [exact E1 |]. split; [exact E2 |]. split; [unfold reg_number; lia |]. split; [now left | exact E3].
Qed.
(** The product of rax and the register [k], to the destination; then rax is
    brought back. *)
Lemma mul_tail b a d k s s2 ps : placed d = true -> in_rax d = false -> osize a = osize d -> osize d <> 1 -> good s ->
  reach ps s s2 -> incl ps [InReg 7; InReg 6; InReg 0] -> held s2 (InReg 0) (osize d) = input s a -> held s2 (InReg k) (osize d) = input s d ->
  held s2 (InReg 7) 8 = held s (InReg 0) 8 ->
  runs [IGroup3 4 (osize d) (opnd_of (InReg k) (osize d)); IMov (osize d) (opnd_of (place_of d) (osize d)) (opnd_of (InReg 0) (osize d));
        IMov 8 (opnd_of (InReg 0) 8) (opnd_of (InReg 7) 8)] s2 (simply (mkInsn [a; d] b MUL) s).
Proof.
  intros Hd Hx E N1 Hg Hr Hps V0 Vk V7. assert (Vs : valid_size (osize d) = true) by now apply placed_vreg.
  pose proof (placed_own d Hd) as Hown. assert (Hpd : place_of d <> InReg 0 /\ place_of d <> InReg 4 /\ apart (place_of d) (InReg 0) = true /\ apart (place_of d) (InReg 7) = true).
  { open_operand d Hd; rewrite Pl; [| repeat split; (discriminate || reflexivity)]. unfold in_rax in Hx. rewrite Ar, <- Kd in Hx. cbn [andb] in Hx. apply Z.eqb_neq in Hx.
    unfold own_register in Ow. repeat split; try (intros [= ?]; lia); unfold apart; lia. }
  destruct Hpd as (P0 & P4 & PA0 & PA7).
  eapply runs_product; [apply Hr | exact Vs | exact N1 | apply read_place | cbv zeta; left; repeat split; reflexivity |]. intros s3 s4 A3 A4.
  pose proof (reach_after _ _ _ _ _ _ _ (reach_after _ _ _ _ _ _ _ Hr A3 ltac:(discriminate)) A4 ltac:(discriminate)) as Hr4.
  eapply runs_mov; [apply Hr4 | exact Vs | apply read_place |]. intros s5 A5. pose proof (reach_after _ _ _ _ _ _ _ Hr4 A5 P4) as Hr5.
  eapply (runs_mov s5 (reach_good _ _ _ Hr5) 8 eq_refl (InReg 0)); [apply read_place |]. intros s6 A6. pose proof (reach_after _ _ _ _ _ _ _ Hr5 A6 ltac:(discriminate)) as Hr6.
  assert (V6 : held s6 (InReg 0) 8 = held s (InReg 0) 8).
  { rewrite (after_held _ _ _ _ _ A6). rewrite (after_apart _ _ _ _ _ (InReg 7) 8 A5) by (assumption || reflexivity). back. rewrite V7. cbn [held]. now rewrite wrap_wrap by lia. }
  apply (reach_restored _ s s6 0 Hg) in Hr6; [| exact V6]. apply runs_nil. eexists. split; [exact Hr6 |]. change (destination (mkInsn [a; d] b MUL)) with d. split.
  - intros x [Hin Hne]%filter_In. rewrite !in_app_iff in Hin. cbn [In] in Hin.
    assert (Hx0 : x <> InReg 0) by (intros ->; discriminate). destruct Hin as [[[[Hin | Hin] | Hin] | Hin] | Hin].
    + specialize (Hps x Hin). cbn in Hps |- *. intuition congruence.
    + cbn. intuition congruence.
    + cbn. intuition congruence.
    + cbn. intuition congruence.
    + intuition congruence.
  - rewrite (after_apart _ _ _ _ _ (place_of d) (osize d) A6); [| discriminate | destruct (place_of d); [unfold apart in *; lia | reflexivity] | exact Vs].
    rewrite (after_held _ _ _ _ _ A5). back. rewrite V0, Vk. change (ir_value (mkInsn [a; d] b MUL) s) with (wrap (8 * osize d) (input s d * input s a)).
    rewrite (Z.mul_comm (input s d)). now rewrite !wrap_wrap by now apply width_nonneg.
Qed.
Lemma mul_by w k : reg_number k -> valid_size w = true -> w <> 1 ->
  asks (if 1 <? w then X86Encoder.mul (T k w) else mul1 (T k w)) (IGroup3 4 w (opnd_of (InReg k) w)).
Proof.
  intros Hk Hw N1. pose proof (valid_size_cases _ Hw). replace (1 <? w) with true by (symmetry; apply Z.ltb_lt; lia). apply ask_group3; try assumption. in_list.
Qed.
Lemma LowerUMul_correct b a d : mul_ok a d = true -> computes (mkInsn [a; d] b MUL) (LowerUMul (mkInsn [a; d] b MUL)).
Proof.
  unfold mul_ok. rewrite !andb_true_iff, negb_true_iff, Z.eqb_eq, Z.eqb_neq, orb_true_iff, andb_true_iff, negb_true_iff. intros (((Hd & E) & N1) & Ha).
  assert (Ua : usable a) by (destruct Ha as [Ha | [Ha _]]; [now left | now right]).
  assert (Ca : constant_ok a = true -> is_alloc_reg a = false).
  { intros Hc. destruct Ha as [Ha | [_ Ha]]; [| exact Ha]. destruct (placed_vreg a Ha) as (_ & N & _). destruct (constant_parts a Hc) as (Y & _). congruence. }
  assert (Vs : valid_size (osize d) = true) by now apply placed_vreg.
  assert (Cd : constant_ok d = true -> is_alloc_reg d = false).
  { intros Hc. destruct (placed_vreg d Hd) as (_ & N & _). destruct (constant_parts d Hc) as (Y & _). congruence. }
  destruct (mul_operand_loads d (osize d) (or_introl Hd) Cd eq_refl) as (kd & csd & isd & Ed & Hcd & Hkd & Hkd' & Hrd).
  destruct (mul_operand_loads a (osize d) Ua Ca E) as (ka & csa & isa & Ea & Hca & Hka & Hka' & Hra).
  destruct (encode_operand_loads a 0 (osize d) Ua ltac:(unfold reg_number; lia) E) as (c0 & i0 & E0 & Hi0 & Hr0).
  unfold LowerUMul. lowering_eqs. rewrite (is_reg_rax_eq a) by tauto. rewrite (is_reg_rax_eq d) by now left. lowering_eqs. rewrite E. rewrite REGS_T by exact Vs.
  change (mkReg 8 7 false false) with (T 7 8). change REG_RAX with (T 0 8).
  destruct (in_rax d) eqn:Rd; cbn [negb andb]; rewrite ?andb_false_r, ?andb_true_r.
  - unfold in_rax in Rd. rewrite Ea. lowering_eqs. open_operand d Hd; rewrite Ar in Rd; [| discriminate]. rewrite andb_true_l, <- Kd in Rd. apply Z.eqb_eq in Rd. subst k.
    eapply computes_simply; [exact Hd | apply Forall2_app; [exact Hca |]; constructor; [now apply mul_by | constructor] |].
    intros s Hg _. apply Hra; [exact Hg |]. intros ps s1 Hr Hps Va. eapply runs_product; [apply Hr | exact Vs | exact N1 | apply read_place | cbv zeta; left; repeat split; reflexivity |].
    intros s2 s3 A2 A3. pose proof (reach_after _ _ _ _ _ _ _ (reach_after _ _ _ _ _ _ _ Hr A2 ltac:(discriminate)) A3 ltac:(discriminate)) as Hr3.
    apply runs_nil. eexists. split; [exact Hr3 |]. red_insn. split.
    + intros x Hin. rewrite !in_app_iff in Hin. cbn [In] in Hin. destruct Hin as [[Hin | Hin] | Hin]; [specialize (Hps x Hin); cbn in Hps |- *; intuition congruence | cbn; intuition congruence ..].
    + back. rewrite Va. rewrite (reach_held _ _ _ (InReg 0) (osize d) Hr); [| | exact Vs].
      * rewrite wrap_wrap by now apply width_nonneg. reflexivity.
      * apply forallb_forall. intros x Hin. specialize (Hps x Hin). destruct Hps as [<- | []]. reflexivity.
  - assert (Hput : exists c, (if is_alloc_reg d then let* d0 := register_from_operand d in Ok [mov_rr (T 0 (osize d)) d0]
        else if is_alloc_stack d then let* mm := stack_from_operand d in Ok [mov_rm (T 0 (osize d)) mm] else Ok []) = Ok [c]
      /\ asks c (IMov (osize d) (opnd_of (place_of d) (osize d)) (opnd_of (InReg 0) (osize d)))).
    { open_operand d Hd; lowering_eqs; rewrite Pl; eexists; (split; [reflexivity |]); [apply ask_mov_rr | apply ask_mov_rm]; try assumption; unfold reg_number; lia. }
    destruct Hput as (cput & Ep & Hp). cbn [rbind]. rewrite Ep. cbn [rbind app].
    assert (Hpd : apart (InReg 0) (place_of d) = true /\ apart (InReg 7) (place_of d) = true).
    { open_operand d Hd; rewrite Pl; [| split; reflexivity]. unfold in_rax in Rd. rewrite Ar, andb_true_l, <- Kd in Rd. apply Z.eqb_neq in Rd. unfold own_register in Ow. unfold apart. lia. }
    destruct Hpd as [Hp0 Hp7].
    assert (Hin : forall s s1, held s1 (place_of d) (osize d) = held s (place_of d) (osize d) -> input s1 d = input s d) by (intros; now rewrite !(input_placed _ d Hd)).
    assert (Hsave : asks (mov_rr (T 0 8) (T 7 8)) (IMov 8 (opnd_of (InReg 7) 8) (opnd_of (InReg 0) 8))) by (apply ask_mov_rr; (reflexivity || (unfold reg_number; lia))).
    assert (Hrest : asks (mov_rr (T 7 8) (T 0 8)) (IMov 8 (opnd_of (InReg 0) 8) (opnd_of (InReg 7) 8))) by (apply ask_mov_rr; (reflexivity || (unfold reg_number; lia))).
    assert (Hmid : forall s s1 ps, good s -> reach ps s s1 -> incl ps [InReg 7; InReg 0] -> held s1 (InReg 0) (osize d) = input s a -> held s1 (InReg 7) 8 = held s (InReg 0) 8 ->
      runs (isd ++ [IGroup3 4 (osize d) (opnd_of (InReg kd) (osize d)); IMov (osize d) (opnd_of (place_of d) (osize d)) (opnd_of (InReg 0) (osize d));
                    IMov 8 (opnd_of (InReg 0) 8) (opnd_of (InReg 7) 8)]) s1 (simply (mkInsn [a; d] b MUL) s)).
    { intros s s1 ps Hg Hr Hps V0 V7. apply Hrd; [apply Hr |]. intros qs s2 Hr2 Hqs Vd.
      assert (Hq : forall k w, k <> 6 -> valid_size w = true -> held s2 (InReg k) w = held s1 (InReg k) w).
      { intros k w Hk Hw. apply (reach_held _ _ _ _ _ Hr2); [| exact Hw]. apply forallb_forall. intros x Hx. specialize (Hqs x Hx). destruct Hqs as [<- | []]. unfold apart. lia. }
      apply (mul_tail b a d kd s s2 (ps ++ qs)); try assumption.
      - exact (reach_trans _ _ _ _ _ Hr Hr2).
      - intros x [Hx | Hx]%in_app_iff; [specialize (Hps x Hx) | specialize (Hqs x Hx)]; cbn in *; intuition congruence.
      - rewrite Hq by (assumption || lia). exact V0.
      - rewrite Vd. apply Hin. apply (reach_held _ _ _ _ _ Hr); [| exact Vs]. apply forallb_forall. intros x Hx. specialize (Hps x Hx). destruct Hps as [<- | [<- | []]]; assumption.
      - rewrite Hq by (reflexivity || lia). exact V7. }
    destruct (in_rax a) eqn:Rx.
    + rewrite Ed. cbn [rbind fst snd]. eapply computes_simply; [exact Hd | apply List.Forall2_cons; [exact Hsave |]; apply Forall2_app; [exact Hcd |]; apply List.Forall2_cons; [now apply mul_by |]; asks_all |].
      intros s Hg _. pose proof (reach_start s Hg) as Hr. step. apply (Hmid s s0 [InReg 7] Hg Hr); [intros x Hx; cbn in *; tauto | |].
      * unfold in_rax in Rx. apply andb_true_iff in Rx as [Ra R0%Z.eqb_eq]. destruct Ha as [Ha | [_ Ha]]; [| congruence]. open_operand a Ha; [| congruence].
        rewrite Own, Pl, E. replace k with 0 by congruence. now back.
      * back. cbn [held]. now rewrite wrap_wrap.
    + rewrite E0, Ed. cbn [rbind fst snd app]. eapply computes_simply; [exact Hd | apply List.Forall2_cons; [exact Hsave |]; apply List.Forall2_cons; [exact Hi0 |]; apply Forall2_app; [exact Hcd |]; apply List.Forall2_cons; [now apply mul_by |]; asks_all |].
      intros s Hg _. pose proof (reach_start s Hg) as Hr. step. apply Hr0; [good_now |]. intros s1 A1. rewrite E in A1. pose proof (reach_after _ _ _ _ _ _ _ Hr A1 ltac:(discriminate)) as Hr1.
      assert (Hia : input s0 a = input s a).
      { destruct Ha as [Ha | [Ha _]]; [| destruct (constant_parts a Ha) as (_ & _ & _ & _ & _ & Hc); now rewrite !Hc]. rewrite !(input_placed _ a Ha). rewrite E.
        apply (after_apart _ _ _ _ _ _ _ A); [discriminate | apply scratch_apart; [now left | now apply placed_own] | exact Vs]. }
      apply (Hmid s s1 _ Hg Hr1); [intros x Hx; exact Hx | |].
      * rewrite (after_held _ _ _ _ _ A1), Hia. apply wrap_small. rewrite <- E. now apply input_range.
      * back. cbn [held]. now rewrite wrap_wrap.
Qed.

(** ** Byte swaps and leading zeros *)

Definition bswap_ok (a d : IROperand) : bool := placed a && placed d && (osize a =? osize d) && ((osize d =? 4) || (osize d =? 8)).
Lemma byte_swap_range sz v : valid_size sz = true -> in_range (8 * sz) (byte_swap (Z.to_nat sz) v).
Proof.
  intros Hs. unfold byte_swap. assert (H : forall l, Forall (fun b => 0 <= b < 256) l -> in_range (8 * Z.of_nat (length l)) (le_value l)).
  { intros l Hl. induction Hl as [|x l Hx Hl IH]; [unfold in_range; cbn; lia |]. unfold in_range in *. cbn [le_value length].
    replace (8 * Z.of_nat (S (length l))) with (8 + 8 * Z.of_nat (length l)) by lia. rewrite Z.pow_add_r by lia. change (2 ^ 8) with 256. lia. }
  assert (Hb : forall n x, Forall (fun b => 0 <= b < 256) (le_bytes n x)).
  { induction n as [|n IH]; intros x; cbn [le_bytes]; [constructor |]. constructor; [apply Z.mod_pos_bound; lia | apply IH]. }
  rewrite <- (width_nat sz Hs). specialize (H (rev (le_bytes (Z.to_nat sz) v))). rewrite length_rev, le_bytes_length in H. apply H. apply Forall_rev, Hb.
Qed.
Lemma LowerBSwap_correct b a d : bswap_ok a d = true -> computes (mkInsn [a; d] b BSWAP) (LowerBSwap (mkInsn [a; d] b BSWAP)).
Proof.
  unfold bswap_ok. rewrite !andb_true_iff, Z.eqb_eq. intros (((Ha & Hd) & E) & Hw). assert (W : osize d <> 2) by lia.
  assert (D8 : forall w, 8 * w / 8 = w) by (intros; rewrite Z.mul_comm; now apply Z.div_mul).
  open_operand a Ha; open_operand d Hd; unfold LowerBSwap; lowering_eqs; rewrite E in *; lowering_eqs; computes_by Hd; try lia.
  all: rewrite D8; unwrap; rewrite ?(wrap_small _ (byte_swap _ _)) by (now apply byte_swap_range); reflexivity.
Qed.
Definition clz_ok (a d : IROperand) : bool := placed a && placed d && (osize a =? 4) && (osize d =? 4).
Lemma lxor_31 x : 0 <= x < 32 -> Z.lxor x 31 = 31 - x.
Proof.
  intros H. assert (F : Forall (fun x => Z.lxor x 31 = 31 - x) (seqZ 0 32)) by (repeat constructor).
  rewrite Forall_forall in F. apply F. now apply elem_of_seqZ.
Qed.
Lemma log2_32 v : in_range 32 v -> v <> 0 -> 0 <= Z.log2 v < 32.
Proof. intros [H0 H1] Hn. split; [apply Z.log2_nonneg |]. apply Z.log2_lt_pow2; lia. Qed.
Lemma clz_value sz v : sz = 4 -> in_range (8 * sz) v -> v <> 0 -> wrap (8 * sz) (Z.lxor (wrap (8 * sz) (Z.log2 v)) 31) = 8 * sz - 1 - Z.log2 v.
Proof.
  intros -> Hv Hn. change (8 * 4) with 32 in *. pose proof (log2_32 v Hv Hn). rewrite (wrap_small 32 (Z.log2 v)) by (unfold in_range; lia).
  rewrite lxor_31 by lia. apply wrap_small. unfold in_range. lia.
Qed.
Ltac step_bit :=
  match goal with |- runs (IBsr _ _ _ :: _) ?s _ => eapply runs_bsr; [sized | sized | apply read_place | | next_state] end.
Lemma LowerClz_correct b a d : clz_ok a d = true -> computes (mkInsn [a; d] b CLZ) (LowerClz (mkInsn [a; d] b CLZ)).
Proof.
  unfold clz_ok. rewrite !andb_true_iff, !Z.eqb_eq. intros (((Ha & Hd) & E4) & D4). assert (N1 : osize a <> 1) by lia. assert (E : osize d = osize a) by lia.
  assert (I : forall s, read_opnd (osize a) (Imm (osize a) 31) s = Some 31) by (intros; rewrite E4; reflexivity).
  assert (WA : forall k, wrong_accumulator (T k (osize a)) = false) by (intros; unfold wrong_accumulator, T; rewrite E4; apply andb_false_r).
  assert (Hu : 0 <= u32 31 < 2 ^ 32) by apply u32_range.
  open_operand a Ha; open_operand d Hd; unfold LowerClz, encode_operand_to_reg; lowering_eqs; rewrite E in *; lowering_eqs.
  all: change (xorr_ir 31) with (xorr_ir (u32 31)).
  all: eapply computes_simply; [exact Hd | asks_all; intros _; apply WA |].
  all: intros s Hg Hdef; unfold defined_at in Hdef; cbn [type] in Hdef; change (op (mkInsn [a; d] b CLZ) 0) with a in Hdef; rewrite Own, Pl in Hdef.
  all: pose proof (reach_start s Hg) as Hr; repeat step; (step_bit; [back; unwrap; exact Hdef |]); (eapply runs_alu; [sized | sized | reflexivity | apply I | next_state]); repeat step; finish; rewrite E; back; rewrite alu_xor; back; unwrap.
  all: apply clz_value; [exact E4 | now apply held_range | exact Hdef].
Qed.

(** ** Quotients *)

Definition quotient_ok (a d : IROperand) : bool := placed d && is_alloc_reg d && (osize a =? 4) && (osize d =? 4) && (placed a || constant_ok a).
Definition udiv_ok (a d : IROperand) : bool := quotient_ok a d && (negb (in_rax a) || in_rax d).
Lemma quotient_range x y : 0 <= x < 2 ^ 32 -> 0 < y -> 0 <= x / y < 2 ^ 32.
Proof. intros Hx Hy. split; [apply Z.div_pos; lia |]. apply Z.div_lt_upper_bound; nia. Qed.
Lemma input_reached ps s s1 o : usable o -> reach ps s s1 -> (placed o = true -> forallb (fun p => apart p (place_of o)) ps = true) -> input s1 o = input s o.
Proof.
  intros [Ho | Ho] Hr Hp; [| destruct (constant_parts o Ho) as (_ & _ & _ & _ & _ & H); now rewrite !H].
  rewrite !(input_placed _ o Ho). apply (reach_held _ _ _ _ _ Hr); [now apply Hp | now apply placed_vreg].
Qed.
(** The divisor, loaded when rdx, rsi and rax were written, rax with the dividend. *)
Lemma divisor_loaded a d s s1 ps : usable a -> placed d = true -> osize a = osize d -> in_rax a = false \/ in_rax d = true -> good s ->
  reach ps s s1 -> incl ps [InReg 6; InReg 2; InReg 0] -> held s1 (InReg 0) (osize d) = input s d -> input s1 a = input s a.
Proof.
  intros Ua Hd E Hx Hg Hr Hps Vd. destruct (in_rax a) eqn:Ra.
  - destruct Hx as [Hx | Hx]; [discriminate |]. unfold in_rax in *. apply andb_true_iff in Ra as [Ra R0%Z.eqb_eq]. apply andb_true_iff in Hx as [Rd R1%Z.eqb_eq].
    destruct Ua as [Ha | Ha]; [| destruct (constant_parts a Ha) as (_ & _ & _ & _ & _ & H); now rewrite !H].
    rewrite !(input_placed _ a Ha), E. rewrite (input_placed _ d Hd) in Vd. unfold place_of in *. rewrite Ra, Rd, R0, R1 in *. exact Vd.
  - apply (input_reached ps); [exact Ua | exact Hr |]. intros Ha. apply forallb_forall. intros x Hx'. specialize (Hps x Hx').
    destruct Hps as [<- | [<- | [<- | []]]]; try (apply scratch_apart; [cbn; tauto | now apply placed_own]).
    unfold in_rax in Ra. open_operand a Ha; rewrite Pl; [| reflexivity]. rewrite Ar, andb_true_l, <- Kd in Ra. unfold apart. now rewrite Z.eqb_sym, Ra.
Qed.
Lemma LowerUDiv_correct b a d : udiv_ok a d = true -> computes (mkInsn [a; d] b UDIV) (LowerUDiv (mkInsn [a; d] b UDIV)).
Proof.
  unfold udiv_ok, quotient_ok. rewrite !andb_true_iff, !Z.eqb_eq, !orb_true_iff, negb_true_iff. intros (((((Hd & Rd) & E4) & D4) & Ua) & Hx).
  destruct (encode_operand_loads d 0 (osize d) (or_introl Hd) ltac:(unfold reg_number; lia) eq_refl) as (cd & id & Ecd & Hid & Hrd).
  destruct (encode_operand_loads a 7 (osize d) Ua ltac:(unfold reg_number; lia) ltac:(lia)) as (ca & ia & Eca & Hia & Hra).
  open_operand d Hd; [| congruence]. unfold LowerUDiv. lowering_eqs. change REG_EAX with (T 0 4). change REG_EDX with (T 2 4). change REG_RAX with (T 0 8).
  change (get_temp 0 4) with (Ok (T 7 4)). change (BLKJIT_TEMPS_1 8) with (Ok (T 6 8)). rewrite <- D4. rewrite Wd by exact Vs. rewrite Ecd. lowering_eqs.
  rewrite Eca. lowering_eqs. eapply computes_simply; [exact Hd | asks_all |].
  intros s Hg Hdef. pose proof (reach_start s Hg) as Hr. change (input s a <> 0) in Hdef.
  assert (Hrg : 0 <= input s a < 2 ^ 32 /\ 0 <= input s d < 2 ^ 32).
  { pose proof (input_range s a Hg Ua) as H1. pose proof (input_range s d Hg (or_introl Hd)) as H2. rewrite E4, D4 in *. unfold in_range in *. lia. }
  step. step. rewrite alu_xor, Z.lxor_nilpotent in A0. apply Hrd; [good_now |]. next_state.
  assert (Vd : held s2 (InReg 0) (osize d) = input s d).
  { rewrite (after_held _ _ _ _ _ A1), !Own, Pl. back. now unwrap. }
  apply Hra; [good_now |]. intros s3 A2. rewrite (divisor_loaded a d s s2 _ Ua Hd ltac:(lia) ltac:(tauto) Hg Hr ltac:(intros x Hx'; cbn in *; tauto) Vd) in A2.
  pose proof (reach_after _ _ _ _ _ _ _ Hr A2 ltac:(discriminate)) as Hr3. clear Hr. rename Hr3 into Hr. cbn [app] in Hr. replace (osize a) with (osize d) in A2 by lia.
  assert (V3 : held s3 (InReg 7) (osize d) = input s a) by (rewrite (after_held _ _ _ _ _ A2), D4; apply wrap_small; unfold in_range; change (8 * 4) with 32; lia).
  assert (V0 : held s3 (InReg 0) (osize d) = input s d) by (rewrite (after_apart _ _ _ _ _ (InReg 0) (osize d) A2) by (discriminate || reflexivity || assumption); exact Vd).
  assert (V2 : held s3 (InReg 2) (osize d) = 0) by (back; reflexivity).
  assert (Hq : 0 <= input s d / input s a < 2 ^ 32) by (apply quotient_range; lia).
  eapply runs_product; [good_now | exact Vs | lia | rewrite (read_place (InReg 7)), V3; reflexivity | cbv zeta; right; left; rewrite V2, V0, D4, Z.mul_0_l, Z.add_0_l; repeat split; [exact Hdef | apply Hq] |].
  intros s4 s5 A4 A5. pose proof (reach_after _ _ _ _ _ _ _ (reach_after _ _ _ _ _ _ _ Hr A4 ltac:(discriminate)) A5 ltac:(discriminate)) as Hr5. clear Hr. rename Hr5 into Hr. cbn [app] in Hr.
  step. step. step.
  assert (Hv : held s8 (InReg k) (osize d) = input s d / input s a) by (back; rewrite D4; change (8 * 4) with 32; rewrite !(wrap_small 32 (input s d / input s a)) by exact Hq; reflexivity).
  assert (Hr0 : k <> 0 -> held s8 (InReg 0) 8 = held s (InReg 0) 8) by (intros Hk; back; cbn [held]; now rewrite !wrap_wrap).
  apply runs_nil. red_insn. destruct (Z.eq_dec k 0) as [-> | Hk].
  - eexists. split; [exact Hr |]. red_insn. split; [intros x Hx'; cbn in *; intuition congruence | now rewrite Hv, !Own, Pl].
  - apply (reach_restored _ s s8 0 Hg) in Hr; [| now apply Hr0]. eexists. split; [exact Hr |]. red_insn. split; [| now rewrite Hv, !Own, Pl].
    intros x [Hx' Hn]%filter_In. assert (x <> InReg 0) by (intros ->; discriminate). cbn in *. intuition congruence.
Qed.

Lemma runs_sign s r Q : good s ->
  (forall s1, after (InReg 2) 4 (if 2 ^ 31 <=? held s (InReg 0) 4 then 2 ^ 32 - 1 else 0) s s1 -> runs r s1 Q) -> runs (IConvertD 4 :: r) s Q.
Proof. intros Hg H. eapply runs_step; [reflexivity |]. apply H. now apply write_reg_place. Qed.
Lemma sign_extended x : in_range 32 x -> sext (2 * 32) ((if 2 ^ 31 <=? x then 2 ^ 32 - 1 else 0) * 2 ^ 32 + x) = sext 32 x.
Proof.
  intros [H0 H1]. unfold sext. cbv zeta. change (2 * 32 - 1) with 63. change (2 * 32) with 64. change (32 - 1) with 31.
  destruct (Z.leb_spec (2 ^ 31) x); rewrite !wrap_small by (unfold in_range; lia).
  - destruct (Z.ltb_spec x (2 ^ 31)), (Z.ltb_spec ((2 ^ 32 - 1) * 2 ^ 32 + x) (2 ^ 63)); lia.
  - destruct (Z.ltb_spec x (2 ^ 31)), (Z.ltb_spec (0 * 2 ^ 32 + x) (2 ^ 63)); lia.
Qed.
Lemma sext_nonzero x : in_range 32 x -> x <> 0 -> sext 32 x <> 0.
Proof. intros [H0 H1] Hn. unfold sext. cbv zeta. rewrite wrap_small by (unfold in_range; lia). destruct (Z.ltb_spec x (2 ^ (32 - 1))); lia. Qed.
Definition loaded (o : IROperand) (k : Z) (i : insn) : Prop :=
  forall s r Q, good s -> (forall s1, after (InReg k) (osize o) (input s o) s s1 -> runs r s1 Q) -> runs (i :: r) s Q.
(** From the loads of divisor and dividend to the quotient in rdi. *)
Lemma signed_quotient b a d ia id s s1 ps r : usable a -> placed d = true -> osize a = 4 -> osize d = 4 -> loaded a 7 ia -> loaded d 0 id ->
  good s -> reach ps s s1 -> incl ps [InReg 6] -> defined_at (mkInsn [a; d] b SDIV) s ->
  (forall s2 ps2, reach ps2 s s2 -> incl ps2 (ps ++ [InReg 7; InReg 0; InReg 2]) -> held s2 (InReg 7) 4 = ir_value (mkInsn [a; d] b SDIV) s ->
     held s2 (InReg 6) 8 = held s1 (InReg 6) 8 -> runs r s2 (simply (mkInsn [a; d] b SDIV) s)) ->
  runs (ia :: id :: IConvertD 4 :: IGroup3 7 4 (opnd_of (InReg 7) 4) :: IMov 4 (opnd_of (InReg 7) 4) (opnd_of (InReg 0) 4) :: r) s1 (simply (mkInsn [a; d] b SDIV) s).
Proof.
  intros Ua Hd E4 D4 Hra Hrd Hg Hr Hps Hdef Hk. pose proof (placed_own d Hd) as Od.
  pose proof (input_range s a Hg Ua) as Ra. pose proof (input_range s d Hg (or_introl Hd)) as Rd. rewrite E4 in Ra. rewrite D4 in Rd. change (8 * 4) with 32 in *.
  unfold defined_at in Hdef. cbn [type] in Hdef. change (op (mkInsn [a; d] b SDIV) 0) with a in Hdef. change (op (mkInsn [a; d] b SDIV) 1) with d in Hdef. rewrite D4 in Hdef. change (8 * 4) with 32 in Hdef.
  destruct Hdef as [Hnz Hov].
  assert (Hap : forall qs o, incl qs [InReg 6; InReg 7] -> placed o = true -> forallb (fun p => apart p (place_of o)) qs = true).
  { intros qs o Hq Ho. apply forallb_forall. intros x Hx. specialize (Hq x Hx). apply scratch_apart; [cbn in *; intuition congruence | now apply placed_own]. }
  apply Hra; [apply Hr |]. intros s2 A2. pose proof (reach_after _ _ _ _ _ _ _ Hr A2 ltac:(discriminate)) as Hr2. rewrite E4 in A2.
  rewrite (input_reached ps s s1 a Ua Hr) in A2 by (intros; apply Hap; [intros x Hx; specialize (Hps x Hx); cbn in *; tauto | assumption]).
  apply Hrd; [apply Hr2 |]. intros s3 A3. pose proof (reach_after _ _ _ _ _ _ _ Hr2 A3 ltac:(discriminate)) as Hr3. rewrite D4 in A3.
  rewrite (input_reached _ s s2 d (or_introl Hd) Hr2) in A3.
  2: { intros _. apply Hap; [| exact Hd]. intros x [Hx | [<- | []]]%in_app_iff; [specialize (Hps x Hx); cbn in *; tauto | cbn; tauto]. }
  apply runs_sign; [apply Hr3 |]. intros s4 A4. pose proof (reach_after _ _ _ _ _ _ _ Hr3 A4 ltac:(discriminate)) as Hr4.
  assert (V0 : held s3 (InReg 0) 4 = input s d) by (rewrite (after_held _ _ _ _ _ A3); now apply wrap_small). rewrite V0 in A4.
  assert (V7 : held s4 (InReg 7) 4 = input s a) by (back; now apply wrap_small).
  assert (V04 : held s4 (InReg 0) 4 = input s d) by (back; now apply wrap_small).
  assert (V2 : held s4 (InReg 2) 4 = if 2 ^ 31 <=? input s d then 2 ^ 32 - 1 else 0).
  { rewrite (after_held _ _ _ _ _ A4). apply wrap_small. destruct (2 ^ 31 <=? input s d); unfold in_range; change (8 * 4) with 32; lia. }
  eapply runs_product; [apply Hr4 | reflexivity | lia | rewrite (read_place (InReg 7)), V7; reflexivity | cbv zeta; right; right; change (8 * 4) with 32; rewrite V2, V04, sign_extended by exact Rd; repeat split;
    [now apply sext_nonzero | exact Hov] |].
  intros s5 s6 A5 A6. pose proof (reach_after _ _ _ _ _ _ _ (reach_after _ _ _ _ _ _ _ Hr4 A5 ltac:(discriminate)) A6 ltac:(discriminate)) as Hr6.
  eapply (runs_mov s6 (reach_good _ _ _ Hr6) 4 eq_refl (InReg 7)); [apply read_place |]. intros s7 A7. pose proof (reach_after _ _ _ _ _ _ _ Hr6 A7 ltac:(discriminate)) as Hr7.
  apply (Hk s7 _ Hr7).
  - intros x Hx. repeat rewrite in_app_iff in Hx. rewrite in_app_iff. cbn in *. tauto.
  - back. change (ir_value (mkInsn [a; d] b SDIV) s) with (wrap (8 * osize d) (Z.quot (sext (8 * osize d) (input s d)) (sext (8 * osize d) (input s a)))). rewrite D4. change (8 * 4) with 32. now rewrite !wrap_wrap.
  - now back.
Qed.
Lemma quotient_wrapped b a d s : osize d = 4 -> wrap (8 * 4) (ir_value (mkInsn [a; d] b SDIV) s) = ir_value (mkInsn [a; d] b SDIV) s.
Proof. intros E. change (ir_value (mkInsn [a; d] b SDIV) s) with (wrap (8 * osize d) (Z.quot (sext (8 * osize d) (input s d)) (sext (8 * osize d) (input s a)))). rewrite E. now apply wrap_wrap. Qed.
Lemma LowerSDiv_correct b a d : quotient_ok a d = true -> computes (mkInsn [a; d] b SDIV) (LowerSDiv (mkInsn [a; d] b SDIV)).
Proof.
  unfold quotient_ok. rewrite !andb_true_iff, !Z.eqb_eq, !orb_true_iff. intros ((((Hd & Rd) & E4) & D4) & Ua).
  destruct (encode_operand_loads d 0 4 (or_introl Hd) ltac:(unfold reg_number; lia) D4) as (cd & id & Ecd & Hid & Hrd).
  destruct (encode_operand_loads a 7 4 Ua ltac:(unfold reg_number; lia) E4) as (ca & ia & Eca & Hia & Hra).
  open_operand d Hd; [| congruence]. unfold LowerSDiv. lowering_eqs. change REG_EAX with (T 0 4). change REG_RAX with (T 0 8).
  change (get_temp 0 4) with (Ok (T 7 4)). change (BLKJIT_TEMPS_1 8) with (Ok (T 6 8)). rewrite REGS_T by exact Vs. lowering_eqs. rewrite Eca, Ecd. lowering_eqs.
  rewrite T_eqb by (try assumption; unfold reg_number; lia). rewrite D4.
  assert (Hplain : asks cltd (IConvertD 4)) by (apply asks_plain; in_list).
  assert (La : loaded a 7 ia) by exact Hra. assert (Ld : loaded d 0 id) by exact Hrd.
  destruct (Z.eqb_spec k 0) as [-> | Nk]; cbn [negb app].
  - eapply computes_simply; [exact Hd | asks_all |]. intros s Hg Hdef.
    apply (signed_quotient b a d ia id s s []); try assumption; [now apply reach_start | intros x [] |]. intros s2 ps2 Hr Hps Hv _.
    step. apply runs_nil. eexists. split; [exact Hr |]. change (destination (mkInsn [a; d] b SDIV)) with d. rewrite Pl. split.
    + intros x [Hx | [<- | []]]%in_app_iff; [apply Hps in Hx; cbn in Hx |- *; intuition congruence | now left].
    + rewrite D4, (after_held _ _ _ _ _ A), Hv. apply (quotient_wrapped b a d s D4).
  - eapply computes_simply; [exact Hd | asks_all |]. intros s Hg Hdef. pose proof (reach_start s Hg) as Hr0. 
    eapply (runs_mov s Hg 8 eq_refl (InReg 6)); [apply (read_place (InReg 0)) |]. intros s1 A1. pose proof (reach_after _ _ _ _ _ _ _ Hr0 A1 ltac:(discriminate)) as Hr1.
    apply (signed_quotient b a d ia id s s1 [InReg 6]); try assumption; [intros x Hx; exact Hx |]. intros s2 ps2 Hr Hps Hv H6.
    step. step. apply (reach_restored _ s s3 0 Hg) in Hr.
    + apply runs_nil. eexists. split; [exact Hr |]. change (destination (mkInsn [a; d] b SDIV)) with d. rewrite Pl. split.
      * intros x [Hx Hn]%filter_In. assert (x <> InReg 0) by (intros ->; discriminate). repeat rewrite in_app_iff in Hx. destruct Hx as [[Hx | Hx] | Hx];
          [apply Hps in Hx; cbn in Hx |- *; intuition congruence | cbn in Hx |- *; intuition congruence ..].
      * rewrite D4. back. rewrite Hv. apply (quotient_wrapped b a d s D4).
    + back. rewrite H6. back. cbn [held]. now rewrite !wrap_wrap.
Qed.
