(* ===== verification/ProcessorHelpers.v ===== *)
(** * Flags of additions and subtractions (gensim_processor_api_generic.cpp)

    What the interpreter and the LLVM engine call for the flags of additions
    and subtractions with carry, on hosts other than x86-64: the flags as
    [SZ0A0P1C0000000V].  Those of additions are what arithmetic says; those of
    subtractions are not. *)

From Stdlib Require Import ZArith Lia Bool.
From stdpp Require Import base numbers.
From S2P Require Import Prelude X86Conditions.
#[local] Open Scope Z_scope.
#[local] Open Scope gensim_scope.

(** [V | C << 8 | Z << 14 | N << 15]. *)
Definition packed_flags (N Zf C V : bool) : Z :=
  u16 (Z.lor (Z.lor (Z.lor (Z.b2z V) (Z.shiftl (Z.b2z C) 8)) (Z.shiftl (Z.b2z Zf) 14)) (Z.shiftl (Z.b2z N) 15)).
(** As the interpreter takes them out. *)
Definition flag_C (flags : Z) : Z := Z.land (Z.shiftr flags 8) 1.
Definition flag_V (flags : Z) : Z := Z.land flags 1.
Definition flag_Z (flags : Z) : Z := Z.land (Z.shiftr flags 14) 1.
Definition flag_N (flags : Z) : Z := Z.land (Z.shiftr flags 15) 1.

Definition genc_adc_flags (lhs rhs carry_in : Z) : Z :=
  let result := u64 (lhs + rhs + carry_in) in
  let N := negb (Z.land result 0x80000000 =? 0) in
  let Zf := u32 result =? 0 in
  let C := 0xffffffff <? result in
  let V := (Z.land lhs 0x80000000 =? Z.land rhs 0x80000000) && negb (Z.land lhs 0x80000000 =? Z.land result 0x80000000) in
  packed_flags N Zf C V.
Definition genc_sbc8_flags (lhs rhs carry : Z) : Z :=
  let result := u64 (lhs - (rhs + carry)) in
  let N := negb (Z.land result 0x80 =? 0) in
  let Zf := u8 result =? 0 in
  let C := 0xff <? result in
  let V := (Z.land lhs 0x80 =? Z.land rhs 0x80) && negb (Z.land lhs 0x80 =? Z.land result 0x80) in
  packed_flags N Zf C V.
Definition genc_sbc16_flags (lhs rhs carry : Z) : Z :=
  let result := u64 (lhs - (rhs + carry)) in
  let N := negb (Z.land result 0x8000 =? 0) in
  let Zf := u16 result =? 0 in
  let C := 0xffff <? result in
  let V := (Z.land lhs 0x8000 =? Z.land rhs 0x8000) && negb (Z.land lhs 0x8000 =? Z.land result 0x8000) in
  packed_flags N Zf C V.
(** [rhs + carry] has 32 bits here. *)
Definition genc_sbc_flags (lhs rhs carry : Z) : Z :=
  let result := u64 (lhs - u32 (rhs + carry)) in
  let N := negb (Z.land result 0x80000000 =? 0) in
  let Zf := u32 result =? 0 in
  let C := 0xffffffff <? result in
  let V := (Z.land lhs 0x80000000 =? Z.land rhs 0x80000000) && negb (Z.land lhs 0x80000000 =? Z.land result 0x80000000) in
  packed_flags N Zf C V.

(** ** What they are *)

Lemma unpacked N Zf C V :
  flag_C (packed_flags N Zf C V) = Z.b2z C /\ flag_V (packed_flags N Zf C V) = Z.b2z V
  /\ flag_Z (packed_flags N Zf C V) = Z.b2z Zf /\ flag_N (packed_flags N Zf C V) = Z.b2z N.
Proof. destruct N, Zf, C, V; repeat split; reflexivity. Qed.
(** The top bit, of a number of [w] bits or more. *)
Lemma sign_bit w x : 0 < w -> Z.land x (2 ^ (w - 1)) = if 2 ^ (w - 1) <=? wrap w x then 2 ^ (w - 1) else 0.
Proof.
  intros Hw. assert (E : Z.testbit x (w - 1) = (2 ^ (w - 1) <=? wrap w x)).
  { assert (Hr : 0 <= wrap w x < 2 ^ w) by (apply wrap_range; lia). rewrite <- (Z.mod_pow2_bits_low x w (w - 1)) by lia. fold (wrap w x).
    rewrite Z.testbit_eqb by lia. assert (E2 : 2 ^ w = 2 * 2 ^ (w - 1)) by (rewrite <- Z.pow_succ_r by lia; f_equal; lia).
    assert (Hp : 0 < 2 ^ (w - 1)) by (apply Z.pow_pos_nonneg; lia). destruct (Z.leb_spec (2 ^ (w - 1)) (wrap w x)).
    - rewrite <- (Z.div_unique_pos (wrap w x) (2 ^ (w - 1)) 1 (wrap w x - 2 ^ (w - 1))) by lia. reflexivity.
    - rewrite Z.div_small by lia. reflexivity. }
  rewrite <- E. apply Z.bits_inj'. intros n Hn. rewrite Z.land_spec. destruct (Z.eq_dec n (w - 1)) as [-> | Hne].
  - rewrite Z.pow2_bits_true by lia. destruct (Z.testbit x (w - 1)); [now rewrite Z.pow2_bits_true by lia | now rewrite Z.bits_0].
  - rewrite Z.pow2_bits_false by lia. rewrite andb_false_r. destruct (Z.testbit x (w - 1)); [now rewrite Z.pow2_bits_false by lia | now rewrite Z.bits_0].
Qed.
Lemma sign_of w x : 0 < w -> (Z.land x (2 ^ (w - 1)) =? 0) = negb (2 ^ (w - 1) <=? wrap w x).
Proof. intros Hw. rewrite sign_bit by exact Hw. assert (0 < 2 ^ (w - 1)) by (apply Z.pow_pos_nonneg; lia). destruct (2 ^ (w - 1) <=? wrap w x); lia. Qed.
Lemma same_sign w x y : 0 < w -> (Z.land x (2 ^ (w - 1)) =? Z.land y (2 ^ (w - 1))) = Bool.eqb (2 ^ (w - 1) <=? wrap w x) (2 ^ (w - 1) <=? wrap w y).
Proof.
  intros Hw. rewrite !sign_bit by exact Hw. assert (0 < 2 ^ (w - 1)) by (apply Z.pow_pos_nonneg; lia).
  destruct (2 ^ (w - 1) <=? wrap w x), (2 ^ (w - 1) <=? wrap w y); cbn [Bool.eqb]; lia.
Qed.
(** Sums overflow when the signs of the operands, and only they, agree. *)
Lemma sum_overflow a b c : in_range 32 a -> in_range 32 b -> 0 <= c <= 1 ->
  out_of_range 32 (sext 32 a + sext 32 b + c) =
    Bool.eqb (2 ^ 31 <=? a) (2 ^ 31 <=? b) && negb (Bool.eqb (2 ^ 31 <=? a) (2 ^ 31 <=? wrap 32 (a + b + c))).
Proof.
  intros [A0 A1] [B0 B1] Hc. unfold out_of_range, sext. cbv zeta. rewrite !(wrap_small 32 a), !(wrap_small 32 b) by (unfold in_range; lia).
  change (32 - 1) with 31.
  assert (E : wrap 32 (a + b + c) = if 2 ^ 32 <=? a + b + c then a + b + c - 2 ^ 32 else a + b + c).
  { unfold wrap. destruct (Z.leb_spec (2 ^ 32) (a + b + c)); symmetry; [apply (Z.mod_unique_pos _ _ 1) | apply (Z.mod_unique_pos _ _ 0)]; lia. }
  rewrite E. destruct (Z.ltb_spec a (2 ^ 31)), (Z.ltb_spec b (2 ^ 31)), (Z.leb_spec (2 ^ 31) a), (Z.leb_spec (2 ^ 31) b), (Z.leb_spec (2 ^ 32) (a + b + c)); cbn [Bool.eqb negb andb];
    repeat match goal with |- context [?x <=? ?y] => destruct (Z.leb_spec x y) | |- context [?x <? ?y] => destruct (Z.ltb_spec x y) end; cbn [Bool.eqb negb orb andb]; lia.
Qed.
Lemma genc_adc_flags_sum a b c : in_range 32 a -> in_range 32 b -> 0 <= c <= 1 ->
  genc_adc_flags a b c = packed_flags (2 ^ 31 <=? wrap 32 (a + b + c)) (wrap 32 (a + b + c) =? 0) (2 ^ 32 <=? a + b + c) (out_of_range 32 (sext 32 a + sext 32 b + c)).
Proof.
  intros Ha Hb Hc. rewrite sum_overflow by assumption. unfold genc_adc_flags. cbv zeta. change 0x80000000 with (2 ^ (32 - 1)).
  unfold in_range in *. unfold u64. rewrite (wrap_small 64) by (unfold in_range; lia). rewrite !same_sign, sign_of by lia. unfold u32.
  rewrite (wrap_small 32 a), (wrap_small 32 b) by (unfold in_range; lia). rewrite negb_involutive. change (32 - 1) with 31.
  replace (0xffffffff <? a + b + c) with (2 ^ 32 <=? a + b + c) by (destruct (Z.leb_spec (2 ^ 32) (a + b + c)), (Z.ltb_spec 0xffffffff (a + b + c)); lia). reflexivity.
Qed.
(** Differences overflow when the signs of the operands, and those of the left
    one and the result, differ. *)
Lemma difference_overflow a b c : in_range 32 a -> in_range 32 b -> 0 <= c <= 1 ->
  out_of_range 32 (sext 32 a - sext 32 b - c) =
    negb (Bool.eqb (2 ^ 31 <=? a) (2 ^ 31 <=? b)) && negb (Bool.eqb (2 ^ 31 <=? a) (2 ^ 31 <=? wrap 32 (a - b - c))).
Proof.
  intros [A0 A1] [B0 B1] Hc. unfold out_of_range, sext. cbv zeta. rewrite !(wrap_small 32 a), !(wrap_small 32 b) by (unfold in_range; lia).
  change (32 - 1) with 31.
  assert (E : wrap 32 (a - b - c) = if a - b - c <? 0 then a - b - c + 2 ^ 32 else a - b - c).
  { unfold wrap. destruct (Z.ltb_spec (a - b - c) 0); symmetry; [apply (Z.mod_unique_pos _ _ (-1)) | apply (Z.mod_unique_pos _ _ 0)]; lia. }
  rewrite E. destruct (Z.ltb_spec a (2 ^ 31)), (Z.ltb_spec b (2 ^ 31)), (Z.leb_spec (2 ^ 31) a), (Z.leb_spec (2 ^ 31) b), (Z.ltb_spec (a - b - c) 0); cbn [Bool.eqb negb andb];
    repeat match goal with |- context [?x <=? ?y] => destruct (Z.leb_spec x y) | |- context [?x <? ?y] => destruct (Z.ltb_spec x y) end; cbn [Bool.eqb negb orb andb]; lia.
Qed.
Lemma wrap_difference a b c : wrap 32 (a - u32 (b + c)) = wrap 32 (a - b - c).
Proof. unfold u32, wrap. rewrite Zminus_mod_idemp_r. f_equal. lia. Qed.
Lemma genc_sbc_flags_difference a b c : in_range 32 a -> in_range 32 b -> 0 <= c <= 1 ->
  let f := genc_sbc_flags a b c in
  let r := wrap 32 (a - b - c) in
  flag_N f = Z.b2z (2 ^ 31 <=? r) /\ flag_Z f = Z.b2z (r =? 0)
  /\ (flag_C f = Z.b2z (a <? b + c) <-> b + c < 2 ^ 32)
  /\ (flag_V f = Z.b2z (out_of_range 32 (sext 32 a - sext 32 b - c)) <-> (2 ^ 31 <=? a) = (2 ^ 31 <=? r)).
Proof.
  intros Ha Hb Hc f r. rewrite difference_overflow by assumption. unfold f, genc_sbc_flags. cbv zeta. change 0x80000000 with (2 ^ (32 - 1)).
  set (res := u64 (a - u32 (b + c))).
  destruct (unpacked (negb (Z.land res (2 ^ (32 - 1)) =? 0)) (u32 res =? 0) (0xffffffff <? res)
    ((Z.land a (2 ^ (32 - 1)) =? Z.land b (2 ^ (32 - 1))) && negb (Z.land a (2 ^ (32 - 1)) =? Z.land res (2 ^ (32 - 1))))) as (-> & -> & -> & ->).
  assert (Er : wrap 32 res = r). { unfold res, r. rewrite <- wrap_difference. unfold u64. unfold wrap. apply Z.mod_mod_divide. exists (2 ^ 32). reflexivity. }
  rewrite !same_sign, sign_of by lia. unfold u32 at 1. rewrite Er, (wrap_small 32 a), (wrap_small 32 b) by assumption. change (32 - 1) with 31. rewrite negb_involutive.
  split; [reflexivity |]. split; [reflexivity |]. unfold in_range in *. fold r. split.
  - assert (Ec : (0xffffffff <? res) = (a <? u32 (b + c))).
    { assert (Hu : 0 <= u32 (b + c) < 2 ^ 32) by now apply wrap_range. unfold res, u64, wrap. destruct (Z.ltb_spec a (u32 (b + c))).
      - rewrite <- (Z.mod_unique_pos (a - u32 (b + c)) (2 ^ 64) (-1) (a - u32 (b + c) + 2 ^ 64)) by lia. lia.
      - rewrite Z.mod_small by lia. lia. }
    rewrite Ec. destruct (Z.ltb_spec (b + c) (2 ^ 32)) as [Hlt | Hge].
    + unfold u32. rewrite wrap_small by (unfold in_range; lia). tauto.
    + assert (E0 : u32 (b + c) = 0) by (replace (b + c) with (2 ^ 32) by lia; reflexivity). rewrite E0.
      rewrite (proj2 (Z.ltb_ge a 0)), (proj2 (Z.ltb_lt a (b + c))) by lia. cbn. split; [discriminate | lia].
  - destruct (2 ^ 31 <=? a), (2 ^ 31 <=? b), (2 ^ 31 <=? r); cbn; intuition congruence.
Qed.

(** C18. The flags that the helpers give for additions with carry
    are those of the sum: N and Z of the low 32 bits, C the carry out, V the
    signed overflow.  For subtractions with borrow N and Z are right; C is the
    borrow exactly when the right operand and the carry do not wrap; V is the
    signed overflow exactly when the result has the sign of the left operand,
    so not once an overflow happens. *)
Theorem helper_flags_exact a b c : in_range 32 a -> in_range 32 b -> 0 <= c <= 1 ->
  (let r := wrap 32 (a + b + c) in
   let f := genc_adc_flags a b c in
   flag_N f = Z.b2z (2 ^ 31 <=? r) /\ flag_Z f = Z.b2z (r =? 0) /\ flag_C f = Z.b2z (2 ^ 32 <=? a + b + c)
   /\ flag_V f = Z.b2z (out_of_range 32 (sext 32 a + sext 32 b + c)))
  /\ (let r := wrap 32 (a - b - c) in
      let f := genc_sbc_flags a b c in
      flag_N f = Z.b2z (2 ^ 31 <=? r) /\ flag_Z f = Z.b2z (r =? 0)
      /\ (flag_C f = Z.b2z (a <? b + c) <-> b + c < 2 ^ 32)
      /\ (flag_V f = Z.b2z (out_of_range 32 (sext 32 a - sext 32 b - c)) <-> (2 ^ 31 <=? a) = (2 ^ 31 <=? r))).
Proof.
  intros Ha Hb Hc. split; [| exact (genc_sbc_flags_difference a b c Ha Hb Hc)]. cbv zeta. rewrite genc_adc_flags_sum by assumption.
  match goal with |- context [packed_flags ?N ?Zf ?C ?V] => destruct (unpacked N Zf C V) as (-> & -> & -> & ->) end. repeat split.
Qed.
(** The least number less one: it overflows, and V is clear. *)
Lemma helper_flags_exact_witness :
  flag_V (genc_sbc_flags (2 ^ 31) 1 0) = 0 /\ out_of_range 32 (sext 32 (2 ^ 31) - sext 32 1 - 0) = true
  /\ ~ flag_V (genc_sbc_flags (2 ^ 31) 1 0) = Z.b2z (out_of_range 32 (sext 32 (2 ^ 31) - sext 32 1 - 0)).
Proof.
  split; [reflexivity |]. split; [reflexivity |]. intros H.
  assert (Ha : in_range 32 (2 ^ 31)) by (split; reflexivity || discriminate). assert (Hb : in_range 32 1) by (split; reflexivity || discriminate).
  destruct (helper_flags_exact (2 ^ 31) 1 0 Ha Hb ltac:(split; discriminate)) as [_ (_ & _ & _ & Hv)]. apply Hv in H. discriminate H.
Defined.
