(* ===== verification/X86LowerGuest.v ===== *)
(** * Lowered accesses to the guest's registers are correct

    Instructions of the IR whose effect is on memory: writes of the register
    file, of the program counter, of the flags and of counters; and those that
    read it.  [stored]: nothing but these bytes and the temporaries changes. *)

From Stdlib Require Import ZArith Lia List Bool String.
From stdpp Require Import base numbers list.
From S2P Require Import Prelude BlockIR X86Encoder X86Decode X86Shapes X86Conditions X86Machine X86Lower X86LowerFlow X86Steps ProcessorHelpers X86LowerArith.
Import ListNotations.
#[local] Open Scope Z_scope.
#[local] Open Scope gensim_scope.

(** ** Effects *)

(** Address, bytes and value of each write. *)
Fixpoint stores (l : list (Z * Z * Z)) (m : Z -> Z) : Z -> Z :=
  match l with [] => m | (a, n, v) :: r => stores r (store (Z.to_nat n) m a v) end.
Record stored (l : list (Z * Z * Z)) (s s1 : machine) : Prop := mkStored {
  stored_good : good s1;
  stored_regs : forall r, ~ In (InReg r) temps -> regs s1 r = regs s r;
  stored_mem : forall a, mem s1 a = stores l (mem s) a }.
(** The register file is at rbp. *)
Definition guest_address (s : machine) (offset : Z) : Z := regs s 5 + offset.
Definition guest_value (s : machine) (offset sz : Z) : Z := load (Z.to_nat sz) (mem s) (guest_address s offset).
Definition slot_of (ctx : X86LoweringContext) (name : string) : Z := match GetTaggedEntry ctx name with Some o => u32 o | None => 0 end.
(** The four flags, as the interpreter writes them. *)
Definition flag_stores (ctx : X86LoweringContext) (s : machine) (c v z n : Z) : list (Z * Z * Z) :=
  [(guest_address s (slot_of ctx "C"), 1, c); (guest_address s (slot_of ctx "V"), 1, v);
   (guest_address s (slot_of ctx "Z"), 1, z); (guest_address s (slot_of ctx "N"), 1, n)].
Definition ir_stores (ctx : X86LoweringContext) (insn : IRInstruction) (s : machine) : option (list (Z * Z * Z)) :=
  let a := input s (op insn 0) in
  let b := input s (op insn 1) in
  let c := input s (op insn 2) in
  let pc := guest_address s (slot_of ctx "PC") in
  match type insn with
  | WRITE_REG => Some [(guest_address s (value (op insn 1)), osize (op insn 0), a)]
  | INCPC => Some [(pc, 4, wrap 32 (load 4 (mem s) pc + a))]
  | COUNT => Some [(value (op insn 0), 8, wrap 64 (load 8 (mem s) (value (op insn 0)) + b))]
  | SET_ZN_FLAGS =>
      Some [(guest_address s (slot_of ctx "Z"), 1, Z.b2z (a =? 0));
            (guest_address s (slot_of ctx "N"), 1, Z.b2z (2 ^ (8 * osize (op insn 0) - 1) <=? a))]
  | ADC_WITH_FLAGS =>
      let f := genc_adc_flags a b c in Some (flag_stores ctx s (flag_C f) (flag_V f) (flag_Z f) (flag_N f))
  | SBC_WITH_FLAGS =>
      Some (flag_stores ctx s (Z.b2z (a <? b + c)) (Z.b2z (out_of_range 32 (sext 32 a - sext 32 b - c)))
              (Z.b2z (wrap 32 (a - b - c) =? 0)) (Z.b2z (2 ^ 31 <=? wrap 32 (a - b - c))))
  | NOP | BARRIER | INTCHECK => Some []
  | _ => None
  end.
(** What an instruction does. *)
Definition performed (ctx : X86LoweringContext) (insn : IRInstruction) (s s1 : machine) : Prop :=
  match ir_stores ctx insn s with
  | Some l => stored l s s1
  | None =>
      match type insn with
      | READ_REG => gives insn (guest_value s (value (op insn 0)) (osize (op insn 1))) s s1
      | LDPC => gives insn (guest_value s (slot_of ctx "PC") (osize (op insn 0))) s s1
      | _ => carried_out insn s s1
      end
  end.
Lemma performed_good ctx insn s s1 : performed ctx insn s s1 -> good s1.
Proof.
  unfold performed. destruct (ir_stores ctx insn s); [apply stored_good |]. destruct (type insn); apply carried_good.
Qed.
Definition acts (ctx : X86LoweringContext) (insn : IRInstruction) (l : lops) : Prop :=
  exists cs is1, l = Ok (map Op cs) /\ Forall2 asks cs is1 /\ forall s, good s -> defined_at insn s -> runs is1 s (performed ctx insn s).

(** ** Slots of the register file *)

Definition file_slot (d : Z) : address := mkAddress false 8 (Some 5) None d false.
Definition at_base (k : Z) : address := mkAddress false 8 (Some k) None 0 false.
Definition file_offset (d : Z) : Prop := 0 <= d < 2 ^ 31.
Lemma regstate_ok d : file_offset d ->
  mem_ok (regstate d) = true /\ plain_mem (regstate d) = true /\ simple_mem (regstate d) = true /\ meaning_mem (regstate d) = file_slot d.
Proof.
  unfold file_offset. intros H. unfold regstate, mem_disp. rewrite sext_id by (cbn; lia).
  assert (E : mem_ok (mkMem REG_RIZ BLKJIT_REGSTATE_REG 0 d 0) = true).
  { unfold mem_ok. cbn -[Z.pow]. rewrite (proj2 (Z.leb_le _ _)), (proj2 (Z.ltb_lt _ _)) by lia. reflexivity. }
  repeat split; unfold simple_mem, plain_mem; rewrite ?E; reflexivity.
Qed.
Lemma file_addressed rs d : address_of rs (file_slot d) = Some (u64 (rs 5 + d)).
Proof. unfold address_of, file_slot. cbn. now rewrite Z.add_0_r. Qed.
Section Asked.
Context (k w d : Z) (Hk : reg_number k) (Hw : valid_size w = true) (Hd : file_offset d).
Ltac ask_file := first [assumption | reflexivity | lia | rewrite T_reg_mem by assumption; apply regstate_ok; assumption | apply regstate_ok; assumption].
Ltac by_file := rewrite ?(T_meaning k w Hk Hw), (proj2 (proj2 (proj2 (regstate_ok d Hd)))); reflexivity.
Lemma ask_read_file : asks (mov_mr (regstate d) (T k w)) (IMov w (opnd_of (InReg k) w) (OMem (file_slot d))).
Proof. eapply asks_as; [apply asks_mov_mr; ask_file | cbn [opnd_of X86Encoder.size T]; by_file]. Qed.
Lemma ask_write_file : asks (mov_rm (T k w) (regstate d)) (IMov w (OMem (file_slot d)) (opnd_of (InReg k) w)).
Proof. eapply asks_as; [apply asks_mov_rm; ask_file | cbn [opnd_of X86Encoder.size T]; by_file]. Qed.
Lemma ask_mov4_file v : asks (mov4 v (regstate d)) (IMov 4 (OMem (file_slot d)) (OImm (wrap 32 v))).
Proof. eapply asks_as; [apply asks_mov4; ask_file | by_file]. Qed.
Lemma ask_mov2_file v : asks (mov2 v (regstate d)) (IMov 2 (OMem (file_slot d)) (OImm (wrap 16 v))).
Proof. eapply asks_as; [apply asks_mov2; ask_file | by_file]. Qed.
Lemma ask_mov1_file v : asks (mov1 v (regstate d)) (IMov 1 (OMem (file_slot d)) (OImm (wrap 8 v))).
Proof. eapply asks_as; [apply asks_mov1; ask_file | by_file]. Qed.
Lemma ask_add4_file v : 0 <= v < 2 ^ 32 -> asks (add4 v (regstate d)) (IAlu 0 4 (OMem (file_slot d)) (Imm 4 v)).
Proof. intros Hv. eapply asks_as; [eapply (asks_add_im add4 4); [left; reflexivity | ask_file ..] | by_file]. Qed.
Lemma ask_set_file cc : 0 <= cc < 16 -> asks (setcc_m cc (regstate d)) (ISetcc cc (OMem (file_slot d))).
Proof. intros Hc. eapply asks_as; [apply asks_setcc_m; ask_file | by_file]. Qed.
End Asked.

(** ** Writes *)

Lemma stores_ext l m1 m2 : (forall a, m1 a = m2 a) -> forall a, stores l m1 a = stores l m2 a.
Proof.
  revert m1 m2. induction l as [|((a, n), v) l IH]; intros m1 m2 H x; cbn [stores]; [apply H |]. apply IH. intros y.
  clear IH x. revert a v. induction (Z.to_nat n) as [|k IHk]; intros a v; cbn [store]; [apply H |]. unfold upd. destruct (y =? u64 a); [reflexivity | apply IHk].
Qed.
Lemma stores_u64 l a n v m x : stores ((u64 a, n, v) :: l) m x = stores ((a, n, v) :: l) m x.
Proof. cbn [stores]. apply stores_ext. intros y. apply store_u64. Qed.
Lemma stored_none s : good s -> stored [] s s.
Proof. intros H. split; [exact H | reflexivity | reflexivity]. Qed.
(** From a state reached through temporaries. *)
Lemma stored_after ps s s1 s2 l : reach ps s s1 -> incl ps temps -> stored l s1 s2 -> stored l s s2.
Proof.
  intros [Hg [Fr Fm] _] Hi [G R M]. split; [exact G | |].
  - intros r Hr. rewrite R by exact Hr. apply Fr. intros Hin. apply Hr, Hi, Hin.
  - intros a. rewrite M. apply stores_ext. intros x. apply Fm. intros p Hp. specialize (Hi p Hp). cbn in Hi. intuition (subst; assumption).
Qed.
Lemma stored_app l1 l2 s s1 s2 : stored l1 s s1 -> stored l2 s1 s2 -> stored (l1 ++ l2) s s2.
Proof.
  intros [G R M] [G2 R2 M2]. split; [exact G2 | intros r Hr; now rewrite R2, R |]. intros a. rewrite M2.
  rewrite (stores_ext l2 _ _ M). clear. generalize (mem s). revert a. induction l1 as [|((x, n), v) l1 IH]; intros a m; [reflexivity |]. cbn [app stores]. apply IH.
Qed.
(** One write to memory. *)
Lemma memory_written s a sz v : good s -> valid_size sz = true -> stored [(a, sz, v)] s (with_state (regs s) (store (Z.to_nat sz) (mem s) (u64 a) v) s).
Proof.
  intros [Gr Gm] Hs. split; [split; cbn; [exact Gr | now apply store_range] | reflexivity |]. intros x. cbn [with_state mem stores]. apply store_u64.
Qed.
Lemma runs_file_mov s sz d src v r Q : good s -> valid_size sz = true -> read_opnd sz src s = Some v ->
  (forall s1, stored [(guest_address s d, sz, v)] s s1 -> runs r s1 Q) -> runs (IMov sz (OMem (file_slot d)) src :: r) s Q.
Proof.
  intros Hg Hs E K. eapply runs_step; [| apply K, memory_written; assumption]. cbn [exec]. unfold exec_mov. rewrite E. cbn [write_opnd]. rewrite file_addressed. reflexivity.
Qed.
Lemma guest_read s d sz : read_opnd sz (OMem (file_slot d)) s = Some (guest_value s d sz).
Proof. cbn [read_opnd]. rewrite file_addressed, load_u64. reflexivity. Qed.

(** ** Reads *)

(** A constant offset in the register file. *)
Definition offset_ok (o : IROperand) : bool := is_constant o && (0 <=? value o) && (value o <? 2 ^ 31).
Lemma offset_parts o : offset_ok o = true -> is_constant o = true /\ file_offset (value o).
Proof. unfold offset_ok, file_offset. rewrite !andb_true_iff, Z.leb_le, Z.ltb_lt. tauto. Qed.
Definition gives_simply_after (insn : IRInstruction) (v : Z) (s s1 : machine) : Prop :=
  exists ps, reach ps s s1 /\ incl ps (place_of (destination insn) :: temps ++ red_zone)
    /\ held s1 (place_of (destination insn)) (osize (destination insn)) = v.
(** To a register, or through a temporary to the stack. *)
Lemma read_slot_correct insn slot_at d v : placed d = true -> destination insn = d -> file_offset slot_at ->
  (forall s, good s -> v s = guest_value s slot_at (osize d)) ->
  exists cs is1, read_slot (regstate slot_at) d = ops cs /\ Forall2 asks cs is1
    /\ forall s, good s -> runs is1 s (gives insn (v s) s).
Proof.
  intros Hd Ed Hf Hv. assert (G : forall s s1, good s -> gives_simply_after insn (v s) s s1 -> gives insn (v s) s s1).
  { intros s s1 _ (ps & Hr & Hi & Hh). apply (gives_simply insn (v s) s s1 ps); [now rewrite Ed | exact Hr | exact Hi | exact Hh]. }
  open_operand d Hd; unfold read_slot; lowering_eqs; eexists _, _; (split; [reflexivity |]).
  - split; [apply List.Forall2_cons; [now apply ask_read_file | apply List.Forall2_nil] |].
    intros s Hg. eapply runs_weaken; [| intros s1; apply (G s s1 Hg)]. pose proof (reach_start s Hg) as Hr.
    eapply runs_mov; [sized | sized | apply guest_read | next_state]. apply runs_nil. eexists. split; [exact Hr |]. rewrite Ed, Pl. split; [incl_now |].
    back. rewrite (Hv s Hg). apply wrap_small. unfold guest_value. rewrite <- (width_nat _ Vs). apply load_range, Hg.
  - split; [apply List.Forall2_cons; [apply ask_read_file; [unfold reg_number; lia | exact Vs | exact Hf] | asks_all] |].
    intros s Hg. eapply runs_weaken; [| intros s1; apply (G s s1 Hg)]. pose proof (reach_start s Hg) as Hr.
    eapply runs_mov; [sized | sized | apply guest_read | next_state]. step. apply runs_nil. eexists. split; [exact Hr |]. rewrite Ed, Pl. split; [incl_now |].
    back. rewrite (Hv s Hg). rewrite wrap_wrap by now apply width_nonneg. apply wrap_small. unfold guest_value. rewrite <- (width_nat _ Vs). apply load_range, Hg.
Qed.
Definition read_ok (o d : IROperand) : bool := offset_ok o && placed d.
Lemma read_register_correct ctx b o d : read_ok o d = true -> acts ctx (mkInsn [o; d] b READ_REG) (read_register (mkInsn [o; d] b READ_REG)).
Proof.
  unfold read_ok. rewrite andb_true_iff. intros [Ho Hd]. destruct (offset_parts o Ho) as [Co Fo].
  destruct (read_slot_correct (mkInsn [o; d] b READ_REG) (value o) d (fun s => guest_value s (value o) (osize d)) Hd eq_refl Fo (fun _ _ => eq_refl)) as (cs & is1 & E & Ha & Hr).
  exists cs, is1. split; [| split; [exact Ha | intros s Hg _; exact (Hr s Hg)]]. unfold read_register. lowering_eqs. exact E.
Qed.
(** The read alone, where the next two instructions are not merged with it. *)
Definition read_alone (insns : list IRInstruction) : bool :=
  match insns with
  | insn :: nx :: st :: rest =>
      match potential_killer rest, read_modify_write insn nx st with Ok _, Ok None => true | _, _ => false end
  | _ => false
  end.
Lemma LowerReadReg_correct ctx b o d rest : read_ok o d = true -> read_alone (mkInsn [o; d] b READ_REG :: rest) = true ->
  exists x, LowerReadReg (mkInsn [o; d] b READ_REG :: rest) = Ok (x, 1%nat) /\ acts ctx (mkInsn [o; d] b READ_REG) (Ok x).
Proof.
  intros Hok Ha. destruct (read_register_correct ctx b o d Hok) as (cs & is1 & E & H1 & H2).
  exists (map Op cs). split; [| exists cs, is1; split; [reflexivity | now split]].
  destruct rest as [|nx [|st rest]]; try discriminate. unfold read_alone in Ha. unfold LowerReadReg.
  change (next_insn (?i :: nx :: st :: rest) 0) with (Ok i). change (next_insn (mkInsn [o; d] b READ_REG :: nx :: st :: rest) 0) with (@Ok IRInstruction (mkInsn [o; d] b READ_REG)).
  change (next_insn (mkInsn [o; d] b READ_REG :: nx :: st :: rest) 1) with (@Ok IRInstruction nx). change (next_insn (mkInsn [o; d] b READ_REG :: nx :: st :: rest) 2) with (@Ok IRInstruction st).
  change (drop 3 (mkInsn [o; d] b READ_REG :: nx :: st :: rest)) with rest. cbn [rbind].
  destruct (potential_killer rest) as [kl |]; [| discriminate]. destruct (read_modify_write _ nx st) as [[f |] |]; try discriminate. cbn [rbind]. rewrite E. reflexivity.
Qed.

(** The program counter: four bytes. *)
Definition tag_ok (ctx : X86LoweringContext) (name : string) : bool :=
  match GetTaggedEntry ctx name with Some o => u32 o <? 2 ^ 31 | None => false end.
Lemma tag_parts ctx name : tag_ok ctx name = true -> tagged ctx name = Ok (regstate (slot_of ctx name)) /\ file_offset (slot_of ctx name).
Proof.
  unfold tag_ok, tagged, slot_of, file_offset. destruct (GetTaggedEntry ctx name) as [o |]; [| discriminate]. intros H. split; [reflexivity |].
  split; [apply wrap_range; lia | lia].
Qed.
Definition ldpc_ok (ctx : X86LoweringContext) (d : IROperand) : bool := placed d && (osize d =? 4) && tag_ok ctx "PC".
Lemma LowerLoadPC_correct ctx b d : ldpc_ok ctx d = true -> acts ctx (mkInsn [d] b LDPC) (LowerLoadPC ctx (mkInsn [d] b LDPC)).
Proof.
  unfold ldpc_ok. rewrite !andb_true_iff, Z.eqb_eq. intros ((Hd & E4) & Ht). destruct (tag_parts ctx "PC" Ht) as [Et Ft].
  destruct (read_slot_correct (mkInsn [d] b LDPC) (slot_of ctx "PC") d (fun s => guest_value s (slot_of ctx "PC") (osize d)) Hd eq_refl Ft (fun _ _ => eq_refl)) as (cs & is1 & E & Ha & Hr).
  exists cs, is1. split; [| split; [exact Ha | intros s Hg _; exact (Hr s Hg)]]. unfold ops in E. rewrite <- E.
  open_operand d Hd; unfold LowerLoadPC, read_slot; change (operand (mkInsn [d] b LDPC) 0) with (@Ok IROperand d); lowering_eqs; rewrite Et; lowering_eqs; [reflexivity |].
  rewrite <- E4. lowering_eqs. reflexivity.
Qed.

(** ** Writes of registers *)

Lemma guest_address_reached ps s s1 d : reach ps s s1 -> ~ In (InReg 5) ps -> guest_address s1 d = guest_address s d.
Proof. intros [_ [Fr _] _] H. unfold guest_address. now rewrite Fr. Qed.
Definition write_ok (v o : IROperand) : bool := offset_ok o && (placed v || constant_ok v).
(** A value in a place, written to a slot of the register file. *)
Lemma runs_store_place ps s s1 p sz d v r Q : reach ps s s1 -> incl ps temps -> valid_size sz = true -> held s1 p sz = v ->
  (forall s2, stored [(guest_address s d, sz, v)] s s2 -> runs r s2 Q) -> runs (IMov sz (OMem (file_slot d)) (opnd_of p sz) :: r) s1 Q.
Proof.
  intros Hr Hi Hs Hv K. eapply runs_file_mov; [apply Hr | exact Hs | apply read_place |]. intros s2 S. apply K. rewrite Hv in S.
  rewrite (guest_address_reached ps s s1) in S; [now apply (stored_after ps s s1) | exact Hr |]. intros Hin. specialize (Hi _ Hin). cbn in Hi. intuition discriminate.
Qed.
Lemma runs_store_constant s sz d v r Q : good s -> valid_size sz = true ->
  (forall s2, stored [(guest_address s d, sz, wrap (8 * sz) v)] s s2 -> runs r s2 Q) -> runs (IMov sz (OMem (file_slot d)) (OImm (wrap (8 * sz) v)) :: r) s Q.
Proof.
  intros Hg Hs K. eapply runs_file_mov; [exact Hg | exact Hs | cbn [read_opnd]; rewrite (wrap_wrap _ _ (width_nonneg _ Hs)); reflexivity | exact K].
Qed.
Lemma LowerWriteReg_correct ctx b v o : write_ok v o = true -> acts ctx (mkInsn [v; o] b WRITE_REG) (LowerWriteReg (mkInsn [v; o] b WRITE_REG)).
Proof.
  unfold write_ok. rewrite andb_true_iff, orb_true_iff. intros [Ho Hv]. destruct (offset_parts o Ho) as [Co Fo].
  assert (Hperf : forall s s1, stored [(guest_address s (value o), osize v, input s v)] s s1 -> performed ctx (mkInsn [v; o] b WRITE_REG) s s1) by (intros s s1 H; exact H).
  unfold LowerWriteReg. destruct Hv as [Hv | Hv].
  - open_operand v Hv; lowering_eqs; eexists _, _; (split; [reflexivity |]).
    + split; [apply List.Forall2_cons; [now apply ask_write_file | apply List.Forall2_nil] |]. intros s Hg _.
      apply (runs_store_place [] s s (InReg k) (osize v) (value o) (held s (InReg k) (osize v))); [now apply reach_start | intros ? [] | assumption | reflexivity |].
      intros s2 S. apply runs_nil, Hperf. rewrite Own, Pl. exact S.
    + split; [apply List.Forall2_cons; [asked; first [assumption | unfold reg_number; lia] | apply List.Forall2_cons; [apply ask_write_file; first [assumption | unfold reg_number; lia] | apply List.Forall2_nil]] |].
      intros s Hg _. pose proof (reach_start s Hg) as Hr. step.
      apply (runs_store_place [InReg 7] s s0 (InReg 7) (osize v) (value o) (input s v)); [exact Hr | intros x [<- | []]; cbn; tauto | assumption | back; rewrite Own, Pl; now unwrap |].
      intros s2 S. apply runs_nil, Hperf. exact S.
  - open_constant v Hv. pose proof (valid_size_cases _ Vs) as C. lowering_eqs.
    destruct (Z.eqb_spec (osize v) 8) as [E | N8]; [| destruct (Z.eqb_spec (osize v) 4) as [E | N4]; [| destruct (Z.eqb_spec (osize v) 2) as [E | N2]; [| destruct (Z.eqb_spec (osize v) 1) as [E | N1]; [| lia]]]].
    + rewrite <- E at 1. lowering_eqs. eexists _, _. split; [reflexivity |].
      split; [apply List.Forall2_cons; [asked; first [assumption | unfold reg_number; lia] | apply List.Forall2_cons; [apply ask_write_file; first [assumption | unfold reg_number; lia] | apply List.Forall2_nil]] |].
      intros s Hg _. pose proof (reach_start s Hg) as Hr. step.
      apply (runs_store_place [InReg 7] s s0 (InReg 7) (osize v) (value o) (input s v)); [exact Hr | intros x [<- | []]; cbn; tauto | assumption | back; rewrite Own; now unwrap |].
      intros s2 S. apply runs_nil, Hperf. exact S.
    + eexists _, _. split; [reflexivity |]. split; [apply List.Forall2_cons; [now apply ask_mov4_file | apply List.Forall2_nil] |]. intros s Hg _.
      change 32 with (8 * 4). apply (runs_store_constant s 4); [exact Hg | reflexivity |]. intros s2 S. apply runs_nil, Hperf. rewrite Own, E. unfold u32 in S. change (8 * 4) with 32 in *. rewrite wrap_wrap in S by lia. exact S.
    + eexists _, _. split; [reflexivity |]. split; [apply List.Forall2_cons; [now apply ask_mov2_file | apply List.Forall2_nil] |]. intros s Hg _.
      change 16 with (8 * 2). apply (runs_store_constant s 2); [exact Hg | reflexivity |]. intros s2 S. apply runs_nil, Hperf. rewrite Own, E. unfold u16 in S. change (8 * 2) with 16 in *. rewrite wrap_wrap in S by lia. exact S.
    + eexists _, _. split; [reflexivity |]. split; [apply List.Forall2_cons; [now apply ask_mov1_file | apply List.Forall2_nil] |]. intros s Hg _.
      change 8 with (8 * 1) at 1. apply (runs_store_constant s 1); [exact Hg | reflexivity |]. intros s2 S. apply runs_nil, Hperf. rewrite Own, E. unfold u8 in S. change (8 * 1) with 8 in *. rewrite wrap_wrap in S by lia. exact S.
Qed.

(** ** The program counter and counters *)

Lemma wrap_imm sz v : valid_size sz = true -> imm_ok (8 * sz) v = true -> wrap (8 * sz) (imm_value sz (u32 v)) = wrap (8 * sz) v.
Proof. intros Hs H. pose proof (imm_read sz v (mkMachine (fun _ => 0) (fun _ => 0) None None) Hs H) as E. cbn [Imm read_opnd] in E. congruence. Qed.
(** An addition to memory. *)
Lemma runs_memory_add s sz a p imm r Q : good s -> valid_size sz = true -> address_of (regs s) a = Some (u64 p) -> imm_ok (8 * sz) imm = true ->
  (forall s1, stored [(p, sz, wrap (8 * sz) (load (Z.to_nat sz) (mem s) p + wrap (8 * sz) imm))] s s1 -> runs r s1 Q) ->
  runs (IAlu 0 sz (OMem a) (Imm sz (u32 imm)) :: r) s Q.
Proof.
  intros Hg Hs Ea Hi K. set (v := wrap (8 * sz) (load (Z.to_nat sz) (mem s) p + wrap (8 * sz) imm)) in *.
  assert (E : exists f, exec (IAlu 0 sz (OMem a) (Imm sz (u32 imm))) s = Some (with_flags (Some f) (with_state (regs s) (store (Z.to_nat sz) (mem s) (u64 p) v) s))).
  { cbn [exec]. unfold exec_alu. cbn [read_opnd Imm orb Z.eqb write_opnd]. rewrite Ea, load_u64, wrap_imm by assumption. cbn [alu_result Z.eqb]. rewrite Z.add_0_r. eexists. reflexivity. }
  destruct E as [f E]. eapply runs_step; [exact E |]. apply K. destruct (memory_written s p sz v Hg Hs) as [G R M]. split; [split; apply G | exact R | exact M].
Qed.
Definition incpc_ok (ctx : X86LoweringContext) (o : IROperand) : bool := constant_ok o && (osize o =? 4) && tag_ok ctx "PC".
Lemma imm_ok_32 v : imm_ok 32 v = true.
Proof. apply Z.eqb_eq. unfold wrap, sext. cbv zeta. unfold wrap. destruct (v mod 2 ^ 32 <? _); [now apply Z.mod_mod |]. rewrite <- (Z_mod_plus_full _ 1), Z.mul_1_l, Z.sub_add. now apply Z.mod_mod. Qed.
Lemma LowerIncPC_correct ctx b o : incpc_ok ctx o = true -> acts ctx (mkInsn [o] b INCPC) (LowerIncPC ctx (mkInsn [o] b INCPC)).
Proof.
  unfold incpc_ok. rewrite !andb_true_iff, Z.eqb_eq. intros ((Ho & E4) & Ht). destruct (tag_parts ctx "PC" Ht) as [Et Ft]. open_constant o Ho.
  unfold LowerIncPC. change (operand (mkInsn [o] b INCPC) 0) with (@Ok IROperand o). lowering_eqs. rewrite Et. lowering_eqs.
  eexists _, _. split; [reflexivity |]. split; [apply List.Forall2_cons; [apply ask_add4_file; [exact Ft | apply u32_range] | apply List.Forall2_nil] |].
  intros s Hg _. apply (runs_memory_add s 4 _ (guest_address s (slot_of ctx "PC"))); [exact Hg | reflexivity | apply file_addressed | apply (imm_ok_32 (value o)) |].
  intros s1 S. apply runs_nil. unfold performed, ir_stores. cbn [type]. change (op (mkInsn [o] b INCPC) 0) with o. rewrite Own, E4. exact S.
Qed.
Definition count_ok (c a : IROperand) : bool := constant_ok c && constant_ok a && (osize a =? 8) && imm_ok 64 (value a).
Lemma at_base_ok : mem_ok (mem_base REG_RDI) = true /\ plain_mem (mem_base REG_RDI) = true /\ meaning_mem (mem_base REG_RDI) = at_base 7.
Proof. repeat split; vm_compute; reflexivity. Qed.
Lemma ask_add8_rdi v : 0 <= v < 2 ^ 32 -> asks (add8 v (mem_base REG_RDI)) (IAlu 0 8 (OMem (at_base 7)) (Imm 8 v)).
Proof. intros Hv. eapply asks_as; [eapply (asks_add_im add8 8); [right; left; reflexivity | exact Hv | apply at_base_ok] | now rewrite (proj2 (proj2 at_base_ok))]. Qed.
Lemma LowerCount_correct ctx b c a : count_ok c a = true -> acts ctx (mkInsn [c; a] b COUNT) (LowerCount (mkInsn [c; a] b COUNT)).
Proof.
  unfold count_ok. rewrite !andb_true_iff, Z.eqb_eq. intros (((Hc & Ha) & E8) & Hi). open_constant c Hc. open_constant a Ha. unfold LowerCount. lowering_eqs.
  change REG_RDI with (T 7 8) at 1. assert (V8 : valid_size 8 = true) by reflexivity.
  eexists _, _. split; [reflexivity |]. split; [apply List.Forall2_cons; [asked; first [assumption | unfold reg_number; lia] | apply List.Forall2_cons; [apply ask_add8_rdi, u32_range | apply List.Forall2_nil]] |].
  intros s Hg _. pose proof (reach_start s Hg) as Hr. step.
  assert (E7 : regs s0 7 = value c). { pose proof (after_held _ _ _ _ _ A) as H. cbn [held] in H. change (8 * 8) with 64 in H. rewrite !wrap_small in H; [exact H | exact Cv | apply A]. }
  apply (runs_memory_add s0 8 _ (value c)); [good_now | reflexivity | unfold address_of, at_base; cbn [a_gs a_rip a_size a_base a_index a_disp orb negb Z.eqb Pos.eqb]; now rewrite E7, !Z.add_0_r | exact Hi |].
  intros s1 S. apply runs_nil. unfold performed, ir_stores. cbn [type]. change (op (mkInsn [c; a] b COUNT) 1) with a. change (op (mkInsn [c; a] b COUNT) 0) with c. rewrite Own0, E8.
  apply (stored_after _ s s0 s1 _ Hr); [intros x [<- | []]; cbn; tauto |].
  replace (load 8 (mem s) (value c)) with (load 8 (mem s0) (value c)); [exact S |]. apply load_ext. intros i _. destruct Hr as [_ [_ Fm] _]. apply Fm. intros p [<- | []] [].
Qed.
Lemma nothing_correct ctx ops_ b t : t = NOP \/ t = BARRIER \/ t = INTCHECK -> acts ctx (mkInsn ops_ b t) (NOPLower (mkInsn ops_ b t)).
Proof.
  intros Ht. exists [], []. split; [reflexivity |]. split; [constructor |]. intros s Hg _. apply runs_nil.
  destruct Ht as [-> | [-> | ->]]; exact (stored_none s Hg).
Qed.

(** ** Flags *)

Lemma runs_set_file s f cc d r Q : good s -> fl s = Some f ->
  (forall s1, stored [(guest_address s d, 1, Z.b2z (holds cc f))] s s1 -> fl s1 = Some f -> runs r s1 Q) -> runs (ISetcc cc (OMem (file_slot d)) :: r) s Q.
Proof.
  intros Hg Hf K. eapply runs_step; [| apply K; [apply (memory_written s (guest_address s d) 1); [exact Hg | reflexivity] | exact Hf]].
  cbn [exec]. rewrite Hf. cbn [write_opnd]. rewrite file_addressed. reflexivity.
Qed.
Definition set_at (x : Z * Z) : insn := ISetcc (fst x) (OMem (file_slot (snd x))).
Lemma runs_set_all l : forall s f r Q, good s -> fl s = Some f ->
  (forall s1, stored (map (fun x => (guest_address s (snd x), 1, Z.b2z (holds (fst x) f))) l) s s1 -> runs r s1 Q) -> runs (map set_at l ++ r) s Q.
Proof.
  induction l as [|[cc d] l IH]; intros s f r Q Hg Hf K; cbn [map app].
  - apply K, stored_none, Hg.
  - apply (runs_set_file s f); [exact Hg | exact Hf |]. intros s1 S1 F1. apply (IH s1 f); [apply S1 | exact F1 |]. intros s2 S2. apply K.
    assert (E : forall o, guest_address s1 o = guest_address s o).
    { intros o. unfold guest_address. rewrite (stored_regs _ _ _ S1); [reflexivity |]. cbn. intuition discriminate. }
    rewrite (map_ext _ (fun x => (guest_address s (snd x), 1, Z.b2z (holds (fst x) f)))) in S2 by (intros x; now rewrite E).
    exact (stored_app _ _ s s1 s2 S1 S2).
Qed.
Lemma ask_sets l : Forall (fun x => 0 <= fst x < 16 /\ file_offset (snd x)) l -> Forall2 asks (map (fun x => setcc_m (fst x) (regstate (snd x))) l) (map set_at l).
Proof. induction 1 as [|x l [Hc Hd] _ IH]; cbn [map]; [constructor |]. constructor; [now apply ask_set_file | exact IH]. Qed.
(** The same value with other flags. *)
Lemma stored_flags l s s1 f : stored l (with_flags f s) s1 -> stored l s s1.
Proof. intros [G R M]. split; assumption. Qed.
Ltac all_sets := repeat (apply List.Forall_cons; [split; [cbn; lia | assumption] |]); apply List.Forall_nil.
Definition zn_ok (ctx : X86LoweringContext) (v : IROperand) : bool := placed v && is_alloc_reg v && tag_ok ctx "Z" && tag_ok ctx "N".
Lemma LowerZNFlags_correct ctx b v : zn_ok ctx v = true -> acts ctx (mkInsn [v] b SET_ZN_FLAGS) (LowerZNFlags ctx (mkInsn [v] b SET_ZN_FLAGS)).
Proof.
  unfold zn_ok. rewrite !andb_true_iff. intros (((Hv & Rv) & Tz) & Tn). destruct (tag_parts ctx "Z" Tz) as [Ez Fz]. destruct (tag_parts ctx "N" Tn) as [En Fn].
  open_operand v Hv; [| congruence]. unfold LowerZNFlags. change (operand (mkInsn [v] b SET_ZN_FLAGS) 0) with (@Ok IROperand v). lowering_eqs. rewrite Ez, En. lowering_eqs.
  set (l := [(4, slot_of ctx "Z"); (8, slot_of ctx "N")]). exists ([test_rr (T k (osize v)) (T k (osize v))] ++ map (fun x => setcc_m (fst x) (regstate (snd x))) l), ([ITest (osize v) (opnd_of (InReg k) (osize v)) (opnd_of (InReg k) (osize v))] ++ map set_at l).
  split; [reflexivity |]. split; [apply Forall2_app; [apply List.Forall2_cons; [asked; assumption | apply List.Forall2_nil] | apply ask_sets; all_sets] |].
  intros s Hg _. set (x := held s (InReg k) (osize v)). eapply runs_step; [cbn [exec]; rewrite (read_place (InReg k)); reflexivity |]. cbv zeta. fold x. rewrite Z.land_diag, <- (app_nil_r (map set_at l)).
  apply (runs_set_all l _ (result_flags (8 * osize v) x false false)); [split; apply Hg | reflexivity |]. intros s1 S. apply runs_nil. unfold performed, ir_stores. cbn [type]. change (op (mkInsn [v] b SET_ZN_FLAGS) 0) with v.
  rewrite Own, Pl. fold x. apply stored_flags in S. exact S.
Qed.

(** ** Flags of sums and differences *)

(** Moves to a register leave the flags. *)
Section Keep.
Context (s : machine) (Hg : good s) (sz k : Z) (Hs : valid_size sz = true) (r : list insn) (Q : machine -> Prop).
Lemma runs_mov_keep src v : read_opnd sz src s = Some v -> (forall s1, after (InReg k) sz v s s1 -> cy s1 = cy s -> runs r s1 Q) -> runs (IMov sz (opnd_of (InReg k) sz) src :: r) s Q.
Proof.
  intros E K. eapply runs_step; [cbn [exec]; unfold exec_mov; rewrite E; reflexivity |]. apply K; [now apply write_reg_place | reflexivity].
Qed.
Lemma runs_mov_imm_keep v : (forall s1, after (InReg k) sz v s s1 -> cy s1 = cy s -> runs r s1 Q) ->
  runs (IMovImm (if sz =? 4 then R k 8 else R k sz) (wrap (8 * sz) v) :: r) s Q.
Proof.
  intros K. eapply runs_step; [cbn [exec]; rewrite write_reg_imm by assumption; reflexivity |]. apply K; [now apply write_reg_place | reflexivity].
Qed.
Lemma runs_alu_flags op src v c : op <> 7 -> read_opnd sz src s = Some v -> (if (op =? 2) || (op =? 3) then carry s else Some 0) = Some c ->
  (forall s1, after (InReg k) sz (fst (alu_result op (8 * sz) (held s (InReg k) sz) v c)) s s1 ->
     fl s1 = Some (snd (alu_result op (8 * sz) (held s (InReg k) sz) v c)) -> cy s1 = Some (f_cf (snd (alu_result op (8 * sz) (held s (InReg k) sz) v c))) -> runs r s1 Q) ->
  runs (IAlu op sz (opnd_of (InReg k) sz) src :: r) s Q.
Proof.
  intros N7 E Ec K. destruct (alu_result op (8 * sz) (held s (InReg k) sz) v c) as [x f] eqn:Ea. cbn [fst snd] in K.
  assert (Ex : exec (IAlu op sz (opnd_of (InReg k) sz) src) s = Some (with_flags (Some f) (with_state (write_reg (regs s) (R k sz) x) (mem s) s))).
  { cbn [exec]. unfold exec_alu. rewrite (read_place (InReg k)), E, Ec, Ea, (proj2 (Z.eqb_neq op 7) N7). reflexivity. }
  eapply runs_step; [exact Ex |]. apply K; [| reflexivity | reflexivity]. apply (after_ext (InReg k) sz x s (with_state (write_reg (regs s) (R k sz) x) (mem s) s)); [reflexivity | reflexivity | now apply write_reg_place].
Qed.
End Keep.

Definition carry_ok (c : IROperand) : bool := (osize c =? 1) && (placed c || constant_ok c && (value c <? 2)).
Definition no_carry (c : IROperand) : bool := is_constant c && (value c =? 0).
(** 255 and the carry in the temporary: the sum carries when it is one. *)
Lemma runs_set_carry s src c r Q : good s -> 0 <= c <= 1 -> (forall s1, after (InReg 7) 1 0xff s s1 -> read_opnd 1 src s1 = Some c) ->
  (forall ps s1, reach ps s s1 -> incl ps [InReg 7] -> carry s1 = Some c -> runs r s1 Q) ->
  runs (IMovImm (R 7 1) (wrap 8 0xff) :: IAlu 0 1 (opnd_of (InReg 7) 1) src :: r) s Q.
Proof.
  intros Hg Hc Hsrc K. pose proof (reach_start s Hg) as Hr. apply (runs_mov_imm_keep s Hg 1 7 eq_refl). intros s1 A _.
  pose proof (reach_after _ _ _ _ _ _ _ Hr A ltac:(discriminate)) as Hr1.
  eapply (runs_alu_flags s1 (after_good _ _ _ _ _ A) 1 7 eq_refl _ _ 0); [lia | exact (Hsrc s1 A) | reflexivity |].
  intros s2 A2 _ Hcy. apply (K (([] ++ [InReg 7]) ++ [InReg 7]) s2).
  - exact (reach_after _ _ _ _ _ _ _ Hr1 A2 ltac:(discriminate)).
  - intros x Hx. cbn in Hx |- *. tauto.
  - unfold carry. rewrite Hcy, (after_held _ _ _ _ _ A). cbn [alu_result Z.eqb fst snd f_cf result_flags]. change (wrap (8 * 1) 255) with 255. change (8 * 1) with 8.
    f_equal. destruct (Z.leb_spec (2 ^ 8) (255 + c + 0)); cbn [Z.b2z]; lia.
Qed.
Lemma carry_set c : carry_ok c = true -> exists cs is1, set_carry c = Ok cs /\ Forall2 asks cs is1
  /\ forall s r Q, good s -> input s c <= 1 ->
       (forall ps s1, reach ps s s1 -> incl ps [InReg 7] -> (if no_carry c then input s c = 0 else carry s1 = Some (input s c)) -> runs r s1 Q) -> runs (is1 ++ r) s Q.
Proof.
  unfold carry_ok. rewrite andb_true_iff, Z.eqb_eq, orb_true_iff, andb_true_iff, Z.ltb_lt. unfold set_carry, no_carry. change (get_temp 0 1) with (Ok (T 7 1)).
  assert (V1 : valid_size 1 = true) by reflexivity. assert (N7 : reg_number 7) by (unfold reg_number; lia).
  assert (C255 : 0 <= 0xff < 2 ^ 64) by lia. intros [E1 [Hc | [Hc Hv]]].
  - assert (Hb : forall s, good s -> 0 <= input s c) by (intros s Hg; apply (input_range s c Hg (or_introl Hc))).
    open_operand c Hc; rewrite E1 in *; lowering_eqs; eexists _, _; (split; [reflexivity |]).
    + split; [apply List.Forall2_cons; [now apply ask_mov_ir | apply List.Forall2_cons; [now eapply ask_alu_rr; [.. | in_list] | apply List.Forall2_nil]] |].
      intros s r Q Hg Hle K. cbn [app]. apply (runs_set_carry s _ (input s c)); [exact Hg | split; [now apply Hb | exact Hle] | | exact K].
      intros s1 A. rewrite (read_place (InReg k)). f_equal. back. now rewrite Own, Pl.
    + split; [apply List.Forall2_cons; [now apply ask_mov_ir | apply List.Forall2_cons; [now eapply ask_alu_mr; [.. | in_list] | apply List.Forall2_nil]] |].
      intros s r Q Hg Hle K. cbn [app]. apply (runs_set_carry s _ (input s c)); [exact Hg | split; [now apply Hb | exact Hle] | | exact K].
      intros s1 A. rewrite (read_place (OnStack d)). f_equal. back. now rewrite Own, Pl.
  - open_constant c Hc. lowering_eqs. assert (E : forall s, input s c = value c) by (intros s; rewrite Own, E1; apply wrap_small; unfold in_range; lia).
    destruct (Z.eqb_spec (value c) 0) as [E0 | E0]; eexists _, _; (split; [reflexivity |]).
    + split; [apply List.Forall2_nil |]. intros s r Q Hg _ K. apply (K [] s); [now apply reach_start | intros ? [] | now rewrite E].
    + split; [apply List.Forall2_cons; [apply asks_plain; in_list | apply List.Forall2_nil] |]. intros s r Q Hg _ K. cbn [app].
      eapply runs_step; [reflexivity |]. apply (K [] _); [| intros ? [] |].
      * split; [split; apply Hg | split; reflexivity | intros []].
      * unfold carry. cbn. f_equal. rewrite E. lia.
Qed.
Definition flags_operand_ok (o : IROperand) : bool := (osize o =? 4) && (placed o || constant_ok o).
Lemma flags_operand_parts o : flags_operand_ok o = true -> osize o = 4 /\ (placed o = true \/ constant_ok o = true).
Proof. unfold flags_operand_ok. now rewrite andb_true_iff, Z.eqb_eq, orb_true_iff. Qed.
Lemma carry_kept s s1 : cy s1 = cy s -> carry s1 = carry s.
Proof. unfold carry. now intros ->. Qed.
(** The left operand in the temporary, the carry flag as it was. *)
Lemma lhs_loaded o : flags_operand_ok o = true -> exists i, (exists c, load_lhs o (T 7 4) = Ok [c] /\ asks c i)
  /\ forall s r Q, good s -> (forall s1, after (InReg 7) 4 (input s o) s s1 -> carry s1 = carry s -> runs r s1 Q) -> runs (i :: r) s Q.
Proof.
  intros Ho. destruct (flags_operand_parts o Ho) as [E4 [Hp | Hp]]; unfold load_lhs; assert (N7 : reg_number 7) by (unfold reg_number; lia); assert (V4 : valid_size 4 = true) by reflexivity.
  - open_operand o Hp; rewrite E4 in *; lowering_eqs; eexists; (split; [eexists; split; [reflexivity |] |]).
    + now apply ask_mov_rr.
    + intros s r Q Hg K. eapply (runs_mov_keep s Hg 4 7 V4); [apply read_place |]. intros s1 A Hc. apply K; [rewrite Own, Pl; exact A | now apply carry_kept].
    + now apply ask_mov_mr.
    + intros s r Q Hg K. eapply (runs_mov_keep s Hg 4 7 V4); [apply read_place |]. intros s1 A Hc. apply K; [rewrite Own, Pl; exact A | now apply carry_kept].
  - open_constant o Hp. lowering_eqs. eexists. split; [eexists; split; [reflexivity | now apply ask_mov_ir] |].
    intros s r Q Hg K. apply (runs_mov_imm_keep s Hg 4 7 V4). intros s1 A Hc. apply K; [| now apply carry_kept]. rewrite Own, E4.
    destruct A as [A1 A2 A3 A4]. split; [exact A1 | rewrite wrap_wrap by lia; exact A2 | exact A3 | intros _; left; destruct (A4 eq_refl) as [-> | [d [=]]]; change (8 * 4) with 32; now rewrite wrap_wrap by lia].
Qed.
Definition carry_method (f : carry_methods) (o : Z) : Prop :=
  In (fst (fst f), o) alu_rr_methods /\ In (snd (fst f), o) alu_mr_methods /\ In (snd f, o) alu_ir_methods.
Lemma rhs_applied f n o : carry_method f n -> n <> 6 -> flags_operand_ok o = true ->
  exists c src, apply_rhs f o (T 7 4) = Ok [c] /\ asks c (IAlu n 4 (opnd_of (InReg 7) 4) src)
    /\ forall s s0 ps, reach ps s0 s -> incl ps temps -> read_opnd 4 src s = Some (input s0 o).
Proof.
  destruct f as [[rr mr] ir]. intros (H1 & H2 & H3) N6 Ho. cbn [fst snd] in *. destruct (flags_operand_parts o Ho) as [E4 Hp].
  assert (N7 : reg_number 7) by (unfold reg_number; lia). assert (V4 : valid_size 4 = true) by reflexivity.
  assert (Hin : placed o = true -> forall s s0 ps, reach ps s0 s -> incl ps temps -> held s (place_of o) 4 = input s0 o).
  { intros Hpl s s0 ps Hr Hi. rewrite (input_placed s0 o Hpl), E4. apply (reach_held ps); [exact Hr | | reflexivity]. apply forallb_forall. intros p Hp'. apply scratch_apart; [apply in_app_iff; left; now apply Hi | now apply placed_own]. }
  unfold apply_rhs. destruct Hp as [Hp | Hp].
  - specialize (Hin Hp). open_operand o Hp; rewrite E4 in *; lowering_eqs; eexists _, _; (split; [reflexivity |]).
    + split; [now apply ask_alu_rr |]. intros s s0 ps Hr Hi. rewrite (read_place (InReg k)), <- Pl. f_equal. exact (Hin s s0 ps Hr Hi).
    + split; [now apply ask_alu_mr |]. intros s s0 ps Hr Hi. rewrite (read_place (OnStack d)), <- Pl. f_equal. exact (Hin s s0 ps Hr Hi).
  - open_constant o Hp. lowering_eqs. eexists _, _. split; [reflexivity |]. split; [apply ask_alu_ir; try assumption; [apply u32_range | intros; contradiction] |].
    intros s s0 ps _ _. rewrite (imm_read 4) by (reflexivity || apply imm_ok_32). now rewrite Own, E4.
Qed.
Definition flags_ok (ctx : X86LoweringContext) (a b c : IROperand) : bool :=
  flags_operand_ok a && flags_operand_ok b && carry_ok c && tag_ok ctx "C" && tag_ok ctx "V" && tag_ok ctx "Z" && tag_ok ctx "N".
(** An operation of two numbers, without and with carry, and its four flags. *)
Lemma lower_flags_correct ctx b0 t a b c without with_carry n m :
  carry_method without n -> carry_method with_carry m -> n = 0 /\ m = 2 \/ n = 5 /\ m = 3 -> flags_ok ctx a b c = true ->
  exists cs is1, lower_flags ctx without with_carry (mkInsn [a; b; c] b0 t) = Ok (map Op cs) /\ Forall2 asks cs is1
    /\ forall s, good s -> input s c <= 1 ->
         let f := snd (alu_result m 32 (input s a) (input s b) (input s c)) in
         runs is1 s (stored (flag_stores ctx s (Z.b2z (f_cf f)) (Z.b2z (f_of f)) (Z.b2z (f_zf f)) (Z.b2z (f_sf f))) s).
Proof.
  intros Hn Hm Hnm. unfold flags_ok. rewrite !andb_true_iff. intros ((((((Ha & Hb) & Hc) & TC) & TV) & TZ) & TN).
  destruct (tag_parts ctx "C" TC) as [EC FC]. destruct (tag_parts ctx "V" TV) as [EV FV]. destruct (tag_parts ctx "Z" TZ) as [EZ FZ]. destruct (tag_parts ctx "N" TN) as [EN FN].
  destruct (carry_set c Hc) as (cc & ic & Ecc & Hcc & Rcc). destruct (lhs_loaded a Ha) as (il & (cl & Ecl & Hcl) & Rcl).
  set (f := if no_carry c then without else with_carry). set (o := if no_carry c then n else m).
  assert (Hf : carry_method f o) by (unfold f, o; now destruct (no_carry c)). assert (No : o <> 6 /\ o <> 7) by (unfold o; destruct (no_carry c), Hnm as [[-> ->] | [-> ->]]; lia).
  destruct (rhs_applied f o b Hf (proj1 No) Hb) as (cr & src & Ecr & Hcr & Rcr).
  set (l := [(2, slot_of ctx "C"); (0, slot_of ctx "V"); (4, slot_of ctx "Z"); (8, slot_of ctx "N")]).
  exists (cc ++ [cl; cr] ++ map (fun x => setcc_m (fst x) (regstate (snd x))) l), (ic ++ [il; IAlu o 4 (opnd_of (InReg 7) 4) src] ++ map set_at l).
  split; [| split].
  - unfold lower_flags. lowering_eqs. change (operand (mkInsn [a; b; c] b0 t) 1) with (@Ok IROperand b). cbn [rbind]. change (get_temp 0 4) with (Ok (T 7 4)). cbn [rbind].
    rewrite Ecc, Ecl. cbn [rbind]. fold (no_carry c). fold f. rewrite Ecr, EC, EV, EZ, EN. cbn [rbind]. reflexivity.
  - apply Forall2_app; [exact Hcc |]. apply Forall2_app; [apply List.Forall2_cons; [exact Hcl |]; apply List.Forall2_cons; [exact Hcr | apply List.Forall2_nil] |]. apply ask_sets. all_sets.
  - intros s Hg Hle. cbv zeta. set (fl0 := snd (alu_result m 32 (input s a) (input s b) (input s c))). apply Rcc; [exact Hg | exact Hle |]. intros ps s1 Hr1 Hi1 Hcarry. cbn [app].
    assert (Ea : forall x, placed x = true \/ constant_ok x = true -> input s1 x = input s x).
    { intros x [Hx | Hx]; [| destruct (constant_parts x Hx) as (_ & _ & _ & _ & _ & H); now rewrite !H]. rewrite !(input_placed _ x Hx).
      apply (reach_held ps); [exact Hr1 | | now apply placed_vreg]. apply forallb_forall. intros p Hp. apply scratch_apart; [specialize (Hi1 p Hp); cbn in *; tauto | now apply placed_own]. }
    apply Rcl; [apply Hr1 |]. intros s2 A2 C2. rewrite (Ea a) in A2 by apply (flags_operand_parts a Ha). pose proof (reach_after _ _ _ _ _ _ _ Hr1 A2 ltac:(discriminate)) as Hr2.
    assert (Hi2 : incl (ps ++ [InReg 7]) temps) by (intros x [Hx | Hx]%in_app_iff; [apply Hi1 in Hx |]; cbn in *; tauto).
    assert (Va : held s2 (InReg 7) 4 = input s a).
    { rewrite (after_held _ _ _ _ _ A2). apply wrap_small. pose proof (input_range s a Hg (proj2 (flags_operand_parts a Ha))) as H. now rewrite (proj1 (flags_operand_parts a Ha)) in H. }
    eapply (runs_alu_flags s2 (reach_good _ _ _ Hr2) 4 7 eq_refl _ _ o src _ (input s c)); [apply No | exact (Rcr s2 s _ Hr2 Hi2) | |].
    + rewrite C2. unfold o in *. destruct (no_carry c), Hnm as [[-> ->] | [-> ->]]; cbn [Z.eqb orb Pos.eqb]; congruence.
    + intros s3 A3 F3 _. pose proof (reach_after _ _ _ _ _ _ _ Hr2 A3 ltac:(discriminate)) as Hr3. rewrite Va in F3.
      assert (Ef : snd (alu_result o (8 * 4) (input s a) (input s b) (input s c)) = fl0).
      { unfold fl0, o. change (8 * 4) with 32. destruct (no_carry c); [| reflexivity]. rewrite Hcarry. destruct Hnm as [[-> ->] | [-> ->]]; reflexivity. }
      rewrite Ef in F3. rewrite <- (app_nil_r (map set_at l)). apply (runs_set_all l s3 fl0); [apply Hr3 | exact F3 |]. intros s4 S4. apply runs_nil.
      apply (stored_after _ s s3 s4 _ Hr3); [intros x [Hx | Hx]%in_app_iff; [now apply Hi2 | cbn in *; tauto] |].
      assert (E5 : forall d, guest_address s3 d = guest_address s d).
      { intros d. apply (guest_address_reached _ s s3 d Hr3). intros [Hx | Hx]%in_app_iff; [apply Hi2 in Hx |]; cbn in Hx; intuition discriminate. }
      unfold flag_stores. rewrite <- !E5. exact S4.
Qed.
Lemma LowerAdcFlags_correct ctx b0 a b c : flags_ok ctx a b c = true -> acts ctx (mkInsn [a; b; c] b0 ADC_WITH_FLAGS) (LowerAdcFlags ctx (mkInsn [a; b; c] b0 ADC_WITH_FLAGS)).
Proof.
  intros H. destruct (lower_flags_correct ctx b0 ADC_WITH_FLAGS a b c (add_rr, add_mr, add_ir) (adc_rr, adc_mr, adc_ir) 0 2) as (cs & is1 & E & Ha & Hr).
  - repeat split; cbn [fst snd]; in_list.
  - repeat split; cbn [fst snd]; in_list.
  - now left.
  - exact H.
  - exists cs, is1. split; [exact E |]. split; [exact Ha |]. intros s Hg Hdef. change (input s c <= 1) in Hdef. specialize (Hr s Hg Hdef). cbv zeta in Hr.
    unfold flags_ok in H. rewrite !andb_true_iff in H. destruct H as ((((((Oa & Ob) & Oc) & _) & _) & _) & _).
    eapply runs_weaken; [exact Hr |]. intros s1 S. unfold performed, ir_stores. cbn [type]. change (op (mkInsn [a; b; c] b0 ADC_WITH_FLAGS) 0) with a.
    change (op (mkInsn [a; b; c] b0 ADC_WITH_FLAGS) 1) with b. change (op (mkInsn [a; b; c] b0 ADC_WITH_FLAGS) 2) with c. cbv zeta.
    destruct (flags_operand_parts a Oa) as [Ea Pa]. destruct (flags_operand_parts b Ob) as [Eb Pb].
    pose proof (input_range s a Hg Pa) as Ra. pose proof (input_range s b Hg Pb) as Rb. rewrite Ea in Ra. rewrite Eb in Rb.
    rewrite genc_adc_flags_sum; [| exact Ra | exact Rb |].
    + match goal with |- context [packed_flags ?N ?Zf ?C ?V] => destruct (unpacked N Zf C V) as (-> & -> & -> & ->) end. exact S.
    + unfold carry_ok in Oc. rewrite andb_true_iff, orb_true_iff, andb_true_iff in Oc. split; [| exact Hdef].
      apply (input_range s c Hg). tauto.
Qed.
Lemma LowerSbcFlags_correct ctx b0 a b c : flags_ok ctx a b c = true -> acts ctx (mkInsn [a; b; c] b0 SBC_WITH_FLAGS) (LowerSbcFlags ctx (mkInsn [a; b; c] b0 SBC_WITH_FLAGS)).
Proof.
  intros H. destruct (lower_flags_correct ctx b0 SBC_WITH_FLAGS a b c (sub_rr, sub_mr, sub_ir) (sbc_rr, sbc_mr, sbc_ir) 5 3) as (cs & is1 & E & Ha & Hr).
  - repeat split; cbn [fst snd]; in_list.
  - repeat split; cbn [fst snd]; in_list.
  - now right.
  - exact H.
  - exists cs, is1. split; [exact E |]. split; [exact Ha |]. intros s Hg Hdef. exact (Hr s Hg Hdef).
Qed.
