(* ===== verification/X86LowerCorrect.v ===== *)
(** * Lowered blocks are correct

    The driver of LoweringContext over a run of instructions that the
    lowerers of arithmetic support: the bytes it adds to the buffer
    disassemble to x86 instructions that carry out the run. *)

From Stdlib Require Import ZArith Lia List Bool.
From stdpp Require Import base numbers list.
From S2P Require Import Prelude BlockIR X86Encoder X86Decode X86Shapes X86Conditions X86Correct X86Machine X86Lower X86LowerFlow X86Steps X86LowerArith X86LowerMul X86LowerGuest.
Import ListNotations.
#[local] Open Scope Z_scope.
#[local] Open Scope gensim_scope.

(** ** Supported instructions *)

Definition two_operands_ok (t : IRInstructionType) (a d : IROperand) : bool :=
  match t with
  | MOV => mov_ok a d
  | ADD | SUB => sum_ok a d
  | AND | OR | XOR => bitwise_ok t a d
  | ZX | SX => extend_ok t a d
  | TRUNC => trunc_ok a d
  | SHL | SHR | SAR | ROR => constant_shift_ok a d || register_shift_ok a d
  | IMUL => imul_ok a d
  | MUL => mul_ok a d
  | UDIV => udiv_ok a d
  | SDIV => quotient_ok a d
  | BSWAP => bswap_ok a d
  | CLZ => clz_ok a d
  | _ => false
  end.
(** A comparison that the branch behind it would repeat stores no result. *)
Definition stores_result (insn : IRInstruction) (rest : list IRInstruction) (d : IROperand) : bool :=
  match rest, should_fuse (insn :: rest) d with _ :: _, Ok f => negb (f && is_equality (type insn)) | _, _ => false end.
(** Those on the guest's registers. *)
Definition guest_ok (ctx : X86LoweringContext) (insn : IRInstruction) (rest : list IRInstruction) : bool :=
  match type insn, operands insn with
  | READ_REG, [o; d] => read_ok o d && read_alone (insn :: rest)
  | WRITE_REG, [v; o] => write_ok v o
  | LDPC, [d] => ldpc_ok ctx d
  | INCPC, [o] => incpc_ok ctx o
  | COUNT, [c; a] => count_ok c a
  | SET_ZN_FLAGS, [v] => zn_ok ctx v
  | ADC_WITH_FLAGS, [a; b; c] | SBC_WITH_FLAGS, [a; b; c] => flags_ok ctx a b c
  | NOP, _ | BARRIER, _ | INTCHECK, _ => true
  | _, _ => false
  end.
Definition arithmetic_ok (insn : IRInstruction) (rest : list IRInstruction) : bool :=
  match operands insn with
  | [a; d] => two_operands_ok (type insn) a d
  | [a; b; d] =>
      if is_comparison (type insn) then compare_ok (type insn) a b d && stores_result insn rest d
      else bool_decide (type insn = CMOV) && cmov_ok a b d
  | _ => false
  end.
Definition supported (ctx : X86LoweringContext) (insn : IRInstruction) (rest : list IRInstruction) : bool :=
  arithmetic_ok insn rest || guest_ok ctx insn rest.

Lemma two_operands_lower b t a d : two_operands_ok t a d = true ->
  exists f, (forall ctx others, Prepare ctx others t = Some (single f)) /\ computes (mkInsn [a; d] b t) (f (mkInsn [a; d] b t)).
Proof.
  intros H. destruct t; try discriminate H; cbn [two_operands_ok] in H; eexists; (split; [reflexivity |]).
  all: first [ apply LowerMov_correct; exact H | apply LowerUDiv_correct; exact H | apply LowerSDiv_correct; exact H
             | apply LowerIMul_correct; exact H | apply LowerUMul_correct; exact H | apply LowerTrunc_correct; exact H
             | apply LowerBSwap_correct; exact H | apply LowerClz_correct; exact H
             | apply LowerAddSub_correct; [unfold is_sum; tauto | exact H] | apply LowerBitwise_correct; [unfold is_bitwise; tauto | exact H]
             | apply LowerExtend_correct; [unfold is_extension; tauto | exact H]
             | apply orb_true_iff in H as [H | H]; [apply LowerShift_constant | apply LowerShift_register]; (unfold is_shift; tauto) || exact H ].
Qed.
Definition lowered_as (ctx : X86LoweringContext) (insn : IRInstruction) (rest : list IRInstruction) (f : lowerer) : Prop :=
  exists cs is1, (forall c prev, f c prev (insn :: rest) = Ok (map Op cs, 1%nat, c)) /\ Forall2 asks cs is1
    /\ forall s, good s -> defined_at insn s -> runs is1 s (performed ctx insn s).
Lemma single_lowered ctx insn rest f : acts ctx insn (f insn) -> lowered_as ctx insn rest (single f).
Proof.
  intros (cs & is1 & E & Ha & Hr). exists cs, is1. split; [| now split]. intros c prev. unfold single, plain.
  change (next_insn (insn :: rest) 0) with (Ok insn). cbn [rbind]. rewrite E. reflexivity.
Qed.
Lemma plain_lowered ctx insn rest f x : f (insn :: rest) = Ok (x, 1%nat) -> acts ctx insn (Ok x) -> lowered_as ctx insn rest (plain f).
Proof.
  intros E (cs & is1 & [= ->] & Ha & Hr). exists cs, is1. split; [| now split]. intros c prev. unfold plain. rewrite E. reflexivity.
Qed.
(** Instructions that only compute a value. *)
Definition only_computes (t : IRInstructionType) : bool :=
  match t with
  | WRITE_REG | INCPC | COUNT | SET_ZN_FLAGS | ADC_WITH_FLAGS | SBC_WITH_FLAGS | NOP | BARRIER | INTCHECK | READ_REG | LDPC => false
  | _ => true
  end.
Lemma computes_acts ctx insn l : only_computes (type insn) = true -> computes insn l -> acts ctx insn l.
Proof.
  intros Ht (cs & is1 & E & Ha & Hr). exists cs, is1. split; [exact E |]. split; [exact Ha |]. intros s Hg Hd.
  assert (Ep : performed ctx insn s = carried_out insn s) by (unfold performed, ir_stores; destruct (type insn); try discriminate Ht; reflexivity).
  rewrite Ep. now apply Hr.
Qed.
Lemma comparison_lowers insn rest a b d : operands insn = [a; b; d] -> is_comparison (type insn) = true -> compare_ok (type insn) a b d = true ->
  stores_result insn rest d = true -> exists f, (forall ctx others, Prepare ctx others (type insn) = Some (plain f)) /\ lowers insn (f (insn :: rest)).
Proof.
  destruct insn as [os blk t]. cbn [operands type]. intros -> Ht Hok Hst. unfold stores_result in Hst. destruct rest as [|nx rest]; [discriminate |].
  destruct (should_fuse _ _) as [f |] eqn:Ef; [| discriminate]. apply negb_true_iff in Hst. cbn [type] in Hst. destruct (is_signed t) eqn:Es.
  - exists LowerCompareSigned. split; [destruct t; try discriminate Es; reflexivity |]. now apply (LowerCompareSigned_correct blk t a b d nx rest f).
  - exists LowerCompare. split; [destruct t; try discriminate Ht; try discriminate Es; reflexivity |]. now apply (LowerCompare_correct blk t a b d nx rest f).
Qed.
Lemma arithmetic_lowers ctx others insn rest : arithmetic_ok insn rest = true ->
  exists f, Prepare ctx others (type insn) = Some f /\ lowered_as ctx insn rest f.
Proof.
  unfold arithmetic_ok. destruct (operands insn) as [| a [| b [| d [|]]]] eqn:Eo; try discriminate.
  - destruct insn as [os blk t]. cbn [operands type] in *. subst os. intros H. destruct (two_operands_lower blk t a b H) as (f & E & Hf).
    exists (single f). split; [apply E |]. apply single_lowered, computes_acts; [| exact Hf]. destruct t; try discriminate H; reflexivity.
  - destruct (is_comparison (type insn)) eqn:Ec; rewrite andb_true_iff; intros [H1 H2].
    + destruct (comparison_lowers insn rest a b d Eo Ec H1 H2) as (f & E & x & Ex & Hf). exists (plain f). split; [apply E |].
      apply (plain_lowered _ _ _ _ x Ex), computes_acts; [| exact Hf]. destruct (type insn); try discriminate Ec; reflexivity.
    + apply bool_decide_eq_true in H1. destruct insn as [os blk t]. cbn [operands type] in *. subst os t.
      exists (single LowerCMov). split; [reflexivity |]. apply single_lowered, computes_acts; [reflexivity |]. now apply LowerCMov_correct.
Qed.
Lemma guest_lowers ctx others insn rest : guest_ok ctx insn rest = true ->
  exists f, Prepare ctx others (type insn) = Some f /\ lowered_as ctx insn rest f.
Proof.
  destruct insn as [os blk t]. unfold guest_ok. cbn [type operands]. intros H.
  destruct t; try discriminate H; (eexists; split; [reflexivity |]); try (apply single_lowered, nothing_correct; tauto); repeat (destruct os as [| ? os]; try discriminate H).
  - apply single_lowered. now apply LowerCount_correct.
  - apply single_lowered. now apply LowerLoadPC_correct.
  - apply single_lowered. now apply LowerIncPC_correct.
  - apply andb_true_iff in H as [H1 H2]. destruct (LowerReadReg_correct ctx blk _ _ rest H1 H2) as (x & E & Hx). exact (plain_lowered _ _ _ _ x E Hx).
  - apply single_lowered. now apply LowerWriteReg_correct.
  - apply single_lowered. now apply LowerAdcFlags_correct.
  - apply single_lowered. now apply LowerSbcFlags_correct.
  - apply single_lowered. now apply LowerZNFlags_correct.
Qed.
Lemma supported_lowers ctx others insn rest : supported ctx insn rest = true ->
  exists f, Prepare ctx others (type insn) = Some f /\ lowered_as ctx insn rest f.
Proof. unfold supported. rewrite orb_true_iff. intros [H | H]; [now apply arithmetic_lowers | now apply guest_lowers]. Qed.

(** ** Runs of instructions *)

Section Runs.
Context (ctx : X86LoweringContext).
(** One instruction after the other: a value in its destination or its writes
    to memory, and nothing else changes but temporaries. *)
Inductive executes : list IRInstruction -> machine -> machine -> Prop :=
| executes_none s : executes [] s s
| executes_one i l s s1 s2 : defined_at i s -> performed ctx i s s1 -> executes l s1 s2 -> executes (i :: l) s s2.
(** An instruction is reached whose operation is not defined there. *)
Definition undefined (l : list IRInstruction) (s : machine) : Prop :=
  exists l1 i l2 s1, l = l1 ++ i :: l2 /\ executes l1 s s1 /\ ~ defined_at i s1.
Lemma defined_at_dec i s : defined_at i s \/ ~ defined_at i s.
Proof.
  unfold defined_at. cbv zeta. set (a := input s (op i 0)). set (b := input s (op i 1)). set (w := 8 * osize (op i 1)).
  destruct (type i); try (left; exact I); destruct (Z.eq_dec a 0); destruct (Z_lt_dec a w); destruct (Z_le_dec (input s (op i 2)) 1); try tauto.
  all: destruct (out_of_range w (Z.quot (sext w b) (sext w a))); intuition congruence.
Qed.
Lemma executes_good l s s1 : good s -> executes l s s1 -> good s1.
Proof. intros Hg H. induction H as [|i l s s1 s2 _ Hp _ IH]; [exact Hg |]. apply IH. exact (performed_good _ _ _ _ Hp). Qed.
Definition implements (is1 : list insn) (l : list IRInstruction) (s : machine) : Prop :=
  runs is1 s (executes l s) \/ undefined l s.
Lemma implements_none s : implements [] [] s.
Proof. left. apply runs_nil. constructor. Qed.
Lemma runs_app l1 l2 s Q : runs l1 s (fun s1 => runs l2 s1 Q) -> runs (l1 ++ l2) s Q.
Proof.
  revert s. induction l1 as [|i l1 IH]; intros s (s1 & E & H); cbn [exec_all app] in *.
  - injection E as ->. exact H.
  - destruct (exec i s) as [s2 |] eqn:Ei; [| discriminate]. destruct (IH s2) as (s3 & E3 & H3); [exists s1; now split |].
    exists s3. cbn [exec_all]. rewrite Ei. now split.
Qed.
Lemma implements_one is1 is2 i l s : good s ->
  (defined_at i s -> runs is1 s (performed ctx i s)) -> (forall s1, good s1 -> implements is2 l s1) -> implements (is1 ++ is2) (i :: l) s.
Proof.
  intros Hg H1 H2. destruct (defined_at_dec i s) as [Hd | Hd].
  2: { right. exists [], i, l, s. split; [reflexivity |]. split; [constructor | exact Hd]. }
  destruct (H1 Hd) as (s1 & E1 & C1). destruct (H2 s1 (performed_good _ _ _ _ C1)) as [(s2 & E2 & C2) | (l1 & j & l2 & s2 & -> & C2 & Hn)].
  - left. apply runs_app. exists s1. split; [exact E1 |]. exists s2. split; [exact E2 |]. now apply (executes_one i l s s1 s2).
  - right. exists (i :: l1), j, l2, s2. split; [reflexivity |]. split; [now apply (executes_one i l1 s s1 s2) | exact Hn].
Qed.
End Runs.

(** ** The driver over a run *)

Fixpoint supported_run (ctx : X86LoweringContext) (block_id : Z) (n : nat) (insns : list IRInstruction) : bool :=
  match n, insns with
  | O, _ => true
  | S k, i :: r => ((ir_block i =? NOP_BLOCK) || (ir_block i =? block_id)) && supported ctx i r && supported_run ctx block_id k r
  | S _, [] => false
  end.
Lemma do_lops_assemble cs s : do_lops (map Op cs) s = let* e := assemble cs (encoder s) in Ok (with_encoder e s).
Proof.
  revert s. induction cs as [|c cs IH]; intros s; cbn [map do_lops assemble do_lop rbind]; [destruct s; reflexivity |].
  destruct c as [es |]; [| reflexivity]. cbn [rbind]. destruct (run es (encoder s)) as [e |]; [| reflexivity]. cbn [rbind]. rewrite IH. reflexivity.
Qed.
Lemma assemble_app a b e : assemble (a ++ b) e = let* e1 := assemble a e in assemble b e1.
Proof.
  revert e. induction a as [|c a IH]; intros e; [reflexivity |]. cbn [app assemble]. destruct c as [es |]; [| reflexivity]. cbn [rbind].
  destruct (run es e); [| reflexivity]. apply IH.
Qed.

Section Driver.
Context (ctx : X86LoweringContext) (others : IRInstructionType -> option lowerer) (insns behind : list IRInstruction) (block_id : Z).
Abbreviation lower_from := (lower_block_from (Prepare ctx others) insns behind).

Lemma lower_supported k at_ i s : insns !! at_ = Some i -> (ir_block i =? NOP_BLOCK) || (ir_block i =? block_id) = true ->
  supported ctx i (drop (S at_) insns ++ behind) = true ->
  exists cs is1, Forall2 asks cs is1 /\ (forall m, good m -> defined_at i m -> runs is1 m (performed ctx i m))
    /\ lower_from (S k) block_id at_ s = let* e := assemble cs (encoder s) in lower_from k block_id (S at_) (with_encoder e s).
Proof.
  intros Ei Hb Hs. destruct (supported_lowers ctx others i _ Hs) as (f & Ef & cs & is1 & El & Ha & Hr). exists cs, is1. split; [exact Ha |]. split; [exact Hr |].
  cbn [lower_block_from]. rewrite Ei, Hb. unfold LowerInstruction. rewrite Ei. cbn [of_option rbind]. rewrite Ef. cbn [of_option rbind].
  rewrite (drop_S insns i at_ Ei). cbn [app]. rewrite El. cbn [rbind]. rewrite do_lops_assemble. destruct (assemble cs (encoder s)) as [e |]; [| reflexivity].
  cbn [rbind Nat.leb]. rewrite Nat.add_1_r. destruct s; reflexivity.
Qed.
Lemma lower_supported_run n k at_ s : supported_run ctx block_id n (drop at_ insns ++ behind) = true -> (at_ + n <= length insns)%nat -> room (encoder s) ->
  exists cs is1, Forall2 asks cs is1 /\ (forall m, good m -> implements ctx is1 (take n (drop at_ insns)) m)
    /\ lower_from (n + k) block_id at_ s = let* e := assemble cs (encoder s) in lower_from k block_id (at_ + n) (with_encoder e s).
Proof.
  revert at_ s. induction n as [|n IH]; intros at_ s Hs Hn Hroom.
  - exists [], []. split; [constructor |]. split; [intros; apply implements_none |]. cbn [assemble rbind]. rewrite Nat.add_0_r. destruct s; reflexivity.
  - destruct (lookup_lt_is_Some_2 insns at_ ltac:(lia)) as [i Ei]. rewrite (drop_S insns i at_ Ei) in Hs |- *. cbn [app supported_run] in Hs.
    rewrite !andb_true_iff in Hs. destruct Hs as ((Hb & Hi) & Hs). destruct (lower_supported (n + k) at_ i s Ei Hb Hi) as (cs1 & is1 & Ha1 & Hr1 & E1).
    destruct (assemble_encodes cs1 is1 (encoder s)) as (e1 & b1 & Ee1 & R1 & _); [eapply Forall2_impl; [exact Ha1 | exact method_encodes] | exact Hroom |].
    destruct (IH (S at_) (with_encoder e1 s)) as (cs2 & is2 & Ha2 & Hr2 & E2); [exact Hs | lia | exact R1 |].
    exists (cs1 ++ cs2), (is1 ++ is2). split; [now apply Forall2_app |]. split.
    + intros m Hm. cbn [take]. apply implements_one; [exact Hm | now apply Hr1 | exact Hr2].
    + change (S n + k)%nat with (S (n + k)). rewrite E1, assemble_app, Ee1. cbn [rbind]. rewrite E2. replace (S at_ + n)%nat with (at_ + S n)%nat by lia. reflexivity.
Qed.
End Driver.

(** LowerBlock on a block that begins with [n] supported instructions -
    arithmetic, comparisons, extensions, shifts, moves, and accesses to the
    register file - never fails in them: it appends bytes to the buffer,
    without a write outside it, and goes on behind them.  The bytes disassemble
    to x86 instructions which, from any state, either carry out each
    instruction in turn - nothing else of the state changes but the
    temporaries - or reach one whose operation is not defined, a division by
    zero or a shift by the width or more. *)
Lemma LowerBlock_implements_run ctx others insns behind block_id start n s :
  supported_run ctx block_id n (drop start insns ++ behind) = true -> (start + n <= length insns)%nat -> room (encoder s) ->
  exists e (bs : list Z) is1,
    LowerBlock (Prepare ctx others) insns behind block_id start s
      = lower_block_from (Prepare ctx others) insns behind (length insns - n) block_id (start + n)
          (with_encoder e (RegisterBlockOffset block_id (_write_offset (encoder s)) s))
    /\ room e /\ _buffer e = _buffer (encoder s) ++ bs /\ disassemble (length bs) bs = Some is1
    /\ forall m, good m -> implements ctx is1 (take n (drop start insns)) m.
Proof.
  intros Hs Hn Hr. unfold LowerBlock. set (s0 := RegisterBlockOffset _ _ s).
  destruct (lower_supported_run ctx others insns behind block_id n (length insns - n) start s0 Hs Hn Hr) as (cs & is1 & Ha & Hi & E).
  destruct (assemble_encodes cs is1 (encoder s0)) as (e & bs & Ee & Re & Be & D); [eapply Forall2_impl; [exact Ha | exact method_encodes] | exact Hr |].
  exists e, bs, is1. replace (length insns) with (n + (length insns - n))%nat at 1 by lia. rewrite E, Ee. cbn [rbind]. repeat split; assumption.
Qed.
