(* ===== verification/X86Relocs.v ===== *)
(** * Jumps between blocks are resolved (lowering/LoweringContext.cpp)

    What the lowerers add to the buffer is a sequence of plain bytes and of
    jumps to blocks, whose distances PerformRelocations fills in at the end.
    Whatever the lowerers are, as long as the places they register are those
    of jumps, each jump then goes to the offset registered for its block. *)

From Stdlib Require Import ZArith Lia List Bool.
From stdpp Require Import base numbers list.
From S2P Require Import Prelude BlockIR X86Encoder X86Decode X86Shapes X86Methods X86Conditions X86Correct X86Lower X86LowerFlow.
Import ListNotations.
#[local] Open Scope Z_scope.
#[local] Open Scope gensim_scope.

(** ** The log of the buffer *)

(** A jump, under a condition or not, to a block. *)
Inductive seg := Plain (bs : list Z) | JumpTo (cc : option Z) (block : Z).
Definition jump_opcode (cc : option Z) : list Z := match cc with None => [0xe9] | Some c => [0x0f; 0x80 + c] end.
Definition seg_bytes (s : seg) : list Z := match s with Plain bs => bs | JumpTo cc _ => jump_opcode cc ++ le_bytes 4 0 end.
Definition log_bytes (l : list seg) : list Z := concat (map seg_bytes l).
Definition len (l : list Z) : Z := Z.of_nat (length l).
Fixpoint relocs_of (at_ : Z) (l : list seg) : list (Z * Z) :=
  match l with
  | [] => []
  | Plain bs :: r => relocs_of (at_ + len bs) r
  | JumpTo cc b :: r => (at_ + len (jump_opcode cc), b) :: relocs_of (at_ + len (jump_opcode cc) + 4) r
  end.
(** The bytes with every distance filled in. *)
Definition offset_of (offsets : list Z) (block : Z) : Z := nth (Z.to_nat block) offsets 0.
Fixpoint resolved (offsets : list Z) (at_ : Z) (l : list seg) : list Z :=
  match l with
  | [] => []
  | Plain bs :: r => bs ++ resolved offsets (at_ + len bs) r
  | JumpTo cc b :: r =>
      jump_opcode cc ++ le_bytes 4 (u32 (offset_of offsets b - (at_ + len (jump_opcode cc)) - 4))
      ++ resolved offsets (at_ + len (jump_opcode cc) + 4) r
  end.
Definition well_jumped (s : seg) : Prop := match s with Plain _ => True | JumpTo cc b => 0 <= b /\ match cc with Some c => 0 <= c < 16 | None => True end end.

Lemma len_app a b : len (a ++ b) = len a + len b.
Proof. unfold len. rewrite length_app. lia. Qed.
Lemma len_nonneg a : 0 <= len a.
Proof. unfold len. lia. Qed.
Lemma log_bytes_app a b : log_bytes (a ++ b) = log_bytes a ++ log_bytes b.
Proof. unfold log_bytes. now rewrite map_app, concat_app. Qed.
Lemma len_seg_jump cc b : len (seg_bytes (JumpTo cc b)) = len (jump_opcode cc) + 4.
Proof. cbn [seg_bytes]. rewrite len_app. unfold len at 2. now rewrite le_bytes_length. Qed.
Lemma relocs_of_app a l1 l2 : relocs_of a (l1 ++ l2) = relocs_of a l1 ++ relocs_of (a + len (log_bytes l1)) l2.
Proof.
  revert a. induction l1 as [|[bs | cc b] l1 IH]; intros a; cbn [app relocs_of].
  - unfold log_bytes, len. cbn. now rewrite Z.add_0_r.
  - rewrite IH. unfold log_bytes. cbn [map concat seg_bytes]. rewrite len_app. f_equal. f_equal. lia.
  - rewrite IH. unfold log_bytes. cbn [map concat]. rewrite len_app, len_seg_jump. cbn [app]. do 3 f_equal. lia.
Qed.
Lemma resolved_length offsets a l : len (resolved offsets a l) = len (log_bytes l).
Proof.
  revert a. induction l as [|[bs | cc b] l IH]; intros a; [reflexivity | |]; unfold log_bytes; cbn [resolved map concat]; rewrite !len_app, IH; fold (log_bytes l).
  - reflexivity.
  - rewrite len_seg_jump. unfold len at 2. rewrite le_bytes_length. lia.
Qed.
Lemma resolved_app offsets a l1 l2 : resolved offsets a (l1 ++ l2) = resolved offsets a l1 ++ resolved offsets (a + len (log_bytes l1)) l2.
Proof.
  revert a. induction l1 as [|[bs | cc b] l1 IH]; intros a; cbn [app resolved].
  - unfold log_bytes, len. cbn. now rewrite Z.add_0_r.
  - rewrite IH, <- app_assoc. unfold log_bytes. cbn [map concat seg_bytes]. rewrite len_app. do 3 f_equal. lia.
  - rewrite IH, <- !app_assoc. unfold log_bytes. cbn [map concat]. rewrite len_app, len_seg_jump. do 4 f_equal. lia.
Qed.

(** ** PerformRelocations *)

Lemma patch_at pre old post v : length old = 4%nat -> patch (len pre) v (pre ++ old ++ post) = Ok (pre ++ le_bytes 4 v ++ post).
Proof.
  intros H. unfold patch. rewrite !length_app, H. unfold len.
  rewrite (proj2 (Z.leb_le 0 _)), (proj2 (Z.leb_le (_ + 4) _)) by lia. cbn [andb]. rewrite Nat2Z.id. do 2 f_equal.
  - now rewrite take_app_length.
  - f_equal. rewrite app_assoc, drop_app_length' by (rewrite length_app; lia). reflexivity.
Qed.
Lemma perform_resolved offsets l : forall pre, Forall (fun r => is_Some (offsets !! Z.to_nat (snd r))) (relocs_of (len pre) l) ->
  perform_relocations offsets (relocs_of (len pre) l) (pre ++ log_bytes l) = Ok (pre ++ resolved offsets (len pre) l).
Proof.
  induction l as [|[bs | cc b] l IH]; intros pre H; unfold log_bytes; cbn [relocs_of perform_relocations resolved map concat] in *.
  - reflexivity.
  - fold (log_bytes l). cbn [seg_bytes]. rewrite <- len_app in *. rewrite !app_assoc. apply IH. exact H.
  - fold (log_bytes l). apply Forall_cons in H as [[off E] H]. cbn [snd] in E. rewrite E. cbn [of_option rbind].
    rewrite <- len_app. cbn [seg_bytes]. rewrite <- !app_assoc, (app_assoc pre). rewrite patch_at by apply le_bytes_length. cbn [rbind].
    assert (Eo : offset_of offsets b = off) by (unfold offset_of; now apply nth_lookup_Some). rewrite Eo.
    set (pre1 := (pre ++ jump_opcode cc) ++ le_bytes 4 (u32 (off - len (pre ++ jump_opcode cc) - 4))).
    assert (Hl : len pre1 = len pre + len (jump_opcode cc) + 4) by (unfold pre1; rewrite !len_app; unfold len at 3; rewrite le_bytes_length; lia).
    specialize (IH pre1). rewrite Hl in IH. specialize (IH H). unfold pre1 in IH. rewrite <- !app_assoc, len_app in IH. rewrite <- !app_assoc, len_app. exact IH.
Qed.

(** ** Jumps *)

Definition jump_insn (cc : option Z) (d : Z) : insn := match cc with None => IJmpRel d | Some c => IJcc c d end.
Lemma jump_decodes cc d rest : match cc with Some c => 0 <= c < 16 | None => True end -> - 2 ^ 31 <= d < 2 ^ 31 ->
  decode (jump_opcode cc ++ le_bytes 4 (u32 d) ++ rest) = Some (jump_insn cc d, rest).
Proof.
  intros Hc Hd. assert (E : parse_disp 4 (le_bytes 4 (u32 d) ++ rest) = Some (d, rest)).
  { rewrite parse_disp_bytes by lia. change (8 * Z.of_nat 4) with 32. unfold u32, wrap. rewrite sext_mod by lia. now rewrite sext_id by (cbn; lia). }
  remember (le_bytes 4 (u32 d) ++ rest) as bs. destruct cc as [c |]; cbn [jump_opcode app jump_insn].
  - assert (D : decode (0x0f :: 0x80 + c :: bs) = with_imm (parse_disp 4 bs) (IJcc c)) by (each_cc Hc; reflexivity). rewrite D, E. reflexivity.
  - change (decode (0xe9 :: bs)) with (with_imm (parse_disp 4 bs) IJmpRel). rewrite E. reflexivity.
Qed.
(** The calls that register a place. *)
Definition jump_call (cc : option Z) : code := match cc with None => jmp_reloc | Some c => jcc_reloc c end.
Definition jump_place (cc : option Z) : Z -> Z := match cc with None => jmp_reloc_offset | Some _ => jcc_reloc_offset end.
Definition jump_lop (l : lop) : Prop :=
  match l with
  | Op _ | Align _ => True
  | Reloc c place _ => exists cc, match cc with Some n => 0 <= n < 16 | None => True end /\ c = jump_call cc /\ place = jump_place cc
  end.
Lemma jump_emits cc : match cc with Some n => 0 <= n < 16 | None => True end -> emits (jump_call cc) (seg_bytes (JumpTo cc 0)).
Proof.
  destruct cc as [c |]; intros Hc; cbn [jump_call seg_bytes jump_opcode app].
  - unfold jcc_reloc. replace (0x80 + c) with (Z.lor 0x80 (Z.land c 0xf)) by (each_cc Hc; reflexivity).
    apply (emits_append _ _ [0x0f]); [apply emits_byte; lia |]. apply (emits_append _ _ [_]); [apply emits_byte; each_cc Hc; vm_compute; split; congruence | apply emits_32].
  - apply (emits_append _ _ [0xe9]); [apply emits_byte; lia | apply emits_32].
Qed.
Lemma jump_place_len cc here : jump_place cc here = here + len (jump_opcode cc).
Proof. destruct cc; reflexivity. Qed.

(** ** The driver *)

Record logged (log : list seg) (s : lowering_state) : Prop := mkLogged {
  logged_bytes : _buffer (encoder s) = log_bytes log;
  logged_relocs : _block_relocations s = relocs_of 0 log;
  logged_room : room (encoder s);
  logged_jumps : Forall well_jumped log;
  logged_offsets : Forall (fun o => 0 <= o <= len (log_bytes log)) (_block_offsets s) }.
Lemma run_appends es e e1 : room e -> run es e = Ok e1 -> room e1 /\ _buffer e1 = _buffer e ++ flatten es.
Proof. intros Hr E. destruct (run_room es e Hr) as (e2 & E2 & R2 & B2). rewrite E in E2. injection E2 as <-. now split. Qed.
Lemma logged_more log s e bs : logged log s -> room e -> _buffer e = _buffer (encoder s) ++ bs -> logged (log ++ [Plain bs]) (with_encoder e s).
Proof.
  intros [B R Ro J O] He Hb. assert (E : log_bytes (log ++ [Plain bs]) = log_bytes log ++ bs) by (rewrite log_bytes_app; unfold log_bytes; cbn; now rewrite app_nil_r).
  split; cbn [with_encoder encoder _block_relocations _block_offsets].
  - now rewrite Hb, B, E.
  - rewrite relocs_of_app, R. cbn. now rewrite app_nil_r.
  - exact He.
  - apply Forall_app. split; [exact J |]. apply List.Forall_cons; [exact I | apply List.Forall_nil].
  - eapply Forall_impl; [exact O |]. intros o Ho. rewrite E, len_app. pose proof (len_nonneg bs). cbv beta in *. lia.
Qed.
Lemma logged_jump log s e cc b : logged log s -> room e -> _buffer e = _buffer (encoder s) ++ seg_bytes (JumpTo cc 0) -> 0 <= b ->
  match cc with Some n => 0 <= n < 16 | None => True end ->
  logged (log ++ [JumpTo cc b]) (RegisterBlockRelocation (jump_place cc (_write_offset (encoder s))) b (with_encoder e s)).
Proof.
  intros [B R Ro J O] He Hb H0 Hc. assert (E : log_bytes (log ++ [JumpTo cc b]) = log_bytes log ++ seg_bytes (JumpTo cc 0)) by (rewrite log_bytes_app; unfold log_bytes; cbn [map concat]; now rewrite app_nil_r).
  split; cbn [RegisterBlockRelocation with_encoder encoder _block_relocations _block_offsets].
  - now rewrite Hb, B, E.
  - rewrite relocs_of_app, R. cbn [relocs_of]. rewrite jump_place_len. unfold _write_offset. rewrite B. reflexivity.
  - exact He.
  - apply Forall_app. split; [exact J |]. apply List.Forall_cons; [split; assumption | apply List.Forall_nil].
  - eapply Forall_impl; [exact O |]. intros o Ho. rewrite E, len_app. pose proof (len_nonneg (seg_bytes (JumpTo cc 0))). cbv beta in *. lia.
Qed.
(** What follows: more of the log, the same offsets. *)
Definition extends (log : list seg) (s s1 : lowering_state) : Prop :=
  exists more, logged (log ++ more) s1 /\ _block_offsets s1 = _block_offsets s.
Lemma do_lop_logged l log s s1 : jump_lop l -> logged log s -> do_lop l s = Ok s1 -> extends log s s1.
Proof.
  intros Hj Hl. pose proof (logged_room _ _ Hl) as Hr. destruct l as [c | c place t | n]; cbn [do_lop].
  - destruct c as [es |]; [| discriminate]. cbn [rbind]. destruct (run es (encoder s)) as [e |] eqn:E; [| discriminate]. intros [= <-].
    destruct (run_appends _ _ _ Hr E) as [He Hb]. exists [Plain (flatten es)]. split; [now apply logged_more | reflexivity].
  - destruct Hj as (cc & Hc & -> & ->). destruct (jump_emits cc Hc) as (es & -> & Hf). cbn [rbind]. destruct (run es (encoder s)) as [e |] eqn:E; [| discriminate]. intros [= <-].
    destruct (run_appends _ _ _ Hr E) as [He Hb]. rewrite Hf in Hb. exists [JumpTo cc (u32 t)]. split; [| reflexivity].
    apply logged_jump; try assumption. apply wrap_range. lia.
  - destruct (align_up n (_write_offset (encoder s))) as [es |]; [| discriminate]. cbn [rbind]. destruct (run es (encoder s)) as [e |] eqn:E; [| discriminate]. intros [= <-].
    destruct (run_appends _ _ _ Hr E) as [He Hb]. exists [Plain (flatten es)]. split; [now apply logged_more | reflexivity].
Qed.
Lemma do_lops_logged l : forall log s s1, Forall jump_lop l -> logged log s -> do_lops l s = Ok s1 -> extends log s s1.
Proof.
  induction l as [|x l IH]; intros log s s1 Hj Hl; cbn [do_lops].
  - intros [= <-]. exists []. rewrite app_nil_r. now split.
  - apply List.Forall_cons_iff in Hj as [Hx Hj]. destruct (do_lop x s) as [s2 |] eqn:E; [| discriminate]. cbn [rbind]. intros E2.
    destruct (do_lop_logged x log s s2 Hx Hl E) as (m1 & L1 & O1). destruct (IH _ _ _ Hj L1 E2) as (m2 & L2 & O2).
    exists (m1 ++ m2). rewrite app_assoc. split; [exact L2 | congruence].
Qed.

Definition standard (f : lowerer) : Prop := forall c prev insns l n c1, f c prev insns = Ok (l, n, c1) -> Forall jump_lop l.
Lemma logged_calls log s c : logged log s -> logged log (with_calls c s).
Proof. intros [B R Ro J O]. split; assumption. Qed.
Lemma logged_block log s block : logged log s -> logged log (RegisterBlockOffset block (_write_offset (encoder s)) s).
Proof.
  intros [B R Ro J O]. split; try assumption. cbn [RegisterBlockOffset _block_offsets]. apply Forall_insert.
  - apply Forall_app. split; [exact O |]. apply Forall_forall. intros x Hx. apply list_elem_of_In, repeat_spec in Hx as ->. pose proof (len_nonneg (log_bytes log)). lia.
  - unfold _write_offset. rewrite B. unfold len. lia.
Qed.
Section Driver.
Context (lowerers : IRInstructionType -> option lowerer) (insns behind : list IRInstruction).
Hypothesis standard_lowerers : forall t f, lowerers t = Some f -> standard f.

Lemma LowerInstruction_logged log at_ s x : logged log s -> LowerInstruction lowerers insns behind at_ s = Ok x -> extends log s (snd x).
Proof.
  intros Hl. unfold LowerInstruction. destruct (insns !! at_) as [insn |]; [| discriminate]. cbn [of_option rbind].
  destruct (lowerers (type insn)) as [f |] eqn:Ef; [| discriminate]. cbn [of_option rbind].
  destruct (f (calls s) _ _) as [((l, n), c) |] eqn:E; [| discriminate]. cbn [rbind].
  destruct (do_lops l s) as [s1 |] eqn:E1; [| discriminate]. cbn [rbind]. destruct (Nat.leb 1 n); [| discriminate]. intros [= <-]. cbn [snd].
  destruct (do_lops_logged l log s s1 (standard_lowerers _ _ Ef _ _ _ _ _ _ E) Hl E1) as (more & L & O). exists more. split; [now apply logged_calls | exact O].
Qed.
Lemma lower_block_logged fuel block : forall log at_ s s1, logged log s -> lower_block_from lowerers insns behind fuel block at_ s = Ok s1 -> extends log s s1.
Proof.
  induction fuel as [|k IH]; intros log at_ s s1 Hl; cbn [lower_block_from]; destruct (insns !! at_) as [i |];
    try (intros [= <-]; exists []; rewrite app_nil_r; now split); destruct (_ || _); try discriminate; try (intros [= <-]; exists []; rewrite app_nil_r; now split).
  destruct (LowerInstruction lowerers insns behind at_ s) as [x |] eqn:E; [| discriminate]. cbn [rbind]. intros E2.
  destruct (LowerInstruction_logged log at_ s x Hl E) as (m1 & L1 & O1). destruct (IH _ _ _ _ L1 E2) as (m2 & L2 & O2).
  exists (m1 ++ m2). rewrite app_assoc. split; [exact L2 | congruence].
Qed.
Lemma lower_body_logged rest : forall log idx block s s1, logged log s -> lower_body_from lowerers insns behind rest idx block s = Ok s1 ->
  exists more, logged (log ++ more) s1.
Proof.
  induction rest as [|i rest IH]; intros log idx block s s1 Hl; cbn [lower_body_from].
  - intros [= <-]. exists []. now rewrite app_nil_r.
  - destruct (_ || _); [now apply IH |]. unfold LowerBlock. destruct (lower_block_from _ _ _ _ _ _ _) as [s2 |] eqn:E; [| discriminate]. cbn [rbind]. intros E2.
    destruct (lower_block_logged _ _ log _ _ s2 (logged_block _ _ _ Hl) E) as (m1 & L1 & _). destruct (IH _ _ _ _ _ L1 E2) as (m2 & L2).
    exists (m1 ++ m2). now rewrite app_assoc.
Qed.
End Driver.

(** ** The lowerers *)

Lemma map_Op_standard cs : Forall jump_lop (map Op cs).
Proof. apply Forall_forall. intros x Hx. apply list_elem_of_fmap in Hx as (c & -> & _). exact I. Qed.
Lemma ops_standard cs l : ops cs = Ok l -> Forall jump_lop l.
Proof. intros [= <-]. apply map_Op_standard. Qed.
(** Every path of a lowerer, from its result. *)
Ltac each_path :=
  repeat match goal with
  | H : Err _ = Ok _ |- _ => discriminate H
  | H : rbind (ops _) _ = Ok _ |- _ => unfold ops in H; cbn [rbind] in H
  | H : rbind (Ok _) _ = Ok _ |- _ => cbn [rbind] in H
  | H : rbind ?x _ = Ok _ |- _ => destruct x; cbn [rbind] in H; [| discriminate H]
  | H : ops _ = Ok _ |- _ => exact (ops_standard _ _ H)
  | H : Ok _ = Ok _ |- _ => injection H; clear H; intros; subst
  | H : (if ?b then _ else _) = Ok _ |- _ => destruct b
  | H : match ?x with _ => _ end = Ok _ |- _ => destruct x
  end.
Definition plain_lops (f : IRInstruction -> lops) : Prop := forall i l, f i = Ok l -> Forall jump_lop l.
Lemma single_standard f : plain_lops f -> standard (single f).
Proof.
  intros Hf c prev insns l n c1. unfold single, plain. destruct (next_insn insns 0) as [i |]; [| discriminate]. cbn [rbind]. unfold one.
  destruct (f i) as [x |] eqn:E; [| discriminate]. cbn [rbind]. intros [= <- <- <-]. exact (Hf i x E).
Qed.
Ltac plain_now f :=
  intros i l H; unfold f in H; unfold mov_constant_to_stack, zx_4_8, sx_4_8, lower_flags in H; each_path;
  unfold mov_constant_to_stack, zx_4_8, sx_4_8 in *; each_path.
Lemma NOPLower_plain : plain_lops NOPLower. Proof. plain_now NOPLower. Qed.
Lemma LowerMov_plain : plain_lops LowerMov. Proof. plain_now LowerMov. Qed.
Lemma LowerAddSub_plain : plain_lops LowerAddSub. Proof. plain_now LowerAddSub. Qed.
Lemma LowerBitwise_plain : plain_lops LowerBitwise. Proof. plain_now LowerBitwise. Qed.
Lemma LowerTrunc_plain : plain_lops LowerTrunc. Proof. plain_now LowerTrunc. Qed.
Lemma LowerExtend_plain : plain_lops LowerExtend. Proof. plain_now LowerExtend. Qed.
Lemma LowerCMov_plain : plain_lops LowerCMov. Proof. plain_now LowerCMov. Qed.
Lemma LowerIMul_plain : plain_lops LowerIMul. Proof. plain_now LowerIMul. Qed.
Lemma LowerUMul_plain : plain_lops LowerUMul. Proof. plain_now LowerUMul. Qed.
Lemma LowerUDiv_plain : plain_lops LowerUDiv. Proof. plain_now LowerUDiv. Qed.
Lemma LowerSDiv_plain : plain_lops LowerSDiv. Proof. plain_now LowerSDiv. Qed.
Lemma LowerMod_plain : plain_lops LowerMod. Proof. plain_now LowerMod. Qed.
Lemma LowerBSwap_plain : plain_lops LowerBSwap. Proof. plain_now LowerBSwap. Qed.
Lemma LowerClz_plain : plain_lops LowerClz. Proof. plain_now LowerClz. Qed.
Lemma LowerShift_plain : plain_lops LowerShift. Proof. plain_now LowerShift. Qed.
Lemma LowerWriteReg_plain : plain_lops LowerWriteReg. Proof. plain_now LowerWriteReg. Qed.
Lemma LowerTrap_plain : plain_lops LowerTrap. Proof. plain_now LowerTrap. Qed.
Lemma LowerCount_plain : plain_lops LowerCount. Proof. plain_now LowerCount. Qed.
Lemma LowerRet_plain ctx : plain_lops (LowerRet ctx). Proof. plain_now LowerRet. Qed.
Lemma LowerScm_plain ctx : plain_lops (LowerScm ctx). Proof. plain_now LowerScm. Qed.
Lemma LowerZNFlags_plain ctx : plain_lops (LowerZNFlags ctx). Proof. plain_now LowerZNFlags. Qed.
Lemma LowerAdcFlags_plain ctx : plain_lops (LowerAdcFlags ctx). Proof. plain_now LowerAdcFlags. Qed.
Lemma LowerSbcFlags_plain ctx : plain_lops (LowerSbcFlags ctx). Proof. plain_now LowerSbcFlags. Qed.
Lemma LowerLoadPC_plain ctx : plain_lops (LowerLoadPC ctx). Proof. plain_now LowerLoadPC. Qed.
Lemma LowerIncPC_plain ctx : plain_lops (LowerIncPC ctx). Proof. plain_now LowerIncPC. Qed.
#[local] Hint Resolve NOPLower_plain LowerMov_plain LowerAddSub_plain LowerBitwise_plain LowerTrunc_plain LowerExtend_plain LowerCMov_plain
  LowerIMul_plain LowerUMul_plain LowerUDiv_plain LowerSDiv_plain LowerMod_plain LowerBSwap_plain LowerClz_plain LowerShift_plain LowerWriteReg_plain
  LowerTrap_plain LowerCount_plain LowerRet_plain LowerScm_plain LowerZNFlags_plain LowerAdcFlags_plain LowerSbcFlags_plain LowerLoadPC_plain LowerIncPC_plain : core.

Ltac jumps_now :=
  repeat first
    [ apply map_Op_standard
    | apply Forall_app; split
    | apply List.Forall_nil
    | apply List.Forall_cons; [first [exact I | exists None; repeat split; reflexivity | exists (Some 4); repeat split; (reflexivity || lia) | exists (Some 5); repeat split; (reflexivity || lia)] |]
    | match goal with |- context [if ?b then _ else _] => destruct b end ].
Lemma plain_standard f : (forall insns l n, f insns = Ok (l, n) -> Forall jump_lop l) -> standard (plain f).
Proof.
  intros Hf c prev insns l n c1. unfold plain. destruct (f insns) as [[x k] |] eqn:E; [| discriminate]. cbn [rbind]. intros [= <- <- <-]. exact (Hf _ _ _ E).
Qed.
Lemma fused_branch_standard t br nx l : fused_branch t br nx = Ok l -> Forall jump_lop l.
Proof. unfold fused_branch. intros H. each_path; jumps_now. Qed.
Lemma LowerJmp_standard : standard (plain LowerJmp).
Proof. apply plain_standard. intros insns l n H. unfold LowerJmp, one in H. each_path; jumps_now. Qed.
Lemma LowerBranch_standard : standard (plain LowerBranch).
Proof. apply plain_standard. intros insns l n H. unfold LowerBranch, one in H. each_path; jumps_now. Qed.
Lemma one_inv x l n : one x = Ok (l, n) -> x = Ok l.
Proof. unfold one. destruct x; [| discriminate]. cbn [rbind]. now intros [= <- _]. Qed.
Lemma read_register_plain : plain_lops read_register.
Proof. intros i l H. unfold read_register, read_slot in H. each_path. Qed.
Lemma LowerReadReg_standard : standard (plain LowerReadReg).
Proof.
  apply plain_standard. intros insns l n H. unfold LowerReadReg in H. each_path; try apply map_Op_standard. apply one_inv in H. exact (read_register_plain _ _ H).
Qed.
Lemma LowerCompare_standard : standard (plain LowerCompare).
Proof.
  apply plain_standard. intros insns l n H. unfold LowerCompare in H.
  repeat match goal with H : rbind ?x _ = Ok _ |- _ => destruct x eqn:?; cbn [rbind] in H; [| discriminate H] end. injection H as <- _.
  apply Forall_app. split; [apply map_Op_standard |]. apply Forall_app. split; [| apply map_Op_standard].
  match goal with E : (if ?b then _ else _) = Ok ?br |- Forall _ ?br =>
    destruct b; [| injection E as <-; apply List.Forall_nil];
    repeat match type of E with rbind ?x _ = _ => destruct x; cbn [rbind] in E; [| discriminate E] end; exact (fused_branch_standard _ _ _ _ E)
  end.
Qed.
Lemma LowerCompareSigned_standard : standard (plain LowerCompareSigned).
Proof. apply plain_standard. intros insns l n H. unfold LowerCompareSigned, one in H. each_path; apply map_Op_standard. Qed.
Section Calls.
Context (ctx : X86LoweringContext).
Lemma LowerCall_standard : standard (LowerCall ctx).
Proof. intros c prev insns l n c1 H. unfold LowerCall in H. each_path; apply map_Op_standard. Qed.
Lemma call_with_two_standard name insn l n c : call_with_two ctx name insn = Ok (l, n, c) -> Forall jump_lop l.
Proof. intros H. unfold call_with_two in H. each_path; apply map_Op_standard. Qed.
Lemma LowerTakeException_standard : standard (LowerTakeException ctx).
Proof. intros c prev insns l n c1 H. unfold LowerTakeException in H. destruct (next_insn insns 0); [| discriminate]. exact (call_with_two_standard _ _ _ _ _ H). Qed.
Lemma LowerSetCpuFeature_standard : standard (LowerSetCpuFeature ctx).
Proof. intros c prev insns l n c1 H. unfold LowerSetCpuFeature in H. destruct (next_insn insns 0); [| discriminate]. exact (call_with_two_standard _ _ _ _ _ H). Qed.
Lemma LowerReadDevice_standard : standard (LowerReadDevice ctx).
Proof. intros c prev insns l n c1 H. unfold LowerReadDevice in H. each_path; do 3 (apply List.Forall_cons; [exact I |]); apply map_Op_standard. Qed.
Lemma LowerWriteDevice_standard : standard (LowerWriteDevice ctx).
Proof. intros c prev insns l n c1 H. unfold LowerWriteDevice in H. each_path; apply map_Op_standard. Qed.
Lemma LowerProbeDevice_standard : standard (LowerProbeDevice ctx).
Proof. intros c prev insns l n c1 H. unfold LowerProbeDevice, load_null_state_field in H. each_path. Qed.
Lemma Prepare_standard others : (forall t f, others t = Some f -> standard f) -> forall t f, Prepare ctx others t = Some f -> standard f.
Proof.
  intros Ho t f. destruct t; cbn [Prepare]; intros E; try discriminate E; try exact (Ho _ _ E); injection E as <-;
    try (apply single_standard; auto; fail);
    auto using LowerReadReg_standard, LowerCompare_standard, LowerCompareSigned_standard, LowerCall_standard, LowerTakeException_standard, LowerSetCpuFeature_standard,
      LowerReadDevice_standard, LowerWriteDevice_standard, LowerProbeDevice_standard, LowerJmp_standard, LowerBranch_standard.
  all: try (intros c prev insns l n c1 H; discriminate H).
Qed.
End Calls.

(** ** The relocations *)

Lemma relocs_jumps offsets l : forall at_ place block, In (place, block) (relocs_of at_ l) ->
  exists l1 cc l2, l = l1 ++ JumpTo cc block :: l2 /\ place = at_ + len (log_bytes l1) + len (jump_opcode cc)
    /\ resolved offsets at_ l = resolved offsets at_ l1 ++ jump_opcode cc ++ le_bytes 4 (u32 (offset_of offsets block - place - 4)) ++ resolved offsets (place + 4) l2.
Proof.
  induction l as [|[bs | cc b] l IH]; intros at_ place block H; cbn [relocs_of] in H; [destruct H | |].
  - destruct (IH _ _ _ H) as (l1 & cc & l2 & -> & -> & E). exists (Plain bs :: l1), cc, l2. split; [reflexivity |].
    unfold log_bytes in *. cbn [map concat seg_bytes] in *. rewrite len_app. split; [lia |]. cbn [resolved]. rewrite E, <- app_assoc. reflexivity.
  - destruct H as [[= <- <-] | H].
    + exists [], cc, l. split; [reflexivity |]. unfold log_bytes. cbn [map concat resolved app]. change (len []) with 0. rewrite Z.add_0_r. split; reflexivity.
    + destruct (IH _ _ _ H) as (l1 & cc1 & l2 & -> & -> & E). exists (JumpTo cc b :: l1), cc1, l2. split; [reflexivity |].
      unfold log_bytes in *. cbn [map concat] in *. rewrite len_app, len_seg_jump. split; [lia |]. cbn [resolved app]. rewrite E, <- !app_assoc. reflexivity.
Qed.
Lemma new_logged : logged [] new_lowering.
Proof. split; try reflexivity; [unfold room, new_lowering, new_encoder, _write_offset; cbn; lia | apply List.Forall_nil | apply List.Forall_nil]. Qed.
Lemma lowered_log ctx others insns behind s0 s1 header : (forall t f, others t = Some f -> standard f) ->
  do_lops (map Op header) new_lowering = Ok s0 -> LowerBody (Prepare ctx others) insns behind s0 = Ok s1 -> exists log, logged log s1.
Proof.
  intros Ho E0 E1. destruct (do_lops_logged _ [] _ _ (map_Op_standard header) new_logged E0) as (m0 & L0 & _).
  destruct (lower_body_logged (Prepare ctx others) insns behind (Prepare_standard ctx others Ho) _ _ _ _ _ _ L0 E1) as (m1 & L1). eauto.
Qed.
Lemma perform_offsets offsets relocs bs b1 : perform_relocations offsets relocs bs = Ok b1 -> Forall (fun r => is_Some (offsets !! Z.to_nat (snd r))) relocs.
Proof.
  revert bs. induction relocs as [|[p b] r IH]; intros bs; cbn [perform_relocations]; [intros; apply List.Forall_nil |].
  destruct (offsets !! Z.to_nat b) as [o |] eqn:E; [| discriminate]. cbn [of_option rbind]. destruct (patch _ _ _); [| discriminate]. cbn [rbind]. intros H.
  apply List.Forall_cons; [cbn [snd]; rewrite E; eauto | exact (IH _ H)].
Qed.
(** What PerformRelocations leaves. *)
Lemma PerformRelocations_resolved log s s1 : logged log s -> PerformRelocations s = Ok s1 ->
  _buffer (encoder s1) = resolved (_block_offsets s) 0 log /\ _block_offsets s1 = _block_offsets s /\ _block_relocations s1 = _block_relocations s
  /\ Forall (fun r => is_Some (_block_offsets s !! Z.to_nat (snd r))) (_block_relocations s).
Proof.
  intros [B R _ _ _]. unfold PerformRelocations. destruct (perform_relocations _ _ _) as [bs |] eqn:E; [| discriminate]. cbn [rbind]. intros [= <-].
  cbn [with_encoder encoder _buffer _block_offsets _block_relocations]. pose proof (perform_offsets _ _ _ _ E) as Hf. rewrite R, B in E.
  pose proof (perform_resolved (_block_offsets s) log []) as P. cbn [app] in P. change (len []) with 0 in P. rewrite R in Hf. rewrite (P Hf) in E. injection E as <-. rewrite R. auto.
Qed.
(** C15. Whatever is lowered - every instruction the table
    knows, with lowerers of floating point, vectors and memory that register
    places only for the jumps they emit - when lowering succeeds, at each
    place registered for a block the buffer holds a jump, and it goes to the
    offset registered for the block. *)
Theorem relocations_resolved ctx others insns behind s place block :
  (forall t f, others t = Some f -> standard f) -> Lower ctx others insns behind = Ok s -> _write_offset (encoder s) < 2 ^ 31 ->
  In (place, block) (_block_relocations s) ->
  exists off k i d rest, _block_offsets s !! Z.to_nat block = Some off /\ (k = 1 \/ k = 2)
    /\ decode (drop (Z.to_nat (place - k)) (_buffer (encoder s))) = Some (i, rest) /\ rest = drop (Z.to_nat (place + 4)) (_buffer (encoder s))
    /\ (i = IJmpRel d \/ exists cc, i = IJcc cc d) /\ place + 4 + d = off.
Proof.
  intros Ho H Hlen Hin. unfold Lower in H. destruct (LowerHeader ctx) as [header |]; [| discriminate]. cbn [rbind] in H.
  destruct (do_lops (map Op header) new_lowering) as [s0 |] eqn:E0; [| discriminate]. cbn [rbind] in H.
  destruct (LowerBody _ insns behind s0) as [s1 |] eqn:E1; [| discriminate]. cbn [rbind] in H.
  destruct (lowered_log ctx others insns behind s0 s1 header Ho E0 E1) as (log & L). destruct (PerformRelocations_resolved log s1 s L H) as (Eb & Eo & Er & Hf).
  rewrite Er in Hin. rewrite Forall_forall in Hf. destruct (Hf _ (proj2 (list_elem_of_In _ _) Hin)) as [off Eoff]. cbn [snd] in Eoff.
  assert (Hoff : offset_of (_block_offsets s1) block = off) by (unfold offset_of; now apply nth_lookup_Some).
  rewrite (logged_relocs _ _ L) in Hin. destruct (relocs_jumps (_block_offsets s1) log 0 place block Hin) as (l1 & cc & l2 & El & Ep & E). rewrite Hoff in E.
  pose proof (logged_offsets _ _ L) as Of. rewrite Forall_forall in Of. specialize (Of off (list_elem_of_lookup_2 _ _ _ Eoff)). cbv beta in Of.
  assert (Hl : len (log_bytes log) < 2 ^ 31) by (rewrite <- (resolved_length (_block_offsets s1) 0), <- Eb; exact Hlen).
  pose proof (logged_jumps _ _ L) as J. rewrite El in J. apply Forall_app in J as [_ J]. apply List.Forall_cons_iff in J as [[_ Jc] _].
  assert (Hp : 0 <= place /\ place + 4 <= len (log_bytes log)).
  { rewrite El, log_bytes_app, len_app. unfold log_bytes at 2. cbn [map concat]. rewrite len_app, len_seg_jump. fold (log_bytes l2).
    pose proof (len_nonneg (log_bytes l1)). pose proof (len_nonneg (log_bytes l2)). pose proof (len_nonneg (jump_opcode cc)). lia. }
  assert (Hk : len (jump_opcode cc) = 1 \/ len (jump_opcode cc) = 2) by (destruct cc; [right | left]; reflexivity).
  exists off, (len (jump_opcode cc)), (jump_insn cc (off - place - 4)), (off - place - 4), (drop (Z.to_nat (place + 4)) (_buffer (encoder s))).
  rewrite Eo. split; [exact Eoff |]. split; [exact Hk |].
  assert (L1 : length (resolved (_block_offsets s1) 0 l1) = Z.to_nat (place - len (jump_opcode cc))).
  { pose proof (resolved_length (_block_offsets s1) 0 l1) as Hr. unfold len in Hr |- *. unfold len in Ep. lia. }
  split; [| split; [reflexivity | split; [destruct cc; cbn [jump_insn]; eauto | lia]]].
  rewrite Eb, E, drop_app_length' by lia. rewrite (drop_app_ge _ _ (Z.to_nat (place + 4))). 2: lia. rewrite app_assoc.
  rewrite (drop_app_length' (jump_opcode cc ++ _)) by (rewrite length_app, le_bytes_length, L1; unfold len in *; lia). rewrite <- app_assoc.
  apply jump_decodes; [exact Jc | lia].
Qed.
(** A loop that counts down from ten. *)
Definition sample_register (id reg sz : Z) : IROperand := allocate ALLOCATED_REG reg (vreg id sz).
Definition sample_loop : list IRInstruction :=
  let x := sample_register 0 1 4 in
  let z := sample_register 1 2 1 in
  [mkInsn [const32 10; x] 0 MOV; mkInsn [block_op 1] 0 JMP;
   mkInsn [const32 1; x] 1 SUB; mkInsn [x; const32 0; z] 1 CMPNE; mkInsn [z; block_op 1; block_op 2] 1 BRANCH;
   mkInsn [] 2 RET].
Definition sample_context : X86LoweringContext := mkX86 [false; true; true] 0 (fun _ => None) (fun _ => None) (fun _ => 0).
Definition lowered_sample : lowering_state :=
  match Lower sample_context (fun _ => None) sample_loop [mkInsn [] 3 NOP] with Ok s => s | Err _ => new_lowering end.
Lemma relocations_resolved_witness :
  exists off k i d rest, _block_offsets lowered_sample !! Z.to_nat 1 = Some off /\ (k = 1 \/ k = 2)
    /\ decode (drop (Z.to_nat (28 - k)) (_buffer (encoder lowered_sample))) = Some (i, rest) /\ rest = drop (Z.to_nat (28 + 4)) (_buffer (encoder lowered_sample))
    /\ (i = IJmpRel d \/ exists cc, i = IJcc cc d) /\ 28 + 4 + d = off.
Proof. apply (relocations_resolved sample_context (fun _ => None) sample_loop [mkInsn [] 3 NOP] lowered_sample 28 1); [intros t f H; discriminate H | vm_compute; reflexivity | vm_compute; reflexivity | vm_compute; tauto]. Defined.
