(* ===== verification/X86Blocks.v ===== *)
(** * Blocks of the lowered function, executed

    The bytes of a block, as LowerBlock leaves them and with their jumps
    resolved, in a function: from the block's offset they run its
    instructions and go on at the block that its last instruction chooses. *)

From Stdlib Require Import ZArith Lia List Bool.
From stdpp Require Import base numbers list.
From S2P Require Import Prelude BlockIR X86Encoder X86Decode X86Shapes X86Methods X86Conditions X86Correct X86Machine X86Lower X86LowerFlow X86Steps X86LowerArith X86LowerMul X86LowerGuest X86LowerCorrect X86Relocs.
Import ListNotations.
#[local] Open Scope Z_scope.
#[local] Open Scope gensim_scope.

(** ** Executing code *)

(** One instruction at [pc]; a return has no next state here. *)
Definition code_step (code : list Z) (pc : Z) (m : machine) : option (Z * machine) :=
  match decode (drop (Z.to_nat pc) code) with
  | Some (i, r) =>
      let next := len code - len r in
      match i with
      | IJmpRel d => Some (next + d, m)
      | IJcc cc d => match fl m with Some f => Some (if holds cc f then next + d else next, m) | None => None end
      | _ => match exec i m with Some m1 => Some (next, m1) | None => None end
      end
  | None => None
  end.
Inductive steps (code : list Z) : Z -> machine -> Z -> machine -> Prop :=
| steps_none pc m : steps code pc m pc m
| steps_one pc m pc1 m1 pc2 m2 : code_step code pc m = Some (pc1, m1) -> steps code pc1 m1 pc2 m2 -> steps code pc m pc2 m2.
Lemma steps_trans code pc m pc1 m1 pc2 m2 : steps code pc m pc1 m1 -> steps code pc1 m1 pc2 m2 -> steps code pc m pc2 m2.
Proof. induction 1; eauto using steps_one. Qed.

(** The bytes of each instruction, whatever follows them. *)
Definition parts_of (parts : list (list Z)) (is1 : list insn) : Prop := Forall2 (fun b i => forall r : list Z, decode (b ++ r) = Some (i, r)) parts is1.
Lemma assemble_parts cs is1 e : Forall2 asks cs is1 -> room e ->
  exists e1 parts, assemble cs e = Ok e1 /\ room e1 /\ _buffer e1 = _buffer e ++ concat parts /\ parts_of parts is1.
Proof.
  intros H. revert e. induction H as [|c i cs is1 Hc _ IH]; intros e He.
  - exists e, []. cbn [assemble concat]. rewrite app_nil_r. repeat split; try assumption. constructor.
  - destruct (method_encodes c i Hc) as (b1 & (es & -> & <-) & Hd). cbn [assemble rbind].
    destruct (run_room es e He) as (e1 & -> & H1 & E1). cbn [rbind]. destruct (IH e1 H1) as (e2 & parts & -> & H2 & E2 & D2).
    exists e2, (flatten es :: parts). cbn [concat]. rewrite E2, E1, <- app_assoc. repeat split; try assumption. now constructor.
Qed.
Lemma drop_len (pre post : list Z) : drop (Z.to_nat (len pre)) (pre ++ post) = post.
Proof. unfold len. rewrite Nat2Z.id. now rewrite drop_app_length. Qed.
Lemma step_exec pre b post i m m1 : (forall r : list Z, decode (b ++ r) = Some (i, r)) -> exec i m = Some m1 ->
  code_step (pre ++ b ++ post) (len pre) m = Some (len pre + len b, m1).
Proof.
  intros Hd E. unfold code_step. rewrite drop_len, Hd. replace (len (pre ++ b ++ post) - len post) with (len pre + len b) by (rewrite !len_app; lia).
  destruct i; try discriminate E; rewrite E; reflexivity.
Qed.
Lemma steps_parts parts is1 : parts_of parts is1 -> forall pre post m m1, exec_all is1 m = Some m1 ->
  steps (pre ++ concat parts ++ post) (len pre) m (len pre + len (concat parts)) m1.
Proof.
  induction 1 as [|b i parts is1 Hd _ IH]; intros pre post m m1 E; cbn [exec_all concat] in *.
  - injection E as ->. unfold len at 3. cbn. rewrite Z.add_0_r. constructor.
  - destruct (exec i m) as [m2 |] eqn:Ei; [| discriminate]. eapply steps_one; [rewrite <- app_assoc; exact (step_exec pre b _ i m m2 Hd Ei) |].
    specialize (IH (pre ++ b) post m2 m1 E). rewrite !len_app, <- !app_assoc in *. rewrite Z.add_assoc. exact IH.
Qed.
(** A jump whose distance is filled in. *)
Section Jumps.
Context (offsets : list Z) (pre post : list Z) (cc : option Z) (b : Z).
Let place := len pre + len (jump_opcode cc).
Let code := pre ++ jump_opcode cc ++ le_bytes 4 (u32 (offset_of offsets b - place - 4)) ++ post.
Context (Hc : match cc with Some c => 0 <= c < 16 | None => True end) (Hr : - 2 ^ 31 <= offset_of offsets b - place - 4 < 2 ^ 31).
Lemma jump_next : len code - len post = place + 4.
Proof. unfold code, place. rewrite !len_app. unfold len at 3. rewrite le_bytes_length. lia. Qed.
Lemma jump_fetched : decode (drop (Z.to_nat (len pre)) code) = Some (jump_insn cc (offset_of offsets b - place - 4), post).
Proof. unfold code. rewrite drop_len. now apply jump_decodes. Qed.
Lemma jump_taken m : match cc with Some c => exists f, fl m = Some f /\ holds c f = true | None => True end -> code_step code (len pre) m = Some (offset_of offsets b, m).
Proof.
  intros Ht. unfold code_step. rewrite jump_fetched, jump_next. destruct cc as [c |]; cbn [jump_insn].
  - destruct Ht as (f & -> & ->). do 2 f_equal. lia.
  - do 2 f_equal. lia.
Qed.
Lemma jump_not_taken c m f : cc = Some c -> fl m = Some f -> holds c f = false -> code_step code (len pre) m = Some (place + 4, m).
Proof. intros Ec Ef Hf. unfold code_step. rewrite jump_fetched, jump_next. rewrite Ec. cbn [jump_insn]. now rewrite Ef, Hf. Qed.
End Jumps.

(** ** Items: what a block is made of *)

(** Instructions, a jump under a condition or not, a return, or padding. *)
Inductive item := IOps (is1 : list insn) | IJump (cc : option Z) (block : Z) | IReturn | IPad.
Definition cc_ok (cc : option Z) : Prop := match cc with Some c => 0 <= c < 16 | None => True end.
Inductive lops_as : list lop -> list item -> Prop :=
| lops_none : lops_as [] []
| lops_ops cs is1 l its : Forall2 asks cs is1 -> lops_as l its -> lops_as (map Op cs ++ l) (IOps is1 :: its)
| lops_jump cc b l its : cc_ok cc -> lops_as l its -> lops_as (Reloc (jump_call cc) (jump_place cc) b :: l) (IJump cc (u32 b) :: its)
| lops_return l its : lops_as l its -> lops_as (Op ret :: l) (IReturn :: its)
| lops_pad l its : lops_as l its -> lops_as (Align 8 :: l) (IPad :: its).
Inductive seg_as : seg -> item -> Prop :=
| seg_ops parts is1 : parts_of parts is1 -> seg_as (Plain (concat parts)) (IOps is1)
| seg_jump cc b : seg_as (JumpTo cc b) (IJump cc b)
| seg_return b : (forall r : list Z, decode (b ++ r) = Some (IRet, r)) -> seg_as (Plain b) IReturn
| seg_pad bs : seg_as (Plain bs) IPad.

(** From a state: where it goes on, and in which state. *)
Inductive outcome := Goes (block : Z) | Falls | Returns.
Fixpoint flow (its : list item) (m : machine) (Q : outcome -> machine -> Prop) : Prop :=
  match its with
  | [] => Q Falls m
  | IOps is1 :: r => runs is1 m (fun m1 => flow r m1 Q)
  | IJump None b :: r => Q (Goes b) m
  | IJump (Some c) b :: r => exists f, fl m = Some f /\ if holds c f then Q (Goes b) m else flow r m Q
  | IReturn :: r => Q Returns m
  | IPad :: r => False
  end.
Lemma flow_weaken its : forall m (Q R : outcome -> machine -> Prop), flow its m Q -> (forall o m1, Q o m1 -> R o m1) -> flow its m R.
Proof.
  induction its as [|[is1 | [c |] b | |] its IH]; intros m Q R H HR; cbn [flow] in *; auto.
  - eapply runs_weaken; [exact H |]. intros m1 H1. now apply (IH m1 Q).
  - destruct H as (f & Ef & H). exists f. split; [exact Ef |]. destruct (holds c f); [auto | now apply (IH m Q)].
Qed.
(** Every jump goes to where a distance of 32 bits can reach. *)
Definition reachable (offsets : list Z) (segs : list seg) (size : Z) : Prop :=
  size < 2 ^ 31 /\ forall cc b, In (JumpTo cc b) segs -> 0 <= offset_of offsets b <= size.
Definition arrives (code : list Z) (offsets : list Z) (pc pc_end : Z) (m : machine) (o : outcome) (m1 : machine) : Prop :=
  match o with
  | Goes b => steps code pc m (offset_of offsets b) m1
  | Falls => steps code pc m pc_end m1
  | Returns => exists p r, steps code pc m p m1 /\ decode (drop (Z.to_nat p) code) = Some (IRet, r)
  end.
Lemma arrives_later code offsets pc m pc1 m1 pc_end o m2 : steps code pc m pc1 m1 -> arrives code offsets pc1 pc_end m1 o m2 -> arrives code offsets pc pc_end m o m2.
Proof.
  intros H. destruct o; cbn [arrives]; [now apply steps_trans | now apply steps_trans |]. intros (p & r & H1 & H2). exists p, r. split; [now apply (steps_trans _ _ _ pc1 m1) | exact H2].
Qed.
Lemma flow_steps offsets segs its : Forall2 seg_as segs its -> Forall well_jumped segs -> forall pre post m Q,
  flow its m Q -> reachable offsets segs (len pre + len (log_bytes segs) + len post) ->
  exists o m1, Q o m1 /\ arrives (pre ++ resolved offsets (len pre) segs ++ post) offsets (len pre) (len pre + len (log_bytes segs)) m o m1.
Proof.
  induction 1 as [|sg it segs its Hsg _ IH]; intros Hw pre post m Q H [Hsz Hre]; [exists Falls, m; split; [exact H |]; cbn [arrives]; unfold log_bytes, len; cbn; rewrite Z.add_0_r; constructor |].
  apply List.Forall_cons_iff in Hw as [Hw0 Hw]. unfold log_bytes in *. cbn [map concat] in *. rewrite !len_app in *.
  assert (Hnext : forall b m1, len (seg_bytes sg) = len b -> resolved offsets (len pre) (sg :: segs) = b ++ resolved offsets (len pre + len b) segs ->
    steps (pre ++ (b ++ resolved offsets (len pre + len b) segs) ++ post) (len pre) m (len pre + len b) m1 -> flow its m1 Q ->
    exists o m2, Q o m2 /\ arrives (pre ++ resolved offsets (len pre) (sg :: segs) ++ post) offsets (len pre) (len pre + (len (seg_bytes sg) + len (concat (map seg_bytes segs)))) m o m2).
  { intros b m1 Eb Er Hst Hf. destruct (IH Hw (pre ++ b) post m1 Q Hf) as (o & m2 & HQ & Ha).
    - split; [rewrite !len_app, Eb in *; lia |]. intros cc1 b1 Hin. rewrite !len_app. specialize (Hre cc1 b1 (or_intror Hin)). rewrite Eb in Hre. lia.
    - exists o, m2. split; [exact HQ |]. rewrite Er, Eb. rewrite !len_app, <- !app_assoc in Ha. rewrite <- !app_assoc in Hst |- *.
      apply (arrives_later _ _ _ _ (len pre + len b) m1); [exact Hst |]. rewrite Z.add_assoc. exact Ha. }
  destruct Hsg as [parts is1 Hp | cc b | b Hd | bs]; cbn [flow] in H.
  - destruct H as (m1 & Ee & Hf). apply (Hnext (concat parts) m1 eq_refl eq_refl); [| exact Hf]. rewrite <- app_assoc. now apply steps_parts with (is1 := is1).
  - cbn [well_jumped] in Hw0. destruct Hw0 as [Hb Hcc]. rewrite len_seg_jump in *. pose proof (Hre cc b (or_introl eq_refl)) as Ho.
    assert (Hl : len (jump_opcode cc) = 1 \/ len (jump_opcode cc) = 2) by (destruct cc; [right | left]; reflexivity).
    pose proof (len_nonneg pre). pose proof (len_nonneg post). pose proof (len_nonneg (concat (map seg_bytes segs))).
    assert (Hd : - 2 ^ 31 <= offset_of offsets b - (len pre + len (jump_opcode cc)) - 4 < 2 ^ 31) by lia.
    set (bs := jump_opcode cc ++ le_bytes 4 (u32 (offset_of offsets b - (len pre + len (jump_opcode cc)) - 4))).
    assert (Hbs : len bs = len (jump_opcode cc) + 4) by (unfold bs; rewrite len_app; unfold len at 2; now rewrite le_bytes_length).
    assert (Er : resolved offsets (len pre) (JumpTo cc b :: segs) = bs ++ resolved offsets (len pre + len bs) segs) by (cbn [resolved]; rewrite Hbs; unfold bs; rewrite <- app_assoc, Z.add_assoc; reflexivity).
    assert (Et : match cc with Some c => exists f, fl m = Some f /\ holds c f = true | None => True end ->
      code_step (pre ++ resolved offsets (len pre) (JumpTo cc b :: segs) ++ post) (len pre) m = Some (offset_of offsets b, m)).
    { intros Ht. rewrite Er. unfold bs. rewrite <- !app_assoc. exact (jump_taken offsets pre _ cc b Hcc Hd m Ht). }
    destruct cc as [c |].
    + destruct H as (f & Ef & H). destruct (holds c f) eqn:Eh.
      * exists (Goes b), m. split; [exact H |]. cbn [arrives]. eapply steps_one; [apply Et; eauto | constructor].
      * apply (Hnext bs m); [now rewrite Hbs | exact Er | | exact H]. unfold bs at 1. rewrite <- !app_assoc. eapply steps_one; [exact (jump_not_taken offsets pre _ (Some c) b Hcc Hd c m f eq_refl Ef Eh) |].
        rewrite Hbs, Z.add_assoc. constructor.
    + exists (Goes b), m. split; [exact H |]. cbn [arrives]. eapply steps_one; [now apply Et | constructor].
  - exists Returns, m. split; [exact H |]. cbn [arrives resolved]. exists (len pre), (resolved offsets (len pre + len b) segs ++ post).
    split; [constructor |]. rewrite drop_len, <- app_assoc. apply Hd.
  - destruct H.
Qed.

(** ** The driver on items *)

Lemma do_lops_app a b s : do_lops (a ++ b) s = let* s1 := do_lops a s in do_lops b s1.
Proof.
  revert s. induction a as [|x a IH]; intros s; [reflexivity |]. cbn [app do_lops]. destruct (do_lop x s); [| reflexivity]. cbn [rbind]. apply IH.
Qed.
Lemma align_emits n w : exists es, align_up n w = Ok es.
Proof.
  unfold align_up. destruct (_ =? 0); [eauto |]. match goal with |- exists es, nop_bytes ?b = Ok es => assert (H : 0 <= b) by (apply wrap_range; lia); pose proof (nop_bytes_length b H) as E end.
  unfold emitted in E. destruct (nop_bytes _) as [es |]; [eauto | discriminate].
Qed.
Lemma do_lops_as l its : lops_as l its -> forall log s, logged log s ->
  exists s1 segs, do_lops l s = Ok s1 /\ logged (log ++ segs) s1 /\ Forall2 seg_as segs its /\ _block_offsets s1 = _block_offsets s /\ calls s1 = calls s.
Proof.
  induction 1 as [| cs is1 l its Hcs _ IH | cc b l its Hcc _ IH | l its _ IH | l its _ IH]; intros log s Hl.
  - exists s, []. rewrite app_nil_r. repeat split; try apply Hl. constructor.
  - destruct (assemble_parts cs is1 (encoder s) Hcs (logged_room _ _ Hl)) as (e & parts & Ee & Re & Be & Hp).
    destruct (IH _ _ (logged_more log s e (concat parts) Hl Re Be)) as (s1 & segs & E & L & F & O & C).
    exists s1, (Plain (concat parts) :: segs). rewrite do_lops_app, do_lops_assemble, Ee. cbn [rbind]. split; [exact E |]. rewrite <- app_assoc in L. split; [exact L |].
    split; [constructor; [now constructor | exact F] | split; [exact O | exact C]].
  - destruct (jump_emits cc Hcc) as (es & Ec & Hf). destruct (run_room es (encoder s) (logged_room _ _ Hl)) as (e & Ee & Re & Be). rewrite Hf in Be.
    destruct (IH _ _ (logged_jump log s e cc (u32 b) Hl Re Be ltac:(apply wrap_range; lia) Hcc)) as (s1 & segs & E & L & F & O & C).
    exists s1, (JumpTo cc (u32 b) :: segs). cbn [do_lops do_lop]. rewrite Ec. cbn [rbind]. rewrite Ee. cbn [rbind]. split; [exact E |]. rewrite <- app_assoc in L. split; [exact L |].
    split; [constructor; [constructor | exact F] | split; [exact O | exact C]].
  - destruct (method_encodes ret IRet ltac:(apply asks_plain; in_list)) as (b & (es & Ec & Hf) & Hd). destruct (run_room es (encoder s) (logged_room _ _ Hl)) as (e & Ee & Re & Be). rewrite Hf in Be.
    destruct (IH _ _ (logged_more log s e b Hl Re Be)) as (s1 & segs & E & L & F & O & C).
    exists s1, (Plain b :: segs). cbn [do_lops do_lop]. rewrite Ec. cbn [rbind]. rewrite Ee. cbn [rbind]. split; [exact E |]. rewrite <- app_assoc in L. split; [exact L |].
    split; [constructor; [now constructor | exact F] | split; [exact O | exact C]].
  - destruct (align_emits 8 (_write_offset (encoder s))) as (es & Ec). destruct (run_room es (encoder s) (logged_room _ _ Hl)) as (e & Ee & Re & Be).
    destruct (IH _ _ (logged_more log s e (flatten es) Hl Re Be)) as (s1 & segs & E & L & F & O & C).
    exists s1, (Plain (flatten es) :: segs). cbn [do_lops do_lop]. rewrite Ec. cbn [rbind]. rewrite Ee. cbn [rbind]. split; [exact E |]. rewrite <- app_assoc in L. split; [exact L |].
    split; [constructor; [constructor | exact F] | split; [exact O | exact C]].
Qed.

(** ** Endings *)

(** The block that the last instruction of a block chooses. *)
Definition next_block (i : IRInstruction) (m : machine) : option Z :=
  match type i, operands i with
  | JMP, [t] => Some (u32 (value t))
  | BRANCH, [c; t; f] => Some (u32 (value (if input m c =? 0 then f else t)))
  | _, _ => None
  end.
(** Nothing but temporaries and flags changes. *)
Definition settles (m m1 : machine) : Prop := exists ps, reach ps m m1 /\ incl ps temps.
Lemma settles_refl m : good m -> settles m m.
Proof. intros H. exists []. split; [now apply reach_start | intros ? []]. Qed.
Lemma settles_good m m1 : settles m m1 -> good m1.
Proof. intros (ps & H & _). apply H. Qed.

Definition id_ok (t : IROperand) : bool := (0 <=? value t) && (value t <? 2 ^ 31).
Lemma id_parts t : id_ok t = true -> u32 (value t) = value t.
Proof. unfold id_ok. rewrite andb_true_iff, Z.leb_le, Z.ltb_lt. intros [H1 H2]. apply wrap_small. unfold in_range. lia. Qed.
Definition cond_ok (c : IROperand) : bool :=
  placed c && (is_alloc_reg c || (osize c =? 1)) || constant_ok c && (value c <? 2 ^ (8 * osize c)).
(** The outcome is the block chosen; the one lowered next may be fallen into. *)
Definition right_way (chosen next : Z) (o : outcome) : Prop := o = Goes chosen \/ o = Falls /\ chosen = next.
Definition flows_to (i : IRInstruction) (next : Z) (m : machine) (o : outcome) (m1 : machine) : Prop :=
  settles m m1 /\ match next_block i m with Some b => right_way b next o | None => False end.

(** The blocks an ending may choose, and the jumps of its items. *)
Definition target_ids (i : IRInstruction) : list Z :=
  match type i, operands i with
  | JMP, [t] => [u32 (value t)]
  | BRANCH, [c; t; f] => [u32 (value t); u32 (value f)]
  | _, _ => []
  end.
Definition jumps_in (ids : list Z) (its : list item) : Prop := Forall (fun it => match it with IJump _ b => In b ids | _ => True end) its.
Ltac targets_now := unfold jumps_in; repeat (apply List.Forall_cons; [cbn; tauto |]); apply List.Forall_nil.
Lemma LowerJmp_ends b t nx rest : is_block t = true -> id_ok t = true ->
  exists l its, LowerJmp (mkInsn [t] b JMP :: nx :: rest) = Ok (l, 1%nat) /\ lops_as l its /\ jumps_in (target_ids (mkInsn [t] b JMP)) its
    /\ forall m, good m -> flow its m (flows_to (mkInsn [t] b JMP) (ir_block nx) m).
Proof.
  intros Hb Ht. unfold LowerJmp. change (next_insn (mkInsn [t] b JMP :: nx :: rest) 0) with (@Ok IRInstruction (mkInsn [t] b JMP)). cbn [rbind].
  change (operand (mkInsn [t] b JMP) 0) with (@Ok IROperand t). cbn [rbind]. rewrite Hb. change (next_insn (mkInsn [t] b JMP :: nx :: rest) 1) with (@Ok IRInstruction nx). cbn [rbind].
  destruct (Z.eqb_spec (ir_block nx) (u32 (value t))) as [E | E].
  - exists [], []. split; [reflexivity |]. split; [constructor |]. split; [targets_now |]. intros m Hm. split; [now apply settles_refl |]. right. now split.
  - eexists _, [IJump None (u32 (value t)); IPad]. split; [reflexivity |]. split; [apply (lops_jump None); [exact I |]; repeat constructor |].
    split; [targets_now |]. intros m Hm. split; [now apply settles_refl |]. now left.
Qed.
(** The flags of a test with itself. *)
Lemma test_zero cc w x : cc = 4 \/ cc = 5 -> holds cc (result_flags w (Z.land x x) false false) = if cc =? 4 then x =? 0 else negb (x =? 0).
Proof. intros [-> | ->]; rewrite Z.land_diag; cbn; destruct (x =? 0); reflexivity. Qed.
Definition zero_flags (c : bool) (m : machine) : Prop := exists f, fl m = Some f /\ holds 4 f = c /\ holds 5 f = negb c.
Lemma test_settles s k sz : good s -> valid_size sz = true ->
  runs [ITest sz (opnd_of (InReg k) sz) (opnd_of (InReg k) sz)] s (fun s1 => settles s s1 /\ zero_flags (held s (InReg k) sz =? 0) s1).
Proof.
  intros Hg Hs. apply runs_test, runs_nil. split.
  - exists []. split; [split; [split; apply Hg | split; reflexivity | intros []] | intros ? []].
  - eexists. split; [reflexivity |]. rewrite !test_zero by tauto. split; reflexivity.
Qed.
Definition branch_test (cond : IROperand) : result (list code) :=
  if is_alloc_reg cond then let* r := register_from_operand cond in Ok [test_rr r r]
  else let* tmp := get_temp 0 1 in let* m := stack_from_operand cond in Ok [mov_mr m tmp; test_rr tmp tmp].
Lemma branch_tested c : placed c = true -> is_alloc_reg c = true \/ osize c = 1 ->
  exists cs is1, branch_test c = Ok cs /\ Forall2 asks cs is1 /\ forall m, good m -> runs is1 m (fun m1 => settles m m1 /\ zero_flags (input m c =? 0) m1).
Proof.
  intros Hc Hx. unfold branch_test. open_operand c Hc; lowering_eqs.
  - eexists _, _. split; [reflexivity |]. split; [asks_all |]. intros m Hm. rewrite Own, Pl. now apply test_settles.
  - destruct Hx as [Hx | Hx]; [congruence |]. change (get_temp 0 1) with (Ok (T 7 1)). cbn [rbind]. rewrite Hx in *.
    eexists _, _. split; [reflexivity |]. split; [asks_all |]. intros m Hm. pose proof (reach_start m Hm) as Hr. step.
    eapply runs_weaken; [apply test_settles; [apply Hr | reflexivity] |]. intros m1 [(ps & R & I) Z]. split.
    + exists ([InReg 7] ++ ps). split; [now apply (reach_trans _ _ m s) |]. intros x [<- | Hx']; [cbn; tauto | now apply I].
    + rewrite Own, Pl. rewrite (after_held _ _ _ _ _ A) in Z. rewrite wrap_small in Z by (apply (held_range m (OnStack d) 1 Hm); reflexivity). exact Z.
Qed.
Lemma settled_branch m m1 b c t f next o chosen : settles m m1 -> chosen = (if input m c =? 0 then f else t) ->
  right_way (u32 (value chosen)) next o -> flows_to (mkInsn [c; t; f] b BRANCH) next m o m1.
Proof. intros Hs -> Hr. split; [exact Hs | exact Hr]. Qed.
Lemma LowerBranch_ends b c t f nx rest : cond_ok c = true ->
  exists l its, LowerBranch (mkInsn [c; t; f] b BRANCH :: nx :: rest) = Ok (l, 1%nat) /\ lops_as l its /\ jumps_in (target_ids (mkInsn [c; t; f] b BRANCH)) its
    /\ forall m, good m -> flow its m (flows_to (mkInsn [c; t; f] b BRANCH) (ir_block nx) m).
Proof.
  unfold cond_ok. rewrite orb_true_iff, !andb_true_iff, orb_true_iff, Z.eqb_eq, Z.ltb_lt. intros Hc. set (i := mkInsn [c; t; f] b BRANCH).
  unfold LowerBranch. change (next_insn (i :: nx :: rest) 0) with (@Ok IRInstruction i). cbn [rbind].
  change (operand i 0) with (@Ok IROperand c). change (operand i 1) with (@Ok IROperand t). change (operand i 2) with (@Ok IROperand f). cbn [rbind].
  change (next_insn (i :: nx :: rest) 1) with (@Ok IRInstruction nx). fold (branch_test c). destruct Hc as [[Hp Hx] | [Hk Hv]].
  - destruct (branch_tested c Hp Hx) as (cs & is1 & E & Ha & Hr). rewrite (proj1 (placed_vreg c Hp)), E. cbn [rbind one]. clear Hx.
    assert (Hflow : forall its, (forall m m1, settles m m1 -> zero_flags (input m c =? 0) m1 -> flow its m1 (flows_to i (ir_block nx) m)) ->
      forall m, good m -> flow (IOps is1 :: its) m (flows_to i (ir_block nx) m)).
    { intros its H m Hm. cbn [flow]. eapply runs_weaken; [now apply Hr |]. intros m1 [H1 H2]. now apply H. }
    destruct (Z.eqb_spec (ir_block nx) (u32 (value t))) as [Et | Et]; [| destruct (Z.eqb_spec (ir_block nx) (u32 (value f))) as [Ef | Ef]].
    + eexists _, _. split; [reflexivity |]. split; [eapply (lops_ops cs is1); [exact Ha |]; eapply (lops_jump (Some 4)); [cbn; lia | constructor] |].
      split; [targets_now |]. apply Hflow. intros m m1 Hs (fg & Efg & H4 & _). cbn [flow]. exists fg. split; [exact Efg |]. rewrite H4. destruct (input m c =? 0) eqn:Ez.
      * apply (settled_branch m m1 b c t f _ _ f Hs); [now rewrite Ez | now left].
      * apply (settled_branch m m1 b c t f _ _ t Hs); [now rewrite Ez | right; now split].
    + eexists _, _. split; [reflexivity |]. split; [eapply (lops_ops cs is1); [exact Ha |]; eapply (lops_jump (Some 5)); [cbn; lia | constructor] |].
      split; [targets_now |]. apply Hflow. intros m m1 Hs (fg & Efg & _ & H5). cbn [flow]. exists fg. split; [exact Efg |]. rewrite H5. destruct (input m c =? 0) eqn:Ez; cbn [negb].
      * apply (settled_branch m m1 b c t f _ _ f Hs); [now rewrite Ez | right; now split].
      * apply (settled_branch m m1 b c t f _ _ t Hs); [now rewrite Ez | now left].
    + eexists _, _. split; [reflexivity |]. split; [eapply (lops_ops cs is1); [exact Ha |]; eapply (lops_jump (Some 5)); [cbn; lia |]; apply (lops_jump None); [exact I |]; repeat constructor |].
      split; [targets_now |]. apply Hflow. intros m m1 Hs (fg & Efg & _ & H5). cbn [flow]. exists fg. split; [exact Efg |]. rewrite H5. destruct (input m c =? 0) eqn:Ez; cbn [negb].
      * apply (settled_branch m m1 b c t f _ _ f Hs); [now rewrite Ez | now left].
      * apply (settled_branch m m1 b c t f _ _ t Hs); [now rewrite Ez | now left].
  - destruct (constant_parts c Hk) as (Kc & Kr & _ & Ks & Kv & Ki). rewrite Kr, Kc. cbn [one rbind].
    assert (Ei : forall m, input m c = value c) by (intros m; rewrite Ki; apply wrap_small; unfold in_range; lia).
    eexists _, [IJump None _; IPad]. split; [reflexivity |]. split; [apply (lops_jump None); [exact I |]; repeat constructor |]. split; [destruct (value c =? 0); targets_now |]. intros m Hm. cbn [flow].
    apply (settled_branch m m b c t f _ _ (if value c =? 0 then f else t)); [now apply settles_refl | now rewrite Ei | left; f_equal; f_equal; now destruct (value c =? 0)].
Qed.

(** ** Comparisons merged with the branch behind them *)

Lemma runs_set_keep s r Q cc k w a b : good s ->
  (forall s1, after (InReg k) 1 (Z.b2z (holds cc (cmp_flags w a b))) s s1 -> fl s1 = Some (cmp_flags w a b) -> runs r s1 Q) ->
  runs (ISetcc cc (OReg (R k 1)) :: r) (compared w a b s) Q.
Proof.
  intros Hg K. eapply runs_step; [reflexivity |]. apply K; [| reflexivity].
  apply (after_ext (InReg k) 1 _ s (with_state (write_reg (regs s) (R k 1) (Z.b2z (holds cc (cmp_flags w a b)))) (mem s) s)); [reflexivity | reflexivity | now apply write_reg_place].
Qed.
Definition fused_ok (t : IRInstructionType) (a b d c : IROperand) : bool :=
  is_equality t && compare_ok t a b d && is_alloc_reg d && bool_decide (c = d).
Definition fused_items (is1 : list insn) (t : IRInstructionType) (k : Z) (tb fb : Z) (falls : bool) : list item :=
  IOps (is1 ++ [ISetcc (code_of t false) (OReg (R k 1))]) :: IJump (Some (code_of t false)) tb :: (if falls then [] else [IJump None fb]).
Lemma fused_flow ctx b0 b1 t a b d tb fb next rev is1 :
  is_equality t = true -> placed d = true -> is_alloc_reg d = true -> osize d = 1 -> valid_size (osize a) = true ->
  (forall s, good s -> in_range (8 * osize a) (input s a) /\ in_range (8 * osize a) (input s b)) ->
  (forall s r Q, good s ->
     (forall ps s1, reach ps s s1 -> incl ps temps ->
        runs r (compared (8 * osize a) (first rev (input s a) (input s b)) (second rev (input s a) (input s b)) s1) Q) -> runs (is1 ++ r) s Q) ->
  forall m, good m -> flow (fused_items is1 t (register_of d) (u32 (value tb)) (u32 (value fb)) (u32 (value fb) =? next)) m
    (fun o m2 => exists m1, executes ctx [mkInsn [a; b; d] b0 t] m m1 /\ flows_to (mkInsn [d; tb; fb] b1 BRANCH) next m1 o m2).
Proof.
  intros Ht Hd Rd E1 Hs Hin Hrun m Hm. set (cmp := mkInsn [a; b; d] b0 t).
  assert (Hcmp : is_comparison t = true /\ only_computes t = true /\ (code_of t false = 4 \/ code_of t false = 5) /\ forall r, code_of t r = code_of t false).
  { unfold is_equality in Ht. apply orb_true_iff in Ht as [H%bool_decide_eq_true | H%bool_decide_eq_true]; subst t; repeat split; auto. }
  destruct Hcmp as (Hc & Ho & Hcode & Hrev). pose proof (valid_size_cases _ Hs). destruct (Hin m Hm) as [Ia Ib].
  assert (Hdest : destination cmp = d) by (unfold destination, cmp; cbn [type]; now rewrite Hc).
  set (fg := cmp_flags (8 * osize a) (first rev (input m a) (input m b)) (second rev (input m a) (input m b))).
  set (v := comparison t (8 * osize a) (input m a) (input m b)).
  assert (Hv : holds (code_of t false) fg = v) by (rewrite <- (Hrev rev); apply code_correct; (assumption || lia)).
  unfold fused_items. cbn [flow]. apply Hrun; [exact Hm |]. intros ps m0 Hr Hi. apply runs_set_keep; [apply Hr |]. fold fg. rewrite Hv. intros m1 A Fl. apply runs_nil.
  open_operand d Hd; [| congruence]. rewrite <- Kd in *.
  assert (Hr1 : reach (ps ++ [InReg k]) m m1) by (apply (reach_after _ _ _ _ _ _ _ Hr A); place_ne).
  assert (Hb : forall x : bool, wrap 8 (Z.b2z x) = Z.b2z x) by (intros []; reflexivity).
  assert (Vd : held m1 (InReg k) 1 = Z.b2z v) by (rewrite (after_held _ _ _ _ _ A); apply Hb).
  assert (Ex : executes ctx [cmp] m m1).
  { apply (executes_one ctx cmp [] m m1 m1); [unfold defined_at; cbn [type cmp]; unfold is_equality in Ht; apply orb_true_iff in Ht as [H'%bool_decide_eq_true | H'%bool_decide_eq_true]; rewrite H'; exact I | | constructor].
    assert (Ep : performed ctx cmp m m1 = carried_out cmp m m1) by (unfold performed, ir_stores; cbn [type cmp]; destruct t; try discriminate Ho; reflexivity). rewrite Ep.
    apply (carried_simply cmp m m1 (ps ++ [InReg k])); [now rewrite Hdest | exact Hr1 | |]; rewrite Hdest, Pl.
    - intros x [Hx | [<- | []]]%in_app_iff; [right; apply in_app_iff; left; now apply Hi | now left].
    - rewrite E1, Vd. unfold ir_value. cbn [type cmp]. rewrite Hc. reflexivity. }
  assert (Hd1 : (input m1 d =? 0) = negb v) by (rewrite Own, Pl, E1, Vd; now destruct v).
  assert (Hs1 : settles m1 m1) by (apply settles_refl, A).
  assert (Hw : forall chosen o, chosen = (if v then tb else fb) -> right_way (u32 (value chosen)) next o ->
    exists m3, executes ctx [cmp] m m3 /\ flows_to (mkInsn [d; tb; fb] b1 BRANCH) next m3 o m1).
  { intros chosen o Ech Hw. exists m1. split; [exact Ex |]. apply (settled_branch m1 m1 b1 d tb fb next o chosen Hs1); [rewrite Hd1, Ech; now destruct v | exact Hw]. }
  exists fg. split; [exact Fl |]. rewrite Hv. destruct v.
  - apply (Hw tb); [reflexivity | now left].
  - destruct (Z.eqb_spec (u32 (value fb)) next) as [E | E]; cbn [flow]; apply (Hw fb); [reflexivity | right; now split | reflexivity | now left].
Qed.
Lemma LowerCompare_fused ctx b0 b1 t a b d tb fb nx rest :
  fused_ok t a b d d = true -> id_ok tb = true -> id_ok fb = true ->
  exists l its, LowerCompare (mkInsn [a; b; d] b0 t :: mkInsn [d; tb; fb] b1 BRANCH :: nx :: rest) = Ok (l, 2%nat) /\ lops_as l its /\ jumps_in (target_ids (mkInsn [d; tb; fb] b1 BRANCH)) its
    /\ forall m, good m -> flow its m (fun o m2 => exists m1, executes ctx [mkInsn [a; b; d] b0 t] m m1 /\ flows_to (mkInsn [d; tb; fb] b1 BRANCH) (ir_block nx) m1 o m2).
Proof.
  unfold fused_ok. rewrite !andb_true_iff. intros (((Ht & Hok) & Rd) & _) Htb Hfb. destruct (compare_parts t a b d Hok) as (Hd & E1 & E & Hv & Hin & Hc & _).
  assert (Hs : is_signed t = false) by (unfold is_equality in Ht; apply orb_true_iff in Ht as [H%bool_decide_eq_true | H%bool_decide_eq_true]; now subst t).
  assert (Hcm : is_comparison t = true) by (unfold is_equality in Ht; apply orb_true_iff in Ht as [H%bool_decide_eq_true | H%bool_decide_eq_true]; now subst t).
  destruct (Hc Hs) as (cs & rev & is1 & Ec & Hcs & Hrun). set (cmp := mkInsn [a; b; d] b0 t). set (br := mkInsn [d; tb; fb] b1 BRANCH).
  pose proof (fused_flow ctx b0 b1 t a b d tb fb (ir_block nx) rev is1 Ht Hd Rd E1 Hv Hin Hrun) as Hflow. fold cmp br in Hflow.
  open_operand d Hd; [| congruence]. eexists _, _. split; [| split; [| split; [| exact Hflow]]].
  - unfold LowerCompare. change (next_insn (cmp :: br :: nx :: rest) 0) with (@Ok IRInstruction cmp). cbn [rbind].
    change (operand cmp 0) with (@Ok IROperand a). change (operand cmp 1) with (@Ok IROperand b). change (operand cmp 2) with (@Ok IROperand d). cbn [rbind]. rewrite Ec. cbn [rbind fst snd].
    assert (Ef : should_fuse (cmp :: br :: nx :: rest) d = Ok true).
    { unfold should_fuse. change (next_insn (cmp :: br :: nx :: rest) 1) with (@Ok IRInstruction br). cbn [rbind]. change (type br) with BRANCH. rewrite bool_decide_eq_true_2 by reflexivity.
      change (operand br 0) with (@Ok IROperand d). cbn [rbind]. rewrite (proj1 (placed_vreg d Hd)), Rd, Z.eqb_refl. reflexivity. }
    rewrite Ef. cbn [rbind]. rewrite E1. change (BLKJIT_TEMPS_0 1) with (Ok (T 7 1)). cbn [rbind]. change (type cmp) with t. rewrite Ht. cbn [andb].
    rewrite Ar, As, Fr, E1. cbn [rbind]. rewrite unsigned_set_code by assumption. cbn [rbind].
    change (next_insn (cmp :: br :: nx :: rest) 1) with (@Ok IRInstruction br). change (next_insn (cmp :: br :: nx :: rest) 2) with (@Ok IRInstruction nx). cbn [rbind].
    unfold fused_branch. change (operand br 1) with (@Ok IROperand tb). change (operand br 2) with (@Ok IROperand fb). cbn [rbind]. rewrite app_nil_r. reflexivity.
  - unfold fused_items. apply (lops_ops _ (is1 ++ [ISetcc (code_of t false) (OReg (R (register_of d) 1))])).
    + apply Forall2_app; [exact Hcs |]. apply List.Forall2_cons; [| apply List.Forall2_nil]. rewrite <- Kd. replace (code_of t rev) with (code_of t false) by (destruct t; try discriminate Ht; reflexivity).
      apply ask_set; [assumption | reflexivity | apply code_range | reflexivity].
    + replace (if bool_decide (t = CMPEQ) then je_reloc else jne_reloc) with (jump_call (Some (code_of t false))) by (destruct t; try discriminate Ht; reflexivity).
      eapply (lops_jump (Some (code_of t false))); [apply code_range |]. rewrite (id_parts fb Hfb). destruct (value fb =? ir_block nx); [constructor |].
      rewrite <- (id_parts fb Hfb) at 2. apply (lops_jump None); [exact I | constructor].
  - unfold fused_items. destruct (u32 (value fb) =? ir_block nx); targets_now.
Qed.

(** ** Returns *)

(** The stack pointer back to the saved registers, and those popped. *)
Definition epilogue_insns (ctx : X86LoweringContext) (saved : list X86Register) : list insn :=
  (if max_stack ctx saved =? 0 then [] else [IAlu 0 8 (OReg (R 4 8)) (Imm 8 (max_stack ctx saved))]) ++ map (fun r => IPop (num r)) (rev saved).
Definition frame_ok (ctx : X86LoweringContext) (saved : list X86Register) : bool :=
  forallb (fun r => reg_ok r && (size r =? 8)) saved && (0 <=? max_stack ctx saved) && (max_stack ctx saved <? 2 ^ 31).
Definition saved_registers (ctx : X86LoweringContext) : list X86Register := match GetSavedRegisters ctx with Ok l => l | Err _ => [] end.
Definition return_ok (ctx : X86LoweringContext) : bool :=
  match GetSavedRegisters ctx with Ok l => frame_ok ctx l | Err _ => false end.
Lemma epilogue_asked ctx : return_ok ctx = true ->
  exists cs, EmitEpilogue ctx = Ok cs /\ Forall2 asks cs (epilogue_insns ctx (saved_registers ctx)).
Proof.
  unfold return_ok, saved_registers, EmitEpilogue. destruct (GetSavedRegisters ctx) as [saved |]; [| discriminate]. unfold frame_ok.
  rewrite !andb_true_iff, forallb_forall. intros ((Hs & H0) & H1). cbn [rbind]. eexists. split; [reflexivity |]. unfold epilogue_insns. apply Forall2_app.
  - destruct (max_stack ctx saved =? 0); [apply List.Forall2_nil |]. apply List.Forall2_cons; [| apply List.Forall2_nil].
    apply (asks_alu_ir add_ir 0 (max_stack ctx saved) REG_RSP); [in_list | lia | reflexivity | discriminate].
  - assert (Hr : Forall (fun r => reg_ok r = true /\ size r = 8) (rev saved)).
    { apply Forall_forall. intros r Hr. apply list_elem_of_In, in_rev in Hr. specialize (Hs r Hr). now rewrite andb_true_iff, Z.eqb_eq in Hs. }
    induction Hr as [|r l [Hr1 Hr2] _ IH]; cbn [map]; [apply List.Forall2_nil |]. apply List.Forall2_cons; [now apply asks_pop | exact IH].
Qed.
Lemma pops_run rs s : exists s1, exec_all (map (fun r => IPop (num r)) rs) s = Some s1.
Proof. revert s. induction rs as [|r rs IH]; intros s; cbn [map exec_all exec]; [eauto | apply IH]. Qed.
Lemma epilogue_runs ctx saved s : exists s1, exec_all (epilogue_insns ctx saved) s = Some s1.
Proof.
  unfold epilogue_insns. destruct (max_stack ctx saved =? 0); cbn [app]; [apply pops_run |].
  cbn [exec_all exec]. unfold exec_alu. cbn [read_opnd write_opnd Imm Z.eqb orb alu_result]. apply pops_run.
Qed.
Definition returns (ctx : X86LoweringContext) (i : IRInstruction) (m : machine) (o : outcome) (m1 : machine) : Prop :=
  type i = RET /\ o = Returns /\ exec_all (epilogue_insns ctx (saved_registers ctx)) m = Some m1.
Lemma LowerRet_ends ctx i : return_ok ctx = true -> exists l its, LowerRet ctx i = Ok l /\ lops_as l its /\ jumps_in (target_ids i) its
  /\ forall m, type i = RET -> flow its m (returns ctx i m).
Proof.
  intros H. destruct (epilogue_asked ctx H) as (cs & E & Ha). unfold LowerRet. rewrite E. cbn [rbind]. unfold ops. rewrite map_app.
  eexists _, [IOps _; IReturn]. split; [reflexivity |]. split; [apply lops_ops; [exact Ha |]; apply lops_return, lops_none |]. split; [targets_now |].
  intros m Ht. cbn [flow]. destruct (epilogue_runs ctx (saved_registers ctx) m) as [m1 E1]. exists m1. split; [exact E1 |]. split; [exact Ht |]. now split.
Qed.

(** ** The end of a block *)

(** The last instruction of a block, with the comparison before it if the two
    are lowered together. *)
Definition end_ok (ctx : X86LoweringContext) (compare : option IRInstruction) (i : IRInstruction) : bool :=
  match compare, type i, operands i with
  | None, RET, _ => return_ok ctx
  | None, JMP, [t] => is_block t && id_ok t
  | None, BRANCH, [c; t; f] => cond_ok c && id_ok t && id_ok f
  | Some k, BRANCH, [c; t; f] => match operands k with [a; b; d] => fused_ok (type k) a b d c && id_ok t && id_ok f | _ => false end
  | _, _, _ => false
  end.
Definition option_list {A} (o : option A) : list A := match o with Some x => [x] | None => [] end.
Definition finishes (ctx : X86LoweringContext) (compare : option IRInstruction) (i : IRInstruction) (next : Z) (m : machine) (o : outcome) (m2 : machine) : Prop :=
  exists m1, executes ctx (option_list compare) m m1 /\ (flows_to i next m1 o m2 \/ returns ctx i m1 o m2).
Lemma end_lowers ctx others compare i nx rest : end_ok ctx compare i = true ->
  exists k tail f l its, option_list compare ++ [i] = k :: tail /\ Prepare ctx others (type k) = Some f
    /\ (forall c prev, f c prev (option_list compare ++ [i] ++ nx :: rest) = Ok (l, length (k :: tail), c)) /\ lops_as l its /\ jumps_in (target_ids i) its
    /\ forall m, good m -> flow its m (finishes ctx compare i (ir_block nx) m).
Proof.
  destruct i as [os b t]. unfold end_ok. cbn [type operands]. destruct compare as [cmp |]; cbn [option_list app].
  - destruct t; try discriminate. destruct os as [|c [|tb [|fb [|]]]]; try discriminate. destruct cmp as [ks kb kt]. cbn [type operands].
    destruct ks as [|x [|y [|d [|]]]]; try discriminate. rewrite !andb_true_iff. intros ((Hf & Ht) & Hb).
    assert (Ec : c = d) by (unfold fused_ok in Hf; rewrite !andb_true_iff in Hf; destruct Hf as [_ Hf]; now apply bool_decide_eq_true in Hf). subst c.
    destruct (LowerCompare_fused ctx kb b kt x y d tb fb nx rest Hf Ht Hb) as (l & its & E & Hl & Hj & Hfl).
    exists (mkInsn [x; y; d] kb kt), [mkInsn [d; tb; fb] b BRANCH], (plain LowerCompare), l, its. split; [reflexivity |].
    split; [unfold fused_ok, is_equality in Hf; rewrite !andb_true_iff, orb_true_iff in Hf; destruct Hf as ((([H%bool_decide_eq_true | H%bool_decide_eq_true] & _) & _) & _); subst kt; reflexivity |].
    split; [intros c0 prev; unfold plain; rewrite E; reflexivity |]. split; [exact Hl |]. split; [exact Hj |].
    intros m Hm. eapply flow_weaken; [now apply Hfl |]. intros o m2 (m1 & H1 & H2). exists m1. split; [exact H1 | now left].
  - intros H. destruct t; try discriminate H.
    + destruct os as [|x [|]]; try discriminate. rewrite andb_true_iff in H. destruct (LowerJmp_ends b x nx rest (proj1 H) (proj2 H)) as (l & its & E & Hl & Hj & Hfl).
      exists (mkInsn [x] b JMP), [], (plain LowerJmp), l, its. split; [reflexivity |]. split; [reflexivity |]. split; [intros c0 prev; unfold plain; rewrite E; reflexivity |]. split; [exact Hl |]. split; [exact Hj |].
      intros m Hm. eapply flow_weaken; [now apply Hfl |]. intros o m2 H2. exists m. split; [constructor | now left].
    + destruct os as [|x [|y [|z [|]]]]; try discriminate. rewrite !andb_true_iff in H. destruct (LowerBranch_ends b x y z nx rest (proj1 (proj1 H))) as (l & its & E & Hl & Hj & Hfl).
      exists (mkInsn [x; y; z] b BRANCH), [], (plain LowerBranch), l, its. split; [reflexivity |]. split; [reflexivity |]. split; [intros c0 prev; unfold plain; rewrite E; reflexivity |]. split; [exact Hl |]. split; [exact Hj |].
      intros m Hm. eapply flow_weaken; [now apply Hfl |]. intros o m2 H2. exists m. split; [constructor | now left].
    + destruct (LowerRet_ends ctx (mkInsn os b RET) H) as (l & its & E & Hl & Hj & Hfl).
      exists (mkInsn os b RET), [], (single (LowerRet ctx)), l, its. split; [reflexivity |]. split; [reflexivity |].
      split; [intros c0 prev; unfold single, plain; change (next_insn (mkInsn os b RET :: nx :: rest) 0) with (@Ok IRInstruction (mkInsn os b RET)); cbn [rbind]; rewrite E; reflexivity |]. split; [exact Hl |]. split; [exact Hj |].
      intros m Hm. eapply flow_weaken; [now apply Hfl |]. intros o m2 H2. exists m. split; [constructor | now right].
Qed.
