(* ===== verification/X86Program.v ===== *)
(** * Lowered functions are correct

    A whole function of basic blocks: LowerBody lowers them in order, and the
    code that Lower leaves runs block after block as the instructions of the
    IR say, from the entry to a return. *)

From Stdlib Require Import ZArith Lia List Bool.
From stdpp Require Import base numbers list.
From S2P Require Import Prelude BlockIR X86Encoder X86Decode X86Shapes X86Methods X86Conditions X86Correct X86Machine X86Lower X86LowerFlow X86Steps X86LowerArith X86LowerMul X86LowerGuest X86LowerCorrect X86Relocs X86Blocks.
Import ListNotations.
#[local] Open Scope Z_scope.
#[local] Open Scope gensim_scope.

(** ** Basic blocks *)

Record basic_block := mkBlock { bb_id : Z; bb_body : list IRInstruction; bb_compare : option IRInstruction; bb_end : IRInstruction }.
Definition bb_run (b : basic_block) : list IRInstruction := bb_body b ++ option_list (bb_compare b).
Definition bb_tail (b : basic_block) : list IRInstruction := option_list (bb_compare b) ++ [bb_end b].
Definition bb_insns (b : basic_block) : list IRInstruction := bb_body b ++ bb_tail b.
(** Before the instructions [rest]. *)
Definition block_ok (ctx : X86LoweringContext) (b : basic_block) (rest : list IRInstruction) : bool :=
  forallb (fun i => ir_block i =? bb_id b) (bb_insns b) && negb (bb_id b =? NOP_BLOCK) && (0 <=? bb_id b)
  && supported_run ctx (bb_id b) (length (bb_body b)) (bb_insns b ++ rest) && end_ok ctx (bb_compare b) (bb_end b).

(** What the driver has made of a block: the items of its body and of its end. *)
Definition body_items (ctx : X86LoweringContext) (b : basic_block) (is1 : list insn) : Prop := forall m, good m -> implements ctx is1 (bb_body b) m.
Definition end_items (ctx : X86LoweringContext) (b : basic_block) (next : Z) (its : list item) : Prop :=
  forall m, good m -> flow its m (finishes ctx (bb_compare b) (bb_end b) next m).
Definition lowered_block (ctx : X86LoweringContext) (b : basic_block) (next : Z) (segs : list seg) : Prop :=
  exists is1 its, Forall2 seg_as segs (IOps is1 :: its) /\ body_items ctx b is1 /\ end_items ctx b next its /\ jumps_in (target_ids (bb_end b)) its.

Section Driver.
Context (ctx : X86LoweringContext) (others : IRInstructionType -> option lowerer) (insns behind : list IRInstruction).
Abbreviation table := (Prepare ctx others).

(** Another block, or the end of the function. *)
Definition elsewhere (block_id : Z) (post : list IRInstruction) : Prop :=
  match post with [] => True | i :: _ => ir_block i <> block_id /\ ir_block i <> NOP_BLOCK end.
Lemma lower_block_stops fuel block_id at_ s : elsewhere block_id (drop at_ insns) -> lower_block_from table insns behind fuel block_id at_ s = Ok s.
Proof.
  intros H. destruct fuel; cbn [lower_block_from]; destruct (insns !! at_) as [i |] eqn:E; try reflexivity; rewrite (drop_S _ _ _ E) in H; cbn [elsewhere] in H;
    destruct (Z.eqb_spec (ir_block i) NOP_BLOCK), (Z.eqb_spec (ir_block i) block_id); cbn [orb]; try reflexivity; tauto.
Qed.
Lemma lower_block_items b pre post nx rest log s :
  insns = pre ++ bb_insns b ++ post -> block_ok ctx b (post ++ behind) = true -> post ++ behind = nx :: rest -> elsewhere (bb_id b) post -> logged log s ->
  exists s1 segs, LowerBlock table insns behind (bb_id b) (length pre) s = Ok s1 /\ logged (log ++ segs) s1 /\ lowered_block ctx b (ir_block nx) segs
    /\ _block_offsets s1 = _block_offsets (RegisterBlockOffset (bb_id b) (len (log_bytes log)) s).
Proof.
  intros Ei Hok Enx Hpost Hl. unfold block_ok in Hok. rewrite !andb_true_iff in Hok. destruct Hok as ((((Hid & _) & _) & Hsup) & Hend). rewrite forallb_forall in Hid.
  set (s0 := RegisterBlockOffset (bb_id b) (_write_offset (encoder s)) s). pose proof (logged_block log s (bb_id b) Hl) as Hl0. fold s0 in Hl0.
  assert (Edrop : forall x : nat, drop (length pre + x) insns = drop x (bb_insns b ++ post)) by (intros; rewrite Ei, <- drop_drop, drop_app_length; reflexivity).
  set (n := length (bb_body b)). destruct (lower_supported_run ctx others insns behind (bb_id b) n (length insns - n) (length pre) s0) as (cs & is1 & Ha & Himp & E).
  { rewrite <- (Nat.add_0_r (length pre)), Edrop. change (drop 0 ?l) with l. rewrite <- app_assoc. exact Hsup. }
  { rewrite Ei, !length_app. unfold bb_insns. rewrite length_app. lia. }
  { apply (logged_room _ _ Hl0). }
  destruct (assemble_parts cs is1 (encoder s0) Ha (logged_room _ _ Hl0)) as (e1 & parts & Ee1 & R1 & B1 & P1).
  pose proof (logged_more log s0 e1 (concat parts) Hl0 R1 B1) as Hl1.
  destruct (end_lowers ctx others (bb_compare b) (bb_end b) nx rest Hend) as (k & tl & f & l & its & Ek & Ef & El & Hits & Hjmp & Hflow). fold (bb_tail b) in Ek.
  destruct (do_lops_as l its Hits _ _ Hl1) as (s2 & segs & E2 & L2 & F2 & O2 & C2).
  assert (Ebody : drop n (bb_insns b ++ post) = bb_tail b ++ post) by (unfold bb_insns, n; rewrite <- app_assoc, drop_app_length; reflexivity).
  assert (Elook : insns !! (length pre + n)%nat = Some k).
  { rewrite <- (Nat.add_0_r (length pre + n)), <- lookup_drop, Edrop. rewrite Ebody, Ek. reflexivity. }
  assert (Hk : (ir_block k =? NOP_BLOCK) || (ir_block k =? bb_id b) = true).
  { rewrite (Hid k), orb_true_r; [reflexivity |]. unfold bb_insns. rewrite Ek. apply in_app_iff. right. now left. }
  exists (with_calls (calls s2) s2), (Plain (concat parts) :: segs). split; [| split; [| split]].
  - unfold LowerBlock. fold s0. assert (Hlen : (n + 1 <= length insns)%nat) by (rewrite Ei, !length_app; unfold bb_insns; rewrite length_app, Ek; cbn [length]; unfold n; lia).
    replace (length insns) with (n + (length insns - n))%nat at 1 by lia. rewrite E, Ee1. cbn [rbind].
    destruct (length insns - n)%nat as [|j] eqn:Ej; [lia |]. cbn [lower_block_from]. rewrite Elook, Hk. unfold LowerInstruction. rewrite Elook. cbn [of_option rbind]. rewrite Ef. cbn [of_option rbind].
    rewrite Edrop. rewrite Ebody, <- app_assoc, Enx. unfold bb_tail. rewrite <- app_assoc, El. cbn [rbind]. rewrite E2. cbn [rbind length Nat.leb fst snd].
    rewrite lower_block_stops; [now rewrite C2 |]. rewrite <- Nat.add_assoc, Edrop. unfold bb_insns. rewrite Ek, <- app_assoc.
    rewrite <- drop_drop. unfold n. rewrite drop_app_length. cbn [app drop]. now rewrite drop_app_length.
  - rewrite <- app_assoc in L2. apply logged_calls. exact L2.
  - exists is1, its. split; [constructor; [now constructor | exact F2] |]. split; [| split; [exact Hflow | exact Hjmp]].
    intros m Hm. specialize (Himp m Hm). rewrite <- (Nat.add_0_r (length pre)), Edrop in Himp. change (drop 0 ?x) with x in Himp.
    unfold bb_insns, n in Himp. rewrite <- app_assoc, take_app_length in Himp. exact Himp.
  - cbn [with_calls _block_offsets]. rewrite O2. unfold s0. cbn [with_encoder _block_offsets]. unfold _write_offset. now rewrite (logged_bytes _ _ Hl).
Qed.
End Driver.

(** ** The body of the function *)

Definition program_insns (blocks : list basic_block) : list IRInstruction := concat (map bb_insns blocks).
Fixpoint blocks_ok (ctx : X86LoweringContext) (blocks : list basic_block) (behind : list IRInstruction) : bool :=
  match blocks with
  | [] => true
  | b :: r => block_ok ctx b (program_insns r ++ behind) && blocks_ok ctx r behind
  end.
Definition first_id (blocks : list basic_block) (last : Z) : Z := match blocks with b :: _ => bb_id b | [] => last end.
(** Blocks one behind the other from [at_] on, each at its registered offset. *)
Inductive laid (ctx : X86LoweringContext) (offsets : list Z) (last : Z) : Z -> list basic_block -> list seg -> Prop :=
| laid_none at_ : laid ctx offsets last at_ [] []
| laid_one at_ b r segs more : offsets !! Z.to_nat (bb_id b) = Some at_ -> lowered_block ctx b (first_id r last) segs ->
    laid ctx offsets last (at_ + len (log_bytes segs)) r more -> laid ctx offsets last at_ (b :: r) (segs ++ more).

Lemma register_same block o s : 0 <= block -> _block_offsets (RegisterBlockOffset block o s) !! Z.to_nat block = Some o.
Proof.
  intros H. cbn [RegisterBlockOffset _block_offsets]. apply list_lookup_insert_eq. rewrite length_app, repeat_length. lia.
Qed.
Lemma register_other block o s b x : Z.to_nat b <> Z.to_nat block -> _block_offsets s !! Z.to_nat b = Some x ->
  _block_offsets (RegisterBlockOffset block o s) !! Z.to_nat b = Some x.
Proof.
  intros Hn E. cbn [RegisterBlockOffset _block_offsets]. rewrite list_lookup_insert_ne by congruence. rewrite lookup_app_l; [exact E |]. now apply lookup_lt_Some in E.
Qed.
Lemma bb_insns_first b : exists i l, bb_insns b = i :: l.
Proof. unfold bb_insns, bb_tail. destruct (bb_body b) as [|x l]; [destruct (bb_compare b); cbn [option_list app]; eauto | cbn [app]; eauto]. Qed.
Lemma block_parts ctx b rest : block_ok ctx b rest = true ->
  (forall i, In i (bb_insns b) -> ir_block i = bb_id b) /\ bb_id b <> NOP_BLOCK /\ 0 <= bb_id b /\ end_ok ctx (bb_compare b) (bb_end b) = true.
Proof.
  unfold block_ok. rewrite !andb_true_iff, negb_true_iff, Z.eqb_neq, Z.leb_le, forallb_forall. intros ((((H1 & H2) & H3) & _) & H4).
  split; [intros i Hi; apply Z.eqb_eq; auto | auto].
Qed.
Lemma skip_block l : forall lowerers insns behind r idx current s, (forall i, In i l -> ir_block i = current) ->
  lower_body_from lowerers insns behind (l ++ r) idx current s = lower_body_from lowerers insns behind r (length l + idx) current s.
Proof.
  induction l as [|i l IH]; intros lowerers insns behind r idx current s H; [reflexivity |]. cbn [app lower_body_from]. rewrite (H i (or_introl eq_refl)), Z.eqb_refl, orb_true_r.
  rewrite IH by (intros; apply H; now right). cbn [length]. now rewrite <- Nat.add_succ_comm.
Qed.

Section Body.
Context (ctx : X86LoweringContext) (others : IRInstructionType -> option lowerer) (insns behind rest : list IRInstruction) (nx : IRInstruction).
Hypothesis behind_eq : behind = nx :: rest.

Lemma first_behind blocks : blocks_ok ctx blocks behind = true -> exists i l, program_insns blocks ++ behind = i :: l /\ ir_block i = first_id blocks (ir_block nx).
Proof.
  destruct blocks as [|b r]; cbn [blocks_ok first_id].
  - intros _. exists nx, rest. split; [exact behind_eq | reflexivity].
  - rewrite andb_true_iff. intros [Hb _]. destruct (block_parts _ _ _ Hb) as (Hid & _). destruct (bb_insns_first b) as (i & l & E).
    unfold program_insns. cbn [map concat]. rewrite E. cbn [app]. eexists i, _. split; [reflexivity |]. apply Hid. rewrite E. now left.
Qed.
Lemma lower_body_blocks blocks : forall pre current log s,
  insns = pre ++ program_insns blocks -> blocks_ok ctx blocks behind = true -> NoDup (map bb_id blocks) -> current ∉ map bb_id blocks -> logged log s ->
  exists s1 segs, lower_body_from (Prepare ctx others) insns behind (program_insns blocks) (length pre) current s = Ok s1 /\ logged (log ++ segs) s1
    /\ laid ctx (_block_offsets s1) (ir_block nx) (len (log_bytes log)) blocks segs
    /\ (forall b x, 0 <= b -> b ∉ map bb_id blocks -> _block_offsets s !! Z.to_nat b = Some x -> _block_offsets s1 !! Z.to_nat b = Some x).
Proof.
  induction blocks as [|b blocks IH]; intros pre current log s Ei Hok Hnd Hcur Hl.
  - exists s, []. rewrite app_nil_r. split; [reflexivity |]. split; [exact Hl |]. split; [constructor | auto].
  - cbn [blocks_ok map] in *. apply andb_true_iff in Hok as [Hb Hok]. apply NoDup_cons in Hnd as [Hnin Hnd]. apply not_elem_of_cons in Hcur as [Hc1 Hc2].
    destruct (block_parts _ _ _ Hb) as (Hid & Hnop & Hpos & _). destruct (bb_insns_first b) as (i & l & El). destruct (first_behind blocks Hok) as (ix & lx & Ex & Eix).
    unfold program_insns in Ei |- *. cbn [map concat] in Ei |- *. fold (program_insns blocks) in Ei |- *.
    assert (Hel : elsewhere (bb_id b) (program_insns blocks)).
    { destruct blocks as [|b2 r]; [exact I |]. cbn [blocks_ok map] in *. apply andb_true_iff in Hok as [Hb2 _]. destruct (block_parts _ _ _ Hb2) as (Hid2 & Hnop2 & _).
      destruct (bb_insns_first b2) as (i2 & l2 & E2). unfold program_insns. cbn [map concat]. rewrite E2. cbn [app elsewhere]. rewrite (Hid2 i2) by (rewrite E2; now left).
      split; [intros E; apply Hnin; rewrite <- E; apply list_elem_of_In; now left | exact Hnop2]. }
    destruct (lower_block_items ctx others insns behind b pre (program_insns blocks) ix lx log s Ei Hb Ex Hel Hl) as (s1 & segs & E1 & L1 & Hlb & Eo). rewrite Eix in Hlb.
    assert (Ei2 : insns = (pre ++ bb_insns b) ++ program_insns blocks) by now rewrite <- app_assoc.
    destruct (IH (pre ++ bb_insns b) (bb_id b) (log ++ segs) s1 Ei2 Hok Hnd Hnin L1) as (s2 & more & E2 & L2 & La & Ho).
    exists s2, (segs ++ more). split; [| split; [| split]].
    + assert (Ei' : ir_block i = bb_id b) by (apply Hid; rewrite El; now left). rewrite El at 1. cbn [app lower_body_from]. rewrite Ei'.
      rewrite (proj2 (Z.eqb_neq _ _) Hnop), (proj2 (Z.eqb_neq (bb_id b) current)) by congruence. cbn [orb]. rewrite E1. cbn [rbind].
      rewrite skip_block by (intros; apply Hid; rewrite El; now right). rewrite <- E2. f_equal. rewrite length_app, El. cbn [length]. lia.
    + now rewrite app_assoc.
    + rewrite log_bytes_app, len_app in La. constructor; [| exact Hlb | exact La].
      apply Ho; [exact Hpos | exact Hnin |]. rewrite Eo. now apply register_same.
    + intros c x Hc Hcn Ecx. apply not_elem_of_cons in Hcn as [Hn1 Hn2]. apply (Ho c x Hc Hn2). rewrite Eo. apply register_other; [lia | exact Ecx].
Qed.
End Body.

(** ** The entry *)

Definition header_insns (ctx : X86LoweringContext) (saved : list X86Register) : list insn :=
  map (fun r => IPush (num r)) saved
  ++ (if max_stack ctx saved =? 0 then [] else [IAlu 5 8 (OReg (R 4 8)) (Imm 8 (max_stack ctx saved))])
  ++ [IMov 8 (OReg (R 5 8)) (OReg (R 7 8)); IMov 8 (OReg (R 12 8)) (OReg (R 6 8))].
Lemma header_asked ctx : return_ok ctx = true -> exists cs, LowerHeader ctx = Ok cs /\ Forall2 asks cs (header_insns ctx (saved_registers ctx)).
Proof.
  unfold return_ok, saved_registers, LowerHeader, EmitPrologue. destruct (GetSavedRegisters ctx) as [saved |]; [| discriminate]. unfold frame_ok.
  rewrite !andb_true_iff, forallb_forall. intros ((Hs & H0) & H1). cbn [rbind]. eexists. split; [reflexivity |]. unfold header_insns. rewrite <- app_assoc. apply Forall2_app; [| apply Forall2_app].
  - assert (Hr : Forall (fun r => reg_ok r = true /\ size r = 8) saved).
    { apply Forall_forall. intros r Hr. apply list_elem_of_In in Hr. specialize (Hs r Hr). now rewrite andb_true_iff, Z.eqb_eq in Hs. }
    clear -Hr. induction Hr as [|r l [Hr1 Hr2] _ IH]; cbn [map]; [apply List.Forall2_nil |]. apply List.Forall2_cons; [now apply asks_push_r | exact IH].
  - destruct (max_stack ctx saved =? 0); [apply List.Forall2_nil |]. apply List.Forall2_cons; [| apply List.Forall2_nil].
    apply (asks_alu_ir sub_ir 5 (max_stack ctx saved) REG_RSP); [in_list | lia | reflexivity | discriminate].
  - apply List.Forall2_cons; [apply (asks_mov_rr REG_RDI BLKJIT_REGSTATE_REG); reflexivity |]. apply List.Forall2_cons; [apply (asks_mov_rr REG_RSI BLKJIT_CPUSTATE_REG); reflexivity | apply List.Forall2_nil].
Qed.
(** Writes of whole registers and of memory keep states well formed. *)
Lemma good_upd rs m s k v : good s -> rs = upd (regs s) k v -> m = mem s -> in_range 64 v -> forall c f, good (mkMachine rs m c f).
Proof.
  intros [Gr Gm] -> -> Hv c f. split; cbn; [| exact Gm]. intros r. unfold upd. destruct (r =? k); [exact Hv | apply Gr].
Qed.
Lemma push_good k s s1 : good s -> exec (IPush k) s = Some s1 -> good s1.
Proof.
  intros [Gr Gm] E. change (exec (IPush k) s) with (Some (with_state (upd (regs s) RSP (u64 (regs s RSP - 8))) (store 8 (mem s) (u64 (regs s RSP - 8)) (regs s k)) s)) in E.
  apply (f_equal (fun o : option machine => match o with Some x => x | None => s end)) in E. cbv beta iota in E. subst s1. split; cbn [regs mem with_state].
  - intros r. unfold upd. destruct (r =? RSP); [apply wrap_range; lia | apply Gr].
  - intros a. apply store_range. exact Gm.
Qed.
Lemma pushes_run rs s : good s -> exists s1, exec_all (map (fun r => IPush (num r)) rs) s = Some s1 /\ good s1.
Proof.
  revert s. induction rs as [|r rs IH]; intros s Hg; [exists s; now split |]. cbn [map exec_all]. destruct (exec (IPush (num r)) s) as [s2 |] eqn:E; [| discriminate E].
  apply IH. exact (push_good _ _ _ Hg E).
Qed.
Lemma wide_write_good s op k src s1 : good s -> exec (IAlu op 8 (OReg (R k 8)) src) s = Some s1 \/ exec (IMov 8 (OReg (R k 8)) src) s = Some s1 -> good s1.
Proof.
  intros Hg [H | H]; cbn [exec] in H; [unfold exec_alu in H | unfold exec_mov in H].
  - destruct (read_opnd 8 (OReg (R k 8)) s); [| discriminate]. destruct (read_opnd 8 src s); [| discriminate]. destruct (if (op =? 2) || (op =? 3) then carry s else Some 0); [| discriminate].
    match type of H with context [alu_result ?a ?b ?c ?d ?e] => destruct (alu_result a b c d e) as [x f] end. destruct (op =? 7); [injection H as <-; split; apply Hg |]. cbn [write_opnd] in H. injection H as <-.
    split; cbn; [| apply Hg]. intros r. unfold upd. destruct (r =? k); [apply wrap_range; lia | apply Hg].
  - destruct (read_opnd 8 src s); [| discriminate]. cbn [write_opnd] in H. injection H as <-. split; cbn; [| apply Hg]. intros r. unfold upd. destruct (r =? k); [apply wrap_range; lia | apply Hg].
Qed.
Lemma exec_all_app a b s s1 : exec_all a s = Some s1 -> exec_all (a ++ b) s = exec_all b s1.
Proof. revert s. induction a as [|i a IH]; intros s; cbn [exec_all app]; [now intros [= ->] |]. destruct (exec i s); [apply IH | discriminate]. Qed.
Lemma header_runs ctx saved s : good s -> exists s1, exec_all (header_insns ctx saved) s = Some s1 /\ good s1.
Proof.
  intros Hg. destruct (pushes_run saved s Hg) as (s2 & E2 & G2). unfold header_insns. rewrite (exec_all_app _ _ _ _ E2).
  assert (H : exists s3, exec_all (if max_stack ctx saved =? 0 then [] else [IAlu 5 8 (OReg (R 4 8)) (Imm 8 (max_stack ctx saved))]) s2 = Some s3 /\ good s3).
  { destruct (max_stack ctx saved =? 0); [exists s2; now split |]. cbn [exec_all]. destruct (exec (IAlu 5 8 (OReg (R 4 8)) (Imm 8 (max_stack ctx saved))) s2) as [s3 |] eqn:E.
    - exists s3. split; [reflexivity |]. exact (wide_write_good s2 5 4 (Imm 8 (max_stack ctx saved)) s3 G2 (or_introl E)).
    - cbn [exec] in E. unfold exec_alu in E. cbn [read_opnd Imm Z.eqb orb alu_result write_opnd] in E. discriminate E. }
  destruct H as (s3 & E3 & G3). rewrite (exec_all_app _ _ _ _ E3). cbn [exec_all].
  destruct (exec (IMov 8 (OReg (R 5 8)) (OReg (R 7 8))) s3) as [s4 |] eqn:E4; [| discriminate E4]. pose proof (wide_write_good s3 0 5 _ s4 G3 (or_intror E4)) as G4.
  destruct (exec (IMov 8 (OReg (R 12 8)) (OReg (R 6 8))) s4) as [s5 |] eqn:E5; [| discriminate E5]. exists s5. split; [reflexivity |]. exact (wide_write_good s4 0 12 _ s5 G4 (or_intror E5)).
Qed.

(** ** Running a block *)

Lemma executes_app ctx l1 l2 m m1 m2 : executes ctx l1 m m1 -> executes ctx l2 m1 m2 -> executes ctx (l1 ++ l2) m m2.
Proof. induction 1 as [|i l s s1 s2 Hd Hp _ IH]; intros H2; cbn [app]; [exact H2 |]. exact (executes_one ctx i _ s s1 m2 Hd Hp (IH H2)). Qed.
(** From the block's offset: an instruction whose operation is not defined is
    reached, or its instructions are carried out; then the code goes on at the
    block chosen, or the frame is left and a return is next. *)
Definition block_done (ctx : X86LoweringContext) (code : list Z) (offsets : list Z) (b : basic_block) (pc : Z) (m : machine) : Prop :=
  undefined ctx (bb_run b) m
  \/ exists m1 m2, executes ctx (bb_run b) m m1
       /\ match next_block (bb_end b) m1 with
          | Some t => settles m1 m2 /\ exists pc2, offsets !! Z.to_nat t = Some pc2 /\ steps code pc m pc2 m2
          | None => exec_all (epilogue_insns ctx (saved_registers ctx)) m1 = Some m2
                    /\ exists p r, steps code pc m p m2 /\ decode (drop (Z.to_nat p) code) = Some (IRet, r)
          end.
Lemma laid_block ctx offsets last blocks : forall at_ segs b, laid ctx offsets last at_ blocks segs -> In b blocks ->
  exists l1 sb l2 next, segs = l1 ++ sb ++ l2 /\ offsets !! Z.to_nat (bb_id b) = Some (at_ + len (log_bytes l1)) /\ lowered_block ctx b next sb
    /\ (next = last \/ (exists b2, In b2 blocks /\ next = bb_id b2) /\ offsets !! Z.to_nat next = Some (at_ + len (log_bytes l1) + len (log_bytes sb))).
Proof.
  induction blocks as [|b0 blocks IH]; intros at_ segs b H Hin; [destruct Hin |]. inversion H as [| a b1 r segs0 more Eo Hlb Hl]; subst. destruct Hin as [-> | Hin].
  - exists [], segs0, more, (first_id blocks last). change (len (log_bytes [])) with 0. rewrite Z.add_0_r. split; [reflexivity |]. split; [exact Eo |]. split; [exact Hlb |].
    destruct blocks as [|b2 r]; [now left | right]. inversion Hl as [| a2 b3 r3 segs3 more3 Eo3 _ _]; subst. split; [exists b2; split; [right; now left | reflexivity] | exact Eo3].
  - destruct (IH _ _ b Hl Hin) as (l1 & sb & l2 & next & -> & E1 & E2 & E3). exists (segs0 ++ l1), sb, l2, next. rewrite log_bytes_app, len_app, !Z.add_assoc, <- app_assoc.
    split; [reflexivity |]. split; [exact E1 |]. split; [exact E2 |]. destruct E3 as [E3 | [(b2 & Hb2 & Eb2) E3]]; [now left | right; split; [exists b2; split; [now right | exact Eb2] | exact E3]].
Qed.
Lemma next_in_targets i m t : next_block i m = Some t -> In t (target_ids i).
Proof.
  unfold next_block, target_ids. destruct (type i); try discriminate; destruct (operands i) as [|x [|y [|z [|]]]]; try discriminate; intros [= <-]; cbn; [tauto |]. destruct (input m x =? 0); tauto.
Qed.
Lemma laid_registered ctx offsets last blocks : forall at_ segs b, laid ctx offsets last at_ blocks segs -> In b blocks -> is_Some (offsets !! Z.to_nat (bb_id b)).
Proof. intros at_ segs b H Hin. destruct (laid_block ctx offsets last blocks at_ segs b H Hin) as (l1 & sb & l2 & next & _ & E & _). eauto. Qed.
Section Run.
Context (ctx : X86LoweringContext) (offsets : list Z) (last : Z) (blocks : list basic_block) (pre post : list Z) (segs : list seg).
Let code := pre ++ resolved offsets (len pre) segs ++ post.
Hypothesis laid_here : laid ctx offsets last (len pre) blocks segs.
Hypothesis jumps_fit : Forall well_jumped segs.
Hypothesis size_fits : len code < 2 ^ 31.
Hypothesis offsets_fit : Forall (fun o => 0 <= o <= len code) offsets.
Hypothesis closed : forall b t, In b blocks -> In t (target_ids (bb_end b)) -> exists b2, In b2 blocks /\ t = bb_id b2.
Hypothesis last_outside : forall b, In b blocks -> bb_id b <> last.

Lemma offset_fits b : 0 <= offset_of offsets b <= len code.
Proof.
  unfold offset_of. destruct (nth_in_or_default (Z.to_nat b) offsets 0) as [H | ->]; [| pose proof (len_nonneg code); lia].
  rewrite Forall_forall in offsets_fit. apply offsets_fit. now apply list_elem_of_In.
Qed.
Lemma block_runs b m : In b blocks -> good m -> exists pc, offsets !! Z.to_nat (bb_id b) = Some pc /\ block_done ctx code offsets b pc m.
Proof.
  intros Hin Hm. destruct (laid_block _ _ _ _ _ _ b laid_here Hin) as (l1 & sb & l2 & next & Esegs & Eoff & (is1 & its & Hsegs & Hbody & Hend & Hjmp) & Hnext).
  exists (len pre + len (log_bytes l1)). split; [exact Eoff |]. destruct (Hbody m Hm) as [Hrun | (x1 & i & x2 & s1 & E & Hex & Hnd)].
  2: { left. exists x1, i, (x2 ++ option_list (bb_compare b)), s1. split; [unfold bb_run; rewrite E, <- app_assoc; reflexivity | now split]. }
  right. set (Q := fun o m2 => exists m1, executes ctx (bb_body b) m m1 /\ finishes ctx (bb_compare b) (bb_end b) next m1 o m2).
  assert (Hflow : flow (IOps is1 :: its) m Q).
  { cbn [flow]. eapply runs_weaken; [exact Hrun |]. intros m1 H1. eapply flow_weaken; [apply Hend; exact (executes_good _ _ _ _ Hm H1) |]. intros o m2 H2. exists m1. now split. }
  set (pre1 := pre ++ resolved offsets (len pre) l1). set (post1 := resolved offsets (len pre1 + len (log_bytes sb)) l2 ++ post).
  assert (Ep : len pre1 = len pre + len (log_bytes l1)) by (unfold pre1; now rewrite len_app, resolved_length).
  assert (Ecode : code = pre1 ++ resolved offsets (len pre1) sb ++ post1).
  { unfold code, post1. rewrite Esegs, !resolved_app, Ep. unfold pre1. rewrite <- !app_assoc. reflexivity. }
  assert (Hwell : Forall well_jumped sb) by (rewrite Esegs in jumps_fit; apply Forall_app in jumps_fit as [_ H]; now apply Forall_app in H as [H _]).
  destruct (flow_steps offsets sb _ Hsegs Hwell pre1 post1 m Q Hflow) as (o & m2 & (m1 & Hex & m3 & Hcmp & Hfin) & Harr).
  { split; [| intros; rewrite <- (resolved_length offsets (len pre1)); rewrite <- Z.add_assoc, <- !len_app, <- Ecode; apply offset_fits].
    rewrite <- (resolved_length offsets (len pre1)). rewrite <- Z.add_assoc, <- !len_app, <- Ecode. exact size_fits. }
  rewrite <- Ecode, Ep in Harr. exists m3, m2. split; [exact (executes_app _ _ _ _ _ _ Hex Hcmp) |].
  destruct Hfin as [[Hset Hway] | (Ht & -> & Hepi)].
  - destruct (next_block (bb_end b) m3) as [t |] eqn:Et; [| destruct Hway]. split; [exact Hset |].
    destruct (closed b t Hin (next_in_targets _ _ _ Et)) as (b2 & Hb2 & ->). destruct Hway as [-> | [-> En]]; cbn [arrives] in Harr.
    + destruct (laid_registered _ _ _ _ _ _ b2 laid_here Hb2) as [pc2 E2]. exists pc2. split; [exact E2 |]. replace pc2 with (offset_of offsets (bb_id b2)); [exact Harr |]. unfold offset_of. now apply nth_lookup_Some.
    + destruct Hnext as [Hl | [_ Hoff]]; [exfalso; apply (last_outside b2 Hb2); congruence |]. exists (len pre + len (log_bytes l1) + len (log_bytes sb)). split; [now rewrite En | exact Harr].
  - assert (En : next_block (bb_end b) m3 = None) by (unfold next_block; rewrite Ht; reflexivity). rewrite En. split; [exact Hepi |].
    destruct Harr as (p & r & H1 & H2). exists p, r. now split.
Qed.
End Run.

(** ** The whole function *)

(** Distinct blocks, whose jumps stay among them; what lies behind the last
    instruction does not pass for one of them. *)
Definition program_ok (ctx : X86LoweringContext) (blocks : list basic_block) (behind : list IRInstruction) : bool :=
  blocks_ok ctx blocks behind && bool_decide (NoDup (map bb_id blocks)) && return_ok ctx
  && match behind with nx :: _ => negb (existsb (fun b => bb_id b =? ir_block nx) blocks) | [] => false end
  && forallb (fun b => forallb (fun t => existsb (fun b2 => bb_id b2 =? t) blocks) (target_ids (bb_end b))) blocks
  && match blocks with [] => false | _ => true end.
(** From the start of a block to the start of another, [n] blocks later. *)
Inductive path (ctx : X86LoweringContext) (blocks : list basic_block) : nat -> Z -> machine -> Z -> machine -> Prop :=
| path_none id m : path ctx blocks 0 id m id m
| path_more n b id m m1 m2 id2 m3 t : path ctx blocks n id m (bb_id b) m1 -> In b blocks -> executes ctx (bb_run b) m1 m2 -> next_block (bb_end b) m2 = Some t ->
    settles m2 m3 -> id2 = t -> path ctx blocks (S n) id m id2 m3.
(** What a lowered function does from its entry: it has run [n] blocks, or
    fewer because an operation is not defined, or because it returns. *)
Definition function_runs (ctx : X86LoweringContext) (blocks : list basic_block) (s : lowering_state) (n : nat) (m : machine) : Prop :=
  let code := _buffer (encoder s) in
  exists me k b pc mb, exec_all (header_insns ctx (saved_registers ctx)) m = Some me /\ path ctx blocks k (first_id blocks 0) me (bb_id b) mb /\ (k <= n)%nat
    /\ In b blocks /\ _block_offsets s !! Z.to_nat (bb_id b) = Some pc /\ steps code 0 m pc mb
    /\ (k = n \/ undefined ctx (bb_run b) mb
        \/ exists m1 m2 p r, executes ctx (bb_run b) mb m1 /\ next_block (bb_end b) m1 = None
             /\ exec_all (epilogue_insns ctx (saved_registers ctx)) m1 = Some m2 /\ steps code 0 m p m2 /\ decode (drop (Z.to_nat p) code) = Some (IRet, r)).

Lemma laid_jumps ctx offsets last at_ blocks segs cc t : laid ctx offsets last at_ blocks segs -> In (JumpTo cc t) segs ->
  exists b, In b blocks /\ In t (target_ids (bb_end b)).
Proof.
  induction 1 as [| a b r sb more _ (is1 & its & Hs & _ & _ & Hj) _ IH]; intros Hin; [destruct Hin |]. apply in_app_iff in Hin as [Hin | Hin].
  - exists b. split; [now left |]. inversion Hs as [| x y l1 l2 Hx Hl]; subst. destruct Hin as [-> | Hin]; [inversion Hx |].
    clear -Hin Hj Hl. induction Hl as [| sg it l1 its Hsg _ IH]; [destruct Hin |]. apply List.Forall_cons_iff in Hj as [Hj0 Hj].
    destruct Hin as [-> | Hin]; [inversion Hsg; subst; exact Hj0 | exact (IH Hj Hin)].
  - destruct (IH Hin) as (b2 & H1 & H2). exists b2. split; [now right | exact H2].
Qed.
Lemma relocs_registered (offsets : list Z) l : (forall cc t, In (JumpTo cc t) l -> is_Some (offsets !! Z.to_nat t)) ->
  forall at_, Forall (fun r => is_Some (offsets !! Z.to_nat (snd r))) (relocs_of at_ l).
Proof.
  induction l as [|[bs | cc t] l IH]; intros H at_; cbn [relocs_of]; [apply List.Forall_nil | |].
  - apply IH. intros cc t Hin. apply (H cc t). now right.
  - apply List.Forall_cons; [apply (H cc t); now left |]. apply IH. intros c2 t2 Hin. apply (H c2 t2). now right.
Qed.
Section Whole.
Context (ctx : X86LoweringContext) (others : IRInstructionType -> option lowerer) (blocks : list basic_block) (behind : list IRInstruction).
Hypothesis ok : program_ok ctx blocks behind = true.
Lemma program_parts :
  blocks_ok ctx blocks behind = true /\ NoDup (map bb_id blocks) /\ return_ok ctx = true
  /\ (exists nx rest, behind = nx :: rest /\ forall b, In b blocks -> bb_id b <> ir_block nx)
  /\ (forall b t, In b blocks -> In t (target_ids (bb_end b)) -> exists b2, In b2 blocks /\ t = bb_id b2) /\ blocks <> [].
Proof.
  pose proof ok as H. unfold program_ok in H. rewrite !andb_true_iff in H. destruct H as (((((H1 & H2) & H3) & H4) & H5) & H6). apply bool_decide_eq_true in H2.
  split; [exact H1 |]. split; [exact H2 |]. split; [exact H3 |]. split; [| split].
  - destruct behind as [|nx rest]; [discriminate |]. exists nx, rest. split; [reflexivity |]. intros b Hb E. apply negb_true_iff in H4.
    assert (Ht : existsb (fun b0 => bb_id b0 =? ir_block nx) blocks = true) by (apply existsb_exists; exists b; split; [exact Hb | now apply Z.eqb_eq]). congruence.
  - intros b t Hb Ht. rewrite forallb_forall in H5. specialize (H5 b Hb). rewrite forallb_forall in H5. specialize (H5 t Ht). apply existsb_exists in H5 as (b2 & Hb2 & E). exists b2. split; [exact Hb2 |]. apply Z.eqb_eq in E. congruence.
  - intros E. rewrite E in H6. discriminate.
Qed.
(** The code: that of the header, then the blocks. *)
Lemma Lower_laid : exists s segs0 segs last, Lower ctx others (program_insns blocks) behind = Ok s
  /\ Forall2 seg_as segs0 [IOps (header_insns ctx (saved_registers ctx))]
  /\ laid ctx (_block_offsets s) last (len (log_bytes segs0)) blocks segs /\ (forall b, In b blocks -> bb_id b <> last)
  /\ Forall well_jumped (segs0 ++ segs) /\ Forall (fun o => 0 <= o <= len (_buffer (encoder s))) (_block_offsets s)
  /\ _buffer (encoder s) = resolved (_block_offsets s) 0 (segs0 ++ segs).
Proof.
  destruct program_parts as (Hok & Hnd & Hret & (nx & rest & Eb & Hnx) & Hcl & Hne). destruct (header_asked ctx Hret) as (cs & Ecs & Ha).
  destruct (do_lops_as (map Op cs) [IOps (header_insns ctx (saved_registers ctx))]) with (log := @nil seg) (s := new_lowering) as (s0 & segs0 & E0 & L0 & F0 & _).
  { rewrite <- (app_nil_r (map Op cs)). apply lops_ops; [exact Ha | constructor]. }
  { exact new_logged. }
  assert (Hnop : NOP_BLOCK ∉ map bb_id blocks).
  { intros Hin. apply list_elem_of_In, in_map_iff in Hin as (b & E & Hb). clear -Hok E Hb. revert Hok. induction blocks as [|b0 r IH]; [destruct Hb |]. cbn [blocks_ok]. rewrite andb_true_iff. intros [H1 H2].
    destruct Hb as [-> | Hb]; [destruct (block_parts _ _ _ H1) as (_ & H & _); congruence | now apply IH]. }
  destruct (lower_body_blocks ctx others (program_insns blocks) behind rest nx Eb blocks [] NOP_BLOCK segs0 s0 eq_refl Hok Hnd Hnop L0) as (s1 & segs & E1 & L1 & La & _).
  assert (Hreg : Forall (fun r => is_Some (_block_offsets s1 !! Z.to_nat (snd r))) (relocs_of (len []) (segs0 ++ segs))).
  { apply relocs_registered. intros cc t Hin. apply in_app_iff in Hin as [Hin | Hin].
    - exfalso. inversion F0 as [| x y l1 l2 Hx Hl]; subst. inversion Hl; subst. destruct Hin as [-> | []]. inversion Hx.
    - destruct (laid_jumps _ _ _ _ _ _ cc t La Hin) as (b & Hb & Ht). destruct (Hcl b t Hb Ht) as (b2 & Hb2 & ->). exact (laid_registered _ _ _ _ _ _ b2 La Hb2). }
  pose proof (perform_resolved (_block_offsets s1) (segs0 ++ segs) [] Hreg) as P. cbn [app] in P. change (len []) with 0 in P.
  cbn [app] in L1. eexists (with_encoder (mkEncoder (resolved (_block_offsets s1) 0 (segs0 ++ segs)) (_buffer_size (encoder s1)) (_support_relocation (encoder s1))) s1), segs0, segs, (ir_block nx).
  cbn [with_encoder encoder _buffer _block_offsets]. split; [| split; [exact F0 | split; [exact La | split; [exact Hnx | split; [apply (logged_jumps _ _ L1) | split; [| reflexivity]]]]]].
  - unfold Lower. rewrite Ecs. cbn [rbind]. rewrite E0. cbn [rbind]. unfold LowerBody. cbn [length] in E1. rewrite E1. cbn [rbind].
    unfold PerformRelocations. rewrite (logged_bytes _ _ L1), (logged_relocs _ _ L1), P. reflexivity.
  - rewrite resolved_length. exact (logged_offsets _ _ L1).
Qed.
End Whole.
(** Block after block, from where each of them starts. *)
Section Many.
Context (ctx : X86LoweringContext) (blocks : list basic_block) (code offsets : list Z).
Hypothesis each_runs : forall b m, In b blocks -> good m -> exists pc, offsets !! Z.to_nat (bb_id b) = Some pc /\ block_done ctx code offsets b pc m.
Hypothesis closed : forall b t, In b blocks -> In t (target_ids (bb_end b)) -> exists b2, In b2 blocks /\ t = bb_id b2.
Definition stops (m : machine) (b : basic_block) (mb : machine) : Prop :=
  undefined ctx (bb_run b) mb
  \/ exists m1 m2 p r, executes ctx (bb_run b) mb m1 /\ next_block (bb_end b) m1 = None
       /\ exec_all (epilogue_insns ctx (saved_registers ctx)) m1 = Some m2 /\ steps code 0 m p m2 /\ decode (drop (Z.to_nat p) code) = Some (IRet, r).
Lemma many_blocks m me b0 pc0 n : In b0 blocks -> offsets !! Z.to_nat (bb_id b0) = Some pc0 -> steps code 0 m pc0 me -> good me ->
  exists k b pc mb, path ctx blocks k (bb_id b0) me (bb_id b) mb /\ (k <= n)%nat /\ In b blocks /\ offsets !! Z.to_nat (bb_id b) = Some pc /\ steps code 0 m pc mb /\ good mb
    /\ (k = n \/ stops m b mb).
Proof.
  intros Hb0 E0 Hst0 Gme. induction n as [|n (k & b & pc & mb & Hp & Hk & Hb & Epc & Hst & Gb & Hend)].
  - exists 0%nat, b0, pc0, me. split; [constructor |]. split; [lia |]. do 4 (split; [assumption |]). now left.
  - destruct Hend as [-> | Hend]; [| exists k, b, pc, mb; split; [exact Hp |]; split; [lia |]; do 4 (split; [assumption |]); now right].
    destruct (each_runs b mb Hb Gb) as (pc1 & Epc1 & Hdone). assert (pc1 = pc) by congruence. subst pc1. destruct Hdone as [Hu | (m1 & m2 & Hex & Hnext)].
    + exists n, b, pc, mb. split; [exact Hp |]. split; [lia |]. do 4 (split; [assumption |]). right. now left.
    + destruct (next_block (bb_end b) m1) as [t |] eqn:Et.
      * destruct Hnext as (Hset & pc2 & Epc2 & Hst2). destruct (closed b t Hb (next_in_targets _ _ _ Et)) as (b2 & Hb2 & ->). exists (S n), b2, pc2, m2.
        split; [exact (path_more ctx blocks n b _ me mb m1 _ m2 _ Hp Hb Hex Et Hset eq_refl) |]. split; [lia |]. split; [exact Hb2 |]. split; [exact Epc2 |].
        split; [exact (steps_trans _ _ _ _ _ _ _ Hst Hst2) |]. split; [exact (settles_good _ _ Hset) | now left].
      * destruct Hnext as (Hepi & p & r & Hst2 & Hret). exists n, b, pc, mb. split; [exact Hp |]. split; [lia |]. do 4 (split; [assumption |]). right. right.
        exists m1, m2, p, r. do 3 (split; [assumption |]). split; [exact (steps_trans _ _ _ _ _ _ _ Hst Hst2) | exact Hret].
Qed.
End Many.
Lemma header_steps code offsets segs0 after is1 m me : Forall2 seg_as segs0 [IOps is1] -> Forall well_jumped segs0 ->
  code = resolved offsets 0 segs0 ++ after -> len code < 2 ^ 31 -> Forall (fun o => 0 <= o <= len code) offsets -> exec_all is1 m = Some me ->
  steps code 0 m (len (log_bytes segs0)) me.
Proof.
  intros F0 Hj Ecode Hsize Hoff Eme. destruct (flow_steps offsets segs0 _ F0 Hj [] after m (fun o m1 => o = Falls /\ m1 = me)) as (o & m1 & [-> ->] & H).
  - cbn [flow]. exists me. split; [exact Eme | now split].
  - assert (Hl : len [] + len (log_bytes segs0) + len after = len code) by (rewrite Ecode, len_app, resolved_length; reflexivity).
    rewrite Hl. split; [exact Hsize |]. intros cc b _. rewrite Forall_forall in Hoff. unfold offset_of.
    destruct (nth_in_or_default (Z.to_nat b) offsets 0) as [H | ->]; [apply Hoff; now apply list_elem_of_In | pose proof (len_nonneg code); lia].
  - cbn [arrives app] in H. change (len []) with 0 in H. rewrite <- Ecode in H. exact H.
Qed.
(** C2. A function whose blocks hold supported instructions and end
    with jumps among them or returns, with a comparison merged into its branch
    or not: Lower never fails on it, and its code, executed from the entry,
    carries out the instructions of block after block in the order the
    branches choose.  For any number of blocks it runs that many, unless it
    reaches an operation that is not defined, or leaves the frame and stands
    at a return. *)
Theorem lowered_program_runs ctx others blocks behind :
  program_ok ctx blocks behind = true ->
  exists s, Lower ctx others (program_insns blocks) behind = Ok s
    /\ (len (_buffer (encoder s)) < 2 ^ 31 -> forall n m, good m -> function_runs ctx blocks s n m).
Proof.
  intros Hok. destruct (Lower_laid ctx others blocks behind Hok) as (s & segs0 & segs & last & Es & F0 & La & Hlast & Hjumps & Hoff & Ebuf).
  destruct (program_parts ctx blocks behind Hok) as (_ & _ & _ & _ & Hcl & Hne). exists s. split; [exact Es |]. intros Hsize n m Hm.
  set (offsets := _block_offsets s) in *. set (code := _buffer (encoder s)) in *.
  apply Forall_app in Hjumps as [Hj0 Hj1]. pose proof (resolved_length offsets 0 segs0) as Elen.
  assert (Ecode : code = resolved offsets 0 segs0 ++ resolved offsets (len (resolved offsets 0 segs0)) segs ++ []) by (rewrite Ebuf, resolved_app, Elen, app_nil_r; reflexivity).
  rewrite <- Elen in La.
  assert (Hruns : forall b m1, In b blocks -> good m1 -> exists pc, offsets !! Z.to_nat (bb_id b) = Some pc /\ block_done ctx code offsets b pc m1).
  { intros b m1 Hb Hm1. rewrite Ecode. apply (block_runs ctx offsets last blocks (resolved offsets 0 segs0) [] segs); try assumption; rewrite <- Ecode; assumption. }
  destruct (header_runs ctx (saved_registers ctx) m Hm) as (me & Eme & Gme).
  assert (Hentry : steps code 0 m (len (log_bytes segs0)) me).
  { apply (header_steps code offsets segs0 (resolved offsets (len (resolved offsets 0 segs0)) segs) (header_insns ctx (saved_registers ctx))); try assumption. now rewrite app_nil_r in Ecode. }
  destruct blocks as [|b0 r]; [congruence |]. inversion La as [| a b1 r1 sb more Eo _ _]; subst b1 r1 a. rewrite Elen in Eo.
  destruct (many_blocks ctx (b0 :: r) code offsets Hruns Hcl m me b0 _ n (or_introl eq_refl) Eo Hentry Gme) as (k & b & pc & mb & Hp & Hk & Hb & Epc & Hst & _ & Hend).
  exists me, k, b, pc, mb. do 6 (split; [assumption |]). exact Hend.
Qed.
(** The loop that counts down from ten. *)
Definition sample_blocks : list basic_block :=
  let x := sample_register 0 1 4 in
  let z := sample_register 1 2 1 in
  [mkBlock 0 [mkInsn [const32 10; x] 0 MOV] None (mkInsn [block_op 1] 0 JMP);
   mkBlock 1 [mkInsn [const32 1; x] 1 SUB] (Some (mkInsn [x; const32 0; z] 1 CMPNE)) (mkInsn [z; block_op 1; block_op 2] 1 BRANCH);
   mkBlock 2 [] None (mkInsn [] 2 RET)].
Lemma lowered_program_runs_witness :
  program_insns sample_blocks = sample_loop
  /\ exists s, Lower sample_context (fun _ => None) (program_insns sample_blocks) [mkInsn [] 3 NOP] = Ok s
       /\ (len (_buffer (encoder s)) < 2 ^ 31 -> forall n m, good m -> function_runs sample_context sample_blocks s n m).
Proof. split; [reflexivity |]. apply (lowered_program_runs sample_context (fun _ => None) sample_blocks [mkInsn [] 3 NOP]). vm_compute. reflexivity. Defined.
