(* ===== verification/X86Frame.v ===== *)
(** * The frame of a lowered function, and of the calls it makes

    The prologue saves the registers that the ABI has the callee keep, the
    epilogue brings them back; around a call, the registers in use are pushed
    and popped, and the stack is aligned at the call. *)

From Stdlib Require Import ZArith Lia List Bool String.
From stdpp Require Import base numbers list gmap.
From S2P Require Import Prelude BlockIR X86Encoder X86Decode X86Shapes X86Conditions X86Correct X86Machine X86Lower X86LowerFlow X86Steps X86LowerArith X86LowerGuest X86Relocs X86Blocks X86Program.
Import ListNotations.
#[local] Open Scope Z_scope.
#[local] Open Scope gensim_scope.

(** ** Pushes and pops *)

Definition pushes (rs : list X86Register) : list insn := map (fun r => IPush (num r)) rs.
Definition pops (rs : list X86Register) : list insn := map (fun r => IPop (num r)) rs.
Definition count (rs : list X86Register) : Z := Z.of_nat (length rs).
Definition keeps_rsp (rs : list X86Register) : Prop := forall r, In r rs -> num r <> 4.
Lemma load_address n m a b : u64 a = u64 b -> load n m a = load n m b.
Proof. intros E. rewrite <- (load_u64 n m a), E. apply load_u64. Qed.
Record after_pushes (rs : list X86Register) (s s1 : machine) : Prop := mkPushes {
  pushes_good : good s1;
  pushes_rsp : regs s1 4 = u64 (regs s 4 - 8 * count rs);
  pushes_regs : forall k, k <> 4 -> regs s1 k = regs s k;
  pushes_saved : forall i r, rs !! i = Some r -> load 8 (mem s1) (regs s 4 - 8 * (Z.of_nat i + 1)) = regs s (num r);
  pushes_mem : forall a, (forall j, 0 <= j < 8 * count rs -> a <> u64 (regs s 4 - 1 - j)) -> mem s1 a = mem s a }.
Lemma pushes_done rs : forall s, good s -> keeps_rsp rs -> count rs < 2 ^ 32 -> exists s1, exec_all (pushes rs) s = Some s1 /\ after_pushes rs s s1.
Proof.
  induction rs as [|r rs IH]; intros s Hg Hk Hc.
  - exists s. split; [reflexivity |]. split; [exact Hg | | reflexivity | intros i r Hi; discriminate Hi | reflexivity]. cbn. rewrite Z.sub_0_r. symmetry. apply wrap_small, Hg.
  - assert (Hc' : count (r :: rs) = count rs + 1) by (unfold count; cbn [length]; lia). assert (H0 : 0 <= count rs) by (unfold count; lia).
    set (p := u64 (regs s 4 - 8)). set (s2 := with_state (upd (regs s) RSP p) (store 8 (mem s) p (regs s (num r))) s).
    assert (E2 : exec (IPush (num r)) s = Some s2) by reflexivity. pose proof (push_good _ _ _ Hg E2) as G2.
    assert (R2 : regs s2 4 = p) by (unfold s2; cbn [with_state regs]; change RSP with 4; apply upd_same).
    assert (O2 : forall k, k <> 4 -> regs s2 k = regs s k) by (intros k Hk4; unfold s2; cbn [with_state regs]; change RSP with 4; now apply upd_other).
    assert (M2 : mem s2 = store 8 (mem s) p (regs s (num r))) by reflexivity. clearbody s2.
    destruct (IH s2 G2) as (s1 & E1 & [G1 R1 O1 S1 M1]); [intros x Hx; apply Hk; now right | lia |].
    assert (P1 : forall d, u64 (p + d) = u64 (regs s 4 - 8 + d)) by (intros d; unfold p; apply u64_add).
    assert (Hp : forall j, u64 (regs s2 4 - 1 - j) = u64 (regs s 4 - 8 - 1 - j)).
    { intros j. rewrite R2. replace (p - 1 - j) with (p + (- 1 - j)) by lia. rewrite P1. f_equal. lia. }
    exists s1. split; [cbn [pushes map exec_all]; rewrite E2; exact E1 |]. split.
    + exact G1.
    + rewrite R1, R2, Hc'. replace (p - 8 * count rs) with (p + - (8 * count rs)) by lia. rewrite P1. f_equal. lia.
    + intros k Hk4. now rewrite O1, O2.
    + intros i x Hi. destruct i as [|i]; cbn [lookup list_lookup] in Hi.
      * injection Hi as <-. change (Z.of_nat 0 + 1) with 1. rewrite Z.mul_1_r, <- load_u64. fold p.
        rewrite (load_ext 8 (mem s1) (mem s2)).
        { rewrite M2, load_stored by lia. apply wrap_small, Hg. }
        intros i Hi. apply M1. intros j Hj E. rewrite Hp, P1 in E. apply u64_inj_near in E; lia.
      * specialize (S1 i x Hi). rewrite (O2 (num x)) in S1 by (apply Hk; right; apply list_elem_of_In; exact (list_elem_of_lookup_2 _ _ _ Hi)). rewrite <- S1, R2. apply load_address.
        replace (p - 8 * (Z.of_nat i + 1)) with (p + - (8 * (Z.of_nat i + 1))) by lia. rewrite P1. f_equal. lia.
    + intros a Ha. rewrite M1, M2.
      * apply store_other. intros i Hi ->. apply (Ha (7 - i)); [lia |]. rewrite P1. f_equal. lia.
      * intros j Hj ->. apply (Ha (j + 8)); [lia |]. rewrite Hp. f_equal. lia.
Qed.
Record after_pops (rs : list X86Register) (V : Z -> Z) (s s1 : machine) : Prop := mkPops {
  pops_rsp : regs s1 4 = u64 (regs s 4 + 8 * count rs);
  pops_regs : forall r, In r rs -> regs s1 (num r) = V (num r);
  pops_others : forall k, k <> 4 -> (forall r, In r rs -> num r <> k) -> regs s1 k = regs s k;
  pops_mem : mem s1 = mem s }.
Lemma pops_done rs V : forall s, in_range 64 (regs s 4) -> keeps_rsp rs ->
  (forall i r, rs !! i = Some r -> load 8 (mem s) (regs s 4 + 8 * Z.of_nat i) = V (num r)) -> exists s1, exec_all (pops rs) s = Some s1 /\ after_pops rs V s s1.
Proof.
  induction rs as [|r rs IH]; intros s Hg Hk Hv.
  - exists s. split; [reflexivity |]. split; [| intros r [] | reflexivity | reflexivity]. cbn. rewrite Z.add_0_r. symmetry. now apply wrap_small.
  - set (s2 := with_state (upd (upd (regs s) RSP (u64 (regs s RSP + 8))) (num r) (load 8 (mem s) (regs s RSP))) (mem s) s).
    assert (E2 : exec (IPop (num r)) s = Some s2) by reflexivity. assert (N4 : num r <> 4) by (apply Hk; now left).
    assert (R2 : regs s2 4 = u64 (regs s 4 + 8)) by (unfold s2; cbn [with_state regs]; change RSP with 4; rewrite upd_other by congruence; apply upd_same).
    assert (V2 : regs s2 (num r) = V (num r)).
    { unfold s2. cbn [with_state regs]. rewrite upd_same. rewrite <- (Hv 0%nat r eq_refl). change RSP with 4. f_equal. cbn. lia. }
    assert (O2 : forall k, k <> 4 -> k <> num r -> regs s2 k = regs s k) by (intros k Hk4 Hkr; unfold s2; cbn [with_state regs]; change RSP with 4; now rewrite !upd_other).
    assert (M2 : mem s2 = mem s) by reflexivity. clearbody s2.
    destruct (IH s2) as (s1 & E1 & [P1 Q1 O1 M1]).
    + rewrite R2. apply wrap_range. lia.
    + intros x Hx. apply Hk. now right.
    + intros i x Hi. rewrite M2, R2, <- load_u64, u64_add, load_u64. rewrite <- (Hv (S i) x Hi). f_equal. lia.
    + exists s1. split; [cbn [pops map exec_all]; rewrite E2; exact E1 |]. split.
      * rewrite P1, R2, u64_add. f_equal. unfold count. cbn [length]. lia.
      * intros x [<- | Hx]; [| now apply Q1]. destruct (in_dec Z.eq_dec (num r) (map num rs)) as [Hin | Hin].
        -- apply in_map_iff in Hin as (y & Ey & Hy). rewrite <- Ey. now apply Q1.
        -- rewrite O1; [exact V2 | exact N4 |]. intros y Hy E. apply Hin. rewrite <- E. now apply in_map.
      * intros k Hk4 Hkn. rewrite O1; [apply O2; [exact Hk4 |] | exact Hk4 |]; [intros ->; exact (Hkn r (or_introl eq_refl) eq_refl) | intros y Hy; apply Hkn; now right].
      * congruence.
Qed.

(** ** The registers saved *)

Definition own_number (k : Z) : bool := existsb (Z.eqb k) register_assignments.

Lemma allocable_number i r : get_allocable_register i 8 = Ok r -> exists k, register_assignments !! Z.to_nat i = Some k /\ r = T k 8 /\ own_number k = true.
Proof.
  unfold get_allocable_register. destruct (register_assignments !! Z.to_nat i) as [k |] eqn:E; [| discriminate]. intros H. change (REGS k 8) with (@Ok X86Register (T k 8)) in H.
  exists k. split; [reflexivity |]. split; [cbn in H; congruence |]. apply list_elem_of_lookup_2, list_elem_of_In in E. cbn in E. unfold own_number. repeat (destruct E as [<- | E]; [reflexivity |]); destruct E.
Qed.
Lemma registers_at_spec idx l : registers_at idx = Ok l ->
  length l = length idx /\ (forall r, In r l -> exists k, r = T k 8 /\ own_number k = true)
  /\ forall i, In i idx -> exists k, register_assignments !! Z.to_nat i = Some k /\ In (T k 8) l.
Proof.
  revert l. induction idx as [|i idx IH]; intros l; cbn [registers_at].
  - intros [= <-]. repeat split; intros ? [].
  - destruct (get_allocable_register i 8) as [r |] eqn:E; [| discriminate]. cbn [rbind]. destruct (registers_at idx) as [l1 |]; [| discriminate]. cbn [rbind]. intros [= <-].
    destruct (IH l1 eq_refl) as (H1 & H2 & H3). destruct (allocable_number i r E) as (k & Ek & -> & Hk). split; [cbn; lia |]. split.
    + intros x [<- | Hx]; [eauto | now apply H2].
    + intros j [<- | Hj]; [exists k; split; [exact Ek | now left] |]. destruct (H3 j Hj) as (k2 & E2 & Hin). exists k2. split; [exact E2 | now right].
Qed.
Lemma own_number_facts k : own_number k = true -> reg_number k /\ k <> 4 /\ num (T k 8) = k /\ ABICalleeSave (T k 8) = ((k =? 3) || (12 <=? k)).
Proof.
  unfold own_number. rewrite existsb_exists. intros (x & Hin & ->%Z.eqb_eq). cbn in Hin. unfold reg_number.
  repeat destruct Hin as [<- | Hin]; try (repeat split; (lia || reflexivity)).
Qed.

(** ** The frame *)

Record moved (d : Z) (s s1 : machine) : Prop := mkMoved {
  moved_rsp : regs s1 4 = u64 (regs s 4 + d);
  moved_regs : forall k, k <> 4 -> regs s1 k = regs s k;
  moved_mem : mem s1 = mem s }.
Lemma imm_small f : 0 <= f < 2 ^ 31 -> wrap (8 * 8) (imm_value 8 f) = f.
Proof.
  intros H. unfold imm_value. change (8 * 8) with 64. rewrite wrap_wrap by lia. unfold sext. rewrite (wrap_small 32 f) by (split; lia). cbn [Z.sub].
  change (32 - 1) with 31. rewrite (proj2 (Z.ltb_lt f (2 ^ 31))) by lia. apply wrap_small. split; lia.
Qed.
(** The frame opened and closed; none is needed for no slots. *)
Definition frame_move (op f : Z) : list insn := if f =? 0 then [] else [IAlu op 8 (OReg (R 4 8)) (Imm 8 f)].
Lemma frame_moved op f s : op = 0 \/ op = 5 -> 0 <= f < 2 ^ 31 -> in_range 64 (regs s 4) ->
  exists s1, exec_all (frame_move op f) s = Some s1 /\ moved (if op =? 0 then f else - f) s s1.
Proof.
  intros Hop Hf Hr. unfold frame_move. destruct (Z.eqb_spec f 0) as [-> | Hf0].
  - exists s. split; [reflexivity |]. split; [| reflexivity | reflexivity]. replace (if op =? 0 then 0 else - 0) with 0 by now destruct (op =? 0). rewrite Z.add_0_r. symmetry. now apply wrap_small.
  - cbn [exec_all exec]. unfold exec_alu. cbn [read_opnd]. change (read_opnd 8 (Imm 8 f) s) with (Some (wrap (8 * 8) (imm_value 8 f))). rewrite (imm_small f Hf).
    assert (E : reg_value (regs s) (R 4 8) = regs s 4) by (cbn [reg_value]; now apply wrap_small). rewrite E.
    destruct Hop as [-> | ->]; cbn [Z.eqb orb alu_result write_opnd]; eexists; (split; [reflexivity |]); (split; [| intros k Hk; cbn [with_flags with_state write_reg regs]; now rewrite upd_other | reflexivity]);
      cbn [with_flags with_state write_reg regs Z.eqb orb]; rewrite upd_same; change (8 * 8) with 64; rewrite wrap_wrap by lia; f_equal; lia.
Qed.
Lemma used_indices_spec ctx : NoDup (used_indices ctx) /\ forall i, i ∈ used_indices ctx -> 0 <= i.
Proof.
  split; [apply NoDup_filter, NoDup_seqZ |]. intros i Hin. unfold used_indices in Hin. apply list_elem_of_filter in Hin as [_ Hin]. apply elem_of_seqZ in Hin. lia.
Qed.
Lemma few_registers idx l : NoDup idx -> (forall i, i ∈ idx -> 0 <= i) -> registers_at idx = Ok l -> (length l <= 9)%nat.
Proof.
  intros Hnd Hp E. destruct (registers_at_spec _ _ E) as (-> & _ & Hi). change 9%nat with (length (seqZ 0 9)). apply submseteq_length, NoDup_submseteq; [exact Hnd |].
  intros i Hin. apply elem_of_seqZ. destruct (Hi i) as (k & Ek & _); [now apply list_elem_of_In |]. apply lookup_lt_Some in Ek. change (length register_assignments) with 9%nat in Ek. specialize (Hp i Hin). lia.
Qed.

(** ** Calling convention *)


(** ** Around a call *)

Lemma registers_at_app a : forall b la lb, registers_at a = Ok la -> registers_at b = Ok lb -> registers_at (a ++ b) = Ok (la ++ lb).
Proof.
  induction a as [|i a IH]; intros b la lb Ea Eb; cbn [registers_at app] in *; [injection Ea as <-; exact Eb |].
  destruct (get_allocable_register i 8) as [r |]; [| discriminate]. cbn [rbind] in *. destruct (registers_at a) as [l |] eqn:E; [| discriminate]. cbn [rbind] in Ea.
  rewrite (IH b l lb eq_refl Eb). cbn [rbind]. injection Ea as <-. reflexivity.
Qed.
Lemma registers_at_rev idx l : registers_at idx = Ok l -> registers_at (rev idx) = Ok (rev l).
Proof.
  revert l. induction idx as [|i idx IH]; intros l; cbn [registers_at rev]; [now intros [= <-] |].
  destruct (get_allocable_register i 8) as [r |] eqn:E; [| discriminate]. cbn [rbind]. destruct (registers_at idx) as [l1 |]; [| discriminate]. cbn [rbind]. intros [= <-].
  apply registers_at_app; [now apply IH |]. cbn [registers_at]. now rewrite E.
Qed.
Lemma push_all_spec idx : forall off m x, push_all idx off m = Ok x ->
  exists l, registers_at idx = Ok l /\ fst x = map push_r l
    /\ (forall i o, snd x !! i = Some o -> m !! i = Some o \/ exists j, idx !! j = Some i /\ o = off - 8 * (Z.of_nat j + 1))
    /\ forall i, i ∈ idx \/ is_Some (m !! i) -> is_Some (snd x !! i).
Proof.
  induction idx as [|i idx IH]; intros off m x; cbn [push_all registers_at].
  - intros [= <-]. exists []. split; [reflexivity |]. split; [reflexivity |]. split; [now left |]. intros k [Hk | Hk]; [now apply not_elem_of_nil in Hk | exact Hk].
  - destruct (get_allocable_register i 8) as [r |]; [| discriminate]. cbn [rbind]. destruct (push_all idx (off - 8) (<[i := off - 8]> m)) as [y |] eqn:E; [| discriminate]. cbn [rbind]. intros [= <-].
    destruct (IH _ _ _ E) as (l & El & Ey & Hm & Hs). exists (r :: l). rewrite El. cbn [rbind fst snd map]. rewrite Ey. do 2 (split; [reflexivity |]). split.
    + intros k o Hk. destruct (Hm k o Hk) as [H | (j & Hj & ->)].
      * apply lookup_insert_Some in H as [[<- <-] | [_ H]]; [right; exists 0%nat; split; [reflexivity | lia] | now left].
      * right. exists (S j). split; [exact Hj | lia].
    + intros k Hk. apply Hs. rewrite lookup_insert_is_Some'. destruct Hk as [[-> | Hk]%elem_of_cons | Hk]; auto.
Qed.
(** The stack moved by a constant, and the registers pushed. *)
Definition save_insns (fix_stack : bool) (l : list X86Register) : list insn := frame_move 5 (if fix_stack then 8 else 0) ++ pushes l.
Definition restore_insns (fix_stack : bool) (l : list X86Register) : list insn := pops l ++ frame_move 0 (if fix_stack then 8 else 0).
Lemma allocated_pushes l : (forall r, In r l -> exists k, r = T k 8 /\ own_number k = true) -> Forall2 asks (map push_r l) (pushes l) /\ Forall2 asks (map X86Encoder.pop l) (pops l) /\ keeps_rsp l.
Proof.
  intros H. assert (Hr : Forall (fun r => reg_ok r = true /\ size r = 8 /\ num r <> 4) l).
  { apply Forall_forall. intros r Hr. apply list_elem_of_In in Hr. destruct (H r Hr) as (k & -> & Hk). destruct (own_number_facts k Hk) as (Hn & H4 & En & _). split; [| split; [reflexivity | now rewrite En]].
    unfold own_number in Hk. apply existsb_exists in Hk as (x & Hin & ->%Z.eqb_eq). cbn in Hin. repeat (destruct Hin as [<- | Hin]; [reflexivity |]). destruct Hin. }
  clear H. induction Hr as [|r l (H1 & H2 & H4) _ (IH1 & IH2 & IH3)]; cbn [map pushes pops]; [split; [| split; [| intros r []]]; apply List.Forall2_nil |].
  split; [| split]; [apply List.Forall2_cons; [now apply asks_push_r | exact IH1] | apply List.Forall2_cons; [now apply asks_pop | exact IH2] |].
  intros x [<- | Hx]; [exact H4 | now apply IH3].
Qed.
Lemma save_asked ctx cs st : emit_save_reg_state ctx = Ok (cs, st) ->
  exists l, registers_at (saved_at_call ctx) = Ok l /\ (_stack_fixed st = Nat.even (length l)) /\ Forall2 asks cs (save_insns (_stack_fixed st) (rev l))
    /\ (exists cs2, emit_restore_reg_state ctx st = Ok cs2 /\ Forall2 asks cs2 (restore_insns (_stack_fixed st) l)) /\ keeps_rsp l
    /\ (forall i o, _stack_map st !! i = Some o -> exists j, saved_at_call ctx !! j = Some i /\ o = 8 * Z.of_nat j)
    /\ forall i, i ∈ saved_at_call ctx -> is_Some (_stack_map st !! i).
Proof.
  unfold emit_save_reg_state. destruct (push_all _ _ _) as [x |] eqn:E; [| discriminate]. cbn [rbind]. intros [= <- <-]. cbn [_stack_fixed _stack_map].
  destruct (push_all_spec _ _ _ _ E) as (lr & Elr & Ex & Hm & Hs). pose proof (registers_at_rev _ _ Elr) as El. rewrite rev_involutive in El. exists (rev lr).
  destruct (registers_at_spec _ _ El) as (Hlen & Hown & _). destruct (allocated_pushes (rev lr) Hown) as (_ & Ha2 & Hk).
  assert (Ha1 : Forall2 asks (map push_r lr) (pushes lr)) by (apply allocated_pushes; intros r Hr; apply Hown; now apply -> in_rev).
  assert (Hsub : asks (sub_ir 8 REG_RSP) (IAlu 5 8 (OReg (R 4 8)) (Imm 8 8))) by (apply (asks_alu_ir sub_ir 5 8 REG_RSP); [in_list | lia | reflexivity | discriminate]).
  assert (Hadd : asks (add_ir 8 REG_RSP) (IAlu 0 8 (OReg (R 4 8)) (Imm 8 8))) by (apply (asks_alu_ir add_ir 0 8 REG_RSP); [in_list | lia | reflexivity | discriminate]).
  rewrite Hlen, rev_involutive. split; [exact El |]. split; [reflexivity |]. split; [| split; [| split; [| split]]].
  - unfold save_insns. rewrite Ex. apply Forall2_app; [| exact Ha1]. destruct (Nat.even _); cbn [frame_move Z.eqb]; [apply List.Forall2_cons; [exact Hsub |] |]; apply List.Forall2_nil.
  - unfold emit_restore_reg_state. rewrite El. cbn [rbind]. eexists. split; [reflexivity |]. unfold restore_insns. apply Forall2_app; [exact Ha2 |].
    destruct (Nat.even _); cbn [frame_move Z.eqb]; [apply List.Forall2_cons; [exact Hadd |] |]; apply List.Forall2_nil.
  - exact Hk.
  - intros i o Hi. destruct (Hm i o Hi) as [H | (j & Hj & ->)]; [discriminate H |]. rewrite rev_alt in Hj. apply reverse_lookup_Some in Hj as [Hj Hlt].
    exists (length (saved_at_call ctx) - S j)%nat. split; [exact Hj |]. lia.
  - intros i Hi. apply Hs. left. apply list_elem_of_In, in_rev. rewrite rev_involutive. now apply list_elem_of_In.
Qed.
Lemma u64_sub a b : u64 (a - u64 b) = u64 (a - b).
Proof. unfold wrap. apply Zminus_mod_idemp_r. Qed.
Lemma u64_mod16 a : u64 a mod 16 = a mod 16.
Proof. unfold wrap. apply Z.mod_mod_divide. exists (2 ^ 60). reflexivity. Qed.
Lemma few_at_call ctx l : registers_at (saved_at_call ctx) = Ok l -> (length l <= 9)%nat.
Proof.
  destruct (used_indices_spec ctx) as [Hnd Hp]. apply few_registers; [now apply NoDup_filter |]. intros i Hin. unfold saved_at_call in Hin.
  apply list_elem_of_filter in Hin as [_ Hin]. now apply Hp.
Qed.
(** Aligned, with the register [j] of [l] in the slot [j]. *)
Lemma saved_done fix_stack l s : good s -> keeps_rsp l -> (length l <= 9)%nat -> fix_stack = Nat.even (length l) -> regs s 4 mod 16 = 8 ->
  exists s1, exec_all (save_insns fix_stack (rev l)) s = Some s1 /\ regs s1 4 mod 16 = 0
    /\ regs s1 4 = u64 (regs s 4 - 8 * count l - (if fix_stack then 8 else 0))
    /\ (forall j r, l !! j = Some r -> load 8 (mem s1) (regs s1 4 + 8 * Z.of_nat j) = regs s (num r)).
Proof.
  intros Hg Hk Hl Hf H16. set (f := if fix_stack then 8 else 0). assert (Hf0 : 0 <= f < 2 ^ 31) by (unfold f; destruct fix_stack; lia).
  destruct (frame_moved 5 f s (or_intror eq_refl) Hf0 (good_regs _ Hg 4)) as (s2 & E2 & [R2 O2 M2]). cbn [Z.eqb] in R2.
  assert (G2 : good s2).
  { split; [| intros a; rewrite M2; apply Hg]. intros k. destruct (Z.eq_dec k 4) as [-> | H4]; [rewrite R2; apply wrap_range; lia | rewrite (O2 k H4); apply Hg]. }
  assert (Ec : count (rev l) = count l) by (unfold count; now rewrite length_rev).
  destruct (pushes_done (rev l) s2 G2) as (s1 & E1 & [G1 R1 O1 S1 _]); [intros r Hr; apply Hk; now apply in_rev | rewrite Ec; unfold count; lia |].
  assert (R1' : regs s1 4 = u64 (regs s 4 - 8 * count l - f)) by (rewrite R1, Ec, R2; replace (u64 (regs s 4 + - f) - 8 * count l) with (u64 (regs s 4 + - f) + - (8 * count l)) by lia; rewrite u64_add; f_equal; lia).
  exists s1. split; [unfold save_insns; fold f; now rewrite (exec_all_app _ _ _ _ E2) |]. split; [| split; [exact R1' |]].
  - rewrite R1', u64_mod16. unfold count, f. rewrite Hf. clear -H16. pose proof (Nat.even_spec (length l)) as Hev. pose proof (Nat.negb_odd (length l)) as Hod. pose proof (Nat.odd_spec (length l)) as Hos.
    destruct (Nat.even (length l)); [destruct (proj1 Hev eq_refl) as [k ->] | destruct (Nat.odd (length l)); [destruct (proj1 Hos eq_refl) as [k ->] | discriminate Hod]]; cbv beta iota; Z.to_euclidean_division_equations; lia.
  - intros j r Hj. pose proof (lookup_lt_Some _ _ _ Hj) as Hlt. assert (H4 : num r <> 4) by (apply Hk, list_elem_of_In; exact (list_elem_of_lookup_2 _ _ _ Hj)). rewrite <- (O2 _ H4).
    rewrite <- (S1 (length l - S j)%nat r).
    + apply load_address. rewrite R1', u64_add, R2. replace (u64 (regs s 4 + - f) - 8 * (Z.of_nat (length l - S j) + 1)) with (u64 (regs s 4 + - f) + - (8 * (Z.of_nat (length l - S j) + 1))) by lia.
      rewrite u64_add. f_equal. unfold count. lia.
    + rewrite rev_alt. apply reverse_lookup_Some. split; [rewrite <- Hj; f_equal; lia | lia].
Qed.
Lemma restored fix_stack l V s : in_range 64 (regs s 4) -> keeps_rsp l ->
  (forall j r, l !! j = Some r -> load 8 (mem s) (regs s 4 + 8 * Z.of_nat j) = V (num r)) ->
  exists s1, exec_all (restore_insns fix_stack l) s = Some s1 /\ regs s1 4 = u64 (regs s 4 + 8 * count l + (if fix_stack then 8 else 0)) /\ mem s1 = mem s
    /\ (forall r, In r l -> regs s1 (num r) = V (num r)) /\ (forall k, k <> 4 -> ~ In k (map num l) -> regs s1 k = regs s k).
Proof.
  intros Hr Hk Hv. destruct (pops_done l V s Hr Hk Hv) as (s2 & E2 & [R2 Q2 O2 M2]). set (f := if fix_stack then 8 else 0). assert (Hf0 : 0 <= f < 2 ^ 31) by (unfold f; destruct fix_stack; lia).
  destruct (frame_moved 0 f s2 (or_introl eq_refl) Hf0) as (s1 & E1 & [R1 O1 M1]); [rewrite R2; apply wrap_range; lia |]. cbn [Z.eqb] in R1.
  exists s1. split; [unfold restore_insns; fold f; now rewrite (exec_all_app _ _ _ _ E2) |]. split; [rewrite R1, R2, u64_add; reflexivity |]. split; [congruence |]. split.
  - intros r Hin. rewrite O1 by (now apply Hk). now apply Q2.
  - intros k H4 Hn. rewrite (O1 k H4). apply (O2 k H4). intros r Hin <-. apply Hn. now apply in_map.
Qed.
(** The callee, called with the stack of [s1] from a function that had the
    stack of [s] before it saved its registers: it keeps the stack pointer and
    everything between the two. *)
Definition call_kept (s s1 s2 : machine) : Prop :=
  regs s2 4 = regs s1 4 /\ forall i, 0 <= i < u64 (regs s 4 - regs s1 4) -> mem s2 (u64 (regs s1 4 + i)) = mem s1 (u64 (regs s1 4 + i)).
(** The allocation gave the register [k] out, as number [i] of its registers. *)
Definition in_use (ctx : X86LoweringContext) (i : nat) (k : Z) : Prop := used_phys_regs ctx !! i = Some true /\ register_assignments !! i = Some k.
(** The register of an index of the allocation. *)
Definition own_register (i k : Z) : Prop := register_assignments !! Z.to_nat i = Some k.
Lemma registers_at_lookup idx : forall l j i k, registers_at idx = Ok l -> idx !! j = Some i -> own_register i k -> l !! j = Some (T k 8).
Proof.
  induction idx as [|x idx IH]; intros l j i k; cbn [registers_at]; [intros _ H; discriminate H |].
  destruct (get_allocable_register x 8) as [r |] eqn:E; [| discriminate]. cbn [rbind]. destruct (registers_at idx) as [l1 |]; [| discriminate]. cbn [rbind]. intros [= <-] Hj Hk.
  destruct j as [|j]; cbn [lookup list_lookup] in Hj |- *; [| exact (IH l1 j i k eq_refl Hj Hk)].
  injection Hj as ->. destruct (allocable_number i r E) as (k2 & Ek & -> & _). unfold own_register in Hk. congruence.
Qed.
Lemma in_use_saved ctx i k : in_use ctx i k -> Z.of_nat i ∈ saved_at_call ctx /\ own_register (Z.of_nat i) k.
Proof.
  intros [Hu Hk]. split; [| unfold own_register; now rewrite Nat2Z.id]. pose proof (lookup_lt_Some _ _ _ Hk) as Hi. change (length register_assignments) with 9%nat in Hi.
  apply list_elem_of_filter. split; [| apply list_elem_of_filter; rewrite Nat2Z.id; split; [exact Hu |]; apply elem_of_seqZ; pose proof (lookup_lt_Some _ _ _ Hu); lia].
  change 0xffffffff with (Z.ones 32). apply Z.ones_spec_low. lia.
Qed.
Lemma allocable i : 0 <= i < 9 -> exists r, get_allocable_register i 8 = Ok r.
Proof. intros Hi. assert (i = 0 \/ i = 1 \/ i = 2 \/ i = 3 \/ i = 4 \/ i = 5 \/ i = 6 \/ i = 7 \/ i = 8) as C by lia. repeat (destruct C as [-> | C]; [eexists; reflexivity |]). subst. eexists. reflexivity. Qed.
Lemma push_all_total idx : (forall i, In i idx -> 0 <= i < 9) -> forall off m, exists x, push_all idx off m = Ok x.
Proof.
  induction idx as [|i idx IH]; intros H off m; cbn [push_all]; [eauto |]. destruct (allocable i (H i (or_introl eq_refl))) as [r ->]. cbn [rbind].
  destruct (IH (fun k Hk => H k (or_intror Hk)) (off - 8) (<[i := off - 8]> m)) as [x ->]. cbn [rbind]. eauto.
Qed.
Lemma save_total ctx : (forall i, used_phys_regs ctx !! i = Some true -> (i < 9)%nat) -> exists cs st, emit_save_reg_state ctx = Ok (cs, st).
Proof.
  intros H. unfold emit_save_reg_state. destruct (push_all_total (rev (saved_at_call ctx))) with (off := 8 * Z.of_nat (length (saved_at_call ctx))) (m := ∅ : gmap Z Z) as [x ->]; [| cbn [rbind]; eauto].
  intros i Hi%in_rev%list_elem_of_In. apply list_elem_of_filter in Hi as [_ Hi]. apply list_elem_of_filter in Hi as [Hu Hi]. apply elem_of_seqZ in Hi. specialize (H _ Hu). lia.
Qed.
(** C17. Around a call, when the allocation gives out only the nine registers
    there are: saving and restoring the state succeed; from a stack as a
    function's frame leaves it the call is reached with the stack aligned to 16
    bytes; the stack map has an offset for every register in use, and the value
    of the register is there, where the arguments are read; and after a callee
    that keeps the stack pointer and what was pushed, whatever registers it
    changed, every register in use and the stack pointer are as before. *)
Theorem call_preserves ctx : (forall i, used_phys_regs ctx !! i = Some true -> (i < 9)%nat) ->
  exists cs st cs2 is1 is2, emit_save_reg_state ctx = Ok (cs, st) /\ Forall2 asks cs is1 /\ emit_restore_reg_state ctx st = Ok cs2 /\ Forall2 asks cs2 is2
  /\ forall s, good s -> regs s 4 mod 16 = 8 -> exists s1, exec_all is1 s = Some s1 /\ regs s1 4 mod 16 = 0
    /\ (forall i k, in_use ctx i k -> exists o, _stack_map st !! Z.of_nat i = Some o /\ load 8 (mem s1) (regs s1 4 + o) = regs s k)
    /\ forall s2, call_kept s s1 s2 -> exists s3, exec_all is2 s2 = Some s3 /\ regs s3 4 = regs s 4 /\ mem s3 = mem s2
         /\ (forall i k, in_use ctx i k -> regs s3 k = regs s k).
Proof.
  intros H9. destruct (save_total ctx H9) as (cs & st & E). destruct (save_asked ctx cs st E) as (l & El & Hf & Ha1 & (cs2 & E2 & Ha2) & Hk & Hmap & Hall). destruct (registers_at_spec _ _ El) as (Hlen & Hown & _).
  exists cs, st, cs2, (save_insns (_stack_fixed st) (rev l)), (restore_insns (_stack_fixed st) l). do 4 (split; [assumption |]). intros s Hg H16.
  destruct (saved_done (_stack_fixed st) l s Hg Hk (few_at_call ctx l El) Hf H16) as (s1 & E1 & A1 & R1 & V1). exists s1. do 2 (split; [assumption |]).
  assert (Hnum : forall j i k, saved_at_call ctx !! j = Some i -> own_register i k -> l !! j = Some (T k 8) /\ num (T k 8) = k).
  { intros j i k Hj Hi. pose proof (registers_at_lookup _ l j i k El Hj Hi) as Hl. split; [exact Hl |]. apply own_number_facts, existsb_exists. exists k. split; [| apply Z.eqb_refl].
    apply list_elem_of_In. exact (list_elem_of_lookup_2 _ _ _ Hi). }
  split.
  - intros i k Hu. destruct (in_use_saved ctx i k Hu) as [Hin Hi]. destruct (Hall _ Hin) as [o Ho]. exists o. split; [exact Ho |].
    destruct (Hmap _ o Ho) as (j & Hj & ->). destruct (Hnum j _ k Hj Hi) as [Hl En]. rewrite <- En at 1. now apply V1.
  - intros s2 [B1 B2]. pose proof (few_at_call ctx l El) as H9l.
    assert (Hgap : 8 * count l <= u64 (regs s 4 - regs s1 4)).
    { rewrite R1. set (f := if _stack_fixed st then 8 else 0). assert (0 <= f <= 8) by (unfold f; destruct (_stack_fixed st); lia).
      replace (u64 (regs s 4 - u64 (regs s 4 - 8 * count l - f))) with (8 * count l + f); [lia |]. rewrite u64_sub.
      replace (regs s 4 - (regs s 4 - 8 * count l - f)) with (8 * count l + f) by lia. symmetry. apply wrap_small. unfold in_range, count in *. lia. }
    destruct (restored (_stack_fixed st) l (regs s) s2) as (s3 & E3 & R3 & M3 & Q3 & _).
    + rewrite B1, R1. apply wrap_range. lia.
    + exact Hk.
    + intros j r Hj. rewrite B1, <- (V1 j r Hj). apply load_ext. intros i Hi. apply lookup_lt_Some in Hj. rewrite <- !Z.add_assoc. apply B2. unfold count in Hgap. lia.
    + exists s3. split; [exact E3 |]. split; [| split; [exact M3 |]].
      * rewrite R3, B1, R1. rewrite <- Z.add_assoc, u64_add. destruct (_stack_fixed st); match goal with |- u64 ?x = _ => replace x with (regs s 4) by lia end; apply wrap_small, Hg.
      * intros i k Hu. destruct (in_use_saved ctx i k Hu) as [Hin Hi]. apply list_elem_of_lookup in Hin as [j Hj]. destruct (Hnum j _ k Hj Hi) as [Hl En]. rewrite <- En.
        apply Q3, list_elem_of_In. exact (list_elem_of_lookup_2 _ _ _ Hl).
Qed.
Lemma call_preserves_witness : exists cs st cs2 is1 is2, emit_save_reg_state sample_context = Ok (cs, st) /\ Forall2 asks cs is1 /\ emit_restore_reg_state sample_context st = Ok cs2 /\ Forall2 asks cs2 is2
  /\ forall s, good s -> regs s 4 mod 16 = 8 -> exists s1, exec_all is1 s = Some s1 /\ regs s1 4 mod 16 = 0
    /\ (forall i k, in_use sample_context i k -> exists o, _stack_map st !! Z.of_nat i = Some o /\ load 8 (mem s1) (regs s1 4 + o) = regs s k)
    /\ forall s2, call_kept s s1 s2 -> exists s3, exec_all is2 s2 = Some s3 /\ regs s3 4 = regs s 4 /\ mem s3 = mem s2
         /\ (forall i k, in_use sample_context i k -> regs s3 k = regs s k).
Proof. apply (call_preserves sample_context). intros i Hi. do 9 (destruct i as [| i]; [lia |]). discriminate Hi. Defined.
