(* ===== verification/MemoryRegions.v ===== *)
(** * Guest memory regions (abi/memory/MemoryModel.cpp)

    RegionBasedMemoryModel: the virtual memory areas of the guest and the
    regions that are allocated, both ordered maps by address, and the mapping,
    unmapping and protection of regions.  What a memory model does for an area
    (AllocateVMA and the like, virtual in the code) is a class. *)

From Stdlib Require Import ZArith Lia List Bool String Sorted.
From stdpp Require Import base numbers list.
From S2P Require Import Prelude.
Import ListNotations.
#[local] Open Scope Z_scope.
#[local] Open Scope gensim_scope.

(** ** Ordered maps: a list by ascending key *)

Section OrderedMap.
Context {A : Type}.
Fixpoint map_put (k : Z) (x : A) (m : list (Z * A)) : list (Z * A) :=
  match m with
  | [] => [(k, x)]
  | (k1, x1) :: r => if k <? k1 then (k, x) :: m else if k =? k1 then (k, x) :: r else (k1, x1) :: map_put k x r
  end.
Definition map_find (k : Z) (m : list (Z * A)) : option A :=
  match List.find (fun p => fst p =? k) m with Some p => Some (snd p) | None => None end.
Definition map_set (k : Z) (x : A) (m : list (Z * A)) : list (Z * A) := map (fun p => if fst p =? k then (k, x) else p) m.
Definition map_erase (k : Z) (m : list (Z * A)) : list (Z * A) := List.filter (fun p => negb (fst p =? k)) m.
(** The first entry that is not below a key, and the last that is not above. *)
Definition lower_bound (k : Z) (m : list (Z * A)) : option (Z * A) := List.find (fun p => k <=? fst p) m.
Definition last_below (k : Z) (m : list (Z * A)) : option (Z * A) := List.find (fun p => fst p <=? k) (rev m).
End OrderedMap.

(** ** Areas *)

Definition RegFlagRead := 1.
Definition RegFlagReadWrite := 3.
Definition RegFlagReadWriteExecute := 7.
Record GuestVMA := mkVMA { host_base : Z; base_ : Z; vsize : Z; protection : Z; name : string }.
Definition vma_end (v : GuestVMA) : Z := u64 (base_ v + vsize v).
Definition with_size (z : Z) (v : GuestVMA) : GuestVMA := mkVMA (host_base v) (base_ v) z (protection v) (name v).
Definition with_base (b : Z) (v : GuestVMA) : GuestVMA := mkVMA (host_base v) b (vsize v) (protection v) (name v).
Definition with_protection (p : Z) (v : GuestVMA) : GuestVMA := mkVMA (host_base v) (base_ v) (vsize v) p (name v).
Definition PageBase (a : Z) : Z := Z.land a (Z.lnot 4095).
Definition AlignUp (a : Z) : Z := if PageBase a =? a then a else u64 (PageBase a + 4096).

(** What the memory model does for its areas: whether it succeeds, and the
    area and its own state afterwards. *)
Class VMAHost (H : Type) := {
  AllocateVMA : GuestVMA -> H -> bool * GuestVMA * H;
  DeallocateVMA : GuestVMA -> H -> bool * GuestVMA * H;
  ResizeVMA : GuestVMA -> Z -> H -> bool * GuestVMA * H;
  SynchroniseVMAProtection : GuestVMA -> H -> bool * GuestVMA * H }.

Section Regions.
Context {H : Type} `{VMAHost H}.

Record regions := mkRegions { guest_vmas : list (Z * GuestVMA); allocated_regions_ : list (Z * Z); host : H }.
Definition with_vmas (l : list (Z * GuestVMA)) (s : regions) : regions := mkRegions l (allocated_regions_ s) (host s).
Definition with_allocated (l : list (Z * Z)) (s : regions) : regions := mkRegions (guest_vmas s) l (host s).
Definition with_host (h : H) (s : regions) : regions := mkRegions (guest_vmas s) (allocated_regions_ s) h.
Definition in_vma (addr : Z) (v : GuestVMA) : bool := (base_ v <=? addr) && (addr <? vma_end v).

(** The area that holds an address, by its key.  Below the first key the
    iterator is decremented before the first entry. *)
Definition LookupVMA (addr : Z) (s : regions) : result (option (Z * GuestVMA)) :=
  match guest_vmas s with
  | [] => Ok None
  | _ =>
      let* p := of_option UndefinedBehaviour (last_below addr (guest_vmas s)) in
      Ok (if in_vma addr (snd p) then Some p else None)
  end.
Definition DeleteVMA (addr : Z) (s : regions) : bool * regions :=
  match List.find (fun p => in_vma addr (snd p)) (guest_vmas s) with
  | Some (k, _) => (true, with_vmas (map_erase k (guest_vmas s)) s)
  | None => (false, s)
  end.

(** ** Allocated regions *)

(** The region [cur] absorbs those behind it that it reaches. *)
Fixpoint merge_from (cur : Z * Z) (rest : list (Z * Z)) : list (Z * Z) :=
  match rest with
  | [] => [cur]
  | next :: r =>
      if fst next <=? u64 (fst cur + snd cur) then
        let next_end := u64 (fst next + snd next) in merge_from (fst cur, u64 (next_end - fst cur)) r
      else cur :: merge_from next r
  end.
Definition merge_regions (l : list (Z * Z)) : list (Z * Z) := match l with [] => [] | c :: r => merge_from c r end.
Definition MergeAllocatedRegions (s : regions) : regions := with_allocated (merge_regions (allocated_regions_ s)) s.
Definition AllocateRegion (addr size : Z) (s : regions) : result regions :=
  match map_find addr (allocated_regions_ s) with
  | Some _ => Err LogicError
  | None => Ok (MergeAllocatedRegions (with_allocated (map_put addr size (allocated_regions_ s)) s))
  end.
Definition DeallocateRegion (addr size : Z) (s : regions) : result regions :=
  let* it := of_option UndefinedBehaviour (lower_bound addr (allocated_regions_ s)) in
  if u64 (fst it + snd it) <? u64 (addr + size) then Err NotImplemented else Ok (MergeAllocatedRegions s).
Definition overlap (start1 end1 start2 end2 : Z) : bool := (start1 <? end2) && (start2 <? end1).
Definition HasIntersectingRegions (addr size : Z) (s : regions) : bool :=
  existsb (fun r => overlap addr (u64 (addr + size)) (fst r) (u64 (fst r + snd r))) (allocated_regions_ s).
(** The new size is not looked at. *)
Definition VMAIntersects (k : Z) (vma : GuestVMA) (size : Z) (s : regions) : bool :=
  existsb (fun p => negb (fst p =? k) && overlap (base_ vma) (vma_end vma) (base_ (snd p)) (vma_end (snd p))) (guest_vmas s).

(** ** Mapping and unmapping *)

Definition UnmapRegion (addr size : Z) (s : regions) : result (bool * regions) :=
  let* found := LookupVMA addr s in
  match found with
  | None => Ok (false, s)
  | Some (k, vma) =>
      let size := AlignUp size in
      let '(done, vma1, h) := DeallocateVMA vma (host s) in
      let s1 := with_host h (with_vmas (map_set k vma1 (guest_vmas s)) s) in
      if done then
        let* s2 := DeallocateRegion addr size s1 in
        Ok (true, snd (DeleteVMA addr s2))
      else Ok (false, s1)
  end.

(** What the loop of UnmapSubregion meets first: an area that the subregion
    covers, one that it splits, or one that it cuts the start of; areas whose
    end it cuts are moved on the way. *)
Inductive scanned := ScanEnd (l : list (Z * GuestVMA)) | ScanCovered (l : list (Z * GuestVMA))
  | ScanSplit (l : list (Z * GuestVMA)) (k : Z) (v : GuestVMA) | ScanStart.
Definition scan_cons (p : Z * GuestVMA) (x : scanned) : scanned :=
  match x with ScanEnd l => ScanEnd (p :: l) | ScanCovered l => ScanCovered (p :: l) | ScanSplit l k v => ScanSplit (p :: l) k v | ScanStart => ScanStart end.
Fixpoint scan_subregion (u_start u_end : Z) (l : list (Z * GuestVMA)) : scanned :=
  match l with
  | [] => ScanEnd []
  | (k, v) :: r =>
      let i_start := base_ v in
      let i_end := vma_end v in
      if (u_start <=? i_start) && (i_end <=? u_end) then ScanCovered l
      else if (i_start <? u_start) && (u_start <? i_end) && (i_end <? u_end) then scan_cons (k, with_base u_end v) (scan_subregion u_start u_end r)
      else if (i_start <? u_start) && (u_end <? i_end) then ScanSplit l k v
      else if (u_start <? i_start) && (i_start <? u_end) then ScanStart
      else scan_cons (k, v) (scan_subregion u_start u_end r)
  end.

(** [MapRegion] and [UnmapSubregion] call each other: the first, on what
    unmaps the subregion. *)
Definition MapRegion_on (unmap : Z -> Z -> regions -> result (bool * regions)) (addr size prot : Z) (name : string) (s : regions) : result (bool * regions) :=
  let size := AlignUp size in
  let* s1 := (if HasIntersectingRegions addr size s then let* x := unmap addr size s in Ok (snd x) else Ok s) in
  let '(done, vma, h) := AllocateVMA (mkVMA 0 addr size prot name) (host s1) in
  let s2 := with_host h s1 in
  if done then
    let* s3 := AllocateRegion addr size (with_vmas (map_put addr vma (guest_vmas s2)) s2) in
    Ok (true, s3)
  else Ok (false, s2).
Fixpoint UnmapSubregion (fuel : nat) (addr size : Z) (s : regions) : result (bool * regions) :=
  match fuel with
  | O => Err OutOfFuel
  | S n =>
      let u_start := addr in
      let u_end := u64 (addr + size) in
      match scan_subregion u_start u_end (guest_vmas s) with
      | ScanEnd l => Ok (true, with_vmas l s)
      | ScanCovered l =>
          let* x := UnmapRegion addr size (with_vmas l s) in
          UnmapSubregion n addr size (snd x)
      | ScanSplit l k v =>
          let v1 := with_size (u64 (u_start - base_ v)) v in
          let* x := MapRegion_on (UnmapSubregion n) u_end (u64 (vma_end v - u_end)) (protection v) (name v1) (with_vmas (map_set k v1 l) s) in
          UnmapSubregion n addr size (snd x)
      | ScanStart => Err NotImplemented
      end
  end.
Definition MapRegion (fuel : nat) : Z -> Z -> Z -> string -> regions -> result (bool * regions) := MapRegion_on (UnmapSubregion fuel).
(** The first address from 0x40000000 on, page by page. *)
Fixpoint find_free (fuel : nat) (addr size : Z) (s : regions) : result Z :=
  if HasIntersectingRegions addr size s then
    match fuel with O => Err OutOfFuel | S n => find_free n (u64 (addr + 4096)) size s end
  else Ok addr.
Definition MapAnonymousRegion (fuel : nat) (size prot : Z) (s : regions) : result (Z * regions) :=
  let size := AlignUp size in
  let* addr := find_free fuel 0x40000000 size s in
  let* x := MapRegion fuel addr size prot EmptyString s in
  Ok (if fst x then addr else u64 (-1), snd x).
Definition RemapRegion (addr size : Z) (s : regions) : result (bool * regions) :=
  let* found := LookupVMA addr s in
  match found with
  | None => Ok (false, s)
  | Some (k, vma) =>
      let size := AlignUp size in
      if VMAIntersects k vma size s then Ok (false, s)
      else
        let* s1 := DeallocateRegion addr (vsize vma) s in
        let* s2 := AllocateRegion addr size s1 in
        let '(done, vma1, h) := ResizeVMA vma size (host s2) in
        Ok (done, with_host h (with_vmas (map_set k vma1 (guest_vmas s2)) s2))
  end.
Definition MapAll (prot : Z) (s : regions) : result (bool * regions) :=
  check* match guest_vmas s with [] => true | _ => false end or AssertFailed in
  let '(done, vma, h) := AllocateVMA (mkVMA 0 0 0xffffffff prot "all") (host s) in
  let s1 := with_host h s in
  Ok (if done then (true, with_vmas (map_put 0 vma (guest_vmas s1)) s1) else (false, s1)).
(** The whole area that starts at [addr], whatever the size. *)
Definition ProtectRegion (addr size prot : Z) (s : regions) : bool * regions :=
  match map_find addr (guest_vmas s) with
  | None => (false, s)
  | Some vma =>
      let '(done, vma1, h) := SynchroniseVMAProtection (with_protection prot vma) (host s) in
      (done, with_host h (with_vmas (map_set addr vma1 (guest_vmas s)) s))
  end.
Definition GetRegionProtection (addr : Z) (s : regions) : result (option Z) :=
  let* found := LookupVMA addr s in Ok (match found with Some (_, vma) => Some (protection vma) | None => None end).
Definition ResolveGuestAddress (host_addr : Z) (s : regions) : option Z :=
  match List.find (fun p => (host_base (snd p) <=? host_addr) && (host_addr <? u64 (host_base (snd p) + vsize (snd p)))) (guest_vmas s) with
  | Some p => Some (u64 (host_addr - host_base (snd p)))
  | None => None
  end.
End Regions.
Arguments regions : clear implicits.
