(* ===== verification/MemorySpace.v ===== *)
(** * Guest memory regions are an address space

    In a well-formed state areas are disjoint and lie in allocated regions,
    which are disjoint and do not touch.  Mapping free addresses, mapping
    anonymously, protecting and unmapping keep that, and act on the protection
    of every address as an address space does. *)

From Stdlib Require Import ZArith Lia List Bool String Sorted.
From stdpp Require Import base numbers list.
From S2P Require Import Prelude MemoryRegions.
Import ListNotations.
#[local] Open Scope Z_scope.
#[local] Open Scope gensim_scope.

(** ** Intervals in order *)

(** Lists of things with a start and an end, the end of each not behind (or,
    with a gap, before) the start of the next. *)
Section Intervals.
Context {A : Type} (start end_ : A -> Z).
Inductive ordered (gap : Z) : list A -> Prop :=
| ordered_nil : ordered gap []
| ordered_cons x l : start x < end_ x -> Forall (fun y => end_ x + gap <= start y) l -> ordered gap l -> ordered gap (x :: l).
Definition holds (x : A) (a : Z) : Prop := start x <= a < end_ x.
Lemma ordered_unique gap l x y a : 0 <= gap -> ordered gap l -> In x l -> In y l -> holds x a -> holds y a -> x = y.
Proof.
  intros Hg Ho. induction Ho as [| z l Hz Hf _ IH]; intros Hx Hy Ax Ay; [destruct Hx |]. rewrite List.Forall_forall in Hf.
  destruct Hx as [<- | Hx], Hy as [<- | Hy]; auto; exfalso; [specialize (Hf y Hy) | specialize (Hf x Hx)]; unfold holds in *; lia.
Qed.
Lemma ordered_tail gap x l : ordered gap (x :: l) -> ordered gap l.
Proof. now inversion 1. Qed.
Lemma ordered_positive gap l x : ordered gap l -> In x l -> start x < end_ x.
Proof. induction 1 as [| z l Hz _ _ IH]; intros [] ; subst; auto. Qed.
Lemma ordered_weaken gap gap2 l : gap2 <= gap -> ordered gap l -> ordered gap2 l.
Proof. intros Hg. induction 1 as [| x l Hx Hf _ IH]; constructor; auto. eapply List.Forall_impl; [| exact Hf]. intros y Hy. cbn in Hy. lia. Qed.
End Intervals.

Section MapFacts.
Context {A : Type}.
Implicit Types m : list (Z * A).
Lemma In_map_put k x m p : (forall q, In q m -> fst q <> k) -> In p (map_put k x m) <-> p = (k, x) \/ In p m.
Proof.
  induction m as [|[k1 x1] r IH]; intros Hk; cbn [map_put]; [cbn; intuition |]. destruct (Z.ltb_spec k k1); [cbn; intuition |].
  destruct (Z.eqb_spec k k1) as [-> | Hn]; [exfalso; exact (Hk (k1, x1) (or_introl eq_refl) eq_refl) |]. cbn [In]. rewrite IH by (intros q Hq; apply Hk; now right). intuition.
Qed.
Lemma ordered_put (start end_ : Z * A -> Z) gap k x m : 0 <= gap -> ordered start end_ gap m -> (forall q, In q m -> start q = fst q) -> start (k, x) = k -> k < end_ (k, x) ->
  (forall q, In q m -> end_ q + gap <= k \/ end_ (k, x) + gap <= start q) -> ordered start end_ gap (map_put k x m).
Proof.
  intros Hg Ho Hs Hk Hpos. induction Ho as [| [k1 x1] r Hz Hf Ho IH]; intros Hd; cbn [map_put].
  - constructor; [rewrite Hk; exact Hpos | constructor | constructor].
  - pose proof (Hs _ (or_introl eq_refl)) as Hs1. cbn [fst] in Hs1. rewrite Hs1 in Hz. pose proof (Hd _ (or_introl eq_refl)) as Hd1. rewrite Hs1 in Hd1.
    destruct (Z.ltb_spec k k1) as [Hlt | Hge].
    + assert (Hb : end_ (k, x) + gap <= k1) by lia. constructor; [rewrite Hk; exact Hpos | | constructor; [now rewrite Hs1 | exact Hf | exact Ho]].
      constructor; [now rewrite Hs1 |]. eapply List.Forall_impl; [| exact Hf]. intros y Hy. cbn in Hy. lia.
    + destruct (Z.eqb_spec k k1) as [-> | Hn]; [lia |]. constructor; [now rewrite Hs1 | | apply IH; [intros q Hq; apply Hs; now right | intros q Hq; apply Hd; now right]].
      rewrite List.Forall_forall in *. intros y Hy. apply In_map_put in Hy as [-> | Hy].
      * rewrite Hk. lia.
      * now apply Hf.
      * intros q Hq E. pose proof (ordered_positive _ _ _ _ _ Ho Hq). specialize (Hd q (or_intror Hq)). rewrite (Hs q (or_intror Hq)) in *. lia.
Qed.
Lemma map_find_In k m x : map_find k m = Some x -> In (k, x) m.
Proof. unfold map_find. destruct (find _ m) as [[k1 x1] |] eqn:E; [| discriminate]. intros [= ->]. apply find_some in E as [H1 H2%Z.eqb_eq]. cbn in H2. now subst. Qed.
Lemma map_find_none k m : map_find k m = None <-> forall q, In q m -> fst q <> k.
Proof.
  unfold map_find. destruct (find _ m) as [[k1 x1] |] eqn:E.
  - split; [discriminate |]. intros H. apply find_some in E as [H1 H2%Z.eqb_eq]. exfalso. exact (H _ H1 H2).
  - split; [| reflexivity]. intros _ q Hq Hk. apply (find_none _ _ E) in Hq. rewrite Hk, Z.eqb_refl in Hq. discriminate.
Qed.
Lemma In_map_set k x m p : In p (map_set k x m) <-> (p = (k, x) /\ exists y, In (k, y) m) \/ (In p m /\ fst p <> k).
Proof.
  unfold map_set. rewrite in_map_iff. split.
  - intros ([k1 x1] & E & Hin). cbn [fst] in E. destruct (Z.eqb_spec k1 k) as [-> | Hn]; subst p; [left; eauto | right; now split].
  - intros [[-> [y Hy]] | [Hin Hn]].
    + exists (k, y). cbn [fst]. now rewrite Z.eqb_refl.
    + exists p. now rewrite (proj2 (Z.eqb_neq _ _) Hn).
Qed.
Lemma In_map_erase k m p : In p (map_erase k m) <-> In p m /\ fst p <> k.
Proof. unfold map_erase. rewrite filter_In, negb_true_iff, Z.eqb_neq. reflexivity. Qed.
End MapFacts.
Lemma find_app {A} (f : A -> bool) l1 l2 : List.find f (l1 ++ l2) = match List.find f l1 with Some x => Some x | None => List.find f l2 end.
Proof. induction l1 as [|x l1 IH]; cbn [app List.find]; [reflexivity |]. now destruct (f x). Qed.
Lemma last_below_spec {A} k (m : list (Z * A)) (start end_ : Z * A -> Z) : ordered start end_ 0 m -> (forall q, In q m -> start q = fst q) ->
  match last_below k m with
  | Some p => In p m /\ fst p <= k /\ forall q, In q m -> fst q <= k -> fst q <= fst p
  | None => forall q, In q m -> k < fst q
  end.
Proof.
  intros Ho Hs. unfold last_below. assert (E : forall p, In p m <-> In p (rev m)) by (intros; apply in_rev).
  destruct (find (fun p => fst p <=? k) (rev m)) as [p |] eqn:F.
  - apply find_some in F as F1. destruct F1 as [Hin Hle%Z.leb_le]. split; [now apply E |]. split; [exact Hle |]. intros q Hq Hqk.
    clear E. revert F Hin. induction Ho as [| x l Hx Hf Ho IH]; [destruct Hq |]. cbn [rev]. rewrite find_app. intros F Hin.
    destruct (find _ (rev l)) as [p1 |] eqn:F1.
    + injection F as ->. apply find_some in F1 as F2. destruct F2 as [Hin1 _]. destruct Hq as [<- | Hq]; [| apply (IH ltac:(intros; apply Hs; now right) Hq eq_refl Hin1)].
      apply in_rev in Hin1. rewrite List.Forall_forall in Hf. specialize (Hf p Hin1). rewrite (Hs p) in Hf by now right. rewrite (Hs x) in Hx by now left. lia.
    + cbn [find] in F. destruct (fst x <=? k) eqn:Ex; [| discriminate]. injection F as ->. destruct Hq as [<- | Hq]; [lia |].
      apply in_rev in Hq. apply (find_none _ _ F1) in Hq. apply Z.leb_gt in Hq. lia.
  - intros q Hq. apply E in Hq. apply (find_none _ _ F) in Hq. now apply Z.leb_gt in Hq.
Qed.

(** ** Merging *)

Definition rend (r : Z * Z) : Z := fst r + snd r.
Definition bounded (r : Z * Z) : Prop := 0 <= fst r /\ rend r < 2 ^ 64.
Definition within (start1 end1 : Z) (r : Z * Z) : Prop := fst r <= start1 /\ end1 <= rend r.
Abbreviation regions_ordered := (ordered (@fst Z Z) rend).
Abbreviation in_region := (holds (@fst Z Z) rend).
Lemma u64_bounded z : 0 <= z < 2 ^ 64 -> u64 z = z.
Proof. apply wrap_small. Qed.
(** What merging makes of regions in order. *)
Record merged (l l1 : list (Z * Z)) : Prop := mkMerged {
  merged_ordered : regions_ordered 1 l1;
  merged_bounded : Forall bounded l1;
  merged_within : forall r, In r l -> exists r1, In r1 l1 /\ within (fst r) (rend r) r1;
  merged_covers : forall r1 a, In r1 l1 -> in_region r1 a -> exists r, In r l /\ in_region r a;
  merged_starts : forall r1, In r1 l1 -> In (fst r1) (map fst l) }.
Lemma merge_from_merged rest : forall cur, regions_ordered 0 (cur :: rest) -> Forall bounded (cur :: rest) -> merged (cur :: rest) (merge_from cur rest).
Proof.
  induction rest as [| n rest IH]; intros cur Ho Hb; cbn [merge_from].
  - inversion Ho as [| x l Hx _ _]; subst. split.
    + constructor; [exact Hx | constructor | constructor].
    + exact Hb.
    + intros r [<- | []]. exists cur. split; [now left | unfold within; lia].
    + intros r1 a [<- | []] Ha. exists cur. split; [now left | exact Ha].
    + intros r1 [<- | []]. now left.
  - inversion Ho as [| x l Hx Hf Ho2]; subst. apply List.Forall_cons_iff in Hb as [Hb0 Hb]. apply List.Forall_cons_iff in Hf as [Hn Hf]. pose proof (proj1 (List.Forall_cons_iff _ _ _) Hb) as [Hbn Hbr].
    inversion Ho2 as [| x l Hxn Hfn Ho3]; subst. destruct cur as [c z], n as [c2 z2]. unfold bounded, rend in Hb0, Hbn, Hx, Hn, Hxn. cbn [fst snd] in *.
    rewrite (u64_bounded (c + z)) by lia. destruct (Z.leb_spec c2 (c + z)) as [Hle | Hgt].
    + rewrite (u64_bounded (c2 + z2)), (u64_bounded (c2 + z2 - c)) by lia. set (m := (c, c2 + z2 - c)).
      assert (Em : rend m = c2 + z2) by (unfold rend, m; cbn [fst snd]; lia). destruct (IH m) as [M1 M2 M3 M4 M5].
      { constructor; [rewrite Em; cbn [fst m]; lia | | exact Ho3]. eapply List.Forall_impl; [| exact Hfn]. intros y Hy. cbn in Hy. rewrite Em. unfold rend in Hy. cbn in Hy. lia. }
      { constructor; [split; [cbn; lia | rewrite Em; lia] | exact Hbr]. }
      split; [exact M1 | exact M2 | | |].
      * intros r [<- | [<- | Hr]]; [| | now apply M3; right]; destruct (M3 m (or_introl eq_refl)) as (r1 & Hr1 & W); exists r1; (split; [exact Hr1 |]); unfold within, rend in W |- *; cbn [fst snd m] in *; lia.
      * intros r1 a Hr1 Ha. destruct (M4 r1 a Hr1 Ha) as (r & [<- | Hr] & Hra); [| exists r; split; [now right; right | exact Hra]].
        unfold holds, rend in Hra. cbn [fst snd m] in Hra. destruct (Z.ltb_spec a c2).
        -- exists (c, z). split; [now left |]. unfold holds, rend. cbn. lia.
        -- exists (c2, z2). split; [right; now left |]. unfold holds, rend. cbn. lia.
      * intros r1 Hr1. destruct (M5 r1 Hr1) as [E | E]; [left; exact E | right; right; exact E].
    + destruct (IH (c2, z2) Ho2 Hb) as [M1 M2 M3 M4 M5]. split.
      * constructor; [exact Hx | | exact M1]. rewrite List.Forall_forall. intros r1 Hr1. unfold rend. cbn [fst snd].
        apply M5, in_map_iff in Hr1 as (r & <- & Hr). destruct Hr as [<- | Hr]; [cbn; lia |]. rewrite List.Forall_forall in Hfn. specialize (Hfn r Hr). unfold rend in Hfn. cbn in Hfn. lia.
      * constructor; [unfold bounded, rend; cbn; lia | exact M2].
      * intros r [<- | Hr]; [exists (c, z); split; [now left | unfold within, rend; cbn; lia] |]. destruct (M3 r Hr) as (r1 & Hr1 & W). exists r1. split; [now right | exact W].
      * intros r1 a [<- | Hr1] Ha; [exists (c, z); split; [now left | exact Ha] |]. destruct (M4 r1 a Hr1 Ha) as (r & Hr & Hra). exists r. split; [now right | exact Hra].
      * intros r1 [<- | Hr1]; [now left |]. right. now apply M5.
Qed.
Lemma merge_merged l : regions_ordered 0 l -> Forall bounded l -> merged l (merge_regions l).
Proof.
  destruct l as [| c r]; intros Ho Hb; [| now apply merge_from_merged]. split; [constructor | constructor | intros r [] | intros r a [] | intros r []].
Qed.

(** ** Well-formed states *)

Definition vstart (p : Z * GuestVMA) : Z := base_ (snd p).
Definition vend (p : Z * GuestVMA) : Z := base_ (snd p) + vsize (snd p).
Abbreviation areas_ordered := (ordered vstart vend 0).
Abbreviation in_area := (holds vstart vend).
Definition area_ok (p : Z * GuestVMA) : Prop := vstart p = fst p /\ 0 <= vstart p /\ vend p < 2 ^ 64.

(** What the memory model keeps of an area. *)
Definition same_area (v1 v : GuestVMA) : Prop := base_ v1 = base_ v /\ vsize v1 = vsize v /\ protection v1 = protection v.
Class VMAHostLaws (H : Type) `{VMAHost H} : Prop := {
  AllocateVMA_same v h : same_area (snd (fst (AllocateVMA v h))) v;
  DeallocateVMA_same v h : same_area (snd (fst (DeallocateVMA v h))) v;
  SynchroniseVMAProtection_same v h : same_area (snd (fst (SynchroniseVMAProtection v h))) v }.

Section Spaces.
Context {H : Type} {Host : VMAHost H} {Laws : VMAHostLaws H}.
Implicit Types s : regions H.

Record well_formed s : Prop := mkWf {
  wf_areas : areas_ordered (guest_vmas s);
  wf_area : Forall area_ok (guest_vmas s);
  wf_regions : regions_ordered 1 (allocated_regions_ s);
  wf_bounded : Forall bounded (allocated_regions_ s);
  wf_covered : forall p, In p (guest_vmas s) -> exists r, In r (allocated_regions_ s) /\ within (vstart p) (vend p) r }.
(** The protection of an address, if it is mapped. *)
Definition protection_at s (a : Z) : option Z :=
  match List.find (fun p => in_vma a (snd p)) (guest_vmas s) with Some p => Some (protection (snd p)) | None => None end.

Lemma in_vma_holds s p a : well_formed s -> In p (guest_vmas s) -> in_vma a (snd p) = true <-> in_area p a.
Proof.
  intros W Hp. pose proof (wf_area _ W) as Hf. rewrite List.Forall_forall in Hf. destruct (Hf p Hp) as (_ & H0 & H1). pose proof (ordered_positive _ _ _ _ _ (wf_areas _ W) Hp) as Hpos.
  unfold in_vma, vma_end, holds, vstart, vend in *. rewrite u64_bounded by lia. rewrite andb_true_iff, Z.leb_le, Z.ltb_lt. reflexivity.
Qed.
Definition mapped s (a x : Z) : Prop := exists p, In p (guest_vmas s) /\ in_area p a /\ protection (snd p) = x.
Lemma protection_at_mapped s a x : well_formed s -> protection_at s a = Some x <-> mapped s a x.
Proof.
  intros W. unfold protection_at. destruct (find _ (guest_vmas s)) as [q |] eqn:E.
  - apply find_some in E as [Hq Hin]. apply (in_vma_holds s q a W Hq) in Hin. split.
    + intros [= <-]. now exists q.
    + intros (p & Hp & Ha & <-). now rewrite (ordered_unique _ _ 0 _ q p a (Z.le_refl 0) (wf_areas _ W) Hq Hp Hin Ha).
  - split; [discriminate |]. intros (p & Hp & Ha & _). apply (find_none _ _ E) in Hp as Hn. apply (in_vma_holds s p a W Hp) in Ha. congruence.
Qed.
Lemma protection_at_none s a : well_formed s -> protection_at s a = None <-> forall p, In p (guest_vmas s) -> ~ in_area p a.
Proof.
  intros W. split.
  - intros E p Hp Ha. assert (M : mapped s a (protection (snd p))) by now exists p. apply (protection_at_mapped s a _ W) in M. congruence.
  - intros Hn. destruct (protection_at s a) as [x |] eqn:E; [| reflexivity]. apply (protection_at_mapped s a x W) in E as (p & Hp & Ha & _). destruct (Hn p Hp Ha).
Qed.
Lemma protection_at_ext s s1 a : well_formed s -> well_formed s1 -> (forall x, mapped s1 a x <-> mapped s a x) -> protection_at s1 a = protection_at s a.
Proof. intros W W1 E. apply option_eq. intros x. rewrite !protection_at_mapped by assumption. apply E. Qed.

(** ** Looking up *)

(** The area that holds an address is found, except below the first one. *)
Lemma LookupVMA_spec s a : well_formed s -> 
  match LookupVMA a s with
  | Ok (Some p) => In p (guest_vmas s) /\ in_area p a
  | Ok None => (forall p, In p (guest_vmas s) -> ~ in_area p a) /\ (guest_vmas s = [] \/ exists p, In p (guest_vmas s) /\ fst p <= a)
  | Err e => e = UndefinedBehaviour /\ guest_vmas s <> [] /\ forall p, In p (guest_vmas s) -> a < fst p
  end.
Proof.
  intros W. unfold LookupVMA. destruct (guest_vmas s) as [| p0 l] eqn:E; [split; [intros p [] | now left] |]. rewrite <- E.
  pose proof (wf_area _ W) as Hok. rewrite List.Forall_forall in Hok. pose proof (last_below_spec a (guest_vmas s) vstart vend (wf_areas _ W)) as L.
  specialize (L ltac:(intros q Hq; exact (proj1 (Hok q Hq)))). destruct (last_below a (guest_vmas s)) as [p |]; cbn [of_option rbind].
  - destruct L as (Hp & Hle & Hmax). destruct (in_vma a (snd p)) eqn:Ein; [split; [exact Hp | now apply (in_vma_holds s)] |]. split; [| right; now exists p]. intros q Hq Ha.
    assert (Eq : q = p).
    { pose proof (proj1 (Hok q Hq)) as Eq. pose proof (proj1 (Hok p Hp)) as Ep. assert (Hle2 : fst q <= fst p) by (apply Hmax; [exact Hq | unfold holds in Ha; lia]).
      pose proof (ordered_positive _ _ _ _ _ (wf_areas _ W) Hp). apply (ordered_unique _ _ 0 _ q p (vstart p) (Z.le_refl 0) (wf_areas _ W) Hq Hp); unfold holds in *; lia. }
    subst q. apply (in_vma_holds s p a W Hp) in Ha. congruence.
  - split; [reflexivity |]. split; [now rewrite E | exact L].
Qed.
(** In a well-formed state GetRegionProtection gives the
    protection of the area that holds an address, or says that none does, at
    every address but those below all areas, where it is undefined. *)
Lemma GetRegionProtection_exact s a : well_formed s ->
  GetRegionProtection a s =
    if negb (match guest_vmas s with [] => true | _ => false end) && forallb (fun p => a <? fst p) (guest_vmas s) then Err UndefinedBehaviour else Ok (protection_at s a).
Proof.
  intros W. unfold GetRegionProtection. pose proof (LookupVMA_spec s a W) as L. destruct (LookupVMA a s) as [[p |] | e]; cbn [rbind].
  - destruct L as [Hp Ha]. destruct p as [k v]. assert (M : mapped s a (protection v)) by now exists (k, v). apply (protection_at_mapped s a _ W) in M. rewrite M.
    destruct (forallb _ (guest_vmas s)) eqn:F; [| now rewrite andb_false_r]. rewrite forallb_forall in F. specialize (F _ Hp). apply Z.ltb_lt in F.
    pose proof (wf_area _ W) as Hok. rewrite List.Forall_forall in Hok. pose proof (proj1 (Hok _ Hp)). unfold holds in Ha. lia.
  - destruct L as [Hn Hsome]. rewrite (proj2 (protection_at_none s a W) Hn). destruct Hsome as [-> | (p & Hp & Hle)]; [reflexivity |].
    destruct (forallb _ (guest_vmas s)) eqn:F; [| now rewrite andb_false_r]. rewrite forallb_forall in F. specialize (F p Hp). apply Z.ltb_lt in F. lia.
  - destruct L as (-> & Hne & Hall). destruct (guest_vmas s) as [| p0 l] eqn:E; [congruence |]. rewrite <- E. assert (F : forallb (fun p => a <? fst p) (guest_vmas s) = true).
    { apply forallb_forall. intros p Hp. rewrite E in Hp. apply Z.ltb_lt. now apply Hall. }
    rewrite F. reflexivity.
Qed.

(** ** Mapping *)

Lemma HasIntersecting_false s addr size : well_formed s -> 0 <= addr -> addr + size < 2 ^ 64 -> 0 < size ->
  HasIntersectingRegions addr size s = false <-> forall r, In r (allocated_regions_ s) -> rend r <= addr \/ addr + size <= fst r.
Proof.
  intros W Ha He Hs. unfold HasIntersectingRegions. rewrite (u64_bounded (addr + size)) by lia. pose proof (wf_bounded _ W) as Hb. rewrite List.Forall_forall in Hb. split.
  - intros E r Hr. destruct (Hb r Hr) as [B0 B1]. pose proof (ordered_positive _ _ _ _ _ (wf_regions _ W) Hr) as Hp.
    assert (F : overlap addr (addr + size) (fst r) (u64 (fst r + snd r)) = false).
    { destruct (overlap _ _ _ _) eqn:F; [| reflexivity]. rewrite <- E. symmetry. apply existsb_exists. now exists r. }
    unfold overlap in F. fold (rend r) in F. rewrite u64_bounded in F by lia. apply andb_false_iff in F. rewrite !Z.ltb_ge in F. lia.
  - intros Hf. destruct (existsb _ _) eqn:E; [| reflexivity]. apply existsb_exists in E as (r & Hr & F). destruct (Hb r Hr) as [B0 B1].
    pose proof (ordered_positive _ _ _ _ _ (wf_regions _ W) Hr) as Hp. unfold overlap in F. fold (rend r) in F. rewrite u64_bounded in F by lia. apply andb_true_iff in F. rewrite !Z.ltb_lt in F. specialize (Hf r Hr). lia.
Qed.
Lemma bounded_merged l l1 : merged l l1 -> Forall bounded l1. Proof. apply merged_bounded. Qed.
(** A free region is allocated, and merged. *)
Lemma AllocateRegion_free s addr size : well_formed s -> 0 <= addr -> addr + size < 2 ^ 64 -> 0 < size ->
  (forall r, In r (allocated_regions_ s) -> rend r <= addr \/ addr + size <= fst r) ->
  exists l, AllocateRegion addr size s = Ok (with_allocated l s) /\ merged (map_put addr size (allocated_regions_ s)) l
    /\ forall q, In q (map_put addr size (allocated_regions_ s)) <-> q = (addr, size) \/ In q (allocated_regions_ s).
Proof.
  intros W Ha He Hs Hf. assert (Hk : forall q, In q (allocated_regions_ s) -> fst q <> addr).
  { intros q Hq E. pose proof (ordered_positive _ _ _ _ _ (wf_regions _ W) Hq) as Hp. specialize (Hf q Hq). lia. }
  unfold AllocateRegion. rewrite (proj2 (map_find_none addr (allocated_regions_ s)) Hk).
  exists (merge_regions (map_put addr size (allocated_regions_ s))). split; [reflexivity |].
  assert (Hin : forall q, In q (map_put addr size (allocated_regions_ s)) <-> q = (addr, size) \/ In q (allocated_regions_ s)) by (intros q; now apply In_map_put).
  split; [| exact Hin]. apply merge_merged.
  - apply ordered_put; [lia | apply (ordered_weaken _ _ 1 0); [lia | apply W] | reflexivity | reflexivity | unfold rend; cbn; lia |].
    intros q Hq. specialize (Hf q Hq). change (rend (addr, size)) with (addr + size). lia.
  - apply List.Forall_forall. intros q Hq. apply Hin in Hq as [-> | Hq]; [unfold bounded, rend; cbn; lia |]. pose proof (wf_bounded _ W) as Hb. rewrite List.Forall_forall in Hb. now apply Hb.
Qed.
(** Regions that cover what others covered. *)
Lemma covered_merged l1 l2 p : merged l1 l2 -> (exists r, In r l1 /\ within (vstart p) (vend p) r) -> exists r, In r l2 /\ within (vstart p) (vend p) r.
Proof. intros M (r & Hr & W). destruct (merged_within _ _ M r Hr) as (r1 & Hr1 & W1). exists r1. split; [exact Hr1 |]. unfold within in *. lia. Qed.

(** The state once an area is there. *)
Definition mapped_state s (addr : Z) (vma : GuestVMA) (l : list (Z * Z)) (h : H) : regions H := mkRegions (map_put addr vma (guest_vmas s)) l h.
Lemma area_free s addr size p : well_formed s -> (forall r, In r (allocated_regions_ s) -> rend r <= addr \/ addr + size <= fst r) -> In p (guest_vmas s) -> vend p <= addr \/ addr + size <= vstart p.
Proof.
  intros W Hf Hp. destruct (wf_covered _ W p Hp) as (r & Hr & [W1 W2]). pose proof (ordered_positive _ _ _ _ _ (wf_areas _ W) Hp). specialize (Hf r Hr). lia.
Qed.
Lemma MapRegion_free fuel s addr size0 prot nm : let size := AlignUp size0 in
  well_formed s -> 0 <= addr -> addr + size < 2 ^ 64 -> 0 < size -> HasIntersectingRegions addr size s = false ->
  exists done s1, MapRegion (S fuel) addr size0 prot nm s = Ok (done, s1) /\ well_formed s1
    /\ forall a, protection_at s1 a = if done && (addr <=? a) && (a <? addr + size) then Some prot else protection_at s a.
Proof.
  intros size W Ha He Hs Hi. unfold MapRegion, MapRegion_on. fold size. rewrite Hi. cbn [rbind]. destruct (AllocateVMA (mkVMA 0 addr size prot nm) (host s)) as [[done vma] h] eqn:EA.
  pose proof (AllocateVMA_same (mkVMA 0 addr size prot nm) (host s)) as Same. rewrite EA in Same. destruct Same as (S1 & S2 & S3). cbn [fst snd base_ vsize protection] in *.
  destruct done.
  - pose proof (proj1 (HasIntersecting_false s addr size W Ha He Hs) Hi) as Hf.
    destruct (AllocateRegion_free s addr size W Ha He Hs Hf) as (l & El & M & Hin).
    assert (El2 : AllocateRegion addr size (with_vmas (map_put addr vma (guest_vmas (with_host h s))) (with_host h s)) = Ok (mapped_state s addr vma l h)).
    { unfold AllocateRegion in El |- *. cbn [with_vmas with_host allocated_regions_] in *. destruct (map_find addr (allocated_regions_ s)); [discriminate |]. injection El as <-. reflexivity. }
    rewrite El2. cbn [rbind]. exists true, (mapped_state s addr vma l h). split; [reflexivity |].
    assert (Hk : forall q, In q (guest_vmas s) -> fst q <> addr).
    { intros q Hq E. pose proof (wf_area _ W) as Hok. rewrite List.Forall_forall in Hok. pose proof (proj1 (Hok q Hq)). pose proof (ordered_positive _ _ _ _ _ (wf_areas _ W) Hq). pose proof (area_free s addr size q W Hf Hq). lia. }
    assert (Hv : forall q, In q (map_put addr vma (guest_vmas s)) <-> q = (addr, vma) \/ In q (guest_vmas s)) by (intros q; now apply In_map_put).
    assert (Enew : vstart (addr, vma) = addr /\ vend (addr, vma) = addr + size) by (unfold vstart, vend; cbn [snd]; lia). destruct Enew as [En1 En2].
    assert (W1 : well_formed (mapped_state s addr vma l h)).
    { split; cbn [mapped_state guest_vmas allocated_regions_].
      - apply ordered_put; [lia | apply W | | exact En1 | rewrite En2; lia |].
        + intros q Hq. pose proof (wf_area _ W) as Hok. rewrite List.Forall_forall in Hok. exact (proj1 (Hok q Hq)).
        + intros q Hq. pose proof (area_free s addr size q W Hf Hq). rewrite En2. lia.
      - apply List.Forall_forall. intros q Hq. apply Hv in Hq as [-> | Hq]; [unfold area_ok; cbn [fst]; lia |]. pose proof (wf_area _ W) as Hok. rewrite List.Forall_forall in Hok. now apply Hok.
      - apply M.
      - apply M.
      - intros p Hp. apply (covered_merged _ _ p M). apply Hv in Hp as [-> | Hp].
        + exists (addr, size). split; [apply Hin; now left |]. unfold within, rend. cbn [fst snd]. lia.
        + destruct (wf_covered _ W p Hp) as (r & Hr & Hw). exists r. split; [apply Hin; now right | exact Hw]. }
    split; [exact W1 |]. intros a. cbn [andb]. destruct ((addr <=? a) && (a <? addr + size)) eqn:Ein.
    + apply (protection_at_mapped _ _ _ W1). exists (addr, vma). split; [apply Hv; now left |]. split; [unfold holds; lia | exact S3].
    + apply (protection_at_ext s _ a W W1). intros x. unfold mapped. cbn [mapped_state guest_vmas]. split.
      * intros (p & Hp & Hpa & Hx). apply Hv in Hp as [-> | Hp]; [unfold holds in Hpa; lia | now exists p].
      * intros (p & Hp & Hpa & Hx). exists p. split; [apply Hv; now right | now split].
  - exists false, (with_host h s). split; [reflexivity |]. split; [destruct W; split; assumption |]. reflexivity.
Qed.
End Spaces.

(** ** Changing an area *)

Lemma ordered_map {A} (start end_ : A -> Z) gap (f : A -> A) l : (forall x, In x l -> start (f x) = start x /\ end_ (f x) = end_ x) ->
  ordered start end_ gap l -> ordered start end_ gap (map f l).
Proof.
  intros Hf Ho. induction Ho as [| x l Hx Hl _ IH]; cbn [map]; [constructor |]. destruct (Hf x (or_introl eq_refl)) as [E1 E2]. constructor.
  - lia.
  - apply List.Forall_forall. intros y Hy. apply in_map_iff in Hy as (z & <- & Hz). rewrite List.Forall_forall in Hl. specialize (Hl z Hz). destruct (Hf z (or_intror Hz)). lia.
  - apply IH. intros z Hz. apply Hf. now right.
Qed.
Lemma ordered_filter {A} (start end_ : A -> Z) gap (f : A -> bool) l : ordered start end_ gap l -> ordered start end_ gap (List.filter f l).
Proof.
  induction 1 as [| x l Hx Hl _ IH]; cbn [List.filter]; [constructor |]. destruct (f x); [| exact IH]. constructor; [exact Hx | | exact IH].
  apply List.Forall_forall. intros y Hy. apply filter_In in Hy as [Hy _]. rewrite List.Forall_forall in Hl. now apply Hl.
Qed.

Section Changes.
Context {H : Type} {Host : VMAHost H} {Laws : VMAHostLaws H}.
Implicit Types s : regions H.

Lemma key_start s p : well_formed s -> In p (guest_vmas s) -> vstart p = fst p.
Proof. intros W Hp. pose proof (wf_area _ W) as Hok. rewrite List.Forall_forall in Hok. exact (proj1 (Hok p Hp)). Qed.
Lemma key_unique s p q : well_formed s -> In p (guest_vmas s) -> In q (guest_vmas s) -> fst p = fst q -> p = q.
Proof.
  intros W Hp Hq E. pose proof (key_start s p W Hp). pose proof (key_start s q W Hq). pose proof (ordered_positive _ _ _ _ _ (wf_areas _ W) Hp). pose proof (ordered_positive _ _ _ _ _ (wf_areas _ W) Hq).
  apply (ordered_unique _ _ 0 _ p q (vstart p) (Z.le_refl 0) (wf_areas _ W) Hp Hq); unfold holds; lia.
Qed.
Definition in_range_of (addr size a : Z) : bool := (addr <=? a) && (a <? addr + size).
(** An area given another protection, or moved by its host. *)
Lemma set_area s k v v1 h : well_formed s -> In (k, v) (guest_vmas s) -> base_ v1 = base_ v -> vsize v1 = vsize v ->
  let s1 := with_host h (with_vmas (map_set k v1 (guest_vmas s)) s) in
  well_formed s1 /\ In (k, v1) (guest_vmas s1) /\ forall a, protection_at s1 a = if in_range_of k (vsize v) a then Some (protection v1) else protection_at s a.
Proof.
  intros W Hkv Eb Es s1. assert (Hset : forall p, In p (map_set k v1 (guest_vmas s)) <-> p = (k, v1) \/ (In p (guest_vmas s) /\ fst p <> k)).
  { intros p. rewrite In_map_set. intuition. left. split; [assumption | now exists v]. }
  pose proof (key_start s _ W Hkv) as Ek. unfold vstart in Ek. cbn [fst snd] in Ek.
  assert (Es1 : vstart (k, v1) = vstart (k, v) /\ vend (k, v1) = vend (k, v)) by (unfold vstart, vend; cbn [snd]; lia).
  assert (W1 : well_formed s1).
  { split; cbn [s1 with_host with_vmas guest_vmas allocated_regions_].
    - apply ordered_map; [| apply W]. intros p Hp. destruct (Z.eqb_spec (fst p) k) as [E | E]; [| now split]. rewrite (key_unique s p (k, v) W Hp Hkv E). exact Es1.
    - apply List.Forall_forall. intros p Hp. pose proof (wf_area _ W) as Hok. rewrite List.Forall_forall in Hok. apply Hset in Hp as [-> | [Hp _]]; [| now apply Hok].
      specialize (Hok _ Hkv). unfold area_ok in *. cbn [fst] in *. lia.
    - apply W.
    - apply W.
    - intros p Hp. apply Hset in Hp as [-> | [Hp _]]; [| now apply (wf_covered _ W)]. destruct (wf_covered _ W _ Hkv) as (r & Hr & Hw). exists r. split; [exact Hr |]. unfold within in *. lia. }
  split; [exact W1 |]. split; [apply Hset; now left |]. intros a. unfold in_range_of. destruct (_ && _) eqn:Ein.
  - apply (protection_at_mapped _ _ _ W1). exists (k, v1). split; [apply Hset; now left |]. split; [unfold holds, vstart, vend; cbn [snd]; lia | reflexivity].
  - apply (protection_at_ext s _ a W W1). intros x. unfold mapped. cbn [s1 with_host with_vmas guest_vmas]. split.
    + intros (p & Hp & Ha & Hx). apply Hset in Hp as [-> | [Hp _]]; [unfold holds, vstart, vend in Ha; cbn [snd] in Ha; lia | now exists p].
    + intros (p & Hp & Ha & Hx). exists p. split; [| now split]. apply Hset. right. split; [exact Hp |]. intros E. rewrite (key_unique s p (k, v) W Hp Hkv E) in Ha. unfold holds, vstart, vend in Ha. cbn [snd] in Ha. lia.
Qed.
Lemma erase_area s k v : well_formed s -> In (k, v) (guest_vmas s) ->
  let s1 := with_vmas (map_erase k (guest_vmas s)) s in
  well_formed s1 /\ forall a, protection_at s1 a = if in_range_of k (vsize v) a then None else protection_at s a.
Proof.
  intros W Hkv s1. pose proof (key_start s _ W Hkv) as Ek. unfold vstart in Ek. cbn [fst snd] in Ek.
  assert (W1 : well_formed s1).
  { split; cbn [s1 with_vmas guest_vmas allocated_regions_]; [apply ordered_filter, W | | apply W | apply W |].
    - apply List.Forall_forall. intros p Hp. apply In_map_erase in Hp as [Hp _]. pose proof (wf_area _ W) as Hok. rewrite List.Forall_forall in Hok. now apply Hok.
    - intros p Hp. apply In_map_erase in Hp as [Hp _]. now apply (wf_covered _ W). }
  split; [exact W1 |]. intros a. unfold in_range_of. destruct (_ && _) eqn:Ein.
  - apply (protection_at_none _ a W1). intros p Hp Ha. apply In_map_erase in Hp as [Hp Hn]. apply Hn. change k with (fst (k, v)). f_equal.
    apply (ordered_unique _ _ 0 _ p (k, v) a (Z.le_refl 0) (wf_areas _ W) Hp Hkv Ha). unfold holds, vstart, vend. cbn [snd]. lia.
  - apply (protection_at_ext s _ a W W1). intros x. unfold mapped. cbn [s1 with_vmas guest_vmas]. split.
    + intros (p & Hp & Hx). apply In_map_erase in Hp as [Hp _]. now exists p.
    + intros (p & Hp & Ha & Hx). exists p. split; [| now split]. apply In_map_erase. split; [exact Hp |]. intros E. rewrite (key_unique s p (k, v) W Hp Hkv E) in Ha. unfold holds, vstart, vend in Ha. cbn [snd] in Ha. lia.
Qed.
(** The allocated regions merged once more. *)
Lemma merge_again s : well_formed s -> well_formed (MergeAllocatedRegions s) /\ forall a, protection_at (MergeAllocatedRegions s) a = protection_at s a.
Proof.
  intros W. assert (M : merged (allocated_regions_ s) (merge_regions (allocated_regions_ s))) by (apply merge_merged; [apply (ordered_weaken _ _ 1 0); [lia | apply W] | apply W]).
  split; [| reflexivity]. split; cbn [MergeAllocatedRegions with_allocated guest_vmas allocated_regions_]; [apply W | apply W | apply M | apply M |].
  intros p Hp. apply (covered_merged _ _ p M). now apply (wf_covered _ W).
Qed.
Lemma DeleteVMA_area s k v : well_formed s -> In (k, v) (guest_vmas s) -> DeleteVMA k s = (true, with_vmas (map_erase k (guest_vmas s)) s).
Proof.
  intros W Hkv. unfold DeleteVMA. pose proof (key_start s _ W Hkv) as Ek. pose proof (ordered_positive _ _ _ _ _ (wf_areas _ W) Hkv) as Hp. cbn [fst] in Ek.
  assert (Hin : in_area (k, v) k) by (unfold holds; lia). destruct (find _ (guest_vmas s)) as [[k1 v1] |] eqn:E.
  - apply find_some in E as [Hq Hq2]. apply (in_vma_holds s _ k W Hq) in Hq2. pose proof (ordered_unique _ _ 0 _ _ _ k (Z.le_refl 0) (wf_areas _ W) Hq Hkv Hq2 Hin) as Eq. injection Eq as -> ->. reflexivity.
  - apply (find_none _ _ E) in Hkv as Hn. apply (in_vma_holds s _ k W Hkv) in Hin. cbn [snd] in *. congruence.
Qed.
End Changes.

(** ** Pages *)

Lemma PageBase_spec a : PageBase a = a - a mod 4096.
Proof.
  unfold PageBase. change (Z.lnot 4095) with (Z.lnot (Z.ones 12)). rewrite <- Z.ldiff_land, Z.ldiff_ones_r, Z.shiftl_mul_pow2, Z.shiftr_div_pow2 by lia.
  change (2 ^ 12) with 4096. pose proof (Z.div_mod a 4096 ltac:(lia)). lia.
Qed.
Lemma AlignUp_spec a : 0 <= a < 2 ^ 64 - 4096 -> AlignUp a mod 4096 = 0 /\ a <= AlignUp a < a + 4096.
Proof.
  intros Ha. unfold AlignUp. rewrite PageBase_spec. pose proof (Z.mod_pos_bound a 4096 ltac:(lia)) as Hm. destruct (Z.eqb_spec (a - a mod 4096) a) as [E | E]; [lia |].
  rewrite u64_bounded by lia. split; [| lia]. replace (a - a mod 4096 + 4096) with (4096 * (a / 4096 + 1)) by (pose proof (Z.div_mod a 4096 ltac:(lia)); lia).
  now rewrite Z.mul_comm, Z.mod_mul by lia.
Qed.
Lemma AlignUp_aligned a : a mod 4096 = 0 -> AlignUp a = a.
Proof. intros E. unfold AlignUp. rewrite PageBase_spec, E, Z.sub_0_r, Z.eqb_refl. reflexivity. Qed.

Section Operations.
Context {H : Type} {Host : VMAHost H} {Laws : VMAHostLaws H}.
Implicit Types s : regions H.

(** Behind all allocated regions. *)
Definition top s : Z := fold_right Z.max 0x40000000 (map rend (allocated_regions_ s)).
Lemma top_above s r : In r (allocated_regions_ s) -> rend r <= top s.
Proof. unfold top. induction (allocated_regions_ s) as [| x l IH]; [intros [] |]. cbn [map fold_right]. intros [-> | Hr]; [lia | specialize (IH Hr); lia]. Qed.
Lemma top_base s : 0x40000000 <= top s.
Proof. unfold top. induction (map rend _) as [| x l IH]; cbn [fold_right]; lia. Qed.
Lemma find_free_spec s size : well_formed s -> 0 < size -> forall fuel addr, 0 <= addr -> addr <= top s + 4096 -> top s + size + 4096 < 2 ^ 64 -> top s <= addr + 4096 * Z.of_nat fuel ->
  exists a, find_free fuel addr size s = Ok a /\ addr <= a <= top s + 4096 /\ (a - addr) mod 4096 = 0 /\ HasIntersectingRegions a size s = false
    /\ forall b, addr <= b < a -> (b - addr) mod 4096 = 0 -> HasIntersectingRegions b size s = true.
Proof.
  intros W Hs. induction fuel as [| n IH]; intros addr H0 H1 H2 H3; cbn [find_free]; destruct (HasIntersectingRegions addr size s) eqn:E.
  - exfalso. assert (F : HasIntersectingRegions addr size s = false) by (apply (HasIntersecting_false s addr size W); [lia | lia | lia |]; intros r Hr; pose proof (top_above s r Hr); lia). congruence.
  - exists addr. rewrite Z.sub_diag. split; [reflexivity |]. split; [lia |]. split; [reflexivity |]. split; [exact E | intros b Hb; lia].
  - assert (Hlt : addr < top s).
    { destruct (Z.lt_ge_cases addr (top s)) as [Hl | Hg]; [exact Hl |]. assert (F : HasIntersectingRegions addr size s = false) by (apply (HasIntersecting_false s addr size W); [lia | lia | lia |]; intros r Hr; pose proof (top_above s r Hr); lia). congruence. }
    rewrite u64_bounded by lia. destruct (IH (addr + 4096)) as (a & Ea & Ha & Hm & Hi & Hb); [lia | lia | lia | lia |].
    exists a. split; [exact Ea |]. split; [lia |]. split; [replace (a - addr) with (a - (addr + 4096) + 1 * 4096) by lia; now rewrite Z.mod_add by lia |]. split; [exact Hi |].
    intros b Hb1 Hb2. destruct (Z.eq_dec b addr) as [-> | Hn]; [exact E |]. apply Hb.
    + split; [| lia]. pose proof (Z.div_mod (b - addr) 4096 ltac:(lia)) as Hd. rewrite Hb2 in Hd. lia.
    + replace (b - (addr + 4096)) with (b - addr + -1 * 4096) by lia. now rewrite Z.mod_add by lia.
  - exists addr. rewrite Z.sub_diag. split; [reflexivity |]. split; [lia |]. split; [reflexivity |]. split; [exact E | intros b Hb; lia].
Qed.
Lemma overlap_free s a size x : well_formed s -> 0 <= a -> a + size < 2 ^ 64 -> 0 < size -> HasIntersectingRegions a size s = false -> a <= x < a + size -> protection_at s x = None.
Proof.
  intros W Ha He Hs Hi Hx. apply (protection_at_none s x W). intros p Hp Hpx. pose proof (area_free s a size p W (proj1 (HasIntersecting_false s a size W Ha He Hs) Hi) Hp). unfold holds in Hpx. lia.
Qed.
(** MapAnonymousRegion ends; unless the host has no memory for
    the area, it gives the first page from 0x40000000 on where the size,
    rounded up to pages, meets no allocated region; nothing was mapped there,
    and afterwards exactly those addresses have the protection asked for, all
    others the one they had. *)
Lemma MapAnonymousRegion_fresh s fuel size0 prot : let size := AlignUp size0 in
  well_formed s -> 0 < size0 < 2 ^ 64 - 4096 -> top s + size + 4096 < 2 ^ 64 -> top s <= 0x40000000 + 4096 * Z.of_nat fuel ->
  exists answer s1, MapAnonymousRegion (S fuel) size0 prot s = Ok (answer, s1) /\ well_formed s1
    /\ (answer = 2 ^ 64 - 1 /\ (forall a, protection_at s1 a = protection_at s a)
        \/ 0x40000000 <= answer <= top s + 4096 /\ answer mod 4096 = 0
           /\ (forall b, 0x40000000 <= b < answer -> b mod 4096 = 0 -> HasIntersectingRegions b size s = true)
           /\ (forall a, answer <= a < answer + size -> protection_at s a = None)
           /\ forall a, protection_at s1 a = if in_range_of answer size a then Some prot else protection_at s a).
Proof.
  intros size W Hz Htop Hfuel. destruct (AlignUp_spec size0 ltac:(lia)) as [Hal Hsz]. fold size in Hal, Hsz. pose proof (top_base s) as Hb.
  destruct (find_free_spec s size W ltac:(lia) (S fuel) 0x40000000) as (a & Ea & Ha & Hm & Hi & Hfirst); [lia | lia | lia | lia |].
  unfold MapAnonymousRegion. fold size. rewrite Ea. cbn [rbind].
  destruct (MapRegion_free fuel s a size prot EmptyString) as (done & s1 & E1 & W1 & P1); rewrite ?(AlignUp_aligned size Hal); [exact W | lia | lia | lia | exact Hi |].
  rewrite (AlignUp_aligned size Hal) in P1. rewrite E1. cbn [rbind fst snd]. eexists _, s1. split; [reflexivity |]. split; [exact W1 |]. destruct done.
  - right. split; [lia |]. split; [replace a with (a - 0x40000000 + 262144 * 4096) by lia; now rewrite Z.mod_add by lia |]. split; [| split].
    + intros b Hb1 Hb2. apply Hfirst; [lia |]. replace (b - 0x40000000) with (b + -262144 * 4096) by lia. now rewrite Z.mod_add by lia.
    + intros x Hx. apply (overlap_free s a size x W); (lia || assumption).
    + exact P1.
  - left. split; [reflexivity |]. exact P1.
Qed.
Lemma ProtectRegion_area s addr size prot : well_formed s ->
  match List.find (fun p => fst p =? addr) (guest_vmas s) with
  | Some (_, v) => exists done s1, ProtectRegion addr size prot s = (done, s1) /\ well_formed s1 /\ forall a, protection_at s1 a = if in_range_of addr (vsize v) a then Some prot else protection_at s a
  | None => ProtectRegion addr size prot s = (false, s)
  end.
Proof.
  intros W. unfold ProtectRegion, map_find. destruct (find _ _) as [[k v] |] eqn:E; [| reflexivity]. apply find_some in E as [Hin Hk%Z.eqb_eq]. cbn [fst snd] in *. subst k.
  destruct (SynchroniseVMAProtection (with_protection prot v) (host s)) as [[done v1] h] eqn:ES. pose proof (SynchroniseVMAProtection_same (with_protection prot v) (host s)) as Same. rewrite ES in Same.
  destruct Same as (S1 & S2 & S3). cbn [fst snd with_protection base_ vsize protection] in *. destruct (set_area s addr v v1 h W Hin S1 S2) as (W1 & _ & P1). rewrite S3 in P1.
  eexists done, _. split; [reflexivity |]. split; [exact W1 | exact P1].
Qed.
(** Unmapping an area works when an allocated region starts at or behind it. *)
Lemma UnmapRegion_area s addr size v : well_formed s -> In (addr, v) (guest_vmas s) -> vsize v = AlignUp size -> (exists r, In r (allocated_regions_ s) /\ addr <= fst r) ->
  exists done s1, UnmapRegion addr size s = Ok (done, s1) /\ well_formed s1 /\ forall a, protection_at s1 a = if done && in_range_of addr (AlignUp size) a then None else protection_at s a.
Proof.
  intros W Hin Esz Hreg. pose proof (key_start s _ W Hin) as Ek. unfold vstart in Ek. cbn [fst snd] in Ek. pose proof (ordered_positive _ _ _ _ _ (wf_areas _ W) Hin) as Hpos. unfold vstart, vend in Hpos. cbn [snd] in Hpos.
  assert (Hadd : in_area (addr, v) addr) by (unfold holds, vstart, vend; cbn [snd]; lia).
  unfold UnmapRegion. pose proof (LookupVMA_spec s addr W) as L. destruct (LookupVMA addr s) as [[p |] | e]; cbn [rbind].
  2: { destruct L as [L _]. destruct (L _ Hin Hadd). }
  2: { destruct L as (_ & _ & L). specialize (L _ Hin). cbn in L. lia. }
  destruct L as [Hp Hpa]. rewrite (ordered_unique _ _ 0 _ p (addr, v) addr (Z.le_refl 0) (wf_areas _ W) Hp Hin Hpa Hadd). clear p Hp Hpa.
  destruct (DeallocateVMA v (host s)) as [[done v1] h] eqn:ED. pose proof (DeallocateVMA_same v (host s)) as Same. rewrite ED in Same. destruct Same as (S1 & S2 & S3). cbn [fst snd] in *.
  destruct (set_area s addr v v1 h W Hin S1 S2) as (W1 & Hin1 & P1). set (s1 := with_host h (with_vmas (map_set addr v1 (guest_vmas s)) s)) in *.
  assert (P1' : forall a, protection_at s1 a = protection_at s a).
  { intros a. rewrite P1. destruct (in_range_of _ _ _) eqn:Ein; [| reflexivity]. symmetry. rewrite S3. apply (protection_at_mapped s a _ W). exists (addr, v). split; [exact Hin |]. split; [| reflexivity].
    unfold in_range_of in Ein. unfold holds, vstart, vend. cbn [snd]. lia. }
  destruct done; [| exists false, s1; split; [reflexivity |]; split; [exact W1 | exact P1']].
  unfold DeallocateRegion. change (allocated_regions_ s1) with (allocated_regions_ s). destruct (lower_bound addr (allocated_regions_ s)) as [r |] eqn:EL.
  - unfold lower_bound in EL. apply find_some in EL as [Hr Hle%Z.leb_le]. cbn [of_option rbind]. pose proof (wf_bounded _ W) as Hb. rewrite List.Forall_forall in Hb. destruct (Hb r Hr) as [B0 B1]. pose proof (ordered_positive _ _ _ _ _ (wf_regions _ W) Hr) as Hrp.
    destruct (wf_covered _ W _ Hin) as (rc & Hrc & [C1 C2]). unfold vstart, vend in C1, C2. cbn [snd] in C1, C2. destruct (Hb rc Hrc) as [_ B3].
    pose proof (wf_area _ W) as Hok. rewrite List.Forall_forall in Hok. specialize (Hok _ Hin). unfold area_ok, vstart, vend in Hok. cbn [fst snd] in Hok.
    assert (Hend : addr + AlignUp size <= rend r).
    { destruct (Z.lt_ge_cases (fst r) (rend rc)) as [Hl | Hg]; [| lia]. rewrite (ordered_unique _ _ 1 _ r rc (fst r) ltac:(lia) (wf_regions _ W) Hr Hrc); [lia | unfold holds; lia | unfold holds; lia]. }
    fold (rend r). rewrite (u64_bounded (rend r)), (u64_bounded (addr + AlignUp size)) by lia. rewrite (proj2 (Z.ltb_ge _ _) Hend). cbn [rbind].
    destruct (merge_again s1 W1) as [W2 P2]. assert (Hin2 : In (addr, v1) (guest_vmas (MergeAllocatedRegions s1))) by exact Hin1. destruct (erase_area _ addr v1 W2 Hin2) as [W3 P3].
    rewrite (DeleteVMA_area _ addr v1 W2 Hin2). cbn [snd]. eexists true, _. split; [reflexivity |]. split; [exact W3 |]. intros a. rewrite P3, P2, P1'. cbn [andb]. now rewrite S2, Esz.
  - destruct Hreg as (r & Hr & Hle). apply (find_none _ _ EL) in Hr. apply Z.leb_gt in Hr. lia.
Qed.
End Operations.

(** ** Address spaces *)

Inductive event :=
| EMap (addr size prot : Z) (name : string)
| EMapAnonymous (size prot : Z)
| EProtect (addr size prot : Z)
| EUnmap (addr size : Z).
(** The protection of every address that is mapped. *)
Definition space : Type := Z -> option Z.
Definition assign (addr size : Z) (x : option Z) (m : space) : space := fun a => if in_range_of addr size a then x else m a.
(** What an event does to an address space, with the answer it was given. *)
Definition space_after (e : event) (answer : Z) (m : space) : space :=
  match e with
  | EMap addr size prot _ => if answer =? 0 then m else assign addr (AlignUp size) (Some prot) m
  | EMapAnonymous size prot => if answer =? 2 ^ 64 - 1 then m else assign answer (AlignUp size) (Some prot) m
  | EProtect addr size prot => if answer =? 0 then m else assign addr (AlignUp size) (Some prot) m
  | EUnmap addr size => if answer =? 0 then m else assign addr (AlignUp size) None m
  end.
Definition answered {H} (x : bool * regions H) : Z * regions H := (Z.b2z (fst x), snd x).

Section Refinement.
Context {H : Type} {Host : VMAHost H} {Laws : VMAHostLaws H}.
Implicit Types s : regions H.

Definition do_event (fuel : nat) (e : event) s : result (Z * regions H) :=
  match e with
  | EMap addr size prot name => rmap answered (MapRegion fuel addr size prot name s)
  | EMapAnonymous size prot => MapAnonymousRegion fuel size prot s
  | EProtect addr size prot => Ok (answered (ProtectRegion addr size prot s))
  | EUnmap addr size => rmap answered (UnmapRegion addr size s)
  end.
(** Free addresses are mapped, and whole areas are protected and unmapped,
    those with an allocated region that starts at or behind them.  A host that
    cannot change the protection of an area is not covered. *)
Definition permitted (e : event) s : Prop :=
  match e with
  | EMap addr size prot _ => 0 <= addr /\ 0 < size < 2 ^ 64 - 4096 /\ addr + AlignUp size < 2 ^ 64 /\ HasIntersectingRegions addr (AlignUp size) s = false
  | EMapAnonymous size _ => 0 < size < 2 ^ 64 - 4096 /\ top s + AlignUp size + 4096 < 2 ^ 64
  | EProtect addr size prot => (forall v, In (addr, v) (guest_vmas s) -> vsize v = AlignUp size) /\ (forall v, fst (fst (SynchroniseVMAProtection v (host s))) = true)
  | EUnmap addr size => (exists v, In (addr, v) (guest_vmas s) /\ vsize v = AlignUp size) /\ exists r, In r (allocated_regions_ s) /\ addr <= fst r
  end.
(** Enough for the search of MapAnonymousRegion. *)
Definition enough (s : regions H) (fuel : nat) : Prop := top s <= 0x40000000 + 4096 * (Z.of_nat fuel - 1) /\ (0 < fuel)%nat.
Lemma do_event_refines fuel e s : well_formed s -> permitted e s -> enough s fuel ->
  exists answer s1, do_event fuel e s = Ok (answer, s1) /\ well_formed s1 /\ forall a, protection_at s1 a = space_after e answer (protection_at s) a.
Proof.
  intros W P [F1 F2]. destruct fuel as [| fuel]; [lia |]. destruct e as [addr size prot nm | size prot | addr size prot | addr size]; cbn [do_event permitted space_after] in *.
  - destruct P as (P0 & P1 & P2 & P3). destruct (AlignUp_spec size ltac:(lia)) as [_ Hsz]. destruct (MapRegion_free fuel s addr size prot nm W P0 P2 ltac:(lia) P3) as (done & s1 & -> & W1 & H1).
    eexists _, s1. split; [reflexivity |]. split; [exact W1 |]. intros a. rewrite H1. cbn [answered fst Z.b2z]. unfold assign, in_range_of. destruct done; reflexivity.
  - destruct P as (P1 & P2). destruct (AlignUp_spec size ltac:(lia)) as [_ Hsz]. destruct (MapAnonymousRegion_fresh s fuel size prot W P1 P2 ltac:(lia)) as (answer & s1 & -> & W1 & [(-> & H1) | (H0 & _ & _ & _ & H1)]).
    + exists (2 ^ 64 - 1), s1. split; [reflexivity |]. split; [exact W1 |]. intros a. rewrite Z.eqb_refl. apply H1.
    + exists answer, s1. split; [reflexivity |]. split; [exact W1 |]. intros a. rewrite (proj2 (Z.eqb_neq _ _)) by lia. apply H1.
  - destruct P as [P1 P2]. pose proof (ProtectRegion_area s addr size prot W) as L. destruct (find _ _) as [[k v] |] eqn:E.
    + destruct L as (done & s1 & E1 & W1 & H1). apply find_some in E as [Hin Hk%Z.eqb_eq]. cbn [fst] in Hk. subst k.
      assert (Hd : done = true).
      { unfold ProtectRegion in E1. destruct (map_find addr (guest_vmas s)) as [v0 |] eqn:Ef.
        - specialize (P2 (with_protection prot v0)). destruct (SynchroniseVMAProtection _ _) as [[d v1] h]. cbn in P2. congruence.
        - apply (proj1 (map_find_none addr (guest_vmas s))) with (q := (addr, v)) in Ef; [| exact Hin]. now destruct Ef. }
      rewrite E1. subst done. exists 1, s1. split; [reflexivity |]. split; [exact W1 |]. intros a. rewrite H1, (P1 v Hin). reflexivity.
    + rewrite L. exists 0, s. split; [reflexivity |]. split; [exact W | reflexivity].
  - destruct P as [(v & Hin & Hv) Hr]. destruct (UnmapRegion_area s addr size v W Hin Hv Hr) as (done & s1 & -> & W1 & H1). eexists _, s1. split; [reflexivity |]. split; [exact W1 |].
    intros a. rewrite H1. cbn [answered fst Z.b2z]. unfold assign. destruct done; reflexivity.
Qed.
Definition empty_regions (h : H) : regions H := mkRegions [] [] h.
Lemma empty_well_formed h : well_formed (empty_regions h).
Proof. split; cbn [empty_regions guest_vmas allocated_regions_]; try constructor. intros p []. Qed.
(** The events so far, with their answers, the latest first. *)
Inductive reached (h : H) : list (event * Z) -> regions H -> Prop :=
| reached_none : reached h [] (empty_regions h)
| reached_more past s fuel e answer s1 : reached h past s -> permitted e s -> enough s fuel -> do_event fuel e s = Ok (answer, s1) -> reached h ((e, answer) :: past) s1.
Definition replay (past : list (event * Z)) : space := fold_right (fun x m => space_after (fst x) (snd x) m) (fun _ => None) past.
Lemma space_after_ext e answer m1 m2 : (forall a, m1 a = m2 a) -> forall a, space_after e answer m1 a = space_after e answer m2 a.
Proof. intros E a. destruct e; cbn [space_after]; destruct (_ =? _); auto; unfold assign; destruct (in_range_of _ _ _); auto. Qed.
Lemma reached_invariant h past s : reached h past s -> well_formed s /\ forall a, protection_at s a = replay past a.
Proof.
  induction 1 as [| past s fuel e answer s1 _ [W R] P F E].
  - split; [apply empty_well_formed | reflexivity].
  - destruct (do_event_refines fuel e s W P F) as (answer2 & s2 & E2 & W2 & R2). rewrite E in E2. injection E2 as -> ->. split; [exact W2 |].
    intros a. rewrite R2. cbn [replay fold_right fst snd]. apply space_after_ext. exact R.
Qed.
(** C19. Whatever free addresses are mapped, by hand or
    anonymously, and whatever whole areas are protected, by a host that can, and
    unmapped, in any order, as long as an allocated region starts at or behind
    an area that is unmapped (without one the search for its region ends in
    end(), which the code dereferences): areas never overlap and lie in
    allocated regions, the protection of every address is what the events so far
    say, and the next event of this kind does not fail, with enough steps for
    the search. *)
Theorem regions_refine_space h past s : reached h past s ->
  well_formed s /\ (forall a, protection_at s a = replay past a)
  /\ forall e fuel, permitted e s -> enough s fuel -> exists answer s1, do_event fuel e s = Ok (answer, s1).
Proof.
  intros R. destruct (reached_invariant h past s R) as [W Hr]. split; [exact W |]. split; [exact Hr |]. intros e fuel P F.
  destruct (do_event_refines fuel e s W P F) as (answer & s1 & E & _). eauto.
Qed.
End Refinement.

(** ** What does not work *)

Section Failures.
Context {H : Type} {Host : VMAHost H} {Laws : VMAHostLaws H}.
Implicit Types s : regions H.

Lemma merge_from_apart rest : forall cur, regions_ordered 1 (cur :: rest) -> Forall bounded (cur :: rest) -> merge_from cur rest = cur :: rest.
Proof.
  induction rest as [| n rest IH]; intros cur Ho Hb; cbn [merge_from]; [reflexivity |]. inversion Ho as [| x l Hx Hf Ho2]; subst. apply List.Forall_cons_iff in Hb as [[B0 B1] Hb]. apply List.Forall_cons_iff in Hf as [Hn _].
  fold (rend cur). rewrite u64_bounded by lia. rewrite (proj2 (Z.leb_gt _ _)) by lia. now rewrite IH.
Qed.
Lemma merge_apart s : well_formed s -> MergeAllocatedRegions s = s.
Proof.
  intros W. unfold MergeAllocatedRegions. destruct s as [v [| c r] h]; [reflexivity |]. cbn [allocated_regions_ merge_regions with_allocated]. now rewrite merge_from_apart by (apply (wf_regions _ W) || apply (wf_bounded _ W)).
Qed.
(** An area that an allocated region starts with cannot be given another size:
    the deallocation leaves the region, and its allocation throws. *)
Lemma RemapRegion_throws s addr size v z : well_formed s -> In (addr, v) (guest_vmas s) -> In (addr, z) (allocated_regions_ s) -> RemapRegion addr size s = Err LogicError.
Proof.
  intros W Hin Hreg. pose proof (key_start s _ W Hin) as Ek. pose proof (ordered_positive _ _ _ _ _ (wf_areas _ W) Hin) as Hpos. cbn [fst] in Ek.
  assert (Hadd : in_area (addr, v) addr) by (unfold holds; lia). unfold RemapRegion. pose proof (LookupVMA_spec s addr W) as L. destruct (LookupVMA addr s) as [[p |] | e]; cbn [rbind].
  2: { destruct L as [L _]. destruct (L _ Hin Hadd). }
  2: { destruct L as (_ & _ & L). specialize (L _ Hin). cbn in L. lia. }
  destruct L as [Hp Hpa]. rewrite (ordered_unique _ _ 0 _ p (addr, v) addr (Z.le_refl 0) (wf_areas _ W) Hp Hin Hpa Hadd). clear p Hp Hpa.
  assert (Hi : VMAIntersects addr v (AlignUp size) s = false).
  { destruct (VMAIntersects _ _ _ _) eqn:E; [| reflexivity]. exfalso. unfold VMAIntersects in E. apply existsb_exists in E as (q & Hq & E). rewrite andb_true_iff, negb_true_iff, Z.eqb_neq in E. destruct E as [Hn E].
    pose proof (wf_area _ W) as Hok. rewrite List.Forall_forall in Hok. pose proof (Hok _ Hq) as O1. pose proof (Hok _ Hin) as O2. pose proof (ordered_positive _ _ _ _ _ (wf_areas _ W) Hq) as P1. unfold overlap, vma_end in E. unfold area_ok, vstart, vend in *. cbn [fst snd] in *.
    rewrite !u64_bounded in E by lia. apply andb_true_iff in E. rewrite !Z.ltb_lt in E. apply Hn. change addr with (fst (addr, v)). f_equal.
    apply (ordered_unique _ _ 0 _ q (addr, v) (Z.max (base_ v) (base_ (snd q))) (Z.le_refl 0) (wf_areas _ W) Hq Hin); unfold holds, vstart, vend; cbn [snd]; lia. }
  rewrite Hi. destruct (wf_covered _ W _ Hin) as (rc & Hrc & [C1 C2]). pose proof (wf_bounded _ W) as Hb. rewrite List.Forall_forall in Hb.
  assert (Er : rc = (addr, z)).
  { pose proof (ordered_positive _ _ _ _ _ (wf_regions _ W) Hreg) as Hz. cbn [fst] in Hz. apply (ordered_unique _ _ 1 _ rc (addr, z) addr ltac:(lia) (wf_regions _ W) Hrc Hreg); unfold holds; cbn [fst]; lia. }
  subst rc. destruct (Hb _ Hreg) as [B0 B1]. cbn [fst] in B0. unfold DeallocateRegion. assert (EL : lower_bound addr (allocated_regions_ s) = Some (addr, z)).
  { unfold lower_bound. clear -W Hreg. pose proof (wf_regions _ W) as Ho. induction Ho as [| x l Hx Hf _ IH]; [destruct Hreg |]. cbn [find]. destruct Hreg as [-> | Hreg]; [cbn [fst]; now rewrite Z.leb_refl |].
    rewrite List.Forall_forall in Hf. specialize (Hf _ Hreg). cbn [fst] in Hf. rewrite (proj2 (Z.leb_gt _ _)) by lia. now apply IH. }
  rewrite EL. cbn [of_option rbind]. fold (rend (addr, z)). unfold vend, vstart in *. cbn [fst snd] in *. rewrite !u64_bounded by lia. rewrite (proj2 (Z.ltb_ge _ _)) by lia. cbn [rbind]. rewrite (merge_apart s W).
  unfold AllocateRegion. destruct (map_find addr (allocated_regions_ s)) as [x |] eqn:Ef; [reflexivity |]. apply (proj1 (map_find_none addr (allocated_regions_ s))) with (q := (addr, z)) in Ef; [now destruct Ef | exact Hreg].
Qed.
(** When the first area met is covered but the subregion starts outside of all
    areas, unmapping it finds nothing to unmap and starts again. *)
Lemma UnmapSubregion_diverges s addr size : scan_subregion addr (u64 (addr + size)) (guest_vmas s) = ScanCovered (guest_vmas s) -> LookupVMA addr s = Ok None ->
  forall fuel, UnmapSubregion fuel addr size s = Err OutOfFuel.
Proof.
  intros Es El. induction fuel as [| n IH]; [reflexivity |]. cbn [UnmapSubregion]. rewrite Es. unfold UnmapRegion. replace (with_vmas (guest_vmas s) s) with s by now destruct s.
  rewrite El. cbn [rbind snd]. exact IH.
Qed.
End Failures.
