(* ===== verification/SparseMemory.v ===== *)
(** * Sparse guest memory (abi/memory/SparseMemoryModel.cpp, util/Cache.h)

    Pages of guest memory that are made when they are touched, behind a cache
    of the pages used last, on top of the regions of the guest. *)

From Stdlib Require Import ZArith Lia List Bool String.
From stdpp Require Import base numbers list gmap.
From S2P Require Import Prelude MemoryRegions.
Import ListNotations.
#[local] Open Scope Z_scope.
#[local] Open Scope gensim_scope.

(** ** The cache: 8192 entries of two ways, and one bit for the way to replace *)

Section Caches.
Context {T : Type} (initial : T).
Record CacheEntry := mkEntry { tag0 : Z; tag1 : Z; way0 : T; way1 : T }.
Record Cache := mkCache { entries : gmap Z CacheEntry; lru : bool }.
Definition new_entry : CacheEntry := mkEntry 1 1 initial initial.
Definition cache_entry (idx : Z) (c : Cache) : CacheEntry := default new_entry (entries c !! idx).
Definition cache_index (addr : Z) : Z := Z.land addr 8191.
Definition purge_cache : Cache := mkCache ∅ false.
(** Whether the key is there, and the way that is its own from now on. *)
Definition try_cache_fetch (addr : Z) (c : Cache) : bool * bool * Cache :=
  let idx := cache_index addr in
  let e := cache_entry idx c in
  if tag0 e =? addr then (true, false, c)
  else if tag1 e =? addr then (true, true, c)
  else
    let e1 := if lru c then mkEntry (tag0 e) addr (way0 e) (way1 e) else mkEntry addr (tag1 e) (way0 e) (way1 e) in
    (false, lru c, mkCache (<[idx := e1]> (entries c)) (negb (lru c))).
Definition cache_way (addr : Z) (way : bool) (c : Cache) : T := let e := cache_entry (cache_index addr) c in if way then way1 e else way0 e.
Definition set_way (addr : Z) (way : bool) (x : T) (c : Cache) : Cache :=
  let e := cache_entry (cache_index addr) c in
  mkCache (<[cache_index addr := if way then mkEntry (tag0 e) (tag1 e) (way0 e) x else mkEntry (tag0 e) (tag1 e) x (way1 e)]> (entries c)) (lru c).
End Caches.
Arguments CacheEntry : clear implicits.
Arguments Cache : clear implicits.

(** ** The memory model *)

(** Areas cost nothing. *)
#[export] Instance sparse_host : VMAHost unit := {
  AllocateVMA v h := (true, v, h);
  DeallocateVMA v h := (true, v, h);
  ResizeVMA v new_size h := (true, with_size new_size v, h);
  SynchroniseVMAProtection v h := (true, v, h) }.

(** Host pages by their address; 0 is the null pointer. *)
Record SparseMemoryModel := mkSparse {
  mapping : regions unit; data_ : gmap Z Z; cache_ : Cache Z; pages_remaining_ : Z; pages : Z -> Z -> Z }.
Definition new_sparse : SparseMemoryModel := mkSparse (mkRegions [] [] tt) ∅ purge_cache (1024 * 1024) (fun _ _ => 0).
Definition with_mapping (m : regions unit) (s : SparseMemoryModel) : SparseMemoryModel := mkSparse m (data_ s) (cache_ s) (pages_remaining_ s) (pages s).
Definition with_cache (c : Cache Z) (s : SparseMemoryModel) : SparseMemoryModel := mkSparse (mapping s) (data_ s) c (pages_remaining_ s) (pages s).
Definition with_pages (p : Z -> Z -> Z) (s : SparseMemoryModel) : SparseMemoryModel := mkSparse (mapping s) (data_ s) (cache_ s) (pages_remaining_ s) p.
Definition PageIndex (a : Z) : Z := a / 4096.
Definition PageOffset (a : Z) : Z := Z.land a 4095.

Section Sparse.
(** A page of the host, or none. *)
Variable mmap : SparseMemoryModel -> option Z.

Definition GetPageUncached (addr : Z) (s : SparseMemoryModel) : result (Z * SparseMemoryModel) :=
  match data_ s !! PageBase addr with
  | Some p => Ok (p, s)
  | None =>
      check* negb (pages_remaining_ s =? 0) or BadAlloc in
      let* ptr := of_option BadAlloc (mmap s) in
      let zeroed := fun p o => if p =? ptr then 0 else pages s p o in
      Ok (ptr, mkSparse (mapping s) (<[PageBase addr := ptr]> (data_ s)) (cache_ s) (pages_remaining_ s - 1) zeroed)
  end.
Definition GetPage (addr : Z) (s : SparseMemoryModel) : result (Z * SparseMemoryModel) :=
  let '(hit, way, c) := try_cache_fetch 0 (PageIndex addr) (cache_ s) in
  let s1 := with_cache c s in
  if hit then Ok (cache_way 0 (PageIndex addr) way c, s1)
  else
    let* x := GetPageUncached (PageBase addr) s1 in
    Ok (fst x, with_cache (set_way 0 (PageIndex addr) way (fst x) (cache_ (snd x))) (snd x)).
(** memcpy from and to a page. *)
Definition copy_from (page offset : Z) (size : nat) (s : SparseMemoryModel) : result (list Z) :=
  check* negb (page =? 0) or UndefinedBehaviour in
  Ok (map (fun i => pages s page (offset + Z.of_nat i)) (seq 0 size)).
Fixpoint put_bytes (page offset : Z) (data : list Z) (f : Z -> Z -> Z) : Z -> Z -> Z :=
  match data with
  | [] => f
  | b :: r => put_bytes page (offset + 1) r (fun p o => if (p =? page) && (o =? offset) then b else f p o)
  end.
Definition copy_to (page offset : Z) (data : list Z) (s : SparseMemoryModel) : result SparseMemoryModel :=
  check* negb (page =? 0) or UndefinedBehaviour in
  Ok (with_pages (put_bytes page offset data (pages s)) s).

Definition crosses (addr size : Z) : bool := negb (PageBase (u64 (addr + size - 1)) =? PageBase addr).
(** Within a page: 0 and the bytes, or 1. *)
Definition read_within (addr : Z) (size : nat) (s : SparseMemoryModel) : result (Z * list Z * SparseMemoryModel) :=
  let* flags := GetRegionProtection addr (mapping s) in
  match flags with
  | Some f =>
      if negb (Z.land f RegFlagRead =? 0) then
        let* p := GetPage addr s in
        let* bytes := copy_from (fst p) (PageOffset addr) size (snd p) in
        Ok (0, bytes, snd p)
      else Ok (1, [], s)
  | None => Ok (1, [], s)
  end.
(** Byte by byte, until one fails; a byte is never across two pages. *)
Fixpoint read_each (addr : Z) (size : nat) (s : SparseMemoryModel) : result (Z * list Z * SparseMemoryModel) :=
  match size with
  | O => Ok (0, [], s)
  | S n =>
      let* x := read_within addr 1 s in
      let '(rc, b, s1) := x in
      if negb (rc =? 0) then Ok (rc, b, s1)
      else
        let* y := read_each (u64 (addr + 1)) n s1 in
        let '(rc2, bs, s2) := y in Ok (rc2, b ++ bs, s2)
  end.
Definition Read (addr : Z) (size : nat) (s : SparseMemoryModel) : result (Z * list Z * SparseMemoryModel) :=
  if crosses addr (Z.of_nat size) then read_each addr size s else read_within addr size s.
Definition write_within (addr : Z) (data : list Z) (s : SparseMemoryModel) : result SparseMemoryModel :=
  let* p := GetPage addr s in copy_to (fst p) (PageOffset addr) data (snd p).
Fixpoint write_each (addr : Z) (data : list Z) (s : SparseMemoryModel) : result SparseMemoryModel :=
  match data with
  | [] => Ok s
  | b :: r => let* s1 := write_within addr [b] s in write_each (u64 (addr + 1)) r s1
  end.
(** It never looks at the protection, and never fails. *)
Definition Write (addr : Z) (data : list Z) (s : SparseMemoryModel) : result (Z * SparseMemoryModel) :=
  let* s1 := (if crosses addr (Z.of_nat (length data)) then write_each addr data s else write_within addr data s) in Ok (0, s1).
Definition Poke (addr : Z) (data : list Z) (s : SparseMemoryModel) : result (Z * SparseMemoryModel) :=
  let* x := Write addr data s in Ok (0, snd x).
(** [data_[addr.PageBase()]] makes an entry with a null pointer if there is
    none. *)
Definition Fetch (addr : Z) (size : nat) (s : SparseMemoryModel) : result (Z * list Z * SparseMemoryModel) :=
  check* PageBase (u64 (addr + Z.of_nat size)) =? PageBase addr or NotImplemented in
  let d := match data_ s !! PageBase addr with Some _ => data_ s | None => <[PageBase addr := 0]> (data_ s) end in
  let s0 := mkSparse (mapping s) d (cache_ s) (pages_remaining_ s) (pages s) in
  let* p := GetPage addr s0 in
  let* bytes := copy_from (fst p) (PageOffset addr) size (snd p) in
  Ok (0, bytes, snd p).
Definition Peek (addr : Z) (size : nat) (s : SparseMemoryModel) : result (Z * list Z * SparseMemoryModel) := Err NotImplemented.
Definition LockRegion (guest_addr guest_size : Z) (s : SparseMemoryModel) : result (option (Z * Z) * SparseMemoryModel) :=
  if negb (PageIndex guest_addr =? PageIndex (u64 (guest_addr + guest_size - 1))) then Ok (None, s)
  else let* p := GetPage guest_addr s in Ok (Some (fst p, PageOffset guest_addr), snd p).
(** Page by page, from the page of the address, for the size. *)
Fixpoint lock_pages (fuel : nat) (addr limit : Z) (s : SparseMemoryModel) : result (option (list (Z * Z)) * SparseMemoryModel) :=
  if addr <? limit then
    match fuel with
    | O => Err OutOfFuel
    | S n =>
        let* x := LockRegion addr 4096 s in
        match fst x with
        | None => Ok (None, snd x)
        | Some p => let* y := lock_pages n (u64 (addr + 4096)) limit (snd x) in Ok (option_map (cons p) (fst y), snd y)
        end
    end
  else Ok (Some [], s).
Record LockedMemoryRegion := mkLocked { guest_base_ : Z; host_ptrs_ : list (Z * Z) }.
Definition LockRegions (fuel : nat) (guest_addr guest_size : Z) (s : SparseMemoryModel) : result (option LockedMemoryRegion * SparseMemoryModel) :=
  let guest_addr := PageBase guest_addr in
  let* x := lock_pages fuel guest_addr (u64 (guest_addr + guest_size)) s in
  Ok (option_map (mkLocked guest_addr) (fst x), snd x).
Definition GetPtr (addr : Z) (r : LockedMemoryRegion) : result (Z * Z) :=
  check* guest_base_ r <=? addr or AssertFailed in
  check* addr <? u64 (guest_base_ r + Z.of_nat (length (host_ptrs_ r)) * 4096) or AssertFailed in
  let* p := of_option OutOfRange (nth_error (host_ptrs_ r) (Z.to_nat (PageIndex (u64 (addr - guest_base_ r))))) in
  Ok (fst p, snd p + PageOffset addr).
Definition locked_Read8 (addr : Z) (r : LockedMemoryRegion) (s : SparseMemoryModel) : result Z :=
  let* p := GetPtr addr r in
  check* negb (fst p =? 0) or UndefinedBehaviour in
  Ok (pages s (fst p) (snd p)).
Definition locked_Read16 (addr : Z) (r : LockedMemoryRegion) (s : SparseMemoryModel) : result Z :=
  let* lo := locked_Read8 addr r s in
  let* hi := locked_Read8 (u64 (addr + 1)) r s in
  Ok (Z.lor lo (Z.shiftl hi 8)).
Definition locked_Read32 (addr : Z) (r : LockedMemoryRegion) (s : SparseMemoryModel) : result Z :=
  let* lo := locked_Read16 addr r s in
  let* hi := locked_Read16 (u64 (addr + 2)) r s in
  Ok (Z.lor lo (Z.shiftl hi 16)).

(** ** Accesses of fixed width (MemoryModel.cpp) *)

Definition le_word (bs : list Z) : Z := fold_right (fun b z => b + 256 * z) 0 bs.
Definition read_word (n : nat) (addr : Z) (s : SparseMemoryModel) : result (Z * Z * SparseMemoryModel) :=
  let* x := Read addr n s in let '(rc, bs, s1) := x in Ok (rc, le_word bs, s1).
Definition Read8 := read_word 1.
Definition Read16 := read_word 2.
Definition Read32 := read_word 4.
Definition Read64 := read_word 8.
Definition le_split (n : nat) (v : Z) : list Z := map (fun i => Z.shiftr v (8 * Z.of_nat i) mod 256) (seq 0 n).
Definition Write8 (addr v : Z) := Write addr (le_split 1 v).
Definition Write16 (addr v : Z) := Write addr (le_split 2 v).
Definition Write32 (addr v : Z) := Write addr (le_split 4 v).
Definition Write64 (addr v : Z) := Write addr (le_split 8 v).
(** Bytes one by one: up to a zero, or as many as asked for. *)
Fixpoint ReadString (addr : Z) (size : nat) (s : SparseMemoryModel) : result (Z * list Z * SparseMemoryModel) :=
  let* x := Read addr 1 s in
  let '(rc, b, s1) := x in
  if negb (rc =? 0) then Ok (1, [], s1)
  else
    match size with
    | O | S O => Ok (0, b, s1)
    | S n =>
        if le_word b =? 0 then Ok (0, b, s1)
        else let* y := ReadString (u64 (addr + 1)) n s1 in let '(rc2, bs, s2) := y in Ok (rc2, b ++ bs, s2)
    end.
Definition WriteString (addr : Z) (str : list Z) := Write addr (str ++ [0]).
Fixpoint WriteN (addr : Z) (buffer : list Z) (s : SparseMemoryModel) : result (Z * SparseMemoryModel) :=
  match buffer with
  | [] => Ok (0, s)
  | b :: r =>
      let* x := Write addr [b] s in
      if negb (fst x =? 0) then Ok x else WriteN (u64 (addr + 1)) r (snd x)
  end.
Fixpoint ReadN (addr : Z) (size : nat) (s : SparseMemoryModel) : result (Z * list Z * SparseMemoryModel) :=
  match size with
  | O => Ok (0, [], s)
  | S n =>
      let* x := Read addr 1 s in
      let '(rc, b, s1) := x in
      if negb (rc =? 0) then Ok (rc, [], s1)
      else let* y := ReadN (u64 (addr + 1)) n s1 in let '(rc2, bs, s2) := y in Ok (rc2, b ++ bs, s2)
  end.
End Sparse.
