(* ===== verification/SparseMemoryCorrect.v ===== *)
(** * Sparse guest memory is a byte memory

    What the pages and the cache hold is one byte for every address, zero
    before it is written; reads give the bytes written last, where the areas
    of the guest permit it, and the only failure is that of the host. *)

From Stdlib Require Import ZArith Lia List Bool String.
From stdpp Require Import base numbers list gmap.
From S2P Require Import Prelude MemoryRegions MemorySpace SparseMemory.
Import ListNotations.
#[local] Open Scope Z_scope.
#[local] Open Scope gensim_scope.

(** ** Pages *)

#[export] Instance sparse_host_laws : VMAHostLaws unit.
Proof. split; intros; repeat split. Qed.

Definition is_address (a : Z) : Prop := 0 <= a < 2 ^ 64.
Lemma PageOffset_spec a : PageOffset a = a mod 4096.
Proof. unfold PageOffset. change 4095 with (Z.ones 12). now rewrite Z.land_ones by lia. Qed.
Lemma page_split a : a = PageBase a + PageOffset a /\ 0 <= PageOffset a < 4096 /\ PageBase a = 4096 * PageIndex a.
Proof.
  rewrite PageBase_spec, PageOffset_spec. unfold PageIndex. pose proof (Z.mod_pos_bound a 4096 ltac:(lia)). pose proof (Z.div_mod a 4096 ltac:(lia)). lia.
Qed.
Lemma same_page a b : PageBase a <= b < PageBase a + 4096 -> PageBase b = PageBase a.
Proof.
  intros H. destruct (page_split a) as (_ & _ & Ea), (page_split b) as (Eb & Hb & Ei). lia.
Qed.
Lemma PageBase_idem a : PageBase (PageBase a) = PageBase a.
Proof. apply same_page. lia. Qed.
Lemma PageIndex_base a b : PageIndex a = PageIndex b -> PageBase a = PageBase b.
Proof. destruct (page_split a) as (_ & _ & Ea), (page_split b) as (_ & _ & Eb). lia. Qed.

(** ** What the memory holds *)

(** Keys are pages, and each has a page of the host to itself. *)
Record paged (s : SparseMemoryModel) : Prop := mkPaged {
  paged_key : forall a p, data_ s !! a = Some p -> PageBase a = a;
  paged_page : forall a p, data_ s !! a = Some p -> p <> 0;
  paged_own : forall a b p, data_ s !! a = Some p -> data_ s !! b = Some p -> a = b;
  paged_budget : 0 <= pages_remaining_ s }.
(** A way of the cache is unused since the start, or has the page of its tag. *)
Definition way_ok (d : gmap Z Z) (tag way : Z) : Prop := tag = 1 \/ d !! (4096 * tag) = Some way.
Definition cached (d : gmap Z Z) (c : Cache Z) : Prop := forall i, let e := cache_entry 0 i c in way_ok d (tag0 e) (way0 e) /\ way_ok d (tag1 e) (way1 e).
Definition coherent (s : SparseMemoryModel) : Prop := paged s /\ cached (data_ s) (cache_ s).
Definition contents (s : SparseMemoryModel) (a : Z) : Z := match data_ s !! PageBase a with Some p => pages s p (PageOffset a) | None => 0 end.

(** A page that the host gives is none of those it gave before. *)
Definition mmap_fresh (mmap : SparseMemoryModel -> option Z) : Prop :=
  forall s p, mmap s = Some p -> p <> 0 /\ forall a, data_ s !! a <> Some p.

Lemma cache_entry_set i j (c : Cache Z) b e : cache_entry 0 j (mkCache (<[i := e]> (entries c)) b) = if i =? j then e else cache_entry 0 j c.
Proof. unfold cache_entry. cbn [entries]. destruct (Z.eqb_spec i j) as [-> | Hn]; [now rewrite lookup_insert_eq | now rewrite lookup_insert_ne]. Qed.
(** An access to the cache finds the page of the key, or makes room for it. *)
Lemma try_cache_fetch_spec d key c : cached d c -> key <> 1 ->
  match try_cache_fetch 0 key c with
  | (true, way, c1) => c1 = c /\ d !! (4096 * key) = Some (cache_way 0 key way c)
  | (false, way, c1) => forall d1 x, (forall a p, d !! a = Some p -> d1 !! a = Some p) -> d1 !! (4096 * key) = Some x -> cached d1 (set_way 0 key way x c1)
  end.
Proof.
  intros C Hk. unfold try_cache_fetch. set (i := cache_index key). pose proof (C i) as [W0 W1]. unfold way_ok in W0, W1. cbn zeta.
  destruct (Z.eqb_spec (tag0 (cache_entry 0 i c)) key) as [E0 | N0]; [| destruct (Z.eqb_spec (tag1 (cache_entry 0 i c)) key) as [E1 | N1]].
  - split; [reflexivity |]. unfold cache_way. fold i. destruct W0 as [W0 | W0]; [congruence |]. cbn zeta. now rewrite <- W0, E0.
  - split; [reflexivity |]. unfold cache_way. fold i. destruct W1 as [W1 | W1]; [congruence |]. cbn zeta. now rewrite <- W1, E1.
  - intros d1 x Hd Hx j. unfold set_way. fold i. cbv zeta. rewrite !cache_entry_set, Z.eqb_refl. pose proof (C j) as [V0 V1].
    assert (up : forall t y, way_ok d t y -> way_ok d1 t y) by (intros t y [V | V]; [now left | right; now apply Hd]).
    destruct (Z.eqb_spec i j) as [<- | Hj]; [| split; now apply up]. destruct (lru c); cbn [tag0 tag1 way0 way1]; split; (now apply up) || (right; exact Hx).
Qed.

Section Paging.
Context (mmap : SparseMemoryModel -> option Z) (Fresh : mmap_fresh mmap).
Implicit Types s : SparseMemoryModel.

Definition more_pages (d d1 : gmap Z Z) : Prop := forall a p, d !! a = Some p -> d1 !! a = Some p.
(** Pages may be made, at most so many; nothing else changes. *)
Record same_memory (n : Z) s s1 : Prop := mkSame {
  same_paged : paged s1;
  same_mapping : mapping s1 = mapping s;
  same_contents : forall a, contents s1 a = contents s a;
  same_pages : more_pages (data_ s) (data_ s1);
  same_budget : pages_remaining_ s - n <= pages_remaining_ s1 }.
Lemma same_memory_refl n s : 0 <= n -> paged s -> same_memory n s s.
Proof. intros Hn P. split; [exact P | reflexivity | reflexivity | intros a p; auto | lia]. Qed.

Lemma GetPageUncached_spec s a : paged s -> PageBase a = a ->
  match GetPageUncached mmap a s with
  | Ok (p, s1) => same_memory 1 s s1 /\ data_ s1 !! a = Some p /\ cache_ s1 = cache_ s
  | Err e => e = BadAlloc /\ (pages_remaining_ s = 0 \/ mmap s = None)
  end.
Proof.
  intros P Ha. unfold GetPageUncached. rewrite Ha. destruct (data_ s !! a) as [p |] eqn:E.
  - split; [now apply same_memory_refl | auto].
  - destruct (Z.eqb_spec (pages_remaining_ s) 0) as [E0 | N0]; cbn [negb]; [auto |]. destruct (mmap s) as [p |] eqn:EM; cbn [of_option rbind]; [| auto].
    destruct (Fresh s p EM) as [Hp Hf]. pose proof (paged_budget s P) as HB. split; [| split; [apply lookup_insert_eq | reflexivity]]. split; cbn [mapping data_ pages_remaining_].
    + split; cbn [data_ pages_remaining_].
      * intros b q. rewrite lookup_insert_Some. intros [[<- _] | [_ Hb]]; [exact Ha | now apply (paged_key s P b q)].
      * intros b q. rewrite lookup_insert_Some. intros [[_ <-] | [_ Hb]]; [exact Hp | now apply (paged_page s P b q)].
      * intros b1 b2 q. rewrite !lookup_insert_Some. intros [[<- <-] | [_ H1]] [[<- E2] | [_ H2]]; [reflexivity | now destruct (Hf b2) | subst q; now destruct (Hf b1) | now apply (paged_own s P b1 b2 q)].
      * lia.
    + reflexivity.
    + intros b. unfold contents. cbn [data_ pages]. destruct (Z.eq_dec a (PageBase b)) as [Eb | Nb].
      * rewrite <- Eb, lookup_insert_eq, E, Z.eqb_refl. reflexivity.
      * rewrite lookup_insert_ne by exact Nb. destruct (data_ s !! PageBase b) as [q |] eqn:Eq; [| reflexivity]. rewrite (proj2 (Z.eqb_neq q p)); [reflexivity |]. intros ->. exact (Hf _ Eq).
    + intros b q Hb. apply lookup_insert_Some. right. split; [congruence | exact Hb].
    + lia.
Qed.
Lemma paged_with_cache c s : paged s -> paged (with_cache c s).
Proof. intros [P1 P2 P3 P4]. now split. Qed.
Lemma same_memory_cache n c c1 s s1 : same_memory n (with_cache c s) s1 -> same_memory n s (with_cache c1 s1).
Proof. intros [S1 S2 S3 S4 S5]. split; auto. now apply paged_with_cache. Qed.
Lemma GetPage_spec s addr : coherent s -> PageIndex addr <> 1 ->
  match GetPage mmap addr s with
  | Ok (p, s1) => coherent s1 /\ same_memory 1 s s1 /\ data_ s1 !! PageBase addr = Some p
  | Err e => e = BadAlloc /\ (pages_remaining_ s = 0 \/ exists s0, mmap s0 = None)
  end.
Proof.
  intros [P C] Hi. unfold GetPage. pose proof (try_cache_fetch_spec (data_ s) (PageIndex addr) (cache_ s) C Hi) as T. destruct (page_split addr) as (_ & _ & Eb).
  destruct (try_cache_fetch 0 (PageIndex addr) (cache_ s)) as [[hit way] c]. destruct hit.
  - destruct T as [-> T]. rewrite Eb. replace (with_cache (cache_ s) s) with s by now destruct s. split; [now split |]. split; [now apply same_memory_refl | exact T].
  - pose proof (GetPageUncached_spec (with_cache c s) (PageBase addr) (paged_with_cache c s P) (PageBase_idem addr)) as G.
    destruct (GetPageUncached mmap (PageBase addr) (with_cache c s)) as [[p s1] | e]; cbn [rbind fst snd].
    + destruct G as (G1 & G2 & G3). rewrite G3. cbn [with_cache cache_]. assert (C1 : cached (data_ s1) (set_way 0 (PageIndex addr) way p c)).
      { apply T; [exact (same_pages _ _ _ G1) |]. now rewrite <- Eb. }
      split; [split; [apply paged_with_cache, (same_paged _ _ _ G1) | exact C1] |]. split; [exact (same_memory_cache 1 c _ s s1 G1) | exact G2].
    + destruct G as (-> & [G | G]); eauto.
Qed.
End Paging.

(** ** Accesses *)

(** [data] written at an address, over a byte memory. *)
Definition overwrite (addr : Z) (data : list Z) (m : Z -> Z) : Z -> Z :=
  fun a => if in_range_of addr (Z.of_nat (length data)) a then nth (Z.to_nat (a - addr)) data 0 else m a.
Definition bytes_from (m : Z -> Z) (addr : Z) (size : nat) : list Z := map (fun i => m (addr + Z.of_nat i)) (seq 0 size).
Lemma in_range_of_spec b z a : in_range_of b z a = true <-> b <= a < b + z.
Proof. unfold in_range_of. rewrite andb_true_iff, Z.leb_le, Z.ltb_lt. reflexivity. Qed.
Lemma overwrite_cons addr b r m a : overwrite addr (b :: r) m a = overwrite (addr + 1) r (overwrite addr [b] m) a.
Proof.
  unfold overwrite, in_range_of. cbn [length]. destruct (Z.eq_dec a addr) as [-> | Hn].
  - rewrite (proj2 (Z.leb_gt (addr + 1) addr)), Z.leb_refl, !(proj2 (Z.ltb_lt _ _)) by lia. now rewrite Z.sub_diag.
  - destruct (Z.leb_spec addr a) as [H1 | H1], (Z.leb_spec (addr + 1) a) as [H2 | H2]; try lia; cbn [andb]; [| reflexivity].
    rewrite (proj2 (Z.ltb_ge a (addr + Z.of_nat 1))) by lia. replace (addr + Z.of_nat (S (length r))) with (addr + 1 + Z.of_nat (length r)) by lia.
    destruct (a <? addr + 1 + Z.of_nat (length r)); [| reflexivity]. replace (Z.to_nat (a - addr)) with (S (Z.to_nat (a - (addr + 1)))) by lia. reflexivity.
Qed.
Lemma overwrite_ext addr data m1 m2 : (forall a, m1 a = m2 a) -> forall a, overwrite addr data m1 a = overwrite addr data m2 a.
Proof. intros E a. unfold overwrite. now destruct (in_range_of _ _ _). Qed.
Lemma bytes_from_S m addr n : bytes_from m addr (S n) = m addr :: bytes_from m (addr + 1) n.
Proof.
  unfold bytes_from. cbn [seq map]. rewrite Z.add_0_r. f_equal. rewrite <- seq_shift, map_map. apply map_ext. intros i. f_equal. lia.
Qed.
Lemma bytes_from_ext m1 m2 addr n : (forall a, m1 a = m2 a) -> bytes_from m1 addr n = bytes_from m2 addr n.
Proof. intros E. unfold bytes_from. apply map_ext. intros i. apply E. Qed.
Lemma put_bytes_spec page data : forall offset f p o,
  put_bytes page offset data f p o = if (p =? page) && in_range_of offset (Z.of_nat (length data)) o then nth (Z.to_nat (o - offset)) data 0 else f p o.
Proof.
  induction data as [| b r IH]; intros offset f p o; cbn [put_bytes].
  - unfold in_range_of. cbn [length]. destruct (Z.leb_spec offset o), (Z.ltb_spec o (offset + Z.of_nat 0)); try lia; now rewrite !andb_false_r.
  - rewrite IH. destruct (Z.eqb_spec p page) as [-> | Hn]; cbn [andb]; [| reflexivity].
    pose proof (overwrite_cons offset b r (f page) o) as E. unfold overwrite in E. rewrite E. destruct (in_range_of (offset + 1) _ o); [reflexivity |].
    unfold in_range_of. cbn [length]. destruct (Z.eqb_spec o offset) as [-> | Ho]; [rewrite Z.leb_refl, (proj2 (Z.ltb_lt _ _)) by lia; now rewrite Z.sub_diag |].
    destruct (Z.leb_spec offset o), (Z.ltb_spec o (offset + Z.of_nat 1)); try lia; reflexivity.
Qed.

(** Whether the areas of the guest permit an address to be read. *)
Definition readable (sp : Z -> option Z) (a : Z) : bool := match sp a with Some f => negb (Z.land f RegFlagRead =? 0) | None => false end.
(** The lookup of an area looks before the first one if the address is below
    it. *)
Definition above_first (m : regions unit) (a : Z) : Prop := guest_vmas m = [] \/ exists p, In p (guest_vmas m) /\ fst p <= a.
Lemma GetRegionProtection_above m a : well_formed m -> above_first m a -> GetRegionProtection a m = Ok (protection_at m a).
Proof.
  intros W A. rewrite (GetRegionProtection_exact m a W). destruct A as [-> | (p & Hp & Hle)]; [reflexivity |].
  destruct (forallb _ _) eqn:F; [| now rewrite andb_false_r]. rewrite forallb_forall in F. specialize (F p Hp). apply Z.ltb_lt in F. lia.
Qed.
Lemma above_first_up m a b : above_first m a -> a <= b -> above_first m b.
Proof. intros [E | (p & Hp & Hle)] H; [now left | right; exists p; split; [exact Hp | lia]]. Qed.
(** Addresses that do not wrap, none of them in the page whose index a cache
    that was never used takes for its own. *)
Definition span (addr size : Z) : Prop := 0 <= addr /\ addr + size <= 2 ^ 64 /\ forall a, addr <= a < addr + size -> PageIndex a <> 1.
Lemma span_tail addr n : span addr (Z.of_nat (S n)) -> span (addr + 1) (Z.of_nat n).
Proof. intros (H1 & H2 & H3). split; [lia |]. split; [lia |]. intros a Ha. apply H3. lia. Qed.
Lemma span_byte addr n : span addr (Z.of_nat (S n)) -> span addr 1.
Proof. intros (H1 & H2 & H3). split; [lia |]. split; [lia |]. intros a Ha. apply H3. lia. Qed.
Lemma crosses_spec addr size : 0 < size -> 0 <= addr -> addr + size <= 2 ^ 64 -> crosses addr size = false <-> PageOffset addr + size <= 4096.
Proof.
  intros Hs H0 H1. unfold crosses. rewrite u64_bounded by lia. rewrite negb_false_iff, Z.eqb_eq. destruct (page_split addr) as (E & Hr & _). split.
  - intros Hp. destruct (page_split (addr + size - 1)) as (E2 & Hr2 & _). lia.
  - intros Hp. apply same_page. lia.
Qed.
Lemma crosses_byte addr : 0 <= addr < 2 ^ 64 -> crosses addr 1 = false.
Proof. intros H. apply crosses_spec; [lia | lia | lia |]. destruct (page_split addr) as (_ & Hr & _). lia. Qed.
Lemma crosses_offset addr size : 0 < size -> span addr size -> crosses addr size = false -> PageOffset addr + size <= 4096.
Proof. intros Hs (H0 & H1 & _). now apply crosses_spec. Qed.

Section Accesses.
Context (mmap : SparseMemoryModel -> option Z) (Fresh : mmap_fresh mmap).
Implicit Types s : SparseMemoryModel.

Definition sound s : Prop := coherent s /\ well_formed (mapping s).
(** The host ran out: of the pages it was allowed, or of memory. *)
Definition starved (n : Z) s : Prop := pages_remaining_ s < n \/ exists s0, mmap s0 = None.
(** After an access: [m] is what the memory holds. *)
Record accessed (n : Z) (m : Z -> Z) s s1 : Prop := mkAccessed {
  acc_sound : sound s1;
  acc_mapping : mapping s1 = mapping s;
  acc_contents : forall a, contents s1 a = m a;
  acc_pages : more_pages (data_ s) (data_ s1);
  acc_budget : pages_remaining_ s - n <= pages_remaining_ s1 }.
Definition ends {A} (n : Z) (m : Z -> Z) (x : A) s (r : result (A * SparseMemoryModel)) : Prop :=
  match r with Ok (y, s1) => y = x /\ accessed n m s s1 | Err e => e = BadAlloc /\ starved n s end.
Lemma accessed_refl n s : 0 <= n -> sound s -> accessed n (contents s) s s.
Proof. intros Hn S. split; [exact S | reflexivity | reflexivity | intros a p; auto | lia]. Qed.
Lemma accessed_trans n1 n2 m1 m2 m s s1 s2 : accessed n1 m1 s s1 -> accessed n2 m2 s1 s2 -> (forall a, m2 a = m a) -> accessed (n1 + n2) m s s2.
Proof.
  intros [A1 A2 A3 A4 A5] [B1 B2 B3 B4 B5] E. split; [exact B1 | congruence | intros a; now rewrite B3 | intros a p Hp; auto | lia].
Qed.
Lemma accessed_page s s1 : sound s -> coherent s1 -> same_memory 1 s s1 -> accessed 1 (contents s) s s1.
Proof. intros [_ W] C [S1 S2 S3 S4 S5]. split; auto. split; [exact C | now rewrite S2]. Qed.

Lemma copy_from_contents s p addr size : sound s -> data_ s !! PageBase addr = Some p -> PageOffset addr + Z.of_nat size <= 4096 ->
  copy_from p (PageOffset addr) size s = Ok (bytes_from (contents s) addr size).
Proof.
  intros [[P _] _] Hd Ho. unfold copy_from. rewrite (proj2 (Z.eqb_neq p 0)) by exact (paged_page s P _ p Hd). cbn [negb]. f_equal. unfold bytes_from. apply map_ext_in.
  intros i Hi%in_seq. destruct (page_split addr) as (E & Hr & _). assert (Eb : PageBase (addr + Z.of_nat i) = PageBase addr) by (apply same_page; lia).
  unfold contents. rewrite Eb, Hd. f_equal. destruct (page_split (addr + Z.of_nat i)) as (E2 & _ & _). lia.
Qed.
Lemma copy_to_contents s p addr data : sound s -> data_ s !! PageBase addr = Some p -> PageOffset addr + Z.of_nat (length data) <= 4096 ->
  exists s1, copy_to p (PageOffset addr) data s = Ok s1 /\ accessed 0 (overwrite addr data (contents s)) s s1.
Proof.
  intros [[P C] W] Hd Ho. unfold copy_to. rewrite (proj2 (Z.eqb_neq p 0)) by exact (paged_page s P _ p Hd). cbn [negb]. eexists. split; [reflexivity |].
  destruct P as [P1 P2 P3 P4]. split; cbn [with_pages mapping data_ pages_remaining_]; [| reflexivity | | intros a q; auto | lia].
  - split; [split |]; [now split | exact C | exact W].
  - intros a. unfold contents, overwrite. cbn [with_pages data_ pages]. destruct (page_split addr) as (E & Hr & _), (page_split a) as (Ea & Hra & _).
    destruct (in_range_of addr (Z.of_nat (length data)) a) eqn:Ei.
    + apply in_range_of_spec in Ei. assert (Eb : PageBase a = PageBase addr) by (apply same_page; lia). rewrite Eb, Hd, put_bytes_spec, Z.eqb_refl. cbn [andb].
      rewrite (proj2 (in_range_of_spec _ _ _)) by lia. f_equal. lia.
    + destruct (data_ s !! PageBase a) as [q |] eqn:Eq; [| reflexivity]. rewrite put_bytes_spec. destruct (Z.eqb_spec q p) as [-> | Hn]; cbn [andb]; [| reflexivity].
      pose proof (P3 _ _ _ Eq Hd) as Eb. destruct (in_range_of (PageOffset addr) _ (PageOffset a)) eqn:Eo; [| reflexivity]. apply in_range_of_spec in Eo.
      assert (Hi : in_range_of addr (Z.of_nat (length data)) a = true) by (apply in_range_of_spec; lia). congruence.
Qed.

(** Reading within a page looks at the protection of the first byte. *)
Lemma read_within_ends s addr size : sound s -> (0 < size)%nat -> span addr (Z.of_nat size) -> above_first (mapping s) addr -> PageOffset addr + Z.of_nat size <= 4096 ->
  ends 1 (contents s) (if readable (protection_at (mapping s)) addr then (0, bytes_from (contents s) addr size) else (1, [])) s (read_within mmap addr size s).
Proof.
  intros S Hs (H0 & H1 & H2) A Ho. unfold read_within, readable. rewrite (GetRegionProtection_above _ _ (proj2 S) A). cbn [rbind].
  assert (Hno : accessed 1 (contents s) s s) by (apply accessed_refl; [lia | exact S]).
  destruct (protection_at (mapping s) addr) as [f |]; [| now split]. destruct (negb (Z.land f RegFlagRead =? 0)); [| now split].
  pose proof (GetPage_spec mmap Fresh s addr (proj1 S) (H2 addr ltac:(lia))) as G. destruct (GetPage mmap addr s) as [[p s1] | e]; cbn [rbind fst snd].
  - destruct G as (C1 & M & Hd). pose proof (accessed_page s s1 S C1 M) as Acc. rewrite (copy_from_contents s1 p addr size (acc_sound _ _ _ _ Acc) Hd Ho). cbn [rbind ends].
    split; [| exact Acc]. f_equal. apply bytes_from_ext. exact (same_contents _ _ _ M).
  - destruct G as [-> [G | G]]; split; try reflexivity; [left; lia | right; exact G].
Qed.
Lemma write_within_ends s addr data : sound s -> (0 < length data)%nat -> span addr (Z.of_nat (length data)) -> PageOffset addr + Z.of_nat (length data) <= 4096 ->
  match write_within mmap addr data s with Ok s1 => accessed 1 (overwrite addr data (contents s)) s s1 | Err e => e = BadAlloc /\ starved 1 s end.
Proof.
  intros S Hs (H0 & H1 & H2) Ho. unfold write_within. pose proof (GetPage_spec mmap Fresh s addr (proj1 S) (H2 addr ltac:(lia))) as G. destruct (GetPage mmap addr s) as [[p s1] | e]; cbn [rbind fst snd].
  - destruct G as (C1 & M & Hd). pose proof (accessed_page s s1 S C1 M) as Acc. destruct (copy_to_contents s1 p addr data (acc_sound _ _ _ _ Acc) Hd Ho) as (s2 & -> & Acc2).
    apply (accessed_trans 1 0 _ _ _ s s1 s2 Acc Acc2). apply overwrite_ext. exact (same_contents _ _ _ M).
  - destruct G as [-> [G | G]]; split; try reflexivity; [left; lia | right; exact G].
Qed.

(** Byte after byte, up to the first that may not be read. *)
Fixpoint read_while (sp : Z -> option Z) (m : Z -> Z) (addr : Z) (size : nat) : Z * list Z :=
  match size with
  | O => (0, [])
  | S n => if readable sp addr then let x := read_while sp m (addr + 1) n in (fst x, m addr :: snd x) else (1, [])
  end.
Lemma read_while_ext sp m1 m2 n : (forall a, m1 a = m2 a) -> forall addr, read_while sp m1 addr n = read_while sp m2 addr n.
Proof. intros E. induction n as [| n IH]; intros addr; cbn [read_while]; [reflexivity |]. now rewrite E, IH. Qed.
Lemma starved_more n1 n2 s : n1 <= n2 -> starved n1 s -> starved n2 s.
Proof. intros Hn [H | H]; [left; lia | now right]. Qed.
Lemma starved_after n1 n2 m s s1 : accessed n1 m s s1 -> starved n2 s1 -> starved (n1 + n2) s.
Proof. intros A [H | H]; [left; pose proof (acc_budget _ _ _ _ A); lia | now right]. Qed.
Lemma byte_offset addr : PageOffset addr + 1 <= 4096.
Proof. destruct (page_split addr) as (_ & H & _). lia. Qed.
Lemma above_first_same n m s s1 a : accessed n m s s1 -> above_first (mapping s) a -> above_first (mapping s1) a.
Proof. intros A. now rewrite (acc_mapping _ _ _ _ A). Qed.
(** The next byte: the address does not wrap unless it is the last. *)
Lemma u64_next {A} (f : Z -> nat -> A) addr n : span addr (Z.of_nat (S n)) -> (forall a b, f a O = f b O) -> f (u64 (addr + 1)) n = f (addr + 1) n.
Proof. intros (H0 & H1 & _) Hf. destruct n as [| n]; [apply Hf |]. rewrite u64_bounded by lia. reflexivity. Qed.

Lemma read_each_ends size : forall s addr, sound s -> span addr (Z.of_nat size) -> above_first (mapping s) addr ->
  ends (Z.of_nat size) (contents s) (read_while (protection_at (mapping s)) (contents s) addr size) s (read_each mmap addr size s).
Proof.
  induction size as [| n IH]; intros s addr S Sp A; cbn [read_each read_while].
  - split; [reflexivity |]. now apply accessed_refl.
  - pose proof (read_within_ends s addr 1 S ltac:(lia) (span_byte _ _ Sp) A (byte_offset addr)) as R. destruct (read_within mmap addr 1 s) as [[[rc b] s1] | e]; cbn [rbind ends] in *.
    + destruct R as [E Acc]. destruct (readable _ addr); injection E as -> ->; cbn [negb Z.eqb].
      * pose proof (u64_next (fun a k => read_each mmap a k s1) addr n Sp ltac:(reflexivity)) as En. cbn beta in En. rewrite En.
        pose proof (IH s1 (addr + 1) (acc_sound _ _ _ _ Acc) (span_tail _ _ Sp) (above_first_up _ _ (addr + 1) (above_first_same _ _ _ _ _ Acc A) ltac:(lia))) as I.
        rewrite (acc_mapping _ _ _ _ Acc), (read_while_ext _ _ _ n (acc_contents _ _ _ _ Acc)) in I. destruct (read_each mmap (addr + 1) n s1) as [[[rc2 bs] s2] | e]; cbn [rbind ends] in *.
        -- destruct I as [E I]. rewrite <- E. cbn [fst snd]. split; [unfold bytes_from; cbn [seq map app]; now rewrite Z.add_0_r |].
           replace (Z.of_nat (Datatypes.S n)) with (1 + Z.of_nat n) by lia. exact (accessed_trans 1 _ _ _ _ s s1 s2 Acc I (acc_contents _ _ _ _ Acc)).
        -- destruct I as [-> I]. split; [reflexivity |]. replace (Z.of_nat (Datatypes.S n)) with (1 + Z.of_nat n) by lia. exact (starved_after 1 _ _ s s1 Acc I).
      * split; [reflexivity |]. destruct Acc as [A1 A2 A3 A4 A5]. split; auto. lia.
    + destruct R as [-> R]. split; [reflexivity |]. apply (starved_more 1); [lia | exact R].
Qed.
(** What a read gives: within a page the protection of the first byte counts. *)
Definition read_answer (sp : Z -> option Z) (m : Z -> Z) (addr : Z) (size : nat) : Z * list Z :=
  if crosses addr (Z.of_nat size) then read_while sp m addr size else if readable sp addr then (0, bytes_from m addr size) else (1, []).
Lemma Read_ends s addr size : sound s -> (0 < size)%nat -> span addr (Z.of_nat size) -> above_first (mapping s) addr ->
  ends (Z.of_nat size) (contents s) (read_answer (protection_at (mapping s)) (contents s) addr size) s (Read mmap addr size s).
Proof.
  intros S Hs Sp A. unfold Read, read_answer. destruct (crosses addr (Z.of_nat size)) eqn:Ec; [now apply read_each_ends |].
  pose proof (read_within_ends s addr size S Hs Sp A (crosses_offset addr (Z.of_nat size) ltac:(lia) Sp Ec)) as R. destruct (read_within mmap addr size s) as [[x s1] | e]; cbn [ends] in *.
  - destruct R as [E [A1 A2 A3 A4 A5]]. split; [exact E |]. split; auto. lia.
  - destruct R as [-> R]. split; [reflexivity |]. apply (starved_more 1); [lia | exact R].
Qed.
Lemma write_each_ends data : forall s addr, sound s -> span addr (Z.of_nat (length data)) ->
  match write_each mmap addr data s with Ok s1 => accessed (Z.of_nat (length data)) (overwrite addr data (contents s)) s s1 | Err e => e = BadAlloc /\ starved (Z.of_nat (length data)) s end.
Proof.
  induction data as [| b r IH]; intros s addr S Sp; cbn [write_each].
  - destruct (accessed_refl 0 s ltac:(lia) S) as [A1 A2 A3 A4 A5]. split; auto. intros a. unfold overwrite, in_range_of. cbn [length].
    destruct (Z.leb_spec addr a), (Z.ltb_spec a (addr + Z.of_nat 0)); try lia; reflexivity.
  - cbn [length] in *. pose proof (write_within_ends s addr [b] S ltac:(cbn; lia) (span_byte _ _ Sp) (byte_offset addr)) as R. destruct (write_within mmap addr [b] s) as [s1 | e]; cbn [rbind].
    + cbn [length] in R. assert (En : write_each mmap (u64 (addr + 1)) r s1 = write_each mmap (addr + 1) r s1).
      { destruct Sp as (H0 & H1 & _). destruct r as [| b2 r]; [reflexivity |]. cbn [length] in H1. now rewrite u64_bounded by lia. }
      rewrite En. pose proof (IH s1 (addr + 1) (acc_sound _ _ _ _ R) (span_tail _ _ Sp)) as I. replace (Z.of_nat (Datatypes.S (length r))) with (1 + Z.of_nat (length r)) by lia.
      destruct (write_each mmap (addr + 1) r s1) as [s2 | e].
      * apply (accessed_trans 1 _ _ _ _ s s1 s2 R I). intros a. rewrite overwrite_cons. apply overwrite_ext. exact (acc_contents _ _ _ _ R).
      * destruct I as [-> I]. split; [reflexivity |]. exact (starved_after 1 _ _ s s1 R I).
    + destruct R as [-> R]. split; [reflexivity |]. apply (starved_more 1); [lia | exact R].
Qed.
Lemma Write_ends s addr data : sound s -> (0 < length data)%nat -> span addr (Z.of_nat (length data)) ->
  ends (Z.of_nat (length data)) (overwrite addr data (contents s)) 0 s (Write mmap addr data s).
Proof.
  intros S Hs Sp. unfold Write. destruct (crosses addr (Z.of_nat (length data))) eqn:Ec.
  - pose proof (write_each_ends data s addr S Sp) as R. destruct (write_each mmap addr data s) as [s1 | e]; cbn [rbind ends]; [now split | exact R].
  - pose proof (write_within_ends s addr data S Hs Sp (crosses_offset addr (Z.of_nat (length data)) ltac:(lia) Sp Ec)) as R. destruct (write_within mmap addr data s) as [s1 | e]; cbn [rbind ends].
    + split; [reflexivity |]. destruct R as [A1 A2 A3 A4 A5]. split; auto. lia.
    + destruct R as [-> R]. split; [reflexivity |]. apply (starved_more 1); [lia | exact R].
Qed.
(** A fetch reads whatever the protection, but only what was touched and does
    not end with its page. *)
Lemma Fetch_ends s addr size : sound s -> (0 < size)%nat -> span addr (Z.of_nat size) -> PageOffset addr + Z.of_nat size < 4096 -> data_ s !! PageBase addr <> None ->
  ends 1 (contents s) (0, bytes_from (contents s) addr size) s (Fetch mmap addr size s).
Proof.
  intros S Hs (H0 & H1 & H2) Ho Hd. unfold Fetch. destruct (page_split addr) as (E & Hr & Ei). assert (Hend : addr + Z.of_nat size < 2 ^ 64).
  { unfold PageIndex in Ei. pose proof (Z.div_lt_upper_bound addr 4096 (2 ^ 52) ltac:(lia) ltac:(lia)). lia. }
  rewrite u64_bounded, (same_page addr (addr + Z.of_nat size)), Z.eqb_refl by lia. cbn zeta. destruct (data_ s !! PageBase addr) as [p0 |] eqn:Ep; [| congruence].
  replace (mkSparse (mapping s) (data_ s) (cache_ s) (pages_remaining_ s) (pages s)) with s by now destruct s.
  pose proof (GetPage_spec mmap Fresh s addr (proj1 S) (H2 addr ltac:(lia))) as G. destruct (GetPage mmap addr s) as [[p s1] | e]; cbn [rbind fst snd].
  - destruct G as (C1 & M & Hp). pose proof (accessed_page s s1 S C1 M) as Acc. rewrite (copy_from_contents s1 p addr size (acc_sound _ _ _ _ Acc) Hp) by lia. cbn [rbind ends].
    split; [| exact Acc]. f_equal. apply bytes_from_ext. exact (same_contents _ _ _ M).
  - destruct G as [-> [G | G]]; split; try reflexivity; [left; lia | right; exact G].
Qed.
(** Byte by byte is what ReadN and WriteN do for any size. *)
Lemma ReadN_each size : forall s addr, 0 <= addr -> addr + Z.of_nat size <= 2 ^ 64 -> ReadN mmap addr size s = read_each mmap addr size s.
Proof.
  induction size as [| n IH]; intros s addr H0 H1; cbn [ReadN read_each]; [reflexivity |]. unfold Read. rewrite crosses_byte by lia.
  assert (En : forall f : Z -> result (Z * list Z * SparseMemoryModel), (n = O -> f (u64 (addr + 1)) = f (addr + 1)) -> f (u64 (addr + 1)) = f (addr + 1)).
  { intros f Hf. destruct n as [| n]; [now apply Hf |]. now rewrite u64_bounded by lia. }
  assert (Fail : forall rc b s1, read_within mmap addr 1 s = Ok (rc, b, s1) -> rc <> 0 -> b = []).
  { intros rc b s1. unfold read_within. destruct (GetRegionProtection _ _) as [[f |] |]; cbn [rbind]; [| intros [= <- <- <-]; reflexivity | discriminate].
    destruct (negb _); [| intros [= <- <- <-]; reflexivity]. destruct (GetPage _ _ _); cbn [rbind]; [| discriminate]. destruct (copy_from _ _ _ _); cbn [rbind]; [| discriminate]. intros [= <- <- <-]. congruence. }
  destruct (read_within mmap addr 1 s) as [[[rc b] s1] | e]; cbn [rbind]; [| reflexivity]. destruct (Z.eqb_spec rc 0) as [-> | Hrc]; cbn [negb].
  - rewrite (En (fun a => ReadN mmap a n s1)), (En (fun a => read_each mmap a n s1)) by (intros ->; reflexivity). now rewrite IH by lia.
  - now rewrite (Fail rc b s1 eq_refl Hrc).
Qed.
Lemma WriteN_each data : forall s addr, 0 <= addr -> addr + Z.of_nat (length data) <= 2 ^ 64 ->
  WriteN mmap addr data s = rmap (fun s1 => (0, s1)) (write_each mmap addr data s).
Proof.
  induction data as [| b r IH]; intros s addr H0 H1; cbn [WriteN write_each]; [reflexivity |]. cbn [length] in H1. unfold Write. cbn [length]. change (Z.of_nat 1) with 1. rewrite crosses_byte by lia.
  destruct (write_within mmap addr [b] s) as [s1 | e]; cbn [rbind fst snd negb Z.eqb]; [| reflexivity]. destruct r as [| b2 r]; [reflexivity |]. cbn [length] in *. rewrite u64_bounded by lia. apply IH; cbn [length]; lia.
Qed.

(** ** Whole runs *)

Inductive request :=
| RRegion (e : event)
| RRead (addr : Z) (size : nat)
| RReadN (addr : Z) (size : nat)
| RWrite (addr : Z) (data : list Z)
| RPoke (addr : Z) (data : list Z)
| RWriteN (addr : Z) (data : list Z)
| RFetch (addr : Z) (size : nat).
Definition no_bytes (x : Z * SparseMemoryModel) : Z * list Z * SparseMemoryModel := (fst x, [], snd x).
Definition do_request (fuel : nat) (r : request) s : result (Z * list Z * SparseMemoryModel) :=
  match r with
  | RRegion e => rmap (fun x => (fst x, [], with_mapping (snd x) s)) (do_event fuel e (mapping s))
  | RRead addr size => Read mmap addr size s
  | RReadN addr size => ReadN mmap addr size s
  | RWrite addr data => rmap no_bytes (Write mmap addr data s)
  | RPoke addr data => rmap no_bytes (Poke mmap addr data s)
  | RWriteN addr data => rmap no_bytes (WriteN mmap addr data s)
  | RFetch addr size => Fetch mmap addr size s
  end.
(** What a caller has to see to. *)
Definition fits (r : request) s : Prop :=
  match r with
  | RRegion e => permitted e (mapping s)
  | RRead addr size | RReadN addr size => (0 < size)%nat /\ span addr (Z.of_nat size) /\ above_first (mapping s) addr
  | RWrite addr data | RPoke addr data | RWriteN addr data => (0 < length data)%nat /\ span addr (Z.of_nat (length data))
  | RFetch addr size => (0 < size)%nat /\ span addr (Z.of_nat size) /\ PageOffset addr + Z.of_nat size < 4096 /\ data_ s !! PageBase addr <> None
  end.
(** The answer, from the protections and the bytes alone. *)
Definition expected (r : request) (sp : space) (m : Z -> Z) (answer : Z * list Z) : Prop :=
  match r with
  | RRegion _ => snd answer = []
  | RRead addr size => answer = read_answer sp m addr size
  | RReadN addr size => answer = read_while sp m addr size
  | RWrite _ _ | RPoke _ _ | RWriteN _ _ => answer = (0, [])
  | RFetch addr size => answer = (0, bytes_from m addr size)
  end.
Definition size_of (r : request) : Z :=
  match r with RRegion _ => 0 | RRead _ n | RReadN _ n | RFetch _ n => Z.of_nat n | RWrite _ d | RPoke _ d | RWriteN _ d => Z.of_nat (length d) end.
Definition bytes_after (r : request) (m : Z -> Z) : Z -> Z :=
  match r with RWrite addr data | RPoke addr data | RWriteN addr data => overwrite addr data m | _ => m end.
Definition space_after_request (r : request) (answer : Z) (sp : space) : space := match r with RRegion e => space_after e answer sp | _ => sp end.

Lemma ends_more {A} n1 n2 m (x : A) s r : n1 <= n2 -> ends n1 m x s r -> ends n2 m x s r.
Proof.
  intros Hn. destruct r as [[y s1] | e]; cbn [ends].
  - intros [E [A1 A2 A3 A4 A5]]. split; [exact E |]. split; auto. lia.
  - intros [E H]. split; [exact E | exact (starved_more _ _ _ Hn H)].
Qed.
Lemma ends_no_bytes n m s r : ends n m 0 s r -> ends n m (0, []) s (rmap no_bytes r).
Proof. destruct r as [[y s1] | e]; cbn [ends rmap rbind no_bytes fst snd]; [intros [-> H]; now split | auto]. Qed.
Lemma WriteN_ends s addr data : sound s -> span addr (Z.of_nat (length data)) -> ends (Z.of_nat (length data)) (overwrite addr data (contents s)) 0 s (WriteN mmap addr data s).
Proof.
  intros S Sp. pose proof Sp as (H0 & H1 & _). rewrite WriteN_each by assumption. pose proof (write_each_ends data s addr S Sp) as R.
  destruct (write_each mmap addr data s) as [s1 | e]; cbn [rmap rbind ends]; [now split | exact R].
Qed.
(** Every access ends as its answer says. *)
Lemma do_request_access fuel r s : sound s -> fits r s -> (forall e, r <> RRegion e) ->
  exists answer, expected r (protection_at (mapping s)) (contents s) answer /\ ends (size_of r) (bytes_after r (contents s)) answer s (do_request fuel r s).
Proof.
  intros S F N. destruct r as [e | addr size | addr size | addr data | addr data | addr data | addr size]; cbn [fits expected size_of bytes_after do_request] in *; [now destruct (N e) | | | | | |].
  - destruct F as (F1 & F2 & F3). eexists. split; [reflexivity |]. now apply Read_ends.
  - destruct F as (F1 & F2 & F3). eexists. split; [reflexivity |]. pose proof F2 as (H0 & H1 & _). rewrite ReadN_each by assumption. now apply read_each_ends.
  - destruct F as (F1 & F2). eexists. split; [reflexivity |]. apply ends_no_bytes. now apply Write_ends.
  - destruct F as (F1 & F2). eexists. split; [reflexivity |]. apply ends_no_bytes. unfold Poke. pose proof (Write_ends s addr data S F1 F2) as R.
    destruct (Write mmap addr data s) as [[y s1] | e]; cbn [rbind fst snd ends] in *; [| exact R]. split; [reflexivity | exact (proj2 R)].
  - destruct F as (F1 & F2). eexists. split; [reflexivity |]. apply ends_no_bytes. now apply WriteN_ends.
  - destruct F as (F1 & F2 & F3 & F4). eexists. split; [reflexivity |]. apply (ends_more 1); [lia |]. now apply Fetch_ends.
Qed.
End Accesses.

Section Runs.
Context (mmap : SparseMemoryModel -> option Z).
Implicit Types s : SparseMemoryModel.

(** The requests so far, with their answers, the latest first. *)
Inductive ran : list (request * (Z * list Z)) -> SparseMemoryModel -> Prop :=
| ran_none : ran [] new_sparse
| ran_more past s fuel r answer s1 : ran past s -> fits r s -> enough (mapping s) fuel -> do_request mmap fuel r s = Ok (answer, s1) -> ran ((r, answer) :: past) s1.
Definition past_space (past : list (request * (Z * list Z))) : space := fold_right (fun x sp => space_after_request (fst x) (fst (snd x)) sp) (fun _ => None) past.
Definition past_bytes (past : list (request * (Z * list Z))) : Z -> Z := fold_right (fun x m => bytes_after (fst x) m) (fun _ => 0) past.

Lemma new_sparse_sound : sound new_sparse.
Proof.
  split; [split; [split |] | exact (empty_well_formed tt)]; cbn [new_sparse data_ cache_ pages_remaining_]; try (intros a p; rewrite lookup_empty; discriminate).
  - lia.
  - intros i. unfold cache_entry, purge_cache. cbn [entries]. rewrite lookup_empty. cbn. split; now left.
Qed.
Lemma with_mapping_sound m s : sound s -> well_formed m -> sound (with_mapping m s).
Proof. intros [[[P1 P2 P3 P4] C] _] W. split; [split; [now split | exact C] | exact W]. Qed.
Lemma read_while_both sp1 sp2 m1 m2 n : (forall a, sp1 a = sp2 a) -> (forall a, m1 a = m2 a) -> forall addr, read_while sp1 m1 addr n = read_while sp2 m2 addr n.
Proof. intros E1 E2. induction n as [| n IH]; intros addr; cbn [read_while]; [reflexivity |]. unfold readable. now rewrite E1, E2, IH. Qed.
Lemma read_answer_ext sp1 sp2 m1 m2 addr size : (forall a, sp1 a = sp2 a) -> (forall a, m1 a = m2 a) -> read_answer sp1 m1 addr size = read_answer sp2 m2 addr size.
Proof. intros E1 E2. unfold read_answer. rewrite (read_while_both sp1 sp2 m1 m2), (bytes_from_ext m1 m2) by assumption. unfold readable. now rewrite E1. Qed.
Lemma expected_ext r sp1 sp2 m1 m2 answer : (forall a, sp1 a = sp2 a) -> (forall a, m1 a = m2 a) -> expected r sp1 m1 answer -> expected r sp2 m2 answer.
Proof.
  intros E1 E2. destruct r; cbn [expected]; auto; intros ->.
  - now apply read_answer_ext.
  - now apply read_while_both.
  - now rewrite (bytes_from_ext m1 m2) by exact E2.
Qed.
Lemma bytes_after_ext r m1 m2 : (forall a, m1 a = m2 a) -> forall a, bytes_after r m1 a = bytes_after r m2 a.
Proof. intros E. destruct r; cbn [bytes_after]; auto; now apply overwrite_ext. Qed.

Context (Fresh : mmap_fresh mmap).
(** Any request that fits, whatever state it meets. *)
Lemma do_request_sound fuel r s : sound s -> fits r s -> enough (mapping s) fuel ->
  match do_request mmap fuel r s with
  | Ok (answer, s1) => sound s1 /\ expected r (protection_at (mapping s)) (contents s) answer
      /\ (forall a, protection_at (mapping s1) a = space_after_request r (fst answer) (protection_at (mapping s)) a) /\ (forall a, contents s1 a = bytes_after r (contents s) a)
  | Err e => e = BadAlloc /\ starved mmap (size_of r) s
  end.
Proof.
  intros S F En. assert (D : (exists e, r = RRegion e) \/ forall e, r <> RRegion e) by (destruct r; eauto; right; congruence). destruct D as [[e ->] | N].
  - cbn [fits do_request expected space_after_request bytes_after] in *. destruct (do_event_refines fuel e (mapping s) (proj2 S) F En) as (answer & m & -> & W & R). cbn [rmap rbind fst snd].
    split; [now apply with_mapping_sound |]. split; [reflexivity |]. split; [exact R | reflexivity].
  - destruct (do_request_access mmap Fresh fuel r s S F N) as (answer & X & E). destruct (do_request mmap fuel r s) as [[y s1] | e]; cbn [ends] in E; [| exact E].
    destruct E as [-> [A1 A2 A3 _ _]]. split; [exact A1 |]. split; [exact X |]. split; [| exact A3]. intros a. rewrite A2. destruct r; try reflexivity. now destruct (N e).
Qed.
Lemma space_after_request_ext r answer sp1 sp2 : (forall a, sp1 a = sp2 a) -> forall a, space_after_request r answer sp1 a = space_after_request r answer sp2 a.
Proof. intros E. destruct r; cbn [space_after_request]; auto. now apply space_after_ext. Qed.
Lemma ran_invariant past s : ran past s -> sound s /\ (forall a, protection_at (mapping s) a = past_space past a) /\ forall a, contents s a = past_bytes past a.
Proof.
  induction 1 as [| past s fuel r answer s1 _ (S & Hs & Hb) F En E].
  - split; [exact new_sparse_sound |]. split; [reflexivity |]. intros a. unfold contents. cbn [new_sparse data_]. now rewrite lookup_empty.
  - pose proof (do_request_sound fuel r s S F En) as R. rewrite E in R. destruct R as (S1 & _ & R1 & R2). split; [exact S1 |]. cbn [past_space past_bytes fold_right fst snd]. split.
    + intros a. rewrite R1. now apply space_after_request_ext.
    + intros a. rewrite R2. now apply bytes_after_ext.
Qed.
(** C20. Areas are mapped, protected and unmapped as
    [permitted] says; bytes are read, fetched and written, at least one at a
    time, in any order and across pages, at addresses that do not wrap and avoid
    the page with the index 1 ([first_page_faults]); reads are not below the
    first area; and fetches are from a page that was touched before and end
    before its last byte. Then the memory holds at every address the byte
    written last, or zero, and the protection that the events so far say; the
    next request of this kind is answered from these alone, and fails only when
    the host has no page left. *)
Theorem sparse_is_memory past s : ran past s ->
  sound s /\ (forall a, protection_at (mapping s) a = past_space past a) /\ (forall a, contents s a = past_bytes past a)
  /\ forall fuel r, fits r s -> enough (mapping s) fuel ->
     match do_request mmap fuel r s with
     | Ok (answer, s1) => expected r (past_space past) (past_bytes past) answer
     | Err e => e = BadAlloc /\ starved mmap (size_of r) s
     end.
Proof.
  intros R. destruct (ran_invariant past s R) as (S & Hs & Hb). split; [exact S |]. split; [exact Hs |]. split; [exact Hb |]. intros fuel r F En.
  pose proof (do_request_sound fuel r s S F En) as D. destruct (do_request mmap fuel r s) as [[answer s1] | e]; [| exact D].
  destruct D as (_ & D & _). exact (expected_ext r _ _ _ _ answer Hs Hb D).
Qed.
End Runs.

(** A host that gives pages one after the other. *)
Definition next_page (s : SparseMemoryModel) : option Z := Some (1 + map_fold (fun _ p m => Z.max p m) 0 (data_ s)).
Lemma next_page_fresh : mmap_fresh next_page.
Proof.
  intros s p [= <-]. assert (Hb : 0 <= map_fold (fun _ p m => Z.max p m) 0 (data_ s) /\ forall a q, data_ s !! a = Some q -> q <= map_fold (fun _ p m => Z.max p m) 0 (data_ s)).
  { apply (map_fold_weak_ind (fun r m => 0 <= r /\ forall a q, m !! a = Some q -> q <= r)).
    - split; [lia |]. intros a q. rewrite lookup_empty. discriminate.
    - intros i x m r _ [H0 H1]. split; [lia |]. intros a q. rewrite lookup_insert_Some. intros [[_ <-] | [_ Hq]]; [lia |]. specialize (H1 a q Hq). lia. }
  destruct Hb as [H0 H1]. split; [lia |]. intros a Ha. specialize (H1 a _ Ha). lia.
Qed.

Definition demo_space := EMapAnonymous 8192 RegFlagReadWrite.
Definition demo_write := RWrite 0x40000ffe [1; 2; 3].
Definition state_of {A B} (d : B) (r : result (A * B)) : B := match r with Ok (_, s) => s | Err _ => d end.
Definition demo_state1 := state_of new_sparse (do_request next_page 4 (RRegion demo_space) new_sparse).
Definition demo_state2 := state_of new_sparse (do_request next_page 4 demo_write demo_state1).
Lemma sparse_is_memory_witness :
  ran next_page [(demo_write, (0, [])); (RRegion demo_space, (0x40000000, []))] demo_state2
  /\ match do_request next_page 4 (RRead 0x40000ffd 4) demo_state2 with
     | Ok (answer, s1) => expected (RRead 0x40000ffd 4) (past_space [(demo_write, (0, [])); (RRegion demo_space, (0x40000000, []))]) (past_bytes [(demo_write, (0, [])); (RRegion demo_space, (0x40000000, []))]) answer
     | Err e => e = BadAlloc /\ starved next_page 4 demo_state2
     end.
Proof.
  assert (R : ran next_page [(demo_write, (0, [])); (RRegion demo_space, (0x40000000, []))] demo_state2).
  { refine (ran_more next_page _ demo_state1 4 demo_write (0, []) demo_state2 (ran_more next_page [] new_sparse 4 (RRegion demo_space) (0x40000000, []) demo_state1 (ran_none next_page) _ _ _) _ _ _).
    - repeat split; vm_compute; reflexivity.
    - split; [vm_compute; discriminate | lia].
    - vm_compute. reflexivity.
    - split; [cbn; lia |]. split; [lia |]. split; [vm_compute; discriminate |]. intros a Ha E. unfold PageIndex in E. cbn in Ha. pose proof (Z.div_le_lower_bound a 4096 2 ltac:(lia) ltac:(lia)). lia.
    - split; [vm_compute; discriminate | lia].
    - vm_compute. reflexivity. }
  split; [exact R |]. apply (proj2 (proj2 (proj2 (sparse_is_memory next_page next_page_fresh _ _ R)))).
  - split; [lia |]. split.
    + split; [lia |]. split; [vm_compute; discriminate |]. intros a Ha E. unfold PageIndex in E. cbn in Ha. pose proof (Z.div_le_lower_bound a 4096 2 ltac:(lia) ltac:(lia)). lia.
    + right. eexists. split; [vm_compute; left; reflexivity | vm_compute; discriminate].
  - split; [vm_compute; discriminate | lia].
Defined.
Example demo_read : match do_request next_page 4 (RRead 0x40000ffd 5) demo_state2 with Ok (answer, _) => answer = (0, [0; 1; 2; 3; 0]) | Err _ => False end.
Proof. vm_compute. reflexivity. Qed.

(** ** Words *)

Lemma le_split_S n v : le_split (S n) v = v mod 256 :: le_split n (Z.shiftr v 8).
Proof.
  unfold le_split. cbn [seq map]. f_equal. rewrite <- seq_shift, map_map. apply map_ext. intros i. rewrite Z.shiftr_shiftr by lia. do 2 f_equal. lia.
Qed.
Lemma le_word_split n : forall v, 0 <= v < 2 ^ (8 * Z.of_nat n) -> le_word (le_split n v) = v.
Proof.
  induction n as [| n IH]; intros v Hv; [cbn in *; lia |]. rewrite le_split_S. cbn [le_word fold_right]. fold (le_word (le_split n (Z.shiftr v 8))).
  rewrite Z.shiftr_div_pow2 by lia. change (2 ^ 8) with 256. rewrite IH; [pose proof (Z.div_mod v 256 ltac:(lia)); lia |]. replace (8 * Z.of_nat (S n)) with (8 * Z.of_nat n + 8) in Hv by lia. rewrite Z.pow_add_r in Hv by lia. change (2 ^ 8) with 256 in Hv.
  split; [apply Z.div_pos; lia | apply Z.div_lt_upper_bound; lia].
Qed.
Lemma le_split_length n v : length (le_split n v) = n.
Proof. unfold le_split. now rewrite length_map, length_seq. Qed.
Lemma bytes_overwrite m data : forall addr, bytes_from (overwrite addr data m) addr (length data) = data.
Proof.
  intros addr. apply (nth_ext _ _ 0 0).
  - unfold bytes_from. now rewrite length_map, length_seq.
  - intros i Hi. unfold bytes_from in Hi. rewrite length_map, length_seq in Hi. unfold bytes_from. set (g := fun i => _). rewrite (nth_indep _ 0 (g O)) by (rewrite length_map, length_seq; exact Hi).
    rewrite map_nth, seq_nth by exact Hi. unfold g, overwrite. rewrite (proj2 (in_range_of_spec _ _ _)) by lia. f_equal. lia.
Qed.
Lemma read_while_all sp m n : forall addr, (forall a, addr <= a < addr + Z.of_nat n -> readable sp a = true) -> read_while sp m addr n = (0, bytes_from m addr n).
Proof.
  induction n as [| n IH]; intros addr H; cbn [read_while]; [reflexivity |]. rewrite H, bytes_from_S, IH by (try intros a Ha; try apply H; lia). reflexivity.
Qed.
Lemma read_answer_all sp m n addr : (0 < n)%nat -> (forall a, addr <= a < addr + Z.of_nat n -> readable sp a = true) -> read_answer sp m addr n = (0, bytes_from m addr n).
Proof. intros Hn H. unfold read_answer. rewrite read_while_all, H by (try exact H; lia). now destruct (crosses _ _). Qed.
(** C21. A word of any number of bytes that is written where
    the guest may read, at addresses that do not wrap, are not below the first
    area, and avoid the page with the index 1 ([first_page_faults]), is read
    back as it was, within a page and across two, unless the host has no page
    left. *)
Theorem word_round_trip mmap past s n addr v : mmap_fresh mmap -> ran mmap past s -> (0 < n)%nat -> span addr (Z.of_nat n) -> above_first (mapping s) addr ->
  (forall a, addr <= a < addr + Z.of_nat n -> readable (protection_at (mapping s)) a = true) -> 0 <= v < 2 ^ (8 * Z.of_nat n) ->
  match (let* w := Write mmap addr (le_split n v) s in rmap (pair (fst w)) (read_word mmap n addr (snd w))) with
  | Ok (written, (rc, x, s1)) => written = 0 /\ rc = 0 /\ x = v
  | Err e => e = BadAlloc /\ starved mmap (2 * Z.of_nat n) s
  end.
Proof.
  intros Fresh R Hn Sp A Hr Hv. destruct (ran_invariant mmap Fresh past s R) as (S & _ & _). pose proof (le_split_length n v) as El.
  pose proof (Write_ends mmap Fresh s addr (le_split n v) S ltac:(lia)) as W. rewrite El in W. specialize (W Sp). destruct (Write mmap addr (le_split n v) s) as [[written s1] | e]; cbn [rbind fst snd ends] in *.
  2: { destruct W as [-> W]. split; [reflexivity |]. apply (starved_more mmap (Z.of_nat n)); [lia | exact W]. }
  destruct W as [-> W]. unfold read_word. pose proof (Read_ends mmap Fresh s1 addr n (acc_sound _ _ _ _ W) Hn Sp (above_first_same _ _ _ _ _ W A)) as D.
  rewrite read_answer_all in D by (try exact Hn; rewrite (acc_mapping _ _ _ _ W); exact Hr). destruct (Read mmap addr n s1) as [[[rc bs] s2] | e]; cbn [rbind rmap ends] in *.
  - destruct D as [[= -> ->] _]. split; [reflexivity |]. split; [reflexivity |]. rewrite (bytes_from_ext _ _ addr n (acc_contents _ _ _ _ W)). rewrite <- El at 2. rewrite bytes_overwrite. now apply le_word_split.
  - destruct D as [-> D]. split; [reflexivity |]. replace (2 * Z.of_nat n) with (Z.of_nat n + Z.of_nat n) by lia. exact (starved_after mmap _ _ _ s s1 W D).
Qed.
Lemma word_round_trip_witness :
  (0 < 4)%nat /\ match (let* w := Write next_page 0x40000ffe (le_split 4 0xdeadbeef) demo_state1 in rmap (pair (fst w)) (read_word next_page 4 0x40000ffe (snd w))) with
  | Ok (written, (rc, x, s1)) => written = 0 /\ rc = 0 /\ x = 0xdeadbeef
  | Err e => e = BadAlloc /\ starved next_page 8 demo_state1
  end.
Proof.
  split; [lia |]. apply (word_round_trip next_page [(RRegion demo_space, (0x40000000, []))] demo_state1 4 0x40000ffe 0xdeadbeef next_page_fresh).
  - refine (ran_more next_page [] new_sparse 4 (RRegion demo_space) (0x40000000, []) demo_state1 (ran_none next_page) _ _ _).
    + repeat split; vm_compute; reflexivity.
    + split; [vm_compute; discriminate | lia].
    + vm_compute. reflexivity.
  - lia.
  - split; [lia |]. split; [vm_compute; discriminate |]. intros a Ha E. unfold PageIndex in E. cbn in Ha. pose proof (Z.div_le_lower_bound a 4096 2 ltac:(lia) ltac:(lia)). lia.
  - right. eexists. split; [vm_compute; left; reflexivity | vm_compute; discriminate].
  - intros a Ha. cbn in Ha. assert (E : a = 0x40000ffe \/ a = 0x40000fff \/ a = 0x40001000 \/ a = 0x40001001) by lia. destruct E as [-> | [-> | [-> | ->]]]; vm_compute; reflexivity.
  - vm_compute. split; [discriminate | reflexivity].
Defined.
Definition demo_event (e : event) (s : regions unit) : regions unit := state_of s (do_event 8 e s).
Definition demo_regions1 := demo_event demo_space (empty_regions tt).
Definition demo_regions2 := demo_event (EMap 0x40002000 4096 RegFlagRead "text"%string) demo_regions1.
Definition demo_regions3 := demo_event (EProtect 0x40000000 8192 RegFlagRead) demo_regions2.
Definition demo_regions4 := demo_event (EUnmap 0x40000000 8192) demo_regions3.
Lemma regions_refine_space_witness :
  let past := [(EUnmap 0x40000000 8192, 1); (EProtect 0x40000000 8192 RegFlagRead, 1); (EMap 0x40002000 4096 RegFlagRead "text"%string, 1); (demo_space, 0x40000000)] in
  reached tt past demo_regions4 /\ protection_at demo_regions4 0x40002fff = replay past 0x40002fff /\ replay past 0x40002fff = Some RegFlagRead
  /\ exists answer s1, do_event 8 (EMapAnonymous 100 RegFlagRead) demo_regions4 = Ok (answer, s1).
Proof.
  intros past. assert (R : reached tt past demo_regions4).
  { refine (reached_more tt _ demo_regions3 8 _ _ demo_regions4 (reached_more tt _ demo_regions2 8 _ _ demo_regions3 (reached_more tt _ demo_regions1 8 _ _ demo_regions2 (reached_more tt [] (empty_regions tt) 8 _ _ demo_regions1 (reached_none tt) _ _ _) _ _ _) _ _ _) _ _ _).
    all: try (split; [vm_compute; discriminate | lia]). all: try (vm_compute; reflexivity).
    - repeat split; vm_compute; (reflexivity || discriminate).
    - repeat split; vm_compute; (reflexivity || discriminate).
    - split; [| reflexivity]. intros v Hv. vm_compute in Hv. destruct Hv as [[= <-] | [[=] | []]]. reflexivity.
    - split; [eexists; split; [vm_compute; left; reflexivity | reflexivity] |]. eexists. split; [vm_compute; left; reflexivity | vm_compute; discriminate]. }
  split; [exact R |]. destruct (regions_refine_space tt past demo_regions4 R) as (_ & Hp & Hn). split; [apply Hp |]. split; [vm_compute; reflexivity |]. apply Hn.
  - repeat split; vm_compute; (reflexivity || discriminate).
  - split; [vm_compute; discriminate | lia].
Defined.

(** ** What does not work *)

(** A cache that was never used has the page with the index 1 for a null
    pointer: its tags start as 1, and no way is unused. *)
Lemma first_page_faults mmap m addr size : PageIndex addr = 1 -> well_formed m -> above_first m addr -> readable (protection_at m) addr = true ->
  read_within mmap addr size (with_mapping m new_sparse) = Err UndefinedBehaviour /\ forall data, write_within mmap addr data (with_mapping m new_sparse) = Err UndefinedBehaviour.
Proof.
  intros Hi W A Hr. assert (G : exists s1, GetPage mmap addr (with_mapping m new_sparse) = Ok (0, s1)).
  { unfold GetPage. rewrite Hi. eexists. reflexivity. }
  destruct G as [s1 G]. split.
  - unfold read_within. cbn [with_mapping mapping]. rewrite (GetRegionProtection_above m addr W A). cbn [rbind]. unfold readable in Hr. destruct (protection_at m addr) as [f |]; [| discriminate]. rewrite Hr, G. reflexivity.
  - intros data. unfold write_within. now rewrite G.
Qed.
(** The fetch of a page that was never touched makes it a null pointer. *)
Lemma Fetch_untouched_faults mmap s addr size : coherent s -> 0 <= addr -> PageIndex addr <> 1 -> data_ s !! PageBase addr = None -> PageOffset addr + Z.of_nat size < 4096 -> addr + Z.of_nat size < 2 ^ 64 ->
  Fetch mmap addr size s = Err UndefinedBehaviour.
Proof.
  intros [P C] H0 Hi Hd Ho Hw. unfold Fetch. destruct (page_split addr) as (E & Hr & Eb). rewrite u64_bounded, (same_page addr (addr + Z.of_nat size)), Z.eqb_refl, Hd by lia. cbn zeta.
  unfold GetPage. cbn [cache_]. pose proof (try_cache_fetch_spec (data_ s) (PageIndex addr) (cache_ s) C Hi) as T. destruct (try_cache_fetch 0 (PageIndex addr) (cache_ s)) as [[hit way] c]. destruct hit; [destruct T as [_ T]; rewrite <- Eb in T; congruence |].
  unfold GetPageUncached. cbn [with_cache data_]. rewrite PageBase_idem, lookup_insert_eq. cbn [rbind fst snd]. unfold copy_from. reflexivity.
Qed.
(** A fetch that ends with its page is refused. *)
Lemma Fetch_page_end mmap s addr size : 0 <= addr -> PageOffset addr + Z.of_nat size = 4096 -> addr + Z.of_nat size < 2 ^ 64 -> Fetch mmap addr size s = Err NotImplemented.
Proof.
  intros H0 Ho Hw. unfold Fetch. destruct (page_split addr) as (E & Hr & Eb), (page_split (addr + Z.of_nat size)) as (E2 & Hr2 & Eb2). rewrite u64_bounded by lia.
  rewrite (proj2 (Z.eqb_neq _ _)); [reflexivity |]. rewrite PageBase_spec in E, Eb |- *. rewrite PageBase_spec. pose proof (Z.mod_pos_bound (addr + Z.of_nat size) 4096 ltac:(lia)). lia.
Qed.

(** ** Locked regions *)

Section Locking.
Context (mmap : SparseMemoryModel -> option Z) (Fresh : mmap_fresh mmap).
Implicit Types s : SparseMemoryModel.

(** The pages from one on, each by its host page. *)
Definition locked_pages (base : Z) (ps : list (Z * Z)) s : Prop :=
  forall i p, nth_error ps i = Some p -> data_ s !! (base + 4096 * Z.of_nat i) = Some (fst p) /\ snd p = 0.
Lemma lock_pages_ends fuel : forall s base limit, sound s -> PageBase base = base -> 0 <= base -> limit <= 2 ^ 64 - 4096 -> (forall a, base <= a < limit + 4095 -> PageIndex a <> 1) ->
  limit <= base + 4096 * Z.of_nat fuel ->
  match lock_pages mmap fuel base limit s with
  | Ok (ps, s1) => accessed (Z.of_nat fuel) (contents s) s s1 /\ exists l, ps = Some l /\ locked_pages base l s1 /\ limit <= base + 4096 * Z.of_nat (length l) < Z.max base limit + 4096
  | Err e => e = BadAlloc /\ starved mmap (Z.of_nat fuel) s
  end.
Proof.
  assert (done : forall s base limit n, sound s -> limit <= base -> 0 <= n -> accessed n (contents s) s s /\ exists l, Some [] = Some l /\ locked_pages base l s /\ limit <= base + 4096 * Z.of_nat (length l) < Z.max base limit + 4096).
  { intros s base limit n S Hl Hn. split; [now apply accessed_refl |]. exists []. split; [reflexivity |]. split; [intros [|] ?; discriminate | cbn; lia]. }
  induction fuel as [| n IH]; intros s base limit S Hb H0 Hw Hi Hf; cbn [lock_pages]; destruct (Z.ltb_spec base limit) as [Hlt | Hge]; [lia | apply done; [exact S | lia | lia] | | apply done; [exact S | lia | lia]].
  destruct (page_split base) as (E & Hr & Eb). unfold LockRegion. rewrite u64_bounded by lia. replace (PageIndex (base + 4096 - 1)) with (PageIndex base).
  2: { destruct (page_split (base + 4096 - 1)) as (_ & _ & E2). rewrite (same_page base) in E2 by lia. lia. }
  rewrite Z.eqb_refl. cbn [negb]. pose proof (GetPage_spec mmap Fresh s base (proj1 S) (Hi base ltac:(lia))) as G. destruct (GetPage mmap base s) as [[p s1] | e]; cbn [rbind fst snd].
  - destruct G as (C1 & M & Hp). pose proof (accessed_page s s1 S C1 M) as Acc. rewrite Hb in Hp. rewrite u64_bounded by lia.
    assert (Hb1 : PageBase (base + 4096) = base + 4096).
    { destruct (page_split (base + 4096)) as (E2 & Hr2 & Eb2). lia. }
    pose proof (IH s1 (base + 4096) limit (acc_sound _ _ _ _ Acc) Hb1 ltac:(lia) Hw ltac:(intros a Ha; apply Hi; lia) ltac:(lia)) as I. replace (Z.of_nat (Datatypes.S n)) with (1 + Z.of_nat n) by lia.
    destruct (lock_pages mmap n (base + 4096) limit s1) as [[ps s2] | e]; cbn [rbind fst snd].
    + destruct I as (Acc2 & l & -> & Hl & Hlen). split; [exact (accessed_trans 1 _ _ _ _ s s1 s2 Acc Acc2 (acc_contents _ _ _ _ Acc)) |]. exists ((p, PageOffset base) :: l). split; [reflexivity |]. split.
      * intros [| i] q Hq; cbn [nth_error] in Hq.
        -- injection Hq as <-. cbn [fst snd]. rewrite Z.mul_0_r, Z.add_0_r. split; [exact (acc_pages _ _ _ _ Acc2 _ _ Hp) | lia].
        -- destruct (Hl i q Hq) as [H1 H2]. split; [| exact H2]. rewrite <- H1. f_equal. lia.
      * cbn [length]. lia.
    + destruct I as [-> I]. split; [reflexivity |]. exact (starved_after mmap 1 _ _ s s1 Acc I).
  - destruct G as [-> [G | G]]; split; try reflexivity; [left; lia | right; exact G].
Qed.
(** A locked byte is the byte of the memory. *)
Lemma locked_Read8_contents s base ps addr : sound s -> PageBase base = base -> 0 <= base -> base + 4096 * Z.of_nat (length ps) < 2 ^ 64 -> locked_pages base ps s -> base <= addr < base + 4096 * Z.of_nat (length ps) ->
  locked_Read8 addr (mkLocked base ps) s = Ok (contents s addr).
Proof.
  intros [[P _] _] Hb H0 Hw Hl Ha. unfold locked_Read8, GetPtr. cbn [guest_base_ host_ptrs_]. rewrite !u64_bounded by lia. rewrite (proj2 (Z.leb_le _ _)), (proj2 (Z.ltb_lt _ _)) by lia.
  destruct (page_split addr) as (E & Hr & Eb), (page_split (addr - base)) as (E2 & Hr2 & Eb2), (page_split base) as (E3 & Hr3 & Eb3).
  assert (Hpos : 0 <= PageIndex (addr - base)) by (unfold PageIndex; apply Z.div_pos; lia). destruct (nth_error ps (Z.to_nat (PageIndex (addr - base)))) as [p |] eqn:En.
  - cbn [of_option rbind]. destruct (Hl _ _ En) as [H1 H2]. rewrite Z2Nat.id in H1 by lia. replace (base + 4096 * PageIndex (addr - base)) with (PageBase addr) in H1 by lia.
    cbn [fst snd]. rewrite (proj2 (Z.eqb_neq (fst p) 0)) by exact (paged_page s P _ _ H1). cbn [negb]. unfold contents. now rewrite H1, H2, Z.add_0_l.
  - apply nth_error_None in En. lia.
Qed.
End Locking.
(** After regions were locked from a page on, every byte of them is read as
    the requests before have left it. *)
Lemma locked_reads_memory mmap past s fuel g size : mmap_fresh mmap -> ran mmap past s -> PageBase g = g -> 0 <= g -> 0 < size <= 4096 * Z.of_nat fuel -> g + size < 2 ^ 64 - 8192 ->
  (forall a, g <= a < g + size + 4095 -> PageIndex a <> 1) ->
  match LockRegions mmap fuel g size s with
  | Ok (r, s1) => exists l, r = Some l /\ forall a, g <= a < g + size -> locked_Read8 a l s1 = Ok (past_bytes past a)
  | Err e => e = BadAlloc /\ starved mmap (Z.of_nat fuel) s
  end.
Proof.
  intros Fresh R Hb H0 Hs Hw Hi. destruct (ran_invariant mmap Fresh past s R) as (S & _ & Hc). unfold LockRegions. rewrite Hb, u64_bounded by lia.
  pose proof (lock_pages_ends mmap Fresh fuel s g (g + size) S Hb H0 ltac:(lia) Hi ltac:(lia)) as L. destruct (lock_pages mmap fuel g (g + size) s) as [[ps s1] | e]; cbn [rbind fst snd]; [| exact L].
  destruct L as (Acc & l & -> & Hl & Hlen). exists (mkLocked g l). split; [reflexivity |]. intros a Ha.
  rewrite (locked_Read8_contents s1 g l a (acc_sound _ _ _ _ Acc) Hb H0 ltac:(lia) Hl ltac:(lia)). now rewrite (acc_contents _ _ _ _ Acc), Hc.
Qed.
(** Two bytes across two pages: the second page is not locked. *)
Lemma LockRegions_short : exists r s1, LockRegions next_page 8 0x40000fff 2 demo_state1 = Ok (Some r, s1) /\ locked_Read8 0x40000fff r s1 = Ok 0 /\ locked_Read16 0x40000fff r s1 = Err AssertFailed.
Proof. eexists _, _. split; [vm_compute; reflexivity |]. split; reflexivity. Qed.
