(* ===== verification/ArmCoprocessor.v ===== *)
(** * The ARM control coprocessors (abi/devices/arm/core)

    ArmCoprocessor (ArmCoprocessors.cpp): the selectors and the dispatch of
    accesses; PMU.cpp; ArmControlCoprocessor.cpp for ARMv5 and
    ArmControlCoprocessorv6.cpp.  What a coprocessor changes outside of itself
    is a [world]: whether the MMU is enabled, what was published to the
    subscribers of flushes, the exception vector bit of the processor and its
    feature levels. *)

From Stdlib Require Import ZArith Lia List Bool String.
From stdpp Require Import base numbers list gmap strings.
From S2P Require Import Prelude.
Import ListNotations.
#[local] Open Scope Z_scope.
#[local] Open Scope gensim_scope.

(** ** The surroundings *)

Inductive PubSubType := ITlbFullFlush | DTlbFullFlush | L1ICacheFlush | L1DCacheFlush | L2CacheFlush.
Record world := mkWorld { should_be_enabled : bool; published : list PubSubType; cpV : bool; feature_levels : gmap string Z }.
Definition Publish (l : list PubSubType) (w : world) : world := mkWorld (should_be_enabled w) (published w ++ l) (cpV w) (feature_levels w).
Definition tlb_flush : list PubSubType := [ITlbFullFlush; DTlbFullFlush].
(** MMU::set_enabled. *)
Definition set_enabled (enabled : bool) (w : world) : world :=
  if Bool.eqb enabled (should_be_enabled w) then w
  else Publish tlb_flush (mkWorld enabled (published w) (cpV w) (feature_levels w)).
Definition set_V (v : bool) (w : world) : world := mkWorld (should_be_enabled w) (published w) v (feature_levels w).
Definition SetFeatureLevel (name : string) (level : Z) (w : world) : world :=
  mkWorld (should_be_enabled w) (published w) (cpV w) (<[name := level]> (feature_levels w)).
Definition bit (data i : Z) : bool := negb (Z.land data (Z.shiftl 1 i) =? 0).

(** ** Selectors and dispatch *)

Record selectors := mkSel { opc1 : Z; opc2 : Z; rn : Z; rm : Z }.
(** What an access answers: whether it succeeds, the data, and the unit after
    it. *)
Abbreviation answer U := (result (bool * Z * U)).
Class ArmUnit (U : Type) := access_cp : selectors -> Z -> bool -> Z -> U -> answer U.
Record ArmCoprocessor (U : Type) := mkArm { sel : selectors; reads : gmap Z Z; writes : gmap Z Z; unit_ : U }.
Arguments mkArm {U}. Arguments sel {U}. Arguments reads {U}. Arguments writes {U}. Arguments unit_ {U}.
Definition instrument_hash (s : selectors) : Z := u32 (Z.lor (Z.lor (Z.lor (Z.shiftl (rn s) 24) (Z.shiftl (rm s) 16)) (Z.shiftl (opc1 s) 8)) (opc2 s)).
Definition count_access (s : selectors) (m : gmap Z Z) : gmap Z Z := <[instrument_hash s := u32 (default 0 (m !! instrument_hash s) + 1)]> m.
(** The accesses that a unit does not override. *)
Definition unhandled {U} : answer U := Err AssertFailed.

Section Dispatch.
Context {U : Type} `{ArmUnit U}.
Definition dispatch (is_read : bool) (data : Z) (c : ArmCoprocessor U) : answer U :=
  check* (rn (sel c) <? 16) or AssertFailed in
  access_cp (sel c) (rn (sel c)) is_read data (unit_ c).
Definition Read32 (addr : Z) (c : ArmCoprocessor U) : answer (ArmCoprocessor U) :=
  check* (addr =? 4) or AssertFailed in
  let reads1 := count_access (sel c) (reads c) in
  let* x := dispatch true 0 c in
  let '(done, data, u) := x in Ok (done, data, mkArm (sel c) reads1 (writes c) u).
Definition select (addr data : Z) (s : selectors) : selectors :=
  if addr =? 0 then mkSel data (opc2 s) (rn s) (rm s)
  else if addr =? 1 then mkSel (opc1 s) data (rn s) (rm s)
  else if addr =? 2 then mkSel (opc1 s) (opc2 s) data (rm s)
  else if addr =? 3 then mkSel (opc1 s) (opc2 s) (rn s) data
  else s.
Definition Write32 (addr data : Z) (c : ArmCoprocessor U) : result (bool * ArmCoprocessor U) :=
  if addr =? 4 then
    let writes1 := count_access (sel c) (writes c) in
    let* x := dispatch false data c in
    let '(done, _, u) := x in Ok (done, mkArm (sel c) (reads c) writes1 u)
  else Ok (true, mkArm (select addr data (sel c)) (reads c) (writes c) (unit_ c)).
End Dispatch.

(** ** Performance counters (PMU.cpp) *)

Definition MAX_PMU_COUNTERS : Z := 6.
(** A counter is known by its address; their values are part of the state. *)
Record PMU := mkPMU { ctlreg : Z; cur_ctr : Z; pmu_ctrs : list (option Z); counters : gmap Z Z }.
Definition new_PMU : PMU := mkPMU 0 0 (repeat None 6) ∅.

Section Counters.
(** The counters that are registered for events; null where there is none. *)
Variable pmu_events : Z -> option Z.
Definition reset_counters (l : list (option Z)) (m : gmap Z Z) : gmap Z Z :=
  fold_left (fun m c => match c with Some p => <[p := 0]> m | None => m end) l m.
Definition PMCR (rd : bool) (data : Z) (p : PMU) : answer PMU :=
  if rd then Ok (true, ctlreg p, p)
  else Ok (true, data, mkPMU data (cur_ctr p) (pmu_ctrs p) (if Z.land data 2 =? 2 then reset_counters (pmu_ctrs p) (counters p) else counters p)).
Definition PMSELR (rd : bool) (data : Z) (p : PMU) : answer PMU :=
  if rd then Ok (true, cur_ctr p, p)
  else Ok (true, data, mkPMU (ctlreg p) (if MAX_PMU_COUNTERS <=? data then 0 else data) (pmu_ctrs p) (counters p)).
Definition PMXEVTYPER (rd : bool) (data : Z) (p : PMU) : answer PMU :=
  if rd then Ok (false, data, p)
  else
    let* l := vec_set (pmu_ctrs p) (cur_ctr p) (pmu_events data) in
    Ok (true, data, mkPMU (ctlreg p) (cur_ctr p) l (counters p)).
Definition PMCNTENSET (rd : bool) (data : Z) (p : PMU) : answer PMU := Ok (true, data, p).
Definition PMCNTENCLR (rd : bool) (data : Z) (p : PMU) : answer PMU := Ok (true, data, p).
Definition CCNTVAL (rd : bool) (data : Z) (p : PMU) : answer PMU := if rd then Ok (true, 0, p) else Ok (false, data, p).
Definition PMNxVAL (rd : bool) (data : Z) (p : PMU) : answer PMU :=
  if rd then
    let* c := vec_get (pmu_ctrs p) (cur_ctr p) in
    Ok (true, match c with Some a => u32 (default 0 (counters p !! a)) | None => 0 end, p)
  else Ok (false, data, p).
(** What both coprocessors do for c9. *)
Definition pmu_access (s : selectors) (is_read : bool) (data : Z) (p : PMU) : answer PMU :=
  if negb (opc1 s =? 0) then Ok (false, data, p)
  else if rm s =? 12 then
    if opc2 s =? 0 then PMCR is_read data p
    else if opc2 s =? 1 then PMCNTENSET is_read data p
    else if opc2 s =? 2 then PMCNTENCLR is_read data p
    else if opc2 s =? 5 then PMSELR is_read data p
    else Ok (false, data, p)
  else if rm s =? 13 then
    if opc2 s =? 0 then CCNTVAL is_read data p
    else if opc2 s =? 1 then PMXEVTYPER is_read data p
    else if opc2 s =? 2 then PMNxVAL is_read data p
    else Ok (false, data, p)
  else Ok (false, data, p).
End Counters.

(** ** What both generations have *)

Record cp1_bits := mkCp1 { cp1_M : bool; cp1_S : bool; cp1_R : bool }.
Record fault_registers := mkFaults { fsr : Z; far : Z; ifsr : Z; ifar : Z; dfsr : Z; dfar : Z }.
Definition set_fsr (v : Z) (f : fault_registers) : fault_registers := mkFaults v (far f) (ifsr f) (ifar f) (dfsr f) (dfar f).
Definition set_far (v : Z) (f : fault_registers) : fault_registers := mkFaults (fsr f) v (ifsr f) (ifar f) (dfsr f) (dfar f).
Definition set_ifsr (v : Z) (f : fault_registers) : fault_registers := mkFaults (fsr f) (far f) v (ifar f) (dfsr f) (dfar f).
Definition set_ifar (v : Z) (f : fault_registers) : fault_registers := mkFaults (fsr f) (far f) (ifsr f) v (dfsr f) (dfar f).
Definition set_dfsr (v : Z) (f : fault_registers) : fault_registers := mkFaults (fsr f) (far f) (ifsr f) (ifar f) v (dfar f).
Definition set_dfar (v : Z) (f : fault_registers) : fault_registers := mkFaults (fsr f) (far f) (ifsr f) (ifar f) (dfsr f) v.
(** A register that is read or written. *)
Definition access_register {S} (get : S -> Z) (set : Z -> S -> S) (is_read : bool) (data : Z) (s : S) : answer S :=
  if is_read then Ok (true, get s, s) else Ok (true, data, set data s).
(** Whether an operation of c8 is known, after its flush. *)
Definition tlb_operation (rm_known : Z -> option (list PubSubType)) (s : selectors) (w : world) : bool * world :=
  match rm_known (rm s) with
  | Some l => ((opc2 s =? 0) || (opc2 s =? 1) || (opc2 s =? 2), Publish l w)
  | None => (false, w)
  end.
