(* ===== verification/ArmControl.v ===== *)
(** * The system control coprocessors of ARMv5 and ARMv6

    ArmControlCoprocessor.cpp and ArmControlCoprocessorv6.cpp, register by
    register, and what they promise: the second is a file of registers, keeps
    the enablement of the MMU in step with its control register, and publishes
    a flush with every change that translation depends on. *)

From Stdlib Require Import ZArith Lia List Bool String.
From stdpp Require Import base numbers list gmap strings.
From S2P Require Import Prelude ArmCoprocessor.
Import ListNotations.
#[local] Open Scope Z_scope.
#[local] Open Scope gensim_scope.

Section Units.
Variable pmu_events : Z -> option Z.

(** ** ARMv5 *)

Record ArmControlCoprocessor := mkV5 {
  v5_CACHE_SIZE_SELECTION : Z; v5_cp1 : cp1_bits; ttbr : Z; v5_dacr : Z; v5_faults : fault_registers; v5_pmu : PMU; v5_world : world }.
Definition v5_with_faults (f : fault_registers) (s : ArmControlCoprocessor) := mkV5 (v5_CACHE_SIZE_SELECTION s) (v5_cp1 s) (ttbr s) (v5_dacr s) f (v5_pmu s) (v5_world s).
Definition v5_with_world (w : world) (s : ArmControlCoprocessor) := mkV5 (v5_CACHE_SIZE_SELECTION s) (v5_cp1 s) (ttbr s) (v5_dacr s) (v5_faults s) (v5_pmu s) w.
Definition v5_publish (l : list PubSubType) (s : ArmControlCoprocessor) := v5_with_world (Publish l (v5_world s)) s.
(** Registers that the constructor leaves as they were are arguments. *)
Definition new_ArmControlCoprocessor (f : fault_registers) (w : world) : ArmControlCoprocessor :=
  mkV5 0 (mkCp1 false false false) 0 0xffffffff (set_fsr 0 (set_far 0 f)) new_PMU w.

(** The size of the cache that is selected. *)
Definition cache_size (selection : Z) : Z :=
  if selection =? 0 then 0xe007e01a else if selection =? 1 then 0x2007e01a else if selection =? 2 then 0xf0000000 else 0.
Definition v5_id (selection : Z) (s : selectors) : option Z :=
  match rm s, opc1 s, opc2 s with
  | 0, 0, 0 => Some 0x41069265 | 0, 0, 1 => Some 0x0f006006 | 0, 0, 2 => Some 0x00004004 | 0, 0, 3 => Some 0 | 0, 0, 5 => Some 0
  | 0, 1, 0 => Some (cache_size selection) | 0, 1, 1 => Some 0x0A000023
  | 0, 2, 0 => Some selection
  | 1, 0, 0 => Some 0x00001131 | 1, 0, 4 => Some 0x31100003 | 1, 0, 5 => Some 0x20000000
  | 2, 0, 0 => Some 0x00101111 | 2, 0, 3 => Some 0x11112131 | 2, 0, 5 => Some 0
  | _, _, _ => None
  end.
(** Writes give the data of a read. *)
Definition v5_access_cp0 (s : selectors) (is_read : bool) (data : Z) (c : ArmControlCoprocessor) : answer ArmControlCoprocessor :=
  if negb is_read && negb (rn s =? 0) && negb (rm s =? 0) && negb (opc1 s =? 2) && negb (opc2 s =? 0) then Ok (false, data, c)
  else let* v := of_option AssertFailed (v5_id (v5_CACHE_SIZE_SELECTION c) s) in Ok (true, v, c).
(** Reads and writes throw; a write does after it changed the unit. *)
Definition v5_access_cp1 (is_read : bool) (data : Z) (c : ArmControlCoprocessor) : answer ArmControlCoprocessor := Err NotImplemented.
Definition v5_access_cp2 (s : selectors) (is_read : bool) (data : Z) (c : ArmControlCoprocessor) : answer ArmControlCoprocessor :=
  if is_read then Ok (true, if opc2 s =? 0 then ttbr c else data, c)
  else if opc2 s =? 0 then Ok (true, data, v5_publish tlb_flush (mkV5 (v5_CACHE_SIZE_SELECTION c) (v5_cp1 c) data (v5_dacr c) (v5_faults c) (v5_pmu c) (v5_world c)))
  else Ok ((opc2 s =? 1) || (opc2 s =? 2), data, c).
Definition v5_access_cp3 (is_read : bool) (data : Z) (c : ArmControlCoprocessor) : answer ArmControlCoprocessor :=
  access_register v5_dacr (fun v c => mkV5 (v5_CACHE_SIZE_SELECTION c) (v5_cp1 c) (ttbr c) v (v5_faults c) (v5_pmu c) (v5_world c)) is_read data c.
Definition v5_fault_register (get : fault_registers -> Z) (set : Z -> fault_registers -> fault_registers) : bool -> Z -> ArmControlCoprocessor -> answer ArmControlCoprocessor :=
  access_register (fun c => get (v5_faults c)) (fun v c => v5_with_faults (set v (v5_faults c)) c).
Definition v5_access_cp5 (s : selectors) (is_read : bool) (data : Z) (c : ArmControlCoprocessor) : answer ArmControlCoprocessor :=
  if opc2 s =? 0 then v5_fault_register dfsr set_dfsr is_read data c
  else if opc2 s =? 1 then v5_fault_register ifsr set_ifsr is_read data c
  else Ok (true, data, c).
Definition v5_access_cp6 (s : selectors) (is_read : bool) (data : Z) (c : ArmControlCoprocessor) : answer ArmControlCoprocessor :=
  if opc2 s =? 0 then v5_fault_register dfar set_dfar is_read data c
  else if opc2 s =? 2 then v5_fault_register ifar set_ifar is_read data c
  else Ok (true, data, c).
(** What a cache operation publishes, if it is known. *)
Definition v5_cache_operation (rm opc2 : Z) : option (list PubSubType) :=
  match rm with
  | 0 => if opc2 =? 4 then Some [] else None
  | 5 => match opc2 with 0 | 1 | 2 => Some [L1ICacheFlush] | 4 | 6 | 7 => Some [] | _ => None end
  | 6 => match opc2 with 0 | 1 | 2 => Some [L1DCacheFlush] | _ => None end
  | 7 => match opc2 with 0 => Some [L1ICacheFlush; L1DCacheFlush; L2CacheFlush] | 1 | 2 => Some [L2CacheFlush] | _ => Some [] end
  | 10 => match opc2 with 0 | 1 | 2 | 3 | 4 | 5 => Some [] | _ => None end
  | 11 => match opc2 with 0 | 1 | 2 => Some [] | _ => None end
  | 13 => if opc2 =? 1 then Some [] else None
  | 14 => match opc2 with 0 | 1 | 2 | 3 => Some [] | _ => None end
  | 15 => if opc2 =? 3 then None else Some []
  | _ => None
  end.
Definition v5_access_cp7 (s : selectors) (is_read : bool) (data : Z) (c : ArmControlCoprocessor) : answer ArmControlCoprocessor :=
  let data := if is_read && (rm s =? 14) then Z.shiftl 1 30 else data in
  match v5_cache_operation (rm s) (opc2 s) with
  | Some l => Ok (true, data, v5_publish l c)
  | None => Ok (false, data, c)
  end.
Definition v5_tlb_flushes (rm : Z) : option (list PubSubType) := match rm with 7 => Some tlb_flush | 5 => Some [ITlbFullFlush] | 6 => Some [DTlbFullFlush] | _ => None end.
Definition v5_access_cp8 (s : selectors) (is_read : bool) (data : Z) (c : ArmControlCoprocessor) : answer ArmControlCoprocessor :=
  check* negb is_read or AssertFailed in
  let '(done, w) := tlb_operation v5_tlb_flushes s (v5_world c) in Ok (done, data, v5_with_world w c).
Definition v5_access_cp9 (s : selectors) (is_read : bool) (data : Z) (c : ArmControlCoprocessor) : answer ArmControlCoprocessor :=
  let* x := pmu_access pmu_events s is_read data (v5_pmu c) in
  let '(done, data, p) := x in Ok (done, data, mkV5 (v5_CACHE_SIZE_SELECTION c) (v5_cp1 c) (ttbr c) (v5_dacr c) (v5_faults c) p (v5_world c)).
Definition v5_access_cp10 (is_read : bool) (data : Z) (c : ArmControlCoprocessor) : answer ArmControlCoprocessor := Ok (false, data, c).
Definition v5_access_cp15 (is_read : bool) (data : Z) (c : ArmControlCoprocessor) : answer ArmControlCoprocessor := Ok (true, data, c).
#[export] Instance v5_unit : ArmUnit ArmControlCoprocessor := fun s cp is_read data c =>
  match cp with
  | 0 => v5_access_cp0 s is_read data c | 1 => v5_access_cp1 is_read data c | 2 => v5_access_cp2 s is_read data c | 3 => v5_access_cp3 is_read data c
  | 5 => v5_access_cp5 s is_read data c | 6 => v5_access_cp6 s is_read data c | 7 => v5_access_cp7 s is_read data c | 8 => v5_access_cp8 s is_read data c
  | 9 => v5_access_cp9 s is_read data c | 10 => v5_access_cp10 is_read data c | 15 => v5_access_cp15 is_read data c
  | _ => unhandled
  end.

(** ** ARMv6 *)

Record ArmControlCoprocessorv6 := mkV6 {
  CACHE_SIZE_SELECTION : Z; PRIMARY_REGION_REMAP : Z; NORMAL_REGION_REMAP : Z; cp1 : cp1_bits; sctl_word : Z; TRE : bool; AFE : bool; actlr : Z; cpacr : Z;
  ttbr0 : Z; ttbr1 : Z; ttbcr : Z; dacr : Z; faults : fault_registers; contextidr : Z; tpidrurw : Z; tpidruro : Z; tpidrprw : Z; pmu : PMU; around : world }.
Definition new_ArmControlCoprocessorv6 (tre afe : bool) (f : fault_registers) (ctx rw ro prw : Z) (w : world) : ArmControlCoprocessorv6 :=
  mkV6 0 0x00098AA4 0x44E048E0 (mkCp1 false false false) 0x00c50078 tre afe 0 0 0 0 0 0xffffffff (set_fsr 0 (set_far 0 f)) ctx rw ro prw new_PMU w.
Definition with_cache_selection v c := mkV6 v (PRIMARY_REGION_REMAP c) (NORMAL_REGION_REMAP c) (cp1 c) (sctl_word c) (TRE c) (AFE c) (actlr c) (cpacr c) (ttbr0 c) (ttbr1 c) (ttbcr c) (dacr c) (faults c) (contextidr c) (tpidrurw c) (tpidruro c) (tpidrprw c) (pmu c) (around c).
Definition with_remaps p n c := mkV6 (CACHE_SIZE_SELECTION c) p n (cp1 c) (sctl_word c) (TRE c) (AFE c) (actlr c) (cpacr c) (ttbr0 c) (ttbr1 c) (ttbcr c) (dacr c) (faults c) (contextidr c) (tpidrurw c) (tpidruro c) (tpidrprw c) (pmu c) (around c).
Definition with_sctl b w tre afe c := mkV6 (CACHE_SIZE_SELECTION c) (PRIMARY_REGION_REMAP c) (NORMAL_REGION_REMAP c) b w tre afe (actlr c) (cpacr c) (ttbr0 c) (ttbr1 c) (ttbcr c) (dacr c) (faults c) (contextidr c) (tpidrurw c) (tpidruro c) (tpidrprw c) (pmu c) (around c).
Definition with_actlr v c := mkV6 (CACHE_SIZE_SELECTION c) (PRIMARY_REGION_REMAP c) (NORMAL_REGION_REMAP c) (cp1 c) (sctl_word c) (TRE c) (AFE c) v (cpacr c) (ttbr0 c) (ttbr1 c) (ttbcr c) (dacr c) (faults c) (contextidr c) (tpidrurw c) (tpidruro c) (tpidrprw c) (pmu c) (around c).
Definition with_cpacr v c := mkV6 (CACHE_SIZE_SELECTION c) (PRIMARY_REGION_REMAP c) (NORMAL_REGION_REMAP c) (cp1 c) (sctl_word c) (TRE c) (AFE c) (actlr c) v (ttbr0 c) (ttbr1 c) (ttbcr c) (dacr c) (faults c) (contextidr c) (tpidrurw c) (tpidruro c) (tpidrprw c) (pmu c) (around c).
Definition with_tables t0 t1 tc d c := mkV6 (CACHE_SIZE_SELECTION c) (PRIMARY_REGION_REMAP c) (NORMAL_REGION_REMAP c) (cp1 c) (sctl_word c) (TRE c) (AFE c) (actlr c) (cpacr c) t0 t1 tc d (faults c) (contextidr c) (tpidrurw c) (tpidruro c) (tpidrprw c) (pmu c) (around c).
Definition with_faults f c := mkV6 (CACHE_SIZE_SELECTION c) (PRIMARY_REGION_REMAP c) (NORMAL_REGION_REMAP c) (cp1 c) (sctl_word c) (TRE c) (AFE c) (actlr c) (cpacr c) (ttbr0 c) (ttbr1 c) (ttbcr c) (dacr c) f (contextidr c) (tpidrurw c) (tpidruro c) (tpidrprw c) (pmu c) (around c).
Definition with_ids x rw ro prw c := mkV6 (CACHE_SIZE_SELECTION c) (PRIMARY_REGION_REMAP c) (NORMAL_REGION_REMAP c) (cp1 c) (sctl_word c) (TRE c) (AFE c) (actlr c) (cpacr c) (ttbr0 c) (ttbr1 c) (ttbcr c) (dacr c) (faults c) x rw ro prw (pmu c) (around c).
Definition with_pmu p c := mkV6 (CACHE_SIZE_SELECTION c) (PRIMARY_REGION_REMAP c) (NORMAL_REGION_REMAP c) (cp1 c) (sctl_word c) (TRE c) (AFE c) (actlr c) (cpacr c) (ttbr0 c) (ttbr1 c) (ttbcr c) (dacr c) (faults c) (contextidr c) (tpidrurw c) (tpidruro c) (tpidrprw c) p (around c).
Definition with_around w c := mkV6 (CACHE_SIZE_SELECTION c) (PRIMARY_REGION_REMAP c) (NORMAL_REGION_REMAP c) (cp1 c) (sctl_word c) (TRE c) (AFE c) (actlr c) (cpacr c) (ttbr0 c) (ttbr1 c) (ttbcr c) (dacr c) (faults c) (contextidr c) (tpidrurw c) (tpidruro c) (tpidrprw c) (pmu c) w.
Definition publish (l : list PubSubType) (c : ArmControlCoprocessorv6) : ArmControlCoprocessorv6 := with_around (Publish l (around c)) c.

Definition v6_id (selection : Z) (s : selectors) : option Z :=
  match rm s, opc1 s, opc2 s with
  | 0, 0, 0 => Some 0x410fc080 | 0, 0, 1 => Some 0x82048004 | 0, 0, 2 => Some 0 | 0, 0, 3 => Some 0 | 0, 0, 5 => Some 0
  | 0, 1, 0 => Some (cache_size selection) | 0, 1, 1 => Some (Z.lor (Z.lor (Z.shiftl 1 27) (Z.shiftl 2 24)) 3)
  | 0, 2, 0 => Some selection
  | 1, 0, 0 => Some 0x00001031 | 1, 0, 4 => Some 0x31100003 | 1, 0, 5 => Some 0x20000000 | 1, 0, 7 => Some 0x00000011
  | 2, 0, 0 => Some 0x00101111 | 2, 0, 3 => Some 0x11112131 | 2, 0, 5 => Some 0
  | _, _, _ => None
  end.
Definition access_cp0 (s : selectors) (is_read : bool) (data : Z) (c : ArmControlCoprocessorv6) : answer ArmControlCoprocessorv6 :=
  if is_read then let* v := of_option AssertFailed (v6_id (CACHE_SIZE_SELECTION c) s) in Ok (true, v, c)
  else
    check* (rm s =? 0) && (opc1 s =? 2) && (opc2 s =? 0) or AssertFailed in
    Ok (true, data, with_cache_selection data c).
(** What is kept of a write to the control register. *)
Definition sctl_of (data : Z) : Z := Z.land (Z.lor data 0xc50070) 0x7be77cff.
Definition write_sctl (data : Z) (c : ArmControlCoprocessorv6) : ArmControlCoprocessorv6 :=
  let w := set_V (bit data 13) (set_enabled (bit data 0) (around c)) in
  with_around w (with_sctl (mkCp1 (bit data 0) (bit data 8) (bit data 9)) (sctl_of data) (bit data 28) (bit data 29) c).
(** The levels of the features that the access register gives. *)
Definition fpu_level (cpacr : Z) : Z := let fp := Z.shiftr cpacr 20 in if fp =? 0 then 0 else if fp =? 5 then 1 else 2.
Definition neon_level (cpacr : Z) : Z := if negb (Z.shiftr cpacr 31 =? 0) then 0 else 1.
Definition write_cpacr (data : Z) (c : ArmControlCoprocessorv6) : ArmControlCoprocessorv6 :=
  with_around (SetFeatureLevel "ARM_NEON_ENABLED_CPACR" (neon_level data) (SetFeatureLevel "ARM_FPU_ENABLED_CPACR" (fpu_level data) (around c))) (with_cpacr data c).
Definition access_cp1 (s : selectors) (is_read : bool) (data : Z) (c : ArmControlCoprocessorv6) : answer ArmControlCoprocessorv6 :=
  check* rm s =? 0 or AssertFailed in
  match opc2 s with
  | 0 => access_register sctl_word write_sctl is_read data c
  | 1 => access_register actlr with_actlr is_read data c
  | 2 => access_register cpacr write_cpacr is_read data c
  | _ => Err AssertFailed
  end.
Definition access_cp2 (s : selectors) (is_read : bool) (data : Z) (c : ArmControlCoprocessorv6) : answer ArmControlCoprocessorv6 :=
  if is_read then
    Ok (true, if (rm s =? 0) && (opc1 s =? 0) then match opc2 s with 0 => ttbr0 c | 1 => ttbr1 c | 2 => ttbcr c | _ => data end else data, c)
  else
    match opc2 s with
    | 0 => Ok (true, data, publish tlb_flush (with_tables data (ttbr1 c) (ttbcr c) (dacr c) c))
    | 1 => Ok (true, data, publish tlb_flush (with_tables (ttbr0 c) data (ttbcr c) (dacr c) c))
    | 2 => Ok (true, data, publish tlb_flush (with_tables (ttbr0 c) (ttbr1 c) data (dacr c) c))
    | _ => Ok (false, data, c)
    end.
Definition write_dacr (data : Z) (c : ArmControlCoprocessorv6) : ArmControlCoprocessorv6 :=
  let c1 := if negb (dacr c =? data) then publish tlb_flush c else c in with_tables (ttbr0 c1) (ttbr1 c1) (ttbcr c1) data c1.
Definition access_cp3 (is_read : bool) (data : Z) (c : ArmControlCoprocessorv6) : answer ArmControlCoprocessorv6 := access_register dacr write_dacr is_read data c.
Definition fault_register (get : fault_registers -> Z) (set : Z -> fault_registers -> fault_registers) : bool -> Z -> ArmControlCoprocessorv6 -> answer ArmControlCoprocessorv6 :=
  access_register (fun c => get (faults c)) (fun v c => with_faults (set v (faults c)) c).
Definition access_cp5 (s : selectors) (is_read : bool) (data : Z) (c : ArmControlCoprocessorv6) : answer ArmControlCoprocessorv6 :=
  check* rm s =? 0 or AssertFailed in
  match opc2 s with
  | 0 => fault_register dfsr set_dfsr is_read data c
  | 1 => fault_register ifsr set_ifsr is_read data c
  | _ => Err AssertFailed
  end.
Definition access_cp6 (s : selectors) (is_read : bool) (data : Z) (c : ArmControlCoprocessorv6) : answer ArmControlCoprocessorv6 :=
  match opc2 s with
  | 0 => fault_register dfar set_dfar is_read data c
  | 2 => fault_register ifar set_ifar is_read data c
  | _ => Err AssertFailed
  end.
Definition v6_cache_operation (rm opc2 : Z) : option (list PubSubType) :=
  match rm, opc2 with
  | 1, 0 => Some [L1ICacheFlush] | 1, 6 => Some []
  | 5, 0 | 5, 1 => Some [L1ICacheFlush] | 5, 4 | 5, 6 | 5, 7 => Some []
  | 6, 1 | 6, 2 => Some [L1DCacheFlush]
  | 10, 1 | 10, 2 => Some [L1DCacheFlush] | 10, 4 | 10, 5 => Some []
  | 11, 1 => Some [L1DCacheFlush]
  | 14, 1 | 14, 2 => Some [L1DCacheFlush]
  | _, _ => None
  end.
Definition access_cp7 (s : selectors) (is_read : bool) (data : Z) (c : ArmControlCoprocessorv6) : answer ArmControlCoprocessorv6 :=
  check* (opc1 s =? 0) && negb is_read or AssertFailed in
  let* l := of_option AssertFailed (v6_cache_operation (rm s) (opc2 s)) in
  Ok (true, data, publish l c).
Definition v6_tlb_flushes (rm : Z) : option (list PubSubType) := match rm with 3 | 7 => Some tlb_flush | 5 => Some [ITlbFullFlush] | 6 => Some [DTlbFullFlush] | _ => None end.
Definition access_cp8 (s : selectors) (is_read : bool) (data : Z) (c : ArmControlCoprocessorv6) : answer ArmControlCoprocessorv6 :=
  check* negb is_read or AssertFailed in
  let '(done, w) := tlb_operation v6_tlb_flushes s (around c) in Ok (done, data, with_around w c).
Definition access_cp9 (s : selectors) (is_read : bool) (data : Z) (c : ArmControlCoprocessorv6) : answer ArmControlCoprocessorv6 :=
  let* x := pmu_access pmu_events s is_read data (pmu c) in
  let '(done, data, p) := x in Ok (done, data, with_pmu p c).
(** A read stores and a write loads. *)
Definition access_cp10 (s : selectors) (is_read : bool) (data : Z) (c : ArmControlCoprocessorv6) : answer ArmControlCoprocessorv6 :=
  if (rm s =? 2) && (opc1 s =? 0) then
    match opc2 s with
    | 0 => if is_read then Ok (true, data, with_remaps data (NORMAL_REGION_REMAP c) c) else Ok (true, PRIMARY_REGION_REMAP c, c)
    | 1 => if is_read then Ok (true, data, with_remaps (PRIMARY_REGION_REMAP c) data c) else Ok (true, NORMAL_REGION_REMAP c, c)
    | _ => Ok (false, data, c)
    end
  else Ok (false, data, c).
Definition access_cp13 (s : selectors) (is_read : bool) (data : Z) (c : ArmControlCoprocessorv6) : answer ArmControlCoprocessorv6 :=
  check* (opc1 s =? 0) && (rm s =? 0) or AssertFailed in
  match opc2 s with
  | 1 => access_register contextidr (fun v c => publish tlb_flush (with_ids v (tpidrurw c) (tpidruro c) (tpidrprw c) c)) is_read data c
  | 2 => access_register tpidrurw (fun v c => with_ids (contextidr c) v (tpidruro c) (tpidrprw c) c) is_read data c
  | 3 => access_register tpidruro (fun v c => with_ids (contextidr c) (tpidrurw c) v (tpidrprw c) c) is_read data c
  | 4 => access_register tpidrprw (fun v c => with_ids (contextidr c) (tpidrurw c) (tpidruro c) v c) is_read data c
  | _ => Err AssertFailed
  end.
Definition access_cp15 (is_read : bool) (data : Z) (c : ArmControlCoprocessorv6) : answer ArmControlCoprocessorv6 := Ok (true, data, c).
#[export] Instance v6_unit : ArmUnit ArmControlCoprocessorv6 := fun s cp is_read data c =>
  match cp with
  | 0 => access_cp0 s is_read data c | 1 => access_cp1 s is_read data c | 2 => access_cp2 s is_read data c | 3 => access_cp3 is_read data c
  | 5 => access_cp5 s is_read data c | 6 => access_cp6 s is_read data c | 7 => access_cp7 s is_read data c | 8 => access_cp8 s is_read data c
  | 9 => access_cp9 s is_read data c | 10 => access_cp10 s is_read data c | 13 => access_cp13 s is_read data c | 15 => access_cp15 is_read data c
  | _ => unhandled
  end.
End Units.

(** ** A file of registers *)

(** The registers of ARMv6 that can be read and written. *)
Inductive creg := CSSELR | SCTLR | ACTLR | CPACR | TTBR0 | TTBR1 | TTBCR | DACR | DFSR | IFSR | DFAR | IFAR | CONTEXTIDR | TPIDRURW | TPIDRURO | TPIDRPRW.
#[export] Instance creg_eq_dec : EqDecision creg.
Proof. solve_decision. Defined.
Definition selectors_of (r : creg) : selectors :=
  match r with
  | CSSELR => mkSel 2 0 0 0 | SCTLR => mkSel 0 0 1 0 | ACTLR => mkSel 0 1 1 0 | CPACR => mkSel 0 2 1 0
  | TTBR0 => mkSel 0 0 2 0 | TTBR1 => mkSel 0 1 2 0 | TTBCR => mkSel 0 2 2 0 | DACR => mkSel 0 0 3 0
  | DFSR => mkSel 0 0 5 0 | IFSR => mkSel 0 1 5 0 | DFAR => mkSel 0 0 6 0 | IFAR => mkSel 0 2 6 0
  | CONTEXTIDR => mkSel 0 1 13 0 | TPIDRURW => mkSel 0 2 13 0 | TPIDRURO => mkSel 0 3 13 0 | TPIDRPRW => mkSel 0 4 13 0
  end.
Definition held (c : ArmControlCoprocessorv6) (r : creg) : Z :=
  match r with
  | CSSELR => CACHE_SIZE_SELECTION c | SCTLR => sctl_word c | ACTLR => actlr c | CPACR => cpacr c
  | TTBR0 => ttbr0 c | TTBR1 => ttbr1 c | TTBCR => ttbcr c | DACR => dacr c
  | DFSR => dfsr (faults c) | IFSR => ifsr (faults c) | DFAR => dfar (faults c) | IFAR => ifar (faults c)
  | CONTEXTIDR => contextidr c | TPIDRURW => tpidrurw c | TPIDRURO => tpidruro c | TPIDRPRW => tpidrprw c
  end.
(** What a write leaves in the register. *)
Definition kept (r : creg) (data : Z) : Z := match r with SCTLR => sctl_of data | _ => data end.
(** The accesses of a guest instruction: the selectors, then the data. *)
Definition choose {U} (s : selectors) (c : ArmCoprocessor U) : ArmCoprocessor U :=
  mkArm (select 3 (rm s) (select 2 (rn s) (select 1 (opc2 s) (select 0 (opc1 s) (sel c))))) (reads c) (writes c) (unit_ c).

Section Files.
Variable pmu_events : Z -> option Z.
#[local] Existing Instance v6_unit.
#[local] Instance unit6 : ArmUnit ArmControlCoprocessorv6 := v6_unit pmu_events.
Abbreviation machine := (ArmCoprocessor ArmControlCoprocessorv6).
Implicit Types (c : machine) (u : ArmControlCoprocessorv6).

Definition mcr (s : selectors) (data : Z) c : result (bool * machine) :=
  let* x0 := Write32 0 (opc1 s) c in
  let* x1 := Write32 1 (opc2 s) (snd x0) in
  let* x2 := Write32 2 (rn s) (snd x1) in
  let* x3 := Write32 3 (rm s) (snd x2) in
  Write32 4 data (snd x3).
Definition mrc (s : selectors) c : answer machine :=
  let* x0 := Write32 0 (opc1 s) c in
  let* x1 := Write32 1 (opc2 s) (snd x0) in
  let* x2 := Write32 2 (rn s) (snd x1) in
  let* x3 := Write32 3 (rm s) (snd x2) in
  Read32 4 (snd x3).
Inductive creg_op := CWrite (r : creg) (data : Z) | CRead (r : creg).
Fixpoint run_cregs (ops : list creg_op) c : result (list Z * machine) :=
  match ops with
  | [] => Ok ([], c)
  | CWrite r data :: rest => let* x := mcr (selectors_of r) data c in run_cregs rest (snd x)
  | CRead r :: rest =>
      let* x := mrc (selectors_of r) c in
      let* y := run_cregs rest (snd x) in
      Ok (snd (fst x) :: fst y, snd y)
  end.
(** The same on a function from registers to values. *)
Definition update (r : creg) (v : Z) (f : creg -> Z) : creg -> Z := fun q => if decide (q = r) then v else f q.
Fixpoint values (ops : list creg_op) (f : creg -> Z) : list Z * (creg -> Z) :=
  match ops with
  | [] => ([], f)
  | CWrite r data :: rest => values rest (update r (kept r data) f)
  | CRead r :: rest => let x := values rest f in (f r :: fst x, snd x)
  end.
Lemma mcr_register r data c : exists c1, mcr (selectors_of r) data c = Ok (true, c1) /\ forall q, held (unit_ c1) q = update r (kept r data) (held (unit_ c)) q.
Proof.
  unfold mcr. destruct c as [[o1 o2 n m] rd wr u]. destruct r; (eexists; split; [reflexivity |]; intros q; destruct q; try reflexivity).
  all: unfold update; cbn [unit_ kept]; destruct (decide _); try discriminate; try contradiction; cbn; unfold write_dacr; destruct (negb _); reflexivity.
Qed.
Lemma mrc_register r c : exists c1, mrc (selectors_of r) c = Ok (true, held (unit_ c) r, c1) /\ unit_ c1 = unit_ c.
Proof. unfold mrc. destruct c as [[o1 o2 n m] rd wr u]. destruct r; (eexists; split; reflexivity). Qed.
Lemma values_ext ops : forall f g, (forall q, f q = g q) -> fst (values ops f) = fst (values ops g) /\ forall q, snd (values ops f) q = snd (values ops g) q.
Proof.
  induction ops as [| [r data | r] rest IH]; intros f g E; cbn [values fst snd]; [auto | |].
  - apply IH. intros q. unfold update. destruct (decide _); auto.
  - destruct (IH f g E) as [E1 E2]. split; [now rewrite E, E1 | exact E2].
Qed.
(** C24. The control coprocessor of ARMv6 is a file of its
    registers, whatever else its state holds: guest instructions that write
    and read them, in any order, always succeed; every read gives what the
    last write of that register keeps, and a write changes no other. *)
Theorem coprocessor_is_register_file ops c :
  exists c1, run_cregs ops c = Ok (fst (values ops (held (unit_ c))), c1) /\ forall r, held (unit_ c1) r = snd (values ops (held (unit_ c))) r.
Proof.
  revert c. induction ops as [| [r data | r] rest IH]; intros c; cbn [run_cregs values fst snd]; [now exists c | |].
  - destruct (mcr_register r data c) as (c1 & -> & H1). cbn [rbind snd]. destruct (IH c1) as (c2 & E2 & H2). destruct (values_ext rest _ _ H1) as [V1 V2]. exists c2. split; [now rewrite E2, V1 | intros q; now rewrite H2, V2].
  - destruct (mrc_register r c) as (c1 & -> & H1). cbn [rbind fst snd]. destruct (IH c1) as (c2 & E2 & H2). rewrite H1 in E2, H2. exists c2. split; [now rewrite E2 | exact H2].
Qed.
End Files.

(** ** Enablement of the MMU, and flushes *)

(** What address translation depends on. *)
Definition same_translation (u u1 : ArmControlCoprocessorv6) : Prop :=
  should_be_enabled (around u1) = should_be_enabled (around u) /\ ttbr0 u1 = ttbr0 u /\ dacr u1 = dacr u.
Definition flushed (l : list PubSubType) : Prop := In ITlbFullFlush l /\ In DTlbFullFlush l.
Definition enabled_in_step (u : ArmControlCoprocessorv6) : Prop := should_be_enabled (around u) = bit (sctl_word u) 0 /\ cp1_M (cp1 u) = bit (sctl_word u) 0.
Record safe_step (u u1 : ArmControlCoprocessorv6) : Prop := mkSafe {
  step_flushes : exists l, published (around u1) = published (around u) ++ l /\ (same_translation u u1 \/ flushed l);
  step_enabled : enabled_in_step u -> enabled_in_step u1 }.
Lemma flushed_tlb : flushed tlb_flush.
Proof. split; cbn; auto. Qed.
Lemma safe_refl u : safe_step u u.
Proof. split; [exists []; rewrite app_nil_r; split; [reflexivity | left; repeat split] | auto]. Qed.
(** A step that leaves translation and the control register alone. *)
Lemma safe_quiet u u1 l : published (around u1) = published (around u) ++ l -> same_translation u u1 -> sctl_word u1 = sctl_word u -> cp1 u1 = cp1 u -> safe_step u u1.
Proof. intros Hp Hs Hw Hc. split; [exists l; auto |]. unfold enabled_in_step. rewrite Hw, Hc, (proj1 Hs). auto. Qed.
Lemma safe_flush u u1 : published (around u1) = published (around u) ++ tlb_flush -> should_be_enabled (around u1) = should_be_enabled (around u) -> sctl_word u1 = sctl_word u -> cp1 u1 = cp1 u -> safe_step u u1.
Proof. intros Hp He Hw Hc. split; [exists tlb_flush; split; [exact Hp | right; exact flushed_tlb] |]. unfold enabled_in_step. rewrite Hw, Hc, He. auto. Qed.
Lemma bit_testbit data i : 0 <= i -> bit data i = Z.testbit data i.
Proof.
  intros Hi. unfold bit. rewrite Z.shiftl_mul_pow2, Z.mul_1_l by lia. destruct (Z.eqb_spec (Z.land data (2 ^ i)) 0) as [E | E]; cbn [negb].
  - assert (T : Z.testbit (Z.land data (2 ^ i)) i = false) by now rewrite E, Z.bits_0. rewrite Z.land_spec, Z.pow2_bits_true, andb_true_r in T by lia. auto.
  - destruct (Z.testbit data i) eqn:T; [reflexivity |]. exfalso. apply E. apply Z.bits_inj'. intros k Hk. rewrite Z.land_spec, Z.bits_0, Z.pow2_bits_eqb by lia. destruct (Z.eqb_spec i k) as [<- |]; [now rewrite T | now rewrite andb_false_r].
Qed.
Lemma sctl_of_M data : bit (sctl_of data) 0 = bit data 0.
Proof. rewrite !bit_testbit by lia. unfold sctl_of. rewrite Z.land_spec, Z.lor_spec. change (Z.testbit 0xc50070 0) with false. change (Z.testbit 0x7be77cff 0) with true. now rewrite orb_false_r, andb_true_r. Qed.
Lemma set_enabled_spec b w : should_be_enabled (set_enabled b w) = b /\ exists l, published (set_enabled b w) = published w ++ l /\ (should_be_enabled w = b \/ flushed l).
Proof.
  unfold set_enabled. destruct (Bool.eqb b (should_be_enabled w)) eqn:E.
  - apply Bool.eqb_prop in E. split; [auto |]. exists []. rewrite app_nil_r. auto.
  - split; [reflexivity |]. exists tlb_flush. split; [reflexivity | right; exact flushed_tlb].
Qed.
Lemma write_sctl_safe data u : safe_step u (write_sctl data u).
Proof.
  destruct (set_enabled_spec (bit data 0) (around u)) as [E (l & P & F)]. split.
  - exists l. split; [exact P |]. destruct F as [F | F]; [left; repeat split; now rewrite F | right; exact F].
  - intros _. unfold enabled_in_step. cbn. rewrite sctl_of_M. split; [exact E | reflexivity].
Qed.
Lemma write_dacr_safe data u : safe_step u (write_dacr data u).
Proof.
  unfold write_dacr. destruct (Z.eqb_spec (dacr u) data) as [E | E]; cbn [negb].
  - apply (safe_quiet _ _ []); cbn; rewrite ?app_nil_r; auto. split; auto.
  - apply safe_flush; reflexivity.
Qed.

Section Safety.
Variable pmu_events : Z -> option Z.
#[local] Instance unit_v6 : ArmUnit ArmControlCoprocessorv6 := v6_unit pmu_events.
Implicit Types u : ArmControlCoprocessorv6.

Lemma access_register_safe get set is_read data u : (forall v, safe_step u (set v u)) -> forall x, access_register get set is_read data u = Ok x -> safe_step u (snd x).
Proof. intros Hs x. unfold access_register. destruct is_read; intros [= <-]; [apply safe_refl | apply Hs]. Qed.
Ltac quiet := solve [apply (safe_quiet _ _ []); cbn; rewrite ?app_nil_r; auto; repeat split].
Lemma access_cp1_safe s is_read data u x : access_cp1 s is_read data u = Ok x -> safe_step u (snd x).
Proof.
  unfold access_cp1. destruct (rm s =? 0); [| discriminate]. destruct (opc2 s) as [| [[] | [] |] |]; try discriminate; apply access_register_safe; intros v; [apply write_sctl_safe | quiet | quiet].
Qed.
Lemma access_cp2_safe s is_read data u x : access_cp2 s is_read data u = Ok x -> safe_step u (snd x).
Proof.
  unfold access_cp2. destruct is_read; [intros [= <-]; apply safe_refl |]. destruct (opc2 s) as [| [[] | [] |] |]; intros [= <-]; cbn [snd]; try apply safe_refl; apply safe_flush; reflexivity.
Qed.
Lemma access_cp13_safe s is_read data u x : access_cp13 s is_read data u = Ok x -> safe_step u (snd x).
Proof.
  unfold access_cp13. destruct (_ && _); [| discriminate]. destruct (opc2 s) as [| [[[] | [] |] | [[] | [] |] |] |]; try discriminate; apply access_register_safe; intros v; try quiet. apply safe_flush; reflexivity.
Qed.
Lemma access_safe s cp is_read data u x : access_cp s cp is_read data u = Ok x -> safe_step u (snd x).
Proof.
  unfold access_cp, unit_v6, v6_unit.
  assert (C0 : access_cp0 s is_read data u = Ok x -> safe_step u (snd x)).
  { unfold access_cp0. destruct is_read; [destruct (v6_id _ s); cbn; intros [= <-]; apply safe_refl |]. destruct (_ && _); intros [= <-]. quiet. }
  assert (C3 : access_cp3 is_read data u = Ok x -> safe_step u (snd x)) by (apply access_register_safe; intros v; apply write_dacr_safe).
  assert (C5 : access_cp5 s is_read data u = Ok x -> safe_step u (snd x)).
  { unfold access_cp5. destruct (rm s =? 0); [| discriminate]. destruct (opc2 s) as [| [] |]; try discriminate; apply access_register_safe; intros v; quiet. }
  assert (C6 : access_cp6 s is_read data u = Ok x -> safe_step u (snd x)).
  { unfold access_cp6. destruct (opc2 s) as [| [[] | [] |] |]; try discriminate; apply access_register_safe; intros v; quiet. }
  assert (C7 : access_cp7 s is_read data u = Ok x -> safe_step u (snd x)).
  { unfold access_cp7. destruct (_ && _); [| discriminate]. destruct (v6_cache_operation _ _) as [l |]; cbn; intros [= <-]. apply (safe_quiet _ _ l); cbn; auto; repeat split. }
  assert (C8 : access_cp8 s is_read data u = Ok x -> safe_step u (snd x)).
  { unfold access_cp8, tlb_operation. destruct (negb is_read); [| discriminate]. destruct (v6_tlb_flushes (rm s)) as [l |]; intros [= <-]; [apply (safe_quiet _ _ l) | apply (safe_quiet _ _ [])]; cbn; rewrite ?app_nil_r; auto; repeat split. }
  assert (C9 : access_cp9 pmu_events s is_read data u = Ok x -> safe_step u (snd x)).
  { unfold access_cp9. destruct (pmu_access _ _ _ _ _) as [[[done d] p] |]; cbn; intros [= <-]. quiet. }
  assert (C10 : access_cp10 s is_read data u = Ok x -> safe_step u (snd x)).
  { unfold access_cp10. destruct (_ && _); [| intros [= <-]; apply safe_refl]. destruct (opc2 s) as [| [] |]; destruct is_read; intros [= <-]; try apply safe_refl; quiet. }
  assert (C15 : access_cp15 is_read data u = Ok x -> safe_step u (snd x)) by (intros [= <-]; apply safe_refl).
  pose proof (access_cp1_safe s is_read data u x) as C1. pose proof (access_cp2_safe s is_read data u x) as C2. pose proof (access_cp13_safe s is_read data u x) as C13.
  destruct cp as [| [[[[] | [] |] | [[] | [] |] |] | [[[] | [] |] | [[] | [] |] |] |] |]; auto; try discriminate.
Qed.

(** Accesses of the guest to the device, one after the other. *)
Inductive guest_access := GRead (addr : Z) | GWrite (addr data : Z).
Definition guest_step (a : guest_access) (c : ArmCoprocessor ArmControlCoprocessorv6) : result (ArmCoprocessor ArmControlCoprocessorv6) :=
  match a with GRead addr => rmap snd (Read32 addr c) | GWrite addr data => rmap snd (Write32 addr data c) end.
Fixpoint guest_run (l : list guest_access) (c : ArmCoprocessor ArmControlCoprocessorv6) : result (ArmCoprocessor ArmControlCoprocessorv6) :=
  match l with [] => Ok c | a :: r => let* c1 := guest_step a c in guest_run r c1 end.
Lemma flushed_app l1 l2 : flushed l1 \/ flushed l2 -> flushed (l1 ++ l2).
Proof. intros [[H1 H2] | [H1 H2]]; split; apply in_or_app; auto. Qed.
Lemma safe_trans u u1 u2 : safe_step u u1 -> safe_step u1 u2 -> safe_step u u2.
Proof.
  intros [(l1 & P1 & F1) E1] [(l2 & P2 & F2) E2]. split; [| auto]. exists (l1 ++ l2). split; [now rewrite P2, P1, app_assoc |].
  destruct F1 as [(A1 & A2 & A3) | F1]; [| right; apply flushed_app; auto]. destruct F2 as [(B1 & B2 & B3) | F2]; [left; repeat split; congruence | right; apply flushed_app; auto].
Qed.
Lemma dispatch_safe is_read data c x : dispatch is_read data c = Ok x -> safe_step (unit_ c) (snd x).
Proof. unfold dispatch. destruct (rn (sel c) <? 16); [apply access_safe | discriminate]. Qed.
Lemma guest_step_safe a c c1 : guest_step a c = Ok c1 -> safe_step (unit_ c) (unit_ c1).
Proof.
  destruct a as [addr | addr data]; cbn [guest_step]; unfold Read32, Write32.
  - destruct (addr =? 4); [| discriminate]. destruct (dispatch true 0 c) as [[[done d] u] |] eqn:E; [| discriminate]. cbn. intros [= <-]. exact (dispatch_safe _ _ _ _ E).
  - destruct (addr =? 4); [| cbn; intros [= <-]; apply safe_refl]. destruct (dispatch false data c) as [[[done d] u] |] eqn:E; [| discriminate]. cbn. intros [= <-]. exact (dispatch_safe _ _ _ _ E).
Qed.
Lemma guest_run_safe l : forall c c1, guest_run l c = Ok c1 -> safe_step (unit_ c) (unit_ c1).
Proof.
  induction l as [| a r IH]; intros c c1 E; cbn [guest_run] in E; [injection E as <-; apply safe_refl |]. bind_inv E. exact (safe_trans _ _ _ (guest_step_safe _ _ _ E0) (IH _ _ E)).
Qed.
Lemma new_in_step tre afe f ctx rw ro prw w : should_be_enabled w = false -> enabled_in_step (new_ArmControlCoprocessorv6 tre afe f ctx rw ro prw w).
Proof. intros E. unfold enabled_in_step. cbn. rewrite E. split; reflexivity. Qed.
End Safety.

(** What ARMv5 keeps from its guest: the MMU writes fault registers that c5 and
    c6 do not read. *)
Lemma v5_faults_invisible v w s data c : let c1 := v5_with_faults (set_far v (set_fsr w (v5_faults c))) c in
  rmap fst (v5_access_cp5 s true data c1) = rmap fst (v5_access_cp5 s true data c) /\ rmap fst (v5_access_cp6 s true data c1) = rmap fst (v5_access_cp6 s true data c).
Proof. cbn zeta. unfold v5_access_cp5, v5_access_cp6. destruct (opc2 s =? 0), (opc2 s =? 1), (opc2 s =? 2); split; reflexivity. Qed.
(** A read of a remap register of ARMv6 clears it. *)
Lemma remap_read_clears pmu_events s c : rm s = 2 -> opc1 s = 0 -> opc2 s = 0 ->
  access_cp (ArmUnit := v6_unit pmu_events) s 10 true 0 c = Ok (true, 0, with_remaps 0 (NORMAL_REGION_REMAP c) c).
Proof. intros E1 E2 E3. cbn. unfold access_cp10. now rewrite E1, E2, E3. Qed.
