(* ===== verification/ArmMMU.v ===== *)
(** * The ARM MMUs (ARM926EJS-MMU.cpp, ARMv6-MMU.cpp)

    Descriptors, permission checks, translation and the report of faults to
    the control coprocessor, for both generations; the tables they walk, and
    how far Translate and GetInfo agree. *)

From Stdlib Require Import ZArith Lia List Bool String.
From stdpp Require Import base numbers list gmap.
From S2P Require Import Prelude RiscvMMU ArmCoprocessor ArmControl.
Import ListNotations.
#[local] Open Scope Z_scope.
#[local] Open Scope gensim_scope.

(** The results the walks give; TXLN_FAULT_OTHER stands only where the code
    then asserts, or is overwritten. *)
Inductive ArmResult := TXLN_OK | TXLN_FAULT_SECTION | TXLN_FAULT_PAGE | TXLN_ACCESS_DOMAIN_SECTION | TXLN_ACCESS_DOMAIN_PAGE | TXLN_ACCESS_PERMISSION_SECTION | TXLN_ACCESS_PERMISSION_PAGE.
#[export] Instance ArmResult_eq_dec : EqDecision ArmResult.
Proof. solve_decision. Defined.
(** The bits of the fault status register for a result. *)
Definition fault_bits (r : ArmResult) : option Z :=
  match r with
  | TXLN_OK => None
  | TXLN_FAULT_SECTION => Some 0x5 | TXLN_FAULT_PAGE => Some 0x7
  | TXLN_ACCESS_DOMAIN_SECTION => Some 0x9 | TXLN_ACCESS_DOMAIN_PAGE => Some 0xb
  | TXLN_ACCESS_PERMISSION_SECTION => Some 0xd | TXLN_ACCESS_PERMISSION_PAGE => Some 0xf
  end.
(** A result with the physical address that is stored. *)
Definition translation : Type := ArmResult * Z.
Definition canary : Z := 0xf0f0f0f0.
(** The two bits of a domain in the domain access control register. *)
Definition domain_access (dacr domain : Z) : Z := Z.land (Z.shiftr dacr (domain * 2)) 3.

(** ** Descriptors *)

Inductive l1_type := L1_FAULT | L1_Coarse | L1_Section | L1_Fine.
Inductive l2_type := L2_FAULT | L2_Large | L2_Small.
(** The attributes that nothing reads are left out. *)
Record tx_l1_descriptor := mkL1 { l1_Type : l1_type; l1_BaseAddr : Z; l1_Domain : Z; l1_AP : Z; l1_XN : bool }.
Record tx_l2_descriptor := mkL2 { l2_Type : l2_type; l2_base_addr : Z; l2_ap : Z; l2_xn : bool }.

Definition v5_ConstructL1 (data : Z) : tx_l1_descriptor :=
  match Z.land data 3 with
  | 1 => mkL1 L1_Coarse (Z.land data 0xfffffc00) (Z.land (Z.shiftr data 5) 0xf) 0 false
  | 2 => mkL1 L1_Section (Z.land data 0xfff00000) (Z.land (Z.shiftr data 5) 0xf) (Z.shiftr (Z.land data 0xc00) 10) false
  | 3 => mkL1 L1_Fine (Z.land data 0xfffff000) (Z.land (Z.shiftr data 5) 0xf) 0 false
  | _ => mkL1 L1_FAULT 0 0 0 false
  end.
(** Of the four permissions of a page only the first is looked at. *)
Definition v5_ConstructL2 (data : Z) : result tx_l2_descriptor :=
  match Z.land data 3 with
  | 0 => Ok (mkL2 L2_FAULT 0 0 false)
  | 1 => Ok (mkL2 L2_Large (Z.land data 0xffff0000) (Z.shiftr (Z.land data 0x030) 4) false)
  | 2 => Ok (mkL2 L2_Small (Z.land data 0xfffff000) (Z.shiftr (Z.land data 0x030) 4) false)
  | _ => Err AssertFailed
  end.
(** The bit that is taken for the one of supersections is that of pages which
    are not global. *)
Definition v6_ConstructL1 (data : Z) : result tx_l1_descriptor :=
  match Z.land data 3 with
  | 1 => Ok (mkL1 L1_Coarse (Z.land data 0xfffffc00) (Z.land (Z.shiftr data 5) 0xf) 0 false)
  | 2 =>
      let supersection := Z.land (Z.shiftr data 17) 1 in
      let apx := Z.land (Z.shiftr data 15) 1 in
      check* supersection =? 0 or AssertFailed in
      Ok (mkL1 L1_Section (Z.land data 0xfff00000) (Z.land (Z.shiftr data 5) 0xf) (Z.lor (Z.land (Z.shiftr data 10) 3) (Z.shiftl apx 2)) (negb (Z.land (Z.shiftr data 4) 1 =? 0)))
  | _ => Ok (mkL1 L1_FAULT 0 0 0 false)
  end.
Definition v6_ConstructL2 (data : Z) : tx_l2_descriptor :=
  let ap := Z.lor (Z.land (Z.shiftr data 4) 3) (Z.shiftl (Z.land (Z.shiftr data 9) 1) 2) in
  match Z.land data 3 with
  | 0 => mkL2 L2_FAULT 0 0 false
  | 1 => mkL2 L2_Large (Z.land data 0xffff0000) ap (negb (Z.land (Z.shiftr data 15) 1 =? 0))
  | _ => mkL2 L2_Small (Z.land data 0xfffff000) ap (negb (Z.land (Z.shiftr data 0) 1 =? 0))
  end.

(** ** Permissions *)

Definition v5_allow_access (c : ArmControlCoprocessor) (AP : Z) (kernel_mode is_write : bool) : result bool :=
  match AP with
  | 0 => Ok (if cp1_R (v5_cp1 c) then negb is_write else if cp1_S (v5_cp1 c) then kernel_mode && negb is_write else false)
  | 1 => Ok kernel_mode
  | 2 => Ok (kernel_mode || negb is_write)
  | 3 => Ok true
  | _ => Err AssertFailed
  end.
Definition v6_allow_access (AP : Z) (xn : bool) (info : AccessInfo) : result bool :=
  let kernel := negb (Ring info =? 0) in
  if Fetch info && xn then Ok false
  else
    match AP with
    | 0 => Ok false
    | 1 => Ok kernel
    | 2 => Ok (kernel || negb (Write info))
    | 3 => Ok true
    | 4 => Ok false
    | 5 => Ok (kernel && negb (Write info))
    | 6 => Ok (negb (Write info))
    | 7 => Ok (negb (Write info))
    | _ => Err AssertFailed
    end.
(** Permissions of the user to read and write, and of the kernel. *)
Record page_perms := mkPerms { user_read : bool; user_write : bool; kernel_read : bool; kernel_write : bool }.
Definition no_perms := mkPerms false false false false.
Definition all_perms := mkPerms true true true true.
Definition v5_fill_access_perms (c : ArmControlCoprocessor) (AP : Z) : result page_perms :=
  match AP with
  | 0 => Ok (if cp1_R (v5_cp1 c) then mkPerms true false true false else if cp1_S (v5_cp1 c) then mkPerms false false true false else no_perms)
  | 1 => Ok (mkPerms false false true true)
  | 2 => Ok (mkPerms true false true true)
  | 3 => Ok all_perms
  | _ => Err AssertFailed
  end.
Definition v6_fill_access_perms (AP : Z) : result page_perms :=
  match AP with
  | 0 => Ok no_perms
  | 1 => Ok (mkPerms false false true true)
  | 2 => Ok (mkPerms true false true true)
  | 3 => Ok all_perms
  | 4 => Ok no_perms
  | 5 => Ok (mkPerms false false true false)
  | 6 => Ok (mkPerms true false true false)
  | 7 => Ok (mkPerms true false true false)
  | _ => Err AssertFailed
  end.

(** ** Translation *)

Section Walks.
(** A word of physical memory; what a failed read leaves is undefined. *)
Variable phys_mem : Z -> option Z.
(** What PageInfo's constructor leaves uninitialised. *)
Variables user_exec kernel_exec : bool.
Definition read_word (addr : Z) : result Z := of_option UndefinedBehaviour (phys_mem addr).
Definition page_info (phys mask : Z) (p : page_perms) : PageInfo := mkPageInfo phys mask true (user_read p) (user_write p) user_exec (kernel_read p) (kernel_write p) kernel_exec.
Definition not_present : PageInfo := new_PageInfo user_exec kernel_exec.
(** The physical address of a page and the mask of the offset in it. *)
Definition page_of (l2 : tx_l2_descriptor) (mva : Z) : result (Z * Z) :=
  match l2_Type l2 with
  | L2_Large => Ok (Z.lor (Z.land (l2_base_addr l2) 0xffff0000) (Z.land mva 0x0000ffff), 0xffff)
  | L2_Small => Ok (Z.lor (Z.land (l2_base_addr l2) 0xfffff000) (Z.land mva 0x00000fff), 0xfff)
  | L2_FAULT => Err AssertFailed
  end.

(** *** ARMv5 *)

Definition v5_get_l1_descriptor (c : ArmControlCoprocessor) (mva : Z) : result tx_l1_descriptor :=
  let table_idx := Z.shiftr (Z.land mva 0xfff00000) 20 in
  let* data := read_word (u32 (Z.lor (ttbr c) (Z.shiftl table_idx 2))) in Ok (v5_ConstructL1 data).
Definition v5_get_l2_descriptor_coarse (mva : Z) (l1 : tx_l1_descriptor) : result tx_l2_descriptor :=
  let l2_table_index := Z.shiftr (Z.land mva 0x000ff000) 12 in
  let* data := read_word (Z.lor (Z.land (l1_BaseAddr l1) 0xfffffc00) (Z.shiftl l2_table_index 2)) in v5_ConstructL2 data.
(** The result, with the address stored. *)
Definition v5_translate_section (c : ArmControlCoprocessor) (mva : Z) (l1 : tx_l1_descriptor) (info : AccessInfo) : result translation :=
  let phys := Z.lor (l1_BaseAddr l1) (Z.land mva 0xfffff) in
  match domain_access (v5_dacr c) (l1_Domain l1) with
  | 0 => Ok (TXLN_ACCESS_DOMAIN_SECTION, canary)
  | 1 =>
      let* allowed := v5_allow_access c (l1_AP l1) (negb (Ring info =? 0)) (Write info) in
      Ok (if negb allowed then (TXLN_ACCESS_PERMISSION_SECTION, canary) else (TXLN_OK, phys))
  | _ => Ok (TXLN_OK, phys)
  end.
Definition v5_translate_coarse (c : ArmControlCoprocessor) (mva : Z) (l1 : tx_l1_descriptor) (info : AccessInfo) : result translation :=
  let* l2 := v5_get_l2_descriptor_coarse mva l1 in
  match l2_Type l2 with
  | L2_FAULT => Ok (TXLN_FAULT_PAGE, canary)
  | _ =>
      let map := let* p := page_of l2 mva in Ok (TXLN_OK, fst p) in
      match domain_access (v5_dacr c) (l1_Domain l1) with
      | 0 => Ok (TXLN_ACCESS_DOMAIN_PAGE, canary)
      | 1 =>
          let* allowed := v5_allow_access c (l2_ap l2) (negb (Ring info =? 0)) (Write info) in
          if negb allowed then Ok (TXLN_ACCESS_PERMISSION_PAGE, canary) else map
      | _ => map
      end
  end.
Definition v5_handle_result (r : ArmResult) (faulting_domain mva : Z) (c : ArmControlCoprocessor) : ArmControlCoprocessor :=
  match fault_bits r with
  | None => c
  | Some bits => v5_with_faults (set_far (u32 mva) (set_fsr (Z.lor (u32 (Z.shiftl faulting_domain 4)) bits) (v5_faults c))) c
  end.
(** The result, the address, the faulting domain and the coprocessor. *)
Definition v5_Translate (mva : Z) (info : AccessInfo) (faulting_domain : Z) (c : ArmControlCoprocessor) : result (translation * Z * ArmControlCoprocessor) :=
  if negb (should_be_enabled (v5_world c)) then Ok ((TXLN_OK, mva), faulting_domain, c)
  else
    let* l1 := v5_get_l1_descriptor c mva in
    let* x :=
      match l1_Type l1 with
      | L1_FAULT => Ok (TXLN_FAULT_SECTION, canary)
      | L1_Section => v5_translate_section c mva l1 info
      | L1_Coarse => v5_translate_coarse c mva l1 info
      | L1_Fine => Err AssertFailed
      end in
    Ok (x, l1_Domain l1, if SideEffects info then v5_handle_result (fst x) (l1_Domain l1) mva c else c).
Definition identity_info (mva : Z) : PageInfo := page_info mva 0xf all_perms.
(** The permissions by domain; for the reserved value they are not defined. *)
Definition domain_perms (access : Z) (by_AP : result page_perms) : result page_perms :=
  match access with 0 => Ok no_perms | 1 => by_AP | 3 => Ok all_perms | _ => Err AssertFailed end.
Definition v5_GetSectionInfo (c : ArmControlCoprocessor) (l1 : tx_l1_descriptor) : result PageInfo :=
  let* p := domain_perms (domain_access (v5_dacr c) (l1_Domain l1)) (v5_fill_access_perms c (l1_AP l1)) in
  Ok (page_info (l1_BaseAddr l1) 0x000fffff p).
Definition v5_GetCoarseInfo (c : ArmControlCoprocessor) (mva : Z) (l1 : tx_l1_descriptor) : result PageInfo :=
  let* l2 := v5_get_l2_descriptor_coarse mva l1 in
  match l2_Type l2 with
  | L2_FAULT => Ok not_present
  | _ =>
      let* p := domain_perms (domain_access (v5_dacr c) (l1_Domain l1)) (v5_fill_access_perms c (l2_ap l2)) in
      let* a := page_of l2 mva in Ok (page_info (fst a) (snd a) p)
  end.
Definition v5_GetInfo (c : ArmControlCoprocessor) (mva : Z) : result PageInfo :=
  if negb (should_be_enabled (v5_world c)) then Ok (identity_info mva)
  else
    let* l1 := v5_get_l1_descriptor c mva in
    match l1_Type l1 with
    | L1_FAULT => Ok not_present
    | L1_Section => v5_GetSectionInfo c l1
    | L1_Coarse => v5_GetCoarseInfo c mva l1
    | L1_Fine => Err AssertFailed
    end.

(** *** ARMv6 *)

Definition v6_get_l1_descriptor (c : ArmControlCoprocessorv6) (mva : Z) : result tx_l1_descriptor :=
  let tx_table_base := Z.land (ttbr0 c) 0xffffc000 in
  let table_idx := Z.shiftr (Z.land mva 0xfff00000) 20 in
  let* data := read_word (Z.lor tx_table_base (Z.shiftl table_idx 2)) in v6_ConstructL1 data.
Definition v6_get_l2_descriptor_coarse (mva : Z) (l1 : tx_l1_descriptor) : result tx_l2_descriptor :=
  let l2_table_index := Z.land (Z.shiftr mva 12) 0xff in
  let* data := read_word (Z.lor (Z.land (l1_BaseAddr l1) 0xfffffc00) (Z.shiftl l2_table_index 2)) in Ok (v6_ConstructL2 data).
(** The reserved value of a domain faults; no access at all is not checked. *)
Definition v6_translate_section (c : ArmControlCoprocessorv6) (mva : Z) (l1 : tx_l1_descriptor) (info : AccessInfo) : result translation :=
  let phys := Z.lor (l1_BaseAddr l1) (Z.land mva 0xfffff) in
  match domain_access (dacr c) (l1_Domain l1) with
  | 2 => Ok (TXLN_ACCESS_DOMAIN_SECTION, canary)
  | 1 =>
      let* allowed := v6_allow_access (l1_AP l1) (l1_XN l1) info in
      Ok (if negb allowed then (TXLN_ACCESS_PERMISSION_SECTION, canary) else (TXLN_OK, phys))
  | _ => Ok (TXLN_OK, phys)
  end.
Definition v6_translate_coarse (c : ArmControlCoprocessorv6) (mva : Z) (l1 : tx_l1_descriptor) (info : AccessInfo) : result translation :=
  let* l2 := v6_get_l2_descriptor_coarse mva l1 in
  match l2_Type l2 with
  | L2_FAULT => Ok (TXLN_FAULT_PAGE, canary)
  | _ =>
      let map := let* p := page_of l2 mva in Ok (TXLN_OK, fst p) in
      match domain_access (dacr c) (l1_Domain l1) with
      | 2 => Ok (TXLN_ACCESS_DOMAIN_PAGE, canary)
      | 1 =>
          let* allowed := v6_allow_access (l2_ap l2) (l2_xn l2) info in
          if negb allowed then Ok (TXLN_ACCESS_PERMISSION_PAGE, canary) else map
      | _ => map
      end
  end.
Definition v6_handle_result (r : ArmResult) (faulting_domain mva : Z) (info : AccessInfo) (c : ArmControlCoprocessorv6) : ArmControlCoprocessorv6 :=
  match fault_bits r with
  | None => c
  | Some bits =>
      let new_fsr := Z.lor (Z.lor (if Write info then 0x800 else 0) (if negb (Fetch info) then Z.shiftl (Z.land faulting_domain 0xf) 4 else 0)) bits in
      if Fetch info then with_faults (set_ifar mva (set_ifsr new_fsr (faults c))) c
      else with_faults (set_dfar mva (set_dfsr new_fsr (faults c))) c
  end.
Definition v6_Translate (va : Z) (info : AccessInfo) (faulting_domain : Z) (c : ArmControlCoprocessorv6) : result (translation * Z * ArmControlCoprocessorv6) :=
  let virt_addr := u32 va in
  if negb (should_be_enabled (around c)) then Ok ((TXLN_OK, va), faulting_domain, c)
  else
    let* l1 := v6_get_l1_descriptor c virt_addr in
    let* x :=
      match l1_Type l1 with
      | L1_FAULT => Ok (TXLN_FAULT_SECTION, canary)
      | L1_Section => v6_translate_section c virt_addr l1 info
      | L1_Coarse => v6_translate_coarse c virt_addr l1 info
      | L1_Fine => Err AssertFailed
      end in
    Ok (x, l1_Domain l1, if SideEffects info then v6_handle_result (fst x) (l1_Domain l1) virt_addr info c else c).
Definition v6_GetSectionInfo (c : ArmControlCoprocessorv6) (l1 : tx_l1_descriptor) : result PageInfo :=
  let* p := domain_perms (domain_access (dacr c) (l1_Domain l1)) (v6_fill_access_perms (l1_AP l1)) in
  Ok (page_info (l1_BaseAddr l1) 0x000fffff p).
Definition v6_GetCoarseInfo (c : ArmControlCoprocessorv6) (mva : Z) (l1 : tx_l1_descriptor) : result PageInfo :=
  let* l2 := v6_get_l2_descriptor_coarse mva l1 in
  match l2_Type l2 with
  | L2_FAULT => Ok not_present
  | _ =>
      let* p := domain_perms (domain_access (dacr c) (l1_Domain l1)) (v6_fill_access_perms (l2_ap l2)) in
      let* a := page_of l2 mva in Ok (page_info (fst a) (snd a) p)
  end.
Definition v6_GetInfo (c : ArmControlCoprocessorv6) (virt_addr : Z) : result PageInfo :=
  if negb (should_be_enabled (around c)) then Ok (identity_info virt_addr)
  else
    let* l1 := v6_get_l1_descriptor c (u32 virt_addr) in
    match l1_Type l1 with
    | L1_FAULT => Ok not_present
    | L1_Section => v6_GetSectionInfo c l1
    | L1_Coarse => v6_GetCoarseInfo c (u32 virt_addr) l1
    | L1_Fine => Err AssertFailed
    end.
End Walks.

(** ** The tables *)

Definition fld (w lo n : Z) : Z := (w / 2 ^ lo) mod 2 ^ n.
Lemma fld_shiftr x k n : 0 <= k -> 0 <= n -> Z.land (Z.shiftr x k) (Z.ones n) = fld x k n.
Proof. intros Hk Hn. unfold fld. now rewrite Z.land_ones, Z.shiftr_div_pow2 by lia. Qed.
Lemma fld_mask x k n : 0 <= k -> 0 <= n -> Z.shiftr (Z.land x (Z.shiftl (Z.ones n) k)) k = fld x k n.
Proof. intros Hk Hn. rewrite Z.shiftr_land, Z.shiftr_shiftl_l by lia. rewrite Z.sub_diag, Z.shiftl_0_r. now apply fld_shiftr. Qed.
Lemma land_high x n w : 0 <= n <= w -> 0 <= x < 2 ^ w -> Z.land x (Z.shiftl (Z.ones (w - n)) n) = 2 ^ n * (x / 2 ^ n).
Proof.
  intros Hn Hx. replace (2 ^ n * (x / 2 ^ n)) with (Z.shiftl (Z.shiftr x n) n) by (rewrite Z.shiftl_mul_pow2, Z.shiftr_div_pow2 by lia; lia).
  apply Z.bits_inj'. intros k Hk. rewrite Z.land_spec, !Z.shiftl_spec by lia. destruct (Z.ltb_spec k n) as [H | H].
  - rewrite !(Z.testbit_neg_r _ (k - n)) by lia. now rewrite andb_false_r.
  - rewrite Z.shiftr_spec, Z.testbit_ones by lia. replace (k - n + n) with k by lia. destruct (Z.ltb_spec (k - n) (w - n)) as [H1 | H1].
    + rewrite (proj2 (Z.leb_le 0 (k - n))) by lia. now rewrite andb_true_r.
    + rewrite andb_false_r, andb_false_r. symmetry. destruct (Z.eq_dec x 0) as [-> | Hx0]; [apply Z.bits_0 |]. apply Z.bits_above_log2; [lia |]. apply Z.log2_lt_pow2; [lia |]. apply Z.lt_le_trans with (2 ^ w); [lia | apply Z.pow_le_mono_r; lia].
Qed.
Lemma join_low q r n : 0 <= n -> 0 <= r < 2 ^ n -> Z.lor (2 ^ n * q) r = 2 ^ n * q + r.
Proof. intros Hn Hr. rewrite Z.mul_comm. now apply lor_low. Qed.
Lemma fld_range x k n : 0 <= n -> 0 <= fld x k n < 2 ^ n.
Proof. intros Hn. unfold fld. apply Z.mod_pos_bound. lia. Qed.

(** What the tables hold for an address. *)
Inductive mapping_end :=
| NoSection
| NoPage (domain : Z)
| ASection (domain ap : Z) (xn : bool) (phys : Z)
| APage (domain : Z) (aps : Z -> Z) (subpage : Z) (xn : bool) (phys : Z).
Definition domain_of (m : mapping_end) : Z := match m with NoSection => 0 | NoPage d | ASection d _ _ _ | APage d _ _ _ _ => d end.
(** All parts of a page have the permissions of the first. *)
Definition plain (m : mapping_end) : Prop := match m with APage _ aps sub _ _ => aps sub = aps 0 | _ => True end.
(** The answer to an access, from the mapping and the domain; none where the
    architecture leaves it open. *)
Definition decided (dacr : Z) (permitted : Z -> bool -> bool) (m : mapping_end) : option translation :=
  match m with
  | NoSection => Some (TXLN_FAULT_SECTION, canary)
  | NoPage _ => Some (TXLN_FAULT_PAGE, canary)
  | ASection d ap xn phys =>
      match fld dacr (2 * d) 2 with
      | 0 => Some (TXLN_ACCESS_DOMAIN_SECTION, canary)
      | 1 => Some (if permitted ap xn then (TXLN_OK, phys) else (TXLN_ACCESS_PERMISSION_SECTION, canary))
      | 3 => Some (TXLN_OK, phys)
      | _ => None
      end
  | APage d aps sub xn phys =>
      match fld dacr (2 * d) 2 with
      | 0 => Some (TXLN_ACCESS_DOMAIN_PAGE, canary)
      | 1 => Some (if permitted (aps sub) xn then (TXLN_OK, phys) else (TXLN_ACCESS_PERMISSION_PAGE, canary))
      | 3 => Some (TXLN_OK, phys)
      | _ => None
      end
  end.
Section Tables.
Variable mem : Z -> option Z.
Definition join (w va n : Z) : Z := 2 ^ n * (w / 2 ^ n) + va mod 2 ^ n.
Definition v5_lookup (table va : Z) : option mapping_end :=
  match mem (table + 4 * (va / 2 ^ 20)) with
  | None => None
  | Some w =>
      match w mod 4 with
      | 0 => Some NoSection
      | 2 => Some (ASection (fld w 5 4) (fld w 10 2) false (join w va 20))
      | 1 =>
          match mem (2 ^ 10 * (w / 2 ^ 10) + 4 * fld va 12 8) with
          | None => None
          | Some p =>
              match p mod 4 with
              | 0 => Some (NoPage (fld w 5 4))
              | 1 => Some (APage (fld w 5 4) (fun i => fld p (4 + 2 * i) 2) (fld va 14 2) false (join p va 16))
              | 2 => Some (APage (fld w 5 4) (fun i => fld p (4 + 2 * i) 2) (fld va 10 2) false (join p va 12))
              | _ => None
              end
          end
      | _ => None
      end
  end.
(** Sections that are not global, and supersections, are left open. *)
Definition v6_lookup (table va : Z) : option mapping_end :=
  match mem (table + 4 * (va / 2 ^ 20)) with
  | None => None
  | Some w =>
      match w mod 4 with
      | 2 => if (fld w 17 1 =? 0) && (fld w 18 1 =? 0) then Some (ASection (fld w 5 4) (fld w 10 2 + 4 * fld w 15 1) (Z.testbit w 4) (join w va 20)) else None
      | 1 =>
          match mem (2 ^ 10 * (w / 2 ^ 10) + 4 * fld va 12 8) with
          | None => None
          | Some p =>
              let ap := fld p 4 2 + 4 * fld p 9 1 in
              match p mod 4 with
              | 0 => Some (NoPage (fld w 5 4))
              | 1 => Some (APage (fld w 5 4) (fun _ => ap) 0 (Z.testbit p 15) (join p va 16))
              | _ => Some (APage (fld w 5 4) (fun _ => ap) 0 (Z.testbit p 0) (join p va 12))
              end
          end
      | _ => Some NoSection
      end
  end.
Definition words : Prop := forall a w, mem a = Some w -> 0 <= w < 2 ^ 32.
End Tables.
(** Permissions: of ARMv5, with the system and ROM protection bits, and of
    ARMv6, with the bit that forbids execution. *)
Definition v5_permitted (S R kernel write : bool) (ap : Z) (xn : bool) : bool :=
  if ap =? 0 then negb write && (R || (S && kernel)) else if ap =? 1 then kernel else if ap =? 2 then kernel || negb write else true.
Definition v6_permitted (kernel write fetch : bool) (ap : Z) (xn : bool) : bool :=
  negb (fetch && xn) && (if ap mod 4 =? 0 then false else if ap <? 4 then (ap =? 3) || kernel || ((ap =? 2) && negb write) else negb write && (kernel || negb (ap =? 5))).

Section Correct.
Variable mem : Z -> option Z.
Hypothesis Hwords : words mem.

Lemma l1_address va : 0 <= va < 2 ^ 32 -> Z.shiftl (Z.shiftr (Z.land va 0xfff00000) 20) 2 = 4 * (va / 2 ^ 20) /\ 0 <= 4 * (va / 2 ^ 20) < 2 ^ 14.
Proof.
  intros Hva. change 0xfff00000 with (Z.shiftl (Z.ones 12) 20). rewrite fld_mask by lia. unfold fld. rewrite Z.shiftl_mul_pow2 by lia.
  pose proof (Z.div_pos va (2 ^ 20) ltac:(lia) ltac:(lia)). pose proof (Z.div_lt_upper_bound va (2 ^ 20) (2 ^ 12) ltac:(lia) ltac:(lia)). rewrite Z.mod_small by lia. lia.
Qed.
Lemma l2_address w va : 0 <= w < 2 ^ 32 -> Z.lor (Z.land (Z.land w 0xfffffc00) 0xfffffc00) (Z.shiftl (Z.shiftr (Z.land va 0x000ff000) 12) 2) = 2 ^ 10 * (w / 2 ^ 10) + 4 * fld va 12 8.
Proof.
  intros Hw. change 0x000ff000 with (Z.shiftl (Z.ones 8) 12). rewrite fld_mask by lia. rewrite <- Z.land_assoc, Z.land_diag. change 0xfffffc00 with (Z.shiftl (Z.ones (32 - 10)) 10). rewrite land_high by lia.
  rewrite Z.shiftl_mul_pow2 by lia. change (2 ^ 2) with 4. rewrite (Z.mul_comm _ 4). apply join_low; [lia |]. pose proof (fld_range va 12 8 ltac:(lia)). lia.
Qed.
Lemma l2_address6 w va : 0 <= w < 2 ^ 32 -> Z.lor (Z.land (Z.land w 0xfffffc00) 0xfffffc00) (Z.shiftl (Z.land (Z.shiftr va 12) 0xff) 2) = 2 ^ 10 * (w / 2 ^ 10) + 4 * fld va 12 8.
Proof.
  intros Hw. rewrite <- (l2_address w va Hw). do 2 f_equal. change 0xff with (Z.ones 8). change 0x000ff000 with (Z.shiftl (Z.ones 8) 12). now rewrite fld_mask, fld_shiftr by lia.
Qed.
Lemma section_address w va : 0 <= w < 2 ^ 32 -> Z.lor (Z.land w 0xfff00000) (Z.land va 0xfffff) = join w va 20.
Proof.
  intros Hw. change 0xfff00000 with (Z.shiftl (Z.ones (32 - 20)) 20). rewrite land_high by lia. change 0xfffff with (Z.ones 20). rewrite Z.land_ones by lia. apply join_low; [lia |]. apply Z.mod_pos_bound. lia.
Qed.
Lemma large_address w va : 0 <= w < 2 ^ 32 -> Z.lor (Z.land (Z.land w 0xffff0000) 0xffff0000) (Z.land va 0xffff) = join w va 16.
Proof.
  intros Hw. rewrite <- Z.land_assoc, Z.land_diag. change 0xffff0000 with (Z.shiftl (Z.ones (32 - 16)) 16). rewrite land_high by lia. change 0xffff with (Z.ones 16). rewrite Z.land_ones by lia. apply join_low; [lia |]. apply Z.mod_pos_bound. lia.
Qed.
Lemma small_address w va : 0 <= w < 2 ^ 32 -> Z.lor (Z.land (Z.land w 0xfffff000) 0xfffff000) (Z.land va 0xfff) = join w va 12.
Proof.
  intros Hw. rewrite <- Z.land_assoc, Z.land_diag. change 0xfffff000 with (Z.shiftl (Z.ones (32 - 12)) 12). rewrite land_high by lia. change 0xfff with (Z.ones 12). rewrite Z.land_ones by lia. apply join_low; [lia |]. apply Z.mod_pos_bound. lia.
Qed.
Lemma domain_field dacr d : 0 <= d -> domain_access dacr d = fld dacr (2 * d) 2.
Proof. intros Hd. unfold domain_access. change 3 with (Z.ones 2). rewrite Z.mul_comm. apply fld_shiftr; lia. Qed.
Lemma type_field w : Z.land w 3 = w mod 4.
Proof. change 3 with (Z.ones 2). now rewrite Z.land_ones by lia. Qed.
Lemma mod4_cases w : w mod 4 = 0 \/ w mod 4 = 1 \/ w mod 4 = 2 \/ w mod 4 = 3.
Proof. pose proof (Z.mod_pos_bound w 4 ltac:(lia)). lia. Qed.
Lemma fld2_cases w k : fld w k 2 = 0 \/ fld w k 2 = 1 \/ fld w k 2 = 2 \/ fld w k 2 = 3.
Proof. pose proof (fld_range w k 2 ltac:(lia)). lia. Qed.
Lemma v5_allowed c ap info : 0 <= ap < 4 ->
  v5_allow_access c ap (negb (Ring info =? 0)) (Write info) = Ok (v5_permitted (cp1_S (v5_cp1 c)) (cp1_R (v5_cp1 c)) (negb (Ring info =? 0)) (Write info) ap false).
Proof.
  intros Ha. assert (E : ap = 0 \/ ap = 1 \/ ap = 2 \/ ap = 3) by lia. unfold v5_permitted.
  destruct E as [-> | [-> | [-> | ->]]]; cbn; try reflexivity. destruct (cp1_R _), (cp1_S _), (Write info), (Ring info =? 0); reflexivity.
Qed.
Lemma v6_allowed ap xn info : 0 <= ap < 8 -> v6_allow_access ap xn info = Ok (v6_permitted (negb (Ring info =? 0)) (Write info) (Fetch info) ap xn).
Proof.
  intros Ha. assert (E : ap = 0 \/ ap = 1 \/ ap = 2 \/ ap = 3 \/ ap = 4 \/ ap = 5 \/ ap = 6 \/ ap = 7) by lia. unfold v6_permitted, v6_allow_access. cbn zeta.
  destruct (Fetch info && xn); [reflexivity |].
  destruct E as [-> | [-> | [-> | [-> | [-> | [-> | [-> | ->]]]]]]]; cbn; try reflexivity; destruct (Ring info =? 0), (Write info); reflexivity.
Qed.
Lemma low_fld w k n : 0 <= n -> 0 <= k -> Z.land (Z.shiftr w k) (Z.ones n) = fld w k n.
Proof. intros. now apply fld_shiftr. Qed.
Lemma ap6 w a b : 0 <= a -> 0 <= b -> Z.lor (Z.land (Z.shiftr w a) 3) (Z.shiftl (Z.land (Z.shiftr w b) 1) 2) = fld w a 2 + 4 * fld w b 1 /\ 0 <= fld w a 2 + 4 * fld w b 1 < 8.
Proof.
  intros Ha Hb. change 3 with (Z.ones 2). change 1 with (Z.ones 1) at 1. rewrite !fld_shiftr, Z.lor_comm, Z.shiftl_mul_pow2 by lia. pose proof (fld_range w a 2 ltac:(lia)). pose proof (fld_range w b 1 ltac:(lia)).
  rewrite lor_low by lia. lia.
Qed.
Lemma bit_field w k : 0 <= k -> negb (Z.land (Z.shiftr w k) 1 =? 0) = Z.testbit w k.
Proof.
  intros Hk. change 1 with (Z.ones 1). rewrite Z.land_ones, <- Z.bit0_mod, Z.shiftr_spec, Z.add_0_l by lia. now destruct (Z.testbit w k).
Qed.
Lemma l1_read5 t va : 0 <= va < 2 ^ 32 -> 0 <= t < 2 ^ 32 -> t mod 2 ^ 14 = 0 -> u32 (Z.lor t (Z.shiftl (Z.shiftr (Z.land va 0xfff00000) 20) 2)) = t + 4 * (va / 2 ^ 20).
Proof.
  intros Hva Ht Hm. destruct (l1_address va Hva) as [E Hr]. rewrite E. pose proof (Z.div_mod t (2 ^ 14) ltac:(lia)) as D. rewrite Hm, Z.add_0_r in D. rewrite D at 1. rewrite join_low by lia. rewrite <- D.
  apply wrap_small. unfold in_range. assert (t / 2 ^ 14 < 2 ^ 18) by (apply Z.div_lt_upper_bound; lia). lia.
Qed.
Lemma l1_read6 t va : 0 <= va < 2 ^ 32 -> 0 <= t < 2 ^ 32 -> Z.lor (Z.land t 0xffffc000) (Z.shiftl (Z.shiftr (Z.land va 0xfff00000) 20) 2) = 2 ^ 14 * (t / 2 ^ 14) + 4 * (va / 2 ^ 20).
Proof.
  intros Hva Ht. destruct (l1_address va Hva) as [E Hr]. rewrite E. change 0xffffc000 with (Z.shiftl (Z.ones (32 - 14)) 14). rewrite land_high by lia. apply join_low; lia.
Qed.
Lemma v5_section c w va info r : 0 <= w < 2 ^ 32 -> decided (v5_dacr c) (v5_permitted (cp1_S (v5_cp1 c)) (cp1_R (v5_cp1 c)) (negb (Ring info =? 0)) (Write info)) (ASection (fld w 5 4) (fld w 10 2) false (join w va 20)) = Some r ->
  v5_translate_section c va (mkL1 L1_Section (Z.land w 0xfff00000) (fld w 5 4) (fld w 10 2) false) info = Ok r.
Proof.
  intros Hw D. cbn [decided] in D. unfold v5_translate_section. cbn [l1_BaseAddr l1_Domain l1_AP]. pose proof (fld_range w 5 4 ltac:(lia)). rewrite domain_field, section_address by lia.
  destruct (fld2_cases (v5_dacr c) (2 * fld w 5 4)) as [E | [E | [E | E]]]; rewrite E in *; [injection D as <-; reflexivity | | discriminate | injection D as <-; reflexivity]. rewrite v5_allowed by (pose proof (fld_range w 10 2 ltac:(lia)); lia). cbn [rbind].
  injection D as <-. now destruct (v5_permitted _ _ _ _ _ _).
Qed.
Lemma v5_page c d base va p info r phys mask l1 : 0 <= d -> page_of base va = Ok (phys, mask) -> l2_Type base <> L2_FAULT -> l2_ap base = fld p 4 2 ->
  (match fld (v5_dacr c) (2 * d) 2 with 0 => Some (TXLN_ACCESS_DOMAIN_PAGE, canary) | 1 => Some (if v5_permitted (cp1_S (v5_cp1 c)) (cp1_R (v5_cp1 c)) (negb (Ring info =? 0)) (Write info) (fld p 4 2) false then (TXLN_OK, phys) else (TXLN_ACCESS_PERMISSION_PAGE, canary)) | 3 => Some (TXLN_OK, phys) | _ => None end) = Some r ->
  l1_Domain l1 = d -> v5_get_l2_descriptor_coarse mem va l1 = Ok base -> v5_translate_coarse mem c va l1 info = Ok r.
Proof.
  intros Hd Hp Hn Ha D El E2. unfold v5_translate_coarse. rewrite E2. cbn [rbind]. rewrite El, domain_field, Ha, Hp by lia. cbn [rbind fst].
  assert (X : match fld (v5_dacr c) (2 * d) 2 with 0 => Ok (TXLN_ACCESS_DOMAIN_PAGE, canary) | 1 => let* allowed := v5_allow_access c (fld p 4 2) (negb (Ring info =? 0)) (Write info) in if negb allowed then Ok (TXLN_ACCESS_PERMISSION_PAGE, canary) else Ok (TXLN_OK, phys) | _ => Ok (TXLN_OK, phys) end = Ok r).
  { destruct (fld2_cases (v5_dacr c) (2 * d)) as [E | [E | [E | E]]]; rewrite E in *; [injection D as <-; reflexivity | | discriminate | injection D as <-; reflexivity]. rewrite v5_allowed by (pose proof (fld_range p 4 2 ltac:(lia)); lia). cbn [rbind]. injection D as <-. now destruct (v5_permitted _ _ _ _ _ _). }
  destruct (l2_Type base); [congruence | exact X | exact X].
Qed.
(** C26. Translation of ARMv5 refines a walk of the tables by
    arithmetic on their words: where the architecture says what happens and
    the parts of a page have the same permissions, the result, the physical
    address and the domain are those of the walk, and a fault is reported if
    the access asks for it. *)
Theorem v5_Translate_refines_walk va info fd c m r : should_be_enabled (v5_world c) = true -> 0 <= va < 2 ^ 32 -> 0 <= ttbr c < 2 ^ 32 -> ttbr c mod 2 ^ 14 = 0 ->
  v5_lookup mem (ttbr c) va = Some m -> plain m -> decided (v5_dacr c) (v5_permitted (cp1_S (v5_cp1 c)) (cp1_R (v5_cp1 c)) (negb (Ring info =? 0)) (Write info)) m = Some r ->
  v5_Translate mem va info fd c = Ok (r, domain_of m, if SideEffects info then v5_handle_result (fst r) (domain_of m) va c else c).
Proof.
  intros Hen Hva Ht Hm L P D. unfold v5_Translate, v5_get_l1_descriptor, read_word. rewrite Hen, l1_read5 by assumption. cbn [negb]. unfold v5_lookup in L.
  destruct (mem (ttbr c + 4 * (va / 2 ^ 20))) as [w |] eqn:Ew; [| discriminate]. cbn [of_option rbind]. pose proof (Hwords _ _ Ew) as Hw. unfold v5_ConstructL1. rewrite type_field.
  change 0xc00 with (Z.shiftl (Z.ones 2) 10). change 0xf with (Z.ones 4). rewrite fld_mask, fld_shiftr by lia.
  destruct (mod4_cases w) as [E | [E | [E | E]]]; rewrite E in *; cbn [l1_Type l1_Domain]; [injection L as <-; injection D as <-; reflexivity | | injection L as <-; rewrite (v5_section c w va info r Hw D); reflexivity | discriminate].
  destruct (mem (2 ^ 10 * (w / 2 ^ 10) + 4 * fld va 12 8)) as [p |] eqn:Ep; [| discriminate]. pose proof (Hwords _ _ Ep) as Hp. set (l1 := mkL1 L1_Coarse _ _ _ _).
  assert (E2 : v5_get_l2_descriptor_coarse mem va l1 = v5_ConstructL2 p) by (unfold v5_get_l2_descriptor_coarse, read_word; cbn [l1 l1_BaseAddr]; rewrite l2_address, Ep by exact Hw; reflexivity).
  unfold v5_ConstructL2 in E2. rewrite type_field in E2. change 0x030 with (Z.shiftl (Z.ones 2) 4) in E2. rewrite fld_mask in E2 by lia. pose proof (fld_range w 5 4 ltac:(lia)) as Hd.
  assert (X : v5_translate_coarse mem c va l1 info = Ok r /\ domain_of m = fld w 5 4); [| destruct X as [-> ->]; reflexivity].
  destruct (mod4_cases p) as [E4 | [E4 | [E4 | E4]]]; rewrite E4 in *; try discriminate; injection L as <-; (split; [| reflexivity]).
  - unfold v5_translate_coarse. rewrite E2. injection D as <-. reflexivity.
  - cbn [plain] in P. cbn [decided] in D. rewrite P in D. refine (v5_page c (fld w 5 4) (mkL2 L2_Large (Z.land p 0xffff0000) (fld p 4 2) false) va p info r (join p va 16) 0xffff l1 ltac:(lia) _ _ eq_refl D eq_refl E2); [cbn; now rewrite large_address by exact Hp | discriminate].
  - cbn [plain] in P. cbn [decided] in D. rewrite P in D. refine (v5_page c (fld w 5 4) (mkL2 L2_Small (Z.land p 0xfffff000) (fld p 4 2) false) va p info r (join p va 12) 0xfff l1 ltac:(lia) _ _ eq_refl D eq_refl E2); [cbn; now rewrite small_address by exact Hp | discriminate].
Qed.
Lemma v6_section c w va info r : 0 <= w < 2 ^ 32 -> fld (dacr c) (2 * fld w 5 4) 2 <> 0 ->
  decided (dacr c) (v6_permitted (negb (Ring info =? 0)) (Write info) (Fetch info)) (ASection (fld w 5 4) (fld w 10 2 + 4 * fld w 15 1) (Z.testbit w 4) (join w va 20)) = Some r ->
  v6_translate_section c va (mkL1 L1_Section (Z.land w 0xfff00000) (fld w 5 4) (fld w 10 2 + 4 * fld w 15 1) (Z.testbit w 4)) info = Ok r.
Proof.
  intros Hw N D. cbn [decided] in D. unfold v6_translate_section. cbn [l1_BaseAddr l1_Domain l1_AP l1_XN]. pose proof (fld_range w 5 4 ltac:(lia)). rewrite domain_field, section_address by lia.
  destruct (fld2_cases (dacr c) (2 * fld w 5 4)) as [E | [E | [E | E]]]; rewrite E in *; [congruence | | discriminate | injection D as <-; reflexivity].
  rewrite v6_allowed by (pose proof (fld_range w 10 2 ltac:(lia)); pose proof (fld_range w 15 1 ltac:(lia)); lia). cbn [rbind]. injection D as <-. now destruct (v6_permitted _ _ _ _ _).
Qed.
Lemma v6_page c d base va info r phys mask l1 : 0 <= d -> fld (dacr c) (2 * d) 2 <> 0 -> page_of base va = Ok (phys, mask) -> l2_Type base <> L2_FAULT -> 0 <= l2_ap base < 8 ->
  (match fld (dacr c) (2 * d) 2 with 0 => Some (TXLN_ACCESS_DOMAIN_PAGE, canary) | 1 => Some (if v6_permitted (negb (Ring info =? 0)) (Write info) (Fetch info) (l2_ap base) (l2_xn base) then (TXLN_OK, phys) else (TXLN_ACCESS_PERMISSION_PAGE, canary)) | 3 => Some (TXLN_OK, phys) | _ => None end) = Some r ->
  l1_Domain l1 = d -> v6_get_l2_descriptor_coarse mem va l1 = Ok base -> v6_translate_coarse mem c va l1 info = Ok r.
Proof.
  intros Hd N Hp Hn Ha D El E2. unfold v6_translate_coarse. rewrite E2. cbn [rbind]. rewrite El, domain_field, Hp by lia. cbn [rbind fst].
  assert (X : match fld (dacr c) (2 * d) 2 with 2 => Ok (TXLN_ACCESS_DOMAIN_PAGE, canary) | 1 => let* allowed := v6_allow_access (l2_ap base) (l2_xn base) info in if negb allowed then Ok (TXLN_ACCESS_PERMISSION_PAGE, canary) else Ok (TXLN_OK, phys) | _ => Ok (TXLN_OK, phys) end = Ok r).
  { destruct (fld2_cases (dacr c) (2 * d)) as [E | [E | [E | E]]]; rewrite E in *; [congruence | | discriminate | injection D as <-; reflexivity]. rewrite v6_allowed by exact Ha. cbn [rbind]. injection D as <-. now destruct (v6_permitted _ _ _ _ _). }
  destruct (l2_Type base); [congruence | exact X | exact X].
Qed.
(** C22. Translation of ARMv6 refines the walk too, for domains
    with any access at all: in a domain without, where the walk faults, it
    checks nothing. *)
Theorem v6_Translate_refines_walk va info fd c m r : should_be_enabled (around c) = true -> 0 <= va < 2 ^ 32 -> 0 <= ttbr0 c < 2 ^ 32 ->
  v6_lookup mem (2 ^ 14 * (ttbr0 c / 2 ^ 14)) va = Some m -> fld (dacr c) (2 * domain_of m) 2 <> 0 -> decided (dacr c) (v6_permitted (negb (Ring info =? 0)) (Write info) (Fetch info)) m = Some r ->
  v6_Translate mem va info fd c = Ok (r, domain_of m, if SideEffects info then v6_handle_result (fst r) (domain_of m) va info c else c).
Proof.
  intros Hen Hva Ht L N D. unfold v6_Translate, v6_get_l1_descriptor, read_word. rewrite Hen. replace (u32 va) with va by (symmetry; apply wrap_small; exact Hva). rewrite l1_read6 by assumption. cbn [negb]. unfold v6_lookup in L.
  destruct (mem (2 ^ 14 * (ttbr0 c / 2 ^ 14) + 4 * (va / 2 ^ 20))) as [w |] eqn:Ew; [| discriminate]. cbn [of_option rbind]. pose proof (Hwords _ _ Ew) as Hw. unfold v6_ConstructL1. rewrite type_field.
  destruct (ap6 w 10 15 ltac:(lia) ltac:(lia)) as [Eap Hap]. cbn zeta. rewrite Eap, bit_field by lia. change (Z.land (Z.shiftr w 5) 0xf) with (Z.land (Z.shiftr w 5) (Z.ones 4)). change (Z.land (Z.shiftr w 17) 1) with (Z.land (Z.shiftr w 17) (Z.ones 1)). rewrite !fld_shiftr by lia.
  destruct (mod4_cases w) as [E | [E | [E | E]]]; rewrite E in *; cbn [l1_Type l1_Domain rbind]; [injection L as <-; injection D as <-; reflexivity | | | injection L as <-; injection D as <-; reflexivity].
  2: { destruct (fld w 17 1 =? 0); [| discriminate]. cbn [andb] in L. destruct (fld w 18 1 =? 0); [| discriminate]. injection L as <-. cbn [rbind l1_Type l1_Domain]. cbn [domain_of] in N. rewrite (v6_section c w va info r Hw N D). reflexivity. }
  destruct (mem (2 ^ 10 * (w / 2 ^ 10) + 4 * fld va 12 8)) as [p |] eqn:Ep; [| discriminate]. pose proof (Hwords _ _ Ep) as Hp. set (l1 := mkL1 L1_Coarse _ _ _ _). destruct (ap6 p 4 9 ltac:(lia) ltac:(lia)) as [Ea Har].
  assert (E2 : v6_get_l2_descriptor_coarse mem va l1 = Ok (v6_ConstructL2 p)) by (unfold v6_get_l2_descriptor_coarse, read_word; cbn [l1 l1_BaseAddr]; rewrite l2_address6, Ep by exact Hw; reflexivity).
  unfold v6_ConstructL2 in E2. rewrite type_field in E2. cbn zeta in E2. rewrite Ea, !bit_field in E2 by lia. pose proof (fld_range w 5 4 ltac:(lia)) as Hd. cbn zeta in L.
  assert (X : v6_translate_coarse mem c va l1 info = Ok r /\ domain_of m = fld w 5 4); [| destruct X as [-> ->]; reflexivity].
  assert (small : forall q, v6_get_l2_descriptor_coarse mem va l1 = Ok (mkL2 L2_Small (Z.land p 0xfffff000) (fld p 4 2 + 4 * fld p 9 1) (Z.testbit p 0)) -> q = APage (fld w 5 4) (fun _ => fld p 4 2 + 4 * fld p 9 1) 0 (Z.testbit p 0) (join p va 12) -> m = q -> v6_translate_coarse mem c va l1 info = Ok r).
  { intros q E3 -> ->. refine (v6_page c (fld w 5 4) (mkL2 L2_Small (Z.land p 0xfffff000) _ _) va info r (join p va 12) 0xfff l1 ltac:(lia) N _ _ Har D eq_refl E3); [cbn; now rewrite small_address by exact Hp | discriminate]. }
  destruct (mod4_cases p) as [E4 | [E4 | [E4 | E4]]]; rewrite E4 in *; injection L as <-; (split; [| reflexivity]).
  - unfold v6_translate_coarse. rewrite E2. injection D as <-. reflexivity.
  - refine (v6_page c (fld w 5 4) (mkL2 L2_Large (Z.land p 0xffff0000) _ _) va info r (join p va 16) 0xffff l1 ltac:(lia) N _ _ Har D eq_refl E2); [cbn; now rewrite large_address by exact Hp | discriminate].
  - exact (small _ E2 eq_refl eq_refl).
  - exact (small _ E2 eq_refl eq_refl).
Qed.
End Correct.

(** ** Translate and GetInfo *)

(** What the information about a page permits. *)
Definition permits (pi : PageInfo) (info : AccessInfo) : bool :=
  if negb (Ring info =? 0) then (if Write info then KernelCanWrite pi else KernelCanRead pi) else (if Write info then UserCanWrite pi else UserCanRead pi).
(** The check that is switched off in the code (GETINFO_CHECK), and addresses. *)
Definition agrees (pi : PageInfo) (info : AccessInfo) (mva : Z) (t : translation) : Prop :=
  if Present pi then
    (fst t = TXLN_OK <-> permits pi info = true)
    /\ (fst t = TXLN_OK -> snd t = Z.lor (Z.land (pi_phys_addr pi) (Z.lnot (pi_mask pi))) (Z.land mva (pi_mask pi)))
  else fst t = TXLN_FAULT_SECTION \/ fst t = TXLN_FAULT_PAGE.
Definition granted (p : page_perms) (kernel write : bool) : bool := if kernel then (if write then kernel_write p else kernel_read p) else (if write then user_write p else user_read p).
Lemma permits_page ux kx phys mask p info : permits (page_info ux kx phys mask p) info = granted p (negb (Ring info =? 0)) (Write info).
Proof. reflexivity. Qed.
Lemma v5_perms_allow c AP p kernel write : v5_fill_access_perms c AP = Ok p -> v5_allow_access c AP kernel write = Ok (granted p kernel write).
Proof.
  unfold v5_fill_access_perms, v5_allow_access. destruct AP as [| [[] | [] |] |]; try discriminate; intros [= <-]; destruct kernel, write; try reflexivity; destruct (cp1_R (v5_cp1 c)), (cp1_S (v5_cp1 c)); reflexivity.
Qed.
Lemma v6_perms_allow AP xn p info : Fetch info = false -> v6_fill_access_perms AP = Ok p -> v6_allow_access AP xn info = Ok (granted p (negb (Ring info =? 0)) (Write info)).
Proof.
  intros Hf. unfold v6_fill_access_perms, v6_allow_access. rewrite Hf. cbn [andb]. cbn zeta.
  destruct AP as [| [[[] | [] |] | [[] | [] |] |] |]; try discriminate; intros [= <-]; destruct (Ring info =? 0), (Write info); reflexivity.
Qed.
Lemma section_agrees base mva : Z.lor (Z.land base 0xfff00000) (Z.land mva 0xfffff) = Z.lor (Z.land (Z.land base 0xfff00000) (Z.lnot 0xfffff)) (Z.land mva 0xfffff).
Proof. rewrite <- (Z.land_assoc base). reflexivity. Qed.
Lemma page_agrees base mva high low : Z.land high (Z.lnot low) = high -> Z.lor (Z.land base high) (Z.land mva low) = Z.lor (Z.land (Z.lor (Z.land base high) (Z.land mva low)) (Z.lnot low)) (Z.land mva low).
Proof.
  intros E. apply Z.bits_inj'. intros k Hk. rewrite !Z.lor_spec, !Z.land_spec, !Z.lor_spec, !Z.land_spec, Z.lnot_spec by lia.
  assert (B : Z.testbit high k && negb (Z.testbit low k) = Z.testbit high k) by (rewrite <- Z.lnot_spec, <- Z.land_spec, E by lia; reflexivity).
  destruct (Z.testbit base k), (Z.testbit mva k), (Z.testbit high k), (Z.testbit low k); cbn in *; congruence.
Qed.
Lemma page_of_agrees l2 mva a : page_of l2 mva = Ok a -> fst a = Z.lor (Z.land (fst a) (Z.lnot (snd a))) (Z.land mva (snd a)).
Proof. unfold page_of. destruct (l2_Type l2); [discriminate | |]; intros [= <-]; now apply page_agrees. Qed.
Lemma identity_agrees ux kx mva info : agrees (identity_info ux kx mva) info mva (TXLN_OK, mva).
Proof.
  unfold agrees. cbn [identity_info page_info Present pi_phys_addr pi_mask fst snd]. split.
  - split; [intros _ | reflexivity]. unfold permits. cbn. now destruct (negb _), (Write info).
  - intros _. symmetry. rewrite <- Z.land_lor_distr_r. change (Z.lor (Z.lnot 0xf) 0xf) with (-1). apply Z.land_m1_r.
Qed.
(** By domain: no access, checked access or any access, against the answer. *)
Lemma checked_agrees ux kx access by_AP p info mva phys paddr mask dfault pfault (allowed : result bool) (t : result translation) :
  domain_perms access by_AP = Ok p -> (forall q, by_AP = Ok q -> allowed = Ok (granted q (negb (Ring info =? 0)) (Write info))) -> paddr = Z.lor (Z.land phys (Z.lnot mask)) (Z.land mva mask) ->
  dfault <> TXLN_OK -> pfault <> TXLN_OK ->
  t = match access with 0 => Ok (dfault, canary) | 1 => let* a := allowed in Ok (if negb a then (pfault, canary) else (TXLN_OK, paddr)) | _ => Ok (TXLN_OK, paddr) end ->
  exists x, t = Ok x /\ agrees (page_info ux kx phys mask p) info mva x.
Proof.
  intros Hp Ha Ea Nd Np ->. unfold domain_perms in Hp. unfold agrees. rewrite permits_page. cbn [page_info Present pi_phys_addr pi_mask].
  assert (Yes : granted all_perms (negb (Ring info =? 0)) (Write info) = true) by (unfold granted; destruct (negb _), (Write info); reflexivity).
  assert (No : granted no_perms (negb (Ring info =? 0)) (Write info) = false) by (unfold granted; destruct (negb _), (Write info); reflexivity).
  destruct access as [| [[] | | ] |]; try discriminate.
  - injection Hp as <-. eexists. split; [reflexivity |]. rewrite No. cbn. split; [split; [contradiction | discriminate] | contradiction].
  - injection Hp as <-. eexists. split; [reflexivity |]. rewrite Yes. cbn. split; [tauto | auto].
  - rewrite (Ha p Hp). cbn [rbind]. destruct (granted p _ _); eexists; (split; [reflexivity |]); cbn; (split; [split |]); auto; try contradiction; discriminate.
Qed.
Section Agreement.
Variable mem : Z -> option Z.
Variables user_exec kernel_exec : bool.

(** C27. Whenever GetInfo of the ARMv5 MMU answers, Translate does
    not fail, and they agree: an address without information faults, and an
    access succeeds exactly if the information permits it, with the address
    the information gives. *)
Theorem v5_GetInfo_agrees c mva info fd pi : v5_GetInfo mem user_exec kernel_exec c mva = Ok pi ->
  exists t fd1 c1, v5_Translate mem mva info fd c = Ok (t, fd1, c1) /\ agrees pi info mva t.
Proof.
  unfold v5_GetInfo, v5_Translate. destruct (negb (should_be_enabled (v5_world c))).
  { intros [= <-]. do 3 eexists. split; [reflexivity | apply identity_agrees]. }
  unfold v5_get_l1_descriptor. destruct (read_word mem _) as [w |]; cbn [rbind]; [| discriminate]. set (l1 := v5_ConstructL1 w).
  assert (finish : forall y, (exists x, y = Ok x /\ agrees pi info mva x) -> exists t fd1 c1, (let* x := y in Ok (x, l1_Domain l1, if SideEffects info then v5_handle_result (fst x) (l1_Domain l1) mva c else c)) = Ok (t, fd1, c1) /\ agrees pi info mva t).
  { intros y (x & -> & A). cbn [rbind]. eauto. }
  assert (base : l1_Type l1 = L1_Section -> l1_BaseAddr l1 = Z.land w 0xfff00000) by (unfold l1, v5_ConstructL1; destruct (Z.land w 3) as [| [[] | [] |] |]; cbn; congruence).
  destruct (l1_Type l1) eqn:ET; [intros [= <-]; apply finish; eexists; split; [reflexivity | now left] | | | discriminate].
  - unfold v5_GetCoarseInfo, v5_translate_coarse. destruct (v5_get_l2_descriptor_coarse mem mva l1) as [l2 |]; cbn [rbind]; [| discriminate].
    assert (page : (let* p := domain_perms (domain_access (v5_dacr c) (l1_Domain l1)) (v5_fill_access_perms c (l2_ap l2)) in let* a := page_of l2 mva in Ok (page_info user_exec kernel_exec (fst a) (snd a) p)) = Ok pi ->
      exists x, match domain_access (v5_dacr c) (l1_Domain l1) with 0 => Ok (TXLN_ACCESS_DOMAIN_PAGE, canary) | 1 => let* allowed := v5_allow_access c (l2_ap l2) (negb (Ring info =? 0)) (Write info) in if negb allowed then Ok (TXLN_ACCESS_PERMISSION_PAGE, canary) else let* p := page_of l2 mva in Ok (TXLN_OK, fst p) | _ => let* p := page_of l2 mva in Ok (TXLN_OK, fst p) end = Ok x /\ agrees pi info mva x).
    { intros H. bind_inv H. injection H as <-. rewrite E0. cbn [rbind]. eapply checked_agrees; [exact E | intros q Hq; exact (v5_perms_allow c _ q _ _ Hq) | exact (page_of_agrees _ _ _ E0) | | | destruct (domain_access _ _) as [| [] |]; try reflexivity; destruct (v5_allow_access _ _ _ _) as [[] |]; reflexivity]; discriminate. }
    intros H. apply finish. destruct (l2_Type l2); [injection H as <-; eexists; split; [reflexivity | now right] | exact (page H) | exact (page H)].
  - unfold v5_GetSectionInfo, v5_translate_section. intros H. apply finish. bind_inv H. injection H as <-. eapply checked_agrees; [exact E | intros q Hq; exact (v5_perms_allow c _ q _ _ Hq) | | | | reflexivity]; try discriminate. rewrite (base eq_refl). apply section_agrees.
Qed.
(** The same for ARMv6 and accesses that are no fetches, in a
    domain with any access: without, Translate checks nothing and GetInfo
    permits nothing. *)
Theorem v6_GetInfo_agrees c va info fd pi : 0 <= va < 2 ^ 32 -> Fetch info = false -> (forall l1, v6_get_l1_descriptor mem c va = Ok l1 -> domain_access (dacr c) (l1_Domain l1) <> 0) ->
  v6_GetInfo mem user_exec kernel_exec c va = Ok pi -> exists t fd1 c1, v6_Translate mem va info fd c = Ok (t, fd1, c1) /\ agrees pi info va t.
Proof.
  intros Hva Hf N. unfold v6_GetInfo, v6_Translate. replace (u32 va) with va by (symmetry; apply wrap_small; exact Hva). destruct (negb (should_be_enabled (around c))).
  { intros [= <-]. do 3 eexists. split; [reflexivity | apply identity_agrees]. }
  destruct (v6_get_l1_descriptor mem c va) as [l1 |] eqn:E1; cbn [rbind]; [| discriminate]. specialize (N l1 eq_refl).
  assert (finish : forall y, (exists x, y = Ok x /\ agrees pi info va x) -> exists t fd1 c1, (let* x := y in Ok (x, l1_Domain l1, if SideEffects info then v6_handle_result (fst x) (l1_Domain l1) va info c else c)) = Ok (t, fd1, c1) /\ agrees pi info va t).
  { intros y (x & -> & A). cbn [rbind]. eauto. }
  assert (swap : forall (A : Type) (f0 f2 f1 f3 : A) d, d <> 0 -> match d with 2 => f2 | 1 => f1 | _ => f3 end = match d with 0 => f0 | 1 => f1 | 2 => f2 | _ => f3 end) by (intros A f0 f2 f1 f3 [| [] |]; congruence).
  assert (base : l1_Type l1 = L1_Section -> exists w, l1_BaseAddr l1 = Z.land w 0xfff00000).
  { unfold v6_get_l1_descriptor in E1. destruct (read_word mem _) as [w |]; [| discriminate]. cbn [rbind] in E1. unfold v6_ConstructL1 in E1. cbn zeta in E1. intros T. exists w.
    destruct (Z.land w 3) as [| [[] | [] |] |]; try (injection E1 as <-; discriminate); destruct (_ =? 0); try discriminate; now injection E1 as <-. }
  destruct (l1_Type l1) eqn:ET; [intros [= <-]; apply finish; eexists; split; [reflexivity | now left] | | | discriminate].
  - unfold v6_GetCoarseInfo, v6_translate_coarse. destruct (v6_get_l2_descriptor_coarse mem va l1) as [l2 |]; cbn [rbind]; [| discriminate].
    assert (page : (let* p := domain_perms (domain_access (dacr c) (l1_Domain l1)) (v6_fill_access_perms (l2_ap l2)) in let* a := page_of l2 va in Ok (page_info user_exec kernel_exec (fst a) (snd a) p)) = Ok pi ->
      exists x, match domain_access (dacr c) (l1_Domain l1) with 2 => Ok (TXLN_ACCESS_DOMAIN_PAGE, canary) | 1 => let* allowed := v6_allow_access (l2_ap l2) (l2_xn l2) info in if negb allowed then Ok (TXLN_ACCESS_PERMISSION_PAGE, canary) else let* p := page_of l2 va in Ok (TXLN_OK, fst p) | _ => let* p := page_of l2 va in Ok (TXLN_OK, fst p) end = Ok x /\ agrees pi info va x).
    { intros H. bind_inv H. injection H as <-. rewrite E0. cbn [rbind]. assert (N2 : domain_access (dacr c) (l1_Domain l1) <> 2) by (intros X; rewrite X in E; discriminate).
      refine (checked_agrees _ _ _ _ _ _ _ _ _ _ TXLN_ACCESS_DOMAIN_PAGE TXLN_ACCESS_PERMISSION_PAGE _ _ E (fun q Hq => v6_perms_allow _ (l2_xn l2) q info Hf Hq) (page_of_agrees _ _ _ E0) _ _ _); [discriminate | discriminate |].
      destruct (domain_access _ _) as [| [| [] |] |]; try congruence; try reflexivity; destruct (v6_allow_access _ _ _) as [[] |]; reflexivity. }
    intros H. apply finish. destruct (l2_Type l2); [injection H as <-; eexists; split; [reflexivity | now right] | exact (page H) | exact (page H)].
  - unfold v6_GetSectionInfo, v6_translate_section. intros H. apply finish. bind_inv H. injection H as <-. assert (N2 : domain_access (dacr c) (l1_Domain l1) <> 2) by (intros X; rewrite X in E; discriminate). destruct (base eq_refl) as [w Ew].
    refine (checked_agrees _ _ _ _ _ _ _ _ (Z.lor (l1_BaseAddr l1) (Z.land va 0xfffff)) _ TXLN_ACCESS_DOMAIN_SECTION TXLN_ACCESS_PERMISSION_SECTION _ _ E (fun q Hq => v6_perms_allow _ (l1_XN l1) q info Hf Hq) _ _ _ _); [rewrite Ew; apply section_agrees | discriminate | discriminate |].
    destruct (domain_access _ _) as [| [| [] |] |]; try congruence; reflexivity.
Qed.
End Agreement.

(** ** Translations and flushes *)

(** What a translation answers, without its effects. *)
Definition answer_of {U} (r : result (translation * Z * U)) : result translation := rmap (fun x => fst (fst x)) r.
Lemma v6_Translate_same mem va info fd u u1 : same_translation u u1 -> answer_of (v6_Translate mem va info fd u1) = answer_of (v6_Translate mem va info fd u).
Proof.
  intros (E1 & E2 & E3). unfold v6_Translate, v6_get_l1_descriptor, v6_translate_section, v6_translate_coarse. rewrite E1, E2, E3. destruct (negb _); [reflexivity |].
  destruct (read_word mem _) as [w |]; cbn [rbind]; [| reflexivity]. destruct (v6_ConstructL1 w) as [l1 |]; cbn [rbind]; [| reflexivity]. unfold answer_of, rmap.
  match goal with |- rbind (rbind ?y _) _ = rbind (rbind ?y _) _ => destruct y; reflexivity end.
Qed.
Lemma guest_run_translations pmu_events l c c1 : guest_run pmu_events l c = Ok c1 ->
  exists lp, published (around (unit_ c1)) = published (around (unit_ c)) ++ lp
  /\ (flushed lp \/ forall mem va info fd, answer_of (v6_Translate mem va info fd (unit_ c1)) = answer_of (v6_Translate mem va info fd (unit_ c))).
Proof.
  intros E. destruct (guest_run_safe pmu_events l c c1 E) as [(lp & P & F) _]. exists lp. split; [exact P |]. destruct F as [F | F]; [right | now left]. intros. now apply v6_Translate_same.
Qed.
(** C23. Whatever a guest does with the control coprocessor of
    ARMv6 from its reset on: the MMU is enabled exactly when the control
    register says so, and if anything it does from then on changes any
    translation, both translation caches are told to flush. *)
Theorem translation_changes_flush pmu_events before tre afe f ctx rw ro prw w selected reads writes c : should_be_enabled w = false ->
  guest_run pmu_events before (mkArm selected reads writes (new_ArmControlCoprocessorv6 tre afe f ctx rw ro prw w)) = Ok c ->
  should_be_enabled (around (unit_ c)) = bit (sctl_word (unit_ c)) 0
  /\ forall l c1, guest_run pmu_events l c = Ok c1 -> exists lp, published (around (unit_ c1)) = published (around (unit_ c)) ++ lp
     /\ (flushed lp \/ forall mem va info fd, answer_of (v6_Translate mem va info fd (unit_ c1)) = answer_of (v6_Translate mem va info fd (unit_ c))).
Proof.
  intros Hw Hb. split.
  - destruct (guest_run_safe _ _ _ _ Hb) as [_ E]. apply E. now apply new_in_step.
  - intros l c1. apply guest_run_translations.
Qed.

(** ** Faults *)

Lemma bits_sum (b : bool) d bits : 0 <= bits < 16 -> Z.lor (Z.lor (if b then 0x800 else 0) (Z.shiftl (Z.land d 0xf) 4)) bits = (if b then 2048 else 0) + 16 * (d mod 16) + bits.
Proof.
  intros Hb. change 0xf with (Z.ones 4). rewrite Z.land_ones, Z.shiftl_mul_pow2 by lia. pose proof (Z.mod_pos_bound d (2 ^ 4) ltac:(lia)) as Hd. change (2 ^ 4) with 16 in *.
  replace (if b then 0x800 else 0) with ((if b then 8 else 0) * 2 ^ 8) by now destruct b. rewrite lor_low by lia. replace ((if b then 8 else 0) * 2 ^ 8 + d mod 16 * 16) with (((if b then 128 else 0) + d mod 16) * 2 ^ 4) by (destruct b; lia).
  rewrite lor_low by lia. destruct b; lia.
Qed.
(** C25. The fault of an access with side effects, and only that, is
    what the guest reads then: the status register has its kind, its domain
    and whether it is a write, the address register the address; a fetch has
    registers of its own, without the domain. *)
Theorem v6_faults_reported pmu_events mem va info fd u r phys d u1 selected reads writes : 0 <= va < 2 ^ 32 -> SideEffects info = true -> v6_Translate mem va info fd u = Ok ((r, phys), d, u1) ->
  match fault_bits r with
  | None => u1 = u
  | Some bits =>
      exists c2 c3, mrc pmu_events (selectors_of (if Fetch info then IFSR else DFSR)) (mkArm selected reads writes u1) = Ok (true, (if Write info then 2048 else 0) + 16 * (if Fetch info then 0 else d mod 16) + bits, c2)
        /\ mrc pmu_events (selectors_of (if Fetch info then IFAR else DFAR)) c2 = Ok (true, va, c3)
        /\ forall q, ~ In q [IFSR; IFAR; DFSR; DFAR] -> held u1 q = held u q
  end.
Proof.
  intros Hva Hse. unfold v6_Translate. replace (u32 va) with va by (symmetry; apply wrap_small; exact Hva). rewrite Hse. destruct (negb _); [intros [= <- <- <- <-]; reflexivity |].
  destruct (v6_get_l1_descriptor mem u va) as [l1 |]; cbn [rbind]; [| discriminate]. match goal with |- rbind ?y _ = _ -> _ => destruct y as [t |]; cbn [rbind]; [| discriminate] end.
  intros [= -> <- <-]. cbn [fst]. set (u1 := v6_handle_result r (l1_Domain l1) va info u). destruct (fault_bits r) as [bits |] eqn:Eb; [| unfold u1, v6_handle_result; now rewrite Eb].
  assert (Hb : 0 <= bits < 16) by (destruct r; try discriminate Eb; injection Eb as <-; lia). pose proof (bits_sum (Write info) (l1_Domain l1) bits Hb) as B1. pose proof (bits_sum (Write info) 0 bits Hb) as B0.
  destruct (mrc_register pmu_events (if Fetch info then IFSR else DFSR) (mkArm selected reads writes u1)) as (c2 & E2 & U2). destruct (mrc_register pmu_events (if Fetch info then IFAR else DFAR) c2) as (c3 & E3 & U3).
  exists c2, c3. rewrite E2, E3, U2. cbn [unit_]. unfold u1, v6_handle_result. rewrite Eb. cbn zeta. split; [| split].
  - do 3 f_equal. destruct (Fetch info); cbn [held with_faults faults set_ifar set_ifsr set_dfar set_dfsr ifsr dfsr negb]; [exact B0 | exact B1].
  - destruct (Fetch info); reflexivity.
  - intros q Hq. destruct (Fetch info), q; try reflexivity; exfalso; apply Hq; cbn; auto.
Qed.
(** A domain without access is checked by GetInfo, but not by Translate. *)
Lemma v6_open_domain mem ux kx c va l1 info pi : v6_get_l1_descriptor mem c va = Ok l1 -> l1_Type l1 = L1_Section -> domain_access (dacr c) (l1_Domain l1) = 0 -> should_be_enabled (around c) = true -> 0 <= va < 2 ^ 32 ->
  v6_GetInfo mem ux kx c va = Ok pi -> permits pi info = false /\ exists phys d c1, v6_Translate mem va info 0 c = Ok ((TXLN_OK, phys), d, c1).
Proof.
  intros E T D En Hva. unfold v6_GetInfo, v6_Translate. replace (u32 va) with va by (symmetry; apply wrap_small; exact Hva). rewrite En, E. cbn [negb rbind]. rewrite T. unfold v6_GetSectionInfo, v6_translate_section. rewrite D. cbn.
  intros [= <-]. split; [unfold permits; cbn; now destruct (negb _), (Write info) | eauto].
Qed.

(** ** Examples *)

Definition demo_tables (a : Z) : option Z := Some (if a =? 0x4004 then 0x8001 else if a =? 0x808c then 0x0abcdff2 else 0).
Definition demo_world (enabled : bool) : world := mkWorld enabled [] false ∅.
Definition no_faults : fault_registers := mkFaults 0 0 0 0 0 0.
Definition demo_v5 : ArmControlCoprocessor := mkV5 0 (mkCp1 true false false) 0x4000 1 no_faults new_PMU (demo_world true).
Definition reset_v6 : ArmControlCoprocessorv6 := new_ArmControlCoprocessorv6 false false no_faults 0 0 0 0 (demo_world false).
Definition demo_v6 : ArmControlCoprocessorv6 := with_around (demo_world true) (with_tables 0x4000 0 0 1 reset_v6).
Definition user_read_access : AccessInfo := mkAccess 0 false false true.
Lemma demo_words : words demo_tables.
Proof. intros a w [= <-]. destruct (a =? 0x4004), (a =? 0x808c); lia. Qed.
Lemma v5_Translate_refines_walk_witness : words demo_tables /\ v5_Translate demo_tables 0x00123456 user_read_access 0 demo_v5 = Ok ((TXLN_OK, 0x0abcd456), 0, demo_v5).
Proof.
  split; [exact demo_words |]. refine (v5_Translate_refines_walk demo_tables demo_words 0x00123456 user_read_access 0 demo_v5 _ (TXLN_OK, 0x0abcd456) eq_refl _ _ eq_refl eq_refl _ _).
  - lia.
  - cbn. lia.
  - reflexivity.
  - vm_compute. reflexivity.
Defined.
Definition user_write_access : AccessInfo := mkAccess 0 true false true.
Lemma v6_Translate_refines_walk_witness : words demo_tables
  /\ v6_Translate demo_tables 0x00123456 user_write_access 0 demo_v6 = Ok ((TXLN_ACCESS_PERMISSION_PAGE, canary), 0, v6_handle_result TXLN_ACCESS_PERMISSION_PAGE 0 0x00123456 user_write_access demo_v6).
Proof.
  split; [exact demo_words |]. refine (v6_Translate_refines_walk demo_tables demo_words 0x00123456 user_write_access 0 demo_v6 _ (TXLN_ACCESS_PERMISSION_PAGE, canary) eq_refl _ _ eq_refl _ _).
  - lia.
  - cbn. lia.
  - vm_compute. discriminate.
  - vm_compute. reflexivity.
Defined.
Definition demo_info5 : PageInfo := page_info false false 0x0abcd456 0xfff all_perms.
Lemma v5_GetInfo_agrees_witness : v5_GetInfo demo_tables false false demo_v5 0x00123456 = Ok demo_info5
  /\ exists t fd1 c1, v5_Translate demo_tables 0x00123456 user_write_access 0 demo_v5 = Ok (t, fd1, c1) /\ agrees demo_info5 user_write_access 0x00123456 t.
Proof.
  assert (E : v5_GetInfo demo_tables false false demo_v5 0x00123456 = Ok demo_info5) by (vm_compute; reflexivity).
  split; [exact E |]. exact (v5_GetInfo_agrees demo_tables false false demo_v5 0x00123456 user_write_access 0 demo_info5 E).
Defined.
Definition demo_info6 : PageInfo := page_info false false 0x0abcd456 0xfff (mkPerms true false true false).
Lemma v6_GetInfo_agrees_witness : v6_GetInfo demo_tables false false demo_v6 0x00123456 = Ok demo_info6
  /\ exists t fd1 c1, v6_Translate demo_tables 0x00123456 user_write_access 0 demo_v6 = Ok (t, fd1, c1) /\ agrees demo_info6 user_write_access 0x00123456 t.
Proof.
  assert (E : v6_GetInfo demo_tables false false demo_v6 0x00123456 = Ok demo_info6) by (vm_compute; reflexivity).
  split; [exact E |]. refine (v6_GetInfo_agrees demo_tables false false demo_v6 0x00123456 user_write_access 0 demo_info6 _ eq_refl _ E); [lia |].
  intros l1 H. vm_compute in H. injection H as <-. vm_compute. discriminate.
Defined.
(** The table base is written, with the selectors that choose it. *)
Definition demo_accesses : list guest_access := [GWrite 0 0; GWrite 1 0; GWrite 2 2; GWrite 3 0; GWrite 4 0x4000].
Definition demo_machine : ArmCoprocessor ArmControlCoprocessorv6 := mkArm (mkSel 0 0 0 0) ∅ ∅ reset_v6.
Lemma translation_changes_flush_witness : exists c, guest_run (fun _ => None) demo_accesses demo_machine = Ok c
  /\ exists lp, published (around (unit_ c)) = published (around (unit_ demo_machine)) ++ lp
  /\ (flushed lp \/ forall mem va info fd, answer_of (v6_Translate mem va info fd (unit_ c)) = answer_of (v6_Translate mem va info fd (unit_ demo_machine))).
Proof.
  destruct (translation_changes_flush (fun _ => None) [] false false no_faults 0 0 0 0 (demo_world false) (mkSel 0 0 0 0) ∅ ∅ demo_machine eq_refl eq_refl) as [_ H].
  eexists. assert (E : guest_run (fun _ => None) demo_accesses demo_machine = Ok (mkArm (mkSel 0 0 2 0) ∅ (count_access (mkSel 0 0 2 0) ∅) (publish tlb_flush (with_tables 0x4000 0 0 0xffffffff reset_v6)))) by reflexivity.
  split; [exact E | exact (H _ _ E)].
Defined.
Lemma v6_faults_reported_witness :
  let u1 := v6_handle_result TXLN_ACCESS_PERMISSION_PAGE 0 0x00123456 user_write_access demo_v6 in
  exists c2 c3, mrc (fun _ => None) (selectors_of DFSR) (mkArm (mkSel 0 0 0 0) ∅ ∅ u1) = Ok (true, 0x80f, c2) /\ mrc (fun _ => None) (selectors_of DFAR) c2 = Ok (true, 0x00123456, c3).
Proof.
  intros u1. destruct (v6_faults_reported (fun _ => None) demo_tables 0x00123456 user_write_access 0 demo_v6 TXLN_ACCESS_PERMISSION_PAGE canary 0 u1 (mkSel 0 0 0 0) ∅ ∅ ltac:(lia) eq_refl ltac:(vm_compute; reflexivity)) as (c2 & c3 & H1 & H2 & _).
  exists c2, c3. split; [exact H1 | exact H2].
Defined.
