(* ===== verification/ArmInterrupts.v ===== *)
(** * The generic interrupt controller of the ARM boards

    GIC (modules/arm-system-devices, GenericInterruptController.cpp): a
    distributor of 96 interrupts and the interface of one processor, which
    nests interrupts by priority; the interrupts that are being handled are a
    list linked through [last_active].  The controller drives a line of the
    class [IRQLine], as the lines of a simulated thread are.  The abstract
    machine [nest] is a stack of interrupts; the controller refines it as long
    as the priority of an interrupt stays as it is while it is handled, and its
    list goes round in a circle otherwise ([complete_never_ends]). *)

From Stdlib Require Import ZArith Lia List Bool Sorted.
From stdpp Require Import base numbers list.
From S2P Require Import Prelude Thread.
#[local] Open Scope Z_scope.
#[local] Open Scope gensim_scope.

(** ** Lines that a controller drives *)

Class IRQLine (L : Type) := {
  irq_Assert : L -> L;
  irq_Rescind : L -> L;
  irq_IsAsserted : L -> bool;
  asserted_Assert : forall l, irq_IsAsserted (irq_Assert l) = true;
  asserted_Rescind : forall l, irq_IsAsserted (irq_Rescind l) = false }.
#[export] Hint Rewrite @asserted_Assert @asserted_Rescind : bits.

(** A line of a thread. *)
#[refine] Instance cpu_line (n : nat) : IRQLine ThreadInstance := {
  irq_Assert := AssertIRQ n; irq_Rescind := RescindIRQLine n; irq_IsAsserted t := asserted t n }.
Proof.
  - intros t. rewrite asserted_AssertIRQ. now rewrite decide_True.
  - intros t. rewrite asserted_RescindIRQLine. now rewrite decide_True.
Defined.

(** ** The generic interrupt controller *)

Module GIC.
(** The fields index, active and model are never read, and left out; nothing
    sets [edge_triggered] after the constructor. *)
Record GICIRQLine := mkIrq { enabled : bool; pending : bool; raised : bool; edge_triggered : bool; priority : Z }.
Definition new_irq : GICIRQLine := mkIrq false false false false 0.
Definition enable_irq (b : bool) (q : GICIRQLine) := mkIrq b (pending q) (raised q) (edge_triggered q) (priority q).
Definition pend_irq (b : bool) (q : GICIRQLine) := mkIrq (enabled q) b (raised q) (edge_triggered q) (priority q).
Definition raise_irq (b : bool) (q : GICIRQLine) := mkIrq (enabled q) (pending q) b (edge_triggered q) (priority q).
Definition prioritise_irq (p : Z) (q : GICIRQLine) := mkIrq (enabled q) (pending q) (raised q) (edge_triggered q) p.

Section Controller.
Context {L : Type} `{LL : IRQLine L}.
(** The loop of [complete] follows a list that may go round in a circle. *)
Variable fuel : nat.

Record GIC := mkGIC {
  irqs : list GICIRQLine; dist_ctrl : Z; cpu_targets : list Z; config : list Z;
  last_active : list Z; running_irq : Z; cpu_ctrl : Z; prio_mask : Z; binpnt : Z; current_pending : Z; running_priority : Z; irq_line : L }.
(** The six words of the configuration are not initialised: they are [cfg]. *)
Definition new_GIC (cfg : list Z) (l : L) : GIC := mkGIC (replicate 96 new_irq) 0 (replicate 24 0) cfg (replicate 96 1023) 1023 0 0 3 1023 0x100 l.
Definition with_irqs (v : list GICIRQLine) (g : GIC) := mkGIC v (dist_ctrl g) (cpu_targets g) (config g) (last_active g) (running_irq g) (cpu_ctrl g) (prio_mask g) (binpnt g) (current_pending g) (running_priority g) (irq_line g).
Definition with_dist (c : Z) (t cfg : list Z) (g : GIC) := mkGIC (irqs g) c t cfg (last_active g) (running_irq g) (cpu_ctrl g) (prio_mask g) (binpnt g) (current_pending g) (running_priority g) (irq_line g).
Definition with_running (la : list Z) (r p : Z) (g : GIC) := mkGIC (irqs g) (dist_ctrl g) (cpu_targets g) (config g) la r (cpu_ctrl g) (prio_mask g) (binpnt g) (current_pending g) p (irq_line g).
Definition with_cpu (c m b : Z) (g : GIC) := mkGIC (irqs g) (dist_ctrl g) (cpu_targets g) (config g) (last_active g) (running_irq g) c m b (current_pending g) (running_priority g) (irq_line g).
Definition with_output (p : Z) (l : L) (g : GIC) := mkGIC (irqs g) (dist_ctrl g) (cpu_targets g) (config g) (last_active g) (running_irq g) (cpu_ctrl g) (prio_mask g) (binpnt g) p (running_priority g) l.

Definition get_gic_irq (index : Z) (l : list GICIRQLine) : result GICIRQLine :=
  check* index <? 96 or AssertFailed in vec_get l index.
Definition change_irq (f : GICIRQLine -> GICIRQLine) (index : Z) (l : list GICIRQLine) : result (list GICIRQLine) :=
  let* q := get_gic_irq index l in vec_set l index (f q).

Definition signalled (q : GICIRQLine) : bool := enabled q && (pending q || (negb (edge_triggered q) && raised q)).
Fixpoint best_loop (irqi : Z) (l : list GICIRQLine) (best : Z * Z) : Z * Z :=
  match l with
  | [] => best
  | q :: r => best_loop (irqi + 1) r (if signalled q && (priority q <? fst best) then (priority q, irqi) else best)
  end.
(** GICCPUInterface::update; the vector has the 96 interrupts of the loop. *)
Definition update (g : GIC) : GIC :=
  if negb (Z.testbit (cpu_ctrl g) 0) || negb (Z.testbit (dist_ctrl g) 0) then with_output 1023 (irq_Rescind (irq_line g)) g
  else
    let '(best_prio, best_irq) := best_loop 0 (irqs g) (0x100, 1023) in
    let raise := (best_prio <? prio_mask g) && (best_prio <? running_priority g) in
    with_output (if best_prio <? prio_mask g then best_irq else 1023) (if raise then irq_Assert (irq_line g) else irq_Rescind (irq_line g)) g.
Definition acknowledge (g : GIC) : result (Z * GIC) :=
  let irq := current_pending g in
  if irq =? 1023 then Ok (1023, g)
  else
    let* q := get_gic_irq irq (irqs g) in
    if running_priority g <=? priority q then Ok (1023, g)
    else
      let* la := vec_set (last_active g) irq (running_irq g) in
      let* l := change_irq (pend_irq false) irq (irqs g) in
      let* q1 := get_gic_irq irq l in
      Ok (irq, update (with_running la irq (priority q1) (with_irqs l g))).
(** The loop of [complete], from an interrupt that is not the one to remove. *)
Fixpoint unlink (n : nat) (la : list Z) (irq tmp : Z) : result (list Z) :=
  match n with
  | O => Err OutOfFuel
  | S n =>
      let* next := vec_get la tmp in
      if next =? 1023 then Ok la
      else if next =? irq then let* after := vec_get la irq in vec_set la tmp after
      else unlink n la irq next
  end.
Definition complete (irq : Z) (g : GIC) : result GIC :=
  if 96 <=? irq then Ok g
  else if running_irq g =? 1023 then Ok g
  else
    let* g1 :=
      if negb (irq =? running_irq g) then
        let* la := unlink fuel (last_active g) irq (running_irq g) in Ok (with_running la (running_irq g) (running_priority g) g)
      else
        let* r := vec_get (last_active g) (running_irq g) in
        if r =? 1023 then Ok (with_running (last_active g) r 0x100 g)
        else let* q := get_gic_irq r (irqs g) in Ok (with_running (last_active g) r (priority q) g) in
    Ok (update g1).

(** *** The distributor *)

Definition set_enabled_irq (q : GICIRQLine) : GICIRQLine :=
  let q1 := enable_irq true q in if raised q1 && negb (edge_triggered q1) then pend_irq true q1 else q1.
(** The loop over the bits of a byte. *)
Definition change_bits (f : GICIRQLine -> GICIRQLine) (base bits : Z) (l : list GICIRQLine) : result (list GICIRQLine) :=
  fold_left (fun acc i => let* l := acc in if Z.testbit bits i then change_irq f (base + i) l else Ok l) [0; 1; 2; 3; 4; 5; 6; 7] (Ok l).
(** The loop over the bytes of the data. *)
Fixpoint each_byte (byte : Z -> Z -> list GICIRQLine -> result (list GICIRQLine)) (step : Z) (len : nat) (base data : Z) (l : list GICIRQLine) : result (list GICIRQLine) :=
  match len with
  | O => Ok l
  | S len => let* l1 := byte base (Z.land data 0xff) l in each_byte byte step len (base + step) (Z.shiftr data 8) l1
  end.
Definition offset_in (off lo hi : Z) : bool := (lo <=? off) && (off <=? hi).
Definition dist_Read (off : Z) (g : GIC) : result (option Z) :=
  if off =? 0 then Ok (Some (dist_ctrl g))
  else if off =? 4 then Ok (Some 2)
  else if offset_in off 0x100 0x108 || offset_in off 0x180 0x188 || offset_in off 0x200 0x208 || offset_in off 0x280 0x288 || offset_in off 0x400 0x45c || offset_in off 0x800 0x85c then Ok (Some 0)
  else if offset_in off 0xc00 0xc14 then let* v := vec_get (config g) (Z.shiftr (Z.land off 0x1f) 2) in Ok (Some v)
  else if off =? 0xfe0 then Ok (Some 0x90) else if off =? 0xfe4 then Ok (Some 0x13) else if off =? 0xfe8 then Ok (Some 4) else if off =? 0xfec then Ok (Some 0)
  else Ok None.
(** Whether the register exists, and the controller after the write. *)
Definition dist_Write (off len data : Z) (g : GIC) : result (bool * GIC) :=
  let changed (r : result (list GICIRQLine)) := let* l := r in Ok (true, update (with_irqs l g)) in
  let n := Z.to_nat len in
  if off =? 0 then Ok (true, update (with_dist (Z.land data 1) (cpu_targets g) (config g) g))
  else if offset_in off 0x100 0x108 then changed (each_byte (change_bits set_enabled_irq) 8 n ((off - 0x100) * 8) data (irqs g))
  else if offset_in off 0x180 0x188 then changed (each_byte (change_bits (enable_irq false)) 8 n ((off - 0x180) * 8) data (irqs g))
  else if offset_in off 0x200 0x208 then changed (each_byte (change_bits (pend_irq true)) 8 n ((off - 0x200) * 8) data (irqs g))
  else if offset_in off 0x280 0x288 then changed (each_byte (change_bits (pend_irq false)) 8 n ((off - 0x280) * 8) data (irqs g))
  else if offset_in off 0x400 0x45c then changed (each_byte (fun i p => change_irq (prioritise_irq p) i) 1 n (off - 0x400) data (irqs g))
  else if offset_in off 0x800 0x85c then let* t := vec_set (cpu_targets g) (Z.shiftr (Z.land off 0x7f) 2) (u32 data) in Ok (true, with_dist (dist_ctrl g) t (config g) g)
  else if offset_in off 0xc00 0xc14 then let* c := vec_set (config g) (Z.shiftr (Z.land off 0x1f) 2) (u32 data) in Ok (true, with_dist (dist_ctrl g) (cpu_targets g) c g)
  else Ok (off =? 0xf00, g).

(** *** The interface of the processor *)

Definition cpu_Read (off : Z) (g : GIC) : result (option Z * GIC) :=
  if off =? 0 then Ok (Some (cpu_ctrl g), g)
  else if off =? 4 then Ok (Some (prio_mask g), g)
  else if off =? 8 then Ok (Some (binpnt g), g)
  else if off =? 0xc then let* x := acknowledge g in Ok (Some (fst x), snd x)
  else if off =? 0x14 then Ok (Some (running_priority g), g)
  else if off =? 0x18 then Ok (Some (current_pending g), g)
  else Ok (None, g).
Definition cpu_Write (off data : Z) (g : GIC) : result (bool * GIC) :=
  if off =? 0 then Ok (true, update (with_cpu (Z.land data 1) (prio_mask g) (binpnt g) g))
  else if off =? 4 then Ok (true, update (with_cpu (cpu_ctrl g) (Z.land data 0xff) (binpnt g) g))
  else if off =? 8 then Ok (true, update (with_cpu (cpu_ctrl g) (prio_mask g) (Z.land data 7) g))
  else if off =? 0x10 then let* g1 := complete (u32 data) g in Ok (true, g1)
  else Ok (false, g).

(** *** The lines of devices *)

Definition AssertLine (n : Z) (g : GIC) : result GIC :=
  let* q := vec_get (irqs g) n in
  if negb (raised q) then
    let q1 := raise_irq true q in
    let* l := vec_set (irqs g) n (if edge_triggered q1 then pend_irq true q1 else q1) in Ok (update (with_irqs l g))
  else Ok g.
Definition RescindLine (n : Z) (g : GIC) : result GIC :=
  let* q := vec_get (irqs g) n in
  if raised q then let* l := vec_set (irqs g) n (raise_irq false q) in Ok (update (with_irqs l g)) else Ok g.
End Controller.
Arguments GIC : clear implicits.
(** *** What the controller does: nested interrupts

    The interrupts that are being handled are a stack, the one that runs on
    top.  Of the enabled interrupts that are pending or raised and whose
    priority is below the mask, the one with the least priority and number is
    the highest; it interrupts the processor if its priority is less than the
    one of the interrupt that runs. *)

Record nest := mkNest { n_irqs : list GICIRQLine; n_dist : bool; n_cpu : bool; n_mask : Z; n_active : list Z }.
Definition new_nest : nest := mkNest (replicate 96 new_irq) false false 0 [].
Definition irq_at (l : list GICIRQLine) (i : Z) : GICIRQLine := default new_irq (l !! Z.to_nat i).
Definition each (h : Z -> GICIRQLine -> GICIRQLine) (l : list GICIRQLine) : list GICIRQLine := imap (fun j q => h (Z.of_nat j) q) l.
Definition wants (q : GICIRQLine) : bool := enabled q && (pending q || raised q).
Definition of_priority (l : list GICIRQLine) (p : Z) : list Z := List.filter (fun i => wants (irq_at l i) && (priority (irq_at l i) =? p)) (seqZ 0 96).
Definition ranked (l : list GICIRQLine) (mask : Z) : list Z := flat_map (of_priority l) (seqZ 0 mask).
Definition highest (n : nest) : option Z := if n_dist n && n_cpu n then head (ranked (n_irqs n) (n_mask n)) else None.
Definition top_priority (n : nest) : Z := match n_active n with [] => 0x100 | i :: _ => priority (irq_at (n_irqs n) i) end.
Definition interrupts (n : nest) : option Z :=
  match highest n with Some i => if priority (irq_at (n_irqs n) i) <? top_priority n then Some i else None | None => None end.

Inductive gic_event :=
| LineUp (i : Z) | LineDown (i : Z) | DistControl (v : Z)
| Enable (off len data : Z) | Disable (off len data : Z) | Pend (off len data : Z) | Unpend (off len data : Z) | Prioritise (off len data : Z)
| CpuControl (v : Z) | Mask (v : Z) | Acknowledge | Complete (i : Z) | RunningPriority | HighestPending.

Definition byte_of (data i : Z) : Z := Z.land (Z.shiftr data (8 * i)) 0xff.
Definition on_irqs (h : Z -> GICIRQLine -> GICIRQLine) (n : nest) : nest := mkNest (each h (n_irqs n)) (n_dist n) (n_cpu n) (n_mask n) (n_active n).
Definition with_active (a : list Z) (n : nest) : nest := mkNest (n_irqs n) (n_dist n) (n_cpu n) (n_mask n) a.
(** The interrupts whose bits are set in data written at a byte offset. *)
Definition chosen (off len data j : Z) : bool := (8 * off <=? j) && (j <? 8 * (off + len)) && Z.testbit data (j - 8 * off).
Definition on_chosen (off len data : Z) (f : GICIRQLine -> GICIRQLine) : nest -> nest := on_irqs (fun j q => if chosen off len data j then f q else q).
Definition nest_step (e : gic_event) (n : nest) : Z * nest :=
  match e with
  | LineUp i => (0, on_irqs (fun j q => if j =? i then raise_irq true q else q) n)
  | LineDown i => (0, on_irqs (fun j q => if j =? i then raise_irq false q else q) n)
  | DistControl v => (0, mkNest (n_irqs n) (Z.testbit v 0) (n_cpu n) (n_mask n) (n_active n))
  | Enable off len data => (0, on_chosen off len data (fun q => enable_irq true (pend_irq (pending q || raised q) q)) n)
  | Disable off len data => (0, on_chosen off len data (enable_irq false) n)
  | Pend off len data => (0, on_chosen off len data (pend_irq true) n)
  | Unpend off len data => (0, on_chosen off len data (pend_irq false) n)
  | Prioritise off len data => (0, on_irqs (fun j q => if (off <=? j) && (j <? off + len) then prioritise_irq (byte_of data (j - off)) q else q) n)
  | CpuControl v => (0, mkNest (n_irqs n) (n_dist n) (Z.testbit v 0) (n_mask n) (n_active n))
  | Mask v => (0, mkNest (n_irqs n) (n_dist n) (n_cpu n) (Z.land v 0xff) (n_active n))
  | Acknowledge =>
      match interrupts n with
      | Some i => (i, with_active (i :: n_active n) (on_irqs (fun j q => if j =? i then pend_irq false q else q) n))
      | None => (1023, n)
      end
  | Complete i => (0, with_active (List.filter (fun j => negb (j =? u32 i)) (n_active n)) n)
  | RunningPriority => (top_priority n, n)
  | HighestPending => (default 1023 (highest n), n)
  end.
(** The registers of the interrupts exist, and the priority of an interrupt
    stays as it is while the interrupt is handled. *)
Definition admits (e : gic_event) (n : nest) : bool :=
  match e with
  | LineUp i | LineDown i => (0 <=? i) && (i <? 96)
  | Enable off len _ | Disable off len _ | Pend off len _ | Unpend off len _ => (0 <=? off) && (off <=? 8) && (0 <=? len) && (off + len <=? 12)
  | Prioritise off len data =>
      (0 <=? off) && (off <=? 92) && (0 <=? len) && (off + len <=? 96)
      && forallb (fun i => negb ((off <=? i) && (i <? off + len)) || (byte_of data (i - off) =? priority (irq_at (n_irqs n) i))) (n_active n)
  | _ => true
  end.
Fixpoint nest_run (es : list gic_event) (n : nest) : option (list Z * nest) :=
  match es with
  | [] => Some ([], n)
  | e :: r => if admits e n then let x := nest_step e n in option_map (fun y => (fst x :: fst y, snd y)) (nest_run r (snd x)) else None
  end.

Section Nesting.
Context {L : Type} `{LL : IRQLine L}.
Variable fuel : nat.
(** What the guest and the devices ask of the controller; an access that is
    refused answers -1. *)
Definition written (r : result (bool * GIC L)) : result (Z * GIC L) := let* x := r in Ok (if fst x then 0 else -1, snd x).
Definition gic_call (e : gic_event) (g : GIC L) : result (Z * GIC L) :=
  let read off := let* x := cpu_Read off g in Ok (default (-1) (fst x), snd x) in
  match e with
  | LineUp i => rmap (pair 0) (AssertLine i g)
  | LineDown i => rmap (pair 0) (RescindLine i g)
  | DistControl v => written (dist_Write 0 4 v g)
  | Enable off len data => written (dist_Write (0x100 + off) len data g)
  | Disable off len data => written (dist_Write (0x180 + off) len data g)
  | Pend off len data => written (dist_Write (0x200 + off) len data g)
  | Unpend off len data => written (dist_Write (0x280 + off) len data g)
  | Prioritise off len data => written (dist_Write (0x400 + off) len data g)
  | CpuControl v => written (cpu_Write fuel 0 v g)
  | Mask v => written (cpu_Write fuel 4 v g)
  | Acknowledge => read 0xc
  | Complete i => written (cpu_Write fuel 0x10 i g)
  | RunningPriority => read 0x14
  | HighestPending => read 0x18
  end.
Fixpoint gic_run (es : list gic_event) (g : GIC L) : result (list Z * GIC L) :=
  match es with
  | [] => Ok ([], g)
  | e :: r => let* x := gic_call e g in let* y := gic_run r (snd x) in Ok (fst x :: fst y, snd y)
  end.
End Nesting.
(** *** Lists of interrupts *)

Lemma length_each h l : length (each h l) = length l.
Proof. apply length_imap. Qed.
Lemma irq_at_each h l i : 0 <= i < Z.of_nat (length l) -> irq_at (each h l) i = h i (irq_at l i).
Proof.
  intros Hi. unfold irq_at, each. rewrite list_lookup_imap. destruct (lookup_lt_is_Some_2 l (Z.to_nat i)) as [q ->]; [lia |]. cbn. now rewrite Z2Nat.id by lia.
Qed.
Lemma irqs_ext l k : length l = length k -> (forall i, 0 <= i < Z.of_nat (length l) -> irq_at l i = irq_at k i) -> l = k.
Proof.
  intros E H. apply list_eq_same_length with (length l); [auto | auto |]. intros i x y Hi Hx Hy. specialize (H (Z.of_nat i) ltac:(lia)). unfold irq_at in H. rewrite Nat2Z.id, Hx, Hy in H. exact H.
Qed.
Lemma each_ext h k l : (forall i, 0 <= i < Z.of_nat (length l) -> h i (irq_at l i) = k i (irq_at l i)) -> each h l = each k l.
Proof. intros H. apply irqs_ext; rewrite !length_each; [reflexivity |]. intros i Hi. rewrite !irq_at_each by lia. now apply H. Qed.
Lemma each_id h l : (forall i, 0 <= i < Z.of_nat (length l) -> h i (irq_at l i) = irq_at l i) -> each h l = l.
Proof. intros H. apply irqs_ext; rewrite !length_each; [reflexivity |]. intros i Hi. rewrite irq_at_each by lia. now apply H. Qed.
Lemma each_each h k l : each h (each k l) = each (fun i q => h i (k i q)) l.
Proof. apply irqs_ext; rewrite !length_each; [reflexivity |]. intros i Hi. now rewrite !irq_at_each by (rewrite ?length_each; lia). Qed.
Lemma vec_get_irq l i : 0 <= i < Z.of_nat (length l) -> vec_get l i = Ok (irq_at l i).
Proof. intros Hi. apply vec_get_Ok. split; [lia |]. unfold irq_at. destruct (lookup_lt_is_Some_2 l (Z.to_nat i)) as [q ->]; [lia | reflexivity]. Qed.
Lemma vec_set_irq f l i : 0 <= i < Z.of_nat (length l) -> vec_set l i (f (irq_at l i)) = Ok (each (fun j q => if j =? i then f q else q) l).
Proof.
  intros Hi. apply vec_set_Ok. split; [lia |]. symmetry. apply irqs_ext; rewrite ?length_set_at, ?length_each; [reflexivity |]. intros j Hj. rewrite irq_at_each by lia. unfold irq_at at 1. rewrite lookup_set_at by lia.
  destruct (Z.eqb_spec j i) as [-> | N]; [now rewrite decide_True | now rewrite decide_False by lia].
Qed.
Lemma change_irq_each f l i : length l = 96%nat -> 0 <= i < 96 -> change_irq f i l = Ok (each (fun j q => if j =? i then f q else q) l).
Proof.
  intros E Hi. unfold change_irq, get_gic_irq. rewrite (proj2 (Z.ltb_lt i 96)) by lia. rewrite vec_get_irq by lia. cbn [rbind]. now apply vec_set_irq; lia.
Qed.

(** *** The loops of the distributor *)

Lemma change_bits_each f base bits l : length l = 96%nat -> 0 <= base -> base + 8 <= 96 ->
  change_bits f base bits l = Ok (each (fun j q => if (base <=? j) && (j <? base + 8) && Z.testbit bits (j - base) then f q else q) l).
Proof.
  intros E H0 H1. unfold change_bits.
  assert (G : forall ks l, NoDup ks -> Forall (fun i => 0 <= i < 8) ks -> length l = 96%nat ->
    fold_left (fun acc i => let* l := acc in if Z.testbit bits i then change_irq f (base + i) l else Ok l) ks (Ok l)
    = Ok (each (fun j q => if existsb (fun i => (j =? base + i) && Z.testbit bits i) ks then f q else q) l)).
  { clear l E. induction ks as [| i ks IH]; intros l Hn Hr E; cbn [fold_left existsb]; [f_equal; symmetry; now apply each_id |].
    apply NoDup_cons in Hn as [Hi Hn]. apply Forall_cons in Hr as [Ri Rr]. cbn [rbind]. destruct (Z.testbit bits i) eqn:Et.
    - rewrite change_irq_each by lia. rewrite IH by (rewrite ?length_each; auto). f_equal. rewrite each_each. apply each_ext. intros j Hj. rewrite andb_true_r. destruct (Z.eqb_spec j (base + i)) as [-> | N]; cbn [orb]; [| reflexivity].
      destruct (existsb _ ks) eqn:Ex; [| reflexivity]. apply existsb_exists in Ex as (k & Hk & B). apply andb_prop in B as [B _]. apply Z.eqb_eq in B. assert (k = i) as -> by lia. exfalso. apply Hi. now apply list_elem_of_In.
    - rewrite IH by auto. f_equal. apply each_ext. intros j Hj. now rewrite andb_false_r. }
  rewrite G; [| apply NoDup_ListNoDup; repeat (constructor; [cbn; lia |]); constructor | repeat (constructor; [lia |]); constructor | exact E]. f_equal. apply each_ext. intros j Hj.
  destruct (existsb _ _) eqn:Ex.
  - apply existsb_exists in Ex as (k & Hk & B). apply andb_prop in B as [B1 B2]. apply Z.eqb_eq in B1. assert (0 <= k < 8) by (cbn in Hk; lia). replace (j - base) with k by lia. rewrite B2. now rewrite (proj2 (Z.leb_le base j)), (proj2 (Z.ltb_lt j (base + 8))) by lia.
  - destruct (_ && _ && _) eqn:B; [| reflexivity]. apply andb_prop in B as [B B3]. apply andb_prop in B as [B1 B2]. apply Z.leb_le in B1. apply Z.ltb_lt in B2.
    rewrite <- not_true_iff_false in Ex. exfalso. apply Ex. apply existsb_exists. exists (j - base). rewrite B3, (proj2 (Z.eqb_eq j (base + (j - base)))) by lia. split; [cbn; lia | reflexivity].
Qed.
Lemma testbit_byte data i : 0 <= i < 8 -> Z.testbit (Z.land data 0xff) i = Z.testbit data i.
Proof. intros Hi. change 0xff with (Z.ones 8). rewrite Z.land_spec, Z.ones_spec_low by lia. apply andb_true_r. Qed.
Lemma each_byte_bits f n : forall base data l, length l = 96%nat -> 0 <= base -> base + 8 * Z.of_nat n <= 96 ->
  each_byte (change_bits f) 8 n base data l = Ok (each (fun j q => if (base <=? j) && (j <? base + 8 * Z.of_nat n) && Z.testbit data (j - base) then f q else q) l).
Proof.
  induction n as [| n IH]; intros base data l E H0 H1; cbn [each_byte].
  - f_equal. symmetry. apply each_id. intros i Hi. destruct (Z.leb_spec base i), (Z.ltb_spec i (base + 8 * Z.of_nat 0)); cbn [andb]; try reflexivity; lia.
  - rewrite change_bits_each by lia. cbn [rbind]. rewrite IH by (rewrite ?length_each; lia). f_equal. rewrite each_each. apply each_ext. intros j Hj.
    destruct (Z.leb_spec base j), (Z.ltb_spec j (base + 8)), (Z.leb_spec (base + 8) j), (Z.ltb_spec j (base + 8 + 8 * Z.of_nat n)), (Z.ltb_spec j (base + 8 * Z.of_nat (S n))); cbn [andb]; try lia; try reflexivity.
    + now rewrite testbit_byte by lia.
    + rewrite Z.shiftr_spec by lia. now replace (j - (base + 8) + 8) with (j - base) by lia.
Qed.
Lemma each_byte_priority n : forall base data l, length l = 96%nat -> 0 <= base -> base + Z.of_nat n <= 96 ->
  each_byte (fun i p => change_irq (prioritise_irq p) i) 1 n base data l = Ok (each (fun j q => if (base <=? j) && (j <? base + Z.of_nat n) then prioritise_irq (byte_of data (j - base)) q else q) l).
Proof.
  induction n as [| n IH]; intros base data l E H0 H1; cbn [each_byte].
  - f_equal. symmetry. apply each_id. intros i Hi. destruct (Z.leb_spec base i), (Z.ltb_spec i (base + Z.of_nat 0)); cbn [andb]; try reflexivity; lia.
  - rewrite change_irq_each by lia. cbn [rbind]. rewrite IH by (rewrite ?length_each; lia). f_equal. rewrite each_each. apply each_ext. intros j Hj. unfold byte_of.
    destruct (Z.eqb_spec j base) as [-> | N].
    + rewrite Z.sub_diag. rewrite (proj2 (Z.leb_gt (base + 1) base)), (proj2 (Z.leb_le base base)), (proj2 (Z.ltb_lt base (base + Z.of_nat (S n)))) by lia. reflexivity.
    + destruct (Z.leb_spec base j), (Z.leb_spec (base + 1) j), (Z.ltb_spec j (base + 1 + Z.of_nat n)), (Z.ltb_spec j (base + Z.of_nat (S n))); cbn [andb]; try lia; try reflexivity.
      rewrite Z.shiftr_shiftr by lia. now replace (8 + 8 * (j - (base + 1))) with (8 * (j - base)) by lia.
Qed.
(** *** The search for the highest interrupt *)

Definition plausible (l : list GICIRQLine) : Prop := length l = 96%nat /\ Forall (fun q => edge_triggered q = false /\ 0 <= priority q < 0x100) l.
Lemma plausible_at l i : plausible l -> 0 <= i < 96 -> edge_triggered (irq_at l i) = false /\ 0 <= priority (irq_at l i) < 0x100.
Proof. intros [E F] Hi. unfold irq_at. destruct (lookup_lt_is_Some_2 l (Z.to_nat i)) as [q Hq]; [lia |]. rewrite Hq. exact (proj1 (Forall_lookup _ _) F _ _ Hq). Qed.
Lemma plausible_each h l : (forall i q, edge_triggered q = false /\ 0 <= priority q < 0x100 -> edge_triggered (h i q) = false /\ 0 <= priority (h i q) < 0x100) -> plausible l -> plausible (each h l).
Proof.
  intros Hh [E F]. split; [now rewrite length_each |]. apply Forall_lookup. intros i q. unfold each. rewrite list_lookup_imap. destruct (l !! i) as [q0 |] eqn:Eq; [| discriminate]. intros [= <-]. apply Hh. exact (proj1 (Forall_lookup _ _) F _ _ Eq).
Qed.
Lemma signalled_wants q : edge_triggered q = false -> signalled q = wants q.
Proof. intros E. unfold signalled, wants. now rewrite E. Qed.

(** [best] is the interrupt with the least priority and number, if any. *)
Definition is_best (l : list GICIRQLine) (hi : Z) (best : Z * Z) : Prop :=
  (best = (0x100, 1023) \/ 0 <= snd best < hi /\ wants (irq_at l (snd best)) = true /\ priority (irq_at l (snd best)) = fst best)
  /\ forall j, 0 <= j < hi -> wants (irq_at l j) = true -> fst best < priority (irq_at l j) \/ fst best = priority (irq_at l j) /\ snd best <= j.
Lemma best_loop_best l rest : forall i best, plausible l -> 0 <= i -> (forall k, irq_at rest k = irq_at l (i + k) \/ k < 0 \/ Z.of_nat (length rest) <= k) -> i + Z.of_nat (length rest) = 96 ->
  is_best l i best -> is_best l 96 (best_loop i rest best).
Proof.
  induction rest as [| q rest IH]; intros i best Hl Hi Hr Hn Hb; cbn [best_loop].
  - cbn in Hn. now replace 96 with i by lia.
  - assert (Eq : q = irq_at l i) by (destruct (Hr 0) as [E | [E | E]]; [rewrite Z.add_0_r in E; exact E | lia | cbn in E; lia]).
    destruct (plausible_at l i Hl) as [Ed Ep]; [cbn in Hn; lia |]. apply IH; try assumption; try (cbn in Hn; lia).
    + intros k. destruct (Z.ltb_spec k 0) as [H | H]; [auto |]. destruct (Hr (k + 1)) as [E | [E | E]]; [left | lia | right; right; cbn in E; lia].
      rewrite <- Z.add_assoc, (Z.add_comm 1 k), <- E. unfold irq_at. replace (Z.to_nat (k + 1)) with (S (Z.to_nat k)) by lia. reflexivity.
    + destruct Hb as [B1 B2]. rewrite Eq, signalled_wants by exact Ed. destruct (wants (irq_at l i)) eqn:Ew; cbn [andb]; [destruct (Z.ltb_spec (priority (irq_at l i)) (fst best)) as [H | H] |].
      * split; [right; cbn; split; [lia |]; auto |]. cbn [fst snd]. intros j Hj Hw. destruct (Z.eq_dec j i) as [-> | N]; [right; lia |]. destruct (B2 j ltac:(lia) Hw) as [G | [G _]]; left; lia.
      * split; [destruct B1 as [B1 | (B1 & B3 & B4)]; [left; exact B1 | right; split; [lia |]; split; assumption] |]. intros j Hj Hw. destruct (Z.eq_dec j i) as [-> | N]; [| now apply B2; [lia |]]. destruct B1 as [-> | (B1 & _)]; cbn [fst snd] in *; lia.
      * split; [destruct B1 as [B1 | (B1 & B3 & B4)]; [left; exact B1 | right; split; [lia |]; split; assumption] |]. intros j Hj Hw. destruct (Z.eq_dec j i) as [-> | N]; [congruence |]. now apply B2; [lia |].
Qed.
Lemma best_loop_spec l : plausible l -> is_best l 96 (best_loop 0 l (0x100, 1023)).
Proof.
  intros Hl. apply best_loop_best; [exact Hl | lia | intros k; left; now rewrite Z.add_0_l | destruct Hl; lia |]. split; [now left | intros j Hj; lia].
Qed.
Lemma filter_none {A} (f : A -> bool) l : (forall x, In x l -> f x = false) -> List.filter f l = [].
Proof. induction l as [| x l IH]; intros H; [reflexivity |]. cbn. rewrite (H x) by (now left). apply IH. intros y Hy. apply H. now right. Qed.
Lemma flat_map_none {A B} (f : A -> list B) l : (forall x, In x l -> f x = []) -> flat_map f l = [].
Proof. induction l as [| x l IH]; intros H; [reflexivity |]. cbn. rewrite (H x) by (now left). apply IH. intros y Hy. apply H. now right. Qed.
Lemma in_seqZ x m n : In x (seqZ m n) <-> m <= x < m + n.
Proof. rewrite <- elem_of_seqZ. symmetry. apply list_elem_of_In. Qed.
Lemma seqZ_at n k : 0 <= k < n -> seqZ 0 n = seqZ 0 k ++ k :: seqZ (k + 1) (n - k - 1).
Proof. intros Hk. replace n with (k + (n - k)) at 1 by lia. rewrite seqZ_app by lia. f_equal. rewrite seqZ_cons by lia. do 2 f_equal; lia. Qed.
Lemma filter_first (f : Z -> bool) n k : 0 <= k < n -> f k = true -> (forall j, 0 <= j < k -> f j = false) -> exists r, List.filter f (seqZ 0 n) = k :: r.
Proof.
  intros Hk T F. rewrite (seqZ_at n k) by exact Hk. rewrite List.filter_app, (filter_none f (seqZ 0 k)) by (intros j Hj%in_seqZ; apply F; lia). cbn [app List.filter]. rewrite T. eauto.
Qed.
Lemma flat_map_first {B} (f : Z -> list B) n k x r : 0 <= k < n -> f k = x :: r -> (forall p, p < k -> f p = []) -> head (flat_map f (seqZ 0 n)) = Some x.
Proof.
  intros Hk E F. rewrite (seqZ_at n k) by exact Hk. rewrite flat_map_app, (flat_map_none f (seqZ 0 k)) by (intros p Hp%in_seqZ; apply F; lia). cbn [app flat_map]. now rewrite E.
Qed.
Lemma highest_ranked l mask best : plausible l -> mask <= 0x100 -> is_best l 96 best -> head (ranked l mask) = if fst best <? mask then Some (snd best) else None.
Proof.
  intros Hl Hm [B1 B2].
  assert (other : forall p j, 0 <= j < 96 -> p < fst best \/ (p = fst best /\ j < snd best) -> wants (irq_at l j) && (priority (irq_at l j) =? p) = false).
  { intros p j Hj Hp. destruct (wants (irq_at l j)) eqn:Ew; [| reflexivity]. cbn [andb]. apply Z.eqb_neq. destruct (B2 j Hj Ew); lia. }
  assert (low : forall p, p < fst best -> of_priority l p = []) by (intros p Hp; apply filter_none; intros j Hj%in_seqZ; apply other; lia).
  destruct (Z.ltb_spec (fst best) mask) as [H | H].
  - destruct B1 as [-> | (R & W & P)]; [cbn in H; lia |]. destruct (plausible_at l (snd best) Hl R) as [_ Rp]. assert (Hk : 0 <= fst best < mask) by lia.
    assert (Er : exists r, of_priority l (fst best) = snd best :: r) by (apply filter_first; [exact R | now rewrite W, P, Z.eqb_refl | intros j Hj; apply other; lia]).
    destruct Er as [r Er]. exact (flat_map_first (of_priority l) mask (fst best) _ _ Hk Er low).
  - unfold ranked. rewrite flat_map_none; [reflexivity |]. intros p Hp%in_seqZ. apply low. lia.
Qed.

(** *** The list of active interrupts *)

Fixpoint chain (la : list Z) (r : Z) (s : list Z) : Prop :=
  match s with [] => r = 1023 | i :: s => r = i /\ 0 <= i < 96 /\ exists next, vec_get la i = Ok next /\ chain la next s end.
Lemma chain_range la s : forall r, chain la r s -> Forall (fun i => 0 <= i < 96) s.
Proof. induction s as [| i s IH]; intros r H; [constructor |]. destruct H as (_ & R & x & _ & C). constructor; [exact R | exact (IH _ C)]. Qed.
Lemma chain_change la la1 s : forall r, (forall i, In i s -> vec_get la1 i = vec_get la i) -> chain la r s -> chain la1 r s.
Proof. induction s as [| i s IH]; intros r E H; [exact H |]. destruct H as (-> & R & x & G & C). split; [reflexivity |]. split; [exact R |]. exists x. rewrite E by (now left). split; [exact G |]. apply IH; [intros j Hj; apply E; now right | exact C]. Qed.
Lemma vec_get_set {A} (l : list A) i j x : 0 <= i < Z.of_nat (length l) -> vec_get (set_at l i x) j = if j =? i then Ok x else vec_get l j.
Proof.
  intros Hi. unfold vec_get. destruct (Z.ltb_spec j 0) as [H | H]; [destruct (Z.eqb_spec j i); [lia | reflexivity] |]. rewrite lookup_set_at by lia.
  destruct (Z.eqb_spec j i) as [-> | N]; [now rewrite decide_True | now rewrite decide_False by lia].
Qed.
Definition without (irq : Z) : list Z -> list Z := List.filter (fun j => negb (j =? irq)).
Lemma without_fresh irq s : ~ In irq s -> without irq s = s.
Proof. induction s as [| i s IH]; intros H; [reflexivity |]. cbn. destruct (Z.eqb_spec i irq) as [-> | N]; cbn; [exfalso; apply H; now left | f_equal; apply IH; intros X; apply H; now right]. Qed.
Lemma in_without irq s x : In x (without irq s) -> In x s /\ x <> irq.
Proof. intros H. apply filter_In in H as [H E]. split; [exact H |]. destruct (Z.eqb_spec x irq); [discriminate | assumption]. Qed.
(** Unlinking takes an interrupt from below the top of the list, and ends. *)
Lemma unlink_chain irq s : forall n la tmp, length la = 96%nat -> chain la tmp (tmp :: s) -> List.NoDup (tmp :: s) -> irq <> tmp -> (length s < n)%nat ->
  exists la1, unlink n la irq tmp = Ok la1 /\ length la1 = 96%nat /\ chain la1 tmp (tmp :: without irq s) /\ forall k, ~ In k (tmp :: s) -> vec_get la1 k = vec_get la k.
Proof.
  induction s as [| y s IH]; intros n la tmp El C Hd Ni Hn; (destruct n as [| n]; [cbn in Hn; lia |]); cbn [unlink]; destruct C as (_ & R & x & G & C); rewrite G; cbn [rbind].
  - cbn in C. subst x. exists la. rewrite Z.eqb_refl. repeat split; try assumption; try lia. exists 1023. split; [exact G | reflexivity].
  - pose proof C as C0. destruct C as (-> & Ry & z & Gz & C). rewrite (proj2 (Z.eqb_neq y 1023)) by lia. inversion Hd as [| ? ? Ht Hd1]; subst. inversion Hd1 as [| ? ? Hy Hd2]; subst.
    destruct (Z.eqb_spec y irq) as [-> | N].
    + rewrite Gz. cbn [rbind]. exists (set_at la tmp z). rewrite (proj2 (vec_set_Ok la (set_at la tmp z) tmp z)) by (split; [lia | reflexivity]). rewrite length_set_at. split; [reflexivity |]. split; [exact El |].
      split.
      * cbn [without List.filter]. rewrite Z.eqb_refl. cbn [negb]. fold (without irq s). rewrite without_fresh by exact Hy. split; [reflexivity |]. split; [exact R |]. exists z. rewrite vec_get_set, Z.eqb_refl by lia. split; [reflexivity |].
        apply (chain_change la); [| exact C]. intros i Hi. rewrite vec_get_set by lia. destruct (Z.eqb_spec i tmp) as [-> | _]; [exfalso; apply Ht; now right | reflexivity].
      * intros k Hk. rewrite vec_get_set by lia. destruct (Z.eqb_spec k tmp) as [-> | _]; [exfalso; apply Hk; now left | reflexivity].
    + destruct (IH n la y El C0 Hd1 ltac:(congruence) ltac:(cbn in Hn; lia)) as (la1 & E1 & L1 & C1 & K1). exists la1. split; [exact E1 |]. split; [exact L1 |]. split.
      * cbn [without List.filter]. rewrite (proj2 (Z.eqb_neq y irq)) by congruence. cbn [negb]. fold (without irq s). split; [reflexivity |]. split; [exact R |]. exists y. rewrite K1 by exact Ht. split; [exact G | exact C1].
      * intros k Hk. apply K1. intros X. apply Hk. now right.
Qed.
Definition ascending (l : list GICIRQLine) : list Z -> Prop := StronglySorted (fun i j => priority (irq_at l i) < priority (irq_at l j)).
Lemma ascending_nodup l s : ascending l s -> List.NoDup s.
Proof.
  induction 1 as [| i s _ IH F]; constructor; [| exact IH]. intros Hi. apply (proj1 (List.Forall_forall _ _) F) in Hi. lia.
Qed.
Lemma ascending_without l irq s : ascending l s -> ascending l (without irq s).
Proof.
  induction 1 as [| i s S IH F]; [constructor |]. cbn [without List.filter]. destruct (negb _); [| exact IH]. constructor; [exact IH |]. apply List.Forall_forall. intros j Hj%in_without. now apply (proj1 (List.Forall_forall _ _) F).
Qed.
Lemma ascending_ext l k s : (forall i, In i s -> priority (irq_at k i) = priority (irq_at l i)) -> ascending l s -> ascending k s.
Proof.
  intros E. induction 1 as [| i s S IH F]; constructor; [apply IH; intros j Hj; apply E; now right |]. apply List.Forall_forall. intros j Hj. rewrite !E by (cbn; auto). now apply (proj1 (List.Forall_forall _ _) F).
Qed.
Lemma active_few s : Forall (fun i => 0 <= i < 96) s -> List.NoDup s -> (length s <= 96)%nat.
Proof.
  intros R D. change 96%nat with (length (seqZ 0 96)). apply NoDup_incl_length; [exact D |]. intros i Hi. apply in_seqZ. apply list_elem_of_In in Hi. rewrite Forall_forall in R. specialize (R i Hi). lia.
Qed.

(** *** The controller refines the stack *)

Section Refinement.
Context {L : Type} `{LL : IRQLine L}.
Variable fuel : nat.
Hypothesis Hfuel : (96 <= fuel)%nat.
Implicit Types (g : GIC L) (n : nest).

Record settled g n : Prop := mkSettled {
  s_irqs : irqs g = n_irqs n;
  s_plausible : plausible (n_irqs n);
  s_dist : Z.testbit (dist_ctrl g) 0 = n_dist n;
  s_cpu : Z.testbit (cpu_ctrl g) 0 = n_cpu n;
  s_mask : prio_mask g = n_mask n /\ n_mask n <= 0xff;
  s_length : length (last_active g) = 96%nat;
  s_chain : chain (last_active g) (running_irq g) (n_active n);
  s_ascending : ascending (n_irqs n) (n_active n);
  s_running : running_priority g = top_priority n }.
Definition shows g n : Prop :=
  current_pending g = default 1023 (highest n) /\ irq_IsAsserted (irq_line g) = match interrupts n with Some _ => true | None => false end.

Lemma update_shows g n : settled g n -> settled (update g) n /\ shows (update g) n.
Proof.
  intros S. assert (K : forall p l, settled (with_output p l g) n) by (destruct S; split; assumption). destruct S as [E1 Hp E2 E3 [E4 Hm] El Hc Ha Er]. unfold update, shows, interrupts, highest. rewrite E1, E2, E3, E4, Er.
  destruct (n_dist n), (n_cpu n); cbn [negb orb andb]; try (split; [apply K |]; split; [reflexivity | apply asserted_Rescind]).
  pose proof (best_loop_spec _ Hp) as B. rewrite (highest_ranked (n_irqs n) (n_mask n) _ Hp ltac:(lia) B). destruct (best_loop 0 (n_irqs n) (0x100, 1023)) as [bp bi]. cbn [fst snd] in *.
  split; [apply K |]. destruct (Z.ltb_spec bp (n_mask n)) as [H | H]; cbn [andb default with_output current_pending irq_line]; [| split; [reflexivity | apply asserted_Rescind]].
  destruct B as [[B | (R & W & P)] _]; [injection B as -> ->; lia |]. cbn [fst snd] in *. split; [reflexivity |]. rewrite P. destruct (bp <? top_priority n); [apply asserted_Assert | apply asserted_Rescind].
Qed.
Lemma settled_irqs g n h : settled g n -> (forall i q, edge_triggered q = false /\ 0 <= priority q < 0x100 -> edge_triggered (h i q) = false /\ 0 <= priority (h i q) < 0x100) ->
  (forall i, In i (n_active n) -> priority (h i (irq_at (n_irqs n) i)) = priority (irq_at (n_irqs n) i)) -> settled (with_irqs (each h (irqs g)) g) (on_irqs h n).
Proof.
  intros [E1 Hp E2 E3 E4 El Hc Ha Er] Hh Hk. pose proof (chain_range _ _ _ Hc) as R.
  assert (K : forall i, In i (n_active n) -> priority (irq_at (each h (n_irqs n)) i) = priority (irq_at (n_irqs n) i)).
  { intros i Hi. assert (0 <= i < 96) by (rewrite Forall_forall in R; apply R; now apply list_elem_of_In). rewrite irq_at_each by (destruct Hp; lia). now apply Hk. }
  split; cbn; try assumption; [now rewrite E1 | now apply plausible_each | exact (ascending_ext _ _ _ K Ha) |].
  rewrite Er. unfold top_priority. cbn. destruct (n_active n) as [| i s]; [reflexivity |]. symmetry. apply K. now left.
Qed.
Lemma settled_same g n h : settled g n -> (forall i q, edge_triggered (h i q) = edge_triggered q /\ priority (h i q) = priority q) -> settled (with_irqs (each h (irqs g)) g) (on_irqs h n).
Proof. intros S Hh. apply settled_irqs; [exact S | intros i q Hq; destruct (Hh i q) as [-> ->]; exact Hq | intros i _; apply Hh]. Qed.
Lemma highest_range n i : plausible (n_irqs n) -> n_mask n <= 0xff -> highest n = Some i -> 0 <= i < 96.
Proof.
  intros Hp Hm. unfold highest. destruct (_ && _); [| discriminate]. pose proof (best_loop_spec _ Hp) as B. rewrite (highest_ranked (n_irqs n) (n_mask n) _ Hp ltac:(lia) B). destruct (Z.ltb_spec (fst (best_loop 0 (n_irqs n) (0x100, 1023))) (n_mask n)) as [H | H]; [| discriminate].
  intros [= <-]. destruct B as [[B | (R & _)] _]; [rewrite B in H; cbn in H; lia | exact R].
Qed.

Lemma acknowledge_refines g n : settled g n -> shows g n -> exists g1, acknowledge g = Ok (fst (nest_step Acknowledge n), g1) /\ settled g1 (snd (nest_step Acknowledge n)) /\ shows g1 (snd (nest_step Acknowledge n)).
Proof.
  intros S (Ec & Ei). unfold acknowledge. cbn zeta. rewrite Ec. unfold nest_step, interrupts in *. destruct (highest n) as [i |] eqn:Eh; cbn [default] in *; unfold id in *; [| exists g; rewrite Z.eqb_refl; repeat split; try apply S; cbn; unfold interrupts; rewrite ?Eh; auto].
  pose proof S as S0. destruct S as [E1 Hp E2 E3 [E4 Hm] El Hc Ha Er]. pose proof (highest_range n i Hp Hm Eh) as R. rewrite (proj2 (Z.eqb_neq i 1023)) by lia. rewrite E1. assert (Len : length (n_irqs n) = 96%nat) by apply Hp.
  unfold get_gic_irq at 1. rewrite (proj2 (Z.ltb_lt i 96)), vec_get_irq by lia. cbn [rbind]. rewrite Er. destruct (Z.ltb_spec (priority (irq_at (n_irqs n) i)) (top_priority n)) as [H | H].
  - rewrite (proj2 (Z.leb_gt _ _)) by exact H. rewrite (proj2 (vec_set_Ok (last_active g) _ i (running_irq g))) by (split; [lia | reflexivity]). cbn [rbind]. rewrite change_irq_each by assumption. cbn [rbind].
    unfold get_gic_irq. rewrite (proj2 (Z.ltb_lt i 96)), vec_get_irq by (rewrite ?length_each; lia). cbn [rbind]. eexists. split; [reflexivity |]. cbn [fst snd]. apply update_shows.
    assert (Fresh : ~ In i (n_active n)).
    { intros Hi. unfold top_priority in H. destruct (n_active n) as [| j s]; [exact Hi |]. inversion Ha as [| ? ? _ F]; subst. destruct Hi as [-> | Hi]; [lia |]. apply (proj1 (List.Forall_forall _ _) F) in Hi. lia. }
    destruct (settled_same g n (fun j q => if j =? i then pend_irq false q else q) S0) as [F1 Fp F2 F3 F4 Fl Fc Fa Fr]; [intros j q; now destruct (j =? i) |].
    rewrite E1 in F1. split; cbn in *; try assumption; try reflexivity.
    + now rewrite length_set_at.
    + split; [reflexivity |]. split; [exact R |]. exists (running_irq g). rewrite vec_get_set, Z.eqb_refl by lia. split; [reflexivity |]. apply (chain_change (last_active g)); [| exact Fc]. intros j Hj. rewrite vec_get_set by lia. destruct (Z.eqb_spec j i) as [-> |]; [contradiction | reflexivity].
    + constructor; [exact Fa |]. apply List.Forall_forall. intros j Hj. rewrite Er in Fr. unfold top_priority in Fr at 2. cbn in Fr.
      assert (T : top_priority n <= priority (irq_at (n_irqs n) j)).
      { unfold top_priority. destruct (n_active n) as [| k s]; [contradiction |]. inversion Ha as [| ? ? _ F]; subst. destruct Hj as [-> | Hj]; [lia |]. apply (proj1 (List.Forall_forall _ _) F) in Hj. lia. }
      assert (Rj : 0 <= j < 96) by (pose proof (chain_range _ _ _ Hc) as RR; rewrite Forall_forall in RR; apply RR; now apply list_elem_of_In).
      rewrite !irq_at_each by lia. rewrite Z.eqb_refl. destruct (j =? i); cbn; lia.
  - rewrite (proj2 (Z.leb_le _ _)) by exact H. exists g. cbn [fst snd]. split; [reflexivity |]. split; [exact S0 |]. split; [now rewrite Eh | unfold interrupts; rewrite Eh; now rewrite (proj2 (Z.ltb_ge _ _))].
Qed.
Lemma complete_refines g n irq : settled g n -> shows g n -> exists g1, complete fuel irq g = Ok g1 /\ settled g1 (with_active (without irq (n_active n)) n) /\ shows g1 (with_active (without irq (n_active n)) n).
Proof.
  intros S Sh. pose proof S as S0. destruct S as [E1 Hp E2 E3 E4 El Hc Ha Er]. pose proof (chain_range _ _ _ Hc) as R. unfold complete.
  assert (same : ~ In irq (n_active n) -> with_active (without irq (n_active n)) n = n) by (intros N; rewrite without_fresh by exact N; now destruct n).
  destruct (Z.leb_spec 96 irq) as [H | H]; [exists g; rewrite same; [auto |]; intros Hi; rewrite Forall_forall in R; apply list_elem_of_In, R in Hi; lia |].
  destruct (Z.eqb_spec (running_irq g) 1023) as [E | E].
  { exists g. rewrite same; [auto |]. destruct (n_active n) as [| i s]; [easy |]. destruct Hc as (Hr & Ri & _). lia. }
  destruct (n_active n) as [| i s] eqn:En; [cbn in Hc; contradiction |]. pose proof Hc as (Ei & Ri & x & Gx & Cx). rewrite Ei. rewrite Ei in E, Hc. fold (without irq) in *. pose proof (ascending_nodup _ _ Ha) as Hd.
  destruct (Z.eqb_spec irq i) as [-> | N]; cbn [negb].
  - rewrite Gx. cbn [rbind]. cbn [without List.filter]. rewrite Z.eqb_refl. cbn [negb]. fold (without i s). inversion Hd as [| ? ? Hi Hd1]; subst. rewrite without_fresh by exact Hi. inversion Ha as [| ? ? Ha1 _]; subst. destruct s as [| j s].
    + cbn in Cx. subst x. cbn [Z.eqb Pos.eqb]. eexists. split; [reflexivity |]. apply update_shows. split; cbn; try assumption; reflexivity.
    + pose proof Cx as (-> & Rj & _). rewrite (proj2 (Z.eqb_neq j 1023)) by lia. unfold get_gic_irq. rewrite E1, (proj2 (Z.ltb_lt j 96)), vec_get_irq by (try lia; destruct Hp; lia). cbn [rbind]. eexists. split; [reflexivity |]. apply update_shows. split; cbn; try assumption; reflexivity.
  - destruct (unlink_chain irq s fuel (last_active g) i El Hc Hd N) as (la1 & Eu & L1 & C1 & _); [pose proof (active_few _ R Hd) as F; cbn in F; lia |]. rewrite Eu. cbn [rbind]. eexists. split; [reflexivity |]. apply update_shows.
    assert (Ew : without irq (i :: s) = i :: without irq s) by (cbn; now rewrite (proj2 (Z.eqb_neq i irq)) by congruence). rewrite Ew. split; cbn; try assumption.
    + rewrite <- Ew. now apply ascending_without.
    + rewrite Er. unfold top_priority. now rewrite En.
Qed.
Lemma on_same g n h : settled g n -> (forall i q, edge_triggered (h i q) = edge_triggered q /\ priority (h i q) = priority q) ->
  settled (update (with_irqs (each h (irqs g)) g)) (on_irqs h n) /\ shows (update (with_irqs (each h (irqs g)) g)) (on_irqs h n).
Proof. intros S Hh. apply update_shows. now apply settled_same. Qed.
Lemma low_bit v : Z.testbit (Z.land v 1) 0 = Z.testbit v 0.
Proof. change 1 with (Z.ones 1). rewrite Z.land_spec, Z.ones_spec_low by lia. apply andb_true_r. Qed.
(** A write to the bits of interrupts, at a register of their bytes. *)
Lemma bits_refine g n off len data f fs : settled g n -> (0 <=? off) && (off <=? 8) && (0 <=? len) && (off + len <=? 12) = true ->
  (forall q, edge_triggered q = false -> f q = fs q) -> (forall q, edge_triggered (fs q) = edge_triggered q /\ priority (fs q) = priority q) ->
  exists l, each_byte (change_bits f) 8 (Z.to_nat len) (off * 8) data (irqs g) = Ok l /\ settled (update (with_irqs l g)) (on_chosen off len data fs n) /\ shows (update (with_irqs l g)) (on_chosen off len data fs n).
Proof.
  intros S A Hf Hfs. rewrite !andb_true_iff, !Z.leb_le in A. destruct (s_plausible _ _ S) as [E F]. rewrite each_byte_bits by (rewrite ?(s_irqs _ _ S); lia). eexists. split; [reflexivity |].
  set (h := fun j q => if chosen off len data j then fs q else q).
  replace (each _ (irqs g)) with (each h (irqs g)); [apply on_same; [exact S |]; intros i q; unfold h; destruct (chosen _ _ _ _); auto |].
  apply each_ext. rewrite (s_irqs _ _ S). intros j Hj. unfold h, chosen. rewrite Z2Nat.id by lia. replace (off * 8) with (8 * off) by lia. replace (8 * off + 8 * len) with (8 * (off + len)) by lia.
  destruct (_ && _ && _); [| reflexivity]. symmetry. apply Hf. apply plausible_at; [exact (s_plausible _ _ S) | lia].
Qed.
Lemma prioritise_refines g n off len data : settled g n -> admits (Prioritise off len data) n = true ->
  exists l, each_byte (fun i p => change_irq (prioritise_irq p) i) 1 (Z.to_nat len) off data (irqs g) = Ok l
    /\ settled (update (with_irqs l g)) (snd (nest_step (Prioritise off len data) n)) /\ shows (update (with_irqs l g)) (snd (nest_step (Prioritise off len data) n)).
Proof.
  intros S A. cbn [admits] in A. rewrite !andb_true_iff, !Z.leb_le in A. destruct A as [A K]. destruct (s_plausible _ _ S) as [E F]. rewrite each_byte_priority by (rewrite ?(s_irqs _ _ S); lia). eexists. split; [reflexivity |]. rewrite Z2Nat.id by lia.
  cbn [nest_step snd]. apply update_shows. apply settled_irqs; [exact S | |].
  - intros i q Hq. destruct (_ && _); [| exact Hq]. split; [apply Hq |]. cbn. unfold byte_of. change 0xff with (Z.ones 8). rewrite Z.land_ones by lia. apply Z.mod_pos_bound. lia.
  - intros i Hi. rewrite forallb_forall in K. specialize (K i Hi). destruct ((off <=? i) && (i <? off + len)) eqn:B; [| reflexivity]. cbn in K. apply Z.eqb_eq in K. exact K.
Qed.
Lemma line_up_refines g n i : settled g n -> shows g n -> 0 <= i < 96 -> exists g1, AssertLine i g = Ok g1 /\ settled g1 (snd (nest_step (LineUp i) n)) /\ shows g1 (snd (nest_step (LineUp i) n)).
Proof.
  intros S Sh Hi. unfold AssertLine. cbn [nest_step snd]. destruct (s_plausible _ _ S) as [E F]. rewrite vec_get_irq by (rewrite (s_irqs _ _ S); lia). cbn [rbind]. rewrite (s_irqs _ _ S). destruct (plausible_at _ i (s_plausible _ _ S) Hi) as [Ed _].
  set (h := fun j q => if j =? i then raise_irq true q else q). destruct (raised (irq_at (n_irqs n) i)) eqn:Er; cbn [negb].
  - exists g. split; [reflexivity |]. replace (on_irqs h n) with n; [auto |]. unfold on_irqs. rewrite each_id; [now destruct n |]. intros j Hj. unfold h. destruct (Z.eqb_spec j i) as [-> | _]; [| reflexivity]. destruct (irq_at (n_irqs n) i); cbn in *. now subst.
  - change (edge_triggered (raise_irq true (irq_at (n_irqs n) i))) with (edge_triggered (irq_at (n_irqs n) i)). rewrite Ed. rewrite (vec_set_irq (raise_irq true)) by lia. cbn [rbind]. eexists. split; [reflexivity |]. rewrite <- (s_irqs _ _ S). apply on_same; [exact S |]. intros j q. unfold h. now destruct (j =? i).
Qed.
Lemma line_down_refines g n i : settled g n -> shows g n -> 0 <= i < 96 -> exists g1, RescindLine i g = Ok g1 /\ settled g1 (snd (nest_step (LineDown i) n)) /\ shows g1 (snd (nest_step (LineDown i) n)).
Proof.
  intros S Sh Hi. unfold RescindLine. cbn [nest_step snd]. destruct (s_plausible _ _ S) as [E F]. rewrite vec_get_irq by (rewrite (s_irqs _ _ S); lia). cbn [rbind]. rewrite (s_irqs _ _ S).
  set (h := fun j q => if j =? i then raise_irq false q else q). destruct (raised (irq_at (n_irqs n) i)) eqn:Er.
  - rewrite (vec_set_irq (raise_irq false)) by lia. cbn [rbind]. eexists. split; [reflexivity |]. rewrite <- (s_irqs _ _ S). apply on_same; [exact S |]. intros j q. unfold h. now destruct (j =? i).
  - exists g. split; [reflexivity |]. replace (on_irqs h n) with n; [auto |]. unfold on_irqs. rewrite each_id; [now destruct n |]. intros j Hj. unfold h. destruct (Z.eqb_spec j i) as [-> | _]; [| reflexivity]. destruct (irq_at (n_irqs n) i); cbn in *. now subst.
Qed.
(** Which register of the distributor an offset is. *)
Ltac registers off len A N B Z0 :=
  unfold dist_Write; cbn zeta; match goal with |- context [?b + off =? 0] => rewrite (Z0 b off len ltac:(lia) A) end;
  repeat match goal with
  | |- context [offset_in (?b + off) ?lo ?hi] =>
      first [rewrite (N b off len lo hi A ltac:(lia)) | let H := fresh in assert (H : offset_in (b + off) lo hi = true) by exact (B b off len A); rewrite H]
  end; match goal with |- context [?b + off - ?b] => replace (b + off - b) with off by lia end; reflexivity.
Lemma gic_step e g n : settled g n -> shows g n -> admits e n = true ->
  exists g1, gic_call fuel e g = Ok (fst (nest_step e n), g1) /\ settled g1 (snd (nest_step e n)) /\ shows g1 (snd (nest_step e n)).
Proof.
  intros S Sh A.
  assert (bits : forall off len data f fs (w : result (bool * GIC L)), w = (let* l := each_byte (change_bits f) 8 (Z.to_nat len) (off * 8) data (irqs g) in Ok (true, update (with_irqs l g))) ->
    (0 <=? off) && (off <=? 8) && (0 <=? len) && (off + len <=? 12) = true -> (forall q, edge_triggered q = false -> f q = fs q) -> (forall q, edge_triggered (fs q) = edge_triggered q /\ priority (fs q) = priority q) ->
    exists g1, written w = Ok (0, g1) /\ settled g1 (on_chosen off len data fs n) /\ shows g1 (on_chosen off len data fs n)).
  { intros off len data f fs w -> B Hf Hfs. destruct (bits_refine g n off len data f fs S B Hf Hfs) as (l & -> & S1 & Sh1). cbn. eauto. }
  assert (B : forall base off len, (0 <=? off) && (off <=? 8) && (0 <=? len) && (off + len <=? 12) = true -> offset_in (base + off) base (base + 8) = true) by (intros base off len B; rewrite !andb_true_iff, !Z.leb_le in B; unfold offset_in; now rewrite !(proj2 (Z.leb_le _ _)) by lia).
  assert (N : forall base off len lo hi, (0 <=? off) && (off <=? 8) && (0 <=? len) && (off + len <=? 12) = true -> hi < base \/ base + 8 < lo -> offset_in (base + off) lo hi = false).
  { intros base off len lo hi C Hb. rewrite !andb_true_iff, !Z.leb_le in C. unfold offset_in. destruct (Z.leb_spec lo (base + off)), (Z.leb_spec (base + off) hi); try reflexivity; lia. }
  assert (Z0 : forall base off len, 0 < base -> (0 <=? off) && (off <=? 8) && (0 <=? len) && (off + len <=? 12) = true -> (base + off =? 0) = false) by (intros base off len Hb C; rewrite !andb_true_iff, !Z.leb_le in C; apply Z.eqb_neq; lia).
  assert (cpu : forall c m v, Z.testbit c 0 = n_cpu v -> m = n_mask v -> m <= 0xff -> n_irqs v = n_irqs n -> n_dist v = n_dist n -> n_active v = n_active n -> forall b, settled (update (with_cpu c m b g)) v /\ shows (update (with_cpu c m b g)) v).
  { intros c m v V1 V2 Vm V3 V4 V5 b. apply update_shows. destruct S as [E1 Hp E2 E3 E4 El Hc Ha Er]. split; cbn; rewrite ?V3, ?V4, ?V5; try assumption; [split; [assumption | lia] |]. rewrite Er. unfold top_priority. now rewrite V3, V5. }
  destruct e; cbn [gic_call nest_step fst snd]; try (eapply bits; [registers off len A N B Z0 | exact A | intros q Hq | intros q; split; reflexivity]; try reflexivity).
  - cbn in A. rewrite andb_true_iff, Z.leb_le, Z.ltb_lt in A. destruct (line_up_refines g n i S Sh A) as (g1 & -> & H). cbn. eauto.
  - cbn in A. rewrite andb_true_iff, Z.leb_le, Z.ltb_lt in A. destruct (line_down_refines g n i S Sh A) as (g1 & -> & H). cbn. eauto.
  - unfold dist_Write. cbn [Z.eqb written rbind fst snd]. eexists. split; [reflexivity |]. apply update_shows. destruct S as [E1 Hp E2 E3 E4 El Hc Ha Er]. split; try assumption. apply low_bit.
  - unfold set_enabled_irq. cbn. rewrite Hq. unfold enable_irq, pend_irq. destruct q as [en pe ra ed pr]. cbn in *. subst ed. destruct ra, pe; reflexivity.
  - destruct (prioritise_refines g n off len data S A) as (l & El & H). cbn [admits] in A. rewrite !andb_true_iff, !Z.leb_le in A.
    unfold dist_Write, offset_in. rewrite (proj2 (Z.eqb_neq _ 0)) by lia. do 4 rewrite (proj2 (Z.leb_gt (0x400 + off) _)), andb_false_r by lia. rewrite !(proj2 (Z.leb_le _ _)) by lia. cbn [andb].
    replace (0x400 + off - 0x400) with off by lia. rewrite El. cbn. eauto.
  - unfold cpu_Write. cbn [Z.eqb written rbind fst snd]. eexists. split; [reflexivity |]. apply cpu; try reflexivity; [apply low_bit | apply S | destruct (s_mask _ _ S) as [-> ?]; assumption].
  - unfold cpu_Write. cbn [Z.eqb Pos.eqb written rbind fst snd]. eexists. split; [reflexivity |]. apply cpu; try reflexivity; [apply S |]. change 0xff with (Z.ones 8). rewrite Z.land_ones by lia. pose proof (Z.mod_pos_bound v (2 ^ 8) ltac:(lia)). change (Z.ones 8) with 255. lia.
  - destruct (acknowledge_refines g n S Sh) as (g1 & E & H). exists g1. cbn. rewrite E. split; [reflexivity | exact H].
  - destruct (complete_refines g n (u32 i) S Sh) as (g1 & E & H). exists g1. unfold cpu_Write. cbn [Z.eqb Pos.eqb]. rewrite E. split; [reflexivity | exact H].
  - exists g. cbn. rewrite (s_running _ _ S). auto.
  - exists g. cbn. rewrite (proj1 Sh). auto.
Qed.
Lemma gic_runs es : forall g n answers n1, settled g n -> shows g n -> nest_run es n = Some (answers, n1) -> exists g1, gic_run fuel es g = Ok (answers, g1) /\ settled g1 n1 /\ shows g1 n1.
Proof.
  induction es as [| e r IH]; intros g n answers n1 S Sh E; cbn [nest_run gic_run] in *; [injection E as <- <-; eauto |]. destruct (admits e n) eqn:A; [| discriminate]. cbn zeta in E. destruct (nest_run r (snd (nest_step e n))) as [[a n2] |] eqn:Er; [| discriminate]. injection E as <- <-.
  destruct (gic_step e g n S Sh A) as (g1 & -> & S1 & Sh1). cbn [rbind snd]. destruct (IH g1 _ _ _ S1 Sh1 Er) as (g2 & -> & H). exists g2. split; [reflexivity | exact H].
Qed.
(** C28. From reset on, with a line that is not asserted, devices
    raise and lower any of the 96 lines, and the guest enables, disables, pends,
    unpends and prioritises interrupts that exist, in any width, switches the
    distributor and the interface, masks, acknowledges and completes, in any
    order, as long as the priority of an interrupt stays as it is while the
    interrupt is handled. Then every operation ends, with 96 steps for the
    search in the list, and answers as the stack of nested interrupts does; the
    line to the processor is asserted exactly when the enabled interrupt of the
    least priority number below the mask, and of those the least, is of a lower
    number than the one that runs; and the priorities of the interrupts that
    are handled strictly ascend from the running one. *)
Theorem gic_refines_nesting cfg l es answers n : irq_IsAsserted l = false -> nest_run es new_nest = Some (answers, n) ->
  exists g, gic_run fuel es (new_GIC cfg l) = Ok (answers, g)
    /\ irq_IsAsserted (irq_line g) = match interrupts n with Some _ => true | None => false end
    /\ ascending (irqs g) (n_active n).
Proof.
  intros Hl E. destruct (gic_runs es (new_GIC cfg l) new_nest answers n) as (g & R & S & Sh); [| | exact E |].
  - split; try reflexivity; [split; [reflexivity |]; repeat (constructor; [cbn; lia |]); constructor | split; [reflexivity | cbn; lia] | constructor].
  - split; [reflexivity | exact Hl].
  - exists g. split; [exact R |]. split; [apply Sh |]. rewrite (s_irqs _ _ S). apply S.
Qed.
End Refinement.

(** *** An example, and a list that goes round *)

Definition demo_line : IRQLine ThreadInstance := cpu_line 0.
Definition demo_events : list gic_event :=
  [DistControl 1; CpuControl 1; Mask 0xff; Prioritise 4 4 0x10203040; Enable 0 4 0xf0; LineUp 4; Acknowledge; LineUp 6; LineUp 7; Acknowledge; Complete 4; LineDown 7; Complete 7; HighestPending].
Lemma gic_refines_nesting_witness : exists n g,
  nest_run demo_events new_nest = Some ([0; 0; 0; 0; 0; 0; 4; 0; 0; 7; 0; 0; 0; 6], n)
  /\ gic_run (LL := demo_line) 96 demo_events (new_GIC (replicate 6 0) (new_thread 0)) = Ok ([0; 0; 0; 0; 0; 0; 4; 0; 0; 7; 0; 0; 0; 6], g) /\ asserted (irq_line g) 0 = true.
Proof.
  destruct (nest_run demo_events new_nest) as [[a n] |] eqn:E; [| vm_compute in E; discriminate E].
  destruct (gic_refines_nesting (LL := demo_line) 96 (le_n 96) (replicate 6 0) (new_thread 0) demo_events a n eq_refl E) as (g & G & I & _). exists n, g.
  assert (X : option_map (fun x => (fst x, interrupts (snd x))) (nest_run demo_events new_nest) = Some ([0; 0; 0; 0; 0; 0; 4; 0; 0; 7; 0; 0; 0; 6], Some 6)) by (vm_compute; reflexivity).
  rewrite E in X. cbn [option_map fst snd] in X. assert (Ea : a = [0; 0; 0; 0; 0; 0; 4; 0; 0; 7; 0; 0; 0; 6]) by congruence. assert (Ei : interrupts n = Some 6) by congruence.
  rewrite Ei in I. rewrite Ea in *. split; [reflexivity |]. split; [exact G | exact I].
Defined.
Lemma unlink_circle la irq tmp n : vec_get la tmp = Ok tmp -> tmp <> 1023 -> tmp <> irq -> unlink n la irq tmp = Err OutOfFuel.
Proof. intros E N1 N2. induction n as [| n IH]; cbn [unlink]; [reflexivity |]. rewrite E. cbn [rbind]. now rewrite (proj2 (Z.eqb_neq _ _) N1), (proj2 (Z.eqb_neq _ _) N2). Qed.
(** A guest that lowers the number of the priority of an interrupt it handles
    gets it again; the completion of another one then never ends. *)
Lemma complete_never_ends : exists g, rmap snd (gic_run (LL := demo_line) 96
    [DistControl 1; CpuControl 1; Mask 0xff; Prioritise 4 1 0x20; Enable 0 1 0x10; LineUp 4; Acknowledge; Prioritise 4 1 0x10; Acknowledge] (new_GIC (replicate 6 0) (new_thread 0))) = Ok g
  /\ forall fuel, complete (LL := demo_line) fuel 5 g = Err OutOfFuel.
Proof.
  eexists. split; [vm_compute; reflexivity |]. intros fuel. unfold complete. cbn [running_irq last_active running_priority Z.leb Z.eqb Z.compare Pos.compare Pos.compare_cont Pos.eqb negb].
  rewrite unlink_circle by (reflexivity || lia). reflexivity.
Qed.
End GIC.
